(* ===== verification/_CoqProject ===== *)
-Q . S2P
Prelude.v
Crypto.v
Ids.v
Pack.v
IndexMap.v
Index.v
MasterIndex.v
Backend.v
Repository.v
Duration.v
Terminal.v
Keys.v
Snapshots.v
Policy.v
Locks.v
Trees.v
NodeJSON.v
UsedBlobs.v
Paths.v
Glob.v
Filter.v
Walker.v
FileInfo.v
Disk.v
Layouts.v
Store.v
Url.v
Selfupdate.v
Configs.v
Remote.v
Services.v
Rest.v
Local.v
Sftp.v
Cloud.v
Migration.v
Options.v
Locations.v
Rapi.v
Cache.v
ArchTree.v
Archiver.v
Scanner.v
Vss.v
Progress.v
Checker.v
Contents.v
Mount.v
Dump.v
FileRestorer.v
Nodes.v
Restorer.v
Backup.v
Commands.v
Api.v
