(* ===== verification/Prelude.v ===== *)
(** * rapi: a verification library for the restic API in Go

    The program (src/) is a fork of restic: a backup tool whose repository is
    a set of files in a storage backend.  Files are cut into chunks; chunks
    and directory listings are blobs, named after their SHA-256 hash,
    encrypted, and put into pack files; index files say where each blob is;
    a snapshot file names the root of a tree of listings.  This library models
    the layers of the program in Rocq and proves what they promise to each
    other.

    ** Conventions

    Go functions are functions of type [res E A] (this file): a value, an
    error, or a panic.  Methods that change an object take and return its
    state.  Integers are [Z] with the wrap-around written out ([u32], [u64],
    [i64], below) where the code can overflow; byte slices are lists of bytes;
    Go maps are [gmap]s, and where the code ranges over a map, an order is a
    parameter that is only known to be a permutation.  Code outside the
    repository (AES, Poly1305, SHA-256, scrypt, JSON, chunker, LRU lists,
    system calls, random numbers, the clock) is a parameter, with the laws
    that are relied on as classes or section hypotheses; every theorem with
    hypotheses has a witness that instantiates them.

    Concurrency: worker pools are run one job after the other, except where
    the interleaving is the point: the locks of several processes (Locks; with
    refreshes, removals of stale and of all locks, dying processes and loads
    that fail) and the concurrent stream of trees (UsedBlobs; with loads that
    fail or panic) are step relations over all interleavings.  Contexts are live during a call unless an operation takes
    a context argument.  The status display of a backup (Progress) receives its
    messages in any order.  Logging is left out.

    ** Files

    - Prelude (this file): outcomes, machine integers, bytes, little-endian
      numbers, Go slices, list lemmas, an injective encoding of countable
      types for the witnesses, hints and tactics.
    - Crypto: src/crypto/crypto.go, keys and [Seal]/[Open].
    - Ids: src/restic/id.go, ids.go, idset.go, blob.go, blob_set.go.
    - Pack: src/pack/pack.go, the [Packer] and the reader of pack headers.
    - IndexMap, Index, MasterIndex: src/repository/indexmap.go, index.go,
      master_index.go.
    - Backend: src/restic/backend.go, file.go, rewind_reader.go, readerat.go,
      backend_find.go and src/backend: the interface of backends as a record of
      operations, its laws as classes ([StoreLaws], [FileLaws], [QuietLaws],
      [MissingLaws], [ListLaws], [DirLaws]), the memory, dry-run, retrying and
      failing backends, and programs that use a backend ([prog]).
    - Repository: src/repository/repository.go, packer_manager.go, repack.go in
      a state and error monad.
    - Keys: src/repository/key.go, key_rapi.go, src/crypto/kdf.go,
      src/restic/config.go, [Init] and [SearchKey].
    - Duration, Snapshots, Policy: src/restic/duration.go, snapshot.go,
      tag_list.go, snapshot_group.go, snapshot_find.go, snapshot_policy.go.
    - Locks: src/restic/lock.go.
    - Trees: src/restic/tree.go, node.go (data, comparison), hardlinks_index.go.
    - UsedBlobs: src/restic/tree_stream.go, find.go.
    - Paths, Glob, Filter: path functions of Go's library,
      src/internal/fs/path_prefix.go, src/internal/filter.
    - Walker: src/walker/walker.go.
    - Contents: src/internal/bloblru, src/internal/fuse/blobcache.go, file.go.
    - Mount: the directories of src/internal/fuse.
    - FileInfo: src/internal/fs/interface.go, fs_reader.go, stat.go and the
      part of src/restic/node.go that reads files ([NodeFromFileInfo]).
    - Disk: the files of the operating system as an interface with laws (of
      all calls, of paths with regular files only, of listings), and a disk
      that crashes.
    - Layouts: src/backend/layout.go and the three layouts, the law class
      [LayoutLaws].
    - Local: src/backend/local, over any [Disk] and [Layout].
    - Cache: src/internal/cache, over any [Disk] and [Backend].
    - ArchTree, Archiver: src/internal/archiver, [NewSnapshot], over the
      repository's monad.
    - Checker: src/internal/checker, src/repository/index_parallel.go.
    - Dump: src/internal/dump.
    - FileRestorer, Nodes, Restorer: src/internal/restorer, the part of
      src/restic/node.go that creates files and restores metadata.
    - Backup: saving and restoring put together.
    - NodeJSON: names of nodes in JSON (src/restic/node.go), with
      [strconv.Quote] and [strconv.Unquote].
    - Store: what a backend promises to its clients ([Implements]), listings
      included, for the local backend and those below.
    - Url, Configs, Locations: URLs, src/backend/*/config.go,
      src/backend/shell_split.go, src/backend/location, [parseConfig].
    - Remote, Services, Cloud: src/backend/gs, s3, b2, azure, swift over an
      interface to the client of each service, and that each refines a store.
    - Rest, Sftp: src/backend/rest over HTTP requests, src/backend/sftp over
      the client of the SFTP library.
    - Migration: src/internal/migrations, over the S3 backend.
    - Options: src/internal/options.
    - Rapi: src/rapi.go, how a repository is opened, src/internal/textfile,
      src/internal/limiter.
    - Api: src/crypto/rapi.go, src/restic/rapi.go.
    - Scanner: src/internal/archiver/scanner.go.
    - Vss: src/internal/fs/fs_local_vss.go, file_windows.go.
    - Progress: src/internal/ui/backup, src/internal/ui/json,
      src/internal/ui/progress, src/restic/progress.go.
    - Terminal: src/internal/ui/termstatus, src/internal/ui/table, the line
      writer of src/internal/ui.
    - Selfupdate: src/internal/selfupdate.
    - Commands: src/cmd/rapi: rescuing all versions of files, the statistics
      of a snapshot, printing objects; over the walker and the repository.

    ** Theorems

    The theorems that name a claim (C1, C2, ...) are the properties of the
    program; other lemmas serve them.  They show, by layer:
    - storage: what is saved can be loaded, through packing, indexing,
      encryption and flushing; loading only returns data with the requested
      hash; repacking keeps blobs; saving and restoring files is the identity;
      the local backend implements a store with atomic saves and complete
      listings, and so do the backends of five storage services, REST and SFTP
      servers; a client cannot tell the cached backend from the backend, as
      long as the disk of the cache works when files are removed; a migration
      of the layout keeps every file, however often it fails;
    - archiving: a snapshot that is saved has every tree and blob it refers
      to, and each file's chunks are its content; a check that reports nothing
      means that the repository is whole, and a damaged tree is reported;
    - rescuing: every version of every matching file of every snapshot is
      written with exactly its content;
    - formats: round trips and exact readers of packs, indexes, identifiers,
      durations, keys, names in JSON;
    - data structures: the hash table, the index, sets and trees refine
      multisets, maps and sets; merging indexes loses nothing;
    - security: authenticated decryption accepts exactly what was sealed;
      the calls of a restore name only paths below its target; a repository
      opens with its password only; the program is only replaced by an archive whose hash is
      in a signed list;
    - processes: mutual exclusion of locks as long as no lock is refreshed,
      removed by another process or ignored, and that each of these breaks it;
      termination of the tree stream under every interleaving; what the status
      display of a backup is given to show, whatever the order of its messages;
    - configuration: a location is parsed to a configuration of the backend
      it names;
    - mounting: a mounted file reads as its content, and a directory of
      snapshots has one name for each snapshot it knows of;
    - selection: expiry policies, filters, snapshot search and groups compute
      what their documentation says.

    ** Bounds and fuel

    Recursion that is not structural has a fuel argument: tree traversals
    (Walker, Dump, Restorer, Scanner, Commands) take the depth, [frun] of UsedBlobs the number of
    events, searches the length of the interval.  The theorems either hold
    for every fuel or say which fuel is enough.  The number of blobs handled
    in one session is bounded by 2^60 where counters are 64 bits wide, and a
    blob by 4 GiB, as the pack format requires.

    ** Not modelled

    The services, protocols and libraries that the remote backends call are
    interfaces.  The rclone backend (src/backend/rclone) starts a process and speaks HTTP/2 over
    its pipes; on top of that it is the REST backend.  Windows code (the
    COM interfaces of volume shadow copies, consoles, file attributes) and the
    variants of system calls for other systems are left out: they consist of
    calls whose behaviour is not in the source.  So are settings of HTTP
    transports, process groups and signals, the debug log, the parsing of
    command-line flags, the commands that only print, examples and test
    helpers. *)

From Stdlib Require Export ZArith Lia Wf_nat.
From Stdlib Require Import Strings.Byte.
From stdpp Require Export base tactics sorting numbers strings gmap.
From stdpp Require Export list list_relations.

#[global] Open Scope Z_scope.

(** ** Outcomes of Go code

    A Go function of the modelled code returns a value, returns an error or
    panics.  [res E A] keeps the three apart. *)

Inductive res (E A : Type) : Type :=
| Ok (a : A)
| Err (e : E)
| Panic (msg : string).
Arguments Ok {E A} a.
Arguments Err {E A} e.
Arguments Panic {E A} msg.

#[global] Instance res_ret E : MRet (res E) := fun A a => Ok a.
#[global] Instance res_bind E : MBind (res E) := fun A B f m =>
  match m with Ok a => f a | Err e => Err e | Panic s => Panic s end.
#[global] Instance res_fmap E : FMap (res E) := fun A B f m =>
  match m with Ok a => Ok (f a) | Err e => Err e | Panic s => Panic s end.

Definition is_ok {E A} (r : res E A) : bool :=
  match r with Ok _ => true | _ => false end.

Definition is_panic {E A} (r : res E A) : bool :=
  match r with Panic _ => true | _ => false end.

(** [panic_if c msg] is the statement [if c { panic(msg) }], [fail_if c e]
    the statement [if c { return e }]. *)
Definition panic_if {E} (c : bool) (msg : string) : res E unit :=
  if c then Panic msg else Ok tt.
Definition fail_if {E} (c : bool) (e : E) : res E unit :=
  if c then Err e else Ok tt.

Lemma bind_ok {E A B} (m : res E A) (f : A -> res E B) b :
  (m ≫= f) = Ok b <-> exists a, m = Ok a /\ f a = Ok b.
Proof. destruct m; simpl; naive_solver. Qed.

(** ** Machine integers *)

Definition u8 (z : Z) : Z := z mod 2 ^ 8.
Definition u32 (z : Z) : Z := z mod 2 ^ 32.
Definition u64 (z : Z) : Z := z mod 2 ^ 64.
Definition i64 (z : Z) : Z := (z + 2 ^ 63) mod 2 ^ 64 - 2 ^ 63.

Definition maxuint32 : Z := 2 ^ 32 - 1.

Lemma u32_small z : 0 <= z < 2 ^ 32 -> u32 z = z.
Proof. intros; unfold u32; by rewrite Z.mod_small. Qed.
Lemma u64_small z : 0 <= z < 2 ^ 64 -> u64 z = z.
Proof. intros; unfold u64; by rewrite Z.mod_small. Qed.
Lemma u64_add x y : u64 (u64 x + y) = u64 (x + y).
Proof. unfold u64. by rewrite Zplus_mod_idemp_l. Qed.
Lemma u64_add_r x y : u64 (x + u64 y) = u64 (x + y).
Proof. unfold u64. by rewrite Zplus_mod_idemp_r. Qed.
Lemma u32_range z : 0 <= u32 z < 2 ^ 32.
Proof. apply Z.mod_pos_bound; lia. Qed.
Lemma i64_small z : - 2 ^ 63 <= z < 2 ^ 63 -> i64 z = z.
Proof. intros; unfold i64; rewrite Z.mod_small; lia. Qed.

(** [lenZ l] is Go's [len(l)]. *)
Abbreviation lenZ l := (Z.of_nat (length l)).

(** ** Bytes *)

Abbreviation byte := Byte.byte.

Definition byte_Z (b : byte) : Z := Z.of_N (Byte.to_N b).
Definition Z_byte (z : Z) : byte :=
  match Byte.of_N (Z.to_N (u8 z)) with Some b => b | None => Byte.x00 end.

#[global] Instance byte_eq_dec : EqDecision byte := Byte.byte_eq_dec.

Lemma byte_Z_range b : 0 <= byte_Z b < 256.
Proof. unfold byte_Z. pose proof (Byte.to_N_bounded b). lia. Qed.

Lemma Z_byte_Z z : byte_Z (Z_byte z) = u8 z.
Proof.
  unfold Z_byte, byte_Z, u8.
  pose proof (Z.mod_pos_bound z (2 ^ 8) ltac:(lia)) as Hb.
  destruct (Byte.of_N _) as [b|] eqn:E.
  - apply Byte.to_of_N in E. rewrite E. lia.
  - apply Byte.of_N_None_iff in E. lia.
Qed.

Lemma byte_Z_byte b : Z_byte (byte_Z b) = b.
Proof.
  unfold Z_byte, u8. pose proof (byte_Z_range b).
  rewrite Z.mod_small by lia. unfold byte_Z. rewrite N2Z.id.
  by rewrite Byte.of_to_N.
Qed.

Lemma byte_Z_inj b1 b2 : byte_Z b1 = byte_Z b2 -> b1 = b2.
Proof. intros H. by rewrite <- (byte_Z_byte b1), H, byte_Z_byte. Qed.

#[global] Instance byte_countable : Countable byte.
Proof.
  refine (inj_countable' (fun b => Byte.to_N b)
    (fun n => match Byte.of_N n with Some b => b | None => Byte.x00 end) _).
  intros b. by rewrite Byte.of_to_N.
Defined.

(** Byte-wise [&], [|] and [^]. *)
Definition byte_and (a b : byte) : byte := Z_byte (Z.land (byte_Z a) (byte_Z b)).
Definition byte_or (a b : byte) : byte := Z_byte (Z.lor (byte_Z a) (byte_Z b)).
Definition byte_xor (a b : byte) : byte := Z_byte (Z.lxor (byte_Z a) (byte_Z b)).

Lemma byte_Z_shift8 a : Z.shiftr (byte_Z a) 8 = 0.
Proof.
  pose proof (byte_Z_range a).
  rewrite Z.shiftr_div_pow2 by lia. apply Z.div_small. lia.
Qed.

Lemma u8_bitop (f : Z -> Z -> Z) a b :
  (forall x y, Z.shiftr (f x y) 8 = f (Z.shiftr x 8) (Z.shiftr y 8)) ->
  f 0 0 = 0 -> u8 (f (byte_Z a) (byte_Z b)) = f (byte_Z a) (byte_Z b).
Proof.
  intros Hs H0. unfold u8. apply Z.mod_small.
  assert (Hz : Z.shiftr (f (byte_Z a) (byte_Z b)) 8 = 0)
    by (rewrite Hs, !byte_Z_shift8; done).
  rewrite Z.shiftr_div_pow2 in Hz by lia.
  apply Z.div_small_iff in Hz; lia.
Qed.

Lemma byte_and_Z a b : byte_Z (byte_and a b) = Z.land (byte_Z a) (byte_Z b).
Proof.
  unfold byte_and. rewrite Z_byte_Z.
  apply (u8_bitop Z.land); [intros; by rewrite Z.shiftr_land | done].
Qed.
Lemma byte_or_Z a b : byte_Z (byte_or a b) = Z.lor (byte_Z a) (byte_Z b).
Proof.
  unfold byte_or. rewrite Z_byte_Z.
  apply (u8_bitop Z.lor); [intros; by rewrite Z.shiftr_lor | done].
Qed.
Lemma byte_xor_Z a b : byte_Z (byte_xor a b) = Z.lxor (byte_Z a) (byte_Z b).
Proof.
  unfold byte_xor. rewrite Z_byte_Z.
  apply (u8_bitop Z.lxor); [intros; by rewrite Z.shiftr_lxor | done].
Qed.

Lemma byte_xor_involutive a k : byte_xor (byte_xor a k) k = a.
Proof.
  apply byte_Z_inj. rewrite !byte_xor_Z, Z.lxor_assoc, Z.lxor_nilpotent.
  apply Z.lxor_0_r.
Qed.

(** ** Little-endian integers ([encoding/binary]) *)

Fixpoint le_put (n : nat) (z : Z) : list byte :=
  match n with O => [] | S n => Z_byte z :: le_put n (z / 256) end.

Fixpoint le_get (l : list byte) : Z :=
  match l with [] => 0 | b :: l => byte_Z b + 256 * le_get l end.

Lemma le_put_length n z : length (le_put n z) = n.
Proof. revert z; induction n; intros; simpl; auto. Qed.

Lemma le_get_put n z : le_get (le_put n z) = z mod 256 ^ Z.of_nat n.
Proof.
  revert z; induction n as [|n IH]; intros z.
  - simpl. by rewrite Z.mod_1_r.
  - cbn [le_put le_get]. rewrite IH, Z_byte_Z. unfold u8.
    rewrite Nat2Z.inj_succ, Z.pow_succ_r by lia.
    rewrite Z.rem_mul_r by lia. change (2 ^ 8) with 256. lia.
Qed.

Lemma le_get_bound l : 0 <= le_get l < 256 ^ lenZ l.
Proof.
  induction l as [|b l IH]; cbn [le_get length]; [lia|].
  rewrite Nat2Z.inj_succ, Z.pow_succ_r by lia.
  pose proof (byte_Z_range b). lia.
Qed.

Lemma le_put_get l n : length l = n -> le_put n (le_get l) = l.
Proof.
  intros <-. induction l as [|b l IH]; [done|]. cbn [length le_get le_put].
  pose proof (byte_Z_range b).
  f_equal.
  - apply byte_Z_inj. rewrite Z_byte_Z. unfold u8.
    rewrite Z.mul_comm, Z.mod_add by lia. apply Z.mod_small; lia.
  - rewrite Z.mul_comm, Z.div_add, Z.div_small by lia. exact IH.
Qed.

(** ** Slices

    [gslice l a b] is the slice expression [l[a:b]] on the elements of [l];
    it panics out of range. *)

Definition gslice {E A} (l : list A) (a b : Z) : res E (list A) :=
  if bool_decide (0 <= a <= b /\ b <= lenZ l)
  then Ok (take (Z.to_nat (b - a)) (drop (Z.to_nat a) l))
  else Panic "slice bounds out of range".

Definition gindex {E A} (l : list A) (i : Z) : res E A :=
  if bool_decide (0 <= i)
  then match l !! Z.to_nat i with
       | Some x => Ok x
       | None => Panic "index out of range"
       end
  else Panic "index out of range".

Lemma gslice_ok {E A} (l : list A) a b :
  0 <= a <= b -> b <= lenZ l ->
  gslice (E:=E) l a b = Ok (take (Z.to_nat (b - a)) (drop (Z.to_nat a) l)).
Proof. intros. unfold gslice. by rewrite bool_decide_eq_true_2. Qed.

Lemma gslice_suffix {E A} (l1 l2 : list A) a b :
  a = lenZ l1 -> b = lenZ (l1 ++ l2) -> gslice (E:=E) (l1 ++ l2) a b = Ok l2.
Proof.
  intros -> ->. rewrite length_app, gslice_ok by (rewrite ?length_app; lia).
  rewrite Nat2Z.id, drop_app_length. f_equal. apply take_ge. lia.
Qed.

Lemma gslice_prefix {E A} (l1 l2 : list A) b :
  b = lenZ l1 -> gslice (E:=E) (l1 ++ l2) 0 b = Ok l1.
Proof.
  intros ->. rewrite gslice_ok by (rewrite ?length_app; lia).
  rewrite Z.sub_0_r, Nat2Z.id, drop_0. f_equal. apply take_app_length.
Qed.

(** ** Generic list facts *)

Lemma list_split_at {A} (l : list A) n :
  (n <= length l)%nat -> exists l1 l2, l = l1 ++ l2 /\ length l1 = n.
Proof.
  intros. exists (take n l), (drop n l). rewrite take_drop, length_take. split; [done|lia].
Qed.

Lemma list_split_end {A} (l : list A) n :
  (n <= length l)%nat -> exists l1 l2, l = l1 ++ l2 /\ length l2 = n.
Proof.
  intros. exists (take (length l - n) l), (drop (length l - n) l).
  rewrite take_drop, length_drop. split; [done|lia].
Qed.

Lemma Permutation_filter_split {A} (P : A -> Prop) `{!forall x, Decision (P x)} l :
  l ≡ₚ filter P l ++ filter (fun x => ¬ P x) l.
Proof.
  induction l as [|a l IH]; [done|].
  rewrite !filter_cons. destruct (decide (P a)) as [HP|HP].
  - rewrite decide_False by tauto. simpl. by rewrite <- IH.
  - rewrite decide_True by done. rewrite <- Permutation_middle, <- IH. done.
Qed.

Lemma filter_none {A} (P : A -> Prop) `{!forall x, Decision (P x)} l :
  (forall x, x ∈ l -> ¬ P x) -> filter P l = [].
Proof.
  induction l as [|a l IH]; intros Hall; [done|]. rewrite filter_cons.
  rewrite decide_False by (apply Hall, elem_of_cons; auto).
  apply IH. intros x Hx. apply Hall, elem_of_cons; auto.
Qed.

Lemma filter_all {A} (P : A -> Prop) `{!forall x, Decision (P x)} (l : list A) :
  (forall x, x ∈ l -> P x) -> filter P l = l.
Proof.
  induction l as [|a l IH]; intros Hall; [done|]. rewrite filter_cons.
  rewrite decide_True by (apply Hall, elem_of_cons; auto).
  f_equal. apply IH. intros x Hx. apply Hall, elem_of_cons; auto.
Qed.

Lemma filter_map_comm {A B} (f : A -> B) (P : B -> Prop) (Q : A -> Prop)
  `{!forall x, Decision (P x), !forall x, Decision (Q x)} l :
  (forall x, P (f x) <-> Q x) -> filter P (map f l) = map f (filter Q l).
Proof.
  intros HPQ. induction l as [|a l IH]; [done|]. cbn [map]. rewrite !filter_cons, IH.
  destruct (decide (Q a)); [rewrite decide_True by by apply HPQ | rewrite decide_False by by rewrite HPQ]; done.
Qed.

Lemma elem_of_concat {A} (x : A) ll : x ∈ concat ll <-> exists l, l ∈ ll /\ x ∈ l.
Proof.
  induction ll as [|l ll IH]; simpl.
  - split; [by intros ?%elem_of_nil | by intros (? & ?%elem_of_nil & _)].
  - rewrite elem_of_app, IH. setoid_rewrite elem_of_cons. naive_solver.
Qed.

(** ** A byte encoding of countable types

    It instantiates the codec parameters of the models (JSON, ...) in the
    witnesses. *)

Fixpoint pos_bytes (p : positive) : list byte :=
  match p with
  | xH => []
  | xO p => Byte.x00 :: pos_bytes p
  | xI p => Byte.x01 :: pos_bytes p
  end.
Fixpoint bytes_pos (l : list byte) : positive :=
  match l with
  | [] => xH
  | b :: l => if bool_decide (b = Byte.x00) then xO (bytes_pos l) else xI (bytes_pos l)
  end.
Lemma bytes_pos_bytes p : bytes_pos (pos_bytes p) = p.
Proof. induction p as [p IH|p IH|]; cbn; by rewrite ?IH. Qed.

Definition count_encode {A} `{Countable A} (x : A) : list byte := pos_bytes (encode x).
Definition count_decode {A} `{Countable A} (l : list byte) : option A := decode (bytes_pos l).
Lemma count_decode_encode {A} `{Countable A} (x : A) : count_decode (count_encode x) = Some x.
Proof. unfold count_decode, count_encode. by rewrite bytes_pos_bytes, decode_encode. Qed.

(** ** Automation *)

(** Hints for the arithmetic of lengths. *)
Create HintDb rapi.
#[export] Hint Resolve u32_range byte_Z_range : rapi.
#[export] Hint Rewrite @length_app @length_take @length_drop @length_replicate
  le_put_length : rapi_len.

Ltac len_lia := autorewrite with rapi_len in *; simpl in *; lia.

(** Split every conjunction and boolean connective of the context. *)
Ltac bool_norm :=
  repeat match goal with
  | H : _ && _ = true |- _ => apply andb_true_iff in H as [? ?]
  | H : _ || _ = false |- _ => apply orb_false_iff in H as [? ?]
  | H : negb _ = true |- _ => apply negb_true_iff in H
  | H : negb _ = false |- _ => apply negb_false_iff in H
  | H : bool_decide _ = true |- _ => apply bool_decide_eq_true_1 in H
  | H : bool_decide _ = false |- _ => apply bool_decide_eq_false_1 in H
  end.
