(* ===== verification/Crypto.v ===== *)
(** * Crypto: the repository key and its AEAD (src/crypto/crypto.go)

    [Key], [maskKey], [validNonce], [Seal] and [Open] are translated from the
    source.  The primitives the source calls (AES-CTR, one AES block,
    Poly1305) are the operations of the class [CryptoPrims]; what the source
    relies on of them is the class [CryptoLaws]. *)

From S2P Require Import Prelude.

(** ** Sizes *)

Definition aesKeySize : Z := 32.
Definition macKeySizeK : Z := 16.
Definition macKeySizeR : Z := 16.
Definition macKeySize : Z := macKeySizeK + macKeySizeR.
Definition ivSize : Z := 16.
Definition macSize : Z := 16.
Definition Extension : Z := ivSize + macSize.

(** ** Primitives outside the repository *)

Class CryptoPrims : Type := {
  (** [cipher.NewCTR(aes.NewCipher(key), iv).XORKeyStream] on a whole message *)
  aes_ctr : list byte -> list byte -> list byte -> list byte;
  (** [aes.NewCipher(key).Encrypt] on one block *)
  aes_block : list byte -> list byte -> list byte;
  (** [poly1305.Sum]: message, 32-byte one-time key, 16-byte tag *)
  poly1305_sum : list byte -> list byte -> list byte;
}.

Class CryptoLaws `{CryptoPrims} : Prop := {
  aes_ctr_length k iv m : length (aes_ctr k iv m) = length m;
  aes_ctr_involutive k iv m : aes_ctr k iv (aes_ctr k iv m) = m;
  poly1305_length m k : lenZ (poly1305_sum m k) = 16;
}.

(** ** Keys *)

Record MACKey : Type := mkMACKey {
  mk_K : list byte;
  mk_R : list byte;
  mk_masked : bool;
}.

Record Key : Type := mkKey {
  key_mac : MACKey;
  key_enc : list byte;
}.

(** The array lengths of [MACKey] and [EncryptionKey]. *)
Definition wf_MACKey (m : MACKey) : Prop :=
  length (mk_K m) = 16%nat /\ length (mk_R m) = 16%nat.
Definition wf_Key (k : Key) : Prop :=
  wf_MACKey (key_mac k) /\ length (key_enc k) = 32%nat.

Definition poly1305KeyMask : list byte :=
  map Z_byte [0xff; 0xff; 0xff; 0x0f; 0xfc; 0xff; 0xff; 0x0f;
              0xfc; 0xff; 0xff; 0x0f; 0xfc; 0xff; 0xff; 0x0f].

(** [maskKey(k)] for a non-nil [k]; the [nil] case returns at once. *)
Definition maskKey (k : MACKey) : MACKey :=
  if mk_masked k then k
  else {| mk_K := mk_K k;
          mk_R := zip_with byte_and (mk_R k) poly1305KeyMask;
          mk_masked := true |}.

(** [copy(dst[:], src)] into a fixed array. *)
Definition copy_into (dst src : list byte) : list byte :=
  take (length dst) src ++ drop (length src) dst.

Definition macKeyFromSlice {E} (mk : MACKey) (data : list byte) : res E MACKey :=
  kpart ← gslice data 0 16;
  rpart ← gslice data 16 32;
  Ok (maskKey {| mk_K := copy_into (mk_K mk) kpart;
                 mk_R := copy_into (mk_R mk) rpart;
                 mk_masked := mk_masked mk |}).

Definition MACKey_Valid (m : MACKey) : bool :=
  let nonzeroK := existsb (fun b => bool_decide (b ≠ Byte.x00)) (mk_K m) in
  if negb nonzeroK then false
  else existsb (fun b => bool_decide (b ≠ Byte.x00)) (mk_R m).

Definition EncryptionKey_Valid (k : list byte) : bool :=
  existsb (fun b => bool_decide (b ≠ Byte.x00)) k.

Definition Key_Valid (k : Key) : bool :=
  EncryptionKey_Valid (key_enc k) && MACKey_Valid (key_mac k).

(** [validNonce]: the OR of all bytes is positive. *)
Definition validNonce (nonce : list byte) : bool :=
  bool_decide (byte_Z (fold_left byte_or nonce Byte.x00) > 0).

Definition NonceSize (k : Key) : Z := ivSize.
Definition Overhead (k : Key) : Z := macSize.

(** ** Byte slices with spare capacity

    [sl_data] are the [len] visible bytes, [sl_spare] the bytes of the backing
    array between [len] and [cap]. *)

Record slice : Type := mkSlice { sl_data : list byte; sl_spare : list byte }.

(** [sliceForAppend(in, n)]: the whole of [head], and where [tail] starts. *)
Definition sliceForAppend (inp : slice) (n : nat) : list byte * nat :=
  let total := (length (sl_data inp) + n)%nat in
  let cap := (length (sl_data inp) + length (sl_spare inp))%nat in
  if (total <=? cap)%nat
  then (sl_data inp ++ take n (sl_spare inp), length (sl_data inp))
  else (copy_into (replicate total Byte.x00) (sl_data inp), length (sl_data inp)).

(** Overwrite the bytes of [buf] from [pos] on with [src]. *)
Definition write_at (buf : list byte) (pos : nat) (src : list byte) : list byte :=
  take pos buf ++ copy_into (drop pos buf) src.

Inductive crypto_error : Type :=
| ErrInvalidKey
| ErrNonceInvalid
| ErrCiphertextTooSmall
| ErrUnauthenticated.

Section aead.
Context `{CP : CryptoPrims}.

(** The nonce block is encrypted with AES-128 under [K]; [R] comes first. *)
Definition poly1305PrepareKey (nonce : list byte) (key : MACKey) : MACKey * list byte :=
  let key' := maskKey key in
  let k := replicate 32 Byte.x00 in
  let k := write_at k 16 (aes_block (mk_K key') nonce) in
  let k := copy_into (take 16 k) (mk_R key') ++ drop 16 k in
  (key', k).

Definition poly1305MAC (msg nonce : list byte) (key : MACKey) : MACKey * list byte :=
  let '(key', k) := poly1305PrepareKey nonce key in
  (key', poly1305_sum msg k).

(** [poly1305.Verify(&m, msg, &k)] compares the tag with [Sum(msg, k)]. *)
Definition poly1305Verify (msg nonce : list byte) (key : MACKey) (mac : list byte)
  : MACKey * bool :=
  let '(key', k) := poly1305PrepareKey nonce key in
  let m := copy_into (replicate 16 Byte.x00) mac in
  (key', bool_decide (poly1305_sum msg k = m)).

(** [Seal] returns the new slice; the key's MAC part may become masked. *)
Definition Seal (k : Key) (dst : slice) (nonce plaintext additionalData : list byte)
  : res crypto_error (Key * list byte) :=
  panic_if (negb (Key_Valid k)) "key is invalid";;
  panic_if (bool_decide (lenZ additionalData > 0)) "additional data is not supported";;
  panic_if (bool_decide (lenZ nonce ≠ ivSize)) "incorrect nonce length";;
  panic_if (negb (validNonce nonce)) "nonce is invalid";;
  let '(ret, pos) := sliceForAppend dst (length plaintext + Z.to_nat (Overhead k)) in
  let ret := write_at ret pos (aes_ctr (key_enc k) nonce plaintext) in
  let out := drop pos ret in
  let '(mackey, mac) := poly1305MAC (take (length plaintext) out) nonce (key_mac k) in
  let ret := write_at ret (pos + length plaintext) mac in
  Ok ({| key_mac := mackey; key_enc := key_enc k |}, ret).

Definition Open (k : Key) (dst : slice) (nonce ciphertext additionalData : list byte)
  : res crypto_error (Key * list byte) :=
  fail_if (negb (Key_Valid k)) ErrInvalidKey;;
  panic_if (bool_decide (lenZ nonce ≠ ivSize)) "incorrect nonce length";;
  fail_if (negb (validNonce nonce)) ErrNonceInvalid;;
  fail_if (bool_decide (lenZ ciphertext < Overhead k)) ErrCiphertextTooSmall;;
  let l := lenZ ciphertext - macSize in
  ct ← gslice ciphertext 0 l;
  mac ← gslice ciphertext l (lenZ ciphertext);
  let '(mackey, ok) := poly1305Verify ct nonce (key_mac k) mac in
  fail_if (negb ok) ErrUnauthenticated;;
  let '(ret, pos) := sliceForAppend dst (length ct) in
  let ret := write_at ret pos (aes_ctr (key_enc k) nonce ct) in
  Ok ({| key_mac := mackey; key_enc := key_enc k |}, ret).

End aead.

(** ** Lemmas *)

Lemma copy_into_full (dst src : list byte) :
  length src = length dst -> copy_into dst src = src.
Proof.
  intros H. unfold copy_into. rewrite <- H, take_ge by lia.
  rewrite H, drop_ge by lia. apply app_nil_r.
Qed.

Lemma copy_into_short (dst src : list byte) :
  (length src <= length dst)%nat ->
  copy_into dst src = src ++ drop (length src) dst.
Proof. intros. unfold copy_into. by rewrite take_ge by lia. Qed.

Lemma copy_into_length (dst src : list byte) :
  length (copy_into dst src) = length dst.
Proof. unfold copy_into. rewrite length_app, length_take, length_drop. lia. Qed.
#[export] Hint Rewrite copy_into_length : rapi_len.

Lemma sliceForAppend_spec inp n :
  exists tail, sliceForAppend inp n = (sl_data inp ++ tail, length (sl_data inp))
    /\ length tail = n.
Proof.
  unfold sliceForAppend. destruct (Nat.leb_spec (length (sl_data inp) + n)
    (length (sl_data inp) + length (sl_spare inp))).
  - exists (take n (sl_spare inp)). split; [done|]. rewrite length_take; lia.
  - exists (replicate n Byte.x00). rewrite copy_into_short by len_lia.
    rewrite drop_replicate. split; [|len_lia]. repeat f_equal. lia.
Qed.

Lemma write_at_app (pre old src : list byte) n :
  n = length pre -> (length src <= length old)%nat ->
  write_at (pre ++ old) n src = pre ++ src ++ drop (length src) old.
Proof.
  intros -> ?. unfold write_at. rewrite take_app_length, drop_app_length.
  by rewrite copy_into_short.
Qed.

Lemma validNonce_spec nonce :
  validNonce nonce = true <-> exists b, b ∈ nonce /\ b ≠ Byte.x00.
Proof.
  unfold validNonce. rewrite bool_decide_eq_true.
  assert (Hgen : forall l a, byte_Z (fold_left byte_or l a) > 0 <->
    byte_Z a > 0 \/ exists b, b ∈ l /\ b ≠ Byte.x00).
  { induction l as [|b l IH]; intros a; simpl.
    - split; [auto | intros [?|(?&Hin&_)]; [done | by apply elem_of_nil in Hin]].
    - rewrite IH, byte_or_Z.
      pose proof (byte_Z_range a). pose proof (byte_Z_range b).
      assert (Hor : Z.lor (byte_Z a) (byte_Z b) > 0 <-> byte_Z a > 0 \/ byte_Z b > 0).
      { pose proof (proj2 (Z.lor_nonneg (byte_Z a) (byte_Z b)) ltac:(lia)).
        destruct (decide (Z.lor (byte_Z a) (byte_Z b) = 0)) as [E|E].
        - pose proof E as E0. apply Z.lor_eq_0_iff in E0. lia.
        - split; [|lia]. intros _. destruct (decide (byte_Z a = 0)) as [Ea|]; [|lia].
          right. rewrite Ea, Z.lor_0_l in E. lia. }
      assert (Hb : byte_Z b > 0 <-> b ≠ Byte.x00).
      { split; [intros Hp ->; done|]. intros Hn.
        destruct (decide (byte_Z b = 0)) as [E|]; [|lia].
        destruct Hn. by apply byte_Z_inj. }
      rewrite Hor, Hb. setoid_rewrite elem_of_cons. naive_solver. }
  rewrite Hgen. split; [intros [H|H]; [done|exact H] | by right].
Qed.

Lemma maskKey_idempotent k : maskKey (maskKey k) = maskKey k.
Proof. unfold maskKey. by destruct (mk_masked k) eqn:E; simpl; rewrite ?E. Qed.

Lemma maskKey_masked k : mk_masked (maskKey k) = true.
Proof. unfold maskKey. by destruct (mk_masked k) eqn:E. Qed.

Section aead_facts.
Context `{CL : CryptoLaws}.

Lemma poly1305PrepareKey_mask nonce m :
  poly1305PrepareKey nonce (maskKey m) = poly1305PrepareKey nonce m.
Proof. unfold poly1305PrepareKey. by rewrite maskKey_idempotent. Qed.

(** The one-time key and the tag computed for a message. *)
Definition tag_of (k : Key) (nonce ct : list byte) : list byte :=
  (poly1305MAC ct nonce (key_mac k)).2.

Definition masked_key (k : Key) : Key :=
  {| key_mac := maskKey (key_mac k); key_enc := key_enc k |}.

Lemma tag_of_length k nonce ct : length (tag_of k nonce ct) = 16%nat.
Proof.
  unfold tag_of, poly1305MAC. destruct (poly1305PrepareKey _ _).
  simpl. pose proof (poly1305_length ct l). lia.
Qed.
Lemma ctr_length k iv m : length (aes_ctr k iv m) = length m.
Proof. apply aes_ctr_length. Qed.
#[local] Hint Rewrite tag_of_length ctr_length : rapi_len.

Lemma tag_of_mask k nonce ct : tag_of (masked_key k) nonce ct = tag_of k nonce ct.
Proof. unfold tag_of, masked_key, poly1305MAC. cbn [key_mac]. by rewrite poly1305PrepareKey_mask. Qed.

Lemma Seal_value k dst nonce pt :
  Key_Valid k = true -> lenZ nonce = 16 -> validNonce nonce = true ->
  Seal k dst nonce pt [] = Ok (masked_key k,
    sl_data dst ++ aes_ctr (key_enc k) nonce pt
      ++ tag_of k nonce (aes_ctr (key_enc k) nonce pt)).
Proof.
  intros Hk Hn Hv. unfold Seal. rewrite Hk, Hv. cbn [negb panic_if mbind res_bind].
  rewrite (bool_decide_eq_false_2 (lenZ nonce ≠ ivSize)) by (unfold ivSize; lia).
  rewrite (bool_decide_eq_false_2 (lenZ [] > 0)) by (simpl; lia).
  change (Z.to_nat (Overhead k)) with 16%nat. cbn [panic_if].
  destruct (sliceForAppend_spec dst (length pt + 16)) as (tail & -> & Ht).
  rewrite write_at_app, drop_app_length by len_lia.
  rewrite (take_app_length' _ _ (length pt)) by len_lia.
  destruct (poly1305MAC _ _ _) as [mk mac] eqn:E.
  assert (Hmac : mac = tag_of k nonce (aes_ctr (key_enc k) nonce pt))
    by (unfold tag_of; by rewrite E).
  assert (Hmk : mk = maskKey (key_mac k))
    by (unfold poly1305MAC, poly1305PrepareKey in E; by simplify_eq).
  rewrite (app_assoc (sl_data dst)), write_at_app by (subst; len_lia).
  rewrite drop_ge by (subst; len_lia). subst.
  unfold masked_key. by rewrite app_nil_r, <- app_assoc.
Qed.

Lemma poly1305Verify_value k nonce ct mac :
  length mac = 16%nat ->
  poly1305Verify ct nonce (key_mac k) mac
  = (maskKey (key_mac k), bool_decide (tag_of k nonce ct = mac)).
Proof.
  intros Hm. unfold poly1305Verify, tag_of, poly1305MAC.
  unfold poly1305PrepareKey. simpl snd. by rewrite (copy_into_full _ mac) by len_lia.
Qed.

(** [Open] on a ciphertext split into its body and its tag. *)
Lemma Open_value k dst nonce ct mac ad :
  Key_Valid k = true -> lenZ nonce = 16 -> validNonce nonce = true ->
  length mac = 16%nat ->
  Open k dst nonce (ct ++ mac) ad =
    if bool_decide (tag_of k nonce ct = mac)
    then Ok (masked_key k, sl_data dst ++ aes_ctr (key_enc k) nonce ct)
    else Err ErrUnauthenticated.
Proof.
  intros Hk Hn Hv Hm. unfold Open. rewrite Hk, Hv. cbn [negb fail_if panic_if mbind res_bind].
  rewrite (bool_decide_eq_false_2 (lenZ nonce ≠ ivSize)) by (unfold ivSize; lia).
  rewrite (bool_decide_eq_false_2 (_ < _)) by (unfold Overhead, macSize; len_lia).
  cbn [fail_if panic_if mbind res_bind].
  rewrite gslice_prefix by (unfold macSize; len_lia). cbn [mbind res_bind].
  rewrite gslice_suffix by (unfold macSize; len_lia). cbn [mbind res_bind].
  rewrite poly1305Verify_value by done.
  destruct (bool_decide (tag_of k nonce ct = mac)) eqn:E; [|done]. cbn [negb fail_if].
  destruct (sliceForAppend_spec dst (length ct)) as (tail & -> & Ht).
  rewrite write_at_app, drop_ge by len_lia. by rewrite app_nil_r.
Qed.

(** Every ciphertext [Open] accepts or rejects has this shape. *)
Lemma Open_short k dst nonce c ad :
  Key_Valid k = true -> lenZ nonce = 16 -> validNonce nonce = true ->
  (length c < 16)%nat -> Open k dst nonce c ad = Err ErrCiphertextTooSmall.
Proof.
  intros Hk Hn Hv Hl. unfold Open. rewrite Hk, Hv. cbn [negb fail_if panic_if mbind res_bind].
  rewrite (bool_decide_eq_false_2 (lenZ nonce ≠ ivSize)) by (unfold ivSize; lia).
  by rewrite (bool_decide_eq_true_2 (_ < _)) by (unfold Overhead, macSize; lia).
Qed.

End aead_facts.

(** ** A concrete cipher, for the witnesses

    A stream cipher that XORs every byte with the first key byte and a tag
    made of the message length: enough to satisfy the laws. *)

Definition toy_prims : CryptoPrims := {|
  aes_ctr k iv m := map (fun b => byte_xor b (nth 0 k Byte.x00)) m;
  aes_block k b := b;
  poly1305_sum m k := take 16 (le_put 16 (le_get m) ++ k);
|}.

Lemma toy_laws : @CryptoLaws toy_prims.
Proof.
  split; intros; cbn [aes_ctr poly1305_sum toy_prims].
  - apply length_map.
  - rewrite map_map. rewrite <- (map_id m) at 2. apply map_ext.
    intros. apply byte_xor_involutive.
  - rewrite take_app_length' by (symmetry; apply le_put_length). by rewrite le_put_length.
Qed.

Definition toy_key : Key := {|
  key_mac := {| mk_K := replicate 16 Byte.x01; mk_R := replicate 16 Byte.xff;
                mk_masked := false |};
  key_enc := replicate 32 Byte.x2a |}.

Definition toy_nonce : list byte := replicate 16 Byte.x07.

(** The three bytes of the Poly1305 mask. *)
Lemma land_0xff r : Z.land (byte_Z r) 255 = byte_Z r.
Proof.
  change 255 with (Z.ones 8). rewrite Z.land_ones by lia.
  apply Z.mod_small, byte_Z_range.
Qed.
Lemma land_0x0f r : Z.land (byte_Z r) 15 = byte_Z r mod 16.
Proof. change 15 with (Z.ones 4). by rewrite Z.land_ones by lia. Qed.
Lemma land_0xfc r : Z.land (byte_Z r) 252 = 4 * (byte_Z r / 4).
Proof. by destruct r; vm_compute. Qed.

(** ** Properties *)

(** sealing and opening is a round trip.  For a valid key and a 16-byte
    non-zero nonce, [Seal] never fails: it appends to [dst] a ciphertext that
    is exactly [Overhead] bytes longer than the plaintext, whatever the spare
    capacity of [dst] holds, and [Open] under the same nonce gives the
    plaintext back, both with the key as it was and with the key [Seal] has
    masked in place. *)
Theorem Seal_Open_roundtrip `{CL : CryptoLaws} (k : Key) (dst dst' : slice)
    (nonce pt : list byte) :
  Key_Valid k = true -> Key_Valid (masked_key k) = true ->
  lenZ nonce = ivSize -> validNonce nonce = true ->
  exists ct, Seal k dst nonce pt [] = Ok (masked_key k, sl_data dst ++ ct)
    /\ lenZ ct = lenZ pt + Overhead k
    /\ Open k dst' nonce ct [] = Ok (masked_key k, sl_data dst' ++ pt)
    /\ Open (masked_key k) dst' nonce ct [] = Ok (masked_key k, sl_data dst' ++ pt).
Proof.
  intros Hk Hk' Hn Hv. eexists. split; [by apply Seal_value|].
  split; [unfold Overhead, macSize; rewrite length_app, tag_of_length, ctr_length; lia|].
  rewrite !Open_value by (done || apply tag_of_length).
  rewrite tag_of_mask, !bool_decide_eq_true_2 by done. simpl key_enc.
  rewrite aes_ctr_involutive. split; [done|].
  unfold masked_key; simpl. by rewrite maskKey_idempotent.
Qed.

Lemma Seal_Open_roundtrip_witness :
  exists ct, @Seal toy_prims toy_key (mkSlice [Byte.x41] [Byte.x42]) toy_nonce [Byte.x01; Byte.x02] []
      = Ok (masked_key toy_key, [Byte.x41] ++ ct) /\ lenZ ct = 18.
Proof.
  destruct (Seal_Open_roundtrip (CL := toy_laws) toy_key (mkSlice [Byte.x41] [Byte.x42])
    (mkSlice [] []) toy_nonce [Byte.x01; Byte.x02]
    ltac:(vm_compute; reflexivity) ltac:(vm_compute; reflexivity)
    ltac:(vm_compute; reflexivity) ltac:(vm_compute; reflexivity))
    as (ct & H1 & H2 & _).
  exists ct. split; [exact H1 | exact H2].
Defined.

(** C17: authentication.  [Open] with a valid key and nonce accepts a
    ciphertext exactly when its last 16 bytes are the Poly1305 tag of what
    precedes them; it answers [ErrCiphertextTooSmall] below 16 bytes and
    [ErrUnauthenticated] otherwise, and it never panics. *)
Theorem Open_accepts_iff `{CL : CryptoLaws} (k : Key) (dst : slice) (nonce c : list byte) :
  Key_Valid k = true -> lenZ nonce = ivSize -> validNonce nonce = true ->
  match Open k dst nonce c [] with
  | Ok (_, out) => exists ct, c = ct ++ tag_of k nonce ct
      /\ out = sl_data dst ++ aes_ctr (key_enc k) nonce ct
  | Err ErrCiphertextTooSmall => lenZ c < Overhead k
  | Err ErrUnauthenticated => Overhead k <= lenZ c /\ forall ct, c ≠ ct ++ tag_of k nonce ct
  | _ => False
  end.
Proof.
  intros Hk Hn Hv. destruct (decide (length c < 16)%nat) as [Hs|Hs].
  - rewrite Open_short by done. unfold Overhead, macSize. lia.
  - destruct (list_split_end c 16 ltac:(lia)) as (ct & mac & -> & Hm).
    rewrite Open_value by done. destruct (bool_decide _) eqn:E; bool_norm.
    + exists ct. by subst mac.
    + split; [unfold Overhead, macSize; len_lia|]. intros ct' Heq.
      apply app_inj_2 in Heq as [-> ->]; [done|]. by rewrite tag_of_length.
Qed.

Lemma Open_accepts_iff_witness :
  @Open toy_prims toy_key (mkSlice [] []) toy_nonce (replicate 20 Byte.x05) [] = Err ErrUnauthenticated
  /\ forall ct, replicate 20 Byte.x05 ≠ ct ++ @tag_of toy_prims toy_key toy_nonce ct.
Proof.
  pose proof (Open_accepts_iff (CL := toy_laws) toy_key (mkSlice [] []) toy_nonce
    (replicate 20 Byte.x05) ltac:(vm_compute; reflexivity) ltac:(vm_compute; reflexivity)
    ltac:(vm_compute; reflexivity)) as H.
  assert (HE : @Open toy_prims toy_key (mkSlice [] []) toy_nonce (replicate 20 Byte.x05) []
    = Err ErrUnauthenticated) by (vm_compute; reflexivity).
  rewrite HE in H. exact (conj HE (proj2 H)).
Defined.

(** masking clamps the Poly1305 key.  After [maskKey] the four top bits of
    bytes 3, 7, 11 and 15 of [R] and the two bottom bits of bytes 4, 8 and 12
    are clear, the other bits are those of the argument, and masking again
    changes nothing. *)
Theorem maskKey_clamps (k : MACKey) (i : nat) (r : byte) :
  mk_masked k = false -> length (mk_R k) = 16%nat -> mk_R k !! i = Some r ->
  exists r', mk_R (maskKey k) !! i = Some r'
    /\ byte_Z r' = (if decide (i ∈ [3; 7; 11; 15]%nat) then byte_Z r mod 16
                    else if decide (i ∈ [4; 8; 12]%nat) then 4 * (byte_Z r / 4)
                    else byte_Z r)
    /\ maskKey (maskKey k) = maskKey k.
Proof.
  intros Hm Hl Hi. rewrite maskKey_idempotent.
  assert (Hi16 : (i < 16)%nat) by (rewrite <- Hl; by eapply lookup_lt_Some).
  unfold maskKey. rewrite Hm. cbn [mk_R].
  assert (Hmask : exists m, poly1305KeyMask !! i = Some m)
    by (apply lookup_lt_is_Some_2; exact Hi16).
  destruct Hmask as [m Hmask]. exists (byte_and r m).
  rewrite lookup_zip_with, Hi, Hmask. split; [done|]. split; [|done].
  rewrite byte_and_Z. clear Hi. pose proof (byte_Z_range r).
  do 16 (destruct i as [|i]; [cbv in Hmask; injection Hmask as <-;
    first [exact (land_0xff r) | exact (land_0x0f r) | exact (land_0xfc r)]|]). lia.
Qed.

Lemma maskKey_clamps_witness :
  exists r', mk_R (maskKey (key_mac toy_key)) !! 3%nat = Some r' /\ byte_Z r' = 15.
Proof.
  destruct (maskKey_clamps (key_mac toy_key) 3 Byte.xff eq_refl eq_refl eq_refl)
    as (r' & H1 & H2 & _).
  exists r'. split; [exact H1 | rewrite H2; vm_compute; reflexivity].
Defined.
