(* ===== verification/Ids.v ===== *)
(** * Ids: IDs, ID sets, blob handles and blob sets

    src/restic/id.go, ids.go, idset.go, blob.go, blob_set.go and buffer.go,
    with the part of [encoding/hex] they use. *)

From S2P Require Import Prelude Crypto.

(** ** Strings as bytes *)

Definition bytes_of (s : string) : list byte := String.list_byte_of_string s.
Definition string_of (l : list byte) : string := String.string_of_list_byte l.

Lemma bytes_of_string_of l : bytes_of (string_of l) = l.
Proof. apply String.list_byte_of_string_of_list_byte. Qed.
Lemma string_of_bytes_of s : string_of (bytes_of s) = s.
Proof. apply String.string_of_list_byte_of_string. Qed.

(** ** [encoding/hex] *)

Module Hex.

Inductive error : Type := InvalidByteError (b : byte) | ErrLength.

Definition hextable (n : Z) : byte :=
  if n <? 10 then Z_byte (48 + n) else Z_byte (87 + n).

Definition fromHexChar (c : byte) : option Z :=
  let z := byte_Z c in
  if (48 <=? z) && (z <=? 57) then Some (z - 48)
  else if (97 <=? z) && (z <=? 102) then Some (z - 97 + 10)
  else if (65 <=? z) && (z <=? 70) then Some (z - 65 + 10)
  else None.

Fixpoint Encode (src : list byte) : list byte :=
  match src with
  | [] => []
  | b :: src => hextable (byte_Z b / 16) :: hextable (byte_Z b mod 16) :: Encode src
  end.

(** [Decode]: a pair at a time; a trailing single character is checked
    before [ErrLength] is reported. *)
Fixpoint Decode (src : list byte) : res error (list byte) :=
  match src with
  | [] => Ok []
  | [p] => match fromHexChar p with None => Err (InvalidByteError p) | Some _ => Err ErrLength end
  | p :: q :: src =>
      match fromHexChar p with
      | None => Err (InvalidByteError p)
      | Some a =>
          match fromHexChar q with
          | None => Err (InvalidByteError q)
          | Some b => rest ← Decode src; Ok (Z_byte (16 * a + b) :: rest)
          end
      end
  end.

Definition EncodeToString (src : list byte) : string := string_of (Encode src).
Definition DecodeString (s : string) : res error (list byte) := Decode (bytes_of s).

Lemma fromHexChar_hextable n : 0 <= n < 16 -> fromHexChar (hextable n) = Some n.
Proof.
  intros H. assert (Hn : n = Z.of_nat (Z.to_nat n)) by lia. rewrite Hn.
  assert (Z.to_nat n < 16)%nat by lia. generalize dependent (Z.to_nat n). intros m _ Hm.
  do 16 (destruct m as [|m]; [reflexivity|]). lia.
Qed.

Lemma Decode_Encode l : Decode (Encode l) = Ok l.
Proof.
  induction l as [|b l IH]; [done|]. cbn [Encode Decode].
  pose proof (byte_Z_range b).
  rewrite !fromHexChar_hextable
    by (split; [apply Z.div_pos; lia | apply Z.div_lt_upper_bound; lia]
        || apply Z.mod_pos_bound; lia).
  rewrite IH. cbn. rewrite <- Z.div_mod by lia. by rewrite byte_Z_byte.
Qed.

Lemma Encode_length l : length (Encode l) = (2 * length l)%nat.
Proof. induction l; cbn [Encode length]; lia. Qed.

Lemma Decode_length l r : Decode l = Ok r -> length l = (2 * length r)%nat.
Proof.
  revert r. induction l as [l IH] using (induction_ltof1 _ (@length byte)).
  unfold ltof in IH. destruct l as [|p [|q l]]; intros r; cbn [Decode].
  - intros [= <-]. done.
  - destruct (fromHexChar p); done.
  - destruct (fromHexChar p), (fromHexChar q); try done. intros H.
    apply bind_ok in H as (r' & Hr & [= <-]). apply IH in Hr; [|simpl; lia].
    simpl. lia.
Qed.

Lemma Encode_inj l1 l2 : Encode l1 = Encode l2 -> l1 = l2.
Proof.
  intros H. assert (Hd : Decode (Encode l1) = Decode (Encode l2)) by by rewrite H.
  rewrite !Decode_Encode in Hd. by injection Hd.
Qed.

End Hex.

(** ** IDs (src/restic/id.go) *)

Definition idSize : Z := 32.

(** An [ID] is the array's bytes; [wf_ID] is the array's length. *)
Abbreviation ID := (list byte).
Definition wf_ID (id : ID) : Prop := length id = 32%nat.
Definition nullID : ID := replicate 32 Byte.x00.

Inductive id_error : Type :=
| IdHex (e : Hex.error)
| IdInvalidLength
| IdJsonShort
| IdJsonOdd
| IdJsonStart
| IdJsonEnd.

Definition ParseID (s : string) : res id_error ID :=
  match Hex.DecodeString s with
  | Err e => Err (IdHex e)
  | Panic m => Panic m
  | Ok b =>
      if bool_decide (lenZ b ≠ idSize) then Err IdInvalidLength
      else Ok (copy_into nullID b)
  end.

Definition ID_String (id : ID) : string := Hex.EncodeToString id.

Definition shortStr : nat := 4.

Definition IsNull (id : ID) : bool := bool_decide (id = nullID).

(** [Str] on a pointer: [None] is the nil pointer. *)
Definition ID_Str (id : option ID) : string :=
  match id with
  | None => "[nil]"
  | Some id => if IsNull id then "[null]" else Hex.EncodeToString (take shortStr id)
  end.

Definition Equal (id other : ID) : bool := bool_decide (id = other).

(** [EqualString] copies whatever was decoded into a zero ID. *)
Definition EqualString (id : ID) (other : string) : res id_error bool :=
  match Hex.DecodeString other with
  | Err e => Err (IdHex e)
  | Panic m => Panic m
  | Ok s => Ok (bool_decide (id = copy_into nullID s))
  end.

Definition quote : byte := Byte.x22.
Definition squote : byte := Byte.x27.

(** [MarshalJSON]: [json.Marshal] of a hex string only adds the quotes. *)
Definition MarshalJSON (id : ID) : list byte := [quote] ++ bytes_of (ID_String id) ++ [quote].

Definition UnmarshalJSON (b : list byte) : res id_error ID :=
  fail_if (bool_decide (lenZ b < 2)) IdJsonShort;;
  fail_if (bool_decide (lenZ b mod 2 ≠ 0)) IdJsonOdd;;
  b0 ← gindex b 0;
  fail_if (bool_decide (b0 ≠ quote) && bool_decide (b0 ≠ squote)) IdJsonStart;;
  let last := lenZ b - 1 in
  bl ← gindex b last;
  fail_if (bool_decide (b0 ≠ bl)) IdJsonEnd;;
  b ← gslice b 1 last;
  fail_if (bool_decide (lenZ b ≠ 2 * idSize)) IdInvalidLength;;
  match Hex.Decode b with
  | Ok r => Ok r
  | Err e => Err (IdHex e)
  | Panic m => Panic m
  end.

Definition IDFromHash {E} (hash : list byte) : res E ID :=
  if bool_decide (lenZ hash ≠ idSize)
  then Panic "invalid hash type, not enough/too many bytes"
  else Ok (copy_into nullID hash).

(** ** Lists of IDs (src/restic/ids.go) *)

(** The comparison loop shared by [IDs.Less] and [BlobHandles.Less]: the
    first differing byte decides, [None] when all are equal. *)
Fixpoint id_less_loop (a b : ID) : option bool :=
  match a, b with
  | x :: a, y :: b =>
      if bool_decide (x = y) then id_less_loop a b
      else if byte_Z x <? byte_Z y then Some true else Some false
  | _, _ => None
  end.

Definition IDs_Less (a b : ID) : bool :=
  if (lenZ a <? lenZ b) then true
  else match id_less_loop a b with Some r => r | None => false end.

(** [Uniq]: the loop state is the [seen] set and the result list. *)
Fixpoint Uniq_loop (seen : gset ID) (ids : list ID) : list ID :=
  match ids with
  | [] => []
  | id :: ids =>
      if bool_decide (id ∈ seen) then Uniq_loop seen ids
      else id :: Uniq_loop ({[id]} ∪ seen) ids
  end.
Definition Uniq (ids : list ID) : list ID := Uniq_loop ∅ ids.

(** ** Sorting

    [sort.Sort] is an unstable sort: the code relies only on its contract. *)
Class GoSort (A : Type) (less : A -> A -> bool) : Type := {
  gosort : list A -> list A;
}.
(** The strict weak ordering [sort.Interface] asks of [Less], on the elements
    of the list that is sorted. *)
Definition weak_order_on {A} (less : A -> A -> bool) (l : list A) : Prop :=
  (forall x y, x ∈ l -> y ∈ l -> less x y = true -> less y x = false) /\
  (forall x y z, x ∈ l -> y ∈ l -> z ∈ l ->
     less y x = false -> less z y = false -> less z x = false).
(** No element is less than an earlier one. *)
Definition ordered {A} (less : A -> A -> bool) (l : list A) : Prop :=
  StronglySorted (fun x y => less y x = false) l.
Class GoSortSpec (A : Type) (less : A -> A -> bool) `{GoSort A less} : Prop := {
  gosort_perm l : gosort l ≡ₚ l;
  gosort_ordered l : weak_order_on less l -> ordered less (gosort l);
}.
Arguments gosort {A} less {_} l.

(** ** Sets of IDs (src/restic/idset.go) *)

Abbreviation IDSet := (gset ID).
Definition NewIDSet (ids : list ID) : IDSet :=
  fold_left (fun m id => {[id]} ∪ m) ids ∅.
Definition IDSet_Has (s : IDSet) (id : ID) : bool := bool_decide (id ∈ s).
Definition IDSet_Insert (s : IDSet) (id : ID) : IDSet := {[id]} ∪ s.
Definition IDSet_Delete (s : IDSet) (id : ID) : IDSet := s ∖ {[id]}.
Definition IDSet_List `{GoSort ID IDs_Less} (s : IDSet) : list ID :=
  gosort IDs_Less (elements s).
Definition IDSet_Equals (s other : IDSet) : bool :=
  if bool_decide (size s ≠ size other) then false
  else forallb (fun id => IDSet_Has other id) (elements s).
Definition IDSet_Merge (s other : IDSet) : IDSet :=
  fold_left IDSet_Insert (elements other) s.
Definition IDSet_Intersect (s other : IDSet) : IDSet :=
  let '(set1, set2) := if bool_decide (size other < size s)%nat then (other, s) else (s, other) in
  fold_left (fun result id => if IDSet_Has set2 id then IDSet_Insert result id else result)
    (elements set1) ∅.
Definition IDSet_Sub (s other : IDSet) : IDSet :=
  fold_left (fun result id => if negb (IDSet_Has other id) then IDSet_Insert result id else result)
    (elements s) ∅.

(** ** Blobs (src/restic/blob.go) *)

Inductive BlobType : Type := InvalidBlob | DataBlob | TreeBlob.
#[global] Instance BlobType_eq_dec : EqDecision BlobType.
Proof. solve_decision. Defined.
#[global] Instance BlobType_countable : Countable BlobType.
Proof.
  refine (inj_countable' (fun t => match t with InvalidBlob => 0%nat | DataBlob => 1%nat | TreeBlob => 2%nat end)
    (fun n => match n with 0%nat => InvalidBlob | 1%nat => DataBlob | _ => TreeBlob end) _).
  by intros [].
Defined.

(** The numeric value of the enumeration ([iota]). *)
Definition BlobType_Z (t : BlobType) : Z :=
  match t with InvalidBlob => 0 | DataBlob => 1 | TreeBlob => 2 end.
(** [for typ := range idx.byType] visits the types in this order. *)
Definition allBlobTypes : list BlobType := [InvalidBlob; DataBlob; TreeBlob].

Definition BlobType_MarshalJSON (t : BlobType) : option string :=
  match t with DataBlob => Some "data" | TreeBlob => Some "tree" | InvalidBlob => None end.
Definition BlobType_UnmarshalJSON (s : string) : option BlobType :=
  if bool_decide (s = "data") then Some DataBlob
  else if bool_decide (s = "tree") then Some TreeBlob
  else None.

Record BlobHandle : Type := mkHandle { bh_ID : ID; bh_Type : BlobType }.
#[global] Instance BlobHandle_eq_dec : EqDecision BlobHandle.
Proof. solve_decision. Defined.
#[global] Instance BlobHandle_countable : Countable BlobHandle.
Proof.
  refine (inj_countable' (fun h => (bh_ID h, bh_Type h)) (fun p => mkHandle p.1 p.2) _).
  by intros [].
Defined.

Record Blob : Type := mkBlob { b_handle : BlobHandle; b_Length : Z; b_Offset : Z }.
Definition b_ID (b : Blob) : ID := bh_ID (b_handle b).
Definition b_Type (b : Blob) : BlobType := bh_Type (b_handle b).
#[global] Instance Blob_eq_dec : EqDecision Blob.
Proof. solve_decision. Defined.

Record PackedBlob : Type := mkPacked { pb_Blob : Blob; pb_PackID : ID }.
#[global] Instance PackedBlob_eq_dec : EqDecision PackedBlob.
Proof. solve_decision. Defined.

Definition BlobHandles_Less (a b : BlobHandle) : bool :=
  match id_less_loop (bh_ID a) (bh_ID b) with
  | Some r => r
  | None => BlobType_Z (bh_Type a) <? BlobType_Z (bh_Type b)
  end.

(** ** Sets of blob handles (src/restic/blob_set.go) *)

Abbreviation BlobSet := (gset BlobHandle).
Definition NewBlobSet (hs : list BlobHandle) : BlobSet :=
  fold_left (fun m h => {[h]} ∪ m) hs ∅.
Definition BlobSet_Has (s : BlobSet) (h : BlobHandle) : bool := bool_decide (h ∈ s).
Definition BlobSet_Insert (s : BlobSet) (h : BlobHandle) : BlobSet := {[h]} ∪ s.
Definition BlobSet_Delete (s : BlobSet) (h : BlobHandle) : BlobSet := s ∖ {[h]}.
Definition BlobSet_Equals (s other : BlobSet) : bool :=
  if bool_decide (size s ≠ size other) then false
  else forallb (fun h => BlobSet_Has other h) (elements s).
Definition BlobSet_Merge (s other : BlobSet) : BlobSet :=
  fold_left BlobSet_Insert (elements other) s.
Definition BlobSet_Intersect (s other : BlobSet) : BlobSet :=
  let '(set1, set2) := if bool_decide (size other < size s)%nat then (other, s) else (s, other) in
  fold_left (fun result h => if BlobSet_Has set2 h then BlobSet_Insert result h else result)
    (elements set1) ∅.
Definition BlobSet_Sub (s other : BlobSet) : BlobSet :=
  fold_left (fun result h => if negb (BlobSet_Has other h) then BlobSet_Insert result h else result)
    (elements s) ∅.
Definition BlobSet_List `{GoSort BlobHandle BlobHandles_Less} (s : BlobSet) : list BlobHandle :=
  gosort BlobHandles_Less (elements s).

(** ** Lengths with the crypto overhead (src/restic/buffer.go) *)

Definition PlaintextLength (ciphertextSize : Z) : Z := ciphertextSize - Extension.
Definition CiphertextLength (plaintextSize : Z) : Z := plaintextSize + Extension.

(** ** Lemmas *)

Section set_loops.
Context {A : Type} `{Countable A}.

(** A loop that conditionally inserts the elements of a list into a set. *)
Lemma fold_insert_if (P : A -> bool) l (acc : gset A) x :
  x ∈ fold_left (fun r a => if P a then {[a]} ∪ r else r) l acc
  <-> x ∈ acc \/ (x ∈ l /\ P x = true).
Proof.
  revert acc. induction l as [|a l IH]; intros acc; simpl.
  - rewrite elem_of_nil. tauto.
  - rewrite IH, elem_of_cons. destruct (P a) eqn:E.
    + rewrite elem_of_union, elem_of_singleton. naive_solver.
    + split; [tauto|]. intros [?|[[->|?] ?]]; [auto|congruence|auto].
Qed.

Lemma fold_insert l (acc : gset A) x :
  x ∈ fold_left (fun r a => {[a]} ∪ r) l acc <-> x ∈ acc \/ x ∈ l.
Proof. rewrite (fold_insert_if (fun _ => true)). naive_solver. Qed.

Lemma fold_insert_union (s t : gset A) :
  fold_left (fun r a => {[a]} ∪ r) (elements t) s = s ∪ t.
Proof. apply set_eq. intros x. rewrite fold_insert, elem_of_elements. set_solver. Qed.

(** Equal sizes and one inclusion are enough for equality. *)
Lemma set_equals_by_size (s t : gset A) :
  (if bool_decide (size s ≠ size t) then false
   else forallb (fun x => bool_decide (x ∈ t)) (elements s)) = true <-> s = t.
Proof.
  destruct (bool_decide (size s ≠ size t)) eqn:E; bool_norm.
  - split; [done | intros ->; done].
  - rewrite forallb_forall. split.
    + intros Hin. apply set_eq_subseteq. 
      assert (Hst : s ⊆ t).
      { intros x Hx. specialize (Hin x). apply bool_decide_eq_true in Hin; [done|].
        apply list_elem_of_In, elem_of_elements, Hx. }
      split; [done|]. destruct (decide (t ⊆ s)) as [|Hn]; [done|].
      assert (size s < size t)%nat by (by apply subset_size; split). lia.
    + intros -> x Hx. apply list_elem_of_In, elem_of_elements in Hx.
      by apply bool_decide_eq_true.
Qed.
End set_loops.

(** The comparison loop orders IDs of equal length by the number their bytes
    spell in big-endian. *)
Fixpoint be_val (l : ID) : Z :=
  match l with [] => 0 | b :: l => byte_Z b * 256 ^ lenZ l + be_val l end.

Lemma be_val_bound l : 0 <= be_val l < 256 ^ lenZ l.
Proof.
  induction l as [|b l IH]; cbn [be_val length]; [lia|].
  rewrite Nat2Z.inj_succ, Z.pow_succ_r by lia. pose proof (byte_Z_range b). nia.
Qed.

Lemma id_less_loop_val a b : length a = length b ->
  id_less_loop a b = match be_val a ?= be_val b with
                     | Lt => Some true | Gt => Some false | Eq => None end.
Proof.
  revert b; induction a as [|x a IH]; intros [|y b] Hl; try done.
  cbn [id_less_loop be_val]. injection Hl as Hl. rewrite <- Hl.
  pose proof (be_val_bound a) as Ba. pose proof (be_val_bound b) as Bb.
  rewrite <- Hl in Bb. set (B := 256 ^ lenZ a) in *.
  destruct (bool_decide (x = y)) eqn:E; bool_norm.
  - subst. rewrite IH by done. by rewrite Zcompare_plus_compat.
  - assert (byte_Z x ≠ byte_Z y) by (intros ?%byte_Z_inj; done).
    destruct (Z.ltb_spec (byte_Z x) (byte_Z y)).
    + assert (Hc : byte_Z x * B + be_val a < byte_Z y * B + be_val b) by nia.
      by rewrite (proj2 (Z.compare_lt_iff _ _) Hc).
    + assert (Hc : byte_Z x * B + be_val a > byte_Z y * B + be_val b) by nia.
      by rewrite (proj2 (Z.compare_gt_iff _ _) (Z.gt_lt _ _ Hc)).
Qed.

Lemma be_val_inj a b : length a = length b -> be_val a = be_val b -> a = b.
Proof.
  revert b; induction a as [|x a IH]; intros [|y b] Hl; try done.
  cbn [be_val]. injection Hl as Hl. rewrite <- Hl. intros Hv.
  pose proof (be_val_bound a). pose proof (be_val_bound b) as Bb. rewrite <- Hl in Bb.
  set (B := 256 ^ lenZ a) in *.
  assert (byte_Z x = byte_Z y) by nia. f_equal; [by apply byte_Z_inj|].
  apply IH; [done|]. nia.
Qed.

Lemma IDs_Less_val a b : length a = length b ->
  IDs_Less a b = (be_val a <? be_val b).
Proof.
  intros Hl. unfold IDs_Less. rewrite Hl, Z.ltb_irrefl, id_less_loop_val by done.
  unfold Z.ltb. by destruct (_ ?= _).
Qed.

Lemma Uniq_loop_spec seen ids x :
  x ∈ Uniq_loop seen ids <-> x ∈ ids /\ x ∉ seen.
Proof.
  revert seen; induction ids as [|a ids IH]; intros seen; simpl.
  - rewrite elem_of_nil. tauto.
  - destruct (bool_decide (a ∈ seen)) eqn:E; bool_norm.
    + rewrite IH, elem_of_cons. naive_solver.
    + rewrite !elem_of_cons, IH, not_elem_of_union, not_elem_of_singleton.
      destruct (decide (x = a)) as [->|]; naive_solver.
Qed.

Lemma Uniq_loop_NoDup seen ids : NoDup (Uniq_loop seen ids).
Proof.
  revert seen; induction ids as [|a ids IH]; intros seen; simpl; [constructor|].
  destruct (bool_decide (a ∈ seen)) eqn:E; [done|]. constructor; [|done].
  rewrite Uniq_loop_spec. set_solver.
Qed.

Lemma Uniq_loop_sublist seen ids : sublist (Uniq_loop seen ids) ids.
Proof.
  revert seen; induction ids as [|a ids IH]; intros seen; simpl; [constructor|].
  destruct (bool_decide (a ∈ seen)); by constructor.
Qed.

(** Insertion sort meets the contract of [sort.Sort]. *)
Section insertion_sort.
Context {A : Type} (less : A -> A -> bool).
Fixpoint insert_sorted (x : A) (l : list A) : list A :=
  match l with
  | [] => [x]
  | y :: l' => if less y x then y :: insert_sorted x l' else x :: l
  end.
Definition isort (l : list A) : list A := foldr insert_sorted [] l.
Definition isort_gosort : GoSort A less := {| gosort := isort |}.

Lemma insert_sorted_perm x l : insert_sorted x l ≡ₚ x :: l.
Proof.
  induction l as [|y l IH]; simpl; [done|]. destruct (less y x); [|done].
  rewrite IH. constructor.
Qed.

Lemma isort_perm l : isort l ≡ₚ l.
Proof.
  induction l as [|x l IH]; simpl; [done|]. by rewrite insert_sorted_perm, IH.
Qed.

Lemma weak_order_on_perm l l' : l ≡ₚ l' -> weak_order_on less l -> weak_order_on less l'.
Proof. intros Hp [H1 H2]. split; intros *; rewrite <- !Hp; eauto. Qed.

Lemma weak_order_on_cons x l : weak_order_on less (x :: l) -> weak_order_on less l.
Proof.
  intros [H1 H2]. split; intros.
  - apply H1; (done || by apply elem_of_cons; right).
  - eapply H2; [..|done|done]; by apply elem_of_cons; right.
Qed.

Lemma insert_sorted_ordered x l :
  weak_order_on less (x :: l) -> ordered less l -> ordered less (insert_sorted x l).
Proof.
  unfold ordered. intros Hw Hs. induction Hs as [|y l Hs IH Hall]; simpl.
  { repeat constructor. }
  assert (Hx : x ∈ x :: y :: l) by apply elem_of_cons, or_introl, eq_refl.
  assert (Hy : y ∈ x :: y :: l) by (rewrite !elem_of_cons; auto).
  rewrite Forall_forall in Hall. destruct (less y x) eqn:E.
  - constructor.
    + apply IH. apply (weak_order_on_cons y), (weak_order_on_perm (x :: y :: l)); [|done].
      constructor.
    + apply Forall_forall. intros z Hz. rewrite insert_sorted_perm in Hz.
      apply elem_of_cons in Hz as [->|Hz]; [|by apply Hall].
      destruct Hw as [Hw _]. by apply Hw.
  - constructor; [by constructor; [|apply Forall_forall]|].
    apply Forall_forall. intros z Hz. apply elem_of_cons in Hz as [->|Hz]; [done|].
    destruct Hw as [_ Hw]. apply (Hw x y z); auto. rewrite !elem_of_cons; auto.
Qed.

Lemma isort_spec : @GoSortSpec A less isort_gosort.
Proof.
  split; [apply isort_perm|]. intros l. simpl.
  induction l as [|x l IH]; intros Hw; simpl; [constructor|].
  apply insert_sorted_ordered.
  - apply (weak_order_on_perm (x :: l)); [by rewrite isort_perm | done].
  - by apply IH, (weak_order_on_cons x).
Qed.
End insertion_sort.

Lemma IDs_Less_weak_order l : Forall wf_ID l -> weak_order_on IDs_Less l.
Proof.
  rewrite Forall_forall. intros Hwf. unfold wf_ID in Hwf. split.
  - intros x y Hx%Hwf Hy%Hwf. rewrite !IDs_Less_val by congruence. lia.
  - intros x y z Hx%Hwf Hy%Hwf Hz%Hwf. rewrite !IDs_Less_val by congruence. lia.
Qed.

Lemma ordered_unique {A} (less : A -> A -> bool) l1 l2 :
  (forall x y, x ∈ l1 -> y ∈ l1 -> less x y = false -> less y x = false -> x = y) ->
  l1 ≡ₚ l2 -> ordered less l1 -> ordered less l2 -> l1 = l2.
Proof.
  unfold ordered. intros Htot Hp Hs1. revert l2 Hp.
  induction Hs1 as [|a l1 Hs1 IH Hall1]; intros l2 Hp Hs2.
  { by apply Permutation_nil_l in Hp as ->. }
  destruct Hs2 as [|b l2 Hs2 Hall2]; [by apply symmetry, Permutation_nil_cons in Hp|].
  assert (a = b) as ->.
  { assert (Ha : a ∈ b :: l2) by (rewrite <- Hp; apply elem_of_cons; auto).
    assert (Hb : b ∈ a :: l1) by (rewrite Hp; apply elem_of_cons; auto).
    rewrite Forall_forall in Hall1, Hall2.
    apply elem_of_cons in Ha as [->|Ha]; [done|].
    apply elem_of_cons in Hb as [->|Hb]; [done|].
    apply Htot; [apply elem_of_cons; auto | apply elem_of_cons; auto | by apply Hall2 | by apply Hall1]. }
  f_equal. apply IH; [|by apply Permutation_cons_inv in Hp|done].
  intros x y Hx Hy. apply Htot; apply elem_of_cons; auto.
Qed.

Lemma ordered_lookup {A} (less : A -> A -> bool) l i j x y :
  ordered less l -> (i < j)%nat -> l !! i = Some x -> l !! j = Some y -> less y x = false.
Proof.
  intros Ho. revert i j. induction Ho as [|a l _ IH Hall]; intros i j Hij Hi Hj; [done|].
  destruct j as [|j]; [lia|]. destruct i as [|i]; simpl in *.
  - injection Hi as ->. by rewrite Forall_lookup in Hall; apply (Hall j).
  - apply (IH i j); auto; lia.
Qed.

Lemma ParseID_String id : wf_ID id -> ParseID (ID_String id) = Ok id.
Proof.
  intros Hi. unfold ParseID, ID_String, Hex.EncodeToString, Hex.DecodeString.
  rewrite bytes_of_string_of, Hex.Decode_Encode. unfold wf_ID, idSize in *.
  rewrite bool_decide_eq_false_2 by lia. by rewrite copy_into_full by done.
Qed.
Lemma ParseID_wf s id : ParseID s = Ok id -> wf_ID id.
Proof.
  unfold ParseID. destruct (Hex.DecodeString s) as [b|e|m]; [|done|done]. case_bool_decide; [done|]. intros [= <-].
  unfold wf_ID. by rewrite copy_into_length.
Qed.

(** ** Properties *)

(** an ID survives its textual and JSON forms, and the text of an ID
    determines it: [ParseID] inverts [String], [UnmarshalJSON] inverts
    [MarshalJSON], and what [ParseID] accepts is a well-formed ID whose [String]
    parses to the same ID again. *)
Theorem ID_text_roundtrip (id : ID) (s : string) (id' : ID) :
  wf_ID id ->
  ParseID (ID_String id) = Ok id
  /\ UnmarshalJSON (MarshalJSON id) = Ok id
  /\ (ParseID s = Ok id' -> wf_ID id' /\ ParseID (ID_String id') = Ok id' /\ length (bytes_of s) = 64%nat).
Proof.
  intros Hwf. split; [by apply ParseID_String|]. split.
  - unfold MarshalJSON, UnmarshalJSON, ID_String, Hex.EncodeToString.
    rewrite bytes_of_string_of. unfold wf_ID in Hwf.
    pose proof (Hex.Encode_length id) as Hl. rewrite Hwf in Hl.
    set (h := Hex.Encode id) in *.
    assert (HL : lenZ ([quote] ++ h ++ [quote]) = 66) by (rewrite !length_app; simpl; lia).
    rewrite HL. cbn [bool_decide]. rewrite !bool_decide_eq_false_2 by (vm_compute; congruence).
    cbn [fail_if mbind res_bind]. unfold gindex at 1. cbn [app lookup list_lookup].
    rewrite bool_decide_eq_true_2 by lia. cbn.
    unfold gindex. rewrite bool_decide_eq_true_2 by lia.
    assert (Hlast : (quote :: h ++ [quote]) !! 65%nat = Some quote)
      by (change (quote :: h ++ [quote]) with ((quote :: h) ++ [quote]);
          rewrite lookup_app_r by (simpl; lia); simpl; by rewrite Hl).
    change (Z.to_nat (66 - 1)) with 65%nat. rewrite Hlast. cbn.
    rewrite (gslice_ok (quote :: h ++ [quote])) by (simpl; rewrite ?length_app; simpl; lia).
    change (Z.to_nat (66 - 1 - 1)) with 64%nat. cbn [mbind res_bind].
    change (drop (Z.to_nat 1) (quote :: h ++ [quote])) with (h ++ [quote]).
    rewrite take_app_length' by lia. rewrite bool_decide_eq_false_2 by (unfold idSize; lia).
    cbn [fail_if mbind res_bind]. unfold h. by rewrite Hex.Decode_Encode.
  - unfold ParseID, Hex.DecodeString. destruct (Hex.Decode (bytes_of s)) as [b| |] eqn:E; try done.
    apply Hex.Decode_length in E. case_bool_decide as Hb; [done|]. intros [= <-].
    unfold idSize in Hb.
    assert (Hw : wf_ID (copy_into nullID b)) by (unfold wf_ID; by rewrite copy_into_length).
    split; [done|]. split; [by apply ParseID_String | lia].
Qed.

Definition sample_id : ID := map Z_byte (seqZ 1 32).

Lemma ID_text_roundtrip_witness :
  wf_ID sample_id /\ ParseID (ID_String sample_id) = Ok sample_id.
Proof.
  assert (Hw : wf_ID sample_id) by (vm_compute; reflexivity).
  split; [exact Hw|]. exact (proj1 (ID_text_roundtrip sample_id (ID_String sample_id) sample_id Hw)).
Defined.

(** the operations of [IDSet] and [BlobSet] are the set operations they
    are named after: the size-then-one-inclusion [Equals] decides equality,
    [Merge], [Intersect] (which iterates over the smaller set) and [Sub] are
    union, intersection and difference. *)
Theorem sets_refine (s t : IDSet) (a b : BlobSet) :
  (IDSet_Equals s t = true <-> s = t) /\ IDSet_Merge s t = s ∪ t
  /\ IDSet_Intersect s t = s ∩ t /\ IDSet_Sub s t = s ∖ t
  /\ (BlobSet_Equals a b = true <-> a = b) /\ BlobSet_Merge a b = a ∪ b
  /\ BlobSet_Intersect a b = a ∩ b /\ BlobSet_Sub a b = a ∖ b.
Proof.
  unfold IDSet_Equals, BlobSet_Equals, IDSet_Merge, BlobSet_Merge, IDSet_Has, BlobSet_Has,
    IDSet_Intersect, BlobSet_Intersect, IDSet_Sub, BlobSet_Sub, IDSet_Has, BlobSet_Has,
    IDSet_Insert, BlobSet_Insert.
  split_and!; first [exact (set_equals_by_size _ _) | apply set_eq; intros x];
    repeat (case_bool_decide; simpl);
    rewrite ?fold_insert, ?fold_insert_if, ?elem_of_elements, ?negb_true_iff,
      ?bool_decide_eq_true, ?bool_decide_eq_false; set_solver.
Qed.

(** [IDSet.List] returns the elements of the set once each in strictly
    increasing byte order, and [Uniq] keeps exactly the first occurrence of
    each ID, in the original order. *)
Theorem List_Uniq_spec `{GS : GoSortSpec ID IDs_Less} (s : IDSet) (ids : list ID) :
  (forall id, id ∈ s -> wf_ID id) ->
  (forall id, id ∈ IDSet_List s <-> id ∈ s)
  /\ (forall i j x y, (i < j)%nat -> IDSet_List s !! i = Some x -> IDSet_List s !! j = Some y ->
        be_val x < be_val y)
  /\ NoDup (Uniq ids) /\ sublist (Uniq ids) ids /\ (forall id, id ∈ Uniq ids <-> id ∈ ids).
Proof.
  intros Hwf. unfold IDSet_List.
  assert (Hel : forall id, id ∈ gosort IDs_Less (elements s) <-> id ∈ s)
    by (intros; by rewrite gosort_perm, elem_of_elements).
  split; [done|]. split.
  - intros i j x y Hij Hi Hj.
    assert (Ho : ordered IDs_Less (gosort IDs_Less (elements s))).
    { apply gosort_ordered, IDs_Less_weak_order, Forall_forall.
      intros id. rewrite elem_of_elements. apply Hwf. }
    assert (Hx : wf_ID x) by (by eapply Hwf, Hel, list_elem_of_lookup_2).
    assert (Hy : wf_ID y) by (by eapply Hwf, Hel, list_elem_of_lookup_2).
    assert (Hne : x ≠ y).
    { intros ->. assert (i = j); [|lia]. eapply NoDup_lookup; eauto.
      rewrite gosort_perm. apply NoDup_elements. }
    assert (Hless : IDs_Less y x = false).
    { by eapply ordered_lookup. }
    unfold wf_ID in *. rewrite IDs_Less_val in Hless by congruence.
    assert (be_val x ≠ be_val y) by (intros ?%be_val_inj; congruence). lia.
  - split; [apply Uniq_loop_NoDup|]. split; [apply Uniq_loop_sublist|].
    intros id. unfold Uniq. rewrite Uniq_loop_spec. set_solver.
Qed.

Lemma List_Uniq_spec_witness :
  Uniq [sample_id; nullID; sample_id] = [sample_id; nullID]
  /\ NoDup (Uniq [sample_id; nullID; sample_id]).
Proof.
  pose proof (List_Uniq_spec (GS := isort_spec IDs_Less) {[sample_id]}
    [sample_id; nullID; sample_id]) as H.
  split; [vm_compute; reflexivity|].
  apply H. intros id ->%elem_of_singleton. vm_compute. reflexivity.
Defined.
