(* ===== verification/Pack.v ===== *)
(** * Pack: writing and listing pack files (src/pack/pack.go)

    A pack file is the concatenation of encrypted blobs, an encrypted header
    with one 37-byte entry per blob, and the header's length as a little-endian
    [uint32].  [Packer] writes it, [List] reads the header back. *)

From S2P Require Import Prelude Crypto Ids.

(** ** Constants *)

Definition headerLengthSize : Z := 4.
(** [binary.Size(restic.BlobType(0)) + headerLengthSize + len(restic.ID{})] *)
Definition EntrySize : Z := 1 + headerLengthSize + idSize.
Definition minFileSize : Z := EntrySize + Extension + headerLengthSize.
Definition HeaderSize : Z := headerLengthSize + Extension.
Definition maxHeaderSize : Z := 16 * 1024 * 1024.
Definition eagerEntries : Z := 15.

(** ** Errors *)

Inductive pack_error (E : Type) : Type :=
| InvalidFileError (msg : string)
| PackCrypto (e : crypto_error)
| PackIO (e : E)
| PackMsg (msg : string).
Arguments InvalidFileError {E} msg.
Arguments PackCrypto {E} e.
Arguments PackIO {E} e.
Arguments PackMsg {E} msg.

(** The errors of the AEAD, seen from this package. *)
Definition lift_crypto {E A} (r : res crypto_error A) : res (pack_error E) A :=
  match r with Ok a => Ok a | Err e => Err (PackCrypto e) | Panic m => Panic m end.

(** ** The writer underneath ([io.Writer])

    [wr_write w data] is the state after the call, the number of bytes taken
    and the error.  The laws are the documented contract of [io.Writer]. *)
Class Writer (W E : Type) : Type := {
  wr_write : W -> list byte -> W * Z * option E;
  wr_bytes : W -> list byte;
}.
Class WriterLaws (W E : Type) `{Writer W E} : Prop := {
  wr_count w d : 0 <= (wr_write w d).1.2 <= lenZ d;
  wr_appends w d : wr_bytes (wr_write w d).1.1
    = wr_bytes w ++ take (Z.to_nat (wr_write w d).1.2) d;
  wr_short w d : (wr_write w d).2 = None -> (wr_write w d).1.2 = lenZ d;
}.

Section packer.
Context {W E : Type} `{!Writer W E} `{CP : CryptoPrims}.

Record Packer : Type := mkPacker {
  p_blobs : list Blob;
  p_bytes : Z;
  p_k : Key;
  p_wr : W;
}.

Definition NewPacker (k : Key) (wr : W) : Packer :=
  {| p_blobs := []; p_bytes := 0; p_k := k; p_wr := wr |}.

(** [Add] records the blob even when the write fails. *)
Definition Add (p : Packer) (t : BlobType) (id : ID) (data : list byte)
  : Packer * Z * option (pack_error E) :=
  let '(wr, n, err) := wr_write (p_wr p) data in
  let c := {| b_handle := {| bh_ID := id; bh_Type := t |};
              b_Length := u64 n; b_Offset := p_bytes p |} in
  ({| p_blobs := p_blobs p ++ [c]; p_bytes := u64 (p_bytes p + u64 n);
      p_k := p_k p; p_wr := wr |}, n, PackIO <$> err).

(** One header entry. *)
Definition headerEntry (b : Blob) : res (pack_error E) (list byte) :=
  ty ← match b_Type b with
       | DataBlob => Ok Byte.x00
       | TreeBlob => Ok Byte.x01
       | InvalidBlob => Err (PackMsg "invalid blob type")
       end;
  Ok ([ty] ++ le_put 4 (u32 (b_Length b)) ++ b_ID b).

Fixpoint makeHeader_loop (buf : list byte) (blobs : list Blob) : res (pack_error E) (list byte) :=
  match blobs with
  | [] => Ok buf
  | b :: blobs => e ← headerEntry b; makeHeader_loop (buf ++ e) blobs
  end.
Definition makeHeader (p : Packer) : res (pack_error E) (list byte) :=
  makeHeader_loop [] (p_blobs p).

(** [Finalize] with the nonce [NewRandomNonce] has drawn.  The result carries
    the packer because the writer has advanced even when an error is
    returned. *)
Definition Finalize (p : Packer) (nonce : list byte) : Packer * res (pack_error E) Z :=
  let bytesWritten := p_bytes p in
  match makeHeader p with
  | Err e => (p, Err e)
  | Panic m => (p, Panic m)
  | Ok header =>
      let cap := lenZ header + Overhead (p_k p) + NonceSize (p_k p) in
      let spare := replicate (Z.to_nat cap - length nonce) Byte.x00 in
      match lift_crypto (E:=E) (Seal (p_k p) (mkSlice nonce spare) nonce header []) with
      | Err e => (p, Err e)
      | Panic m => (p, Panic m)
      | Ok (k', encryptedHeader) =>
          let '(wr, n, err) := wr_write (p_wr p) encryptedHeader in
          let p := {| p_blobs := p_blobs p; p_bytes := p_bytes p; p_k := k'; p_wr := wr |} in
          match err with
          | Some e => (p, Err (PackIO e))
          | None =>
              let hdrBytes := CiphertextLength (lenZ header) in
              if bool_decide (n ≠ hdrBytes)
              then (p, Err (PackMsg "wrong number of bytes written"))
              else
                let bytesWritten := u64 (bytesWritten + u64 hdrBytes) in
                let lenfield := le_put 4 (u32 (CiphertextLength (lenZ (p_blobs p) * EntrySize))) in
                let '(wr, _, err) := wr_write (p_wr p) lenfield in
                let p := {| p_blobs := p_blobs p; p_bytes := p_bytes p; p_k := p_k p; p_wr := wr |} in
                match err with
                | Some e => (p, Err (PackIO e))
                | None =>
                    let bytesWritten := u64 (bytesWritten + 4) in
                    ({| p_blobs := p_blobs p; p_bytes := bytesWritten; p_k := p_k p; p_wr := p_wr p |},
                     Ok bytesWritten)
                end
          end
      end
  end.

Definition Size (p : Packer) : Z := p_bytes p.
Definition Count (p : Packer) : Z := lenZ (p_blobs p).
Definition Blobs (p : Packer) : list Blob := p_blobs p.

End packer.
Arguments Packer W : clear implicits.

(** ** Reading *)

Section reading.
Context {E : Type} `{CP : CryptoPrims}.

(** An [io.ReaderAt]: the bytes read for a buffer of the given length at the
    given offset, or an error. *)
Definition ReaderAt : Type := Z -> Z -> res E (list byte).

Definition lift_io {A} (r : res E A) : res (pack_error E) A :=
  match r with Ok a => Ok a | Err e => Err (PackIO e) | Panic m => Panic m end.

(** The switch of [readRecords] on the header length found in the file. *)
Definition checkHeaderLength (hlen size : Z) : res (pack_error E) unit :=
  if bool_decide (hlen = 0) then Err (InvalidFileError "header length is zero")
  else if bool_decide (hlen < Extension) then Err (InvalidFileError "header length is too small")
  else if bool_decide (u32 (hlen - Extension) mod EntrySize ≠ 0)
    then Err (InvalidFileError "header length is invalid")
  else if bool_decide (hlen > size - headerLengthSize)
    then Err (InvalidFileError "header is larger than file")
  else if bool_decide (hlen > maxHeaderSize)
    then Err (InvalidFileError "header is larger than maxHeaderSize")
  else Ok tt.

Definition readRecords (rd : ReaderAt) (size max : Z) : res (pack_error E) (list byte * Z) :=
  let bufsize := max * EntrySize + Extension + headerLengthSize in
  let bufsize := if bool_decide (bufsize > size) then size else bufsize in
  let off := size - bufsize in
  b ← lift_io (rd bufsize off);
  lenbytes ← gslice b (lenZ b - headerLengthSize) (lenZ b);
  let hlen := le_get lenbytes in
  b ← gslice b 0 (lenZ b - headerLengthSize);
  checkHeaderLength hlen size;;
  let total := (hlen - Extension) / EntrySize in
  b ← (if bool_decide (total < max) then gslice b (lenZ b - hlen) (lenZ b) else Ok b);
  Ok (b, total).

Definition readHeader (rd : ReaderAt) (size : Z) : res (pack_error E) (list byte) :=
  fail_if (bool_decide (size < minFileSize)) (InvalidFileError "file is too small");;
  '(b, c) ← readRecords rd size eagerEntries;
  if bool_decide (c <= eagerEntries) then Ok b
  else '(b, _) ← readRecords rd size c; Ok b.

Definition parseHeaderEntry (p : list byte) : res (pack_error E) Blob :=
  fail_if (bool_decide (lenZ p < EntrySize)) (PackMsg "parseHeaderEntry: buffer too short");;
  p ← gslice p 0 EntrySize;
  p0 ← gindex p 0;
  ty ← (if bool_decide (byte_Z p0 = 0) then Ok DataBlob
        else if bool_decide (byte_Z p0 = 1) then Ok TreeBlob
        else Err (PackMsg "invalid type"));
  lenbytes ← gslice p 1 5;
  idbytes ← gslice p 5 (lenZ p);
  Ok {| b_handle := {| bh_ID := copy_into nullID idbytes; bh_Type := ty |};
        b_Length := le_get lenbytes; b_Offset := 0 |}.

(** The loop of [List]; every iteration consumes one entry, so the buffer's
    length bounds the iterations. *)
Fixpoint List_loop (fuel : nat) (pos : Z) (buf : list byte) : res (pack_error E) (list Blob) :=
  match buf with
  | [] => Ok []
  | _ =>
      match fuel with
      | O => Panic "out of fuel"
      | S fuel =>
          entry ← parseHeaderEntry buf;
          let entry := {| b_handle := b_handle entry; b_Length := b_Length entry; b_Offset := pos |} in
          rest ← gslice buf EntrySize (lenZ buf);
          entries ← List_loop fuel (u64 (pos + b_Length entry)) rest;
          Ok (entry :: entries)
      end
  end.

(** [List] also returns the header's size and, since [Open] may mask it, the
    key. *)
Definition List (k : Key) (rd : ReaderAt) (size : Z) : res (pack_error E) (list Blob * Z) :=
  buf ← readHeader rd size;
  fail_if (bool_decide (lenZ buf < NonceSize k + Overhead k)) (PackMsg "invalid header, too small");;
  let hdrSize := u32 (headerLengthSize + u32 (lenZ buf)) in
  nonce ← gslice buf 0 (NonceSize k);
  buf ← gslice buf (NonceSize k) (lenZ buf);
  '(_, buf) ← lift_crypto (Open k (mkSlice [] buf) nonce buf []);
  entries ← List_loop (length buf) 0 buf;
  Ok (entries, hdrSize).

Definition PackedSizeOfBlob (blobLength : Z) : Z := u64 (blobLength + EntrySize).

End reading.
Arguments ReaderAt E : clear implicits.

(** [bytes.Reader.ReadAt] on the whole data: a negative offset and a short
    read are errors. *)
Inductive read_error : Type := NegativeOffset | EOF.
Definition bytesReaderAt (data : list byte) : ReaderAt read_error := fun n off =>
  if bool_decide (off < 0) then Err NegativeOffset
  else if bool_decide (off >= lenZ data) then Err EOF
  else if bool_decide (off + n > lenZ data) then Err EOF
  else Ok (take (Z.to_nat n) (drop (Z.to_nat off) data)).

(** ** Lemmas *)

Definition last_n {A} (n : nat) (l : list A) : list A := drop (length l - n) l.

Lemma last_n_app {A} (l1 l2 : list A) n : n = length l2 -> last_n n (l1 ++ l2) = l2.
Proof.
  intros ->. unfold last_n. rewrite length_app.
  by rewrite drop_app_length' by lia.
Qed.

Lemma last_n_length {A} (l : list A) n : (n <= length l)%nat -> length (last_n n l) = n.
Proof. intros. unfold last_n. rewrite length_drop. lia. Qed.

Lemma last_n_last_n {A} (l : list A) n m :
  (n <= m <= length l)%nat -> last_n n (last_n m l) = last_n n l.
Proof. intros. unfold last_n. rewrite drop_drop, length_drop. f_equal. lia. Qed.

Lemma gslice_last {E A} (l : list A) n : 0 <= n <= lenZ l ->
  gslice (E:=E) l (lenZ l - n) (lenZ l) = Ok (last_n (Z.to_nat n) l).
Proof.
  intros. rewrite gslice_ok by lia. unfold last_n. f_equal.
  rewrite take_ge by (rewrite length_drop; lia). f_equal. lia.
Qed.

Section read_facts.
Context `{CP : CryptoPrims}.

Lemma checkHeaderLength_ok {E} hlen size : 0 <= hlen < 2 ^ 32 ->
  checkHeaderLength (E:=E) hlen size = Ok tt <->
  Extension <= hlen /\ (hlen - Extension) mod EntrySize = 0
  /\ hlen <= size - headerLengthSize /\ hlen <= maxHeaderSize.
Proof.
  intros Hb. unfold checkHeaderLength, Extension, ivSize, macSize in *.
  repeat case_bool_decide; try rewrite u32_small in * by lia; split; intros; try done; lia.
Qed.

Lemma checkHeaderLength_err {E} hlen size e :
  checkHeaderLength (E:=E) hlen size = Err e -> exists m, e = InvalidFileError m.
Proof. unfold checkHeaderLength. repeat case_bool_decide; naive_solver. Qed.

Lemma checkHeaderLength_nopanic {E} hlen size m :
  checkHeaderLength (E:=E) hlen size ≠ Panic m.
Proof. unfold checkHeaderLength. by repeat case_bool_decide. Qed.

(** What the end of the file yields, for a file of a plausible size. *)
Lemma readRecords_value (pre lf : list byte) max :
  length lf = 4%nat -> 0 <= max -> minFileSize <= lenZ (pre ++ lf) ->
  readRecords (bytesReaderAt (pre ++ lf)) (lenZ (pre ++ lf)) max =
  match checkHeaderLength (le_get lf) (lenZ (pre ++ lf)) with
  | Ok _ =>
      let total := (le_get lf - Extension) / EntrySize in
      Ok (last_n (Z.to_nat (if bool_decide (total < max) then le_get lf
                            else Z.min (lenZ pre) (max * EntrySize + Extension))) pre, total)
  | Err e => Err e
  | Panic m => Panic m
  end.
Proof.
  intros Hlf Hmax Hmin. unfold readRecords.
  set (size := lenZ (pre ++ lf)) in *.
  assert (Hsize : size = lenZ pre + 4) by (unfold size; rewrite length_app; lia).
  set (bs := if bool_decide (_ > size) then size else _).
  assert (Hbs : bs = Z.min size (max * EntrySize + Extension + headerLengthSize))
    by (unfold bs; case_bool_decide; lia).
  assert (HE : EntrySize = 37 /\ Extension = 32 /\ headerLengthSize = 4 /\ minFileSize = 73) by done.
  destruct HE as (HE1 & HE2 & HE3 & HE4).
  assert (Hrd : bytesReaderAt (pre ++ lf) bs (size - bs) = Ok (last_n (Z.to_nat (bs - 4)) pre ++ lf)).
  { unfold bytesReaderAt. fold size. rewrite !bool_decide_eq_false_2 by lia.
    f_equal. rewrite take_ge by (rewrite length_drop; lia). unfold last_n.
    rewrite drop_app_le by lia. do 2 f_equal. lia. }
  rewrite Hrd. cbn [lift_io mbind res_bind].
  clearbody bs. remember (last_n (Z.to_nat (bs - 4)) pre) as q eqn:Eq.
  assert (Hq : lenZ q = bs - 4) by (rewrite Eq, last_n_length; lia).
  assert (Hql : lenZ (q ++ lf) = bs) by (rewrite length_app; lia).
  rewrite Hql, HE3.
  rewrite (gslice_suffix q lf (bs - 4) bs) by lia. cbn [mbind res_bind].
  rewrite (gslice_prefix q lf) by lia. cbn [mbind res_bind].
  pose proof (le_get_bound lf) as Hb. rewrite Hlf in Hb.
  destruct (checkHeaderLength (le_get lf) size) as [[]|e|m] eqn:Hc; [|done|done].
  apply checkHeaderLength_ok in Hc as (Hc1 & Hc2 & Hc3 & Hc4); [|lia].
  cbn [mbind res_bind].
  assert (Hdiv : le_get lf = Extension + EntrySize * ((le_get lf - Extension) / EntrySize))
    by (pose proof (Z.div_mod (le_get lf - Extension) EntrySize ltac:(lia)); lia).
  case_bool_decide as Ht.
  - rewrite Hq. replace (bs - 4) with (lenZ q) by lia.
    rewrite gslice_last by lia. cbn [mbind res_bind]. rewrite Eq.
    rewrite last_n_last_n by lia. done.
  - cbn [mbind res_bind]. rewrite Eq. repeat f_equal. lia.
Qed.

Lemma readHeader_value (pre lf : list byte) :
  length lf = 4%nat -> minFileSize <= lenZ (pre ++ lf) ->
  readHeader (bytesReaderAt (pre ++ lf)) (lenZ (pre ++ lf)) =
  match checkHeaderLength (le_get lf) (lenZ (pre ++ lf)) with
  | Ok _ => Ok (last_n (Z.to_nat (le_get lf)) pre)
  | Err e => Err e
  | Panic m => Panic m
  end.
Proof.
  intros Hlf Hmin. unfold readHeader.
  rewrite bool_decide_eq_false_2 by lia. cbn [fail_if mbind res_bind].
  rewrite readRecords_value by (done || unfold eagerEntries; lia).
  destruct (checkHeaderLength (le_get lf) _) as [[]|e|m] eqn:Hc; [|done|done].
  cbn [mbind res_bind]. pose proof (le_get_bound lf) as Hb. rewrite Hlf in Hb.
  pose proof Hc as Hc'. apply checkHeaderLength_ok in Hc' as (Hc1 & Hc2 & Hc3 & Hc4); [|lia].
  set (total := (le_get lf - Extension) / EntrySize) in *.
  assert (HE : EntrySize = 37 /\ Extension = 32 /\ headerLengthSize = 4) by done.
  destruct HE as (HE1 & HE2 & HE3).
  assert (Hdiv : le_get lf = Extension + EntrySize * total) by (pose proof (Z.div_mod (le_get lf - Extension) EntrySize ltac:(lia)); unfold total; lia).
  rewrite length_app in *.
  case_bool_decide as Hle.
  - repeat f_equal. case_bool_decide; lia.
  - rewrite <- (length_app pre lf), readRecords_value
      by (done || lia || (rewrite length_app; lia)).
    rewrite length_app, Hc. cbn [mbind res_bind]. fold total.
    rewrite (bool_decide_eq_false_2 (total < total)) by lia.
    repeat f_equal. lia.
Qed.

End read_facts.

(** ** Header entries *)

Definition blob_ok (b : Blob) : Prop :=
  wf_ID (b_ID b) /\ b_Type b ≠ InvalidBlob /\ 0 <= b_Length b < 2 ^ 32.

(** The entry without its offset, which is not stored. *)
Definition at_offset (b : Blob) (pos : Z) : Blob :=
  {| b_handle := b_handle b; b_Length := b_Length b; b_Offset := pos |}.

(** [blobs] lie one after the other from [pos] on, ending at [fin]. *)
Fixpoint laid_out (pos : Z) (blobs : list Blob) (fin : Z) : Prop :=
  match blobs with
  | [] => pos = fin
  | b :: blobs => b_Offset b = pos /\ laid_out (u64 (pos + b_Length b)) blobs fin
  end.

Section header_facts.
Context {E : Type}.

Lemma headerEntry_ok b : blob_ok b ->
  exists e, headerEntry (E:=E) b = Ok e /\ length e = 37%nat
    /\ forall rest, parseHeaderEntry (E:=E) (e ++ rest) = Ok (at_offset b 0).
Proof.
  intros (Hid & Hty & Hlen). unfold headerEntry.
  assert (Hgen : forall t, byte_Z t = 0 /\ b_Type b = DataBlob \/ byte_Z t = 1 /\ b_Type b = TreeBlob ->
    exists e, @Ok (pack_error E) _ ([t] ++ le_put 4 (u32 (b_Length b)) ++ b_ID b) = Ok e
      /\ length e = 37%nat
      /\ forall rest, parseHeaderEntry (E:=E) (e ++ rest) = Ok (at_offset b 0)).
  { intros t Ht. eexists. split; [done|]. unfold wf_ID in Hid.
    assert (H37 : length ([t] ++ le_put 4 (u32 (b_Length b)) ++ b_ID b) = 37%nat)
      by (rewrite !length_app, le_put_length; simpl; lia).
    split; [done|]. intros rest. unfold parseHeaderEntry.
    set (e := [t] ++ _) in *.
    rewrite bool_decide_eq_false_2
      by (rewrite length_app; unfold EntrySize, headerLengthSize, idSize; lia).
    cbn [fail_if mbind res_bind].
    rewrite (gslice_prefix e rest) by (unfold EntrySize, headerLengthSize, idSize; lia).
    cbn [mbind res_bind]. unfold gindex. rewrite bool_decide_eq_true_2 by lia.
    change (e !! Z.to_nat 0) with (Some t). cbn [mbind res_bind].
    assert (Hslen : gslice (E:=pack_error E) e 1 5 = Ok (le_put 4 (u32 (b_Length b)))).
    { rewrite gslice_ok by lia. change (drop (Z.to_nat 1) e) with (le_put 4 (u32 (b_Length b)) ++ b_ID b).
      by rewrite take_app_length' by (rewrite le_put_length; done). }
    assert (Hsid : gslice (E:=pack_error E) e 5 (lenZ e) = Ok (b_ID b)).
    { unfold e. rewrite app_assoc. apply gslice_suffix; [|done].
      rewrite length_app, le_put_length. done. }
    assert (Hty2 : (if bool_decide (byte_Z t = 0) then Ok DataBlob
        else if bool_decide (byte_Z t = 1) then Ok TreeBlob
        else Err (PackMsg "invalid type")) = @Ok (pack_error E) _ (b_Type b))
      by (by destruct Ht as [[-> ->]|[-> ->]]).
    rewrite Hty2. cbn [mbind res_bind]. rewrite Hslen. cbn [mbind res_bind].
    rewrite Hsid. cbn [mbind res_bind]. rewrite le_get_put.
    rewrite copy_into_full by (rewrite Hid; done).
    change (256 ^ Z.of_nat 4) with (2 ^ 32). rewrite u32_small, Z.mod_small by lia.
    by destruct b as [[i ty] len off]. }
  destruct (b_Type b) eqn:Et; [done|apply Hgen..]; vm_compute; auto.
Qed.

(** [makeHeader] and the loop of [List] are inverse to each other. *)
Lemma header_roundtrip blobs buf :
  Forall blob_ok blobs ->
  exists hdr, makeHeader_loop (E:=E) buf blobs = Ok (buf ++ hdr)
    /\ length hdr = (37 * length blobs)%nat
    /\ forall pos fin fuel, laid_out pos blobs fin -> (length blobs <= fuel)%nat ->
         List_loop (E:=E) fuel pos hdr = Ok blobs.
Proof.
  intros Hall. revert buf. induction Hall as [|b blobs Hb Hall IH]; intros buf.
  { exists []. simpl. rewrite app_nil_r. split; [done|]. split; [done|]. by intros ?? []. }
  destruct (headerEntry_ok b Hb) as (e & He & Hle & Hp).
  destruct (IH (buf ++ e)) as (hdr & Hh & Hlh & HL).
  exists (e ++ hdr). cbn [makeHeader_loop]. rewrite He. cbn [mbind res_bind].
  rewrite Hh, app_assoc. split; [done|]. split; [rewrite length_app; simpl; lia|].
  intros pos fin fuel [Hoff Hlay] Hfuel.
  destruct fuel as [|fuel]; [simpl in Hfuel; lia|].
  destruct e as [|e0 e]; [simpl in Hle; lia|]. cbn [List_loop app].
  change (e0 :: e ++ hdr) with ((e0 :: e) ++ hdr). rewrite Hp. cbn [mbind res_bind].
  rewrite gslice_suffix by (unfold EntrySize, headerLengthSize, idSize; rewrite ?Hle; done).
  cbn [mbind res_bind at_offset b_Length b_handle].
  rewrite (HL _ fin fuel) by (done || simpl in Hfuel; lia). cbn [mbind res_bind].
  destruct b; simpl in *. by subst.
Qed.

(** The loop of [List] never runs out of fuel and never panics. *)
Lemma parseHeaderEntry_nopanic p m : parseHeaderEntry (E:=E) p ≠ Panic m.
Proof.
  unfold parseHeaderEntry. case_bool_decide; cbn [fail_if mbind res_bind]; [done|].
  unfold EntrySize, headerLengthSize, idSize in *.
  rewrite gslice_ok by lia. cbn [mbind res_bind]. rewrite drop_0.
  set (q := take (Z.to_nat (1 + 4 + 32 - 0)) p).
  assert (Hq : length q = 37%nat) by (unfold q; rewrite length_take; lia).
  destruct q as [|q0 q]; [done|]. unfold gindex. rewrite bool_decide_eq_true_2 by lia.
  change ((q0 :: q) !! Z.to_nat 0) with (Some q0). cbn [mbind res_bind].
  rewrite !gslice_ok by (simpl in *; lia).
  repeat case_bool_decide; done.
Qed.

Lemma List_loop_nopanic fuel pos buf m :
  (length buf <= 37 * fuel)%nat -> List_loop (E:=E) fuel pos buf ≠ Panic m.
Proof.
  revert pos buf. induction fuel as [|fuel IH]; intros pos buf Hl.
  { destruct buf; simpl in *; [done|lia]. }
  destruct buf as [|b0 buf]; [done|]. cbn [List_loop].
  destruct (parseHeaderEntry (b0 :: buf)) as [en|e|m'] eqn:Ep; cbn [mbind res_bind]; [|done|].
  2: { by apply parseHeaderEntry_nopanic in Ep. }
  assert (Hlen : EntrySize <= lenZ (b0 :: buf)).
  { unfold parseHeaderEntry in Ep. case_bool_decide; [done|lia]. }
  rewrite gslice_ok by (unfold EntrySize, headerLengthSize, idSize in *; lia).
  cbn [mbind res_bind]. destruct (List_loop fuel _ _) as [l|e|m'] eqn:EL; try done.
  cbn [mbind res_bind]. intros [= ->]. eapply IH; [|exact EL]. unfold EntrySize, headerLengthSize, idSize in *.
  rewrite length_take, length_drop. simpl in *. lia.
Qed.

Lemma parseHeaderEntry_sound p b : parseHeaderEntry (E:=E) p = Ok b ->
  blob_ok b /\ EntrySize <= lenZ p.
Proof.
  unfold parseHeaderEntry. case_bool_decide as Hl; cbn [fail_if mbind res_bind]; [done|].
  intros (p' & _ & (p0 & _ & (ty & Hty & (lb & Hlb & (ib & _ & [= <-])%bind_ok)%bind_ok)%bind_ok)%bind_ok)%bind_ok.
  split; [|lia]. unfold blob_ok, b_ID, b_Type; simpl. split; [unfold wf_ID; by rewrite copy_into_length|].
  split.
  - repeat case_bool_decide; by simplify_eq.
  - unfold gslice in Hlb. case_bool_decide; [|done]. injection Hlb as <-.
    pose proof (le_get_bound (take (Z.to_nat (5 - 1)) (drop (Z.to_nat 1) p'))) as Hb.
    rewrite length_take_le in Hb by (rewrite length_drop; lia). exact Hb.
Qed.

Lemma List_loop_sound fuel pos buf entries : List_loop (E:=E) fuel pos buf = Ok entries ->
  length buf = (37 * length entries)%nat /\ (exists fin, laid_out pos entries fin)
  /\ Forall blob_ok entries.
Proof.
  revert pos buf entries. induction fuel as [|fuel IH]; intros pos [|b0 buf] entries; try done.
  1-2: intros [= <-]; (split; [done|split; [by exists pos | constructor]]).
  cbn [List_loop]. intros (en & Hp & (rest & Hr & (es & Hes & [= <-])%bind_ok)%bind_ok)%bind_ok.
  apply parseHeaderEntry_sound in Hp as [(Hid & Hty & Hlen) Hsz].
  rewrite gslice_ok in Hr by (unfold EntrySize, headerLengthSize, idSize in *; lia).
  injection Hr as <-. apply IH in Hes as (Hl & [fin Hlay] & Hall).
  split; [|split].
  - rewrite length_take, length_drop in Hl. unfold EntrySize, headerLengthSize, idSize in *.
    simpl in *. lia.
  - exists fin. split; [done|exact Hlay].
  - apply Forall_cons. split; [split; [done|split; done] | done].
Qed.

End header_facts.

(** ** The packer *)

(** The arguments of one call of [Add]. *)
Abbreviation op := (BlobType * ID * list byte)%type.

Section packer_facts.
Context {W E : Type} `{WL : WriterLaws W E} `{CL : CryptoLaws}.

(** Several calls of [Add]. *)
Definition adds (p : Packer W) (ops : list op) : Packer W :=
  fold_left (fun p '(t, id, data) => (Add p t id data).1.1) ops p.

Definition op_ok (o : op) : Prop :=
  let '(t, id, data) := o in
  t ≠ InvalidBlob /\ wf_ID id /\ lenZ data < 2 ^ 32.

(** The invariant of a packer after [ops]: [chunks] are the bytes each [Add]
    has written. *)
Definition packer_inv (k : Key) (ops : list op) (p : Packer W) (chunks : list (list byte)) : Prop :=
  p_k p = k
  /\ wr_bytes (p_wr p) = concat chunks
  /\ p_bytes p = lenZ (concat chunks)
  /\ laid_out 0 (p_blobs p) (p_bytes p)
  /\ Forall2 (fun o c => c = take (length c) o.2) ops chunks
  /\ Forall2 (fun b c => b_Length b = lenZ c) (p_blobs p) chunks
  /\ Forall2 (fun b o => b_handle b = {| bh_ID := o.1.2; bh_Type := o.1.1 |}) (p_blobs p) ops.

Lemma laid_out_app pos blobs b fin : laid_out pos blobs fin -> b_Offset b = fin ->
  laid_out pos (blobs ++ [b]) (u64 (fin + b_Length b)).
Proof.
  revert pos. induction blobs as [|b' blobs IH]; intros pos; simpl.
  - intros -> ->. done.
  - intros [Ho Hl] Hb. split; [done|]. by apply IH.
Qed.

Lemma Add_inv k ops p chunks t id data :
  packer_inv k ops p chunks -> p_bytes p + lenZ data < 2 ^ 64 ->
  exists c, packer_inv k (ops ++ [(t, id, data)]) (Add p t id data).1.1 (chunks ++ [c])
    /\ (length c <= length data)%nat /\ ((Add p t id data).2 = None -> c = data).
Proof.
  intros (Hk & Hw & Hb & Hlay & Hc & Hl & Hh) Hsz. unfold Add.
  pose proof (wr_count (p_wr p) data) as Hn. pose proof (wr_appends (p_wr p) data) as Ha.
  pose proof (wr_short (p_wr p) data) as Hs.
  destruct (wr_write (p_wr p) data) as [[w n] err]. simpl in *.
  exists (take (Z.to_nat n) data).
  assert (Hcl : length (take (Z.to_nat n) data) = Z.to_nat n) by (rewrite length_take; lia).
  split.
  - unfold packer_inv; simpl. rewrite concat_app, length_app. simpl. rewrite app_nil_r, Hcl.
    rewrite (u64_small n) by lia. rewrite (u64_small (_ + _)) by lia.
    repeat split; auto.
    + by rewrite Ha, Hw.
    + lia.
    + pose proof (laid_out_app 0 (p_blobs p) {| b_handle := mkHandle id t; b_Length := n;
        b_Offset := p_bytes p |} (p_bytes p) Hlay eq_refl) as Hl2.
      simpl in Hl2. by rewrite u64_small in Hl2 by lia.
    + apply Forall2_app; [done|]. constructor; [|done]. simpl. by rewrite Hcl.
    + apply Forall2_app; [done|]. constructor; [|done]. simpl. rewrite Hcl. lia.
    + apply Forall2_app; [done|]. by constructor.
  - split; [lia|]. intros Hnone. destruct err; [done|]. rewrite (Hs eq_refl).
    rewrite take_ge by lia. done.
Qed.

Lemma adds_inv k ops0 p chunks ops :
  packer_inv k ops0 p chunks -> p_bytes p + lenZ (concat (map snd ops)) < 2 ^ 64 ->
  exists chunks', packer_inv k (ops0 ++ ops) (adds p ops) chunks'.
Proof.
  revert ops0 p chunks. induction ops as [|[[t id] data] ops IH]; intros ops0 p chunks Hinv Hsz.
  { exists chunks. by rewrite app_nil_r. }
  cbn [map concat snd] in Hsz. rewrite length_app in Hsz.
  destruct (Add_inv k ops0 p chunks t id data Hinv ltac:(lia)) as (c & Hc & Hle & _).
  destruct (IH (ops0 ++ [(t, id, data)]) _ _ Hc) as (chunks' & H').
  - destruct Hinv as (_ & _ & Hb & _). destruct Hc as (_ & _ & Hb' & _).
    rewrite Hb', concat_app, length_app. simpl. rewrite app_nil_r. lia.
  - exists chunks'. by rewrite <- app_assoc in H'.
Qed.

Lemma NewPacker_inv k w : wr_bytes w = [] -> packer_inv k [] (NewPacker k w) [].
Proof. intros Hw. unfold packer_inv; simpl. by repeat split. Qed.

(** The blobs of a packer whose operations were sound. *)
Lemma packer_inv_ok k ops p chunks : packer_inv k ops p chunks ->
  Forall op_ok ops -> Forall blob_ok (p_blobs p).
Proof.
  intros (_ & _ & _ & _ & Hc & Hl & Hh) Hok. apply Forall_lookup. intros i b Hi.
  destruct (Forall2_lookup_l _ _ _ _ _ Hh Hi) as ([[t id] data] & Ho & Hbh).
  destruct (Forall2_lookup_l _ _ _ _ _ Hl Hi) as (c & Hci & Hbl).
  pose proof (Forall2_lookup_lr _ _ _ _ _ _ Hc Ho Hci) as Hcd.
  rewrite Forall_lookup in Hok. specialize (Hok _ _ Ho) as (Ht & Hid & Hd).
  unfold blob_ok, b_ID, b_Type. rewrite Hbh, Hbl. simpl in *. split; [done|]. split; [done|].
  rewrite Hcd, length_take. lia.
Qed.

(** The bytes of a blob lie at its offset. *)
Lemma laid_out_chunk pos blobs (chunks : list (list byte)) fin i b (c rest : list byte) :
  0 <= pos -> pos + lenZ (concat chunks) < 2 ^ 64 ->
  laid_out pos blobs fin -> Forall2 (fun b c => b_Length b = lenZ c) blobs chunks ->
  blobs !! i = Some b -> chunks !! i = Some c ->
  pos <= b_Offset b /\
  take (length c) (drop (Z.to_nat (b_Offset b - pos)) (concat chunks ++ rest)) = c.
Proof.
  intros Hpos Hsz Hlay HF. revert pos i Hpos Hsz Hlay.
  induction HF as [|b' c' blobs chunks Hbc HF IH]; intros pos i Hpos Hsz Hlay Hi Hci; [done|].
  destruct Hlay as [Ho Hlay]. simpl in Hsz. rewrite length_app in Hsz. destruct i as [|i]; simpl in *.
  - simplify_eq. split; [lia|]. rewrite Z.sub_diag, drop_0, <- app_assoc.
    apply take_app_length.
  - rewrite u64_small in Hlay by lia.
    destruct (IH (pos + b_Length b') i ltac:(lia) ltac:(lia) Hlay Hi Hci) as [Hle Ht].
    split; [lia|]. rewrite <- Ht at 2. rewrite <- app_assoc. f_equal.
    replace (Z.to_nat (b_Offset b - pos)) with (length c' + Z.to_nat (b_Offset b - (pos + b_Length b')))%nat by lia.
    by rewrite drop_app_add.
Qed.

(** Blobs that are laid out do not overlap. *)
Lemma laid_out_disjoint pos blobs fin i j b b' : 0 <= pos -> Forall (fun b => 0 <= b_Length b) blobs ->
  pos + foldr Z.add 0 (map b_Length blobs) < 2 ^ 64 -> laid_out pos blobs fin ->
  blobs !! i = Some b -> blobs !! j = Some b' -> (i < j)%nat -> b_Offset b + b_Length b <= b_Offset b'.
Proof.
  intros Hpos Hall. revert pos i j Hpos. induction Hall as [|b0 blobs Hb0 Hall IH]; intros pos i j Hpos Hsum Hlay Hi Hj Hij; [done|].
  cbn [map foldr] in Hsum. destruct Hlay as [Ho Hlay].
  assert (Hnn : 0 <= foldr Z.add 0 (map b_Length blobs)).
  { clear -Hall. induction Hall as [|b1 l Hb1 _ IHl]; cbn [map foldr]; lia. }
  rewrite u64_small in Hlay by lia.
  assert (Hge : forall k c, blobs !! k = Some c -> pos + b_Length b0 <= b_Offset c).
  { clear -Hall Hlay Hsum Hpos Hb0. revert Hpos Hb0 Hlay Hsum. generalize (b_Length b0) as z. intros z. revert pos z.
    induction Hall as [|b1 l Hb1 Hall IHl]; intros pos z Hpos Hz Hlay Hsum k c Hk; [done|]. destruct Hlay as [Ho Hlay].
    cbn [map foldr] in Hsum. destruct k as [|k]; [injection Hk as ->; lia|].
    assert (0 <= foldr Z.add 0 (map b_Length l)). { clear -Hall. induction Hall; cbn [map foldr]; lia. }
    rewrite u64_small in Hlay by lia.
    assert (pos + z + b_Length b1 <= b_Offset c); [|lia]. apply (IHl (pos + z) (b_Length b1) ltac:(lia) Hb1 Hlay ltac:(lia) k c Hk). }
  destruct j as [|j]; [lia|]. destruct i as [|i].
  - injection Hi as <-. rewrite Ho. by apply (Hge j).
  - apply (IH (pos + b_Length b0) i j ltac:(lia) ltac:(lia) Hlay Hi Hj). lia.
Qed.

Lemma laid_out_bound pos blobs fin b : 0 <= pos -> Forall (fun b => 0 <= b_Length b) blobs ->
  pos + foldr Z.add 0 (map b_Length blobs) < 2 ^ 64 -> laid_out pos blobs fin -> b ∈ blobs ->
  b_Offset b + b_Length b <= pos + foldr Z.add 0 (map b_Length blobs).
Proof.
  intros Hpos Hall. revert pos Hpos. induction Hall as [|b0 blobs Hb0 Hall IH]; intros pos Hpos Hsum Hlay Hin; [by apply elem_of_nil in Hin|].
  cbn [map foldr] in *. destruct Hlay as [Ho Hlay].
  assert (Hnn : 0 <= foldr Z.add 0 (map b_Length blobs)). { clear -Hall. induction Hall; cbn [map foldr]; lia. }
  rewrite u64_small in Hlay by lia. apply elem_of_cons in Hin as [->|Hin]; [lia|].
  specialize (IH (pos + b_Length b0) ltac:(lia) ltac:(lia) Hlay Hin). lia.
Qed.

End packer_facts.

(** ** Finalizing and reading back *)

Section pack_facts.
Context {W E : Type} `{WL : WriterLaws W E} `{CL : CryptoLaws}.

(** What [Finalize] leaves behind: the header sealed under the nonce after
    the nonce itself, then its length. *)
Lemma Finalize_ok (p p' : Packer W) nonce total hdr :
  Key_Valid (p_k p) = true -> lenZ nonce = 16 -> validNonce nonce = true ->
  makeHeader (E:=E) p = Ok hdr -> Finalize (E:=E) p nonce = (p', Ok total) ->
  exists ct, Seal (p_k p) (mkSlice [] []) nonce hdr [] = Ok (masked_key (p_k p), ct)
    /\ lenZ ct = lenZ hdr + 16
    /\ wr_bytes (p_wr p') = wr_bytes (p_wr p) ++ nonce ++ ct
         ++ le_put 4 (u32 (CiphertextLength (lenZ (p_blobs p) * EntrySize)))
    /\ total = u64 (u64 (p_bytes p + u64 (CiphertextLength (lenZ hdr))) + 4)
    /\ p_blobs p' = p_blobs p.
Proof.
  intros Hk Hn Hv Hh. unfold Finalize. rewrite Hh, !Seal_value by done. cbn [lift_crypto sl_data].
  set (ct := aes_ctr _ _ _ ++ tag_of _ _ _).
  assert (Hct : lenZ ct = lenZ hdr + 16)
    by (unfold ct; rewrite length_app, ctr_length, tag_of_length; lia).
  pose proof (wr_short (p_wr p) (nonce ++ ct)) as Hs1.
  pose proof (wr_appends (p_wr p) (nonce ++ ct)) as Ha1.
  destruct (wr_write (p_wr p) (nonce ++ ct)) as [[w1 n1] [e1|]]; cbn [fst snd] in Hs1, Ha1; [done|].
  specialize (Hs1 eq_refl). rewrite Hs1, Nat2Z.id, firstn_all in Ha1.
  case_bool_decide as Hnn; [done|]. cbn [p_wr p_blobs p_bytes p_k].
  set (lf := le_put 4 _).
  pose proof (wr_short w1 lf) as Hs2. pose proof (wr_appends w1 lf) as Ha2.
  destruct (wr_write w1 lf) as [[w2 n2] [e2|]]; cbn [fst snd] in Hs2, Ha2; [done|].
  specialize (Hs2 eq_refl). rewrite Hs2, Nat2Z.id, firstn_all in Ha2.
  intros [= <- <-]. exists ct. cbn [p_wr p_blobs]. split; [done|]. split; [done|].
  split; [by rewrite Ha2, Ha1, <- !app_assoc|]. done.
Qed.

(** The only way [Finalize] fails on a sound packer is the writer's error. *)
Lemma Finalize_total (p : Packer W) nonce hdr :
  Key_Valid (p_k p) = true -> lenZ nonce = 16 -> validNonce nonce = true ->
  makeHeader (E:=E) p = Ok hdr ->
  (exists total, (Finalize (E:=E) p nonce).2 = Ok total)
  \/ (exists e, (Finalize (E:=E) p nonce).2 = Err (PackIO e)).
Proof.
  intros Hk Hn Hv Hh. unfold Finalize. rewrite Hh, Seal_value by done. cbn [lift_crypto sl_data].
  set (ct := aes_ctr _ _ _ ++ tag_of _ _ _).
  assert (Hct : lenZ ct = lenZ hdr + 16)
    by (unfold ct; rewrite length_app, ctr_length, tag_of_length; lia).
  pose proof (wr_short (p_wr p) (nonce ++ ct)) as Hs1.
  destruct (wr_write (p_wr p) (nonce ++ ct)) as [[w1 n1] [e1|]]; simpl in Hs1; [right; by exists e1|].
  rewrite bool_decide_eq_false_2.
  2: { rewrite (Hs1 eq_refl), length_app. unfold CiphertextLength, Extension, ivSize, macSize. lia. }
  cbn [p_wr]. destruct (wr_write w1 _) as [[w2 n2] [e2|]]; [right|left]; by eexists.
Qed.

(** Opening the header that [Finalize] has written lists the blobs. *)
Lemma List_sealed (k : Key) nonce ct hdr blobs body fin :
  Key_Valid k = true -> lenZ nonce = 16 -> validNonce nonce = true ->
  Seal k (mkSlice [] []) nonce hdr [] = Ok (masked_key k, ct) -> lenZ ct = lenZ hdr + 16 ->
  length hdr = (37 * length blobs)%nat ->
  (forall fuel, (length blobs <= fuel)%nat -> List_loop (E:=read_error) fuel 0 hdr = Ok blobs) ->
  laid_out 0 blobs fin -> blobs ≠ [] -> lenZ nonce + lenZ ct <= maxHeaderSize ->
  let file := body ++ nonce ++ ct ++ le_put 4 (u32 (CiphertextLength (lenZ blobs * EntrySize))) in
  List k (bytesReaderAt file) (lenZ file) = Ok (blobs, HeaderSize + EntrySize * lenZ blobs).
Proof.
  intros Hk Hn Hv Hseal Hct Hlh HL Hlay Hne Hmax file.
  rewrite Seal_value in Hseal by done. injection Hseal as Hctv.
  assert (Hb1 : (1 <= length blobs)%nat) by (destruct blobs; simpl; [done|lia]).
  assert (HC : EntrySize = 37 /\ Extension = 32 /\ headerLengthSize = 4 /\ minFileSize = 73
    /\ maxHeaderSize = 2 ^ 24 /\ HeaderSize = 36 /\ ivSize = 16 /\ macSize = 16) by done.
  destruct HC as (HC1 & HC2 & HC3 & HC4 & HC5 & HC6 & HC7 & HC8).
  set (lf := le_put 4 (u32 (CiphertextLength (lenZ blobs * EntrySize)))) in *.
  assert (Hclen : CiphertextLength (lenZ blobs * EntrySize) = lenZ (nonce ++ ct))
    by (unfold CiphertextLength; rewrite length_app; lia).
  assert (Hlf : le_get lf = lenZ (nonce ++ ct)).
  { unfold lf. rewrite le_get_put, Hclen. change (256 ^ Z.of_nat 4) with (2 ^ 32).
    rewrite u32_small, Z.mod_small; rewrite ?length_app; lia. }
  assert (Hfile : file = (body ++ nonce ++ ct) ++ lf) by (unfold file; by rewrite <- !app_assoc).
  assert (Hlfl : length lf = 4%nat) by apply le_put_length.
  unfold List. rewrite Hfile, readHeader_value by (done || (rewrite !length_app; lia)).
  destruct (checkHeaderLength _ _) as [[]|e|m] eqn:Hchk.
  2-3: exfalso; assert (Hok : checkHeaderLength (E:=read_error) (le_get lf)
         (lenZ ((body ++ nonce ++ ct) ++ lf)) = Ok tt) by
      (apply checkHeaderLength_ok; rewrite Hlf, !length_app in *; [lia|];
       repeat split; try lia; replace (Z.of_nat (length nonce + length ct) - Extension)
         with (lenZ blobs * EntrySize) by lia; apply Z.mod_mul; lia);
      congruence.
  rewrite Hlf, Nat2Z.id, last_n_app by done. cbn [mbind res_bind].
  rewrite bool_decide_eq_false_2 by (rewrite length_app; unfold NonceSize, Overhead; lia).
  cbn [fail_if mbind res_bind].
  rewrite gslice_prefix by (unfold NonceSize; lia). cbn [mbind res_bind].
  rewrite gslice_suffix by (unfold NonceSize; rewrite ?length_app; lia). cbn [mbind res_bind].
  assert (HO : forall d, Open k d nonce ct [] = Ok (masked_key k, sl_data d ++ hdr)).
  { intros d. rewrite <- Hctv. cbn [sl_data app].
    rewrite Open_value by (done || apply tag_of_length).
    rewrite bool_decide_eq_true_2 by done. by rewrite aes_ctr_involutive. }
  rewrite HO. cbn [lift_crypto mbind res_bind sl_data app].
  rewrite HL by lia. cbn [mbind res_bind]. do 2 f_equal.
  rewrite length_app, !u32_small by (rewrite ?u32_small; lia). lia.
Qed.

End pack_facts.

(** A writer that keeps everything, for the witnesses. *)
#[export] Instance mem_writer : Writer (list byte) read_error := {|
  wr_write w d := (w ++ d, lenZ d, None);
  wr_bytes w := w;
|}.
#[export] Instance mem_writer_laws : WriterLaws (list byte) read_error.
Proof. split; intros; simpl; [lia| by rewrite Nat2Z.id, firstn_all | done]. Qed.

(** ** Properties *)

(** C18: a pack file can be read back.  After any sequence of [Add]s into a
    fresh packer (IDs of 32 bytes, blob types data or tree, data below 4 GiB
    each, a header within [maxHeaderSize]), [Finalize] either reports an error
    of the underlying writer or leaves a file for which: [List] returns
    exactly the packer's blobs and the header's size, the count it returns is
    the file's length, and every blob's offset and length locate the bytes its
    [Add] wrote. *)
Theorem pack_roundtrip `{WL : WriterLaws W E} `{CL : CryptoLaws}
    (k : Key) (w : W) (ops : list op) (nonce : list byte) :
  let p := adds (NewPacker k w) ops in
  wr_bytes w = [] -> ops ≠ [] -> Forall op_ok ops ->
  CiphertextLength (lenZ ops * EntrySize) <= maxHeaderSize ->
  lenZ (concat (map snd ops)) + maxHeaderSize + 4 < 2 ^ 64 ->
  Key_Valid k = true -> lenZ nonce = ivSize -> validNonce nonce = true ->
  match Finalize p nonce with
  | (p', Ok total) =>
      let file := wr_bytes (p_wr p') in
      List k (bytesReaderAt file) (lenZ file) = Ok (Blobs p, HeaderSize + EntrySize * lenZ ops)
      /\ total = lenZ file
      /\ (forall i b o, p_blobs p !! i = Some b -> ops !! i = Some o ->
            b_handle b = mkHandle o.1.2 o.1.1
            /\ take (Z.to_nat (b_Length b)) (drop (Z.to_nat (b_Offset b)) file)
               = take (Z.to_nat (b_Length b)) o.2)
  | (_, Err (PackIO _)) => True
  | _ => False
  end.
Proof.
  intros p Hw Hne Hok Hmax Hsz Hk Hn Hv.
  destruct (adds_inv k [] (NewPacker k w) [] ops (NewPacker_inv k w Hw)) as (chunks & Hinv).
  { cbn [NewPacker p_bytes]. unfold maxHeaderSize in Hsz. lia. }
  cbn [app] in Hinv. fold p in Hinv. pose proof (packer_inv_ok _ _ _ _ Hinv Hok) as Hbok.
  destruct Hinv as (Hpk & Hwr & Hpb & Hlay & Hc & Hl & Hh).
  pose proof (Forall2_length _ _ _ Hh) as Hlen.
  destruct (header_roundtrip (E:=E) (p_blobs p) [] Hbok) as (hdr & Hmk & Hhl & _).
  destruct (header_roundtrip (E:=read_error) (p_blobs p) [] Hbok) as (hdr' & Hmk' & _ & HL).
  assert (hdr' = hdr) as ->.
  { clear -Hmk Hmk'.
    assert (HG : forall bl buf r1 r2, makeHeader_loop (E:=E) buf bl = Ok r1 ->
      makeHeader_loop (E:=read_error) buf bl = Ok r2 -> r1 = r2).
    { clear. induction bl as [|b bl IH]; intros buf r1 r2; simpl; [naive_solver|].
      unfold headerEntry. destruct (b_Type b); simpl; [done|apply IH..]. }
    by pose proof (HG _ _ _ _ Hmk Hmk'). }
  assert (Hmkp : makeHeader (E:=E) p = Ok hdr) by (unfold makeHeader; by rewrite Hmk).
  rewrite <- Hpk in Hk.
  destruct (Finalize p nonce) as [p' r] eqn:EF.
  destruct (Finalize_total (E:=E) p nonce hdr Hk Hn Hv Hmkp) as [[total Ht]|[e Ht]];
    rewrite EF in Ht; simpl in Ht; subst r; [|done].
  destruct (Finalize_ok p p' nonce total hdr Hk Hn Hv Hmkp EF)
    as (ct & Hseal & Hct & Hfile & Htot & Hpb').
  assert (HC : EntrySize = 37 /\ Extension = 32 /\ maxHeaderSize = 2 ^ 24 /\ ivSize = 16) by done.
  destruct HC as (HC1 & HC2 & HC3 & HC4). unfold CiphertextLength in *.
  assert (Hcc : lenZ (concat chunks) <= lenZ (concat (map snd ops))).
  { clear -Hc. induction Hc as [|o c ops chunks Hoc Hc IH]; simpl; [lia|].
    rewrite !length_app. rewrite Hoc, length_take. lia. }
  assert (Hbne : p_blobs p ≠ []) by (intros Hnil; rewrite Hnil in Hlen; by destruct ops).
  rewrite Hfile. split_and!.
  - rewrite <- Hlen, <- Hpk. eapply List_sealed; eauto; lia.
  - rewrite Htot, !length_app, le_put_length. unfold CiphertextLength. rewrite Hwr.
    rewrite (u64_small (lenZ hdr + Extension)) by lia.
    rewrite (u64_small (p_bytes p + (lenZ hdr + Extension))) by lia.
    rewrite u64_small by lia. lia.
  - intros i b o Hi Ho.
    destruct (Forall2_lookup_l _ _ _ _ _ Hl Hi) as (c & Hci & Hbl).
    split; [apply (Forall2_lookup_lr _ _ _ _ _ _ Hh Hi Ho)|].
    rewrite Hwr, Hbl, Nat2Z.id.
    rewrite <- (Forall2_lookup_lr _ _ _ _ _ _ Hc Ho Hci).
    destruct (laid_out_chunk 0 (p_blobs p) chunks (p_bytes p) i b c
      (nonce ++ ct ++ le_put 4 (u32 (CiphertextLength (lenZ (p_blobs p) * EntrySize))))
      ltac:(lia) ltac:(lia) Hlay Hl Hi Hci) as [_ Htk].
    by rewrite Z.sub_0_r in Htk.
Qed.

Definition sample_ops : list op :=
  [(DataBlob, sample_id, [Byte.x01; Byte.x02; Byte.x03]); (TreeBlob, nullID, [Byte.xff])].

Lemma pack_roundtrip_witness :
  match Finalize (CP := toy_prims) (adds (NewPacker toy_key []) sample_ops) toy_nonce with
  | (p', Ok total) => total = lenZ (p_wr p')
      /\ List (CP := toy_prims) toy_key (bytesReaderAt (p_wr p')) (lenZ (p_wr p'))
         = Ok (Blobs (adds (NewPacker toy_key []) sample_ops), 110)
  | _ => False
  end.
Proof.
  pose proof (pack_roundtrip (CL := toy_laws) (WL := mem_writer_laws) toy_key [] sample_ops toy_nonce
    eq_refl ltac:(done) ltac:(repeat constructor; done) ltac:(by vm_compute) ltac:(by vm_compute)
    ltac:(by vm_compute) ltac:(by vm_compute) ltac:(by vm_compute)) as H.
  destruct (Finalize _ _) as [p' [total|e|m]] eqn:EF.
  - destruct H as (H1 & H2 & _). split; [exact H2 | exact H1].
  - vm_compute in EF. discriminate.
  - exact H.
Defined.

(** the header reader is exact.  On any file of at least [minFileSize]
    bytes [readHeader], which first reads up to 15 entries eagerly and only
    then the whole header, succeeds precisely when the length field in the
    last four bytes passes the five checks, and returns precisely the bytes
    of that length before the length field; all its failures are
    [InvalidFileError]s. *)
Theorem readHeader_exact (file : list byte) (r : res (pack_error read_error) (list byte)) :
  minFileSize <= lenZ file ->
  readHeader (bytesReaderAt file) (lenZ file) = r ->
  match r with
  | Ok hdr => exists pre, file = pre ++ hdr ++ le_put 4 (lenZ hdr)
      /\ Extension <= lenZ hdr <= maxHeaderSize /\ (lenZ hdr - Extension) mod EntrySize = 0
  | Err (InvalidFileError _) => ~ exists pre hdr, file = pre ++ hdr ++ le_put 4 (lenZ hdr)
      /\ Extension <= lenZ hdr <= maxHeaderSize /\ (lenZ hdr - Extension) mod EntrySize = 0
  | _ => False
  end.
Proof.
  intros Hmin Hr. assert (Hm73 : minFileSize = 73) by done.
  destruct (list_split_end file 4 ltac:(lia)) as (pre & lf & -> & Hlf).
  rewrite readHeader_value in Hr by done.
  pose proof (le_get_bound lf) as Hb. rewrite Hlf in Hb. change (256 ^ Z.of_nat 4) with (2 ^ 32) in Hb.
  destruct (checkHeaderLength (le_get lf) (lenZ (pre ++ lf))) as [[]|e|m] eqn:Hc; subst r.
  - apply checkHeaderLength_ok in Hc as (Hc1 & Hc2 & Hc3 & Hc4); [|lia].
    unfold headerLengthSize in Hc3. rewrite length_app in Hc3.
    exists (take (length pre - Z.to_nat (le_get lf)) pre).
    assert (Hl : lenZ (last_n (Z.to_nat (le_get lf)) pre) = le_get lf)
      by (rewrite last_n_length; lia).
    rewrite Hl, (le_put_get lf 4 Hlf), app_assoc. unfold last_n. by rewrite take_drop.
  - destruct (checkHeaderLength_err _ _ _ Hc) as [msg ->]. intros (pre' & hdr & Heq & Hlh & Hmod).
    rewrite app_assoc in Heq. apply app_inj_2 in Heq as [-> ->]; [|by rewrite le_put_length].
    rewrite le_get_put in Hc. change (256 ^ Z.of_nat 4) with (2 ^ 32) in Hc.
    change maxHeaderSize with (2 ^ 24) in Hlh. rewrite Z.mod_small in Hc by lia.
    assert (Hok : checkHeaderLength (E:=read_error) (lenZ hdr)
      (lenZ ((pre' ++ hdr) ++ le_put 4 (lenZ hdr))) = Ok tt); [|congruence].
    apply checkHeaderLength_ok; [lia|]. change maxHeaderSize with (2 ^ 24).
    rewrite !length_app, le_put_length. unfold headerLengthSize. repeat split; (done || lia).
  - by apply checkHeaderLength_nopanic in Hc.
Qed.

Lemma readHeader_exact_witness :
  match readHeader (bytesReaderAt (replicate 80 Byte.x00)) 80 with
  | Err (InvalidFileError _) => True | _ => False end.
Proof.
  pose proof (readHeader_exact (replicate 80 Byte.x00) _ ltac:(by vm_compute) eq_refl) as H.
  change (lenZ (replicate 80 Byte.x00)) with 80 in H.
  destruct (readHeader _ _) as [hdr|e|m] eqn:E; [by vm_compute in E| |exact H].
  destruct e; [exact I | exact H ..].
Defined.

Lemma List_entries_ok (E : Type) `{CL : CryptoLaws} (k : Key) (rd : ReaderAt E) size entries h :
  List k rd size = Ok (entries, h) -> Forall blob_ok entries.
Proof.
  unfold List. intros (buf & _ & HL)%bind_ok. apply bind_ok in HL as (u & _ & HL).
  apply bind_ok in HL as (nonce & _ & HL). apply bind_ok in HL as (ct & _ & HL).
  apply bind_ok in HL as ([k' pt] & _ & HL). apply bind_ok in HL as (es & HE & [= <- _]).
  by apply List_loop_sound in HE as (_ & _ & HB).
Qed.

Lemma List_sound `{CL : CryptoLaws} (k : Key) (file : list byte) :
  match List k (bytesReaderAt file) (lenZ file) with
  | Ok (entries, hdrSize) => hdrSize = HeaderSize + EntrySize * lenZ entries /\ hdrSize <= maxHeaderSize + 4
      /\ (exists fin, laid_out 0 entries fin)
      /\ Forall blob_ok entries
  | Err _ => True
  | Panic _ => False
  end.
Proof.
  unfold List.
  destruct (decide (minFileSize <= lenZ file)) as [Hmin|Hmin].
  2: { unfold readHeader. by rewrite bool_decide_eq_true_2 by lia. }
  destruct (list_split_end file 4) as (pre & lf & -> & Hlf);
    [change minFileSize with 73 in Hmin; lia|].
  rewrite readHeader_value by done.
  destruct (checkHeaderLength (le_get lf) _) as [[]|e|m] eqn:Hc; [|done|].
  2: { by apply checkHeaderLength_nopanic in Hc. }
  pose proof (le_get_bound lf) as Hb. rewrite Hlf in Hb. change (256 ^ Z.of_nat 4) with (2 ^ 32) in Hb.
  apply checkHeaderLength_ok in Hc as (Hc1 & Hc2 & Hc3 & Hc4); [|lia].
  change Extension with 32 in *. change EntrySize with 37 in *. change maxHeaderSize with (2 ^ 24) in Hc4.
  unfold headerLengthSize in Hc3. rewrite length_app in Hc3.
  set (buf := last_n (Z.to_nat (le_get lf)) pre).
  assert (Hbuf : lenZ buf = le_get lf) by (unfold buf; rewrite last_n_length; lia).
  cbn [mbind res_bind]. clearbody buf. unfold NonceSize, Overhead, ivSize, macSize.
  rewrite bool_decide_eq_false_2 by lia. cbn [fail_if mbind res_bind].
  destruct (list_split_at buf 16 ltac:(lia)) as (nonce & rest & -> & Hnl).
  rewrite gslice_prefix by lia. cbn [mbind res_bind].
  rewrite gslice_suffix by (lia || done). cbn [mbind res_bind]. rewrite length_app in Hbuf.
  destruct (list_split_end rest 16 ltac:(lia)) as (ct & mac & -> & Hml). rewrite length_app in Hbuf.
  destruct (Key_Valid k) eqn:Hk; [|unfold Open; by rewrite Hk].
  destruct (validNonce nonce) eqn:Hv.
  2: { unfold Open. rewrite Hk, Hv. cbn [negb fail_if mbind res_bind].
       by rewrite bool_decide_eq_false_2 by (unfold ivSize; lia). }
  rewrite Open_value by (done || lia).
  case_bool_decide; [|done]. cbn [lift_crypto mbind res_bind sl_data app].
  destruct (List_loop _ _ _) as [entries|e|m] eqn:EL; cbn [mbind res_bind]; [|done|].
  - apply List_loop_sound in EL as (Hl & Hlay & Hall). apply and_assoc. split; [|done].
    rewrite ctr_length in Hl. rewrite !length_app. change headerLengthSize with 4.
    rewrite (u32_small (Z.of_nat _)) by lia. rewrite u32_small by lia.
    change HeaderSize with 36. change EntrySize with 37. change maxHeaderSize with (2 ^ 24). lia.
  - by apply List_loop_nopanic in EL; [|lia].
Qed.

(** C36: listing arbitrary bytes is safe.  For every key and every file,
    [List] never panics and never runs out of iterations; when it succeeds the
    entries lie one after the other from offset 0 and the returned size is
    that of their header. *)
Theorem List_safe `{CL : CryptoLaws} (k : Key) (file : list byte) :
  match List k (bytesReaderAt file) (lenZ file) with
  | Ok (entries, hdrSize) => hdrSize = HeaderSize + EntrySize * lenZ entries
      /\ (exists fin, laid_out 0 entries fin)
      /\ Forall blob_ok entries
  | Err _ => True
  | Panic _ => False
  end.
Proof.
  pose proof (List_sound k file) as HS. destruct (List k (bytesReaderAt file) (lenZ file)) as [[entries hdrSize]|e|m]; [|done..].
  by destruct HS as (? & _ & ?).
Qed.

Lemma List_safe_witness :
  match List (CP := toy_prims) toy_key (bytesReaderAt (replicate 100 Byte.x00)) 100 with
  | Panic _ => False | _ => True end.
Proof.
  pose proof (List_safe (CL := toy_laws) toy_key (replicate 100 Byte.x00)) as H.
  change (lenZ (replicate 100 Byte.x00)) with 100 in H.
  destruct (List _ _ _) as [r|e|m]; [exact I | exact I | exact H].
Defined.
