(* ===== verification/IndexMap.v ===== *)
(** * IndexMap: the chained hash table of the index (src/repository/indexmap.go)

    The bucket array is a list of chains; a chain is the list of entries
    reached from the bucket's head through [next].  The free list of
    preallocated, unused entries is represented by its length: [newEntry]
    takes its first element and every field of that element is overwritten.
    The hash function ([hash/maphash] with the map's random seed) is the
    parameter [mh]. *)

From S2P Require Import Prelude Crypto Ids.

Record indexEntry : Type := mkEntry {
  e_id : ID;
  e_packIndex : Z;
  e_offset : Z;
  e_length : Z;
}.
#[global] Instance indexEntry_eq_dec : EqDecision indexEntry.
Proof. solve_decision. Defined.

Record indexMap : Type := mkIndexMap {
  buckets : list (list indexEntry);
  numentries : Z;
  free : nat;
}.

Definition growthFactor : nat := 2.
Definition maxLoad : Z := 4.
Definition initialBuckets : nat := 64.
Definition entryAllocBatch : nat := 256.

Definition emptyMap : indexMap := {| buckets := []; numentries := 0; free := 0 |}.

Section indexmap.
(** [m.mh] applied to the bytes of an ID: [Sum64]. *)
Context (mh : ID -> Z).

(** [hash] for a table of [n] buckets. *)
Definition hash (n : nat) (id : ID) : nat :=
  Z.to_nat (Z.land (u64 (mh id)) (u64 (Z.of_nat n - 1))).

(** Prepend to the chain of bucket [h]. *)
Definition prepend (h : nat) (e : indexEntry) (bs : list (list indexEntry)) : list (list indexEntry) :=
  alter (cons e) h bs.

Definition init (m : indexMap) : indexMap :=
  {| buckets := replicate initialBuckets []; numentries := numentries m; free := free m |}.

(** The inner loop moves one chain, front to back; the outer one visits the
    old buckets in order. *)
Definition grow_chain (n : nat) (chain : list indexEntry) (new : list (list indexEntry)) :=
  fold_left (fun bs e => prepend (hash n (e_id e)) e bs) chain new.
Definition grow (m : indexMap) : indexMap :=
  let n := (growthFactor * length (buckets m))%nat in
  {| buckets := fold_left (fun bs chain => grow_chain n chain bs) (buckets m) (replicate n []);
     numentries := numentries m; free := free m |}.

(** [newEntry]: refill the free list in batches, take its head. *)
Definition newEntry (m : indexMap) : indexMap :=
  let f := match free m with O => entryAllocBatch | _ => free m end in
  {| buckets := buckets m; numentries := numentries m; free := f - 1 |}.

Definition add (m : indexMap) (id : ID) (packIdx offset length_ : Z) : indexMap :=
  let m :=
    if bool_decide (numentries m = 0) then init m
    else if bool_decide (numentries m >= maxLoad * lenZ (buckets m)) then grow m
    else m in
  let h := hash (length (buckets m)) id in
  let m := newEntry m in
  let e := {| e_id := id; e_packIndex := packIdx; e_offset := offset; e_length := length_ |} in
  {| buckets := prepend h e (buckets m); numentries := u64 (numentries m + 1); free := free m |}.

(** [foreach] with a callback that carries a state and says whether to go
    on. *)
Fixpoint foreach_chain {S} (fn : indexEntry -> S -> S * bool) (chain : list indexEntry) (s : S) : S * bool :=
  match chain with
  | [] => (s, true)
  | e :: chain => let '(s, go) := fn e s in if go then foreach_chain fn chain s else (s, false)
  end.
Fixpoint foreach_buckets {S} (fn : indexEntry -> S -> S * bool) (bs : list (list indexEntry)) (s : S) : S :=
  match bs with
  | [] => s
  | chain :: bs =>
      let '(s, go) := foreach_chain fn chain s in
      if go then foreach_buckets fn bs s else s
  end.
Definition foreach {S} (fn : indexEntry -> S -> S * bool) (m : indexMap) (s : S) : S :=
  foreach_buckets fn (buckets m) s.

Definition chain_of (m : indexMap) (id : ID) : list indexEntry :=
  default [] (buckets m !! hash (length (buckets m)) id).

Definition foreachWithID {S} (id : ID) (fn : indexEntry -> S -> S) (m : indexMap) (s : S) : S :=
  if bool_decide (lenZ (buckets m) = 0) then s
  else fold_left (fun s e => if bool_decide (e_id e ≠ id) then s else fn e s) (chain_of m id) s.

Definition get (m : indexMap) (id : ID) : option indexEntry :=
  if bool_decide (lenZ (buckets m) = 0) then None
  else find (fun e => bool_decide (e_id e = id)) (chain_of m id).

Definition len (m : indexMap) : Z := numentries m.

(** All entries, in the order [foreach] visits them. *)
Definition entries (m : indexMap) : list indexEntry := concat (buckets m).

(** ** Invariant *)

Definition in_place (n : nat) (bs : list (list indexEntry)) : Prop :=
  forall i chain e, bs !! i = Some chain -> e ∈ chain -> hash n (e_id e) = i.

(** The number of buckets is a power of two, every entry sits in the bucket
    its ID hashes to, the counter counts the entries and the load stays at
    most [maxLoad] per bucket. *)
Definition map_wf (m : indexMap) : Prop :=
  numentries m = lenZ (entries m)
  /\ (buckets m = [] \/
      (exists k, 6 <= k <= 62 /\ lenZ (buckets m) = 2 ^ k)
      /\ in_place (length (buckets m)) (buckets m)
      /\ numentries m <= maxLoad * lenZ (buckets m)).

Lemma emptyMap_wf : map_wf emptyMap.
Proof. split; [done|]. by left. Qed.

(** ** Lemmas *)

Lemma hash_lt n id k : 0 <= k <= 62 -> Z.of_nat n = 2 ^ k -> (hash n id < n)%nat.
Proof.
  intros Hk Hn. unfold hash.
  assert (0 < 2 ^ k <= 2 ^ 62) by (split; [apply Z.pow_pos_nonneg | apply Z.pow_le_mono_r]; lia).
  rewrite Hn, (u64_small (2 ^ k - 1)) by lia.
  replace (2 ^ k - 1) with (Z.ones k) by (rewrite Z.ones_equiv; lia).
  rewrite Z.land_ones by lia. pose proof (Z.mod_pos_bound (u64 (mh id)) (2 ^ k)). lia.
Qed.

Lemma prepend_length h e bs : length (prepend h e bs) = length bs.
Proof. apply length_alter. Qed.

Lemma prepend_perm h e bs : (h < length bs)%nat -> concat (prepend h e bs) ≡ₚ e :: concat bs.
Proof.
  revert h. induction bs as [|c bs IH]; intros [|h] Hh; [simpl in Hh; lia..|done|].
  change (prepend (S h) e (c :: bs)) with (c :: prepend h e bs). cbn [concat].
  rewrite IH by (simpl in Hh; lia). by rewrite Permutation_middle.
Qed.

Lemma prepend_in_place n e bs : length bs = n -> in_place n bs ->
  in_place n (prepend (hash n (e_id e)) e bs).
Proof.
  intros Hl Hp i chain e' Hi He'. unfold prepend in Hi. rewrite list_lookup_alter in Hi.
  case_decide as Hih.
  - subst i. destruct (bs !! _) as [c|] eqn:Hc; simplify_eq/=.
    apply elem_of_cons in He' as [->|He']; [done|]. by eapply Hp.
  - by eapply Hp.
Qed.

Lemma in_place_replicate n k : in_place n (replicate k []).
Proof. intros i chain e Hi He. apply lookup_replicate in Hi as [-> _]. by apply elem_of_nil in He. Qed.

Lemma concat_replicate_nil {A} k : concat (replicate k (@nil A)) = [].
Proof. by induction k. Qed.

Lemma grow_chain_spec n chain bs :
  length bs = n -> (forall id, hash n id < n)%nat -> in_place n bs ->
  length (grow_chain n chain bs) = n /\ in_place n (grow_chain n chain bs)
  /\ concat (grow_chain n chain bs) ≡ₚ chain ++ concat bs.
Proof.
  intros Hl Hh. revert bs Hl. induction chain as [|e chain IH]; intros bs Hl Hp; simpl; [done|].
  destruct (IH (prepend (hash n (e_id e)) e bs)) as (H1 & H2 & H3).
  - by rewrite prepend_length.
  - by apply prepend_in_place.
  - split; [done|]. split; [done|]. rewrite H3, prepend_perm by (rewrite Hl; apply Hh).
    by rewrite Permutation_middle.
Qed.

Lemma grow_spec m k : 0 <= k <= 61 -> lenZ (buckets m) = 2 ^ k ->
  lenZ (buckets (grow m)) = 2 ^ (k + 1)
  /\ in_place (length (buckets (grow m))) (buckets (grow m))
  /\ entries (grow m) ≡ₚ entries m.
Proof.
  intros Hk Hm. unfold grow, entries. cbn [buckets].
  set (n := (growthFactor * length (buckets m))%nat).
  assert (Hn : Z.of_nat n = 2 ^ (k + 1)) by (unfold n, growthFactor; rewrite Z.pow_add_r; lia).
  assert (Hh : forall id, (hash n id < n)%nat) by (intros; apply (hash_lt n id (k + 1)); lia).
  clearbody n.
  assert (HG : forall old bs, length bs = n -> in_place n bs ->
    length (fold_left (fun bs chain => grow_chain n chain bs) old bs) = n
    /\ in_place n (fold_left (fun bs chain => grow_chain n chain bs) old bs)
    /\ concat (fold_left (fun bs chain => grow_chain n chain bs) old bs) ≡ₚ concat old ++ concat bs).
  { induction old as [|c old IH]; intros bs Hl Hp; simpl; [done|].
    destruct (grow_chain_spec n c bs Hl Hh Hp) as (H1 & H2 & H3).
    destruct (IH _ H1 H2) as (H4 & H5 & H6). split; [done|]. split; [done|].
    rewrite H6, H3. rewrite !app_assoc. apply Permutation_app_tail, Permutation_app_comm. }
  destruct (HG (buckets m) (replicate n [])) as (H1 & H2 & H3);
    [apply length_replicate | apply in_place_replicate |].
  rewrite H1. split; [done|]. split; [done|]. by rewrite H3, concat_replicate_nil, app_nil_r.
Qed.

(** The chain of an ID holds exactly the entries with that ID. *)
Lemma chain_filter m id : map_wf m -> buckets m ≠ [] ->
  filter (fun e => e_id e = id) (chain_of m id) ≡ₚ filter (fun e => e_id e = id) (entries m).
Proof.
  intros (_ & [|(_ & Hp & _)]) Hne; [done|]. unfold chain_of, entries in *.
  set (h := hash (length (buckets m)) id).
  assert (HG : forall j bs, (forall i chain e, bs !! i = Some chain -> e ∈ chain -> hash (length (buckets m)) (e_id e) = (j + i)%nat) ->
    (j <= h)%nat -> filter (fun e => e_id e = id) (concat bs) = filter (fun e => e_id e = id) (default [] (bs !! (h - j)%nat))).
  { intros j bs. revert j.
    assert (Hout : forall j bs, (forall i chain e, bs !! i = Some chain -> e ∈ chain -> hash (length (buckets m)) (e_id e) = (j + i)%nat) ->
      (h < j)%nat -> filter (fun e => e_id e = id) (concat bs) = []).
    { intros j' bs' Hall Hj. apply filter_none. intros e He Hid.
      apply elem_of_concat in He as (c & Hc & He).
      apply list_elem_of_lookup in Hc as [i Hi].
      specialize (Hall i c e Hi He). subst id. unfold h in Hj. lia. }
    induction bs as [|c bs IH]; intros j Hall Hj; [done|]. simpl concat. rewrite filter_app.
    destruct (h - j)%nat as [|d] eqn:Ed.
    - simpl. rewrite (Hout (S j) bs), app_nil_r; [done| |lia].
      intros i chain e Hi He. rewrite (Hall (S i) chain e Hi He). lia.
    - simpl. rewrite (IH (S j)).
      + replace (h - S j)%nat with d by lia.
        assert (Hc : filter (fun e => e_id e = id) c = []); [|by rewrite Hc].
        apply filter_none. intros e He Hid. specialize (Hall 0%nat c e eq_refl He).
        subst id. unfold h in *. lia.
      + intros i chain e Hi He. rewrite (Hall (S i) chain e Hi He). lia.
      + lia. }
  rewrite (HG 0%nat (buckets m)); [by rewrite Nat.sub_0_r| |lia].
  intros i chain e Hi He. by apply (Hp i chain e).
Qed.

End indexmap.

Section indexmap_facts.
Context (mh : ID -> Z).

Lemma bucket_lookup_lt m id : map_wf mh m -> buckets m ≠ [] ->
  (hash mh (length (buckets m)) id < length (buckets m))%nat.
Proof.
  intros (_ & [|((k & Hk & Hn) & _)]) Hne; [done|]. apply (hash_lt mh _ id k); lia.
Qed.

(** Adding below 2^60 entries keeps the invariant and adds one entry. *)
Lemma add_spec m id p o l : map_wf mh m -> numentries m < 2 ^ 60 ->
  map_wf mh (add mh m id p o l)
  /\ entries (add mh m id p o l) ≡ₚ mkEntry id p o l :: entries m.
Proof.
  intros Hwf Hlt. pose proof Hwf as (Hcount & Hb).
  set (m1 := if bool_decide (numentries m = 0) then init m
             else if bool_decide (numentries m >= maxLoad * lenZ (buckets m)) then grow mh m else m).
  assert (H1 : (exists k, 6 <= k <= 62 /\ lenZ (buckets m1) = 2 ^ k)
    /\ in_place mh (length (buckets m1)) (buckets m1)
    /\ numentries m1 = numentries m /\ numentries m + 1 <= maxLoad * lenZ (buckets m1)
    /\ entries m1 ≡ₚ entries m).
  { unfold m1. case_bool_decide as H0; [|case_bool_decide as Hg].
    - assert (Hnil : entries m = []) by (apply length_zero_iff_nil; lia).
      rewrite Hnil. unfold init, entries. cbn [buckets numentries].
      rewrite length_replicate, concat_replicate_nil. unfold maxLoad, initialBuckets.
      split; [exists 6; split; [lia|done]|]. split; [apply in_place_replicate|]. split; [done|].
      split; [lia|done].
    - destruct Hb as [Hnil|((k & Hk & Hn) & Hp & Hload)].
      { unfold entries in Hcount. rewrite Hnil in Hcount. simpl in Hcount. lia. }
      unfold maxLoad in *. assert (k < 60).
      { destruct (decide (k < 60)); [done|]. assert (2 ^ 60 <= 2 ^ k) by (apply Z.pow_le_mono_r; lia). lia. }
      destruct (grow_spec mh m k ltac:(lia) Hn) as (G1 & G2 & G3).
      split; [exists (k + 1); split; [lia|done]|]. split; [done|]. split; [done|]. split; [|done].
      rewrite G1, Z.pow_add_r by lia. lia.
    - destruct Hb as [Hnil|((k & Hk & Hn) & Hp & Hload)].
      { unfold entries in Hcount. rewrite Hnil in Hcount. simpl in Hcount. lia. }
      split; [by exists k|]. split; [done|]. split; [done|]. split; [lia|done]. }
  destruct H1 as ((k & Hk & Hn) & Hp & Hnum & Hload & Hperm).
  unfold add. fold m1. cbn zeta. unfold newEntry, entries. cbn [buckets numentries].
  set (e := mkEntry id p o l).
  assert (Hh : (hash mh (length (buckets m1)) id < length (buckets m1))%nat)
    by (apply (hash_lt mh _ id k); lia).
  assert (Hadd : concat (prepend (hash mh (length (buckets m1)) id) e (buckets m1)) ≡ₚ e :: entries m)
    by (rewrite prepend_perm by done; unfold entries in Hperm; by rewrite Hperm).
  split; [|done]. unfold map_wf, entries. cbn [buckets numentries].
  rewrite u64_small by lia. split.
  - rewrite Hadd. simpl. unfold entries in *. lia.
  - right. rewrite prepend_length. split; [by exists k|]. split; [|lia].
    by apply (prepend_in_place mh (length (buckets m1)) e).
Qed.

Lemma foreachWithID_fold {S} m id (fn : indexEntry -> S -> S) s : map_wf mh m ->
  foreachWithID mh id fn m s
  = fold_left (fun s e => fn e s) (filter (fun e => e_id e = id) (chain_of mh m id)) s.
Proof.
  intros Hwf. unfold foreachWithID. case_bool_decide as Hl.
  - unfold chain_of. assert (Hnil : buckets m = []) by (apply length_zero_iff_nil; lia).
    by rewrite Hnil.
  - generalize (chain_of mh m id) as c. clear. intros c. revert s.
    induction c as [|e c IH]; intros s; [done|]. rewrite filter_cons. cbn [fold_left].
    destruct (decide (e_id e = id)).
    + rewrite bool_decide_eq_false_2 by tauto. apply IH.
    + rewrite bool_decide_eq_true_2 by done. apply IH.
Qed.

(** The entries an ID's callback sees. *)
Definition entries_of (m : indexMap) (id : ID) : list indexEntry :=
  filter (fun e => e_id e = id) (chain_of mh m id).

Lemma entries_of_perm m id : map_wf mh m ->
  entries_of m id ≡ₚ filter (fun e => e_id e = id) (entries m).
Proof.
  intros Hwf. unfold entries_of. destruct (buckets m) as [|c bs] eqn:E.
  - unfold chain_of, entries. by rewrite E.
  - apply chain_filter; [done|]. by rewrite E.
Qed.

Lemma elem_of_entries_of m id e : map_wf mh m ->
  e ∈ entries_of m id <-> e ∈ entries m /\ e_id e = id.
Proof. intros Hwf. rewrite entries_of_perm, list_elem_of_filter by done. tauto. Qed.

Lemma get_spec m id : map_wf mh m -> get mh m id = head (entries_of m id).
Proof.
  intros Hwf. unfold get, entries_of. case_bool_decide as Hl.
  - unfold chain_of. assert (Hnil : buckets m = []) by (apply length_zero_iff_nil; lia).
    by rewrite Hnil.
  - generalize (chain_of mh m id) as c. clear. induction c as [|e c IH]; [done|].
    rewrite filter_cons. cbn [find]. destruct (decide (e_id e = id)).
    + by rewrite bool_decide_eq_true_2.
    + by rewrite bool_decide_eq_false_2.
Qed.

(** A callback that never stops sees all entries in bucket order. *)
Lemma foreach_fold {S} (fn : indexEntry -> S -> S) m s :
  foreach (fun e s => (fn e s, true)) m s = fold_left (fun s e => fn e s) (entries m) s.
Proof.
  unfold foreach, entries. generalize (buckets m) as bs. intros bs. revert s.
  induction bs as [|c bs IH]; intros s; [done|]. cbn [foreach_buckets concat].
  assert (Hc : forall s, foreach_chain (fun e s => (fn e s, true)) c s = (fold_left (fun s e => fn e s) c s, true)).
  { clear. induction c as [|e c IH]; intros s; [done|]. apply IH. }
  by rewrite Hc, IH, fold_left_app.
Qed.

(** Several insertions. *)
Definition add_entry (m : indexMap) (e : indexEntry) : indexMap :=
  add mh m (e_id e) (e_packIndex e) (e_offset e) (e_length e).

Lemma add_entries_spec m es : map_wf mh m -> numentries m + lenZ es <= 2 ^ 60 ->
  map_wf mh (fold_left add_entry es m)
  /\ entries (fold_left add_entry es m) ≡ₚ es ++ entries m.
Proof.
  revert m. induction es as [|e es IH]; intros m Hwf Hl; [done|]. cbn [fold_left length] in *.
  destruct (add_spec m (e_id e) (e_packIndex e) (e_offset e) (e_length e) Hwf ltac:(lia)) as (H1 & H2).
  assert (Hn : numentries (add_entry m e) = numentries m + 1).
  { pose proof H1 as [Hc _]. pose proof Hwf as [Hc' _]. unfold add_entry. rewrite Hc, H2. simpl. lia. }
  destruct (IH (add_entry m e) H1 ltac:(lia)) as (H3 & H4). split; [done|].
  rewrite H4. unfold add_entry. rewrite H2. destruct e. simpl. by rewrite Permutation_middle.
Qed.

(** ** Property *)

(** C33: the hash table is a multiset of entries indexed by ID.  Starting from
    the empty map, any sequence of up to 2^60 [add]s keeps the invariant (a
    power-of-two table, every entry in its bucket, at most [maxLoad] entries
    per bucket on average, an exact counter), through every rehashing;
    [foreach] visits exactly the added entries, [foreachWithID] exactly those
    of the ID, with multiplicities, and [get] finds one of them if and only
    if there is one. *)
Theorem indexMap_refines_multiset (es : list indexEntry) (id : ID) :
  lenZ es <= 2 ^ 60 ->
  let m := fold_left add_entry es emptyMap in
  map_wf mh m /\ len m = lenZ es
  /\ foreach (fun e l => (e :: l, true)) m [] ≡ₚ es
  /\ foreachWithID mh id (fun e l => e :: l) m [] ≡ₚ filter (fun e => e_id e = id) es
  /\ match get mh m id with
     | Some e => e ∈ es /\ e_id e = id
     | None => forall e, e ∈ es -> e_id e ≠ id
     end.
Proof.
  intros Hl m.
  destruct (add_entries_spec emptyMap es (emptyMap_wf mh) ltac:(done)) as (Hwf & Hp).
  fold m in Hwf, Hp. rewrite app_nil_r in Hp.
  assert (Hrev : forall l acc, fold_left (fun (l : list indexEntry) e => e :: l) l acc ≡ₚ l ++ acc).
  { induction l as [|e l IH]; intros acc; simpl; [done|]. by rewrite IH, Permutation_middle. }
  split; [done|]. split; [destruct Hwf as [Hc _]; unfold len; by rewrite Hc, Hp|].
  split; [by rewrite foreach_fold, Hrev, app_nil_r|]. split.
  - rewrite foreachWithID_fold, Hrev, app_nil_r by done. fold (entries_of m id).
    rewrite entries_of_perm by done. by rewrite Hp.
  - rewrite get_spec by done. pose proof (fun e => elem_of_entries_of m id e Hwf) as He.
    destruct (entries_of m id) as [|e l]; simpl.
    + intros e Hin Hid. rewrite <- Hp in Hin. by apply (not_elem_of_nil e), He.
    + rewrite <- Hp. apply He, elem_of_cons. by left.
Qed.

End indexmap_facts.

Lemma indexMap_refines_multiset_witness :
  len (fold_left (add_entry (fun id => be_val (take 8 id)))
    (map (fun i => mkEntry (replicate 32 (Z_byte i)) i 0 0) (seqZ 0 300)) emptyMap) = 300.
Proof.
  refine (proj1 (proj2 (indexMap_refines_multiset (fun id => be_val (take 8 id))
    (map (fun i => mkEntry (replicate 32 (Z_byte i)) i 0 0) (seqZ 0 300)) nullID _))).
  vm_compute. discriminate.
Defined.
