(* ===== verification/Index.v ===== *)
(** * Index: lookup tables from blob IDs to packs (src/repository/index.go)

    An [Index] holds one [indexMap] per blob type, the list of pack IDs its
    entries point into, and bookkeeping about the index files it came from.
    The JSON codec of the file format and the order in which Go ranges over a
    map are parameters. *)

From S2P Require Import Prelude Crypto Ids IndexMap.

(** ** Parameters *)

(** [encoding/json] on the structures of the index format. *)
Record blobJSON : Type := mkBlobJSON {
  bj_ID : ID; bj_Type : BlobType; bj_Offset : Z; bj_Length : Z }.
Record packJSON : Type := mkPackJSON { pj_ID : ID; pj_Blobs : list blobJSON }.
Record jsonIndex : Type := mkJsonIndex { ji_Supersedes : list ID; ji_Packs : list packJSON }.

(** A decoding error says whether it is an [UnmarshalTypeError] whose [Value]
    is ["array"]. *)
Record json_error : Type := mkJsonError { je_array_type_error : bool }.

Class IndexCodec : Type := {
  json_encode : jsonIndex -> list byte;
  json_decode : list byte -> jsonIndex + json_error;
  json_decode_old : list byte -> list packJSON + json_error;
}.
(** Decoding inverts encoding on values whose blob types have a JSON form and
    whose numbers fit the format. *)
Definition blobJSON_ok (b : blobJSON) : Prop := BlobType_MarshalJSON (bj_Type b) ≠ None.
Definition jsonIndex_ok (v : jsonIndex) : Prop :=
  Forall (fun p => Forall blobJSON_ok (pj_Blobs p)) (ji_Packs v).
Class IndexCodecLaws `{IndexCodec} : Prop := {
  json_decode_encode v : jsonIndex_ok v -> json_decode (json_encode v) = inl v;
}.

(** [range] over a map keyed by IDs: some order of its bindings. *)
Class MapOrder : Type := { range_order : forall A, gmap ID A -> list (ID * A) }.
Class MapOrderLaws `{MapOrder} : Prop := {
  range_order_perm A (m : gmap ID A) : range_order A m ≡ₚ map_to_list m;
}.

Inductive index_error : Type :=
| ErrAlreadyFinalized
| ErrNotFinal
| ErrIDAlreadySet
| ErrMergeNotFinal
| ErrEncode
| ErrDecode (e : json_error).

(** ** State *)

Record byTypeMaps : Type := mkByType { bt_invalid : indexMap; bt_data : indexMap; bt_tree : indexMap }.
Definition bt_get (m : byTypeMaps) (t : BlobType) : indexMap :=
  match t with InvalidBlob => bt_invalid m | DataBlob => bt_data m | TreeBlob => bt_tree m end.
Definition bt_set (m : byTypeMaps) (t : BlobType) (x : indexMap) : byTypeMaps :=
  match t with
  | InvalidBlob => mkByType x (bt_data m) (bt_tree m)
  | DataBlob => mkByType (bt_invalid m) x (bt_tree m)
  | TreeBlob => mkByType (bt_invalid m) (bt_data m) x
  end.

Record Index : Type := mkIndex {
  byType : byTypeMaps;
  packs : list ID;
  mixedPacks : IDSet;
  packIDToIndex : option (gmap ID Z);   (** [None] is the nil map *)
  final : bool;
  idx_ids : list ID;
  supersedes : list ID;
  created : Z;                          (** nanoseconds *)
}.

Definition NewIndex (now : Z) : Index := {|
  byType := mkByType emptyMap emptyMap emptyMap; packs := []; mixedPacks := ∅;
  packIDToIndex := Some ∅; final := false; idx_ids := []; supersedes := []; created := now |}.

Definition with_packs (i : Index) (ps : list ID) : Index :=
  mkIndex (byType i) ps (mixedPacks i) (packIDToIndex i) (final i) (idx_ids i) (supersedes i) (created i).
Definition with_byType (i : Index) (m : byTypeMaps) : Index :=
  mkIndex m (packs i) (mixedPacks i) (packIDToIndex i) (final i) (idx_ids i) (supersedes i) (created i).

Definition addToPacks (i : Index) (id : ID) : Index * Z :=
  (with_packs i (packs i ++ [id]), lenZ (packs i)).

Definition indexMaxBlobs : Z := 50000.
Definition indexMaxAge : Z := 10 * 60 * 1000000000.

Section index.
Context (mh : ID -> Z).

Definition store (i : Index) (packIndex : Z) (blob : Blob) : res index_error Index :=
  panic_if ((b_Offset blob >? maxuint32) || (b_Length blob >? maxuint32))
    "offset or length does not fit in uint32. You have packs > 4GB!";;
  let m := bt_get (byType i) (b_Type blob) in
  let m := add mh m (b_ID blob) packIndex (u32 (b_Offset blob)) (u32 (b_Length blob)) in
  Ok (with_byType i (bt_set (byType i) (b_Type blob) m)).

Definition Final (i : Index) : bool := final i.

(** [IndexFull] at time [now]. *)
Definition IndexFull (now : Z) (i : Index) : bool :=
  let blobs := fold_left (fun n t => u64 (n + len (bt_get (byType i) t))) allBlobTypes 0 in
  let age := now - created i in
  if age >=? indexMaxAge then true
  else if blobs >=? indexMaxBlobs then true
  else false.

Definition Store (i : Index) (pb : PackedBlob) : res index_error Index :=
  panic_if (final i) "store new item in finalized index";;
  '(i, packIndex) ←
    match packIDToIndex i ≫= (.!! pb_PackID pb) with
    | Some p => Ok (i, p)
    | None =>
        let '(i, p) := addToPacks i (pb_PackID pb) in
        match packIDToIndex i with
        | None => Panic "assignment to entry in nil map"
        | Some m => Ok (mkIndex (byType i) (packs i) (mixedPacks i) (Some (<[pb_PackID pb := p]> m))
                          (final i) (idx_ids i) (supersedes i) (created i), p)
        end
    end;
  store i packIndex (pb_Blob pb).

Fixpoint store_all (i : Index) (packIndex : Z) (blobs : list Blob) : res index_error Index :=
  match blobs with
  | [] => Ok i
  | b :: blobs => i ← store i packIndex b; store_all i packIndex blobs
  end.

Definition StorePack (i : Index) (id : ID) (blobs : list Blob) : res index_error Index :=
  panic_if (final i) "store new item in finalized index";;
  let '(i, packIndex) := addToPacks i id in
  store_all i packIndex blobs.

Definition toPackedBlob (i : Index) (e : indexEntry) (t : BlobType) : res index_error PackedBlob :=
  pid ← gindex (packs i) (e_packIndex e);
  Ok {| pb_Blob := {| b_handle := {| bh_ID := e_id e; bh_Type := t |};
                      b_Length := e_length e; b_Offset := e_offset e |};
        pb_PackID := pid |}.

(** A callback that appends to a slice, for [foreach] and [foreachWithID]. *)
Definition append_pb (i : Index) (t : BlobType) (e : indexEntry)
  (acc : res index_error (list PackedBlob)) : res index_error (list PackedBlob) :=
  pbs ← acc; pb ← toPackedBlob i e t; Ok (pbs ++ [pb]).

Definition Lookup (i : Index) (bh : BlobHandle) (pbs : list PackedBlob)
  : res index_error (list PackedBlob) :=
  foreachWithID mh (bh_ID bh) (append_pb i (bh_Type bh)) (bt_get (byType i) (bh_Type bh)) (Ok pbs).

Definition ListPack (i : Index) (id : ID) : res index_error (list PackedBlob) :=
  fold_left (fun acc typ =>
    foreach (fun e (acc : res index_error _) =>
      (match acc with
       | Ok pbs =>
           pid ← gindex (packs i) (e_packIndex e);
           if bool_decide (pid = id) then append_pb i typ e (Ok pbs) else Ok pbs
       | r => r
       end, true)) (bt_get (byType i) typ) acc) allBlobTypes (Ok []).

Definition Has (i : Index) (bh : BlobHandle) : bool :=
  match get mh (bt_get (byType i) (bh_Type bh)) (bh_ID bh) with Some _ => true | None => false end.

(** The plaintext length is converted to [uint]. *)
Definition LookupSize (i : Index) (bh : BlobHandle) : Z * bool :=
  match get mh (bt_get (byType i) (bh_Type bh)) (bh_ID bh) with
  | None => (0, false)
  | Some e => (u64 (PlaintextLength (e_length e)), true)
  end.

Definition Supersedes (i : Index) : list ID := supersedes i.

Definition AddToSupersedes (i : Index) (ids : list ID) : res index_error Index :=
  if final i then Err ErrAlreadyFinalized
  else Ok (mkIndex (byType i) (packs i) (mixedPacks i) (packIDToIndex i) (final i) (idx_ids i)
             (supersedes i ++ ids) (created i)).

(** [Each]: what a receiver that drains the channel gets. *)
Definition Each (i : Index) : res index_error (list PackedBlob) :=
  fold_left (fun acc typ =>
    foreach (fun e acc => (append_pb i typ e acc, true)) (bt_get (byType i) typ) acc)
    allBlobTypes (Ok []).

Definition Packs (i : Index) : IDSet := fold_left (fun s id => IDSet_Insert s id) (packs i) ∅.

Definition Count (i : Index) (t : BlobType) : Z := len (bt_get (byType i) t).

Definition Finalize (i : Index) : Index :=
  mkIndex (byType i) (packs i) (mixedPacks i) None true (idx_ids i) (supersedes i) (created i).

Definition IDs (i : Index) : res index_error (list ID) :=
  if negb (final i) then Err ErrNotFinal else Ok (idx_ids i).

Definition SetID (i : Index) (id : ID) : res index_error Index :=
  if negb (final i) then Err ErrNotFinal
  else if bool_decide (lenZ (idx_ids i) > 0) then Err ErrIDAlreadySet
  else Ok (mkIndex (byType i) (packs i) (mixedPacks i) (packIDToIndex i) (final i)
             (idx_ids i ++ [id]) (supersedes i) (created i)).

Definition MixedPacks (i : Index) : IDSet := mixedPacks i.

(** [EachByPack]: per type, the entries are grouped by pack ID in a map
    (append order), then the map is ranged over. *)
Definition group_entry (i : Index) (packBlacklist : IDSet) (e : indexEntry)
  (acc : res index_error (gmap ID (list indexEntry))) : res index_error (gmap ID (list indexEntry)) :=
  byPack ← acc;
  packID ← gindex (packs i) (e_packIndex e);
  if negb (final i) || negb (IDSet_Has packBlacklist packID)
  then Ok (<[packID := default [] (byPack !! packID) ++ [e]]> byPack)
  else Ok byPack.

Definition pack_blobs (i : Index) (typ : BlobType) (pack : list indexEntry) : res index_error (list Blob) :=
  fold_left (fun acc e => bs ← acc; pb ← toPackedBlob i e typ; Ok (bs ++ [pb_Blob pb])) pack (Ok []).

Definition send_packs (i : Index) (typ : BlobType) (byPack : list (ID * list indexEntry))
  (out : list (ID * list Blob)) : res index_error (list (ID * list Blob)) :=
  fold_left (fun acc '(packID, pack) =>
    out ← acc; blobs ← pack_blobs i typ pack; Ok (out ++ [(packID, blobs)])) byPack (Ok out).

Definition EachByPack_type `{MapOrder} (i : Index) (packBlacklist : IDSet) (typ : BlobType)
  (out : list (ID * list Blob)) : res index_error (list (ID * list Blob)) :=
  byPack ← foreach (fun e acc => (group_entry i packBlacklist e acc, true)) (bt_get (byType i) typ) (Ok ∅);
  send_packs i typ (range_order _ byPack) out.

Definition EachByPack `{MapOrder} (i : Index) (packBlacklist : IDSet)
  : res index_error (list (ID * list Blob)) :=
  fold_left (fun acc typ => out ← acc; EachByPack_type i packBlacklist typ out) allBlobTypes (Ok []).

(** ** Serialization *)

(** The list and the map of [generatePackList] share the pack objects: the
    blob goes to the pack already listed under its ID, or to a new one. *)
Fixpoint add_to_pack_list (l : list packJSON) (packID : ID) (b : blobJSON) : list packJSON :=
  match l with
  | [] => [{| pj_ID := packID; pj_Blobs := [b] |}]
  | p :: l =>
      if bool_decide (pj_ID p = packID)
      then {| pj_ID := pj_ID p; pj_Blobs := pj_Blobs p ++ [b] |} :: l
      else p :: add_to_pack_list l packID b
  end.

Definition list_entry (i : Index) (typ : BlobType) (e : indexEntry)
  (acc : res index_error (list packJSON)) : res index_error (list packJSON) :=
  l ← acc;
  packID ← gindex (packs i) (e_packIndex e);
  panic_if (IsNull packID) "null pack id";;
  Ok (add_to_pack_list l packID
        {| bj_ID := e_id e; bj_Type := typ; bj_Offset := e_offset e; bj_Length := e_length e |}).

Definition generatePackList (i : Index) : res index_error (list packJSON) :=
  fold_left (fun acc typ =>
    foreach (fun e acc => (list_entry i typ e acc, true)) (bt_get (byType i) typ) acc)
    allBlobTypes (Ok []).

(** Marshalling fails on a blob type without a JSON form. *)
Definition marshalable (v : jsonIndex) : bool :=
  forallb (fun p => forallb (fun b => match BlobType_MarshalJSON (bj_Type b) with Some _ => true | None => false end)
    (pj_Blobs p)) (ji_Packs v).

Definition encode `{IndexCodec} (i : Index) : res index_error (list byte) :=
  list ← generatePackList i;
  let idxJSON := {| ji_Supersedes := supersedes i; ji_Packs := list |} in
  if marshalable idxJSON then Ok (json_encode idxJSON) else Err ErrEncode.

(** The loop over the packs, shared word for word by [DecodeIndex] and
    [decodeOldIndex]. *)
Definition decode_pack (i : Index) (pack : packJSON) : res index_error Index :=
  let '(i, packID) := addToPacks i (pj_ID pack) in
  i ← fold_left (fun acc b =>
        i ← acc;
        store i packID {| b_handle := {| bh_ID := bj_ID b; bh_Type := bj_Type b |};
                          b_Length := bj_Length b; b_Offset := bj_Offset b |})
      (pj_Blobs pack) (Ok i);
  let data := existsb (fun b => bool_decide (bj_Type b = DataBlob)) (pj_Blobs pack) in
  let tree := existsb (fun b => bool_decide (bj_Type b = TreeBlob)) (pj_Blobs pack) in
  Ok (if data && tree
      then mkIndex (byType i) (packs i) (IDSet_Insert (mixedPacks i) (pj_ID pack)) (packIDToIndex i)
             (final i) (idx_ids i) (supersedes i) (created i)
      else i).

Definition decode_packs (now : Z) (ps : list packJSON) : res index_error Index :=
  fold_left (fun acc p => i ← acc; decode_pack i p) ps (Ok (NewIndex now)).

Definition decodeOldIndex `{IndexCodec} (now : Z) (buf : list byte) : res index_error Index :=
  match json_decode_old buf with
  | inr e => Err (ErrDecode e)
  | inl ps =>
      i ← decode_packs now ps;
      Ok (mkIndex (byType i) (packs i) (mixedPacks i) (packIDToIndex i) true (idx_ids i)
            (supersedes i) (created i))
  end.

(** The result also says whether the old format was found. *)
Definition DecodeIndex `{IndexCodec} (now : Z) (buf : list byte) (id : ID) : res index_error (Index * bool) :=
  match json_decode buf with
  | inr e =>
      if je_array_type_error e
      then i ← decodeOldIndex now buf; Ok (i, true)
      else Err (ErrDecode e)
  | inl v =>
      i ← decode_packs now (ji_Packs v);
      Ok (mkIndex (byType i) (packs i) (mixedPacks i) (packIDToIndex i) true (idx_ids i ++ [id])
            (ji_Supersedes v) (created i), false)
  end.

(** ** Merging *)

Definition hasIdenticalEntry (i i2 : Index) (m : indexMap) (typ : BlobType) (e2 : indexEntry)
  : res index_error bool :=
  foreachWithID mh (e_id e2) (fun e acc =>
    found ← acc;
    b ← toPackedBlob i e typ;
    b2 ← toPackedBlob i2 e2 typ;
    Ok (found || (bool_decide (b_Length (pb_Blob b) = b_Length (pb_Blob b2))
                  && bool_decide (b_Offset (pb_Blob b) = b_Offset (pb_Blob b2))
                  && bool_decide (pb_PackID b = pb_PackID b2)))) m (Ok false).

Definition merge_type (i2 : Index) (packlen : Z) (i : Index) (typ : BlobType) : res index_error Index :=
  foreach (fun e2 (acc : res index_error Index) =>
    (match acc with
     | Ok i =>
         let m := bt_get (byType i) typ in
         dup ← hasIdenticalEntry i i2 m typ e2;
         if (dup : bool) then Ok i
         else
           let m := add mh m (e_id e2) (e_packIndex e2 + packlen) (e_offset e2) (e_length e2) in
           Ok (with_byType i (bt_set (byType i) typ m))
     | r => r
     end, true)) (bt_get (byType i2) typ) (Ok i).

Definition merge (i i2 : Index) : res index_error Index :=
  fail_if (negb (final i2)) ErrMergeNotFinal;;
  let packlen := lenZ (packs i) in
  let i := with_packs i (packs i ++ packs i2) in
  i ← fold_left (fun acc typ => i ← acc; merge_type i2 packlen i typ) allBlobTypes (Ok i);
  Ok (mkIndex (byType i) (packs i) (IDSet_Merge (mixedPacks i) (mixedPacks i2)) (packIDToIndex i)
        (final i) (idx_ids i ++ idx_ids i2) (supersedes i ++ supersedes i2) (created i)).

End index.

(** ** The abstract contents of an index *)

Section contents.
Context (mh : ID -> Z).

(** The packed blob an entry stands for. *)
Definition to_pb (ps : list ID) (t : BlobType) (e : indexEntry) : PackedBlob :=
  {| pb_Blob := {| b_handle := {| bh_ID := e_id e; bh_Type := t |};
                   b_Length := e_length e; b_Offset := e_offset e |};
     pb_PackID := default nullID (ps !! Z.to_nat (e_packIndex e)) |}.

Definition pbs_of_type (i : Index) (t : BlobType) : list PackedBlob :=
  map (to_pb (packs i) t) (entries (bt_get (byType i) t)).

(** The abstract state of an index: the packed blobs it knows. *)
Definition all_pbs (i : Index) : list PackedBlob :=
  concat (map (pbs_of_type i) allBlobTypes).

Definition entry_ok (n : nat) (e : indexEntry) : Prop :=
  0 <= e_packIndex e < Z.of_nat n /\ 0 <= e_offset e <= maxuint32 /\ 0 <= e_length e <= maxuint32.

(** Every table is well formed and every entry points into [packs]. *)
Definition idx_wf (i : Index) : Prop :=
  forall t, map_wf mh (bt_get (byType i) t)
    /\ forall e, e ∈ entries (bt_get (byType i) t) -> entry_ok (length (packs i)) e.

(** Room for [n] more entries of every type. *)
Definition has_room (i : Index) (n : Z) : Prop :=
  forall t, numentries (bt_get (byType i) t) + n <= 2 ^ 60.

Lemma NewIndex_wf now : idx_wf (NewIndex now).
Proof. intros []; simpl; split; try apply emptyMap_wf; by intros e ?%elem_of_nil. Qed.

Lemma NewIndex_pbs now : all_pbs (NewIndex now) = [].
Proof. done. Qed.

Lemma bt_get_set m t t' x :
  bt_get (bt_set m t x) t' = if decide (t = t') then x else bt_get m t'.
Proof. by destruct t, t'. Qed.

Lemma elem_of_all_pbs i pb :
  pb ∈ all_pbs i <-> pb ∈ pbs_of_type i (b_Type (pb_Blob pb)).
Proof.
  unfold all_pbs, pbs_of_type. cbn [map allBlobTypes concat]. rewrite app_nil_r, !elem_of_app.
  assert (Ht : forall t es, pb ∈ map (to_pb (packs i) t) es -> b_Type (pb_Blob pb) = t).
  { intros t es (e & -> & _)%list_elem_of_fmap. done. }
  split.
  - intros [H|[H|H]]; pose proof (Ht _ _ H) as Hb; by rewrite Hb.
  - destruct (b_Type (pb_Blob pb)); auto.
Qed.

Lemma elem_of_pbs_of_type i t pb :
  pb ∈ pbs_of_type i t <-> exists e, e ∈ entries (bt_get (byType i) t) /\ pb = to_pb (packs i) t e.
Proof. unfold pbs_of_type. rewrite list_elem_of_fmap. naive_solver. Qed.

Lemma toPackedBlob_ok (i : Index) e t : entry_ok (length (packs i)) e ->
  toPackedBlob i e t = Ok (to_pb (packs i) t e).
Proof.
  intros [Hp _]. unfold toPackedBlob, gindex, to_pb. rewrite bool_decide_eq_true_2 by lia.
  destruct (lookup_lt_is_Some_2 (packs i) (Z.to_nat (e_packIndex e)) ltac:(lia)) as [x Hx].
  by rewrite Hx.
Qed.

Lemma append_pb_fold (i : Index) t es acc :
  (forall e, e ∈ es -> entry_ok (length (packs i)) e) ->
  fold_left (fun s e => append_pb i t e s) es (Ok acc) = Ok (acc ++ map (to_pb (packs i) t) es).
Proof.
  revert acc. induction es as [|e es IH]; intros acc Hok; simpl; [by rewrite app_nil_r|].
  rewrite toPackedBlob_ok by (apply Hok, elem_of_cons; auto). cbn.
  rewrite IH by (intros; apply Hok, elem_of_cons; auto). by rewrite <- app_assoc.
Qed.

Lemma Each_spec i : idx_wf i -> Each i = Ok (all_pbs i).
Proof.
  intros Hwf. unfold Each, all_pbs. generalize allBlobTypes as ts.
  assert (HG : forall ts acc, fold_left (fun acc typ =>
      foreach (fun e acc => (append_pb i typ e acc, true)) (bt_get (byType i) typ) acc) ts (Ok acc)
      = Ok (acc ++ concat (map (pbs_of_type i) ts))).
  { induction ts as [|t ts IH]; intros acc; simpl; [by rewrite app_nil_r|].
    rewrite foreach_fold, append_pb_fold by apply Hwf. rewrite IH, <- app_assoc. done. }
  intros ts. by rewrite HG.
Qed.

Lemma Lookup_spec i bh pbs : idx_wf i ->
  Lookup mh i bh pbs = Ok (pbs ++ map (to_pb (packs i) (bh_Type bh))
    (entries_of mh (bt_get (byType i) (bh_Type bh)) (bh_ID bh))).
Proof.
  intros Hwf. destruct (Hwf (bh_Type bh)) as [Hm He]. unfold Lookup.
  rewrite foreachWithID_fold by done. apply append_pb_fold.
  intros e Hin. apply He. by apply elem_of_entries_of in Hin as [Hin _].
Qed.

(** A handle's entries are the packed blobs with that handle. *)
Lemma Lookup_filter i bh : idx_wf i ->
  map (to_pb (packs i) (bh_Type bh)) (entries_of mh (bt_get (byType i) (bh_Type bh)) (bh_ID bh))
  ≡ₚ filter (fun pb => b_handle (pb_Blob pb) = bh) (all_pbs i).
Proof.
  intros Hwf. rewrite entries_of_perm by apply Hwf.
  assert (Hf : forall t es, filter (fun pb => b_handle (pb_Blob pb) = bh) (map (to_pb (packs i) t) es)
     = if decide (t = bh_Type bh)
       then map (to_pb (packs i) t) (filter (fun e => e_id e = bh_ID bh) es) else []).
  { intros t es. case_decide as Ht.
    - subst t. induction es as [|e es IH]; [done|]. cbn [map]. rewrite !filter_cons, IH.
      destruct bh as [id ty]. simpl.
      destruct (decide (e_id e = id)); [rewrite decide_True by congruence | rewrite decide_False by congruence]; done.
    - apply filter_none. intros pb (e & -> & _)%list_elem_of_fmap. simpl. by intros <-. }
  unfold all_pbs, pbs_of_type. cbn [map allBlobTypes concat].
  rewrite app_nil_r, !filter_app, !Hf. destruct (bh_Type bh); simpl; by rewrite ?app_nil_r.
Qed.

Lemma Has_spec i bh : idx_wf i ->
  Has mh i bh = true <-> exists pb, pb ∈ all_pbs i /\ b_handle (pb_Blob pb) = bh.
Proof.
  intros Hwf. unfold Has. rewrite get_spec by apply Hwf.
  assert (Hx : (exists pb, pb ∈ all_pbs i /\ b_handle (pb_Blob pb) = bh) <->
    exists pb, pb ∈ filter (fun pb => b_handle (pb_Blob pb) = bh) (all_pbs i)).
  { setoid_rewrite list_elem_of_filter. naive_solver. }
  rewrite Hx. setoid_rewrite <- Lookup_filter; [|done].
  destruct (entries_of _ _ _) as [|e l]; simpl.
  - split; [done|]. by intros [pb ?%elem_of_nil].
  - split; [|done]. intros _. eexists. apply elem_of_cons. by left.
Qed.

(** Appending packs does not change what existing entries mean. *)
Lemma with_packs_pbs i ps : idx_wf i -> all_pbs (with_packs i (packs i ++ ps)) = all_pbs i.
Proof.
  intros Hwf. unfold all_pbs. f_equal. apply map_ext. intros t. unfold pbs_of_type. simpl.
  apply map_ext_in. intros e He%list_elem_of_In. destruct (Hwf t) as [_ Hok].
  destruct (Hok e He) as [Hp _]. unfold to_pb. rewrite lookup_app_l by lia. done.
Qed.

Lemma with_packs_wf i ps : idx_wf i -> idx_wf (with_packs i (packs i ++ ps)).
Proof.
  intros Hwf t. destruct (Hwf t) as [Hm Hok]. split; [done|]. intros e He.
  destruct (Hok e He) as [Hp Hr]. split; [|done]. simpl. rewrite length_app. lia.
Qed.

(** Adding one entry to the table of type [t]. *)
Lemma add_type_spec i t id p o l (i' := with_byType i (bt_set (byType i) t (add mh (bt_get (byType i) t) id p o l))) :
  idx_wf i -> has_room i 1 -> entry_ok (length (packs i)) (mkEntry id p o l) ->
  idx_wf i' /\ all_pbs i' ≡ₚ to_pb (packs i) t (mkEntry id p o l) :: all_pbs i
  /\ (forall n, has_room i (n + 1) -> has_room i' n).
Proof.
  intros Hwf Hroom Hok. destruct (Hwf t) as [Hm He]. pose proof (Hroom t) as Hrt.
  destruct (add_spec mh _ id p o l Hm ltac:(lia)) as [Hm' Hp']. split_and!.
  - intros t'. unfold i'. cbn [byType packs with_byType]. rewrite bt_get_set.
    case_decide as Ht; [|apply Hwf]. subst t'. split; [done|]. intros e Hin.
    rewrite Hp' in Hin. apply elem_of_cons in Hin as [->|Hin]; [done|by apply He].
  - unfold all_pbs, pbs_of_type, i'. cbn [map allBlobTypes concat byType packs with_byType].
    rewrite !app_nil_r. destruct t; cbn [bt_get bt_set] in *; rewrite Hp'; cbn [map app];
      by rewrite <- ?Permutation_middle.
  - intros n Hn t'. specialize (Hn t'). unfold i'. cbn [byType with_byType]. rewrite bt_get_set.
    case_decide; [subst t'|lia]. destruct Hm' as [Hc _]. destruct Hm as [Hc0 _].
    rewrite Hc, Hp'. simpl. lia.
Qed.

End contents.

Section operations.
Context (mh : ID -> Z).

Lemma has_room_le i n m : has_room i n -> m <= n -> has_room i m.
Proof. intros H Hl t. specialize (H t). lia. Qed.

Lemma has_room_with_packs i ps n : has_room (with_packs i ps) n <-> has_room i n.
Proof. done. Qed.

Definition fits32 (b : Blob) : Prop := 0 <= b_Offset b <= maxuint32 /\ 0 <= b_Length b <= maxuint32.

Lemma store_spec i p b ps : idx_wf mh i -> has_room i 1 -> fits32 b ->
  packs i = ps -> 0 <= p < lenZ ps ->
  exists i', store mh i p b = Ok i' /\ idx_wf mh i'
    /\ all_pbs i' ≡ₚ mkPacked b (default nullID (ps !! Z.to_nat p)) :: all_pbs i
    /\ packs i' = ps /\ final i' = final i /\ mixedPacks i' = mixedPacks i
    /\ packIDToIndex i' = packIDToIndex i
    /\ idx_ids i' = idx_ids i /\ supersedes i' = supersedes i
    /\ (forall n, has_room i (n + 1) -> has_room i' n).
Proof.
  intros Hwf Hroom [Ho Hl] <- Hp. unfold store.
  assert (Hg : (b_Offset b >? maxuint32) || (b_Length b >? maxuint32) = false)
    by (apply orb_false_iff; lia).
  rewrite Hg. cbn [panic_if mbind res_bind]. eexists. split; [done|].
  unfold maxuint32 in *. rewrite !u32_small by lia.
  destruct (add_type_spec mh i (b_Type b) (b_ID b) p (b_Offset b) (b_Length b) Hwf Hroom)
    as (H1 & H2 & H3); [unfold entry_ok, maxuint32; simpl; lia|].
  split; [done|]. split; [|by repeat split].
  rewrite H2. destruct b as [[id ty] len off]. done.
Qed.

Lemma store_all_spec i p blobs ps : idx_wf mh i -> has_room i (lenZ blobs) -> Forall fits32 blobs ->
  packs i = ps -> 0 <= p < lenZ ps ->
  exists i', store_all mh i p blobs = Ok i' /\ idx_wf mh i'
    /\ all_pbs i' ≡ₚ map (fun b => mkPacked b (default nullID (ps !! Z.to_nat p))) blobs ++ all_pbs i
    /\ packs i' = ps /\ final i' = final i /\ mixedPacks i' = mixedPacks i
    /\ idx_ids i' = idx_ids i /\ supersedes i' = supersedes i
    /\ (forall n, has_room i (n + lenZ blobs) -> has_room i' n).
Proof.
  intros Hwf Hroom Hfit. revert i Hwf Hroom. induction Hfit as [|b blobs Hb Hfit IH];
    intros i Hwf Hroom Hps Hp; cbn [store_all length map app] in *.
  { exists i. split_and!; try done. intros n. by rewrite Z.add_0_r. }
  destruct (store_spec i p b ps Hwf ltac:(eapply has_room_le; [done|lia]) Hb Hps Hp)
    as (i1 & -> & Hwf1 & Hp1 & Hps1 & Hf1 & Hm1 & _ & Hi1 & Hs1 & Hr1).
  destruct (IH i1 Hwf1) as (i2 & E2 & Hwf2 & Hp2 & Hps2 & Hf2 & Hm2 & Hi2 & Hs2 & Hr2); [|done|done|].
  { apply Hr1. eapply has_room_le; [done|lia]. }
  exists i2. cbn [mbind res_bind]. split; [done|]. split; [done|]. split.
  { by rewrite Hp2, Hp1, Permutation_middle. }
  split_and!; try congruence.
  intros n Hn. apply Hr2, Hr1. eapply has_room_le; [done|lia].
Qed.

Lemma StorePack_spec i id blobs : idx_wf mh i -> has_room i (lenZ blobs) -> Forall fits32 blobs ->
  final i = false ->
  exists i', StorePack mh i id blobs = Ok i' /\ idx_wf mh i'
    /\ all_pbs i' ≡ₚ map (fun b => mkPacked b id) blobs ++ all_pbs i
    /\ packs i' = packs i ++ [id] /\ final i' = false
    /\ idx_ids i' = idx_ids i /\ supersedes i' = supersedes i
    /\ (forall n, has_room i (n + lenZ blobs) -> has_room i' n).
Proof.
  intros Hwf Hroom Hfit Hf. unfold StorePack. rewrite Hf. cbn [panic_if mbind res_bind addToPacks].
  destruct (store_all_spec (with_packs i (packs i ++ [id])) (lenZ (packs i)) blobs (packs i ++ [id]))
    as (i' & HE & Hwf' & Hp' & Hps' & Hf' & _ & Hi' & Hs' & Hr'); try done.
  - by apply with_packs_wf.
  - rewrite length_app. simpl. lia.
  - exists i'. split; [done|]. split; [done|]. split; [|by rewrite Hf'; split_and!].
    rewrite Hp', with_packs_pbs with (mh := mh) by done. rewrite Nat2Z.id.
    rewrite lookup_app_r, Nat.sub_diag by lia. done.
Qed.

(** *** Merging *)

Lemma hasIdenticalEntry_spec i i2 t e2 :
  idx_wf mh i -> entry_ok (length (packs i2)) e2 ->
  hasIdenticalEntry mh i i2 (bt_get (byType i) t) t e2
  = Ok (bool_decide (to_pb (packs i2) t e2 ∈ pbs_of_type i t)).
Proof.
  intros Hwf He2. destruct (Hwf t) as [Hm Hok]. unfold hasIdenticalEntry.
  rewrite foreachWithID_fold by done. fold (entries_of mh (bt_get (byType i) t) (e_id e2)).
  set (pb2 := to_pb (packs i2) t e2).
  assert (HG : forall es b, (forall e, e ∈ es -> entry_ok (length (packs i)) e /\ e_id e = e_id e2) ->
    fold_left (fun acc e => found ← acc; b ← toPackedBlob i e t;
      Ok (found || (bool_decide (b_Length (pb_Blob b) = b_Length (pb_Blob pb2))
                  && bool_decide (b_Offset (pb_Blob b) = b_Offset (pb_Blob pb2))
                  && bool_decide (pb_PackID b = pb_PackID pb2)))) es (Ok b)
    = Ok (E := index_error) (b || bool_decide (pb2 ∈ map (to_pb (packs i) t) es))).
  { induction es as [|e es IH]; intros b Hes; cbn [fold_left map].
    { rewrite bool_decide_eq_false_2 by apply not_elem_of_nil. by rewrite orb_false_r. }
    destruct (Hes e ltac:(apply elem_of_cons; auto)) as [He Hid].
    cbn [mbind res_bind]. rewrite (toPackedBlob_ok i e t He). cbn [mbind res_bind].
    rewrite IH by (intros; apply Hes, elem_of_cons; auto). f_equal. rewrite <- orb_assoc. f_equal.
    apply eq_true_iff_eq. rewrite orb_true_iff, !andb_true_iff, !bool_decide_eq_true, elem_of_cons.
    assert (Heq : pb2 = to_pb (packs i) t e <->
      (b_Length (pb_Blob (to_pb (packs i) t e)) = b_Length (pb_Blob pb2)
       /\ b_Offset (pb_Blob (to_pb (packs i) t e)) = b_Offset (pb_Blob pb2))
       /\ pb_PackID (to_pb (packs i) t e) = pb_PackID pb2).
    { unfold pb2, to_pb; simpl. rewrite Hid. split; [by intros [= -> -> ->]|].
      intros [[-> ->] ->]. done. }
    rewrite Heq. tauto. }
  rewrite (toPackedBlob_ok i2 e2 t He2). etransitivity; [apply (HG _ false)|].
  - intros e Hin. apply elem_of_entries_of in Hin as [Hin Hid]; [|done]. split; [by apply Hok|done].
  - f_equal. apply bool_decide_ext. unfold pbs_of_type. rewrite !list_elem_of_fmap.
    split; intros (e & Hpe & Hin).
    + exists e. apply elem_of_entries_of in Hin as [Hin _]; done.
    + exists e. split; [done|]. apply elem_of_entries_of; [done|]. split; [done|].
      unfold pb2, to_pb in Hpe. by simplify_eq.
Qed.

(** The state of a merge: [i] has the packs of both indexes, those of [i2]
    from position [length ps1] on. *)
Record merging (ps1 : list ID) (i2 i : Index) (old : list PackedBlob) (seen : list PackedBlob) : Prop := {
  mg_wf : idx_wf mh i;
  mg_packs : packs i = ps1 ++ packs i2;
  mg_elem : forall pb, pb ∈ all_pbs i <-> pb ∈ old \/ pb ∈ seen;
  mg_nodup : NoDup old -> NoDup (all_pbs i);
  mg_len : (length (all_pbs i) <= length old + length seen)%nat;
}.

Lemma merge_type_spec ps1 i2 i old seen t :
  idx_wf mh i2 -> merging ps1 i2 i old seen ->
  has_room i (lenZ (entries (bt_get (byType i2) t))) ->
  exists i', merge_type mh i2 (lenZ ps1) i t = Ok i'
    /\ merging ps1 i2 i' old (seen ++ pbs_of_type i2 t)
    /\ final i' = final i /\ idx_ids i' = idx_ids i /\ supersedes i' = supersedes i
    /\ mixedPacks i' = mixedPacks i /\ packIDToIndex i' = packIDToIndex i
    /\ (forall n, has_room i (n + lenZ (entries (bt_get (byType i2) t))) -> has_room i' n).
Proof.
  intros Hwf2. destruct (Hwf2 t) as [_ Hok2]. unfold merge_type, pbs_of_type. rewrite foreach_fold.
  revert Hok2. generalize (entries (bt_get (byType i2) t)) as es. intros es Hok2. revert i seen.
  induction es as [|e2 es IH]; intros i seen Hmg Hroom; cbn [fold_left map length] in *.
  { exists i. rewrite app_nil_r. split_and!; try done. intros n. by rewrite Z.add_0_r. }
  destruct Hmg as [Hwf Hpk Hel Hnd Hln].
  assert (He2 : entry_ok (length (packs i2)) e2) by (apply Hok2, elem_of_cons; auto).
  rewrite (hasIdenticalEntry_spec i i2 t e2 Hwf He2). cbn [mbind res_bind].
  set (pb2 := to_pb (packs i2) t e2) in *.
  assert (Hpb2 : pb2 ∈ pbs_of_type i t <-> pb2 ∈ all_pbs i) by (symmetry; apply elem_of_all_pbs).
  case_bool_decide as Hdup.
  - destruct (IH ltac:(intros; apply Hok2, elem_of_cons; auto) i (seen ++ [pb2])) as (i' & HE & Hmg' & Hrest).
    + split; [done|done| |done|rewrite length_app; simpl; lia].
      intros pb. rewrite Hel, elem_of_app, list_elem_of_singleton.
      split; [tauto|]. intros [?|[?| ->]]; [tauto..|]. by apply Hel, Hpb2.
    + eapply has_room_le; [done|lia].
    + exists i'. split; [done|]. rewrite <- app_assoc in Hmg'. split; [done|].
      destruct Hrest as (? & ? & ? & ? & ? & Hr). split_and!; try done.
      intros n Hn. apply Hr. eapply has_room_le; [done|lia].
  - destruct (add_type_spec mh i t (e_id e2) (e_packIndex e2 + lenZ ps1) (e_offset e2) (e_length e2) Hwf)
      as (Hwf1 & Hp1 & Hr1).
    { eapply has_room_le; [done|lia]. }
    { destruct He2 as (Hpi & Hrest). split; [|done]. simpl. rewrite Hpk, length_app. lia. }
    set (i1 := with_byType i _) in *.
    assert (Hpb : to_pb (packs i) t (mkEntry (e_id e2) (e_packIndex e2 + lenZ ps1) (e_offset e2) (e_length e2)) = pb2).
    { unfold to_pb, pb2; simpl. f_equal. rewrite Hpk.
      destruct He2 as ((Hp0 & _) & _). rewrite lookup_app_r by lia.
      by replace (Z.to_nat (e_packIndex e2 + lenZ ps1) - length ps1)%nat
        with (Z.to_nat (e_packIndex e2)) by lia. }
    rewrite Hpb in Hp1.
    destruct (IH ltac:(intros; apply Hok2, elem_of_cons; auto) i1 (seen ++ [pb2])) as (i' & HE & Hmg' & Hrest).
    + split; [done|done| | |rewrite Hp1, length_app; simpl; lia].
      * intros pb. rewrite Hp1, elem_of_cons, Hel, elem_of_app, list_elem_of_singleton. tauto.
      * intros Hn. rewrite Hp1. constructor; [by rewrite <- Hpb2|by apply Hnd].
    + apply Hr1. eapply has_room_le; [done|lia].
    + exists i'. split; [done|]. rewrite <- app_assoc in Hmg'. split; [done|].
      destruct Hrest as (? & ? & ? & ? & ? & Hr). split_and!; try done.
      intros n Hn. apply Hr, Hr1. eapply has_room_le; [done|lia].
Qed.

Lemma merge_spec i i2 : idx_wf mh i -> idx_wf mh i2 -> final i2 = true ->
  has_room i (lenZ (all_pbs i2)) ->
  exists i', merge mh i i2 = Ok i' /\ idx_wf mh i'
    /\ (forall pb, pb ∈ all_pbs i' <-> pb ∈ all_pbs i \/ pb ∈ all_pbs i2)
    /\ (NoDup (all_pbs i) -> NoDup (all_pbs i'))
    /\ packs i' = packs i ++ packs i2
    /\ mixedPacks i' = mixedPacks i ∪ mixedPacks i2 /\ final i' = final i
    /\ idx_ids i' = idx_ids i ++ idx_ids i2 /\ supersedes i' = supersedes i ++ supersedes i2
    /\ (forall n, has_room i (n + lenZ (all_pbs i2)) -> has_room i' n)
    /\ (length (all_pbs i') <= length (all_pbs i) + length (all_pbs i2))%nat.
Proof.
  intros Hwf Hwf2 Hf2 Hroom. unfold merge. rewrite Hf2. cbn [negb fail_if mbind res_bind].
  assert (Hlen : lenZ (all_pbs i2) = lenZ (entries (bt_get (byType i2) InvalidBlob))
    + (lenZ (entries (bt_get (byType i2) DataBlob)) + lenZ (entries (bt_get (byType i2) TreeBlob)))).
  { unfold all_pbs, pbs_of_type. cbn [map allBlobTypes concat].
    rewrite !length_app, !length_map. simpl. lia. }
  set (i0 := with_packs i (packs i ++ packs i2)).
  assert (M0 : merging (packs i) i2 i0 (all_pbs i) []).
  { split; [by apply with_packs_wf|done| | |]; unfold i0; rewrite with_packs_pbs with (mh := mh) by done; [|done|lia].
    intros pb. split; [auto|]. intros [?|?%elem_of_nil]; done. }
  assert (Hr0 : forall n, has_room i n -> has_room i0 n) by done.
  assert (Hi0 : final i0 = final i /\ idx_ids i0 = idx_ids i /\ supersedes i0 = supersedes i
    /\ mixedPacks i0 = mixedPacks i) by done. destruct Hi0 as (F1 & F2 & F3 & F4).
  destruct (merge_type_spec (packs i) i2 i0 _ _ InvalidBlob Hwf2 M0) as (i1 & E1 & M1 & ? & ? & ? & ? & ? & Hr1).
  { apply Hr0. eapply has_room_le; [done|lia]. }
  destruct (merge_type_spec (packs i) i2 i1 _ _ DataBlob Hwf2 M1) as (i2' & E2 & M2 & ? & ? & ? & ? & ? & Hr2).
  { apply Hr1, Hr0. eapply has_room_le; [done|lia]. }
  destruct (merge_type_spec (packs i) i2 i2' _ _ TreeBlob Hwf2 M2) as (i3 & E3 & M3 & ? & ? & ? & ? & ? & Hr3).
  { apply Hr2, Hr1, Hr0. eapply has_room_le; [done|lia]. }
  cbn [fold_left allBlobTypes]. cbn [mbind res_bind] in *. rewrite E1. cbn [mbind res_bind].
  rewrite E2. cbn [mbind res_bind]. rewrite E3. cbn [mbind res_bind].
  eexists. split; [done|]. destruct M3 as [Hw3 Hpk3 Hel3 Hnd3 Hln3]. split; [exact Hw3|].
  split.
  { intros pb. change (all_pbs (mkIndex _ _ _ _ _ _ _ _)) with (all_pbs i3). rewrite Hel3.
    unfold all_pbs at 3. cbn [map allBlobTypes concat app]. by rewrite app_nil_r, <- app_assoc. }
  split; [exact Hnd3|]. cbn [packs mixedPacks final idx_ids supersedes].
  split; [done|]. split.
  { assert (Hmm : mixedPacks i3 = mixedPacks i) by congruence. rewrite Hmm.
    apply fold_insert_union. }
  split; [congruence|].
  split; [congruence|].
  split; [congruence|].
  split; [intros n Hn; apply Hr3, Hr2, Hr1, Hr0; eapply has_room_le; [done|lia]|].
  change (all_pbs (mkIndex _ _ _ _ _ _ _ _)) with (all_pbs i3). etransitivity; [exact Hln3|].
  apply Nat.add_le_mono_l. unfold all_pbs. cbn [map allBlobTypes concat app]. by rewrite app_nil_r, <- app_assoc.
Qed.

End operations.

(** ** Serialization *)

Section serialization.
Context (mh : ID -> Z).

Definition bj_blob (b : blobJSON) : Blob :=
  {| b_handle := {| bh_ID := bj_ID b; bh_Type := bj_Type b |};
     b_Length := bj_Length b; b_Offset := bj_Offset b |}.
Definition pbs_of_pack (p : packJSON) : list PackedBlob :=
  map (fun b => mkPacked (bj_blob b) (pj_ID p)) (pj_Blobs p).
(** The packed blobs a list of JSON packs stands for. *)
Definition pbs_of_packs (ps : list packJSON) : list PackedBlob := concat (map pbs_of_pack ps).

Lemma add_to_pack_list_pbs l packID b :
  pbs_of_packs (add_to_pack_list l packID b) ≡ₚ mkPacked (bj_blob b) packID :: pbs_of_packs l.
Proof.
  unfold pbs_of_packs. induction l as [|p l IH]; simpl; [done|].
  case_bool_decide as Hp; simpl.
  - unfold pbs_of_pack at 1 3. simpl. rewrite map_app, Hp, <- app_assoc. simpl.
    by rewrite Permutation_middle.
  - rewrite IH. by rewrite Permutation_middle.
Qed.

Lemma add_to_pack_list_ids l packID b :
  NoDup (map pj_ID l) -> NoDup (map pj_ID (add_to_pack_list l packID b))
  /\ (forall x, x ∈ map pj_ID (add_to_pack_list l packID b) <-> x = packID \/ x ∈ map pj_ID l).
Proof.
  induction l as [|p l IH]; simpl; intros Hn.
  - split; [repeat constructor; apply not_elem_of_nil|]. intros x.
    rewrite elem_of_cons. tauto.
  - apply NoDup_cons in Hn as [Hp Hn]. case_bool_decide as Hid; simpl.
    + split; [by constructor|]. intros x. rewrite elem_of_cons. subst. tauto.
    + destruct (IH Hn) as [IH1 IH2]. split.
      * constructor; [|done]. rewrite IH2. naive_solver.
      * intros x. rewrite !elem_of_cons, IH2. tauto.
Qed.

(** No entry belongs to the null pack. *)
Definition no_null_pack (i : Index) : Prop := forall pb, pb ∈ all_pbs i -> pb_PackID pb ≠ nullID.

Lemma list_entry_ok (i : Index) t e l : entry_ok (length (packs i)) e ->
  pb_PackID (to_pb (packs i) t e) ≠ nullID ->
  list_entry i t e (Ok l) = Ok (add_to_pack_list l (pb_PackID (to_pb (packs i) t e))
    {| bj_ID := e_id e; bj_Type := t; bj_Offset := e_offset e; bj_Length := e_length e |}).
Proof.
  intros [Hp _] Hnn. unfold list_entry. cbn [mbind res_bind].
  unfold gindex. rewrite bool_decide_eq_true_2 by lia.
  unfold to_pb in *. cbn [pb_PackID] in *.
  destruct (lookup_lt_is_Some_2 (packs i) (Z.to_nat (e_packIndex e)) ltac:(lia)) as [x Hx].
  rewrite Hx in *. cbn [default mbind res_bind] in *. unfold IsNull.
  by rewrite bool_decide_eq_false_2.
Qed.

Lemma list_entries_spec (i : Index) t es l : (forall e, e ∈ es -> entry_ok (length (packs i)) e
        /\ pb_PackID (to_pb (packs i) t e) ≠ nullID) -> NoDup (map pj_ID l) ->
  exists l', fold_left (fun acc e => list_entry i t e acc) es (Ok l) = Ok l'
    /\ pbs_of_packs l' ≡ₚ map (to_pb (packs i) t) es ++ pbs_of_packs l /\ NoDup (map pj_ID l').
Proof.
  revert l. induction es as [|e es IH]; intros l Hes Hn; cbn [fold_left map app]; [by exists l|].
  destruct (Hes e ltac:(apply elem_of_cons; auto)) as [Hok Hnn].
  rewrite list_entry_ok by done.
  edestruct IH as (l' & -> & Hp' & Hn').
  - intros; apply Hes, elem_of_cons; auto.
  - by apply add_to_pack_list_ids.
  - exists l'. split; [done|]. split; [|done]. rewrite Hp', add_to_pack_list_pbs.
    by rewrite <- Permutation_middle.
Qed.

Lemma generatePackList_spec i : idx_wf mh i -> no_null_pack i ->
  exists l, generatePackList i = Ok l /\ pbs_of_packs l ≡ₚ all_pbs i /\ NoDup (map pj_ID l).
Proof.
  intros Hwf Hnull. unfold generatePackList.
  assert (Hes : forall t e, e ∈ entries (bt_get (byType i) t) -> entry_ok (length (packs i)) e
        /\ pb_PackID (to_pb (packs i) t e) ≠ nullID).
  { intros t e He. split; [destruct (Hwf t); auto|]. apply Hnull, elem_of_all_pbs, elem_of_pbs_of_type. by exists e. }
  cbn [fold_left allBlobTypes]. rewrite !foreach_fold.
  destruct (list_entries_spec i InvalidBlob _ [] (Hes InvalidBlob) (NoDup_nil_2)) as (l1 & -> & P1 & N1).
  destruct (list_entries_spec i DataBlob _ l1 (Hes DataBlob) N1) as (l2 & -> & P2 & N2).
  destruct (list_entries_spec i TreeBlob _ l2 (Hes TreeBlob) N2) as (l3 & -> & P3 & N3).
  exists l3. split; [done|]. split; [|done]. rewrite P3, P2, P1.
  unfold all_pbs, pbs_of_type. cbn [map allBlobTypes concat].
  change (pbs_of_packs []) with (@nil PackedBlob). rewrite !app_nil_r.
  rewrite (Permutation_app_comm (map _ _)), <- app_assoc.
  rewrite (Permutation_app_comm (map _ (entries (bt_get _ DataBlob)))), <- app_assoc.
  by apply Permutation_app_head, Permutation_app_comm.
Qed.

Lemma decode_fold bs i0 q : fold_left (fun acc b => i ← acc; store mh i q
      {| b_handle := {| bh_ID := bj_ID b; bh_Type := bj_Type b |};
         b_Length := bj_Length b; b_Offset := bj_Offset b |}) bs (Ok i0)
    = store_all mh i0 q (map bj_blob bs).
Proof.
  revert i0. induction bs as [|b bs IH]; intros i0; [done|]. cbn [fold_left map store_all mbind res_bind].
  change (store mh i0 q (bj_blob b)) with (store mh i0 q
    {| b_handle := {| bh_ID := bj_ID b; bh_Type := bj_Type b |};
       b_Length := bj_Length b; b_Offset := bj_Offset b |}).
  destruct (store mh i0 q _) as [i1|e|m]; [apply IH| |];
    (clear; induction bs as [|b bs IH]; [done|exact IH]).
Qed.

(** A pack is mixed when it lists blobs of both kinds. *)
Definition mixed (p : packJSON) : bool :=
  existsb (fun b => bool_decide (bj_Type b = DataBlob)) (pj_Blobs p)
  && existsb (fun b => bool_decide (bj_Type b = TreeBlob)) (pj_Blobs p).

Lemma decode_pack_spec i p : idx_wf mh i -> has_room i (lenZ (pj_Blobs p)) ->
  Forall (fun b => fits32 (bj_blob b)) (pj_Blobs p) ->
  exists i', decode_pack mh i p = Ok i' /\ idx_wf mh i'
    /\ all_pbs i' ≡ₚ pbs_of_pack p ++ all_pbs i
    /\ mixedPacks i' = (if mixed p then {[pj_ID p]} ∪ mixedPacks i else mixedPacks i)
    /\ packs i' = packs i ++ [pj_ID p]
    /\ final i' = final i /\ idx_ids i' = idx_ids i
    /\ (forall n, has_room i (n + lenZ (pj_Blobs p)) -> has_room i' n).
Proof.
  intros Hwf Hroom Hfit. unfold decode_pack. cbn [addToPacks].
  rewrite decode_fold.
  destruct (store_all_spec mh (with_packs i (packs i ++ [pj_ID p])) (lenZ (packs i))
    (map bj_blob (pj_Blobs p)) (packs i ++ [pj_ID p]))
    as (i' & -> & Hwf' & Hp' & Hps' & Hf' & Hm' & Hi' & Hs' & Hr'); try done.
  - by apply with_packs_wf.
  - by rewrite length_map.
  - by apply Forall_map.
  - rewrite length_app. simpl. lia.
  - cbn [mbind res_bind]. fold (mixed p). rewrite length_map in Hr'. eexists. split; [done|].
    rewrite with_packs_pbs with (mh := mh), Nat2Z.id, map_map in Hp' by done.
    rewrite lookup_app_r, Nat.sub_diag in Hp' by lia. cbn [lookup list_lookup default] in Hp'.
    cbn [with_packs mixedPacks] in Hm'.
    destruct (mixed p); (split; [exact Hwf'|]; split; [exact Hp'|]; split; [|split_and!; done]);
      cbn [mixedPacks]; by rewrite Hm'.
Qed.

(** The packs with data and tree blobs of a list of JSON packs. *)
Definition mixed_of (ps : list packJSON) : list ID := map pj_ID (List.filter mixed ps).

Lemma decode_packs_fold ps i : idx_wf mh i ->
  has_room i (lenZ (pbs_of_packs ps)) ->
  Forall (fun p => Forall (fun b => fits32 (bj_blob b)) (pj_Blobs p)) ps ->
  exists i', fold_left (fun acc p => i ← acc; decode_pack mh i p) ps (Ok i) = Ok i' /\ idx_wf mh i'
    /\ all_pbs i' ≡ₚ pbs_of_packs ps ++ all_pbs i
    /\ (forall x, x ∈ mixedPacks i' <-> x ∈ mixedPacks i \/ x ∈ mixed_of ps)
    /\ packs i' = packs i ++ map pj_ID ps /\ idx_ids i' = idx_ids i.
Proof.
  intros Hwf Hroom Hfit. revert i Hwf Hroom. unfold pbs_of_packs, mixed_of.
  induction Hfit as [|p ps Hp Hfit IH]; intros i Hwf Hroom; cbn [fold_left map concat List.filter app] in *.
  { exists i. rewrite app_nil_r. split_and!; try done. intros x. rewrite elem_of_nil. tauto. }
  rewrite length_app in Hroom. unfold pbs_of_pack at 1 in Hroom. rewrite length_map in Hroom.
  destruct (decode_pack_spec i p Hwf) as (i1 & E1 & Hwf1 & Hp1 & Hm1 & Hk1 & Hf1 & Hi1 & Hr1); [|done|].
  { eapply has_room_le; [done|lia]. }
  destruct (IH i1 Hwf1) as (i' & E' & Hwf' & Hp' & Hm' & Hk' & Hi').
  { apply Hr1. eapply has_room_le; [done|lia]. }
  exists i'. cbn [mbind res_bind]. rewrite E1. split; [done|]. split; [done|]. split.
  { rewrite Hp', Hp1, !app_assoc. apply Permutation_app_tail, Permutation_app_comm. }
  split; [|split; [by rewrite Hk', Hk1, <- app_assoc|congruence]].
  intros x. rewrite Hm', Hm1. destruct (mixed p); [|tauto]. cbn [map].
  rewrite elem_of_union, elem_of_singleton, elem_of_cons. tauto.
Qed.

Lemma elem_of_pbs_of_packs ps pb :
  pb ∈ pbs_of_packs ps <-> exists p b, p ∈ ps /\ b ∈ pj_Blobs p /\ pb = mkPacked (bj_blob b) (pj_ID p).
Proof.
  unfold pbs_of_packs, pbs_of_pack. rewrite elem_of_concat. split.
  - intros (l & (p & -> & Hp)%list_elem_of_fmap & (b & -> & Hb)%list_elem_of_fmap). eauto.
  - intros (p & b & Hp & Hb & ->). exists (map (fun b => mkPacked (bj_blob b) (pj_ID p)) (pj_Blobs p)).
    split; apply list_elem_of_fmap; [by exists p | by exists b].
Qed.

Lemma pj_ID_inj ps p q : NoDup (map pj_ID ps) -> p ∈ ps -> q ∈ ps -> pj_ID p = pj_ID q -> p = q.
Proof.
  intros Hn (m & Hm)%list_elem_of_lookup (n & Hq)%list_elem_of_lookup Heq.
  assert (m = n); [|by simplify_eq].
  eapply NoDup_lookup; [exact Hn|apply list_lookup_fmap_Some; eauto..].
Qed.

Lemma mixed_blob_pbs ps x t : NoDup (map pj_ID ps) -> forall p, p ∈ ps -> pj_ID p = x ->
  existsb (fun b => bool_decide (bj_Type b = t)) (pj_Blobs p) = true
  <-> exists pb, pb ∈ pbs_of_packs ps /\ pb_PackID pb = x /\ b_Type (pb_Blob pb) = t.
Proof.
  intros Hn p Hp <-. rewrite existsb_exists. split.
  - intros (b & Hb%list_elem_of_In & Ht). bool_norm. exists (mkPacked (bj_blob b) (pj_ID p)).
    split; [|done]. apply elem_of_pbs_of_packs. eauto 6.
  - intros (pb & (q & b & Hq & Hb & ->)%elem_of_pbs_of_packs & Hid & Ht). simpl in Hid.
    rewrite (pj_ID_inj ps q p Hn Hq Hp Hid) in *. exists b. split; [by apply list_elem_of_In|].
    by apply bool_decide_eq_true.
Qed.

Definition has_blob_of (pbs : list PackedBlob) (x : ID) (t : BlobType) : Prop :=
  exists pb, pb ∈ pbs /\ pb_PackID pb = x /\ b_Type (pb_Blob pb) = t.

Lemma elem_of_mixed_of ps x : NoDup (map pj_ID ps) ->
  x ∈ mixed_of ps <-> has_blob_of (pbs_of_packs ps) x DataBlob /\ has_blob_of (pbs_of_packs ps) x TreeBlob.
Proof.
  intros Hn. unfold mixed_of. rewrite list_elem_of_fmap. split.
  - intros (p & -> & (Hp & [? ?]%andb_true_iff)%list_elem_of_In%filter_In).
    apply list_elem_of_In in Hp. split; by eapply (mixed_blob_pbs ps _ _ Hn p).
  - intros [HD HT]. pose proof HD as (pb & (p & b & Hp & _ & ->)%elem_of_pbs_of_packs & Hx & _).
    simpl in Hx. exists p. split; [done|]. apply list_elem_of_In, filter_In.
    split; [by apply list_elem_of_In|]. apply andb_true_iff.
    split; by eapply (mixed_blob_pbs ps _ _ Hn p).
Qed.

End serialization.

(** ** Grouping by pack *)

Section grouping.
Context (mh : ID -> Z).

Definition pack_of (i : Index) (e : indexEntry) : ID := default nullID (packs i !! Z.to_nat (e_packIndex e)).
(** The entries [EachByPack] does not skip. *)
Definition wanted (i : Index) (bl : IDSet) (x : ID) : Prop := final i = true -> x ∉ bl.
#[export] Instance wanted_dec i bl x : Decision (wanted i bl x).
Proof. unfold wanted. apply _. Defined.

Definition flat (m : gmap ID (list indexEntry)) : list indexEntry := concat (map snd (map_to_list m)).

Definition groups_ok (i : Index) (m : gmap ID (list indexEntry)) : Prop :=
  forall x es, m !! x = Some es -> es ≠ [] /\ forall e, e ∈ es -> entry_ok (length (packs i)) e /\ pack_of i e = x.

Lemma flat_insert m x e : flat (<[x := default [] (m !! x) ++ [e]]> m) ≡ₚ e :: flat m.
Proof.
  unfold flat. destruct (m !! x) as [es|] eqn:E; cbn [default].
  - rewrite <- (insert_id m x es E) at 2. rewrite <- !(insert_delete_eq m x).
    rewrite !map_to_list_insert by apply lookup_delete_eq. simpl. rewrite <- app_assoc. simpl.
    by rewrite <- Permutation_middle.
  - by rewrite map_to_list_insert.
Qed.

Lemma group_entry_ok i bl e m : entry_ok (length (packs i)) e -> groups_ok i m ->
  exists m', group_entry i bl e (Ok m) = Ok m' /\ groups_ok i m'
    /\ flat m' ≡ₚ (if decide (wanted i bl (pack_of i e)) then [e] else []) ++ flat m.
Proof.
  intros Hok Hm. unfold group_entry. cbn [mbind res_bind].
  assert (Hg : gindex (packs i) (e_packIndex e) = Ok (E := index_error) (pack_of i e)).
  { destruct Hok as [Hp _]. unfold gindex, pack_of. rewrite bool_decide_eq_true_2 by lia.
    by destruct (lookup_lt_is_Some_2 (packs i) (Z.to_nat (e_packIndex e)) ltac:(lia)) as [x ->]. }
  rewrite Hg. cbn [mbind res_bind].
  assert (Hw : negb (final i) || negb (IDSet_Has bl (pack_of i e)) = bool_decide (wanted i bl (pack_of i e))).
  { unfold wanted, IDSet_Has. apply eq_true_iff_eq.
    rewrite orb_true_iff, !negb_true_iff, bool_decide_eq_true, bool_decide_eq_false.
    destruct (final i); naive_solver. }
  rewrite Hw. case_bool_decide as HW; [rewrite decide_True by done | rewrite decide_False by done];
    (eexists; split; [done|]; split; [|first [apply flat_insert|done]]); [|done].
  intros x es Hx. apply lookup_insert_Some in Hx as [[<- <-]|[Hne Hx]]; [|by apply Hm].
  split; [by destruct (default [] _)|]. intros e' He'. apply elem_of_app in He' as [He'|He'].
  - destruct (m !! pack_of i e) as [es|] eqn:E; [|by apply elem_of_nil in He']. by apply (Hm _ es).
  - apply list_elem_of_singleton in He' as ->. done.
Qed.

Lemma group_entries_ok i bl es m : (forall e, e ∈ es -> entry_ok (length (packs i)) e) -> groups_ok i m ->
  exists m', fold_left (fun acc e => group_entry i bl e acc) es (Ok m) = Ok m' /\ groups_ok i m'
    /\ flat m' ≡ₚ filter (fun e => wanted i bl (pack_of i e)) es ++ flat m.
Proof.
  revert m. induction es as [|e es IH]; intros m Hes Hm; cbn [fold_left]; [by exists m|].
  destruct (group_entry_ok i bl e m) as (m1 & -> & Hm1 & Hf1); [apply Hes, elem_of_cons; auto|done|].
  destruct (IH m1) as (m2 & -> & Hm2 & Hf2); [intros; apply Hes, elem_of_cons; auto|done|].
  exists m2. split; [done|]. split; [done|]. rewrite Hf2, Hf1, filter_cons.
  destruct (decide _); simpl; by rewrite <- ?Permutation_middle.
Qed.

Lemma pack_blobs_ok i t es : (forall e, e ∈ es -> entry_ok (length (packs i)) e) ->
  pack_blobs i t es = Ok (map (fun e => pb_Blob (to_pb (packs i) t e)) es).
Proof.
  unfold pack_blobs.
  assert (HG : forall acc, (forall e, e ∈ es -> entry_ok (length (packs i)) e) ->
    fold_left (fun acc e => bs ← acc; pb ← toPackedBlob i e t; Ok (bs ++ [pb_Blob pb])) es (Ok acc)
    = Ok (acc ++ map (fun e => pb_Blob (to_pb (packs i) t e)) es)).
  { induction es as [|e es' IH]; intros acc Hes; simpl; [by rewrite app_nil_r|].
    rewrite toPackedBlob_ok by (apply Hes, elem_of_cons; auto). cbn [mbind res_bind].
    rewrite IH by (intros; apply Hes, elem_of_cons; auto). by rewrite <- app_assoc. }
  apply (HG []).
Qed.

(** What the consumer of the channel gets, as packed blobs. *)
Definition item_pbs (it : ID * list Blob) : list PackedBlob := map (fun b => mkPacked b it.1) it.2.

Lemma send_packs_ok i t (l : list (ID * list indexEntry)) out :
  (forall x es, (x, es) ∈ l -> forall e, e ∈ es -> entry_ok (length (packs i)) e) ->
  send_packs i t l out = Ok (out ++ map (fun '(x, es) => (x, map (fun e => pb_Blob (to_pb (packs i) t e)) es)) l).
Proof.
  unfold send_packs. revert out.
  induction l as [|[x es] l IH]; intros out Hl; cbn [fold_left map]; [by rewrite app_nil_r|].
  cbn [mbind res_bind] in *. rewrite pack_blobs_ok by (apply (Hl x), elem_of_cons; auto).
  cbn [mbind res_bind]. rewrite IH, <- app_assoc; [done|]. intros y es' Hin. apply (Hl y). apply elem_of_cons; auto.
Qed.

(** A pack is announced at most once per type, with its blobs. *)
Record items_ok (i : Index) (out : list (ID * list Blob)) (pbs : list PackedBlob) : Prop := {
  io_flat : concat (map item_pbs out) ≡ₚ pbs;
  io_items : forall x bs, (x, bs) ∈ out -> bs ≠ [];
}.

Lemma send_packs_items `{MapOrderLaws} i t m out pbs : groups_ok i m -> items_ok i out pbs ->
  exists l, send_packs i t (range_order _ m) out = Ok (out ++ l)
    /\ items_ok i (out ++ l) (pbs ++ map (to_pb (packs i) t) (flat m))
    /\ NoDup (map fst l) /\ (forall x bs, (x, bs) ∈ l -> forall b, b ∈ bs -> b_Type b = t).
Proof.
  intros Hm [Hf Hi].
  pose proof (range_order_perm _ m) as Hr.
  assert (Hin : forall x es, (x, es) ∈ range_order _ m -> m !! x = Some es).
  { intros x es Hx. rewrite Hr in Hx. by apply elem_of_map_to_list in Hx. }
  rewrite send_packs_ok by (intros x es Hx; by apply (Hm x es), Hin).
  eexists. split; [done|]. split; [split|split].
  - rewrite map_app, concat_app, Hf. apply Permutation_app_head.
    unfold flat. rewrite <- Hr. rewrite map_map. revert Hin. generalize (range_order _ m) as l.
    induction l as [|[x es] l IH]; intros Hin; [done|]. cbn [map concat snd]. rewrite map_app, IH.
    + apply Permutation_app_tail. unfold item_pbs. cbn [fst snd]. rewrite map_map.
      erewrite map_ext_in; [done|]. intros e He%list_elem_of_In.
      destruct (Hm x es) as [_ Hes]; [apply Hin, elem_of_cons; auto|]. unfold to_pb.
      destruct (Hes e He) as [_ <-]. done.
    + intros y es' Hy. apply Hin, elem_of_cons. auto.
  - intros x bs [Hx|Hx]%elem_of_app; [by apply (Hi x)|].
    apply list_elem_of_fmap in Hx as ([y es] & [= -> ->] & Hy). apply Hin, Hm in Hy as [Hne _].
    by destruct es.
  - assert (Hfst : map fst (map (fun '(x, es) => (x, map (fun e => pb_Blob (to_pb (packs i) t e)) es)) (range_order _ m))
      = (range_order _ m).*1) by (rewrite map_map; apply map_ext; by intros [x es]).
    rewrite Hfst, Hr. apply NoDup_fst_map_to_list.
  - intros x bs Hx b Hb. apply list_elem_of_fmap in Hx as ([y es] & [= -> ->] & Hy).
    apply list_elem_of_fmap in Hb as (e & -> & _). done.
Qed.

(** The pack and the blob type an item of [EachByPack] is about. *)
Definition item_key (it : ID * list Blob) : ID * option BlobType := (it.1, b_Type <$> head it.2).

Lemma item_keys_NoDup (l : list (ID * list Blob)) t : NoDup (map fst l) ->
  (forall x bs, (x, bs) ∈ l -> bs ≠ [] /\ forall b, b ∈ bs -> b_Type b = t) ->
  NoDup (map item_key l) /\ forall k, k ∈ map item_key l -> k.2 = Some t.
Proof.
  intros Hn Ht.
  assert (Hk : map item_key l = map (fun x => (x, Some t)) (map fst l)).
  { rewrite map_map. apply map_ext_in. intros [x bs] Hin%list_elem_of_In.
    destruct (Ht x bs Hin) as [Hne Hb]. destruct bs as [|b bs]; [done|].
    unfold item_key; simpl. by rewrite (Hb b) by (apply elem_of_cons; auto). }
  rewrite Hk. split.
  - by apply (NoDup_fmap_2 (fun x => (x, Some t))).
  - by intros k (x & -> & _)%list_elem_of_fmap.
Qed.

(** The body of [EachByPack]'s loop over the types. *)
Lemma each_types_ok `{MapOrderLaws} i bl (Hwf : idx_wf mh i) ts : forall out pbs, NoDup ts -> items_ok i out pbs ->
  (forall x bs b, (x, bs) ∈ out -> b ∈ bs -> b_Type b ∉ ts) -> NoDup (map item_key out) ->
  (forall x bs, (x, bs) ∈ out -> exists t, forall b, b ∈ bs -> b_Type b = t) ->
  exists out', fold_left (fun acc typ => out ← acc; EachByPack_type i bl typ out) ts (Ok out) = Ok out'
  /\ items_ok i out' (pbs ++ concat (map (fun t =>
       map (to_pb (packs i) t) (filter (fun e => wanted i bl (pack_of i e)) (entries (bt_get (byType i) t)))) ts))
  /\ NoDup (map item_key out')
  /\ (forall x bs, (x, bs) ∈ out' -> exists t, forall b, b ∈ bs -> b_Type b = t).
Proof.
  induction ts as [|t ts IH]; intros out pbs Hts Hout Hdis Hnd Hone; cbn [fold_left map concat].
  { exists out. by rewrite app_nil_r. }
  apply NoDup_cons in Hts as [Ht Hts].
  destruct (group_entries_ok i bl (entries (bt_get (byType i) t)) ∅) as (m & Hm & Hok & Hflat).
  { destruct (Hwf t); auto. } { by intros x es ?%lookup_empty_Some. }
  destruct (send_packs_items i t m out pbs Hok Hout) as (l & HE & Hout' & Hndl & Htl).
  assert (HT : EachByPack_type i bl t out = Ok (out ++ l)).
  { unfold EachByPack_type. rewrite foreach_fold, Hm. exact HE. }
  cbn [mbind res_bind] in *. rewrite HT.
  assert (Hkeys : NoDup (map item_key l) /\ forall k, k ∈ map item_key l -> k.2 = Some t).
  { apply item_keys_NoDup; [done|]. intros x bs Hin. split; [|by apply (Htl x)].
    apply (io_items _ _ _ Hout' x). apply elem_of_app; auto. }
  destruct (IH (out ++ l) (pbs ++ map (to_pb (packs i) t) (flat m)) Hts Hout') as (out' & HE' & Hio & Hrest).
  - intros x bs b [Hin|Hin]%elem_of_app Hb; [|by rewrite (Htl x bs Hin b Hb)].
    specialize (Hdis x bs b Hin Hb). rewrite elem_of_cons in Hdis. tauto.
  - rewrite map_app. apply NoDup_app. split; [done|]. split; [|apply Hkeys].
    intros k Hk Hkl. apply Hkeys in Hkl.
    apply list_elem_of_fmap in Hk as ([x bs] & -> & Hin). unfold item_key in Hkl. simpl in Hkl.
    destruct bs as [|b bs]; [done|]. injection Hkl as Hb.
    apply (Hdis x (b :: bs) b Hin); [apply elem_of_cons; auto|]. rewrite Hb. apply elem_of_cons; auto.
  - intros x bs [Hin|Hin]%elem_of_app; [by apply (Hone x)|]. exists t. by apply (Htl x).
  - exists out'. split; [done|]. split; [|done]. destruct Hio as [Hf Hi]. split; [|done].
    rewrite Hf, Hflat. unfold flat. rewrite map_to_list_empty, app_nil_r. by rewrite <- app_assoc.
Qed.

Lemma EachByPack_ok `{MapOrderLaws} i bl : idx_wf mh i ->
  exists out, EachByPack i bl = Ok out
    /\ items_ok i out (filter (fun pb => wanted i bl (pb_PackID pb)) (all_pbs i))
    /\ NoDup (map item_key out)
    /\ (forall x bs, (x, bs) ∈ out -> exists t, forall b, b ∈ bs -> b_Type b = t).
Proof.
  intros Hwf. destruct (each_types_ok i bl Hwf allBlobTypes [] []) as (out & HE & [Hf Hi] & Hnd & Hone).
  - repeat constructor; set_solver.
  - split; [done|]. by intros x bs ?%elem_of_nil.
  - by intros x bs b ?%elem_of_nil.
  - constructor.
  - by intros x bs ?%elem_of_nil.
  - exists out. split; [done|]. split; [|done]. split; [|done].
    rewrite Hf. unfold all_pbs. cbn [app]. generalize allBlobTypes as ts.
    induction ts as [|t ts IH]; [done|]. cbn [map concat]. rewrite filter_app, IH.
    apply Permutation_app_tail. unfold pbs_of_type.
    by rewrite (filter_map_comm _ _ (fun e => wanted i bl (pack_of i e))).
Qed.

End grouping.

(** ** Properties *)

Section properties.
Context (mh : ID -> Z).

(** C19: writing an index and reading it back.  For a well-formed index
    without null packs and untyped blobs, [encode] succeeds, [DecodeIndex]
    accepts its output as the current format, and the decoded index is well
    formed and final, knows exactly the same packed blobs with their
    multiplicities, carries the given ID and the same superseded IDs, and its
    set of mixed packs is exactly the packs holding both data and tree
    blobs. *)
Theorem index_serialization_roundtrip `{IndexCodecLaws} (now : Z) (i : Index) (id : ID) :
  idx_wf mh i -> no_null_pack i -> lenZ (all_pbs i) <= 2 ^ 60 ->
  Forall (fun pb => b_Type (pb_Blob pb) ≠ InvalidBlob) (all_pbs i) ->
  exists buf i', encode i = Ok buf /\ DecodeIndex mh now buf id = Ok (i', false)
    /\ idx_wf mh i' /\ all_pbs i' ≡ₚ all_pbs i
    /\ final i' = true /\ idx_ids i' = [id] /\ Supersedes i' = Supersedes i
    /\ forall x, x ∈ MixedPacks i' <->
         has_blob_of (all_pbs i) x DataBlob /\ has_blob_of (all_pbs i) x TreeBlob.
Proof.
  intros Hwf Hnull Hlen Htyp. destruct (generatePackList_spec mh i Hwf Hnull) as (l & Hl & Hp & Hn).
  assert (Hpk : forall p b, p ∈ l -> b ∈ pj_Blobs p -> mkPacked (bj_blob b) (pj_ID p) ∈ all_pbs i).
  { intros p b Hpl Hb. rewrite <- Hp. apply elem_of_pbs_of_packs. eauto. }
  assert (Hok : jsonIndex_ok {| ji_Supersedes := supersedes i; ji_Packs := l |}).
  { apply Forall_forall. intros p Hpl. apply Forall_forall. intros b Hb.
    rewrite Forall_forall in Htyp. specialize (Htyp _ (Hpk p b Hpl Hb)).
    unfold blobJSON_ok. simpl in Htyp. unfold b_Type in Htyp. simpl in Htyp. by destruct (bj_Type b). }
  assert (Hm : marshalable {| ji_Supersedes := supersedes i; ji_Packs := l |} = true).
  { apply forallb_forall. intros p Hpl%list_elem_of_In. apply forallb_forall. intros b Hb%list_elem_of_In.
    unfold jsonIndex_ok in Hok. rewrite Forall_forall in Hok. specialize (Hok p Hpl).
    rewrite Forall_forall in Hok. specialize (Hok b Hb). unfold blobJSON_ok in Hok.
    by destruct (BlobType_MarshalJSON _). }
  destruct (decode_packs_fold mh l (NewIndex now) (NewIndex_wf mh now)) as (i' & HE & Hwf' & Hp' & Hm' & _ & Hi').
  { intros t. rewrite Hp. by destruct t. }
  { apply Forall_forall. intros p Hpl. apply Forall_forall. intros b Hb.
    apply (Hpk p b Hpl), elem_of_all_pbs, elem_of_pbs_of_type in Hb as (e & He & Heq).
    destruct (Hwf (b_Type (bj_blob b))) as [_ Hent]. apply Hent in He as (_ & Ho & Hle).
    apply (f_equal pb_Blob) in Heq. cbn [pb_Blob] in Heq. unfold fits32. by rewrite Heq. }
  unfold encode. rewrite Hl. cbn [mbind res_bind]. rewrite Hm. eexists. eexists. split; [done|].
  unfold DecodeIndex. rewrite json_decode_encode by done. cbn [ji_Packs ji_Supersedes].
  unfold decode_packs. cbn [mbind res_bind] in *. rewrite HE. split; [done|]. split; [exact Hwf'|].
  rewrite app_nil_r, Hp in Hp'. split; [exact Hp'|]. cbn [final idx_ids Supersedes supersedes MixedPacks mixedPacks].
  split; [done|]. split; [by rewrite Hi'|]. split; [done|]. intros x. rewrite Hm', elem_of_mixed_of by done.
  assert (Hhb : forall t, has_blob_of (pbs_of_packs l) x t <-> has_blob_of (all_pbs i) x t)
    by (intros t; unfold has_blob_of; by setoid_rewrite Hp).
  rewrite !Hhb. split; [by intros [?%elem_of_empty|?]|auto].
Qed.

(** [StorePack] on an index that is not final makes the pack's blobs, and
    nothing else, new to every query: [Lookup] and [ListPack] return the old
    answers and the new packed blobs, [Has] holds exactly when a packed blob
    with that handle exists, [LookupSize] agrees with [Has] and returns the
    plaintext size of a known copy, [Packs] gains the pack. *)
Theorem StorePack_Lookup (i : Index) (id : ID) (blobs : list Blob) (bh : BlobHandle) :
  idx_wf mh i -> has_room i (lenZ blobs) -> Forall fits32 blobs -> final i = false ->
  exists i' old new,
    StorePack mh i id blobs = Ok i' /\ idx_wf mh i'
    /\ Lookup mh i bh [] = Ok old /\ Lookup mh i' bh [] = Ok new
    /\ new ≡ₚ filter (fun pb => b_handle (pb_Blob pb) = bh) (map (fun b => mkPacked b id) blobs) ++ old
    /\ (Has mh i' bh = true <-> Has mh i bh = true \/ exists b, b ∈ blobs /\ b_handle b = bh)
    /\ (Has mh i' bh = true ->
        exists pb, pb ∈ new /\ LookupSize mh i' bh = (u64 (PlaintextLength (b_Length (pb_Blob pb))), true))
    /\ (Has mh i' bh = false -> new = [] /\ LookupSize mh i' bh = (0, false))
    /\ Packs i' = {[id]} ∪ Packs i.
Proof.
  intros Hwf Hroom Hfit Hf. destruct (StorePack_spec mh i id blobs Hwf Hroom Hfit Hf)
    as (i' & HE & Hwf' & Hp & Hk & _).
  pose proof (Lookup_spec mh i bh [] Hwf) as HL. pose proof (Lookup_spec mh i' bh [] Hwf') as HL'.
  cbn [app] in HL, HL'. eexists i', _, _. split; [done|]. split; [done|]. split; [done|]. split; [done|].
  split; [by rewrite !Lookup_filter, Hp, filter_app|]. split; [|split; [|split]].
  - rewrite !Has_spec by done. setoid_rewrite Hp. split.
    + intros (pb & [Hin|Hin]%elem_of_app & Hh); [|left; by exists pb].
      apply list_elem_of_fmap in Hin as (b & -> & Hb). right. by exists b.
    + intros [(pb & Hin & Hh)|(b & Hb & Hh)].
      * exists pb. split; [|done]. apply elem_of_app. by right.
      * exists (mkPacked b id). split; [|done]. apply elem_of_app. left.
        apply list_elem_of_fmap. by exists b.
  - unfold Has, LookupSize. rewrite get_spec by apply Hwf'.
    generalize (entries_of mh (bt_get (byType i') (bh_Type bh)) (bh_ID bh)) as es.
    intros [|e es]; [discriminate|]. intros _.
    exists (to_pb (packs i') (bh_Type bh) e). split; [apply elem_of_cons; by left|]. done.
  - unfold Has, LookupSize. rewrite get_spec by apply Hwf'.
    generalize (entries_of mh (bt_get (byType i') (bh_Type bh)) (bh_ID bh)) as es.
    by intros [|e es].
  - unfold Packs. rewrite Hk, fold_left_app. done.
Qed.

(** merging a final index into another one is a union without
    duplicates: the result knows a packed blob if and only if one of the two
    did, an index without duplicates stays so, and packs, mixed packs, IDs and
    superseded IDs are those of both. *)
Theorem merge_union (i i2 : Index) :
  idx_wf mh i -> idx_wf mh i2 -> final i2 = true -> has_room i (lenZ (all_pbs i2)) ->
  exists i', merge mh i i2 = Ok i' /\ idx_wf mh i'
    /\ (forall pb, pb ∈ all_pbs i' <-> pb ∈ all_pbs i \/ pb ∈ all_pbs i2)
    /\ (NoDup (all_pbs i) -> NoDup (all_pbs i'))
    /\ (forall bh, Has mh i' bh = Has mh i bh || Has mh i2 bh)
    /\ Packs i' = Packs i ∪ Packs i2 /\ MixedPacks i' = MixedPacks i ∪ MixedPacks i2
    /\ idx_ids i' = idx_ids i ++ idx_ids i2 /\ Supersedes i' = Supersedes i ++ Supersedes i2.
Proof.
  intros Hwf Hwf2 Hf2 Hroom.
  destruct (merge_spec mh i i2 Hwf Hwf2 Hf2 Hroom) as (i' & HE & Hwf' & Hel & Hnd & Hk & Hm & _ & Hi & Hs & _).
  exists i'. split_and!; try done.
  - intros bh. apply eq_true_iff_eq. rewrite orb_true_iff, !Has_spec by done. setoid_rewrite Hel. naive_solver.
  - unfold Packs. rewrite Hk, fold_left_app. apply set_eq. intros x. unfold IDSet_Insert.
    rewrite fold_insert, elem_of_union, !fold_insert. set_solver.
Qed.

(** [EachByPack] sends every packed blob exactly once, grouped: for a
    final index those whose pack is not blacklisted, for an index under
    construction all of them.  No group is empty, a group has one blob type,
    and no two groups have the same pack and type. *)
Theorem EachByPack_spec `{MapOrderLaws} (i : Index) (bl : IDSet) : idx_wf mh i ->
  exists out, EachByPack i bl = Ok out
    /\ concat (map item_pbs out) ≡ₚ filter (fun pb => final i = true -> pb_PackID pb ∉ bl) (all_pbs i)
    /\ (forall x bs, (x, bs) ∈ out -> exists b rest, bs = b :: rest /\ forall b', b' ∈ bs -> b_Type b' = b_Type b)
    /\ NoDup (map item_key out).
Proof.
  intros Hwf. destruct (EachByPack_ok mh i bl Hwf) as (out & HE & [Hf Hi] & Hnd & Hone).
  exists out. split; [done|]. split; [|split; [|done]].
  - rewrite Hf. by apply Permutation_refl', list_filter_iff.
  - intros x bs Hin. destruct (Hone x bs Hin) as [t Ht]. specialize (Hi x bs Hin).
    destruct bs as [|b bs]; [done|]. exists b, bs. split; [done|]. intros b' Hb'.
    rewrite (Ht b'), (Ht b); [done|apply elem_of_cons; auto|done].
Qed.

End properties.

(** ** A concrete instance *)

#[global] Instance blobJSON_eq_dec : EqDecision blobJSON.
Proof. solve_decision. Defined.
#[global] Instance blobJSON_countable : Countable blobJSON.
Proof.
  refine (inj_countable' (fun b => (bj_ID b, bj_Type b, bj_Offset b, bj_Length b))
    (fun '(i, t, o, l) => mkBlobJSON i t o l) _). by intros [].
Defined.
#[global] Instance packJSON_eq_dec : EqDecision packJSON.
Proof. solve_decision. Defined.
#[global] Instance packJSON_countable : Countable packJSON.
Proof.
  refine (inj_countable' (fun p => (pj_ID p, pj_Blobs p)) (fun '(i, bs) => mkPackJSON i bs) _). by intros [].
Defined.
#[global] Instance jsonIndex_eq_dec : EqDecision jsonIndex.
Proof. solve_decision. Defined.
#[global] Instance jsonIndex_countable : Countable jsonIndex.
Proof.
  refine (inj_countable' (fun v => (ji_Supersedes v, ji_Packs v)) (fun '(s, ps) => mkJsonIndex s ps) _).
  by intros [].
Defined.

Definition toy_codec : IndexCodec := {|
  json_encode := count_encode;
  json_decode l := match count_decode l with Some v => inl v | None => inr (mkJsonError false) end;
  json_decode_old l := match count_decode l with Some v => inl v | None => inr (mkJsonError false) end;
|}.
Lemma toy_codec_laws : @IndexCodecLaws toy_codec.
Proof. split. intros v _. cbn [json_decode json_encode toy_codec]. by rewrite count_decode_encode. Qed.

Definition toy_order : MapOrder := {| range_order A m := map_to_list m |}.
Lemma toy_order_laws : @MapOrderLaws toy_order.
Proof. done. Qed.

Definition toy_mh (id : ID) : Z := be_val (take 8 id).

Definition sample_blobs : list Blob :=
  [mkBlob (mkHandle (replicate 32 Byte.x05) DataBlob) 100 0;
   mkBlob (mkHandle (replicate 32 Byte.x06) TreeBlob) 80 100].
Definition sample_index : Index :=
  match StorePack toy_mh (NewIndex 0) sample_id sample_blobs with Ok i => i | _ => NewIndex 0 end.

Lemma sample_index_spec : idx_wf toy_mh sample_index
  /\ all_pbs sample_index ≡ₚ map (fun b => mkPacked b sample_id) sample_blobs
  /\ has_room sample_index 10.
Proof.
  destruct (StorePack_spec toy_mh (NewIndex 0) sample_id sample_blobs) as (i & HE & Hwf & Hp & _ & _ & _ & _ & Hr).
  - apply NewIndex_wf.
  - intros []; by vm_compute.
  - repeat constructor; by vm_compute.
  - done.
  - unfold sample_index. rewrite HE. split; [done|]. split; [by rewrite Hp, NewIndex_pbs, app_nil_r|].
    apply Hr. intros []; by vm_compute.
Qed.

Lemma sample_index_pbs P : Forall P (map (fun b => mkPacked b sample_id) sample_blobs) ->
  Forall P (all_pbs sample_index).
Proof. intros H. destruct sample_index_spec as (_ & Hp & _). by rewrite Hp. Qed.

Lemma index_serialization_roundtrip_witness :
  exists buf i', encode (H := toy_codec) sample_index = Ok buf
    /\ DecodeIndex (H := toy_codec) toy_mh 5 buf nullID = Ok (i', false).
Proof.
  destruct (index_serialization_roundtrip (H0 := toy_codec_laws) toy_mh 5 sample_index nullID)
    as (buf & i' & H1 & H2 & _).
  - apply sample_index_spec.
  - intros pb Hpb. revert pb Hpb. apply Forall_forall, sample_index_pbs. repeat constructor; done.
  - destruct sample_index_spec as (_ & Hp & _). rewrite Hp. by vm_compute.
  - apply sample_index_pbs. repeat constructor; done.
  - exists buf, i'. exact (conj H1 H2).
Defined.

Lemma StorePack_Lookup_witness :
  exists i' old new, StorePack toy_mh sample_index nullID sample_blobs = Ok i'
    /\ Lookup toy_mh sample_index (b_handle (mkBlob (mkHandle (replicate 32 Byte.x05) DataBlob) 100 0)) [] = Ok old
    /\ Lookup toy_mh i' (b_handle (mkBlob (mkHandle (replicate 32 Byte.x05) DataBlob) 100 0)) [] = Ok new.
Proof.
  destruct (StorePack_Lookup toy_mh sample_index nullID sample_blobs
    (b_handle (mkBlob (mkHandle (replicate 32 Byte.x05) DataBlob) 100 0))) as (i' & old & new & H1 & _ & H2 & H3 & _).
  - apply sample_index_spec.
  - eapply has_room_le; [apply sample_index_spec|done].
  - repeat constructor; by vm_compute.
  - by vm_compute.
  - exists i', old, new. exact (conj H1 (conj H2 H3)).
Defined.

Lemma merge_union_witness :
  exists i', merge toy_mh sample_index (Finalize sample_index) = Ok i'
    /\ Packs i' = Packs sample_index ∪ Packs (Finalize sample_index).
Proof.
  destruct (merge_union toy_mh sample_index (Finalize sample_index)) as (i' & H1 & _ & _ & _ & _ & H2 & _).
  - apply sample_index_spec.
  - destruct sample_index_spec as [Hwf _]. exact Hwf.
  - done.
  - destruct sample_index_spec as (_ & Hp & Hr). eapply has_room_le; [exact Hr|].
    change (all_pbs (Finalize sample_index)) with (all_pbs sample_index). rewrite Hp. by vm_compute.
  - exists i'. exact (conj H1 H2).
Defined.

Lemma EachByPack_spec_witness :
  exists out, EachByPack (H := toy_order) sample_index {[sample_id]} = Ok out /\ NoDup (map item_key out).
Proof.
  destruct (EachByPack_spec (H0 := toy_order_laws) toy_mh sample_index {[sample_id]}) as (out & H1 & _ & _ & H2).
  - apply sample_index_spec.
  - exists out. exact (conj H1 H2).
Defined.
