(* ===== verification/MasterIndex.v ===== *)
(** * MasterIndex: the collection of indexes of a repository
    (src/repository/master_index.go)

    The list of indexes and the set of pending blobs.  Every method holds the
    mutex for its whole body, so a method is one step.  [mi.idx] holds
    pointers: the methods that return some of these indexes return their
    positions.  [clock] gives the readings of [time.Now]. *)

From S2P Require Import Prelude Crypto Ids Pack IndexMap Index.

Record MasterIndex : Type := mkMaster {
  mi_idx : list Index;
  pendingBlobs : BlobSet;
}.

Definition NewMasterIndex (now : Z) : MasterIndex :=
  {| mi_idx := [Finalize (NewIndex now)]; pendingBlobs := NewBlobSet [] |}.

Section master.
Context (mh : ID -> Z).

Definition MasterIndex_Lookup (mi : MasterIndex) (bh : BlobHandle) : res index_error (list PackedBlob) :=
  fold_left (fun acc idx => pbs ← acc; Lookup mh idx bh pbs) (mi_idx mi) (Ok []).

Fixpoint first_size (l : list Index) (bh : BlobHandle) : Z * bool :=
  match l with
  | [] => (0, false)
  | idx :: l => let '(size, found) := LookupSize mh idx bh in
      if found then (size, found) else first_size l bh
  end.
Definition MasterIndex_LookupSize (mi : MasterIndex) (bh : BlobHandle) : Z * bool :=
  first_size (mi_idx mi) bh.

Definition addPending (mi : MasterIndex) (bh : BlobHandle) : MasterIndex * bool :=
  if BlobSet_Has (pendingBlobs mi) bh then (mi, false)
  else if existsb (fun idx => Has mh idx bh) (mi_idx mi) then (mi, false)
  else ({| mi_idx := mi_idx mi; pendingBlobs := BlobSet_Insert (pendingBlobs mi) bh |}, true).

Definition MasterIndex_Has (mi : MasterIndex) (bh : BlobHandle) : bool :=
  if BlobSet_Has (pendingBlobs mi) bh then true
  else existsb (fun idx => Has mh idx bh) (mi_idx mi).

Definition IsMixedPack (mi : MasterIndex) (packID : ID) : bool :=
  existsb (fun idx => IDSet_Has (MixedPacks idx) packID) (mi_idx mi).

Definition MasterIndex_Packs (mi : MasterIndex) (packBlacklist : IDSet) : IDSet :=
  fold_left (fun ps idx =>
    let idxPacks := Packs idx in
    let idxPacks := if final idx then IDSet_Sub idxPacks packBlacklist else idxPacks in
    IDSet_Merge ps idxPacks) (mi_idx mi) (NewIDSet []).

(** [Each]: what a receiver that drains the channel gets. *)
Definition MasterIndex_Each (mi : MasterIndex) : res index_error (list PackedBlob) :=
  fold_left (fun acc idx => out ← acc; pbs ← Each idx; Ok (out ++ pbs)) (mi_idx mi) (Ok []).

Definition add_size (onlyHdr : bool) (packSize : gmap ID Z) (blob : PackedBlob) : gmap ID Z :=
  let size := default HeaderSize (packSize !! pb_PackID blob) in
  let size := if onlyHdr then size else i64 (size + i64 (b_Length (pb_Blob blob))) in
  <[pb_PackID blob := i64 (size + EntrySize)]> packSize.
Definition PackSize (mi : MasterIndex) (onlyHdr : bool) : res index_error (gmap ID Z) :=
  blobs ← MasterIndex_Each mi; Ok (fold_left (add_size onlyHdr) blobs ∅).

Definition MasterIndex_Count (mi : MasterIndex) (t : BlobType) : Z :=
  fold_left (fun sum idx => u64 (sum + Count idx t)) (mi_idx mi) 0.

Definition Insert (mi : MasterIndex) (idx : Index) : MasterIndex :=
  {| mi_idx := mi_idx mi ++ [idx]; pendingBlobs := pendingBlobs mi |}.

(** The loop of [StorePack]: the pack goes to the first index that is not
    final; [None] when there is none. *)
Fixpoint store_first (l : list Index) (id : ID) (blobs : list Blob) : option (res index_error (list Index)) :=
  match l with
  | [] => None
  | idx :: l =>
      if negb (Final idx) then Some (idx ← StorePack mh idx id blobs; Ok (idx :: l))
      else (fun r => l ← r; Ok (idx :: l)) <$> store_first l id blobs
  end.
Definition MasterIndex_StorePack (now : Z) (mi : MasterIndex) (id : ID) (blobs : list Blob)
  : res index_error MasterIndex :=
  let pending := fold_left (fun s b => BlobSet_Delete s (mkHandle (b_ID b) (b_Type b))) blobs (pendingBlobs mi) in
  match store_first (mi_idx mi) id blobs with
  | Some r => l ← r; Ok (mkMaster l pending)
  | None =>
      newIdx ← StorePack mh (NewIndex now) id blobs;
      Ok (mkMaster (mi_idx mi ++ [newIdx]) pending)
  end.

(** The two loops that finalize indexes: [sel] says which ones. *)
Fixpoint finalize_loop (sel : Index -> bool) (pos : nat) (l : list Index) : list Index * list nat :=
  match l with
  | [] => ([], [])
  | idx :: l =>
      let '(l', ps) := finalize_loop sel (S pos) l in
      if sel idx then (Finalize idx :: l', pos :: ps) else (idx :: l', ps)
  end.
Definition FinalizeNotFinalIndexes (mi : MasterIndex) : MasterIndex * list nat :=
  let '(l, ps) := finalize_loop (fun idx => negb (Final idx)) 0 (mi_idx mi) in
  (mkMaster l (pendingBlobs mi), ps).
Definition FinalizeFullIndexes (now : Z) (mi : MasterIndex) : MasterIndex * list nat :=
  let '(l, ps) := finalize_loop (fun idx => negb (Final idx) && IndexFull now idx) 0 (mi_idx mi) in
  (mkMaster l (pendingBlobs mi), ps).

Definition All (mi : MasterIndex) : list Index := mi_idx mi.

(** [MergeFinalIndexes].  [newIdx := mi.idx[:1]] shares the array of
    [mi.idx], so the [append]s of the loop overwrite cells the loop has
    already read: the array [arr] has the cells, [n] is [len(newIdx)], and
    [None] is the nil pointer. *)
Definition merge_step (arr : list (option Index)) (n i : nat) : res index_error (list (option Index) * nat) :=
  match arr !! i with
  | Some (Some idx) =>
      let arr := <[i := None]> arr in
      if negb (Final idx) then Ok (<[n := Some idx]> arr, S n)
      else
        match arr !! 0%nat with
        | Some (Some idx0) => idx0 ← merge mh idx0 idx; Ok (<[0%nat := Some idx0]> arr, n)
        | _ => Panic "nil pointer dereference"
        end
  | _ => Panic "nil pointer dereference"
  end.
Definition merge_loop (arr : list (option Index)) (order : list nat) : res index_error (list (option Index) * nat) :=
  fold_left (fun acc i => '(arr, n) ← acc; merge_step arr n i) order (Ok (arr, 1%nat)).
Definition MergeFinalIndexes (mi : MasterIndex) : res index_error MasterIndex :=
  panic_if (bool_decide (mi_idx mi = [])) "slice bounds out of range";;
  '(arr, n) ← merge_loop (Some <$> mi_idx mi) (seq 1 (length (mi_idx mi) - 1));
  match mapM id (take n arr) with
  | Some l => Ok (mkMaster l (pendingBlobs mi))
  | None => Panic "nil pointer dereference"
  end.

(** ** Save

    The producer goroutine; the indexes it sends on the channel are finalized
    and saved by the workers. *)

Context (clock : nat -> Z).

Record save_state : Type := mkSave {
  sv_newIndex : Index;
  sv_obsolete : IDSet;
  sv_sent : list Index;
  sv_tick : nat;             (** readings of the clock so far *)
}.

Definition save_pack (st : save_state) (pbs : ID * list Blob) : res index_error save_state :=
  newIndex ← StorePack mh (sv_newIndex st) pbs.1 pbs.2;
  if IndexFull (clock (sv_tick st)) newIndex
  then Ok (mkSave (NewIndex (clock (S (sv_tick st)))) (sv_obsolete st) (sv_sent st ++ [newIndex]) (S (S (sv_tick st))))
  else Ok (mkSave newIndex (sv_obsolete st) (sv_sent st) (S (sv_tick st))).

Definition save_index `{MapOrder} (packBlacklist : IDSet) (st : save_state) (idx : Index) : res index_error save_state :=
  st ← (if Final idx
        then ids ← IDs idx;
             newIndex ← AddToSupersedes (sv_newIndex st) ids;
             Ok (mkSave newIndex (IDSet_Merge (sv_obsolete st) (NewIDSet ids)) (sv_sent st) (sv_tick st))
        else Ok st);
  items ← EachByPack idx packBlacklist;
  fold_left (fun acc pbs => st ← acc; save_pack st pbs) items (Ok st).

(** The sent indexes and [obsolete]. *)
Definition Save `{MapOrder} (mi : MasterIndex) (packBlacklist : IDSet) (extraObsolete : list ID)
  : res index_error (list Index * IDSet) :=
  st ← fold_left (fun acc idx => st ← acc; save_index packBlacklist st idx) (mi_idx mi)
         (Ok (mkSave (NewIndex (clock 0%nat)) (NewIDSet []) [] 1));
  newIndex ← AddToSupersedes (sv_newIndex st) extraObsolete;
  Ok (sv_sent st ++ [newIndex], IDSet_Merge (sv_obsolete st) (NewIDSet extraObsolete)).

End master.

(** ** Invariant and abstract state *)

Section facts.
Context (mh : ID -> Z).

(** The packed blobs known to a list of indexes. *)
Definition known (l : list Index) : list PackedBlob := concat (map all_pbs l).

(** The first index exists and is final (so that others can be merged into
    it), and all indexes are well formed. *)
Definition master_wf (mi : MasterIndex) : Prop :=
  (exists idx0 rest, mi_idx mi = idx0 :: rest /\ final idx0 = true)
  /\ Forall (idx_wf mh) (mi_idx mi).

Lemma NewMasterIndex_wf now : master_wf (NewMasterIndex now).
Proof.
  split; [by eexists _, []|]. constructor; [|done]. exact (NewIndex_wf mh now).
Qed.

(** The number of entries of an index bounds the size of each table. *)
Lemma room_of_known i n : idx_wf mh i -> lenZ (all_pbs i) + n <= 2 ^ 60 -> has_room i n.
Proof.
  intros Hwf Hn t. destruct (Hwf t) as [[Hc _] _]. rewrite Hc.
  enough (length (entries (bt_get (byType i) t)) <= length (all_pbs i))%nat by lia.
  unfold all_pbs, pbs_of_type. cbn [map allBlobTypes concat].
  rewrite !length_app, !length_map. destruct t; simpl; lia.
Qed.

Lemma known_app l1 l2 : known (l1 ++ l2) = known l1 ++ known l2.
Proof. unfold known. by rewrite map_app, concat_app. Qed.

Lemma existsb_Has l bh : Forall (idx_wf mh) l ->
  existsb (fun idx => Has mh idx bh) l = true <-> exists pb, pb ∈ known l /\ b_handle (pb_Blob pb) = bh.
Proof.
  intros Hwf. rewrite existsb_exists. unfold known. setoid_rewrite elem_of_concat. split.
  - intros (idx & Hin%list_elem_of_In & HH). rewrite Forall_forall in Hwf.
    apply Has_spec in HH as (pb & Hpb & Hh); [|by apply Hwf].
    exists pb. split; [|done]. exists (all_pbs idx). split; [|done]. by apply list_elem_of_fmap_2.
  - intros (pb & (l' & Hl & Hpb) & Hh). apply list_elem_of_fmap in Hl as (idx & -> & Hin).
    exists idx. split; [by apply list_elem_of_In|]. rewrite Forall_forall in Hwf.
    apply Has_spec; [by apply Hwf|]. by exists pb.
Qed.

(** [Has] in terms of the abstract state. *)
Lemma MasterIndex_Has_spec mi bh : master_wf mi ->
  MasterIndex_Has mh mi bh = true <->
  bh ∈ pendingBlobs mi \/ exists pb, pb ∈ known (mi_idx mi) /\ b_handle (pb_Blob pb) = bh.
Proof.
  intros [_ Hwf]. unfold MasterIndex_Has, BlobSet_Has. case_bool_decide as Hp.
  - tauto.
  - rewrite existsb_Has by done. tauto.
Qed.

Lemma MasterIndex_Lookup_spec mi bh : master_wf mi ->
  exists l, MasterIndex_Lookup mh mi bh = Ok l
    /\ l ≡ₚ filter (fun pb => b_handle (pb_Blob pb) = bh) (known (mi_idx mi)).
Proof.
  intros [_ Hwf]. unfold MasterIndex_Lookup. change (known (mi_idx mi)) with ([] ++ known (mi_idx mi)).
  rewrite filter_app.
  assert (HG : forall acc, exists l, fold_left (fun acc idx => pbs ← acc; Lookup mh idx bh pbs) (mi_idx mi) (Ok acc) = Ok l
    /\ l ≡ₚ acc ++ filter (fun pb => b_handle (pb_Blob pb) = bh) (known (mi_idx mi))).
  { induction Hwf as [|i l Hi Hwf IH]; intros acc; cbn [fold_left].
    - exists acc. by rewrite app_nil_r.
    - cbn [mbind res_bind] in *. rewrite Lookup_spec by done.
      destruct (IH (acc ++ map (to_pb (packs i) (bh_Type bh)) (entries_of mh (bt_get (byType i) (bh_Type bh)) (bh_ID bh))))
        as (l' & -> & Hp).
      exists l'. split; [done|]. rewrite Hp, Lookup_filter by done. unfold known. cbn [map concat].
      by rewrite filter_app, app_assoc. }
  destruct (HG []) as (l & -> & Hp). by exists l.
Qed.

Lemma MasterIndex_Each_spec mi : master_wf mi -> MasterIndex_Each mi = Ok (known (mi_idx mi)).
Proof.
  intros [_ Hwf]. unfold MasterIndex_Each. change (known (mi_idx mi)) with ([] ++ known (mi_idx mi)).
  generalize (@nil PackedBlob) as acc.
  induction Hwf as [|i l Hi Hwf IH]; intros acc; cbn [fold_left]; [by rewrite app_nil_r|].
  cbn [mbind res_bind] in *. rewrite (Each_spec mh) by done. cbn [mbind res_bind].
  rewrite IH. unfold known. cbn [map concat]. by rewrite app_assoc.
Qed.

(** [StorePack]'s search loop. *)
Lemma store_first_spec l id blobs : Forall (idx_wf mh) l -> Forall fits32 blobs ->
  lenZ (known l) + lenZ blobs <= 2 ^ 60 ->
  match store_first mh l id blobs with
  | None => Forall (fun idx => final idx = true) l
  | Some r => exists l', r = Ok l' /\ Forall (idx_wf mh) l'
      /\ known l' ≡ₚ map (fun b => mkPacked b id) blobs ++ known l
      /\ map final l' = map final l
  end.
Proof.
  intros Hwf Hfit. induction Hwf as [|i l Hi Hwf IH]; intros Hroom; cbn [store_first]; [done|].
  unfold known in Hroom. cbn [map concat] in Hroom. rewrite length_app in Hroom. fold (known l) in Hroom.
  unfold Final. destruct (final i) eqn:Ef; cbn [negb].
  - specialize (IH ltac:(lia)). destruct (store_first mh l id blobs) as [r|]; cbn [fmap option_fmap option_map].
    + destruct IH as (l' & -> & Hwf' & Hp & Hm). exists (i :: l'). split; [done|].
      split; [by constructor|]. split; [|simpl; by rewrite Hm].
      unfold known in *. cbn [map concat]. rewrite Hp.
      by rewrite !app_assoc, (Permutation_app_comm (all_pbs i)).
    + by constructor.
  - destruct (StorePack_spec mh i id blobs Hi) as (i' & -> & Hwf' & Hp & _ & Hf & _); [|done|done|].
    + apply room_of_known; [done|lia].
    + exists (i' :: l). split; [done|]. split; [by constructor|]. split; [|simpl; by rewrite Hf, Ef].
      unfold known. cbn [map concat]. by rewrite Hp, app_assoc.
Qed.

Lemma MasterIndex_StorePack_spec now mi id blobs : master_wf mi -> Forall fits32 blobs ->
  lenZ (known (mi_idx mi)) + lenZ blobs <= 2 ^ 60 ->
  exists mi', MasterIndex_StorePack mh now mi id blobs = Ok mi' /\ master_wf mi'
    /\ known (mi_idx mi') ≡ₚ map (fun b => mkPacked b id) blobs ++ known (mi_idx mi)
    /\ pendingBlobs mi' = pendingBlobs mi ∖ list_to_set (map b_handle blobs).
Proof.
  intros [(i0 & rest & E0 & F0) Hwf] Hfit Hroom. unfold MasterIndex_StorePack.
  assert (Hpend : forall s, fold_left (fun s b => BlobSet_Delete s (mkHandle (b_ID b) (b_Type b))) blobs s
     = s ∖ list_to_set (map b_handle blobs)).
  { clear. induction blobs as [|b blobs IH]; intros s; cbn [fold_left map list_to_set].
    - set_solver.
    - rewrite IH. unfold BlobSet_Delete. destruct b as [[? ?] ? ?]. unfold b_ID, b_Type. simpl. set_solver. }
  rewrite Hpend. pose proof (store_first_spec (mi_idx mi) id blobs Hwf Hfit Hroom) as HS.
  destruct (store_first mh (mi_idx mi) id blobs) as [r|].
  - destruct HS as (l' & -> & Hwf' & Hp & Hm). eexists. split; [done|]. cbn [mi_idx pendingBlobs].
    split; [|done]. split; [|done]. rewrite E0 in Hm. destruct l' as [|i l']; [done|].
    injection Hm as Hf _. exists i, l'. split; [done|]. congruence.
  - destruct (StorePack_spec mh (NewIndex now) id blobs) as (i' & -> & Hwf' & Hp & _); try done.
    + apply NewIndex_wf.
    + apply room_of_known; [apply NewIndex_wf|]. rewrite NewIndex_pbs. simpl length. lia.
    + eexists. split; [done|]. cbn [mi_idx pendingBlobs]. split; [|split; [|done]].
      * split; [rewrite E0; by exists i0, (rest ++ [i'])|]. apply Forall_app. split; [done|]. by constructor.
      * rewrite known_app. unfold known at 2. cbn [map concat].
        rewrite app_nil_r, Hp, NewIndex_pbs, app_nil_r. apply Permutation_app_comm.
Qed.

(** Finalizing changes neither the contents nor the well-formedness. *)
Lemma finalize_loop_spec sel pos l : Forall (idx_wf mh) l ->
  let '(l', ps) := finalize_loop sel pos l in
  Forall (idx_wf mh) l' /\ known l' = known l
  /\ map final l' = map (fun idx => final idx || sel idx) l
  /\ (forall p, p ∈ ps <-> exists k idx, p = (pos + k)%nat /\ l !! k = Some idx /\ sel idx = true).
Proof.
  intros Hwf. revert pos. induction Hwf as [|i l Hi Hwf IH]; intros pos; cbn [finalize_loop].
  - split_and!; try done. intros p. rewrite elem_of_nil. split; [done|]. by intros (k & idx & _ & ? & _).
  - specialize (IH (S pos)). destruct (finalize_loop sel (S pos) l) as [l' ps].
    destruct IH as (H1 & H2 & H3 & H4).
    assert (Hps : forall p, (exists k idx, p = (pos + k)%nat /\ (i :: l) !! k = Some idx /\ sel idx = true)
      <-> (p = pos /\ sel i = true) \/ p ∈ ps).
    { intros p. rewrite H4. split.
      - intros ([|k] & idx & -> & Hk & Hs); simpl in Hk; simplify_eq.
        + left. split; [lia|done].
        + right. exists k, idx. split; [lia|done].
      - intros [[-> Hs]|(k & idx & -> & Hk & Hs)].
        + exists 0%nat, i. split; [lia|done].
        + exists (S k), idx. split; [lia|done]. }
    destruct (sel i) eqn:Es; simpl; unfold known in *; cbn [map concat]; rewrite H2, H3.
    + split; [constructor; [exact Hi|done]|]. split; [done|]. split; [rewrite ?Es; by rewrite orb_true_r|].
      intros p. rewrite Hps, elem_of_cons. tauto.
    + split; [by constructor|]. split; [done|]. split; [by rewrite ?Es, orb_false_r|].
      intros p. rewrite Hps. split; [tauto|]. by intros [[_ ?]|?].
Qed.


(** *** The merge loop *)

(** The array during the loop: the first [n] cells are the merged index and
    the kept ones, the cells from [i] on are still to be read. *)
Record merge_inv (arr : list (option Index)) (n i : nat) (idx0 : Index) (kept rest : list Index) : Prop := {
  mv_n : n = S (length kept);
  mv_le : (n <= i)%nat;
  mv_take : take n arr = Some <$> (idx0 :: kept);
  mv_drop : drop i arr = Some <$> rest;
}.

Lemma drop_insert_below {A} (l : list A) (j k : nat) x : (j < k)%nat -> drop k (<[j:=x]> l) = drop k l.
Proof.
  intros Hj. apply list_eq. intros m. rewrite !lookup_drop. apply list_lookup_insert_ne. lia.
Qed.

Lemma merge_inv_keep arr n i idx0 kept idx rest : merge_inv arr n i idx0 kept (idx :: rest) ->
  arr !! i = Some (Some idx)
  /\ merge_inv (<[n := Some idx]> (<[i := None]> arr)) (S n) (S i) idx0 (kept ++ [idx]) rest.
Proof.
  intros [Hn Hle Ht Hd].
  assert (Hi : arr !! i = Some (Some idx)).
  { replace i with (i + 0)%nat by lia. by rewrite <- lookup_drop, Hd. }
  split; [done|]. pose proof (lookup_lt_Some _ _ _ Hi).
  split; [rewrite length_app; simpl; lia|lia| |].
  - rewrite (take_S_r _ n (Some idx)) by (apply list_lookup_insert_eq; rewrite length_insert; lia).
    rewrite !take_insert_ge by lia. rewrite Ht. cbn [app]. by rewrite app_comm_cons, fmap_app.
  - rewrite !drop_insert_below by lia. change (S i) with (1 + i)%nat. rewrite Nat.add_comm, <- drop_drop, Hd. done.
Qed.

Lemma merge_inv_merge arr n i idx0 idx0' kept idx rest : merge_inv arr n i idx0 kept (idx :: rest) ->
  <[i := None]> arr !! 0%nat = Some (Some idx0)
  /\ merge_inv (<[0%nat := Some idx0']> (<[i := None]> arr)) n (S i) idx0' kept rest.
Proof.
  intros [Hn Hle Ht Hd].
  assert (H0 : arr !! 0%nat = Some (Some idx0)).
  { rewrite <- (lookup_take_lt arr n 0) by lia. by rewrite Ht. }
  pose proof (lookup_lt_Some _ _ _ H0).
  split; [by rewrite list_lookup_insert_ne by lia|]. split; [done|lia| |].
  - rewrite take_insert_lt, take_insert_ge by lia. by rewrite Ht.
  - rewrite !drop_insert_below by lia. change (S i) with (1 + i)%nat. rewrite Nat.add_comm, <- drop_drop, Hd. done.
Qed.

Lemma merge_loop_spec rest : forall arr n i idx0 kept,
  merge_inv arr n i idx0 kept rest -> idx_wf mh idx0 -> Forall (idx_wf mh) rest ->
  has_room idx0 (lenZ (known rest)) ->
  exists arr' n' idx0', fold_left (fun acc i => '(arr, n) ← acc; merge_step mh arr n i) (seq i (length rest)) (Ok (arr, n))
      = Ok (arr', n')
    /\ take n' arr' = Some <$> (idx0' :: kept ++ filter (fun idx => final idx = false) rest)
    /\ idx_wf mh idx0' /\ final idx0' = final idx0
    /\ (forall pb, pb ∈ all_pbs idx0' <-> pb ∈ all_pbs idx0 \/ pb ∈ known (filter (fun idx => final idx = true) rest))
    /\ (NoDup (all_pbs idx0) -> NoDup (all_pbs idx0'))
    /\ (length (all_pbs idx0') <= length (all_pbs idx0) + length (known (filter (fun idx => final idx = true) rest)))%nat.
Proof.
  induction rest as [|idx rest IH]; intros arr n i idx0 kept Hinv Hwf0 Hwf Hroom; cbn [length seq fold_left].
  { exists arr, n, idx0. destruct Hinv as [-> _ Ht _]. rewrite Ht.
    split; [done|]. split; [by rewrite filter_nil, app_nil_r|]. split_and!; try done.
    - intros pb. rewrite filter_nil. unfold known; simpl. rewrite elem_of_nil. tauto.
    - lia. }
  apply Forall_cons in Hwf as [Hwfi Hwf].
  unfold known in Hroom. cbn [map concat] in Hroom. rewrite length_app in Hroom. fold (known rest) in Hroom.
  destruct (merge_inv_keep _ _ _ _ _ _ _ Hinv) as [Hi Hkeep].
  cbn [mbind res_bind]. unfold merge_step at 2. rewrite Hi. unfold Final. rewrite !filter_cons.
  destruct (final idx) eqn:Ef; cbn [negb].
  - rewrite decide_False by done. rewrite decide_True by done.
    destruct (merge_spec mh idx0 idx Hwf0 Hwfi Ef) as (idx0' & HE & Hwf' & Hel & Hnd & _ & _ & Hf & _ & _ & Hr & Hln).
    { eapply has_room_le; [done|lia]. }
    destruct (merge_inv_merge arr n i idx0 idx0' kept idx rest Hinv) as [H0 Hm].
    rewrite H0, HE. cbn [mbind res_bind].
    destruct (IH _ _ _ _ _ Hm Hwf' Hwf) as (arr' & n' & i0' & HL & Ht & W & F & E & N & L).
    { apply Hr. eapply has_room_le; [done|lia]. }
    exists arr', n', i0'. cbn [mbind res_bind] in HL. split; [exact HL|]. split; [done|]. split; [done|].
    split; [congruence|]. split; [|split; [tauto|]].
    + intros pb. rewrite E, Hel. unfold known. cbn [map concat]. rewrite elem_of_app. tauto.
    + unfold known in *. cbn [map concat]. rewrite length_app. lia.
  - rewrite decide_True by done. rewrite decide_False by done.
    destruct (IH _ _ _ _ _ Hkeep Hwf0 Hwf) as (arr' & n' & i0' & HL & Ht & W & F & E & N & L).
    { eapply has_room_le; [done|lia]. }
    exists arr', n', i0'. cbn [mbind res_bind] in HL. split; [exact HL|]. split; [|done].
    rewrite Ht. by rewrite <- app_assoc.
Qed.

Lemma mapM_id_Some {A} (l : list A) : mapM id (Some <$> l) = Some l.
Proof. induction l as [|a l IH]; [done|]. cbn. cbn in IH. by rewrite IH. Qed.

Lemma MergeFinalIndexes_ok mi : master_wf mi -> lenZ (known (mi_idx mi)) <= 2 ^ 60 ->
  exists idx0 idx0' rest, mi_idx mi = idx0 :: rest
    /\ MergeFinalIndexes mh mi
       = Ok (mkMaster (idx0' :: filter (fun idx => final idx = false) rest) (pendingBlobs mi))
    /\ idx_wf mh idx0' /\ final idx0' = true
    /\ (forall pb, pb ∈ all_pbs idx0' <-> pb ∈ all_pbs idx0 \/ pb ∈ known (filter (fun idx => final idx = true) rest))
    /\ (NoDup (all_pbs idx0) -> NoDup (all_pbs idx0'))
    /\ (length (all_pbs idx0') <= length (all_pbs idx0) + length (known (filter (fun idx => final idx = true) rest)))%nat.
Proof.
  intros [(i0 & rest & E0 & F0) Hwf] Hlen. rewrite E0 in *. apply Forall_cons in Hwf as [Hwf0 Hwf].
  unfold known in Hlen. cbn [map concat] in Hlen. rewrite length_app in Hlen. fold (known rest) in Hlen.
  unfold MergeFinalIndexes. rewrite E0. rewrite bool_decide_eq_false_2 by done. cbn [panic_if mbind res_bind].
  assert (Hinv : merge_inv (Some <$> i0 :: rest) 1 1 i0 [] rest) by (split; [done|lia|done|done]).
  destruct (merge_loop_spec rest _ _ _ _ _ Hinv Hwf0 Hwf) as (arr' & n' & i0' & HL & Ht & W & F & E & N & L).
  { apply room_of_known; [done|lia]. }
  exists i0, i0', rest. split; [done|]. unfold merge_loop. cbn [length].
  replace (S (length rest) - 1)%nat with (length rest) by lia. rewrite HL. cbn [mbind res_bind].
  rewrite Ht. rewrite mapM_id_Some. split; [done|]. split; [done|]. split; [congruence|]. done.
Qed.

End facts.

(** ** Saving *)

Section saving.
Context (mh : ID -> Z) (clock : nat -> Z).

(** What the producer has handed over or holds so far. *)
Record save_inv (st : save_state) (pbs : list PackedBlob) (sup : list ID) : Prop := {
  si_wf : Forall (fun i => idx_wf mh i /\ final i = false) (sv_sent st ++ [sv_newIndex st]);
  si_known : known (sv_sent st ++ [sv_newIndex st]) ≡ₚ pbs;
  si_sup : concat (map supersedes (sv_sent st ++ [sv_newIndex st])) = sup;
  si_obs : sv_obsolete st = list_to_set sup;
  si_full : Forall (fun i => exists now, IndexFull now i = true) (sv_sent st);
}.

Lemma save_pack_spec st pbs sup x bs : save_inv st pbs sup -> Forall fits32 bs ->
  lenZ pbs + lenZ bs <= 2 ^ 60 ->
  exists st', save_pack mh clock st (x, bs) = Ok st' /\ save_inv st' (pbs ++ item_pbs (x, bs)) sup.
Proof.
  intros [Hwf Hk Hs Ho Hfull] Hfit Hlen. unfold save_pack. cbn [fst snd].
  apply Forall_app in Hwf as [Hwfs [[Hwfn Hfn] _]%Forall_cons].
  rewrite known_app in Hk. unfold known at 2 in Hk. cbn [map concat] in Hk. rewrite app_nil_r in Hk.
  destruct (StorePack_spec mh (sv_newIndex st) x bs Hwfn) as (i' & -> & Hwf' & Hp' & _ & Hf' & _ & Hs' & _); [|done|done|].
  { apply (room_of_known mh); [done|]. rewrite <- Hk, length_app in Hlen. lia. }
  cbn [mbind res_bind].
  assert (Hk' : known (sv_sent st) ++ all_pbs i' ≡ₚ pbs ++ item_pbs (x, bs)).
  { rewrite Hp', <- Hk. unfold item_pbs. cbn [fst snd].
    by rewrite (Permutation_app_comm (map _ bs)), app_assoc. }
  rewrite map_app, concat_app in Hs. cbn [map concat] in Hs. rewrite app_nil_r in Hs.
  destruct (IndexFull (clock (sv_tick st)) i') eqn:Efull; (eexists; split; [done|]);
    split; cbn [sv_sent sv_newIndex sv_obsolete]; try done.
  - rewrite <- app_assoc. apply Forall_app. split; [done|]. apply Forall_cons. split; [done|].
    apply Forall_singleton. split; [exact (NewIndex_wf mh _)|done].
  - rewrite !known_app. unfold known at 2 3. cbn [map concat]. by rewrite NewIndex_pbs, !app_nil_r.
  - rewrite !map_app, !concat_app. cbn [map concat]. rewrite Hs', !app_nil_r. exact Hs.
  - apply Forall_app. split; [done|]. apply Forall_singleton. by eexists.
  - apply Forall_app. split; [done|]. by apply Forall_singleton.
  - rewrite known_app. unfold known at 2. cbn [map concat]. by rewrite app_nil_r.
  - rewrite !map_app, !concat_app. cbn [map concat]. by rewrite Hs', !app_nil_r.
Qed.

Lemma save_packs_spec items : forall st pbs sup, save_inv st pbs sup ->
  (forall pb, pb ∈ concat (map item_pbs items) -> fits32 (pb_Blob pb)) ->
  lenZ pbs + lenZ (concat (map item_pbs items)) <= 2 ^ 60 ->
  exists st', fold_left (fun acc pbs => st ← acc; save_pack mh clock st pbs) items (Ok st) = Ok st'
    /\ save_inv st' (pbs ++ concat (map item_pbs items)) sup.
Proof.
  induction items as [|[x bs] items IH]; intros st pbs sup Hinv Hfit Hlen; cbn [fold_left map concat].
  { exists st. by rewrite app_nil_r. }
  cbn [map concat] in Hfit, Hlen. rewrite length_app in Hlen.
  assert (Hlx : length (item_pbs (x, bs)) = length bs) by apply length_map.
  destruct (save_pack_spec st pbs sup x bs Hinv) as (st1 & E1 & Hinv1).
  - apply Forall_forall. intros b Hb. apply (Hfit (mkPacked b x)). apply elem_of_app. left.
    apply list_elem_of_fmap. by exists b.
  - lia.
  - destruct (IH st1 _ _ Hinv1) as (st' & E' & Hinv').
    + intros pb Hpb. apply Hfit, elem_of_app. by right.
    + rewrite length_app. lia.
    + exists st'. cbn [mbind res_bind] in *. rewrite E1. split; [exact E'|]. by rewrite app_assoc.
Qed.

Lemma all_pbs_fits i pb : idx_wf mh i -> pb ∈ all_pbs i -> fits32 (pb_Blob pb).
Proof.
  intros Hwf (e & He & ->)%elem_of_all_pbs%elem_of_pbs_of_type.
  destruct (Hwf (b_Type (pb_Blob pb))) as [_ Hok]. by apply Hok in He as (_ & Ho & Hl).
Qed.

(** What [Save] keeps of an index. *)
Definition saved_pbs (bl : IDSet) (i : Index) : list PackedBlob :=
  filter (fun pb => wanted i bl (pb_PackID pb)) (all_pbs i).
Definition superseded_ids (i : Index) : list ID := if final i then idx_ids i else [].

Lemma save_index_spec `{MapOrderLaws} bl st idx pbs sup : save_inv st pbs sup -> idx_wf mh idx ->
  lenZ pbs + lenZ (all_pbs idx) <= 2 ^ 60 ->
  exists st', save_index mh clock bl st idx = Ok st'
    /\ save_inv st' (pbs ++ saved_pbs bl idx) (sup ++ superseded_ids idx).
Proof.
  intros Hinv Hwf Hlen. unfold save_index.
  assert (H1 : exists st1, (if Final idx
      then ids ← IDs idx; newIndex ← AddToSupersedes (sv_newIndex st) ids;
           Ok (mkSave newIndex (IDSet_Merge (sv_obsolete st) (NewIDSet ids)) (sv_sent st) (sv_tick st))
      else Ok st) = Ok (E := index_error) st1 /\ save_inv st1 pbs (sup ++ superseded_ids idx)).
  { unfold Final, superseded_ids. destruct (final idx) eqn:Ef; [|exists st; by rewrite app_nil_r].
    destruct Hinv as [Hwfs Hk Hs Ho Hfull]. apply Forall_app in Hwfs as [Hwfs [[Hwfn Hfn] _]%Forall_cons].
    unfold IDs. rewrite Ef. cbn [negb mbind res_bind]. unfold AddToSupersedes. rewrite Hfn.
    cbn [mbind res_bind]. eexists. split; [done|]. split; cbn [sv_sent sv_newIndex sv_obsolete].
    - apply Forall_app. split; [done|]. apply Forall_singleton. split; [exact Hwfn|done].
    - rewrite known_app in Hk |- *. exact Hk.
    - rewrite <- Hs, !map_app, !concat_app. cbn [map concat supersedes]. by rewrite !app_nil_r, app_assoc.
    - rewrite Ho. apply set_eq. intros x. unfold IDSet_Merge, IDSet_Insert, NewIDSet.
      rewrite fold_insert, elem_of_elements, fold_insert, !elem_of_list_to_set, elem_of_app. set_solver.
    - exact Hfull. }
  destruct H1 as (st1 & -> & Hinv1). cbn [mbind res_bind].
  destruct (EachByPack_ok mh idx bl Hwf) as (out & HE & [Hf _] & _).
  rewrite HE. cbn [mbind res_bind].
  destruct (save_packs_spec out st1 pbs (sup ++ superseded_ids idx) Hinv1) as (st' & E' & Hinv').
  - intros pb Hpb. rewrite Hf in Hpb. apply list_elem_of_filter in Hpb as [_ Hpb]. by eapply all_pbs_fits.
  - rewrite Hf. pose proof (length_filter (fun pb => wanted idx bl (pb_PackID pb)) (all_pbs idx)). lia.
  - exists st'. cbn [mbind res_bind] in E'. split; [exact E'|].
    destruct Hinv' as [A B C D F]. split; try done. by rewrite B, Hf.
Qed.

Lemma save_indexes_spec `{MapOrderLaws} bl l : forall st pbs sup, save_inv st pbs sup -> Forall (idx_wf mh) l ->
  lenZ pbs + lenZ (known l) <= 2 ^ 60 ->
  exists st', fold_left (fun acc idx => st ← acc; save_index mh clock bl st idx) l (Ok st) = Ok st'
    /\ save_inv st' (pbs ++ concat (map (saved_pbs bl) l)) (sup ++ concat (map superseded_ids l)).
Proof.
  induction l as [|i l IH]; intros st pbs sup Hinv Hwf Hlen; cbn [fold_left map concat].
  { exists st. by rewrite !app_nil_r. }
  apply Forall_cons in Hwf as [Hi Hwf]. unfold known in Hlen. cbn [map concat] in Hlen.
  rewrite length_app in Hlen. fold (known l) in Hlen.
  destruct (save_index_spec bl st i pbs sup Hinv Hi ltac:(lia)) as (st1 & E1 & Hinv1).
  destruct (IH st1 _ _ Hinv1 Hwf) as (st' & E' & Hinv').
  - rewrite length_app. pose proof (length_filter (fun pb => wanted i bl (pb_PackID pb)) (all_pbs i)).
    unfold saved_pbs. lia.
  - exists st'. cbn [mbind res_bind] in *. rewrite E1. split; [exact E'|]. by rewrite !app_assoc.
Qed.

End saving.

(** ** Executions *)

Section executions.
Context (mh : ID -> Z).

(** A method call that changes the collection.  The premises bound the size of
    the index and the numbers stored in it. *)
Inductive mstep (mi : MasterIndex) : MasterIndex -> Prop :=
| step_pending bh : mstep mi (addPending mh mi bh).1
| step_store now id blobs mi' :
    Forall fits32 blobs -> lenZ (known (mi_idx mi)) + lenZ blobs <= 2 ^ 60 ->
    MasterIndex_StorePack mh now mi id blobs = Ok mi' -> mstep mi mi'
| step_insert idx : idx_wf mh idx -> mstep mi (Insert mi idx)
| step_finalize : mstep mi (FinalizeNotFinalIndexes mi).1
| step_full now : mstep mi (FinalizeFullIndexes now mi).1
| step_merge mi' : lenZ (known (mi_idx mi)) <= 2 ^ 60 ->
    MergeFinalIndexes mh mi = Ok mi' -> mstep mi mi'.

(** A handle the collection knows, pending or stored. *)
Definition Known (mi : MasterIndex) (bh : BlobHandle) : Prop :=
  bh ∈ pendingBlobs mi \/ exists pb, pb ∈ known (mi_idx mi) /\ b_handle (pb_Blob pb) = bh.

Lemma addPending_spec mi bh : master_wf mh mi ->
  addPending mh mi bh =
    (if MasterIndex_Has mh mi bh then mi
     else mkMaster (mi_idx mi) ({[bh]} ∪ pendingBlobs mi), negb (MasterIndex_Has mh mi bh)).
Proof.
  intros _. unfold addPending, MasterIndex_Has. by destruct (BlobSet_Has (pendingBlobs mi) bh), (existsb (fun idx => Has mh idx bh) (mi_idx mi)).
Qed.

Lemma finalize_step_spec sel mi : master_wf mh mi ->
  let l' := (finalize_loop sel 0 (mi_idx mi)).1 in
  master_wf mh (mkMaster l' (pendingBlobs mi)) /\ known l' = known (mi_idx mi).
Proof.
  intros [(i0 & rest & E0 & F0) Hwf]. pose proof (finalize_loop_spec mh sel 0 (mi_idx mi) Hwf) as HF.
  destruct (finalize_loop sel 0 (mi_idx mi)) as [l' ps]. destruct HF as (H1 & H2 & H3 & _).
  split; [|done]. split; [|done]. rewrite E0 in H3. destruct l' as [|i l']; [done|].
  injection H3 as Hf _. exists i, l'. split; [done|]. by rewrite Hf, F0.
Qed.

Lemma MergeFinalIndexes_Known mi mi' : master_wf mh mi -> lenZ (known (mi_idx mi)) <= 2 ^ 60 ->
  MergeFinalIndexes mh mi = Ok mi' ->
  master_wf mh mi' /\ pendingBlobs mi' = pendingBlobs mi
  /\ (forall pb, pb ∈ known (mi_idx mi') <-> pb ∈ known (mi_idx mi))
  /\ (length (known (mi_idx mi')) <= length (known (mi_idx mi)))%nat.
Proof.
  intros Hwf Hlen HM. destruct (MergeFinalIndexes_ok mh mi Hwf Hlen) as (i0 & i0' & rest & E0 & HE & W & F & Hel & _ & Hln).
  rewrite HE in HM. injection HM as <-. destruct Hwf as [_ Hall]. rewrite E0 in *.
  apply Forall_cons in Hall as [_ Hrest]. split; [|split; [done|split]].
  - split; [by eexists _, _|]. cbn [mi_idx]. constructor; [done|].
    apply Forall_forall. intros i [_ Hi]%list_elem_of_filter. rewrite Forall_forall in Hrest. by apply Hrest.
  - intros pb. cbn [mi_idx]. unfold known. cbn [map concat]. rewrite !elem_of_app, Hel. fold (known rest).
    fold (known (filter (fun idx => final idx = false) rest)).
    assert (Hsplit : pb ∈ known rest <-> pb ∈ known (filter (fun idx => final idx = true) rest)
       \/ pb ∈ known (filter (fun idx => final idx = false) rest)).
    { unfold known. rewrite !elem_of_concat. setoid_rewrite list_elem_of_fmap.
      setoid_rewrite list_elem_of_filter. split.
      - intros (l & (i & -> & Hi) & Hpb). destruct (final i) eqn:Ef; [left|right]; exists (all_pbs i); eauto.
      - intros [(l & (i & -> & _ & Hi) & Hpb)|(l & (i & -> & _ & Hi) & Hpb)]; exists (all_pbs i); eauto. }
    rewrite Hsplit. tauto.
  - cbn [mi_idx]. unfold known in *. cbn [map concat]. rewrite !length_app. etransitivity.
    { apply Nat.add_le_mono_r, Hln. }
    assert (Hs : (length (concat (map all_pbs rest)) =
      length (concat (map all_pbs (filter (fun idx => final idx = true) rest)))
      + length (concat (map all_pbs (filter (fun idx => final idx = false) rest))))%nat).
    { clear. induction rest as [|i rest IH]; [done|]. rewrite !filter_cons. cbn [map concat]. rewrite length_app, IH.
      destruct (final i); [rewrite decide_True, decide_False by done | rewrite decide_False, decide_True by done];
        cbn [map concat]; rewrite length_app; lia. }
    lia.
Qed.

(** No step forgets a handle. *)
Lemma mstep_mono mi mi' : master_wf mh mi -> mstep mi mi' ->
  master_wf mh mi' /\ forall bh, Known mi bh -> Known mi' bh.
Proof.
  intros Hwf Hstep. destruct Hstep as [bh|now id blobs mi' Hfit Hlen HS|idx Hi| |now|mi' Hlen HM].
  - rewrite addPending_spec by done. destruct (MasterIndex_Has mh mi bh); simpl; [done|].
    split; [exact Hwf|]. unfold Known. simpl. set_solver.
  - destruct (MasterIndex_StorePack_spec mh now mi id blobs Hwf Hfit Hlen) as (m & HS' & Hwf' & Hp & Hpend).
    rewrite HS' in HS. injection HS as <-. split; [done|]. intros h [Hin|(pb & Hpb & Hh)]; unfold Known.
    + rewrite Hpend. destruct (decide (h ∈ map b_handle blobs)) as [Hb|Hb].
      * right. apply list_elem_of_fmap in Hb as (b & -> & Hb). exists (mkPacked b id). split; [|done].
        rewrite Hp. apply elem_of_app. left. apply list_elem_of_fmap. by exists b.
      * left. apply elem_of_difference. split; [done|]. by rewrite elem_of_list_to_set.
    + right. exists pb. split; [|done]. rewrite Hp. apply elem_of_app. by right.
  - destruct Hwf as [(i0 & rest & E0 & F0) Hwf]. split.
    + split; [exists i0, (rest ++ [idx]); simpl; by rewrite E0|]. apply Forall_app. split; [done|by constructor].
    + intros h [Hin|(pb & Hpb & Hh)]; [by left|right]. exists pb. split; [|done].
      cbn [Insert mi_idx]. rewrite known_app. apply elem_of_app. by left.
  - unfold FinalizeNotFinalIndexes. pose proof (finalize_step_spec (fun idx => negb (Final idx)) mi Hwf) as HF.
    destruct (finalize_loop _ 0 _) as [l' ps]. cbn [fst] in HF. destruct HF as [HF Hk]. split; [exact HF|].
    intros h. unfold Known. simpl. by rewrite Hk.
  - unfold FinalizeFullIndexes.
    pose proof (finalize_step_spec (fun idx => negb (Final idx) && IndexFull now idx) mi Hwf) as HF.
    destruct (finalize_loop _ 0 _) as [l' ps]. cbn [fst] in HF. destruct HF as [HF Hk]. split; [exact HF|].
    intros h. unfold Known. simpl. by rewrite Hk.
  - destruct (MergeFinalIndexes_Known mi mi' Hwf Hlen HM) as (Hwf' & Hpend & Hel & _). split; [done|].
    unfold Known. setoid_rewrite Hel. by rewrite Hpend.
Qed.

Lemma msteps_mono mi mi' : rtc mstep mi mi' -> master_wf mh mi ->
  master_wf mh mi' /\ forall bh, Known mi bh -> Known mi' bh.
Proof.
  induction 1 as [mi|mi m mi' Hs _ IH]; intros Hwf; [done|].
  destruct (mstep_mono mi m Hwf Hs) as [Hm Hk]. destruct (IH Hm) as [Hm' Hk']. auto.
Qed.

(** ** Properties *)

(** deduplication.  [addPending] reserves a blob at most once: it accepts
    a handle exactly when the collection does not know it, and after it did,
    whatever other calls run in between (storing packs, which removes the
    reservation, inserting, finalizing and merging indexes), [Has] answers
    true and [addPending] refuses the handle. *)
Theorem addPending_once (mi mi' : MasterIndex) (bh : BlobHandle) :
  master_wf mh mi ->
  ((addPending mh mi bh).2 = true <-> MasterIndex_Has mh mi bh = false)
  /\ (rtc mstep (addPending mh mi bh).1 mi' ->
      master_wf mh mi' /\ MasterIndex_Has mh mi' bh = true /\ addPending mh mi' bh = (mi', false)).
Proof.
  intros Hwf. rewrite addPending_spec by done. split; [by destruct (MasterIndex_Has mh mi bh)|].
  intros Hsteps.
  assert (H1 : master_wf mh (addPending mh mi bh).1 /\ Known (addPending mh mi bh).1 bh).
  { split; [by apply (mstep_mono mi _ Hwf (step_pending mi bh))|].
    rewrite addPending_spec by done. destruct (MasterIndex_Has mh mi bh) eqn:E; simpl.
    - by apply (MasterIndex_Has_spec mh).
    - left. set_solver. }
  rewrite addPending_spec in H1 by done.
  destruct (msteps_mono _ _ Hsteps (proj1 H1)) as [Hwf' Hk].
  assert (HH : MasterIndex_Has mh mi' bh = true) by (apply MasterIndex_Has_spec; [done|]; exact (Hk _ (proj2 H1))).
  split; [done|]. split; [done|]. rewrite addPending_spec by done. by rewrite HH.
Qed.

(** C31: [MergeFinalIndexes], through the in-place compaction of the pointer
    array, never fails and never loses an index: it leaves one final index
    holding the union of all final ones followed by the others in their
    order; the same packed blobs are known, no duplicates appear in the merged
    index, and [Has] and the set of [Lookup] answers stay as they were. *)
Theorem MergeFinalIndexes_spec (mi : MasterIndex) (bh : BlobHandle) :
  master_wf mh mi -> lenZ (known (mi_idx mi)) <= 2 ^ 60 ->
  exists idx0 idx0' rest mi', mi_idx mi = idx0 :: rest /\ MergeFinalIndexes mh mi = Ok mi'
    /\ master_wf mh mi'
    /\ mi_idx mi' = idx0' :: filter (fun idx => final idx = false) rest /\ final idx0' = true
    /\ (NoDup (all_pbs idx0) -> NoDup (all_pbs idx0'))
    /\ (forall pb, pb ∈ known (mi_idx mi') <-> pb ∈ known (mi_idx mi))
    /\ MasterIndex_Has mh mi' bh = MasterIndex_Has mh mi bh
    /\ exists l l', MasterIndex_Lookup mh mi bh = Ok l /\ MasterIndex_Lookup mh mi' bh = Ok l'
       /\ forall pb, pb ∈ l' <-> pb ∈ l.
Proof.
  intros Hwf Hlen. destruct (MergeFinalIndexes_ok mh mi Hwf Hlen) as (i0 & i0' & rest & E0 & HE & W & F & Hel & Hnd & _).
  destruct (MergeFinalIndexes_Known mi _ Hwf Hlen HE) as (Hwf' & Hpend & Hk & _).
  exists i0, i0', rest. eexists. split; [done|]. split; [done|]. split; [done|]. split; [done|].
  split; [done|]. split; [done|]. split; [done|]. split.
  - apply eq_true_iff_eq. rewrite !MasterIndex_Has_spec by done. setoid_rewrite Hk. by rewrite Hpend.
  - destruct (MasterIndex_Lookup_spec mh mi bh Hwf) as (l & -> & Hl).
    destruct (MasterIndex_Lookup_spec mh _ bh Hwf') as (l' & -> & Hl').
    exists l, l'. split; [done|]. split; [done|]. intros pb.
    rewrite Hl, Hl', !list_elem_of_filter, Hk. done.
Qed.

(** rewriting the indexes loses nothing.  [Save] sends well-formed
    indexes that are not final and together hold, with multiplicities, exactly
    the packed blobs of all indexes but those of final indexes whose pack is
    blacklisted; all but the last are full; together they supersede the IDs
    of all final indexes and [extraObsolete], and [obsolete] is that set. *)
Theorem Save_complete `{MapOrderLaws} (clock : nat -> Z) (mi : MasterIndex) (bl : IDSet) (extra : list ID) :
  master_wf mh mi -> lenZ (known (mi_idx mi)) <= 2 ^ 60 ->
  exists sent last obsolete, Save mh clock mi bl extra = Ok (sent ++ [last], obsolete)
    /\ Forall (fun i => idx_wf mh i /\ final i = false) (sent ++ [last])
    /\ Forall (fun i => exists now, IndexFull now i = true) sent
    /\ known (sent ++ [last]) ≡ₚ concat (map (fun i =>
         filter (fun pb => final i = true -> pb_PackID pb ∉ bl) (all_pbs i)) (mi_idx mi))
    /\ concat (map Supersedes (sent ++ [last]))
       = concat (map (fun i => if final i then idx_ids i else []) (mi_idx mi)) ++ extra
    /\ obsolete = list_to_set (concat (map Supersedes (sent ++ [last]))).
Proof.
  intros [_ Hwf] Hlen. unfold Save.
  assert (Hs0 : save_inv mh (mkSave (NewIndex (clock 0%nat)) (NewIDSet []) [] 1) [] []).
  { split; try done. apply Forall_singleton. split; [exact (NewIndex_wf mh _)|done]. }
  destruct (save_indexes_spec mh clock bl (mi_idx mi) _ _ _ Hs0 Hwf ltac:(simpl length; lia))
    as (st & HE & [Hwfs Hk Hs Ho Hfull]).
  cbn [mbind res_bind] in HE |- *. rewrite HE. cbn [mbind res_bind]. cbn [app] in Hk, Hs.
  apply Forall_app in Hwfs as [Hwfs [[Hwfn Hfn] _]%Forall_cons].
  unfold AddToSupersedes. rewrite Hfn. cbn [mbind res_bind]. eexists (sv_sent st), _, _. split; [done|].
  set (last := mkIndex _ _ _ _ _ _ _ _).
  assert (Hsup : concat (map Supersedes (sv_sent st ++ [last])) = concat (map superseded_ids (mi_idx mi)) ++ extra).
  { rewrite <- Hs, !map_app, !concat_app. cbn [map concat]. unfold last, Supersedes. cbn [supersedes].
    by rewrite !app_nil_r, app_assoc. }
  split; [|split; [done|split; [|split; [exact Hsup|]]]].
  - apply Forall_app. split; [done|]. apply Forall_singleton. split; [exact Hwfn|done].
  - rewrite known_app in Hk |- *. exact Hk.
  - rewrite Hsup, Ho. apply set_eq. intros x. unfold IDSet_Merge, IDSet_Insert, NewIDSet.
    rewrite fold_insert, elem_of_elements, fold_insert, !elem_of_list_to_set, elem_of_app. set_solver.
Qed.

(** The contribution of the blobs of pack [x] to its size. *)
Definition size_of (onlyHdr : bool) (x : ID) (pbs : list PackedBlob) : Z :=
  foldr (fun pb n => (if bool_decide (pb_PackID pb = x)
                      then (if onlyHdr then 0 else b_Length (pb_Blob pb)) + EntrySize else 0) + n) 0 pbs.

Lemma size_of_nonneg onlyHdr x pbs : (forall pb, pb ∈ pbs -> 0 <= b_Length (pb_Blob pb)) -> 0 <= size_of onlyHdr x pbs.
Proof.
  induction pbs as [|pb pbs IH]; intros Hp; [done|]. cbn [size_of foldr]. fold (size_of onlyHdr x pbs).
  assert (0 <= b_Length (pb_Blob pb)) by (apply Hp, elem_of_cons; auto).
  specialize (IH ltac:(intros; apply Hp, elem_of_cons; auto)).
  unfold EntrySize, idSize, headerLengthSize. destruct (bool_decide _), onlyHdr; lia.
Qed.

Lemma add_sizes_spec onlyHdr pbs : forall m x,
  (forall pb, pb ∈ pbs -> 0 <= b_Length (pb_Blob pb)) ->
  0 <= default HeaderSize (m !! x) -> default HeaderSize (m !! x) + size_of onlyHdr x pbs < 2 ^ 63 ->
  fold_left (add_size onlyHdr) pbs m !! x =
    if bool_decide (x ∈ map pb_PackID pbs) then Some (default HeaderSize (m !! x) + size_of onlyHdr x pbs) else m !! x.
Proof.
  induction pbs as [|pb pbs IH]; intros m x Hp H0 Hlt; cbn [fold_left map].
  { by rewrite bool_decide_eq_false_2 by apply not_elem_of_nil. }
  cbn [size_of foldr] in Hlt. fold (size_of onlyHdr x pbs) in Hlt.
  assert (Hl : 0 <= b_Length (pb_Blob pb)) by (apply Hp, elem_of_cons; auto).
  assert (Hps : forall pb, pb ∈ pbs -> 0 <= b_Length (pb_Blob pb)) by (intros; apply Hp, elem_of_cons; auto).
  pose proof (size_of_nonneg onlyHdr x pbs Hps) as Hn.
  assert (HE : EntrySize = 37) by done.
  destruct (bool_decide (pb_PackID pb = x)) eqn:E; bool_norm.
  - cbn iota in Hlt. subst x. rewrite bool_decide_eq_true_2 by (apply elem_of_cons; auto).
    assert (Hadd : add_size onlyHdr m pb !! pb_PackID pb = Some (default HeaderSize (m !! pb_PackID pb)
       + ((if onlyHdr then 0 else b_Length (pb_Blob pb)) + EntrySize))).
    { unfold add_size. rewrite lookup_insert_eq. f_equal.
      destruct onlyHdr.
      - rewrite i64_small by lia. lia.
      - rewrite (i64_small (b_Length _)) by lia.
        rewrite (i64_small (default HeaderSize (m !! pb_PackID pb) + b_Length (pb_Blob pb))) by lia.
        rewrite i64_small by lia. lia. }
    rewrite IH; [|done|rewrite Hadd; simpl; destruct onlyHdr; lia|rewrite Hadd; simpl; lia].
    rewrite Hadd. cbn [default]. cbn [size_of foldr]. fold (size_of onlyHdr (pb_PackID pb) pbs).
    rewrite (bool_decide_eq_true_2 (pb_PackID pb = pb_PackID pb)) by done.
    case_bool_decide as Hin; [f_equal; cbn [from_option id]; lia|].
    assert (Hz : size_of onlyHdr (pb_PackID pb) pbs = 0).
    { clear -Hin. induction pbs as [|q pbs IH]; [done|]. cbn [size_of foldr]. fold (size_of onlyHdr (pb_PackID pb) pbs).
      cbn [map] in Hin. rewrite elem_of_cons in Hin. rewrite bool_decide_eq_false_2 by (intros Hq; apply Hin; left; by symmetry).
      rewrite IH by tauto. done. }
    f_equal. cbn [from_option id]. lia.
  - assert (Hadd : add_size onlyHdr m pb !! x = m !! x) by (unfold add_size; by rewrite lookup_insert_ne).
    rewrite IH by (rewrite ?Hadd; first [done|lia]). rewrite Hadd.
    cbn [size_of foldr]. fold (size_of onlyHdr x pbs). rewrite (bool_decide_eq_false_2 (pb_PackID pb = x)) by done.
    rewrite (bool_decide_ext (x ∈ map pb_PackID pbs) (x ∈ pb_PackID pb :: map pb_PackID pbs)).
    + done.
    + rewrite elem_of_cons. naive_solver.
Qed.

Lemma PackSize_lookup (mi : MasterIndex) (onlyHdr : bool) (x : ID) :
  master_wf mh mi -> HeaderSize + size_of onlyHdr x (known (mi_idx mi)) < 2 ^ 63 ->
  exists m, PackSize mi onlyHdr = Ok m
    /\ m !! x = if bool_decide (x ∈ map pb_PackID (known (mi_idx mi)))
                then Some (HeaderSize + size_of onlyHdr x (known (mi_idx mi))) else None.
Proof.
  intros Hwf Hlt. unfold PackSize. rewrite (MasterIndex_Each_spec mh) by done. cbn [mbind res_bind].
  eexists. split; [done|]. destruct Hwf as [_ Hwf].
  assert (Hl : forall pb, pb ∈ known (mi_idx mi) -> 0 <= b_Length (pb_Blob pb)).
  { intros pb Hin. unfold known in Hin. apply elem_of_concat in Hin as (l & Hl & Hpb).
    apply list_elem_of_fmap in Hl as (i & -> & Hi). rewrite Forall_forall in Hwf.
    by destruct (all_pbs_fits mh i pb (Hwf i Hi) Hpb) as [_ [? _]]. }
  rewrite (add_sizes_spec onlyHdr _ ∅ x Hl) by (rewrite lookup_empty; first [done|exact Hlt]).
  by rewrite lookup_empty.
Qed.

(** [PackSize] reports, for exactly the packs some known blob is in, the
    size of the pack's header plus (unless only the header is asked for) the
    lengths of its blobs: [HeaderSize] and per blob [EntrySize] and length, as
    long as the sum fits an [int64]. *)
Theorem PackSize_spec (mi : MasterIndex) (onlyHdr : bool) (x : ID) :
  master_wf mh mi -> HeaderSize + size_of onlyHdr x (known (mi_idx mi)) < 2 ^ 63 ->
  exists m, PackSize mi onlyHdr = Ok m
    /\ m !! x = if bool_decide (x ∈ map pb_PackID (known (mi_idx mi)))
                then Some (HeaderSize + size_of onlyHdr x (known (mi_idx mi))) else None.
Proof. apply PackSize_lookup. Qed.

End executions.

(** ** Witnesses *)

Definition sample_master : MasterIndex :=
  mkMaster [Finalize (NewIndex 0); Finalize sample_index; sample_index] ∅.

Lemma sample_master_wf : master_wf toy_mh sample_master.
Proof.
  destruct sample_index_spec as (Hwf & _). split; [by eexists _, _|].
  apply Forall_cons. split; [exact (NewIndex_wf toy_mh 0)|].
  apply Forall_cons. split; [exact Hwf|]. apply Forall_singleton. exact Hwf.
Qed.
Lemma sample_master_known : known (mi_idx sample_master)
  ≡ₚ map (fun b => mkPacked b sample_id) (sample_blobs ++ sample_blobs).
Proof.
  destruct sample_index_spec as (_ & Hp & _). unfold known, sample_master. cbn [mi_idx map concat].
  change (all_pbs (Finalize sample_index)) with (all_pbs sample_index).
  change (all_pbs (Finalize (NewIndex 0))) with (@nil PackedBlob). rewrite app_nil_r, map_app. cbn [app].
  by rewrite Hp.
Qed.
Lemma sample_master_size : lenZ (known (mi_idx sample_master)) <= 2 ^ 60.
Proof. rewrite sample_master_known. vm_compute. discriminate. Qed.

Definition sample_handle : BlobHandle := mkHandle (replicate 32 Byte.x09) DataBlob.

Lemma addPending_once_witness :
  MasterIndex_Has toy_mh (addPending toy_mh (NewMasterIndex 0) sample_handle).1 sample_handle = true.
Proof.
  exact (proj1 (proj2 (proj2 (addPending_once toy_mh (NewMasterIndex 0)
    (addPending toy_mh (NewMasterIndex 0) sample_handle).1 sample_handle (NewMasterIndex_wf toy_mh 0)) (rtc_refl _ _)))).
Defined.

Lemma MergeFinalIndexes_spec_witness :
  exists mi', MergeFinalIndexes toy_mh sample_master = Ok mi' /\ master_wf toy_mh mi'.
Proof.
  destruct (MergeFinalIndexes_spec toy_mh sample_master sample_handle sample_master_wf sample_master_size)
    as (_ & _ & _ & mi' & _ & H1 & H2 & _).
  exists mi'. exact (conj H1 H2).
Defined.

Lemma Save_complete_witness :
  exists sent obsolete, Save (H := toy_order) toy_mh (fun _ => 0) sample_master {[sample_id]} [nullID] = Ok (sent, obsolete).
Proof.
  destruct (Save_complete (H0 := toy_order_laws) toy_mh (fun _ => 0) sample_master {[sample_id]} [nullID]
    sample_master_wf sample_master_size) as (sent & last & obs & H1 & _).
  exists (sent ++ [last]), obs. exact H1.
Defined.

Lemma PackSize_spec_witness :
  exists m, PackSize sample_master false = Ok m.
Proof.
  destruct (PackSize_spec toy_mh sample_master false sample_id sample_master_wf) as (m & H1 & _).
  - assert (HP : forall l l', l ≡ₚ l' -> size_of false sample_id l = size_of false sample_id l').
    { intros l l' HP. unfold size_of. apply foldr_permutation; [apply _..| |done].
      intros. lia. }
    rewrite (HP _ _ sample_master_known). vm_compute. reflexivity.
  - exists m. exact H1.
Defined.
