(* ===== verification/Backend.v ===== *)
(** * Backend: storage backends

    The handle and reader types (src/restic/file.go, rewind_reader.go), the
    backend interface (src/restic/backend.go) as a record of operations, the
    in-memory backend (src/backend/mem), the dry-run, retrying and
    error-injecting wrappers (src/backend/dryrun, backend_retry.go,
    backend_error.go), and the functions on top of the interface
    (src/backend/utils.go, src/restic/readerat.go, backend_find.go).

    A backend's state is passed explicitly.  A context is the boolean
    [ctx.Err() != nil], constant during a call; a callback is a function on a
    client state [U].  A mutex is held for the whole critical section of a
    method, so a method is one step. *)

From S2P Require Import Prelude Crypto Ids Pack.

(** ** Errors *)

Inductive error : Type :=
| EMsg (msg : string)        (** [errors.New], [errors.Errorf] *)
| ENotFound                  (** [errNotFound] *)
| ECanceled                  (** [ctx.Err()] *)
| EEOF
| EUnexpectedEOF
| EPermanent (e : error)     (** [backoff.Permanent] *)
| EWrap (msg : string) (e : error)   (** [errors.Wrap] *)
| ECustom (n : Z).           (** an error of a callback *)
#[global] Instance error_eq_dec : EqDecision error.
Proof. solve_decision. Defined.

Definition ctx_err (ctx : bool) : option error := if ctx then Some ECanceled else None.

(** ** Handles (src/restic/file.go) *)

Definition PackFile : string := "data".
Definition KeyFile : string := "key".
Definition LockFile : string := "lock".
Definition SnapshotFile : string := "snapshot".
Definition IndexFile : string := "index".
Definition ConfigFile : string := "config".

Record Handle : Type := mkBeHandle {
  h_Type : string;
  h_ContainedBlobType : BlobType;
  h_Name : string;
}.
#[global] Instance Handle_eq_dec : EqDecision Handle.
Proof. solve_decision. Defined.
#[global] Instance Handle_countable : Countable Handle.
Proof.
  refine (inj_countable' (fun h => (h_Type h, h_ContainedBlobType h, h_Name h))
    (fun '(t, b, n) => mkBeHandle t b n) _). by intros [].
Defined.

Definition Handle_Valid (h : Handle) : option error :=
  if bool_decide (h_Type h = "") then Some (EMsg "type is empty")
  else if negb (bool_decide (h_Type h ∈ [PackFile; KeyFile; LockFile; SnapshotFile; IndexFile; ConfigFile]))
  then Some (EMsg "invalid Type")
  else if bool_decide (h_Type h = ConfigFile) then None
  else if bool_decide (h_Name h = "") then Some (EMsg "invalid Name")
  else None.

(** ** Readers *)

(** An [io.ReadCloser]: the bytes it still yields, the error after them
    ([None] is EOF) and the result of [Close]. *)
Record Reader : Type := mkReader { rd_bytes : list byte; rd_err : option error; rd_close : option error }.

(** A [RewindReader] over a byte slice or file: the data, the read position
    and the hash it reports. *)
Record RewindReader : Type := mkRewind { rr_data : list byte; rr_pos : nat; rr_hash : list byte }.
Definition Rewind (r : RewindReader) : RewindReader := mkRewind (rr_data r) 0 (rr_hash r).
Definition Length (r : RewindReader) : Z := lenZ (rr_data r).
(** [ioutil.ReadAll] *)
Definition read_all (r : RewindReader) : list byte * RewindReader :=
  (drop (rr_pos r) (rr_data r), mkRewind (rr_data r) (length (rr_data r)) (rr_hash r)).

Definition NewByteReader (hasher : option (list byte -> list byte)) (buf : list byte) : RewindReader :=
  mkRewind buf 0 (match hasher with Some f => f buf | None => [] end).
(** [NewFileReader] seeks to the end to learn the length, then rewinds. *)
Definition NewFileReader (f : list byte) (hash : list byte) : RewindReader := Rewind (mkRewind f (length f) hash).

Record FileInfo : Type := mkFileInfo { fi_Size : Z; fi_Name : string }.

(** A callback: the client state before and after, and its error. *)
Definition callback (A U : Type) : Type := A -> U -> U * option error.

(** ** The interface (src/restic/backend.go) *)

Record Backend (S : Type) : Type := mkBackend {
  be_Test : bool -> Handle -> S -> S * (bool * option error);
  be_Remove : bool -> Handle -> S -> S * option error;
  be_Save : bool -> Handle -> RewindReader -> S -> S * RewindReader * option error;
  be_Load : forall U, bool -> Handle -> Z -> Z -> callback Reader U -> U -> S -> S * U * option error;
  be_Stat : bool -> Handle -> S -> S * (FileInfo * option error);
  be_List : forall U, bool -> string -> callback FileInfo U -> U -> S -> S * U * option error;
  be_IsNotExist : error -> bool;
  be_Delete : bool -> S -> S * option error;
  be_Hasher : option (list byte -> list byte);
}.
Arguments be_Test {S}. Arguments be_Remove {S}. Arguments be_Save {S}. Arguments be_Load {S} _ {U}.
Arguments be_Stat {S}. Arguments be_List {S} _ {U}. Arguments be_IsNotExist {S}. Arguments be_Delete {S}.
Arguments be_Hasher {S}.

(** [DefaultLoad] (src/backend/utils.go): open, run [fn], close; the error of
    [fn] takes precedence over the one of [Close]. *)
Definition DefaultLoad {S U} (openReader : bool -> Handle -> Z -> Z -> S -> S * (Reader + error))
  (ctx : bool) (h : Handle) (length offset : Z) (fn : callback Reader U) (u : U) (s : S)
  : S * U * option error :=
  match openReader ctx h length offset s with
  | (s, inr e) => (s, u, Some e)
  | (s, inl rd) =>
      let '(u, err) := fn rd u in
      match err with Some e => (s, u, Some e) | None => (s, u, rd_close rd) end
  end.

(** [LoadAll]: the callback truncates the buffer each time it runs. *)
Definition LoadAll {S} (be : Backend S) (ctx : bool) (buf : list byte) (h : Handle) (s : S)
  : S * (list byte + error) :=
  let '(s, buf, err) := be_Load be ctx h 0 0 (fun rd buf =>
      match rd_err rd with
      | Some e => (buf, Some e)
      | None => (rd_bytes rd, None)
      end) buf s in
  (s, match err with Some e => inr e | None => inl buf end).

(** [io.ReadFull] into a buffer of [n] bytes. *)
Definition ReadFull (rd : Reader) (n : nat) : list byte * option error :=
  let got := take n (rd_bytes rd) in
  if bool_decide (length got = n) then (got, None)
  else match rd_err rd with
       | Some e => (got, Some e)
       | None => (got, Some (if bool_decide (got = []) then EEOF else EUnexpectedEOF))
       end.

(** [ReadAt] (src/restic/readerat.go): the filled part of [p]. *)
Definition ReadAt {S} (be : Backend S) (ctx : bool) (h : Handle) (offset : Z) (plen : nat) (s : S)
  : S * (list byte + error) :=
  let '(s, p, err) := be_Load be ctx h (Z.of_nat plen) offset (fun rd _ => ReadFull rd plen) [] s in
  (s, match err with Some e => inr e | None => inl p end).

(** ** The memory backend (src/backend/mem/mem_backend.go) *)

Module Mem.

Abbreviation memMap := (gmap Handle (list byte)).

Definition normalize (h : Handle) : Handle :=
  mkBeHandle (h_Type h) InvalidBlob (if bool_decide (h_Type h = ConfigFile) then "" else h_Name h).

Section mem.
(** [md5] of a whole message, and the order of [range] over the collected
    entries. *)
Context (md5 : list byte -> list byte) (range : gmap string Z -> list (string * Z)).

Definition New : memMap := ∅.

Definition Test (ctx : bool) (h : Handle) (data : memMap) : memMap * (bool * option error) :=
  match data !! h with Some _ => (data, (true, ctx_err ctx)) | None => (data, (false, ctx_err ctx)) end.

Definition IsNotExist (e : error) : bool := bool_decide (e = ENotFound).

Definition Save (ctx : bool) (h : Handle) (rd : RewindReader) (data : memMap)
  : memMap * RewindReader * option error :=
  match Handle_Valid h with
  | Some e => (data, rd, Some (EPermanent e))
  | None =>
      let h := normalize h in
      match data !! h with
      | Some _ => (data, rd, Some (EMsg "file already exists"))
      | None =>
          let '(buf, rd) := read_all rd in
          if bool_decide (lenZ buf ≠ Length rd) then (data, rd, Some (EMsg "wrote too few bytes"))
          else if bool_decide (md5 buf ≠ rr_hash rd) then (data, rd, Some (EMsg "invalid file hash or content"))
          else (<[h := buf]> data, rd, ctx_err ctx)
      end
  end.

Definition openReader (ctx : bool) (h : Handle) (length_ offset : Z) (data : memMap) : memMap * (Reader + error) :=
  match Handle_Valid h with
  | Some e => (data, inr (EPermanent e))
  | None =>
      let h := normalize h in
      if offset <? 0 then (data, inr (EMsg "offset is negative"))
      else match data !! h with
      | None => (data, inr ENotFound)
      | Some buf =>
          if lenZ buf <? offset then (data, inr (EMsg "offset beyond end of file"))
          else
            let buf := drop (Z.to_nat offset) buf in
            let buf := if (0 <? length_) && (length_ <? lenZ buf) then take (Z.to_nat length_) buf else buf in
            match ctx_err ctx with
            | Some e => (data, inr e)
            | None => (data, inl (mkReader buf None None))
            end
      end
  end.

Definition Load {U} (ctx : bool) (h : Handle) (length_ offset : Z) (fn : callback Reader U) (u : U) (data : memMap) :=
  DefaultLoad openReader ctx h length_ offset fn u data.

Definition Stat (ctx : bool) (h : Handle) (data : memMap) : memMap * (FileInfo * option error) :=
  match Handle_Valid h with
  | Some e => (data, (mkFileInfo 0 "", Some (EPermanent e)))
  | None =>
      let h := normalize h in
      match data !! h with
      | None => (data, (mkFileInfo 0 "", Some ENotFound))
      | Some e => (data, (mkFileInfo (lenZ e) (h_Name h), ctx_err ctx))
      end
  end.

(** [Remove] clears the blob type only. *)
Definition Remove (ctx : bool) (h : Handle) (data : memMap) : memMap * option error :=
  let h := mkBeHandle (h_Type h) InvalidBlob (h_Name h) in
  match data !! h with
  | None => (data, Some ENotFound)
  | Some _ => (delete h data, ctx_err ctx)
  end.

(** [List]: the entries of the type are collected in a map from names to
    sizes, then visited in the map's order. *)
Definition list_entries (t : string) (data : memMap) : gmap string Z :=
  fold_left (fun m '(h, buf) => if bool_decide (h_Type h ≠ t) then m else <[h_Name h := lenZ buf]> m)
    (map_to_list data) ∅.

Fixpoint list_loop {U} (ctx : bool) (fn : callback FileInfo U) (entries : list (string * Z)) (u : U) : U * option error :=
  match entries with
  | [] => (u, ctx_err ctx)
  | (name, size) :: entries =>
      match ctx_err ctx with
      | Some e => (u, Some e)
      | None =>
          let '(u, err) := fn (mkFileInfo size name) u in
          match err with
          | Some e => (u, Some e)
          | None =>
              match ctx_err ctx with
              | Some e => (u, Some e)
              | None => list_loop ctx fn entries u
              end
          end
      end
  end.
Definition List {U} (ctx : bool) (t : string) (fn : callback FileInfo U) (u : U) (data : memMap)
  : memMap * U * option error :=
  let '(u, err) := list_loop ctx fn (range (list_entries t data)) u in (data, u, err).

Definition Delete (ctx : bool) (data : memMap) : memMap * option error :=
  match ctx_err ctx with Some e => (data, Some e) | None => (∅, None) end.

Definition backend : Backend memMap := {|
  be_Test := Test; be_Remove := Remove; be_Save := Save; be_Load := @Load; be_Stat := Stat;
  be_List := @List; be_IsNotExist := IsNotExist; be_Delete := Delete; be_Hasher := Some md5 |}.

End mem.
End Mem.

(** ** The dry-run backend (src/backend/dryrun/dry_backend.go) *)

Module Dry.
Section dry.
Context {S : Type} (b : Backend S).

Definition Save (ctx : bool) (h : Handle) (rd : RewindReader) (s : S) : S * RewindReader * option error :=
  match Handle_Valid h with Some e => (s, rd, Some e) | None => (s, rd, None) end.
Definition Remove (ctx : bool) (h : Handle) (s : S) : S * option error := (s, None).
Definition Delete (ctx : bool) (s : S) : S * option error := (s, None).

Definition backend : Backend S := {|
  be_Test := be_Test b; be_Remove := Remove; be_Save := Save; be_Load := @be_Load _ b; be_Stat := be_Stat b;
  be_List := @be_List _ b; be_IsNotExist := be_IsNotExist b; be_Delete := Delete; be_Hasher := be_Hasher b |}.
End dry.
End Dry.

(** ** The retrying backend (src/backend/backend_retry.go) *)

(** [backoff.RetryNotify] with [WithMaxRetries] and [WithContext]: the maximal
    number of retries, whether the context is cancelled in a state, and the
    operation. *)
Class Backoff : Type := {
  retry_notify : forall St, nat -> (St -> bool) -> (St -> St * option error) -> St -> St * option error;
}.
(** The runs its documentation allows: until the operation succeeds or fails
    with a permanent error (which is unwrapped); it may give up after a
    failure, and does so when the context is cancelled. *)
Inductive retry_run {St} (cancelled : St -> bool) (f : St -> St * option error) : St -> St -> option error -> Prop :=
| rr_done st st' : f st = (st', None) -> retry_run cancelled f st st' None
| rr_perm st st' e : f st = (st', Some (EPermanent e)) -> retry_run cancelled f st st' (Some e)
| rr_stop st st' e e' : f st = (st', Some e) -> e' = e \/ e' = ECanceled -> retry_run cancelled f st st' (Some e')
| rr_again st st1 st' e r : f st = (st1, Some e) -> (forall p, e ≠ EPermanent p) -> cancelled st1 = false ->
    retry_run cancelled f st1 st' r -> retry_run cancelled f st st' r.
Class BackoffLaws `{Backoff} : Prop := {
  retry_notify_run St n cancelled (f : St -> St * option error) st :
    retry_run cancelled f st (retry_notify St n cancelled f st).1 (retry_notify St n cancelled f st).2;
}.

Module Retry.
Section retry.
Context `{Backoff} {S : Type} (b : Backend S) (MaxTries : nat).

(** [retry] for a context that is not cancelled during the operation. *)
Definition retry {St} (ctx : bool) (cancelled : St -> bool) (f : St -> St * option error) (st : St) : St * option error :=
  match ctx_err ctx with
  | Some e => (st, Some e)
  | None => retry_notify St MaxTries cancelled f st
  end.

Definition save_attempt (ctx : bool) (h : Handle) (st : S * RewindReader) : (S * RewindReader) * option error :=
  let '(s, rd) := st in
  let rd := Rewind rd in
  let '(s, rd, err) := be_Save b ctx h rd s in
  match err with
  | None => ((s, rd), None)
  | Some e => let '(s, _) := be_Remove b ctx h s in ((s, rd), Some e)
  end.
Definition Save (ctx : bool) (h : Handle) (rd : RewindReader) (s : S) : S * RewindReader * option error :=
  let '((s, rd), err) := retry ctx (fun _ => ctx) (save_attempt ctx h) (s, rd) in (s, rd, err).

Definition Load {U} (ctx : bool) (h : Handle) (length_ offset : Z) (fn : callback Reader U) (u : U) (s : S)
  : S * U * option error :=
  let '((s, u), err) := retry ctx (fun _ => ctx) (fun '(s, u) =>
      let '(s, u, err) := be_Load b ctx h length_ offset fn u s in ((s, u), err)) (s, u) in (s, u, err).

(** [Stat] and [Test] return what the last attempt assigned. *)
Definition Stat (ctx : bool) (h : Handle) (s : S) : S * (FileInfo * option error) :=
  let '((s, fi), err) := retry ctx (fun _ => ctx) (fun '(s, _) =>
      let '(s, (fi, err)) := be_Stat b ctx h s in ((s, fi), err)) (s, mkFileInfo 0 "") in (s, (fi, err)).
Definition Test (ctx : bool) (h : Handle) (s : S) : S * (bool * option error) :=
  let '((s, ex), err) := retry ctx (fun _ => ctx) (fun '(s, _) =>
      let '(s, (ex, err)) := be_Test b ctx h s in ((s, ex), err)) (s, false) in (s, (ex, err)).
Definition Remove (ctx : bool) (h : Handle) (s : S) : S * option error :=
  retry ctx (fun _ => ctx) (be_Remove b ctx h) s.

(** The variables [listed] and [innerErr] of [List] and the client's state. *)
Record list_state (U : Type) : Type := mkListState {
  ls_listed : gset string; ls_innerErr : option error; ls_user : U }.
Arguments mkListState {U}. Arguments ls_listed {U}. Arguments ls_innerErr {U}. Arguments ls_user {U}.

Definition list_callback {U} (fn : callback FileInfo U) : callback FileInfo (list_state U) := fun fi l =>
  if bool_decide (fi_Name fi ∈ ls_listed l) then (l, None)
  else
    let '(u, err) := fn fi (ls_user l) in
    (mkListState ({[fi_Name fi]} ∪ ls_listed l) err u, err).

(** [listCtx] is cancelled with [ctx] or once [fn] has failed. *)
Definition List {U} (ctx : bool) (t : string) (fn : callback FileInfo U) (u : U) (s : S) : S * U * option error :=
  let '((s, l), err) := retry ctx
      (fun st => ctx || match ls_innerErr st.2 with Some _ => true | None => false end)
      (fun '(s, l) => let '(s, l, err) := be_List b ctx t (list_callback fn) l s in ((s, l), err))
      (s, mkListState ∅ None u) in
  (s, ls_user l, match ls_innerErr l with Some e => Some e | None => err end).

Definition backend : Backend S := {|
  be_Test := Test; be_Remove := Remove; be_Save := Save; be_Load := @Load; be_Stat := Stat;
  be_List := @List; be_IsNotExist := be_IsNotExist b; be_Delete := be_Delete b; be_Hasher := be_Hasher b |}.
End retry.
Arguments mkListState {U}. Arguments ls_listed {U}. Arguments ls_innerErr {U}. Arguments ls_user {U}.
End Retry.

(** ** The error-injecting backend (src/backend/backend_error.go) *)

Module Err.
Section err.
(** [rand n] is the [n]-th value of [r.Float32()], as a fraction of 2^24; the
    state counts the draws. *)
Context {S : Type} (b : Backend S) (rand : nat -> Z) (rand_len : nat -> nat).
Context (FailSave FailSaveRead FailLoad FailStat : Z).

Definition fail (p : Z) (st : S * nat) : (S * nat) * bool := ((st.1, st.2 + 1)%nat, rand st.2 <? p).

(** [io.CopyN] of [n] bytes to nowhere: EOF when there are fewer. *)
Definition Save (ctx : bool) (h : Handle) (rd : RewindReader) (st : S * nat) : (S * nat) * RewindReader * option error :=
  let '(st, failed) := fail FailSave st in
  if (failed : bool) then (st, rd, Some (EMsg "random error induced"))
  else
    let '(st, failed) := fail FailSaveRead st in
    if (failed : bool) then
      let n := rand_len st.2 in
      let rest := (length (rr_data rd) - rr_pos rd)%nat in
      let rd := mkRewind (rr_data rd) (rr_pos rd + Nat.min n rest) (rr_hash rd) in
      (st, rd, Some (if (rest <? n)%nat then EEOF else EMsg "random error with partial read induced"))
    else
      let '(s, rd, err) := be_Save b ctx h rd st.1 in ((s, st.2), rd, err).

Definition Load {U} (ctx : bool) (h : Handle) (length_ offset : Z) (fn : callback Reader U) (u : U) (st : S * nat)
  : (S * nat) * U * option error :=
  let '(st, failed) := fail FailLoad st in
  if (failed : bool) then (st, u, Some (EMsg "random error induced"))
  else let '(s, u, err) := be_Load b ctx h length_ offset fn u st.1 in ((s, st.2), u, err).

(** [Stat] ends in [be.Stat], a call to itself; [None] when the fuel is used
    up. *)
Fixpoint Stat (fuel : nat) (ctx : bool) (h : Handle) (st : S * nat) : option ((S * nat) * (FileInfo * option error)) :=
  match fuel with
  | O => None
  | Datatypes.S fuel =>
      let '(st, failed) := fail FailLoad st in
      if (failed : bool) then Some (st, (mkFileInfo 0 "", Some (EMsg "random error induced")))
      else Stat fuel ctx h st
  end.
End err.
End Err.

(** ** Finding files by prefix (src/restic/backend_find.go) *)

Inductive find_error : Type := MultipleIDMatches | NoIDByPrefix | FindList (e : error).

Definition has_prefix (prefix name : string) : bool :=
  bool_decide (String.length prefix <= String.length name)%nat
  && bool_decide (prefix = String.substring 0 (String.length prefix) name).

(** The marker for the error the callback of [Find] returns. *)
Definition multiple : error := ECustom 1.
Definition find_callback (prefix : string) : callback FileInfo string := fun fi match_ =>
  if has_prefix prefix (fi_Name fi)
  then if bool_decide (match_ = "") then (fi_Name fi, None) else (match_, Some multiple)
  else (match_, None).
Definition Find {S} (be : Backend S) (ctx : bool) (t prefix : string) (s : S) : S * (string + find_error) :=
  let '(s, match_, err) := be_List be ctx t (find_callback prefix) "" s in
  (s, match err with
      | Some e => inr (if bool_decide (e = multiple) then MultipleIDMatches else FindList e)
      | None => if bool_decide (match_ ≠ "") then inl match_ else inr NoIDByPrefix
      end).

Definition minPrefixLength : nat := 8.

(** The inner loop: does a name have the prefix of length [l] of the one
    before it?  [name[:l]] panics on a shorter name. *)
Fixpoint repeats (l : nat) (last : string) (names : list string) : res error bool :=
  match names with
  | [] => Ok false
  | name :: names =>
      if (String.length name <? l)%nat then Panic "slice bounds out of range"
      else
        let p := String.substring 0 l name in
        if bool_decide (last = p) then Ok true else repeats l p names
  end.
Fixpoint prefix_loop (fuel l : nat) (names : list string) : res error nat :=
  match fuel with
  | O => Ok (Z.to_nat idSize)
  | S fuel =>
      again ← repeats l "" names;
      if (again : bool) then prefix_loop fuel (S l) names else Ok l
  end.
Definition PrefixLength {S} (be : Backend S) (ctx : bool) (t : string) (s : S) : S * res error nat :=
  let '(s, names, err) := be_List be ctx t (fun fi l => (l ++ [fi_Name fi], None)) [] s in
  (s, match err with
      | Some e => Err e
      | None => prefix_loop (Z.to_nat idSize - minPrefixLength) minPrefixLength names
      end).

(** ** What a backend promises *)

(** Calling a callback on a list of files, stopping at its first error. *)
Fixpoint call_all {A U} (fn : callback A U) (l : list A) (u : U) : U * option error :=
  match l with
  | [] => (u, None)
  | a :: l => let '(u, err) := fn a u in
      match err with Some e => (u, Some e) | None => call_all fn l u end
  end.

(** [List] runs the callback at most once on each file of the type, one after
    the other; it stops and returns the callback's error; when it succeeds it
    has run it once for each file.  [ECustom] errors are the callbacks'. *)
Class ListLaws {S} (b : Backend S) (files : S -> string -> list FileInfo) : Prop := {
  list_calls U ctx t (fn : callback FileInfo U) u s : exists s' fis err,
    be_List b ctx t fn u s = (s', (call_all fn fis u).1, err) /\ files s' t = files s t
    /\ (forall e, (call_all fn fis u).2 = Some e -> err = Some e)
    /\ (forall k, err = Some (ECustom k) -> (call_all fn fis u).2 = Some (ECustom k))
    /\ fis ⊆+ files s t
    /\ (err = None -> fis ≡ₚ files s t);
}.

(** A successful [Save] stores what the reader had left to read, under the
    handle's name [norm h]; saving and removing touch no other file. *)
Class StoreLaws {S} (b : Backend S) (norm : Handle -> Handle) (contents : S -> Handle -> option (list byte)) : Prop := {
  store_contents ctx h rd s s' rd' : be_Save b ctx h rd s = (s', rd', None) ->
    contents s' (norm h) = Some (drop (rr_pos rd) (rr_data rd));
  store_reader ctx h rd s s' rd' r : be_Save b ctx h rd s = (s', rd', r) -> rr_data rd' = rr_data rd;
  store_frame ctx h h' rd s s' rd' r : be_Save b ctx h rd s = (s', rd', r) ->
    norm h' ≠ norm h -> contents s' (norm h') = contents s (norm h');
  remove_frame ctx h h' s s' r : be_Remove b ctx h s = (s', r) ->
    norm h' ≠ norm h -> contents s' (norm h') = contents s (norm h');
}.

(** The part of a file [Load] yields. *)
Definition file_range (length_ offset : Z) (buf : list byte) : list byte :=
  let rest := drop (Z.to_nat offset) buf in
  if 0 <? length_ then take (Z.to_nat length_) rest else rest.

(** Loading a range of a file runs the callback on it and returns its error;
    loading changes no file; saving never replaces a file; names are types with, but for the
    configuration, a file name. *)
Class FileLaws {S} (b : Backend S) (norm : Handle -> Handle) (contents : S -> Handle -> option (list byte)) : Prop := {
  load_file U h length_ offset (fn : callback Reader U) u s file : Handle_Valid h = None ->
    contents s (norm h) = Some file -> 0 <= offset <= lenZ file ->
    be_Load b false h length_ offset fn u s
    = (s, (fn (mkReader (file_range length_ offset file) None None) u).1,
          (fn (mkReader (file_range length_ offset file) None None) u).2);
  save_keeps ctx h rd s s' rd' r file : contents s (norm h) = Some file ->
    be_Save b ctx h rd s = (s', rd', r) -> contents s' (norm h) = Some file;
  load_frame U ctx h length_ offset (fn : callback Reader U) u s s' u' r h' :
    be_Load b ctx h length_ offset fn u s = (s', u', r) -> contents s' (norm h') = contents s (norm h');
  norm_eq h h' : norm h = norm h' <->
    h_Type h = h_Type h' /\ (h_Type h = ConfigFile \/ h_Name h = h_Name h');
}.

(** What is not a file cannot be loaded. *)
Class MissingLaws {S} (b : Backend S) (norm : Handle -> Handle) (contents : S -> Handle -> option (list byte)) : Prop := {
  load_missing U h length_ offset (fn : callback Reader U) u s s' u' :
    be_Load b false h length_ offset fn u s = (s', u', None) -> Handle_Valid h = None /\ is_Some (contents s (norm h));
}.

(** Loading runs the callback on the requested part of the file, or fails
    without running it; it changes nothing.  What fails to be removed stays. *)
Class QuietLaws {S} (b : Backend S) (norm : Handle -> Handle) (contents : S -> Handle -> option (list byte)) : Prop := {
  load_once U h length_ offset (fn : callback Reader U) u s :
    (exists e, be_Load b false h length_ offset fn u s = (s, u, Some e))
    \/ (exists file, contents s (norm h) = Some file /\ be_Load b false h length_ offset fn u s
        = (s, (fn (mkReader (file_range length_ offset file) None None) u).1,
              (fn (mkReader (file_range length_ offset file) None None) u).2));
  stat_frame h s s' r h' : be_Stat b false h s = (s', r) -> contents s' (norm h') = contents s (norm h');
  remove_kept h s s' e h' : be_Remove b false h s = (s', Some e) -> contents s' (norm h') = contents s (norm h');
}.

(** The names that are listed: saving a file adds its name; looking at files
    and listing them changes nothing; [Test] tells whether a file is there. *)
Class DirLaws {S} (b : Backend S) (norm : Handle -> Handle) (contents : S -> Handle -> option (list byte))
    (files : S -> string -> list FileInfo) : Prop := {
  save_names ctx h rd s s' rd' t name : be_Save b ctx h rd s = (s', rd', None) -> t ≠ ConfigFile ->
    (name ∈ map fi_Name (files s' t) <-> name ∈ map fi_Name (files s t) \/ (t = h_Type h /\ name = h_Name h));
  list_frame U ctx t (fn : callback FileInfo U) u s s' u' r h :
    be_List b ctx t fn u s = (s', u', r) -> contents s' (norm h) = contents s (norm h);
  test_frame ctx h s s' r h' : be_Test b ctx h s = (s', r) -> contents s' (norm h') = contents s (norm h');
  test_names ctx h s s' r t : be_Test b ctx h s = (s', r) -> files s' t = files s t;
  test_value h s s' has : be_Test b false h s = (s', (has, None)) -> norm h = h ->
    has = bool_decide (is_Some (contents s (norm h)));
}.

(** *** Clients *)

(** A program that calls a backend and goes on with what it returns. *)
Inductive prog (A : Type) : Type :=
| Done (a : A)
| DoSave (h : Handle) (rd : RewindReader) (k : option error -> prog A)
| DoRemove (h : Handle) (k : option error -> prog A)
| DoLoad (U : Type) (h : Handle) (length_ offset : Z) (fn : callback Reader U) (u : U) (k : U -> option error -> prog A)
| DoStat (h : Handle) (k : FileInfo * option error -> prog A)
| DoTest (h : Handle) (k : bool * option error -> prog A)
| DoList (U : Type) (t : string) (fn : callback FileInfo U) (u : U) (k : U -> option error -> prog A).
Arguments Done {A} a. Arguments DoSave {A}. Arguments DoRemove {A}. Arguments DoLoad {A U}. Arguments DoStat {A}.
Arguments DoTest {A}. Arguments DoList {A U}.

Fixpoint run {S A} (b : Backend S) (p : prog A) (s : S) : S * A :=
  match p with
  | Done a => (s, a)
  | DoSave h rd k => let '(s, _, err) := be_Save b false h rd s in run b (k err) s
  | DoRemove h k => let '(s, err) := be_Remove b false h s in run b (k err) s
  | DoLoad h length_ offset fn u k =>
      let '(s, u, err) := be_Load b false h length_ offset fn u s in run b (k u err) s
  | DoStat h k => let '(s, r) := be_Stat b false h s in run b (k r) s
  | DoTest h k => let '(s, r) := be_Test b false h s in run b (k r) s
  | DoList t fn u k => let '(s, u, err) := be_List b false t fn u s in run b (k u err) s
  end.

(** *** The memory backend keeps these promises *)

Section mem_facts.
Context (md5 : list byte -> list byte) (range : gmap string Z -> list (string * Z)).
Context (range_perm : forall m, range m ≡ₚ map_to_list m).

Definition to_info (p : string * Z) : FileInfo := mkFileInfo p.2 p.1.
Definition mem_files (data : Mem.memMap) (t : string) : list FileInfo :=
  map to_info (map_to_list (Mem.list_entries t data)).

Lemma mem_list_loop U (fn : callback FileInfo U) l u :
  Mem.list_loop false fn l u = call_all fn (map to_info l) u.
Proof.
  revert u. induction l as [|[name size] l IH]; intros u; [done|].
  cbn [Mem.list_loop map]. change (to_info (name, size)) with (mkFileInfo size name). cbn [call_all ctx_err].
  destruct (fn (mkFileInfo size name) u) as [u' [e|]]; [reflexivity|apply IH].
Qed.

#[export] Instance mem_list_laws : ListLaws (Mem.backend md5 range) mem_files.
Proof.
  split. intros U ctx t fn u s. cbn [be_List Mem.backend]. unfold Mem.List. destruct ctx.
  - exists s, [], (Some ECanceled). cbn [call_all fst snd]. split; [by destruct (range _) as [|[n z] l]|].
    split_and!; try done. apply submseteq_nil_l.
  - exists s, (map to_info (range (Mem.list_entries t s))), (call_all fn (map to_info (range (Mem.list_entries t s))) u).2.
    rewrite mem_list_loop. destruct (call_all fn _ u) as [u' r]. split; [done|]. split; [done|]. split; [done|].
    unfold mem_files. split; [done|]. split; [|intros _]; by rewrite range_perm.
Qed.

Definition mem_contents (data : Mem.memMap) (h : Handle) : option (list byte) := data !! h.

Lemma normalize_idem h : Mem.normalize (Mem.normalize h) = Mem.normalize h.
Proof. unfold Mem.normalize; simpl. by case_bool_decide. Qed.

#[export] Instance mem_store_laws : StoreLaws (Mem.backend md5 range) Mem.normalize mem_contents.
Proof.
  split; cbn [be_Save be_Remove Mem.backend]; unfold Mem.Save, Mem.Remove, mem_contents, read_all.
  - intros ctx h rd s s' rd'. destruct (Handle_Valid h); [done|]. destruct (s !! Mem.normalize h); [done|].
    case_bool_decide; [done|]. case_bool_decide; [done|]. intros [= <- <- Hc]. apply lookup_insert_eq.
  - intros ctx h rd s s' rd' r. destruct (Handle_Valid h); [by intros [= <- <- <-]|].
    destruct (s !! Mem.normalize h); [by intros [= <- <- <-]|].
    case_bool_decide; [by intros [= <- <- <-]|]. case_bool_decide; by intros [= <- <- <-].
  - intros ctx h h' rd s s' rd' r HS Hne. destruct (Handle_Valid h); [by simplify_eq|].
    destruct (s !! Mem.normalize h); [by simplify_eq|].
    case_bool_decide; [by simplify_eq|]. case_bool_decide; simplify_eq; [done|by apply lookup_insert_ne].
  - intros ctx h h' s s' r HR Hne. destruct (s !! _) eqn:E; simplify_eq; [|done].
    apply lookup_delete_ne. intros Heq. apply Hne.
    destruct h as [t c nm], h' as [t' c' nm']. unfold Mem.normalize in *. simpl in *.
    injection Heq as -> ->. by case_bool_decide.
Qed.

Lemma Mem_openReader_state ctx h length_ offset (data data' : Mem.memMap) x :
  Mem.openReader ctx h length_ offset data = (data', x) -> data' = data.
Proof. unfold Mem.openReader. intros HO. repeat case_match; by simplify_eq. Qed.

Lemma mem_load_file U h length_ offset (fn : callback Reader U) u (data : Mem.memMap) file :
  Handle_Valid h = None -> data !! Mem.normalize h = Some file -> 0 <= offset <= lenZ file ->
  Mem.Load false h length_ offset fn u data
  = (data, (fn (mkReader (file_range length_ offset file) None None) u).1,
           (fn (mkReader (file_range length_ offset file) None None) u).2).
Proof.
  intros HV Hd Hoff. unfold Mem.Load, DefaultLoad, Mem.openReader. rewrite HV, Hd.
  destruct (Z.ltb_spec offset 0); [lia|].
  destruct (Z.ltb_spec (lenZ file) offset); [lia|]. cbn [ctx_err].
  assert (Hr : (if (0 <? length_) && (length_ <? lenZ (drop (Z.to_nat offset) file))
      then take (Z.to_nat length_) (drop (Z.to_nat offset) file) else drop (Z.to_nat offset) file)
      = file_range length_ offset file).
  { unfold file_range. destruct (Z.ltb_spec 0 length_); [|done]. cbn [andb].
    destruct (Z.ltb_spec length_ (lenZ (drop (Z.to_nat offset) file))); [done|].
    symmetry. apply take_ge. lia. }
  rewrite Hr. by destruct (fn _ u) as [u' [e|]].
Qed.

#[export] Instance mem_file_laws : FileLaws (Mem.backend md5 range) Mem.normalize mem_contents.
Proof.
  split.
  - intros. by apply mem_load_file.
  - intros ctx h rd s s' rd' r file Hf. cbn [be_Save Mem.backend]. unfold Mem.Save, mem_contents in *.
    destruct (Handle_Valid h); [by intros [= <- <- <-]|]. rewrite Hf. by intros [= <- <- <-].
  - intros U ctx h l o fn u s s' u' r h' HL. assert (s' = s); [|by subst].
    cbn [be_Load Mem.backend] in HL. unfold Mem.Load, DefaultLoad in HL.
    destruct (Mem.openReader ctx h l o s) as [s1 [rd|e]] eqn:EO; apply Mem_openReader_state in EO;
      repeat case_match; by simplify_eq.
  - intros [t c n] [t' c' n']. unfold Mem.normalize. simpl. split.
    + intros [= -> Hn]. split; [done|]. case_bool_decide; auto.
    + intros [-> [-> | ->]]; [by rewrite bool_decide_eq_true_2|done].
Qed.

#[export] Instance mem_quiet_laws : QuietLaws (Mem.backend md5 range) Mem.normalize mem_contents.
Proof.
  split.
  - intros U h l o fn u s. destruct (be_Load (Mem.backend md5 range) false h l o fn u s) as [[s' u'] r] eqn:E.
    destruct (Mem.openReader false h l o s) as [s1 [rd|e]] eqn:EO; cbn [be_Load Mem.backend] in E; unfold Mem.Load, DefaultLoad in E;
      rewrite EO in E; apply Mem_openReader_state in EO as Hs; subst s1; [right|left; injection E as <- <- <-; by eexists].
    assert (Handle_Valid h = None /\ exists file, s !! Mem.normalize h = Some file /\ 0 <= o <= lenZ file) as (HV & file & Hf & Ho).
    { unfold Mem.openReader in EO. destruct (Handle_Valid h); [done|]. split; [done|]. destruct (Z.ltb_spec o 0); [done|].
      destruct (s !! Mem.normalize h) as [buf|]; [|done]. destruct (Z.ltb_spec (lenZ buf) o); [done|]. exists buf. split; [done|lia]. }
    exists file. split; [done|]. rewrite <- (mem_load_file U h l o fn u s file HV Hf Ho).
    unfold Mem.Load, DefaultLoad. by rewrite EO, E.
  - intros h s s' r h' HS. cbn [be_Stat Mem.backend] in HS. unfold Mem.Stat in HS. destruct (Handle_Valid h); [by simplify_eq|].
    by destruct (s !! Mem.normalize h); simplify_eq.
  - intros h s s' e h'. cbn [be_Remove Mem.backend]. unfold Mem.Remove. by case_match; intros [= <- _].
Qed.

#[export] Instance mem_missing_laws : MissingLaws (Mem.backend md5 range) Mem.normalize mem_contents.
Proof.
  split. intros U h l o fn u s s' u'. cbn [be_Load Mem.backend]. unfold Mem.Load, DefaultLoad, Mem.openReader, mem_contents.
  destruct (Handle_Valid h); [done|]. destruct (o <? 0); [done|]. by destruct (s !! Mem.normalize h).
Qed.

Lemma mem_list_names (l : list (Handle * list byte)) (t name : string) (m : gmap string Z) :
  is_Some (fold_left (fun m '(h, buf) => if bool_decide (h_Type h ≠ t) then m else <[h_Name h := lenZ buf]> m) l m !! name)
  <-> is_Some (m !! name) \/ exists h buf, (h, buf) ∈ l /\ h_Type h = t /\ h_Name h = name.
Proof.
  revert m. induction l as [|[h buf] l IH]; intros m; cbn [fold_left].
  { split; [by left|]. by intros [Hm|(h & buf & Hin%elem_of_nil & _)]. }
  rewrite IH. setoid_rewrite elem_of_cons.
  transitivity ((is_Some (m !! name) \/ (h_Type h = t /\ h_Name h = name))
                \/ exists h' buf', (h', buf') ∈ l /\ h_Type h' = t /\ h_Name h' = name).
  - apply or_iff_compat_r. case_bool_decide as Ht; [by split; [left|intros [|[? _]]]|].
    destruct (decide (h_Name h = name)) as [<-|Hn].
    + rewrite lookup_insert_eq. split; [by right|by eexists].
    + rewrite lookup_insert_ne by done. split; [by left|by intros [|[_ ?]]].
  - split.
    + intros [[Hm|Hh]|(h' & b' & Hin & Hh)]; [by left|right; exists h, buf; auto|right; exists h', b'; auto].
    + intros [Hm|(h' & b' & [[= -> ->]|Hin] & Hh)]; [by left; left|by left; right|right; by exists h', b'].
Qed.

Lemma mem_files_names (data : Mem.memMap) t name :
  name ∈ map fi_Name (mem_files data t) <-> exists h, is_Some (data !! h) /\ h_Type h = t /\ h_Name h = name.
Proof.
  unfold mem_files. rewrite map_map.
  transitivity (is_Some (Mem.list_entries t data !! name)).
  - rewrite list_elem_of_fmap. split.
    + intros ([n z] & -> & Hin). apply elem_of_map_to_list in Hin. by exists z.
    + intros [z Hz]. exists (name, z). split; [done|]. by apply elem_of_map_to_list.
  - unfold Mem.list_entries. rewrite mem_list_names, lookup_empty. split.
    + intros [[? ?]|(h & buf & Hin & Hh)]; [done|]. apply elem_of_map_to_list in Hin. exists h. eauto.
    + intros (h & [buf Hb] & Hh). right. exists h, buf. by rewrite elem_of_map_to_list.
Qed.

#[export] Instance mem_dir_laws : DirLaws (Mem.backend md5 range) Mem.normalize mem_contents mem_files.
Proof.
  split; cbn [be_Save be_List be_Test Mem.backend]; unfold Mem.Save, Mem.List, Mem.Test, mem_contents, read_all.
  - intros ctx h rd s s' rd' t name. destruct (Handle_Valid h); [done|]. destruct (s !! Mem.normalize h) eqn:E; [done|].
    case_bool_decide; [done|]. case_bool_decide; [done|]. intros [= <- <- _] Ht. rewrite !mem_files_names. split.
    + intros (h' & Hs & <- & <-). destruct (decide (Mem.normalize h = h')) as [<-|Hne].
      * right. split; [done|]. unfold Mem.normalize in *. cbn [h_Type h_Name] in *. by rewrite bool_decide_eq_false_2.
      * rewrite lookup_insert_ne in Hs by done. left. eauto.
    + intros [(h' & Hs & <- & <-)|[-> ->]].
      * exists h'. split; [|done]. destruct (decide (Mem.normalize h = h')) as [<-|Hne]; [by rewrite lookup_insert_eq|].
        by rewrite lookup_insert_ne.
      * exists (Mem.normalize h). rewrite lookup_insert_eq. split; [done|]. unfold Mem.normalize. cbn [h_Type h_Name].
        by rewrite bool_decide_eq_false_2.
  - intros U ctx t fn u s s' u' r h. by destruct (Mem.list_loop _ _ _ _) as [? ?]; intros [= <- <- <-].
  - intros ctx h s s' r h'. destruct (s !! h); by intros [= <- _].
  - intros ctx h s s' r t. destruct (s !! h); by intros [= <- _].
  - intros h s s' has. intros HT ->. destruct (s !! h); by injection HT as <- <-.
Qed.

End mem_facts.

(** *** So does a retrying backend *)

Section retry_facts.
Context `{BackoffLaws} {S : Type} (b : Backend S) (n : nat).

(** [I] holds before each attempt, [J] after it; a failed attempt is followed
    by another one only when the context is not cancelled. *)
Lemma retry_run_inv {St} (I J : St -> Prop) cancelled (f : St -> St * option error) st st' r :
  (forall s s' e, I s -> f s = (s', e) -> J s') ->
  (forall s, J s -> cancelled s = false -> I s) ->
  retry_run cancelled f st st' r -> I st ->
  J st' /\ (r = None -> exists s, I s /\ f s = (st', None)).
Proof.
  intros Hstep Hback. induction 1 as [st st' E|st st' e E|st st' e e' E _|st st1 st' e r E _ Hc _ IH]; intros HI.
  - split; [by eapply Hstep|]. intros _. by exists st.
  - split; [by eapply Hstep|done].
  - split; [by eapply Hstep|done].
  - apply IH, Hback; [by eapply Hstep|done].
Qed.

Lemma retry_inv {St} (I J : St -> Prop) ctx cancelled (f : St -> St * option error) st st' r :
  (forall s s' e, I s -> f s = (s', e) -> J s') ->
  (forall s, J s -> cancelled s = false -> I s) -> J st -> I st ->
  Retry.retry n ctx cancelled f st = (st', r) ->
  J st' /\ (r = None -> ctx = false /\ exists s, I s /\ f s = (st', None)).
Proof.
  intros Hstep Hback HJ HI. unfold Retry.retry. destruct ctx; cbn [ctx_err].
  - by intros [= <- <-].
  - intros HR. pose proof (retry_notify_run St n cancelled f st) as Hrun. rewrite HR in Hrun. cbn [fst snd] in Hrun.
    destruct (retry_run_inv I J cancelled f st st' r Hstep Hback Hrun HI). auto.
Qed.

Context (norm : Handle -> Handle) (contents : S -> Handle -> option (list byte)) `{!StoreLaws b norm contents}.

(** During the attempts of [Save] the reader keeps its data and no other file
    changes. *)
Lemma retry_save_inv ctx h rd s s' rd' r : Retry.Save b n ctx h rd s = (s', rd', r) ->
  rr_data rd' = rr_data rd
  /\ (forall h', norm h' ≠ norm h -> contents s' (norm h') = contents s (norm h'))
  /\ (r = None -> ctx = false /\ contents s' (norm h) = Some (rr_data rd)).
Proof.
  unfold Retry.Save. destruct (Retry.retry _ _ _ _ _) as [[s1 rd1] err] eqn:E. intros [= -> -> ->].
  set (I := fun st : S * RewindReader => rr_data st.2 = rr_data rd
    /\ forall h', norm h' ≠ norm h -> contents st.1 (norm h') = contents s (norm h')).
  assert (Hstep : forall st st' e, I st -> Retry.save_attempt b ctx h st = (st', e) -> I st').
  { intros [s1 rd1] [s2 rd2] e [Hd Hc] HA. unfold Retry.save_attempt in HA.
    destruct (be_Save b ctx h (Rewind rd1) s1) as [[s3 rd3] e3] eqn:ES.
    pose proof (store_reader _ _ _ _ _ _ _ ES) as Hr. simpl in Hr, Hd, Hc.
    destruct e3 as [e3|]; [destruct (be_Remove b ctx h s3) as [s4 rr] eqn:ER|]; injection HA as <- <- _;
      (split; simpl; [congruence|]); intros h' Hne;
      rewrite ?(remove_frame _ _ _ _ _ _ ER Hne), (store_frame _ _ _ _ _ _ _ _ ES Hne); by apply Hc. }
  assert (HI0 : I (s, rd)) by done.
  destruct (retry_inv I I _ _ _ _ _ _ Hstep (fun _ HI _ => HI) HI0 HI0 E) as [[Hd Hc] Hok].
  split; [done|]. split; [done|]. intros ->. destruct Hok as (-> & [s1 rd1] & [Hd1 Hc1] & HA); [done|].
  split; [done|]. unfold Retry.save_attempt in HA.
  destruct (be_Save b false h (Rewind rd1) s1) as [[s3 rd3] [e3|]] eqn:ES; [by destruct (be_Remove _ _ _ _)|].
  injection HA as <- <-. pose proof (store_contents _ _ _ _ _ _ ES) as Hs. simpl in Hs. rewrite drop_0 in Hs.
  simpl in Hd1. congruence.
Qed.

End retry_facts.

Section retry_list.
Context `{BackoffLaws} {S : Type} (b : Backend S) (n : nat) (files : S -> string -> list FileInfo) `{!ListLaws b files}.
Context {U : Type} (fn : callback FileInfo U) (u : U).

Lemma call_all_app {A V} (f : callback A V) l1 l2 v :
  call_all f (l1 ++ l2) v = match (call_all f l1 v).2 with
                            | Some e => ((call_all f l1 v).1, Some e)
                            | None => call_all f l2 (call_all f l1 v).1
                            end.
Proof.
  revert v. induction l1 as [|a l1 IH]; intros v; [done|]. cbn [app call_all].
  destruct (f a v) as [v' [e|]]; [done|]. apply IH.
Qed.

(** The calls made so far explain the variables of [List]. *)
Definition list_inv (calls : list FileInfo) (l : Retry.list_state U) : Prop :=
  NoDup (map fi_Name calls) /\ Retry.ls_listed l = list_to_set (map fi_Name calls)
  /\ call_all fn calls u = (Retry.ls_user l, Retry.ls_innerErr l).

Lemma list_callback_inv fis calls l : list_inv calls l -> Retry.ls_innerErr l = None ->
  let '(l', e) := call_all (Retry.list_callback fn) fis l in
  exists calls', list_inv calls' l' /\ Retry.ls_innerErr l' = e
    /\ (forall fi, fi ∈ calls' -> fi ∈ calls \/ fi ∈ fis)
    /\ (e = None -> Retry.ls_listed l' = Retry.ls_listed l ∪ list_to_set (map fi_Name fis)).
Proof.
  revert calls l. induction fis as [|fi fis IH]; intros calls l Hinv Hnone; cbn [call_all map list_to_set].
  { exists calls. split; [done|]. split; [done|]. split; [auto|]. intros _. set_solver. }
  unfold Retry.list_callback at 1. case_bool_decide as Hin.
  - specialize (IH calls l Hinv Hnone). destruct (call_all _ fis l) as [l' e].
    destruct IH as (calls' & H1 & H2 & H3 & H4). exists calls'. split; [done|]. split; [done|]. split.
    + intros x Hx. rewrite elem_of_cons. apply H3 in Hx. tauto.
    + intros He. rewrite H4 by done. set_solver.
  - destruct Hinv as (Hn & Hl & Hc). destruct (fn fi (Retry.ls_user l)) as [u' err] eqn:Ef.
    assert (Hinv' : list_inv (calls ++ [fi]) (Retry.mkListState ({[fi_Name fi]} ∪ Retry.ls_listed l) err u')).
    { split; [|split]; simpl.
      - rewrite map_app. apply NoDup_app. split; [done|]. split; [|by apply NoDup_singleton].
        intros x Hx Hx'. apply list_elem_of_singleton in Hx' as ->. apply Hin. rewrite Hl.
        by apply elem_of_list_to_set.
      - rewrite map_app, list_to_set_app_L, Hl. simpl. set_solver.
      - rewrite call_all_app, Hc. cbn [fst snd]. rewrite Hnone. cbn [call_all]. rewrite Ef. by destruct err. }
    destruct err as [e|].
    + exists (calls ++ [fi]). split; [done|]. split; [done|]. split; [|done].
      clear. set_solver.
    + specialize (IH _ _ Hinv' eq_refl). destruct (call_all _ fis _) as [l' e].
      destruct IH as (calls' & H1 & H2 & H3 & H4). exists calls'. split; [done|]. split; [done|]. split.
      * clear -H3. set_solver.
      * intros He. rewrite H4 by done. simpl. set_solver.
Qed.

Lemma retry_list_inv ctx t s s' u' err : Retry.List b n ctx t fn u s = (s', u', err) ->
  files s' t = files s t
  /\ exists calls, NoDup (map fi_Name calls) /\ (call_all fn calls u).1 = u'
    /\ (forall e, (call_all fn calls u).2 = Some e -> err = Some e)
    /\ (forall fi, fi ∈ calls -> fi ∈ files s t)
    /\ (err = None -> forall x, x ∈ map fi_Name (files s t) -> x ∈ map fi_Name calls).
Proof.
  unfold Retry.List. destruct (Retry.retry _ _ _ _ _) as [[s1 l1] err1] eqn:E. intros [= -> <- Herr].
  set (J := fun st : S * Retry.list_state U => files st.1 t = files s t
    /\ exists calls, list_inv calls st.2 /\ forall fi, fi ∈ calls -> fi ∈ files s t).
  set (I := fun st => J st /\ Retry.ls_innerErr st.2 = None).
  assert (Hatt : forall s0 l0, I (s0, l0) -> exists s2 fis e2,
      be_List b ctx t (Retry.list_callback fn) l0 s0 = (s2, (call_all (Retry.list_callback fn) fis l0).1, e2)
      /\ J (s2, (call_all (Retry.list_callback fn) fis l0).1)
      /\ (e2 = None -> Retry.ls_innerErr (call_all (Retry.list_callback fn) fis l0).1 = None
           /\ Retry.ls_listed (call_all (Retry.list_callback fn) fis l0).1
              = Retry.ls_listed l0 ∪ list_to_set (map fi_Name (files s t)))).
  { intros s0 l0 [[Hf0 (calls0 & Hinv0 & Hin0)] Hi0]. simpl in Hf0, Hinv0, Hi0.
    destruct (list_calls _ ctx t (Retry.list_callback fn) l0 s0) as (s2 & fis & e2 & HE & Hf2 & Herr2 & _ & Hsub & Hfis).
    pose proof (list_callback_inv fis calls0 l0 Hinv0 Hi0) as HC.
    exists s2, fis, e2. split; [done|]. destruct (call_all _ fis l0) as [l2 ec] eqn:Ec. cbn [fst snd] in *.
    destruct HC as (calls2 & Hinv2 & Hi2 & Hin2 & Hl2). split.
    { split; [simpl; congruence|]. exists calls2. split; [done|]. intros fi Hfi.
      apply Hin2 in Hfi as [Hfi|Hfi]; [by apply Hin0|]. rewrite <- Hf0. by eapply elem_of_submseteq. }
    intros ->. destruct ec as [ec|]; [by specialize (Herr2 ec eq_refl)|]. split; [done|].
    rewrite Hl2 by done. rewrite <- Hf0, <- (Hfis eq_refl). done. }
  assert (Hstep : forall st st' e, I st ->
    (let '(s, l) := st in let '(s, l, err) := be_List b ctx t (Retry.list_callback fn) l s in ((s, l), err)) = (st', e) -> J st').
  { intros [s0 l0] st' e HI0. destruct (Hatt s0 l0 HI0) as (s2 & fis & e2 & HE & HJ & _). rewrite HE.
    by intros [= <- <-]. }
  assert (Hback : forall st, J st -> (ctx || match Retry.ls_innerErr st.2 with Some _ => true | None => false end) = false -> I st).
  { intros st HJ [_ Hn]%orb_false_iff. split; [done|]. by destruct (Retry.ls_innerErr st.2). }
  assert (HJ0 : J (s, Retry.mkListState ∅ None u)).
  { split; [done|]. exists []. split; [split; [constructor|by split]|]. by intros fi ?%elem_of_nil. }
  destruct (retry_inv n I J _ _ _ _ _ _ Hstep Hback HJ0 ltac:(by split) E) as [[Hfiles (calls & (Hn & Hl & Hc) & Hin)] Hok].
  split; [done|]. exists calls. simpl in Hc, Hl. split; [done|]. rewrite Hc. cbn [fst snd]. split; [done|]. split.
  { intros e He. by rewrite He in Herr. }
  split; [done|].
  intros ->. destruct (Retry.ls_innerErr l1) eqn:Ei; [done|]. subst err1.
  destruct Hok as (-> & [s2 l2] & HI2 & HA); [done|].
  destruct (Hatt s2 l2 HI2) as (s3 & fis & e3 & HE & _ & Hcomp). rewrite HE in HA. injection HA as <- <- ->.
  destruct (Hcomp eq_refl) as [_ Hlist]. rewrite Hlist in Hl.
  intros x Hx. apply (elem_of_list_to_set (C := gset string)). rewrite <- Hl. apply elem_of_union. right.
  by apply elem_of_list_to_set.
Qed.
End retry_list.

(** ** Properties *)

Section properties.
Context (md5 : list byte -> list byte) (range : gmap string Z -> list (string * Z)).

(** the memory backend is a map from file names to contents.  On a live
    context [Save] stores a valid handle's data exactly when the file does
    not exist yet and the data left in the reader has the announced length
    and hash; afterwards [Test], [Stat] and [Load] of the file see the new
    contents ([Load] any range of it, through the callback), and every other
    file is as before.  In all other cases the map does not change and an
    error is returned. *)
Theorem mem_save_spec (h h' : Handle) (rd : RewindReader) (data : Mem.memMap) :
  match Mem.Save md5 false h rd data with
  | (data', _, None) =>
      let buf := drop (rr_pos rd) (rr_data rd) in
      Handle_Valid h = None /\ data !! Mem.normalize h = None
      /\ lenZ buf = Length rd /\ md5 buf = rr_hash rd
      /\ Mem.Test false (Mem.normalize h) data' = (data', (true, None))
      /\ Mem.Stat false h data' = (data', (mkFileInfo (lenZ buf) (h_Name (Mem.normalize h)), None))
      /\ (forall U length_ offset (fn : callback Reader U) u, 0 <= offset <= lenZ buf ->
           Mem.Load false h length_ offset fn u data'
           = (data', (fn (mkReader (file_range length_ offset buf) None None) u).1,
                     (fn (mkReader (file_range length_ offset buf) None None) u).2))
      /\ (Mem.normalize h' ≠ Mem.normalize h -> data' !! Mem.normalize h' = data !! Mem.normalize h')
  | (data', _, Some e) =>
      data' = data /\ (e = EMsg "file already exists" -> data !! Mem.normalize h ≠ None)
  end.
Proof.
  unfold Mem.Save, read_all. destruct (Handle_Valid h) eqn:EV; [done|].
  destruct (data !! Mem.normalize h) eqn:Eh; [done|].
  case_bool_decide as Hlen; [done|]. case_bool_decide as Hmd5; [done|]. cbn [ctx_err].
  set (buf := drop (rr_pos rd) (rr_data rd)) in *. unfold Length in *. simpl in Hlen, Hmd5.
  assert (Hl : lenZ buf = lenZ (rr_data rd)) by lia.
  split; [done|]. split; [done|]. split; [done|].
  split; [destruct (decide (md5 buf = rr_hash rd)); [done|by destruct Hmd5]|].
  split; [unfold Mem.Test; by rewrite lookup_insert_eq|].
  split; [unfold Mem.Stat; by rewrite EV, lookup_insert_eq|]. split; [|intros Hne; by apply lookup_insert_ne].
  intros U length_ offset fn u Hoff. apply mem_load_file; [done|apply lookup_insert_eq|done].
Qed.

(** reading through the interface.  On a stored file [LoadAll] returns
    the whole contents, and [ReadAt] fills the buffer with exactly the bytes
    at the offset when the file has that many, and fails otherwise, the
    contract [pack.List] reads pack files under. *)
Theorem mem_read_spec (h : Handle) (data : Mem.memMap) (file buf : list byte) (offset : Z) (n : nat) :
  Handle_Valid h = None -> data !! Mem.normalize h = Some file ->
  LoadAll (Mem.backend md5 range) false buf h data = (data, inl file)
  /\ ReadAt (Mem.backend md5 range) false h offset (S n) data
     = (data, if bool_decide (0 <= offset) && bool_decide (offset + Z.of_nat (S n) <= lenZ file)
              then inl (take (S n) (drop (Z.to_nat offset) file))
              else inr (if bool_decide (offset < 0) then EMsg "offset is negative"
                        else if bool_decide (lenZ file < offset) then EMsg "offset beyond end of file"
                        else if bool_decide (offset = lenZ file) then EEOF else EUnexpectedEOF)).
Proof.
  intros HV Hd. split.
  - unfold LoadAll. cbn [be_Load Mem.backend]. unfold Mem.Load, DefaultLoad, Mem.openReader. rewrite HV, Hd.
    cbn [Z.ltb Z.compare]. destruct (Z.ltb_spec (lenZ file) 0); [lia|]. done.
  - unfold ReadAt. cbn [be_Load Mem.backend]. unfold Mem.Load, DefaultLoad, Mem.openReader. rewrite HV, Hd.
    destruct (Z.ltb_spec offset 0) as [Hneg|Hpos].
    { rewrite (bool_decide_eq_false_2 (0 <= offset)) by lia. by rewrite (bool_decide_eq_true_2 (offset < 0)) by lia. }
    rewrite (bool_decide_eq_true_2 (0 <= offset)) by lia. rewrite (bool_decide_eq_false_2 (offset < 0)) by lia.
    destruct (Z.ltb_spec (lenZ file) offset) as [Hbig|Hin].
    { rewrite (bool_decide_eq_false_2 (_ + _ <= _)) by lia. by rewrite bool_decide_eq_true_2 by lia. }
    rewrite (bool_decide_eq_false_2 (lenZ file < offset)) by lia. cbn [ctx_err andb].
    assert (Hlen : length (drop (Z.to_nat offset) file) = (length file - Z.to_nat offset)%nat) by apply length_drop.
    assert (Hrest : exists rest, rest = drop (Z.to_nat offset) file) by eauto. destruct Hrest as [rest Hrest].
    rewrite <- Hrest in *.
    assert (Htk : take (S n) (if (0 <? Z.of_nat (S n)) && (Z.of_nat (S n) <? lenZ rest)
                              then take (Z.to_nat (Z.of_nat (S n))) rest else rest) = take (S n) rest).
    { destruct ((0 <? Z.of_nat (S n)) && (Z.of_nat (S n) <? lenZ rest)); [|done].
      rewrite Nat2Z.id, take_take. by rewrite Nat.min_id. }
    unfold ReadFull. cbn [rd_bytes rd_err rd_close]. rewrite Htk, length_take.
    case_bool_decide as Hfull.
    + by rewrite bool_decide_eq_true_2 by lia.
    + rewrite (bool_decide_eq_false_2 (_ + _ <= _)) by lia. do 3 f_equal.
      case_bool_decide as Hnil; [rewrite bool_decide_eq_true_2 | rewrite bool_decide_eq_false_2]; try done.
      * destruct rest; [simpl in Hlen; lia|done].
      * intros Heq. apply Hnil. destruct rest; [done|simpl in Hlen; lia].
Qed.

End properties.

(** *** Retrying and searching *)

Section retry_properties.
Context `{BackoffLaws} {S : Type} (b : Backend S) (n : nat).

(** retried writes are whole.  However often [Save] fails and wherever
    the failed attempts left the reader, if the retrying [Save] succeeds then
    the context was live and the file holds the reader's complete data; in
    every case the reader keeps its data and no other file changes. *)
Theorem retry_save_whole norm contents `{!StoreLaws b norm contents} ctx h rd s :
  let '(s', rd', r) := Retry.Save b n ctx h rd s in
  rr_data rd' = rr_data rd
  /\ (forall h', norm h' ≠ norm h -> contents s' (norm h') = contents s (norm h'))
  /\ (r = None -> ctx = false /\ contents s' (norm h) = Some (rr_data rd)).
Proof.
  destruct (Retry.Save b n ctx h rd s) as [[s' rd'] r] eqn:E.
  exact (retry_save_inv b n norm contents ctx h rd s s' rd' r E).
Qed.

(** retried listings call back once.  Over all attempts of the retrying
    [List], the callback runs at most once per file name and only on existing
    files, an error of the callback ends the listing and is returned even when
    the backend reports another one, and if the listing succeeds the callback
    has seen every name. *)
Theorem retry_list_once files `{!ListLaws b files} {U} (fn : callback FileInfo U) u ctx t s :
  let '(s', u', err) := Retry.List b n ctx t fn u s in
  files s' t = files s t
  /\ exists calls, NoDup (map fi_Name calls) /\ (call_all fn calls u).1 = u'
    /\ (forall e, (call_all fn calls u).2 = Some e -> err = Some e)
    /\ (forall fi, fi ∈ calls -> fi ∈ files s t)
    /\ (err = None -> forall x, x ∈ map fi_Name (files s t) -> x ∈ map fi_Name calls).
Proof.
  destruct (Retry.List b n ctx t fn u s) as [[s' u'] err] eqn:E.
  exact (retry_list_inv b n files fn u ctx t s s' u' err E).
Qed.
End retry_properties.

Section find_facts.
Context (prefix : string).

Definition matching (l : list FileInfo) : list string := filter (fun name => has_prefix prefix name = true) (map fi_Name l).

Lemma find_found l m : m ≠ "" ->
  call_all (find_callback prefix) l m = match matching l with [] => (m, None) | _ => (m, Some multiple) end.
Proof.
  intros Hm. unfold matching. induction l as [|fi l IH]; [done|]. cbn [call_all map]. unfold find_callback at 1.
  rewrite filter_cons. destruct (has_prefix prefix (fi_Name fi)) eqn:E.
  - rewrite bool_decide_eq_false_2 by done. by rewrite decide_True.
  - rewrite decide_False by done. exact IH.
Qed.

Lemma find_loop l : (forall fi, fi ∈ l -> fi_Name fi ≠ "") ->
  call_all (find_callback prefix) l "" = match matching l with
    | [] => ("", None) | [name] => (name, None) | name :: _ => (name, Some multiple) end.
Proof.
  unfold matching. induction l as [|fi l IH]; intros Hne; [done|]. cbn [call_all map]. unfold find_callback at 1.
  rewrite filter_cons. destruct (has_prefix prefix (fi_Name fi)) eqn:E.
  - rewrite bool_decide_eq_true_2 by done. rewrite decide_True by done.
    rewrite find_found by (apply Hne, elem_of_cons; auto). unfold matching. by destruct (filter _ _).
  - rewrite decide_False by done. apply IH. intros x Hx. apply Hne, elem_of_cons. auto.
Qed.

Lemma matching_submseteq l l' : l ⊆+ l' -> (length (matching l) <= length (matching l'))%nat.
Proof.
  intros Hs. apply submseteq_Permutation in Hs as [k Hk].
  assert (Hp : matching l' ≡ₚ matching l ++ matching k).
  { unfold matching. rewrite <- filter_app, <- map_app. by rewrite Hk. }
  rewrite Hp, length_app. lia.
Qed.
End find_facts.

(** [Find] resolves a prefix to a file name exactly when it is unique: it
    returns a name only if that is the one listed name starting with the
    prefix, reports ambiguity only if there are several, reports that there is
    none only if there is none, and any other error is the listing's. *)
Theorem Find_spec {S} (b : Backend S) files `{!ListLaws b files} ctx t prefix s :
  (forall fi, fi ∈ files s t -> fi_Name fi ≠ "") ->
  match (Find b ctx t prefix s).2 with
  | inl name => matching prefix (files s t) = [name]
  | inr NoIDByPrefix => matching prefix (files s t) = []
  | inr MultipleIDMatches => (2 <= length (matching prefix (files s t)))%nat
  | inr (FindList e) => forall n, e ≠ ECustom n
  end.
Proof.
  intros Hne. unfold Find.
  destruct (list_calls _ ctx t (find_callback prefix) "" s) as (s' & fis & err & -> & _ & Herr & Hcust & Hsub & Hall).
  cbn [snd]. rewrite find_loop in Herr, Hcust |- * by (intros fi Hfi; eapply Hne, elem_of_submseteq; done).
  pose proof (matching_submseteq prefix fis _ Hsub) as Hle.
  destruct err as [e|].
  - case_bool_decide as He.
    + subst e. destruct (matching prefix fis) as [|x [|y l]].
      * by specialize (Hcust 1 eq_refl).
      * by specialize (Hcust 1 eq_refl).
      * simpl in Hle. lia.
    + intros k ->. specialize (Hcust k eq_refl). destruct (matching prefix fis) as [|x [|y l]]; try done.
      injection Hcust as Hc. apply He. by subst k.
  - assert (Hp : matching prefix (files s t) ≡ₚ matching prefix fis).
    { unfold matching. by rewrite (Hall eq_refl). }
    assert (Hin : forall x, x ∈ matching prefix fis -> x ≠ "").
    { intros x [_ Hx]%list_elem_of_filter. apply list_elem_of_fmap in Hx as (fi & -> & Hfi).
      eapply Hne, elem_of_submseteq; done. }
    destruct (matching prefix fis) as [|x [|y l]]; cbn [fst snd] in *.
    + by apply Permutation_nil_r in Hp.
    + rewrite bool_decide_eq_true_2 by (apply Hin, elem_of_cons; auto). by apply Permutation_singleton_r in Hp.
    + by specialize (Herr _ eq_refl).
Qed.

(** Calls of the modifying operations of the dry-run backend. *)
Inductive dry_op : Type :=
| DrySave (ctx : bool) (h : Handle) (rd : RewindReader)
| DryRemove (ctx : bool) (h : Handle)
| DryDelete (ctx : bool).
Definition run_dry {S} (b : Backend S) (o : dry_op) (s : S) : S * option error :=
  match o with
  | DrySave ctx h rd => let '(s, _, e) := be_Save (Dry.backend b) ctx h rd s in (s, e)
  | DryRemove ctx h => be_Remove (Dry.backend b) ctx h s
  | DryDelete ctx => be_Delete (Dry.backend b) ctx s
  end.

Lemma dry_run_preserves {S} (b : Backend S) (s : S) (ops : list dry_op) :
  fold_left (fun s o => (run_dry b o s).1) ops s = s.
Proof.
  induction ops as [|o ops IH]; [done|]. simpl.
  destruct o; simpl; unfold Dry.Save; [destruct (Handle_Valid h)|..]; exact IH.
Qed.

(** ** Concrete instances *)

Fixpoint toy_retry {St} (n : nat) (cancelled : St -> bool) (f : St -> St * option error) (st : St) : St * option error :=
  match f st with
  | (st, None) => (st, None)
  | (st, Some (EPermanent e)) => (st, Some e)
  | (st, Some e) =>
      match n with
      | O => (st, Some e)
      | S n => if cancelled st then (st, Some ECanceled) else toy_retry n cancelled f st
      end
  end.
Definition toy_backoff : Backoff := {| retry_notify := @toy_retry |}.
Lemma toy_backoff_laws : @BackoffLaws toy_backoff.
Proof.
  split. intros St n cancelled f. cbn [retry_notify toy_backoff].
  induction n as [|n IH]; intros st; cbn [toy_retry];
    destruct (f st) as [st1 [e|]] eqn:E; try by apply rr_done.
  - destruct e; try (eapply rr_stop; [exact E|by left]). by apply rr_perm.
  - destruct e; try by apply rr_perm.
    all: destruct (cancelled st1) eqn:Ec; [eapply rr_stop; [exact E|by right]|].
    all: eapply rr_again; [exact E|done|done|apply IH].
Qed.

Definition toy_md5 (l : list byte) : list byte := take 16 (l ++ replicate 16 Byte.x00).
Definition toy_mem : Backend Mem.memMap := Mem.backend toy_md5 map_to_list.
Definition toy_file : list byte := map Z_byte (seqZ 10 40).
Definition toy_handle : Handle := mkBeHandle PackFile DataBlob "3f0011".
Definition toy_data : Mem.memMap := {[Mem.normalize toy_handle := toy_file]}.

Lemma mem_read_spec_witness :
  LoadAll toy_mem false [] toy_handle toy_data = (toy_data, inl toy_file)
  /\ ReadAt toy_mem false toy_handle 35 10 toy_data = (toy_data, inr EUnexpectedEOF).
Proof.
  destruct (mem_read_spec toy_md5 map_to_list toy_handle toy_data toy_file [] 35 9) as [H1 H2];
    [reflexivity|reflexivity|]. exact (conj H1 H2).
Defined.

Lemma retry_save_whole_witness :
  let '(s', rd', r) := Retry.Save (H := toy_backoff) toy_mem 3 false toy_handle (mkRewind toy_file 7 (toy_md5 toy_file)) ∅ in
  rr_data rd' = toy_file
  /\ (forall h', Mem.normalize h' ≠ Mem.normalize toy_handle -> mem_contents s' (Mem.normalize h') = mem_contents ∅ (Mem.normalize h'))
  /\ (r = None -> false = false /\ mem_contents s' (Mem.normalize toy_handle) = Some toy_file).
Proof.
  exact (retry_save_whole (H0 := toy_backoff_laws) toy_mem 3 Mem.normalize mem_contents
    (StoreLaws0 := mem_store_laws toy_md5 map_to_list) false toy_handle (mkRewind toy_file 7 (toy_md5 toy_file)) ∅).
Defined.

Lemma retry_list_once_witness :
  let '(s', u', err) := Retry.List (H := toy_backoff) toy_mem 3 false PackFile (fun fi l => (fi_Name fi :: l, None)) [] toy_data in
  mem_files s' PackFile = mem_files toy_data PackFile
  /\ exists calls, NoDup (map fi_Name calls) /\ (call_all (fun fi l => (fi_Name fi :: l, None)) calls []).1 = u'
    /\ (forall e, (call_all (fun fi (l : list string) => (fi_Name fi :: l, None)) calls []).2 = Some e -> err = Some e)
    /\ (forall fi, fi ∈ calls -> fi ∈ mem_files toy_data PackFile)
    /\ (err = None -> forall x, x ∈ map fi_Name (mem_files toy_data PackFile) -> x ∈ map fi_Name calls).
Proof.
  exact (retry_list_once (H0 := toy_backoff_laws) toy_mem 3 mem_files
    (ListLaws0 := mem_list_laws toy_md5 map_to_list (fun m => reflexivity _))
    (fun fi l => (fi_Name fi :: l, None)) [] false PackFile toy_data).
Defined.

Lemma Find_spec_witness : matching "3f" (mem_files toy_data PackFile) = ["3f0011"%string].
Proof.
  pose proof (Find_spec toy_mem mem_files (ListLaws0 := mem_list_laws toy_md5 map_to_list (fun m => reflexivity _))
    false PackFile "3f" toy_data) as H.
  assert (HE : (Find toy_mem false PackFile "3f" toy_data).2 = inl "3f0011"%string) by (vm_compute; reflexivity).
  rewrite HE in H. apply H. intros fi Hfi.
  assert (HL : mem_files toy_data PackFile = [mkFileInfo 40 "3f0011"]) by (vm_compute; reflexivity).
  rewrite HL in Hfi. apply list_elem_of_singleton in Hfi as ->. discriminate.
Defined.

(** ** Observations *)

(** [ErrorBackend.Stat] never reaches the wrapped backend: unless a failure is
    drawn it calls itself for ever. *)
Lemma ErrorBackend_Stat_diverges {S} (rand : nat -> Z) (FailLoad : Z) fuel ctx h (st : S * nat) :
  (forall k, FailLoad <= rand k) -> Err.Stat rand FailLoad fuel ctx h st = None.
Proof.
  intros Hr. revert st. induction fuel as [|fuel IH]; intros st; [done|]. cbn [Err.Stat]. unfold Err.fail.
  specialize (Hr st.2) as Hk. destruct (Z.ltb_spec (rand st.2) FailLoad); [lia|]. apply IH.
Qed.

(** [Test] and [Remove] of the memory backend look a handle up as it is, the
    other operations by its normalised form. *)
Lemma mem_handle_forms : exists data,
  (Mem.Stat false (mkBeHandle PackFile DataBlob "ab") data).2.2 = None
  /\ (Mem.Test false (mkBeHandle PackFile DataBlob "ab") data).2 = (false, None)
  /\ (Mem.Stat false (mkBeHandle ConfigFile InvalidBlob "x") data).2.2 = None
  /\ (Mem.Remove false (mkBeHandle ConfigFile InvalidBlob "x") data).2 = Some ENotFound.
Proof.
  exists (<[mkBeHandle PackFile InvalidBlob "ab" := []]> {[mkBeHandle ConfigFile InvalidBlob "" := []]}).
  vm_compute. done.
Qed.

(** [PrefixLength] compares each name with the one before it only: here it
    answers 8 although two names share their first 8 characters. *)
Lemma PrefixLength_consecutive :
  prefix_loop 24 8 ["aaaaaaaa1"; "bbbbbbbb1"; "aaaaaaaa2"]%string = Ok 8%nat.
Proof. reflexivity. Qed.

(** A retried [Save] of an existing file removes it, then writes anew. *)
Lemma retry_save_replaces :
  (Retry.Save (H := toy_backoff) toy_mem 3 false toy_handle (mkRewind [Byte.x61] 0 (toy_md5 [Byte.x61])) toy_data).1.1
    !! Mem.normalize toy_handle = Some [Byte.x61].
Proof. vm_compute. reflexivity. Qed.
