(* ===== verification/Repository.v ===== *)
(** * Repository: storing and loading blobs and files

    src/repository/repository.go, packer_manager.go, index_parallel.go and
    repack.go on top of the backend interface, the packer and the master
    index.

    The methods run in a state and error monad over the repository's state.
    Random nonces, the clock, SHA-256 and JSON are parameters.  Temporary
    files are kept in memory and do not fail.  The context is live during a
    call.  Parallel workers are run one after the other in the order given by
    the listing; the master index and the packer lists are guarded by mutexes
    held for each of their operations. *)

From S2P Require Import Prelude Crypto Ids Pack IndexMap Index MasterIndex Backend.

Inductive repo_error : Type :=
| RBackend (e : Backend.error)
| RCrypto (e : crypto_error)
| RPack (e : pack_error read_error)
| RListPack (e : pack_error Backend.error)
| RIndex (e : index_error)
| RFind (e : find_error)
| RID (e : id_error)
| RMsg (msg : string).

Definition lift_err {E A} (f : E -> repo_error) (r : res E A) : res repo_error A :=
  match r with Ok a => Ok a | Err e => Err (f e) | Panic m => Panic m end.

(** A packer writing to a temporary file (src/repository/packer_manager.go);
    both hash writers have seen exactly the file's contents. *)
Abbreviation RPacker := (Packer (list byte)).

(** The mutable part of a repository; [r_tick] and [r_rnd] count the readings
    of the clock and the nonces drawn. *)
Record Repo (S : Type) : Type := mkRepo {
  r_be : S;
  r_idx : MasterIndex;
  r_treePM : list RPacker;
  r_dataPM : list RPacker;
  r_noAutoIndexUpdate : bool;
  r_tick : nat;
  r_rnd : nat;
}.
Arguments mkRepo {S}. Arguments r_be {S}. Arguments r_idx {S}. Arguments r_treePM {S}. Arguments r_dataPM {S}.
Arguments r_noAutoIndexUpdate {S}. Arguments r_tick {S}. Arguments r_rnd {S}.

Definition minPackSize : Z := 4 * 1024 * 1024.

(** ** The monad *)

Definition M (S A : Type) : Type := Repo S -> Repo S * res repo_error A.

Section monad.
Context {S : Type}.

Definition ret {A} (a : A) : M S A := fun r => (r, Ok a).
Definition bind {A B} (m : M S A) (f : A -> M S B) : M S B := fun r =>
  match m r with
  | (r, Ok a) => f a r
  | (r, Err e) => (r, Err e)
  | (r, Panic msg) => (r, Panic msg)
  end.
Definition lift {A} (x : res repo_error A) : M S A := fun r => (r, x).
Definition throw {A} (e : repo_error) : M S A := fun r => (r, Err e).
Definition get_repo : M S (Repo S) := fun r => (r, Ok r).
Definition set_be (s : S) : M S unit := fun r =>
  (mkRepo s (r_idx r) (r_treePM r) (r_dataPM r) (r_noAutoIndexUpdate r) (r_tick r) (r_rnd r), Ok tt).
Definition set_idx (mi : MasterIndex) : M S unit := fun r =>
  (mkRepo (r_be r) mi (r_treePM r) (r_dataPM r) (r_noAutoIndexUpdate r) (r_tick r) (r_rnd r), Ok tt).
(** The packer managers: one per blob type. *)
Definition pm_of (t : BlobType) (r : Repo S) : list RPacker :=
  match t with TreeBlob => r_treePM r | _ => r_dataPM r end.
Definition set_pm (t : BlobType) (l : list RPacker) : M S unit := fun r =>
  (match t with
   | TreeBlob => mkRepo (r_be r) (r_idx r) l (r_dataPM r) (r_noAutoIndexUpdate r) (r_tick r) (r_rnd r)
   | _ => mkRepo (r_be r) (r_idx r) (r_treePM r) l (r_noAutoIndexUpdate r) (r_tick r) (r_rnd r)
   end, Ok tt).
End monad.

Declare Scope repo_scope.
Delimit Scope repo_scope with repo.
Notation "x <- m ;; k" := (bind m (fun x => k)) (at level 100, m at next level, right associativity) : repo_scope.
Notation "' x <- m ;; k" := (bind m (fun x => k)) (at level 20, x pattern, m at level 99, k at level 200, only parsing) : repo_scope.
Notation "m ;;; k" := (bind m (fun _ => k)) (at level 100, right associativity) : repo_scope.
#[local] Open Scope repo_scope.

(** ** sortCachedPacksFirst

    [cached := blobs[:0]] shares the array of [blobs]: the loop overwrites
    cells it has already read.  [c] is [len(cached)]. *)
Definition sort_step {A} (has : A -> bool) (st : list A * nat * list A) (i : nat) : list A * nat * list A :=
  let '(arr, c, noncached) := st in
  match arr !! i with
  | None => st
  | Some blob =>
      if has blob then (<[c := blob]> arr, S c, noncached) else (arr, c, noncached ++ [blob])
  end.
Definition sortCachedPacksFirst (cache : option (Handle -> bool)) (blobs : list PackedBlob) : list PackedBlob :=
  match cache with
  | None => blobs
  | Some has =>
      if bool_decide (length blobs = 1%nat) then blobs
      else
        let has_pack pb := has (mkBeHandle PackFile InvalidBlob (ID_String (pb_PackID pb))) in
        let '(arr, c, noncached) := fold_left (sort_step has_pack) (seq 0 (length blobs)) (blobs, 0%nat, []) in
        take c arr ++ noncached ++ drop (c + length noncached) arr
  end.

Section repository.
Context {S : Type} (be : Backend S) `{CP : CryptoPrims} `{IC : IndexCodec}.
Context (mh : ID -> Z) (Hash : list byte -> ID) (nonce : nat -> list byte) (clock : nat -> Z).
Context (key : Key) (cache : option (Handle -> bool)).

Definition now : M S Z := fun r =>
  (mkRepo (r_be r) (r_idx r) (r_treePM r) (r_dataPM r) (r_noAutoIndexUpdate r) (Datatypes.S (r_tick r)) (r_rnd r),
   Ok (clock (r_tick r))).
Definition NewRandomNonce : M S (list byte) := fun r =>
  (mkRepo (r_be r) (r_idx r) (r_treePM r) (r_dataPM r) (r_noAutoIndexUpdate r) (r_tick r) (Datatypes.S (r_rnd r)),
   Ok (nonce (r_rnd r))).

(** Backend calls. *)
Definition be_read {A} (f : S -> S * (A + Backend.error)) : M S A := fun r =>
  let '(s, x) := f (r_be r) in
  (mkRepo s (r_idx r) (r_treePM r) (r_dataPM r) (r_noAutoIndexUpdate r) (r_tick r) (r_rnd r),
   match x with inl a => Ok a | inr e => Err (RBackend e) end).
Definition be_save (h : Handle) (rd : RewindReader) : M S unit := fun r =>
  let '(s, _, err) := be_Save be false h rd (r_be r) in
  (mkRepo s (r_idx r) (r_treePM r) (r_dataPM r) (r_noAutoIndexUpdate r) (r_tick r) (r_rnd r),
   match err with None => Ok tt | Some e => Err (RBackend e) end).

(** [nonce, ciphertext := buf[:NonceSize], buf[NonceSize:]] and [key.Open]
    in place.  [Open] may mask the shared key, which does not change what
    later calls compute. *)
Definition decrypt (buf : list byte) : res repo_error (list byte) :=
  match gslice buf 0 (NonceSize key), gslice buf (NonceSize key) (lenZ buf) with
  | Ok n, Ok ct => lift_err RCrypto (match Open key (mkSlice [] ct) n ct [] with
                                     | Ok (_, p) => Ok p | Err e => Err e | Panic m => Panic m end)
  | Panic m, _ | _, Panic m => Panic m
  | Err e, _ | _, Err e => Err e
  end.

(** The nonce and the sealed data after it, for a buffer of capacity [cap]. *)
Definition encrypt (cap : Z) (n data : list byte) : res repo_error (list byte) :=
  lift_err RCrypto (match Seal key (mkSlice n (replicate (Z.to_nat cap - length n) Byte.x00)) n data [] with
                    | Ok (_, c) => Ok c | Err e => Err e | Panic m => Panic m end).

Definition LoadAndDecrypt (t : string) (id : ID) : M S (list byte) :=
  let id := if bool_decide (t = ConfigFile) then nullID else id in
  let h := mkBeHandle t InvalidBlob (ID_String id) in
  buf <- be_read (LoadAll be false [] h);;
  if negb (bool_decide (t = ConfigFile)) && negb (Equal (Hash buf) id)
  then throw (RMsg "invalid data returned")
  else lift (decrypt buf).

(** The loop of [LoadBlob] over the candidate packs. *)
Fixpoint load_packs (t : BlobType) (id : ID) (blobs : list PackedBlob) (lastError : option repo_error) : M S (list byte) :=
  match blobs with
  | [] => throw (match lastError with Some e => e | None => RMsg "loading blob failed" end)
  | blob :: blobs => fun r =>
      let bt := if IsMixedPack (r_idx r) (pb_PackID blob) then InvalidBlob else t in
      let h := mkBeHandle PackFile bt (ID_String (pb_PackID blob)) in
      match be_read (ReadAt be false h (b_Offset (pb_Blob blob)) (Z.to_nat (b_Length (pb_Blob blob)))) r with
      | (r, Err e) => load_packs t id blobs (Some e) r
      | (r, Panic m) => (r, Panic m)
      | (r, Ok buf) =>
          if bool_decide (lenZ buf ≠ b_Length (pb_Blob blob))
          then load_packs t id blobs (Some (RMsg "wrong length returned")) r
          else match decrypt buf with
          | Panic m => (r, Panic m)
          | Err _ => load_packs t id blobs (Some (RMsg "decrypting blob failed")) r
          | Ok plaintext =>
              if negb (Equal (Hash plaintext) id)
              then load_packs t id blobs (Some (RMsg "blob returned invalid hash")) r
              else (r, Ok plaintext)
          end
      end
  end.

Definition LoadBlob (t : BlobType) (id : ID) : M S (list byte) :=
  r <- get_repo;;
  blobs <- lift (lift_err RIndex (MasterIndex_Lookup mh (r_idx r) (mkHandle id t)));;
  if bool_decide (blobs = []) then throw (RMsg "id not found in repository")
  else load_packs t id (sortCachedPacksFirst cache blobs) None.

Definition LookupBlobSize (id : ID) (t : BlobType) : M S (Z * bool) :=
  r <- get_repo;; ret (MasterIndex_LookupSize mh (r_idx r) (mkHandle id t)).

(** [SaveUnpacked]; [NewBlobBuffer(len(p))] has room for the overhead. *)
Definition SaveUnpacked (t : string) (p : list byte) : M S ID :=
  n <- NewRandomNonce;;
  ciphertext <- lift (encrypt (lenZ p + Extension) n p);;
  let id := if bool_decide (t = ConfigFile) then nullID else Hash ciphertext in
  let h := mkBeHandle t InvalidBlob (ID_String id) in
  be_save h (NewByteReader (be_Hasher be) ciphertext);;;
  ret id.

(** ** Index files *)

Definition SaveIndexFile (index : Index) : M S ID :=
  buf <- lift (lift_err RIndex (encode index));; SaveUnpacked IndexFile buf.

(** [saveIndex]: the indexes are given by their positions. *)
Fixpoint save_indexes (positions : list nat) : M S unit :=
  match positions with
  | [] => ret tt
  | p :: positions =>
      r <- get_repo;;
      match mi_idx (r_idx r) !! p with
      | None => lift (Panic "index out of range")
      | Some idx => SaveIndexFile idx;;; save_indexes positions
      end
  end.
Definition saveIndex (positions : list nat) : M S unit :=
  save_indexes positions;;;
  r <- get_repo;;
  mi <- lift (lift_err RIndex (MergeFinalIndexes mh (r_idx r)));;
  set_idx mi.

Definition SaveIndex : M S unit :=
  r <- get_repo;;
  let '(mi, ps) := FinalizeNotFinalIndexes (r_idx r) in
  set_idx mi;;; saveIndex ps.

Definition SaveFullIndex : M S unit :=
  t <- now;;
  r <- get_repo;;
  let '(mi, ps) := FinalizeFullIndexes t (r_idx r) in
  set_idx mi;;; saveIndex ps.

(** ** Packers *)

(** [findPacker]: take the first, moving the last into its place; or a new
    one over an empty temporary file. *)
Definition findPacker (t : BlobType) : M S RPacker :=
  r <- get_repo;;
  match pm_of t r with
  | [] => ret (NewPacker key [])
  | p :: rest =>
      let packers := p :: rest in
      let last := (length packers - 1)%nat in
      set_pm t (take last (<[0%nat := default p (packers !! last)]> packers));;;
      ret p
  end.

Definition insertPacker (t : BlobType) (p : RPacker) : M S unit :=
  r <- get_repo;; set_pm t (pm_of t r ++ [p]).

(** [savePacker] after [Finalize]: upload and index. *)
Definition uploadPacker (t : BlobType) (p : RPacker) : M S unit :=
  let file := p_wr p in
  id <- lift (IDFromHash (Hash file));;
  let h := mkBeHandle PackFile t (ID_String id) in
  be_save h (NewFileReader file (match be_Hasher be with Some f => f file | None => [] end));;;
  tm <- now;;
  r <- get_repo;;
  mi <- lift (lift_err RIndex (MasterIndex_StorePack mh tm (r_idx r) id (Blobs p)));;
  set_idx mi;;;
  r <- get_repo;;
  if r_noAutoIndexUpdate r then ret tt else SaveFullIndex.

Definition savePacker (t : BlobType) (p : RPacker) : M S unit :=
  n <- NewRandomNonce;;
  let '(p, err) := Pack.Finalize (E := read_error) p n in
  lift (lift_err RPack err);;;
  uploadPacker t p.

Definition SaveAndEncrypt (t : BlobType) (data : list byte) (id : ID) : M S unit :=
  n <- NewRandomNonce;;
  ciphertext <- lift (encrypt (CiphertextLength (lenZ data)) n data);;
  if bool_decide (t = InvalidBlob) then lift (Panic "invalid type")
  else
    packer <- findPacker t;;
    let '(packer, _, err) := Pack.Add (E := read_error) packer t id ciphertext in
    match err with
    | Some e => throw (RPack e)
    | None =>
        if Size packer <? minPackSize then insertPacker t packer else savePacker t packer
    end.

(** [SaveBlob] returns the ID and whether the blob was known. *)
Definition SaveBlob (t : BlobType) (buf : list byte) (id : ID) (storeDuplicate : bool) : M S (ID * bool) :=
  let newID := if IsNull id then Hash buf else id in
  r <- get_repo;;
  let '(mi, added) := addPending mh (r_idx r) (mkHandle newID t) in
  set_idx mi;;;
  let known := negb added in
  (if negb known || storeDuplicate then SaveAndEncrypt t buf newID else ret tt);;;
  ret (newID, known).

(** [FlushPacks]: the packers stay in their list, finalized, until all of the
    type have been saved. *)
Fixpoint flush_loop (t : BlobType) (i n : nat) : M S unit :=
  match n with
  | O => ret tt
  | Datatypes.S n =>
      r <- get_repo;;
      match pm_of t r !! i with
      | None => ret tt
      | Some p =>
          nc <- NewRandomNonce;;
          let '(p, err) := Pack.Finalize (E := read_error) p nc in
          set_pm t (<[i := p]> (pm_of t r));;;
          lift (lift_err RPack err);;;
          uploadPacker t p;;;
          flush_loop t (Datatypes.S i) n
      end
  end.
Definition FlushPacks_of (t : BlobType) : M S unit :=
  r <- get_repo;;
  flush_loop t 0 (length (pm_of t r));;;
  set_pm t [].
Definition FlushPacks : M S unit := FlushPacks_of DataBlob;;; FlushPacks_of TreeBlob.

Definition Flush : M S unit :=
  FlushPacks;;;
  r <- get_repo;;
  if r_noAutoIndexUpdate r then ret tt else SaveIndex.

(** ** Listing and loading indexes *)

(** [List] skips names that are not IDs. *)
Definition ListIDs (t : string) : M S (list (ID * Z)) := fun r =>
  let '(s, ids, err) := be_List be false t (fun fi l =>
      (match ParseID (fi_Name fi) with Ok id => l ++ [(id, fi_Size fi)] | _ => l end, None)) [] (r_be r) in
  (mkRepo s (r_idx r) (r_treePM r) (r_dataPM r) (r_noAutoIndexUpdate r) (r_tick r) (r_rnd r),
   match err with None => Ok ids | Some e => Err (RBackend e) end).

(** One turn of a worker of [ForAllIndexes] with the callback of
    [LoadIndex]. *)
Definition load_index (id : ID) : M S unit :=
  buf <- LoadAndDecrypt IndexFile id;;
  tm <- now;;
  '(idx, _) <- lift (lift_err RIndex (DecodeIndex mh tm buf id));;
  _ <- lift (lift_err RIndex (IDs idx));;
  r <- get_repo;;
  set_idx (Insert (r_idx r) idx).
Fixpoint load_indexes (ids : list (ID * Z)) : M S unit :=
  match ids with
  | [] => ret tt
  | (id, _) :: ids => load_index id;;; load_indexes ids
  end.
(** It ends with [PrepareCache], which returns no error and only removes files
    of the cache ([CacheFile.PrepareCache] of Cache.v), and is not in this state. *)
Definition LoadIndex : M S unit :=
  ids <- ListIDs IndexFile;;
  load_indexes ids;;;
  r <- get_repo;;
  mi <- lift (lift_err RIndex (MergeFinalIndexes mh (r_idx r)));;
  set_idx mi.

(** [ListPack]; reading does not change the backend. *)
Definition pack_reader (h : Handle) (s : S) : ReaderAt Backend.error := fun n off =>
  match (ReadAt be false h off (Z.to_nat n) s).2 with inl b => Ok b | inr e => Err e end.
Definition ListPack (id : ID) (size : Z) : M S (list Blob * Z) :=
  r <- get_repo;;
  lift (lift_err RListPack (Pack.List key (pack_reader (mkBeHandle PackFile InvalidBlob (ID_String id)) (r_be r)) size)).

(** [CreateIndexFromPacks]: a pack that cannot be listed is reported, and
    stored in the index without blobs. *)
Fixpoint index_packs (idx : Index) (invalid : list ID) (packsize : list (ID * Z)) : M S (Index * list ID) :=
  match packsize with
  | [] => ret (idx, invalid)
  | (id, size) :: packsize => fun r =>
      match ListPack id size r with
      | (r, Panic m) => (r, Panic m)
      | (r, res) =>
          let '(entries, invalid) :=
            match res with Ok (entries, _) => (entries, invalid) | _ => ([], invalid ++ [id]) end in
          match StorePack mh idx id entries with
          | Ok idx => index_packs idx invalid packsize r
          | Err e => (r, Err (RIndex e))
          | Panic m => (r, Panic m)
          end
      end
  end.
Definition CreateIndexFromPacks (packsize : list (ID * Z)) : M S (list ID) :=
  tm <- now;;
  '(idx, invalid) <- index_packs (NewIndex tm) [] packsize;;
  r <- get_repo;;
  set_idx (Insert (r_idx r) idx);;;
  ret invalid.

(** ** Repacking (src/repository/repack.go) *)

(** [DownloadAndHash]: the file's contents and hash. *)
Definition DownloadAndHash (h : Handle) : M S (list byte * ID) :=
  file <- be_read (LoadAll be false [] h);; ret (file, Hash file).

(** A worker's loop over the blobs of a pack; the result is the new value of
    [keepBlobs]. *)
Fixpoint repack_blobs (file : list byte) (entries : list Blob) (keepBlobs : BlobSet) : M S BlobSet :=
  match entries with
  | [] => ret keepBlobs
  | entry :: entries =>
      let h := mkHandle (b_ID entry) (b_Type entry) in
      if negb (BlobSet_Has keepBlobs h) then repack_blobs file entries keepBlobs
      else
        buf <- lift (lift_err (fun e => RPack (PackIO e)) (bytesReaderAt file (b_Length entry) (b_Offset entry)));;
        plaintext <- lift (decrypt buf);;
        if negb (Equal (Hash plaintext) (b_ID entry)) then throw (RMsg "wrong data returned")
        else
          SaveBlob (b_Type entry) plaintext (b_ID entry) true;;;
          repack_blobs file entries (BlobSet_Delete keepBlobs h)
  end.
Fixpoint repack_packs (ps : list ID) (keepBlobs : BlobSet) : M S BlobSet :=
  match ps with
  | [] => ret keepBlobs
  | packID :: ps =>
      '(file, hash) <- DownloadAndHash (mkBeHandle PackFile InvalidBlob (ID_String packID));;
      if negb (Equal packID hash) then throw (RMsg "hash does not match id")
      else
        '(blobs, _) <- lift (lift_err RPack (Pack.List key (bytesReaderAt file) (lenZ file)));;
        keepBlobs <- repack_blobs file blobs keepBlobs;;
        repack_packs ps keepBlobs
  end.
(** [ps] is the set of packs in the order they are processed. *)
Definition Repack (ps : list ID) (keepBlobs : BlobSet) : M S (list ID * BlobSet) :=
  keepBlobs <- repack_packs ps keepBlobs;; Flush;;; ret (ps, keepBlobs).

End repository.

(** ** Hoare triples

    [triple P m Q]: run from a state with [P], [m] either reports an error or
    a panic, or ends with [Q]. *)
Definition triple {S A} (P : Repo S -> Prop) (m : M S A) (Q : A -> Repo S -> Prop) : Prop :=
  forall r, P r -> match m r with (r', Ok a) => Q a r' | _ => True end.

Section triples.
Context {S : Type}.

Lemma triple_bind {A B} (P : Repo S -> Prop) (m : M S A) (f : A -> M S B) Q R :
  triple P m Q -> (forall a, triple (Q a) (f a) R) -> triple P (bind m f) R.
Proof.
  intros Hm Hf r Hr. unfold bind. specialize (Hm r Hr). destruct (m r) as [r' [a|e|msg]]; [|done|done].
  by apply Hf.
Qed.
Lemma triple_ret {A} (P : Repo S -> Prop) (a : A) (Q : A -> Repo S -> Prop) :
  (forall r, P r -> Q a r) -> triple P (ret a) Q.
Proof. intros H r Hr. by apply H. Qed.
Lemma triple_lift {A} (P : Repo S -> Prop) (x : res repo_error A) :
  triple P (lift x) (fun a r => P r /\ x = Ok a).
Proof. intros r Hr. by destruct x. Qed.
Lemma triple_throw {A} (P : Repo S -> Prop) e (Q : A -> Repo S -> Prop) : triple P (throw e) Q.
Proof. done. Qed.
Lemma triple_get (P : Repo S -> Prop) : triple P get_repo (fun a r => P r /\ a = r).
Proof. done. Qed.
Lemma triple_get_any {A} (P : Repo S -> Prop) (f : Repo S -> M S A) Q :
  (forall r0, P r0 -> triple P (f r0) Q) -> triple P (bind get_repo f) Q.
Proof. intros H r Hr. by apply (H r Hr). Qed.
Lemma triple_weaken {A} (P P' : Repo S -> Prop) (m : M S A) (Q Q' : A -> Repo S -> Prop) :
  triple P m Q -> (forall r, P' r -> P r) -> (forall a r, Q a r -> Q' a r) -> triple P' m Q'.
Proof. intros H HP HQ r Hr. specialize (H r (HP r Hr)). destruct (m r) as [r' [a|e|msg]]; auto. Qed.
Lemma triple_pure {A} (P : Repo S -> Prop) (X : Prop) (m : M S A) Q :
  (X -> triple P m Q) -> triple (fun r => P r /\ X) m Q.
Proof. intros H r [Hr HX]. by apply H. Qed.
End triples.

(** ** Encryption *)

Section sealing.
Context `{CL : CryptoLaws} (key : Key).
Context (key_ok : Key_Valid key = true).

(** The stored form of a plaintext. *)
Definition sealed (n pt : list byte) : list byte :=
  n ++ aes_ctr (key_enc key) n pt ++ tag_of key n (aes_ctr (key_enc key) n pt).

Lemma encrypt_value cap n pt : lenZ n = 16 -> validNonce n = true -> encrypt key cap n pt = Ok (sealed n pt).
Proof. intros Hn Hv. unfold encrypt. by rewrite Seal_value. Qed.

Lemma sealed_length n pt : lenZ n = 16 -> lenZ (sealed n pt) = lenZ pt + 32.
Proof. intros Hn. unfold sealed. rewrite !length_app, ctr_length, tag_of_length. lia. Qed.

Lemma decrypt_sealed n pt : lenZ n = 16 -> validNonce n = true -> decrypt key (sealed n pt) = Ok pt.
Proof.
  intros Hn Hv. unfold decrypt, sealed. rewrite gslice_prefix by (unfold NonceSize, ivSize; lia).
  rewrite gslice_suffix by (unfold NonceSize, ivSize; lia).
  rewrite Open_value by (done || apply tag_of_length).
  rewrite bool_decide_eq_true_2 by done. cbn [lift_err sl_data app]. by rewrite aes_ctr_involutive.
Qed.
End sealing.

(** ** The invariant of a repository *)

Definition pack_handle (bt : BlobType) (id : ID) : Handle := mkBeHandle PackFile bt (ID_String id).
(** No pack file with one of the names is written while there is one with
    that name. *)
Definition refuses {S} (be : Backend S) (norm : Handle -> Handle) (contents : S -> Handle -> option (list byte)) (names : ID -> Prop) : Prop :=
  forall bt id rd s s' rd' file, names id -> contents s (norm (pack_handle bt id)) = Some file ->
    be_Save be false (pack_handle bt id) rd s ≠ (s', rd', None).
Definition any_pack (id : ID) : Prop := True.
#[export] Instance any_pack_dec id : Decision (any_pack id) := left I.
Lemma any_pack_old (P : BlobType -> ID -> Prop) bt id : ~ any_pack id -> P bt id.
Proof. intros H. by destruct H. Qed.
Lemma any_pack_refuses {S} (be : Backend S) norm contents : refuses be norm contents (fun id => ~ any_pack id).
Proof. intros bt id rd s s' rd' file Hid. by destruct Hid. Qed.

Section invariant.
Context {S : Type} (be : Backend S) (norm : Handle -> Handle) (contents : S -> Handle -> option (list byte)).
Context `{!StoreLaws be norm contents, !FileLaws be norm contents}.
Context `{CL : CryptoLaws} `{IC : IndexCodec}.
Context (mh : ID -> Z) (Hash : list byte -> ID) (nonce : nat -> list byte) (clock : nat -> Z) (key : Key).
Context (key_ok : Key_Valid key = true) (hash_wf : forall l, wf_ID (Hash l)).
Context (nonce_ok : forall k, lenZ (nonce k) = 16 /\ validNonce (nonce k) = true).
(** Packs that count: the others exist already. *)
Context (good : ID -> Prop) {good_dec : forall id, Decision (good id)} (old_kept : refuses be norm contents (fun id => ~ good id)).

(** The bytes are the sealed form of a plaintext with this hash. *)
Definition enc_ok (id : ID) (data : list byte) : Prop :=
  exists n pt, data = sealed key n pt /\ lenZ n = 16 /\ validNonce n = true /\ Hash pt = id.

(** The file is a pack whose header lists these blobs, one after the other. *)
Definition lists_blobs (file : list byte) (blobs : list Blob) : Prop :=
  (exists h, Pack.List key (bytesReaderAt file) (lenZ file) = Ok (blobs, h))
  /\ (exists fin, laid_out 0 blobs fin) /\ Forall (fun b => 0 <= b_Length b) blobs
  /\ foldr Z.add 0 (map b_Length blobs) < 2 ^ 33.

(** The index entry points at the blob it names, and agrees with the header
    of its pack. *)
Definition pb_sound (s : S) (pb : PackedBlob) : Prop :=
  exists file, contents s (norm (pack_handle InvalidBlob (pb_PackID pb))) = Some file
    /\ wf_ID (pb_PackID pb)
    /\ 0 <= b_Offset (pb_Blob pb) /\ 0 < b_Length (pb_Blob pb)
    /\ b_Offset (pb_Blob pb) + b_Length (pb_Blob pb) <= lenZ file
    /\ enc_ok (b_ID (pb_Blob pb))
         (take (Z.to_nat (b_Length (pb_Blob pb))) (drop (Z.to_nat (b_Offset (pb_Blob pb))) file))
    /\ exists blobs, lists_blobs file blobs /\ pb_Blob pb ∈ blobs.

(** An open packer of a type: it holds the sealed blobs it was given. *)
Definition packer_sound (p : RPacker) : Prop :=
  exists ops, packer_inv key ops p (map snd ops) /\ Forall op_ok ops
    /\ Forall (fun o => enc_ok o.1.2 o.2) ops /\ Forall fits32 (p_blobs p) /\ ops ≠ []
    /\ lenZ (concat (map snd ops)) < 2 ^ 33 /\ lenZ ops <= 2 ^ 17 + 1.

(** A handle is stored in the index, in one of some packs, or waits in an open
    packer. *)
Definition covered (packs : ID -> Prop) (mi : MasterIndex) (opens : list RPacker) (bh : BlobHandle) : Prop :=
  (exists pb, pb ∈ known (mi_idx mi) /\ packs (pb_PackID pb) /\ b_handle (pb_Blob pb) = bh)
  \/ exists p b, p ∈ opens /\ b ∈ p_blobs p /\ b_handle b = bh.

(** The blobs in the system, for the bounds of the index tables. *)
Definition blob_count (mi : MasterIndex) (opens : list RPacker) : Z :=
  lenZ (known (mi_idx mi)) + lenZ (concat (map p_blobs opens)).

Record inv (N : Z) (s : S) (mi : MasterIndex) (opens : list RPacker) : Prop := {
  inv_wf : master_wf mh mi;
  inv_known : forall pb, pb ∈ known (mi_idx mi) -> pb_sound s pb;
  inv_open : Forall packer_sound opens;
  inv_pending : forall bh, bh ∈ pendingBlobs mi -> covered any_pack mi opens bh;
  inv_count : blob_count mi opens <= N;
  inv_old : forall bt id, ~ good id -> is_Some (contents s (norm (pack_handle bt id)));
}.

(** The state of the repository during an operation: the packer lists [d] and
    [t], the packers still open, and handles that stay covered by good packs. *)
Definition St (N : Z) (d t : list RPacker) (opens : list RPacker) (C : BlobHandle -> Prop) (r : Repo S) : Prop :=
  r_dataPM r = d /\ r_treePM r = t
  /\ inv N (r_be r) (r_idx r) opens
  /\ forall bh, C bh -> covered good (r_idx r) opens bh.

Lemma ID_String_length id : wf_ID id -> String.length (ID_String id) = 64%nat.
Proof.
  intros Hid. unfold ID_String, Hex.EncodeToString.
  assert (HL : forall l, String.length (string_of l) = length l).
  { unfold string_of, String.string_of_list_byte. induction l as [|b l IH]; [done|]. simpl. by rewrite IH. }
  rewrite HL, Hex.Encode_length, Hid. done.
Qed.

Lemma pack_handle_valid bt id : wf_ID id -> Handle_Valid (pack_handle bt id) = None.
Proof.
  intros Hid. unfold Handle_Valid, pack_handle. cbn [h_Type h_Name].
  rewrite (bool_decide_eq_false_2 (PackFile = ""%string)) by done.
  rewrite (bool_decide_eq_true_2 (PackFile ∈ _)) by (apply elem_of_cons; by left).
  rewrite (bool_decide_eq_false_2 (PackFile = ConfigFile)) by done. cbn [negb].
  rewrite bool_decide_eq_false_2; [done|].
  intros Hn. apply (f_equal String.length) in Hn. by rewrite ID_String_length in Hn.
Qed.

Lemma norm_pack bt bt' id : norm (pack_handle bt id) = norm (pack_handle bt' id).
Proof. apply norm_eq. simpl. auto. Qed.

Lemma be_save_file h rd s s' rd' r h0 file : be_Save be false h rd s = (s', rd', r) ->
  contents s (norm h0) = Some file -> contents s' (norm h0) = Some file.
Proof.
  intros HS Hc. destruct (decide (norm h0 = norm h)) as [Heq|Hne].
  - rewrite Heq in *. by eapply save_keeps.
  - by rewrite (store_frame _ _ _ _ _ _ _ _ HS Hne).
Qed.

(** Saving a file keeps the index sound. *)
Lemma inv_save N s mi opens h rd s' rd' r : be_Save be false h rd s = (s', rd', r) ->
  inv N s mi opens -> inv N s' mi opens.
Proof.
  intros HS [A B C D F G]. split; try done.
  - intros pb Hpb. destruct (B pb Hpb) as (file & Hf & Hrest). exists file. split; [|done]. by eapply be_save_file.
  - intros bt id Hid. destruct (G bt id Hid) as [file Hf]. exists file. by eapply be_save_file.
Qed.

Lemma inv_idx N s mi mi' opens : inv N s mi opens -> master_wf mh mi' ->
  (forall pb, pb ∈ known (mi_idx mi') <-> pb ∈ known (mi_idx mi)) -> pendingBlobs mi' = pendingBlobs mi ->
  (length (known (mi_idx mi')) <= length (known (mi_idx mi)))%nat ->
  inv N s mi' opens /\ forall P bh, covered P mi opens bh -> covered P mi' opens bh.
Proof.
  intros [A B C D F G] Hwf Hel Hp Hl.
  assert (Hcov : forall P bh, covered P mi opens bh -> covered P mi' opens bh).
  { intros P bh [(pb & Hpb & Hh)|Hop]; [left; exists pb; by rewrite Hel|by right]. }
  split; [|done]. split; try done.
  - intros pb Hpb. by apply B, Hel.
  - intros bh Hbh. rewrite Hp in Hbh. by apply Hcov, D.
  - unfold blob_count in *. lia.
Qed.

(** *** Steps that keep [St] *)

Lemma St_now N d t opens C : triple (St N d t opens C) (now clock) (fun _ => St N d t opens C).
Proof. by intros r Hr. Qed.
Lemma St_nonce N d t opens C : triple (St N d t opens C) (NewRandomNonce nonce)
  (fun n r => St N d t opens C r /\ lenZ n = 16 /\ validNonce n = true).
Proof. intros r Hr. cbn. split; [exact Hr|apply nonce_ok]. Qed.

Lemma St_save N d t opens C h rd : triple (St N d t opens C) (be_save be h rd)
  (fun _ r => St N d t opens C r /\ contents (r_be r) (norm h) = Some (drop (rr_pos rd) (rr_data rd))).
Proof.
  intros r (Hd & Ht & Hinv & HC). unfold be_save.
  destruct (be_Save be false h rd (r_be r)) as [[s' rd'] [e|]] eqn:E; [done|].
  split; [|by eapply store_contents]. split; [done|]. split; [done|]. split; [|exact HC].
  by eapply inv_save.
Qed.

Lemma St_SaveUnpacked N d t opens C ty p : triple (St N d t opens C) (SaveUnpacked be Hash nonce key ty p)
  (fun _ => St N d t opens C).
Proof.
  unfold SaveUnpacked. eapply triple_bind; [apply St_nonce|]. intros n. apply triple_pure. intros [Hn Hv].
  eapply triple_bind; [apply triple_lift|]. intros c. apply triple_pure. intros _.
  eapply triple_bind; [apply St_save|]. intros u. apply triple_ret. by intros r [Hr _].
Qed.

Lemma St_SaveIndexFile N d t opens C idx : triple (St N d t opens C) (SaveIndexFile be Hash nonce key idx)
  (fun _ => St N d t opens C).
Proof.
  unfold SaveIndexFile. eapply triple_bind; [apply triple_lift|]. intros buf. apply triple_pure. intros _.
  apply St_SaveUnpacked.
Qed.

Lemma St_save_indexes N d t opens C ps : triple (St N d t opens C) (save_indexes be Hash nonce key ps)
  (fun _ => St N d t opens C).
Proof.
  induction ps as [|p ps IH]; cbn [save_indexes]; [apply triple_ret; done|].
  apply triple_get_any. intros r0 _.
  destruct (mi_idx (r_idx r0) !! p) as [idx|]; [|done].
  eapply triple_bind; [apply St_SaveIndexFile|]. intros ?. exact IH.
Qed.

Lemma St_set_idx N d t opens C mi' :
  triple (fun r => St N d t opens C r /\ inv N (r_be r) mi' opens /\ forall P bh, covered P (r_idx r) opens bh -> covered P mi' opens bh)
    (set_idx mi') (fun _ => St N d t opens C).
Proof. intros r ((Hd & Ht & Hinv & HC) & Hinv' & Hcov). split; [done|]. split; [done|]. split; [done|]. auto. Qed.

Lemma St_saveIndex N d t opens C ps : N <= 2 ^ 60 ->
  triple (St N d t opens C) (saveIndex be mh Hash nonce key ps) (fun _ => St N d t opens C).
Proof.
  intros HN. unfold saveIndex. eapply triple_bind; [apply St_save_indexes|]. intros ?.
  eapply triple_bind; [apply triple_get|]. intros r0.
  intros r [Hr Hr0]. subst r0. unfold bind, lift. destruct (MergeFinalIndexes mh (r_idx r)) as [mi'|e|m] eqn:EM; [|done..].
  cbn [lift_err]. destruct Hr as (Hd & Ht & Hinv & HC). pose proof Hinv as [A B Cc D F G].
  unfold blob_count in F.
  destruct (MergeFinalIndexes_Known mh (r_idx r) mi' A ltac:(lia) EM) as (Hwf' & Hp & Hel & Hl).
  destruct (inv_idx N (r_be r) (r_idx r) mi' opens Hinv Hwf' Hel Hp Hl) as [Hinv' Hcov].
  cbn. split; [done|]. split; [done|]. split; [done|]. auto.
Qed.

Lemma finalize_inv sel mi N s opens :
  inv N s mi opens -> let mi' := mkMaster (finalize_loop sel 0 (mi_idx mi)).1 (pendingBlobs mi) in
  inv N s mi' opens /\ forall P bh, covered P mi opens bh -> covered P mi' opens bh.
Proof.
  intros Hinv. destruct (finalize_step_spec mh sel mi (inv_wf _ _ _ _ Hinv)) as [Hwf Hk].
  apply (inv_idx _ _ _ _ _ Hinv Hwf); cbn [mi_idx pendingBlobs]; rewrite ?Hk; done.
Qed.

Lemma St_SaveFullIndex N d t opens C : N <= 2 ^ 60 ->
  triple (St N d t opens C) (SaveFullIndex be mh Hash nonce clock key) (fun _ => St N d t opens C).
Proof.
  intros HN. unfold SaveFullIndex. eapply triple_bind; [apply St_now|]. intros tm.
  eapply triple_bind; [apply triple_get|]. intros r0 r [Hr Hr0]. subst r0.
  unfold FinalizeFullIndexes. pose proof (finalize_inv (fun idx => negb (Final idx) && IndexFull tm idx) (r_idx r) N (r_be r) opens) as HF.
  destruct (finalize_loop _ 0 (mi_idx (r_idx r))) as [l ps]. destruct (HF (proj1 (proj2 (proj2 Hr)))) as [Hinv' Hcov].
  revert r Hr HF Hinv' Hcov. intros r Hr HF Hinv' Hcov.
  pose proof (triple_bind _ _ _ _ _ (St_set_idx N d t opens C (mkMaster l (pendingBlobs (r_idx r)))) (fun _ => St_saveIndex N d t opens C ps HN)) as HT.
  apply (HT r). split; [done|]. by split.
Qed.

Lemma St_SaveIndex N d t opens C : N <= 2 ^ 60 ->
  triple (St N d t opens C) (SaveIndex be mh Hash nonce key) (fun _ => St N d t opens C).
Proof.
  intros HN. unfold SaveIndex. eapply triple_bind; [apply triple_get|]. intros r0 r [Hr Hr0]. subst r0.
  unfold FinalizeNotFinalIndexes. pose proof (finalize_inv (fun idx => negb (Final idx)) (r_idx r) N (r_be r) opens) as HF.
  destruct (finalize_loop _ 0 (mi_idx (r_idx r))) as [l ps]. destruct (HF (proj1 (proj2 (proj2 Hr)))) as [Hinv' Hcov].
  pose proof (triple_bind _ _ _ _ _ (St_set_idx N d t opens C (mkMaster l (pendingBlobs (r_idx r)))) (fun _ => St_saveIndex N d t opens C ps HN)) as HT.
  apply (HT r). split; [done|]. by split.
Qed.


(** *** Packers *)

(** The header of a finalized pack lists the packer's blobs. *)
Lemma packer_sound_lists p n p' total : packer_sound p -> lenZ n = 16 -> validNonce n = true ->
  Pack.Finalize (E := read_error) p n = (p', Ok total) -> lists_blobs (p_wr p') (p_blobs p).
Proof.
  intros (ops & Hinv & Hok & Henc & Hfit & Hne & Hsz & Hcount) Hn Hv HF.
  pose proof (packer_inv_ok _ _ _ _ Hinv Hok) as Hbok.
  destruct Hinv as (Hpk & Hwr & Hpb & Hlay & _ & Hl & Hh).
  destruct (header_roundtrip (E:=read_error) (p_blobs p) [] Hbok) as (hdr & Hmk & Hhl & HL).
  pose proof (Forall2_length _ _ _ Hh) as Hlen. unfold lists_blobs. rewrite <- Hpk in key_ok |- *.
  destruct (Finalize_ok p p' n total hdr key_ok Hn Hv Hmk HF) as (ct & Hseal & Hct & Hfile & _ & Hb').
  assert (Hsum : foldr Z.add 0 (map b_Length (p_blobs p)) = lenZ (concat (map snd ops))).
  { clear -Hl. induction Hl as [|b c bs cs Hbc _ IH]; [done|]. cbn [map foldr concat]. rewrite length_app. lia. }
  split; [|split; [by eexists|split; [|unfold minPackSize in *; lia]]].
  - eexists. cbn [wr_bytes mem_writer] in Hfile. rewrite Hfile.
    apply (List_sealed (p_k p) n ct hdr (p_blobs p) (p_wr p) (p_bytes p)); try done.
    + intros fuel Hf. by apply (HL 0 (p_bytes p)).
    + intros Hnil. rewrite Hnil in Hlen. by destruct ops.
    + change maxHeaderSize with (2 ^ 24). cbn [length] in Hhl. lia.
  - eapply Forall_impl; [exact Hbok|]. intros b (_ & _ & ?). lia.
Qed.

Lemma packer_sound_blobs p n p' total : packer_sound p -> lenZ n = 16 -> validNonce n = true ->
  Pack.Finalize (E := read_error) p n = (p', Ok total) ->
  p_blobs p' = p_blobs p /\ Forall fits32 (p_blobs p)
  /\ forall b, b ∈ p_blobs p -> 0 <= b_Offset b /\ 0 < b_Length b
       /\ b_Offset b + b_Length b <= lenZ (p_wr p')
       /\ enc_ok (b_ID b) (take (Z.to_nat (b_Length b)) (drop (Z.to_nat (b_Offset b)) (p_wr p')))
       /\ exists blobs, lists_blobs (p_wr p') blobs /\ b ∈ blobs.
Proof.
  intros Hsound Hn Hv HF. pose proof (packer_sound_lists p n p' total Hsound Hn Hv HF) as Hlists.
  destruct Hsound as (ops & Hinv & Hok & Henc & Hfit & Hne & Hsz & _).
  pose proof (packer_inv_ok _ _ _ _ Hinv Hok) as Hbok.
  destruct Hinv as (Hpk & Hwr & Hpb & Hlay & _ & Hl & Hh).
  destruct (header_roundtrip (E:=read_error) (p_blobs p) [] Hbok) as (hdr & Hmk & _).
  rewrite <- Hpk in key_ok.
  destruct (Finalize_ok p p' n total hdr key_ok Hn Hv Hmk HF) as (ct & _ & _ & Hfile & _ & Hb').
  split; [done|]. split; [done|]. intros b Hin. pose proof Hin as [i Hi]%list_elem_of_lookup.
  destruct (Forall2_lookup_l _ _ _ _ _ Hh Hi) as (o & Ho & Hbo).
  assert (Hc : map snd ops !! i = Some o.2) by (by apply list_lookup_fmap_Some; exists o).
  pose proof (Forall2_lookup_lr _ _ _ _ _ _ Hl Hi Hc) as Hbl.
  rewrite Forall_lookup in Henc. pose proof (Henc _ _ Ho) as He.
  assert (Hlen : 0 < lenZ o.2).
  { destruct He as (n0 & pt & -> & Hn0 & _). rewrite sealed_length by done. lia. }
  cbn [wr_bytes mem_writer] in Hfile, Hwr. rewrite Hfile, Hwr, Hbl, Nat2Z.id.
  destruct (laid_out_chunk 0 (p_blobs p) (map snd ops) (p_bytes p) i b o.2
    (n ++ ct ++ le_put 4 (u32 (CiphertextLength (lenZ (p_blobs p) * EntrySize))))
    ltac:(lia) ltac:(lia) Hlay Hl Hi Hc) as [H0 Htk].
  rewrite Z.sub_0_r in Htk. split; [done|]. split; [done|]. rewrite Htk. split; [|split].
  - apply (f_equal length) in Htk. rewrite length_take, length_drop in Htk. lia.
  - unfold b_ID. by rewrite Hbo.
  - exists (p_blobs p). split; [|done]. cbn [wr_bytes mem_writer] in Hlists. by rewrite Hfile, Hwr in Hlists.
Qed.

Lemma inv_perm N s mi opens opens' : opens ≡ₚ opens' -> inv N s mi opens -> inv N s mi opens'.
Proof.
  intros Hp [A B C D F G]. split; try done.
  - by rewrite <- Hp.
  - intros bh Hbh. destruct (D bh Hbh) as [Hk|(p & b & Hin & Hrest)]; [by left|].
    right. exists p, b. by rewrite <- Hp.
  - unfold blob_count in *. by rewrite <- Hp.
Qed.

Lemma covered_perm P mi opens opens' bh : opens ≡ₚ opens' -> covered P mi opens bh -> covered P mi opens' bh.
Proof.
  intros Hp [Hk|(p & b & Hin & Hrest)]; [by left|]. right. exists p, b. by rewrite <- Hp.
Qed.

(** A pack that is written is good. *)
Lemma St_save_pack N d t opens C ty id rd : triple (St N d t opens C) (be_save be (pack_handle ty id) rd)
  (fun _ r => (St N d t opens C r /\ contents (r_be r) (norm (pack_handle ty id)) = Some (drop (rr_pos rd) (rr_data rd))) /\ good id).
Proof.
  intros r Hr. pose proof (St_save N d t opens C (pack_handle ty id) rd r Hr) as H1. destruct Hr as (_ & _ & [_ _ _ _ _ G] & _). unfold be_save in *.
  destruct (be_Save be false _ rd (r_be r)) as [[s' rd'] [e|]] eqn:E; [done|]. split; [exact H1|].
  destruct (decide (good id)) as [|Hid]; [done|]. destruct (G ty id Hid) as [file Hf]. by destruct (old_kept ty id rd _ _ _ file Hid Hf E).
Qed.

(** Once a finalized pack file is stored and indexed, its packer is done. *)
Lemma St_uploadPacker N d t opens C ty p p' n total : N <= 2 ^ 60 ->
  lenZ n = 16 -> validNonce n = true -> Pack.Finalize (E := read_error) p n = (p', Ok total) ->
  triple (St N d t (p :: opens) C) (uploadPacker be mh Hash nonce clock key ty p') (fun _ => St N d t opens C).
Proof.
  intros HN Hn Hv HF. unfold uploadPacker.
  eapply triple_bind; [apply triple_lift|]. intros id. apply triple_pure. intros Hid.
  unfold IDFromHash in Hid. rewrite bool_decide_eq_false_2 in Hid
    by (intros Hne; apply Hne; unfold idSize; by rewrite hash_wf).
  injection Hid as <-.
  assert (Hcopy : copy_into nullID (Hash (p_wr p')) = Hash (p_wr p')).
  { unfold copy_into. rewrite (hash_wf (p_wr p')). change (length nullID) with 32%nat.
    rewrite take_ge by (by rewrite hash_wf). rewrite drop_ge by done. apply app_nil_r. }
  rewrite Hcopy. set (id := Hash (p_wr p')) in *.
  eapply triple_bind; [apply St_save_pack|]. intros []. apply triple_pure. intros Hgood.
  eapply (triple_bind _ _ _ (fun _ r => St N d t (p :: opens) C r
    /\ contents (r_be r) (norm (mkBeHandle PackFile ty (ID_String id))) = Some (p_wr p')));
    [by intros r Hr|]. intros tm.
  assert (HT : triple (fun r => St N d t (p :: opens) C r
       /\ contents (r_be r) (norm (mkBeHandle PackFile ty (ID_String id))) = Some (p_wr p'))
     (r <- get_repo;; mi <- lift (lift_err RIndex (MasterIndex_StorePack mh tm (r_idx r) id (Blobs p')));; set_idx mi)
     (fun _ => St N d t opens C)).
  { intros r [(Hd & Ht & Hinv & HC) Hfile]. unfold bind, get_repo, lift.
    destruct (MasterIndex_StorePack _ _ _ _ _) as [mi'|e|m] eqn:ES; [|done..]. cbn [lift_err].
    pose proof Hinv as [A B Co D F G]. apply Forall_cons in Co as [Hp Hopen].
    destruct (packer_sound_blobs p n p' total Hp Hn Hv HF) as (Hb & Hfit & Hsound).
    unfold Blobs in ES. rewrite Hb in ES.
    unfold blob_count in F. cbn [map concat] in F. rewrite length_app in F.
    destruct (MasterIndex_StorePack_spec mh tm (r_idx r) id (p_blobs p) A Hfit ltac:(lia))
      as (mi1 & ES' & Hwf' & Hk & Hpend).
    rewrite ES' in ES. injection ES as ->.
    assert (Hcov : forall P bh, P id -> covered P (r_idx r) (p :: opens) bh -> covered P mi' opens bh).
    { intros P bh HP [(pb & Hpb & Hh)|(q & b & Hq & Hbq & Hh)].
      - left. exists pb. split; [|done]. rewrite Hk. apply elem_of_app. by right.
      - apply elem_of_cons in Hq as [->|Hq]; [|right; by exists q, b].
        left. exists (mkPacked b id). split; [|done]. rewrite Hk. apply elem_of_app. left.
        apply list_elem_of_fmap. by exists b. }
    unfold set_idx, St. cbn [r_dataPM r_treePM r_idx r_be]. split; [done|]. split; [done|].
    split; [|intros bh Hbh; apply Hcov; [done|]; apply HC, Hbh]. split; [done| |done| | |exact G].
    - intros pb. rewrite Hk. intros [Hpb|Hpb]%elem_of_app; [|by apply B].
      apply list_elem_of_fmap in Hpb as (b & -> & Hin). exists (p_wr p'). cbn [pb_PackID pb_Blob].
      rewrite (norm_pack InvalidBlob ty). split; [exact Hfile|]. split; [apply hash_wf|]. by apply Hsound.
    - intros bh. rewrite Hpend. intros [Hbh _]%elem_of_difference. apply Hcov; [done|]. by apply D.
    - unfold blob_count. rewrite Hk, length_app, length_map. lia. }
  pose proof (triple_bind _ _ _ _ _ HT (fun _ => triple_get_any (St N d t opens C)
    (fun r0 => if r_noAutoIndexUpdate r0 then ret tt else SaveFullIndex be mh Hash nonce clock key)
    (fun _ => St N d t opens C)
    (fun r0 _ => match r_noAutoIndexUpdate r0 as b return triple _ (if b then _ else _) _ with
                 | true => triple_ret _ tt _ (fun r H => H)
                 | false => St_SaveFullIndex N d t opens C HN end))) as HT2.
  intros r Hr. specialize (HT2 r Hr). revert HT2. unfold bind, get_repo, lift.
  by destruct (lift_err RIndex _).
Qed.


(** Between operations: the packers in the lists are the open ones, and none
    has reached the size at which it is written. *)
Definition small (p : RPacker) : Prop := p_bytes p < minPackSize.
Definition Ready (N : Z) (C : BlobHandle -> Prop) (r : Repo S) : Prop :=
  St N (r_dataPM r) (r_treePM r) (r_dataPM r ++ r_treePM r) C r
  /\ Forall small (r_dataPM r ++ r_treePM r).

(** A new repository is ready. *)
Lemma Ready_new s tm noAuto : (forall bt id, ~ good id -> is_Some (contents s (norm (pack_handle bt id)))) -> Ready 0 (fun _ => False) (mkRepo s (NewMasterIndex tm) [] [] noAuto 1 0).
Proof.
  intros Hold. split; [|constructor]. split; [done|]. split; [done|]. split; [|done]. split.
  - apply NewMasterIndex_wf.
  - by intros pb ?%elem_of_nil.
  - constructor.
  - intros h Hh. cbn in Hh. by apply elem_of_empty in Hh.
  - done.
  - exact Hold.
Qed.

(** The list of the packers of a type, and of the other types. *)
Definition pms (t : BlobType) (d tr : list RPacker) : list RPacker := match t with TreeBlob => tr | _ => d end.
Definition set_pms (t : BlobType) (l d tr : list RPacker) : list RPacker * list RPacker :=
  match t with TreeBlob => (d, l) | _ => (l, tr) end.

Lemma set_pm_run t l (r : Repo S) : exists r', set_pm t l r = (r', Ok tt) /\ r_be r' = r_be r /\ r_idx r' = r_idx r
  /\ (r_dataPM r', r_treePM r') = set_pms t l (r_dataPM r) (r_treePM r).
Proof. unfold set_pm. destruct t; eexists; (split; [reflexivity|done]). Qed.

(** Removing the first packer of a list by moving the last one there. *)
Lemma swap_remove {A} (p d : A) rest :
  let packers := p :: rest in
  let last := (length packers - 1)%nat in
  p :: take last (<[0%nat := default d (packers !! last)]> packers) ≡ₚ packers.
Proof.
  cbn zeta. cbn [length]. rewrite Nat.sub_succ, Nat.sub_0_r. apply Permutation_cons; [done|].
  destruct (decide (rest = [])) as [->|Hne]; [done|].
  destruct (exists_last Hne) as (l & x & ->). rewrite length_app. simpl length. rewrite Nat.add_1_r.
  change (lookup (Datatypes.S (length l)) (p :: l ++ [x])) with ((l ++ [x]) !! length l).
  rewrite lookup_app_r, Nat.sub_diag by lia. cbn [lookup list_lookup default].
  change (take (Datatypes.S (length l)) (x :: l ++ [x]) ≡ₚ l ++ [x]). cbn [take].
  rewrite take_app_length. by rewrite Permutation_app_comm.
Qed.

Lemma set_pms_perm t l d tr : (set_pms t l d tr).1 ++ (set_pms t l d tr).2 ++ pms t d tr ≡ₚ l ++ d ++ tr.
Proof.
  destruct t; cbn [set_pms pms fst snd].
  - rewrite (Permutation_app_comm tr d). done.
  - rewrite (Permutation_app_comm tr d). done.
  - rewrite !app_assoc. rewrite (Permutation_app_comm d l). done.
Qed.

(** [findPacker] takes a packer out of the manager's list or makes a new
    one. *)
Lemma findPacker_run t (r : Repo S) : exists r' p,
  findPacker key t r = (r', Ok p) /\ r_be r' = r_be r /\ r_idx r' = r_idx r
  /\ (p = NewPacker key [] /\ r_dataPM r' = r_dataPM r /\ r_treePM r' = r_treePM r
      \/ p :: (r_dataPM r' ++ r_treePM r') ≡ₚ r_dataPM r ++ r_treePM r).
Proof.
  unfold findPacker, bind, get_repo. assert (Hpm : pm_of t r = pms t (r_dataPM r) (r_treePM r)) by by destruct t.
  destruct (pm_of t r) as [|p rest] eqn:E.
  { exists r, (NewPacker key []). split; [done|]. split; [done|]. split; [done|]. by left. }
  match goal with |- context [set_pm t ?l r] =>
    destruct (set_pm_run t l r) as (r' & -> & Hb & Hi & Hset); pose (L := l) end.
  eexists r', p. split; [done|]. split; [done|]. split; [done|]. right.
  pose proof (swap_remove p p rest) as Hsw. cbn zeta in Hsw. fold L in Hset, Hsw.
  pose proof (set_pms_perm t L (r_dataPM r) (r_treePM r)) as HP. rewrite <- Hset, <- Hpm in HP. cbn [fst snd] in HP.
  rewrite <- Hsw in HP. apply (Permutation_app_inv_l L).
  rewrite <- HP. rewrite (Permutation_app_comm L). cbn [app].
  rewrite app_assoc, (Permutation_app_comm _ (p :: L)). cbn [app]. apply Permutation_cons; [done|].
  apply Permutation_app_comm.
Qed.

(** Adding a sealed blob to an open or a new packer. *)
Lemma packer_add p t id n pt p2 k err : (p = NewPacker key [] \/ packer_sound p /\ small p) ->
  lenZ n = 16 -> validNonce n = true -> Hash pt = id -> t ≠ InvalidBlob -> lenZ pt + 32 <= maxuint32 ->
  Pack.Add (E := read_error) p t id (sealed key n pt) = (p2, k, err) ->
  err = None /\ packer_sound p2
  /\ exists b, p_blobs p2 = p_blobs p ++ [b] /\ b_handle b = mkHandle id t.
Proof.
  intros Hp Hn Hv Hid Ht Hlen HA. unfold maxuint32 in Hlen.
  pose proof (sealed_length key n pt Hn) as Hsl.
  assert (H0 : exists ops, packer_inv key ops p (map snd ops) /\ Forall op_ok ops
    /\ Forall (fun o => enc_ok o.1.2 o.2) ops /\ Forall fits32 (p_blobs p) /\ p_bytes p < minPackSize
    /\ lenZ (concat (map snd ops)) < minPackSize).
  { destruct Hp as [->|[(ops & Hinv & A & B & Cc & D & F & G) Hs]].
    - exists []. split; [by apply NewPacker_inv|]. by repeat constructor.
    - exists ops. unfold small in Hs. pose proof Hinv as (_ & _ & I3 & _).
      split; [exact Hinv|]. split_and!; try done. lia. }
  destruct H0 as (ops & Hinv & Hok & Henc & Hfit & Hs & Hsz). unfold minPackSize in *.
  destruct (Add_inv key ops p (map snd ops) t id (sealed key n pt) Hinv) as (c & Hinv2 & Hcl & Hc); [lia|].
  assert (Herr : err = None /\ exists b, p_blobs p2 = p_blobs p ++ [b] /\ b_handle b = mkHandle id t
     /\ b_Offset b = p_bytes p /\ b_Length b = lenZ (sealed key n pt)).
  { unfold Pack.Add in HA. cbn [wr_write mem_writer] in HA. injection HA as <- <- <-. split; [done|].
    eexists. split; [done|]. split; [done|]. split; [done|]. cbn [b_Length]. rewrite u64_small; lia. }
  destruct Herr as (-> & b & Hb & Hbh & Hbo & Hbl). rewrite HA in Hinv2, Hc. cbn [fst snd] in Hinv2, Hc.
  rewrite Hc in Hinv2 by done. split; [done|]. split; [|by exists b].
  assert (Hpb : p_bytes p = lenZ (concat (map snd ops))) by apply Hinv.
  exists (ops ++ [(t, id, sealed key n pt)]). rewrite map_app. cbn [map snd].
  split; [done|]. split.
  { apply Forall_app. split; [done|]. apply Forall_singleton. split; [done|]. split; [by rewrite <- Hid|]. lia. }
  split.
  { apply Forall_app. split; [done|]. apply Forall_singleton. by exists n, pt. }
  split.
  { rewrite Hb. apply Forall_app. split; [done|]. apply Forall_singleton. unfold fits32, maxuint32.
    rewrite Hbo, Hbl. lia. }
  split; [by destruct ops|]. rewrite concat_app, length_app. cbn [concat]. rewrite app_nil_r. split; [lia|].
  rewrite length_app. cbn [length].
  assert (32 * lenZ ops <= lenZ (concat (map snd ops))); [|lia].
  clear -Henc CL. induction Henc as [|o ops (n0 & pt & Ho & Hn0 & _) _ IH]; [done|]. cbn [map concat length].
  rewrite length_app, Ho. pose proof (sealed_length key n0 pt Hn0). lia.
Qed.


Lemma St_to_Ready N d tr C (r : Repo S) : St N d tr (d ++ tr) C r -> Forall small (d ++ tr) -> Ready N C r.
Proof. intros (Hd & Ht & Hr) Hs. unfold Ready, St. rewrite Hd, Ht. auto. Qed.

Lemma insertPacker_Ready N d tr C t p :
  triple (fun r => St N d tr (p :: d ++ tr) C r /\ Forall small (p :: d ++ tr)) (insertPacker t p)
    (fun _ => Ready N C).
Proof.
  intros r [(Hd & Ht & Hinv & HC) Hs]. unfold insertPacker, bind, get_repo.
  destruct (set_pm_run t (pm_of t r ++ [p]) r) as (r' & -> & Hb & Hi & Hset).
  assert (HP : r_dataPM r' ++ r_treePM r' ≡ₚ p :: d ++ tr).
  { rewrite Hd, Ht in Hset. pose proof (set_pms_perm t (pm_of t r ++ [p]) d tr) as HP.
    rewrite <- Hset in HP. cbn [fst snd] in HP.
    assert (Hpm : pm_of t r = pms t d tr) by (destruct t; cbn; congruence). rewrite Hpm in *.
    apply (Permutation_app_inv_r (pms t d tr)). rewrite <- app_assoc, HP, <- app_assoc. cbn [app].
    rewrite (Permutation_app_comm (pms t d tr)). cbn [app]. done. }
  split; [|by rewrite HP]. split; [done|]. split; [done|]. rewrite Hb, Hi. split.
  - by apply (inv_perm _ _ _ (p :: d ++ tr)).
  - intros bh Hbh. apply (covered_perm _ _ (p :: d ++ tr)); [done|]. by apply HC.
Qed.

Lemma St_savePacker N d tr opens C t p : N <= 2 ^ 60 ->
  triple (St N d tr (p :: opens) C) (savePacker be mh Hash nonce clock key t p) (fun _ => St N d tr opens C).
Proof.
  intros HN. unfold savePacker. eapply triple_bind; [apply St_nonce|]. intros n. apply triple_pure. intros [Hn Hv].
  destruct (Pack.Finalize (E := read_error) p n) as [p' err] eqn:EF.
  eapply triple_bind; [apply triple_lift|]. intros total. apply triple_pure. intros Herr.
  destruct err as [tot|e|m]; [|done..]. by eapply St_uploadPacker.
Qed.

(** The state in which [SaveAndEncrypt] runs: the blob's own reservation is
    not covered yet. *)
Definition Reserved (N : Z) (bh : BlobHandle) (C : BlobHandle -> Prop) (r : Repo S) : Prop :=
  inv N (r_be r) (mkMaster (mi_idx (r_idx r)) (pendingBlobs (r_idx r) ∖ {[bh]})) (r_dataPM r ++ r_treePM r)
  /\ (forall h, C h -> covered good (r_idx r) (r_dataPM r ++ r_treePM r) h)
  /\ Forall small (r_dataPM r ++ r_treePM r).

Lemma Reserved_add N bh C (r r' : Repo S) p p2 b :
  Reserved N bh C r -> r_be r' = r_be r -> r_idx r' = r_idx r ->
  (p = NewPacker key [] /\ r_dataPM r' = r_dataPM r /\ r_treePM r' = r_treePM r
   \/ p :: (r_dataPM r' ++ r_treePM r') ≡ₚ r_dataPM r ++ r_treePM r) ->
  packer_sound p2 -> p_blobs p2 = p_blobs p ++ [b] -> b_handle b = bh ->
  St (N + 1) (r_dataPM r') (r_treePM r') (p2 :: r_dataPM r' ++ r_treePM r') (fun h => C h \/ h = bh) r'
  /\ Forall small (r_dataPM r' ++ r_treePM r').
Proof.
  intros ([A B Co D F G] & HC & Hs) Hb Hi Hp Hp2 Hblobs Hbh.
  set (o := r_dataPM r ++ r_treePM r) in *. set (o' := r_dataPM r' ++ r_treePM r') in *.
  (* every blob of the old packers is in the new ones *)
  assert (Hmono : forall q b', q ∈ o -> b' ∈ p_blobs q -> exists q', q' ∈ p2 :: o' /\ b' ∈ p_blobs q').
  { intros q b' Hq Hb'. destruct Hp as [(-> & Hd & Ht)|Hperm].
    - exists q. split; [|done]. unfold o'. rewrite Hd, Ht. apply elem_of_cons. by right.
    - rewrite <- Hperm in Hq. apply elem_of_cons in Hq as [->|Hq].
      + exists p2. rewrite Hblobs. split; [apply elem_of_cons; by left|]. apply elem_of_app. by left.
      + exists q. split; [|done]. apply elem_of_cons. by right. }
  assert (Hcov : forall P h, covered P (r_idx r) o h -> covered P (r_idx r) (p2 :: o') h).
  { intros P h [Hk|(q & b' & Hq & Hb' & Hh)]; [by left|]. destruct (Hmono q b' Hq Hb') as (q' & Hq' & Hb2).
    right. exists q', b'. done. }
  assert (Hself : forall P, covered P (r_idx r) (p2 :: o') bh).
  { intros P. right. exists p2, b. split; [apply elem_of_cons; by left|]. split; [|done]. rewrite Hblobs.
    apply elem_of_app. right. by apply list_elem_of_singleton. }
  assert (Hopen : Forall packer_sound o' /\ Forall small o').
  { destruct Hp as [(_ & Hd & Ht)|Hperm]; [unfold o'; by rewrite Hd, Ht|].
    rewrite <- Hperm in Co, Hs. apply Forall_cons in Co as [_ Co]. by apply Forall_cons in Hs as [_ Hs]. }
  split; [|apply Hopen]. split; [done|]. split; [done|]. rewrite Hb, Hi. split.
  - split; [exact A|exact B| | | |exact G].
    + apply Forall_cons. split; [exact Hp2|apply Hopen].
    + intros h Hh. destruct (decide (h = bh)) as [->|Hne]; [apply Hself|]. apply Hcov.
      apply (D h). cbn [pendingBlobs]. set_solver.
    + unfold blob_count in *. cbn [map concat mi_idx] in *. rewrite Hblobs, !length_app. simpl length.
      destruct Hp as [(-> & Hd & Ht)|Hperm].
      * unfold o'. rewrite Hd, Ht. fold o. cbn [p_blobs NewPacker length]. lia.
      * rewrite <- Hperm in F. cbn [map concat] in F. rewrite length_app in F. lia.
  - intros h [Hh | ->]; [by apply Hcov, HC|apply Hself].
Qed.

Lemma SaveAndEncrypt_Ready N C t data id : N + 1 <= 2 ^ 60 -> Hash data = id -> lenZ data + 32 <= maxuint32 ->
  triple (Reserved N (mkHandle id t) C) (SaveAndEncrypt be mh Hash nonce clock key t data id)
    (fun _ => Ready (N + 1) (fun h => C h \/ h = mkHandle id t)).
Proof.
  intros HN Hid Hlen r HR. unfold SaveAndEncrypt. unfold bind at 1. cbn [NewRandomNonce].
  destruct (nonce_ok (r_rnd r)) as [Hn Hv]. unfold bind at 1, lift at 1. rewrite encrypt_value by done.
  set (r1 := mkRepo (r_be r) (r_idx r) (r_treePM r) (r_dataPM r) (r_noAutoIndexUpdate r) (r_tick r) (Datatypes.S (r_rnd r))).
  assert (HR1 : Reserved N (mkHandle id t) C r1) by exact HR. clearbody r1.
  case_bool_decide as Ht; [done|]. unfold bind at 1.
  destruct (findPacker_run t r1) as (r2 & p & -> & Hb & Hi & Hp).
  destruct (Pack.Add (E := read_error) p t id (sealed key (nonce (r_rnd r)) data)) as [[p2 k] err] eqn:EA.
  assert (Hpok : p = NewPacker key [] \/ packer_sound p /\ small p).
  { destruct Hp as [(-> & _)|Hperm]; [by left|right]. destruct HR1 as ([_ _ Co _ _] & _ & Hs).
    rewrite <- Hperm in Co, Hs. by apply Forall_cons in Co as [? _], Hs as [? _]. }
  destruct (packer_add p t id _ data p2 k err Hpok Hn Hv Hid Ht Hlen EA) as (-> & Hp2 & b & Hbl & Hbh).
  destruct (Reserved_add N (mkHandle id t) C r1 r2 p p2 b HR1 Hb Hi Hp Hp2 Hbl Hbh) as [HSt Hsmall].
  unfold Size. destruct (Z.ltb_spec (p_bytes p2) minPackSize) as [Hlt|Hge].
  - apply insertPacker_Ready with (d := r_dataPM r2) (tr := r_treePM r2). split; [exact HSt|].
    by apply Forall_cons.
  - pose proof (St_savePacker (N + 1) (r_dataPM r2) (r_treePM r2) (r_dataPM r2 ++ r_treePM r2)
      (fun h => C h \/ h = mkHandle id t) t p2 HN r2 HSt) as HT.
    destruct (savePacker _ _ _ _ _ _ _ _ _) as [r3 [[]|e|m]]; [|done..]. by eapply St_to_Ready.
Qed.

(** *** Flushing *)

Lemma flush_loop_St N C t : N <= 2 ^ 60 -> forall k i d tr opens,
  (forall j p, (i <= j)%nat -> pms t d tr !! j = Some p -> (j < i + k)%nat) ->
  triple (St N d tr (drop i (pms t d tr) ++ opens) C) (flush_loop be mh Hash nonce clock key t i k)
    (fun _ r => exists d' tr', St N d' tr' opens C r
       /\ (match t with TreeBlob => d' = d | _ => tr' = tr end)).
Proof.
  intros HN. induction k as [|k IH]; intros i d tr opens Hlen; cbn [flush_loop].
  { apply triple_ret. intros r Hr. exists d, tr. split; [|by destruct t].
    assert (Hnil : drop i (pms t d tr) = []); [|by rewrite Hnil in Hr].
    apply drop_ge. destruct (decide (length (pms t d tr) <= i)%nat) as [|Hgt]; [done|].
    destruct (lookup_lt_is_Some_2 (pms t d tr) i ltac:(lia)) as [p Hp]. specialize (Hlen i p ltac:(lia) Hp). lia. }
  intros r Hr. unfold bind at 1, get_repo.
  assert (Hpm : pm_of t r = pms t d tr) by (destruct Hr as (Hd0 & Ht0 & _); destruct t; cbn; congruence).
  rewrite Hpm. destruct (pms t d tr !! i) as [p|] eqn:Ep.
  2: { cbn [ret]. exists d, tr. split; [|by destruct t]. by rewrite drop_ge in Hr by by apply lookup_ge_None. }
  rewrite (drop_S _ p i Ep) in Hr. cbn [app] in Hr. revert r Hr Hpm. intros r Hr Hpm.
  assert (HT : triple (St N d tr (p :: drop (Datatypes.S i) (pms t d tr) ++ opens) C)
    (nc <- NewRandomNonce nonce;;
     (let '(p', err) := Pack.Finalize (E := read_error) p nc in
      set_pm t (<[i := p']> (pms t d tr));;; lift (lift_err RPack err);;; uploadPacker be mh Hash nonce clock key t p'))
    (fun _ r => exists l, St N (set_pms t l d tr).1 (set_pms t l d tr).2
       (drop (Datatypes.S i) l ++ opens) C r /\ length l = length (pms t d tr))).
  { eapply triple_bind; [apply St_nonce|]. intros n. apply triple_pure. intros [Hn Hv].
    destruct (Pack.Finalize (E := read_error) p n) as [p' err] eqn:EF.
    set (l := <[i := p']> (pms t d tr)).
    eapply (triple_bind _ _ _ (fun _ => St N (set_pms t l d tr).1 (set_pms t l d tr).2
       (p :: drop (Datatypes.S i) (pms t d tr) ++ opens) C)).
    { intros r0 (Hd & Ht & Hrest). destruct (set_pm_run t l r0) as (r' & -> & Hb & Hi & Hset).
      rewrite Hd, Ht in Hset. rewrite <- Hset. unfold St. cbn [fst snd]. rewrite Hb, Hi. auto. }
    intros ?. eapply triple_bind; [apply triple_lift|]. intros total. apply triple_pure. intros Herr.
    destruct err as [tot|e|m]; [|done..].
    eapply triple_weaken; [by eapply (St_uploadPacker N _ _ _ C t p p')|done|].
    intros [] r0 Hr0. exists l. split; [|apply length_insert].
    assert (Hdr : drop (Datatypes.S i) l = drop (Datatypes.S i) (pms t d tr)); [|by rewrite Hdr].
    apply list_eq. intros m. rewrite !lookup_drop. apply list_lookup_insert_ne. lia. }
  specialize (HT r Hr). revert HT. unfold bind, lift. cbn [NewRandomNonce].
  destruct (Pack.Finalize p (nonce (r_rnd r))) as [p' err].
  destruct (set_pm_run t (<[i:=p']> (pms t d tr)) (mkRepo (r_be r) (r_idx r) (r_treePM r) (r_dataPM r)
    (r_noAutoIndexUpdate r) (r_tick r) (Datatypes.S (r_rnd r)))) as (r1 & -> & _).
  destruct (lift_err RPack err) as [tot|e|m]; [|done..].
  destruct (uploadPacker _ _ _ _ _ _ _ _ _) as [r2 [[]|e|m]]; [|done..].
  intros (l & HSt & Hll).
  assert (Hps : pms t (set_pms t l d tr).1 (set_pms t l d tr).2 = l) by by destruct t.
  rewrite <- Hps in HSt at 3.
  assert (Hb : forall j q, (Datatypes.S i <= j)%nat ->
    pms t (set_pms t l d tr).1 (set_pms t l d tr).2 !! j = Some q -> (j < Datatypes.S i + k)%nat).
  { rewrite Hps. intros j q Hj Hq. apply lookup_lt_Some in Hq. rewrite Hll in Hq.
    destruct (lookup_lt_is_Some_2 _ _ Hq) as [q' Hq']. specialize (Hlen j q' ltac:(lia) Hq'). lia. }
  specialize (IH (Datatypes.S i) _ _ opens Hb r2 HSt).
  destruct (flush_loop _ _ _ _ _ _ _ _ _ _) as [r3 [[]|e|m]]; [|done..].
  destruct IH as (d' & tr' & HSt' & Hd'). exists d', tr'. split; [done|]. by destruct t.
Qed.

Lemma FlushPacks_of_St N C t d tr opens : N <= 2 ^ 60 ->
  triple (St N d tr (pms t d tr ++ opens) C) (FlushPacks_of be mh Hash nonce clock key t)
    (fun _ => St N (set_pms t [] d tr).1 (set_pms t [] d tr).2 opens C).
Proof.
  intros HN r Hr. unfold FlushPacks_of, bind, get_repo.
  assert (Hpm : pm_of t r = pms t d tr) by (destruct Hr as (Hd0 & Ht0 & _); destruct t; cbn; congruence). rewrite Hpm.
  pose proof (flush_loop_St N C t HN (length (pms t d tr)) 0 d tr opens) as HF.
  rewrite drop_0 in HF. specialize (HF ltac:(intros j p _ Hj; apply lookup_lt_Some in Hj; lia) r Hr).
  destruct (flush_loop _ _ _ _ _ _ _ _ _ _) as [r3 [[]|e|m]]; [|done..].
  destruct HF as (d' & tr' & (Hd & Ht & Hrest) & Hother).
  destruct (set_pm_run t [] r3) as (r4 & -> & Hb & Hi & Hset).
  rewrite Hd, Ht in Hset. unfold St. rewrite Hb, Hi.
  assert (H2 : set_pms t [] d' tr' = set_pms t [] d tr) by (destruct t; cbn in *; congruence).
  rewrite H2 in Hset. rewrite <- Hset. cbn [fst snd]. auto.
Qed.

Lemma Flush_done N C : N <= 2 ^ 60 ->
  triple (Ready N C) (Flush be mh Hash nonce clock key) (fun _ => St N [] [] [] C).
Proof.
  intros HN r [Hr _]. unfold Flush, FlushPacks, bind.
  pose proof (FlushPacks_of_St N C DataBlob (r_dataPM r) (r_treePM r) (r_treePM r) HN r Hr) as H1.
  destruct (FlushPacks_of _ _ _ _ _ _ DataBlob r) as [r1 [[]|e|m]]; [|done..]. cbn [set_pms fst snd] in H1.
  pose proof (FlushPacks_of_St N C TreeBlob [] (r_treePM r) [] HN r1) as H2.
  cbn [pms] in H2. rewrite app_nil_r in H2. specialize (H2 H1).
  destruct (FlushPacks_of _ _ _ _ _ _ TreeBlob r1) as [r2 [[]|e|m]]; [|done..]. cbn [set_pms fst snd] in H2.
  unfold get_repo. destruct (r_noAutoIndexUpdate r2); [exact H2|].
  exact (St_SaveIndex N [] [] [] C HN r2 H2).
Qed.


(** *** Saving a blob *)

Lemma SaveBlob_Ready N C t buf id dup : N + 1 <= 2 ^ 60 -> lenZ buf + 32 <= maxuint32 ->
  IsNull id = true \/ id = Hash buf -> dup = true \/ (forall p, good p) ->
  triple (Ready N C) (SaveBlob be mh Hash nonce clock key t buf id dup)
    (fun x r => Ready (N + 1) (fun h => C h \/ h = mkHandle (Hash buf) t) r /\ x.1 = Hash buf).
Proof.
  intros HN Hlen Hid Hdup r [(_ & _ & Hinv & HC) Hs]. unfold SaveBlob.
  assert (HnewID : (if IsNull id then Hash buf else id) = Hash buf)
    by (destruct Hid as [-> | ->]; [done|by destruct (IsNull _)]).
  rewrite HnewID. unfold bind at 1, get_repo. pose proof Hinv as [A B Co D F G].
  rewrite (addPending_spec mh _ _ A). set (bh := mkHandle (Hash buf) t).
  destruct (MasterIndex_Has mh (r_idx r) bh) eqn:EH; cbn [negb].
  - (* already known *)
    assert (Hcov : (forall p, good p) -> covered good (r_idx r) (r_dataPM r ++ r_treePM r) bh).
    { intros Hall. assert (Hc : covered any_pack (r_idx r) (r_dataPM r ++ r_treePM r) bh).
      { apply (MasterIndex_Has_spec mh) in EH as [Hp|(pb & Hpb & Hh)]; [by apply D|left; by exists pb|done]. }
      destruct Hc as [(pb & Hpb & _ & Hh)|Hop]; [left; by exists pb|by right]. }
    unfold bind at 1. cbn [set_idx orb]. destruct dup; cbn [negb orb].
    + assert (HR : Reserved N bh C (mkRepo (r_be r) (r_idx r) (r_treePM r) (r_dataPM r) (r_noAutoIndexUpdate r) (r_tick r) (r_rnd r))).
      { split; [|done]. split; try done. intros h Hh. cbn [pendingBlobs] in Hh. apply elem_of_difference in Hh as [Hh _].
        exact (D h Hh). }
      pose proof (SaveAndEncrypt_Ready N C t buf (Hash buf) HN eq_refl Hlen _ HR) as HT. revert HT. unfold bind.
      destruct (SaveAndEncrypt _ _ _ _ _ _ _ _ _ _) as [r3 [[]|e|m]]; by intros.
    + unfold bind. cbn [ret fst]. split; [|done]. split; [|exact Hs]. split; [done|]. split; [done|]. split.
      * split; try done. cbn. lia.
      * intros h [Hh | ->]; [by apply HC|]. apply Hcov. by destruct Hdup.
  - unfold bind at 1. cbn [set_idx orb negb].
    set (r1 := mkRepo (r_be r) (mkMaster (mi_idx (r_idx r)) ({[bh]} ∪ pendingBlobs (r_idx r))) (r_treePM r) (r_dataPM r)
      (r_noAutoIndexUpdate r) (r_tick r) (r_rnd r)).
    assert (HR : Reserved N bh C r1).
    { split; [|done]. split; try done. intros h Hh. cbn [pendingBlobs r1 r_idx] in Hh.
      apply elem_of_difference in Hh as [Hh Hne]. apply elem_of_union in Hh as [Hh|Hh]; [done|]. exact (D h Hh). }
    pose proof (SaveAndEncrypt_Ready N C t buf (Hash buf) HN eq_refl Hlen r1 HR) as HT. revert HT. unfold bind.
    destruct (SaveAndEncrypt _ _ _ _ _ _ _ _ _ _) as [r3 [[]|e|m]]; by intros.
Qed.

End invariant.

(** ** Loading *)

Section sorting.
Context {A : Type} (has : A -> bool).

Lemma sort_loop (l : list A) : forall k arr c nc i,
  (i + k <= length l)%nat -> (c <= i)%nat -> length arr = length l -> drop i arr = drop i l ->
  c = length (filter (fun x => has x = true) (take i l)) ->
  take c arr = filter (fun x => has x = true) (take i l) ->
  nc = filter (fun x => has x ≠ true) (take i l) ->
  let '(arr', c', nc') := fold_left (sort_step has) (seq i k) (arr, c, nc) in
  length arr' = length l /\ take c' arr' = filter (fun x => has x = true) (take (i + k) l)
  /\ c' = length (filter (fun x => has x = true) (take (i + k) l))
  /\ nc' = filter (fun x => has x ≠ true) (take (i + k) l).
Proof.
  induction k as [|k IH]; intros arr c nc i Hk Hci Hla Hd Hc Ht Hnc; cbn [seq fold_left].
  { by rewrite Nat.add_0_r. }
  destruct (lookup_lt_is_Some_2 l i ltac:(lia)) as [x Hx].
  assert (Hax : arr !! i = Some x).
  { replace i with (i + 0)%nat by lia. rewrite <- lookup_drop, Hd, lookup_drop. by rewrite Nat.add_0_r. }
  pose proof (take_S_r l i x Hx) as Htk. cbn [sort_step]. rewrite Hax.
  replace (i + S k)%nat with (S i + k)%nat by lia.
  assert (Hd' : forall j y, (j <= i)%nat -> drop (S i) (<[j:=y]> arr) = drop (S i) l).
  { intros j y Hj. apply list_eq. intros m. rewrite !lookup_drop, list_lookup_insert_ne by lia.
    replace (S i + m)%nat with (i + (S m))%nat by lia. by rewrite <- !lookup_drop, Hd. }
  destruct (has x) eqn:Ex.
  - apply IH; rewrite ?length_insert, ?Htk, ?filter_app; try done; try lia.
    + by apply Hd'.
    + rewrite length_app, <- Hc. rewrite filter_cons, decide_True by done. simpl. lia.
    + rewrite filter_cons, decide_True by done. rewrite filter_nil.
      rewrite (take_S_r _ c x) by (apply list_lookup_insert_eq; lia). by rewrite take_insert_ge, Ht by lia.
    + rewrite filter_cons, decide_False by (intros Hh; by apply Hh). by rewrite filter_nil, app_nil_r.
  - apply IH; rewrite ?Htk, ?filter_app; try done; try lia.
    + rewrite <- (Hd' i x) by lia. by rewrite list_insert_id.
    + rewrite filter_cons, decide_False by congruence. by rewrite filter_nil, app_nil_r.
    + rewrite filter_cons, decide_False by congruence. by rewrite filter_nil, app_nil_r.
    + rewrite filter_cons, decide_True by congruence. by rewrite filter_nil, Hnc.
Qed.
End sorting.

(** [sortCachedPacksFirst] is a stable partition. *)
Lemma sortCachedPacksFirst_spec has blobs :
  let has_pack pb := has (mkBeHandle PackFile InvalidBlob (ID_String (pb_PackID pb))) in
  sortCachedPacksFirst (Some has) blobs
  = filter (fun pb => has_pack pb = true) blobs ++ filter (fun pb => has_pack pb ≠ true) blobs.
Proof.
  cbn zeta. unfold sortCachedPacksFirst.
  set (hp := fun pb => has (mkBeHandle PackFile InvalidBlob (ID_String (pb_PackID pb)))).
  case_bool_decide as H1.
  { destruct blobs as [|b [|b' blobs]]; try done. rewrite !filter_cons, !filter_nil. unfold hp.
    by destruct (has _). }
  pose proof (sort_loop hp blobs (length blobs) blobs 0 [] 0 ltac:(lia) ltac:(lia) eq_refl eq_refl eq_refl eq_refl eq_refl) as HS.
  destruct (fold_left _ _ _) as [[arr c] nc]. cbn [Nat.add] in HS. rewrite firstn_all in HS.
  destruct HS as (Hl & Ht & Hc & ->). rewrite Ht. f_equal.
  rewrite drop_ge; [by rewrite app_nil_r|]. rewrite Hc, Hl.
  pose proof (Permutation_length (Permutation_filter_split (fun pb => hp pb = true) blobs)) as HP.
  rewrite length_app in HP. unfold hp in *. lia.
Qed.

Lemma sortCachedPacksFirst_perm cache blobs : sortCachedPacksFirst cache blobs ≡ₚ blobs.
Proof.
  destruct cache as [has|]; [|done]. rewrite sortCachedPacksFirst_spec. symmetry.
  apply (Permutation_filter_split (fun pb => has _ = true)).
Qed.

Section loading.
Context {S : Type} (be : Backend S) (norm : Handle -> Handle) (contents : S -> Handle -> option (list byte)).
Context `{!StoreLaws be norm contents, !FileLaws be norm contents}.
Context `{CL : CryptoLaws} `{IC : IndexCodec}.
Context (mh : ID -> Z) (Hash : list byte -> ID) (nonce : nat -> list byte) (clock : nat -> Z) (key : Key).
Context (key_ok : Key_Valid key = true) (hash_wf : forall l, wf_ID (Hash l)).
Context (nonce_ok : forall k, lenZ (nonce k) = 16 /\ validNonce (nonce k) = true).

Lemma repo_eta (r : Repo S) :
  mkRepo (r_be r) (r_idx r) (r_treePM r) (r_dataPM r) (r_noAutoIndexUpdate r) (r_tick r) (r_rnd r) = r.
Proof. by destruct r. Qed.

(** The bytes an index entry points at decrypt to data with the blob's hash. *)
Definition pb_readable (s : S) (pb : PackedBlob) : Prop :=
  exists file pt, contents s (norm (pack_handle InvalidBlob (pb_PackID pb))) = Some file
    /\ wf_ID (pb_PackID pb)
    /\ 0 <= b_Offset (pb_Blob pb) /\ 0 < b_Length (pb_Blob pb) /\ b_Offset (pb_Blob pb) + b_Length (pb_Blob pb) <= lenZ file
    /\ decrypt key (take (Z.to_nat (b_Length (pb_Blob pb))) (drop (Z.to_nat (b_Offset (pb_Blob pb))) file)) = Ok pt
    /\ Hash pt = b_ID (pb_Blob pb).
Lemma pb_sound_readable s pb : pb_sound norm contents Hash key s pb -> pb_readable s pb.
Proof.
  intros (file & Hf & Hid & Ho & Hl & Hle & (n & pt & Hd & Hn & Hv & Hh) & _). exists file, pt. rewrite Hd, decrypt_sealed by done. done.
Qed.

(** Reading the bytes of an indexed blob. *)
Lemma read_blob bt pb (r : Repo S) : pb_readable (r_be r) pb ->
  exists data pt, be_read (ReadAt be false (pack_handle bt (pb_PackID pb)) (b_Offset (pb_Blob pb))
      (Z.to_nat (b_Length (pb_Blob pb)))) r = (r, Ok data)
    /\ lenZ data = b_Length (pb_Blob pb) /\ decrypt key data = Ok pt /\ Hash pt = b_ID (pb_Blob pb).
Proof.
  intros (file & pt & Hf & Hid & Ho & Hl & Hle & Hdec & Hh).
  assert (Hoff : 0 <= b_Offset (pb_Blob pb) <= lenZ file) by lia.
  set (data := take (Z.to_nat (b_Length (pb_Blob pb))) (drop (Z.to_nat (b_Offset (pb_Blob pb))) file)) in *.
  assert (Hlen : length data = Z.to_nat (b_Length (pb_Blob pb))).
  { unfold data. rewrite length_take, length_drop. lia. }
  exists data, pt. split; [|split; [lia|done]]. unfold be_read, ReadAt.
  rewrite (norm_pack be norm contents InvalidBlob bt) in Hf.
  rewrite (load_file _ _ _ _ _ _ _ file (pack_handle_valid bt _ Hid) Hf Hoff).
  unfold file_range. destruct (Z.ltb_spec 0 (Z.of_nat (Z.to_nat (b_Length (pb_Blob pb))))); [|lia].
  rewrite Nat2Z.id. fold data. unfold ReadFull. cbn [rd_bytes rd_err].
  rewrite take_ge by lia. rewrite bool_decide_eq_true_2 by done. cbn [fst snd]. by rewrite repo_eta.
Qed.

Lemma load_packs_sound t id blobs last (r : Repo S) : blobs ≠ [] ->
  (forall pb, pb ∈ blobs -> pb_readable (r_be r) pb /\ b_ID (pb_Blob pb) = id) ->
  exists pt, load_packs be Hash key t id blobs last r = (r, Ok pt) /\ Hash pt = id.
Proof.
  intros Hne Hall. destruct blobs as [|pb blobs]; [done|]. cbn [load_packs].
  destruct (Hall pb ltac:(apply elem_of_cons; by left)) as [Hs Hid].
  destruct (read_blob (if IsMixedPack (r_idx r) (pb_PackID pb) then InvalidBlob else t) pb r Hs)
    as (data & pt & HR & Hlen & Hdec & Hh).
  unfold pack_handle in HR. rewrite HR. rewrite bool_decide_eq_false_2 by lia.
  rewrite Hdec. unfold Equal. rewrite bool_decide_eq_true_2 by congruence. cbn [negb].
  exists pt. split; [done|congruence].
Qed.

Lemma LoadBlob_readable cache t id (r : Repo S) : master_wf mh (r_idx r) ->
  (forall pb, pb ∈ known (mi_idx (r_idx r)) -> b_handle (pb_Blob pb) = mkHandle id t -> pb_readable (r_be r) pb) ->
  (exists pb, pb ∈ known (mi_idx (r_idx r)) /\ b_handle (pb_Blob pb) = mkHandle id t) ->
  exists pt, LoadBlob be mh Hash key cache t id r = (r, Ok pt) /\ Hash pt = id.
Proof.
  intros A B (pb & Hpb & Hh). unfold LoadBlob, bind, get_repo, lift.
  destruct (MasterIndex_Lookup_spec mh (r_idx r) (mkHandle id t) A) as (l & -> & Hl). cbn [lift_err].
  assert (Hin : pb ∈ l) by (rewrite Hl; by apply list_elem_of_filter).
  rewrite bool_decide_eq_false_2 by (intros ->; by apply elem_of_nil in Hin).
  pose proof (sortCachedPacksFirst_perm cache l) as Hs.
  apply load_packs_sound.
  - intros Hnil. rewrite Hnil in Hs. apply Permutation_nil_l in Hs. rewrite <- Hs in Hin. by apply elem_of_nil in Hin.
  - intros q Hq. rewrite Hs, Hl in Hq. apply list_elem_of_filter in Hq as [Hqh Hq].
    split; [by apply B|]. unfold b_ID. by rewrite Hqh.
Qed.

Lemma LoadBlob_covered good cache N d tr C t id (r : Repo S) :
  St norm contents mh Hash key good N d tr [] C r -> C (mkHandle id t) ->
  exists pt, LoadBlob be mh Hash key cache t id r = (r, Ok pt) /\ Hash pt = id.
Proof.
  intros (_ & _ & [A B _ _ _ _] & HC) Hc. apply LoadBlob_readable; [done| |].
  - intros pb Hpb _. by apply pb_sound_readable, B.
  - destruct (HC _ Hc) as [(pb & Hpb & _ & Hh)|(p & b & Hp & _)]; [by exists pb|by apply elem_of_nil in Hp].
Qed.

(** [LoadBlob] and [LoadAndDecrypt] on any backend. *)
Lemma load_packs_hash t id blobs : forall last (r r' : Repo S) pt,
  load_packs be Hash key t id blobs last r = (r', Ok pt) -> Hash pt = id.
Proof.
  induction blobs as [|pb blobs IH]; intros last r r' pt; cbn [load_packs]; [done|].
  destruct (be_read _ r) as [r1 [data|e|m]]; [|by apply IH|done].
  case_bool_decide; [by apply IH|]. destruct (decrypt key data) as [p|e|m]; [|by apply IH|done].
  unfold Equal. case_bool_decide as He; cbn [negb]; [|by apply IH]. by intros [= _ <-].
Qed.

(** A sequence of [SaveBlob] calls. *)
Definition save_blobs (ops : list (BlobType * list byte * bool)) : M S unit :=
  fold_right (fun '(t, buf, dup) k => SaveBlob be mh Hash nonce clock key t buf nullID dup;;; k) (ret tt) ops.

Lemma save_blobs_Ready ops : forall N C, N + lenZ ops <= 2 ^ 60 ->
  Forall (fun o => lenZ o.1.2 + 32 <= maxuint32) ops ->
  triple (Ready norm contents mh Hash key any_pack N C) (save_blobs ops)
    (fun _ => Ready norm contents mh Hash key any_pack (N + lenZ ops)
       (fun h => C h \/ exists o, o ∈ ops /\ h = mkHandle (Hash o.1.2) o.1.1)).
Proof.
  induction ops as [|[[t buf] dup] ops IH]; intros N C HN Hl; cbn [save_blobs fold_right length] in *.
  { apply triple_ret. intros r [(H1 & H2 & H3 & H4) H5]. rewrite Z.add_0_r. split; [|done].
    split; [done|]. split; [done|]. split; [done|]. intros h [Hh|(o & Ho & _)]; [by apply H4|by apply elem_of_nil in Ho]. }
  apply Forall_cons in Hl as [Hb Hl]. cbn [fst snd] in Hb.
  eapply triple_bind.
  - apply (SaveBlob_Ready be norm contents mh Hash nonce clock key key_ok hash_wf nonce_ok any_pack (any_pack_refuses be norm contents) N C t buf nullID dup); [lia|done| |by right].
    left. unfold IsNull. by apply bool_decide_eq_true_2.
  - intros x. eapply triple_weaken; [apply (IH (N + 1)); [lia|done]| |].
    + by intros r [Hr _].
    + cbv beta. intros _ r [(H1 & H2 & H3 & H4) H5]. split; [|done]. split; [done|]. split; [done|].
      split; [by replace (N + Z.of_nat (Datatypes.S (length ops))) with (N + 1 + lenZ ops) by lia|].
      intros h Hh. apply H4. destruct Hh as [Hh|(o & Ho & ->)]; [auto|].
      apply elem_of_cons in Ho as [->|Ho]; [auto|]. right. by exists o.
Qed.

Lemma LoadAndDecrypt_hash (r r' : Repo S) ft id data : ft ≠ ConfigFile ->
  LoadAndDecrypt be Hash key ft id r = (r', Ok data) ->
  exists file s', LoadAll be false [] (mkBeHandle ft InvalidBlob (ID_String id)) (r_be r) = (s', inl file)
    /\ Hash file = id /\ decrypt key file = Ok data.
Proof.
  intros Hft. unfold LoadAndDecrypt, bind, be_read, lift, throw.
  rewrite (bool_decide_eq_false_2 (ft = ConfigFile)) by done. cbn [negb andb].
  destruct (LoadAll be false [] _ (r_be r)) as [s' [file|e]] eqn:EL; [|done].
  unfold Equal. case_bool_decide as Hh; cbn [negb]; [|done]. intros [= _ Hd].
  exists file, s'. done.
Qed.

(** ** Properties *)

(** C1: what is saved can be loaded.  From a new repository on a backend that
    keeps its promises, after any sequence of [SaveBlob] calls (blobs below
    4 GiB, with or without duplicates, through pack files filled, uploaded
    and indexed on the way) and [Flush], if no call reported an error then
    [LoadBlob] of every saved blob succeeds, whatever the cache, changes
    nothing, and returns data with the blob's hash: the saved data itself,
    unless SHA-256 collides on it. *)
Theorem SaveBlob_LoadBlob (s : S) (noAuto : bool) (ops : list (BlobType * list byte * bool))
    (cache : option (Handle -> bool)) (r : Repo S) (t : BlobType) (buf : list byte) (dup : bool) :
  lenZ ops <= 2 ^ 60 -> Forall (fun o => lenZ o.1.2 + 32 <= maxuint32) ops -> (t, buf, dup) ∈ ops ->
  (save_blobs ops;;; Flush be mh Hash nonce clock key)
    (mkRepo s (NewMasterIndex (clock 0%nat)) [] [] noAuto 1 0) = (r, Ok tt) ->
  exists data, LoadBlob be mh Hash key cache t (Hash buf) r = (r, Ok data)
    /\ Hash data = Hash buf
    /\ ((forall x, Hash x = Hash buf -> x = buf) -> data = buf).
Proof.
  intros Hlen Hl Hin Hrun. set (r0 := mkRepo s (NewMasterIndex (clock 0%nat)) [] [] noAuto 1 0) in Hrun.
  pose proof (triple_bind _ _ _ _ _ (save_blobs_Ready ops 0 (fun _ => False) ltac:(lia) Hl)
    (fun _ => Flush_done be norm contents mh Hash nonce clock key key_ok hash_wf nonce_ok any_pack (any_pack_refuses be norm contents) (0 + lenZ ops) _ ltac:(lia))) as HT.
  specialize (HT r0 (Ready_new norm contents mh Hash key any_pack s (clock 0%nat) noAuto (any_pack_old _))). rewrite Hrun in HT.
  destruct (LoadBlob_covered any_pack cache _ _ _ _ t (Hash buf) r HT) as (pt & HL & Hh).
  { right. by exists (t, buf, dup). }
  exists pt. split; [exact HL|]. split; [done|]. intros Hinj. by apply Hinj.
Qed.

(** C11: integrity.  Whatever the backend, the index and the cache hold,
    [LoadBlob] only ever returns data whose hash is the requested ID, and
    [LoadAndDecrypt] of a file other than the configuration only returns the
    plaintext of a file whose hash is the requested ID. *)
Theorem load_integrity (cache : option (Handle -> bool)) (r r' : Repo S) (t : BlobType) (id : ID)
    (ft : string) (data : list byte) :
  (LoadBlob be mh Hash key cache t id r = (r', Ok data) -> Hash data = id)
  /\ (ft ≠ ConfigFile -> LoadAndDecrypt be Hash key ft id r = (r', Ok data) ->
      exists file s', LoadAll be false [] (mkBeHandle ft InvalidBlob (ID_String id)) (r_be r) = (s', inl file)
        /\ Hash file = id /\ decrypt key file = Ok data).
Proof.
  split.
  - unfold LoadBlob, bind, get_repo, lift. destruct (lift_err _ _) as [l|e|m]; [|done..].
    case_bool_decide; [done|]. apply load_packs_hash.
  - intros Hft. by apply LoadAndDecrypt_hash.
Qed.

End loading.

(** ** Repacking *)

Section repacking.
Context {S : Type} (be : Backend S) (norm : Handle -> Handle) (contents : S -> Handle -> option (list byte)).
Context `{!StoreLaws be norm contents, !FileLaws be norm contents}.
Context `{CL : CryptoLaws} `{IC : IndexCodec}.
Context (mh : ID -> Z) (Hash : list byte -> ID) (nonce : nat -> list byte) (clock : nat -> Z) (key : Key).
Context (key_ok : Key_Valid key = true) (hash_wf : forall l, wf_ID (Hash l)).
Context (nonce_ok : forall k, lenZ (nonce k) = 16 /\ validNonce (nonce k) = true).

Lemma decrypt_length buf p : decrypt key buf = Ok p -> lenZ p + 32 = lenZ buf.
Proof.
  unfold decrypt. destruct (decide (length buf < 16)%nat) as [Hs|Hs].
  { unfold gslice. rewrite bool_decide_eq_false_2 by (unfold NonceSize, ivSize; lia). done. }
  destruct (list_split_at buf 16 ltac:(lia)) as (n & c & -> & Hn).
  rewrite gslice_prefix by (unfold NonceSize, ivSize; lia).
  rewrite gslice_suffix by (unfold NonceSize, ivSize; lia).
  destruct (Open key _ n c []) as [[k' p']|e|m] eqn:EO; [|done..]. cbn [lift_err]. intros [= ->].
  rewrite length_app, Hn.
  assert (Hc : (16 <= length c)%nat).
  { destruct (decide (length c < 16)%nat) as [Hcs|]; [|lia]. revert EO. unfold Open.
    destruct (Key_Valid key); [|done]. unfold panic_if. cbn [negb fail_if mbind res_bind].
    rewrite (bool_decide_eq_false_2 (lenZ n ≠ ivSize)) by (unfold ivSize; lia). cbn [mbind res_bind].
    destruct (validNonce n); [|done]. cbn [negb fail_if panic_if mbind res_bind].
    by rewrite bool_decide_eq_true_2 by (unfold Overhead, macSize; lia). }
  destruct (list_split_end c 16 Hc) as (ct & mac & -> & Hm).
  assert (Hvalid : Key_Valid key = true /\ validNonce n = true).
  { revert EO. unfold Open. destruct (Key_Valid key); [|done]. cbn [negb fail_if panic_if mbind res_bind].
    rewrite (bool_decide_eq_false_2 (lenZ n ≠ ivSize)) by (unfold ivSize; lia). cbn [mbind res_bind].
    by destruct (validNonce n). }
  destruct Hvalid as [Hk Hv]. rewrite Open_value in EO by (done || lia). case_bool_decide; [|done].
  injection EO as _ <-. cbn [sl_data app]. rewrite ctr_length, length_app, Hm. lia.
Qed.

Section packs.
(** Packs that count: the others exist already. *)
Context (good : ID -> Prop) {good_dec : forall id, Decision (good id)} (old_kept : refuses be norm contents (fun id => ~ good id)).

(** During repacking: the blobs saved so far and those still to be kept stay
    below the bound. *)
Definition Repacking (Mx : Z) (C : BlobHandle -> Prop) (keep : BlobSet) (r : Repo S) : Prop :=
  exists N, Ready norm contents mh Hash key good N C r /\ N + Z.of_nat (size keep) <= Mx.

(** What has been kept: [keep0] minus [keep]. *)
Definition kept (C : BlobHandle -> Prop) (keep0 keep : BlobSet) : BlobHandle -> Prop :=
  fun h => C h \/ h ∈ keep0 /\ h ∉ keep.

Lemma Repacking_ext Mx C C' keep r : (forall h, C' h -> C h) -> Repacking Mx C keep r -> Repacking Mx C' keep r.
Proof.
  intros Hi (N & [(H1 & H2 & H3 & H4) H5] & Hb). exists N. split; [|done]. split; [|done].
  split; [done|]. split; [done|]. split; [done|]. auto.
Qed.

Lemma repack_blobs_spec Mx C keep0 file entries : Mx <= 2 ^ 60 -> Forall blob_ok entries -> forall keep, keep ⊆ keep0 ->
  triple (Repacking Mx (kept C keep0 keep) keep)
    (repack_blobs be mh Hash nonce clock key file entries keep)
    (fun keep' r => Repacking Mx (kept C keep0 keep') keep' r /\ keep' ⊆ keep
       /\ forall b, b ∈ entries -> b_handle b ∉ keep').
Proof.
  intros HM Hok. induction Hok as [|b entries Hb Hok IH]; intros keep Hk; cbn [repack_blobs].
  { apply triple_ret. intros r Hr. split; [done|]. split; [done|]. by intros b ?%elem_of_nil. }
  assert (Hbh : mkHandle (b_ID b) (b_Type b) = b_handle b) by (unfold b_ID, b_Type; by destruct (b_handle b)).
  rewrite Hbh. unfold BlobSet_Has. case_bool_decide as Hin; cbn [negb].
  2: { eapply triple_weaken; [apply (IH keep Hk)|done|]. intros keep' r (H1 & H2 & H3). split; [done|].
       split; [done|]. intros b' [->|Hb']%elem_of_cons; [|by apply H3]. set_solver. }
  eapply triple_bind; [apply triple_lift|]. intros buf. apply triple_pure. intros Hbuf.
  eapply triple_bind; [apply triple_lift|]. intros pt. apply triple_pure. intros Hpt.
  assert (Hlen : lenZ pt + 32 <= maxuint32).
  { rewrite (decrypt_length _ _ Hpt). destruct Hb as (_ & _ & Hl0 & Hl). unfold maxuint32.
    unfold bytesReaderAt in Hbuf. repeat case_bool_decide; try done. injection Hbuf as <-.
    rewrite length_take, length_drop. lia. }
  unfold Equal. case_bool_decide as Hid; cbn [negb]; [|apply triple_throw].
  assert (Hsz : Z.of_nat (size (BlobSet_Delete keep (b_handle b))) + 1 = Z.of_nat (size keep)).
  { unfold BlobSet_Delete. rewrite size_difference by set_solver. rewrite size_singleton.
    assert (size keep ≠ 0)%nat; [|lia]. intros H0. apply size_empty_inv in H0. set_solver. }
  intros r (N & HR & HN). unfold bind.
  pose proof (SaveBlob_Ready be norm contents mh Hash nonce clock key key_ok hash_wf nonce_ok good old_kept N (kept C keep0 keep)
    (b_Type b) pt (b_ID b) true ltac:(lia) Hlen (or_intror (eq_sym Hid)) (or_introl eq_refl) r HR) as HS.
  destruct (SaveBlob _ _ _ _ _ _ _ _ _ _ _) as [r1 [x|e|m]]; [|done..]. destruct HS as [HS _].
  assert (HR1 : Repacking Mx (kept C keep0 (BlobSet_Delete keep (b_handle b))) (BlobSet_Delete keep (b_handle b)) r1).
  { apply (Repacking_ext _ (fun h => kept C keep0 keep h \/ h = mkHandle (Hash pt) (b_Type b))).
    - rewrite Hid, Hbh. unfold kept, BlobSet_Delete. intros h [Hh|[H0 Hn]]; [auto|].
      destruct (decide (h = b_handle b)) as [->|Hne]; [by right|]. left. right. set_solver.
    - exists (N + 1). split; [exact HS|lia]. }
  specialize (IH (BlobSet_Delete keep (b_handle b)) ltac:(unfold BlobSet_Delete; set_solver) r1 HR1).
  destruct (repack_blobs _ _ _ _ _ _ _ _ _ _) as [r2 [keep'|e|m]]; [|done..].
  destruct IH as (H1 & H2 & H3). unfold BlobSet_Delete in H2. split; [done|]. split; [set_solver|].
  intros b' [->|Hb']%elem_of_cons; [|by apply H3]. set_solver.
Qed.

Lemma Ready_ext N C C' r : (forall h, C' h -> C h) ->
  Ready norm contents mh Hash key good N C r -> Ready norm contents mh Hash key good N C' r.
Proof. intros Hi [(H1 & H2 & H3 & H4) H5]. split; [|done]. split; [done|]. split; [done|]. split; [done|]. auto. Qed.

Lemma DownloadAndHash_Repacking Mx C keep h :
  triple (Repacking Mx C keep) (DownloadAndHash be Hash h) (fun _ => Repacking Mx C keep).
Proof.
  intros r (N & [(H1 & H2 & [A B D F G O] & H4) H5] & Hb). unfold DownloadAndHash, bind, be_read, LoadAll.
  destruct (be_Load be false h 0 0 _ [] (r_be r)) as [[s' buf] err] eqn:EL. destruct err as [e|]; [done|]. cbn [ret].
  exists N. split; [|done]. split; [|done]. split; [done|]. split; [done|]. split; [|done].
  split; [done| |done..|].
  - intros pb Hpb. destruct (B pb Hpb) as (file & Hf & Hrest).
    exists file. split; [|done]. by rewrite (load_frame _ _ _ _ _ _ _ _ _ _ _ _ EL).
  - intros bt id Hid. rewrite (load_frame _ _ _ _ _ _ _ _ _ _ _ _ EL). by apply O.
Qed.

Lemma repack_packs_spec Mx C keep0 ps : Mx <= 2 ^ 60 -> forall keep, keep ⊆ keep0 ->
  triple (Repacking Mx (kept C keep0 keep) keep)
    (repack_packs be mh Hash nonce clock key ps keep)
    (fun keep' r => Repacking Mx (kept C keep0 keep') keep' r /\ keep' ⊆ keep).
Proof.
  intros HM. induction ps as [|p ps IH]; intros keep Hk; cbn [repack_packs].
  { by apply triple_ret. }
  eapply triple_bind; [apply DownloadAndHash_Repacking|]. intros [file hash].
  destruct (negb (Equal p hash)); [apply triple_throw|].
  eapply triple_bind; [apply triple_lift|]. intros [blobs hsz]. apply triple_pure. intros HL.
  assert (Hok : Forall blob_ok blobs).
  { destruct (Pack.List key (bytesReaderAt file) (lenZ file)) as [[es h]|e|m] eqn:E; [|done..].
    injection HL as -> ->. by eapply List_entries_ok. }
  eapply triple_bind; [by apply repack_blobs_spec|]. intros keep1 r (H1 & H2 & _).
  assert (Hk1 : keep1 ⊆ keep0) by set_solver.
  specialize (IH keep1 Hk1 r H1). destruct (repack_packs _ _ _ _ _ _ _ _ _) as [r' [k|e|m]]; [|done..].
  destruct IH as [H3 H4]. split; [done|]. set_solver.
Qed.

Lemma Repack_St N C ps keep : N + Z.of_nat (size keep) <= 2 ^ 60 ->
  triple (Ready norm contents mh Hash key good N C) (Repack be mh Hash nonce clock key ps keep)
    (fun x r => x.1 = ps /\ x.2 ⊆ keep
       /\ exists N', St norm contents mh Hash key good N' [] [] [] (kept C keep x.2) r).
Proof.
  intros HN r Hr. unfold Repack, bind.
  pose proof (repack_packs_spec (2 ^ 60) C keep ps ltac:(done) keep ltac:(done) r) as HP.
  destruct (repack_packs _ _ _ _ _ _ _ _ _) as [r1 [keep'|e|m]]; [|apply HP..].
  all: try (exists N; split; [|done]; eapply Ready_ext; [|done]; intros h [Hh|[H1 H2]]; done).
  destruct HP as [(N1 & HR1 & HN1) Hk].
  { exists N. split; [|done]. eapply Ready_ext; [|done]. by intros h [Hh|[H1 H2]]. }
  pose proof (Flush_done be norm contents mh Hash nonce clock key key_ok hash_wf nonce_ok good old_kept N1
    (kept C keep keep') ltac:(lia) r1 HR1) as HF.
  destruct (Flush _ _ _ _ _ _) as [r2 [[]|e|m]]; [|done..]. cbn [fst snd].
  split; [done|]. split; [done|]. by exists N1.
Qed.
End packs.

(** The same state, when some of the packs no longer count. *)
Lemma Ready_old good N C r : (forall bt id, ~ good id -> is_Some (contents (r_be r) (norm (pack_handle bt id)))) ->
  Ready norm contents mh Hash key any_pack N C r -> Ready norm contents mh Hash key good N (fun _ => False) r.
Proof. intros Hold [(H1 & H2 & [A B D F G _] & _) H5]. split; [|done]. split; [done|]. split; [done|]. by split. Qed.

(** C10: repacking copies what it is asked to keep.  From a repository built by
    saving blobs, if [Repack] of packs [ps] returns without an error, it
    reports [ps] as obsolete and a rest [keep'] of the blobs to keep, and each
    blob to keep that is no longer in the rest -- as well as each blob saved
    before -- is loaded with the right hash.  Moreover, when the packs [ps]
    exist and the backend refuses to save a pack under the name of one of them
    while it is there, then each blob to keep that is no longer in the rest has
    an entry in the index in a pack other than [ps], and its bytes there
    decrypt to data with the right hash: the blob was saved again, although it
    was known, and stays when the packs [ps] are removed. *)
Theorem Repack_keeps (s : S) (noAuto : bool) (ops : list (BlobType * list byte * bool)) (ps obsolete : list ID)
    (keep keep' : BlobSet) (cache : option (Handle -> bool)) (r1 r : Repo S) :
  lenZ ops + Z.of_nat (size keep) <= 2 ^ 60 -> Forall (fun o => lenZ o.1.2 + 32 <= maxuint32) ops ->
  (save_blobs be mh Hash nonce clock key ops;;; Flush be mh Hash nonce clock key)
    (mkRepo s (NewMasterIndex (clock 0%nat)) [] [] noAuto 1 0) = (r1, Ok tt) ->
  Repack be mh Hash nonce clock key ps keep r1 = (r, Ok (obsolete, keep')) ->
  obsolete = ps /\ keep' ⊆ keep
  /\ (forall t id, mkHandle id t ∈ keep /\ mkHandle id t ∉ keep' \/ (exists o, o ∈ ops /\ mkHandle id t = mkHandle (Hash o.1.2) o.1.1) ->
       exists data, LoadBlob be mh Hash key cache t id r = (r, Ok data) /\ Hash data = id)
  /\ ((forall bt p, p ∈ ps -> is_Some (contents (r_be r1) (norm (pack_handle bt p)))) ->
      refuses be norm contents (fun p => p ∈ ps) ->
      forall bh, bh ∈ keep -> bh ∉ keep' -> exists pb, pb ∈ known (mi_idx (r_idx r)) /\ b_handle (pb_Blob pb) = bh
        /\ pb_PackID pb ∉ ps /\ pb_readable norm contents Hash key (r_be r) pb).
Proof.
  intros Hlen Hl Hsave Hrun. set (r0 := mkRepo s (NewMasterIndex (clock 0%nat)) [] [] noAuto 1 0) in Hsave.
  set (C := fun h => False \/ exists o, o ∈ ops /\ h = mkHandle (Hash o.1.2) o.1.1).
  pose proof (triple_bind _ _ _ _ _ (save_blobs_Ready be norm contents mh Hash nonce clock key key_ok hash_wf nonce_ok ops 0 (fun _ => False) ltac:(lia) Hl)
    (fun _ => Flush_done be norm contents mh Hash nonce clock key key_ok hash_wf nonce_ok any_pack (any_pack_refuses be norm contents)
      (0 + lenZ ops) C ltac:(lia))) as HT.
  specialize (HT r0 (Ready_new norm contents mh Hash key any_pack s (clock 0%nat) noAuto (any_pack_old _))). rewrite Hsave in HT.
  assert (H1 : Ready norm contents mh Hash key any_pack (0 + lenZ ops) C r1).
  { destruct HT as (Hd & Ht & HT). unfold Ready, St. rewrite Hd, Ht. done. }
  pose proof (Repack_St any_pack (any_pack_refuses be norm contents) (0 + lenZ ops) C ps keep ltac:(lia) r1 H1) as HR.
  rewrite Hrun in HR. destruct HR as (HR1 & HR2 & N' & HS). cbn [fst snd] in *.
  split; [done|]. split; [done|]. split.
  - intros t id Hh. apply (LoadBlob_covered be norm contents mh Hash key key_ok any_pack cache _ _ _ _ t id r HS).
    destruct Hh as [[Ha Hb]|Ha]; [by right|]. left. by right.
  - intros Hps Href bh Hk Hk'. set (good := fun p => p ∉ ps).
    assert (Hgood : forall id, ~ good id -> id ∈ ps) by (intros id Hid; destruct (decide (id ∈ ps)) as [|Hn]; [done|by destruct Hid]).
    assert (Href' : refuses be norm contents (fun id => ~ good id)).
    { intros bt id rd s1 s2 rd' file Hid. by apply Href, Hgood. }
    pose proof (Repack_St good Href' (0 + lenZ ops) (fun _ => False) ps keep ltac:(lia) r1
      (Ready_old good _ _ _ (fun bt id Hid => Hps bt id (Hgood id Hid)) H1)) as HG.
    rewrite Hrun in HG. destruct HG as (_ & _ & N2 & _ & _ & [_ B _ _ _ _] & HC). cbn [snd] in HC.
    destruct (HC bh ltac:(by right)) as [(pb & Hpb & Hp & Hh)|(p & b & Hp & _)]; [|by apply elem_of_nil in Hp].
    exists pb. split; [done|]. split; [done|]. split; [done|]. by apply pb_sound_readable, B.
Qed.

End repacking.

(** ** A concrete repository *)

(** Instances that are cheap to evaluate: no encryption, a constant tag, and
    the first bytes of the data in place of SHA-256. *)
Definition plain_prims : CryptoPrims := {|
  aes_ctr k iv m := m; aes_block k b := b; poly1305_sum m k := replicate 16 Byte.x00
|}.
Lemma plain_laws : @CryptoLaws plain_prims.
Proof. by split. Qed.
Definition toy_hash (l : list byte) : ID := take 32 (l ++ replicate 32 Byte.x00).
Lemma toy_hash_wf l : wf_ID (toy_hash l).
Proof. unfold toy_hash, wf_ID. rewrite length_take, length_app, length_replicate. lia. Qed.

Definition toy_nonces (n : nat) : list byte :=
  replicate 16 (match n with 0 => Byte.x01 | 1 => Byte.x02 | 2 => Byte.x03 | 3 => Byte.x04 | 4 => Byte.x05 | 5 => Byte.x06
                | 6 => Byte.x07 | 7 => Byte.x08 | 8 => Byte.x09 | _ => Byte.x0a end%nat).
Definition toy_clock (_ : nat) : Z := 0.
Abbreviation toy_repo := (mkRepo (∅ : Mem.memMap) (NewMasterIndex (toy_clock 0)) [] [] false 1 0).
Definition toy_saves : list (BlobType * list byte * bool) :=
  [(DataBlob, [Byte.x01; Byte.x02; Byte.x03], false); (TreeBlob, [Byte.x04], false);
   (DataBlob, [Byte.x01; Byte.x02; Byte.x03], false)].
Abbreviation toy_Flush :=
  (Flush toy_mem (CP := plain_prims) (IC := toy_codec) toy_mh toy_hash toy_nonces toy_clock toy_key).
Definition toy_run : Repo Mem.memMap * res repo_error unit :=
  (save_blobs toy_mem (H := plain_prims) (IC := toy_codec) toy_mh toy_hash toy_nonces toy_clock toy_key toy_saves;;;
   toy_Flush) toy_repo.
Definition toy_keep : BlobSet := {[mkHandle (toy_hash [Byte.x04]) TreeBlob]}.
Definition toy_packs : list ID := map pb_PackID (filter (fun pb => b_handle (pb_Blob pb) ∈ toy_keep) (known (mi_idx (r_idx toy_run.1)))).
Definition toy_repack_run : Repo Mem.memMap * res repo_error (list ID * BlobSet) :=
  Repack toy_mem (CP := plain_prims) (IC := toy_codec) toy_mh toy_hash toy_nonces toy_clock toy_key toy_packs toy_keep toy_run.1.

Lemma toy_saves_small : Forall (fun o => lenZ o.1.2 + 32 <= maxuint32) toy_saves.
Proof. repeat (apply Forall_cons; split; [vm_compute; discriminate|]). apply Forall_nil, I. Qed.
Lemma toy_key_ok : Key_Valid toy_key = true.
Proof. by vm_compute. Qed.
Lemma toy_nonces_ok k : lenZ (toy_nonces k) = 16 /\ validNonce (toy_nonces k) = true.
Proof. split; [done|]. do 9 (destruct k as [|k]; [by vm_compute|]). by vm_compute. Qed.

Lemma SaveBlob_LoadBlob_witness :
  toy_run.2 = Ok tt
  /\ exists data, LoadBlob toy_mem (CP := plain_prims) toy_mh toy_hash toy_key None TreeBlob (toy_hash [Byte.x04]) toy_run.1
       = (toy_run.1, Ok data) /\ toy_hash data = toy_hash [Byte.x04].
Proof.
  assert (HE : toy_run.2 = Ok tt) by (vm_compute; reflexivity).
  assert (HR : toy_run = (toy_run.1, Ok tt)) by (rewrite <- HE; by destruct toy_run).
  unfold toy_run at 1 in HR.
  destruct (SaveBlob_LoadBlob toy_mem Mem.normalize mem_contents (StoreLaws0 := mem_store_laws toy_md5 map_to_list)
    (FileLaws0 := mem_file_laws toy_md5 map_to_list) (CL := plain_laws) (IC := toy_codec) toy_mh toy_hash
    toy_nonces toy_clock toy_key toy_key_ok toy_hash_wf toy_nonces_ok
    ∅ false toy_saves None toy_run.1 TreeBlob [Byte.x04] false) as (data & H1 & H2 & _);
    [vm_compute; discriminate|exact toy_saves_small|by right; left|exact HR|].
  exact (conj HE (ex_intro _ data (conj H1 H2))).
Defined.

Lemma mem_refuses names : refuses toy_mem Mem.normalize mem_contents names.
Proof.
  intros bt id rd s s' rd' file _ Hf. cbn [be_Save toy_mem Mem.backend]. unfold Mem.Save, mem_contents in *.
  destruct (Handle_Valid _); [done|]. unfold Mem.normalize in *. by rewrite Hf.
Qed.
Definition toy_pack_stored (p : ID) : bool :=
  bool_decide (is_Some (mem_contents (r_be toy_run.1) (Mem.normalize (pack_handle DataBlob p)))).
Lemma toy_packs_stored bt p : p ∈ toy_packs -> is_Some (mem_contents (r_be toy_run.1) (Mem.normalize (pack_handle bt p))).
Proof.
  intros Hp. assert (Hall : forallb toy_pack_stored toy_packs = true) by (vm_compute; reflexivity). rewrite forallb_forall in Hall.
  specialize (Hall p (proj1 (list_elem_of_In _ _) Hp)). exact (proj1 (bool_decide_eq_true _) Hall).
Qed.
Lemma Repack_keeps_witness :
  toy_repack_run.2 = Ok (toy_packs, ∅) /\ length toy_packs = 1%nat
  /\ (exists data, LoadBlob toy_mem (CP := plain_prims) toy_mh toy_hash toy_key None TreeBlob (toy_hash [Byte.x04]) toy_repack_run.1
       = (toy_repack_run.1, Ok data) /\ toy_hash data = toy_hash [Byte.x04])
  /\ exists pb, pb ∈ known (mi_idx (r_idx toy_repack_run.1)) /\ pb_PackID pb ∉ toy_packs.
Proof.
  assert (HE : toy_repack_run.2 = Ok (toy_packs, ∅)) by (vm_compute; reflexivity).
  assert (HR : toy_repack_run = (toy_repack_run.1, Ok (toy_packs, ∅))) by (rewrite <- HE; by destruct toy_repack_run).
  unfold toy_repack_run at 1 in HR.
  assert (HE0 : toy_run.2 = Ok tt) by (vm_compute; reflexivity).
  assert (HR0 : toy_run = (toy_run.1, Ok tt)) by (rewrite <- HE0; by destruct toy_run).
  unfold toy_run at 1 in HR0.
  destruct (Repack_keeps toy_mem Mem.normalize mem_contents (StoreLaws0 := mem_store_laws toy_md5 map_to_list)
    (FileLaws0 := mem_file_laws toy_md5 map_to_list) (CL := plain_laws) (IC := toy_codec) toy_mh toy_hash
    toy_nonces toy_clock toy_key toy_key_ok toy_hash_wf toy_nonces_ok
    ∅ false toy_saves toy_packs toy_packs toy_keep ∅ None toy_run.1 toy_repack_run.1) as (_ & _ & H & H');
    [vm_compute; discriminate|exact toy_saves_small|exact HR0|exact HR|].
  assert (HL : length toy_packs = 1%nat) by (vm_compute; reflexivity).
  assert (Hk : mkHandle (toy_hash [Byte.x04]) TreeBlob ∈ toy_keep) by by apply elem_of_singleton.
  destruct (H' toy_packs_stored (mem_refuses _) _ Hk (not_elem_of_empty _)) as (pb & Hpb & _ & Hn & _).
  exact (conj HE (conj HL (conj (H TreeBlob (toy_hash [Byte.x04]) (or_introl (conj Hk (not_elem_of_empty _)))) (ex_intro _ pb (conj Hpb Hn))))).
Defined.

Definition toy_load : Repo Mem.memMap * res repo_error (list byte) :=
  LoadBlob toy_mem (CP := plain_prims) toy_mh toy_hash toy_key None DataBlob (toy_hash [Byte.x01; Byte.x02; Byte.x03]) toy_run.1.

Lemma load_integrity_witness :
  exists data, toy_load.2 = Ok data /\ toy_hash data = toy_hash [Byte.x01; Byte.x02; Byte.x03].
Proof.
  exists [Byte.x01; Byte.x02; Byte.x03].
  assert (HE : toy_load.2 = Ok [Byte.x01; Byte.x02; Byte.x03]) by (vm_compute; reflexivity).
  assert (HR : toy_load = (toy_load.1, Ok [Byte.x01; Byte.x02; Byte.x03])) by (rewrite <- HE; by destruct toy_load).
  unfold toy_load at 1 in HR.
  destruct (load_integrity toy_mem (H := plain_prims) toy_mh toy_hash toy_key None toy_run.1 toy_load.1 DataBlob
    (toy_hash [Byte.x01; Byte.x02; Byte.x03]) SnapshotFile [Byte.x01; Byte.x02; Byte.x03]) as [H _].
  exact (conj HE (H HR)).
Defined.
