(* ===== verification/Duration.v ===== *)
(** * Duration: calendar times and the durations of expiry policies

    src/restic/duration.go and what src/restic/snapshot_policy.go uses of Go's
    [time] package.  An instant counts nanoseconds since January 1 of year 1
    (UTC), which is Go's zero time, and carries the offset of its zone; the
    calendar is the proleptic Gregorian one.  Zones have a fixed offset, as
    those of times decoded from a file with an explicit offset. *)

From S2P Require Import Prelude Ids.

(** ** Times *)

Record Time : Type := mkTime { t_ns : Z; t_off : Z }.
#[global] Instance Time_eq_dec : EqDecision Time.
Proof. solve_decision. Defined.

Definition zeroTime : Time := mkTime 0 0.
Definition After (a b : Time) : bool := t_ns b <? t_ns a.
Definition Before (a b : Time) : bool := t_ns a <? t_ns b.

Definition Second : Z := 10 ^ 9.
Definition Hour_ns : Z := 3600 * Second.

(** Seconds since the zero time on the local clock. *)
Definition local_seconds (t : Time) : Z := t_ns t / Second + t_off t.
Definition local_days (t : Time) : Z := local_seconds t / 86400.
Definition second_of_day (t : Time) : Z := local_seconds t mod 86400.

(** The calendar in eras of 400 years that begin on March 1; day 0 is January
    1 of year 1. *)
Definition civil_of_days (days : Z) : Z * Z * Z :=
  let z := days + 306 in
  let era := z / 146097 in
  let doe := z mod 146097 in
  let yoe := (doe - doe / 1460 + doe / 36524 - doe / 146096) / 365 in
  let doy := doe - (365 * yoe + yoe / 4 - yoe / 100) in
  let mp := (5 * doy + 2) / 153 in
  let d := doy - (153 * mp + 2) / 5 + 1 in
  let m := if mp <? 10 then mp + 3 else mp - 9 in
  (yoe + era * 400 + (if m <=? 2 then 1 else 0), m, d).
(** The day of a date; a day out of its month's range runs over. *)
Definition days_of_civil (y m d : Z) : Z :=
  let y := if m <=? 2 then y - 1 else y in
  let era := y / 400 in
  let yoe := y mod 400 in
  let doy := (153 * (if 2 <? m then m - 3 else m + 9) + 2) / 5 + d - 1 in
  era * 146097 + yoe * 365 + yoe / 4 - yoe / 100 + doy - 306.

Definition Year (t : Time) : Z := (civil_of_days (local_days t)).1.1.
Definition Month (t : Time) : Z := (civil_of_days (local_days t)).1.2.
Definition Day (t : Time) : Z := (civil_of_days (local_days t)).2.
Definition Hour (t : Time) : Z := second_of_day t / 3600.

(** [ISOWeek]: the year of the week's Thursday, and its number there; the zero
    time is a Monday. *)
Definition ISOWeek (t : Time) : Z * Z :=
  let thursday := local_days t - local_days t mod 7 + 3 in
  let year := (civil_of_days thursday).1.1 in
  (year, (thursday - days_of_civil year 1 1) / 7 + 1).

(** [AddDate]: months run over into years, days into months. *)
Definition AddDate (t : Time) (years months days : Z) : Time :=
  let m := Month t + months - 1 in
  let d := days_of_civil (Year t + years + m / 12) (m mod 12 + 1) (Day t + days) in
  mkTime ((d * 86400 + second_of_day t - t_off t) * Second + t_ns t mod Second) (t_off t).
(** [Add] of a [time.Duration] (64-bit nanoseconds). *)
Definition Add (t : Time) (d : Z) : Time := mkTime (t_ns t + i64 d) (t_off t).

(** The time of a date and clock time. *)
Definition Date (y m d h mi s ns off : Z) : Time :=
  mkTime ((days_of_civil y m d * 86400 + h * 3600 + mi * 60 + s - off) * Second + ns) off.

Example civil_1 : civil_of_days 0 = (1, 1, 1). Proof. reflexivity. Qed.
Example civil_2 : civil_of_days (days_of_civil 2024 2 29) = (2024, 2, 29). Proof. reflexivity. Qed.
Example civil_3 : civil_of_days (days_of_civil 2023 2 29) = (2023, 3, 1). Proof. reflexivity. Qed.
Example week_1 : ISOWeek (Date 2021 1 3 12 0 0 0 0) = (2020, 53). Proof. reflexivity. Qed.
Example week_2 : ISOWeek (Date 2021 1 4 0 30 0 0 3600) = (2021, 1). Proof. reflexivity. Qed.
Example add_date_1 : AddDate (Date 2020 3 31 1 2 3 4 7200) (-1) (-1) 0 = Date 2019 3 3 1 2 3 4 7200.
Proof. reflexivity. Qed.

(** ** UTF-8 *)

Definition RuneError : Z := 65533.

Definition cont_byte (lo hi : Z) (b : byte) : bool := (lo <=? byte_Z b) && (byte_Z b <=? hi).
Definition low6 (b : byte) : Z := byte_Z b mod 64.

(** [utf8.DecodeRune]: the first rune and its width; an invalid byte is a
    [RuneError] of width 1. *)
Definition DecodeRune (l : list byte) : Z * nat :=
  match l with
  | [] => (RuneError, 0%nat)
  | b0 :: l =>
      let z := byte_Z b0 in
      if z <? 128 then (z, 1%nat)
      else if (194 <=? z) && (z <=? 223) then
        match l with
        | b1 :: _ => if cont_byte 128 191 b1 then (z mod 32 * 64 + low6 b1, 2%nat) else (RuneError, 1%nat)
        | _ => (RuneError, 1%nat)
        end
      else if (224 <=? z) && (z <=? 239) then
        match l with
        | b1 :: b2 :: _ =>
            if cont_byte (if z =? 224 then 160 else 128) (if z =? 237 then 159 else 191) b1 && cont_byte 128 191 b2
            then (z mod 16 * 4096 + low6 b1 * 64 + low6 b2, 3%nat) else (RuneError, 1%nat)
        | _ => (RuneError, 1%nat)
        end
      else if (240 <=? z) && (z <=? 244) then
        match l with
        | b1 :: b2 :: b3 :: _ =>
            if cont_byte (if z =? 240 then 144 else 128) (if z =? 244 then 143 else 191) b1
               && cont_byte 128 191 b2 && cont_byte 128 191 b3
            then (z mod 8 * 262144 + low6 b1 * 4096 + low6 b2 * 64 + low6 b3, 4%nat) else (RuneError, 1%nat)
        | _ => (RuneError, 1%nat)
        end
      else (RuneError, 1%nat)
  end.

(** The runes of a string, each with its bytes. *)
Fixpoint runes_fuel (fuel : nat) (l : list byte) : list (Z * list byte) :=
  match fuel, l with
  | S fuel, _ :: _ =>
      let '(r, k) := DecodeRune l in (r, take k l) :: runes_fuel fuel (drop k l)
  | _, _ => []
  end.
Definition runes (l : list byte) : list (Z * list byte) := runes_fuel (length l) l.
Definition rune_bytes (rs : list (Z * list byte)) : list byte := concat (map snd rs).

Definition is_ascii (b : byte) : Prop := byte_Z b < 128.

(** ** Durations *)

(** The classes of runes beyond ASCII are tables of the [unicode] package. *)
Class Unicode : Type := {
  IsNumber : Z -> bool;
  IsSpace : Z -> bool;
}.
Class UnicodeLaws `{Unicode} : Prop := {
  IsNumber_ascii r : 0 <= r < 128 -> IsNumber r = (48 <=? r) && (r <=? 57);
  IsSpace_ascii r : 0 <= r < 128 -> IsSpace r = bool_decide (r ∈ [9; 10; 11; 12; 13; 32]);
}.

Record Duration : Type := mkDuration { d_Hours : Z; d_Days : Z; d_Months : Z; d_Years : Z }.
#[global] Instance Duration_eq_dec : EqDecision Duration.
Proof. solve_decision. Defined.

(** [%d] *)
Fixpoint dec (fuel : nat) (n : Z) (acc : list byte) : list byte :=
  match fuel with
  | O => acc
  | S fuel =>
      let acc := Z_byte (48 + n mod 10) :: acc in
      if n <? 10 then acc else dec fuel (n / 10) acc
  end.
Definition minus : byte := Byte.x2d.
(** 20 digits are enough for a 64-bit integer. *)
Definition format_int (n : Z) : list byte :=
  if n <? 0 then minus :: dec 20 (- n) [] else dec 20 n [].

Definition unit_part (n : Z) (unit : byte) : list byte :=
  if negb (n =? 0) then format_int n ++ [unit] else [].
Definition Duration_String (d : Duration) : list byte :=
  unit_part (d_Years d) Byte.x79 ++ unit_part (d_Months d) Byte.x6d
  ++ unit_part (d_Days d) Byte.x64 ++ unit_part (d_Hours d) Byte.x68.

Definition Zero (d : Duration) : bool :=
  (d_Years d =? 0) && (d_Months d =? 0) && (d_Days d =? 0) && (d_Hours d =? 0).

Inductive duration_error : Type := NoNumber | NoUnit (num : Z).

(** [strconv.Atoi] of a string without a sign. *)
Definition digits_value (l : list byte) : Z := fold_left (fun a b => 10 * a + (byte_Z b - 48)) l 0.
Definition is_digit (b : byte) : bool := (48 <=? byte_Z b) && (byte_Z b <=? 57).
Definition Atoi (l : list byte) : option Z :=
  if bool_decide (l = []) || negb (forallb is_digit l) then None
  else if digits_value l <? 2 ^ 63 then Some (digits_value l) else None.

Section duration.
Context `{Unicode}.

Fixpoint drop_spaces (rs : list (Z * list byte)) : list (Z * list byte) :=
  match rs with
  | [] => []
  | (r, b) :: rs' => if IsSpace r then drop_spaces rs' else rs
  end.
Definition TrimSpace (s : list byte) : list byte :=
  rune_bytes (reverse (drop_spaces (reverse (drop_spaces (runes s))))).

Fixpoint span_number (rs : list (Z * list byte)) : list byte * list byte :=
  match rs with
  | [] => ([], [])
  | (r, b) :: rs' =>
      if negb (IsNumber r) then ([], rune_bytes rs)
      else let '(n, rest) := span_number rs' in (b ++ n, rest)
  end.
(** [nextNumber]: a run of number runes that [Atoi] rejects is a panic. *)
Definition nextNumber (input : list byte) : res duration_error (Z * list byte) :=
  match input with
  | [] => Ok (0, [])
  | b0 :: tl =>
      let negative := bool_decide (b0 = minus) in
      let input := if negative then tl else input in
      let '(n, rest) := span_number (runes input) in
      if bool_decide (n = []) then Err NoNumber
      else match Atoi n with
           | None => Panic "strconv.Atoi"
           | Some num => Ok (if negative then - num else num, rest)
           end
  end.

Fixpoint parse_loop (fuel : nat) (s : list byte) (d : Duration) : res duration_error Duration :=
  match s with
  | [] => Ok d
  | _ =>
      match fuel with
      | O => Panic "out of fuel"
      | S fuel =>
          '(num, s) ← nextNumber s;
          match s with
          | [] => Err (NoUnit num)
          | u :: s =>
              let d :=
                if bool_decide (u = Byte.x79) then mkDuration (d_Hours d) (d_Days d) (d_Months d) num
                else if bool_decide (u = Byte.x6d) then mkDuration (d_Hours d) (d_Days d) num (d_Years d)
                else if bool_decide (u = Byte.x64) then mkDuration (d_Hours d) num (d_Months d) (d_Years d)
                else if bool_decide (u = Byte.x68) then mkDuration num (d_Days d) (d_Months d) (d_Years d)
                else d in
              parse_loop fuel s d
          end
      end
  end.
Definition ParseDuration (s : list byte) : res duration_error Duration :=
  let s := TrimSpace s in parse_loop (length s) s (mkDuration 0 0 0 0).

(** [Set] leaves the duration as it was when the text does not parse. *)
Definition Duration_Set (d : Duration) (s : list byte) : res (Duration * duration_error) Duration :=
  match ParseDuration s with Ok v => Ok v | Err e => Err (d, e) | Panic m => Panic m end.

End duration.

(** ** Facts about UTF-8 and decimal numbers *)

Lemma DecodeRune_ascii b l : is_ascii b -> DecodeRune (b :: l) = (byte_Z b, 1%nat).
Proof. intros Hb. unfold DecodeRune. unfold is_ascii in Hb. by rewrite (proj2 (Z.ltb_lt _ _) Hb). Qed.

Lemma DecodeRune_width b l : (1 <= (DecodeRune (b :: l)).2)%nat.
Proof. unfold DecodeRune. repeat case_match; simpl; lia. Qed.

Lemma runes_fuel_bytes fuel l : (length l <= fuel)%nat -> rune_bytes (runes_fuel fuel l) = l.
Proof.
  revert l. induction fuel as [|fuel IH]; intros [|b l] Hl; try done; [simpl in Hl; lia|].
  cbn [runes_fuel]. pose proof (DecodeRune_width b l) as Hw. destruct (DecodeRune (b :: l)) as [r k]. cbn [snd] in Hw.
  unfold rune_bytes in *. cbn [map concat snd]. rewrite IH.
  - apply take_drop.
  - rewrite length_drop. simpl in *. lia.
Qed.
Lemma runes_bytes l : rune_bytes (runes l) = l.
Proof. by apply runes_fuel_bytes. Qed.

Lemma rune_bytes_app r1 r2 : rune_bytes (r1 ++ r2) = rune_bytes r1 ++ rune_bytes r2.
Proof. unfold rune_bytes. by rewrite map_app, concat_app. Qed.

Definition ascii_runes (l : list byte) : list (Z * list byte) := map (fun b => (byte_Z b, [b])) l.
Lemma runes_fuel_ascii fuel l : (length l <= fuel)%nat -> Forall is_ascii l -> runes_fuel fuel l = ascii_runes l.
Proof.
  intros Hl Ha. revert fuel Hl. induction Ha as [|b l Hb Ha IH]; intros [|fuel] Hl; try done; [simpl in Hl; lia|].
  cbn [runes_fuel]. rewrite DecodeRune_ascii by done. cbn [take drop]. rewrite take_0, IH; [done|]. simpl in Hl. lia.
Qed.
Lemma runes_ascii l : Forall is_ascii l -> runes l = ascii_runes l.
Proof. by apply runes_fuel_ascii. Qed.
Lemma ascii_runes_bytes l : rune_bytes (ascii_runes l) = l.
Proof. induction l as [|b l IH]; [done|]. unfold rune_bytes, ascii_runes in *. cbn [map concat snd app]. by rewrite IH. Qed.

Lemma digit_byte k : 0 <= k < 10 -> byte_Z (Z_byte (48 + k)) = 48 + k.
Proof. intros. rewrite Z_byte_Z. unfold u8. apply Z.mod_small. lia. Qed.

(** [dec] yields digits with the number's value. *)
Lemma dec_spec fuel : forall n acc, 0 <= n < 10 ^ Z.of_nat fuel -> (0 < fuel)%nat ->
  exists l, dec fuel n acc = l ++ acc /\ l ≠ [] /\ forallb is_digit l = true /\ digits_value l = n.
Proof.
  induction fuel as [|fuel IH]; intros n acc Hn Hf; [lia|]. cbn [dec].
  assert (Hm : 0 <= n mod 10 < 10) by (apply Z.mod_pos_bound; lia).
  assert (Hd : is_digit (Z_byte (48 + n mod 10)) = true).
  { unfold is_digit. rewrite digit_byte by done. apply andb_true_intro. split; apply Z.leb_le; lia. }
  destruct (Z.ltb_spec n 10) as [Hlt|Hge].
  - exists [Z_byte (48 + n mod 10)]. split; [done|]. split; [done|]. cbn [forallb]. rewrite Hd. split; [done|].
    unfold digits_value. cbn [fold_left]. rewrite digit_byte, Z.mod_small by lia. lia.
  - assert (Hf' : (0 < fuel)%nat) by (destruct fuel; [change (10 ^ Z.of_nat 1) with 10 in Hn; lia|lia]).
    rewrite Nat2Z.inj_succ, Z.pow_succ_r in Hn by lia.
    destruct (IH (n / 10) (Z_byte (48 + n mod 10) :: acc)) as (l & -> & Hl & Hds & Hv); [|done|].
    { split; [apply Z.div_pos; lia|apply Z.div_lt_upper_bound; lia]. }
    exists (l ++ [Z_byte (48 + n mod 10)]). rewrite <- app_assoc. split; [done|].
    split; [by destruct l|]. rewrite forallb_app, Hds. cbn [forallb]. rewrite Hd. split; [done|].
    unfold digits_value in *. rewrite fold_left_app, Hv. cbn [fold_left]. rewrite digit_byte by done.
    pose proof (Z.div_mod n 10). lia.
Qed.

Lemma dec_20 n : 0 <= n < 2 ^ 63 ->
  dec 20 n [] ≠ [] /\ forallb is_digit (dec 20 n []) = true /\ Atoi (dec 20 n []) = Some n.
Proof.
  intros Hn. destruct (dec_spec 20 n []) as (l & HE & Hl & Hd & Hv); [|lia|].
  { split; [lia|]. eapply Z.lt_trans; [apply Hn|]. reflexivity. }
  rewrite HE, app_nil_r. split; [done|]. split; [done|]. unfold Atoi.
  rewrite bool_decide_eq_false_2 by done. rewrite Hd, Hv. cbn [negb orb].
  by rewrite (proj2 (Z.ltb_lt _ _) (proj2 Hn)).
Qed.

Lemma is_digit_ascii b : is_digit b = true -> is_ascii b.
Proof. unfold is_digit, is_ascii. intros [_ Hb%Z.leb_le]%andb_true_iff. lia. Qed.
Lemma digits_ascii l : forallb is_digit l = true -> Forall is_ascii l.
Proof. rewrite forallb_forall. intros H. apply Forall_forall. intros b Hb. apply is_digit_ascii, H. by apply list_elem_of_In. Qed.

(** ** Parsing *)

Section facts.
Context `{UL : UnicodeLaws}.

(** A byte that cannot be part of a number and is not white space. *)
Definition unit_byte (u : byte) : Prop :=
  is_ascii u /\ is_digit u = false /\ byte_Z u ∉ [9; 10; 11; 12; 13; 32].
Definition int_ok (n : Z) : Prop := - 2 ^ 63 < n < 2 ^ 63.

Lemma IsNumber_digit b : is_ascii b -> IsNumber (byte_Z b) = is_digit b.
Proof. intros Hb. pose proof (byte_Z_range b). rewrite IsNumber_ascii; [done|]. unfold is_ascii in Hb. lia. Qed.

Lemma span_number_digits ds u rest : forallb is_digit ds = true -> unit_byte u ->
  span_number (ascii_runes (ds ++ u :: rest)) = (ds, u :: rest).
Proof.
  intros Hds Hu. induction ds as [|b ds IH].
  - cbn [app ascii_runes map span_number]. destruct Hu as (Ha & Hd & _). rewrite IsNumber_digit, Hd by done. cbn [negb].
    f_equal. apply (ascii_runes_bytes (u :: rest)).
  - cbn [forallb] in Hds. apply andb_true_iff in Hds as [Hb Hds].
    cbn [app ascii_runes map span_number]. rewrite IsNumber_digit, Hb by by apply is_digit_ascii. cbn [negb].
    unfold ascii_runes in IH. by rewrite IH.
Qed.

Lemma minus_ascii : is_ascii minus. Proof. done. Qed.
Lemma format_int_ascii n : int_ok n -> Forall is_ascii (format_int n).
Proof.
  intros Hn. unfold format_int, int_ok in *. destruct (Z.ltb_spec n 0).
  - apply Forall_cons. split; [done|]. by apply digits_ascii, dec_20; lia.
  - by apply digits_ascii, dec_20; lia.
Qed.

Lemma nextNumber_format n u rest : int_ok n -> unit_byte u -> Forall is_ascii rest ->
  nextNumber (format_int n ++ u :: rest) = Ok (n, u :: rest).
Proof.
  intros Hn Hu Hr. unfold int_ok in Hn.
  assert (Har : forall ds, forallb is_digit ds = true -> Forall is_ascii (ds ++ u :: rest)).
  { intros ds Hds. apply Forall_app. split; [by apply digits_ascii|]. apply Forall_cons. split; [apply Hu|done]. }
  unfold format_int. destruct (Z.ltb_spec n 0) as [Hneg|Hpos].
  - destruct (dec_20 (- n) ltac:(lia)) as (Hl & Hd & Ha). cbn [app nextNumber].
    rewrite bool_decide_eq_true_2 by done. rewrite runes_ascii, span_number_digits by auto.
    rewrite bool_decide_eq_false_2, Ha by done. do 2 f_equal. lia.
  - destruct (dec_20 n ltac:(lia)) as (Hl & Hd & Ha). destruct (dec 20 n []) as [|b0 ds] eqn:E; [done|].
    unfold nextNumber. cbn [app]. rewrite (bool_decide_eq_false_2 (b0 = minus)).
    2: { intros ->. done. }
    change (b0 :: ds ++ u :: rest) with ((b0 :: ds) ++ u :: rest).
    rewrite runes_ascii, span_number_digits by auto.
    by rewrite bool_decide_eq_false_2, Ha by done.
Qed.

(** The text of a list of numbers with units, and what it sets. *)
Definition render (ops : list (Z * byte)) : list byte := concat (map (fun o => format_int o.1 ++ [o.2]) ops).
Definition set_unit (d : Duration) (o : Z * byte) : Duration :=
  if bool_decide (o.2 = Byte.x79) then mkDuration (d_Hours d) (d_Days d) (d_Months d) o.1
  else if bool_decide (o.2 = Byte.x6d) then mkDuration (d_Hours d) (d_Days d) o.1 (d_Years d)
  else if bool_decide (o.2 = Byte.x64) then mkDuration (d_Hours d) o.1 (d_Months d) (d_Years d)
  else if bool_decide (o.2 = Byte.x68) then mkDuration o.1 (d_Days d) (d_Months d) (d_Years d)
  else d.
Definition op_valid (o : Z * byte) : Prop := int_ok o.1 /\ unit_byte o.2.

Lemma render_ascii ops : Forall op_valid ops -> Forall is_ascii (render ops).
Proof.
  induction 1 as [|o ops [Hn Hu] _ IH]; [done|]. unfold render in *. cbn [map concat].
  apply Forall_app. split; [|done]. apply Forall_app. split; [by apply format_int_ascii|].
  apply Forall_singleton, Hu.
Qed.

Lemma parse_loop_render ops : Forall op_valid ops -> forall fuel d, (length (render ops) <= fuel)%nat ->
  parse_loop fuel (render ops) d = Ok (fold_left set_unit ops d).
Proof.
  induction 1 as [|[n u] ops [Hn Hu] Hops IH]; intros fuel d Hf; [by destruct fuel|].
  cbn [fst snd] in Hn, Hu. unfold render in *. cbn [map concat fst snd fold_left] in *.
  set (rest := concat (map (fun o => format_int o.1 ++ [o.2]) ops)) in *.
  rewrite <- app_assoc in *. cbn [app] in *.
  pose proof (nextNumber_format n u rest Hn Hu (render_ascii ops Hops)) as HN.
  destruct (format_int n ++ u :: rest) as [|b s] eqn:E; [by destruct (format_int n)|].
  destruct fuel as [|fuel]; [simpl in Hf; lia|]. cbn [parse_loop].
  rewrite HN. cbn [mbind res_bind]. apply IH.
  apply (f_equal length) in E. rewrite length_app in E. simpl in *. lia.
Qed.

Lemma drop_spaces_id r b rs : IsSpace r = false -> drop_spaces ((r, b) :: rs) = (r, b) :: rs.
Proof. intros HS. cbn [drop_spaces]. by rewrite HS. Qed.

Lemma not_space b : is_ascii b -> byte_Z b ∉ [9; 10; 11; 12; 13; 32] -> IsSpace (byte_Z b) = false.
Proof.
  intros Ha Hn. pose proof (byte_Z_range b). unfold is_ascii in Ha. rewrite IsSpace_ascii by lia.
  by apply bool_decide_eq_false_2.
Qed.

(** Text between two bytes that are not spaces is not trimmed. *)
Lemma TrimSpace_id b1 mid b2 l : Forall is_ascii l -> (exists t, l = b1 :: t) -> l = mid ++ [b2] ->
  byte_Z b1 ∉ [9; 10; 11; 12; 13; 32] -> byte_Z b2 ∉ [9; 10; 11; 12; 13; 32] -> TrimSpace l = l.
Proof.
  intros Ha [t Hl] Hl2 H1 H2. unfold TrimSpace. rewrite runes_ascii by done.
  assert (HA1 : is_ascii b1) by (rewrite Hl in Ha; by apply Forall_cons in Ha as [? _]).
  assert (HA2 : is_ascii b2) by (rewrite Hl2 in Ha; apply Forall_app in Ha as [_ Ha]; by rewrite Forall_singleton in Ha).
  rewrite Hl at 1. cbn [ascii_runes map]. rewrite drop_spaces_id by by apply not_space.
  change (rune_bytes (reverse (drop_spaces (reverse (ascii_runes (b1 :: t))))) = l). rewrite <- Hl, Hl2.
  unfold ascii_runes. rewrite map_app, reverse_app. cbn [map reverse app].
  change (reverse [(byte_Z b2, [b2])]) with [(byte_Z b2, [b2])]. cbn [app].
  rewrite drop_spaces_id by by apply not_space. rewrite reverse_cons, reverse_involutive.
  rewrite rune_bytes_app. f_equal. apply (ascii_runes_bytes mid).
Qed.

Lemma not_space_Z z : z < 9 \/ 13 < z -> z ≠ 32 -> z ∉ [9; 10; 11; 12; 13; 32].
Proof. intros. rewrite !not_elem_of_cons. split_and!; try lia. apply not_elem_of_nil. Qed.

Lemma format_int_head n : int_ok n -> exists b t, format_int n = b :: t /\ byte_Z b ∉ [9; 10; 11; 12; 13; 32].
Proof.
  intros Hn. unfold format_int, int_ok in *. destruct (Z.ltb_spec n 0).
  - exists minus, (dec 20 (- n) []). split; [done|]. apply not_space_Z; [right; reflexivity|discriminate].
  - destruct (dec_20 n ltac:(lia)) as (Hl & Hd & _). destruct (dec 20 n []) as [|b t]; [done|].
    exists b, t. split; [done|]. cbn [forallb] in Hd. apply andb_true_iff in Hd as [Hd _].
    unfold is_digit in Hd. apply andb_true_iff in Hd as [Hd%Z.leb_le _]. apply not_space_Z; lia.
Qed.

Lemma ParseDuration_render ops : Forall op_valid ops ->
  ParseDuration (render ops) = Ok (fold_left set_unit ops (mkDuration 0 0 0 0)).
Proof.
  intros Hops. unfold ParseDuration.
  assert (HT : TrimSpace (render ops) = render ops).
  { destruct ops as [|[n u] ops0] using rev_ind; [done|]. clear IHops0.
    assert (Hlast : op_valid (n, u)) by (apply Forall_app in Hops as [_ Ho]; by rewrite Forall_singleton in Ho).
    assert (exists b t, render (ops0 ++ [(n, u)]) = b :: t /\ byte_Z b ∉ [9; 10; 11; 12; 13; 32]) as (b & t & Hr & Hb).
    { destruct ops0 as [|[n0 u0] ops1]; unfold render; cbn [app map concat fst snd].
      - destruct (format_int_head n) as (b & t & -> & Hb); [apply Hlast|]. by exists b, ((t ++ [u]) ++ []).
      - apply Forall_cons in Hops as [[Hn0 _] _]. destruct (format_int_head n0) as (b & t & -> & Hb); [done|].
        cbn [app]. by eexists b, _. }
    apply (TrimSpace_id b (render ops0 ++ format_int n) u); [by apply render_ascii|by exists t| |done|apply Hlast].
    unfold render. rewrite map_app, concat_app. cbn [map concat fst snd]. rewrite app_nil_r. by rewrite app_assoc. }
  rewrite HT. apply parse_loop_render; [done|lia].
Qed.

(** Every iteration of the loop consumes input. *)
Lemma span_number_bytes rs : (span_number rs).1 ++ (span_number rs).2 = rune_bytes rs.
Proof.
  induction rs as [|[r b] rs IH]; [done|]. cbn [span_number]. destruct (negb (IsNumber r)); [done|].
  destruct (span_number rs) as [n rest]. cbn [fst snd] in *. rewrite <- app_assoc, IH. done.
Qed.

Lemma nextNumber_shorter s n rest : s ≠ [] -> nextNumber s = Ok (n, rest) -> (length rest < length s)%nat.
Proof.
  destruct s as [|b0 s]; [done|]. intros _. unfold nextNumber.
  set (input := if bool_decide (b0 = minus) then s else b0 :: s).
  pose proof (span_number_bytes (runes input)) as HB. rewrite runes_bytes in HB.
  destruct (span_number (runes input)) as [ds rest']. cbn [fst snd] in HB.
  case_bool_decide as Hds; [done|]. destruct (Atoi ds); [|done]. intros [= _ <-].
  apply (f_equal length) in HB. rewrite length_app in HB.
  assert (length input <= length (b0 :: s))%nat by (unfold input; case_bool_decide; simpl; lia).
  destruct ds; [done|simpl in *; lia].
Qed.

Lemma nextNumber_fuel s : nextNumber s ≠ Panic "out of fuel".
Proof.
  destruct s as [|b0 s]; [done|]. unfold nextNumber.
  destruct (span_number (runes _)) as [ds rest]. case_bool_decide; [done|]. by destruct (Atoi ds).
Qed.

Lemma parse_loop_fuel fuel : forall s d, (length s <= fuel)%nat -> parse_loop fuel s d ≠ Panic "out of fuel".
Proof.
  induction fuel as [|fuel IH]; intros [|b s] d Hl; try done; [simpl in Hl; lia|]. cbn [parse_loop].
  pose proof (nextNumber_fuel (b :: s)) as HF.
  destruct (nextNumber (b :: s)) as [[n rest]|e|m] eqn:EN; [|done|by intros [= ->]]. cbn [mbind res_bind].
  apply nextNumber_shorter in EN; [|done]. destruct rest as [|u rest]; [done|]. apply IH. simpl in *. lia.
Qed.

Lemma byte_not_space b : byte_Z b <? 9 = true \/ 32 <? byte_Z b = true -> byte_Z b ∉ [9; 10; 11; 12; 13; 32].
Proof. intros [Hb|Hb]; apply Z.ltb_lt in Hb; rewrite !not_elem_of_cons; split_and!; try lia; apply not_elem_of_nil. Qed.
Lemma unit_y : unit_byte Byte.x79. Proof. split; [done|]. split; [done|]. apply byte_not_space; by right. Qed.
Lemma unit_m : unit_byte Byte.x6d. Proof. split; [done|]. split; [done|]. apply byte_not_space; by right. Qed.
Lemma unit_d : unit_byte Byte.x64. Proof. split; [done|]. split; [done|]. apply byte_not_space; by right. Qed.
Lemma unit_h : unit_byte Byte.x68. Proof. split; [done|]. split; [done|]. apply byte_not_space; by right. Qed.

Lemma set_unit_y d n : set_unit d (n, Byte.x79) = mkDuration (d_Hours d) (d_Days d) (d_Months d) n. Proof. reflexivity. Qed.
Lemma set_unit_m d n : set_unit d (n, Byte.x6d) = mkDuration (d_Hours d) (d_Days d) n (d_Years d). Proof. reflexivity. Qed.
Lemma set_unit_d d n : set_unit d (n, Byte.x64) = mkDuration (d_Hours d) n (d_Months d) (d_Years d). Proof. reflexivity. Qed.
Lemma set_unit_h d n : set_unit d (n, Byte.x68) = mkDuration n (d_Days d) (d_Months d) (d_Years d). Proof. reflexivity. Qed.

(** The text of a duration renders its fields that are not zero. *)
Definition duration_ops (d : Duration) : list (Z * byte) :=
  filter (fun o => o.1 ≠ 0) [(d_Years d, Byte.x79); (d_Months d, Byte.x6d); (d_Days d, Byte.x64); (d_Hours d, Byte.x68)].

Lemma Duration_String_render d : Duration_String d = render (duration_ops d).
Proof.
  unfold Duration_String, duration_ops, unit_part, render. rewrite !filter_cons, filter_nil. cbn [fst].
  destruct (Z.eqb_spec (d_Years d) 0), (Z.eqb_spec (d_Months d) 0), (Z.eqb_spec (d_Days d) 0), (Z.eqb_spec (d_Hours d) 0);
    cbn [negb]; repeat (case_decide; [try (exfalso; lia)|try (exfalso; lia)]);
    cbn [map concat fst snd app]; by rewrite ?app_nil_r.
Qed.

(** C37: durations.  A text of numbers (64-bit, not the least) each followed by
    a unit letter sets, per unit, the last number given, and ignores unknown
    units; so [ParseDuration] reads back what [String] prints of any duration.
    On any input at all, valid UTF-8 or not, the loop ends. *)
Theorem ParseDuration_spec (ops : list (Z * byte)) (d : Duration) (s : list byte) :
  Forall op_valid ops ->
  int_ok (d_Years d) -> int_ok (d_Months d) -> int_ok (d_Days d) -> int_ok (d_Hours d) ->
  ParseDuration (render ops) = Ok (fold_left set_unit ops (mkDuration 0 0 0 0))
  /\ ParseDuration (Duration_String d) = Ok d
  /\ ParseDuration s ≠ Panic "out of fuel".
Proof.
  intros Hops Hy Hm Hd Hh. split; [by apply ParseDuration_render|]. split; [|by apply parse_loop_fuel].
  rewrite Duration_String_render, ParseDuration_render.
  - f_equal. unfold duration_ops. rewrite !filter_cons, filter_nil. cbn [fst]. destruct d as [h dd m y]. cbn in *.
    repeat case_decide; cbn [fold_left]; rewrite ?set_unit_y, ?set_unit_m, ?set_unit_d, ?set_unit_h; cbn; f_equal; lia.
  - apply Forall_forall. intros [n u] [_ Ho]%list_elem_of_filter. rewrite !elem_of_cons, elem_of_nil in Ho.
    destruct Ho as [[= -> ->]|[[= -> ->]|[[= -> ->]|[[= -> ->]|[]]]]]; split; auto using unit_y, unit_m, unit_d, unit_h.
Qed.

End facts.

(** ** Concrete inputs *)

(** Tables with one number and one space beyond ASCII. *)
Definition toy_unicode : Unicode := {|
  IsNumber r := ((48 <=? r) && (r <=? 57)) || (r =? 178);
  IsSpace r := bool_decide (r ∈ [9; 10; 11; 12; 13; 32; 160])
|}.
Lemma toy_unicode_laws : @UnicodeLaws toy_unicode.
Proof.
  split; intros r Hr; cbn [IsNumber IsSpace toy_unicode].
  - rewrite (proj2 (Z.eqb_neq r 178)) by lia. by rewrite orb_false_r.
  - apply bool_decide_ext. rewrite !elem_of_cons, elem_of_nil. lia.
Qed.

Lemma ParseDuration_spec_witness :
  Duration_String (mkDuration 37 0 (-5) 6) = bytes_of "6y-5m37h"
  /\ ParseDuration (H := toy_unicode) (bytes_of "6y-5m37h") = Ok (mkDuration 37 0 (-5) 6)
  /\ ParseDuration (H := toy_unicode) (bytes_of "1d2x3d") = Ok (mkDuration 0 3 0 0).
Proof.
  destruct (ParseDuration_spec (UL := toy_unicode_laws) [(1, Byte.x64); (2, Byte.x78); (3, Byte.x64)] (mkDuration 37 0 (-5) 6) [])
    as (H1 & H2 & _); try (split; reflexivity).
  - repeat (apply Forall_cons; split; [split; [split; reflexivity|]|]); [apply unit_d| |apply unit_d|apply Forall_nil, I].
    split; [done|]. split; [done|]. apply byte_not_space; by right.
  - exact (conj eq_refl (conj H2 H1)).
Defined.

(** Finding: a number rune that is no digit makes [ParseDuration] panic. *)
Lemma ParseDuration_panics :
  ParseDuration (H := toy_unicode) [Byte.x31; Byte.xc2; Byte.xb2; Byte.x64] = Panic "strconv.Atoi".
Proof. reflexivity. Qed.
