(* ===== verification/Terminal.v ===== *)
(** * Terminal: messages above a status that is rewritten in place

    src/internal/ui/termstatus: messages and status lines arrive on channels
    and are written to the terminal, with control sequences that keep the
    status below the messages.  src/internal/ui/stdio_wrapper.go: writers that
    pass on whole lines.  src/internal/ui/table: tables of text.  Writes
    succeed; the code prints their errors and goes on.  How wide a character
    is, the size of the terminal, and whether the process is in the background
    are parameters. *)

From Stdlib Require Import Strings.Byte.
From S2P Require Import Prelude Ids Duration.
#[local] Open Scope Z_scope.

Definition newline : byte := Byte.x0a.
Definition esc : byte := Byte.x1b.
(** [strings.TrimRight] of a byte. *)
Fixpoint drop_byte (c : byte) (r : list byte) : list byte :=
  match r with
  | [] => []
  | b :: r' => if Byte.eqb b c then drop_byte c r' else r
  end.
Definition TrimRight (c : byte) (s : list byte) : list byte := rev (drop_byte c (rev s)).

(** ** What is written *)

Inductive out : Type :=
| OClear                       (** clear the current line *)
| OUp (n : nat)                (** move the cursor up *)
| OText (s : list byte)        (** to the output *)
| OErr (s : list byte).        (** to the error output *)
(** src/internal/ui/termstatus/terminal_posix.go *)
Definition posixClearCurrentLine : list byte := [Byte.x0d; esc] ++ bytes_of "[2K".
Definition posixMoveCursorUp (n : nat) : list byte := Byte.x0d :: concat (replicate n (esc :: bytes_of "[1A")).
Definition posix (o : out) : list byte :=
  match o with OClear => posixClearCurrentLine | OUp n => posixMoveCursorUp n | OText s => s | OErr s => s end.

Definition writeStatus (status : list (list byte)) : list out :=
  flat_map (fun line => [OClear; OText line]) status ++ (if bool_decide (status = []) then [] else [OUp (length status - 1)]).
Definition undoStatus (lines : nat) : list out := concat (replicate lines [OClear; OText [newline]]) ++ [OUp lines].

(** ** The loops *)

Record message : Type := mkMessage { m_line : list byte; m_err : bool }.
Inductive run_event : Type := EMessage (m : message) | EStatus (lines : list (list byte)) | EDone.
(** One round of [run]; [background] is what [IsProcessBackground] answers. *)
Definition run_step (background : bool) (ev : run_event) (status : list (list byte)) : list (list byte) * list out :=
  match ev with
  | EDone => (status, if negb background then undoStatus (length status) else [])
  | EMessage m =>
      if background then (status, [])
      else (status, [OClear; if m_err m then OErr (m_line m) else OText (m_line m)] ++ writeStatus status)
  | EStatus lines =>
      if background then (status, []) else (lines, writeStatus lines)
  end.
Fixpoint run (evs : list (bool * run_event)) (status : list (list byte)) : list (list byte) * list out :=
  match evs with
  | [] => (status, [])
  | (background, ev) :: evs =>
      let '(status, l) := run_step background ev status in
      let '(status, l') := run evs status in
      (status, l ++ l')
  end.
Definition step_without_status (ev : run_event) : list out :=
  match ev with
  | EDone => []
  | EMessage m => [if m_err m then OErr (m_line m) else OText (m_line m)]
  | EStatus lines => map (fun line => OText (TrimRight newline line ++ [newline])) lines
  end.
Definition runWithoutStatus (evs : list run_event) : list out := flat_map step_without_status evs.
Definition Run (canUpdateStatus : bool) (evs : list (bool * run_event)) : list out :=
  if canUpdateStatus then (run evs []).2 else runWithoutStatus (map snd evs).

(** [print]: the last byte of a line is looked at. *)
Definition print (line : list byte) (isErr : bool) : res Empty_set message :=
  match last line with
  | None => Panic "index out of range"
  | Some c => Ok (mkMessage (if negb (Byte.eqb c newline) then line ++ [newline] else line) isErr)
  end.
Definition Print (line : list byte) : res Empty_set message := print line false.
Definition Error (line : list byte) : res Empty_set message := print line true.

(** ** Setting the status *)

Section status.
(** Is a character neither neutral nor narrow? *)
Context (wideRune : Z -> bool).
Definition MaxASCII : Z := 127.
(** The loop of [Truncate]; the result is what comes before the first rune
    that does not fit. *)
Fixpoint truncate_loop (rs : list (Z * list byte)) (w : Z) : list byte :=
  match rs with
  | [] => []
  | (r, bs) :: rs =>
      let w := w - 1 in
      let w := if (MaxASCII <? r) && wideRune r then w - 1 else w in
      if w <? 0 then [] else bs ++ truncate_loop rs w
  end.
Definition Truncate (s : list byte) (w : Z) : list byte :=
  if lenZ s <? w then s else truncate_loop (runes s) w.

(** [GetSize]: the width of the terminal, if it is known. *)
Context (GetSize : option Z).
Definition SetStatus (canUpdateStatus : bool) (lines : list (list byte)) : option (list (list byte)) :=
  if bool_decide (lines = []) then None
  else
    let width := if canUpdateStatus then
                   match GetSize with Some w => if w <=? 0 then 80 else w | None => 80 end
                 else 0 in
    let lines := map (fun line =>
      let line := TrimRight newline line in
      let line := if 0 <? width then Truncate line (width - 2) else line in
      line ++ [newline]) lines in
    let last := (length lines - 1)%nat in
    Some (alter (TrimRight newline) last lines).

(** *** Widths *)

(** The cells that a rune takes by the measure of the code. *)
Definition cells (r : Z) : Z := if (MaxASCII <? r) && wideRune r then 2 else 1.
Definition width_of (rs : list (Z * list byte)) : Z := foldr (fun x n => cells x.1 + n) 0 rs.
Lemma cells_range r : 1 <= cells r <= 2.
Proof. unfold cells. destruct (_ && _); lia. Qed.
Lemma width_nonneg rs : 0 <= width_of rs.
Proof. unfold width_of. induction rs as [|x rs IH]; cbn [foldr]; [lia|]. pose proof (cells_range x.1). lia. Qed.

Lemma truncate_loop_spec rs : forall w, exists kept rest, rs = kept ++ rest /\ truncate_loop rs w = rune_bytes kept
  /\ (width_of kept <= Z.max 0 w) /\ match rest with [] => True | x :: _ => w < width_of kept + cells x.1 end.
Proof.
  induction rs as [|[r bs] rs IH]; intros w; [exists [], []; split_and!; [done|done|cbn; lia|done]|]. cbn [truncate_loop].
  assert (Hw : (if (MaxASCII <? r) && wideRune r then w - 1 - 1 else w - 1) = w - cells r) by (unfold cells; destruct (_ && _); lia).
  cbv zeta. rewrite Hw. destruct (Z.ltb_spec (w - cells r) 0).
  - exists [], ((r, bs) :: rs). split_and!; [done|done|cbn; lia|cbn; lia].
  - destruct (IH (w - cells r)) as (kept & rest & -> & -> & H1 & H2). exists ((r, bs) :: kept), rest. split; [done|]. split; [done|].
    unfold width_of in *. cbn [foldr fst]. pose proof (cells_range r). split; [lia|]. destruct rest; [done|]. lia.
Qed.
(** A character in more than one byte, as all are that are not ASCII in valid
    UTF-8. *)
Definition proper_rune (x : Z * list byte) : Prop := cells x.1 <= lenZ x.2.
Lemma width_bytes rs : Forall proper_rune rs -> width_of rs <= lenZ (rune_bytes rs).
Proof.
  unfold width_of, rune_bytes. induction 1 as [|x rs Hx _ IH]; cbn [foldr map concat]; [done|]. rewrite length_app. unfold proper_rune in Hx. lia.
Qed.
(** [Truncate] keeps as many characters of a string as fit, and no more: the
    result is the start of the string, has at most the width, and with the
    next character would exceed it. *)
Lemma Truncate_fits s w : Forall proper_rune (runes s) -> exists kept rest, runes s = kept ++ rest /\ Truncate s w = rune_bytes kept
  /\ width_of kept <= Z.max 0 w /\ match rest with [] => True | x :: _ => w < width_of kept + cells x.1 end.
Proof.
  intros Hp. unfold Truncate. destruct (Z.ltb_spec (lenZ s) w); [|apply truncate_loop_spec]. exists (runes s), []. rewrite app_nil_r, runes_bytes.
  split_and!; [done|done| |done]. apply width_bytes in Hp. rewrite runes_bytes in Hp. lia.
Qed.
(** Bytes that are not UTF-8 are taken for the replacement character: where
    this is a wide one, a short string of such bytes is kept although it is
    wider than allowed. *)
Lemma Truncate_invalid : wideRune RuneError = true -> Truncate [Byte.xff; Byte.xff; Byte.xff] 4 = [Byte.xff; Byte.xff; Byte.xff]
  /\ width_of (runes [Byte.xff; Byte.xff; Byte.xff]) = 6.
Proof.
  intros Hw. split; [done|]. change (runes _) with (replicate 3 (RuneError, [Byte.xff])). unfold width_of. cbn [replicate foldr fst]. unfold cells. by rewrite Hw.
Qed.
End status.

(** ** Where the cursor is *)

Definition newlines (s : list byte) : Z := lenZ (filter (fun b => b = newline) s).
(** By how many rows an output moves the cursor down. *)
Definition rows (o : out) : Z :=
  match o with OClear => 0 | OUp n => - Z.of_nat n | OText s => newlines s | OErr s => newlines s end.
Definition total_rows (l : list out) : Z := foldr (fun o n => rows o + n) 0 l.
Lemma total_rows_app l l' : total_rows (l ++ l') = total_rows l + total_rows l'.
Proof. unfold total_rows. induction l as [|o l IH]; cbn [app foldr]; [done|]. rewrite IH. lia. Qed.
Lemma newlines_app s s' : newlines (s ++ s') = newlines s + newlines s'.
Proof. unfold newlines. rewrite filter_app, length_app. lia. Qed.
Lemma newlines_none s : newline ∉ s -> newlines s = 0.
Proof.
  unfold newlines. induction s as [|b s IH]; [done|]. intros Hn. rewrite filter_cons_False; [apply IH|]; intros E; apply Hn; apply elem_of_cons; [by right|by left].
Qed.

(** Every line of a status ends in a line break, but for the last, and there
    are no others. *)
Fixpoint status_ok (status : list (list byte)) : Prop :=
  match status with
  | [] => True
  | [line] => newlines line = 0
  | line :: status => newlines line = 1 /\ status_ok status
  end.
Lemma total_rows_lines status : status_ok status -> total_rows (flat_map (fun line => [OClear; OText line]) status) = Z.of_nat (length status - 1).
Proof.
  induction status as [|line [|line' status] IH]; intros Hs; [done|cbn in *; lia|]. destruct Hs as [H1 H2]. specialize (IH H2).
  cbn [flat_map]. rewrite total_rows_app. cbn [flat_map] in IH. rewrite IH. cbn [total_rows foldr rows length]. rewrite H1. lia.
Qed.
Lemma total_rows_status status : status_ok status -> total_rows (writeStatus status) = 0.
Proof.
  intros Hs. unfold writeStatus. rewrite total_rows_app, total_rows_lines by done. case_bool_decide; [by subst|]. cbn [total_rows foldr rows]. lia.
Qed.
Lemma total_rows_undo n : total_rows (undoStatus n) = 0.
Proof.
  unfold undoStatus. rewrite total_rows_app. assert (H : total_rows (concat (replicate n [OClear; OText [newline]])) = Z.of_nat n).
  { induction n as [|n IH]; [done|]. cbn [replicate concat]. rewrite total_rows_app, IH. change (total_rows [OClear; OText [newline]]) with 1. lia. }
  rewrite H. cbn [total_rows foldr rows]. lia.
Qed.

Definition shown (ev : bool * run_event) : Z := match ev with (false, EMessage m) => newlines (m_line m) | _ => 0 end.
Definition statuses_ok (evs : list (bool * run_event)) : Prop :=
  Forall (fun ev => match ev.2 with EStatus lines => status_ok lines | _ => True end) evs.

(** The status stays below the messages: whatever messages and statuses arrive,
    in the foreground or not, the cursor has moved down by the lines of the
    messages that were printed, so it is on the first line of the status. *)
Lemma run_cursor evs : forall status, status_ok status -> statuses_ok evs ->
  status_ok (run evs status).1 /\ total_rows (run evs status).2 = foldr (fun ev n => shown ev + n) 0 evs.
Proof.
  induction evs as [|[bg ev] evs IH]; intros status Hs He; [done|]. apply Forall_cons in He as [Hev He]. cbn [run].
  assert (Hstep : status_ok (run_step bg ev status).1 /\ total_rows (run_step bg ev status).2 = shown (bg, ev)).
  { destruct ev as [m|lines|]; cbn [run_step shown snd] in *.
    - destruct bg; [done|]. cbn [fst snd]. split; [done|]. rewrite total_rows_app, total_rows_status by done. destruct (m_err m); cbn [total_rows foldr rows]; lia.
    - destruct bg; [done|]. cbn [fst snd]. split; [done|by apply total_rows_status].
    - destruct bg; cbn [negb fst snd]; (split; [done|]); [done|apply total_rows_undo]. }
  destruct (run_step bg ev status) as [status1 l]. destruct Hstep as [H1 H2]. cbn [fst snd] in *. destruct (IH status1 H1 He) as [H3 H4].
  destruct (run evs status1) as [status2 l']. cbn [fst snd] in *. split; [done|]. rewrite total_rows_app, H2, H4. done.
Qed.

(** *** The status that [SetStatus] makes *)

Lemma drop_byte_suffix c r : exists l, r = l ++ drop_byte c r.
Proof. induction r as [|b r [l IH]]; [by exists []|]. cbn [drop_byte]. destruct (Byte.eqb b c); [exists (b :: l); cbn; by rewrite <- IH|by exists []]. Qed.
Lemma TrimRight_prefix c s : exists l, s = TrimRight c s ++ l.
Proof. destruct (drop_byte_suffix c (rev s)) as [l E]. exists (rev l). unfold TrimRight. rewrite <- rev_app_distr, <- E. by rewrite rev_involutive. Qed.
Lemma TrimRight_snoc s : newline ∉ s -> TrimRight newline (s ++ [newline]) = s.
Proof.
  intros Hn. unfold TrimRight. rewrite rev_app_distr. change (rev [newline] ++ rev s) with (newline :: rev s). cbn [drop_byte].
  change (Byte.eqb newline newline) with true. cbv iota. destruct s as [|b s _] using rev_ind; [done|].
  rewrite rev_app_distr. change (rev [b] ++ rev s) with (b :: rev s). cbn [drop_byte]. destruct (Byte.eqb b newline) eqn:E.
  - apply Byte.byte_dec_bl in E. subst. destruct Hn. apply elem_of_app. right. by apply list_elem_of_singleton.
  - change (rev (b :: rev s)) with (rev (rev s) ++ [b]). by rewrite rev_involutive.
Qed.
Lemma Truncate_subset wide s w b : b ∈ Truncate wide s w -> b ∈ s.
Proof.
  unfold Truncate. destruct (lenZ s <? w); [done|]. rewrite <- (runes_bytes s) at 2. destruct (truncate_loop_spec wide (runes s) w) as (kept & rest & E & -> & _).
  rewrite E. unfold rune_bytes. rewrite map_app, concat_app. intros ?. apply elem_of_app. by left.
Qed.

Lemma status_ok_alter ls : Forall (fun l => newline ∉ l) ls ->
  status_ok (alter (TrimRight newline) (length ls - 1)%nat (map (fun l => l ++ [newline]) ls)).
Proof.
  induction ls as [|l [|l' ls] IH]; intros Hf; [done| |]; apply Forall_cons in Hf as [Hl Hf].
  - change (status_ok [TrimRight newline (l ++ [newline])]). rewrite TrimRight_snoc by done. by apply newlines_none.
  - specialize (IH Hf). cbn [length]. replace (S (S (length ls)) - 1)%nat with (S (length (l' :: ls) - 1)) by (cbn; lia).
    cbn [map alter list_alter]. destruct (alter _ _ _) as [|x xs] eqn:E; [cbn in E; by destruct (length ls)|].
    split; [rewrite newlines_app, newlines_none by done; done|]. exact IH.
Qed.
(** Lines without line breaks (but at their end) make a status that is
    written as it should be. *)
Lemma SetStatus_ok wide size can lines status : Forall (fun line => newline ∉ TrimRight newline line) lines ->
  SetStatus wide size can lines = Some status -> status_ok status.
Proof.
  unfold SetStatus. case_bool_decide; [done|]. intros Hf. cbv zeta. rewrite length_map. intros [= <-].
  set (width := if can then _ else 0). set (f := fun line => let line := TrimRight newline line in if 0 <? width then Truncate wide line (width - 2) else line).
  replace (map _ lines) with (map (fun l => l ++ [newline]) (map f lines)) by by rewrite map_map. rewrite <- (length_map f). apply status_ok_alter.
  apply Forall_map. eapply Forall_impl; [exact Hf|]. intros line Hn. cbn. unfold f. cbv zeta. destruct (0 <? width); [|done]. by intros ?%Truncate_subset.
Qed.
(** A name with a line break in it moves the cursor further down than it is
    moved up. *)
Lemma broken_status : exists status, SetStatus (fun _ => false) (Some 80) true [bytes_of "a" ++ [newline] ++ bytes_of "b"] = Some status
  /\ total_rows (writeStatus status) = 1.
Proof. eexists. split; [vm_compute; reflexivity|]. vm_compute. reflexivity. Qed.

(** ** Line-buffered writers (src/internal/ui/stdio_wrapper.go) *)

Module LineWriter.
(** A writer is its buffer; the strings it prints are returned. *)
Fixpoint split_last (l : list byte) : option (list byte * list byte) :=
  match l with
  | [] => None
  | c :: l =>
      match split_last l with
      | Some (a, b) => Some (c :: a, b)
      | None => if Byte.eqb c newline then Some ([c], l) else None
      end
  end.
Definition Write (buf data : list byte) : list byte * list (list byte) :=
  let buf := buf ++ data in
  match split_last buf with
  | Some (whole, rest) => (rest, [whole])
  | None => (buf, [])
  end.
Definition Close (buf : list byte) : list (list byte) := if bool_decide (buf = []) then [] else [buf ++ [newline]].
Fixpoint writes (buf : list byte) (l : list (list byte)) : list byte * list (list byte) :=
  match l with
  | [] => (buf, [])
  | data :: l =>
      let '(buf, p) := Write buf data in
      let '(buf, ps) := writes buf l in
      (buf, p ++ ps)
  end.

Lemma split_last_spec l : match split_last l with
  | Some (a, b) => l = a ++ b /\ newline ∉ b /\ last a = Some newline
  | None => newline ∉ l
  end.
Proof.
  induction l as [|c l IH]; cbn [split_last]; [apply not_elem_of_nil|]. destruct (split_last l) as [[a b]|].
  - destruct IH as (-> & H1 & H2). split; [done|]. split; [done|]. by destruct a.
  - destruct (Byte.eqb c newline) eqn:E; [apply Byte.byte_dec_bl in E as ->; by split_and!|].
    intros [Ec|?]%elem_of_cons; [|done]. by rewrite <- Ec in E.
Qed.
(** Nothing is lost or reordered: what was printed, followed by the buffer, is
    what was written; whole lines are printed, and the buffer has no line
    break. *)
Lemma writes_spec l : forall buf, newline ∉ buf ->
  let '(buf', ps) := writes buf l in
  concat ps ++ buf' = buf ++ concat l /\ newline ∉ buf' /\ Forall (fun p => last p = Some newline) ps.
Proof.
  induction l as [|data l IH]; intros buf Hb; cbn [writes]; [by rewrite app_nil_r|]. unfold Write.
  pose proof (split_last_spec (buf ++ data)) as HS. destruct (split_last (buf ++ data)) as [[whole rest]|].
  - destruct HS as (E & H1 & H2). specialize (IH rest H1). destruct (writes rest l) as [buf' ps]. destruct IH as (E' & H3 & H4).
    cbn [app concat]. split; [by rewrite <- app_assoc, E', !app_assoc, E|]. split; [done|by constructor].
  - specialize (IH (buf ++ data) HS). destruct (writes (buf ++ data) l) as [buf' ps]. destruct IH as (E' & H3 & H4). cbn [app concat].
    split; [by rewrite E', <- app_assoc|done].
Qed.
End LineWriter.

(** ** Tables (src/internal/ui/table/table.go) *)

Module Table.
(** [strings.Split] at line breaks. *)
Fixpoint lines_of (l : list byte) : list (list byte) :=
  match l with
  | [] => [[]]
  | c :: l =>
      if Byte.eqb c newline then [] :: lines_of l
      else match lines_of l with w :: ws => (c :: w) :: ws | [] => [[c]] end
  end.
Definition space : byte := Byte.x20.
Definition dash : byte := Byte.x2d.
Definition pad (width : Z) (v : list byte) : list byte := v ++ replicate (Z.to_nat (width - lenZ v)) space.

Section table.
(** Templates, the data of rows, and how a template is executed. *)
Context {T D E W : Type} (Execute : T -> D -> list byte + E).
Record Table : Type := mkTable {
  columns : list (list byte); templates : list T; data : list D; footer : list (list byte);
  CellSeparator : list byte;
  PrintHeader : list byte -> W -> W * option E;
  PrintSeparator : list byte -> W -> W * option E;
  PrintData : Z -> list byte -> W -> W * option E;
  PrintFooter : list byte -> W -> W * option E;
}.
Definition AddColumn (header : list byte) (t : T) (tab : Table) : Table :=
  mkTable (columns tab ++ [header]) (templates tab ++ [t]) (data tab) (footer tab) (CellSeparator tab) (PrintHeader tab) (PrintSeparator tab) (PrintData tab) (PrintFooter tab).
Definition AddRow (d : D) (tab : Table) : Table :=
  mkTable (columns tab) (templates tab) (data tab ++ [d]) (footer tab) (CellSeparator tab) (PrintHeader tab) (PrintSeparator tab) (PrintData tab) (PrintFooter tab).
Definition AddFooter (line : list byte) (tab : Table) : Table :=
  mkTable (columns tab) (templates tab) (data tab) (footer tab ++ [line]) (CellSeparator tab) (PrintHeader tab) (PrintSeparator tab) (PrintData tab) (PrintFooter tab).

(** One line of [printLine] before the spaces at its end are cut off: the
    [i]-th line of every field; there is a width for every field. *)
Fixpoint cells (i fieldNum : nat) (sep : list byte) (fields : list (list (list byte))) (widths : list Z) : list byte :=
  match fields, widths with
  | ls :: fields, w :: widths =>
      let v := pad w (default [] (ls !! i)) in
      (match fieldNum with O => v | _ => sep ++ v end) ++ cells i (S fieldNum) sep fields widths
  | _, _ => []
  end.
Fixpoint print_lines (print : list byte -> W -> W * option E) (sep : list byte) (fields : list (list (list byte))) (widths : list Z) (n i : nat) (w : W)
  : W * option E :=
  match n with
  | O => (w, None)
  | S n =>
      match print (TrimRight space (cells i 0 sep fields widths)) w with
      | (w, Some e) => (w, Some e)
      | (w, None) => print_lines print sep fields widths n (S i) w
      end
  end.
Definition max_lines (fields : list (list (list byte))) : nat := foldr (fun ls n => Nat.max (length ls) n) 1%nat fields.
Definition printLine (print : list byte -> W -> W * option E) (sep : list byte) (row : list (list byte)) (widths : list Z) (w : W) : W * option E :=
  let fields := map lines_of row in
  print_lines print sep fields widths (max_lines fields) 0 w.

Fixpoint execute_row (ts : list T) (d : D) : list (list byte) + E :=
  match ts with
  | [] => inl []
  | t :: ts =>
      match Execute t d with
      | inr e => inr e
      | inl cell => match execute_row ts d with inl row => inl (cell :: row) | inr e => inr e end
      end
  end.
Fixpoint execute_rows (ts : list T) (ds : list D) : list (list (list byte)) + E :=
  match ds with
  | [] => inl []
  | d :: ds =>
      match execute_row ts d with
      | inr e => inr e
      | inl row => match execute_rows ts ds with inl rows => inl (row :: rows) | inr e => inr e end
      end
  end.

(** For a header with a line that is longer than the width so far, the width
    becomes the length of the whole header. *)
Definition header_width (desc : list byte) : Z :=
  fold_left (fun w line => if w <? lenZ line then lenZ desc else w) (lines_of desc) 0.
Definition cell_width (w : Z) (content : list byte) : Z :=
  fold_left (fun w line => if w <? lenZ line then lenZ line else w) (lines_of content) w.
Definition row_widths (widths : list Z) (row : list (list byte)) : list Z := zip_with cell_width widths row.
Definition column_widths (tab : Table) (rows : list (list (list byte))) : list Z := fold_left row_widths rows (map header_width (columns tab)).
Definition total_width (sep : list byte) (widths : list Z) : Z := foldr Z.add 0 widths + (lenZ widths - 1) * lenZ sep.

Fixpoint print_rows (tab : Table) (rows : list (list (list byte))) (widths : list Z) (i : Z) (w : W) : W * option E :=
  match rows with
  | [] => (w, None)
  | row :: rows =>
      match printLine (PrintData tab i) (CellSeparator tab) row widths w with
      | (w, Some e) => (w, Some e)
      | (w, None) => print_rows tab rows widths (i + 1) w
      end
  end.
Fixpoint print_footer (tab : Table) (lines : list (list byte)) (w : W) : W * option E :=
  match lines with
  | [] => (w, None)
  | line :: lines =>
      match PrintFooter tab line w with
      | (w, Some e) => (w, Some e)
      | (w, None) => print_footer tab lines w
      end
  end.
Definition Write (tab : Table) (w : W) : W * option E :=
  if bool_decide (length (templates tab) = 0%nat) then (w, None)
  else match execute_rows (templates tab) (data tab) with
  | inr e => (w, Some e)
  | inl rows =>
      let widths := column_widths tab rows in
      let totalWidth := total_width (CellSeparator tab) widths in
      let line := replicate (Z.to_nat totalWidth) dash in
      match (if bool_decide (length (columns tab) = 0%nat) then (w, None)
             else match printLine (PrintHeader tab) (CellSeparator tab) (columns tab) widths w with
                  | (w, Some e) => (w, Some e)
                  | (w, None) => PrintSeparator tab line w
                  end) with
      | (w, Some e) => (w, Some e)
      | (w, None) =>
          match print_rows tab rows widths 0 w with
          | (w, Some e) => (w, Some e)
          | (w, None) =>
              match PrintSeparator tab line w with
              | (w, Some e) => (w, Some e)
              | (w, None) => print_footer tab (footer tab) w
              end
          end
      end
  end.
End table.

(** *** Columns are aligned *)

(** Every line of every field fits its column. *)
Definition fits (fields : list (list (list byte))) (widths : list Z) : Prop := Forall2 (fun ls w => Forall (fun l => lenZ l <= w) ls) fields widths.
Lemma pad_length w v : lenZ v <= w -> lenZ (pad w v) = w.
Proof. intros Hv. unfold pad. rewrite length_app, length_replicate. lia. Qed.
Lemma fits_line ls w i : Forall (fun l => lenZ l <= w) ls -> 0 <= w -> lenZ (default [] (ls !! i) : list byte) <= w.
Proof. intros Hf Hw. destruct (ls !! i) as [l|] eqn:E; [|done]. rewrite Forall_lookup in Hf. by eapply Hf. Qed.

(** The cells of a line, and the line as cells with separators between. *)
Definition padded (i : nat) (fields : list (list (list byte))) (widths : list Z) : list (list byte) :=
  zip_with (fun ls w => pad w (default [] (ls !! i))) fields widths.
Definition joined (sep : list byte) (vs : list (list byte)) : list byte :=
  match vs with [] => [] | v :: vs => v ++ concat (map (app sep) vs) end.
Lemma cells_joined i sep fields widths : cells i 0 sep fields widths = joined sep (padded i fields widths).
Proof.
  assert (Hs : forall fields widths k, cells i (S k) sep fields widths = concat (map (app sep) (padded i fields widths))).
  { clear. induction fields as [|ls fields IH]; intros [|w widths] k; try done. cbn [cells padded zip_with map concat]. f_equal. apply IH. }
  destruct fields as [|ls fields], widths as [|w widths]; try done. cbn [cells padded zip_with joined]. by rewrite Hs.
Qed.
Lemma padded_widths i fields widths : fits fields widths -> Forall (fun w => 0 <= w) widths -> map (fun v => lenZ v) (padded i fields widths) = widths.
Proof.
  induction 1 as [|ls w fields widths Hl Hf IH]; intros Hw; [done|]. apply Forall_cons in Hw as [Hw Hws]. cbn [padded zip_with map]. f_equal; [|by apply IH].
  apply pad_length. by apply fits_line.
Qed.
Lemma joined_width sep vs : vs ≠ [] -> lenZ (joined sep vs) = total_width sep (map (fun v => lenZ v) vs).
Proof.
  unfold total_width. destruct vs as [|v vs]; [done|]. intros _. cbn [joined map foldr length]. rewrite length_app, length_map.
  assert (H : lenZ (concat (map (app sep) vs)) = foldr Z.add 0 (map (fun v => lenZ v) vs) + lenZ vs * lenZ sep).
  { induction vs as [|u vs IH]; [done|]. cbn [map concat foldr length]. rewrite !length_app. lia. }
  lia.
Qed.

Lemma cell_width_spec content : forall w, w <= cell_width w content /\ Forall (fun l => lenZ l <= cell_width w content) (lines_of content).
Proof.
  unfold cell_width. induction (lines_of content) as [|l ls IH]; intros w; [by split|]. cbn [fold_left]. destruct (IH (if w <? lenZ l then lenZ l else w)) as [H1 H2].
  destruct (Z.ltb_spec w (lenZ l)); (split; [lia|]); constructor; try done; lia.
Qed.
Lemma lines_of_length l : Forall (fun line => lenZ line <= lenZ l) (lines_of l).
Proof.
  induction l as [|c l IH]; cbn [lines_of]; [by repeat constructor|]. destruct (Byte.eqb c newline).
  - constructor; [cbn; lia|]. eapply Forall_impl; [exact IH|]. intros x Hx. cbn [length] in *. lia.
  - destruct (lines_of l) as [|w ws]; [by repeat constructor; cbn; lia|]. apply Forall_cons in IH as [H1 H2]. constructor; [cbn [length]; lia|].
    eapply Forall_impl; [exact H2|]. intros x Hx. cbn [length] in *. lia.
Qed.
Lemma header_width_spec desc : 0 <= header_width desc /\ Forall (fun l => lenZ l <= header_width desc) (lines_of desc).
Proof.
  pose proof (lines_of_length desc) as HL. unfold header_width.
  assert (H : forall (ls : list (list byte)) (w : Z), Forall (fun line : list byte => lenZ line <= lenZ desc) ls -> w <= lenZ desc ->
    w <= fold_left (fun w line => if w <? lenZ line then lenZ desc else w) ls w
    /\ fold_left (fun w line => if w <? lenZ line then lenZ desc else w) ls w <= lenZ desc
    /\ Forall (fun l => lenZ l <= fold_left (fun w line => if w <? lenZ line then lenZ desc else w) ls w) ls).
  { induction ls as [|l ls IH]; intros w Hf Hw; [by split_and!|]. apply Forall_cons in Hf as [Hl Hf]. cbn [fold_left].
    destruct (Z.ltb_spec w (lenZ l)).
    - destruct (IH (lenZ desc) Hf (Z.le_refl _)) as (H1 & H2 & H3). split; [lia|]. split; [done|]. constructor; [lia|done].
    - destruct (IH w Hf Hw) as (H1 & H2 & H3). split; [lia|]. split; [done|]. constructor; [lia|done]. }
  destruct (H (lines_of desc) 0 HL ltac:(lia)) as (H1 & _ & H3). by split.
Qed.

Lemma row_widths_spec row : forall widths, length row = length widths ->
  Forall2 Z.le widths (row_widths widths row) /\ fits (map lines_of row) (row_widths widths row).
Proof.
  unfold row_widths, fits. induction row as [|c row IH]; intros [|w widths] Hl; try done. cbn [zip_with map]. injection Hl as Hl.
  destruct (IH widths Hl) as [H1 H2]. destruct (cell_width_spec c w). by split; constructor.
Qed.
Lemma fits_mono fields widths widths' : fits fields widths -> Forall2 Z.le widths widths' -> fits fields widths'.
Proof.
  intros Hf. revert widths'. induction Hf as [|ls w fields widths Hl Hf IH]; intros widths' Hw; inversion Hw; subst; constructor; [|by apply IH].
  eapply Forall_impl; [exact Hl|]. cbn. lia.
Qed.
Lemma rows_widths_spec rows : forall widths, Forall (fun row => length row = length widths) rows ->
  Forall2 Z.le widths (fold_left row_widths rows widths) /\ Forall (fun row => fits (map lines_of row) (fold_left row_widths rows widths)) rows.
Proof.
  induction rows as [|row rows IH]; intros widths Hr; cbn [fold_left]; [by split|]. apply Forall_cons in Hr as [Hr Hrs].
  destruct (row_widths_spec row widths Hr) as [H1 H2]. assert (Hlen : length (row_widths widths row) = length widths) by (symmetry; by eapply Forall2_length).
  destruct (IH (row_widths widths row)) as [H3 H4]; [by rewrite Hlen|]. split; [by transitivity (row_widths widths row)|].
  constructor; [by eapply fits_mono|done].
Qed.

Section write.
Context {T D E : Type} (Execute : T -> D -> list byte + E).
(** A table as [New] makes it, which prints all lines in the same way. *)
Definition add_line (s : list byte) (w : list (list byte)) : list (list byte) * option E := (w ++ [s], None).
Definition New : @Table T D E (list (list byte)) := mkTable [] [] [] [] [space; space] add_line add_line (fun _ => add_line) add_line.
Definition prints_lines (tab : @Table T D E (list (list byte))) : Prop :=
  PrintHeader tab = add_line /\ PrintSeparator tab = add_line /\ PrintData tab = (fun _ => add_line) /\ PrintFooter tab = add_line.
(** The lines of a row of the table. *)
Definition block (sep : list byte) (widths : list Z) (row : list (list byte)) : list (list byte) :=
  map (fun i => TrimRight space (joined sep (padded i (map lines_of row) widths))) (seq 0 (max_lines (map lines_of row))).
Lemma printLine_block sep row widths w : printLine add_line sep row widths w = (w ++ block sep widths row, None).
Proof.
  unfold printLine, block. generalize (max_lines (map lines_of row)) as n. intros n. generalize 0%nat as i. revert w.
  induction n as [|n IH]; intros w i; cbn [print_lines seq map]; [by rewrite app_nil_r|]. unfold add_line at 1. rewrite IH, <- app_assoc. by rewrite cells_joined.
Qed.
Lemma execute_rows_length ts ds : forall rows, execute_rows Execute ts ds = inl rows -> Forall (fun row => length row = length ts) rows.
Proof.
  assert (H1 : forall d row, execute_row Execute ts d = inl row -> length row = length ts).
  { intros d. induction ts as [|t ts IH]; intros row; cbn; [by intros [= <-]|]. destruct (Execute t d); [|done].
    destruct (execute_row Execute ts d) as [r|]; [|done]. intros [= <-]. cbn. f_equal. by apply IH. }
  induction ds as [|d ds IH]; intros rows; cbn; [by intros [= <-]|]. destruct (execute_row Execute ts d) as [row|] eqn:E1; [|done].
  destruct (execute_rows Execute ts ds) as [rs|]; [|done]. intros [= <-]. constructor; [by eapply H1|by apply IH].
Qed.

(** The table that is written: header, separator, rows, separator, footer; every
    line of every cell is padded to the width of its column, so the columns
    are aligned and all lines are as wide as the separators, up to the spaces
    at their end. *)
Lemma Write_aligned tab rows w : prints_lines tab -> columns tab ≠ [] -> length (columns tab) = length (templates tab) ->
  execute_rows Execute (templates tab) (data tab) = inl rows ->
  let widths := column_widths tab rows in
  let sep := CellSeparator tab in
  let line := replicate (Z.to_nat (total_width sep widths)) dash in
  Write Execute tab w = (w ++ block sep widths (columns tab) ++ [line] ++ flat_map (block sep widths) rows ++ [line] ++ footer tab, None)
  /\ forall row, row ∈ columns tab :: rows -> forall i, map (fun v => lenZ v) (padded i (map lines_of row) widths) = widths
       /\ lenZ (joined sep (padded i (map lines_of row) widths)) = total_width sep widths.
Proof.
  intros (P1 & P2 & P3 & P4) Hne Hlen HE. cbv zeta. set (widths := column_widths tab rows).
  assert (Hw0 : Forall (fun w => 0 <= w) (map header_width (columns tab))).
  { apply Forall_map, Forall_forall. intros c _. apply header_width_spec. }
  assert (Hf0 : fits (map lines_of (columns tab)) (map header_width (columns tab))).
  { unfold fits. apply Forall2_fmap_l, Forall2_fmap_r. apply Forall_Forall2_diag, Forall_forall. intros c _. apply header_width_spec. }
  destruct (rows_widths_spec rows (map header_width (columns tab))) as [H1 H2].
  { rewrite length_map, Hlen. by eapply execute_rows_length. }
  fold (column_widths tab rows) in H1, H2. fold widths in H1, H2. split.
  - unfold Write. rewrite bool_decide_eq_false_2 by (rewrite <- Hlen; by destruct (columns tab)). rewrite HE. cbv zeta. fold widths.
    rewrite bool_decide_eq_false_2 by by destruct (columns tab). rewrite P1, P2, printLine_block. unfold add_line at 1.
    assert (Hrows : forall rs i w', print_rows tab rs widths i w' = (w' ++ flat_map (block (CellSeparator tab) widths) rs, None)).
    { induction rs as [|r rs IH]; intros i w'; cbn [print_rows flat_map]; [by rewrite app_nil_r|]. rewrite P3, printLine_block, IH. by rewrite <- app_assoc. }
    rewrite Hrows. unfold add_line at 1. assert (Hfoot : forall fs w', print_footer tab fs w' = (w' ++ fs, None)).
    { induction fs as [|f fs IH]; intros w'; cbn [print_footer]; [by rewrite app_nil_r|]. rewrite P4. unfold add_line. rewrite IH. by rewrite <- app_assoc. }
    rewrite Hfoot. by rewrite <- !app_assoc.
  - assert (Hpos : Forall (fun w => 0 <= w) widths).
    { revert Hw0. clear -H1. induction H1 as [|x y l l' Hxy Hl IH]; intros Hf; [done|]. apply Forall_cons in Hf as [Hx Hf]. constructor; [lia|by apply IH]. }
    assert (Hwn : widths ≠ []) by (intros Ew; rewrite Ew in H1; apply Forall2_nil_inv_r, map_eq_nil in H1; done).
    intros row Hrow i. assert (Hf : fits (map lines_of row) widths).
    { apply elem_of_cons in Hrow as [->|Hin]; [by eapply fits_mono|]. rewrite Forall_forall in H2. by apply H2. }
    pose proof (padded_widths i _ _ Hf Hpos) as HP. split; [exact HP|]. rewrite joined_width, HP; [done|]. intros Ew. rewrite Ew in HP. by destruct widths.
Qed.
End write.

(** A header of several lines makes its column as wide as the whole header. *)
Lemma header_too_wide : header_width (bytes_of "ab" ++ [newline] ++ bytes_of "cd") = 5
  /\ Forall (fun l => lenZ l = 2) (lines_of (bytes_of "ab" ++ [newline] ++ bytes_of "cd")).
Proof. split; [reflexivity|]. by repeat constructor. Qed.
End Table.
