(* ===== verification/Keys.v ===== *)
(** * Keys: the keys of a repository, and its configuration

    src/repository/key.go and key_rapi.go, src/crypto/kdf.go,
    src/restic/config.go and the methods of src/repository/repository.go that
    open and create a repository.  A key file has the master key, encrypted
    with a key that is derived from a password.

    scrypt, JSON, random numbers and polynomials are parameters.  A list of
    the key files is made before the keys are tried. *)

From S2P Require Import Prelude Crypto Ids Pack IndexMap Index MasterIndex Backend Duration Repository.

(** ** Key derivation (src/crypto/kdf.go) *)

Definition saltLength : Z := 64.
Record Params : Type := mkParams { p_N : Z; p_R : Z; p_P : Z }.

(** The scrypt libraries: the check of the parameters (with the length of the
    salt) and the derivation of a number of bytes. *)
Class Scrypt : Type := {
  scrypt_Check : Params -> Z -> option string;
  scrypt_Key : list byte -> list byte -> Params -> Z -> list byte + string;
}.

Definition zero_MACKey : MACKey := mkMACKey (replicate 16 Byte.x00) (replicate 16 Byte.x00) false.
Definition zero_Key : Crypto.Key := Crypto.mkKey zero_MACKey (replicate 32 Byte.x00).

Definition KDF `{Scrypt} (p : Params) (salt password : list byte) : res repo_error Crypto.Key :=
  if bool_decide (lenZ salt ≠ saltLength) then Err (RMsg "scrypt() called with invalid salt bytes")
  else match scrypt_Check p (lenZ salt) with
  | Some e => Err (RMsg e)
  | None =>
      let keybytes := macKeySize + aesKeySize in
      match scrypt_Key password salt p keybytes with
      | inr e => Err (RMsg e)
      | inl scryptKeys =>
          if bool_decide (lenZ scryptKeys ≠ keybytes) then Err (RMsg "invalid numbers of bytes expanded from scrypt()")
          else
            enc ← gslice scryptKeys 0 aesKeySize;
            mac ← gslice scryptKeys aesKeySize (lenZ scryptKeys);
            mk ← macKeyFromSlice zero_MACKey mac;
            Ok (Crypto.mkKey mk (copy_into (replicate 32 Byte.x00) enc))
      end
  end.

(** ** Keys *)

(** The part of a key that is written to its file. *)
Record KeyFileData : Type := mkKeyFile {
  kf_Created : Time;
  kf_Username : string;
  kf_Hostname : string;
  kf_KDF : string;
  kf_Params : Params;
  kf_Salt : list byte;
  kf_Data : list byte;
}.
Record RKey : Type := mkRKey { k_file : KeyFileData; k_user : Crypto.Key; k_master : Crypto.Key; k_name : string }.
Definition RKey_Valid (k : RKey) : bool := Key_Valid (k_user k) && Key_Valid (k_master k).

(** JSON: of a key file, and of the master key as its three byte strings. *)
Record jsonKey : Type := mkJsonKey { jk_K : list byte; jk_R : list byte; jk_encrypt : list byte }.
Class KeyCodec : Type := {
  file_encode : KeyFileData -> list byte;
  file_decode : list byte -> option KeyFileData;
  master_encode : jsonKey -> list byte;
  master_decode : list byte -> option jsonKey;
}.
Class KeyCodecLaws `{KeyCodec} : Prop := {
  file_roundtrip k : file_decode (file_encode k) = Some k;
  master_roundtrip k : master_decode (master_encode k) = Some k;
}.
(** [MarshalJSON] and [UnmarshalJSON] of src/crypto/crypto.go. *)
Definition Key_MarshalJSON (k : Crypto.Key) : jsonKey := mkJsonKey (mk_K (key_mac k)) (mk_R (key_mac k)) (key_enc k).
Definition Key_UnmarshalJSON (k : Crypto.Key) (j : jsonKey) : Crypto.Key :=
  Crypto.mkKey (mkMACKey (copy_into (mk_K (key_mac k)) (jk_K j)) (copy_into (mk_R (key_mac k)) (jk_R j)) (mk_masked (key_mac k)))
    (copy_into (key_enc k) (jk_encrypt j)).

Section keys.
Context {S : Type} (be : Backend S) `{CP : CryptoPrims} `{Scrypt} `{KeyCodec} (Hash : list byte -> ID).

(** [LoadKey] *)
Definition LoadKey (name : string) (s : S) : S * res repo_error KeyFileData :=
  let h := mkBeHandle KeyFile InvalidBlob name in
  match LoadAll be false [] h s with
  | (s, inr e) => (s, Err (RBackend e))
  | (s, inl data) => (s, match file_decode data with Some k => Ok k | None => Err (RMsg "Unmarshal") end)
  end.

(** What [OpenKey] and [Open] (key_rapi.go) do with a key file. *)
Definition open_key (k : KeyFileData) (name : string) (password : list byte) : res repo_error RKey :=
  if bool_decide (kf_KDF k ≠ "scrypt"%string) then Err (RMsg "only supported KDF is scrypt()")
  else
    user ← KDF (kf_Params k) (kf_Salt k) password;
    buf ← decrypt user (kf_Data k);
    match master_decode buf with
    | None => Err (RMsg "Unmarshal")
    | Some j =>
        let key := mkRKey k user (Key_UnmarshalJSON zero_Key j) name in
        if negb (RKey_Valid key) then Err (RMsg "Invalid key for repository") else Ok key
    end.
Definition OpenKey (name : string) (password : list byte) (s : S) : S * res repo_error RKey :=
  match LoadKey name s with
  | (s, Ok k) => (s, open_key k name password)
  | (s, Err e) => (s, Err e)
  | (s, Panic m) => (s, Panic m)
  end.

(** [loadKey] and [Open] on the contents of a reader. *)
Definition loadKey (data : list byte + error) : res repo_error KeyFileData :=
  match data with
  | inr e => Err (RBackend e)
  | inl data => match file_decode data with Some k => Ok k | None => Err (RMsg "Unmarshal") end
  end.
Definition Open (data : list byte + error) (password : list byte) : res repo_error RKey :=
  k ← loadKey data; open_key k "" password.

(** *** SearchKey *)

(** The callback on the listed names: the first key that opens is taken. *)
Fixpoint try_keys (names : list string) (password : list byte) (s : S) : S * res repo_error (option RKey) :=
  match names with
  | [] => (s, Ok None)
  | name :: names =>
      match ParseID name with
      | Ok _ =>
          match OpenKey name password s with
          | (s, Ok key) => (s, Ok (Some key))
          | (s, Err (RCrypto ErrUnauthenticated)) => try_keys names password s
          | (s, Err e) => (s, Err e)
          | (s, Panic m) => (s, Panic m)
          end
      | _ => try_keys names password s
      end
  end.
(** The callback of the listing: its test of [maxKeys] compares with a counter
    that stays zero.  The keys are tried after the listing here: when one
    opens, the callback cancels the listing, whose error is then dropped. *)
Definition key_callback (maxKeys checked : Z) : callback FileInfo (list string) := fun fi names =>
  if (0 <? maxKeys) && (maxKeys <? checked) then (names, Some (EMsg "maximum number of keys reached"))
  else (names ++ [fi_Name fi], None).
Definition SearchKey (password : list byte) (maxKeys : Z) (keyHint : string) (s : S) : S * res repo_error RKey :=
  let checked := 0 in
  let '(s, hinted) :=
    if bool_decide (keyHint = ""%string) then (s, None)
    else match Find be false KeyFile keyHint s with
    | (s, inl id) => match OpenKey id password s with (s, Ok key) => (s, Some (Ok key)) | (s, Panic m) => (s, Some (Panic m)) | (s, Err _) => (s, None) end
    | (s, inr _) => (s, None)
    end in
  match hinted with
  | Some r => (s, r)
  | None =>
      let '(s, names, err) := be_List be false KeyFile (key_callback maxKeys checked) [] s in
      match try_keys names password s with
      | (s, Ok (Some key)) => (s, Ok key)
      | (s, Ok None) => (s, match err with Some e => Err (RBackend e) | None => Err (RMsg "wrong password or no key found") end)
      | (s, Err e) => (s, Err e)
      | (s, Panic m) => (s, Panic m)
      end
  end.

(** *** AddKey *)

(** What the key is made of: the parameters (calibrated if they are not set),
    the time, the names of user and host, random bytes. *)
Record KeyEnv : Type := mkKeyEnv {
  ke_Params : res repo_error Params;
  ke_now : Time;
  ke_hostname : string;
  ke_username : string;
  ke_salt : list byte;
  ke_nonce : list byte;
  ke_encryption : list byte;
  ke_K : list byte;
  ke_R : list byte;
}.
(** [NewRandomKey] reads three random byte arrays and masks the MAC key. *)
Definition NewRandomKey (env : KeyEnv) : Crypto.Key :=
  Crypto.mkKey (maskKey (mkMACKey (ke_K env) (ke_R env) false)) (ke_encryption env).

Definition AddKey (env : KeyEnv) (password : list byte) (username hostname : string) (template : option Crypto.Key) (s : S)
  : S * res repo_error RKey :=
  let prepared :=
    params ← ke_Params env;
    let hostname := if bool_decide (hostname = ""%string) then ke_hostname env else hostname in
    let username := if bool_decide (username = ""%string) then ke_username env else username in
    user ← KDF params (ke_salt env) password;
    let master := default (NewRandomKey env) template in
    let buf := master_encode (Key_MarshalJSON master) in
    ciphertext ← encrypt user (lenZ buf + Overhead user + NonceSize user) (ke_nonce env) buf;
    Ok (mkKeyFile (ke_now env) username hostname "scrypt" params (ke_salt env) ciphertext, user, master) in
  match prepared with
  | Err e => (s, Err e)
  | Panic m => (s, Panic m)
  | Ok (newkey, user, master) =>
      let buf := file_encode newkey in
      let name := ID_String (Hash buf) in
      let '(s, _, err) := be_Save be false (mkBeHandle KeyFile InvalidBlob name) (NewByteReader (be_Hasher be) buf) s in
      match err with
      | Some e => (s, Err (RBackend e))
      | None => (s, Ok (mkRKey newkey user master name))
      end
  end.
Definition createMasterKey (env : KeyEnv) (password : list byte) : S -> S * res repo_error RKey := AddKey env password "" "" None.

(** ** The configuration (src/restic/config.go) *)

Record Config : Type := mkConfig { cfg_Version : Z; cfg_ID : string; cfg_ChunkerPolynomial : Z }.
Definition RepoVersion : Z := 1.

(** JSON, and the test of polynomials of the chunker library. *)
Class ConfigCodec : Type := {
  config_encode : Config -> list byte;
  config_decode : list byte -> option Config;
  Irreducible : Z -> bool;
}.
Class ConfigCodecLaws `{ConfigCodec} : Prop := { config_roundtrip c : config_decode (config_encode c) = Some c }.

Context `{ConfigCodec} (nonce : nat -> list byte).
#[local] Open Scope repo_scope.

(** What is drawn at random: a polynomial, or the error of doing so, and an
    identifier. *)
Definition CreateConfig (pol : Z + string) (id : ID) : res repo_error Config :=
  match pol with
  | inr e => Err (RMsg e)
  | inl p => Ok (mkConfig RepoVersion (ID_String id) p)
  end.

Definition LoadConfig (key : Crypto.Key) : M S Config :=
  buf <- LoadAndDecrypt be Hash key ConfigFile nullID;;
  match config_decode buf with
  | None => throw (RMsg "Unmarshal")
  | Some cfg =>
      if bool_decide (cfg_Version cfg ≠ RepoVersion) then throw (RMsg "unsupported repository version")
      else if negb (Irreducible (cfg_ChunkerPolynomial cfg)) then throw (RMsg "invalid chunker polynomial")
      else ret cfg
  end.

(** ** Opening and creating a repository (src/repository/repository.go) *)

(** The fields that are set: the key (of the repository and of its packer
    managers), its name, the configuration. *)
Record Opened : Type := mkOpened { o_key : Crypto.Key; o_keyName : string; o_cfg : Config }.

Definition on_be {A} (f : S -> S * res repo_error A) : M S A := fun r =>
  let '(s, x) := f (r_be r) in
  (mkRepo s (r_idx r) (r_treePM r) (r_dataPM r) (r_noAutoIndexUpdate r) (r_tick r) (r_rnd r), x).

Definition Repository_SearchKey (password : list byte) (maxKeys : Z) (keyHint : string) : M S Opened :=
  key <- on_be (SearchKey password maxKeys keyHint);;
  fun r => match LoadConfig (k_master key) r with
  | (r, Ok cfg) => (r, Ok (mkOpened (k_master key) (k_name key) cfg))
  | (r, Err _) => (r, Err (RMsg "config cannot be loaded"))
  | (r, Panic m) => (r, Panic m)
  end.

Definition init_ (env : KeyEnv) (password : list byte) (cfg : Config) : M S Opened :=
  key <- on_be (createMasterKey env password);;
  SaveUnpacked be Hash nonce (k_master key) ConfigFile (config_encode cfg);;;
  ret (mkOpened (k_master key) (k_name key) cfg).

Definition Init (env : KeyEnv) (pol : Z + string) (id : ID) (password : list byte) (chunkerPolynomial : option Z) : M S Opened :=
  has <- on_be (fun s => let '(s, (has, err)) := be_Test be false (mkBeHandle ConfigFile InvalidBlob "") s in
                         (s, match err with Some e => Err (RBackend e) | None => Ok has end));;
  if has then throw (RMsg "repository master key and config already initialized")
  else
    cfg <- lift (CreateConfig pol id);;
    init_ env password (match chunkerPolynomial with
                        | Some p => mkConfig (cfg_Version cfg) (cfg_ID cfg) p
                        | None => cfg
                        end).
End keys.

(** ** Facts *)

(** A key read back from its JSON is not marked as masked. *)
Definition reread (k : Crypto.Key) : Crypto.Key :=
  Crypto.mkKey (mkMACKey (mk_K (key_mac k)) (mk_R (key_mac k)) false) (key_enc k).

Lemma unmarshal_marshal k : wf_Key k -> Key_UnmarshalJSON zero_Key (Key_MarshalJSON k) = reread k.
Proof.
  intros [[HK HR] HE]. unfold Key_UnmarshalJSON, Key_MarshalJSON, reread, zero_Key, zero_MACKey.
  cbn [jk_K jk_R jk_encrypt key_mac key_enc mk_K mk_R mk_masked].
  by rewrite !copy_into_full by (rewrite length_replicate; lia).
Qed.

Lemma byte_and_idem b m : byte_and (byte_and b m) m = byte_and b m.
Proof. apply byte_Z_inj. by rewrite !byte_and_Z, <- Z.land_assoc, Z.land_diag. Qed.
Lemma mask_idem (l m : list byte) : zip_with byte_and (zip_with byte_and l m) m = zip_with byte_and l m.
Proof. revert m. induction l as [|b l IH]; intros [|c m]; [done..|]. cbn [zip_with]. by rewrite byte_and_idem, IH. Qed.

(** A key that is marked as masked has masked bytes. *)
Definition mask_done (k : Crypto.Key) : Prop :=
  mk_masked (key_mac k) = true -> zip_with byte_and (mk_R (key_mac k)) poly1305KeyMask = mk_R (key_mac k).

Lemma NewRandomKey_mask env : mask_done (NewRandomKey env).
Proof. intros _. unfold NewRandomKey, maskKey. cbn [key_mac mk_masked mk_R]. apply mask_idem. Qed.
Lemma mask_reread k : mask_done k -> maskKey (key_mac (reread k)) = maskKey (key_mac k).
Proof.
  destruct k as [[K R m] e]. unfold mask_done, maskKey, reread. cbn [key_mac mk_masked mk_K mk_R].
  destruct m; [|done]. intros Hd. by rewrite Hd.
Qed.

Section sealing.
Context `{CL : CryptoLaws}.

Lemma sealed_reread k n pt : mask_done k -> sealed (reread k) n pt = sealed k n pt.
Proof.
  intros Hd. unfold sealed, tag_of, poly1305MAC, poly1305PrepareKey. by rewrite mask_reread.
Qed.

(** What [Seal] accepts. *)
Lemma encrypt_inv key cap n pt c : encrypt key cap n pt = Ok c ->
  Key_Valid key = true /\ lenZ n = 16 /\ validNonce n = true /\ c = sealed key n pt.
Proof.
  intros HE. destruct (Key_Valid key) eqn:Ek; [|unfold encrypt, Seal in HE; by rewrite Ek in HE].
  destruct (decide (lenZ n = 16)) as [Hn|Hn].
  - destruct (validNonce n) eqn:Ev; [|unfold encrypt, Seal in HE; rewrite Ek, Ev in HE].
    + rewrite encrypt_value in HE by done. by injection HE as <-.
    + rewrite (bool_decide_eq_false_2 (lenZ n ≠ ivSize)) in HE by (unfold ivSize; lia). done.
  - unfold encrypt, Seal in HE. rewrite Ek in HE. rewrite (bool_decide_eq_true_2 (lenZ n ≠ ivSize)) in HE by done. done.
Qed.

(** A sealed text under a key that computes another tag. *)
Definition other_tag (k k' : Crypto.Key) (data : list byte) : Prop :=
  let n := take 16 data in
  let ct := take (length data - 32) (drop 16 data) in
  tag_of k' n ct ≠ tag_of k n ct.

Lemma sealed_parts k n pt : lenZ n = 16 ->
  take 16 (sealed k n pt) = n /\ take (length (sealed k n pt) - 32) (drop 16 (sealed k n pt)) = aes_ctr (key_enc k) n pt.
Proof.
  intros Hn. pose proof (sealed_length k n pt Hn) as Hl. unfold sealed in *. split.
  - apply take_app_length'. lia.
  - rewrite drop_app_length' by lia. apply take_app_length'. rewrite ctr_length. lia.
Qed.

Lemma decrypt_other k k' n pt : Key_Valid k' = true -> lenZ n = 16 -> validNonce n = true ->
  other_tag k k' (sealed k n pt) -> decrypt k' (sealed k n pt) = Err (RCrypto ErrUnauthenticated).
Proof.
  intros Hk Hn Hv Ho. unfold other_tag in Ho. destruct (sealed_parts k n pt Hn) as [H1 H2]. rewrite H1, H2 in Ho.
  unfold decrypt, sealed. rewrite gslice_prefix by (unfold NonceSize, ivSize; lia).
  rewrite gslice_suffix by (unfold NonceSize, ivSize; lia).
  rewrite Open_value by (done || apply tag_of_length). by rewrite bool_decide_eq_false_2.
Qed.
End sealing.

(** *** Adding and opening keys *)

Section opening.
Context {S : Type} (be : Backend S) (norm : Handle -> Handle) (contents : S -> Handle -> option (list byte))
  (files : S -> string -> list FileInfo).
Context `{!StoreLaws be norm contents, !FileLaws be norm contents, !ListLaws be files, !DirLaws be norm contents files}.
Context `{CL : CryptoLaws} `{Scrypt} `{KL : KeyCodecLaws} (Hash : list byte -> ID) (hash_wf : forall l, wf_ID (Hash l)).

Definition key_handle (name : string) : Handle := mkBeHandle KeyFile InvalidBlob name.

(** What a name opens to in a state of the backend. *)
Definition opens (s : S) (name : string) (password : list byte) : res repo_error RKey :=
  match contents s (norm (key_handle name)) with
  | None => Err (RMsg "no such file")
  | Some data => match file_decode data with Some k => open_key k name password | None => Err (RMsg "Unmarshal") end
  end.

Lemma OpenKey_stored s name password : name ≠ ""%string -> is_Some (contents s (norm (key_handle name))) ->
  OpenKey be name password s = (s, opens s name password).
Proof using FileLaws0.
  intros Hne [data Hd]. unfold OpenKey, LoadKey, LoadAll, opens. rewrite Hd. fold (key_handle name).
  erewrite load_file; [|unfold Handle_Valid; cbn [key_handle h_Type h_Name]; by rewrite (bool_decide_eq_false_2 (name = ""%string))
    |exact Hd|lia].
  cbn [fst snd rd_err rd_bytes]. unfold file_range. cbn [Z.ltb Z.compare Z.to_nat]. rewrite drop_0.
  by destruct (file_decode data).
Qed.

(** A password with which the file is rejected as not authentic. *)
Definition wrong_password (kf : KeyFileData) (password : list byte) (user : Crypto.Key) : Prop :=
  exists user', KDF (kf_Params kf) (kf_Salt kf) password = Ok user' /\ Key_Valid user' = true /\ other_tag user user' (kf_Data kf).

Lemma AddKey_spec env password username hostname template s s' k :
  AddKey be Hash env password username hostname template s = (s', Ok k) ->
  let master := default (NewRandomKey env) template in
  let name := ID_String (Hash (file_encode (k_file k))) in
  wf_Key master -> Key_Valid master = true ->
  k_name k = name /\ k_master k = master
  /\ contents s' (norm (key_handle name)) = Some (file_encode (k_file k))
  /\ (forall x, x ∈ map fi_Name (files s' KeyFile) <-> x ∈ map fi_Name (files s KeyFile) \/ x = name)
  /\ opens s' name password = Ok (mkRKey (k_file k) (k_user k) (reread master) name)
  /\ forall p, wrong_password (k_file k) p (k_user k) -> opens s' name p = Err (RCrypto ErrUnauthenticated).
Proof using StoreLaws0 DirLaws0 CL KL.
  unfold AddKey. destruct (ke_Params env) as [params|e|m]; [|done..]. cbn [mbind res_bind].
  destruct (KDF params (ke_salt env) password) as [user|e|m] eqn:EK; [|done..]. cbn [mbind res_bind].
  set (master := default (NewRandomKey env) template).
  destruct (encrypt _ _ _ _) as [c|e|m] eqn:EE; [|done..]. cbn [mbind res_bind].
  apply encrypt_inv in EE as (Hku & Hn & Hv & ->).
  set (kf := mkKeyFile _ _ _ _ _ _ _).
  destruct (be_Save be false _ _ s) as [[s1 rd] [e|]] eqn:ES; [done|]. intros [= <- <-]. cbn [k_file k_user k_master k_name].
  intros Hwf Hval. split; [done|]. split; [done|].
  pose proof (store_contents _ _ _ _ _ _ ES) as HC. cbn [NewByteReader rr_pos rr_data] in HC. rewrite drop_0 in HC.
  split; [exact HC|]. split.
  { intros x. rewrite (save_names _ _ _ _ _ _ _ _ ES) by done. cbn [h_Type h_Name]. split; intros [Hx|Hx]; auto. right. by destruct Hx. }
  unfold opens, key_handle. rewrite HC, file_roundtrip. unfold open_key, kf. cbn [kf_KDF kf_Params kf_Salt kf_Data].
  rewrite (bool_decide_eq_false_2 ("scrypt"%string ≠ "scrypt"%string)) by (intros Hx; by apply Hx). split.
  - rewrite EK. cbn [mbind res_bind]. rewrite decrypt_sealed by done. cbn [mbind res_bind].
    rewrite master_roundtrip, unmarshal_marshal by done. unfold RKey_Valid. cbn [k_user k_master].
    change (Key_Valid (reread master)) with (Key_Valid master). by rewrite Hku, Hval.
  - intros p (user' & EK' & Hk' & Ho). cbn [kf_Params kf_Salt] in EK'. rewrite EK'. cbn [mbind res_bind]. by rewrite (decrypt_other user).
Qed.

(** *** SearchKey *)

(** Every listed key file is stored, and opens or is not authentic. *)
Definition settled (s : S) (password : list byte) : Prop :=
  forall name, name ∈ map fi_Name (files s KeyFile) -> (exists id, ParseID name = Ok id) ->
    is_Some (contents s (norm (key_handle name)))
    /\ (opens s name password = Err (RCrypto ErrUnauthenticated) \/ exists k, opens s name password = Ok k).

Lemma ParseID_nonempty name id : ParseID name = Ok id -> name ≠ ""%string.
Proof. by intros Hp ->. Qed.

Lemma try_keys_settled names password s :
  (forall name, name ∈ names -> (exists id, ParseID name = Ok id) ->
    is_Some (contents s (norm (key_handle name)))
    /\ (opens s name password = Err (RCrypto ErrUnauthenticated) \/ exists k, opens s name password = Ok k)) ->
  exists r, try_keys be names password s = (s, Ok r)
  /\ match r with
     | Some k => exists name, name ∈ names /\ (exists id, ParseID name = Ok id) /\ opens s name password = Ok k
     | None => forall name, name ∈ names -> (exists id, ParseID name = Ok id) -> opens s name password = Err (RCrypto ErrUnauthenticated)
     end.
Proof using FileLaws0.
  induction names as [|name names IH]; intros Hall; cbn [try_keys].
  { exists None. split; [done|]. by intros name Hin%elem_of_nil. }
  destruct IH as (r & Htk & Hr). { intros n Hn. apply Hall. by apply elem_of_cons; right. }
  assert (Hskip : (forall id, ParseID name = Ok id -> opens s name password = Err (RCrypto ErrUnauthenticated)) ->
    match r with
    | Some k => exists name', name' ∈ name :: names /\ (exists id, ParseID name' = Ok id) /\ opens s name' password = Ok k
    | None => forall name', name' ∈ name :: names -> (exists id, ParseID name' = Ok id) -> opens s name' password = Err (RCrypto ErrUnauthenticated)
    end).
  { intros Hs. destruct r as [k|].
    - destruct Hr as (n & Hn & Hk). exists n. rewrite elem_of_cons. auto.
    - intros n [->|Hn]%elem_of_cons; [by intros [id Hid]; apply (Hs id)|by apply Hr]. }
  destruct (ParseID name) as [id|e|m] eqn:EP; [|by exists r; split; [|apply Hskip]..].
  destruct (Hall name ltac:(apply elem_of_cons; by left) (ex_intro _ id EP)) as [Hst Hop].
  rewrite (OpenKey_stored s name password (ParseID_nonempty _ _ EP) Hst).
  destruct Hop as [Hu|[k Hk]].
  - rewrite Hu. exists r. split; [done|]. apply Hskip. by intros _ _.
  - rewrite Hk. exists (Some k). split; [done|]. exists name. rewrite elem_of_cons. eauto.
Qed.

Lemma key_callback_all maxKeys fis names :
  call_all (key_callback maxKeys 0) fis names = (names ++ map fi_Name fis, None).
Proof.
  revert names. induction fis as [|fi fis IH]; intros names; cbn [call_all map]; [by rewrite app_nil_r|].
  unfold key_callback at 1. assert (Hz : (0 <? maxKeys) && (maxKeys <? 0) = false) by lia.
  rewrite Hz, IH. by rewrite <- app_assoc.
Qed.

(** The listing fails with the error. *)
Definition list_fails (maxKeys : Z) (s : S) (e : error) : Prop := (be_List be false KeyFile (key_callback maxKeys 0) [] s).2 = Some e.

Lemma SearchKey_settled password maxKeys s : settled s password ->
  exists s' x, SearchKey be password maxKeys "" s = (s', x)
  /\ (forall h, contents s' (norm h) = contents s (norm h))
  /\ ((exists name k, name ∈ map fi_Name (files s KeyFile) /\ opens s name password = Ok k /\ x = Ok k)
      \/ (exists e, list_fails maxKeys s e /\ x = Err (RBackend e))
      \/ ((forall name, name ∈ map fi_Name (files s KeyFile) -> (exists id, ParseID name = Ok id) ->
            opens s name password = Err (RCrypto ErrUnauthenticated))
          /\ x = Err (RMsg "wrong password or no key found"))).
Proof using FileLaws0 ListLaws0 DirLaws0.
  intros Hset. unfold SearchKey, list_fails. cbn [bool_decide decide]. rewrite (bool_decide_eq_true_2 (""%string = ""%string)) by done.
  destruct (list_calls (list string) false KeyFile (key_callback maxKeys 0) [] s) as (s1 & fis & err & HL & _ & _ & _ & Hsub & Hall).
  assert (HF : forall s' u' r h, be_List be false KeyFile (key_callback maxKeys 0) [] s = (s', u', r) ->
    contents s' (norm h) = contents s (norm h)) by (intros *; apply list_frame).
  rewrite HL in HF |- *. rewrite key_callback_all. cbn [app fst snd].
  assert (HC : forall h, contents s1 (norm h) = contents s (norm h)) by (intros h; by eapply HF).
  assert (HO : forall name, opens s1 name password = opens s name password) by (intros name; unfold opens; by rewrite HC).
  assert (Hin : forall name, name ∈ map fi_Name fis -> name ∈ map fi_Name (files s KeyFile)).
  { intros name (fi & -> & Hfi)%list_elem_of_fmap. apply list_elem_of_fmap_2. by eapply elem_of_submseteq. }
  destruct (try_keys_settled (map fi_Name fis) password s1) as (r & -> & Hr).
  { intros name Hn Hid. rewrite HC, HO. by apply Hset; [apply Hin|]. }
  destruct r as [k|]; [|destruct err as [e|]].
  - destruct Hr as (name & Hn & _ & Hk). exists s1, (Ok k). split; [done|]. split; [done|]. left. exists name, k. rewrite <- HO. auto.
  - exists s1, (Err (RBackend e)). split; [done|]. split; [done|]. right. left. by exists e.
  - exists s1, (Err (RMsg "wrong password or no key found")). split; [done|]. split; [done|]. right. right. split; [|done].
    intros name Hn Hid. rewrite <- HO. apply Hr; [|done]. by rewrite (Hall eq_refl).
Qed.

(** *** Creating a repository *)

Context `{CCL : ConfigCodecLaws} (nonce : nat -> list byte).

Definition config_handle (name : string) : Handle := mkBeHandle ConfigFile InvalidBlob name.
Lemma norm_config n n' : norm (config_handle n) = norm (config_handle n').
Proof using FileLaws0. apply norm_eq. cbn. auto. Qed.
Lemma norm_config_key n n' : norm (key_handle n') ≠ norm (config_handle n).
Proof using FileLaws0. intros [Ht _]%norm_eq. done. Qed.

(** A stored configuration, loaded with the key read back. *)
Lemma LoadConfig_stored key n cfg (r : Repo S) : mask_done key -> Key_Valid key = true -> lenZ n = 16 -> validNonce n = true ->
  contents (r_be r) (norm (config_handle "")) = Some (sealed key n (config_encode cfg)) ->
  LoadConfig be Hash (reread key) r
  = (r, if bool_decide (cfg_Version cfg ≠ RepoVersion) then Err (RMsg "unsupported repository version")
        else if negb (Irreducible (cfg_ChunkerPolynomial cfg)) then Err (RMsg "invalid chunker polynomial") else Ok cfg).
Proof using FileLaws0 CL CCL.
  intros Hd Hk Hn Hv HC. unfold LoadConfig, LoadAndDecrypt, bind, be_read, LoadAll.
  rewrite (bool_decide_eq_true_2 (ConfigFile = ConfigFile)) by done. cbn [negb andb].
  rewrite (norm_config "" (ID_String nullID)) in HC. fold (config_handle (ID_String nullID)).
  erewrite load_file; [|done|exact HC|lia]. cbn [fst snd rd_err rd_bytes]. unfold file_range.
  cbn [Z.ltb Z.compare Z.to_nat]. rewrite drop_0, repo_eta. unfold lift.
  rewrite <- sealed_reread, decrypt_sealed by done. rewrite config_roundtrip. unfold throw, ret.
  by repeat case_match.
Qed.

(** What [Init] leaves in the backend. *)
Lemma Init_stored env pol id password polynomial (r r' : Repo S) o :
  norm (config_handle "") = config_handle "" ->
  wf_Key (NewRandomKey env) -> Key_Valid (NewRandomKey env) = true ->
  Init be Hash nonce env pol id password polynomial r = (r', Ok o) ->
  contents (r_be r) (norm (config_handle "")) = None
  /\ o_key o = NewRandomKey env /\ cfg_Version (o_cfg o) = RepoVersion
  /\ (exists n, lenZ n = 16 /\ validNonce n = true
      /\ contents (r_be r') (norm (config_handle "")) = Some (sealed (o_key o) n (config_encode (o_cfg o))))
  /\ (forall x, x ∈ map fi_Name (files (r_be r') KeyFile) <-> x ∈ map fi_Name (files (r_be r) KeyFile) \/ x = o_keyName o)
  /\ (exists i, ParseID (o_keyName o) = Ok i)
  /\ exists kf user, contents (r_be r') (norm (key_handle (o_keyName o))) = Some (file_encode kf)
     /\ opens (r_be r') (o_keyName o) password = Ok (mkRKey kf user (reread (o_key o)) (o_keyName o))
     /\ forall p, wrong_password kf p user -> opens (r_be r') (o_keyName o) p = Err (RCrypto ErrUnauthenticated).
Proof using StoreLaws0 FileLaws0 DirLaws0 CL KL CCL hash_wf.
  intros Hnorm Hwf Hval. unfold Init, bind, on_be. fold (config_handle "").
  destruct (be_Test be false (config_handle "") (r_be r)) as [s0 [has [e|]]] eqn:ET; [done|].
  pose proof (test_value _ _ _ _ ET Hnorm) as Hhas.
  pose proof (fun h => test_frame _ _ _ _ _ h ET) as HT1. pose proof (fun t => test_names _ _ _ _ _ t ET) as HT2.
  destruct has; [done|]. unfold lift, CreateConfig. destruct pol as [pol|e]; [|done].
  set (cfg := match polynomial with Some p => _ | None => _ end). unfold init_, bind, on_be, createMasterKey. cbn [r_be].
  destruct (AddKey be Hash env password "" "" None s0) as [s1 [k|e|m]] eqn:EA; [|done..].
  apply AddKey_spec in EA; [|done..]. cbn [default] in EA. destruct EA as (Hname & Hmaster & HC & Hnames & Hopen & Hwrong).
  unfold SaveUnpacked, bind, lift, NewRandomNonce, be_save, ret. cbn [r_be r_rnd].
  destruct (encrypt _ _ _ _) as [c|e|m] eqn:EE; [|done..]. apply encrypt_inv in EE as (_ & Hn & Hv & ->).
  rewrite (bool_decide_eq_true_2 (ConfigFile = ConfigFile)) by done. fold (config_handle (ID_String nullID)).
  destruct (be_Save be false _ _ s1) as [[s2 rd] [e|]] eqn:ES; [done|]. intros [= <- <-].
  cbn [r_be o_key o_keyName o_cfg]. rewrite Hmaster, Hname in *.
  assert (HF : contents s2 (norm (key_handle (ID_String (Hash (file_encode (k_file k))))))
    = contents s1 (norm (key_handle (ID_String (Hash (file_encode (k_file k))))))).
  { eapply store_frame; [exact ES|]. apply norm_config_key. }
  assert (HO : forall p, opens s2 (ID_String (Hash (file_encode (k_file k)))) p = opens s1 (ID_String (Hash (file_encode (k_file k)))) p).
  { intros p. unfold opens. by rewrite HF. }
  split_and!; try done.
  - destruct (contents (r_be r) _) eqn:EC; [|done]. by rewrite bool_decide_eq_true_2 in Hhas.
  - by unfold cfg; destruct polynomial.
  - exists (nonce (r_rnd r)). split; [done|]. split; [done|].
    pose proof (store_contents _ _ _ _ _ _ ES) as HS. rewrite (norm_config _ ""), drop_0 in HS. exact HS.
  - intros x. rewrite (save_names _ _ _ _ _ _ _ _ ES) by done. cbn [config_handle h_Type]. rewrite Hnames, HT2.
    split; [by intros [?|[? _]]|by left].
  - exists (Hash (file_encode (k_file k))). destruct (ID_text_roundtrip (Hash (file_encode (k_file k))) "" nullID (hash_wf _)) as [Hp _]. exact Hp.
  - exists (k_file k), (k_user k). rewrite HF, HO. split; [done|]. split; [done|]. intros p Hp. rewrite HO. by apply Hwrong.
Qed.

(** C14: what [Init] creates, its password opens.  When [Init] succeeds on a
    backend that keeps its promises and has no key files yet, there was no
    configuration before; [SearchKey] with the same password, for every value
    of [maxKeys] and in any later session on that backend, then returns the
    master key with the bytes that were drawn, the key's name and the stored
    configuration, provided the polynomial is irreducible (a polynomial given
    to [Init] is not tested then, and a reducible one makes a repository that
    cannot be opened); a password whose derived key gives another
    authentication tag is rejected as wrong.  In each case the only other
    outcome is the failure of the listing of the keys. *)
Theorem Init_SearchKey env pol id password polynomial maxKeys (r r' r2 : Repo S) o :
  norm (config_handle "") = config_handle "" ->
  map fi_Name (files (r_be r) KeyFile) = [] ->
  wf_Key (NewRandomKey env) -> Key_Valid (NewRandomKey env) = true ->
  Init be Hash nonce env pol id password polynomial r = (r', Ok o) ->
  r_be r2 = r_be r' ->
  contents (r_be r) (norm (config_handle "")) = None
  /\ o_key o = NewRandomKey env
  /\ ((exists e, list_fails maxKeys (r_be r2) e) \/
      (Repository_SearchKey be Hash password maxKeys "" r2).2
      = if Irreducible (cfg_ChunkerPolynomial (o_cfg o)) then Ok (mkOpened (reread (o_key o)) (o_keyName o) (o_cfg o))
        else Err (RMsg "config cannot be loaded"))
  /\ exists kf user, contents (r_be r2) (norm (key_handle (o_keyName o))) = Some (file_encode kf)
     /\ forall p, wrong_password kf p user ->
        (exists e, list_fails maxKeys (r_be r2) e)
        \/ (Repository_SearchKey be Hash p maxKeys "" r2).2 = Err (RMsg "wrong password or no key found").
Proof using StoreLaws0 FileLaws0 ListLaws0 DirLaws0 CL KL CCL hash_wf.
  intros Hnorm Hnone Hwf Hval HI Hr2.
  apply Init_stored in HI as (Hcfg & Hkey & Hver & (n & Hn & Hv & HC) & Hnames & Hid & kf & user & Hkf & Hopen & Hwrong); [|done..].
  split; [done|]. split; [done|]. rewrite <- Hr2 in *.
  assert (Honly : forall x, x ∈ map fi_Name (files (r_be r2) KeyFile) <-> x = o_keyName o).
  { intros x. rewrite Hnames, Hnone. split; [by intros [Hx%elem_of_nil|]|by right]. }
  assert (Hset : forall p, (opens (r_be r2) (o_keyName o) p = Err (RCrypto ErrUnauthenticated) \/ exists k, opens (r_be r2) (o_keyName o) p = Ok k)
    -> settled (r_be r2) p).
  { intros p Hp x ->%Honly _. by rewrite Hkf. }
  split.
  - destruct (SearchKey_settled password maxKeys (r_be r2)) as (s' & x & HS & HF & Hx); [apply Hset; eauto|].
    unfold Repository_SearchKey, bind, on_be. rewrite HS.
    destruct Hx as [(name & k & ->%Honly & Hk & ->)|[(e & He & ->)|[Hall _]]]; [|left; by exists e|].
    + right. rewrite Hopen in Hk. injection Hk as <-. cbn [k_master k_name]. rewrite Hkey in *.
      rewrite (LoadConfig_stored (NewRandomKey env) n (o_cfg o)); [|apply NewRandomKey_mask|done..|cbn [r_be]; by rewrite HF].
      rewrite bool_decide_eq_false_2 by (by intros Hx; apply Hx). by destruct (Irreducible _).
    + rewrite Hall in Hopen; [done|by apply Honly|done].
  - exists kf, user. split; [done|]. intros p Hp%Hwrong.
    destruct (SearchKey_settled p maxKeys (r_be r2)) as (s' & x & HS & HF & Hx); [apply Hset; by left|].
    unfold Repository_SearchKey, bind, on_be. rewrite HS.
    destruct Hx as [(name & k & ->%Honly & Hk & ->)|[(e & He & ->)|[_ ->]]]; [by rewrite Hp in Hk|left; by exists e|by right].
Qed.
End opening.

(** ** A concrete repository *)

(** JSON as the numbering of the records, a key derivation that repeats the
    password; a polynomial is irreducible when it is odd. *)
#[global] Instance Params_eq_dec : EqDecision Params.
Proof. solve_decision. Defined.
#[global] Instance KeyFileData_eq_dec : EqDecision KeyFileData.
Proof. solve_decision. Defined.
Definition kf_tuple (k : KeyFileData) :=
  ((t_ns (kf_Created k), t_off (kf_Created k)), kf_Username k, kf_Hostname k, kf_KDF k,
   (p_N (kf_Params k), p_R (kf_Params k), p_P (kf_Params k)), kf_Salt k, kf_Data k).
Definition kf_of_tuple (x : (Z * Z) * string * string * string * (Z * Z * Z) * list byte * list byte) : KeyFileData :=
  let '(ns, off, u, h, kdf, (n, r, p), salt, data) := x in
  mkKeyFile (mkTime ns off) u h kdf (mkParams n r p) salt data.
Definition toy_key_codec : KeyCodec := {|
  file_encode k := count_encode (kf_tuple k);
  file_decode l := option_map kf_of_tuple (count_decode l);
  master_encode j := count_encode (jk_K j, jk_R j, jk_encrypt j);
  master_decode l := option_map (fun '(k, r, e) => mkJsonKey k r e) (count_decode l);
|}.
Lemma toy_key_codec_laws : @KeyCodecLaws toy_key_codec.
Proof.
  split; intros k; cbn [file_encode file_decode master_encode master_decode toy_key_codec]; rewrite count_decode_encode.
  - by destruct k as [[] ? ? ? [] ? ?].
  - by destruct k.
Qed.
Definition toy_config_codec : ConfigCodec := {|
  config_encode c := count_encode (cfg_Version c, cfg_ID c, cfg_ChunkerPolynomial c);
  config_decode l := option_map (fun '(v, i, p) => mkConfig v i p) (count_decode l);
  Irreducible := Z.odd;
|}.
Lemma toy_config_codec_laws : @ConfigCodecLaws toy_config_codec.
Proof. split. intros []. cbn [config_encode config_decode toy_config_codec]. by rewrite count_decode_encode. Qed.
Definition toy_scrypt : Scrypt := {|
  scrypt_Check _ _ := None;
  scrypt_Key password salt _ n := inl (take (Z.to_nat n) (password ++ replicate (Z.to_nat n) Byte.x01));
|}.

Definition toy_env : KeyEnv := {|
  ke_Params := Ok (mkParams 2 1 1); ke_now := zeroTime; ke_hostname := "host"; ke_username := "user";
  ke_salt := replicate 64 Byte.x05; ke_nonce := toy_nonce;
  ke_encryption := replicate 32 Byte.x2a; ke_K := replicate 16 Byte.x03; ke_R := replicate 16 Byte.x04 |}.
Definition toy_Init : Repo Mem.memMap * res repo_error Opened :=
  Init toy_mem (CP := toy_prims) (H := toy_scrypt) (H0 := toy_key_codec) toy_hash (H1 := toy_config_codec) toy_nonces toy_env
    (inl 7) sample_id [Byte.x70] None toy_repo.

Lemma Init_SearchKey_witness : exists o,
  toy_Init.2 = Ok o
  /\ ((exists e, list_fails toy_mem 3 (r_be toy_Init.1) e)
      \/ (Repository_SearchKey toy_mem (CP := toy_prims) (H := toy_scrypt) (H0 := toy_key_codec) toy_hash (H1 := toy_config_codec)
            [Byte.x70] 3 "" toy_Init.1).2 = Ok (mkOpened (reread (NewRandomKey toy_env)) (o_keyName o) (mkConfig 1 (ID_String sample_id) 7))).
Proof.
  assert (HE : exists name, toy_Init.2 = Ok (mkOpened (NewRandomKey toy_env) name (mkConfig 1 (ID_String sample_id) 7)))
    by (eexists; vm_compute; reflexivity).
  destruct HE as [name HE]. eexists. split; [exact HE|].
  assert (HR : toy_Init = (toy_Init.1, Ok (mkOpened (NewRandomKey toy_env) name (mkConfig 1 (ID_String sample_id) 7))))
    by (rewrite <- HE; by destruct toy_Init).
  unfold toy_Init at 1 in HR.
  destruct (Init_SearchKey toy_mem Mem.normalize mem_contents mem_files
    (StoreLaws0 := mem_store_laws toy_md5 map_to_list) (FileLaws0 := mem_file_laws toy_md5 map_to_list)
    (ListLaws0 := mem_list_laws toy_md5 map_to_list (fun m => reflexivity _)) (DirLaws0 := mem_dir_laws toy_md5 map_to_list)
    (CL := toy_laws) (H0 := toy_scrypt) (KL := toy_key_codec_laws) toy_hash toy_hash_wf (CCL := toy_config_codec_laws) toy_nonces
    toy_env (inl 7) sample_id [Byte.x70] None 3 toy_repo toy_Init.1 toy_Init.1 (mkOpened (NewRandomKey toy_env) name (mkConfig 1 (ID_String sample_id) 7))) as (_ & _ & H & _);
    [reflexivity|reflexivity|split; [split|]; reflexivity|reflexivity|exact HR|reflexivity|].
  exact H.
Defined.

(** A key file whose data is shorter than a nonce makes opening panic. *)
Lemma open_key_short_panics `{CryptoPrims} `{Scrypt} `{KeyCodec} (k : KeyFileData) name password user :
  kf_KDF k = "scrypt"%string -> KDF (kf_Params k) (kf_Salt k) password = Ok user -> (length (kf_Data k) < 16)%nat ->
  open_key k name password = Panic "slice bounds out of range".
Proof.
  intros HK HU HL. unfold open_key. rewrite HK, (bool_decide_eq_false_2 ("scrypt"%string ≠ "scrypt"%string)) by (intros Hx; by apply Hx).
  rewrite HU. cbn [mbind res_bind]. unfold decrypt, gslice at 1. by rewrite bool_decide_eq_false_2 by (unfold NonceSize, ivSize; lia).
Qed.
