(* ===== verification/Snapshots.v ===== *)
(** * Snapshots: tags, filters, groups and lookup

    src/restic/snapshot.go, tag_list.go, snapshot_group.go and
    snapshot_find.go.  The JSON text of a snapshot and of a group key, and the
    resolution of file names against the working directory, are parameters. *)

From S2P Require Import Prelude Crypto Ids Index MasterIndex Backend Repository Duration.
#[local] Open Scope repo_scope.

(** ** Data *)

(** A slice of strings; [None] is [nil]. *)
Definition strings : Type := option (list string).
Definition elems (s : strings) : list string := default [] s.

Record Snapshot : Type := mkSnapshot {
  s_Time : Time;
  s_Parent : option ID;
  s_Tree : option ID;
  s_Paths : strings;
  s_Hostname : string;
  s_Username : string;
  s_UID : Z;
  s_GID : Z;
  s_Excludes : strings;
  s_Tags : strings;
  s_Original : option ID;
  s_id : option ID;
}.
#[global] Instance Snapshot_eq_dec : EqDecision Snapshot.
Proof. solve_decision. Defined.

Definition set_tags (sn : Snapshot) (tags : strings) : Snapshot :=
  mkSnapshot (s_Time sn) (s_Parent sn) (s_Tree sn) (s_Paths sn) (s_Hostname sn) (s_Username sn) (s_UID sn) (s_GID sn)
    (s_Excludes sn) tags (s_Original sn) (s_id sn).
Definition set_paths (sn : Snapshot) (paths : strings) : Snapshot :=
  mkSnapshot (s_Time sn) (s_Parent sn) (s_Tree sn) paths (s_Hostname sn) (s_Username sn) (s_UID sn) (s_GID sn)
    (s_Excludes sn) (s_Tags sn) (s_Original sn) (s_id sn).
Definition set_id (sn : Snapshot) (id : ID) : Snapshot :=
  mkSnapshot (s_Time sn) (s_Parent sn) (s_Tree sn) (s_Paths sn) (s_Hostname sn) (s_Username sn) (s_UID sn) (s_GID sn)
    (s_Excludes sn) (s_Tags sn) (s_Original sn) (Some id).

(** ** Tags of a snapshot *)

Fixpoint add_tags (tags : strings) (addTags : list string) : strings * bool :=
  match addTags with
  | [] => (tags, false)
  | add :: addTags =>
      if existsb (fun tag => bool_decide (tag = add)) (elems tags) then add_tags tags addTags
      else let '(tags, _) := add_tags (Some (elems tags ++ [add])) addTags in (tags, true)
  end.
Definition AddTags (sn : Snapshot) (addTags : list string) : Snapshot * bool :=
  let '(tags, changed) := add_tags (s_Tags sn) addTags in (set_tags sn tags, changed).

(** The first occurrence of [remove] is overwritten by the last tag. *)
Definition remove_tag (tags : list string) (remove : string) : option (list string) :=
  match list_find (fun tag => tag = remove) tags with
  | None => None
  | Some (i, _) => Some (take (length tags - 1) (<[i := List.last tags ""%string]> tags))
  end.
Fixpoint remove_tags (tags : strings) (removeTags : list string) : strings * bool :=
  match removeTags with
  | [] => (tags, false)
  | remove :: removeTags =>
      match remove_tag (elems tags) remove with
      | None => remove_tags tags removeTags
      | Some tags => let '(tags, _) := remove_tags (Some tags) removeTags in (tags, true)
      end
  end.
Definition RemoveTags (sn : Snapshot) (removeTags : list string) : Snapshot * bool :=
  let '(tags, changed) := remove_tags (s_Tags sn) removeTags in (set_tags sn tags, changed).

Definition hasTag (sn : Snapshot) (tag : string) : bool :=
  existsb (fun snTag => bool_decide (tag = snTag)) (elems (s_Tags sn)).
Fixpoint HasTags (sn : Snapshot) (l : list string) : bool :=
  match l with
  | [] => true
  | tag :: l =>
      if bool_decide (tag = ""%string) && bool_decide (length (elems (s_Tags sn)) = 0%nat) then true
      else if negb (hasTag sn tag) then false
      else HasTags sn l
  end.

Abbreviation TagList := (list string).
Definition HasTagList (sn : Snapshot) (l : list TagList) : bool :=
  if bool_decide (length l = 0%nat) then true else existsb (HasTags sn) l.

Definition hasPath (sn : Snapshot) (path : string) : bool :=
  existsb (fun snPath => bool_decide (path = snPath)) (elems (s_Paths sn)).
Definition HasPaths (sn : Snapshot) (paths : list string) : bool := forallb (hasPath sn) paths.

Definition HasHostname (sn : Snapshot) (hostnames : list string) : bool :=
  if bool_decide (length hostnames = 0%nat) then true
  else existsb (fun hostname => bool_decide (s_Hostname sn = hostname)) hostnames.

(** ** Tag lists (src/restic/tag_list.go) *)

(** [strings.Split] at commas. *)
Fixpoint split_comma (l : list byte) : list (list byte) :=
  match l with
  | [] => [[]]
  | b :: l =>
      if bool_decide (b = Byte.x2c) then [] :: split_comma l
      else match split_comma l with
           | t :: ts => (b :: t) :: ts
           | [] => [[b]]
           end
  end.
Definition Split (s : string) : list string := map string_of (split_comma (bytes_of s)).

Definition splitTagList `{Unicode} (s : string) : TagList :=
  map (fun t => string_of (TrimSpace (bytes_of t))) (Split s).

Fixpoint join (sep : string) (l : list string) : string :=
  match l with
  | [] => ""
  | [s] => s
  | s :: l => s ++ sep ++ join sep l
  end%string.
Definition TagList_String (l : TagList) : string := ("[" ++ join ", " l ++ "]")%string.

Definition TagLists_Flatten (l : list TagList) : TagList :=
  filter (fun tag => tag ≠ ""%string) (concat l).
Definition TagLists_Set `{Unicode} (l : list TagList) (s : string) : list TagList := l ++ [splitTagList s].

(** ** Groups (src/restic/snapshot_group.go) *)

Record SnapshotGroupKey : Type := mkGroupKey { g_Hostname : string; g_Paths : strings; g_Tags : strings }.

Definition sort_strings (s : strings) : strings := match s with None => None | Some l => Some (merge_sort String.le l) end.

Section grouping.
(** The JSON text of a key. *)
Context (Marshal : SnapshotGroupKey -> string).

Inductive group_error : Type := UnknownGrouping (option : string).

Record grouping : Type := mkGrouping { GroupByTag : bool; GroupByHost : bool; GroupByPath : bool }.
Fixpoint parse_options (options : list string) (g : grouping) : res group_error grouping :=
  match options with
  | [] => Ok g
  | option :: options =>
      if bool_decide (option ∈ ["host"; "hosts"]%string)
      then parse_options options (mkGrouping (GroupByTag g) true (GroupByPath g))
      else if bool_decide (option ∈ ["path"; "paths"]%string)
      then parse_options options (mkGrouping (GroupByTag g) (GroupByHost g) true)
      else if bool_decide (option ∈ ["tag"; "tags"]%string)
      then parse_options options (mkGrouping true (GroupByHost g) (GroupByPath g))
      else if bool_decide (option = ""%string) then parse_options options g
      else Err (UnknownGrouping option)
  end.

(** Sorting is in place: the snapshot's paths, and its tags when grouping by
    tags, end up sorted. *)
Definition sorted_snapshot (g : grouping) (sn : Snapshot) : Snapshot :=
  let sn := if GroupByTag g then set_tags sn (sort_strings (s_Tags sn)) else sn in
  set_paths sn (sort_strings (s_Paths sn)).
Definition group_key (g : grouping) (sn : Snapshot) : SnapshotGroupKey :=
  mkGroupKey (if GroupByHost g then s_Hostname sn else ""%string)
    (if GroupByPath g then s_Paths sn else None) (if GroupByTag g then s_Tags sn else None).
Definition add_to_group (g : grouping) (groups : gmap string (list Snapshot)) (sn : Snapshot) : gmap string (list Snapshot) :=
  let sn := sorted_snapshot g sn in
  let k := Marshal (group_key g sn) in
  <[k := default [] (groups !! k) ++ [sn]]> groups.
Definition GroupSnapshots (snapshots : list Snapshot) (options : string)
  : res group_error (gmap string (list Snapshot) * bool) :=
  g ← parse_options (Split options) (mkGrouping false false false);
  Ok (fold_left (add_to_group g) snapshots ∅, GroupByTag g || GroupByHost g || GroupByPath g).
End grouping.

(** ** Loading and finding *)

(** Decoding the JSON text of a snapshot; [s_id] is not part of it. *)
Class SnapshotCodec : Type := { snap_decode : list byte -> option Snapshot }.

Section finding.
Context {S : Type} (be : Backend S) `{CP : CryptoPrims} `{SC : SnapshotCodec}.
Context (Hash : list byte -> ID) (key : Key).

Definition LoadSnapshot (id : ID) : M S Snapshot :=
  buf <- LoadAndDecrypt be Hash key SnapshotFile id;;
  match snap_decode buf with
  | Some sn => ret (set_id sn id)
  | None => throw (RMsg "json.Unmarshal")
  end.

(** The callback gets the ID, the snapshot or the error, and its own state. *)
Definition snap_callback (U : Type) : Type := ID -> res repo_error Snapshot -> U -> U * option repo_error.

Fixpoint for_all_ids {U : Type} (ids : list (ID * Z)) (excludeIDs : IDSet) (fn : snap_callback U) (u : U) : M S U :=
  match ids with
  | [] => ret u
  | (id, _) :: ids =>
      if IDSet_Has excludeIDs id then for_all_ids ids excludeIDs fn u
      else fun r =>
        match LoadSnapshot id r with
        | (r, Panic m) => (r, Panic m)
        | (r, sn) =>
            match fn id sn u with
            | (_, Some e) => (r, Err e)
            | (u, None) => for_all_ids ids excludeIDs fn u r
            end
        end
  end.
Definition ForAllSnapshots {U : Type} (excludeIDs : IDSet) (fn : snap_callback U) (u : U) : M S U :=
  ids <- ListIDs be SnapshotFile;; for_all_ids ids excludeIDs fn u.

(** [filepath]: resolution may fail when there is no working directory. *)
Context (IsAbs : string -> bool) (Abs : string -> option string) (Clean : string -> string).

Fixpoint abs_targets (targets : list string) : res repo_error (list string) :=
  match targets with
  | [] => Ok []
  | target :: targets =>
      target ← (if negb (IsAbs target) then match Abs target with Some t => Ok t | None => Err (RMsg "Abs") end else Ok target);
      ts ← abs_targets targets;
      Ok (Clean target :: ts)
  end.

Record latest_state : Type := mkLatest { l_latest : Time; l_latestID : ID; l_found : bool }.

Definition latest_callback (absTargets : list string) (tagLists : list TagList) (hostnames : list string)
  (timeStampLimit : option Time) : snap_callback latest_state := fun id sn st =>
  match sn with
  | Err e => (st, Some (RMsg "Error loading snapshot"))
  | Panic _ => (st, None)
  | Ok snapshot =>
      if match timeStampLimit with Some limit => After (s_Time snapshot) limit | None => false end then (st, None)
      else if Before (s_Time snapshot) (l_latest st) then (st, None)
      else if negb (HasHostname snapshot hostnames) then (st, None)
      else if negb (HasTagList snapshot tagLists) then (st, None)
      else if negb (HasPaths snapshot absTargets) then (st, None)
      else (mkLatest (s_Time snapshot) id true, None)
  end.
Definition FindLatestSnapshot (targets : list string) (tagLists : list TagList) (hostnames : list string)
  (timeStampLimit : option Time) : M S ID :=
  absTargets <- lift (abs_targets targets);;
  st <- ForAllSnapshots ∅ (latest_callback absTargets tagLists hostnames timeStampLimit) (mkLatest zeroTime nullID false);;
  if negb (l_found st) then throw (RMsg "no snapshot found") else ret (l_latestID st).

Definition FindSnapshot (s : string) : M S ID := fun r =>
  let '(st, res) := Find be false SnapshotFile s (r_be r) in
  (mkRepo st (r_idx r) (r_treePM r) (r_dataPM r) (r_noAutoIndexUpdate r) (r_tick r) (r_rnd r),
   match res with inl name => lift_err RID (ParseID name) | inr e => Err (RFind e) end).

Definition filtered_callback (hosts : list string) (tags : list TagList) (paths : list string) : snap_callback (list Snapshot) :=
  fun id sn results =>
  match sn with
  | Ok sn =>
      if negb (HasHostname sn hosts) || negb (HasTagList sn tags) || negb (HasPaths sn paths) then (results, None)
      else (results ++ [sn], None)
  | _ => (results, None)
  end.
Definition FindFilteredSnapshots (hosts : list string) (tags : list TagList) (paths : list string) : M S (list Snapshot) :=
  ForAllSnapshots ∅ (filtered_callback hosts tags paths) [].

End finding.

(** ** Facts about tags *)

Lemma existsb_elem {A} `{EqDecision A} (x : A) l : existsb (fun y => bool_decide (x = y)) l = bool_decide (x ∈ l).
Proof.
  induction l as [|y l IH]; [done|]. cbn [existsb]. rewrite IH.
  destruct (decide (x = y)) as [->|Hne].
  - rewrite (bool_decide_eq_true_2 (y = y)) by done. symmetry. apply bool_decide_eq_true_2. by left.
  - rewrite (bool_decide_eq_false_2 (x = y)) by done. apply bool_decide_ext. rewrite elem_of_cons. tauto.
Qed.
Lemma existsb_elem' {A} `{EqDecision A} (x : A) l : existsb (fun y => bool_decide (y = x)) l = bool_decide (x ∈ l).
Proof. rewrite <- existsb_elem. induction l as [|y l IH]; [done|]. cbn [existsb]. rewrite IH. f_equal. by apply bool_decide_ext. Qed.

Lemma elems_Some l : elems (Some l) = l.
Proof. done. Qed.

Lemma add_tags_spec addTags : forall tags,
  (exists new, elems (add_tags tags addTags).1 = elems tags ++ new)
  /\ (forall x, x ∈ elems (add_tags tags addTags).1 <-> x ∈ elems tags \/ x ∈ addTags)
  /\ (NoDup (elems tags) -> NoDup (elems (add_tags tags addTags).1))
  /\ ((add_tags tags addTags).2 = true <-> exists x, x ∈ addTags /\ x ∉ elems tags)
  /\ ((add_tags tags addTags).2 = false -> (add_tags tags addTags).1 = tags).
Proof.
  induction addTags as [|a l IH]; intros tags; cbn [add_tags].
  { cbn [fst snd]. split; [by exists []; rewrite app_nil_r|]. split; [|split; [done|split; [|done]]].
    - intros x. rewrite elem_of_nil. tauto.
    - split; [done|]. by intros (x & ?%elem_of_nil & _). }
  rewrite existsb_elem'. case_bool_decide as Ha.
  - destruct (IH tags) as (H1 & H2 & H3 & H4 & H5). split; [done|]. split; [|split; [done|split; [|done]]].
    + intros x. rewrite H2, elem_of_cons. split; [tauto|]. intros [?|[->|?]]; auto.
    + rewrite H4. setoid_rewrite elem_of_cons. split; [|intros (x & [->|?] & ?)]; naive_solver.
  - destruct (IH (Some (elems tags ++ [a]))) as ((new & H1) & H2 & H3 & _ & _).
    destruct (add_tags (Some (elems tags ++ [a])) l) as [tags' c]. cbn [fst snd] in *. rewrite elems_Some in *.
    split; [exists (a :: new); by rewrite H1, <- app_assoc|]. split; [|split; [|split; [|done]]].
    + intros x. rewrite H2, elem_of_app, !elem_of_cons, elem_of_nil. tauto.
    + intros Hn. apply H3. apply NoDup_app. split; [done|]. split; [|apply NoDup_singleton].
      intros x Hx ->%list_elem_of_singleton. done.
    + split; [|done]. intros _. exists a. split; [by left|done].
Qed.

Lemma remove_tag_spec tags t tags' : remove_tag tags t = Some tags' -> tags ≡ₚ t :: tags'.
Proof.
  unfold remove_tag. destruct (list_find _ tags) as [[i x]|] eqn:EF; [|done]. intros [= <-].
  apply list_find_Some in EF as (Hi & -> & _).
  destruct tags as [|y l _] using rev_ind; [done|]. rewrite last_last, length_app. cbn [length].
  replace (length l + 1 - 1)%nat with (length l) by lia.
  assert (Hil : (i < length (l ++ [y]))%nat) by by eapply lookup_lt_Some.
  rewrite length_app in Hil. cbn [length] in Hil.
  destruct (decide (i = length l)) as [->|Hne].
  - rewrite list_lookup_middle in Hi by done. injection Hi as ->.
    rewrite list_insert_id by by apply list_lookup_middle. rewrite take_app_length. by rewrite Permutation_app_comm.
  - rewrite lookup_app_l in Hi by lia. rewrite insert_app_l, take_app_length' by (rewrite ?length_insert; lia).
    apply list_elem_of_split_length in Hi as (l1 & l2 & -> & ->).
    rewrite <- (Nat.add_0_r (length l1)), insert_app_r. cbn.
    rewrite <- Permutation_cons_append, <- !Permutation_middle. apply perm_swap.
Qed.
Lemma remove_tag_None tags t : remove_tag tags t = None -> t ∉ tags.
Proof.
  unfold remove_tag. destruct (list_find _ tags) as [[i x]|] eqn:EF; [done|]. intros _ Hin.
  apply list_find_None in EF. rewrite Forall_forall in EF. by apply (EF t).
Qed.

Lemma remove_tags_spec removeTags : forall tags, NoDup (elems tags) ->
  NoDup (elems (remove_tags tags removeTags).1)
  /\ (forall x, x ∈ elems (remove_tags tags removeTags).1 <-> x ∈ elems tags /\ x ∉ removeTags)
  /\ ((remove_tags tags removeTags).2 = true <-> exists x, x ∈ removeTags /\ x ∈ elems tags)
  /\ ((remove_tags tags removeTags).2 = false -> (remove_tags tags removeTags).1 = tags).
Proof.
  induction removeTags as [|a l IH]; intros tags Hn; cbn [remove_tags].
  { split; [done|]. split; [|split; [|done]].
    - intros x. rewrite elem_of_nil. tauto.
    - split; [done|]. by intros (x & ?%elem_of_nil & _). }
  destruct (remove_tag (elems tags) a) as [tags'|] eqn:ER.
  - apply remove_tag_spec in ER. rewrite ER in Hn. apply NoDup_cons in Hn as [Ha Hn].
    destruct (IH (Some tags') Hn) as (H1 & H2 & H3 & _).
    destruct (remove_tags (Some tags') l) as [tags1 c]. cbn [fst snd] in *. rewrite elems_Some in *.
    split; [done|]. split; [|split; [|done]].
    + intros x. rewrite H2, ER, !elem_of_cons. split; [|tauto]. intros [Hx Hxl]. split; [auto|].
      intros [->|?]; done.
    + split; [|done]. intros _. exists a. rewrite ER. split; by left.
  - apply remove_tag_None in ER. destruct (IH tags Hn) as (H1 & H2 & H3 & H4).
    split; [done|]. split; [|split; [|done]].
    + intros x. rewrite H2, elem_of_cons. split; [|tauto]. intros [Hx Hxl]. split; [done|]. intros [->|?]; done.
    + rewrite H3. setoid_rewrite elem_of_cons. split; [|intros (x & [->|?] & ?)]; naive_solver.
Qed.

Lemma HasTags_true sn l : HasTags sn l = true <->
  if bool_decide (elems (s_Tags sn) = []) then l = [] \/ head l = Some ""%string
  else forall t, t ∈ l -> t ∈ elems (s_Tags sn).
Proof.
  unfold hasTag. case_bool_decide as He.
  - destruct l as [|t l]; cbn [HasTags head]; [split; auto|]. rewrite He. cbn [length].
    rewrite (bool_decide_eq_true_2 (0%nat = 0%nat)) by done. rewrite andb_true_r.
    case_bool_decide as Ht; [subst; split; auto|]. unfold hasTag. rewrite He. cbn [existsb negb].
    split; [done|]. intros [?|[= ->]]; done.
  - assert (Hlen : bool_decide (length (elems (s_Tags sn)) = 0%nat) = false).
    { apply bool_decide_eq_false_2. by intros ?%nil_length_inv. }
    induction l as [|t l IH]; cbn [HasTags]; [split; [by intros _ t ?%elem_of_nil|done]|].
    rewrite Hlen, andb_false_r. unfold hasTag. rewrite existsb_elem. clear Hlen. case_bool_decide as Ht; cbn [negb].
    + rewrite IH. setoid_rewrite elem_of_cons. split; [intros H t' [->|?]|]; naive_solver.
    + split; [done|]. intros H. exfalso. apply Ht, H. by left.
Qed.

(** tags.  [AddTags] only appends, each new tag once, and reports whether
    it added any; [RemoveTags] on tags without duplicates removes exactly the
    given ones, and reports whether it removed any; [HasTags] asks for all
    tags, except that an empty tag in the first place matches a snapshot
    without tags. *)
Theorem tags_spec (sn : Snapshot) (l : list string) :
  (exists new, elems (s_Tags (AddTags sn l).1) = elems (s_Tags sn) ++ new
     /\ (forall x, x ∈ elems (s_Tags sn) ++ new <-> x ∈ elems (s_Tags sn) \/ x ∈ l)
     /\ (NoDup (elems (s_Tags sn)) -> NoDup (elems (s_Tags sn) ++ new))
     /\ ((AddTags sn l).2 = true <-> exists x, x ∈ l /\ x ∉ elems (s_Tags sn))
     /\ ((AddTags sn l).2 = false -> (AddTags sn l).1 = sn))
  /\ (NoDup (elems (s_Tags sn)) ->
      NoDup (elems (s_Tags (RemoveTags sn l).1))
      /\ (forall x, x ∈ elems (s_Tags (RemoveTags sn l).1) <-> x ∈ elems (s_Tags sn) /\ x ∉ l)
      /\ ((RemoveTags sn l).2 = true <-> exists x, x ∈ l /\ x ∈ elems (s_Tags sn))
      /\ ((RemoveTags sn l).2 = false -> (RemoveTags sn l).1 = sn))
  /\ (HasTags sn l = true <->
      if bool_decide (elems (s_Tags sn) = []) then l = [] \/ head l = Some ""%string
      else forall t, t ∈ l -> t ∈ elems (s_Tags sn)).
Proof.
  assert (Hset : set_tags sn (s_Tags sn) = sn) by by destruct sn.
  split; [|split; [|apply HasTags_true]].
  - destruct (add_tags_spec l (s_Tags sn)) as ((new & H1) & H2 & H3 & H4 & H5). exists new.
    unfold AddTags. destruct (add_tags (s_Tags sn) l) as [tags c]. cbn [fst snd] in *.
    split; [done|]. rewrite <- H1. split; [done|]. split; [done|]. split; [done|]. intros Hc. by rewrite H5.
  - intros Hn. destruct (remove_tags_spec l (s_Tags sn) Hn) as (H1 & H2 & H3 & H4).
    unfold RemoveTags. destruct (remove_tags (s_Tags sn) l) as [tags c]. cbn [fst snd] in *.
    split; [done|]. split; [done|]. split; [done|]. intros Hc. by rewrite H4.
Qed.

(** ** Groups *)

Section groups.
Context (Marshal : SnapshotGroupKey -> string).

(** The group of a key among snapshots already sorted in themselves. *)
Definition group_of (g : grouping) (k : string) (l : list Snapshot) : list Snapshot :=
  filter (fun sn => Marshal (group_key g sn) = k) l.

Lemma fold_groups g l : forall done groups,
  (forall k, groups !! k = match group_of g k done with [] => None | c => Some c end) ->
  forall k, fold_left (add_to_group Marshal g) l groups !! k
  = match group_of g k (done ++ map (sorted_snapshot g) l) with [] => None | c => Some c end.
Proof.
  induction l as [|sn l IH]; intros dn groups Hg k; cbn [fold_left map]; [by rewrite app_nil_r|].
  replace (dn ++ sorted_snapshot g sn :: map (sorted_snapshot g) l)
    with ((dn ++ [sorted_snapshot g sn]) ++ map (sorted_snapshot g) l) by by rewrite <- app_assoc.
  apply IH. intros k'. unfold add_to_group. cbv zeta.
  unfold group_of at 1. rewrite filter_app, filter_cons, filter_nil. fold (group_of g k' dn).
  case_decide as Hk.
  - subst k'. rewrite lookup_insert_eq, Hg. by destruct (group_of g _ dn).
  - rewrite lookup_insert_ne, Hg by done. by rewrite app_nil_r.
Qed.

(** The recognised options. *)
Definition known_options : list string := ["host"; "hosts"; "path"; "paths"; "tag"; "tags"; ""]%string.

Lemma parse_options_spec l : forall g,
  (Forall (.∈ known_options) l -> parse_options l g = Ok (mkGrouping
     (GroupByTag g || bool_decide ("tag"%string ∈ l \/ "tags"%string ∈ l))
     (GroupByHost g || bool_decide ("host"%string ∈ l \/ "hosts"%string ∈ l))
     (GroupByPath g || bool_decide ("path"%string ∈ l \/ "paths"%string ∈ l))))
  /\ (¬ Forall (.∈ known_options) l -> exists o, o ∈ l /\ o ∉ known_options /\ parse_options l g = Err (UnknownGrouping o)).
Proof.
  induction l as [|o l IH]; intros g; cbn [parse_options].
  { split; [|intros H; by destruct H]. intros _. destruct g as [a b c]. cbn.
    rewrite !bool_decide_eq_false_2 by (intros [?%elem_of_nil|?%elem_of_nil]; done). by rewrite !orb_false_r. }
  assert (Hin : forall x y : string, bool_decide (x ∈ o :: l \/ y ∈ o :: l) = bool_decide (o ∈ [x; y]) || bool_decide (x ∈ l \/ y ∈ l)).
  { intros x y. rewrite <- bool_decide_or. apply bool_decide_ext. rewrite !elem_of_cons, elem_of_nil. naive_solver. }
  destruct (decide (o ∈ known_options)) as [Ho|Ho].
  2: { split; [by intros [? _]%Forall_cons|]. intros _. exists o. split; [by left|]. split; [done|].
       unfold known_options in Ho. rewrite !not_elem_of_cons in Ho. destruct Ho as (? & ? & ? & ? & ? & ? & ? & _).
       rewrite !bool_decide_eq_false_2; [done|..]; rewrite ?not_elem_of_cons; auto using not_elem_of_nil. }
  assert (HF : Forall (.∈ known_options) (o :: l) <-> Forall (.∈ known_options) l) by (rewrite Forall_cons; tauto).
  rewrite HF, !Hin.
  assert (Hex : forall g', parse_options (o :: l) g = parse_options l g' ->
     ¬ Forall (.∈ known_options) l -> exists o', o' ∈ o :: l /\ o' ∉ known_options /\ parse_options l g' = Err (UnknownGrouping o')).
  { intros g' _ Hn. destruct (proj2 (IH g') Hn) as (o' & H1 & H2 & H3). exists o'. split; [by right|done]. }
  unfold known_options in Ho. rewrite !elem_of_cons, elem_of_nil in Ho.
  destruct Ho as [->|[->|[->|[->|[->|[->|[->|[]]]]]]]]; cbn [parse_options] in *;
    (split; [intros HA; etransitivity; [apply (proj1 (IH _) HA)|] | by apply Hex]);
    destruct g as [[] [] []]; reflexivity.
Qed.

(** grouping.  The options are accepted exactly when each is known;
    the map then has for each key the snapshots with that key, in the order
    given, and no empty group -- so every snapshot is in exactly one group --
    where the key of a snapshot is made of the criteria asked for, with tags
    and paths sorted. *)
Theorem GroupSnapshots_spec (snapshots : list Snapshot) (options : string) :
  let l := Split options in
  let g := mkGrouping (bool_decide ("tag"%string ∈ l \/ "tags"%string ∈ l))
     (bool_decide ("host"%string ∈ l \/ "hosts"%string ∈ l)) (bool_decide ("path"%string ∈ l \/ "paths"%string ∈ l)) in
  match GroupSnapshots Marshal snapshots options with
  | Ok (groups, grouped) =>
      Forall (.∈ known_options) l
      /\ grouped = GroupByTag g || GroupByHost g || GroupByPath g
      /\ forall k, groups !! k = match group_of g k (map (sorted_snapshot g) snapshots) with [] => None | c => Some c end
  | Err (UnknownGrouping o) => o ∈ l /\ o ∉ known_options
  | Panic _ => False
  end.
Proof.
  cbv zeta. unfold GroupSnapshots. destruct (parse_options_spec (Split options) (mkGrouping false false false)) as [H1 H2].
  destruct (decide (Forall (.∈ known_options) (Split options))) as [HF|HF].
  - rewrite (H1 HF). cbn [mbind res_bind GroupByTag GroupByHost GroupByPath orb].
    split; [done|]. split; [done|]. intros k. by rewrite (fold_groups _ snapshots [] ∅).
  - destruct (H2 HF) as (o & Ho & Hn & ->). done.
Qed.
End groups.

(** ** Finding the latest snapshot *)

Section latest.
Context {S : Type} (be : Backend S) `{CP : CryptoPrims} `{SC : SnapshotCodec}.
Context (Hash : list byte -> ID) (key : Key).
Context (IsAbs : string -> bool) (Abs : string -> option string) (Clean : string -> string).

(** [sn] is what a file whose hash is the ID decodes to. *)
Definition stored_as (p : ID * Snapshot) : Prop :=
  exists file pt sn, Hash file = p.1 /\ decrypt key file = Ok pt /\ snap_decode pt = Some sn /\ p.2 = set_id sn p.1.

Lemma LoadSnapshot_stored id r r' sn : LoadSnapshot be Hash key id r = (r', Ok sn) -> stored_as (id, sn).
Proof.
  unfold LoadSnapshot, bind. destruct (LoadAndDecrypt be Hash key SnapshotFile id r) as [r1 [buf|e|m]] eqn:EL; [|done..].
  apply LoadAndDecrypt_hash in EL as (file & s' & _ & Hh & Hd); [|done].
  destruct (snap_decode buf) as [sn0|] eqn:ED; [|done]. intros [= _ <-].
  by exists file, buf, sn0.
Qed.

(** The loaded snapshots a callback is run on. *)
Definition run_callback {U : Type} (fn : snap_callback U) (l : list (ID * Snapshot)) (u : U) : U :=
  fold_left (fun u p => (fn p.1 (Ok p.2) u).1) l u.

(** A callback that fails on errors and not on snapshots sees every listed
    snapshot. *)
Lemma for_all_ids_ok {U : Type} (fn : snap_callback U) ids : forall (u u' : U) r r',
  (forall id e u, exists e', (fn id (Err e) u).2 = Some e') -> (forall id sn u, (fn id (Ok sn) u).2 = None) ->
  for_all_ids be Hash key ids ∅ fn u r = (r', Ok u') ->
  exists l, map fst l = map fst ids /\ Forall stored_as l /\ u' = run_callback fn l u.
Proof.
  induction ids as [|[id z] ids IH]; intros u u' r r' He Hok HR; cbn [for_all_ids] in HR.
  { injection HR as _ <-. by exists []. }
  unfold IDSet_Has in HR. rewrite bool_decide_eq_false_2 in HR by apply not_elem_of_empty.
  destruct (LoadSnapshot be Hash key id r) as [r1 [sn|e|m]] eqn:EL; [|exfalso|done].
  - specialize (Hok id sn u) as HN. destruct (fn id (Ok sn) u) as [u1 o] eqn:EF. cbn [snd] in HN. subst o.
    destruct (IH u1 u' r1 r' He Hok HR) as (l & H1 & H2 & H3). exists ((id, sn) :: l). cbn [map fst].
    rewrite H1. split; [done|]. split; [apply Forall_cons; split; [by eapply LoadSnapshot_stored|done]|].
    rewrite H3. unfold run_callback. cbn [fold_left fst snd]. by rewrite EF.
  - destruct (He id e u) as [e' HE]. destruct (fn id (Err e) u) as [u1 o]. cbn [snd] in HE. by subst o.
Qed.

Lemma for_all_ids_err {U : Type} (fn : snap_callback U) ids : forall (u : U) r r' e,
  for_all_ids be Hash key ids ∅ fn u r = (r', Err e) -> exists id sn u, (fn id sn u).2 = Some e.
Proof.
  induction ids as [|[id z] ids IH]; intros u r r' e HR; cbn [for_all_ids] in HR; [done|].
  unfold IDSet_Has in HR. rewrite bool_decide_eq_false_2 in HR by apply not_elem_of_empty.
  destruct (LoadSnapshot be Hash key id r) as [r1 [sn|e0|m]]; [| |done].
  - destruct (fn id (Ok sn) u) as [u1 [e1|]] eqn:EF; [|by eapply IH].
    injection HR as _ ->. exists id, (Ok sn), u. by rewrite EF.
  - destruct (fn id (Err e0) u) as [u1 [e1|]] eqn:EF; [|by eapply IH].
    injection HR as _ ->. exists id, (Err e0), u. by rewrite EF.
Qed.

Lemma abs_targets_err targets e : abs_targets IsAbs Abs Clean targets = Err e -> e = RMsg "Abs".
Proof.
  revert e. induction targets as [|t targets IH]; intros e; [done|]. cbn [abs_targets].
  destruct (negb (IsAbs t)); [destruct (Abs t); [|by intros [= <-]]|]; cbn [mbind res_bind];
    destruct (abs_targets IsAbs Abs Clean targets); try done; intros [= <-]; by apply IH.
Qed.
Lemma ListIDs_err t r r' e : ListIDs be t r = (r', Err e) -> exists e0, e = RBackend e0.
Proof.
  unfold ListIDs. destruct (be_List be false t _ [] (r_be r)) as [[s ids] [e0|]]; [|done].
  intros [= _ <-]. by exists e0.
Qed.

Section search.
Context (absTargets : list string) (tagLists : list TagList) (hostnames : list string) (limit : option Time).

(** The criteria of the search; a snapshot from before the zero time is never
    found. *)
Definition acceptable (sn : Snapshot) : Prop :=
  (forall t, limit = Some t -> t_ns (s_Time sn) <= t_ns t) /\ 0 <= t_ns (s_Time sn)
  /\ HasHostname sn hostnames = true /\ HasTagList sn tagLists = true /\ HasPaths sn absTargets = true.

Definition latest_inv (l : list (ID * Snapshot)) (st : latest_state) : Prop :=
  (forall id sn, (id, sn) ∈ l -> acceptable sn -> t_ns (s_Time sn) <= t_ns (l_latest st) /\ l_found st = true)
  /\ (if l_found st then exists sn, (l_latestID st, sn) ∈ l /\ acceptable sn /\ s_Time sn = l_latest st
      else l_latest st = zeroTime).

Lemma latest_step l st id sn : latest_inv l st ->
  latest_inv (l ++ [(id, sn)]) (latest_callback absTargets tagLists hostnames limit id (Ok sn) st).1.
Proof.
  intros [H1 H2].
  assert (H0 : 0 <= t_ns (l_latest st)).
  { destruct (l_found st); [|by rewrite H2]. destruct H2 as (sn0 & _ & (_ & Hz & _) & <-). done. }
  assert (Hkeep : ¬ acceptable sn \/ (t_ns (s_Time sn) < t_ns (l_latest st) /\ (acceptable sn -> l_found st = true)) -> latest_inv (l ++ [(id, sn)]) st).
  { intros Hno. split.
    - intros id' sn' [Hin|[= -> ->]%list_elem_of_singleton]%elem_of_app Ha; [by apply (H1 id')|].
      destruct Hno as [Hno|[Hlt Hf]]; [done|]. split; [lia|auto].
    - destruct (l_found st); [|done]. destruct H2 as (sn0 & Hin & Hrest). exists sn0. rewrite elem_of_app. auto. }
  unfold latest_callback.
  destruct (match limit with Some lim => After (s_Time sn) lim | None => false end) eqn:EL.
  { apply Hkeep. left. intros (Ha & _). destruct limit as [t|]; [|done]. specialize (Ha t eq_refl).
    unfold After in EL. apply Z.ltb_lt in EL. lia. }
  destruct (Before (s_Time sn) (l_latest st)) eqn:EB.
  { apply Hkeep. right. unfold Before in EB. apply Z.ltb_lt in EB. split; [done|]. intros Ha.
    destruct (l_found st); [done|]. rewrite H2 in EB. destruct Ha as (_ & Hz & _). cbn in EB. lia. }
  unfold Before in EB. apply Z.ltb_ge in EB.
  destruct (HasHostname sn hostnames) eqn:EH; cbn [negb]; [|apply Hkeep; left; intros (_ & _ & ? & _); congruence].
  destruct (HasTagList sn tagLists) eqn:ET; cbn [negb]; [|apply Hkeep; left; intros (_ & _ & _ & ? & _); congruence].
  destruct (HasPaths sn absTargets) eqn:EP; cbn [negb fst]; [|apply Hkeep; left; intros (_ & _ & _ & _ & ?); congruence].
  split; cbn [l_latest l_latestID l_found].
  - intros id' sn' [Hin|[= -> ->]%list_elem_of_singleton]%elem_of_app Ha; [|split; [lia|done]].
    destruct (H1 id' sn' Hin Ha). split; [lia|done].
  - exists sn. split; [apply elem_of_app; right; by apply list_elem_of_singleton|]. split; [|done].
    split; [|split; [lia|done]]. intros t ->. unfold After in EL. by apply Z.ltb_ge in EL.
Qed.

Lemma latest_fold l : latest_inv l
  (run_callback (latest_callback absTargets tagLists hostnames limit) l (mkLatest zeroTime nullID false)).
Proof.
  induction l as [|[id sn] l IH] using rev_ind.
  - split; [by intros ? ? ?%elem_of_nil|done].
  - unfold run_callback in *. rewrite fold_left_app. by apply latest_step.
Qed.
End search.

(** the latest snapshot.  When [FindLatestSnapshot] returns an ID, every
    listed snapshot was loaded from a file with the listed hash, in whatever
    order, and the ID is that of one that meets all criteria and is not older
    than any other that does; it reports that there is none only if none of
    the listed snapshots meets them. *)
Theorem FindLatestSnapshot_spec (targets : list string) (tagLists : list TagList) (hostnames : list string)
    (limit : option Time) (r r' : Repo S) (x : res repo_error ID) :
  FindLatestSnapshot be Hash key IsAbs Abs Clean targets tagLists hostnames limit r = (r', x) ->
  match x with
  | Ok id => exists abs r1 ids l sn, abs_targets IsAbs Abs Clean targets = Ok abs
      /\ ListIDs be SnapshotFile r = (r1, Ok ids) /\ map fst l = map fst ids /\ Forall stored_as l
      /\ (id, sn) ∈ l /\ acceptable abs tagLists hostnames limit sn
      /\ forall id' sn', (id', sn') ∈ l -> acceptable abs tagLists hostnames limit sn' -> t_ns (s_Time sn') <= t_ns (s_Time sn)
  | Err e => e = RMsg "no snapshot found" ->
      exists abs r1 ids l, abs_targets IsAbs Abs Clean targets = Ok abs
      /\ ListIDs be SnapshotFile r = (r1, Ok ids) /\ map fst l = map fst ids /\ Forall stored_as l
      /\ forall id' sn', (id', sn') ∈ l -> ¬ acceptable abs tagLists hostnames limit sn'
  | Panic _ => True
  end.
Proof.
  unfold FindLatestSnapshot, ForAllSnapshots, bind, lift.
  destruct (abs_targets IsAbs Abs Clean targets) as [abs|e|m] eqn:EA;
    [|apply abs_targets_err in EA as ->; by intros [= _ <-]|by intros [= _ <-]].
  destruct (ListIDs be SnapshotFile r) as [r1 [ids|e|m]] eqn:EI;
    [|apply ListIDs_err in EI as [e0 ->]; by intros [= _ <-]|by intros [= _ <-]].
  destruct (for_all_ids be Hash key ids ∅ _ _ r1) as [r2 [st|e|m]] eqn:EF; [| |by intros [= _ <-]].
  - apply for_all_ids_ok in EF as (l & H1 & H2 & ->).
    2: { intros id e u. by eexists. }
    2: { intros id sn u. unfold latest_callback. by repeat case_match. }
    destruct (latest_fold abs tagLists hostnames limit l) as [HA HB].
    destruct (l_found _) eqn:EFound; cbn [negb]; intros [= _ <-].
    + destruct HB as (sn & Hin & Hacc & Ht). exists abs, r1, ids, l, sn. do 6 (split; [done|]).
      intros id' sn' Hin' Ha. rewrite Ht. by apply (HA id').
    + intros _. exists abs, r1, ids, l. do 4 (split; [done|]). intros id' sn' Hin Ha.
      by destruct (HA id' sn' Hin Ha).
  - intros [= _ <-] ->. exfalso. apply for_all_ids_err in EF as (id & sn & u & EC).
    unfold latest_callback in EC. by repeat case_match.
Qed.
End latest.

(** ** Concrete inputs *)

(** One byte gives the time of a snapshot. *)
Definition toy_snap_codec : SnapshotCodec := {| snap_decode buf :=
  match buf with
  | [b] => Some (mkSnapshot (mkTime (byte_Z b) 0) None None (Some ["/srv"]%string) "host" "user" 0 0 None (Some ["daily"]%string) None None)
  | _ => None
  end |}.
Definition toy_snapshots : Repo Mem.memMap * res repo_error ID :=
  (SaveUnpacked toy_mem (CP := plain_prims) toy_hash toy_nonces toy_key SnapshotFile [Byte.x09];;;
   SaveUnpacked toy_mem (CP := plain_prims) toy_hash toy_nonces toy_key SnapshotFile [Byte.x05]) toy_repo.
Definition toy_latest : Repo Mem.memMap * res repo_error ID :=
  FindLatestSnapshot toy_mem (CP := plain_prims) (SC := toy_snap_codec) toy_hash toy_key (fun _ => true) Some (fun s => s)
    ["/srv"]%string [["daily"]%string] [] (Some (mkTime 7 0)) toy_snapshots.1.

Lemma FindLatestSnapshot_spec_witness :
  exists id sn, toy_latest.2 = Ok id /\ stored_as (CP := plain_prims) (SC := toy_snap_codec) toy_hash toy_key (id, sn)
    /\ acceptable ["/srv"]%string [["daily"]%string] [] (Some (mkTime 7 0)) sn.
Proof.
  assert (HE : exists id, toy_latest.2 = Ok id) by (vm_compute; eexists; reflexivity).
  destruct HE as [id HE].
  assert (HR : toy_latest = (toy_latest.1, Ok id)) by (rewrite <- HE; by destruct toy_latest).
  unfold toy_latest at 1 in HR.
  apply (FindLatestSnapshot_spec toy_mem (CP := plain_prims) (SC := toy_snap_codec)) in HR
    as (abs & r1 & ids & l & sn & Habs & _ & _ & Hl & Hin & Ha & _).
  injection Habs as <-. exists id, sn. split; [exact HE|]. split; [|exact Ha].
  rewrite Forall_forall in Hl. exact (Hl _ Hin).
Defined.
