(* ===== verification/Policy.v ===== *)
(** * Policy: which snapshots to keep

    src/restic/snapshot_policy.go.  [ApplyPolicy] walks the snapshots from the
    newest to the oldest with a counter and the last period number per rule.
    The order of snapshots with the same time is left to [sort.Sort], a
    parameter; the current time is an argument. *)

From S2P Require Import Prelude Ids Duration Snapshots.

(** ** Policies *)

Record ExpirePolicy : Type := mkPolicy {
  p_Last : Z; p_Hourly : Z; p_Daily : Z; p_Weekly : Z; p_Monthly : Z; p_Yearly : Z;
  p_Within : Duration; p_WithinHourly : Duration; p_WithinDaily : Duration; p_WithinWeekly : Duration;
  p_WithinMonthly : Duration; p_WithinYearly : Duration;
  p_Tags : list TagList;
}.

Definition Sum (e : ExpirePolicy) : Z :=
  i64 (p_Last e + p_Hourly e + p_Daily e + p_Weekly e + p_Monthly e + p_Yearly e).

Definition Empty (e : ExpirePolicy) : bool :=
  if negb (bool_decide (length (p_Tags e) = 0%nat)) then false
  else (p_Last e =? 0) && (p_Hourly e =? 0) && (p_Daily e =? 0) && (p_Weekly e =? 0) && (p_Monthly e =? 0)
    && (p_Yearly e =? 0) && Zero (p_Within e) && Zero (p_WithinHourly e) && Zero (p_WithinDaily e)
    && Zero (p_WithinWeekly e) && Zero (p_WithinMonthly e) && Zero (p_WithinYearly e).

(** ** Period numbers *)

Definition ymdh (d : Time) (_ : Z) : Z := Year d * 1000000 + Month d * 10000 + Day d * 100 + Hour d.
Definition ymd (d : Time) (_ : Z) : Z := Year d * 10000 + Month d * 100 + Day d.
Definition yw (d : Time) (_ : Z) : Z := let '(year, week) := ISOWeek d in year * 100 + week.
Definition ym (d : Time) (_ : Z) : Z := Year d * 100 + Month d.
Definition y (d : Time) (_ : Z) : Z := Year d.
Definition always (d : Time) (nr : Z) : Z := nr.

(** ** The walk *)

Definition findLatestTimestamp (now : Time) (snapshots : list Snapshot) : res unit Time :=
  if bool_decide (length snapshots = 0%nat) then Panic "list of snapshots is empty"
  else Ok (fold_left (fun latest sn =>
    if After (s_Time sn) latest && Before (s_Time sn) now then s_Time sn else latest) snapshots zeroTime).

Record bucket : Type := mkBucket { b_Count : Z; b_bucker : Time -> Z -> Z; b_Last : Z; b_reason : string }.
Record bucketWithin : Type := mkWithin { w_Within : Duration; w_bucker : Time -> Z -> Z; w_Last : Z; w_reason : string }.

Definition buckets (p : ExpirePolicy) : list bucket := [
  mkBucket (p_Last p) always (-1) "last snapshot";
  mkBucket (p_Hourly p) ymdh (-1) "hourly snapshot";
  mkBucket (p_Daily p) ymd (-1) "daily snapshot";
  mkBucket (p_Weekly p) yw (-1) "weekly snapshot";
  mkBucket (p_Monthly p) ym (-1) "monthly snapshot";
  mkBucket (p_Yearly p) y (-1) "yearly snapshot"].
Definition bucketsWithin (p : ExpirePolicy) : list bucketWithin := [
  mkWithin (p_WithinHourly p) ymdh (-1) "hourly within";
  mkWithin (p_WithinDaily p) ymd (-1) "daily within";
  mkWithin (p_WithinWeekly p) yw (-1) "weekly within";
  mkWithin (p_WithinMonthly p) ym (-1) "monthly within";
  mkWithin (p_WithinYearly p) y (-1) "yearly within"].

Record KeepReason : Type := mkReason {
  kr_Snapshot : Snapshot;
  kr_Matches : list string;
  kr_Counters : list Z;
}.

(** [latest] less a duration. *)
Definition time_before (latest : Time) (d : Duration) : Time :=
  Add (AddDate latest (- d_Years d) (- d_Months d) (- d_Days d)) (i64 (Hour_ns * (- d_Hours d))).

Definition dstring (d : Duration) : string := string_of (Duration_String d).

(** One bucket at one snapshot: its new state, and the reason if it keeps it. *)
Definition bucket_step (cur : Snapshot) (nr : Z) (b : bucket) : bucket * list string :=
  if 0 <? b_Count b then
    let val := b_bucker b (s_Time cur) nr in
    if negb (val =? b_Last b) then (mkBucket (b_Count b - 1) (b_bucker b) val (b_reason b), [b_reason b])
    else (b, [])
  else (b, []).
Definition within_step (latest : Time) (cur : Snapshot) (nr : Z) (b : bucketWithin) : bucketWithin * list string :=
  if negb (Zero (w_Within b)) then
    if After (s_Time cur) (time_before latest (w_Within b)) then
      let val := w_bucker b (s_Time cur) nr in
      if negb (val =? w_Last b)
      then (mkWithin (w_Within b) (w_bucker b) val (w_reason b), [(w_reason b ++ " " ++ dstring (w_Within b))%string])
      else (b, [])
    else (b, [])
  else (b, []).

(** [keepSnap] is set exactly where a reason is appended. *)
Fixpoint policy_loop (p : ExpirePolicy) (latest : Time) (nr : Z) (snapshots : list Snapshot) (bs : list bucket)
  (ws : list bucketWithin) (keep remove : list Snapshot) (reasons : list KeepReason)
  : list Snapshot * list Snapshot * list KeepReason :=
  match snapshots with
  | [] => (keep, remove, reasons)
  | cur :: snapshots =>
      let r_tags := map (fun l => "has tags " ++ TagList_String l)%string (filter (fun l => HasTags cur l = true) (p_Tags p)) in
      let r_within :=
        if negb (Zero (p_Within p)) && After (s_Time cur) (time_before latest (p_Within p))
        then ["within " ++ dstring (p_Within p)]%string else [] in
      let rb := map (bucket_step cur nr) bs in
      let rw := map (within_step latest cur nr) ws in
      let keepSnapReasons := r_tags ++ r_within ++ concat (map snd rb) ++ concat (map snd rw) in
      let bs := map fst rb in
      let ws := map fst rw in
      let keepSnap := negb (bool_decide (length keepSnapReasons = 0%nat)) in
      if keepSnap
      then policy_loop p latest (nr + 1) snapshots bs ws (keep ++ [cur]) remove
             (reasons ++ [mkReason cur keepSnapReasons (map b_Count bs)])
      else policy_loop p latest (nr + 1) snapshots bs ws keep (remove ++ [cur]) reasons
  end.

Section apply.
(** [sort.Sort] by [Less]: the newest first. *)
Context (sort : list Snapshot -> list Snapshot).

Definition Snapshots_Less (a b : Snapshot) : bool := After (s_Time a) (s_Time b).

Definition ApplyPolicy (now : Time) (snapshots : list Snapshot) (p : ExpirePolicy)
  : res unit (list Snapshot * list Snapshot * list KeepReason) :=
  let l := sort snapshots in
  if Empty p then Ok (l, [], map (fun sn => mkReason sn ["policy is empty"%string] (repeat 0 6)) l)
  else if bool_decide (length l = 0%nat) then Ok (l, [], [])
  else
    latest ← findLatestTimestamp now l;
    Ok (policy_loop p latest 0 l (buckets p) (bucketsWithin p) [] [] []).
End apply.

Lemma omap_cons_eq {A B} (f : A -> option B) x l :
  omap f (x :: l) = match f x with Some y => y :: omap f l | None => omap f l end.
Proof. done. Qed.

(** ** What the policy promises

    On the list sorted from the newest, a snapshot starts a period if its
    period number differs from the one before it. *)

Section spec.
Context (l : list Snapshot).

Definition period (bk : Time -> Z -> Z) (nr : nat) : Z :=
  match l !! nr with Some sn => bk (s_Time sn) (Z.of_nat nr) | None => -1 end.
Definition prev_period (bk : Time -> Z -> Z) (nr : nat) : Z :=
  match nr with O => -1 | S k => period bk k end.
Definition starts (bk : Time -> Z -> Z) (nr : nat) : bool := negb (period bk nr =? prev_period bk nr).
(** The number of periods started before a position. *)
Definition rank (bk : Time -> Z -> Z) (nr : nat) : Z := lenZ (filter (fun k => starts bk k = true) (seq 0 nr)).

Definition by_count (b : bucket) (nr : nat) : bool := starts (b_bucker b) nr && (rank (b_bucker b) nr <? b_Count b).
Definition is_after (nr : nat) (t : Time) : bool :=
  match l !! nr with Some sn => After (s_Time sn) t | None => false end.
Definition by_within (latest : Time) (w : bucketWithin) (nr : nat) : bool :=
  negb (Zero (w_Within w)) && is_after nr (time_before latest (w_Within w)) && starts (w_bucker w) nr.

Definition count_at (nr : nat) (b : bucket) : Z :=
  if 0 <? b_Count b then Z.max 0 (b_Count b - rank (b_bucker b) nr) else b_Count b.

(** All reasons to keep the snapshot at a position. *)
Definition reasons_for (p : ExpirePolicy) (latest : Time) (nr : nat) : list string :=
  match l !! nr with
  | None => []
  | Some sn =>
      map (fun t => "has tags " ++ TagList_String t)%string (filter (fun t => HasTags sn t = true) (p_Tags p))
      ++ (if negb (Zero (p_Within p)) && is_after nr (time_before latest (p_Within p))
          then ["within " ++ dstring (p_Within p)]%string else [])
      ++ concat (map (fun b => if by_count b nr then [b_reason b] else []) (buckets p))
      ++ concat (map (fun w => if by_within latest w nr then [(w_reason w ++ " " ++ dstring (w_Within w))%string] else [])
           (bucketsWithin p))
  end.
Definition kept (p : ExpirePolicy) (latest : Time) (nr : nat) : bool :=
  negb (bool_decide (reasons_for p latest nr = [])).

Definition kept_at (p : ExpirePolicy) (latest : Time) (nr : nat) : option Snapshot :=
  if kept p latest nr then l !! nr else None.
Definition removed_at (p : ExpirePolicy) (latest : Time) (nr : nat) : option Snapshot :=
  if kept p latest nr then None else l !! nr.
Definition reason_at (p : ExpirePolicy) (latest : Time) (nr : nat) : option KeepReason :=
  sn ← kept_at p latest nr; Some (mkReason sn (reasons_for p latest nr) (map (count_at (S nr)) (buckets p))).

(** The state of a bucket before a position. *)
Definition bucket_ok (nr : nat) (b0 b : bucket) : Prop :=
  b_bucker b = b_bucker b0 /\ b_reason b = b_reason b0 /\ b_Count b = count_at nr b0
  /\ (0 < b_Count b -> b_Last b = prev_period (b_bucker b) nr).
Definition within_ok (latest : Time) (nr : nat) (w0 w : bucketWithin) : Prop :=
  w_Within w = w_Within w0 /\ w_bucker w = w_bucker w0 /\ w_reason w = w_reason w0
  /\ (Zero (w_Within w0) = false -> nr = 0%nat \/ is_after (nr - 1) (time_before latest (w_Within w0)) = true ->
      w_Last w = prev_period (w_bucker w0) nr).

Definition newest_first : Prop :=
  forall i j a b, (i < j)%nat -> l !! i = Some a -> l !! j = Some b -> After (s_Time b) (s_Time a) = false.

Lemma rank_S bk nr : rank bk (S nr) = rank bk nr + (if starts bk nr then 1 else 0).
Proof.
  unfold rank. rewrite seq_S, filter_app, filter_cons, filter_nil, length_app. cbn [Nat.add].
  destruct (starts bk nr); [rewrite decide_True by done|rewrite decide_False by done]; simpl; lia.
Qed.
Lemma rank_nonneg bk nr : 0 <= rank bk nr.
Proof. unfold rank. lia. Qed.

Lemma bucket_step_ok nr cur b0 b : l !! nr = Some cur -> bucket_ok nr b0 b ->
  bucket_ok (S nr) b0 (bucket_step cur (Z.of_nat nr) b).1
  /\ (bucket_step cur (Z.of_nat nr) b).2 = (if by_count b0 nr then [b_reason b0] else []).
Proof.
  intros Hcur (Hbk & Hre & Hc & HL). unfold bucket_step, by_count, bucket_ok, count_at in *.
  pose proof (rank_nonneg (b_bucker b0) nr) as Hr. rewrite rank_S. rewrite Hbk in HL.
  assert (Hp : period (b_bucker b0) nr = b_bucker b0 (s_Time cur) (Z.of_nat nr)) by (unfold period; by rewrite Hcur).
  assert (Hst : starts (b_bucker b0) nr = negb (b_bucker b0 (s_Time cur) (Z.of_nat nr) =? prev_period (b_bucker b0) nr))
    by (unfold starts; by rewrite Hp).
  destruct (Z.ltb_spec 0 (b_Count b)) as [Hpos|Hpos].
  - assert (H0 : 0 < b_Count b0) by (destruct (Z.ltb_spec 0 (b_Count b0)); lia).
    rewrite (proj2 (Z.ltb_lt 0 (b_Count b0)) H0) in *. rewrite Hbk, (HL Hpos), <- Hst.
    rewrite (proj2 (Z.ltb_lt (rank (b_bucker b0) nr) (b_Count b0))) by lia. rewrite andb_true_r.
    destruct (starts (b_bucker b0) nr) eqn:Es; cbn [fst snd b_bucker b_reason b_Count b_Last].
    + split; [|by rewrite Hre]. do 2 (split; [done|]). split; [lia|]. intros _. cbn [prev_period]. by rewrite Hp.
    + split; [|done]. do 2 (split; [done|]). split; [lia|]. intros _. rewrite Hbk, (HL Hpos). cbn [prev_period].
      unfold starts in Es. apply negb_false_iff, Z.eqb_eq in Es. by rewrite Es.
  - assert (Hb : starts (b_bucker b0) nr && (rank (b_bucker b0) nr <? b_Count b0) = false).
    { destruct (Z.ltb_spec 0 (b_Count b0)); apply andb_false_intro2, Z.ltb_ge; lia. }
    rewrite Hb. split; [|done]. do 2 (split; [done|]). split; [|simpl; lia]. simpl.
    destruct (Z.ltb_spec 0 (b_Count b0)); [|done]. destruct (starts (b_bucker b0) nr); lia.
Qed.

Lemma bucket_init b : b_Last b = -1 -> bucket_ok 0 b b.
Proof.
  intros HL. do 2 (split; [done|]). split; [|done]. unfold count_at, rank. cbn [seq]. rewrite filter_nil. cbn [length].
  destruct (Z.ltb_spec 0 (b_Count b)); lia.
Qed.
Lemma within_init latest w : w_Last w = -1 -> within_ok latest 0 w w.
Proof. intros HL. do 3 (split; [done|]). done. Qed.

Lemma is_after_mono i j t : newest_first -> (i < j)%nat -> is_after j t = true -> is_after i t = true.
Proof.
  unfold is_after. intros Hs Hij. destruct (l !! j) as [b|] eqn:Hj; [|done].
  assert (i < length l)%nat as [a Ha]%lookup_lt_is_Some by (apply lookup_lt_Some in Hj; lia).
  rewrite Ha. specialize (Hs i j a b Hij Ha Hj). unfold After in *. rewrite Z.ltb_ge in Hs. rewrite !Z.ltb_lt. lia.
Qed.

Lemma within_step_ok latest nr cur w0 w : newest_first -> l !! nr = Some cur -> within_ok latest nr w0 w ->
  within_ok latest (S nr) w0 (within_step latest cur (Z.of_nat nr) w).1
  /\ (within_step latest cur (Z.of_nat nr) w).2
     = (if by_within latest w0 nr then [(w_reason w0 ++ " " ++ dstring (w_Within w0))%string] else []).
Proof.
  intros Hs Hcur (HW & Hbk & Hre & HL). unfold within_step, by_within, within_ok.
  assert (Hp : period (w_bucker w0) nr = w_bucker w0 (s_Time cur) (Z.of_nat nr)) by (unfold period; by rewrite Hcur).
  assert (Ha : is_after nr (time_before latest (w_Within w0)) = After (s_Time cur) (time_before latest (w_Within w0)))
    by (unfold is_after; by rewrite Hcur).
  replace (S nr - 1)%nat with nr by lia. rewrite HW, Hbk, Ha.
  destruct (Zero (w_Within w0)) eqn:EZ; cbn [negb andb]; [done|].
  destruct (After (s_Time cur) (time_before latest (w_Within w0))) eqn:EA; cbn [andb].
  2: { split; [|done]. do 3 (split; [done|]). by intros _ [?|?]. }
  assert (HLast : w_Last w = prev_period (w_bucker w0) nr).
  { apply HL; [done|]. destruct nr as [|nr]; [by left|right].
    apply (is_after_mono _ (S nr)); [done|lia|]. by rewrite Ha. }
  assert (Hst : starts (w_bucker w0) nr = negb (w_bucker w0 (s_Time cur) (Z.of_nat nr) =? w_Last w))
    by (unfold starts; by rewrite Hp, HLast).
  rewrite <- Hst. destruct (starts (w_bucker w0) nr) eqn:Es; cbn [fst snd w_Within w_bucker w_reason w_Last].
  - split; [|by rewrite Hre]. do 3 (split; [done|]). intros _ _. cbn [prev_period]. by rewrite Hp.
  - split; [|done]. do 3 (split; [done|]). intros _ _. cbn [prev_period]. rewrite HLast.
    unfold starts in Es. apply negb_false_iff, Z.eqb_eq in Es. by rewrite Es.
Qed.

(** The walk from a position on. *)
Lemma policy_loop_spec p latest post : newest_first -> forall pre bs ws keep remove reasons,
  l = pre ++ post -> Forall2 (bucket_ok (length pre)) (buckets p) bs ->
  Forall2 (within_ok latest (length pre)) (bucketsWithin p) ws ->
  policy_loop p latest (lenZ pre) post bs ws keep remove reasons
  = (keep ++ omap (kept_at p latest) (seq (length pre) (length post)),
     remove ++ omap (removed_at p latest) (seq (length pre) (length post)),
     reasons ++ omap (reason_at p latest) (seq (length pre) (length post))).
Proof.
  intros Hs. induction post as [|cur post IH]; intros pre bs ws keep remove reasons Hl Hb Hw; cbn [policy_loop].
  { cbn [length seq omap list_omap]. by rewrite !app_nil_r. }
  assert (Hcur : l !! length pre = Some cur) by (rewrite Hl; by apply list_lookup_middle).
  assert (Hb1 : map snd (map (bucket_step cur (lenZ pre)) bs)
     = map (fun b => if by_count b (length pre) then [b_reason b] else []) (buckets p)
     /\ Forall2 (bucket_ok (length (pre ++ [cur]))) (buckets p) (map fst (map (bucket_step cur (lenZ pre)) bs))).
  { rewrite length_app, Nat.add_1_r. clear - Hb Hcur.
    induction Hb as [|b0 b l0 l1 H _ [IH1 IH2]]; [done|]. cbn [map].
    destruct (bucket_step_ok _ _ _ _ Hcur H) as [H1 H2]. rewrite H2, IH1. split; [done|by constructor]. }
  assert (Hw1 : map snd (map (within_step latest cur (lenZ pre)) ws)
     = map (fun w => if by_within latest w (length pre) then [(w_reason w ++ " " ++ dstring (w_Within w))%string] else []) (bucketsWithin p)
     /\ Forall2 (within_ok latest (length (pre ++ [cur]))) (bucketsWithin p) (map fst (map (within_step latest cur (lenZ pre)) ws))).
  { rewrite length_app, Nat.add_1_r. clear - Hw Hcur Hs.
    induction Hw as [|b0 b l0 l1 H _ [IH1 IH2]]; [done|]. cbn [map].
    destruct (within_step_ok _ _ _ _ _ Hs Hcur H) as [H1 H2]. rewrite H2, IH1. split; [done|by constructor]. }
  destruct Hb1 as [Hb1 Hb2], Hw1 as [Hw1 Hw2]. rewrite Hb1, Hw1.
  assert (Hr : reasons_for p latest (length pre) =
     map (fun l => "has tags " ++ TagList_String l)%string (filter (fun l => HasTags cur l = true) (p_Tags p))
     ++ (if negb (Zero (p_Within p)) && After (s_Time cur) (time_before latest (p_Within p))
         then ["within " ++ dstring (p_Within p)]%string else [])
     ++ concat (map (fun b => if by_count b (length pre) then [b_reason b] else []) (buckets p))
     ++ concat (map (fun w => if by_within latest w (length pre) then [(w_reason w ++ " " ++ dstring (w_Within w))%string] else [])
           (bucketsWithin p))) by (unfold reasons_for, is_after; by rewrite Hcur).
  rewrite <- Hr.
  assert (Hcount : map b_Count (map fst (map (bucket_step cur (lenZ pre)) bs)) = map (count_at (S (length pre))) (buckets p)).
  { rewrite length_app, Nat.add_1_r in Hb2. clear - Hb2. induction Hb2 as [|b0 b l0 l1 (_ & _ & H & _) _ IH]; [done|].
    cbn [map]. by rewrite IH, H. }
  assert (Hlen : lenZ pre + 1 = lenZ (pre ++ [cur])) by (rewrite length_app; simpl; lia).
  assert (Hk : kept p latest (length pre) = negb (bool_decide (length (reasons_for p latest (length pre)) = 0%nat))).
  { unfold kept. f_equal. apply bool_decide_ext. symmetry. apply length_zero_iff_nil. }
  rewrite Hcount, Hlen, <- Hk. cbn [length seq].
  assert (Hk1 : kept_at p latest (length pre) = if kept p latest (length pre) then Some cur else None)
    by (unfold kept_at; by rewrite Hcur).
  assert (Hk2 : removed_at p latest (length pre) = if kept p latest (length pre) then None else Some cur)
    by (unfold removed_at; by rewrite Hcur).
  assert (Hk3 : reason_at p latest (length pre) = if kept p latest (length pre)
    then Some (mkReason cur (reasons_for p latest (length pre)) (map (count_at (S (length pre))) (buckets p))) else None)
    by (unfold reason_at; rewrite Hk1; by destruct (kept p latest (length pre))).
  rewrite !omap_cons_eq, Hk1, Hk2, Hk3.
  destruct (kept p latest (length pre));
    (rewrite IH; [|by rewrite <- app_assoc|done|done]);
    by rewrite (length_app pre [cur]), Nat.add_1_r, <- !app_assoc.
Qed.
End spec.

(** ** The latest time stamp *)

Lemma timestamp_fold now l : forall t0,
  let t := fold_left (fun latest sn => if After (s_Time sn) latest && Before (s_Time sn) now then s_Time sn else latest) l t0 in
  (t = t0 \/ exists sn, sn ∈ l /\ s_Time sn = t /\ t_ns t < t_ns now)
  /\ t_ns t0 <= t_ns t
  /\ forall sn, sn ∈ l -> t_ns (s_Time sn) < t_ns now -> t_ns (s_Time sn) <= t_ns t.
Proof.
  induction l as [|sn l IH]; intros t0; cbn [fold_left].
  { split; [by left|]. split; [lia|]. by intros sn ?%elem_of_nil. }
  set (t1 := if After (s_Time sn) t0 && Before (s_Time sn) now then s_Time sn else t0).
  destruct (IH t1) as (H1 & H2 & H3). cbv zeta in *.
  set (t := fold_left _ l t1) in *.
  assert (Ht1 : (t1 = t0 \/ (t1 = s_Time sn /\ t_ns (s_Time sn) < t_ns now)) /\ t_ns t0 <= t_ns t1
     /\ (t_ns (s_Time sn) < t_ns now -> t_ns (s_Time sn) <= t_ns t1)).
  { unfold t1, After, Before. destruct (Z.ltb_spec (t_ns t0) (t_ns (s_Time sn))), (Z.ltb_spec (t_ns (s_Time sn)) (t_ns now));
      cbn [andb]; (split; [auto|split; lia]). }
  clearbody t1 t. destruct Ht1 as (Ha & Hb & Hc). split; [|split].
  - destruct H1 as [->|(sn' & Hin & Hs & Hn)]; [|right; exists sn'; split; [by right|done]].
    destruct Ha as [->|[-> Hn]]; [by left|right]. exists sn. split; [by left|done].
  - lia.
  - intros sn' [->|Hin]%elem_of_cons Hn; [specialize (Hc Hn); lia|by apply H3].
Qed.

(** ** Properties *)

Section properties.
Context (sort : list Snapshot -> list Snapshot).
Context (sort_perm : forall l, sort l ≡ₚ l) (sort_sorted : forall l, newest_first (sort l)).

Lemma ApplyPolicy_value now snapshots p : Empty p = false ->
  exists latest, (sort snapshots ≠ [] -> findLatestTimestamp now (sort snapshots) = Ok latest)
  /\ ApplyPolicy sort now snapshots p =
     Ok (omap (kept_at (sort snapshots) p latest) (seq 0 (length (sort snapshots))),
         omap (removed_at (sort snapshots) p latest) (seq 0 (length (sort snapshots))),
         omap (reason_at (sort snapshots) p latest) (seq 0 (length (sort snapshots)))).
Proof.
  intros HE. unfold ApplyPolicy. rewrite HE. destruct (decide (sort snapshots = [])) as [->|Hne].
  { exists zeroTime. by split. }
  assert (HL : (length (sort snapshots) ≠ 0)%nat) by (by intros ?%nil_length_inv).
  unfold findLatestTimestamp. rewrite !(bool_decide_eq_false_2 (length _ = 0%nat)) by done.
  eexists. split; [done|]. cbn [mbind res_bind]. f_equal.
  rewrite (policy_loop_spec (sort snapshots) p _ (sort snapshots) (sort_sorted _) []); [done|done|..].
  - repeat (apply List.Forall2_cons; [by apply bucket_init|]). apply List.Forall2_nil.
  - repeat (apply List.Forall2_cons; [by apply within_init|]). apply List.Forall2_nil.
Qed.

(** Filtering positions of a list by a test splits it. *)
Lemma omap_positions {A} (f : nat -> bool) (l : list A) n :
  omap (fun i => if f i then l !! i else None) (seq n (length l - n))
  ++ omap (fun i => if f i then None else l !! i) (seq n (length l - n)) ≡ₚ drop n l.
Proof.
  remember (length l - n)%nat as m eqn:Hm. revert n Hm. induction m as [|m IH]; intros n Hm.
  { cbn [seq]. by rewrite drop_ge by lia. }
  destruct (lookup_lt_is_Some_2 l n) as [x Hx]; [lia|].
  cbn [seq]. rewrite !omap_cons_eq, Hx. rewrite (drop_S _ _ _ Hx), <- (IH (Datatypes.S n)) by lia.
  destruct (f n); [done|]. by rewrite <- Permutation_middle.
Qed.

Lemma elem_of_kept l p latest sn : sn ∈ omap (kept_at l p latest) (seq 0 (length l)) <->
  exists i, l !! i = Some sn /\ kept l p latest i = true.
Proof.
  rewrite list_elem_of_omap. unfold kept_at. split.
  - intros (i & _ & Hi). exists i. by destruct (kept l p latest i).
  - intros (i & Hi & Hk). exists i. rewrite Hk, Hi. split; [|done].
    apply elem_of_seq. apply lookup_lt_Some in Hi. lia.
Qed.

(** A count rule keeps at most its count. *)
Lemma by_count_bound l b n :
  lenZ (filter (fun i => by_count l b i = true) (seq 0 n)) <= Z.max 0 (Z.min (b_Count b) (rank l (b_bucker b) n)).
Proof.
  induction n as [|n IH]; [unfold rank; simpl; lia|].
  rewrite rank_S, seq_S, filter_app, length_app, filter_cons, filter_nil. cbn [Nat.add].
  pose proof (rank_nonneg l (b_bucker b) n).
  assert (Hbc : by_count l b n = starts l (b_bucker b) n && (rank l (b_bucker b) n <? b_Count b)) by done.
  destruct (by_count l b n); [rewrite decide_True by done|rewrite decide_False by done];
    destruct (starts l (b_bucker b) n), (Z.ltb_spec (rank l (b_bucker b) n) (b_Count b)); simpl in *; lia || done.
Qed.

Lemma reasons_by_count l p latest i : p_Tags p = [] -> Zero (p_Within p) = true ->
  (forall w, w ∈ bucketsWithin p -> Zero (w_Within w) = true) ->
  kept l p latest i = true -> exists b, b ∈ buckets p /\ by_count l b i = true.
Proof.
  intros Ht Hz Hw. unfold kept, reasons_for. destruct (l !! i); [|done].
  rewrite Ht, Hz, filter_nil. cbn [negb andb map app].
  replace (concat (map _ (bucketsWithin p))) with (@nil string).
  2: { symmetry. apply concat_nil_Forall, Forall_map, Forall_forall. intros w Hin. unfold by_within. by rewrite Hw. }
  rewrite app_nil_r. intros Hk. apply negb_true_iff, bool_decide_eq_false in Hk.
  destruct (existsb (fun b => by_count l b i) (buckets p)) eqn:EX.
  - apply existsb_exists in EX as (b & Hin & Hb). exists b. split; [by apply list_elem_of_In|done].
  - exfalso. apply Hk, concat_nil_Forall, Forall_map, Forall_forall. intros b Hin.
    destruct (by_count l b i) eqn:E; [|done]. rewrite (proj2 (existsb_exists _ _)) in EX; [done|].
    exists b. split; [by apply list_elem_of_In|done].
Qed.

Lemma kept_tags l p latest i sn t : l !! i = Some sn -> t ∈ p_Tags p -> HasTags sn t = true -> kept l p latest i = true.
Proof.
  intros Hi Ht Hh. unfold kept, reasons_for. rewrite Hi. apply negb_true_iff, bool_decide_eq_false.
  intros [Hn _]%app_nil. apply map_eq_nil in Hn.
  assert (Hin : t ∈ filter (fun t => HasTags sn t = true) (p_Tags p)) by by apply list_elem_of_filter.
  rewrite Hn in Hin. by apply elem_of_nil in Hin.
Qed.

(** For the rule of the last snapshots each one starts a period. *)
Lemma starts_always l i : (i < length l)%nat -> starts l always i = true.
Proof.
  intros Hi. unfold starts. apply negb_true_iff, Z.eqb_neq.
  assert (Hp : forall k, (k < length l)%nat -> period l always k = Z.of_nat k).
  { intros k Hk. unfold period. destruct (lookup_lt_is_Some_2 l k Hk) as [x ->]. done. }
  rewrite Hp by done. destruct i as [|i]; cbn [prev_period]; [lia|]. rewrite Hp by lia. lia.
Qed.
Lemma kept_last l p latest i sn : Z.of_nat i < p_Last p -> l !! i = Some sn -> kept l p latest i = true.
Proof.
  intros Hi Hl. unfold kept, reasons_for. rewrite Hl. apply negb_true_iff, bool_decide_eq_false.
  intros [_ [_ [Hn _]%app_nil]%app_nil]%app_nil.
  assert (Hb : by_count l (mkBucket (p_Last p) always (-1) "last snapshot") i = true).
  { unfold by_count. cbn [b_bucker b_Count]. rewrite starts_always by by eapply lookup_lt_Some. apply Z.ltb_lt.
    unfold rank. pose proof (length_filter (fun k => starts l always k = true) (seq 0 i)) as HF.
    rewrite length_seq in HF. lia. }
  unfold buckets in Hn. cbn [map concat] in Hn. by rewrite Hb in Hn.
Qed.

Lemma length_omap_bound {A} (f : nat -> option A) (bs : list bucket) l (ps : list nat) :
  (forall i, f i ≠ None -> exists b, b ∈ bs /\ by_count l b i = true) ->
  lenZ (omap f ps) <= foldr Z.add 0 (map (fun b => lenZ (filter (fun i => by_count l b i = true) ps)) bs).
Proof.
  intros Hf. induction ps as [|i ps IH]; [cbn [omap list_omap length]; clear; induction bs; simpl in *; lia|].
  rewrite omap_cons_eq.
  assert (Hsum : forall bs', foldr Z.add 0 (map (fun b => lenZ (filter (fun i => by_count l b i = true) ps)) bs')
    + (if existsb (fun b => by_count l b i) bs' then 1 else 0)
    <= foldr Z.add 0 (map (fun b => lenZ (filter (fun i => by_count l b i = true) (i :: ps))) bs')).
  { clear. induction bs' as [|b bs' IH]; cbn [map foldr existsb]; [lia|]. rewrite filter_cons.
    destruct (by_count l b i); cbn [orb]; [rewrite decide_True by done|rewrite decide_False by done];
      cbn [length]; destruct (existsb _ bs'); lia. }
  specialize (Hsum bs). destruct (f i) as [x|] eqn:Ei.
  - destruct (Hf i) as (b & Hb & Hbc); [by rewrite Ei|].
    rewrite (proj2 (existsb_exists (fun b => by_count l b i) bs)) in Hsum; [cbn [length]; lia|].
    exists b. split; [by apply list_elem_of_In|done].
  - destruct (existsb _ bs); lia.
Qed.

(** C28: the policy does what its rules say.  The walk with its counters
    returns, in the order of the sorted list, exactly the snapshots with a
    reason to keep them, the others as removed, and per kept snapshot all its
    reasons and the counters, where: a count rule keeps the first [Count]
    snapshots that start a new period; a within rule keeps each snapshot after
    its limit that starts a new period; tags and the plain within rule look at
    the snapshot alone.  The limits count back from the newest time stamp that
    is not in the future.  An empty policy keeps all. *)
Theorem ApplyPolicy_refines (now : Time) (snapshots : list Snapshot) (p : ExpirePolicy) :
  let l := sort snapshots in
  (Empty p = true -> exists reasons, ApplyPolicy sort now snapshots p = Ok (l, [], reasons) /\ map kr_Snapshot reasons = l)
  /\ (Empty p = false -> exists latest,
      (latest = zeroTime \/ exists sn, sn ∈ l /\ s_Time sn = latest /\ t_ns latest < t_ns now)
      /\ (forall sn, sn ∈ l -> t_ns (s_Time sn) < t_ns now -> t_ns (s_Time sn) <= t_ns latest)
      /\ ApplyPolicy sort now snapshots p =
         Ok (omap (kept_at l p latest) (seq 0 (length l)), omap (removed_at l p latest) (seq 0 (length l)),
             omap (reason_at l p latest) (seq 0 (length l)))).
Proof.
  cbv zeta. split.
  - intros HE. unfold ApplyPolicy. rewrite HE. eexists. split; [done|]. rewrite map_map. apply map_id.
  - intros HE. destruct (ApplyPolicy_value now snapshots p HE) as (latest & H1 & H2).
    destruct (decide (sort snapshots = [])) as [Hnil|Hne].
    + exists zeroTime. rewrite H2, Hnil. split; [by left|]. split; [by intros sn ?%elem_of_nil|done].
    + exists latest. specialize (H1 Hne). unfold findLatestTimestamp in H1. case_bool_decide; [done|].
      injection H1 as <-. destruct (timestamp_fold now (sort snapshots) zeroTime) as (Ha & _ & Hb). done.
Qed.

(** no snapshot is lost or invented.  The snapshots kept and removed are
    together those given; a kept snapshot has its reasons, at least one; the
    newest [Last] ones are kept, and so are those with the tags of a list; and
    without tag and within rules at most as many are kept as the counts allow
    together. *)
Theorem ApplyPolicy_keeps (now : Time) (snapshots keep remove : list Snapshot) (reasons : list KeepReason) (p : ExpirePolicy) :
  ApplyPolicy sort now snapshots p = Ok (keep, remove, reasons) ->
  keep ++ remove ≡ₚ snapshots
  /\ map kr_Snapshot reasons = keep /\ Forall (fun kr => kr_Matches kr ≠ []) reasons
  /\ (forall i sn, Z.of_nat i < p_Last p -> sort snapshots !! i = Some sn -> sn ∈ keep)
  /\ (forall sn t, sn ∈ snapshots -> t ∈ p_Tags p -> HasTags sn t = true -> sn ∈ keep)
  /\ (Empty p = false -> p_Tags p = [] -> Zero (p_Within p) = true ->
      (forall w, w ∈ bucketsWithin p -> Zero (w_Within w) = true) ->
      lenZ keep <= foldr Z.add 0 (map (fun b => Z.max 0 (b_Count b)) (buckets p))).
Proof.
  intros HA. destruct (Empty p) eqn:HE.
  { unfold ApplyPolicy in HA. rewrite HE in HA. injection HA as <- <- <-. rewrite app_nil_r, map_map.
    split; [apply sort_perm|]. split; [apply map_id|]. split; [apply Forall_map, Forall_forall; done|].
    split; [intros i sn _ Hi; by eapply list_elem_of_lookup_2|]. split; [|done]. intros sn t Hs _ _. by rewrite sort_perm. }
  destruct (ApplyPolicy_value now snapshots p HE) as (latest & _ & HV). rewrite HV in HA. injection HA as <- <- <-.
  set (l := sort snapshots). clear HV.
  assert (Hreason : forall ks, map kr_Snapshot (omap (reason_at l p latest) ks) = omap (kept_at l p latest) ks).
  { induction ks as [|k ks IH]; [done|]. rewrite !omap_cons_eq. unfold reason_at at 1.
    destruct (kept_at l p latest k); cbn [mbind option_bind map]; [cbn [kr_Snapshot]; by rewrite IH|done]. }
  split; [|split; [apply Hreason|split; [|split; [|split]]]].
  - etransitivity; [|apply sort_perm]. fold l. rewrite <- (drop_0 l) at 5.
    rewrite <- (omap_positions (kept l p latest) l 0), Nat.sub_0_r. done.
  - apply Forall_forall. intros kr (k & _ & Hk)%list_elem_of_omap. unfold reason_at, kept_at in Hk.
    destruct (kept l p latest k) eqn:EK; [|done]. destruct (l !! k) as [sn|]; [|done]. injection Hk as <-. cbn [kr_Matches].
    unfold kept in EK. by apply negb_true_iff, bool_decide_eq_false in EK.
  - intros i sn Hi Hl. apply elem_of_kept. exists i. split; [done|]. by apply (kept_last _ _ _ _ sn).
  - intros sn t Hs Ht Hh. rewrite <- sort_perm in Hs. fold l in Hs. apply list_elem_of_lookup_1 in Hs as [i Hi].
    apply elem_of_kept. exists i. split; [done|]. by apply (kept_tags _ _ _ _ sn t).
  - intros _ Ht Hz Hw. etransitivity.
    + apply (length_omap_bound _ (buckets p) l). intros i Hi. unfold kept_at in Hi.
      destruct (kept l p latest i) eqn:EK; [|done]. by eapply reasons_by_count.
    + clear. induction (buckets p) as [|b bs IH]; cbn [map foldr]; [lia|].
      pose proof (by_count_bound l b (length l)). lia.
Qed.
End properties.

(** ** A concrete policy *)

Definition newer (a b : Snapshot) : Prop := t_ns (s_Time b) <= t_ns (s_Time a).
#[global] Instance newer_dec : RelDecision newer.
Proof. intros a b. unfold newer. apply _. Defined.
Definition sort_by_time (l : list Snapshot) : list Snapshot := merge_sort newer l.

Lemma sort_by_time_sorted l : newest_first (sort_by_time l).
Proof.
  assert (HT : Transitive newer) by (intros a b c; unfold newer; lia).
  assert (Total newer) by (intros a b; unfold newer; lia).
  intros i j a b Hij Hi Hj. pose proof (StronglySorted_merge_sort newer l) as HS.
  unfold After. apply Z.ltb_ge. revert i j a b Hij Hi Hj. unfold sort_by_time. clear -HS.
  induction HS as [|x l' HS IH HF]; intros [|i] [|j] a b Hij Hi Hj; try done; try lia.
  - cbn in Hi, Hj. injection Hi as ->. rewrite Forall_forall in HF. apply HF. by eapply list_elem_of_lookup_2.
  - cbn in Hi, Hj. apply (IH i j); [lia|done|done].
Qed.
Lemma sort_by_time_perm l : sort_by_time l ≡ₚ l.
Proof. apply merge_sort_Permutation. Qed.

Definition toy_snap (day hour : Z) (tags : list string) : Snapshot :=
  mkSnapshot (Date 2020 3 day hour 0 0 0 0) None None (Some ["/srv"]%string) "host" "user" 0 0 None (Some tags) None None.
Definition toy_list : list Snapshot := [toy_snap 1 10 []; toy_snap 1 12 ["keep"]; toy_snap 2 9 []; toy_snap 2 11 []; toy_snap 3 8 []]%string.
Definition toy_policy : ExpirePolicy :=
  mkPolicy 1 0 2 0 0 0 (mkDuration 0 0 0 0) (mkDuration 0 0 0 0) (mkDuration 0 0 0 0) (mkDuration 0 0 0 0)
    (mkDuration 0 0 0 0) (mkDuration 0 0 0 0) [["keep"]]%string.

Lemma ApplyPolicy_refines_witness :
  exists keep remove reasons, ApplyPolicy sort_by_time (Date 2020 4 1 0 0 0 0 0) toy_list toy_policy = Ok (keep, remove, reasons)
  /\ length keep = 3%nat.
Proof.
  destruct (ApplyPolicy_refines sort_by_time sort_by_time_sorted (Date 2020 4 1 0 0 0 0 0) toy_list toy_policy) as [_ H].
  destruct (H eq_refl) as (latest & _ & _ & HA).
  eexists _, _, _. split; [exact HA|].
  apply (f_equal (fun x => match x with Ok (k, _, _) => length k | _ => 0%nat end)) in HA.
  rewrite <- HA. vm_compute. reflexivity.
Defined.

Lemma ApplyPolicy_keeps_witness :
  exists keep remove reasons, ApplyPolicy sort_by_time (Date 2020 4 1 0 0 0 0 0) toy_list toy_policy = Ok (keep, remove, reasons)
  /\ keep ++ remove ≡ₚ toy_list /\ toy_snap 1 12 ["keep"%string] ∈ keep.
Proof.
  destruct (ApplyPolicy sort_by_time (Date 2020 4 1 0 0 0 0 0) toy_list toy_policy) as [[[keep remove] reasons]|e|m] eqn:EA;
    [|vm_compute in EA; discriminate|vm_compute in EA; discriminate].
  exists keep, remove, reasons. split; [reflexivity|].
  destruct (ApplyPolicy_keeps sort_by_time sort_by_time_perm sort_by_time_sorted _ _ _ _ _ _ EA) as (H1 & _ & _ & _ & H2 & _).
  split; [exact H1|]. apply (H2 _ ["keep"%string]); [right; left|left|reflexivity].
Defined.
