(* ===== verification/Locks.v ===== *)
(** * Locks on a repository

    src/restic/lock.go.  The operations of one process are functions in the
    repository's monad; the interleaving of several processes is a step
    relation whose steps are the backend calls these functions make.  The host
    name, the user, the process table and the JSON text of a lock are
    parameters. *)

From S2P Require Import Prelude Crypto Ids Index MasterIndex Backend Repository Duration Snapshots.
#[local] Open Scope repo_scope.

Record Lock : Type := mkLock {
  lk_Time : Time;
  lk_Exclusive : bool;
  lk_Hostname : string;
  lk_Username : string;
  lk_PID : Z;
  lk_UID : Z;
  lk_GID : Z;
}.

Class LockCodec : Type := {
  lock_encode : Lock -> list byte;
  lock_decode : list byte -> option Lock;
}.

(** What a process knows about its surroundings; the numeric IDs of the user
    may fail to parse. *)
Record Environment : Type := mkEnv {
  env_hostname : option string;
  env_user : option (string * option (Z * Z));
  env_pid : Z;
  env_exists : Z -> bool;
}.

(** Whether another lock prevents one that is exclusive or not. *)
Definition conflicts (excl : bool) (lock : Lock) : bool :=
  if excl then true else if negb excl && lk_Exclusive lock then true else false.

Inductive lock_error : Type := LRepo (e : repo_error) | ErrAlreadyLocked (otherLock : Lock).

Definition staleTimeout : Z := 30 * 60 * Second.

Section operations.
Context {S : Type} (be : Backend S) `{CP : CryptoPrims} `{LC : LockCodec}.
Context (Hash : list byte -> ID) (nonce : nat -> list byte) (clock : nat -> Z) (key : Key) (env : Environment).

(** Operations that may also fail with a lock error. *)
Definition LM (A : Type) : Type := Repo S -> Repo S * res lock_error A.
Definition lret {A} (a : A) : LM A := fun r => (r, Ok a).
Definition lbind {A B} (m : LM A) (f : A -> LM B) : LM B := fun r =>
  match m r with
  | (r, Ok a) => f a r
  | (r, Err e) => (r, Err e)
  | (r, Panic msg) => (r, Panic msg)
  end.
Definition from_repo {A} (m : M S A) : LM A := fun r =>
  let '(r, x) := m r in (r, match x with Ok a => Ok a | Err e => Err (LRepo e) | Panic msg => Panic msg end).

Definition LoadLock (id : ID) : M S Lock :=
  buf <- LoadAndDecrypt be Hash key LockFile id;;
  match lock_decode buf with
  | Some lock => ret lock
  | None => throw (RMsg "json.Unmarshal")
  end.

Definition be_remove (h : Handle) : M S unit := fun r =>
  let '(s, err) := be_Remove be false h (r_be r) in
  (mkRepo s (r_idx r) (r_treePM r) (r_dataPM r) (r_noAutoIndexUpdate r) (r_tick r) (r_rnd r),
   match err with None => Ok tt | Some e => Err (RBackend e) end).
Definition lock_handle (id : ID) : Handle := mkBeHandle LockFile InvalidBlob (ID_String id).

(** [ForAllLocks]: the callback may itself use the backend. *)
Definition lock_callback : Type := ID -> res repo_error Lock -> LM unit.
Fixpoint for_all_lock_ids (ids : list (ID * Z)) (excludeID : option ID) (fn : lock_callback) : LM unit :=
  match ids with
  | [] => lret tt
  | (id, _) :: ids =>
      if match excludeID with Some ex => Equal id ex | None => false end then for_all_lock_ids ids excludeID fn
      else fun r =>
        match LoadLock id r with
        | (r, Panic m) => (r, Panic m)
        | (r, lock) => lbind (fn id lock) (fun _ => for_all_lock_ids ids excludeID fn) r
        end
  end.
Definition ForAllLocks (excludeID : option ID) (fn : lock_callback) : LM unit :=
  lbind (from_repo (ListIDs be LockFile)) (fun ids => for_all_lock_ids ids excludeID fn).

(** Locks that cannot be loaded are ignored. *)
Definition check_callback (excl : bool) : lock_callback := fun id lock r =>
  match lock with
  | Ok lock => if conflicts excl lock then (r, Err (ErrAlreadyLocked lock)) else (r, Ok tt)
  | _ => (r, Ok tt)
  end.
Definition checkForOtherLocks (l : Lock) (lockID : option ID) : LM unit :=
  ForAllLocks lockID (check_callback (lk_Exclusive l)).

Definition createLock (l : Lock) : LM ID :=
  from_repo (SaveUnpacked be Hash nonce key LockFile (lock_encode l)).

Definition Unlock (lockID : option ID) : LM unit :=
  match lockID with None => lret tt | Some id => from_repo (be_remove (lock_handle id)) end.

Definition new_lock_record (excl : bool) (time : Z) : res lock_error Lock :=
  let hn := default ""%string (env_hostname env) in
  match env_user env with
  | None => Ok (mkLock (mkTime time 0) excl hn "" (env_pid env) 0 0)
  | Some (user, Some (uid, gid)) => Ok (mkLock (mkTime time 0) excl hn user (env_pid env) uid gid)
  | Some (user, None) => Err (LRepo (RMsg "uidGidInt"))
  end.

(** [newLock]: the pause before the second check is not a backend call. *)
Definition newLock (excl : bool) : LM (Lock * ID) :=
  lbind (from_repo (now clock)) (fun time =>
  lbind (fun r => (r, new_lock_record excl time)) (fun lock =>
  lbind (checkForOtherLocks lock None) (fun _ =>
  lbind (createLock lock) (fun lockID => fun r =>
  match checkForOtherLocks lock (Some lockID) r with
  | (r, Ok _) => (r, Ok (lock, lockID))
  | (r, Panic m) => (r, Panic m)
  | (r, Err e) => match Unlock (Some lockID) r with (r, Panic m) => (r, Panic m) | (r, _) => (r, Err e) end
  end)))).
Definition NewLock : LM (Lock * ID) := newLock false.
Definition NewExclusiveLock : LM (Lock * ID) := newLock true.

(** [Stale] at the current time. *)
Definition Stale (time : Z) (l : Lock) : bool :=
  if staleTimeout <? time - t_ns (lk_Time l) then true
  else match env_hostname env with
       | None => false
       | Some hn =>
           if negb (bool_decide (hn = lk_Hostname l)) then false
           else if negb (env_exists env (lk_PID l)) then true
           else false
       end.

(** [Refresh] changes the lock's time even when it fails, and its ID as soon as
    the new file is written, before the old one is removed. *)
Definition Refresh (l : Lock) (lockID : ID) (r : Repo S) : Repo S * (Lock * ID) * res lock_error unit :=
  let '(r, time) := now clock r in
  match time with
  | Ok time =>
      let l := mkLock (mkTime time 0) (lk_Exclusive l) (lk_Hostname l) (lk_Username l) (lk_PID l) (lk_UID l) (lk_GID l) in
      match createLock l r with
      | (r, Ok id) => let '(r, x) := from_repo (be_remove (lock_handle lockID)) r in (r, (l, id), x)
      | (r, Err e) => (r, (l, lockID), Err e)
      | (r, Panic m) => (r, (l, lockID), Panic m)
      end
  | Err e => (r, (l, lockID), Err (LRepo e))
  | Panic m => (r, (l, lockID), Panic m)
  end.

Definition stale_callback : lock_callback := fun id lock =>
  match lock with
  | Ok lock =>
      lbind (from_repo (now clock)) (fun time =>
      if Stale time lock then from_repo (be_remove (lock_handle id)) else lret tt)
  | _ => lret tt
  end.
Definition RemoveStaleLocks : LM unit := ForAllLocks None stale_callback.

Fixpoint remove_locks (ids : list (ID * Z)) : LM unit :=
  match ids with
  | [] => lret tt
  | (id, _) :: ids => lbind (from_repo (be_remove (lock_handle id))) (fun _ => remove_locks ids)
  end.
Definition RemoveAllLocks : LM unit := lbind (from_repo (ListIDs be LockFile)) remove_locks.

End operations.

(** ** One process *)

Section facts.
Context {S : Type} (be : Backend S) `{CP : CryptoPrims} `{LC : LockCodec}.
Context (Hash : list byte -> ID) (nonce : nat -> list byte) (clock : nat -> Z) (key : Key) (env : Environment).

(** An attempt to load another lock that found no conflict. *)
Definition harmless (excl : bool) (id : ID) : Prop :=
  exists r1 r2 x, LoadLock be Hash key id r1 = (r2, x) /\ forall lock, x = Ok lock -> conflicts excl lock = false.

Lemma for_all_lock_ids_check excl ex ids : forall r r' x,
  for_all_lock_ids be Hash key ids ex (check_callback excl) r = (r', x) ->
  match x with
  | Ok _ => forall id n, (id, n) ∈ ids -> Some id ≠ ex -> harmless excl id
  | Err (ErrAlreadyLocked lock) => exists id n r1 r2, (id, n) ∈ ids /\ Some id ≠ ex
      /\ LoadLock be Hash key id r1 = (r2, Ok lock) /\ conflicts excl lock = true
  | Err (LRepo _) => False
  | Panic _ => True
  end.
Proof.
  induction ids as [|[id n] ids IH]; intros r r' x HR; cbn [for_all_lock_ids] in HR.
  { injection HR as _ <-. by intros id n ?%elem_of_nil. }
  assert (Hex : (match ex with Some ex => Equal id ex | None => false end) = bool_decide (Some id = ex)).
  { destruct ex as [e|]; [|by rewrite bool_decide_eq_false_2]. unfold Equal. apply bool_decide_ext.
    split; [by intros ->|by intros [= ->]]. }
  rewrite Hex in HR. case_bool_decide as He.
  { specialize (IH _ _ _ HR). destruct x as [[]|[e|lock]|m]; try done.
    - intros id' n' [[= -> ->]|Hin]%elem_of_cons Hne; [done|by eapply IH].
    - destruct IH as (id' & n' & r1 & r2 & Hin & Hrest). exists id', n', r1, r2. split; [by right|done]. }
  destruct (LoadLock be Hash key id r) as [r1 y] eqn:EL.
  assert (Hstep : (exists lock, y = Ok lock /\ conflicts excl lock = true /\ r' = r1 /\ x = Err (ErrAlreadyLocked lock))
    \/ (exists m, y = Panic m /\ x = Panic m)
    \/ ((forall lock, y = Ok lock -> conflicts excl lock = false)
        /\ for_all_lock_ids be Hash key ids ex (check_callback excl) r1 = (r', x))).
  { destruct y as [lock|e|m]; unfold lbind, check_callback in HR.
    - destruct (conflicts excl lock) eqn:EC.
      + left. injection HR as <- <-. by exists lock.
      + right. right. split; [by intros ? [= <-]|exact HR].
    - right. right. split; [done|exact HR].
    - right. left. injection HR as _ <-. by exists m. }
  destruct Hstep as [(lock & -> & HC & -> & ->)|[(m & -> & ->)|[HN Hrest]]]; [|done|].
  - exists id, n, r, r1. split; [by left|done].
  - specialize (IH _ _ _ Hrest). destruct x as [[]|[e|lock]|m]; try done.
    + intros id' n' [[= -> ->]|Hin]%elem_of_cons Hne; [by exists r, r1, y|by eapply IH].
    + destruct IH as (id' & n' & r2 & r3 & Hin & Hrest'). exists id', n', r2, r3. split; [by right|done].
Qed.

Lemma checkForOtherLocks_spec lock ex r r' x : checkForOtherLocks be Hash key lock ex r = (r', x) ->
  match x with
  | Ok _ => exists r1 ids, ListIDs be LockFile r = (r1, Ok ids)
      /\ forall id n, (id, n) ∈ ids -> Some id ≠ ex -> harmless (lk_Exclusive lock) id
  | Err (ErrAlreadyLocked other) => conflicts (lk_Exclusive lock) other = true
      /\ exists id r1 r2, LoadLock be Hash key id r1 = (r2, Ok other)
  | _ => True
  end.
Proof.
  unfold checkForOtherLocks, ForAllLocks, lbind, from_repo.
  destruct (ListIDs be LockFile r) as [r1 [ids|e|m]] eqn:EI; [|by intros [= _ <-]..].
  intros HF. apply for_all_lock_ids_check in HF. destruct x as [[]|[e|other]|m]; try done.
  - by exists r1, ids.
  - destruct HF as (id & n & r2 & r3 & _ & _ & HL & HC). split; [done|]. by exists id, r2, r3.
Qed.

Lemma createLock_err lock r r' e : createLock be Hash nonce key lock r = (r', Err e) -> exists e', e = LRepo e'.
Proof.
  unfold createLock, from_repo. destruct (SaveUnpacked be Hash nonce key LockFile (lock_encode lock) r) as [r1 [a|e1|m]]; [done| |done].
  intros [= _ <-]. by exists e1.
Qed.

(** C29: taking a lock.  When [newLock] returns a lock, it is of the kind asked
    for, the first check (over all locks) found no conflict, then its file was
    written, and the state returned is the one the second check left, which
    ran right after and excludes only the lock itself: nothing is removed
    after it.  In the listing of the second check, every other lock either
    could not be loaded or does not conflict (any lock conflicts with an
    exclusive one, exclusive ones with the others).  An [ErrAlreadyLocked]
    names a conflicting lock that was loaded; and when the check after the
    file was written fails, the file is removed before the error is
    returned. *)
Theorem newLock_spec (excl : bool) (r r' : Repo S) (x : res lock_error (Lock * ID)) :
  newLock be Hash nonce clock key env excl r = (r', x) ->
  match x with
  | Ok (lock, id) =>
      lk_Exclusive lock = excl /\ new_lock_record env excl (clock (r_tick r)) = Ok lock
      /\ exists r1 r2, checkForOtherLocks be Hash key lock None (now clock r).1 = (r1, Ok tt)
        /\ createLock be Hash nonce key lock r1 = (r2, Ok id)
        /\ checkForOtherLocks be Hash key lock (Some id) r2 = (r', Ok tt)
        /\ exists r3 ids, ListIDs be LockFile r2 = (r3, Ok ids)
          /\ forall id' n, (id', n) ∈ ids -> id' ≠ id -> harmless excl id'
  | Err e =>
      (forall lock, e = ErrAlreadyLocked lock -> conflicts excl lock = true
         /\ exists id r1 r2, LoadLock be Hash key id r1 = (r2, Ok lock))
      /\ forall lock id r1 r2, new_lock_record env excl (clock (r_tick r)) = Ok lock ->
         checkForOtherLocks be Hash key lock None (now clock r).1 = (r1, Ok tt) ->
         createLock be Hash nonce key lock r1 = (r2, Ok id) ->
         exists r3 y, checkForOtherLocks be Hash key lock (Some id) r2 = (r3, Err e)
           /\ from_repo (be_remove be (lock_handle id)) r3 = (r', y)
  | Panic _ => True
  end.
Proof.
  intros HN. unfold newLock, lbind, from_repo at 1 in HN.
  destruct (now clock r) as [r0 tm] eqn:ET. injection ET as <- <-.
  destruct (new_lock_record env excl (clock (r_tick r))) as [lock|e|m] eqn:EL.
  2: { injection HN as <- <-. split; [|by intros].
       intros lock0 ->. unfold new_lock_record in EL. by destruct (env_user env) as [[u [[]|]]|]. }
  2: { by injection HN as _ <-. }
  assert (Hexcl : lk_Exclusive lock = excl).
  { unfold new_lock_record in EL. destruct (env_user env) as [[u [[]|]]|]; try done; by injection EL as <-. }
  cbn [fst]. set (r1 := mkRepo _ _ _ _ _ _ _) in *.
  destruct (checkForOtherLocks be Hash key lock None r1) as [r2 [[]|e|m]] eqn:EC1.
  3: { by injection HN as _ <-. }
  2: { pose proof (checkForOtherLocks_spec _ _ _ _ _ EC1) as HS. injection HN as _ <-.
       split; [intros other ->; by rewrite Hexcl in HS|].
       intros ? ? ? ? [= <-] HC. by rewrite EC1 in HC. }
  destruct (createLock be Hash nonce key lock r2) as [r3 [id|e|m]] eqn:ECr.
  3: { by injection HN as _ <-. }
  2: { injection HN as _ <-. apply createLock_err in ECr as HE. destruct HE as [e' ->].
       split; [done|]. intros ? ? ? ? [= <-] HC1 HC. rewrite EC1 in HC1. injection HC1 as <-. by rewrite ECr in HC. }
  destruct (checkForOtherLocks be Hash key lock (Some id) r3) as [r4 [[]|e|m]] eqn:EC2.
  - pose proof (checkForOtherLocks_spec _ _ _ _ _ EC2) as (r5 & ids & HI & HA). injection HN as <- <-. split; [done|].
    split; [done|]. exists r2, r3. split; [done|]. split; [done|]. split; [done|].
    exists r5, ids. split; [done|]. intros id' n Hin Hne. rewrite <- Hexcl.
    apply (HA id' n Hin). by intros [= ->].
  - destruct (Unlock be (Some id) r4) as [r5 [[]|e'|m]] eqn:EU; [| |by injection HN as _ <-]; injection HN as <- <-.
    all: split; [intros other ->; pose proof (checkForOtherLocks_spec _ _ _ _ _ EC2) as HS; by rewrite Hexcl in HS|].
    all: intros ? ? ? ? [= <-] HC1 HC; rewrite EC1 in HC1; injection HC1 as <-; rewrite ECr in HC; injection HC as <- <-; exists r4; eexists;
      split; [exact EC2|exact EU].
  - by injection HN as _ <-.
Qed.
End facts.

(** ** Several processes

    Each step of a process is one backend call of [newLock], [Unlock] or
    [Refresh]; between two steps any other process may run.  A listing is
    atomic; the listed locks are then loaded one at a time and in any order
    (by the workers of [ForAllLocks]).  A load of a file that is gone fails,
    and one of a file that is there may fail; both are ignored.  A process may
    die at any time or give up with an error, leaving its file.  Each removal
    of [RemoveStaleLocks] and [RemoveAllLocks] is a step that removes any lock
    file.  A new file's name is not in use. *)

Inductive pc : Type :=
| Start
| Check1 (todo : list ID)      (** loads the locks listed before the file is written *)
| Created (id : ID)            (** has written its file *)
| Check2 (id : ID) (todo : list ID)  (** loads the locks listed after that *)
| Held (id : ID)
| BackOff (id : ID)            (** the second check failed *)
| Refreshing (old new : ID)    (** has written a new file, the old one is still there *)
| Done.

Record proc : Type := mkProc { pr_excl : bool; pr_pc : pc }.
Record lstate : Type := mkLState { ls_files : gmap ID Lock; ls_procs : gmap nat proc }.

Definition set_pc (s : lstate) (p : nat) (e : bool) (c : pc) (files : gmap ID Lock) : lstate :=
  mkLState files (<[p := mkProc e c]> (ls_procs s)).
Definition listed (files : gmap ID Lock) : list ID := (map_to_list files).*1.

(** The file a process has written; without refreshing there is one. *)
Definition owns (c : pc) : option ID :=
  match c with Created id | Check2 id _ | Held id | BackOff id => Some id | _ => None end.
(** The file belongs to a process that takes, holds or gives up a lock. *)
Definition live (s : lstate) (id : ID) : Prop := map_Exists (fun _ pr => owns (pr_pc pr) = Some id) (ls_procs s).

(** What may happen in a run: a lock is refreshed, a live lock fails to load
    in a second check and is ignored, a live lock is removed by another. *)
Record liberties : Type := mkLiberties { may_refresh : bool; may_ignore : bool; may_remove : bool }.
Definition careful : liberties := mkLiberties false false false.

Inductive lstep (L : liberties) (s : lstate) : lstate -> Prop :=
| ls_new p e : ls_procs s !! p = None -> lstep L s (set_pc s p e Start (ls_files s))
| ls_list1 p e : ls_procs s !! p = Some (mkProc e Start) ->
    lstep L s (set_pc s p e (Check1 (listed (ls_files s))) (ls_files s))
| ls_load1 p e l1 id l2 : ls_procs s !! p = Some (mkProc e (Check1 (l1 ++ id :: l2))) ->
    lstep L s (set_pc s p e
      (match ls_files s !! id with
       | Some lock => if conflicts e lock then Done else Check1 (l1 ++ l2)
       | None => Check1 (l1 ++ l2)
       end) (ls_files s))
| ls_ignore1 p e l1 id l2 : ls_procs s !! p = Some (mkProc e (Check1 (l1 ++ id :: l2))) ->
    lstep L s (set_pc s p e (Check1 (l1 ++ l2)) (ls_files s))
| ls_create p e id lock : ls_procs s !! p = Some (mkProc e (Check1 [])) ->
    ls_files s !! id = None -> lk_Exclusive lock = e ->
    lstep L s (set_pc s p e (Created id) (<[id := lock]> (ls_files s)))
| ls_create_failed p e id lock : ls_procs s !! p = Some (mkProc e (Check1 [])) ->
    ls_files s !! id = None -> lk_Exclusive lock = e ->
    lstep L s (set_pc s p e Done (<[id := lock]> (ls_files s)))
| ls_list2 p e id : ls_procs s !! p = Some (mkProc e (Created id)) ->
    lstep L s (set_pc s p e (Check2 id (filter (fun x => x ≠ id) (listed (ls_files s)))) (ls_files s))
| ls_load2 p e id l1 x l2 : ls_procs s !! p = Some (mkProc e (Check2 id (l1 ++ x :: l2))) ->
    lstep L s (set_pc s p e
      (match ls_files s !! x with
       | Some lock => if conflicts e lock then BackOff id else Check2 id (l1 ++ l2)
       | None => Check2 id (l1 ++ l2)
       end) (ls_files s))
| ls_ignore2 p e id l1 x l2 : ls_procs s !! p = Some (mkProc e (Check2 id (l1 ++ x :: l2))) ->
    may_ignore L = true \/ ~ live s x ->
    lstep L s (set_pc s p e (Check2 id (l1 ++ l2)) (ls_files s))
| ls_hold p e id : ls_procs s !! p = Some (mkProc e (Check2 id [])) ->
    lstep L s (set_pc s p e (Held id) (ls_files s))
| ls_fail2 p e c id : ls_procs s !! p = Some (mkProc e c) -> c = Created id \/ (exists todo, c = Check2 id todo) ->
    lstep L s (set_pc s p e (BackOff id) (ls_files s))
| ls_backoff p e id : ls_procs s !! p = Some (mkProc e (BackOff id)) ->
    lstep L s (set_pc s p e Done (delete id (ls_files s)))
| ls_unlock p e id : ls_procs s !! p = Some (mkProc e (Held id)) ->
    lstep L s (set_pc s p e Done (delete id (ls_files s)))
| ls_refresh p e id id' lock : may_refresh L = true -> ls_procs s !! p = Some (mkProc e (Held id)) ->
    ls_files s !! id' = None -> lk_Exclusive lock = e ->
    lstep L s (set_pc s p e (Refreshing id id') (<[id' := lock]> (ls_files s)))
| ls_refreshed p e id id' (removed : bool) : ls_procs s !! p = Some (mkProc e (Refreshing id id')) ->
    lstep L s (set_pc s p e (Held id') (if removed then delete id (ls_files s) else ls_files s))
| ls_crash p e c : ls_procs s !! p = Some (mkProc e c) -> lstep L s (set_pc s p e Done (ls_files s))
| ls_remove id : may_remove L = true \/ ~ live s id ->
    lstep L s (mkLState (delete id (ls_files s)) (ls_procs s)).

(** A repository with some lock files left over, and no process yet. *)
Definition lreachable (L : liberties) (s : lstate) : Prop :=
  exists files, rtc (lstep L) (mkLState files ∅) s.

(** A process is yet to load the lock [id], or has given up. *)
Definition will_see (c : pc) (id : ID) : Prop :=
  match c with Created _ | BackOff _ => True | Check2 _ todo => id ∈ todo | _ => False end.

Definition compatible (e1 e2 : bool) : Prop := e1 = false /\ e2 = false.

Record lock_inv (s : lstate) : Prop := {
  li_file : forall p e c id, ls_procs s !! p = Some (mkProc e c) -> owns c = Some id ->
    exists lock, ls_files s !! id = Some lock /\ lk_Exclusive lock = e;
  li_distinct : forall p q e1 e2 c1 c2 id, ls_procs s !! p = Some (mkProc e1 c1) -> ls_procs s !! q = Some (mkProc e2 c2) ->
    owns c1 = Some id -> owns c2 = Some id -> p = q;
  li_norefresh : forall p e id id', ls_procs s !! p ≠ Some (mkProc e (Refreshing id id'));
  li_seen : forall p q e1 e2 c1 c2 id1 id2, p ≠ q ->
    ls_procs s !! p = Some (mkProc e1 c1) -> ls_procs s !! q = Some (mkProc e2 c2) ->
    owns c1 = Some id1 -> owns c2 = Some id2 ->
    compatible e1 e2 \/ will_see c1 id2 \/ will_see c2 id1;
}.

Lemma owns_live s p e c id : ls_procs s !! p = Some (mkProc e c) -> owns c = Some id -> live s id.
Proof. intros Hp Ho. by exists p, (mkProc e c). Qed.

(** A step that changes one process and leaves the files of the others. *)
Lemma lock_inv_step s p e c files :
  lock_inv s ->
  (forall q e' c' id, q ≠ p -> ls_procs s !! q = Some (mkProc e' c') -> owns c' = Some id ->
     files !! id = ls_files s !! id /\ owns c ≠ Some id
     /\ (forall id', owns c = Some id' -> compatible e e' \/ will_see c id \/ will_see c' id')) ->
  (forall id, owns c = Some id -> exists lock, files !! id = Some lock /\ lk_Exclusive lock = e) ->
  (forall id id', c ≠ Refreshing id id') ->
  lock_inv (set_pc s p e c files).
Proof.
  intros [H1 H2 H3 H4] Hothers Hown Hnr. unfold set_pc. split; cbn [ls_files ls_procs].
  - intros q e' c' id Hq Ho. destruct (decide (q = p)) as [->|Hne].
    + rewrite lookup_insert_eq in Hq. injection Hq as <- <-. by apply Hown.
    + rewrite lookup_insert_ne in Hq by done. destruct (Hothers q e' c' id Hne Hq Ho) as (-> & _). by eapply H1.
  - intros q q' e1 e2 c1 c2 id Hq Hq' Ho1 Ho2. destruct (decide (q = p)) as [->|Hne], (decide (q' = p)) as [->|Hne']; try done.
    + rewrite lookup_insert_eq in Hq. rewrite lookup_insert_ne in Hq' by done. injection Hq as <- <-.
      by destruct (Hothers q' e2 c2 id Hne' Hq' Ho2) as (_ & Hn & _).
    + rewrite lookup_insert_eq in Hq'. rewrite lookup_insert_ne in Hq by done. injection Hq' as <- <-.
      by destruct (Hothers q e1 c1 id Hne Hq Ho1) as (_ & Hn & _).
    + rewrite !lookup_insert_ne in Hq, Hq' by done. by eapply H2.
  - intros q e' id id'. destruct (decide (q = p)) as [->|Hne].
    + rewrite lookup_insert_eq. intros Hc. injection Hc as _ Hc. by apply (Hnr id id').
    + rewrite lookup_insert_ne by done. apply H3.
  - intros q q' e1 e2 c1 c2 id1 id2 Hqq Hq Hq' Ho1 Ho2. destruct (decide (q = p)) as [->|Hne], (decide (q' = p)) as [->|Hne']; try done.
    + rewrite lookup_insert_eq in Hq. rewrite lookup_insert_ne in Hq' by done. injection Hq as <- <-.
      destruct (Hothers q' e2 c2 id2 Hne' Hq' Ho2) as (_ & _ & Hs). by apply Hs.
    + rewrite lookup_insert_eq in Hq'. rewrite lookup_insert_ne in Hq by done. injection Hq' as <- <-.
      destruct (Hothers q e1 c1 id1 Hne Hq Ho1) as (_ & _ & Hs). specialize (Hs id2 Ho2). unfold compatible in *. tauto.
    + rewrite !lookup_insert_ne in Hq, Hq' by done. exact (H4 q q' e1 e2 c1 c2 id1 id2 Hqq Hq Hq' Ho1 Ho2).
Qed.

Lemma conflicts_orb e lock : conflicts e lock = e || lk_Exclusive lock.
Proof. unfold conflicts. by destruct e, (lk_Exclusive lock). Qed.

Lemma elem_of_listed id files : id ∈ listed files <-> is_Some (files !! id).
Proof.
  unfold listed. rewrite list_elem_of_fmap. split.
  - intros ([i x] & -> & Hin). apply elem_of_map_to_list in Hin. by eexists.
  - intros [x Hx]. exists (id, x). split; [done|]. by apply elem_of_map_to_list.
Qed.

(** A step that neither owns a file nor touches one. *)
Lemma lock_inv_idle s p e c : lock_inv s -> owns c = None -> (forall id id', c ≠ Refreshing id id') ->
  lock_inv (set_pc s p e c (ls_files s)).
Proof.
  intros HI Ho Hr. apply lock_inv_step; [done| | |done].
  - intros q e' c' id _ _ _. rewrite Ho. split; [done|]. split; [done|]. done.
  - intros id. by rewrite Ho.
Qed.

(** A step of a process that keeps its file; what it still has to see follows
    from what it had to see before. *)
Lemma lock_inv_keep s p e c c' id : lock_inv s -> ls_procs s !! p = Some (mkProc e c) ->
  owns c = Some id -> owns c' = Some id ->
  (forall q e2 c2 id2, q ≠ p -> ls_procs s !! q = Some (mkProc e2 c2) -> owns c2 = Some id2 -> will_see c id2 ->
     compatible e e2 \/ will_see c' id2) ->
  lock_inv (set_pc s p e c' (ls_files s)).
Proof.
  intros HI Hp Ho Ho' Hsee. pose proof HI as [H1 H2 H3 H4]. apply lock_inv_step; [done| | |by intros ? ? ->].
  - intros q e2 c2 id2 Hne Hq Ho2. split; [done|]. rewrite Ho'. split.
    + intros [= ->]. apply Hne. symmetry. by eapply (H2 p q).
    + intros id' [= <-]. destruct (H4 p q e e2 c c2 id id2) as [?|[Hw|?]]; auto.
      destruct (Hsee q e2 c2 id2 Hne Hq Ho2 Hw); auto.
  - intros id' Hid. rewrite Ho' in Hid. injection Hid as <-. by eapply H1.
Qed.

(** A process is done and removes its file. *)
Lemma lock_inv_delete s p e c id : lock_inv s -> ls_procs s !! p = Some (mkProc e c) -> owns c = Some id ->
  lock_inv (set_pc s p e Done (delete id (ls_files s))).
Proof.
  intros HI Hp Ho. pose proof HI as [H1 H2 H3 H4]. apply lock_inv_step; [done| |done|done].
  intros q e2 c2 id2 Hne Hq Ho2. split; [|done]. apply lookup_delete_ne. intros <-. apply Hne. by eapply (H2 q p).
Qed.

(** A process that may create a file, dead or alive afterwards. *)
Lemma lock_inv_create s p e c id lock : lock_inv s -> ls_files s !! id = None -> lk_Exclusive lock = e ->
  c = Created id \/ c = Done -> lock_inv (set_pc s p e c (<[id := lock]> (ls_files s))).
Proof.
  intros HI Hid Hlk Hc. pose proof HI as [H1 _ _ _]. apply lock_inv_step; [done| | |by destruct Hc as [-> | ->]].
  - intros q e' c' id0 Hne Hq Ho. destruct (H1 q e' c' id0 Hq Ho) as (lock0 & Hl0 & _).
    split; [apply lookup_insert_ne; congruence|]. destruct Hc as [-> | ->]; [|done].
    split; [intros [= ->]; congruence|]. intros id' _. right. by left.
  - intros id0. destruct Hc as [-> | ->]; [|done]. intros [= <-]. exists lock. by rewrite lookup_insert_eq.
Qed.

(** A second check has looked at the lock [x]: if it belongs to a process, the
    two are compatible. *)
Lemma lock_inv_seen s p e id l1 x l2 : lock_inv s -> ls_procs s !! p = Some (mkProc e (Check2 id (l1 ++ x :: l2))) ->
  (forall q e2 c2, ls_procs s !! q = Some (mkProc e2 c2) -> owns c2 = Some x -> compatible e e2) ->
  lock_inv (set_pc s p e (Check2 id (l1 ++ l2)) (ls_files s)).
Proof.
  intros HI Hp Hx. apply (lock_inv_keep s p e (Check2 id (l1 ++ x :: l2)) _ id); [done..|].
  intros q e2 c2 id2 Hne Hq Ho2. cbn [will_see]. rewrite !elem_of_app, elem_of_cons. intros [Hin|[->|Hin]]; [by right; left| |by right; right].
  left. by eapply Hx.
Qed.

(** A file of no process disappears. *)
Lemma lock_inv_remove s id : lock_inv s -> ~ live s id -> lock_inv (mkLState (delete id (ls_files s)) (ls_procs s)).
Proof.
  intros [H1 H2 H3 H4] HL. split; cbn [ls_files ls_procs]; [|done..].
  intros p e c id' Hp Ho. rewrite lookup_delete_ne; [by eapply H1|]. intros ->. apply HL. by eapply owns_live.
Qed.

Lemma lstep_inv s s' : lock_inv s -> lstep careful s s' -> lock_inv s'.
Proof.
  intros HI Hstep. pose proof HI as [H1 H2 H3 H4].
  destruct Hstep as [p e Hp|p e Hp|p e l1 id l2 Hp|p e l1 id l2 Hp|p e id lock Hp Hid Hlk|p e id lock Hp Hid Hlk|p e id Hp
    |p e id l1 x l2 Hp|p e id l1 x l2 Hp [Hx|Hx]|p e id Hp|p e c id Hp Hc|p e id Hp|p e id Hp
    |p e id id' lock Hr|p e id id' b Hp|p e c Hp|id [Hx|Hx]]; try done;
    try (apply lock_inv_idle; [done|by repeat case_match|by intros; repeat case_match]).
  - by apply lock_inv_create; [..|left].
  - by apply lock_inv_create; [..|right].
  - apply (lock_inv_keep s p e (Created id) _ id); [done..|]. intros q e2 c2 id2 Hne Hq Ho2 _. right. cbn [will_see].
    apply list_elem_of_filter. destruct (H1 q e2 c2 id2 Hq Ho2) as (lock & Hl & _). split.
    + intros ->. apply Hne. by eapply (H2 q p).
    + apply elem_of_listed. by exists lock.
  - destruct (ls_files s !! x) as [lock|] eqn:Hx; [destruct (conflicts e lock) eqn:EC|].
    + apply (lock_inv_keep s p e (Check2 id (l1 ++ x :: l2)) _ id); [done..|]. intros. by right.
    + apply (lock_inv_seen s p e id l1 x l2); [done..|]. intros q e2 c2 Hq Ho2.
      destruct (H1 q e2 c2 x Hq Ho2) as (lock' & Hl & <-). rewrite Hx in Hl. injection Hl as <-.
      rewrite conflicts_orb in EC. by apply orb_false_iff in EC.
    + apply (lock_inv_seen s p e id l1 x l2); [done..|]. intros q e2 c2 Hq Ho2.
      destruct (H1 q e2 c2 x Hq Ho2) as (lock' & Hl & _). congruence.
  - apply (lock_inv_seen s p e id l1 x l2); [done..|]. intros q e2 c2 Hq Ho2. destruct Hx. by eapply owns_live.
  - apply (lock_inv_keep s p e (Check2 id []) _ id); [done..|]. by intros q e2 c2 id2 _ _ _ ?%elem_of_nil.
  - apply (lock_inv_keep s p e c _ id); [done| |by destruct Hc as [-> |[todo ->]]|done|]; [done|]. intros. by right.
  - by apply (lock_inv_delete s p e (BackOff id)).
  - by apply (lock_inv_delete s p e (Held id)).
  - by apply H3 in Hp.
  - by apply lock_inv_remove.
Qed.

Lemma lreachable_inv s : lreachable careful s -> lock_inv s.
Proof.
  intros [files Hr]. assert (H0 : lock_inv (mkLState files ∅)) by (split; intros *; cbn; intros; by rewrite ?lookup_empty in *).
  revert H0. induction Hr as [|s1 s2 s3 Hs _ IH]; [done|]. intros H1. apply IH. by eapply lstep_inv.
Qed.

(** C30: mutual exclusion, in runs in which nobody refreshes a lock, no second
    check fails to load a lock that is live (of a process that takes, holds or
    gives up one), and no live lock is removed by [RemoveStaleLocks],
    [RemoveAllLocks] or by hand ([careful]; with any of the three, exclusion
    can fail, as lemmas below show).  Otherwise any interleaving of the
    processes' calls may happen, from any lock files left over: loads in any
    order, loads that fail and are ignored in the first check or for dead
    locks, removals of dead locks, listings and writes that fail, and
    processes that die at any time.  In every state reached, if two processes
    hold a lock then neither is exclusive, their files are different and
    each one's file is there with its kind. *)
Theorem lock_exclusion (s : lstate) (p q : nat) (e1 e2 : bool) (id1 id2 : ID) :
  lreachable careful s -> p ≠ q ->
  ls_procs s !! p = Some (mkProc e1 (Held id1)) -> ls_procs s !! q = Some (mkProc e2 (Held id2)) ->
  compatible e1 e2 /\ id1 ≠ id2
  /\ (exists lock, ls_files s !! id1 = Some lock /\ lk_Exclusive lock = e1)
  /\ (exists lock, ls_files s !! id2 = Some lock /\ lk_Exclusive lock = e2).
Proof.
  intros Hr Hne Hp Hq. destruct (lreachable_inv s Hr) as [H1 H2 _ H4]. split; [|split; [|split]].
  - by destruct (H4 p q e1 e2 _ _ id1 id2 Hne Hp Hq eq_refl eq_refl) as [?|[[]|[]]].
  - intros <-. apply Hne. by eapply (H2 p q).
  - by eapply H1.
  - by eapply H1.
Qed.

(** ** Executable schedules *)

Inductive action : Type :=
| ANew (p : nat) (e : bool)
| ANext (p : nat)
| AIgnore (p : nat)
| ACreate (p : nat) (id : ID) (lock : Lock)
| AUnlock (p : nat)
| ARefresh (p : nat) (id : ID) (lock : Lock)
| ACrash (p : nat)
| ARemove (id : ID).

Definition lexec (L : liberties) (s : lstate) (a : action) : option lstate :=
  match a with
  | ANew p e => match ls_procs s !! p with None => Some (set_pc s p e Start (ls_files s)) | _ => None end
  | ANext p =>
      match ls_procs s !! p with
      | Some (mkProc e Start) => Some (set_pc s p e (Check1 (listed (ls_files s))) (ls_files s))
      | Some (mkProc e (Check1 (id :: todo))) =>
          Some (set_pc s p e (match ls_files s !! id with
            | Some lock => if conflicts e lock then Done else Check1 todo | None => Check1 todo end) (ls_files s))
      | Some (mkProc e (Created id)) =>
          Some (set_pc s p e (Check2 id (filter (fun x => x ≠ id) (listed (ls_files s)))) (ls_files s))
      | Some (mkProc e (Check2 id (x :: todo))) =>
          Some (set_pc s p e (match ls_files s !! x with
            | Some lock => if conflicts e lock then BackOff id else Check2 id todo | None => Check2 id todo end) (ls_files s))
      | Some (mkProc e (Check2 id [])) => Some (set_pc s p e (Held id) (ls_files s))
      | Some (mkProc e (BackOff id)) => Some (set_pc s p e Done (delete id (ls_files s)))
      | Some (mkProc e (Refreshing id id')) => Some (set_pc s p e (Held id') (delete id (ls_files s)))
      | _ => None
      end
  | AIgnore p =>
      match ls_procs s !! p with
      | Some (mkProc e (Check1 (_ :: todo))) => Some (set_pc s p e (Check1 todo) (ls_files s))
      | Some (mkProc e (Check2 id (x :: todo))) =>
          if may_ignore L || bool_decide (~ live s x) then Some (set_pc s p e (Check2 id todo) (ls_files s)) else None
      | _ => None
      end
  | ACreate p id lock =>
      match ls_procs s !! p, ls_files s !! id with
      | Some (mkProc e (Check1 [])), None =>
          if bool_decide (lk_Exclusive lock = e) then Some (set_pc s p e (Created id) (<[id := lock]> (ls_files s))) else None
      | _, _ => None
      end
  | AUnlock p =>
      match ls_procs s !! p with
      | Some (mkProc e (Held id)) => Some (set_pc s p e Done (delete id (ls_files s)))
      | _ => None
      end
  | ARefresh p id' lock =>
      match ls_procs s !! p, ls_files s !! id' with
      | Some (mkProc e (Held id)), None =>
          if may_refresh L && bool_decide (lk_Exclusive lock = e)
          then Some (set_pc s p e (Refreshing id id') (<[id' := lock]> (ls_files s))) else None
      | _, _ => None
      end
  | ACrash p => match ls_procs s !! p with Some (mkProc e _) => Some (set_pc s p e Done (ls_files s)) | None => None end
  | ARemove id =>
      if may_remove L || bool_decide (~ live s id) then Some (mkLState (delete id (ls_files s)) (ls_procs s)) else None
  end.
Fixpoint lexecs (L : liberties) (s : lstate) (l : list action) : option lstate :=
  match l with [] => Some s | a :: l => match lexec L s a with Some s => lexecs L s l | None => None end end.

Lemma may_or_dead (b : bool) P `{Decision P} : b || bool_decide P = true -> b = true \/ P.
Proof. intros [->|HP%bool_decide_eq_true]%orb_true_iff; auto. Qed.

Lemma lexec_step L s a s' : lexec L s a = Some s' -> lstep L s s'.
Proof.
  destruct a as [p e|p|p|p id lock|p|p id lock|p|id]; cbn [lexec].
  - destruct (ls_procs s !! p) eqn:Hp; [done|]. intros [= <-]. by constructor.
  - destruct (ls_procs s !! p) as [[e [|[|id todo]|id|id [|x todo]|id|id|id id'|]]|] eqn:Hp; intros HE; try discriminate; injection HE as <-.
    + by apply ls_list1.
    + by apply (ls_load1 L s p e [] id todo).
    + by apply ls_list2.
    + by apply ls_hold.
    + by apply (ls_load2 L s p e id [] x todo).
    + by apply ls_backoff.
    + by apply (ls_refreshed L s p e id id' true).
  - destruct (ls_procs s !! p) as [[e [|[|id todo]|id|id [|x todo]|id|id|id id'|]]|] eqn:Hp; try done.
    + intros [= <-]. by apply (ls_ignore1 L s p e [] id todo).
    + destruct (may_ignore L || _) eqn:HI; [|done]. intros [= <-]. apply may_or_dead in HI.
      by apply (ls_ignore2 L s p e id [] x todo).
  - destruct (ls_procs s !! p) as [[e [|[|? ?]|?|? ?|?|?|? ?|]]|] eqn:Hp; try done.
    destruct (ls_files s !! id) eqn:Hf; [done|]. case_bool_decide; [|done]. intros [= <-]. by apply ls_create.
  - destruct (ls_procs s !! p) as [[e [|?|?|? ?|?|?|? ?|]]|] eqn:Hp; try done. intros [= <-]. by apply ls_unlock.
  - destruct (ls_procs s !! p) as [[e [|?|?|? ?|?|?|? ?|]]|] eqn:Hp; try done.
    destruct (ls_files s !! id) eqn:Hf; [done|]. destruct (may_refresh L) eqn:HL; [|done]. cbn [andb]. case_bool_decide; [|done].
    intros [= <-]. by apply ls_refresh.
  - destruct (ls_procs s !! p) as [[e c]|] eqn:Hp; [|done]. intros [= <-]. by apply (ls_crash _ _ _ _ c).
  - destruct (may_remove L || _) eqn:HI; [|done]. intros [= <-]. apply may_or_dead in HI. by apply ls_remove.
Qed.
Lemma lexecs_reachable L l : forall s s', lexecs L s l = Some s' -> rtc (lstep L) s s'.
Proof.
  induction l as [|a l IH]; intros s s'; cbn [lexecs]; [by intros [= ->]|].
  destruct (lexec L s a) as [s1|] eqn:E; [|done]. intros H. eapply rtc_l; [by eapply lexec_step|by apply IH].
Qed.

Definition toy_lock (e : bool) : Lock := mkLock zeroTime e "host" "user" 1 0 0.
Definition toy_lock_id (n : byte) : ID := [n].

(** Two processes share the repository; one finds the file of a process that
    died, which does not load, and removes it later. *)
Definition sharing : list action :=
  [ANew 2 true; ANext 2; ACreate 2 (toy_lock_id Byte.x0c) (toy_lock true); ACrash 2;
   ANew 0 false; ANew 1 false; ANext 0; AIgnore 0; ACreate 0 (toy_lock_id Byte.x0a) (toy_lock false); ANext 0; AIgnore 0; ANext 0;
   ARemove (toy_lock_id Byte.x0c);
   ANext 1; ANext 1; ACreate 1 (toy_lock_id Byte.x0b) (toy_lock false); ANext 1; ANext 1; ANext 1].

(** The process [p] at the end of a schedule. *)
Definition proc_after (L : liberties) (l : list action) (p : nat) : option proc :=
  match lexecs L (mkLState ∅ ∅) l with Some s => ls_procs s !! p | None => None end.

Lemma proc_after_reachable L l p q x y : proc_after L l p = Some x -> proc_after L l q = Some y ->
  exists s, lreachable L s /\ ls_procs s !! p = Some x /\ ls_procs s !! q = Some y.
Proof.
  unfold proc_after. destruct (lexecs L (mkLState ∅ ∅) l) as [s|] eqn:HE; [|done]. intros Hx Hy.
  exists s. split; [|done]. exists ∅. by eapply lexecs_reachable.
Qed.

Lemma lock_exclusion_witness :
  exists s, lreachable careful s
  /\ ls_procs s !! 0%nat = Some (mkProc false (Held (toy_lock_id Byte.x0a)))
  /\ ls_procs s !! 1%nat = Some (mkProc false (Held (toy_lock_id Byte.x0b)))
  /\ toy_lock_id Byte.x0a ≠ toy_lock_id Byte.x0b.
Proof.
  destruct (proc_after_reachable careful sharing 0 1 (mkProc false (Held (toy_lock_id Byte.x0a)))
    (mkProc false (Held (toy_lock_id Byte.x0b)))) as (s & Hr & Hp & Hq); [vm_compute; reflexivity..|].
  exists s. destruct (lock_exclusion s 0 1 false false _ _ Hr ltac:(discriminate) Hp Hq) as (_ & Hne & _).
  exact (conj Hr (conj Hp (conj Hq Hne))).
Defined.

(** The three restrictions are needed: with any one of them lifted, the
    processes 0 and 1 can come to hold exclusive locks at once. *)
Definition excludes (L : liberties) : Prop := forall s id1 id2, lreachable L s ->
  ls_procs s !! 0%nat = Some (mkProc true (Held id1)) -> ls_procs s !! 1%nat = Some (mkProc true (Held id2)) -> False.

Lemma schedule_breaks L l id1 id2 : proc_after L l 0 = Some (mkProc true (Held id1)) ->
  proc_after L l 1 = Some (mkProc true (Held id2)) -> ~ excludes L.
Proof. intros H0 H1 HE. destruct (proc_after_reachable L l 0 1 _ _ H0 H1) as (s & Hr & Hp & Hq). by eapply HE. Qed.

(** Finding: refreshing breaks mutual exclusion.  A process lists the locks; the
    holder then refreshes, so the listed file is gone when the process comes to
    load it, and the new file is not in the listing. *)
Lemma refresh_breaks_exclusion : ~ excludes (mkLiberties true false false).
Proof.
  apply (schedule_breaks _
    [ANew 0 true; ANew 1 true; ANext 0; ANext 1; ACreate 0 (toy_lock_id Byte.x0a) (toy_lock true); ANext 0; ANext 0;
     ACreate 1 (toy_lock_id Byte.x0b) (toy_lock true); ANext 1; ARefresh 0 (toy_lock_id Byte.x0c) (toy_lock true); ANext 0;
     ANext 1; ANext 1] (toy_lock_id Byte.x0c) (toy_lock_id Byte.x0b)); vm_compute; reflexivity.
Qed.

(** Finding: so does a lock that fails to load while its process is alive (a
    backend error): it is ignored. *)
Lemma ignoring_breaks_exclusion : ~ excludes (mkLiberties false true false).
Proof.
  apply (schedule_breaks _
    [ANew 0 true; ANext 0; ACreate 0 (toy_lock_id Byte.x0a) (toy_lock true); ANext 0; ANext 0;
     ANew 1 true; ANext 1; AIgnore 1; ACreate 1 (toy_lock_id Byte.x0b) (toy_lock true); ANext 1; AIgnore 1; ANext 1]
    (toy_lock_id Byte.x0a) (toy_lock_id Byte.x0b)); vm_compute; reflexivity.
Qed.

(** So does removing the lock of a process that is alive. *)
Lemma removal_breaks_exclusion : ~ excludes (mkLiberties false false true).
Proof.
  apply (schedule_breaks _
    [ANew 0 true; ANext 0; ACreate 0 (toy_lock_id Byte.x0a) (toy_lock true); ANext 0; ANext 0; ARemove (toy_lock_id Byte.x0a);
     ANew 1 true; ANext 1; ACreate 1 (toy_lock_id Byte.x0b) (toy_lock true); ANext 1; ANext 1]
    (toy_lock_id Byte.x0a) (toy_lock_id Byte.x0b)); vm_compute; reflexivity.
Qed.

(** An exclusive lock is refused while another lock is there. *)
Definition toy_lock_codec : LockCodec := {|
  lock_encode l := [if lk_Exclusive l then Byte.x01 else Byte.x00];
  lock_decode l := match l with [b] => Some (toy_lock (bool_decide (b = Byte.x01))) | _ => None end
|}.
Definition toy_env : Environment := mkEnv (Some "host"%string) None 1 (fun _ => true).
Definition toy_locked : Repo Mem.memMap * res lock_error (Lock * ID) :=
  newLock toy_mem (CP := plain_prims) (LC := toy_lock_codec) toy_hash toy_nonces toy_clock toy_key toy_env false toy_repo.
Definition toy_refused : Repo Mem.memMap * res lock_error (Lock * ID) :=
  newLock toy_mem (CP := plain_prims) (LC := toy_lock_codec) toy_hash toy_nonces toy_clock toy_key toy_env true toy_locked.1.

Lemma newLock_spec_witness :
  (exists id lock r2, toy_locked.2 = Ok (lock, id) /\ lk_Exclusive lock = false
     /\ checkForOtherLocks toy_mem (CP := plain_prims) (LC := toy_lock_codec) toy_hash toy_key lock (Some id) r2 = (toy_locked.1, Ok tt))
  /\ exists other, toy_refused.2 = Err (ErrAlreadyLocked other) /\ conflicts true other = true.
Proof.
  assert (HE : match toy_locked.2 with Ok _ => true | _ => false end = true) by (vm_compute; reflexivity).
  assert (HE' : match toy_refused.2 with Err (ErrAlreadyLocked _) => true | _ => false end = true) by (vm_compute; reflexivity).
  destruct toy_locked as [r1 x] eqn:H1. destruct toy_refused as [r2 y] eqn:H2. cbn [snd] in *.
  destruct x as [[lock id]|e|m]; [|discriminate HE|discriminate HE].
  destruct y as [z|[e|other]|m]; [discriminate HE'|discriminate HE'| |discriminate HE'].
  apply newLock_spec in H1, H2. split.
  - destruct H1 as (Hx & _ & ra & rb & _ & _ & HC & _). exists id, lock, rb. exact (conj eq_refl (conj Hx HC)).
  - exists other. exact (conj eq_refl (proj1 (proj1 H2 other eq_refl))).
Defined.
