(* ===== verification/Trees.v ===== *)
(** * Trees: nodes, lookups, insertion

    src/restic/tree.go, the part of src/restic/node.go that compares nodes and
    clamps times, and src/restic/hardlinks_index.go. *)

From S2P Require Import Prelude Ids Duration Snapshots.

(** ** Nodes (src/restic/node.go) *)

Record ExtendedAttribute : Type := mkXattr { x_Name : string; x_Value : list byte }.

Record Node : Type := mkNode {
  n_Name : string;
  n_Type : string;
  n_Mode : Z;
  n_ModTime : Time;
  n_AccessTime : Time;
  n_ChangeTime : Time;
  n_UID : Z;
  n_GID : Z;
  n_User : string;
  n_Group : string;
  n_Inode : Z;
  n_DeviceID : Z;
  n_Size : Z;
  n_Links : Z;
  n_LinkTarget : string;
  n_ExtendedAttributes : list ExtendedAttribute;
  n_Device : Z;
  n_Content : option (list ID);   (** [None] is [nil] *)
  n_Subtree : option ID;
  n_Error : string;
  n_Path : string;
}.

(** [FixTime]: years that cannot be marshalled are clamped. *)
Definition FixTime (t : Time) : Time :=
  if Year t <? 0 then AddDate t (- Year t) 0 0
  else if 9999 <? Year t then AddDate t (- (Year t - 9999)) 0 0
  else t.

(** [time.Time.Equal]: the same instant. *)
Definition Time_Equal (a b : Time) : bool := t_ns a =? t_ns b.

Fixpoint same_ids (a b : list ID) : bool :=
  match a, b with
  | [], [] => true
  | x :: a, y :: b => if negb (Equal x y) then false else same_ids a b
  | _, _ => false
  end.
Definition sameContent (node other : Node) : bool :=
  match n_Content node, n_Content other with
  | None, None => true
  | Some a, Some b => if negb (bool_decide (length a = length b)) then false else same_ids a b
  | _, _ => false
  end.

(** The map from names to values and whether the other node has them. *)
Definition add_attribute (m : gmap string (list byte * bool)) (attr : ExtendedAttribute) : gmap string (list byte * bool) :=
  <[x_Name attr := (x_Value attr, false)]> m.
Fixpoint mark_present (m : gmap string (list byte * bool)) (l : list ExtendedAttribute) : option (gmap string (list byte * bool)) :=
  match l with
  | [] => Some m
  | attr :: l =>
      match m !! x_Name attr with
      | None => None
      | Some (value, _) =>
          if negb (bool_decide (value = x_Value attr)) then None
          else mark_present (<[x_Name attr := (value, true)]> m) l
      end
  end.
Definition sameExtendedAttributes (node other : Node) : bool :=
  if negb (bool_decide (length (n_ExtendedAttributes node) = length (n_ExtendedAttributes other))) then false
  else
    let attributes := fold_left add_attribute (n_ExtendedAttributes node) ∅ in
    match mark_present attributes (n_ExtendedAttributes other) with
    | None => false
    | Some attributes => forallb (fun p => p.2.2) (map_to_list attributes)
    end.

Definition Node_Equals (node other : Node) : bool :=
  if negb (bool_decide (n_Name node = n_Name other)) then false
  else if negb (bool_decide (n_Type node = n_Type other)) then false
  else if negb (n_Mode node =? n_Mode other) then false
  else if negb (Time_Equal (n_ModTime node) (n_ModTime other)) then false
  else if negb (Time_Equal (n_AccessTime node) (n_AccessTime other)) then false
  else if negb (Time_Equal (n_ChangeTime node) (n_ChangeTime other)) then false
  else if negb (n_UID node =? n_UID other) then false
  else if negb (n_GID node =? n_GID other) then false
  else if negb (bool_decide (n_User node = n_User other)) then false
  else if negb (bool_decide (n_Group node = n_Group other)) then false
  else if negb (n_Inode node =? n_Inode other) then false
  else if negb (n_DeviceID node =? n_DeviceID other) then false
  else if negb (n_Size node =? n_Size other) then false
  else if negb (n_Links node =? n_Links other) then false
  else if negb (bool_decide (n_LinkTarget node = n_LinkTarget other)) then false
  else if negb (n_Device node =? n_Device other) then false
  else if negb (sameContent node other) then false
  else if negb (sameExtendedAttributes node other) then false
  else if negb (match n_Subtree node, n_Subtree other with
                | Some a, Some b => Equal a b
                | None, None => true
                | _, _ => false
                end) then false
  else bool_decide (n_Error node = n_Error other).

Definition GetExtendedAttribute (node : Node) (a : string) : option (list byte) :=
  match list_find (fun attr => x_Name attr = a) (n_ExtendedAttributes node) with
  | Some (_, attr) => Some (x_Value attr)
  | None => None
  end.

(** File mode bits, and the type of a node. *)
Definition ModeDir : Z := 2 ^ 31.
Definition ModeSymlink : Z := 2 ^ 27.
Definition ModeDevice : Z := 2 ^ 26.
Definition ModeNamedPipe : Z := 2 ^ 25.
Definition ModeSocket : Z := 2 ^ 24.
Definition ModeCharDevice : Z := 2 ^ 21.
Definition ModeIrregular : Z := 2 ^ 19.
Definition ModeType : Z :=
  Z.lor ModeDir (Z.lor ModeSymlink (Z.lor ModeNamedPipe (Z.lor ModeSocket (Z.lor ModeDevice (Z.lor ModeCharDevice ModeIrregular))))).
Definition nodeTypeFromFileInfo (mode : Z) : string :=
  let m := Z.land mode (Z.lor ModeType ModeCharDevice) in
  if m =? 0 then "file"
  else if m =? ModeDir then "dir"
  else if m =? ModeSymlink then "symlink"
  else if m =? Z.lor ModeDevice ModeCharDevice then "chardev"
  else if m =? ModeDevice then "dev"
  else if m =? ModeNamedPipe then "fifo"
  else if m =? ModeSocket then "socket"
  else "".

(** ** Trees (src/restic/tree.go) *)

Record Tree : Type := mkTree { t_Nodes : list Node }.

Definition NewTree : Tree := mkTree [].

Fixpoint equal_nodes (a b : list Node) : bool :=
  match a, b with
  | [], [] => true
  | x :: a, y :: b => if negb (Node_Equals x y) then false else equal_nodes a b
  | _, _ => false
  end.
Definition Tree_Equals (t other : Tree) : bool :=
  if negb (bool_decide (length (t_Nodes t) = length (t_Nodes other))) then false
  else equal_nodes (t_Nodes t) (t_Nodes other).

(** [sort.Search]: the least index with [f], by bisection; the interval halves,
    so its length is fuel enough. *)
Fixpoint search_loop (fuel : nat) (f : nat -> bool) (i j : nat) : nat :=
  match fuel with
  | O => i
  | S fuel =>
      if (i <? j)%nat then
        let h := Nat.div (i + j) 2 in
        if negb (f h) then search_loop fuel f (h + 1) j else search_loop fuel f i h
      else i
  end.
Definition Search (n : nat) (f : nat -> bool) : nat := search_loop n f 0 n.

(** Go compares strings bytewise. *)
Definition string_geb (a b : string) : bool := String.leb b a.

Definition name_at (nodes : list Node) (i : nat) : string :=
  match nodes !! i with Some n => n_Name n | None => "" end.
Definition find (t : Tree) (name : string) : nat * option Node :=
  let pos := Search (length (t_Nodes t)) (fun i => string_geb (name_at (t_Nodes t) i) name) in
  match t_Nodes t !! pos with
  | Some node => if bool_decide (n_Name node = name) then (pos, Some node) else (pos, None)
  | None => (pos, None)
  end.

Inductive tree_error : Type := AlreadyPresent (name : string).

(** The nodes from [pos] on move up by one. *)
Definition Insert (t : Tree) (node : Node) : res tree_error Tree :=
  let '(pos, found) := find t (n_Name node) in
  match found with
  | Some _ => Err (AlreadyPresent (n_Name node))
  | None => Ok (mkTree (take pos (t_Nodes t) ++ node :: drop pos (t_Nodes t)))
  end.

(** A [nil] tree has no nodes. *)
Definition Find (t : option Tree) (name : string) : option Node :=
  match t with None => None | Some t => (find t name).2 end.

Definition Subtrees (t : Tree) : list ID :=
  omap (fun node => if bool_decide (n_Type node = "dir"%string) then n_Subtree node else None) (t_Nodes t).

Section sorting.
(** [sort.Sort] by [Less]. *)
Context (sort : list Node -> list Node).
Definition Nodes_Less (a b : Node) : bool := String.ltb (n_Name a) (n_Name b).
Definition Sort (t : Tree) : Tree := mkTree (sort (t_Nodes t)).
End sorting.

(** ** Hard links (src/restic/hardlinks_index.go) *)

Module HardlinkIndex.
Definition index : Type := gmap (Z * Z) string.
Definition NewHardlinkIndex : index := ∅.
Definition Has (idx : index) (inode device : Z) : bool := bool_decide (is_Some (idx !! (inode, device))).
Definition Add (idx : index) (inode device : Z) (name : string) : index :=
  match idx !! (inode, device) with Some _ => idx | None => <[(inode, device) := name]> idx end.
Definition GetFilename (idx : index) (inode device : Z) : string := default ""%string (idx !! (inode, device)).
Definition Remove (idx : index) (inode device : Z) : index := delete (inode, device) idx.

Lemma lookup_new k : NewHardlinkIndex !! k = None.
Proof. apply lookup_empty. Qed.
Lemma lookup_Add (idx : index) i d name k :
  Add idx i d name !! k = if decide (k = (i, d)) then Some (default name (idx !! k)) else idx !! k.
Proof.
  unfold Add, index in *. case_decide as Hk.
  - subst k. destruct (idx !! (i, d)) eqn:E; [by rewrite E|]. by rewrite lookup_insert_eq.
  - destruct (idx !! (i, d)); [done|]. by rewrite lookup_insert_ne.
Qed.
End HardlinkIndex.

(** ** Bisection *)

Lemma search_loop_spec f n : (forall i j, (i <= j < n)%nat -> f i = true -> f j = true) ->
  forall fuel i j, (j - i <= fuel)%nat -> (i <= j <= n)%nat ->
  (forall k, (k < i)%nat -> f k = false) -> (forall k, (j <= k < n)%nat -> f k = true) ->
  let p := search_loop fuel f i j in
  (i <= p <= j)%nat /\ (forall k, (k < p)%nat -> f k = false) /\ (forall k, (p <= k < n)%nat -> f k = true).
Proof.
  intros Hmono. induction fuel as [|fuel IH]; intros i j Hf Hij Hlo Hhi; cbn [search_loop].
  { assert (i = j) as -> by lia. split; [lia|done]. }
  destruct (Nat.ltb_spec i j) as [Hlt|Hge].
  2: { assert (i = j) as -> by lia. split; [lia|done]. }
  pose proof (Nat.div_mod (i + j) 2 ltac:(lia)) as Hd. pose proof (Nat.mod_upper_bound (i + j) 2 ltac:(lia)).
  set (h := Nat.div (i + j) 2) in *. destruct (f h) eqn:Eh; cbn [negb].
  - destruct (IH i h) as (H1 & H2 & H3); [lia|lia|done| |split; [lia|done]].
    intros k Hk. apply (Hmono h k); [lia|done].
  - destruct (IH (h + 1)%nat j) as (H1 & H2 & H3); [lia|lia| |done|split; [lia|done]].
    intros k Hk. destruct (f k) eqn:Ek; [|done]. rewrite (Hmono k h) in Eh; [done|lia|done].
Qed.

Lemma Search_spec f n : (forall i j, (i <= j < n)%nat -> f i = true -> f j = true) ->
  (Search n f <= n)%nat /\ (forall k, (k < Search n f)%nat -> f k = false)
  /\ (forall k, (Search n f <= k < n)%nat -> f k = true).
Proof.
  intros Hm. destruct (search_loop_spec f n Hm n 0 n) as (H1 & H2 & H3); try lia.
  split; [unfold Search; lia|done].
Qed.

(** ** Sorted trees *)

Definition names (t : Tree) : list string := map n_Name (t_Nodes t).

(** The nodes are in strictly increasing order of their names. *)
Definition tree_wf (t : Tree) : Prop :=
  StronglySorted String.le (names t) /\ NoDup (names t).

(** A tree as a map from names to nodes. *)
Definition tree_map (t : Tree) : gmap string Node := list_to_map (map (fun n => (n_Name n, n)) (t_Nodes t)).

Lemma le_leb a b : String.le a b <-> String.leb a b = true.
Proof. unfold String.le. split; [apply Is_true_true_1|apply Is_true_true_2]. Qed.

Lemma name_at_lookup t i n : t_Nodes t !! i = Some n -> name_at (t_Nodes t) i = n_Name n.
Proof. intros Hi. unfold name_at. by rewrite Hi. Qed.

Lemma StronglySorted_lookup {A} (R : A -> A -> Prop) l i j a b :
  StronglySorted R l -> (i < j)%nat -> l !! i = Some a -> l !! j = Some b -> R a b.
Proof.
  intros HS. revert i j. induction HS as [|x l HS IH HF]; intros [|i] [|j] Hij Hi Hj; try done; try lia.
  - cbn in Hi, Hj. injection Hi as ->. rewrite Forall_forall in HF. apply HF. by eapply list_elem_of_lookup_2.
  - cbn in Hi, Hj. apply (IH i j); [lia|done|done].
Qed.

(** [find] in a tree in order: the position splits the tree at the name. *)
Lemma find_position t name : tree_wf t ->
  let pos := (find t name).1 in
  (pos <= length (t_Nodes t))%nat
  /\ (forall i n, (i < pos)%nat -> t_Nodes t !! i = Some n -> String.leb name (n_Name n) = false)
  /\ (forall i n, (pos <= i)%nat -> t_Nodes t !! i = Some n -> String.leb name (n_Name n) = true)
  /\ (find t name).2 = match t_Nodes t !! pos with
       | Some n => if bool_decide (n_Name n = name) then Some n else None | None => None end.
Proof.
  intros [HS HN]. cbv zeta. unfold find. set (f := fun i => string_geb (name_at (t_Nodes t) i) name).
  destruct (Search_spec f (length (t_Nodes t))) as (H1 & H2 & H3).
  { intros i j Hij Hi. unfold f, string_geb in *. destruct (decide (i = j)) as [->|Hne]; [done|].
    destruct (lookup_lt_is_Some_2 (t_Nodes t) i) as [a Ha]; [lia|].
    destruct (lookup_lt_is_Some_2 (t_Nodes t) j) as [b Hb]; [lia|].
    rewrite (name_at_lookup t _ _ Ha) in Hi. rewrite (name_at_lookup t _ _ Hb).
    apply le_leb. etransitivity; [by apply le_leb|].
    apply (StronglySorted_lookup _ _ i j _ _ HS); [lia|..]; unfold names; rewrite list_lookup_fmap; by rewrite ?Ha, ?Hb. }
  set (pos := Search (length (t_Nodes t)) f) in *.
  assert (Hp : (match t_Nodes t !! pos with
    | Some node => if bool_decide (n_Name node = name) then (pos, Some node) else (pos, None)
    | None => (pos, None) end).1 = pos) by (destruct (t_Nodes t !! pos); [case_bool_decide|]; done).
  rewrite Hp. split; [done|]. split; [|split].
  - intros i n Hi Hn. specialize (H2 i Hi). unfold f, string_geb in H2. by rewrite (name_at_lookup t _ _ Hn) in H2.
  - intros i n Hi Hn. specialize (H3 i). unfold f, string_geb in H3. rewrite (name_at_lookup t _ _ Hn) in H3. apply H3.
    split; [done|]. by eapply lookup_lt_Some.
  - destruct (t_Nodes t !! pos); [case_bool_decide|]; done.
Qed.

Lemma tree_map_Some t name n : NoDup (names t) -> tree_map t !! name = Some n <-> n ∈ t_Nodes t /\ n_Name n = name.
Proof.
  intros HN. unfold tree_map. rewrite <- elem_of_list_to_map.
  - rewrite list_elem_of_fmap. split; [intros (m & [= -> ->] & Hm); done|intros [Hn <-]; by exists n].
  - replace (map (fun n => (n_Name n, n)) (t_Nodes t)).*1 with (names t); [done|].
    unfold names. change (fmap fst) with (map (@fst string Node)). by rewrite map_map.
Qed.

Lemma find_map t name : tree_wf t -> (find t name).2 = tree_map t !! name.
Proof.
  intros Hwf. pose proof Hwf as [HS HN]. destruct (find_position t name Hwf) as (H1 & H2 & H3 & ->). cbv zeta in *.
  set (pos := (find t name).1) in *.
  destruct (tree_map t !! name) as [n|] eqn:EM.
  - apply tree_map_Some in EM as [Hin Hname]; [|done]. apply list_elem_of_lookup_1 in Hin as [i Hi].
    assert (i = pos) as ->.
    { destruct (Nat.lt_trichotomy i pos) as [Hlt|[?|Hgt]]; [|done|].
      - specialize (H2 i n Hlt Hi). rewrite Hname in H2. by rewrite (proj1 (le_leb name name)) in H2.
      - destruct (lookup_lt_is_Some_2 (t_Nodes t) pos) as [m Hm]; [apply lookup_lt_Some in Hi; lia|].
        assert (Hle : String.le (n_Name m) (n_Name n)).
        { apply (StronglySorted_lookup _ _ pos i _ _ HS); [lia|..]; unfold names; rewrite list_lookup_fmap; by rewrite ?Hi, ?Hm. }
        assert (Hge : String.le name (n_Name m)) by (apply le_leb; by apply (H3 pos)).
        assert (Heq : n_Name m = n_Name n).
        { apply (anti_symm String.le); [done|by rewrite Hname]. }
        apply (NoDup_lookup (names t) i pos (n_Name n)); [done|..]; unfold names; rewrite list_lookup_fmap;
          [by rewrite Hi|rewrite Hm; cbn; by rewrite Heq]. }
    rewrite Hi. by rewrite bool_decide_eq_true_2.
  - destruct (t_Nodes t !! pos) as [m|] eqn:Em; [|done]. case_bool_decide as Hm; [|done].
    assert (HM : tree_map t !! name = Some m) by (apply tree_map_Some; [done|]; split; [by eapply list_elem_of_lookup_2|done]).
    by rewrite HM in EM.
Qed.

Lemma StronglySorted_insert {A} (R : A -> A -> Prop) l1 l2 x :
  StronglySorted R (l1 ++ l2) -> Forall (fun y => R y x) l1 -> Forall (R x) l2 -> StronglySorted R (l1 ++ x :: l2).
Proof.
  induction l1 as [|y l1 IH]; cbn [app]; intros HS H1 H2; [by constructor|].
  inversion HS as [|? ? HS' HF]; subst. apply Forall_cons in H1 as [Hy H1]. constructor; [by apply IH|].
  rewrite Forall_app in *. destruct HF. by rewrite Forall_cons.
Qed.

Lemma Insert_spec t node : tree_wf t ->
  match Insert t node with
  | Ok t' => tree_map t !! n_Name node = None /\ tree_wf t' /\ t_Nodes t' ≡ₚ node :: t_Nodes t
      /\ tree_map t' = <[n_Name node := node]> (tree_map t)
  | Err (AlreadyPresent name) => name = n_Name node /\ is_Some (tree_map t !! name)
  | Panic _ => False
  end.
Proof.
  intros Hwf. pose proof Hwf as [HS HN]. destruct (find_position t (n_Name node) Hwf) as (H1 & H2 & H3 & _).
  pose proof (find_map t (n_Name node) Hwf) as HM. unfold Insert. cbv zeta in *.
  destruct (find t (n_Name node)) as [pos [n|]]; cbn [fst snd] in *; [split; [done|by rewrite <- HM]|].
  symmetry in HM. split; [done|].
  set (l1 := take pos (t_Nodes t)) in *. set (l2 := drop pos (t_Nodes t)) in *.
  assert (Hl : t_Nodes t = l1 ++ l2) by (unfold l1, l2; by rewrite take_drop).
  assert (Hfresh : n_Name node ∉ names t).
  { intros (n & Hn & Hin)%list_elem_of_fmap. rewrite (proj2 (tree_map_Some t (n_Name node) n HN)) in HM; done. }
  assert (HN' : NoDup (names (mkTree (l1 ++ node :: l2)))).
  { unfold names in *. cbn [t_Nodes]. rewrite Hl in HN, Hfresh. rewrite map_app in *. cbn [map].
    rewrite <- Permutation_middle. by apply NoDup_cons. }
  split; [split; [|done]|split].
  - unfold names in *. cbn [t_Nodes]. rewrite Hl in HS. rewrite map_app in *. cbn [map]. apply StronglySorted_insert; [done|..].
    + apply Forall_map, Forall_forall. intros n [i Hi]%list_elem_of_lookup_1.
      pose proof (lookup_lt_Some _ _ _ Hi) as Hlt. unfold l1 in Hlt, Hi. rewrite length_take in Hlt.
      rewrite lookup_take_lt in Hi by lia. specialize (H2 i n ltac:(lia) Hi).
      destruct (total String.le (n_Name n) (n_Name node)) as [?|Hle]; [done|]. apply le_leb in Hle. congruence.
    + apply Forall_map, Forall_forall. intros n [i Hi]%list_elem_of_lookup_1. unfold l2 in Hi. rewrite lookup_drop in Hi.
      apply le_leb, (H3 (pos + i)%nat); [lia|done].
  - cbn [t_Nodes]. rewrite Hl. by rewrite Permutation_middle.
  - apply map_eq. intros name. destruct (decide (name = n_Name node)) as [->|Hne].
    + rewrite lookup_insert_eq. apply tree_map_Some; [done|]. split; [|done]. cbn [t_Nodes]. apply elem_of_app. right. by left.
    + rewrite lookup_insert_ne by done. apply option_eq. intros n. rewrite !tree_map_Some by done. cbn [t_Nodes].
      rewrite Hl, !elem_of_app, elem_of_cons. split; [|tauto]. intros [[?|[->|?]] ?]; [tauto| |tauto]. congruence.
Qed.

Section tree_properties.
Context (sort : list Node -> list Node).
Context (sort_perm : forall l, sort l ≡ₚ l) (sort_sorted : forall l, StronglySorted String.le (map n_Name (sort l))).

(** C32: a tree is a map.  On a tree whose nodes are in strict order of their
    names, [Find] by bisection is the lookup of the map of its nodes; [Insert]
    refuses exactly the names that are there and otherwise yields a tree in
    order again, with the node added to the map and nothing else changed, so
    any sequence of insertions starting with [NewTree] stays ordered; and
    [Sort] puts any tree with distinct names in order without changing its
    map. *)
Theorem tree_refines_map (t : Tree) (node : Node) (name : string) :
  tree_wf NewTree /\ tree_map NewTree = ∅
  /\ (tree_wf t -> Find (Some t) name = tree_map t !! name
      /\ match Insert t node with
         | Ok t' => tree_map t !! n_Name node = None /\ tree_wf t' /\ t_Nodes t' ≡ₚ node :: t_Nodes t
             /\ tree_map t' = <[n_Name node := node]> (tree_map t)
         | Err (AlreadyPresent nm) => nm = n_Name node /\ is_Some (tree_map t !! nm)
         | Panic _ => False
         end)
  /\ (NoDup (names t) -> tree_wf (Sort sort t) /\ tree_map (Sort sort t) = tree_map t).
Proof.
  split; [split; constructor|]. split; [done|]. split.
  - intros Hwf. split; [by apply find_map|by apply Insert_spec].
  - intros HN. assert (HN' : NoDup (names (Sort sort t))).
    { unfold names, Sort. cbn [t_Nodes]. assert (HP : map n_Name (sort (t_Nodes t)) ≡ₚ names t) by (by apply Permutation_map).
      rewrite HP. exact HN. }
    split; [split; [apply sort_sorted|exact HN']|]. apply map_eq. intros nm. apply option_eq. intros n. rewrite !tree_map_Some by done.
    unfold Sort. cbn [t_Nodes]. by rewrite sort_perm.
Qed.
End tree_properties.

(** ** A concrete tree *)

Definition name_le (a b : Node) : Prop := String.le (n_Name a) (n_Name b).
#[global] Instance name_le_dec : RelDecision name_le.
Proof. intros a b. unfold name_le. apply _. Defined.
Definition sort_by_name (l : list Node) : list Node := merge_sort name_le l.

Lemma sort_by_name_sorted l : StronglySorted String.le (map n_Name (sort_by_name l)).
Proof.
  assert (Transitive name_le) by (intros a b c; unfold name_le; apply transitivity).
  assert (Total name_le) by (intros a b; unfold name_le; apply total, _).
  pose proof (StronglySorted_merge_sort name_le l) as HS. unfold sort_by_name.
  induction HS as [|x l' HS IH HF]; cbn [map]; constructor; [done|]. by apply Forall_map.
Qed.
Lemma sort_by_name_perm l : sort_by_name l ≡ₚ l.
Proof. apply merge_sort_Permutation. Qed.

Definition toy_node (name type : string) (content : list ID) (subtree : option ID) : Node :=
  mkNode name type 0 zeroTime zeroTime zeroTime 0 0 "" "" 0 0 0 1 "" [] 0 (Some content) subtree "" "".
Definition toy_tree : Tree := mkTree [toy_node "a" "file" [] None; toy_node "c" "file" [] None].

Lemma toy_tree_wf : tree_wf toy_tree.
Proof.
  split.
  - repeat constructor.
  - apply NoDup_cons. split; [|apply NoDup_singleton]. by intros ?%list_elem_of_singleton.
Qed.

Lemma tree_refines_map_witness :
  exists t', Insert toy_tree (toy_node "b" "file" [] None) = Ok t' /\ names t' = ["a"; "b"; "c"]%string /\ tree_wf t'
  /\ Find (Some toy_tree) "b" = tree_map toy_tree !! "b"%string.
Proof.
  destruct (tree_refines_map sort_by_name sort_by_name_perm sort_by_name_sorted toy_tree (toy_node "b" "file" [] None) "b")
    as (_ & _ & H & _). destruct (H toy_tree_wf) as [H1 H2]. clear H.
  destruct (Insert toy_tree (toy_node "b" "file" [] None)) as [t'|e|m] eqn:E; [|vm_compute in E; discriminate|vm_compute in E; discriminate].
  exists t'. assert (HN : names t' = ["a"; "b"; "c"]%string) by (vm_compute in E; injection E as <-; reflexivity).
  exact (conj eq_refl (conj HN (conj (proj1 (proj2 H2)) H1))).
Defined.

(** Finding: clamping the year of February 29 in 10000 also changes the day. *)
Lemma FixTime_day : FixTime (Date 10000 2 29 12 0 0 0 0) = Date 9999 3 1 12 0 0 0 0.
Proof. vm_compute. reflexivity. Qed.
