(* ===== verification/NodeJSON.v ===== *)
(** * NodeJSON: names of files in JSON

    The JSON form of nodes (src/restic/node.go): names of files are any bytes,
    and the JSON encoder replaces what is not UTF-8; so names are written with
    [strconv.Quote] and read with [strconv.Unquote], which are modelled here.
    Which runes are printable is a table of the library, and a parameter, like
    the encoder. *)

From Stdlib Require Import Strings.Byte.
From S2P Require Import Prelude Ids Duration Snapshots Trees.
#[local] Open Scope Z_scope.

(** ** UTF-8 *)

Definition MaxRune : Z := 0x10ffff.
Definition surrogate (r : Z) : bool := (0xd800 <=? r) && (r <=? 0xdfff).
(** [utf8.EncodeRune] *)
Definition EncodeRune (r : Z) : list byte :=
  if (r <? 0) || (MaxRune <? r) || surrogate r then [Byte.xef; Byte.xbf; Byte.xbd]
  else if r <? 128 then [Z_byte r]
  else if r <? 2048 then [Z_byte (192 + r / 64); Z_byte (128 + r mod 64)]
  else if r <? 65536 then [Z_byte (224 + r / 4096); Z_byte (128 + r / 64 mod 64); Z_byte (128 + r mod 64)]
  else [Z_byte (240 + r / 262144); Z_byte (128 + r / 4096 mod 64); Z_byte (128 + r / 64 mod 64); Z_byte (128 + r mod 64)].
Definition scalar (r : Z) : Prop := 0 <= r <= MaxRune /\ surrogate r = false.

Lemma scalar_encode r : scalar r -> EncodeRune r =
  if r <? 128 then [Z_byte r]
  else if r <? 2048 then [Z_byte (192 + r / 64); Z_byte (128 + r mod 64)]
  else if r <? 65536 then [Z_byte (224 + r / 4096); Z_byte (128 + r / 64 mod 64); Z_byte (128 + r mod 64)]
  else [Z_byte (240 + r / 262144); Z_byte (128 + r / 4096 mod 64); Z_byte (128 + r / 64 mod 64); Z_byte (128 + r mod 64)].
Proof.
  intros [Hr Hs]. unfold EncodeRune. rewrite Hs, (proj2 (Z.ltb_ge r 0)), (proj2 (Z.ltb_ge MaxRune r)) by lia. done.
Qed.
Lemma byte_of z : 0 <= z < 256 -> byte_Z (Z_byte z) = z.
Proof. intros Hz. rewrite Z_byte_Z. unfold u8. by rewrite Z.mod_small by lia. Qed.
Lemma byte_back b z : byte_Z b = z -> Z_byte z = b.
Proof. intros <-. apply byte_Z_byte. Qed.

Ltac division := Z.to_euclidean_division_equations; lia.
Lemma DecodeRune_Encode r tl : scalar r -> DecodeRune (EncodeRune r ++ tl) = (r, length (EncodeRune r)).
Proof.
  intros Hr. rewrite (scalar_encode r Hr). destruct Hr as [Hr Hs]. unfold MaxRune, surrogate in *.
  destruct (Z.ltb_spec r 128) as [H1|H1]; [|destruct (Z.ltb_spec r 2048) as [H2|H2]; [|destruct (Z.ltb_spec r 65536) as [H3|H3]]];
    cbn [app length]; unfold DecodeRune, cont_byte, low6.
  - rewrite byte_of by lia. by rewrite (proj2 (Z.ltb_lt r 128)).
  - rewrite !byte_of by division. set (z := 192 + r / 64). assert (Hz : 194 <= z <= 223) by (unfold z; division).
    rewrite (proj2 (Z.ltb_ge z 128)), (proj2 (Z.leb_le 194 z)), (proj2 (Z.leb_le z 223)) by lia. cbn [andb].
    rewrite (proj2 (Z.leb_le 128 _)), (proj2 (Z.leb_le _ 191)) by division. cbn [andb]. f_equal. unfold z. division.
  - rewrite !byte_of by division. set (z := 224 + r / 4096). assert (Hz : 224 <= z <= 239) by (unfold z; division).
    rewrite (proj2 (Z.ltb_ge z 128)), (proj2 (Z.leb_gt z 223)), andb_false_r, (proj2 (Z.leb_le 224 z)), (proj2 (Z.leb_le z 239)) by lia. cbn [andb].
    assert (Hc : (if z =? 224 then 160 else 128) <= 128 + r / 64 mod 64 <= (if z =? 237 then 159 else 191)).
    { apply andb_false_iff in Hs. rewrite !Z.leb_gt in Hs. destruct (Z.eqb_spec z 224), (Z.eqb_spec z 237); unfold z in *; division. }
    rewrite (proj2 (Z.leb_le _ (128 + r / 64 mod 64))), (proj2 (Z.leb_le (128 + r / 64 mod 64) _)) by apply Hc.
    rewrite (proj2 (Z.leb_le 128 _)), (proj2 (Z.leb_le _ 191)) by division. cbn [andb]. f_equal. unfold z. division.
  - rewrite !byte_of by division. set (z := 240 + r / 262144). assert (Hz : 240 <= z <= 244) by (unfold z; division).
    rewrite (proj2 (Z.ltb_ge z 128)), (proj2 (Z.leb_gt z 223)), (proj2 (Z.leb_gt z 239)), !andb_false_r, (proj2 (Z.leb_le 240 z)), (proj2 (Z.leb_le z 244)) by lia.
    cbn [andb]. assert (Hc : (if z =? 240 then 144 else 128) <= 128 + r / 4096 mod 64 <= (if z =? 244 then 143 else 191)).
    { destruct (Z.eqb_spec z 240), (Z.eqb_spec z 244); unfold z in *; division. }
    rewrite (proj2 (Z.leb_le _ (128 + r / 4096 mod 64))), (proj2 (Z.leb_le (128 + r / 4096 mod 64) _)) by apply Hc.
    rewrite (proj2 (Z.leb_le 128 (128 + r / 64 mod 64))), (proj2 (Z.leb_le (128 + r / 64 mod 64) 191)) by division.
    rewrite (proj2 (Z.leb_le 128 _)), (proj2 (Z.leb_le _ 191)) by division. cbn [andb]. f_equal. unfold z. division.
Qed.

(** A rune that was read is one that encodes to the bytes that were read,
    unless these are not UTF-8. *)
Lemma DecodeRune_valid b0 l r k : DecodeRune (b0 :: l) = (r, k) ->
  (r = RuneError /\ k = 1%nat) \/ (scalar r /\ take k (b0 :: l) = EncodeRune r).
Proof.
  unfold DecodeRune, cont_byte, low6. pose proof (byte_Z_range b0) as B0. destruct (Z.ltb_spec (byte_Z b0) 128) as [H1|H1].
  { intros [= <- <-]. right. assert (Hs : scalar (byte_Z b0)).
    { unfold scalar, MaxRune, surrogate. split; [lia|]. by rewrite (proj2 (Z.leb_gt 0xd800 (byte_Z b0))) by lia. }
    split; [done|]. rewrite scalar_encode by done. rewrite (proj2 (Z.ltb_lt _ 128)) by lia. by rewrite byte_Z_byte. }
  destruct ((194 <=? byte_Z b0) && (byte_Z b0 <=? 223)) eqn:H2.
  { apply andb_true_iff in H2 as [?%Z.leb_le ?%Z.leb_le]. destruct l as [|b1 l]; [intros [= <- <-]; by left|]. pose proof (byte_Z_range b1) as B1.
    destruct ((128 <=? byte_Z b1) && (byte_Z b1 <=? 191)) eqn:H3; [|intros [= <- <-]; by left]. apply andb_true_iff in H3 as [?%Z.leb_le ?%Z.leb_le].
    intros [= <- <-]. right. set (r := byte_Z b0 mod 32 * 64 + byte_Z b1 mod 64). assert (Hr : 128 <= r < 2048) by (unfold r; division).
    assert (Hs : scalar r) by (unfold scalar, MaxRune, surrogate; split; [lia|]; by rewrite (proj2 (Z.leb_gt 0xd800 r)) by lia).
    split; [done|]. rewrite scalar_encode by done. rewrite (proj2 (Z.ltb_ge r 128)), (proj2 (Z.ltb_lt r 2048)) by lia. cbn [take].
    repeat f_equal; symmetry; apply byte_back; unfold r; division. }
  destruct ((224 <=? byte_Z b0) && (byte_Z b0 <=? 239)) eqn:H3.
  { apply andb_true_iff in H3 as [?%Z.leb_le ?%Z.leb_le]. destruct l as [|b1 [|b2 l]]; [intros [= <- <-]; by left..|].
    pose proof (byte_Z_range b1) as B1. pose proof (byte_Z_range b2) as B2.
    match goal with |- (if ?c then _ else _) = _ -> _ => destruct c eqn:H4 end; [|intros [= <- <-]; by left].
    apply andb_true_iff in H4 as [[?%Z.leb_le ?%Z.leb_le]%andb_true_iff [?%Z.leb_le ?%Z.leb_le]%andb_true_iff].
    intros [= <- <-]. right. set (r := byte_Z b0 mod 16 * 4096 + byte_Z b1 mod 64 * 64 + byte_Z b2 mod 64).
    assert (Hr : 2048 <= r < 65536) by (unfold r; destruct (Z.eqb_spec (byte_Z b0) 224), (Z.eqb_spec (byte_Z b0) 237); division).
    assert (Hs : scalar r).
    { unfold scalar, MaxRune, surrogate. split; [lia|]. apply andb_false_iff. rewrite !Z.leb_gt.
      unfold r; destruct (Z.eqb_spec (byte_Z b0) 224), (Z.eqb_spec (byte_Z b0) 237); division. }
    split; [done|]. rewrite scalar_encode by done. rewrite (proj2 (Z.ltb_ge r 128)), (proj2 (Z.ltb_ge r 2048)), (proj2 (Z.ltb_lt r 65536)) by lia. cbn [take].
    assert (128 <= byte_Z b1 <= 191) by (destruct (Z.eqb_spec (byte_Z b0) 224), (Z.eqb_spec (byte_Z b0) 237); lia).
    repeat f_equal; symmetry; apply byte_back; unfold r; division. }
  destruct ((240 <=? byte_Z b0) && (byte_Z b0 <=? 244)) eqn:H4; [|intros [= <- <-]; by left].
  apply andb_true_iff in H4 as [?%Z.leb_le ?%Z.leb_le]. destruct l as [|b1 [|b2 [|b3 l]]]; [intros [= <- <-]; by left..|].
  pose proof (byte_Z_range b1) as B1. pose proof (byte_Z_range b2) as B2. pose proof (byte_Z_range b3) as B3.
  match goal with |- (if ?c then _ else _) = _ -> _ => destruct c eqn:H5 end; [|intros [= <- <-]; by left].
  apply andb_true_iff in H5 as [[[?%Z.leb_le ?%Z.leb_le]%andb_true_iff [?%Z.leb_le ?%Z.leb_le]%andb_true_iff]%andb_true_iff [?%Z.leb_le ?%Z.leb_le]%andb_true_iff].
  intros [= <- <-]. right. set (r := byte_Z b0 mod 8 * 262144 + byte_Z b1 mod 64 * 4096 + byte_Z b2 mod 64 * 64 + byte_Z b3 mod 64).
  assert (Hr : 65536 <= r <= 0x10ffff) by (unfold r; destruct (Z.eqb_spec (byte_Z b0) 240), (Z.eqb_spec (byte_Z b0) 244); division).
  assert (Hs : scalar r).
  { unfold scalar, MaxRune, surrogate. split; [lia|]. apply andb_false_iff. rewrite !Z.leb_gt. lia. }
  split; [done|]. rewrite scalar_encode by done. rewrite (proj2 (Z.ltb_ge r 128)), (proj2 (Z.ltb_ge r 2048)), (proj2 (Z.ltb_ge r 65536)) by lia. cbn [take].
  assert (128 <= byte_Z b1 <= 191) by (destruct (Z.eqb_spec (byte_Z b0) 240), (Z.eqb_spec (byte_Z b0) 244); lia).
  repeat f_equal; symmetry; apply byte_back; unfold r; division.
Qed.

(** ** Quoting (strconv.Quote, without the quotes around) *)

Class Printable : Type := { IsPrint : Z -> bool }.
Class PrintableLaws `{Printable} : Prop := { control_not_printable r : r < 32 -> IsPrint r = false }.

Definition dquote : Z := 34.
Definition backslash : Z := 92.
Definition escape (c : byte) : list byte := [Byte.x5c; c].
(** The lower 4 bits times [n] of a number, in hexadecimal. *)
Fixpoint hex_digits (n : nat) (r : Z) : list byte :=
  match n with
  | O => []
  | S n => Hex.hextable (r / 16 ^ Z.of_nat n mod 16) :: hex_digits n r
  end.
(** [appendEscapedRune] *)
Definition escaped_rune `{Printable} (r : Z) : list byte :=
  if (r =? dquote) || (r =? backslash) then escape (Z_byte r)
  else if IsPrint r then EncodeRune r
  else if r =? 7 then escape Byte.x61
  else if r =? 8 then escape Byte.x62
  else if r =? 12 then escape Byte.x66
  else if r =? 10 then escape Byte.x6e
  else if r =? 13 then escape Byte.x72
  else if r =? 9 then escape Byte.x74
  else if r =? 11 then escape Byte.x76
  else if r <? 32 then escape Byte.x78 ++ hex_digits 2 r
  else
    let r := if MaxRune <? r then RuneError else r in
    if r <? 65536 then escape Byte.x75 ++ hex_digits 4 r
    else escape Byte.x55 ++ hex_digits 8 r.
Definition quoted_rune `{Printable} (s : list byte) (r : Z) (k : nat) : list byte :=
  if (r =? RuneError) && (k =? 1)%nat then escape Byte.x78 ++ hex_digits 2 (match s with b :: _ => byte_Z b | [] => 0 end)
  else escaped_rune r.
Fixpoint quote_fuel `{Printable} (fuel : nat) (s : list byte) : list byte :=
  match fuel, s with
  | S fuel, _ :: _ => let '(r, k) := DecodeRune s in quoted_rune s r k ++ quote_fuel fuel (drop k s)
  | _, _ => []
  end.
Definition Quote `{Printable} (s : list byte) : list byte := quote_fuel (length s) s.

(** ** Unquoting (strconv.Unquote, of a string in double quotes) *)

Definition i32 (z : Z) : Z := (z + 2 ^ 31) mod 2 ^ 32 - 2 ^ 31.
Fixpoint parse_hex (n : nat) (s : list byte) (v : Z) : option (Z * list byte) :=
  match n, s with
  | O, _ => Some (v, s)
  | S n, c :: s => match Hex.fromHexChar c with Some x => parse_hex n s (i32 (v * 16 + x)) | None => None end
  | S _, [] => None
  end.
Definition octal (c : byte) : option Z := let z := byte_Z c - 48 in if (0 <=? z) && (z <=? 7) then Some z else None.
(** [UnquoteChar]: the value, whether it is a rune of several bytes, and the
    rest. *)
Definition UnquoteChar (s : list byte) : option (Z * bool * list byte) :=
  match s with
  | [] => None
  | c :: rest =>
      if byte_Z c =? dquote then None
      else if 128 <=? byte_Z c then let '(r, k) := DecodeRune s in Some (r, true, drop k s)
      else if negb (byte_Z c =? backslash) then Some (byte_Z c, false, rest)
      else match rest with
      | [] => None
      | c :: s =>
          match c with
          | Byte.x61 => Some (7, false, s)
          | Byte.x62 => Some (8, false, s)
          | Byte.x66 => Some (12, false, s)
          | Byte.x6e => Some (10, false, s)
          | Byte.x72 => Some (13, false, s)
          | Byte.x74 => Some (9, false, s)
          | Byte.x76 => Some (11, false, s)
          | Byte.x78 => match parse_hex 2 s 0 with Some (v, s) => Some (v, false, s) | None => None end
          | Byte.x75 => match parse_hex 4 s 0 with Some (v, s) => if MaxRune <? v then None else Some (v, true, s) | None => None end
          | Byte.x55 => match parse_hex 8 s 0 with Some (v, s) => if MaxRune <? v then None else Some (v, true, s) | None => None end
          | Byte.x5c => Some (backslash, false, s)
          | Byte.x22 => Some (dquote, false, s)
          | _ =>
              match octal c, s with
              | Some v, c1 :: c2 :: s =>
                  match octal c1, octal c2 with
                  | Some x, Some y => let v := (v * 8 + x) * 8 + y in if 255 <? v then None else Some (v, false, s)
                  | _, _ => None
                  end
              | _, _ => None
              end
          end
      end
  end.
Fixpoint unquote_fuel (fuel : nat) (s : list byte) : option (list byte) :=
  match s with
  | [] => Some []
  | _ :: _ =>
      match fuel with
      | O => None
      | S fuel =>
          match UnquoteChar s with
          | None => None
          | Some (c, multibyte, s) =>
              match unquote_fuel fuel s with
              | None => None
              | Some rest => Some ((if (c <? 128) || negb multibyte then [Z_byte c] else EncodeRune c) ++ rest)
              end
          end
      end
  end.
(** [utf8.ValidString] *)
Definition valid_rune (x : Z * list byte) : bool := negb ((x.1 =? RuneError) && (length x.2 =? 1)%nat).
Definition ValidString (s : list byte) : bool := forallb valid_rune (runes s).
Definition Unquote (s : list byte) : option (list byte) :=
  if bool_decide (Byte.x0a ∈ s) then None
  else if bool_decide (Byte.x5c ∉ s) && bool_decide (Byte.x22 ∉ s) && ValidString s then Some s
  else unquote_fuel (length s) s.

(** ** Unquoting what was quoted *)

Lemma pow16 n : 0 < 16 ^ Z.of_nat n.
Proof. apply Z.pow_pos_nonneg; lia. Qed.
Lemma parse_hex_digits n : forall r v rest, 0 <= r -> 0 <= v -> v * 16 ^ Z.of_nat n + r mod 16 ^ Z.of_nat n < 2 ^ 31 ->
  parse_hex n (hex_digits n r ++ rest) v = Some (v * 16 ^ Z.of_nat n + r mod 16 ^ Z.of_nat n, rest).
Proof.
  induction n as [|n IH]; intros r v rest Hr Hv Hb; [cbn [hex_digits app parse_hex]; rewrite Z.mod_1_r; repeat f_equal; lia|].
  cbn [hex_digits app parse_hex]. pose proof (pow16 n) as Hp. set (p := 16 ^ Z.of_nat n) in *.
  assert (Hpow : 16 ^ Z.of_nat (S n) = 16 * p) by (unfold p; rewrite Nat2Z.inj_succ, Z.pow_succ_r; lia). rewrite Hpow in *.
  set (d := r / p mod 16). assert (Hd : 0 <= d < 16) by (apply Z.mod_pos_bound; lia). rewrite Hex.fromHexChar_hextable by done.
  assert (Hmod : r mod (16 * p) = d * p + r mod p) by (unfold d; rewrite (Z.mul_comm 16 p), Z.rem_mul_r by lia; lia).
  pose proof (Z.mod_pos_bound r p ltac:(lia)) as Hm. assert (Hv' : i32 (v * 16 + d) = v * 16 + d) by (unfold i32; rewrite Z.mod_small; nia).
  rewrite Hv', IH; [|done|lia|nia]. do 2 f_equal. rewrite Hmod. lia.
Qed.
Lemma hex_digit_ascii n r b : b ∈ hex_digits n r -> 48 <= byte_Z b < 128.
Proof.
  induction n as [|n IH]; cbn [hex_digits]; [by intros ?%elem_of_nil|]. intros [->|?]%elem_of_cons; [|by apply IH].
  pose proof (Z.mod_pos_bound (r / 16 ^ Z.of_nat n) 16 ltac:(lia)) as H. unfold Hex.hextable. destruct (Z.ltb_spec (r / 16 ^ Z.of_nat n mod 16) 10); rewrite byte_of; lia.
Qed.
Lemma EncodeRune_bytes r b : scalar r -> b ∈ EncodeRune r -> byte_Z b = r \/ 128 <= byte_Z b /\ 128 <= r.
Proof.
  intros Hr. rewrite scalar_encode by done. destruct Hr as [Hr _]. unfold MaxRune in Hr.
  destruct (Z.ltb_spec r 128); [|destruct (Z.ltb_spec r 2048); [|destruct (Z.ltb_spec r 65536)]]; rewrite !elem_of_cons, elem_of_nil;
    intros Hb; destruct_or!; try done; subst b; rewrite byte_of by division; (left; lia) || (right; division).
Qed.
Lemma EncodeRune_head r : scalar r -> 128 <= r -> exists b l, EncodeRune r = b :: l /\ 128 <= byte_Z b.
Proof.
  intros Hr H. destruct (EncodeRune r) as [|b l] eqn:E; [rewrite scalar_encode in E by done; by repeat destruct (_ <? _)|].
  exists b, l. split; [done|]. destruct (EncodeRune_bytes r b Hr) as [?|[? _]]; [rewrite E; by left|lia|done].
Qed.

(** What a character of the quoted form reads back as. *)
Definition unquoted (c : Z) (multibyte : bool) : list byte := if (c <? 128) || negb multibyte then [Z_byte c] else EncodeRune c.
Definition reads_back (chunk bytes : list byte) : Prop :=
  chunk ≠ [] /\ Byte.x0a ∉ chunk /\ forall rest, exists c m, UnquoteChar (chunk ++ rest) = Some (c, m, rest) /\ unquoted c m = bytes.

Section quoting.
Context {PR : Printable} {PL : PrintableLaws}.
(** The two-letter escapes compute. *)
Lemma reads_escape r c : UnquoteChar [Byte.x5c; c] = Some (r, false, []) -> (forall rest, UnquoteChar (Byte.x5c :: c :: rest) = Some (r, false, rest)) ->
  c ≠ Byte.x0a -> reads_back (escape c) [Z_byte r].
Proof.
  intros _ Hc Hn. split; [done|]. split; [unfold escape; rewrite !elem_of_cons, elem_of_nil; naive_solver|]. intros rest. exists r, false.
  split; [apply Hc|]. unfold unquoted. by rewrite orb_true_r.
Qed.
Lemma no_newline_digits n r : Byte.x0a ∉ hex_digits n r.
Proof. intros Hb%hex_digit_ascii. change (byte_Z Byte.x0a) with 10 in Hb. lia. Qed.

Lemma reads_hex2 v : 0 <= v < 256 -> reads_back (escape Byte.x78 ++ hex_digits 2 v) [Z_byte v].
Proof.
  intros Hv. split; [done|]. split; [unfold escape; rewrite elem_of_app, !elem_of_cons, elem_of_nil; pose proof (no_newline_digits 2 v); naive_solver|].
  intros rest. exists v, false. rewrite <- app_assoc. cbn [escape app].
  assert (E : parse_hex 2 (hex_digits 2 v ++ rest) 0 = Some (v, rest)).
  { rewrite parse_hex_digits; [|lia..|]; change (16 ^ Z.of_nat 2) with 256; rewrite Z.mod_small by lia; [done|lia]. }
  unfold UnquoteChar. rewrite E. split; [done|]. unfold unquoted. by rewrite orb_true_r.
Qed.
Lemma reads_hex_rune n c r : (n = 4%nat /\ c = Byte.x75 /\ r < 65536 \/ n = 8%nat /\ c = Byte.x55) -> scalar r ->
  reads_back (escape c ++ hex_digits n r) (if r <? 128 then [Z_byte r] else EncodeRune r).
Proof.
  intros Hn Hr. split; [by destruct Hn as [(_ & -> & _)|[_ ->]]|].
  split; [unfold escape; rewrite elem_of_app, !elem_of_cons, elem_of_nil; pose proof (no_newline_digits n r); naive_solver|].
  intros rest. exists r, true. rewrite <- app_assoc. cbn [escape app]. pose proof Hr as [Hr' _]. unfold MaxRune in Hr'.
  assert (Hm : r mod 16 ^ Z.of_nat n = r) by (apply Z.mod_small; destruct Hn as [(-> & _ & ?)|[-> _]]; cbn; lia).
  assert (E : parse_hex n (hex_digits n r ++ rest) 0 = Some (r, rest)) by (rewrite parse_hex_digits; rewrite ?Hm; [done|lia..]).
  assert (Hmax : (MaxRune <? r) = false) by (apply Z.ltb_ge; unfold MaxRune; lia).
  unfold UnquoteChar, unquoted. rewrite orb_false_r. destruct Hn as [(-> & -> & _)|[-> ->]]; cbn -[parse_hex hex_digits]; rewrite E, Hmax; done.
Qed.
Lemma reads_printable r : scalar r -> r ≠ dquote -> r ≠ backslash -> r ≠ 10 -> reads_back (EncodeRune r) (EncodeRune r).
Proof.
  intros Hr H1 H2 H3. unfold dquote, backslash in *. split; [rewrite scalar_encode by done; by repeat destruct (_ <? _)|].
  split; [intros Hb; apply EncodeRune_bytes in Hb as [Hb|[Hb _]]; [|change (byte_Z Byte.x0a) with 10 in Hb; lia|done]; change (byte_Z Byte.x0a) with 10 in Hb; lia|].
  intros rest. destruct (Z.ltb_spec r 128) as [Hs|Hs].
  - rewrite scalar_encode by done. rewrite (proj2 (Z.ltb_lt r 128)) by done. cbn [app]. exists r, false. unfold UnquoteChar, dquote, backslash.
    destruct Hr as [Hr _]. rewrite byte_of by lia. rewrite (proj2 (Z.eqb_neq r 34)), (proj2 (Z.leb_gt 128 r)), (proj2 (Z.eqb_neq r 92)) by done. cbn [negb].
    split; [done|]. unfold unquoted. by rewrite orb_true_r.
  - destruct (EncodeRune_head r Hr Hs) as (b & l & E & Hb). pose proof (DecodeRune_Encode r rest Hr) as HD. exists r, true. unfold UnquoteChar.
    rewrite E in *. cbn [app] in *. unfold dquote. rewrite (proj2 (Z.eqb_neq (byte_Z b) 34)), (proj2 (Z.leb_le 128 (byte_Z b))) by lia. rewrite HD.
    split; [cbn [length drop]; by rewrite drop_app_length|]. unfold unquoted. rewrite (proj2 (Z.ltb_ge r 128)) by lia. by rewrite <- E.
Qed.

Lemma small_rune r : 0 <= r < 128 -> EncodeRune r = [Z_byte r].
Proof. intros Hr. unfold EncodeRune, MaxRune, surrogate. rewrite (proj2 (Z.ltb_ge r 0)), (proj2 (Z.ltb_ge 0x10ffff r)), (proj2 (Z.leb_gt 0xd800 r)), (proj2 (Z.ltb_lt r 128)) by lia. done. Qed.
Lemma escaped_reads r : scalar r -> reads_back (escaped_rune r) (EncodeRune r).
Proof using PL.
  intros Hr. pose proof Hr as [Hr' _]. unfold MaxRune in Hr'. unfold escaped_rune, dquote, backslash.
  destruct (Z.eqb_spec r 34) as [->|]; [apply (reads_escape 34 Byte.x22); done|].
  destruct (Z.eqb_spec r 92) as [->|]; [apply (reads_escape 92 Byte.x5c); done|]. cbn [orb].
  destruct (IsPrint r) eqn:EP.
  { apply reads_printable; [done..|]. intros ->. by rewrite control_not_printable in EP by lia. }
  destruct (Z.eqb_spec r 7) as [->|]; [apply (reads_escape 7 Byte.x61); done|].
  destruct (Z.eqb_spec r 8) as [->|]; [apply (reads_escape 8 Byte.x62); done|].
  destruct (Z.eqb_spec r 12) as [->|]; [apply (reads_escape 12 Byte.x66); done|].
  destruct (Z.eqb_spec r 10) as [->|]; [apply (reads_escape 10 Byte.x6e); done|].
  destruct (Z.eqb_spec r 13) as [->|]; [apply (reads_escape 13 Byte.x72); done|].
  destruct (Z.eqb_spec r 9) as [->|]; [apply (reads_escape 9 Byte.x74); done|].
  destruct (Z.eqb_spec r 11) as [->|]; [apply (reads_escape 11 Byte.x76); done|].
  destruct (Z.ltb_spec r 32); [rewrite small_rune by lia; apply reads_hex2; lia|].
  rewrite (proj2 (Z.ltb_ge MaxRune r)) by (unfold MaxRune; lia). cbv zeta.
  assert (Hsm : EncodeRune r = if r <? 128 then [Z_byte r] else EncodeRune r) by (destruct (Z.ltb_spec r 128); [by rewrite small_rune by lia|done]).
  rewrite Hsm. destruct (Z.ltb_spec r 65536); apply reads_hex_rune; auto.
Qed.
Lemma quoted_reads b l r k : DecodeRune (b :: l) = (r, k) -> reads_back (quoted_rune (b :: l) r k) (take k (b :: l)).
Proof using PL.
  intros HD. unfold quoted_rune. destruct (DecodeRune_valid b l r k HD) as [[-> ->]|[Hr Ht]].
  - change ((RuneError =? RuneError) && (1 =? 1)%nat) with true. cbv iota. cbn [take]. rewrite <- (byte_Z_byte b) at 2. apply reads_hex2. apply byte_Z_range.
  - rewrite Ht. destruct ((r =? RuneError) && (k =? 1)%nat) eqn:E; [|by apply escaped_reads].
    apply andb_true_iff in E as [->%Z.eqb_eq ->%Nat.eqb_eq]. discriminate Ht.
Qed.

Lemma quote_unquote_fuel n : forall s m, (length s <= n)%nat -> (length (quote_fuel n s) <= m)%nat ->
  unquote_fuel m (quote_fuel n s) = Some s /\ Byte.x0a ∉ quote_fuel n s.
Proof using PL.
  induction n as [|n IH]; intros s m Hn Hm.
  { destruct s; [|cbn in Hn; lia]. cbn [quote_fuel]. split; [by destruct m|apply not_elem_of_nil]. }
  destruct s as [|b l]; [cbn [quote_fuel]; split; [by destruct m|apply not_elem_of_nil]|].
  cbn [quote_fuel] in *. pose proof (DecodeRune_width b l) as Hw. destruct (DecodeRune (b :: l)) as [r k] eqn:HD. cbn [snd] in Hw.
  destruct (quoted_reads b l r k HD) as (Hne & Hnl & Hread). set (chunk := quoted_rune (b :: l) r k) in *. set (tl := quote_fuel n (drop k (b :: l))) in *.
  destruct (Hread tl) as (c & mb & HU & Hc). rewrite length_app in Hm. assert (1 <= length chunk)%nat by (destruct chunk; [done|cbn; lia]).
  destruct m as [|m]; [lia|]. destruct (IH (drop k (b :: l)) m) as [H1 H2]; [rewrite length_drop; cbn [length] in *; lia|fold tl; lia|]. fold tl in H1, H2.
  split; [|rewrite elem_of_app; by intros [?|?]]. destruct (chunk ++ tl) as [|x xs] eqn:EC; [by destruct chunk|]. cbn [unquote_fuel]. rewrite HU, H1.
  f_equal. fold (unquoted c mb). rewrite Hc. apply take_drop.
Qed.

(** A string without backslashes and quotes that is UTF-8 reads as itself. *)
Lemma unquote_plain n : forall s, (length s <= n)%nat -> Byte.x5c ∉ s -> Byte.x22 ∉ s -> forallb valid_rune (runes_fuel n s) = true -> unquote_fuel n s = Some s.
Proof.
  induction n as [|n IH]; intros [|b l] Hn H1 H2 Hv; try done; [cbn in Hn; lia|]. cbn [runes_fuel] in Hv. pose proof (DecodeRune_width b l) as Hw.
  destruct (DecodeRune (b :: l)) as [r k] eqn:HD. cbn [snd] in Hw. cbn [forallb] in Hv. apply andb_true_iff in Hv as [Hv1 Hv2].
  assert (IH' : unquote_fuel n (drop k (b :: l)) = Some (drop k (b :: l))).
  { apply IH; [rewrite length_drop; cbn [length] in *; lia| | |done]; intros Hin; [apply H1|apply H2]; rewrite <- (take_drop k (b :: l)); apply elem_of_app; by right. }
  destruct (DecodeRune_valid b l r k HD) as [[-> ->]|[Hr Ht]]; [by destruct l|].
  cbn [unquote_fuel]. unfold UnquoteChar, dquote, backslash.
  assert (B1 : byte_Z b ≠ 34) by (intros E; apply H2; apply elem_of_cons; left; by apply byte_Z_inj).
  assert (B2 : byte_Z b ≠ 92) by (intros E; apply H1; apply elem_of_cons; left; by apply byte_Z_inj).
  rewrite (proj2 (Z.eqb_neq _ _) B1). destruct (Z.leb_spec 128 (byte_Z b)).
  - rewrite HD, IH'. f_equal. rewrite orb_false_r. assert (128 <= r).
    { destruct (Z.lt_ge_cases r 128); [|done]. exfalso. destruct Hr as [Hr _]. rewrite small_rune in Ht by lia. destruct k as [|k]; [lia|]. injection Ht as Hb _.
      subst b. rewrite byte_of in *; lia. }
    rewrite (proj2 (Z.ltb_ge r 128)) by lia. rewrite <- Ht. apply take_drop.
  - rewrite (proj2 (Z.eqb_neq _ _) B2). cbn [negb]. rewrite DecodeRune_ascii in HD by (unfold is_ascii; lia). injection HD as <- <-. cbn [drop] in IH'. rewrite drop_0 in IH'. rewrite IH'.
    rewrite orb_true_r. cbn [app]. by rewrite byte_Z_byte.
Qed.
Lemma Unquote_Quote s : Unquote (Quote s) = Some s.
Proof using PL.
  unfold Unquote, Quote. destruct (quote_unquote_fuel (length s) s (length (quote_fuel (length s) s)) (le_n _) (le_n _)) as [H1 H2].
  rewrite bool_decide_eq_false_2 by done. destruct (bool_decide _ && bool_decide _ && ValidString _) eqn:E; [|done].
  apply andb_true_iff in E as [[E1%bool_decide_eq_true_1 E2%bool_decide_eq_true_1]%andb_true_iff E3]. unfold ValidString, runes in E3.
  rewrite <- H1. symmetry. by apply unquote_plain.
Qed.
End quoting.

(** ** What JSON needs *)

Lemma runes_fuel_enough n : forall s m, (length s <= n)%nat -> (length s <= m)%nat -> runes_fuel n s = runes_fuel m s.
Proof.
  induction n as [|n IH]; intros [|b l] [|m] Hn Hm; try done; try (cbn in *; lia). cbn [runes_fuel]. pose proof (DecodeRune_width b l) as Hw.
  destruct (DecodeRune (b :: l)) as [r k]. cbn [snd] in Hw. f_equal. apply IH; rewrite length_drop; cbn [length] in *; lia.
Qed.
Lemma runes_step b l r k : DecodeRune (b :: l) = (r, k) -> runes (b :: l) = (r, take k (b :: l)) :: runes (drop k (b :: l)).
Proof.
  intros HD. unfold runes at 1. cbn [length runes_fuel]. rewrite HD. f_equal. pose proof (DecodeRune_width b l) as Hw. rewrite HD in Hw. cbn [snd] in Hw.
  apply runes_fuel_enough; rewrite length_drop; cbn [length]; lia.
Qed.
Lemma runes_encode r rest : scalar r -> runes (EncodeRune r ++ rest) = (r, EncodeRune r) :: runes rest.
Proof.
  intros Hr. pose proof (DecodeRune_Encode r rest Hr) as HD. destruct (EncodeRune r) as [|b l] eqn:E.
  { rewrite scalar_encode in E by done. by repeat destruct (_ <? _). }
  cbn [app] in *. rewrite (runes_step _ _ _ _ HD). cbn [length take drop]. by rewrite take_app_length, drop_app_length.
Qed.
(** Bytes that do not spoil UTF-8. *)
Definition harmless (chunk : list byte) : Prop := forall rest, ValidString (chunk ++ rest) = ValidString rest.
Lemma harmless_app a b : harmless a -> harmless b -> harmless (a ++ b).
Proof. intros Ha Hb rest. by rewrite <- app_assoc, Ha, Hb. Qed.
Lemma harmless_encode r : scalar r -> harmless (EncodeRune r).
Proof.
  intros Hr rest. unfold ValidString. rewrite runes_encode by done. cbn [forallb]. unfold valid_rune at 1. cbn [fst snd].
  destruct (Z.eqb_spec r RuneError) as [->|]; done.
Qed.
Lemma harmless_byte b : byte_Z b < 128 -> harmless [b].
Proof.
  intros Hb. rewrite <- (byte_Z_byte b). pose proof (byte_Z_range b). rewrite <- small_rune by lia. apply harmless_encode. unfold scalar, MaxRune, surrogate.
  split; [lia|]. by rewrite (proj2 (Z.leb_gt 0xd800 (byte_Z b))) by lia.
Qed.
Lemma harmless_ascii l : (forall b, b ∈ l -> byte_Z b < 128) -> harmless l.
Proof.
  induction l as [|b l IH]; intros Hl; [by intros rest|]. apply (harmless_app [b] l).
  - apply harmless_byte, Hl. by left.
  - apply IH. intros c Hc. apply Hl. by right.
Qed.
Lemma harmless_escape c l : byte_Z c < 128 -> (forall b, b ∈ l -> byte_Z b < 128) -> harmless (escape c ++ l).
Proof.
  intros Hc Hl. apply harmless_ascii. intros b. unfold escape. cbn [app]. rewrite !elem_of_cons. intros [->|[->|Hb]]; [done|done|by apply Hl].
Qed.
Lemma harmless_hex c n r : byte_Z c < 128 -> harmless (escape c ++ hex_digits n r).
Proof. intros Hc. apply harmless_escape; [done|]. intros b Hb%hex_digit_ascii. lia. Qed.

Section json.
Context {PR : Printable} {PL : PrintableLaws}.
Lemma escaped_harmless r : scalar r -> harmless (escaped_rune r).
Proof using.
  intros Hr. unfold escaped_rune. destruct ((r =? dquote) || (r =? backslash)) eqn:E.
  { apply (harmless_escape _ []); [|by intros b ?%elem_of_nil]. unfold dquote, backslash in E. apply orb_true_iff in E as [->%Z.eqb_eq| ->%Z.eqb_eq]; done. }
  destruct (IsPrint r); [by apply harmless_encode|].
  repeat (match goal with |- harmless (if ?c then escape _ else _) => destruct c; [apply (harmless_escape _ []); [done|by intros b ?%elem_of_nil]|] end).
  destruct (r <? 32); [by apply harmless_hex|]. cbv zeta. destruct (_ <? 65536); by apply harmless_hex.
Qed.
(** The quoted form of any bytes is UTF-8. *)
Lemma Quote_valid s : ValidString (Quote s) = true.
Proof using.
  unfold Quote. generalize (length s) as n. intros n. revert s. induction n as [|n IH]; intros [|b l]; try done. cbn [quote_fuel].
  destruct (DecodeRune (b :: l)) as [r k] eqn:HD. assert (Hh : harmless (quoted_rune (b :: l) r k)); [|by rewrite Hh].
  unfold quoted_rune. destruct ((r =? RuneError) && (k =? 1)%nat) eqn:E; [by apply harmless_hex|].
  destruct (DecodeRune_valid b l r k HD) as [[-> ->]|[Hr _]]; [done|by apply escaped_harmless].
Qed.
End json.

(** The encoder replaces bytes that are not UTF-8 by U+FFFD. *)
Definition coerce (s : list byte) : list byte := concat (map (fun x => if valid_rune x then x.2 else EncodeRune RuneError) (runes s)).
Lemma coerce_valid s : ValidString s = true -> coerce s = s.
Proof.
  unfold ValidString, coerce. rewrite <- (runes_bytes s) at 3. unfold rune_bytes. induction (runes s) as [|x rs IH]; [done|]. cbn [forallb map concat].
  intros [-> Hv]%andb_true_iff. by rewrite IH.
Qed.

(** ** Nodes (src/restic/node.go) *)

Definition coerce_string (s : string) : string := string_of (coerce (bytes_of s)).
Definition set_Name (n : Node) (name : string) : Node :=
  mkNode name (n_Type n) (n_Mode n) (n_ModTime n) (n_AccessTime n) (n_ChangeTime n) (n_UID n) (n_GID n) (n_User n) (n_Group n) (n_Inode n)
    (n_DeviceID n) (n_Size n) (n_Links n) (n_LinkTarget n) (n_ExtendedAttributes n) (n_Device n) (n_Content n) (n_Subtree n) (n_Error n) (n_Path n).
Definition fix_times (n : Node) : Node :=
  mkNode (n_Name n) (n_Type n) (n_Mode n) (FixTime (n_ModTime n)) (FixTime (n_AccessTime n)) (FixTime (n_ChangeTime n)) (n_UID n) (n_GID n) (n_User n)
    (n_Group n) (n_Inode n) (n_DeviceID n) (n_Size n) (n_Links n) (n_LinkTarget n) (n_ExtendedAttributes n) (n_Device n) (n_Content n) (n_Subtree n) (n_Error n) (n_Path n).
(** What the encoder and the decoder make of a node without methods: strings
    are coerced to UTF-8, and the field [Path] is left out. *)
Definition coerce_node (n : Node) : Node :=
  mkNode (coerce_string (n_Name n)) (coerce_string (n_Type n)) (n_Mode n) (n_ModTime n) (n_AccessTime n) (n_ChangeTime n) (n_UID n) (n_GID n)
    (coerce_string (n_User n)) (coerce_string (n_Group n)) (n_Inode n) (n_DeviceID n) (n_Size n) (n_Links n) (coerce_string (n_LinkTarget n))
    (map (fun x => mkXattr (coerce_string (x_Name x)) (x_Value x)) (n_ExtendedAttributes n)) (n_Device n) (n_Content n) (n_Subtree n)
    (coerce_string (n_Error n)) "".
(** Times that the encoder takes: years of four digits, zones of whole minutes. *)
Definition json_time (t : Time) : Prop := 0 <= Year t <= 9999 /\ t_off t mod 60 = 0.
Definition encodable (n : Node) : Prop := json_time (n_ModTime n) /\ json_time (n_AccessTime n) /\ json_time (n_ChangeTime n)
  /\ Forall wf_ID (default [] (n_Content n)) /\ (forall id, n_Subtree n = Some id -> wf_ID id).

Class NodeCodec : Type := { json_Marshal : Node -> list byte + string; json_Unmarshal : list byte -> Node + string }.
Class NodeCodecLaws `{NodeCodec} : Prop := {
  json_roundtrip n : encodable n -> exists data, json_Marshal n = inl data /\ json_Unmarshal data = inl (coerce_node n);
}.

Section nodes.
Context {PR : Printable} {NC : NodeCodec}.
Definition Node_MarshalJSON (node : Node) : list byte + string :=
  let node := fix_times node in
  json_Marshal (set_Name node (string_of (Quote (bytes_of (n_Name node))))).
Definition Node_UnmarshalJSON (data : list byte) : Node + string :=
  match json_Unmarshal data with
  | inr e => inr e
  | inl nj => match Unquote (bytes_of (n_Name nj)) with Some name => inl (set_Name nj (string_of name)) | None => inr "Unquote"%string end
  end.

Lemma set_Name_coerced n q name : set_Name (coerce_node (set_Name n q)) name = set_Name (coerce_node n) name.
Proof. unfold set_Name, coerce_node. by destruct n. Qed.

(** C23: A node that is written as JSON is read back with the name it had,
    whatever bytes the name consists of, although the encoder replaces what is
    not UTF-8; its other fields are as the encoder keeps them, and its times
    those that [FixTime] makes of them. *)
Theorem Node_JSON_roundtrip {PL : PrintableLaws} {NL : NodeCodecLaws} node : encodable (fix_times node) ->
  exists data, Node_MarshalJSON node = inl data /\ Node_UnmarshalJSON data = inl (set_Name (coerce_node (fix_times node)) (n_Name node)).
Proof.
  unfold Node_MarshalJSON, Node_UnmarshalJSON. assert (Hn : n_Name (fix_times node) = n_Name node) by reflexivity.
  revert Hn. generalize (fix_times node) as m. intros m -> He.
  remember (string_of (Quote (bytes_of (n_Name node)))) as quoted eqn:Hq.
  assert (Hc : coerce_string quoted = quoted) by (unfold coerce_string; rewrite coerce_valid; [apply string_of_bytes_of|rewrite Hq, bytes_of_string_of; apply Quote_valid]).
  assert (Hu : Unquote (bytes_of quoted) = Some (bytes_of (n_Name node))) by (rewrite Hq, bytes_of_string_of; apply Unquote_Quote).
  clear Hq. destruct (json_roundtrip (set_Name m quoted) He) as (data & E1 & E2). exists data. split; [exact E1|]. rewrite E2.
  change (n_Name (coerce_node (set_Name m quoted))) with (coerce_string quoted). rewrite Hc, Hu, string_of_bytes_of, set_Name_coerced. reflexivity.
Qed.

(** A node whose other strings are UTF-8 is read back as it is. *)
Lemma coerce_string_valid s : ValidString (bytes_of s) = true -> coerce_string s = s.
Proof. intros Hv. unfold coerce_string. rewrite coerce_valid by done. apply string_of_bytes_of. Qed.
Lemma coerced_exact node : n_Path node = ""%string ->
  Forall (fun s => ValidString (bytes_of s) = true) ([n_Type node; n_User node; n_Group node; n_LinkTarget node; n_Error node] ++ map x_Name (n_ExtendedAttributes node)) ->
  set_Name (coerce_node (fix_times node)) (n_Name node) = fix_times node.
Proof.
  intros Hp Hv. rewrite !Forall_app, !Forall_cons, Forall_map in Hv. destruct Hv as [(H1 & H2 & H3 & H4 & H5 & _) H6].
  unfold coerce_node, set_Name, fix_times.
  cbn [n_Name n_Type n_Mode n_ModTime n_AccessTime n_ChangeTime n_UID n_GID n_User n_Group n_Inode n_DeviceID n_Size n_Links n_LinkTarget
    n_ExtendedAttributes n_Device n_Content n_Subtree n_Error n_Path]. rewrite !coerce_string_valid by done. rewrite Hp.
  replace (map _ (n_ExtendedAttributes node)) with (n_ExtendedAttributes node); [done|]. symmetry. etransitivity; [|apply map_id].
  apply map_ext_in. intros [x v] Hx%list_elem_of_In. rewrite Forall_forall in H6. cbn [x_Name x_Value]. by rewrite (coerce_string_valid x) by exact (H6 _ Hx).
Qed.
End nodes.

(** *** A codec *)

#[export] Instance Time_countable : Countable Time.
Proof. refine (inj_countable' (fun t => (t_ns t, t_off t)) (fun '(a, b) => mkTime a b) _). by intros []. Defined.
#[export] Instance Xattr_eq_dec : EqDecision ExtendedAttribute.
Proof. solve_decision. Defined.
#[export] Instance Xattr_countable : Countable ExtendedAttribute.
Proof. refine (inj_countable' (fun x => (x_Name x, x_Value x)) (fun '(a, b) => mkXattr a b) _). by intros []. Defined.
Definition node_tuple (n : Node) :=
  ((n_Name n, n_Type n, n_Mode n, n_ModTime n, n_AccessTime n), (n_ChangeTime n, n_UID n, n_GID n, n_User n, n_Group n),
   (n_Inode n, n_DeviceID n, n_Size n, n_Links n, n_LinkTarget n), (n_ExtendedAttributes n, n_Device n, n_Content n, n_Subtree n, n_Error n), n_Path n).
Definition tuple_node x : Node :=
  let '((a, b, c, d, e), (f, g, h, i, j), (k, l, m, n, o), (p, q, r, s, t), u) := x in mkNode a b c d e f g h i j k l m n o p q r s t u.
Definition counting_codec : NodeCodec := {|
  json_Marshal n := inl (count_encode (node_tuple (coerce_node n)));
  json_Unmarshal data := match count_decode data with Some x => inl (tuple_node x) | None => inr "invalid"%string end |}.
Lemma counting_laws : @NodeCodecLaws counting_codec.
Proof. split. intros n _. eexists. split; [reflexivity|]. cbn [json_Unmarshal counting_codec]. rewrite count_decode_encode. by destruct (coerce_node n). Qed.
Definition ascii_printable : Printable := {| IsPrint r := (32 <=? r) && (r <? 127) |}.
Lemma ascii_printable_laws : @PrintableLaws ascii_printable.
Proof. split. intros r Hr. cbn. by rewrite (proj2 (Z.leb_gt 32 r)) by lia. Qed.
(** A name with a quote, a line break, a byte that is not UTF-8 and a letter
    that is not ASCII. *)
Definition odd_name : list byte := [Byte.x61; Byte.x22; Byte.x0a; Byte.xff; Byte.xc3; Byte.xa4].
Definition odd_node : Node := toy_node (string_of odd_name) "file" [] None.
Lemma odd_quoted : @Quote ascii_printable odd_name = bytes_of "a\" ++ [Byte.x22] ++ bytes_of "\n\xff\u00e4".
Proof. vm_compute. reflexivity. Qed.
Lemma Node_JSON_roundtrip_witness : exists data, @Node_MarshalJSON ascii_printable counting_codec odd_node = inl data
  /\ match @Node_UnmarshalJSON counting_codec data with inl n => bytes_of (n_Name n) = odd_name | inr _ => False end.
Proof.
  assert (He : encodable (fix_times odd_node)) by (split_and!; try (vm_compute; by split); [vm_compute; constructor|by intros id [=]]).
  destruct (@Node_JSON_roundtrip ascii_printable counting_codec ascii_printable_laws counting_laws odd_node He) as (data & E1 & E2).
  exists data. split; [exact E1|]. rewrite E2. vm_compute. reflexivity.
Defined.

(** A link target that is not UTF-8 is not quoted, so it is changed. *)
Lemma link_target_changed : bytes_of (n_LinkTarget (coerce_node (mkNode "l" "symlink" 0 zeroTime zeroTime zeroTime 0 0 "" "" 0 0 0 1 (string_of [Byte.xff]) [] 0 None None "" "")))
  = [Byte.xef; Byte.xbf; Byte.xbd].
Proof. vm_compute. reflexivity. Qed.
