(* ===== verification/UsedBlobs.v ===== *)
(** * UsedBlobs: loading all trees of a snapshot concurrently

    src/restic/tree_stream.go and src/restic/find.go.  The event loop of
    [filterTrees] is a function of the event that its [select] statement (or
    the pop before it) takes; which event comes, and which of the loading
    workers finishes first, is up to the schedule.  Progress counting is left
    out. *)

From S2P Require Import Prelude Ids Duration Snapshots Trees.

Section stream.
(** What the repository answers for a tree ID; [Ok None] is a [nil] tree
    without an error. *)
Context {E : Type} (LoadTree : ID -> res E (option Tree)).
(** Whether a worker (or the buffer of the channel to the worker for huge
    trees) is free to take an ID while others are being loaded. *)
Context (can_send : list ID -> ID -> bool).

(** [LoadPanic]: a worker panicked, which ends the process. *)
Inductive stream_error : Type := LoadError (e : E) | NilTree | LoadPanic (msg : string).

(** The tree or the error of a [TreeItem]; an item of a load that panics is
    never sent. *)
Definition tree_item (id : ID) : stream_error + Tree :=
  match LoadTree id with
  | Ok (Some tree) => inr tree
  | Ok None => inl NilTree
  | Err e => inl (LoadError e)
  | Panic msg => inl (LoadPanic msg)
  end.
Definition load_panics (id : ID) : option string := match LoadTree id with Panic msg => Some msg | _ => None end.

Record fstate : Type := mkF {
  f_backlog : list ID;
  f_loadCh : option ID;              (** the next tree, once its channel is chosen *)
  f_loading : list ID;               (** taken by the workers *)
  f_outstanding : Z;
  f_job : option (ID * (stream_error + Tree));  (** to be sent to the consumer; then [inCh] is nil *)
  f_blobs : BlobSet;
  f_failed : option stream_error;    (** the consumer has returned an error, or a worker has panicked *)
  f_delivered : list (ID * (stream_error + Tree));  (** what the consumer has got *)
}.

Definition tree_handle (id : ID) : BlobHandle := mkHandle id TreeBlob.

(** [skip]: whether the tree is in the set; it is now. *)
Definition skip (blobs : BlobSet) (id : ID) : bool * BlobSet :=
  (BlobSet_Has blobs (tree_handle id), BlobSet_Insert blobs (tree_handle id)).

(** What the consumer does with an item: it fails, or puts blobs into the
    set. *)
Context (consume : ID -> stream_error + Tree -> stream_error + list BlobHandle).

Inductive event : Type := EvPop | EvSend | EvRecv (i : nat) | EvDeliver | EvPanic (i : nat).

(** The select statement is reached once the next tree is chosen or there is
    none. *)
Definition selecting (s : fstate) : bool :=
  match f_loadCh s, f_backlog s with None, _ :: _ => false | _, _ => true end.

Definition item_subtrees (item : stream_error + Tree) : list ID :=
  match item with inr tree => Subtrees tree | inl _ => [] end.

Definition fexec (ev : event) (s : fstate) : option fstate :=
  match f_failed s with
  | Some _ => None
  | None =>
      match ev with
      | EvPop =>
          match f_loadCh s, last (f_backlog s) with
          | None, Some id =>
              let backlog := take (length (f_backlog s) - 1) (f_backlog s) in
              let '(skipped, blobs) := skip (f_blobs s) id in
              Some (mkF backlog (if skipped then None else Some id) (f_loading s) (f_outstanding s) (f_job s) blobs None (f_delivered s))
          | _, _ => None
          end
      | EvSend =>
          match f_loadCh s with
          | Some id =>
              if can_send (f_loading s) id
              then Some (mkF (f_backlog s) None (f_loading s ++ [id]) (f_outstanding s + 1) (f_job s) (f_blobs s) None (f_delivered s))
              else None
          | None => None
          end
      | EvRecv i =>
          match f_job s, f_loading s !! i with
          | None, Some id =>
              if selecting s && bool_decide (load_panics id = None) then
                let item := tree_item id in
                Some (mkF (f_backlog s ++ filter (fun id => IsNull id = false) (reverse (item_subtrees item))) (f_loadCh s)
                       (delete i (f_loading s)) (f_outstanding s - 1) (Some (id, item)) (f_blobs s) None (f_delivered s))
              else None
          | _, _ => None
          end
      | EvDeliver =>
          match f_job s with
          | Some (id, item) =>
              if selecting s then
                let '(blobs, failed) := match consume id item with
                                        | inl e => (f_blobs s, Some e)
                                        | inr hs => (f_blobs s ∪ list_to_set hs, None)
                                        end in
                Some (mkF (f_backlog s) (f_loadCh s) (f_loading s) (f_outstanding s) None blobs failed (f_delivered s ++ [(id, item)]))
              else None
          | None => None
          end
      | EvPanic i =>
          match f_loading s !! i with
          | Some id =>
              match load_panics id with
              | Some msg => Some (mkF (f_backlog s) (f_loadCh s) (f_loading s) (f_outstanding s) (f_job s) (f_blobs s) (Some (LoadPanic msg)) (f_delivered s))
              | None => None
              end
          | None => None
          end
      end
  end.

Definition fstep (s s' : fstate) : Prop := exists ev, fexec ev s = Some s'.

Definition finit (treeIDs : list ID) (blobs : BlobSet) : fstate := mkF treeIDs None [] 0 None blobs None [].

(** [filterTrees] returns. *)
Definition finished (s : fstate) : bool :=
  match f_backlog s, f_loadCh s, f_job s, f_failed s with
  | [], None, None, None => f_outstanding s =? 0
  | _, _, _, _ => false
  end.

(** One schedule: the first tree that was sent is the first to arrive. *)
Fixpoint frun (fuel : nat) (s : fstate) : fstate :=
  match fuel with
  | O => s
  | S fuel =>
      match fexec EvPop s with Some s => frun fuel s | None =>
      match fexec EvDeliver s with Some s => frun fuel s | None =>
      match fexec (EvRecv 0) s with Some s => frun fuel s | None =>
      match fexec (EvPanic 0) s with Some s => frun fuel s | None =>
      match fexec EvSend s with Some s => frun fuel s | None => s end end end end end
  end.

(** ** What has to be found *)

Context (consume_data : forall id item hs h, consume id item = inr hs -> h ∈ hs -> bh_Type h = DataBlob).

Section spec.
Context (roots : list ID) (b0 : BlobSet).

(** The trees reached without passing through one that is already known. *)
Inductive visited : ID -> Prop :=
| v_root id : id ∈ roots -> tree_handle id ∉ b0 -> visited id
| v_sub t tree id : visited t -> LoadTree t = Ok (Some tree) -> id ∈ Subtrees tree -> IsNull id = false ->
    tree_handle id ∉ b0 -> visited id.

Definition used (h : BlobHandle) : Prop :=
  h ∈ b0 \/ (exists id, visited id /\ h = tree_handle id)
  \/ exists id hs, visited id /\ consume id (tree_item id) = inr hs /\ h ∈ hs.

Definition waiting (s : fstate) (id : ID) : Prop := id ∈ f_backlog s \/ tree_handle id ∈ f_blobs s.

(** The trees that were taken from the backlog, and not skipped. *)
Definition option_IDs (x : option ID) : list ID := match x with Some id => [id] | None => [] end.
Definition taken (s : fstate) : list ID :=
  option_IDs (f_loadCh s) ++ f_loading s ++ option_IDs (fst <$> f_job s) ++ map fst (f_delivered s).
(** The trees that have come back from the workers. *)
Definition arrived (s : fstate) (id : ID) (item : stream_error + Tree) : Prop := f_job s = Some (id, item) \/ (id, item) ∈ f_delivered s.

Record finv (s : fstate) : Prop := {
  fi_b0 : forall h, h ∈ b0 -> h ∈ f_blobs s;
  fi_roots : forall id, id ∈ roots -> waiting s id;
  fi_backlog : forall id, id ∈ f_backlog s -> tree_handle id ∈ b0 \/ visited id;
  fi_sound : forall h, h ∈ f_blobs s -> used h;
  fi_nodup : NoDup (taken s);
  fi_taken : forall id, id ∈ taken s -> visited id /\ tree_handle id ∈ f_blobs s;
  fi_count : f_outstanding s = lenZ (f_loading s);
  fi_arrived : forall id item, arrived s id item -> (item = tree_item id /\ load_panics id = None)
    /\ forall c, c ∈ item_subtrees item -> IsNull c = false -> waiting s c;
  fi_delivered : f_failed s = None -> forall id item, (id, item) ∈ f_delivered s ->
    exists hs, consume id item = inr hs /\ forall h, h ∈ hs -> h ∈ f_blobs s;
  fi_failed : forall e, f_failed s = Some e -> exists id, visited id /\ (consume id (tree_item id) = inl e \/ exists msg, load_panics id = Some msg /\ e = LoadPanic msg);
  fi_all : forall id, tree_handle id ∈ f_blobs s -> tree_handle id ∈ b0 \/ id ∈ taken s;
}.

Lemma tree_handle_inj a b : tree_handle a = tree_handle b -> a = b.
Proof. by intros [= ->]. Qed.

Lemma finv_init : finv (finit roots b0).
Proof.
  assert (Hno : forall id item, ¬ arrived (finit roots b0) id item) by (intros id item [?|?%elem_of_nil]; done).
  split; cbn; try done.
  - intros id Hid. by left.
  - intros id Hid. destruct (decide (tree_handle id ∈ b0)) as [Hin|Hn]; [by left|right; by apply v_root].
  - intros h Hh. by left.
  - constructor.
  - by intros id ?%elem_of_nil.
  - intros id item Ha. by apply Hno in Ha.
  - intros _ id item ?%elem_of_nil. done.
  - intros id Hid. by left.
Qed.

Lemma visited_sub id c : visited id -> c ∈ item_subtrees (tree_item id) -> IsNull c = false -> tree_handle c ∈ b0 \/ visited c.
Proof.
  intros Hv Hc Hn. destruct (decide (tree_handle c ∈ b0)) as [?|Hnb]; [by left|right]. unfold tree_item in Hc.
  destruct (LoadTree id) as [[tree|]|e|m] eqn:ET; try by apply elem_of_nil in Hc. by eapply (v_sub id tree).
Qed.

Lemma finv_pop s s' : finv s -> f_failed s = None -> fexec EvPop s = Some s' -> finv s'.
Proof.
  intros HI Hf. pose proof HI as [A B C D F G J K L M N]. unfold fexec. rewrite Hf.
  destruct (f_loadCh s) eqn:EL; [done|]. destruct (last (f_backlog s)) as [id|] eqn:EB; [|done].
  apply last_Some in EB as [bl EB]. unfold skip, BlobSet_Has. intros [= <-].
  rewrite EB, length_app, Nat.add_sub, take_app_length.
  assert (Hid : tree_handle id ∈ b0 \/ visited id) by (apply C; rewrite EB; apply elem_of_app; right; by left).
  assert (Hins : forall h, h ∈ BlobSet_Insert (f_blobs s) (tree_handle id) <-> h = tree_handle id \/ h ∈ f_blobs s).
  { intros h. unfold BlobSet_Insert. set_solver. }
  assert (Hw : forall c, waiting s c -> c ∈ bl \/ tree_handle c ∈ BlobSet_Insert (f_blobs s) (tree_handle id)).
  { intros c [Hc|Hc]; [|right; apply Hins; by right]. rewrite EB in Hc. apply elem_of_app in Hc as [?|Hc]; [by left|].
    apply list_elem_of_singleton in Hc as ->. right. apply Hins. by left. }
  assert (HT : forall (b : bool) s', s' = mkF bl (if b then None else Some id) (f_loading s) (f_outstanding s) (f_job s)
      (BlobSet_Insert (f_blobs s) (tree_handle id)) None (f_delivered s) -> taken s' = (if b then [] else [id]) ++ taken s).
  { intros b s' ->. unfold taken. cbn. rewrite EL. by destruct b. }
  split; rewrite ?(HT _ _ eq_refl); cbn [f_backlog f_loadCh f_loading f_outstanding f_job f_blobs f_failed f_delivered]; try done.
  - intros h Hh. apply Hins. auto.
  - intros r Hr. by apply Hw, B.
  - intros c Hc. apply C. rewrite EB. apply elem_of_app. by left.
  - intros h [->|Hh]%Hins; [|by apply D]. destruct Hid as [?|?]; [by left|]. right. left. by exists id.
  - case_bool_decide as Hin; [done|]. cbn [app]. constructor; [|done]. intros Ht. by apply G in Ht as [_ ?].
  - intros c [Hc|Hc]%elem_of_app; [|destruct (G c Hc); split; [done|]; apply Hins; by right].
    case_bool_decide as Hin; [by apply elem_of_nil in Hc|]. apply list_elem_of_singleton in Hc as ->. split; [|apply Hins; by left].
    destruct Hid as [Hb|?]; [by apply A in Hb|done].
  - intros c item Ha. destruct (K c item Ha) as [[-> Hnp] Hs]. split; [done|]. intros d Hd Hn. by apply Hw, Hs.
  - intros _ c item Hc. destruct (L Hf c item Hc) as (hs & Hcs & Hh). exists hs. split; [done|]. intros h Hhs. apply Hins. auto.
  - intros c [Hc|Hc]%Hins.
    + apply tree_handle_inj in Hc as ->. case_bool_decide as Hin; [by apply N|]. right. by left.
    + destruct (N c Hc) as [?|?]; [by left|right]. apply elem_of_app. by right.
Qed.

(** A step that only moves trees on. *)
Lemma taken_perm s s' : taken s' ≡ₚ taken s -> NoDup (taken s) -> NoDup (taken s') /\ forall id, id ∈ taken s' <-> id ∈ taken s.
Proof. intros HP HN. split; [by rewrite HP|]. intros id. by rewrite HP. Qed.

Lemma finv_send s s' : finv s -> f_failed s = None -> fexec EvSend s = Some s' -> finv s'.
Proof.
  intros HI Hf. pose proof HI as [A B C D F G J K L M N]. unfold fexec. rewrite Hf.
  destruct (f_loadCh s) as [id|] eqn:EL; [|done]. destruct (can_send (f_loading s) id); [|done]. intros [= Hs].
  assert (HP : taken s' ≡ₚ taken s).
  { rewrite <- Hs. unfold taken. cbn. rewrite EL. cbn [option_IDs app]. rewrite <- app_assoc. symmetry. apply Permutation_middle. }
  destruct (taken_perm s s' HP F) as [HN HT]. subst s'.
  split; cbn [f_backlog f_loadCh f_loading f_outstanding f_job f_blobs f_failed f_delivered]; try done.
  - intros c Hc%HT. by apply G.
  - rewrite length_app, J. simpl. lia.
  - by intros _; apply L.
  - intros c Hc. rewrite HT. by apply N.
Qed.

Lemma finv_recv i s s' : finv s -> f_failed s = None -> fexec (EvRecv i) s = Some s' -> finv s'.
Proof.
  intros HI Hf. pose proof HI as [A B C D F G J K L M N]. unfold fexec. rewrite Hf.
  destruct (f_job s) eqn:EJ; [done|]. destruct (f_loading s !! i) as [id|] eqn:Ei; [|done].
  destruct (selecting s); [|done]. destruct (decide (load_panics id = None)) as [Hnp|Hnp];
    [rewrite (bool_decide_eq_true_2 _ Hnp)|by rewrite (bool_decide_eq_false_2 _ Hnp)]. cbn [andb]. intros [= Hs].
  pose proof (delete_Permutation _ _ _ Ei) as HPd.
  assert (HP : taken s' ≡ₚ taken s).
  { rewrite <- Hs. unfold taken. cbn [f_loadCh f_loading f_job f_delivered]. rewrite EJ. cbn [option_IDs fst fmap option_fmap option_map app].
    rewrite (Permutation_app_head (option_IDs (f_loadCh s))); [done|]. rewrite HPd at 2. cbn [app]. symmetry. apply Permutation_middle. }
  destruct (taken_perm s s' HP F) as [HN HT].
  destruct (G id) as [Hv Hb].
  { unfold taken. rewrite !elem_of_app. right. left. by eapply list_elem_of_lookup_2. }
  set (new := filter (fun c => IsNull c = false) (reverse (item_subtrees (tree_item id)))) in *.
  assert (Hnew : forall c, c ∈ new <-> IsNull c = false /\ c ∈ item_subtrees (tree_item id)).
  { intros c. unfold new. by rewrite list_elem_of_filter, elem_of_reverse. }
  assert (Hwait : forall c, waiting s c -> waiting s' c).
  { intros c [?|?]; rewrite <- Hs; [left; apply elem_of_app; by left|by right]. }
  assert (Hback : forall c, c ∈ f_backlog s' -> c ∈ f_backlog s \/ c ∈ new) by (rewrite <- Hs; intros c; by rewrite <- elem_of_app).
  assert (HA : forall c item, arrived s' c item -> (c = id /\ item = tree_item id) \/ arrived s c item).
  { rewrite <- Hs. intros c item [[= <- <-]|?]; [by left|by right; right]. }
  assert (Hnw : forall c, c ∈ new -> waiting s' c) by (intros c Hc; rewrite <- Hs; left; apply elem_of_app; by right).
  assert (Hsame : f_blobs s' = f_blobs s /\ f_delivered s' = f_delivered s /\ f_failed s' = None /\ f_outstanding s' = lenZ (f_loading s')).
  { rewrite <- Hs. cbn. split; [done|]. split; [done|]. split; [done|]. apply Permutation_length in HPd. cbn [length] in HPd. lia. }
  destruct Hsame as (Eb & Ed & Ef & Eo). clear Hs. split; try done; rewrite ?Eb, ?Ed, ?Ef; try done.
  - intros r Hr. by apply Hwait, B.
  - intros c [Hc|[Hn Hc]%Hnew]%Hback; [by apply C|by eapply visited_sub].
  - intros c Hc%HT. by apply G.
  - intros c item [[-> ->]|Ha]%HA.
    + split; [done|]. intros d Hd Hn. by apply Hnw, Hnew.
    + destruct (K c item Ha) as [[-> Hnpc] Hsub]. split; [done|]. intros d Hd Hn. by apply Hwait, Hsub.
  - by intros _; apply L.
  - intros c Hc. rewrite HT. by apply N.
Qed.

Lemma finv_deliver s s' : finv s -> f_failed s = None -> fexec EvDeliver s = Some s' -> finv s'.
Proof using All.
  intros HI Hf. pose proof HI as [A B C D F G J K L M N]. unfold fexec. rewrite Hf.
  destruct (f_job s) as [[id item]|] eqn:EJ; [|done]. destruct (selecting s); [|done].
  set (x := match consume id item with inl e => (f_blobs s, Some e) | inr hs => (f_blobs s ∪ list_to_set hs, None) end).
  destruct x as [blobs failed] eqn:EX. intros [= Hs].
  assert (HP : taken s' ≡ₚ taken s).
  { rewrite <- Hs. unfold taken. cbn [f_loadCh f_loading f_job f_delivered]. rewrite EJ, map_app. cbn [option_IDs fst fmap option_fmap option_map app map].
    apply Permutation_app_head, Permutation_app_head. by rewrite (Permutation_app_comm (map fst _)). }
  destruct (taken_perm s s' HP F) as [HN HT].
  destruct (K id item (or_introl EJ)) as [[Hi Hnp] Hsub]. destruct (G id) as [Hv Hb].
  { unfold taken. rewrite EJ, !elem_of_app. right. right. left. cbn. by left. }
  assert (Hmono : forall h, h ∈ f_blobs s -> h ∈ blobs) by (unfold x in EX; destruct (consume id item); injection EX as <- <-; set_solver).
  assert (Hnew : forall h, h ∈ blobs -> h ∈ f_blobs s \/ exists hs, consume id item = inr hs /\ h ∈ hs).
  { unfold x in EX. destruct (consume id item) as [e|hs]; injection EX as <- <-; intros h Hh; [by left|].
    apply elem_of_union in Hh as [?|Hh%elem_of_list_to_set]; [by left|right; by exists hs]. }
  assert (Hfail : failed = None -> exists hs, consume id item = inr hs /\ forall h, h ∈ hs -> h ∈ blobs).
  { unfold x in EX. destruct (consume id item) as [e|hs]; injection EX as <- <-; [done|]. intros _. exists hs. split; [done|].
    intros h Hh. apply elem_of_union. right. by apply elem_of_list_to_set. }
  assert (Hfe : forall e, failed = Some e -> consume id item = inl e) by (unfold x in EX; destruct (consume id item); injection EX as <- <-; congruence).
  assert (HA : forall c it, arrived s' c it -> arrived s c it).
  { rewrite <- Hs. intros c it [?|Hc]; [done|]. cbn [f_delivered] in Hc. apply elem_of_app in Hc as [?|Hc]; [by right|].
    apply list_elem_of_singleton in Hc as [= -> ->]. by left. }
  assert (HW : forall c, waiting s c -> waiting s' c) by (rewrite <- Hs; intros c [?|?]; [by left|right; by apply Hmono]).
  assert (Hfields : f_blobs s' = blobs /\ f_delivered s' = f_delivered s ++ [(id, item)] /\ f_failed s' = failed /\ f_backlog s' = f_backlog s
    /\ f_outstanding s' = lenZ (f_loading s')) by (rewrite <- Hs; done).
  destruct Hfields as (Eb & Ed & Ef & Ebk & Eo). clear Hs EX x. split; rewrite ?Eb, ?Ed, ?Ef, ?Ebk; try done.
  - intros h Hh. apply Hmono. auto.
  - intros r Hr. by apply HW, B.
  - intros h [?|(hs & Hc & Hh)]%Hnew; [by apply D|]. right. right. exists id, hs. by rewrite <- Hi.
  - intros c Hc%HT. destruct (G c Hc). split; [done|by apply Hmono].
  - intros c it Ha%HA. destruct (K c it Ha) as [[-> Hnpc] Hsb]. split; [done|]. intros d Hd Hn. by apply HW, Hsb.
  - intros Hnf c it [Hc|Hc]%elem_of_app.
    + destruct (L Hf c it Hc) as (hs & Hcs & Hh). exists hs. split; [done|]. intros h Hhs. apply Hmono. auto.
    + apply list_elem_of_singleton in Hc as [= -> ->]. by apply Hfail.
  - intros e He. exists id. split; [done|]. left. rewrite <- Hi. by apply Hfe.
  - intros c [Hc|(hs & Hcs & Hc)]%Hnew; [rewrite HT; by apply N|]. by apply (consume_data _ _ _ _ Hcs) in Hc.
Qed.

Lemma finv_panic i s s' : finv s -> f_failed s = None -> fexec (EvPanic i) s = Some s' -> finv s'.
Proof.
  intros HI Hf. pose proof HI as [A B C D F G J K L M N]. unfold fexec. rewrite Hf.
  destruct (f_loading s !! i) as [id|] eqn:Ei; [|done]. destruct (load_panics id) as [msg|] eqn:EP; [|done]. intros [= <-].
  split; cbn [f_backlog f_loadCh f_loading f_outstanding f_job f_blobs f_failed f_delivered]; try done.
  intros e [= <-]. exists id. split; [|by right; exists msg]. apply G. unfold taken. rewrite !elem_of_app. right. left. by eapply list_elem_of_lookup_2.
Qed.

Lemma finv_step s s' : finv s -> fstep s s' -> finv s'.
Proof using All.
  intros HI [ev He]. assert (Hf : f_failed s = None) by (destruct (f_failed s) eqn:EF; [|done]; unfold fexec in He; by rewrite EF in He).
  destruct ev as [| |i| |i]; [by eapply finv_pop|by eapply finv_send|by eapply finv_recv|by eapply finv_deliver|by eapply finv_panic].
Qed.

Lemma finv_reachable s : rtc fstep (finit roots b0) s -> finv s.
Proof using All.
  intros Hr. remember (finit roots b0) as s0 eqn:E0. assert (HI : finv s0) by (rewrite E0; apply finv_init). clear E0.
  revert HI. induction Hr as [|s1 s2 s3 Hs _ IH]; [done|]. intros HI. apply IH. by eapply finv_step.
Qed.

(** *** Progress: the loop never waits for ever *)

Lemma deliver_step s id item : f_failed s = None -> f_job s = Some (id, item) -> selecting s = true -> exists s', fstep s s'.
Proof.
  intros Hf HJ Hs. destruct (fexec EvDeliver s) as [s'|] eqn:ED; [by exists s', EvDeliver|]. unfold fexec in ED. rewrite Hf, HJ, Hs in ED.
  by destruct (consume id item).
Qed.
Lemma recv_step s id l : f_failed s = None -> f_job s = None -> f_loading s = id :: l -> selecting s = true -> exists s', fstep s s'.
Proof.
  intros Hf HJ HL Hs. destruct (load_panics id) as [msg|] eqn:EP.
  - eexists. exists (EvPanic 0). unfold fexec. rewrite Hf, HL. cbn [lookup list_lookup]. by rewrite EP.
  - eexists. exists (EvRecv 0). unfold fexec. rewrite Hf, HJ, HL, Hs. cbn [lookup list_lookup]. rewrite (bool_decide_eq_true_2 (load_panics id = None)) by done. done.
Qed.

Lemma fstep_progress s : (forall id, can_send [] id = true) -> finv s -> f_failed s = None -> finished s = false ->
  exists s', fstep s s'.
Proof.
  intros Hsend HI Hf Hfin. pose proof (fi_count _ HI) as HC.
  destruct (f_loadCh s) as [id|] eqn:EL.
  - assert (Hsel : selecting s = true) by (unfold selecting; by rewrite EL).
    destruct (f_job s) as [[jid item]|] eqn:EJ; [by eapply deliver_step|].
    destruct (f_loading s) as [|x l] eqn:EG; [|by eapply recv_step].
    eexists. exists EvSend. unfold fexec. by rewrite Hf, EL, EG, Hsend.
  - destruct (f_backlog s) as [|b bl _] eqn:EB using rev_ind.
    2: { eexists. exists EvPop. unfold fexec. by rewrite Hf, EL, EB, last_snoc. }
    assert (Hsel : selecting s = true) by (unfold selecting; by rewrite EL, EB).
    destruct (f_job s) as [[jid item]|] eqn:EJ; [by eapply deliver_step|].
    destruct (f_loading s) as [|x l] eqn:EG; [|by eapply recv_step].
    unfold finished in Hfin. by rewrite EB, EL, EJ, Hf, HC in Hfin.
Qed.

Lemma finished_exact s : finv s -> f_failed s = None -> finished s = true ->
  (forall h, h ∈ f_blobs s <-> used h) /\ NoDup (map fst (f_delivered s))
  /\ (forall id, visited id <-> id ∈ map fst (f_delivered s))
  /\ forall id item, (id, item) ∈ f_delivered s -> item = tree_item id /\ load_panics id = None.
Proof.
  intros HI Hf Hfin. pose proof HI as [A B C D F G J K L M N]. unfold finished in Hfin.
  destruct (f_backlog s) eqn:EB; [|done]. destruct (f_loadCh s) eqn:EL; [done|]. destruct (f_job s) eqn:EJ; [done|].
  rewrite Hf in Hfin. apply Z.eqb_eq in Hfin. assert (EG : f_loading s = []) by (apply nil_length_inv; lia).
  assert (ET : taken s = map fst (f_delivered s)) by (unfold taken; by rewrite EL, EG, EJ).
  assert (Hw : forall c, waiting s c -> tree_handle c ∈ f_blobs s) by (intros c [Hb|?]; [rewrite EB in Hb; by apply elem_of_nil in Hb|done]).
  assert (Hitem : forall id item, (id, item) ∈ f_delivered s -> item = tree_item id /\ load_panics id = None) by (intros id item Hin; by apply K; right).
  assert (Hvis : forall id, visited id -> tree_handle id ∉ b0 /\ id ∈ map fst (f_delivered s)).
  { assert (Hstep : forall id, tree_handle id ∉ b0 -> tree_handle id ∈ f_blobs s -> id ∈ map fst (f_delivered s)).
    { intros id Hn Hb. destruct (N id Hb) as [?|Ht]; [done|by rewrite <- ET]. }
    induction 1 as [id Hr Hn|t tree id Hv [Hn0 IH] Ht Hc Hnull Hn]; (split; [done|]); apply Hstep; try done; apply Hw; [by apply B|].
    apply list_elem_of_fmap in IH as ([t' item] & -> & Hin). cbn [fst] in *. destruct (K t' item (or_intror Hin)) as [[-> _] Hs].
    apply Hs; [|done]. unfold tree_item. by rewrite Ht. }
  split; [|split; [by rewrite <- ET|]; split; [|done]].
  - intros h. split; [apply D|]. intros [?|[(id & Hv & ->)|(id & hs & Hv & Hc & Hh)]]; [by apply A| |].
    + apply G. rewrite ET. by apply Hvis.
    + destruct (Hvis id Hv) as [_ Hin]. apply list_elem_of_fmap in Hin as ([id' item] & -> & Hin). cbn [fst] in *.
      destruct (L Hf id' item Hin) as (hs' & Hc' & Hb). rewrite (proj1 (Hitem _ _ Hin)), Hc in Hc'. injection Hc' as ->. auto.
  - intros id. split; [apply Hvis|]. intros Hin. apply G. by rewrite ET.
Qed.

(** *** Termination: each step uses up some of a finite amount of work *)

Definition subtree_count (id : ID) : nat := length (item_subtrees (tree_item id)).
Definition unseen_work (blobs : BlobSet) (U : list ID) : nat :=
  sum_list_with (fun id => if bool_decide (tree_handle id ∈ blobs) then 0 else 4 + subtree_count id)%nat U.
Definition work (U : list ID) (s : fstate) : nat :=
  (unseen_work (f_blobs s) U
   + match f_loadCh s with Some id => 3 + subtree_count id | None => 0 end
   + match f_failed s with None => sum_list_with (fun id => 2 + subtree_count id) (f_loading s) | Some _ => 0 end
   + match f_job s with Some _ => 1 | None => 0 end
   + length (f_backlog s))%nat.

Lemma unseen_work_ext b1 b2 U : (forall id, tree_handle id ∈ b1 <-> tree_handle id ∈ b2) -> unseen_work b1 U = unseen_work b2 U.
Proof.
  intros Hb. unfold unseen_work. induction U as [|u U IH]; cbn [sum_list_with]; [done|]. rewrite IH.
  by rewrite (bool_decide_ext _ _ (Hb u)).
Qed.
Lemma unseen_work_insert blobs U id : NoDup U -> id ∈ U -> tree_handle id ∉ blobs ->
  (unseen_work (BlobSet_Insert blobs (tree_handle id)) U + (4 + subtree_count id) = unseen_work blobs U)%nat.
Proof.
  intros HN Hin Hn. unfold BlobSet_Insert.
  assert (Hsame : forall U', id ∉ U' -> unseen_work ({[tree_handle id]} ∪ blobs) U' = unseen_work blobs U').
  { induction U' as [|u U' IH]; [done|]. intros Hu. unfold unseen_work in *. cbn [sum_list_with].
    rewrite not_elem_of_cons in Hu. rewrite IH by tauto. f_equal.
    rewrite (bool_decide_ext _ (tree_handle u ∈ blobs)); [done|]. rewrite elem_of_union, elem_of_singleton.
    split; [|by right]. intros [He|?]; [|done]. apply tree_handle_inj in He. naive_solver. }
  induction HN as [|u U Hu HN IH]; [by apply elem_of_nil in Hin|].
  unfold unseen_work in *. cbn [sum_list_with]. apply elem_of_cons in Hin as [->|Hin].
  - rewrite (bool_decide_eq_true_2 (tree_handle u ∈ {[tree_handle u]} ∪ blobs)) by set_solver. rewrite (bool_decide_eq_false_2 (tree_handle u ∈ blobs)) by done.
    rewrite Hsame by done. lia.
  - rewrite <- (IH Hin). assert (u ≠ id) by (intros ->; done).
    rewrite (bool_decide_ext (tree_handle u ∈ {[tree_handle id]} ∪ blobs) (tree_handle u ∈ blobs)); [lia|].
    rewrite elem_of_union, elem_of_singleton. split; [|by right]. intros [He|?]; [|done]. by apply tree_handle_inj in He.
Qed.

Lemma work_decreases U s s' : NoDup U -> (forall id, visited id -> id ∈ U) -> finv s -> fstep s s' ->
  (work U s' < work U s)%nat.
Proof using All.
  intros HN HU HI [ev He]. pose proof HI as [A B C D F G J K L M N]. unfold fexec in He. unfold work.
  destruct (f_failed s) eqn:EF; [done|]. destruct ev as [| |i| |i].
  - destruct (f_loadCh s) eqn:EL; [done|]. destruct (last (f_backlog s)) as [id|] eqn:EB; [|done].
    apply last_Some in EB as [bl EB]. unfold skip, BlobSet_Has in He. injection He as <-. cbn [f_backlog f_loadCh f_loading f_job f_blobs f_failed].
    rewrite EB, length_app, Nat.add_sub, take_app_length. cbn [length].
    destruct (decide (tree_handle id ∈ f_blobs s)) as [Hin|Hn].
    + rewrite bool_decide_eq_true_2 by done. rewrite (unseen_work_ext _ (f_blobs s)); [lia|].
      intros c. unfold BlobSet_Insert. rewrite elem_of_union, elem_of_singleton. split; [|by right]. intros [Hc|?]; [|done].
      by apply tree_handle_inj in Hc as ->.
    + rewrite bool_decide_eq_false_2 by done.
      assert (HiU : id ∈ U).
      { apply HU. destruct (C id) as [Hb|?]; [rewrite EB; apply elem_of_app; right; by left| |done]. by apply A in Hb. }
      pose proof (unseen_work_insert (f_blobs s) U id HN HiU Hn). lia.
  - destruct (f_loadCh s) as [id|]; [|done]. destruct (can_send (f_loading s) id); [|done]. injection He as <-.
    cbn [f_backlog f_loadCh f_loading f_job f_blobs f_failed]. rewrite sum_list_with_app. cbn [sum_list_with]. lia.
  - destruct (f_job s); [done|]. destruct (f_loading s !! i) as [id|] eqn:Ei; [|done]. destruct (selecting s && _); [|done].
    injection He as <-. cbn [f_backlog f_loadCh f_loading f_job f_blobs f_failed]. rewrite length_app.
    pose proof (length_filter (fun id => IsNull id = false) (reverse (item_subtrees (tree_item id)))) as Hl.
    rewrite length_reverse in Hl.
    assert (Hs : sum_list_with (fun id => 2 + subtree_count id)%nat (f_loading s)
      = (2 + subtree_count id + sum_list_with (fun id => 2 + subtree_count id) (delete i (f_loading s)))%nat).
    { by rewrite (delete_Permutation _ _ _ Ei) at 1. }
    rewrite Hs. unfold subtree_count at 4. lia.
  - destruct (f_job s) as [[id item]|] eqn:EJ; [|done]. destruct (selecting s); [|done].
    destruct (consume id item) as [e|hs] eqn:EC; injection He as <-; cbn [f_backlog f_loadCh f_loading f_job f_blobs f_failed]; [lia|].
    rewrite (unseen_work_ext _ (f_blobs s)); [lia|]. intros c. rewrite elem_of_union, elem_of_list_to_set.
    split; [|tauto]. intros [?|Hc]; [done|]. by apply (consume_data _ _ _ _ EC) in Hc.
  - destruct (f_loading s !! i) as [id|] eqn:Ei; [|done]. destruct (load_panics id); [|done]. injection He as <-.
    cbn [f_backlog f_loadCh f_loading f_job f_blobs f_failed].
    assert (Hs : sum_list_with (fun id => 2 + subtree_count id)%nat (f_loading s) ≠ 0%nat); [|lia].
    rewrite (delete_Permutation _ _ _ Ei). cbn [sum_list_with]. lia.
Qed.

Lemma nsteps_work U n : NoDup U -> (forall id, visited id -> id ∈ U) -> forall s s', finv s ->
  nsteps fstep n s s' -> (n + work U s' <= work U s)%nat.
Proof using All.
  intros HN HU. induction n as [|n IH]; intros s s' HI Hs; inversion Hs as [|? ? s1 ? H1 H2]; subst; [lia|].
  pose proof (work_decreases U s s1 HN HU HI H1). pose proof (IH s1 s' (finv_step _ _ HI H1) H2). lia.
Qed.

Lemma frun_reachable fuel : forall s, rtc fstep s (frun fuel s).
Proof.
  induction fuel as [|fuel IH]; intros s; cbn [frun]; [done|].
  destruct (fexec EvPop s) as [s1|] eqn:E1; [eapply rtc_l; [by exists EvPop|apply IH]|].
  destruct (fexec EvDeliver s) as [s1|] eqn:E2; [eapply rtc_l; [by exists EvDeliver|apply IH]|].
  destruct (fexec (EvRecv 0) s) as [s1|] eqn:E3; [eapply rtc_l; [by exists (EvRecv 0)|apply IH]|].
  destruct (fexec (EvPanic 0) s) as [s1|] eqn:E5; [eapply rtc_l; [by exists (EvPanic 0)|apply IH]|].
  destruct (fexec EvSend s) as [s1|] eqn:E4; [eapply rtc_l; [by exists EvSend|apply IH]|done].
Qed.

(** Whatever the schedule, a stream of finitely many trees ends, and then it
    is complete, unless the consumer has failed or a worker has panicked. *)
Lemma stream_total (U : list ID) :
  (forall id, can_send [] id = true) -> NoDup U -> (forall id, visited id -> id ∈ U) ->
  (forall n s, nsteps fstep n (finit roots b0) s ->
     (n <= length roots + sum_list_with (fun id => 4 + subtree_count id) U)%nat)
  /\ forall s, rtc fstep (finit roots b0) s -> (forall s', ¬ fstep s s') ->
     match f_failed s with
     | Some e => exists id, visited id /\ (consume id (tree_item id) = inl e \/ exists msg, load_panics id = Some msg /\ e = LoadPanic msg)
     | None => finished s = true /\ (forall h, h ∈ f_blobs s <-> used h) /\ NoDup (map fst (f_delivered s))
         /\ (forall id, visited id <-> id ∈ map fst (f_delivered s)) /\ forall id item, (id, item) ∈ f_delivered s -> item = tree_item id /\ load_panics id = None
     end.
Proof using All.
  intros Hsend HN HU. split.
  - intros n s Hn. pose proof (nsteps_work U n HN HU _ _ finv_init Hn) as HW. etransitivity; [|etransitivity; [exact HW|]]; [lia|].
    unfold work, finit. cbn [f_blobs f_loadCh f_loading f_job f_backlog f_failed sum_list_with].
    assert (unseen_work b0 U <= sum_list_with (fun id => 4 + subtree_count id) U)%nat; [|lia].
    unfold unseen_work. clear. induction U as [|u U IH]; cbn [sum_list_with]; [lia|]. case_bool_decide; lia.
  - intros s Hr Hstuck. pose proof (finv_reachable s Hr) as HI. destruct (f_failed s) as [e|] eqn:EF.
    + by apply (fi_failed _ HI).
    + destruct (finished s) eqn:EN; [split; [done|by apply finished_exact]|].
      destruct (fstep_progress s Hsend HI EF EN) as [s' Hs']. by apply Hstuck in Hs'.
Qed.

End spec.

Lemma finished_stuck roots b0 s s' : finv roots b0 s -> finished s = true -> ¬ fstep s s'.
Proof.
  intros HI. pose proof (fi_count _ _ _ HI) as HC. unfold finished. destruct (f_backlog s) eqn:EB; [|done].
  destruct (f_loadCh s) eqn:EL; [done|]. destruct (f_job s) eqn:EJ; [done|]. destruct (f_failed s); [done|]. intros H0%Z.eqb_eq.
  assert (EG : f_loading s = []) by (apply nil_length_inv; lia).
  intros [ev He]. unfold fexec in He. destruct (f_failed s); [done|].
  destruct ev; rewrite ?EB, ?EL, ?EJ, ?EG in He; done.
Qed.
End stream.

(** ** [FindUsedBlobs] *)

Section find_used.
Context {E : Type} (LoadTree : ID -> res E (option Tree)) (can_send : list ID -> ID -> bool).

Definition data_blobs (tree : Tree) : list BlobHandle :=
  concat (map (fun node => if bool_decide (n_Type node = "file"%string)
    then map (fun blob => mkHandle blob DataBlob) (default [] (n_Content node)) else []) (t_Nodes tree)).
(** The consumer returns the error of an item. *)
Definition find_consume (id : ID) (item : stream_error (E := E) + Tree) : stream_error (E := E) + list BlobHandle :=
  match item with inl e => inl e | inr tree => inr (data_blobs tree) end.

Lemma data_blobs_type tree h : h ∈ data_blobs tree -> bh_Type h = DataBlob.
Proof.
  unfold data_blobs. intros (l & Hl & Hh)%elem_of_concat. apply list_elem_of_fmap in Hl as (n & -> & _).
  case_bool_decide; [|by apply elem_of_nil in Hh]. by apply list_elem_of_fmap in Hh as (b & -> & _).
Qed.
Lemma find_consume_data id item hs h : find_consume id item = inr hs -> h ∈ hs -> bh_Type h = DataBlob.
Proof. unfold find_consume. destruct item as [e|tree]; [done|]. intros [= <-]. apply data_blobs_type. Qed.

Context (roots : list ID) (b0 : BlobSet).
#[local] Abbreviation visited := (visited LoadTree roots b0).

(** The blobs in use. *)
Definition used_blobs (h : BlobHandle) : Prop :=
  h ∈ b0 \/ (exists id, visited id /\ h = tree_handle id)
  \/ exists id tree, visited id /\ LoadTree id = Ok (Some tree) /\ h ∈ data_blobs tree.
Lemma used_blobs_iff h : used LoadTree find_consume roots b0 h <-> used_blobs h.
Proof.
  unfold used, used_blobs. apply or_iff_compat_l, or_iff_compat_l. split.
  - intros (id & hs & Hv & Hc & Hh). unfold find_consume, tree_item in Hc. destruct (LoadTree id) as [[tree|]|e|m] eqn:ET; try done.
    injection Hc as <-. by exists id, tree.
  - intros (id & tree & Hv & Ht & Hh). exists id, (data_blobs tree). split; [done|]. unfold tree_item. by rewrite Ht.
Qed.

(** C15: finding the blobs in use always ends with the right set.  Given that
    finitely many trees can be reached, and whatever the schedule of the event
    loop, the workers and the consumer: a run has at most a bounded number of
    steps; and when no step is left, either the consumer has failed with the
    error of a tree that is in use, or loading such a tree has panicked, or the loop has returned, every tree in
    use could be loaded, and the set has exactly the blobs it had before, the
    trees reached from the roots without passing through a known tree, and the
    file contents of these trees. *)
Theorem FindUsedBlobs_total (U : list ID) :
  (forall id, can_send [] id = true) -> NoDup U -> (forall id, visited id -> id ∈ U) ->
  (forall n s, nsteps (fstep LoadTree can_send find_consume) n (finit roots b0) s ->
     (n <= length roots + sum_list_with (fun id => 4 + subtree_count LoadTree id) U)%nat)
  /\ forall s, rtc (fstep LoadTree can_send find_consume) (finit roots b0) s -> (forall s', ¬ fstep LoadTree can_send find_consume s s') ->
     match f_failed s with
     | Some e => exists id, visited id /\ tree_item LoadTree id = inl e
     | None => finished s = true /\ (forall h, h ∈ f_blobs s <-> used_blobs h)
         /\ forall id, visited id -> exists tree, LoadTree id = Ok (Some tree)
     end.
Proof using All.
  intros Hsend HN HU. destruct (stream_total LoadTree can_send find_consume find_consume_data roots b0 U Hsend HN HU) as [Hn Hend]. split; [exact Hn|].
  intros s Hr Hstuck. specialize (Hend s Hr Hstuck). destruct (f_failed s) as [e|] eqn:EF.
  - destruct Hend as (id & Hv & [Hc|(msg & Hp & ->)]); exists id; (split; [done|]).
    + unfold find_consume in Hc. by destruct (tree_item LoadTree id); simplify_eq.
    + unfold load_panics in Hp. unfold tree_item. destruct (LoadTree id); by simplify_eq.
  - destruct Hend as (Hf & Hu & _ & Hv & Hitem). split; [done|]. split; [intros h; by rewrite Hu, used_blobs_iff|].
    intros id Hid%Hv. apply list_elem_of_fmap in Hid as ([id' item] & -> & Hin). cbn [fst].
    pose proof (fi_delivered _ _ _ _ _ (finv_reachable LoadTree can_send find_consume find_consume_data roots b0 s Hr) EF _ _ Hin) as (hs & Hc & _).
    rewrite (proj1 (Hitem _ _ Hin)) in Hc. unfold find_consume, tree_item in Hc. destruct (LoadTree id') as [[tree|]|e|m]; try done. by exists tree.
Qed.
End find_used.

(** ** A concrete repository of trees *)

Definition toy_id (b : byte) : ID := [b].
Definition toy_dir (name : string) (b : byte) : Node := toy_node name "dir" [] (Some (toy_id b)).
(** Tree 1 has a file and the trees 2 and 3, which share the tree 4. *)
Definition toy_load_tree (id : ID) : res unit (option Tree) :=
  match id with
  | [Byte.x01] => Ok (Some (mkTree [toy_node "a" "file" [toy_id Byte.x0a] None; toy_dir "b" Byte.x02; toy_dir "c" Byte.x03]))
  | [Byte.x02] => Ok (Some (mkTree [toy_dir "d" Byte.x04]))
  | [Byte.x03] => Ok (Some (mkTree [toy_dir "e" Byte.x04]))
  | [Byte.x04] => Ok (Some (mkTree [toy_node "f" "file" [toy_id Byte.x0b; toy_id Byte.x0a] None]))
  | _ => Err tt
  end.
Definition toy_universe : list ID := map toy_id [Byte.x01; Byte.x02; Byte.x03; Byte.x04].
Definition toy_stream : fstate := frun toy_load_tree (fun _ _ => true) find_consume 40 (finit [toy_id Byte.x01] ∅).

Lemma toy_universe_all id : visited toy_load_tree [toy_id Byte.x01] ∅ id -> id ∈ toy_universe.
Proof.
  unfold toy_universe. induction 1 as [id Hr _|t tree id Hv IH Ht Hc _ _].
  - apply list_elem_of_singleton in Hr as ->. by left.
  - cbn [map] in *. rewrite !elem_of_cons, elem_of_nil in IH.
    destruct IH as [->|[->|[->|[->|[]]]]]; cbn in Ht; injection Ht as <-; apply list_elem_of_In in Hc; vm_compute in Hc;
      apply list_elem_of_In; vm_compute; tauto.
Qed.

Lemma FindUsedBlobs_total_witness :
  f_failed toy_stream = None /\ finished toy_stream = true
  /\ used_blobs toy_load_tree [toy_id Byte.x01] ∅ (mkHandle (toy_id Byte.x0b) DataBlob).
Proof.
  assert (HN : NoDup toy_universe) by (apply (bool_decide_eq_true_1 (NoDup toy_universe)); vm_compute; reflexivity).
  destruct (FindUsedBlobs_total toy_load_tree (fun _ _ => true) [toy_id Byte.x01] ∅ toy_universe (fun _ => eq_refl) HN toy_universe_all)
    as [_ H].
  assert (Hr : rtc (fstep toy_load_tree (fun _ _ => true) find_consume) (finit [toy_id Byte.x01] ∅) toy_stream) by apply frun_reachable.
  assert (Hfin : finished toy_stream = true) by (vm_compute; reflexivity).
  assert (Hf : f_failed toy_stream = None) by (vm_compute; reflexivity).
  specialize (H toy_stream Hr).
  assert (Hs : forall s', ¬ fstep toy_load_tree (fun _ _ => true) find_consume toy_stream s').
  { intros s'. eapply finished_stuck; [by eapply (finv_reachable _ _ _ find_consume_data)|exact Hfin]. }
  specialize (H Hs). rewrite Hf in H. destruct H as (_ & H & _).
  split; [exact Hf|]. split; [exact Hfin|]. apply H.
  apply (bool_decide_eq_true_1 (mkHandle (toy_id Byte.x0b) DataBlob ∈ f_blobs toy_stream)). vm_compute. reflexivity.
Defined.
