(* ===== verification/Paths.v ===== *)
(** * Paths: lexical processing of paths

    The functions of Go's packages [path] and [path/filepath] (on Unix) that
    the program uses, and src/internal/fs/path_prefix.go.  A path below an
    absolute directory is the list of its components; the lemmas relate the
    functions to these lists. *)

From S2P Require Import Prelude Ids Snapshots.

(** ** [Clean], [Join], [Base] and [Dir] *)

Fixpoint split_slash (l : list byte) : list (list byte) :=
  match l with
  | [] => [[]]
  | b :: l =>
      if bool_decide (b = Byte.x2f) then [] :: split_slash l
      else match split_slash l with
           | t :: ts => (b :: t) :: ts
           | [] => [[b]]
           end
  end.
Definition path_split (s : string) : list string := map string_of (split_slash (bytes_of s)).

(** One component of [Clean]: [out] has the components so far, the last one
    first. *)
Definition clean_step (rooted : bool) (out : list string) (c : string) : list string :=
  if bool_decide (c = ""%string) || bool_decide (c = "."%string) then out
  else if bool_decide (c = ".."%string) then
    match out with
    | x :: out' => if bool_decide (x = ".."%string) then c :: out else out'
    | [] => if rooted then [] else [c]
    end
  else c :: out.
Definition Clean (p : string) : string :=
  if bool_decide (p = ""%string) then "."%string
  else
    let rooted := match bytes_of p with b :: _ => bool_decide (b = Byte.x2f) | [] => false end in
    let out := join "/" (reverse (fold_left (clean_step rooted) (path_split p) [])) in
    if rooted then ("/" ++ out)%string
    else if bool_decide (out = ""%string) then "."%string else out.
(** [Join] ignores empty elements. *)
Definition Join (elem : list string) : string :=
  match filter (fun e => e ≠ ""%string) elem with
  | [] => ""%string
  | l => Clean (join "/" l)
  end.

Example clean_1 : Clean "/a/./b//c/.." = "/a/b"%string. Proof. reflexivity. Qed.
Example clean_2 : Clean "../x/../../y" = "../../y"%string. Proof. reflexivity. Qed.
Example clean_3 : Join ["/"; "dir"]%string = "/dir"%string. Proof. reflexivity. Qed.

Definition IsAbs (p : string) : bool := match bytes_of p with b :: _ => bool_decide (b = Byte.x2f) | [] => false end.
(** [Base] is the last component that is not empty. *)
Definition Base (p : string) : string :=
  if bool_decide (p = ""%string) then "."%string
  else default "/"%string (last (filter (fun c => c ≠ ""%string) (path_split p))).
(** [Dir] cleans what comes before the last slash, the slash included. *)
Definition Dir (p : string) : string :=
  match reverse (path_split p) with
  | _ :: c :: cs => Clean (join "/" (reverse (""%string :: c :: cs)))
  | _ => Clean ""
  end.

Example base_1 : Base "/a/b//" = "b"%string. Proof. reflexivity. Qed.
Example base_2 : Base "//" = "/"%string. Proof. reflexivity. Qed.
Example dir_1 : Dir "/a/b" = "/a"%string. Proof. reflexivity. Qed.
Example dir_2 : Dir "/a" = "/"%string. Proof. reflexivity. Qed.
Example dir_3 : Dir "a" = "."%string. Proof. reflexivity. Qed.
Example dir_4 : Dir "a/b/" = "a/b"%string. Proof. reflexivity. Qed.

(** ** HasPathPrefix (src/internal/fs/path_prefix.go) *)

(** The loop: each round has a shorter path, or is the last. *)
Fixpoint prefix_loop (fuel : nat) (base p : string) : bool :=
  match fuel with
  | O => false
  | S fuel =>
      let dir := Dir p in
      if bool_decide (base = dir) then true
      else if bool_decide (p = dir) then false
      else prefix_loop fuel base dir
  end.
Definition HasPathPrefix (base p : string) : bool :=
  if negb (eqb (IsAbs base) (IsAbs p)) then false
  else
    let base := Clean base in
    let p := Clean p in
    if bool_decide (base = p) then true else prefix_loop (S (String.length p)) base p.

Example prefix_1 : HasPathPrefix "/a" "/a/b/c" = true. Proof. reflexivity. Qed.
Example prefix_2 : HasPathPrefix "/a" "/ab" = false. Proof. reflexivity. Qed.
Example prefix_3 : HasPathPrefix "/" "/ab" = true. Proof. reflexivity. Qed.
Example prefix_4 : HasPathPrefix "a/.." "b" = true. Proof. reflexivity. Qed.
Example prefix_5 : HasPathPrefix "a" "../a" = false. Proof. reflexivity. Qed.

(** ** Absolute paths as lists of components *)

(** A component that [Clean] keeps. *)
Definition noslash (c : string) : Prop := Byte.x2f ∉ bytes_of c.
Definition plain (c : string) : Prop := c ≠ ""%string /\ c ≠ "."%string /\ c ≠ ".."%string /\ noslash c.
#[global] Instance plain_dec c : Decision (plain c).
Proof. unfold plain, noslash. apply _. Defined.

Definition render (cs : list string) : string := ("/" ++ join "/" cs)%string.

Lemma bytes_of_app a b : bytes_of (a ++ b)%string = bytes_of a ++ bytes_of b.
Proof.
  induction a as [|x a IH]; [done|].
  change (bytes_of (String x a ++ b)%string) with (Ascii.byte_of_ascii x :: bytes_of (a ++ b)%string). by rewrite IH.
Qed.
Lemma string_of_nil : string_of [] = ""%string.
Proof. done. Qed.

Lemma split_slash_app a b : split_slash (a ++ Byte.x2f :: b) = split_slash a ++ split_slash b.
Proof.
  induction a as [|x a IH]; [done|]. cbn [split_slash app]. rewrite IH. case_bool_decide; [done|].
  destruct (split_slash a) as [|t ts] eqn:E; [|done].
  exfalso. destruct a as [|y a]; cbn in E; [done|]. case_bool_decide; [done|]. by destruct (split_slash a).
Qed.
Lemma split_slash_plain a : Byte.x2f ∉ a -> split_slash a = [a].
Proof.
  induction a as [|x a IH]; intros Ha; [done|]. cbn [split_slash].
  rewrite bool_decide_eq_false_2 by set_solver. by rewrite IH by set_solver.
Qed.
Lemma path_split_app a b : path_split (a ++ "/" ++ b)%string = path_split a ++ path_split b.
Proof.
  unfold path_split. rewrite !bytes_of_app. change (bytes_of "/" ++ bytes_of b) with (Byte.x2f :: bytes_of b).
  by rewrite split_slash_app, map_app.
Qed.
Lemma path_split_plain c : noslash c -> path_split c = [c].
Proof. intros Hc. unfold path_split. rewrite split_slash_plain by done. cbn. by rewrite string_of_bytes_of. Qed.
Lemma path_split_noslash p c : c ∈ path_split p -> noslash c.
Proof.
  unfold path_split. intros (l & -> & Hl)%list_elem_of_fmap. unfold noslash. rewrite bytes_of_string_of.
  revert l Hl. induction (bytes_of p) as [|x b IH]; cbn [split_slash]; intros l Hl.
  { apply list_elem_of_singleton in Hl as ->. set_solver. }
  case_bool_decide as E; [apply elem_of_cons in Hl as [->|Hl]; [set_solver|by apply IH]|].
  destruct (split_slash b) as [|t ts]; [apply list_elem_of_singleton in Hl as ->; set_solver|].
  apply elem_of_cons in Hl as [->|Hl]; [|apply IH; by right]. apply not_elem_of_cons. split; [congruence|]. apply IH. by left.
Qed.
Lemma path_split_join c cs : Forall noslash (c :: cs) -> path_split (join "/" (c :: cs)) = c :: cs.
Proof.
  revert c. induction cs as [|d cs IH]; intros c Hc.
  - apply path_split_plain. by apply Forall_cons in Hc as [? _].
  - apply Forall_cons in Hc as [Hc Hcs]. change (join "/" (c :: d :: cs)) with (c ++ "/" ++ join "/" (d :: cs))%string.
    by rewrite path_split_app, IH, path_split_plain.
Qed.

(** The components of a path from the root, as [Clean] computes them. *)
Definition components (p : string) : list string := reverse (fold_left (clean_step true) (path_split p) []).

Lemma components_plain p : Forall plain (components p).
Proof.
  unfold components. apply Forall_reverse.
  assert (H : Forall noslash (path_split p)) by (apply Forall_forall; intros c; apply path_split_noslash).
  assert (H0 : Forall plain []) by done. revert H H0. generalize (@nil string).
  induction (path_split p) as [|c cs IH]; intros out Hcs Hout; cbn; [done|].
  apply Forall_cons in Hcs as [Hc Hcs]. apply IH; [done|]. unfold clean_step.
  destruct (bool_decide_reflect (c = ""%string)), (bool_decide_reflect (c = "."%string)); cbn [orb]; try done.
  case_bool_decide.
  - destruct out as [|x out]; [done|]. apply Forall_cons in Hout as [(_ & _ & Hx & _) Hout].
    by rewrite bool_decide_eq_false_2.
  - apply Forall_cons. by split.
Qed.
Lemma fold_clean_plain cs out : Forall plain cs -> fold_left (clean_step true) cs out = reverse cs ++ out.
Proof.
  revert out. induction cs as [|c cs IH]; intros out Hcs; [done|]. apply Forall_cons in Hcs as [(H1 & H2 & H3 & _) Hcs].
  cbn [fold_left]. rewrite IH by done. unfold clean_step. rewrite !bool_decide_eq_false_2 by done.
  by rewrite reverse_cons, <- app_assoc.
Qed.
Lemma plain_noslash cs : Forall plain cs -> Forall noslash cs.
Proof. intros Hcs. eapply Forall_impl; [exact Hcs|]. by intros c (_ & _ & _ & ?). Qed.

Lemma components_render cs : Forall plain cs -> components (render cs) = cs.
Proof.
  intros Hcs. unfold components, render. change ("/" ++ join "/" cs)%string with ("" ++ "/" ++ join "/" cs)%string.
  rewrite path_split_app, fold_left_app. change (fold_left (clean_step true) (path_split "") []) with (@nil string).
  destruct cs as [|c cs]; [done|]. rewrite path_split_join by (by apply plain_noslash).
  rewrite fold_clean_plain by done. by rewrite app_nil_r, reverse_involutive.
Qed.
Lemma render_inj cs ds : Forall plain cs -> Forall plain ds -> render cs = render ds -> cs = ds.
Proof. intros Hc Hd E. by rewrite <- (components_render cs), E, components_render. Qed.

Lemma Clean_abs p : IsAbs p = true -> Clean p = render (components p).
Proof.
  unfold IsAbs, Clean, components, render. destruct p as [|x p]; [done|]. rewrite bool_decide_eq_false_2 by done.
  cbn zeta. by intros ->.
Qed.
Lemma IsAbs_render cs : IsAbs (render cs) = true.
Proof. done. Qed.
Lemma Clean_render cs : Forall plain cs -> Clean (render cs) = render cs.
Proof. intros Hcs. by rewrite Clean_abs, components_render. Qed.

Lemma last_filter_nonempty cs : Forall plain cs -> filter (fun c => c ≠ ""%string) cs = cs.
Proof. intros Hcs. apply filter_all. intros c Hc. by destruct (proj1 (Forall_forall _ _) Hcs c Hc). Qed.
Lemma Base_render cs : Forall plain cs -> Base (render cs) = default "/"%string (last cs).
Proof.
  intros Hcs. unfold Base, render. rewrite bool_decide_eq_false_2 by done.
  change ("/" ++ join "/" cs)%string with ("" ++ "/" ++ join "/" cs)%string. rewrite path_split_app.
  change (path_split "") with [""%string]. rewrite filter_app. cbn [filter].
  destruct cs as [|c cs]; [done|]. rewrite path_split_join by (by apply plain_noslash).
  rewrite filter_cons_False by (intros E; by apply E). by rewrite filter_nil, last_filter_nonempty.
Qed.

Lemma string_app_assoc (a b c : string) : (a ++ (b ++ c) = (a ++ b) ++ c)%string.
Proof. induction a as [|x a IH]; [done|]. change (String x (a ++ (b ++ c)) = String x ((a ++ b) ++ c))%string. by rewrite IH. Qed.
Lemma join_snoc cs c : cs ≠ [] -> join "/" (cs ++ [c]) = (join "/" cs ++ "/" ++ c)%string.
Proof.
  induction cs as [|d cs IH]; [done|]. intros _. destruct cs as [|e cs]; [done|].
  change (join "/" ((d :: e :: cs) ++ [c])) with (d ++ "/" ++ join "/" ((e :: cs) ++ [c]))%string.
  rewrite IH by done. change (join "/" (d :: e :: cs)) with (d ++ "/" ++ join "/" (e :: cs))%string.
  by rewrite !string_app_assoc.
Qed.

(** [Join] with one more name: its components are resolved from [cs]. *)
Lemma Join_abs cs name : Forall plain cs -> name ≠ ""%string ->
  Join [render cs; name] = render (reverse (fold_left (clean_step true) (path_split name) (reverse cs))).
Proof.
  intros Hcs Hn. unfold Join. rewrite !filter_cons_True, filter_nil by done.
  change (join "/" [render cs; name]) with (render cs ++ "/" ++ name)%string. rewrite Clean_abs by done.
  unfold components. rewrite path_split_app, fold_left_app. do 3 f_equal.
  rewrite <- (reverse_involutive (fold_left _ (path_split (render cs)) [])). f_equal. by apply components_render.
Qed.
Lemma Join_empty cs : Forall plain cs -> Join [render cs; ""%string] = render cs.
Proof.
  intros Hcs. unfold Join. rewrite filter_cons_True by done. rewrite filter_cons_False by (intros E; by apply E).
  by apply Clean_render.
Qed.
Lemma Join_plain cs c : Forall plain cs -> plain c -> Join [render cs; c] = render (cs ++ [c]).
Proof.
  intros Hcs Hc. rewrite Join_abs; [|done|by destruct Hc]. f_equal.
  rewrite path_split_plain by (by destruct Hc as (_ & _ & _ & ?)).
  rewrite fold_clean_plain by (by apply Forall_singleton). by rewrite reverse_app, reverse_involutive.
Qed.

Lemma plain_app cs c : Forall plain (cs ++ [c]) <-> Forall plain cs /\ plain c.
Proof. by rewrite Forall_app, Forall_singleton. Qed.

Lemma Dir_root : Dir "/" = "/"%string.
Proof. done. Qed.
Lemma Dir_render cs c : Forall plain (cs ++ [c]) -> Dir (render (cs ++ [c])) = render cs.
Proof.
  intros Hp. pose proof (proj1 (plain_app cs c) Hp) as [Hcs Hc]. unfold Dir, render at 1.
  change ("/" ++ join "/" (cs ++ [c]))%string with ("" ++ "/" ++ join "/" (cs ++ [c]))%string. rewrite path_split_app.
  change (path_split "") with [""%string].
  destruct (cs ++ [c]) as [|d ds] eqn:E; [by destruct cs|]. rewrite path_split_join by (by apply plain_noslash). rewrite <- E.
  rewrite app_assoc, reverse_app. cbn [reverse app]. change (reverse [c]) with [c]. cbn [app].
  destruct (reverse (""%string :: cs)) as [|e es] eqn:Er.
  { apply (f_equal length) in Er. rewrite length_reverse in Er. done. }
  rewrite <- Er, reverse_cons, reverse_involutive.
  destruct cs as [|f fs]; [done|]. change ((""%string :: f :: fs) ++ [""%string]) with (""%string :: (f :: fs) ++ [""%string]).
  change (join "/" (""%string :: (f :: fs) ++ [""%string])) with ("" ++ "/" ++ join "/" ((f :: fs) ++ [""%string]))%string.
  rewrite join_snoc by done. rewrite Clean_abs by done. f_equal. unfold components.
  rewrite path_split_app, fold_left_app, path_split_app, fold_left_app.
  rewrite path_split_join by (by apply plain_noslash). change (fold_left (clean_step true) (path_split "") []) with (@nil string).
  rewrite (fold_clean_plain (f :: fs)), app_nil_r by done. change (path_split "") with [""%string]. cbn [fold_left]. apply reverse_involutive.
Qed.

(** ** A path is below a directory if its components say so *)

Lemma string_length_app a b : String.length (a ++ b)%string = (String.length a + String.length b)%nat.
Proof. induction a as [|x a IH]; [done|]. change (S (String.length (a ++ b)%string) = S (String.length a + String.length b)). by rewrite IH. Qed.
Lemma render_length cs : (length cs <= String.length (render cs))%nat.
Proof.
  unfold render. change ("/" ++ join "/" cs)%string with (String (Ascii.ascii_of_nat 47) (join "/" cs)). cbn [String.length].
  cut (length cs <= S (String.length (join "/" cs)))%nat; [lia|]. induction cs as [|c cs IH]; cbn [length]; [lia|].
  destruct cs as [|d cs]; [cbn; lia|]. change (join "/" (c :: d :: cs)) with (c ++ "/" ++ join "/" (d :: cs))%string.
  rewrite !string_length_app. cbn [String.length]. lia.
Qed.
Lemma prefix_loop_spec base cs : forall fuel, Forall plain base -> Forall plain cs -> (length cs < fuel)%nat -> base ≠ cs ->
  prefix_loop fuel (render base) (render cs) = bool_decide (base `prefix_of` cs).
Proof.
  induction cs as [|c cs IH] using rev_ind; intros fuel Hb Hcs Hf Hne.
  - destruct fuel as [|fuel]; [cbn in Hf; lia|]. cbn [prefix_loop]. change (render []) with "/"%string. rewrite Dir_root.
    rewrite (bool_decide_eq_false_2 (_ = "/"%string)).
    + rewrite bool_decide_eq_true_2 by done. symmetry. apply bool_decide_eq_false_2. by intros ->%prefix_nil_inv.
    + intros E. by apply (render_inj base []) in E; [|done|by constructor].
  - destruct fuel as [|fuel]; [lia|]. cbn [prefix_loop]. rewrite Dir_render by done. rewrite length_app in Hf; cbn in Hf.
    pose proof (proj1 (plain_app cs c) Hcs) as [Hcs' Hc].
    destruct (decide (base = cs)) as [->|Hn].
    { rewrite bool_decide_eq_true_2 by done. symmetry. apply bool_decide_eq_true_2. by apply prefix_app_r. }
    rewrite (bool_decide_eq_false_2 (render base = _)) by (intros E; by apply render_inj in E).
    rewrite (bool_decide_eq_false_2 (render (cs ++ [c]) = _))
      by (intros E; apply render_inj in E; [|done..]; apply (f_equal length) in E; rewrite length_app in E; cbn in E; lia).
    rewrite IH by (done || lia). apply bool_decide_ext. split.
    + intros Hp. by apply prefix_app_r.
    + intros [k Hk]. destruct k as [|k ks _] using rev_ind; [by rewrite app_nil_r in Hk|].
      rewrite app_assoc in Hk. apply app_inj_tail in Hk as [-> _]. by exists ks.
Qed.
Lemma HasPathPrefix_abs base cs : Forall plain base -> Forall plain cs ->
  HasPathPrefix (render base) (render cs) = bool_decide (base `prefix_of` cs).
Proof.
  intros Hb Hcs. unfold HasPathPrefix. rewrite !IsAbs_render, !Clean_render by done. cbn [eqb negb].
  case_bool_decide as E.
  - apply render_inj in E as ->; [|done..]. symmetry. by apply bool_decide_eq_true_2.
  - apply prefix_loop_spec; [done..| |congruence]. pose proof (render_length cs). lia.
Qed.

(** *** The test of names that the restorer makes *)

Lemma render_root : render [] = "/"%string.
Proof. done. Qed.

(** A name that is its own last component is plain, or the root itself. *)
Lemma base_check name : Base (Join ["/"%string; name]) = name -> plain name \/ name = "/"%string.
Proof.
  destruct (decide (name = ""%string)) as [->|Hn]; [done|]. rewrite <- render_root, Join_abs by done.
  set (cs := reverse _). assert (Hcs : Forall plain cs).
  { pose proof (components_plain ("/" ++ name)) as Hp. unfold components in Hp.
    change ("/" ++ name)%string with ("" ++ "/" ++ name)%string in Hp. by rewrite path_split_app, fold_left_app in Hp. }
  rewrite Base_render by done. destruct (last cs) as [c|] eqn:E; cbn [default]; [|auto].
  intros <-. left. apply last_Some in E as [l E]. rewrite E in Hcs. by apply plain_app in Hcs as [_ ?].
Qed.
Lemma base_check_plain name : plain name -> Base (Join ["/"%string; name]) = name.
Proof.
  intros Hn. rewrite <- render_root, (Join_plain [] name) by (done || by constructor).
  rewrite Base_render by (by apply Forall_singleton). done.
Qed.
Lemma Join_root cs : Forall plain cs -> Join [render cs; "/"%string] = render cs.
Proof. intros Hcs. rewrite Join_abs by done. change (path_split "/") with [""; ""]%string. cbn [fold_left]. f_equal. apply reverse_involutive. Qed.

(** A target that is below [base] by its text is below it by its components;
    and it is not [base] itself. *)
Lemma below_check base name : Forall plain base -> plain name ->
  render base ≠ Join [render base; name] /\ HasPathPrefix (render base) (Join [render base; name]) = true.
Proof.
  intros Hb Hn. rewrite Join_plain by done. assert (Forall plain (base ++ [name])) by by apply plain_app.
  split.
  - intros E. apply render_inj in E; [|done..]. apply (f_equal length) in E. rewrite length_app in E. cbn in E. lia.
  - rewrite HasPathPrefix_abs by done. apply bool_decide_eq_true_2. by exists [name].
Qed.

Lemma Join_render cs ds : Forall plain cs -> Forall plain ds -> Join [render cs; render ds] = render (cs ++ ds).
Proof.
  intros Hcs Hds. rewrite Join_abs by done. f_equal. unfold render.
  change ("/" ++ join "/" ds)%string with ("" ++ "/" ++ join "/" ds)%string.
  rewrite path_split_app, fold_left_app. change (fold_left (clean_step true) (path_split "") (reverse cs)) with (reverse cs).
  destruct ds as [|d ds]; [rewrite app_nil_r; apply reverse_involutive|].
  rewrite path_split_join by (by apply plain_noslash). rewrite fold_clean_plain by done.
  by rewrite reverse_app, !reverse_involutive.
Qed.

Lemma Join_plains cs ds : Forall plain cs -> Forall plain ds -> Join (render cs :: ds) = render (cs ++ ds).
Proof.
  intros Hcs Hds. unfold Join. rewrite filter_cons_True by done. rewrite last_filter_nonempty by done.
  destruct ds as [|d ds]; [rewrite app_nil_r; by apply Clean_render|].
  change (join "/" (render cs :: d :: ds)) with (render cs ++ "/" ++ join "/" (d :: ds))%string.
  rewrite Clean_abs by done. unfold components. rewrite path_split_app, fold_left_app.
  pose proof (components_render cs Hcs) as E. unfold components in E. apply (f_equal reverse) in E. rewrite reverse_involutive in E.
  rewrite E, path_split_join by (by apply plain_noslash). by rewrite fold_clean_plain, reverse_app, !reverse_involutive.
Qed.

(** A clean relative path stays as it is. *)
Lemma fold_clean_rel cs out : Forall plain cs -> fold_left (clean_step false) cs out = reverse cs ++ out.
Proof.
  revert out. induction cs as [|c cs IH]; intros out Hcs; [done|]. apply Forall_cons in Hcs as [(H1 & H2 & H3 & _) Hcs].
  cbn [fold_left]. rewrite IH by done. unfold clean_step. rewrite !bool_decide_eq_false_2 by done.
  by rewrite reverse_cons, <- app_assoc.
Qed.
Lemma Join_rel c cs : Forall plain (c :: cs) -> Join (c :: cs) = join "/" (c :: cs).
Proof.
  intros Hcs. unfold Join. rewrite last_filter_nonempty by done. unfold Clean.
  pose proof (plain_noslash _ Hcs) as Hns. pose proof (path_split_join c cs Hns) as Hsplit.
  apply Forall_cons in Hcs as Hc. destruct Hc as [(Hc1 & _ & _ & Hc4) _].
  destruct (bytes_of c) as [|x bs] eqn:Ec; [exfalso; apply Hc1; by rewrite <- (string_of_bytes_of c), Ec|].
  assert (Hj : exists t, bytes_of (join "/" (c :: cs)) = x :: t).
  { destruct cs as [|d cs]; [by exists bs|]. change (join "/" (c :: d :: cs)) with (c ++ "/" ++ join "/" (d :: cs))%string.
    rewrite bytes_of_app, Ec. by eexists. }
  destruct Hj as [t Ht]. rewrite Ht. assert (Hx : x ≠ Byte.x2f) by (intros ->; apply Hc4; rewrite Ec; left).
  assert (Hne : join "/" (c :: cs) ≠ ""%string) by (intros E; by rewrite E in Ht).
  rewrite (bool_decide_eq_false_2 (x = Byte.x2f)), (bool_decide_eq_false_2 (join "/" (c :: cs) = ""%string)) by done. cbn zeta iota.
  rewrite Hsplit, fold_clean_rel, app_nil_r, reverse_involutive by done. by rewrite bool_decide_eq_false_2.
Qed.
Lemma components_app p q : components (p ++ "/" ++ q) = reverse (fold_left (clean_step true) (path_split q) (reverse (components p))).
Proof. unfold components. by rewrite path_split_app, fold_left_app, reverse_involutive. Qed.
(** A trailing slash of a directory makes no difference. *)
Lemma Join_slash cs name : Forall plain cs -> plain name -> Join [(render cs ++ "/")%string; name] = render (cs ++ [name]).
Proof.
  intros Hcs (Hn1 & Hn). unfold Join. rewrite !filter_cons_True, filter_nil by (done || by destruct cs).
  change (join "/" [(render cs ++ "/")%string; name]) with ((render cs ++ "/") ++ "/" ++ name)%string.
  rewrite Clean_abs by done. f_equal. rewrite components_app. change (render cs ++ "/")%string with (render cs ++ "/" ++ "")%string.
  rewrite components_app, components_render by done. change (path_split "") with [""%string]. cbn [fold_left].
  change (clean_step true (reverse cs) "") with (reverse cs). rewrite reverse_involutive.
  rewrite path_split_plain by apply Hn. rewrite fold_clean_plain by (apply Forall_singleton; done).
  by rewrite reverse_app, reverse_involutive.
Qed.

(** ** Paths as the components that are not empty

    For paths without dots: relative ones, and ones that end with a slash. *)
Definition parts (p : string) : list string := filter (fun c => c ≠ ""%string) (path_split p).

Lemma parts_app a b : parts (a ++ "/" ++ b)%string = parts a ++ parts b.
Proof. unfold parts. by rewrite path_split_app, filter_app. Qed.
Lemma parts_plain c : plain c -> parts c = [c].
Proof. intros Hc. unfold parts. rewrite path_split_plain by apply Hc. apply last_filter_nonempty. by apply Forall_singleton. Qed.
Lemma parts_join l : parts (join "/" l) = concat (map parts l).
Proof.
  induction l as [|a l IH]; [done|]. destruct l as [|b l]; [cbn; by rewrite app_nil_r|].
  change (join "/" (a :: b :: l)) with (a ++ "/" ++ join "/" (b :: l))%string. rewrite parts_app, IH. done.
Qed.
Lemma parts_plains cs : Forall plain cs -> concat (map parts cs) = cs.
Proof. induction 1 as [|c cs Hc _ IH]; [done|]. cbn [map concat]. by rewrite parts_plain, IH. Qed.
Lemma parts_dir p : parts (p ++ "/")%string = parts p.
Proof. change (p ++ "/")%string with (p ++ "/" ++ "")%string. rewrite parts_app. apply app_nil_r. Qed.

Lemma fold_clean_parts rooted p out : Forall plain (parts p) ->
  fold_left (clean_step rooted) (path_split p) out = reverse (parts p) ++ out.
Proof.
  unfold parts. revert out. induction (path_split p) as [|c cs IH]; intros out Hcs; [done|]. cbn [fold_left].
  destruct (decide (c = ""%string)) as [->|Hc].
  - rewrite filter_cons_False in * by (intros E; by apply E). change (clean_step rooted out "") with out. by apply IH.
  - rewrite filter_cons_True in * by done. apply Forall_cons in Hcs as [(H1 & H2 & H3 & _) Hcs]. rewrite IH by done.
    unfold clean_step. rewrite !bool_decide_eq_false_2 by done. cbn [orb]. by rewrite reverse_cons, <- app_assoc.
Qed.
Lemma Clean_parts p : Forall plain (parts p) -> parts p ≠ [] ->
  Clean p = ((if IsAbs p then "/" else "") ++ join "/" (parts p))%string.
Proof.
  intros Hp Hne. unfold Clean. rewrite (bool_decide_eq_false_2 (p = ""%string)) by (intros ->; by apply Hne).
  fold (IsAbs p). cbv zeta. rewrite fold_clean_parts, app_nil_r, reverse_involutive by done.
  destruct (IsAbs p); [done|]. rewrite bool_decide_eq_false_2; [done|]. destruct (parts p) as [|c cs]; [done|].
  apply Forall_cons in Hp as [(Hc & _) _]. destruct c as [|x c]; [done|]. by destruct cs.
Qed.
(** [Join] of such paths puts their components together. *)
Lemma Join_parts l : Forall plain (concat (map parts l)) -> concat (map parts l) ≠ [] ->
  Join l = ((if IsAbs (default "" (head (filter (fun e => e ≠ ""%string) l))) then "/" else "") ++ join "/" (concat (map parts l)))%string.
Proof.
  intros Hp Hne. unfold Join. set (l' := filter (fun e => e ≠ ""%string) l).
  assert (E : concat (map parts l) = parts (join "/" l')).
  { rewrite parts_join. unfold l'. clear. induction l as [|a l IH]; [done|]. destruct (decide (a = ""%string)) as [->|Ha].
    - rewrite filter_cons_False by (intros E; by apply E). done.
    - rewrite filter_cons_True by done. cbn [map concat]. by rewrite IH. }
  assert (Hl : l' = filter (fun e => e ≠ ""%string) l) by done. clearbody l'. rewrite E in *. destruct l' as [|a l'']; [done|].
  rewrite Clean_parts by done. cbn [head default]. change (default ""%string (Some a)) with a. do 2 f_equal.
  assert (Ha : a ≠ ""%string).
  { assert (Hin : a ∈ filter (fun e => e ≠ ""%string) l) by (rewrite <- Hl; left). by apply list_elem_of_filter in Hin as [? _]. }
  destruct l'' as [|b l'']; [done|]. by destruct a.
Qed.
