(* ===== verification/Glob.v ===== *)
(** * Glob: patterns for one component of a path

    [filepath.Match] of Go's standard library (Unix, since Go 1.16), which the
    filters use: stars, question marks, classes of characters and escapes, on
    bytes with UTF-8 decoding. *)

From S2P Require Import Prelude Ids Duration.

(** The star in front, the chunk up to the next star that is not in a class,
    and the rest. *)
Fixpoint skip_stars (p : list byte) : bool * list byte :=
  match p with
  | b :: p' => if Byte.eqb b Byte.x2a then (true, (skip_stars p').2) else (false, p)
  | [] => (false, [])
  end.
Fixpoint scan_chunk (inrange escaped : bool) (p : list byte) : list byte * list byte :=
  match p with
  | [] => ([], [])
  | b :: p' =>
      let keep inrange escaped := let '(c, r) := scan_chunk inrange escaped p' in (b :: c, r) in
      if escaped then keep inrange false
      else if Byte.eqb b Byte.x5c then keep inrange true
      else if Byte.eqb b Byte.x5b then keep true false
      else if Byte.eqb b Byte.x5d then keep false false
      else if Byte.eqb b Byte.x2a && negb inrange then ([], p)
      else keep inrange false
  end.
Definition scanChunk (p : list byte) : bool * list byte * list byte :=
  let '(star, p) := skip_stars p in
  let '(chunk, rest) := scan_chunk false false p in (star, chunk, rest).

(** A character of a class, perhaps escaped; it cannot be the last of the
    chunk. *)
Definition rune_of_class (chunk : list byte) : option (Z * list byte) :=
  let '(r, n) := DecodeRune chunk in
  if (r =? RuneError) && (n =? 1)%nat then None
  else match drop n chunk with [] => None | nchunk => Some (r, nchunk) end.
Definition getEsc (chunk : list byte) : option (Z * list byte) :=
  match chunk with
  | [] => None
  | b :: chunk' =>
      if Byte.eqb b Byte.x2d || Byte.eqb b Byte.x5d then None
      else if Byte.eqb b Byte.x5c then match chunk' with [] => None | _ => rune_of_class chunk' end
      else rune_of_class chunk
  end.
Definition starts (c : byte) (l : list byte) : bool := match l with b :: _ => Byte.eqb b c | [] => false end.

(** The ranges of a class, until its bracket closes after at least one. *)
Fixpoint ranges (fuel : nat) (r : Z) (nrange matched : bool) (chunk : list byte) : option (bool * list byte) :=
  match fuel with
  | O => None
  | S fuel =>
      if nrange && starts Byte.x5d chunk then Some (matched, tail chunk)
      else
        '(lo, chunk) ← getEsc chunk;
        '(hi, chunk) ← (if starts Byte.x2d chunk then getEsc (tail chunk) else Some (lo, chunk));
        ranges fuel r true (matched || ((lo <=? r) && (r <=? hi))) chunk
  end.

(** After a failure the rest of the chunk is only checked; [None] is
    [ErrBadPattern]. *)
Fixpoint match_chunk (fuel : nat) (failed : bool) (chunk s : list byte) : option (option (list byte)) :=
  match fuel with
  | O => None
  | S fuel =>
      match chunk with
      | [] => Some (if failed then None else Some s)
      | b :: chunk' =>
          let failed := failed || match s with [] => true | _ => false end in
          if Byte.eqb b Byte.x5b then
            let '(r, n) := if failed then (0, 0%nat) else DecodeRune s in
            let negated := starts Byte.x5e chunk' in
            let chunk' := if negated then tail chunk' else chunk' in
            '(matched, chunk') ← ranges (S (length chunk')) r false false chunk';
            match_chunk fuel (failed || eqb matched negated) chunk' (drop n s)
          else if Byte.eqb b Byte.x3f then
            let n := if failed then 0%nat else (DecodeRune s).2 in
            match_chunk fuel (failed || starts Byte.x2f s) chunk' (drop n s)
          else if Byte.eqb b Byte.x5c then
            match chunk' with
            | [] => None
            | c :: chunk' => match_chunk fuel (failed || negb (starts c s)) chunk' (tail s)
            end
          else match_chunk fuel (failed || negb (starts b s)) chunk' (tail s)
      end
  end.
Definition matchChunk (chunk s : list byte) : option (option (list byte)) := match_chunk (S (length chunk)) false chunk s.

(** The rest of a pattern that does not match is checked. *)
Fixpoint check_rest (fuel : nat) (pattern : list byte) : option bool :=
  match fuel, pattern with
  | O, _ => None
  | _, [] => Some false
  | S fuel, _ => let '(_, chunk, pattern) := scanChunk pattern in _ ← matchChunk chunk []; check_rest fuel pattern
  end.

(** Try the chunk of a star after each byte skipped, up to a slash. *)
Fixpoint try_skips (chunk : list byte) (last_chunk : bool) (name : list byte) : option (option (list byte)) :=
  match name with
  | [] => Some None
  | b :: name =>
      if Byte.eqb b Byte.x2f then Some None else
      t ← matchChunk chunk name;
      match t with
      | Some t => if last_chunk && negb (bool_decide (t = [])) then try_skips chunk last_chunk name else Some (Some t)
      | None => try_skips chunk last_chunk name
      end
  end.

Fixpoint match_loop (fuel : nat) (pattern name : list byte) : option bool :=
  match fuel, pattern with
  | O, _ => None
  | _, [] => Some (bool_decide (name = []))
  | S fuel, _ =>
      let '(star, chunk, pattern) := scanChunk pattern in
      let last_chunk := match pattern with [] => true | _ => false end in
      if star && bool_decide (chunk = []) then Some (negb (bool_decide (Byte.x2f ∈ name)))
      else
        t ← matchChunk chunk name;
        let next := match t with Some t => if bool_decide (t = []) || negb last_chunk then Some t else None | None => None end in
        match next with
        | Some t => match_loop fuel pattern t
        | None =>
            t ← (if (star : bool) then try_skips chunk last_chunk name else Some None);
            match t with
            | Some t => match_loop fuel pattern t
            | None => check_rest (S (length pattern)) pattern
            end
        end
  end.
Definition FilepathMatch (pattern name : string) : option bool :=
  match_loop (S (String.length pattern)) (bytes_of pattern) (bytes_of name).

Example glob_1 : FilepathMatch "*.go" "main.go" = Some true. Proof. reflexivity. Qed.
Example glob_2 : FilepathMatch "*.go" "main.got" = Some false. Proof. reflexivity. Qed.
Example glob_3 : FilepathMatch "a[b-dx]?" "acz" = Some true. Proof. reflexivity. Qed.
Example glob_4 : FilepathMatch "a[^b-d]" "ac" = Some false. Proof. reflexivity. Qed.
Example glob_5 : FilepathMatch "a[" "a" = None. Proof. reflexivity. Qed.
Example glob_6 : FilepathMatch "[]a]" "]" = None. Proof. reflexivity. Qed.
Example glob_7 : FilepathMatch "[-]" "-" = None. Proof. reflexivity. Qed.
Example glob_8 : FilepathMatch "a*b*c" "axxbyybzzc" = Some true. Proof. reflexivity. Qed.
Example glob_9 : FilepathMatch "a*b?c*x" "abxbbxdbxebxczzy" = Some false. Proof. reflexivity. Qed.
Example glob_10 : FilepathMatch "\*" "*" = Some true. Proof. reflexivity. Qed.
Example glob_11 : FilepathMatch "*" "a/b" = Some false. Proof. reflexivity. Qed.

(** A star alone matches exactly the names without a slash. *)
Lemma star_matches s : FilepathMatch "*" s = Some (negb (bool_decide (Byte.x2f ∈ bytes_of s))).
Proof. reflexivity. Qed.
