(* ===== verification/Filter.v ===== *)
(** * Filter: patterns of paths

    src/internal/filter/filter.go: patterns with components for
    [filepath.Match] and double wildcards, and lists of patterns, some of them
    negated.  The properties hold for any function in place of
    [filepath.Match] that can match a star; Glob.v has Go's. *)

From S2P Require Import Prelude Ids Snapshots Paths Glob.

Inductive filter_error : Type := ErrBadString | ErrBadPattern.

Record patternPart : Type := mkPart { pp_pattern : string; pp_isSimple : bool }.
#[global] Instance patternPart_eq_dec : EqDecision patternPart.
Proof. solve_decision. Defined.
Record Pattern : Type := mkPattern { pt_parts : list patternPart; pt_isNegated : bool }.

(** Split a cleaned path; the first component of an absolute path is "/". *)
Definition splitPath (p : string) : list string :=
  match path_split p with
  | c :: parts => (if bool_decide (c = ""%string) then "/"%string else c) :: parts
  | [] => []
  end.
Definition prepareStr (str : string) : res filter_error (list string) :=
  if bool_decide (str = ""%string) then Err ErrBadString else Ok (splitPath str).

(** [strings.ContainsAny] of a backslash, brackets, a star or a question
    mark. *)
Definition special (b : byte) : bool :=
  match b with Byte.x5c | Byte.x5b | Byte.x5d | Byte.x2a | Byte.x3f => true | _ => false end.
Definition prepare_part (part : string) : patternPart :=
  let isSimple := negb (existsb special (bytes_of part)) in
  mkPart (if bool_decide (part = "**"%string) then ""%string else part) isSimple.
Definition preparePattern (patternStr : string) : res filter_error Pattern :=
  match bytes_of patternStr with
  | [] => Panic "index out of range [0] with length 0"
  | b :: rest =>
      let negate := bool_decide (b = Byte.x21) in
      let patternStr := if negate then string_of rest else patternStr in
      Ok (mkPattern (map prepare_part (splitPath (Clean patternStr))) negate)
  end.

Definition star : patternPart := mkPart "*" false.

Section filter.
(** [filepath.Match]; [None] is [ErrBadPattern]. *)
Context (FilepathMatch : string -> string -> option bool).

Definition match_part (part : patternPart) (s : string) : res filter_error bool :=
  if pp_isSimple part then Ok (bool_decide (pp_pattern part = s))
  else match FilepathMatch (pp_pattern part) s with Some ok => Ok ok | None => Err ErrBadPattern end.

(** The inner loop; the components are taken from the last to the first. *)
Fixpoint match_all (l : list (patternPart * string)) : res filter_error bool :=
  match l with
  | [] => Ok true
  | (part, s) :: l => ok ← match_part part s; if (ok : bool) then match_all l else Ok false
  end.
Fixpoint match_offsets (parts : list patternPart) (strs : list string) (offsets : list nat) : res filter_error bool :=
  match offsets with
  | [] => Ok false
  | offset :: offsets =>
      ok ← match_all (reverse (zip parts (drop offset strs)));
      if (ok : bool) then Ok true else match_offsets parts strs offsets
  end.

Definition is_wild (part : patternPart) : bool := bool_decide (pp_pattern part = ""%string).
Definition hasDoubleWildcard (parts : list patternPart) : option nat := fst <$> list_find (fun p => is_wild p = true) parts.

Definition is_root (part : patternPart) : bool := bool_decide (pp_pattern part = "/"%string).
(** [match] of a pattern without a double wildcard. *)
Definition match_static (parts : list patternPart) (strs : list string) : res filter_error bool :=
  match parts, strs with
  | [], [] => Ok true
  | [], _ => Ok false
  | part :: _, _ =>
      if (length parts <=? length strs)%nat then
        let maxOffset := if is_root part then 0%nat else (length strs - length parts)%nat in
        let minOffset := if is_root part then 0%nat else if bool_decide (head strs = Some "/"%string) then 1%nat else 0%nat in
        match_offsets parts strs (reverse (seq minOffset (S maxOffset - minOffset)))
      else Ok false
  end.

(** Expand the first double wildcard into [i] stars, for [i] from 0 on as
    long as the pattern may fit.  The array of the new pattern is shared by the
    iterations: each adds one star after the stars of those before it. *)
Section expand.
Context (match_rec : list patternPart -> res filter_error bool).
Fixpoint match_expand (parts : list patternPart) (pos : nat) (counts : list nat) : res filter_error bool :=
  match counts with
  | [] => Ok false
  | i :: counts =>
      let newPat := take pos parts ++ replicate i star ++ drop (S pos) parts in
      matched ← match_rec newPat;
      if (matched : bool) then Ok true else match_expand parts pos counts
  end.
End expand.

(** The recursion removes a double wildcard each time. *)
Fixpoint match_fuel (fuel : nat) (parts : list patternPart) (strs : list string) : res filter_error bool :=
  match hasDoubleWildcard parts with
  | Some pos =>
      match fuel with
      | O => Ok false
      | S fuel => match_expand (fun p => match_fuel fuel p strs) parts pos (seq 0 (2 + length strs - length parts))
      end
  | None => match_static parts strs
  end.
Definition wildcards (parts : list patternPart) : nat := length (filter (fun p => is_wild p = true) parts).
Definition match_ (pattern : Pattern) (strs : list string) : res filter_error bool :=
  match_fuel (wildcards (pt_parts pattern)) (pt_parts pattern) strs.

Definition childMatch (pattern : Pattern) (strs : list string) : res filter_error bool :=
  match pt_parts pattern with
  | [] => Panic "index out of range [0] with length 0"
  | part :: _ =>
      if negb (is_root part) then Ok true
      else
        let strs := match hasDoubleWildcard (pt_parts pattern) with
          | Some pos => if (pos <=? length strs)%nat then take pos strs else strs
          | None => strs end in
        let l := if (length (pt_parts pattern) <? length strs)%nat then length (pt_parts pattern) else length strs in
        match_ (mkPattern (take l (pt_parts pattern)) (pt_isNegated pattern)) strs
  end.

Definition Match (patternStr str : string) : res filter_error bool :=
  if bool_decide (patternStr = ""%string) then Ok true
  else pattern ← preparePattern patternStr; strs ← prepareStr str; match_ pattern strs.
Definition ChildMatch (patternStr str : string) : res filter_error bool :=
  if bool_decide (patternStr = ""%string) then Ok true
  else pattern ← preparePattern patternStr; strs ← prepareStr str; childMatch pattern strs.

(** ** Lists of patterns *)

Fixpoint ParsePatterns (pattern : list string) : res filter_error (list Pattern) :=
  match pattern with
  | [] => Ok []
  | pat :: pattern =>
      if bool_decide (pat = ""%string) then ParsePatterns pattern
      else pats ← preparePattern pat; rest ← ParsePatterns pattern; Ok (pats :: rest)
  end.

Fixpoint list_loop (patterns : list Pattern) (checkChildMatches hasNegatedPattern : bool) (strs : list string)
  (matched childMayMatch : bool) : res filter_error (bool * bool) :=
  match patterns with
  | [] => Ok (matched, childMayMatch)
  | pat :: patterns =>
      m ← match_ pat strs;
      c ← (if checkChildMatches then childMatch pat strs else Ok true);
      if pt_isNegated pat then list_loop patterns checkChildMatches hasNegatedPattern strs (matched && negb m) (childMayMatch && negb m)
      else
        let matched := matched || m in
        let childMayMatch := childMayMatch || c in
        if matched && childMayMatch && negb hasNegatedPattern then Ok (matched, childMayMatch)
        else list_loop patterns checkChildMatches hasNegatedPattern strs matched childMayMatch
  end.
Definition list_ (patterns : list Pattern) (checkChildMatches : bool) (str : string) : res filter_error (bool * bool) :=
  match patterns with
  | [] => Ok (false, false)
  | _ =>
      strs ← prepareStr str;
      list_loop patterns checkChildMatches (existsb pt_isNegated patterns) strs false false
  end.
Definition List (patterns : list Pattern) (str : string) : res filter_error bool :=
  '(matched, _) ← list_ patterns false str; Ok matched.
Definition ListWithChild (patterns : list Pattern) (str : string) : res filter_error (bool * bool) := list_ patterns true str.
End filter.

Example match_1 : Match Glob.FilepathMatch "*.go" "/home/user/a.go" = Ok true. Proof. reflexivity. Qed.
Example match_2 : Match Glob.FilepathMatch "/home/**/x" "/home/a/b/x/y" = Ok true. Proof. reflexivity. Qed.
Example match_3 : Match Glob.FilepathMatch "/home/**/x" "/home/x" = Ok true. Proof. reflexivity. Qed.
Example match_4 : Match Glob.FilepathMatch "user/a" "/home/user/a" = Ok true. Proof. reflexivity. Qed.
Example match_5 : Match Glob.FilepathMatch "/user/a" "/home/user/a" = Ok false. Proof. reflexivity. Qed.
Example child_1 : ChildMatch Glob.FilepathMatch "/home/a/b" "/home/a" = Ok true. Proof. reflexivity. Qed.
Example child_2 : ChildMatch Glob.FilepathMatch "/home/a/b" "/home/b" = Ok false. Proof. reflexivity. Qed.

(** Two double wildcards that should match one directory and none: the first
    is not expanded as often as the path allows, because the second is counted
    as a component. *)
Lemma double_wildcards_missed :
  Match Glob.FilepathMatch "a/**/b/**/c" "a/x/b/c" = Ok false /\ Match Glob.FilepathMatch "a/**/b/c" "a/x/b/c" = Ok true
  /\ Match Glob.FilepathMatch "a/**/b/**/c" "a/x/b/y/c" = Ok true /\ Match Glob.FilepathMatch "a/**/b/**/c" "a/b/y/c" = Ok true.
Proof. repeat split. Qed.

(** ** What a pattern means *)

Section spec.
Context (FilepathMatch : string -> string -> option bool).
#[local] Abbreviation match_part := (match_part FilepathMatch).
#[local] Abbreviation match_static := (match_static FilepathMatch).
#[local] Abbreviation match_fuel := (match_fuel FilepathMatch).

Definition Pm (part : patternPart) (s : string) : Prop := match_part part s = Ok true.
(** The parts are well-formed: matching one is never an error. *)
Definition wf_part (part : patternPart) : Prop := forall s, match_part part s ≠ Err ErrBadPattern.

Lemma wf_part_value part s : wf_part part -> exists b, match_part part s = Ok b /\ (b = true <-> Pm part s).
Proof.
  intros Hwf. specialize (Hwf s). unfold Pm, Filter.match_part in *. destruct (pp_isSimple part); [|destruct (FilepathMatch _ s)]; [..|done].
  - eexists. split; [done|]. split; [by intros ->|by intros [= ->]].
  - eexists. split; [done|]. split; [by intros ->|by intros [= ->]].
Qed.

(** A pattern without double wildcards matches consecutive components:
    the first ones if it is absolute, and else any but the root. *)
Definition segment (parts : list patternPart) (strs : list string) : Prop :=
  parts ≠ [] /\ exists a b c, strs = a ++ b ++ c /\ Forall2 Pm parts b
  /\ (match parts with p :: _ => is_root p = true | [] => False end -> a = [])
  /\ (match parts with p :: _ => is_root p = false | [] => False end -> head strs = Some "/"%string -> a ≠ []).

(** Each double wildcard stands for any number of stars. *)
Inductive expands : list patternPart -> list patternPart -> Prop :=
| ex_nil : expands [] []
| ex_keep p ps qs : is_wild p = false -> expands ps qs -> expands (p :: ps) (p :: qs)
| ex_wild p k ps qs : is_wild p = true -> expands ps qs -> expands (p :: ps) (replicate k star ++ qs).

Definition means (parts : list patternPart) (strs : list string) : Prop := exists parts', expands parts parts' /\ segment parts' strs.

(** *** Patterns without double wildcards *)

Lemma match_all_spec l : (forall x, x ∈ l -> wf_part x.1) -> exists b, match_all FilepathMatch l = Ok b
  /\ (b = true <-> Forall (fun x => Pm x.1 x.2) l).
Proof.
  induction l as [|[p s] l IH]; intros Hwf; [by exists true|]. cbn [match_all].
  destruct (wf_part_value p s) as (b & -> & Hb); [apply (Hwf (p, s)); by left|]. cbn [mbind res_bind].
  destruct b.
  - destruct IH as (b & -> & Hb2); [intros x Hx; apply Hwf; by right|]. exists b. split; [done|]. rewrite Hb2, Forall_cons. cbn. naive_solver.
  - exists false. split; [done|]. rewrite Forall_cons. cbn. naive_solver.
Qed.

Lemma match_at_spec parts strs offset : Forall wf_part parts -> (offset + length parts <= length strs)%nat ->
  exists b, match_all FilepathMatch (reverse (zip parts (drop offset strs))) = Ok b
  /\ (b = true <-> Forall2 Pm parts (take (length parts) (drop offset strs))).
Proof.
  intros Hwf Hlen. destruct (match_all_spec (reverse (zip parts (drop offset strs)))) as (b & -> & Hb).
  { intros [p s] Hx. apply elem_of_reverse, elem_of_zip_l in Hx. by apply (proj1 (Forall_forall _ _) Hwf). }
  exists b. split; [done|]. rewrite Hb, Forall_reverse.
  assert (Hl : (length parts <= length (drop offset strs))%nat) by (rewrite length_drop; lia).
  revert Hl. generalize (drop offset strs). clear. induction parts as [|p parts IH]; intros [|s l] Hl; cbn in *; try (by split; [constructor|]); [lia|].
  rewrite Forall_cons, Forall2_cons. cbn. rewrite IH by lia. done.
Qed.

Lemma match_offsets_spec parts strs offsets : Forall wf_part parts ->
  (forall o, o ∈ offsets -> (o + length parts <= length strs)%nat) ->
  exists b, match_offsets FilepathMatch parts strs offsets = Ok b
  /\ (b = true <-> exists o, o ∈ offsets /\ Forall2 Pm parts (take (length parts) (drop o strs))).
Proof.
  intros Hwf. induction offsets as [|o offsets IH]; intros Ho; cbn [match_offsets].
  { exists false. split; [done|]. split; [done|]. by intros (o & ?%elem_of_nil & _). }
  destruct (match_at_spec parts strs o Hwf) as (b & -> & Hb); [apply Ho; by left|]. cbn [mbind res_bind]. destruct b.
  - exists true. split; [done|]. split; [|done]. intros _. exists o. split; [by left|by apply Hb].
  - destruct IH as (b & -> & Hb2); [intros; apply Ho; by right|]. exists b. split; [done|]. rewrite Hb2. split.
    + intros (o' & Ho' & Hm). exists o'. split; [by right|done].
    + intros (o' & [->|Ho']%elem_of_cons & Hm); [by apply Hb in Hm|by exists o'].
Qed.

Lemma match_static_spec parts strs : Forall wf_part parts -> strs ≠ [] -> exists b, match_static parts strs = Ok b
  /\ (b = true <-> segment parts strs).
Proof.
  intros Hwf Hne. unfold Filter.match_static, segment. destruct parts as [|p parts].
  { destruct strs; [done|]. exists false. split; [done|]. naive_solver. }
  set (ps := p :: parts) in *. destruct (Nat.leb_spec (length ps) (length strs)) as [Hle|Hgt].
  - cbn zeta. set (minOffset := if is_root p then _ else _). set (maxOffset := if is_root p then _ else _).
    destruct (match_offsets_spec ps strs (reverse (seq minOffset (S maxOffset - minOffset))) Hwf) as (b & -> & Hb).
    { intros o Ho%elem_of_reverse%elem_of_seq. subst maxOffset minOffset. destruct (is_root p); [lia|]. case_bool_decide; lia. }
    exists b. split; [done|]. rewrite Hb. split.
    + intros (o & Ho%elem_of_reverse%elem_of_seq & Hm). split; [done|]. exists (take o strs), (take (length ps) (drop o strs)), (drop (length ps) (drop o strs)).
      rewrite take_drop, take_drop. split; [done|]. split; [done|]. subst maxOffset minOffset. split.
      * intros E. rewrite E in Ho. assert (o = 0%nat) as -> by lia. done.
      * intros E Hh. rewrite E, bool_decide_eq_true_2 in Ho by done. destruct strs; [done|]. by destruct o; [lia|].
    + intros (_ & a & m & c & Hs & Hm & Habs & Hrel). exists (length a). pose proof (Forall2_length _ _ _ Hm) as Hlm. split.
      * apply elem_of_reverse, elem_of_seq. assert (length strs = (length a + (length m + length c))%nat) by (rewrite Hs, !length_app; done).
        subst maxOffset minOffset. destruct (is_root p) eqn:Er.
        -- rewrite (Habs eq_refl). cbn. lia.
        -- case_bool_decide as Eh; [|lia]. specialize (Hrel eq_refl Eh). destruct a; [done|]. cbn in *. lia.
      * rewrite Hs, drop_app_length, Hlm, take_app_length. done.
  - exists false. split; [done|]. split; [done|]. intros (_ & a & m & c & Hs & Hm & _). apply Forall2_length in Hm.
    assert (length strs = (length a + (length m + length c))%nat) by (rewrite Hs, !length_app; done). lia.
Qed.

(** *** Double wildcards *)

Context (star_wf : wf_part star).

Definition expand_first (parts : list patternPart) (pos i : nat) : list patternPart :=
  take pos parts ++ replicate i star ++ drop (S pos) parts.

Lemma match_expand_spec rec parts pos counts :
  (forall i, i ∈ counts -> exists b : bool, rec (expand_first parts pos i) = Ok b) ->
  exists b, match_expand rec parts pos counts = Ok b /\ (b = true <-> exists i, i ∈ counts /\ rec (expand_first parts pos i) = Ok true).
Proof using Type.
  intros Hrec. induction counts as [|i counts IH]; cbn [match_expand].
  { exists false. split; [done|]. split; [done|]. by intros (i & ?%elem_of_nil & _). }
  destruct (Hrec i) as [b Hb]; [by left|]. change (take pos parts ++ replicate i star ++ drop (S pos) parts) with (expand_first parts pos i).
  rewrite Hb. cbn [mbind res_bind]. destruct b.
  - exists true. split; [done|]. split; [|done]. intros _. exists i. split; [by left|done].
  - destruct IH as (b & -> & Hb2); [intros; apply Hrec; by right|]. exists b. split; [done|]. rewrite Hb2. split.
    + intros (j & Hj & ?). exists j. split; [by right|done].
    + intros (j & [->|Hj]%elem_of_cons & E); [congruence|by exists j].
Qed.

Lemma wildcard_None parts : hasDoubleWildcard parts = None <-> Forall (fun p => is_wild p = false) parts.
Proof using Type.
  unfold hasDoubleWildcard. destruct (list_find _ parts) as [[i p]|] eqn:E; cbn.
  - split; [done|]. intros Hall. apply list_find_Some in E as (Hi & Hw & _).
    pose proof (proj1 (Forall_lookup _ _) Hall i p Hi). cbn in *. congruence.
  - split; [|done]. intros _. apply list_find_None in E. eapply Forall_impl; [exact E|]. intros x Hx. cbn in Hx. by destruct (is_wild x).
Qed.
Lemma wildcard_Some parts pos : hasDoubleWildcard parts = Some pos -> exists pre w suf, parts = pre ++ w :: suf /\ length pre = pos
  /\ is_wild w = true /\ Forall (fun p => is_wild p = false) pre.
Proof using Type.
  unfold hasDoubleWildcard. destruct (list_find _ parts) as [[i p]|] eqn:E; [|done]. cbn. intros [= <-].
  apply list_find_Some in E as (Hi & Hw & Hall). exists (take i parts), p, (drop (S i) parts).
  split; [by rewrite take_drop_middle|]. split; [rewrite length_take; apply lookup_lt_Some in Hi; lia|]. split; [done|].
  apply Forall_lookup. intros j q Hj. apply lookup_take_Some in Hj as [Hj Hlt]. specialize (Hall j q Hj Hlt). cbn in Hall. by destruct (is_wild q).
Qed.
Lemma wildcards_app a b : wildcards (a ++ b) = (wildcards a + wildcards b)%nat.
Proof using Type. unfold wildcards. by rewrite filter_app, length_app. Qed.
Lemma wildcards_static a : Forall (fun p => is_wild p = false) a -> wildcards a = 0%nat.
Proof using Type.
  unfold wildcards. induction 1 as [|p a Hp Ha IH]; [done|]. by rewrite filter_cons_False by (by rewrite Hp).
Qed.
Lemma wildcards_stars i : wildcards (replicate i star) = 0%nat.
Proof using Type. apply wildcards_static, Forall_replicate. done. Qed.
Lemma expand_first_eq pre w suf i : expand_first (pre ++ w :: suf) (length pre) i = pre ++ replicate i star ++ suf.
Proof using Type. unfold expand_first. rewrite take_app_length. by rewrite drop_app_ge, Nat.sub_succ_l, Nat.sub_diag by lia. Qed.
Lemma wildcards_expand pre w suf i : is_wild w = true ->
  wildcards (pre ++ w :: suf) = S (wildcards (pre ++ replicate i star ++ suf)).
Proof using Type.
  intros Hw. rewrite !wildcards_app, wildcards_stars. unfold wildcards at 2. rewrite filter_cons_True by done. cbn [length].
  fold (wildcards suf). lia.
Qed.

Lemma expands_static a b qs : Forall (fun p => is_wild p = false) a -> expands b qs -> expands (a ++ b) (a ++ qs).
Proof using Type. induction 1 as [|p a Hp Ha IH]; [done|]. intros Hb. cbn. by apply ex_keep, IH. Qed.
Lemma expands_refl a : Forall (fun p => is_wild p = false) a -> expands a a.
Proof using Type. intros Ha. rewrite <- (app_nil_r a). apply expands_static; [done|constructor]. Qed.
Lemma expands_first pre w suf i qs : Forall (fun p => is_wild p = false) pre -> is_wild w = true ->
  expands (pre ++ replicate i star ++ suf) qs -> expands (pre ++ w :: suf) qs.
Proof using Type.
  intros Hpre Hw. revert qs. induction Hpre as [|p pre Hp Hpre IH]; intros qs; cbn [app].
  - intros He. assert (Hs : exists rs, qs = replicate i star ++ rs /\ expands suf rs).
    { revert qs He. induction i as [|i IHi]; intros qs He; [by exists qs|]. cbn [replicate app] in He.
      inversion He as [|? ? rs Hp Hr|? k ? rs Hp Hr]; subst; [|by vm_compute in Hp]. destruct (IHi rs Hr) as (ts & -> & ?). by exists ts. }
    destruct Hs as (rs & -> & Hr). by apply ex_wild.
  - inversion 1 as [|? ? rs Hp' Hr|? k ? rs Hp' Hr]; subst; [|congruence]. by apply ex_keep, IH.
Qed.
Lemma expands_inv pre w suf qs : Forall (fun p => is_wild p = false) pre -> is_wild w = true -> expands (pre ++ w :: suf) qs ->
  exists k rs, qs = pre ++ replicate k star ++ rs /\ expands suf rs.
Proof using Type.
  intros Hpre Hw. revert qs. induction Hpre as [|p pre Hp Hpre IH]; intros qs; cbn [app].
  - inversion 1 as [|? ? rs Hp' Hr|? k ? rs Hp' Hr]; subst; [congruence|]. by exists k, rs.
  - inversion 1 as [|? ? rs Hp' Hr|? k ? rs Hp' Hr]; subst; [|congruence]. destruct (IH rs Hr) as (k & ts & -> & ?). by exists k, ts.
Qed.
Lemma expands_static_inv a qs : Forall (fun p => is_wild p = false) a -> expands a qs -> qs = a.
Proof using Type.
  intros Ha. revert qs. induction Ha as [|p a Hp Ha IH]; intros qs; inversion 1 as [|? ? rs Hp' Hr|? k ? rs Hp' Hr]; subst; [done| |congruence].
  f_equal. by apply IH.
Qed.
Lemma segment_length parts strs : segment parts strs -> (length parts <= length strs)%nat.
Proof using Type. intros (_ & a & b & c & -> & Hb & _). apply Forall2_length in Hb. rewrite !length_app. lia. Qed.

Lemma match_fuel_total strs : strs ≠ [] -> forall fuel parts, (wildcards parts <= fuel)%nat -> Forall wf_part parts ->
  exists b, match_fuel fuel parts strs = Ok b /\ (b = true -> means parts strs)
  /\ ((wildcards parts <= 1)%nat -> means parts strs -> b = true).
Proof using star_wf.
  intros Hne. induction fuel as [|fuel IH]; intros parts Hf Hwf; cbn [Filter.match_fuel].
  all: destruct (hasDoubleWildcard parts) as [pos|] eqn:E.
  2, 4: apply wildcard_None in E; destruct (match_static_spec parts strs Hwf Hne) as (b & Eb & Hb); (exists b; split; [exact Eb|]); split;
    [intros Ht; exists parts; split; [by apply expands_refl|by apply Hb]
    |intros _ (qs & Hq & Hs); apply Hb; by rewrite (expands_static_inv parts qs E Hq) in Hs].
  - exfalso. destruct (wildcard_Some parts pos E) as (pre & w & suf & -> & _ & Hw & _). rewrite (wildcards_expand pre w suf 0 Hw) in Hf. lia.
  - destruct (wildcard_Some parts pos E) as (pre & w & suf & -> & <- & Hw & Hpre). clear E.
    apply Forall_app in Hwf as [Hwf1 [_ Hwf2]%Forall_cons].
    assert (Hrec : forall i, exists b, match_fuel fuel (expand_first (pre ++ w :: suf) (length pre) i) strs = Ok b
        /\ (b = true -> means (pre ++ replicate i star ++ suf) strs)
        /\ ((wildcards (pre ++ replicate i star ++ suf) <= 1)%nat -> means (pre ++ replicate i star ++ suf) strs -> b = true)).
    { intros i. rewrite expand_first_eq. rewrite (wildcards_expand pre w suf i Hw) in Hf. apply IH; [lia|].
      apply Forall_app. split; [done|]. apply Forall_app. split; [|done]. by apply Forall_replicate. }
    destruct (match_expand_spec (fun p => match_fuel fuel p strs) (pre ++ w :: suf) (length pre) (seq 0 (2 + length strs - length (pre ++ w :: suf))))
      as (b & Eb & Hb); [intros i _; destruct (Hrec i) as (b & ? & _); by exists b|].
    exists b. split; [exact Eb|]. split.
    + intros (i & _ & Hi)%Hb. destruct (Hrec i) as (b' & Eb' & Hs & _). rewrite Eb' in Hi. injection Hi as ->.
      destruct (Hs eq_refl) as (qs & Hq & ?). exists qs. split; [|done]. by apply (expands_first pre w suf i).
    + intros Hone (qs & Hq & Hseg). apply Hb. destruct (expands_inv pre w suf qs Hpre Hw Hq) as (k & rs & -> & Hr).
      assert (H0 : wildcards (pre ++ replicate k star ++ suf) = 0%nat) by (rewrite (wildcards_expand pre w suf k Hw) in Hone; lia).
      assert (Hsuf : Forall (fun p => is_wild p = false) suf).
      { rewrite !wildcards_app in H0. assert (Hz : wildcards suf = 0%nat) by lia. clear -Hz. induction suf as [|p suf IHs]; [done|].
        unfold wildcards in *. destruct (is_wild p) eqn:Ep; [rewrite filter_cons_True in Hz by done; done|].
        rewrite filter_cons_False in Hz by (by rewrite Ep). constructor; [done|by apply IHs]. }
      apply expands_static_inv in Hr as ->; [|done]. exists k. pose proof (segment_length _ _ Hseg) as Hlen. rewrite !length_app, length_replicate in Hlen. split.
      * apply elem_of_seq. rewrite length_app. cbn [length]. lia.
      * destruct (Hrec k) as (b' & Eb' & _ & Hc). rewrite Eb'. f_equal. apply Hc; [lia|]. exists (pre ++ replicate k star ++ suf). split; [|done].
        apply expands_static; [done|]. apply expands_static; [by apply Forall_replicate|by apply expands_refl].
Qed.

(** *** Longer paths, and the children of directories *)

Lemma segment_mono parts strs rest : strs ≠ [] -> segment parts strs -> segment parts (strs ++ rest).
Proof using Type.
  intros Hne (Hp & a & b & c & Hs & Hb & Habs & Hrel). split; [done|]. exists a, b, (c ++ rest). rewrite Hs, <- !app_assoc.
  split; [done|]. split; [done|]. split; [done|]. intros Hh Hroot. apply Hrel; [done|]. rewrite app_assoc, app_assoc, <- (app_assoc a), <- Hs in Hroot.
  by destruct strs.
Qed.
Lemma match_fuel_mono strs rest : strs ≠ [] -> forall fuel parts, (wildcards parts <= fuel)%nat -> Forall wf_part parts ->
  match_fuel fuel parts strs = Ok true -> match_fuel fuel parts (strs ++ rest) = Ok true.
Proof using star_wf.
  intros Hne. assert (Hne' : strs ++ rest ≠ []) by by destruct strs.
  induction fuel as [|fuel IH]; intros parts Hf Hwf; cbn [Filter.match_fuel].
  all: destruct (hasDoubleWildcard parts) as [pos|] eqn:E; try done.
  1, 3: destruct (match_static_spec parts strs Hwf Hne) as (b & -> & Hb), (match_static_spec parts (strs ++ rest) Hwf Hne') as (b' & -> & Hb');
    intros [= ->]; f_equal; by apply Hb', segment_mono, Hb.
  destruct (wildcard_Some parts pos E) as (pre & w & suf & -> & <- & Hw & Hpre). clear E.
  apply Forall_app in Hwf as [Hwf1 [_ Hwf2]%Forall_cons].
  assert (Hrec : forall l i, l ≠ [] -> exists b, match_fuel fuel (expand_first (pre ++ w :: suf) (length pre) i) l = Ok b).
  { intros l i Hl. rewrite expand_first_eq. rewrite (wildcards_expand pre w suf i Hw) in Hf.
    destruct (match_fuel_total l Hl fuel (pre ++ replicate i star ++ suf)) as (b & ? & _); [lia| |by exists b].
    apply Forall_app. split; [done|]. apply Forall_app. split; [by apply Forall_replicate|done]. }
  destruct (match_expand_spec (fun p => match_fuel fuel p strs) (pre ++ w :: suf) (length pre) (seq 0 (2 + length strs - length (pre ++ w :: suf))))
    as (b & Eb & Hb); [intros i _; by apply Hrec|].
  destruct (match_expand_spec (fun p => match_fuel fuel p (strs ++ rest)) (pre ++ w :: suf) (length pre) (seq 0 (2 + length (strs ++ rest) - length (pre ++ w :: suf))))
    as (b' & Eb' & Hb'); [intros i _; by apply Hrec|].
  intros E. rewrite E in Eb. injection Eb as <-. destruct (proj1 Hb eq_refl) as (i & Hi%elem_of_seq & Hm).
  rewrite Eb'. f_equal. apply Hb'. exists i. split; [apply elem_of_seq; rewrite (length_app strs); lia|].
  rewrite expand_first_eq in *. apply IH; [rewrite (wildcards_expand pre w suf i Hw) in Hf; lia| |done].
  apply Forall_app. split; [done|]. apply Forall_app. split; [by apply Forall_replicate|done].
Qed.

Definition wf_pattern (p : Pattern) : Prop := Forall wf_part (pt_parts p) /\ pt_parts p ≠ [].

Lemma match_total p strs : wf_pattern p -> strs ≠ [] -> exists b, match_ FilepathMatch p strs = Ok b.
Proof using star_wf. intros [Hwf _] Hne. destruct (match_fuel_total strs Hne (wildcards (pt_parts p)) (pt_parts p) ltac:(lia) Hwf) as (b & ? & _). by exists b. Qed.

Lemma childMatch_total p strs : wf_pattern p -> strs ≠ [] -> exists b, childMatch FilepathMatch p strs = Ok b.
Proof using star_wf.
  intros [Hwf Hne] Hs. unfold childMatch. destruct (pt_parts p) as [|part parts] eqn:Ep; [done|]. destruct (is_root part) eqn:Er; cbn [negb]; [|by exists true].
  rewrite <- Ep in *. cbn zeta. set (strs' := match hasDoubleWildcard _ with Some _ => _ | None => _ end).
  assert (Hs' : strs' ≠ []).
  { subst strs'. destruct (hasDoubleWildcard (pt_parts p)) as [pos|] eqn:E; [|done]. destruct (_ <=? _)%nat; [|done].
    destruct (wildcard_Some _ _ E) as (pre & w & suf & Hp & <- & Hw & _). destruct pre as [|x pre]; [|by destruct strs].
    rewrite Ep in Hp. injection Hp as -> _. unfold is_wild, is_root in *. apply bool_decide_eq_true in Hw, Er. by rewrite Hw in Er. }
  unfold match_. cbn [pt_parts]. destruct (match_fuel_total strs' Hs' (wildcards (take (if (length (pt_parts p) <? length strs')%nat then length (pt_parts p) else length strs') (pt_parts p)))
    (take (if (length (pt_parts p) <? length strs')%nat then length (pt_parts p) else length strs') (pt_parts p))) as (b & Eb & _); [lia|by apply Forall_take|by exists b].
Qed.

(** The static prefix of an absolute pattern matches a directory above
    everything the pattern means. *)
Lemma match_prefix pre l strs more : Forall wf_part pre -> Forall (fun p => is_wild p = false) pre -> strs ≠ [] -> (0 < l)%nat ->
  match pre with p :: _ => is_root p = true | [] => False end -> (l <= length pre)%nat -> (l <= length strs)%nat ->
  Forall2 Pm (take l pre) (take l strs) -> match_ FilepathMatch (mkPattern (take l pre) more) strs = Ok true.
Proof using star_wf.
  intros Hwf Hst Hne Hl Hroot Hlp Hls Hm. unfold match_. cbn [pt_parts].
  destruct (match_fuel_total strs Hne (wildcards (take l pre)) (take l pre) ltac:(lia) ltac:(by apply Forall_take)) as (b & -> & _ & Hb).
  f_equal. assert (Hst' : Forall (fun p => is_wild p = false) (take l pre)) by by apply Forall_take.
  apply Hb; [rewrite wildcards_static by done; lia|]. exists (take l pre). split; [by apply expands_refl|].
  destruct pre as [|p pre]; [done|]. destruct l as [|l]; [lia|]. split; [done|]. exists [], (take (S l) strs), (drop (S l) strs).
  split; [by rewrite app_nil_l, take_drop|]. split; [done|]. split; [done|]. cbn [take]. congruence.
Qed.

Lemma childMatch_complete p strs rest : wf_pattern p -> strs ≠ [] -> match_ FilepathMatch p (strs ++ rest) = Ok true ->
  childMatch FilepathMatch p strs = Ok true.
Proof using star_wf.
  intros [Hwf Hne] Hs. unfold match_ at 1. assert (Hs2 : strs ++ rest ≠ []) by by destruct strs.
  destruct (match_fuel_total _ Hs2 (wildcards (pt_parts p)) (pt_parts p) ltac:(lia) Hwf) as (b & -> & Hmeans & _). intros [= ->].
  destruct (Hmeans eq_refl) as (qs & Hq & Hqn & a & m & c & Hsplit & Hm & Habs & _). clear Hmeans.
  assert (Hpos : (0 < length strs)%nat) by (destruct strs; [done|cbn; lia]).
  unfold childMatch. destruct (pt_parts p) as [|part parts] eqn:Ep; [done|]. destruct (is_root part) eqn:Er; cbn [negb]; [|done]. rewrite <- Ep in *. cbn zeta.
  destruct (hasDoubleWildcard (pt_parts p)) as [pos|] eqn:E.
  - destruct (wildcard_Some _ _ E) as (pre & w & suf & Hp & <- & Hw & Hpre). rewrite Hp in *.
    destruct pre as [|x pre]; [injection Ep as -> _; unfold is_wild, is_root in *; apply bool_decide_eq_true in Hw, Er; by rewrite Hw in Er|].
    assert (x = part) as -> by (injection Ep as ->; done). clear Ep.
    apply Forall_app in Hwf as [Hwf _]. destruct (expands_inv _ w suf qs Hpre Hw Hq) as (k & rs & -> & _).
    rewrite (Habs Er), app_nil_l in Hsplit. apply Forall2_app_inv_l in Hm as (m1 & m2 & Hm1 & _ & ->). rewrite <- app_assoc in Hsplit.
    pose proof (Forall2_length _ _ _ Hm1) as Hlm. set (ps := part :: pre) in *.
    destruct (Nat.leb_spec (length ps) (length strs)) as [Hle|Hgt].
    + rewrite length_take, (Nat.min_l _ _ Hle). destruct (Nat.ltb_spec (length (ps ++ w :: suf)) (length ps)) as [Hlt|_]; [rewrite length_app in Hlt; lia|].
      rewrite take_app_length. assert (Htake : take (length ps) strs = m1).
      { apply (f_equal (take (length ps))) in Hsplit. rewrite take_app_le in Hsplit by done. by rewrite Hsplit, Hlm, take_app_length. }
      rewrite Htake. rewrite <- (firstn_all ps). apply match_prefix; rewrite ?firstn_all; try done; [by destruct m1|cbn; lia|lia|].
      by rewrite Hlm, firstn_all.
    + destruct (Nat.ltb_spec (length (ps ++ w :: suf)) (length strs)) as [Hlt|_]; [rewrite length_app in Hlt; lia|].
      rewrite take_app_le by lia. apply match_prefix; try done; try lia.
      rewrite firstn_all. assert (Htake : strs = take (length strs) m1).
      { apply (f_equal (take (length strs))) in Hsplit. rewrite take_app_length in Hsplit. rewrite take_app_le in Hsplit by lia. done. }
      rewrite Htake at 2. by apply Forall2_take.
  - apply wildcard_None in E. apply (expands_static_inv _ _ E) in Hq as ->.
    assert (a = []) as -> by (apply Habs; by rewrite Ep). rewrite app_nil_l in Hsplit.
    pose proof (Forall2_length _ _ _ Hm) as Hlm.
    assert (Hall : forall l, (l <= length (pt_parts p))%nat -> (l <= length strs)%nat -> Forall2 Pm (take l (pt_parts p)) (take l strs)).
    { intros l Hl1 Hl2. apply (f_equal (take l)) in Hsplit. rewrite !take_app_le in Hsplit by lia. rewrite Hsplit. by apply Forall2_take. }
    destruct (Nat.ltb_spec (length (pt_parts p)) (length strs)); (apply match_prefix; first [done|lia|by rewrite Ep|rewrite Ep; cbn; lia|apply Hall; lia]).
Qed.

(** *** Lists *)

Definition verdict (strs : list string) (p : Pattern) : bool :=
  match match_ FilepathMatch p strs with Ok b => b | _ => false end.
Definition child_verdict (check : bool) (strs : list string) (p : Pattern) : bool :=
  if check then match childMatch FilepathMatch p strs with Ok b => b | _ => false end else true.
(** Without leaving the loop early. *)
Definition list_step (check : bool) (strs : list string) (acc : bool * bool) (p : Pattern) : bool * bool :=
  if pt_isNegated p then (acc.1 && negb (verdict strs p), acc.2 && negb (verdict strs p))
  else (acc.1 || verdict strs p, acc.2 || child_verdict check strs p).

Lemma list_step_true check strs ps : existsb pt_isNegated ps = false -> fold_left (list_step check strs) ps (true, true) = (true, true).
Proof using Type.
  induction ps as [|p ps IH]; [done|]. cbn [existsb fold_left]. intros [Hp Hps]%orb_false_iff. unfold list_step at 2. rewrite Hp. cbn. by apply IH.
Qed.
Lemma list_loop_spec check neg strs ps : strs ≠ [] -> Forall wf_pattern ps -> (neg = false -> existsb pt_isNegated ps = false) ->
  forall m c, list_loop FilepathMatch ps check neg strs m c = Ok (fold_left (list_step check strs) ps (m, c)).
Proof using star_wf.
  intros Hne. induction ps as [|p ps IH]; intros Hwf Hneg m c; [done|]. apply Forall_cons in Hwf as [Hp Hwf]. cbn [list_loop fold_left].
  destruct (match_total p strs Hp Hne) as [b Eb], (childMatch_total p strs Hp Hne) as [b' Eb'].
  assert (Hv : verdict strs p = b) by (unfold verdict; by rewrite Eb).
  assert (Hc : (if check then childMatch FilepathMatch p strs else Ok true) = Ok (child_verdict check strs p))
    by (unfold child_verdict; destruct check; [by rewrite Eb'|done]).
  rewrite Eb, Hc. cbn [mbind res_bind]. unfold list_step at 2. rewrite Hv. cbn [fst snd].
  assert (IHr : forall m c, list_loop FilepathMatch ps check neg strs m c = Ok (fold_left (list_step check strs) ps (m, c))).
  { apply IH; [done|]. intros E. specialize (Hneg E). cbn in Hneg. by apply orb_false_iff in Hneg as [_ ?]. }
  destruct (pt_isNegated p) eqn:En; [apply IHr|].
  destruct (m || b), (c || child_verdict check strs p), neg; cbn [andb negb]; try apply IHr.
  rewrite list_step_true; [done|]. specialize (Hneg eq_refl). cbn in Hneg. by apply orb_false_iff in Hneg as [_ ?].
Qed.

(** A fold is decided by the last pattern that matches. *)
Definition selected (strs : list string) (ps : list Pattern) : Prop := exists a p b, ps = a ++ p :: b
  /\ pt_isNegated p = false /\ verdict strs p = true /\ (forall q, q ∈ b -> pt_isNegated q = true -> verdict strs q = false).
Lemma fold_selected check strs ps : forall acc, (fold_left (list_step check strs) ps acc).1 = true <->
  selected strs ps \/ (acc.1 = true /\ forall q, q ∈ ps -> pt_isNegated q = true -> verdict strs q = false).
Proof using Type.
  clear star_wf. induction ps as [|p ps IH] using rev_ind; intros acc.
  { cbn. split; [intros ->; right; split; [done|by intros q ?%elem_of_nil]|]. by intros [([|? ?] & p1 & b1 & E1 & _)|[? _]]. }
  rewrite fold_left_app. cbn [fold_left]. unfold list_step at 1.
  assert (Hsel : selected strs (ps ++ [p]) <-> (pt_isNegated p = false /\ verdict strs p = true)
    \/ (selected strs ps /\ (pt_isNegated p = true -> verdict strs p = false))).
  { split.
    - intros (a & q & b & E & Hn & Hv & Hb). destruct b as [|x b _] using rev_ind.
      + apply app_inj_tail in E as [_ <-]. by left.
      + rewrite app_comm_cons, app_assoc in E. apply app_inj_tail in E as [-> <-]. right. split; [|apply Hb; set_solver].
        exists a, q, b. split; [done|]. split; [done|]. split; [done|]. intros y Hy. apply Hb. set_solver.
    - intros [[Hn Hv]|[(a & q & b & -> & Hn & Hv & Hb) Hp]].
      + exists ps, p, []. split; [done|]. split; [done|]. split; [done|]. by intros q ?%elem_of_nil.
      + exists a, q, (b ++ [p]). split; [by rewrite <- app_assoc|]. split; [done|]. split; [done|].
        intros y [Hy| ->%list_elem_of_singleton]%elem_of_app; [by apply Hb|done]. }
  assert (Hall : (forall q, q ∈ ps ++ [p] -> pt_isNegated q = true -> verdict strs q = false)
    <-> (forall q, q ∈ ps -> pt_isNegated q = true -> verdict strs q = false) /\ (pt_isNegated p = true -> verdict strs p = false)).
  { split; [intros Hq; split; [intros q Hin; apply Hq; set_solver|apply Hq; set_solver]|].
    intros [H1 H2] q [Hq| ->%list_elem_of_singleton]%elem_of_app; [by apply H1|done]. }
  rewrite Hsel, Hall. specialize (IH acc).
  destruct (pt_isNegated p) eqn:En; cbn [fst]; [rewrite andb_true_iff, negb_true_iff|rewrite orb_true_iff]; rewrite IH.
  - generalize (selected strs ps), (acc.1 = true). intros; intuition congruence.
  - generalize (selected strs ps), (acc.1 = true). intros; intuition congruence.
Qed.

(** Whatever a path below matches is not ruled out for its directory. *)
Lemma fold_child strs rest check ps : strs ≠ [] -> Forall wf_pattern ps -> forall acc acc', (acc'.1 = true -> acc.2 = true) ->
  (fold_left (list_step check (strs ++ rest)) ps acc').1 = true -> (fold_left (list_step true strs) ps acc).2 = true.
Proof using star_wf.
  intros Hne. induction ps as [|p ps IH]; intros Hwf acc acc' Hacc; [by apply Hacc|]. apply Forall_cons in Hwf as [Hp Hwf]. cbn [fold_left].
  apply IH; [done|]. unfold list_step. assert (Hne' : strs ++ rest ≠ []) by by destruct strs.
  destruct (match_total p strs Hp Hne) as [b Eb], (match_total p _ Hp Hne') as [b2 Eb2]. unfold verdict. rewrite Eb, Eb2.
  destruct (pt_isNegated p); cbn [fst snd].
  - rewrite !andb_true_iff, !negb_true_iff. intros [H1 ->]. split; [by apply Hacc|]. destruct b; [|done].
    destruct Hp as [Hp _]. apply (match_fuel_mono strs rest Hne (wildcards (pt_parts p)) (pt_parts p) ltac:(lia) Hp) in Eb. unfold match_ in Eb2. congruence.
  - rewrite !orb_true_iff. intros [H1| ->]; [left; by apply Hacc|right]. unfold child_verdict.
    by rewrite (childMatch_complete p strs rest Hp Hne Eb2).
Qed.
End spec.

(** C40: What a pattern matches.  For a pattern whose parts are well-formed,
    [match] always has a result; if it is true, replacing each double wildcard
    by some number of stars gives a pattern that matches consecutive
    components of the path, from the root on if it is absolute.  With at most
    one double wildcard, the result is true exactly then. *)
Theorem match_means (FilepathMatch : string -> string -> option bool) (pattern : Pattern) (strs : list string)
    (star_wf : wf_part FilepathMatch star) (Hwf : Forall (wf_part FilepathMatch) (pt_parts pattern)) (Hne : strs ≠ []) :
  exists b, match_ FilepathMatch pattern strs = Ok b
  /\ (b = true -> means FilepathMatch (pt_parts pattern) strs)
  /\ ((wildcards (pt_parts pattern) <= 1)%nat -> means FilepathMatch (pt_parts pattern) strs -> b = true).
Proof. by apply match_fuel_total. Qed.

Lemma splitPath_nonempty p : splitPath p ≠ [].
Proof. unfold splitPath, path_split. destruct (split_slash (bytes_of p)) eqn:E; [|done]. by destruct (bytes_of p); cbn in E; [|case_bool_decide; [|destruct (split_slash _)]]. Qed.

(** Lists of patterns.  A path is matched by a list of patterns if the
    last of them that applies to it is not negated: one matches, and no
    negated pattern after it does; leaving the loop early changes nothing.
    And pruning is safe: if no child of a directory may match, no path below
    it is matched. *)
Theorem list_spec (FilepathMatch : string -> string -> option bool) (patterns : list Pattern) (str below : string) (check : bool)
    (star_wf : wf_part FilepathMatch star) (Hwf : Forall (wf_pattern FilepathMatch) patterns) (Hne : str ≠ ""%string) :
  (exists matched childMayMatch, list_ FilepathMatch patterns check str = Ok (matched, childMayMatch)
    /\ (matched = true <-> selected FilepathMatch (splitPath str) patterns))
  /\ (forall matched, ListWithChild FilepathMatch patterns str = Ok (matched, false) ->
      List FilepathMatch patterns (str ++ "/" ++ below) = Ok false).
Proof.
  assert (Hprep : forall s, s ≠ ""%string -> prepareStr s = Ok (splitPath s)) by (intros s Hs; unfold prepareStr; by rewrite bool_decide_eq_false_2).
  assert (Hl : forall c s, s ≠ ""%string -> list_ FilepathMatch patterns c s = Ok (fold_left (list_step FilepathMatch c (splitPath s)) patterns (false, false))).
  { intros c s Hs. unfold list_. destruct patterns as [|p ps]; [done|]. rewrite Hprep by done. cbn [mbind res_bind].
    apply list_loop_spec; [done|apply splitPath_nonempty|done|done]. }
  split.
  - rewrite Hl by done. destruct (fold_left _ patterns _) as [m c] eqn:E. exists m, c. split; [done|].
    pose proof (fold_selected FilepathMatch check (splitPath str) patterns (false, false)) as Hs. rewrite E in Hs. cbn [fst] in Hs. rewrite Hs. naive_solver.
  - intros matched. unfold ListWithChild, List. rewrite Hl by done. assert (Hne2 : (str ++ "/" ++ below)%string ≠ ""%string) by by destruct str.
    rewrite Hl by done. cbn [mbind res_bind]. assert (Hsplit : exists rest, splitPath (str ++ "/" ++ below) = splitPath str ++ rest).
    { exists (path_split below). unfold splitPath. rewrite path_split_app. destruct (path_split str) eqn:E; [|done].
      exfalso. apply (splitPath_nonempty str). unfold splitPath. by rewrite E. }
    destruct Hsplit as [rest ->]. intros [= E]. destruct (fold_left _ patterns (false, false)) as [m c] eqn:E1. cbn in E. injection E as -> ->.
    destruct (fold_left (list_step FilepathMatch false (splitPath str ++ rest)) patterns (false, false)) as [m2 c2] eqn:E2.
    destruct m2; [|done]. exfalso.
    pose proof (fold_child FilepathMatch star_wf (splitPath str) rest false patterns (splitPath_nonempty str) Hwf (false, false) (false, false) ltac:(done)) as Hf.
    rewrite E1, E2 in Hf. by specialize (Hf eq_refl).
Qed.

Lemma simple_wf part : pp_isSimple part = true -> wf_part Glob.FilepathMatch part.
Proof. intros Hp s. unfold match_part. by rewrite Hp. Qed.
Lemma star_wf : wf_part Glob.FilepathMatch star.
Proof. intros s. unfold match_part, star. cbn [pp_isSimple pp_pattern]. by rewrite Glob.star_matches. Qed.
Lemma wild_wf : wf_part Glob.FilepathMatch (mkPart "" false).
Proof. done. Qed.

Definition toy_parts : list patternPart := map prepare_part ["/"; "home"; "**"; "x"]%string.
Definition toy_pattern : Pattern := mkPattern toy_parts false.
Definition toy_patterns : list Pattern := [toy_pattern; mkPattern (map prepare_part ["*"; "y"]%string) true].
Lemma toy_parts_wf : Forall (wf_part Glob.FilepathMatch) toy_parts.
Proof. repeat (apply Forall_cons; split; [first [by apply simple_wf|exact wild_wf]|]). apply Forall_nil, I. Qed.

Lemma match_means_witness : match_ Glob.FilepathMatch toy_pattern ["/"; "home"; "a"; "x"; "y"]%string = Ok true
  /\ exists b, match_ Glob.FilepathMatch toy_pattern ["/"; "home"; "a"; "x"; "y"]%string = Ok b
     /\ (b = true -> means Glob.FilepathMatch toy_parts ["/"; "home"; "a"; "x"; "y"]%string).
Proof.
  split; [vm_compute; reflexivity|].
  destruct (match_means Glob.FilepathMatch toy_pattern ["/"; "home"; "a"; "x"; "y"]%string star_wf toy_parts_wf) as (b & H1 & H2 & _); [discriminate|].
  by exists b.
Defined.
Lemma list_spec_witness : ListWithChild Glob.FilepathMatch toy_patterns "/var" = Ok (false, false)
  /\ List Glob.FilepathMatch toy_patterns ("/var" ++ "/" ++ "x") = Ok false.
Proof.
  assert (Hwf : Forall (wf_pattern Glob.FilepathMatch) toy_patterns).
  { apply Forall_cons; split; [split; [apply toy_parts_wf|discriminate]|]. apply Forall_cons; split; [|apply Forall_nil, I].
    split; [|discriminate]. apply Forall_cons; split; [exact star_wf|]. apply Forall_cons; split; [by apply simple_wf|apply Forall_nil, I]. }
  assert (Hc : ListWithChild Glob.FilepathMatch toy_patterns "/var" = Ok (false, false)) by (vm_compute; reflexivity).
  split; [exact Hc|].
  exact (proj2 (list_spec Glob.FilepathMatch toy_patterns "/var" "x" false star_wf Hwf ltac:(discriminate)) false Hc).
Defined.
