(* ===== verification/Walker.v ===== *)
(** * Walker: visiting all nodes of a tree

    src/walker/walker.go.  The order of nodes with the same
    name in a tree is left to [sort.Slice], a parameter.  Recursion has fuel;
    trees refer to each other by hash, so their depth is finite. *)

From S2P Require Import Prelude Ids Duration Snapshots Trees Paths.

(** ** The walk *)

Section walk.
Context {E U : Type} (LoadTree : ID -> res E Tree) (sort : list Node -> list Node).

Inductive walk_error : Type := ErrSkipNode | EmptyType (name : string) | NilSubtree (name path : string) | WalkErr (e : E).

(** [WalkFunc] on the client's state: the parent tree, the path, the node
    ([None] for the root) and the error of loading it. *)
Definition WalkFunc : Type := ID -> string -> option Node -> option E -> U -> U * (bool * option walk_error).

(** Out of fuel, or the client's state, the ignored trees and what [walk]
    returns. *)
Inductive fuel_error : Type := OutOfFuel.
Definition wresult : Type := res fuel_error (U * IDSet * (bool * option walk_error)).

Context (walkFn : WalkFunc).

(** The loop over the nodes; a tree that failed to load is a [nil] pointer. *)
Section loop.
Context (walk_rec : string -> ID -> option Tree -> U -> IDSet -> wresult).

Fixpoint walk_nodes (prefix : string) (parentTreeID : ID) (nodes : list Node) (allNodesIgnored : bool) (u : U) (ignoreTrees : IDSet)
  : wresult :=
  match nodes with
  | [] => Ok (u, ignoreTrees, (allNodesIgnored, None))
  | node :: nodes =>
      let p := Join [prefix; n_Name node] in
      if bool_decide (n_Type node = ""%string) then Ok (u, ignoreTrees, (false, Some (EmptyType (n_Name node))))
      else if negb (bool_decide (n_Type node = "dir"%string)) then
        let '(u, (ignore, err)) := walkFn parentTreeID p (Some node) None u in
        match err with
        | Some ErrSkipNode => Ok (u, ignoreTrees, (allNodesIgnored, None))
        | Some err => Ok (u, ignoreTrees, (false, Some err))
        | None => walk_nodes prefix parentTreeID nodes (if negb ignore then false else allNodesIgnored) u ignoreTrees
        end
      else
        match n_Subtree node with
        | None => Ok (u, ignoreTrees, (false, Some (NilSubtree (n_Name node) p)))
        | Some id =>
            if IDSet_Has ignoreTrees id then walk_nodes prefix parentTreeID nodes allNodesIgnored u ignoreTrees
            else
              match LoadTree id with
              | Panic m => Panic m
              | load =>
              let '(u, (ignore, err)) :=
                walkFn parentTreeID p (Some node) (match load with Err e => Some e | _ => None end) u in
              match err with
              | Some ErrSkipNode =>
                  walk_nodes prefix parentTreeID nodes allNodesIgnored u (if ignore then IDSet_Insert ignoreTrees id else ignoreTrees)
              | Some err => Ok (u, ignoreTrees, (false, Some err))
              | None =>
                  let ignoreTrees := if ignore then IDSet_Insert ignoreTrees id else ignoreTrees in
                  let allNodesIgnored := if negb ignore then false else allNodesIgnored in
                  match walk_rec p id (match load with Ok t => Some t | _ => None end) u ignoreTrees with
                  | Panic m => Panic m
                  | Err e => Err e
                  | Ok (u, ignoreTrees, (_, Some err)) => Ok (u, ignoreTrees, (false, Some err))
                  | Ok (u, ignoreTrees, (ignore, None)) =>
                      walk_nodes prefix parentTreeID nodes (if negb ignore then false else allNodesIgnored) u
                        (if ignore then IDSet_Insert ignoreTrees id else ignoreTrees)
                  end
              end
              end
        end
  end.
End loop.

Fixpoint walk (fuel : nat) (prefix : string) (parentTreeID : ID) (tree : option Tree) (u : U) (ignoreTrees : IDSet) : wresult :=
  match fuel with
  | O => Err OutOfFuel
  | S fuel =>
      match tree with
      | None => Panic "invalid memory address or nil pointer dereference"
      | Some tree =>
          walk_nodes (walk fuel) prefix parentTreeID (sort (t_Nodes tree))
            (negb (bool_decide (length (t_Nodes tree) = 0%nat))) u ignoreTrees
      end
  end.

(** [Walk]; the result has the ignored trees too. *)
Definition Walk (fuel : nat) (root : ID) (ignoreTrees : IDSet) (u : U) : res fuel_error (U * IDSet * option walk_error) :=
  match LoadTree root with
  | Panic m => Panic m
  | load =>
      let '(u, (_, err)) := walkFn root "/" None (match load with Err e => Some e | _ => None end) u in
      match err with
      | Some ErrSkipNode => Ok (u, ignoreTrees, None)
      | Some err => Ok (u, ignoreTrees, Some err)
      | None =>
          '(u, ignoreTrees, (_, err)) ← walk fuel "/" root (match load with Ok t => Some t | _ => None end) u ignoreTrees;
          Ok (u, ignoreTrees, err)
      end
  end.
End walk.

(** ** The nodes in the order of the walk *)

Section preorder.
Context {E : Type} (LoadTree : ID -> res E Tree) (sort : list Node -> list Node).

(** A call of the client: parent tree, path, node. *)
Definition visit : Type := ID * string * option Node.

(** [visits id prefix tree l]: the calls below a tree are [l]; each
    directory is followed by what is below it. *)
Inductive visits : ID -> string -> list Node -> list visit -> Prop :=
| vs_nil id prefix : visits id prefix [] []
| vs_leaf id prefix node nodes l : n_Type node ≠ ""%string -> n_Type node ≠ "dir"%string ->
    visits id prefix nodes l ->
    visits id prefix (node :: nodes) ((id, Join [prefix; n_Name node], Some node) :: l)
| vs_dir id prefix node nodes sub tree l1 l2 : n_Type node = "dir"%string -> n_Subtree node = Some sub ->
    LoadTree sub = Ok tree ->
    visits sub (Join [prefix; n_Name node]) (sort (t_Nodes tree)) l1 ->
    visits id prefix nodes l2 ->
    visits id prefix (node :: nodes) ((id, Join [prefix; n_Name node], Some node) :: l1 ++ l2).

End preorder.

(** ** A client that ignores nothing sees all nodes, in preorder *)

Section spec.
Context {E U : Type} (LoadTree : ID -> res E Tree) (sort : list Node -> list Node) (f : U -> visit -> U).
Context (walkFn : @WalkFunc E U).
Context (walkFn_f : ∀ id p n u, walkFn id p n None u = (f u (id, p, n), (false, None))).
Context (sort_perm : ∀ l, sort l ≡ₚ l).

Lemma sort_nonempty l : negb (bool_decide (length l = 0%nat)) = true -> sort l ≠ [].
Proof using sort_perm.
  rewrite negb_true_iff, bool_decide_eq_false. intros Hn Hz; apply Hn.
  pose proof (sort_perm l) as Hp. rewrite Hz in Hp. by rewrite (Permutation_nil Hp).
Qed.

Lemma walk_nodes_visits id prefix nodes l : visits LoadTree sort id prefix nodes l ->
  ∃ k, ∀ fuel u all, (k <= fuel)%nat -> (all = true -> nodes ≠ []) ->
    walk_nodes LoadTree walkFn (walk LoadTree sort walkFn fuel) prefix id nodes all u ∅ =
    Ok (fold_left f l u, ∅, (false, None)).
Proof using walkFn_f sort_perm.
  induction 1 as [|id prefix node nodes l Ht Hd _ [k IH]
    |id prefix node nodes sub tree l1 l2 Ht Hs Hl _ [k1 IH1] _ [k2 IH2]].
  - exists 0%nat; intros fuel u [] _ Hall; [by destruct Hall|done].
  - exists k; intros fuel u all Hf _; cbn [walk_nodes].
    rewrite (bool_decide_eq_false_2 _ Ht), (bool_decide_eq_false_2 _ Hd), walkFn_f; cbn. by apply IH.
  - exists (S (k1 `max` k2)); intros fuel u all Hf _; cbn [walk_nodes].
    rewrite Ht; cbn [negb]. rewrite bool_decide_eq_false_2, bool_decide_eq_true_2 by done. cbn [negb].
    unfold IDSet_Has; rewrite Hs, bool_decide_eq_false_2 by set_solver.
    rewrite Hl, walkFn_f; cbn [negb].
    destruct fuel as [|fuel]; [lia|]. cbn [walk].
    rewrite IH1; [|lia|].
    + cbn [fold_left]. rewrite fold_left_app. apply (IH2 (S fuel)); [lia|done].
    + by apply sort_nonempty.
Qed.

Lemma Walk_visits root tree l u : LoadTree root = Ok tree -> visits LoadTree sort root "/" (sort (t_Nodes tree)) l ->
  ∃ k, ∀ fuel, (k <= fuel)%nat ->
    Walk LoadTree sort walkFn fuel root ∅ u = Ok (fold_left f ((root, "/"%string, None) :: l) u, ∅, None).
Proof using walkFn_f sort_perm.
  intros Hroot Hl. destruct (walk_nodes_visits _ _ _ _ Hl) as [k Hk].
  exists (S k); intros [|fuel] Hf; [lia|].
  unfold Walk; rewrite Hroot, walkFn_f; cbn [walk].
  rewrite Hk; [done|lia|]. by apply sort_nonempty.
Qed.
End spec.

(** Let the trees below a root be loadable and have finite depth, so
    that their nodes have a preorder [l] (each tree's nodes in the order of
    [sort], each directory followed by what is below it).  Then [Walk] with
    a client that returns no error and ignores nothing returns (given enough
    fuel it never runs out, and more fuel does not matter), reports no
    error, calls the client once for the root and then for exactly the nodes
    of [l] in this order, with their parent tree and path, and leaves the
    set of ignored trees empty. *)
Theorem Walk_preorder {E U : Type} (LoadTree : ID -> res E Tree) (sort : list Node -> list Node)
    (f : U -> visit -> U) (walkFn : @WalkFunc E U) (root : ID) (tree : Tree) (l : list visit) (u : U)
    (Hfn : ∀ id p n u, walkFn id p n None u = (f u (id, p, n), (false, None)))
    (Hsort : ∀ l, sort l ≡ₚ l)
    (Hroot : LoadTree root = Ok tree)
    (Hl : visits LoadTree sort root "/" (sort (t_Nodes tree)) l) :
  ∃ k, ∀ fuel, (k <= fuel)%nat ->
    Walk LoadTree sort walkFn fuel root ∅ u = Ok (fold_left f ((root, "/"%string, None) :: l) u, ∅, None).
Proof. exact (Walk_visits LoadTree sort f walkFn Hfn Hsort root tree l u Hroot Hl). Qed.

Definition toy_nodes : list Node :=
  [toy_node "a" "file" [] None; toy_node "b" "dir" [] (Some [Byte.x02])].
Definition toy_load (id : ID) : res unit Tree :=
  match id with
  | [Byte.x01] => Ok (mkTree toy_nodes)
  | [Byte.x02] => Ok (mkTree [toy_node "c" "file" [] None])
  | _ => Err tt
  end.
Definition toy_observer : @WalkFunc unit (list visit) :=
  fun id p n e u => match e with None => (u ++ [(id, p, n)], (false, None)) | Some e => (u, (false, Some (WalkErr e))) end.

Lemma Walk_preorder_witness :
  ∃ k, ∀ fuel, (k <= fuel)%nat ->
    Walk toy_load id toy_observer fuel [Byte.x01] ∅ [] =
    Ok ([([Byte.x01], "/"%string, None);
         ([Byte.x01], "/a"%string, Some (toy_node "a" "file" [] None));
         ([Byte.x01], "/b"%string, Some (toy_node "b" "dir" [] (Some [Byte.x02])));
         ([Byte.x02], "/b/c"%string, Some (toy_node "c" "file" [] None))], ∅, None).
Proof.
  apply (Walk_preorder toy_load id (fun u v => u ++ [v]) toy_observer [Byte.x01] (mkTree toy_nodes)
    [([Byte.x01], "/a"%string, Some (toy_node "a" "file" [] None));
     ([Byte.x01], "/b"%string, Some (toy_node "b" "dir" [] (Some [Byte.x02])));
     ([Byte.x02], "/b/c"%string, Some (toy_node "c" "file" [] None))] []); [reflexivity|reflexivity|reflexivity|].
  apply (vs_leaf toy_load id [Byte.x01] "/"); [discriminate|discriminate|].
  apply (vs_dir toy_load id [Byte.x01] "/" (toy_node "b" "dir" [] (Some [Byte.x02])) [] [Byte.x02] (mkTree [toy_node "c" "file" [] None])
    [([Byte.x02], "/b/c"%string, Some (toy_node "c" "file" [] None))] []); [reflexivity|reflexivity|reflexivity| |constructor].
  apply (vs_leaf toy_load id [Byte.x02] "/b"); [discriminate|discriminate|constructor].
Defined.

(** A client that ignores the error of loading a directory makes [walk] use
    the nil tree. *)
Lemma walk_ignored_error_panics :
  Walk (fun id => match id with [Byte.x01] => Ok (mkTree toy_nodes) | _ => Err tt end) id
    (fun _ _ _ _ u => (u, (false, None))) 5 [Byte.x01] ∅ tt
  = Panic "invalid memory address or nil pointer dereference".
Proof. vm_compute. reflexivity. Qed.

(** ** Trees below trees *)

Section below.
Context {E : Type} (LoadTree : ID -> res E Tree).

(** The trees below [t] can be loaded and walked, to a depth of less than [d]. *)
Fixpoint walkable (d : nat) (t : ID) : Prop :=
  match d with
  | O => False
  | S d => ∃ tree, LoadTree t = Ok tree /\ Forall (fun n => n_Type n ≠ ""%string
      /\ (n_Type n = "dir"%string -> ∃ s, n_Subtree n = Some s /\ walkable d s)) (t_Nodes tree)
  end.
Definition walkable_node (d : nat) (n : Node) : Prop :=
  n_Type n ≠ ""%string /\ (n_Type n = "dir"%string -> ∃ s, n_Subtree n = Some s /\ walkable d s).

(** The nodes of a tree and of the trees below it. *)
Inductive below : ID -> Node -> Prop :=
| below_here t tree n : LoadTree t = Ok tree -> n ∈ t_Nodes tree -> below t n
| below_dir t tree d s n : LoadTree t = Ok tree -> d ∈ t_Nodes tree -> n_Type d = "dir"%string -> n_Subtree d = Some s ->
    below s n -> below t n.
Definition subdir (t s : ID) : Prop := ∃ d, below t d /\ n_Type d = "dir"%string /\ n_Subtree d = Some s.

Lemma below_trans t s n : subdir t s -> below s n -> below t n.
Proof.
  intros (d & Hd & Ht & Hs) Hn. revert Ht Hs. induction Hd as [t tree d HL Hin|t tree d' s' d HL Hin Ht' Hs' _ IH]; intros Ht Hs.
  - by eapply below_dir.
  - eapply below_dir; [done..|]. by apply IH.
Qed.
Lemma walkable_sub d : ∀ t n s, walkable d t -> below t n -> n_Type n = "dir"%string -> n_Subtree n = Some s -> ∃ d', (d' < d)%nat /\ walkable d' s.
Proof.
  induction d as [|d IH]; intros t n s Hw Hb Ht Hs; [done|]. destruct Hw as (tree & HL & Hall). rewrite Forall_forall in Hall.
  inversion Hb as [? tree' ? HL' Hin|? tree' n' s' ? HL' Hin Ht' Hs' Hb']; subst; rewrite HL in HL'; injection HL' as <-.
  - destruct (Hall n Hin) as [_ Hsub]. destruct (Hsub Ht) as (s' & Hs' & Hw). rewrite Hs in Hs'. injection Hs' as <-. exists d. split; [lia|done].
  - destruct (Hall n' Hin) as [_ Hsub]. destruct (Hsub Ht') as (s'' & Hs'' & Hw). rewrite Hs' in Hs''. injection Hs'' as <-.
    destruct (IH s' n s Hw Hb' Ht Hs) as (d' & Hlt & Hw'). exists d'. split; [lia|done].
Qed.
(** No tree that can be walked contains itself. *)
Lemma walkable_irrefl d : ∀ t, walkable d t -> ¬ subdir t t.
Proof.
  induction (lt_wf d) as [d _ IH]. intros t Hw Hsub. pose proof Hsub as (n & Hn & Ht & Hs). destruct (walkable_sub d t n t Hw Hn Ht Hs) as (d' & Hlt & Hw').
  by apply (IH d' Hlt t Hw').
Qed.

Fixpoint can_walk (d : nat) (t : ID) : bool :=
  match d with
  | O => false
  | S d =>
      match LoadTree t with
      | Ok tree => forallb (λ n, negb (bool_decide (n_Type n = ""%string))
          && (negb (bool_decide (n_Type n = "dir"%string)) || match n_Subtree n with Some s => can_walk d s | None => false end)) (t_Nodes tree)
      | _ => false
      end
  end.
Lemma can_walk_walkable d : ∀ t, can_walk d t = true -> walkable d t.
Proof.
  induction d as [|d IH]; intros t; [done|]. cbn [can_walk walkable]. destruct (LoadTree t) as [tree| |]; [|done..]. intros Hall. exists tree. split; [done|].
  apply Forall_forall. intros n Hin%list_elem_of_In. rewrite forallb_forall in Hall. apply Hall in Hin.
  rewrite andb_true_iff, orb_true_iff, !negb_true_iff, !bool_decide_eq_false in Hin. destruct Hin as [Hne Hd]. split; [done|]. intros Ht.
  destruct Hd as [?|Hd]; [done|]. destruct (n_Subtree n) as [s|]; [|done]. exists s. split; [done|by apply IH].
Qed.
(** They can be listed. *)
Fixpoint nodes_below (d : nat) (t : ID) : list Node :=
  match d with
  | O => []
  | S d =>
      match LoadTree t with
      | Ok tree => t_Nodes tree ++ concat (map (λ n, match n_Subtree n with Some s => nodes_below d s | None => [] end) (t_Nodes tree))
      | _ => []
      end
  end.
Lemma nodes_below_all d : ∀ t n, walkable d t -> below t n -> n ∈ nodes_below d t.
Proof.
  induction d as [|d IH]; intros t n Hw Hb; [done|]. destruct Hw as (tree & HL & Hall). cbn [nodes_below]. rewrite HL. apply elem_of_app.
  rewrite Forall_forall in Hall. inversion Hb as [? tree' ? HL' Hin|? tree' m s ? HL' Hin Ht Hs Hb']; subst; rewrite HL in HL'; injection HL' as <-; [by left|right].
  apply list_elem_of_In, in_concat. exists (nodes_below d s). split.
  - apply in_map_iff. exists m. rewrite Hs. split; [done|by apply list_elem_of_In].
  - apply list_elem_of_In, IH; [|done]. destruct (Hall m Hin) as [_ Hsub]. destruct (Hsub Ht) as (s' & Hs' & Hw'). rewrite Hs in Hs'. by injection Hs' as <-.
Qed.

(** The nodes of a list and below them. *)
Definition among (nodes : list Node) (n : Node) : Prop :=
  n ∈ nodes \/ ∃ d s, d ∈ nodes /\ n_Type d = "dir"%string /\ n_Subtree d = Some s /\ below s n.
Definition dir_among (nodes : list Node) (t : ID) : Prop := ∃ d, among nodes d /\ n_Type d = "dir"%string /\ n_Subtree d = Some t.
Lemma among_below t tree n : LoadTree t = Ok tree -> among (t_Nodes tree) n <-> below t n.
Proof.
  intros HL. split.
  - intros [Hin|(d & s & Hin & Ht & Hs & Hn)]; [by eapply below_here|by eapply below_dir].
  - inversion 1 as [? tree' ? HL' Hin|? tree' n' s' ? HL' Hin Ht' Hs' Hb']; subst; rewrite HL in HL'; injection HL' as <-; [by left|right; by exists n', s'].
Qed.
Lemma among_perm l l' n : l ≡ₚ l' -> among l n -> among l' n.
Proof. intros Hp [Hin|(d & s & Hin & Hrest)]; [left; by rewrite <- Hp|right; exists d, s; by rewrite <- Hp]. Qed.
Lemma among_cons m nodes n : among nodes n -> among (m :: nodes) n.
Proof. intros [Hin|(d & s & Hin & Hrest)]; [left; by right|right; exists d, s; split; [by right|done]]. Qed.
Lemma among_head m s nodes n : n_Type m = "dir"%string -> n_Subtree m = Some s -> below s n -> among (m :: nodes) n.
Proof. intros Ht Hs Hn. right. exists m, s. split; [left|done]. Qed.
End below.

(** ** A client that ignores every tree it has seen

    The walk skips a directory whose tree was already visited; every file is
    still seen, since a tree is never inside itself. *)

Section ignoring.
Context {E U : Type} (LoadTree : ID -> res E Tree) (sort : list Node -> list Node) (f : U -> visit -> U) (walkFn : @WalkFunc E U).
(** What holds of the client's state, and the nodes it is called for. *)
Context (Inv : U -> Prop) (good : Node -> Prop).
Context (walkFn_f : ∀ id p n u, Inv u -> good n -> walkFn id p (Some n) None u = (f u (id, p, Some n), (true, None)) /\ Inv (f u (id, p, Some n))).
Context (sort_perm : ∀ l, sort l ≡ₚ l).

#[local] Abbreviation walk_ := (walk LoadTree sort walkFn).
#[local] Abbreviation walk_nodes_ := (walk_nodes LoadTree walkFn).
#[local] Abbreviation among := (among LoadTree).
#[local] Abbreviation below := (below LoadTree).
#[local] Abbreviation dir_among := (dir_among LoadTree).

Definition is_file (n : Node) : Prop := n_Type n ≠ "dir"%string.
Definition called (l : list visit) (n : Node) : Prop := ∃ id p, (id, p, Some n) ∈ l.
(** [n] is in [l], or below a tree that was ignored before. *)
Definition done_or (I : IDSet) (nodes : list Node) (l : list visit) (n : Node) : Prop :=
  called l n \/ ∃ t, t ∈ I /\ dir_among nodes t /\ below t n.
(** What a walk of [nodes] does to the client and to the ignored trees. *)
Record covers (nodes : list Node) (I I' : IDSet) (l : list visit) : Prop := {
  cov_only v : v ∈ l -> ∃ n, v.2 = Some n /\ among nodes n;
  cov_all n : among nodes n -> is_file n -> done_or I nodes l n;
  cov_ignored t : t ∈ I' -> t ∈ I \/ (dir_among nodes t /\ ∀ n, below t n -> is_file n -> done_or I nodes l n);
}.
Definition walked (nodes : list Node) (u : U) (I : IDSet) (x : wresult (E := E) (U := U)) : Prop :=
  ∃ l I' b, x = Ok (fold_left f l u, I', (b, None)) /\ Inv (fold_left f l u) /\ covers nodes I I' l.

Lemma called_app l l' n : called (l ++ l') n <-> called l n \/ called l' n.
Proof. unfold called. setoid_rewrite elem_of_app. naive_solver. Qed.
Lemma dir_among_cons m nodes t : dir_among nodes t -> dir_among (m :: nodes) t.
Proof. intros (d & Hd & Hrest). exists d. split; [by apply among_cons|done]. Qed.

Lemma covers_leaf id p m nodes I I' l : is_file m -> covers nodes I I' l -> covers (m :: nodes) I I' ((id, p, Some m) :: l).
Proof.
  intros Hm [H1 H2 H3]. assert (Hup : ∀ n, done_or I nodes l n -> done_or I (m :: nodes) ((id, p, Some m) :: l) n).
  { intros n [(i & q & Hin)|(t & Ht & Hd & Hn)]; [left; exists i, q; by right|right; exists t; split; [done|]; by split; [apply dir_among_cons|]]. }
  split.
  - intros v [->|Hv]%elem_of_cons; [exists m; split; [done|left; left]|]. destruct (H1 v Hv) as (n & Hn & Ha). exists n. split; [done|by apply among_cons].
  - intros n [[->|Hin]%elem_of_cons|(d & s & [->|Hin]%elem_of_cons & Ht & Hs & Hn)] Hf; [left; exists id, p; left| |by destruct Hm|].
    + apply Hup, H2; [by left|done].
    + apply Hup, H2; [|done]. right. by exists d, s.
  - intros t [Ht|[Hd Hall]]%H3; [by left|right]. split; [by apply dir_among_cons|]. intros n Hn Hf. by apply Hup, Hall.
Qed.
Lemma covers_skip m s nodes I I' l : n_Type m = "dir"%string -> n_Subtree m = Some s -> s ∈ I -> covers nodes I I' l -> covers (m :: nodes) I I' l.
Proof.
  intros Ht Hs HI [H1 H2 H3]. assert (Hup : ∀ n, done_or I nodes l n -> done_or I (m :: nodes) l n).
  { intros n [Hc|(t & Ht' & Hd & Hn)]; [by left|right; exists t; split; [done|]; by split; [apply dir_among_cons|]]. }
  split.
  - intros v (n & Hn & Ha)%H1. exists n. split; [done|by apply among_cons].
  - intros n [[->|Hin]%elem_of_cons|(d & s' & [->|Hin]%elem_of_cons & Htd & Hsd & Hn)] Hf; [done| | |].
    + apply Hup, H2; [by left|done].
    + rewrite Hs in Hsd. injection Hsd as <-. right. exists s. split; [done|]. split; [exists m; split; [left; left|done]|done].
    + apply Hup, H2; [|done]. right. by exists d, s'.
  - intros t [H|[Hd Hall]]%H3; [by left|right]. split; [by apply dir_among_cons|]. intros n Hn Hf. by apply Hup, Hall.
Qed.
Lemma covers_dir d id p m s tree nodes I I1 I2 I' l1 l2 : n_Type m = "dir"%string -> n_Subtree m = Some s -> LoadTree s = Ok tree -> walkable LoadTree d s ->
  covers (t_Nodes tree) ({[s]} ∪ I) I1 l1 -> (∀ t, t ∈ I2 -> t = s \/ t ∈ I1) -> covers nodes I2 I' l2 ->
  covers (m :: nodes) I I' ((id, p, Some m) :: l1 ++ l2).
Proof.
  intros Hm Hs HL Hw [A1 A2 A3] HI2 [B1 B2 B3]. set (l := (id, p, Some m) :: l1 ++ l2).
  assert (Hsub : ∀ t, dir_among (t_Nodes tree) t -> t ≠ s /\ dir_among (m :: nodes) t).
  { intros t (x & Hx & Hxt & Hxs). apply (among_below LoadTree s tree x HL) in Hx. split; [|exists x; split; [by apply (among_head LoadTree m s)|done]].
    intros ->. apply (walkable_irrefl LoadTree d s Hw). by exists x. }
  assert (Hl1 : ∀ n, done_or ({[s]} ∪ I) (t_Nodes tree) l1 n -> done_or I (m :: nodes) l n).
  { intros n [(i & q & Hin)|(t & Ht & Hd & Hn)]; [left; exists i, q; right; apply elem_of_app; by left|].
    apply Hsub in Hd as [Hne Hd]. right. exists t. split; [set_solver|done]. }
  assert (Hbelow : ∀ n, below s n -> is_file n -> done_or I (m :: nodes) l n).
  { intros n Hn Hf. apply Hl1, A2; [by apply (among_below LoadTree s tree)|done]. }
  assert (Hres : ∀ t n, t ∈ I2 -> dir_among nodes t -> below t n -> is_file n -> done_or I (m :: nodes) l n).
  { intros t n [->|[Ht|[Hd Hall]]%A3]%HI2 Hdn Hn Hf; [by apply Hbelow| |by apply Hl1, Hall].
    apply elem_of_union in Ht as [->%elem_of_singleton|Ht]; [by apply Hbelow|]. right. exists t. split; [done|]. split; [by apply dir_among_cons|done]. }
  assert (Hl2 : ∀ n, is_file n -> done_or I2 nodes l2 n -> done_or I (m :: nodes) l n).
  { intros n Hf [(i & q & Hin)|(t & Ht & Hd & Hn)]; [left; exists i, q; right; apply elem_of_app; by right|by apply (Hres t)]. }
  assert (Hds : dir_among (m :: nodes) s) by (exists m; split; [left; left|done]).
  split.
  - intros v [->|[Hv|Hv]%elem_of_app]%elem_of_cons; [exists m; split; [done|left; left]| |].
    + destruct (A1 v Hv) as (n & Hn & Ha). exists n. split; [done|]. apply (among_head LoadTree m s); [done..|]. by apply (among_below LoadTree s tree).
    + destruct (B1 v Hv) as (n & Hn & Ha). exists n. split; [done|by apply among_cons].
  - intros n [[->|Hin]%elem_of_cons|(x & s' & [->|Hin]%elem_of_cons & Htd & Hsd & Hn)] Hf; [done| | |].
    + apply Hl2, B2; [done|by left|done].
    + rewrite Hs in Hsd. injection Hsd as <-. by apply Hbelow.
    + apply Hl2, B2; [done| |done]. right. by exists x, s'.
  - intros t [Ht|[Hd Hall]]%B3.
    + apply HI2 in Ht as [->|[Ht|[Hd Hall]]%A3]; [by right| |].
      * apply elem_of_union in Ht as [->%elem_of_singleton|Ht]; [by right|by left].
      * right. split; [by apply Hsub|]. intros n Hn Hf. by apply Hl1, Hall.
    + right. split; [by apply dir_among_cons|]. intros n Hn Hf. by apply Hl2, Hall.
Qed.

Lemma walk_nodes_covers d : ∀ nodes, Forall (walkable_node LoadTree d) nodes -> (∀ n, among nodes n -> good n) ->
  ∀ fuel prefix id u I all, (d <= fuel)%nat -> Inv u -> walked nodes u I (walk_nodes_ (walk_ fuel) prefix id nodes all u I).
Proof using walkFn_f sort_perm.
  induction d as [d IHd] using lt_wf_ind. induction nodes as [|m nodes IHn]; intros Hw Hg fuel prefix id u I all Hfu Hu.
  { exists [], I, all. split; [done|]. split; [done|]. split; [by intros v ?%elem_of_nil| |by intros t Ht; left].
    intros n [?%elem_of_nil|(x & s & ?%elem_of_nil & _)]; done. }
  apply Forall_cons in Hw as [[Hne Hdir] Hw]. specialize (IHn Hw (λ n Hn, Hg n (among_cons LoadTree m nodes n Hn))).
  destruct (walkFn_f id (Join [prefix; n_Name m]) m u Hu (Hg m ltac:(left; left))) as [Hcall Hu1].
  cbn [walk_nodes]. rewrite (bool_decide_eq_false_2 _ Hne). destruct (decide (n_Type m = "dir"%string)) as [Ht|Ht].
  - rewrite (bool_decide_eq_true_2 _ Ht). cbn [negb]. destruct (Hdir Ht) as (s & Hs & Hws). rewrite Hs. unfold IDSet_Has. case_bool_decide as HI.
    + destruct (IHn fuel prefix id u I all Hfu Hu) as (l & I' & b & -> & Hinv & Hc). exists l, I', b. split; [done|]. split; [done|].
      by eapply covers_skip.
    + destruct d as [|d']; [done|]. pose proof Hws as (tree & HL & Hall). rewrite HL, Hcall. cbn [negb]. destruct fuel as [|fuel]; [lia|].
      cbn [walk]. assert (Hperm : sort (t_Nodes tree) ≡ₚ t_Nodes tree) by apply sort_perm.
      assert (Hsub : ∀ n, among (t_Nodes tree) n <-> below s n) by (intros n; by apply among_below).
      destruct (IHd d' ltac:(lia) (sort (t_Nodes tree))) with (fuel := fuel) (prefix := Join [prefix; n_Name m]) (id := s)
        (u := f u (id, Join [prefix; n_Name m], Some m)) (I := IDSet_Insert I s) (all := negb (bool_decide (length (t_Nodes tree) = 0%nat)))
        as (l1 & I1 & b1 & -> & Hinv1 & Hc1); [by rewrite Hperm| |lia|done|].
      { intros n Hn. apply Hg. apply (among_head LoadTree m s); [done..|]. apply Hsub. by eapply among_perm. }
      assert (Hc1' : covers (t_Nodes tree) ({[s]} ∪ I) I1 l1).
      { destruct Hc1 as [A1 A2 A3]. assert (Hd : ∀ t, dir_among (sort (t_Nodes tree)) t -> dir_among (t_Nodes tree) t).
        { intros t (x & Hx & Hrest). exists x. split; [by eapply among_perm|done]. }
        assert (Ho : ∀ n, done_or (IDSet_Insert I s) (sort (t_Nodes tree)) l1 n -> done_or ({[s]} ∪ I) (t_Nodes tree) l1 n).
        { intros n [Hn|(t & HtI & Hdn & Hn)]; [by left|right]. exists t. split; [|by split; [apply Hd|]]. unfold IDSet_Insert in HtI. set_solver. }
        split.
        - intros v (n & Hn & Ha)%A1. exists n. split; [done|by eapply among_perm].
        - intros n Hn Hf. apply Ho, A2; [by eapply among_perm|done].
        - intros t [HtI|[Hdn Hrest]]%A3; [left; unfold IDSet_Insert in HtI; set_solver|right]. split; [by apply Hd|]. intros n Hn Hf. by apply Ho, Hrest. }
      set (I2 := if b1 then IDSet_Insert I1 s else I1).
      destruct (IHn (S fuel) prefix id (fold_left f l1 (f u (id, Join [prefix; n_Name m], Some m))) I2 (if negb b1 then false else all) Hfu Hinv1)
        as (l2 & I' & b & Hrun & Hinv2 & Hc2).
      exists ((id, Join [prefix; n_Name m], Some m) :: l1 ++ l2), I', b. cbn [fold_left]. rewrite fold_left_app.
      split; [exact Hrun|]. split; [done|]. apply (covers_dir (S d') id (Join [prefix; n_Name m]) m s tree nodes I I1 I2 I' l1 l2); try done.
      intros t. unfold I2, IDSet_Insert. destruct b1; set_solver.
  - rewrite (bool_decide_eq_false_2 _ Ht). cbn [negb]. rewrite Hcall. cbn [negb].
    destruct (IHn fuel prefix id (f u (id, Join [prefix; n_Name m], Some m)) I all Hfu Hu1) as (l & I' & b & -> & Hinv & Hc).
    exists ((id, Join [prefix; n_Name m], Some m) :: l), I', b. split; [done|]. split; [done|]. by apply covers_leaf.
Qed.

(** Every file below the root is passed to the client, and nothing else but the
    directories there. *)
Lemma Walk_ignoring d root u : walkable LoadTree d root -> (∀ n, below root n -> good n) -> Inv u ->
  (walkFn root "/" None None u).2 = (true, None) -> Inv (walkFn root "/" None None u).1 ->
  ∀ fuel, (d <= fuel)%nat -> ∃ l I, Walk LoadTree sort walkFn fuel root ∅ u = Ok (fold_left f l (walkFn root "/" None None u).1, I, None)
    /\ Inv (fold_left f l (walkFn root "/" None None u).1)
    /\ (∀ v, v ∈ l -> ∃ n, v.2 = Some n /\ below root n) /\ (∀ n, below root n -> is_file n -> called l n).
Proof using walkFn_f sort_perm.
  intros Hw Hg Hu Hr Hi fuel Hfu. destruct d as [|d]; [done|]. destruct Hw as (tree & HL & Hall). destruct fuel as [|fuel]; [lia|].
  unfold Walk. rewrite HL. destruct (walkFn root "/" None None u) as [u0 [ig err]]. cbn [fst snd] in *. injection Hr as -> ->. cbn [walk].
  assert (Hperm : sort (t_Nodes tree) ≡ₚ t_Nodes tree) by apply sort_perm.
  assert (Hsub : ∀ n, among (sort (t_Nodes tree)) n <-> below root n).
  { intros n. rewrite <- (among_below LoadTree root tree n HL). split; by apply among_perm. }
  destruct (walk_nodes_covers d (sort (t_Nodes tree))) with (fuel := fuel) (prefix := "/"%string) (id := root)
    (u := u0) (I := (∅ : IDSet)) (all := negb (bool_decide (length (t_Nodes tree) = 0%nat)))
    as (l & I' & b & -> & Hinv & [A1 A2 _]); [by rewrite Hperm|intros n Hn; by apply Hg, Hsub|lia|done|].
  exists l, I'. split; [done|]. split; [done|]. split.
  - intros v (n & Hn & Ha)%A1. exists n. split; [done|by apply Hsub].
  - intros n Hn Hf. destruct (A2 n) as [Hc|(t & Ht & _)]; [by apply Hsub|done|done|]. set_solver.
Qed.
End ignoring.
