(* ===== verification/FileInfo.v ===== *)
(** * FileInfo: reading the file system

    The interface of file systems that are backed up
    (src/internal/fs/interface.go), its implementation with a single file that
    passes on a reader (fs_reader.go), and how nodes are made of what the
    system tells about a file (NodeFromFileInfo in src/restic/node.go, with
    node_unix.go, node_linux.go, node_xattr.go and src/internal/fs/stat.go). *)

From S2P Require Import Prelude Ids Duration Snapshots Backend Trees Paths.

(** ** What the system tells about a file *)

(** [syscall.Stat_t]; the times are nanoseconds since 1970. *)
Record Stat : Type := mkStat {
  st_dev : Z; st_ino : Z; st_nlink : Z; st_uid : Z; st_gid : Z; st_rdev : Z; st_size : Z;
  st_blksize : Z; st_blocks : Z; st_atim : Z; st_mtim : Z; st_ctim : Z;
}.
(** [os.FileInfo]; [Sys()] may be something else than a [Stat_t]. *)
Record OsInfo : Type := mkOsInfo { oi_Name : string; oi_Size : Z; oi_Mode : Z; oi_ModTime : Time; oi_Sys : option Stat }.

Definition ModePerm : Z := 0x1ff.
Definition ModeSetuid : Z := 2 ^ 23.
Definition ModeSetgid : Z := 2 ^ 22.
Definition ModeSticky : Z := 2 ^ 20.

Definition IsRegularFile (fi : OsInfo) : bool := Z.land (oi_Mode fi) ModeType =? 0.
Definition IsDir (fi : OsInfo) : bool := negb (Z.land (oi_Mode fi) ModeDir =? 0).

(** [time.Unix] gives a time in the local zone. *)
Definition time_Unix (zone : Z -> Z) (ns : Z) : Time := mkTime (ns + days_of_civil 1970 1 1 * 86400 * Second) (zone ns).

(** ** File systems (src/internal/fs/interface.go) *)

Class FS (F : Type) : Type := {
  fs_File : Type;
  fs_OpenFile : string -> Z -> F -> F * (fs_File + error);
  fs_Stat : string -> F -> F * (OsInfo + error);
  fs_Lstat : string -> F -> F * (OsInfo + error);
  fs_Join : list string -> string;
  fs_Separator : string;
  fs_Abs : string -> F -> F * (string + error);
  fs_Clean : string -> string;
  fs_VolumeName : string -> string;
  fs_IsAbs : string -> bool;
  fs_Dir : string -> string;
  fs_Base : string -> string;
  file_Name : fs_File -> string;
  file_Stat : fs_File -> F -> F * (option OsInfo + error);   (** [None] is [nil] *)
  file_Readdirnames : fs_File -> F -> F * (list string + error);
  file_ReadAll : fs_File -> F -> F * (list byte * option error);   (** what reads yield, and the error that ends them *)
  file_Close : fs_File -> F -> F * option error;
}.
Arguments fs_File F {_}.

Definition O_RDONLY : Z := 0.
Definition O_NOFOLLOW : Z := 0x20000.

(** Path functions as on Unix. *)
Class UnixPaths (F : Type) `{FS F} : Prop := {
  unix_Join l : fs_Join l = Join l;
  unix_Separator : fs_Separator = "/"%string;
  unix_Clean p : fs_Clean p = Clean p;
  unix_VolumeName p : fs_VolumeName p = ""%string;
  unix_IsAbs p : fs_IsAbs p = IsAbs p;
  unix_Dir p : fs_Dir p = Dir p;
  unix_Base p : fs_Base p = Base p;
}.

(** ** A file system with one file (src/internal/fs/fs_reader.go) *)

Module Reader.

Record Reader : Type := mkReaderFS {
  rf_Name : string;
  rf_data : list byte;             (** what the reader yields *)
  rf_err : option error;           (** the error after that, unless it is the end *)
  rf_close : option error;
  rf_Mode : Z;
  rf_ModTime : Time;
  rf_Size : Z;
  rf_AllowEmptyFile : bool;
  rf_now : Time;
  rf_opened : bool;                (** [open.Do] has run *)
}.

Definition ErrFileEmpty : error := EMsg "no data read".
Definition EIO : error := EMsg "EIO".
Definition ErrInvalid : error := EMsg "invalid argument".

Definition fi (r : Reader) : OsInfo := mkOsInfo (rf_Name r) (rf_Size r) (rf_Mode r) (rf_ModTime r) None.

Inductive File : Type :=
| readerFile (info : OsInfo) (allowEmptyFile : bool)
| fakeDir (entries : list OsInfo).

Definition opened (r : Reader) : Reader :=
  mkReaderFS (rf_Name r) (rf_data r) (rf_err r) (rf_close r) (rf_Mode r) (rf_ModTime r) (rf_Size r) (rf_AllowEmptyFile r) (rf_now r) true.
(** The body of [open.Do] runs once. *)
Definition open_once (r : Reader) : Reader * (File + error) :=
  if rf_opened r then (r, inr EIO) else (opened r, inl (readerFile (fi r) (rf_AllowEmptyFile r))).

Definition Open (name : string) (r : Reader) : Reader * (File + error) :=
  if bool_decide (name = rf_Name r) then open_once r
  else if bool_decide (name = "/"%string) || bool_decide (name = "."%string) then (r, inl (fakeDir [fi r]))
  else (r, inr ENotFound).

Definition OpenFile (name : string) (flag : Z) (r : Reader) : Reader * (File + error) :=
  if negb (Z.land flag (Z.lnot (Z.lor O_RDONLY O_NOFOLLOW)) =? 0) then (r, inr (EMsg "invalid combination of flags"))
  else open_once r.

Definition getDirInfo (name : string) (r : Reader) : OsInfo :=
  mkOsInfo (Base name) 0 (Z.lor ModeDir 0x1ed) (rf_now r) None.
(** The directories above the file; each is shorter than the one before. *)
Fixpoint parent_dir (fuel : nat) (name dir : string) : bool :=
  match fuel with
  | O => false
  | S fuel =>
      if bool_decide (dir = "/"%string) || bool_decide (dir = "."%string) then false
      else if bool_decide (name = dir) then true
      else parent_dir fuel name (Dir dir)
  end.
Definition Lstat (name : string) (r : Reader) : Reader * (OsInfo + error) :=
  (r, if bool_decide (name = rf_Name r) then inl (fi r)
      else if bool_decide (name = "/"%string) || bool_decide (name = "."%string) then inl (getDirInfo name r)
      else if parent_dir (String.length (rf_Name r) + 1) name (Dir (rf_Name r)) then inl (getDirInfo name r)
      else inr ENotFound).

(** [Read] up to the end: an end before any data is an error unless empty
    files are allowed. *)
Definition ReadAll (f : File) (r : Reader) : Reader * (list byte * option error) :=
  (r, match f with
      | readerFile _ allow =>
          match rf_err r with
          | Some e => (rf_data r, Some e)
          | None => (rf_data r, if negb allow && bool_decide (rf_data r = []) then Some ErrFileEmpty else None)
          end
      | fakeDir _ => ([], Some ErrInvalid)
      end).
Definition Readdirnames (f : File) (r : Reader) : Reader * (list string + error) :=
  (r, match f with readerFile _ _ => inr ErrInvalid | fakeDir l => inl (map oi_Name l) end).
(** The information of a directory is the embedded [FileInfo], [nil]. *)
Definition File_Stat (f : File) (r : Reader) : Reader * (option OsInfo + error) :=
  (r, inl (match f with readerFile i _ => Some i | fakeDir _ => None end)).
Definition File_Name (f : File) : string := match f with readerFile i _ => oi_Name i | fakeDir _ => ""%string end.
Definition Close (f : File) (r : Reader) : Reader * option error :=
  (r, match f with readerFile _ _ => rf_close r | fakeDir _ => None end).

#[export] Instance reader_fs : FS Reader := {|
  fs_OpenFile := OpenFile; fs_Stat := Lstat; fs_Lstat := Lstat;
  fs_Join := Join; fs_Separator := "/"; fs_Abs p r := (r, inl (Clean p)); fs_Clean := Clean; fs_VolumeName _ := "";
  fs_IsAbs _ := true; fs_Dir := Dir; fs_Base := Base;
  file_Name := File_Name; file_Stat := File_Stat; file_Readdirnames := Readdirnames; file_ReadAll := ReadAll; file_Close := Close |}.

End Reader.

(** ** Nodes from files (src/restic/node.go) *)

(** The calls that tell more about a file, and about users and groups. *)
Class SysInfo (F : Type) : Type := {
  si_Readlink : string -> F -> F * (string + error);
  si_xattr_List : string -> F -> F * (list string + error);
  si_xattr_Get : string -> string -> F -> F * (list byte + error);
  si_LookupId : Z -> F -> F * option string;
  si_LookupGroupId : Z -> F -> F * option string;
  si_Getuid : Z;
  si_Getgid : Z;
}.

(** The file system with the caches of the names of users and groups. *)
Record Env (F : Type) : Type := mkEnv { e_fs : F; uidLookupCache : gmap Z string; gidLookupCache : gmap Z string }.
Arguments mkEnv {F}. Arguments e_fs {F}. Arguments uidLookupCache {F}. Arguments gidLookupCache {F}.
Definition on_fs {F A} (f : F -> F * A) (env : Env F) : Env F * A :=
  let '(s, a) := f (e_fs env) in (mkEnv s (uidLookupCache env) (gidLookupCache env), a).

Section nodes.
Context {F : Type} `{SysInfo F} (zone : Z -> Z) (xattr_unsupported : error -> bool).

Definition lookupUsername (uid : Z) (env : Env F) : Env F * string :=
  match uidLookupCache env !! uid with
  | Some username => (env, username)
  | None =>
      let '(env, u) := on_fs (si_LookupId uid) env in
      let username := default ""%string u in
      (mkEnv (e_fs env) (<[uid := username]> (uidLookupCache env)) (gidLookupCache env), username)
  end.
Definition lookupGroup (gid : Z) (env : Env F) : Env F * string :=
  match gidLookupCache env !! gid with
  | Some group => (env, group)
  | None =>
      let '(env, g) := on_fs (si_LookupGroupId gid) env in
      let group := default ""%string g in
      (mkEnv (e_fs env) (uidLookupCache env) (<[gid := group]> (gidLookupCache env)), group)
  end.

Definition Getxattr (path name : string) (env : Env F) : Env F * (list byte + error) :=
  match on_fs (si_xattr_Get path name) env with
  | (env, inl b) => (env, inl b)
  | (env, inr e) => (env, if xattr_unsupported e then inl [] else inr (EWrap "Getxattr" e))
  end.
Definition Listxattr (path : string) (env : Env F) : Env F * (list string + error) :=
  match on_fs (si_xattr_List path) env with
  | (env, inl l) => (env, inl l)
  | (env, inr e) => (env, if xattr_unsupported e then inl [] else inr (EWrap "Listxattr" e))
  end.

(** Attributes that cannot be read are left out. *)
Fixpoint get_attributes (path : string) (xattrs : list string) (env : Env F) : Env F * list ExtendedAttribute :=
  match xattrs with
  | [] => (env, [])
  | attr :: xattrs =>
      let '(env, v) := Getxattr path attr env in
      let '(env, l) := get_attributes path xattrs env in
      (env, match v with inl value => mkXattr attr value :: l | inr _ => l end)
  end.

Definition set_attributes (node : Node) (l : list ExtendedAttribute) : Node :=
  mkNode (n_Name node) (n_Type node) (n_Mode node) (n_ModTime node) (n_AccessTime node) (n_ChangeTime node) (n_UID node) (n_GID node)
    (n_User node) (n_Group node) (n_Inode node) (n_DeviceID node) (n_Size node) (n_Links node) (n_LinkTarget node) l
    (n_Device node) (n_Content node) (n_Subtree node) (n_Error node) (n_Path node).
Definition fillExtendedAttributes (node : Node) (path : string) (env : Env F) : Env F * (Node * option error) :=
  if bool_decide (n_Type node = "symlink"%string) then (env, (node, None))
  else match Listxattr path env with
  | (env, inr e) => (env, (node, Some e))
  | (env, inl xattrs) => let '(env, l) := get_attributes path xattrs env in (env, (set_attributes node l, None))
  end.

(** The part of a node that is filled in from a [Stat_t]. *)
Definition with_ids (node : Node) (uid gid : Z) (ctime : Time) : Node :=
  mkNode (n_Name node) (n_Type node) (n_Mode node) (n_ModTime node) (n_AccessTime node) ctime uid gid
    (n_User node) (n_Group node) (n_Inode node) (n_DeviceID node) (n_Size node) (n_Links node) (n_LinkTarget node)
    (n_ExtendedAttributes node) (n_Device node) (n_Content node) (n_Subtree node) (n_Error node) (n_Path node).
Definition with_stat (node : Node) (stat : Stat) (user group : string) (size links device : Z) (target : string) : Node :=
  mkNode (n_Name node) (n_Type node) (n_Mode node) (n_ModTime node) (time_Unix zone (st_atim stat)) (time_Unix zone (st_ctim stat))
    (st_uid stat) (st_gid stat) user group (st_ino stat) (st_dev stat) size links target
    (n_ExtendedAttributes node) device (n_Content node) (n_Subtree node) (n_Error node) (n_Path node).

Definition fillExtra (node : Node) (path : string) (fi : OsInfo) (env : Env F) : Env F * (Node * option error) :=
  match oi_Sys fi with
  | None => (env, (with_ids node (u32 si_Getuid) (u32 si_Getgid) (n_ModTime node), None))
  | Some stat =>
      let '(env, user) := lookupUsername (st_uid stat) env in
      let '(env, group) := lookupGroup (st_gid stat) env in
      let filled := with_stat node stat user group in
      let plain := filled (n_Size node) (n_Links node) (n_Device node) (n_LinkTarget node) in
      let t := n_Type node in
      if bool_decide (t = "file"%string) then
        fillExtendedAttributes (filled (u64 (st_size stat)) (st_nlink stat) (n_Device node) (n_LinkTarget node)) path env
      else if bool_decide (t = "dir"%string) then fillExtendedAttributes plain path env
      else if bool_decide (t = "symlink"%string) then
        match on_fs (si_Readlink path) env with
        | (env, inr e) => (env, (filled (n_Size node) (st_nlink stat) (n_Device node) ""%string, Some (EWrap "Readlink" e)))
        | (env, inl target) => fillExtendedAttributes (filled (n_Size node) (st_nlink stat) (n_Device node) target) path env
        end
      else if bool_decide (t = "dev"%string) || bool_decide (t = "chardev"%string) then
        fillExtendedAttributes (filled (n_Size node) (st_nlink stat) (st_rdev stat) (n_LinkTarget node)) path env
      else if bool_decide (t = "fifo"%string) || bool_decide (t = "socket"%string) then fillExtendedAttributes plain path env
      else (env, (plain, Some (EMsg "invalid node type")))
  end.

Definition NodeFromFileInfo (path : string) (fi : OsInfo) (env : Env F) : Env F * (Node * option error) :=
  let mask := Z.lor ModePerm (Z.lor ModeType (Z.lor ModeSetuid (Z.lor ModeSetgid ModeSticky))) in
  let t := nodeTypeFromFileInfo (oi_Mode fi) in
  let size := if bool_decide (t = "file"%string) then u64 (oi_Size fi) else 0 in
  fillExtra (mkNode (oi_Name fi) t (Z.land (oi_Mode fi) mask) (oi_ModTime fi) zeroTime zeroTime 0 0 "" "" 0 0 size 0 "" [] 0 None None "" path)
    path fi env.

(** ** [fs.ExtendedStat] (src/internal/fs/stat.go, stat_unix.go) *)

Record ExtendedFileInfo : Type := mkExtended {
  x_FileInfo : OsInfo; x_DeviceID : Z; x_Inode : Z; x_Links : Z; x_UID : Z; x_GID : Z; x_Device : Z; x_BlockSize : Z; x_Blocks : Z; x_Size : Z;
  x_AccessTime : Time; x_ModTime : Time; x_ChangeTime : Time;
}.
Definition extendedStat {E} (fi : OsInfo) : res E ExtendedFileInfo :=
  match oi_Sys fi with
  | None => Panic "conversion to syscall.Stat_t failed"
  | Some s => Ok (mkExtended fi (u64 (st_dev s)) (st_ino s) (u64 (st_nlink s)) (st_uid s) (st_gid s) (u64 (st_rdev s)) (st_blksize s) (st_blocks s)
      (st_size s) (time_Unix zone (st_atim s)) (time_Unix zone (st_mtim s)) (time_Unix zone (st_ctim s)))
  end.
Definition ExtendedStat {E} (fi : option OsInfo) : res E ExtendedFileInfo :=
  match fi with None => Panic "os.FileInfo is nil" | Some fi => extendedStat fi end.
End nodes.

(** ** A concrete file system, for the witnesses

    A fixed map from paths to files with their data, and directories with
    their entries (those that can be names). *)

#[export] Instance plain_dec c : Decision (plain c).
Proof. unfold plain, noslash. apply _. Defined.
Definition map_fs : Type := gmap string (OsInfo * (list byte + list string)).
Definition map_entry (p : string) (m : map_fs) : map_fs * (OsInfo + error) :=
  (m, match m !! p with Some (i, _) => inl i | None => inr ENotFound end).
#[export] Instance map_FS : FS map_fs := {|
  fs_File := (string * (OsInfo * (list byte + list string)));
  fs_OpenFile p _ m := (m, match m !! p with Some f => inl (p, f) | None => inr ENotFound end);
  fs_Stat := map_entry; fs_Lstat := map_entry;
  fs_Join := Join; fs_Separator := "/"; fs_Abs p m := (m, inl (Join ["/"%string; p])); fs_Clean := Clean; fs_VolumeName _ := "";
  fs_IsAbs := IsAbs; fs_Dir := Dir; fs_Base := Base;
  file_Name := fst;
  file_Stat f m := (m, inl (Some f.2.1));
  file_Readdirnames f m := (m, match f.2.2 with inr names => inl (filter plain names) | inl _ => inr (EMsg "not a directory") end);
  file_ReadAll f m := (m, match f.2.2 with inl data => (data, None) | inr _ => ([], Some (EMsg "is a directory")) end);
  file_Close f m := (m, None) |}.
#[export] Instance map_unix : UnixPaths map_fs.
Proof. by split. Qed.

Definition toy_info (name : string) (mode size : Z) : OsInfo :=
  mkOsInfo name size mode zeroTime (Some (mkStat 1 7 1 0 0 0 size 4096 1 0 0 0)).
(** Two directories: /a with x and y, /a/x with a file z. *)
Definition toy_dirs : map_fs := list_to_map [
  ("/a"%string, (toy_info "a" ModeDir 0, inr ["x"; "y"]%string));
  ("/a/x"%string, (toy_info "x" ModeDir 0, inr ["z"]%string));
  ("/a/x/z"%string, (toy_info "z" 0 3, inl [Byte.x01; Byte.x02; Byte.x03]));
  ("/a/y"%string, (toy_info "y" 0 2, inl [Byte.x04; Byte.x05]))].
