(* ===== verification/Disk.v ===== *)
(** * Disk: files of the operating system

    The functions of [os], [ioutil] and [filepath] that the local backend and
    the local cache call, as an interface ([Disk]) with laws ([DiskLaws]): any
    call may fail at any time, but does what it says when it does not fail,
    and leaves the files as they were when it does (but for a copy, which may
    have written a part of the new file).  A crash of the machine is a disk on
    which all calls fail from some point on: [crashing] shows that it keeps
    the laws, so that theorems about every disk are about crashes, too.  The
    loss of data that was written but not synced is not modelled.

    Code that works on a disk is written in a state and error monad [io]. *)

From S2P Require Import Prelude Ids Duration Backend Trees Paths FileInfo.

(** ** The system *)

(** A file opened for reading: the bytes it yields, the error after them, and
    the results of [Stat], [Seek] and [Close]. *)
Record OpenFile : Type := mkOpenFile {
  of_data : list byte; of_rerr : option error; of_stat : OsInfo + error; of_seek : option error; of_close : option error;
}.
(** What [filepath.Walk] passes to its callback. *)
Abbreviation walk_event := (string * (OsInfo + error))%type.

Class Disk (F : Type) : Type := {
  os_Mkdir : string -> F -> F * option error;
  os_MkdirAll : string -> F -> F * option error;
  os_Stat : string -> F -> F * (OsInfo + error);
  os_Lstat : string -> F -> F * (OsInfo + error);
  os_Open : string -> F -> F * (OpenFile + error);
  os_Remove : string -> F -> F * option error;
  os_RemoveAll : string -> F -> F * option error;
  os_Rename : string -> string -> F -> F * option error;
  os_Chmod : string -> Z -> F -> F * option error;
  os_Chtimes : string -> F -> F * option error;
  (** [Readdir] and [Readdirnames] of an opened directory *)
  os_Readdir : string -> F -> F * (list OsInfo + error);
  os_Readdirnames : string -> F -> F * (list string + error);
  os_ReadFile : string -> F -> F * (list byte + error);
  os_WriteFile : string -> list byte -> F -> F * option error;
  (** [OpenFile] with [O_CREATE|O_EXCL|O_WRONLY] *)
  os_Create : string -> F -> F * option error;
  os_Write : string -> list byte -> F -> F * option error;
  os_TempFile : string -> string -> F -> F * (string + error);
  (** [io.Copy] to a file opened for writing: the bytes written *)
  os_Copy : string -> Reader -> F -> F * (Z * option error);
  os_Sync : string -> F -> F * option error;
  os_Close : string -> F -> F * option error;
  fp_Walk : string -> F -> F * list walk_event;
  is_exist : error -> bool;
  is_not_exist : error -> bool;
  is_permission : error -> bool;
  is_not_supported : error -> bool;
  is_no_space : error -> bool;
  windows : bool;
}.

(** Code that works on a disk. *)
Section io.
Context {F : Type}.
Definition io (A : Type) : Type := F -> F * res error A.
Definition io_ret {A} (a : A) : io A := fun s => (s, Ok a).
Definition io_err {A} (e : error) : io A := fun s => (s, Err e).
Definition io_res {A} (r : res error A) : io A := fun s => (s, r).
Definition io_bind {A B} (m : io A) (f : A -> io B) : io B := fun s =>
  match m s with
  | (s, Ok a) => f a s
  | (s, Err e) => (s, Err e)
  | (s, Panic msg) => (s, Panic msg)
  end.
(** A call of the system, whose error is looked at. *)
Definition sys {A} (op : F -> F * A) : io A := fun s => let '(s, a) := op s in (s, Ok a).
(** A call whose error is returned. *)
Definition try {A} (op : F -> F * (A + error)) : io A := fun s =>
  match op s with (s, inl a) => (s, Ok a) | (s, inr e) => (s, Err e) end.
Definition check (op : F -> F * option error) : io unit := fun s =>
  match op s with (s, None) => (s, Ok tt) | (s, Some e) => (s, Err e) end.
End io.
#[global] Arguments io : clear implicits.
Declare Scope io_scope.
Notation "x <-- m ; k" := (io_bind m (fun x => k)) (at level 100, m at next level, right associativity) : io_scope.
Notation "m ;; k" := (io_bind m (fun _ => k)) (at level 100, right associativity) : io_scope.
Delimit Scope io_scope with io.
#[local] Open Scope io_scope.

(** Running code whose errors are ignored. *)
Definition ignore {F A} (m : io F A) : io F unit := fun s =>
  match m s with (s, Panic msg) => (s, Panic msg) | (s, _) => (s, Ok tt) end.

(** What is read of an opened file from an offset, up to a limit. *)
Definition limited (f : OpenFile) (length_ offset : Z) : Reader :=
  let rest := if 0 <? offset then drop (Z.to_nat offset) (of_data f) else of_data f in
  if (0 <? length_) && (length_ <=? lenZ rest) then mkReader (take (Z.to_nat length_) rest) None (of_close f)
  else mkReader rest (of_rerr f) (of_close f).
Lemma limited_range f length_ offset : of_rerr f = None -> of_close f = None ->
  limited f length_ offset = mkReader (file_range length_ offset (of_data f)) None None.
Proof.
  intros He Hc. unfold limited, file_range. rewrite He, Hc.
  assert (Hrest : (if 0 <? offset then drop (Z.to_nat offset) (of_data f) else of_data f) = drop (Z.to_nat offset) (of_data f)).
  { destruct (Z.ltb_spec 0 offset); [done|]. replace (Z.to_nat offset) with 0%nat by lia. by rewrite drop_0. }
  rewrite Hrest. set (rest := drop _ _). destruct (Z.ltb_spec 0 length_); cbn [andb]; [|done].
  destruct (Z.leb_spec length_ (lenZ rest)); [done|]. by rewrite take_ge by lia.
Qed.

Lemma limited_bytes f length_ offset : rd_bytes (limited f length_ offset) = file_range length_ offset (of_data f).
Proof.
  pose (f' := mkOpenFile (of_data f) None (of_stat f) (of_seek f) None).
  transitivity (rd_bytes (limited f' length_ offset)); [|by rewrite limited_range].
  unfold limited, f'. cbn [of_data of_rerr of_close]. by destruct (_ && _).
Qed.

(** ** What the system promises *)

(** [files s p] is the content of the regular file [p]. *)
Class DiskLaws {F} `{Disk F} (files : F -> string -> option (list byte)) : Prop := {
  mkdir_files p s s' r q : os_Mkdir p s = (s', r) -> files s' q = files s q;
  mkdirall_files p s s' r q : os_MkdirAll p s = (s', r) -> files s' q = files s q;
  stat_files p s s' r q : os_Stat p s = (s', r) -> files s' q = files s q;
  stat_size p s s' fi d : os_Stat p s = (s', inl fi) -> files s p = Some d -> oi_Size fi = lenZ d;
  stat_missing p s s' e : os_Stat p s = (s', inr e) -> is_not_exist e = true -> files s p = None;
  open_files p s s' r q : os_Open p s = (s', r) -> files s' q = files s q;
  (** an opened file yields its content, or an error after a part of it; the
      size is its length *)
  open_ok p s s' f d : os_Open p s = (s', inl f) -> files s p = Some d ->
    ((of_data f = d /\ of_rerr f = None) \/ (of_data f `prefix_of` d /\ of_rerr f ≠ None))
    /\ forall fi, of_stat f = inl fi -> oi_Size fi = lenZ d;
  remove_frame_ p q s s' r : os_Remove p s = (s', r) -> q ≠ p -> files s' q = files s q;
  remove_ok p s s' : os_Remove p s = (s', None) -> files s' p = None;
  remove_err p s s' e : os_Remove p s = (s', Some e) -> files s' p = files s p;
  chmod_files p m s s' r q : os_Chmod p m s = (s', r) -> files s' q = files s q;
  readdir_files p s s' r q : os_Readdir p s = (s', r) -> files s' q = files s q;
  readdirnames_files p s s' r q : os_Readdirnames p s = (s', r) -> files s' q = files s q;
  (** a new file with a name that starts with the prefix *)
  temp_ok dir prefix s s' p : os_TempFile dir prefix s = (s', inl p) ->
    exists x, noslash x /\ p = Join [dir; (prefix ++ x)%string] /\ files s' p = Some [];
  temp_frame dir prefix s s' r q : os_TempFile dir prefix s = (s', r) -> r ≠ inl q -> files s' q = files s q;
  copy_frame p q rd s s' r : os_Copy p rd s = (s', r) -> q ≠ p -> files s' q = files s q;
  copy_ok p rd s s' n : os_Copy p rd s = (s', (n, None)) -> files s p = Some [] ->
    files s' p = Some (rd_bytes rd) /\ n = lenZ (rd_bytes rd) /\ rd_err rd = None;
  sync_files p s s' r q : os_Sync p s = (s', r) -> files s' q = files s q;
  close_files p s s' r q : os_Close p s = (s', r) -> files s' q = files s q;
  rename_ok p q s s' : os_Rename p q s = (s', None) -> p ≠ q ->
    files s' q = files s p /\ files s' p = None /\ forall o, o ≠ p -> o ≠ q -> files s' o = files s o;
  rename_err p q s s' e o : os_Rename p q s = (s', Some e) -> files s' o = files s o;
}.

(** There are only regular files at some paths. *)
Class Regular {F} `{Disk F} (files : F -> string -> option (list byte)) (ours : string -> Prop) : Prop := {
  stat_regular p s s' fi : ours p -> os_Stat p s = (s', inl fi) -> is_Some (files s p);
  open_regular p s s' f : ours p -> os_Open p s = (s', inl f) -> is_Some (files s p);
}.
(** What was opened at some paths can be read and closed. *)
Class Readable {F} `{Disk F} (ours : string -> Prop) : Prop := {
  open_readable p s s' f : ours p -> os_Open p s = (s', inl f) -> of_rerr f = None /\ of_close f = None;
}.
(** What is known about listings: [there s p] says that there is something at
    [p].  A file of [ours] is in a directory that is there, which is in another
    one.  It is not said that something does not exist that is there, nor that
    an entry does not exist that was found when its directory was read (no
    other program removes them meanwhile); what is read of a directory without
    an error is complete. *)
Class Listable {F} `{Disk F} (files : F -> string -> option (list byte)) (there : F -> string -> Prop) (ours : string -> Prop) : Prop := {
  there_above p s : ours p -> is_Some (files s p) -> there s (Dir p) /\ there s (Dir (Dir p));
  open_there p s s' r q : os_Open p s = (s', r) -> there s q -> there s' q;
  readdir_there p s s' r q : os_Readdir p s = (s', r) -> there s q -> there s' q;
  open_missing p s s' e : there s p -> os_Open p s = (s', inr e) -> is_not_exist e = false;
  open_dir p s s' f fi q : os_Open p s = (s', inl f) -> of_stat f = inl fi -> ours q -> is_Some (files s q) -> Dir q = p -> IsDir fi = true;
  open_errors p s s' f e : os_Open p s = (s', inl f) -> of_stat f = inr e \/ of_close f = Some e -> is_not_exist e = false;
  readdir_missing p s s' e : there s p -> os_Readdir p s = (s', inr e) -> is_not_exist e = false;
  readdir_all d s s' sub p x : os_Readdir d s = (s', inl sub) -> ours p -> Dir p = d -> files s p = Some x ->
    exists fi, fi ∈ sub /\ oi_Name fi = Base p /\ oi_Size fi = lenZ x;
  readdirnames_missing p s s' e : there s p -> os_Readdirnames p s = (s', inr e) -> is_not_exist e = false;
  readdirnames_all d s s' sub p : os_Readdirnames d s = (s', inl sub) -> ours p -> Dir (Dir p) = d -> is_Some (files s p) ->
    Base (Dir p) ∈ sub;
  readdirnames_there d s s' sub x : os_Readdirnames d s = (s', inl sub) -> x ∈ sub -> there s' (Join [d; x]);
}.
(** The disk works at some paths: what is there is found and can be removed. *)
Class Reliable {F} `{Disk F} (files : F -> string -> option (list byte)) (ours : string -> Prop) : Prop := {
  stat_works p s s' r : ours p -> os_Stat p s = (s', r) -> is_Some (files s p) -> exists fi, r = inl fi;
  remove_works p s s' r : ours p -> os_Remove p s = (s', r) -> is_Some (files s p) -> r = None;
}.

(** ** A disk that crashes *)

Definition crashed : error := EMsg "the system has stopped".
Section crash.
Context {F : Type} `{DF : Disk F}.
(** After the given number of calls nothing happens any more. *)
Definition until {A} (bad : A) (op : F -> F * A) (s : F * nat) : (F * nat) * A :=
  match s.2 with
  | O => (s, bad)
  | S n => let '(f, a) := op s.1 in ((f, n), a)
  end.
Definition crashing : Disk (F * nat) := {|
  os_Mkdir p := until (Some crashed) (os_Mkdir p); os_MkdirAll p := until (Some crashed) (os_MkdirAll p);
  os_Stat p := until (inr crashed) (os_Stat p); os_Lstat p := until (inr crashed) (os_Lstat p);
  os_Open p := until (inr crashed) (os_Open p); os_Remove p := until (Some crashed) (os_Remove p);
  os_RemoveAll p := until (Some crashed) (os_RemoveAll p);
  os_Rename p q := until (Some crashed) (os_Rename p q); os_Chmod p m := until (Some crashed) (os_Chmod p m);
  os_Chtimes p := until (Some crashed) (os_Chtimes p); os_Readdir p := until (inr crashed) (os_Readdir p);
  os_Readdirnames p := until (inr crashed) (os_Readdirnames p); os_ReadFile p := until (inr crashed) (os_ReadFile p);
  os_WriteFile p d := until (Some crashed) (os_WriteFile p d); os_Create p := until (Some crashed) (os_Create p);
  os_Write p d := until (Some crashed) (os_Write p d); os_TempFile d p := until (inr crashed) (os_TempFile d p);
  os_Copy p rd := until (0, Some crashed) (os_Copy p rd); os_Sync p := until (Some crashed) (os_Sync p);
  os_Close p := until (Some crashed) (os_Close p); fp_Walk p := until [(p, inr crashed)] (fp_Walk p);
  is_exist e := is_exist e; is_not_exist e := is_not_exist e; is_permission e := is_permission e;
  is_not_supported e := is_not_supported e; is_no_space e := is_no_space e; windows := windows |}.

Lemma until_ok {A} (bad : A) op s s' a : until bad op s = (s', a) ->
  (s' = s /\ a = bad) \/ op s.1 = (s'.1, a).
Proof. unfold until. destruct s as [f [|n]]; cbn; [by intros [= <- <-]; left|]. destruct (op f) as [f' a']. intros [= <- <-]. by right. Qed.

Lemma crashing_laws files : DiskLaws files -> is_not_exist crashed = false ->
  @DiskLaws _ crashing (fun s p => files s.1 p).
Proof.
  intros L Hc. split; cbn [os_Mkdir os_MkdirAll os_Stat os_Open os_Remove os_Chmod os_Readdir os_Readdirnames os_TempFile os_Copy
    os_Sync os_Close os_Rename is_not_exist crashing]; intros;
    match goal with HE : until _ _ _ = _ |- _ => apply until_ok in HE as [[-> HE]|HE]; cbn beta in * end; try done; try congruence.
  all: by eauto using mkdir_files, mkdirall_files, stat_files, stat_size, stat_missing, open_files, open_ok, remove_frame_, remove_ok,
    remove_err, chmod_files, readdir_files, readdirnames_files, temp_ok, temp_frame, copy_frame, copy_ok, sync_files, close_files,
    rename_ok, rename_err.
Qed.
Lemma crashing_regular files ours : Regular files ours -> @Regular _ crashing (fun s p => files s.1 p) ours.
Proof.
  intros L. split; cbn [os_Stat os_Open crashing]; intros p s s' r Hp [[_ HE]|HE]%until_ok; try done.
  - by eapply stat_regular.
  - by apply (open_regular _ _ _ _ Hp HE).
Qed.
Lemma crashing_listable files there ours : Listable files there ours -> is_not_exist crashed = false ->
  @Listable _ crashing (fun s p => files s.1 p) (fun s p => there s.1 p) ours.
Proof.
  intros L Hc. split; cbn [os_Open os_Readdir os_Readdirnames is_not_exist crashing]; intros;
    try match goal with HE : until _ _ _ = _ |- _ => apply until_ok in HE as [[-> HE]|HE]; cbn beta in * end; try done; try congruence.
  - by apply L.
  - by eapply (open_there (Listable := L)).
  - by eapply (readdir_there (Listable := L)).
  - by eapply open_missing.
  - by eapply open_dir.
  - by eapply open_errors.
  - by eapply readdir_missing.
  - by eapply readdir_all.
  - by eapply readdirnames_missing.
  - by eapply readdirnames_all.
  - by eapply (readdirnames_there (Listable := L)).
Qed.
End crash.

(** ** A concrete disk *)

Definition missing : error := EMsg "no such file or directory".
#[export] Instance toy_disk : Disk (gmap string (list byte)) := {|
  os_Mkdir _ s := (s, None); os_MkdirAll _ s := (s, None);
  os_Stat p s := (s, match s !! p with Some d => inl (mkOsInfo (Base p) (lenZ d) 0 zeroTime None) | None => inr missing end);
  os_Lstat p s := (s, match s !! p with Some d => inl (mkOsInfo (Base p) (lenZ d) 0 zeroTime None) | None => inr missing end);
  os_Open p s := (s, match s !! p with
                     | Some d => inl (mkOpenFile d None (inl (mkOsInfo (Base p) (lenZ d) 0 zeroTime None)) None None)
                     | None => inr missing end);
  os_Remove p s := match s !! p with Some _ => (delete p s, None) | None => (s, Some missing) end;
  os_RemoveAll p s := (filter (fun '(q, _) => HasPathPrefix p q = false) s, None);
  os_Rename p q s := match s !! p with Some d => (<[q := d]> (delete p s), None) | None => (s, Some missing) end;
  os_Chmod _ _ s := (s, None);
  os_Chtimes _ s := (s, None);
  os_Readdir d s := (s, inl (map (fun '(p, data) => mkOsInfo (Base p) (lenZ data) 0 zeroTime None)
                                (filter (fun '(p, _) => Dir p = d) (map_to_list s))));
  os_Readdirnames d s := (s, inl (map (fun '(p, _) => Base (Dir p)) (filter (fun '(p, _) => Dir (Dir p) = d) (map_to_list s))));
  os_ReadFile p s := (s, match s !! p with Some d => inl d | None => inr missing end);
  os_WriteFile p d s := (<[p := d]> s, None);
  os_Create p s := match s !! p with Some _ => (s, Some (EMsg "file exists")) | None => (<[p := []]> s, None) end;
  os_Write p d s := (<[p := default [] (s !! p) ++ d]> s, None);
  os_TempFile d prefix s := let p := Join [d; (prefix ++ "1")%string] in (<[p := []]> s, inl p);
  os_Copy p rd s := match rd_err rd with
                    | Some e => (s, (0, Some e))
                    | None => (<[p := default [] (s !! p) ++ rd_bytes rd]> s, (lenZ (rd_bytes rd), None))
                    end;
  os_Sync _ s := (s, None);
  os_Close _ s := (s, None);
  fp_Walk d s := (s, map (fun '(p, data) => (p, inl (mkOsInfo (Base p) (lenZ data) 0 zeroTime None)))
                         (filter (fun '(p, _) => HasPathPrefix d p = true) (map_to_list s)));
  is_exist e := bool_decide (e = EMsg "file exists");
  is_not_exist e := bool_decide (e = missing);
  is_permission _ := false; is_not_supported _ := false; is_no_space _ := false;
  windows := false |}.
Definition toy_files (s : gmap string (list byte)) (p : string) : option (list byte) := s !! p.

#[export] Instance toy_disk_laws : DiskLaws toy_files.
Proof.
  split; cbn [os_Mkdir os_MkdirAll os_Stat os_Open os_Remove os_Chmod os_Readdir os_Readdirnames os_TempFile os_Copy os_Sync
    os_Close os_Rename is_not_exist toy_disk]; unfold toy_files; cbv zeta.
  1-3, 6, 11-13, 18, 19: by intros; simplify_eq.
  - intros p s s' fi d. destruct (s !! p) eqn:E; [|done]. by intros [= _ <-] [= <-].
  - intros p s s' e. by destruct (s !! p) eqn:E; intros [= <- <-].
  - intros p s s' f d. destruct (s !! p) eqn:E; [|done]. intros [= <- <-] [= <-]. cbn. split; [by left|]. by intros fi [= <-].
  - intros p q s s' r. destruct (s !! p); intros [= <- <-]; [|done]. intros Hq. by apply lookup_delete_ne.
  - intros p s s'. destruct (s !! p); [|done]. intros [= <-]. apply lookup_delete_eq.
  - intros p s s' e. by destruct (s !! p) eqn:E; intros [= <- <-].
  - intros d prefix s s' p [= <- <-]. exists "1"%string. split; [|split; [done|apply lookup_insert_eq]].
    apply (bool_decide_eq_true_1 _). reflexivity.
  - intros d prefix s s' r q [= <- <-] Hq. apply lookup_insert_ne. congruence.
  - intros p q rd s s' r. destruct (rd_err rd); intros [= <- <-] Hq; [done|by apply lookup_insert_ne].
  - intros p rd s s' n. destruct (rd_err rd); [done|]. intros [= <- <-] Hp. by rewrite lookup_insert_eq, Hp.
  - intros p q s s'. destruct (s !! p) as [d|]; [|done]. intros [= <-] Hne. split; [apply lookup_insert_eq|].
    split; [by rewrite lookup_insert_ne, lookup_delete_eq|]. intros o H1 H2. by rewrite lookup_insert_ne, lookup_delete_ne.
  - intros p q s s' e o. by destruct (s !! p); intros [= <- <-].
Qed.
#[export] Instance toy_disk_regular ours : Regular toy_files ours.
Proof.
  split; cbn [os_Stat os_Open toy_disk]; unfold toy_files; intros p s s' f _; by destruct (s !! p); intros [= <- Hf].
Qed.
#[export] Instance toy_disk_readable ours : Readable ours.
Proof.
  split; cbn [os_Open toy_disk]; intros p s s' f _; destruct (s !! p); intros [= <- <-]. done.
Qed.
#[export] Instance toy_disk_reliable ours : Reliable toy_files ours.
Proof.
  split; cbn [os_Stat os_Remove toy_disk]; unfold toy_files; intros p s s' r _.
  - intros [= <- <-] [d ->]. by eexists.
  - destruct (s !! p); intros [= <- <-]; [done|by intros [? [=]]].
Qed.
