(* ===== verification/Layouts.v ===== *)
(** * Layouts: the names of files in a backend

    The layouts of backends that store files under paths
    (src/backend/layout.go, layout_default.go, layout_s3legacy.go,
    layout_rest.go), the detection of the layout of a repository, and what a
    layout promises to a backend ([LayoutLaws]): different files have different
    paths, which temporary files do not have, and each file is in the
    directory that is listed for its type. *)

From S2P Require Import Prelude Ids Pack Duration Backend Snapshots Trees Paths FileInfo Disk.
#[local] Open Scope io_scope.

(** [Layout] (src/backend/layout.go) *)
Record Layout : Type := mkLayout {
  l_Filename : Handle -> string;
  l_Dirname : Handle -> string;
  l_Basedir : string -> string * bool;
  l_Paths : list string;
  l_Name : string;
}.

Definition defaultLayoutPaths (t : string) : string :=
  if bool_decide (t = PackFile) then "data"
  else if bool_decide (t = SnapshotFile) then "snapshots"
  else if bool_decide (t = IndexFile) then "index"
  else if bool_decide (t = LockFile) then "locks"
  else if bool_decide (t = KeyFile) then "keys"
  else "".
Definition s3LayoutPaths (t : string) : string :=
  if bool_decide (t = PackFile) then "data"
  else if bool_decide (t = SnapshotFile) then "snapshot"
  else if bool_decide (t = IndexFile) then "index"
  else if bool_decide (t = LockFile) then "lock"
  else if bool_decide (t = KeyFile) then "key"
  else "".

Section layouts.
(** [types] is the order in which the map of paths is ranged over. *)
Context (Join : list string -> string) (Path URL : string) (types : list string).

Definition Default_Dirname (h : Handle) : string :=
  let p := defaultLayoutPaths (h_Type h) in
  let p := if bool_decide (h_Type h = PackFile) && (2 <? String.length (h_Name h))%nat
           then (Join [p; String.substring 0 2 (h_Name h)] ++ "/")%string else p in
  (Join [Path; p] ++ "/")%string.
Definition Default_Filename (h : Handle) : string :=
  if bool_decide (h_Type h = ConfigFile) then Join [Path; "config"%string]
  else Join [Default_Dirname h; h_Name h].
Definition Default_Paths : list string :=
  map (fun t => Join [Path; defaultLayoutPaths t]) types
  ++ map (fun i => Join [Path; defaultLayoutPaths PackFile; Hex.EncodeToString [Z_byte (Z.of_nat i)]]) (seq 0 256).
Definition Default_Basedir (t : string) : string * bool :=
  (Join [Path; defaultLayoutPaths t], bool_decide (t = PackFile)).
Definition DefaultLayout : Layout :=
  mkLayout Default_Filename Default_Dirname Default_Basedir Default_Paths "default".

Fixpoint drop_empty (items : list string) : list string :=
  match items with
  | i :: items' => if bool_decide (i = ""%string) then drop_empty items' else items
  | [] => []
  end.
Definition ends_with_slash (s : string) : bool :=
  match last (bytes_of s) with Some b => bool_decide (b = Byte.x2f) | None => false end.
(** [path[0] != '/'] is [negb (IsAbs path)]. *)
Definition S3_join (url : string) (items : list string) : string :=
  let path := Join (drop_empty items) in
  let url := if (bool_decide (path = ""%string) || negb (IsAbs path))
                && negb (bool_decide (url = ""%string)) && negb (ends_with_slash url)
             then (url ++ "/")%string else url in
  (url ++ path)%string.
Definition S3_Dirname (h : Handle) : string :=
  if bool_decide (h_Type h = ConfigFile) then (URL ++ Join [Path; "/"%string])%string
  else (S3_join URL [Path; s3LayoutPaths (h_Type h)] ++ "/")%string.
Definition S3_Filename (h : Handle) : string :=
  let name := if bool_decide (h_Type h = ConfigFile) then "config"%string else h_Name h in
  S3_join URL [Path; s3LayoutPaths (h_Type h); name].
Definition S3_Paths : list string := map (fun t => Join [Path; s3LayoutPaths t]) types.
Definition S3_Basedir (t : string) : string * bool := (Join [Path; s3LayoutPaths t], false).
Definition S3LegacyLayout : Layout := mkLayout S3_Filename S3_Dirname S3_Basedir S3_Paths "s3legacy".

Definition REST_Dirname (h : Handle) : string :=
  if bool_decide (h_Type h = ConfigFile) then (URL ++ Join [Path; "/"%string])%string
  else (URL ++ Join [Path; "/"%string; defaultLayoutPaths (h_Type h)] ++ "/")%string.
Definition REST_Filename (h : Handle) : string :=
  let name := if bool_decide (h_Type h = ConfigFile) then "config"%string else h_Name h in
  (URL ++ Join [Path; "/"%string; defaultLayoutPaths (h_Type h); name])%string.
Definition REST_Paths : list string := map (fun t => (URL ++ Join [Path; defaultLayoutPaths t])%string) types.
Definition REST_Basedir (t : string) : string * bool := ((URL ++ Join [Path; defaultLayoutPaths t])%string, false).
Definition RESTLayout : Layout := mkLayout REST_Filename REST_Dirname REST_Basedir REST_Paths "rest".
End layouts.

(** ** Detection (src/backend/layout.go) *)

(** [^[a-fA-F0-9]{64}$] *)
Definition is_hex (b : byte) : bool :=
  let z := byte_Z b in is_digit b || ((97 <=? z) && (z <=? 102)) || ((65 <=? z) && (z <=? 70)).
Definition backendFilename (s : string) : bool :=
  bool_decide (length (bytes_of s) = 64%nat) && forallb is_hex (bytes_of s).

(** [errors.Cause] *)
Fixpoint Cause (e : error) : error := match e with EWrap _ e => Cause e | _ => e end.
Definition ErrLayoutDetectionFailed : error := EMsg "auto-detecting the filesystem layout failed".

(** [Filesystem]: how directories are read and paths joined. *)
Record Filesystem (F : Type) : Type := mkFilesystem {
  f_Join : list string -> string;
  f_ReadDir : string -> io F (list OsInfo);
  f_IsNotExist : error -> bool;
}.
Arguments mkFilesystem {F}. Arguments f_Join {F}. Arguments f_ReadDir {F}. Arguments f_IsNotExist {F}.

Section detect.
Context {F : Type}.

Definition hasBackendFile (repo : Filesystem F) (dir : string) : io F bool := fun s =>
  match f_ReadDir repo dir s with
  | (s, Ok entries) => (s, Ok (existsb (fun e => backendFilename (oi_Name e)) entries))
  | (s, Err e) => if f_IsNotExist repo (Cause e) then (s, Ok false) else (s, Err (EWrap "ReadDir" e))
  | (s, Panic msg) => (s, Panic msg)
  end.

Definition DetectLayout (types : list string) (repo : Filesystem F) (dir : string) : io F Layout :=
  foundKeysFile <-- hasBackendFile repo (f_Join repo [dir; defaultLayoutPaths KeyFile]);
  foundKeyFile <-- hasBackendFile repo (f_Join repo [dir; s3LayoutPaths KeyFile]);
  if foundKeysFile && negb foundKeyFile then io_ret (DefaultLayout (f_Join repo) dir types)
  else if foundKeyFile && negb foundKeysFile then io_ret (S3LegacyLayout (f_Join repo) dir "" types)
  else io_err ErrLayoutDetectionFailed.

(** The cases of a layout that is given by name. *)
Definition named_layout (types : list string) (repo : Filesystem F) (layout path : string) : io F Layout :=
  if bool_decide (layout = "default"%string) then io_ret (DefaultLayout (f_Join repo) path types)
  else if bool_decide (layout = "s3legacy"%string) then io_ret (S3LegacyLayout (f_Join repo) path "" types)
  else io_err (EMsg "unknown backend layout string").
Definition ParseLayout (types : list string) (repo : Filesystem F) (layout defaultLayout path : string) : io F Layout :=
  if bool_decide (layout = ""%string) then fun s =>
    match DetectLayout types repo path s with
    | (s, Err e) =>
        if bool_decide (Cause e = ErrLayoutDetectionFailed) && negb (bool_decide (defaultLayout = ""%string))
        then named_layout types repo defaultLayout path s
        else (s, Err e)
    | r => r
    end
  else named_layout types repo layout path.
End detect.

Section local.
Context {F : Type} `{Disk F}.
Definition LocalFilesystem_ReadDir (dir : string) : io F (list OsInfo) :=
  f <-- try (os_Open dir);
  entries <-- (fun s => match os_Readdir dir s with
                       | (s, inl l) => (s, Ok l)
                       | (s, inr e) => (s, Err (EWrap "Readdir" e)) end);
  match of_close f with Some e => io_err (EWrap "Close" e) | None => io_ret entries end.
Definition LocalFilesystem : Filesystem F := mkFilesystem Join LocalFilesystem_ReadDir is_not_exist.
End local.

(** ** Names that are identifiers *)

Lemma hextable_safe n : 0 <= n < 16 -> Hex.hextable n ∉ [Byte.x2f; Byte.x2e; Byte.x74].
Proof.
  intros Hn. assert (Hall : Forall (fun i => Hex.hextable (Z.of_nat i) ∉ [Byte.x2f; Byte.x2e; Byte.x74]) (seq 0 16)).
  { apply (bool_decide_eq_true_1 _). vm_compute. reflexivity. }
  rewrite <- (Z2Nat.id n) by lia. apply (proj1 (Forall_forall _ _) Hall). apply elem_of_seq. lia.
Qed.
Lemma Encode_safe l c : c ∈ Hex.Encode l -> c ∉ [Byte.x2f; Byte.x2e; Byte.x74].
Proof.
  induction l as [|b l IH]; cbn [Hex.Encode]; [by intros ?%not_elem_of_nil|]. pose proof (byte_Z_range b).
  intros [-> | [-> | Hc]%elem_of_cons]%elem_of_cons; [| |by apply IH]; apply hextable_safe.
  - split; [apply Z.div_pos; lia|apply Z.div_lt_upper_bound; lia].
  - apply Z.mod_pos_bound. lia.
Qed.

(** The handles the repository uses: their names are identifiers. *)
Definition named (h : Handle) : Prop := exists id, wf_ID id /\ h_Name h = ID_String id.
Definition subdir_of (h : Handle) : string := String.substring 0 2 (h_Name h).

Lemma string_of_cons b l : string_of (b :: l) = String (Ascii.ascii_of_byte b) (string_of l).
Proof. done. Qed.

Lemma named_bytes h : named h -> exists a b l, bytes_of (h_Name h) = a :: b :: l /\ length l = 62%nat
  /\ (forall c, c ∈ a :: b :: l -> c ∉ [Byte.x2f; Byte.x2e; Byte.x74]).
Proof.
  intros (id & Hid & ->). unfold ID_String, Hex.EncodeToString. rewrite bytes_of_string_of.
  pose proof (Hex.Encode_length id) as Hl. pose proof (Encode_safe id) as Hs. unfold wf_ID in Hid. rewrite Hid in Hl.
  destruct (Hex.Encode id) as [|a [|b l]]; [done|done|]. exists a, b, l. split; [done|]. split; [cbn in Hl; lia|done].
Qed.
Lemma named_length h : named h -> (String.length (h_Name h) <? 2)%nat = false.
Proof.
  intros Hn. destruct (named_bytes h Hn) as (a & b & l & Hb & Hl & _). rewrite <- (string_of_bytes_of (h_Name h)), Hb, !string_of_cons. done.
Qed.
Lemma subdir_bytes h a b l : bytes_of (h_Name h) = a :: b :: l -> bytes_of (subdir_of h) = [a; b].
Proof.
  intros Hb. unfold subdir_of. rewrite <- (string_of_bytes_of (h_Name h)), Hb, !string_of_cons. cbn [String.substring].
  change (String (Ascii.ascii_of_byte a) (String (Ascii.ascii_of_byte b) "")) with (string_of [a; b]).
  assert (Hz : forall s, String.substring 0 0 s = ""%string) by by intros [].
  rewrite Hz. apply (bytes_of_string_of [a; b]).
Qed.
Lemma named_plain h : named h -> plain (h_Name h) /\ plain (subdir_of h).
Proof.
  intros Hn. destruct (named_bytes h Hn) as (a & b & l & Hb & Hl & Hs). pose proof (subdir_bytes h a b l Hb) as Hsub.
  assert (Ha : a ∉ [Byte.x2f; Byte.x2e; Byte.x74]) by (apply Hs; left).
  assert (Hns : forall c, c ∈ a :: b :: l -> c ≠ Byte.x2f) by (intros c Hc ->; apply Hs in Hc; apply Hc; left).
  split; (split_and!; [| | |]).
  1-3: intros E; apply (f_equal bytes_of) in E; rewrite Hb in E; apply (f_equal length) in E; cbn in E; lia.
  - unfold noslash. rewrite Hb. intros Hc. by apply Hns in Hc.
  - intros E. apply (f_equal bytes_of) in E. by rewrite Hsub in E.
  - intros E. apply (f_equal bytes_of) in E. by rewrite Hsub in E.
  - intros E. apply (f_equal bytes_of) in E. rewrite Hsub in E. change (bytes_of "..") with [Byte.x2e; Byte.x2e] in E. injection E as Ea Eb. apply Ha. rewrite Ea. right. left.
  - unfold noslash. rewrite Hsub. intros Hc. apply (Hns Byte.x2f); [|done]. rewrite !elem_of_cons in *. set_solver.
Qed.


(** ** What a layout promises *)

Definition file_types : list string := [PackFile; SnapshotFile; IndexFile; LockFile; KeyFile].
(** The handles of a repository. *)
Definition store_handle (h : Handle) : Prop := h_Type h = ConfigFile \/ (h_Type h ∈ file_types /\ named h).
Definition same_file (h h' : Handle) : Prop := h_Type h = h_Type h' /\ (h_Type h = ConfigFile \/ h_Name h = h_Name h').

#[global] Instance same_file_dec h h' : Decision (same_file h h').
Proof. unfold same_file. apply _. Defined.

Class LayoutLaws (l : Layout) : Prop := {
  filename_inj h h' : store_handle h -> store_handle h' -> l_Filename l h = l_Filename l h' <-> same_file h h';
  filename_tmp h h' x : store_handle h -> store_handle h' -> noslash x ->
    Join [Dir (l_Filename l h); (Base (l_Filename l h) ++ "-tmp-" ++ x)%string] ≠ l_Filename l h';
  filename_base h : store_handle h -> h_Type h ≠ ConfigFile -> Base (l_Filename l h) = h_Name h;
  filename_listed h : store_handle h -> h_Type h ≠ ConfigFile ->
    Dir (l_Filename l h) = if (l_Basedir l (h_Type h)).2 then Join [(l_Basedir l (h_Type h)).1; subdir_of h]
                           else (l_Basedir l (h_Type h)).1;
  filename_subdir h : store_handle h -> h_Type h ≠ ConfigFile -> (l_Basedir l (h_Type h)).2 = true ->
    Dir (Dir (l_Filename l h)) = (l_Basedir l (h_Type h)).1 /\ Base (Dir (l_Filename l h)) = subdir_of h;
}.

Definition fname (h : Handle) : string := if bool_decide (h_Type h = ConfigFile) then "config" else h_Name h.
Lemma fname_plain h : store_handle h -> plain (fname h).
Proof.
  unfold fname. intros [-> | [Ht Hn]].
  - rewrite bool_decide_eq_true_2 by done. apply (bool_decide_eq_true_1 _). reflexivity.
  - case_bool_decide as Hc; [|by apply named_plain]. by rewrite Hc in Ht; apply (bool_decide_eq_true_2 _) in Ht.
Qed.
Lemma named_bytes_length h : named h -> length (bytes_of (h_Name h)) = 64%nat.
Proof. intros Hn. destruct (named_bytes h Hn) as (a & b & l & -> & Hl & _). cbn [length]. by rewrite Hl. Qed.
Lemma fname_length h : store_handle h -> length (bytes_of (fname h)) = if bool_decide (h_Type h = ConfigFile) then 6%nat else 64%nat.
Proof.
  unfold fname. intros Hh. case_bool_decide as Hc; [done|]. destruct Hh as [?|[_ Hn]]; [done|by apply named_bytes_length].
Qed.

(** Names with something appended (those of unfinished files) are not names of
    files. *)
Class SuffixLaws (l : Layout) : Prop := {
  suffix_inj h h' : store_handle h -> store_handle h' -> l_Filename l h = l_Filename l h' <-> same_file h h';
  suffix_foreign h h' x : store_handle h -> store_handle h' -> noslash x -> x ≠ ""%string -> (l_Filename l h ++ x)%string ≠ l_Filename l h';
}.
Lemma join_suffix cs c x : (join "/" (cs ++ [c]) ++ x)%string = join "/" (cs ++ [(c ++ x)%string]).
Proof.
  destruct (decide (cs = [])) as [->|H]; [done|]. rewrite !join_snoc by done. by rewrite <- !string_app_assoc.
Qed.
Lemma fname_suffix h h' x : store_handle h -> store_handle h' -> h_Type h = h_Type h' -> x ≠ ""%string -> (fname h ++ x)%string ≠ fname h'.
Proof.
  intros Hh Hh' Ht Hx E. apply (f_equal (fun s => length (bytes_of s))) in E. rewrite bytes_of_app, length_app, !fname_length, Ht in E by done.
  assert (length (bytes_of x) ≠ 0%nat); [|lia]. by destruct x.
Qed.
Lemma fname_suffix_plain h x : store_handle h -> noslash x -> plain (fname h ++ x)%string.
Proof.
  intros Hh Hx. pose proof (fname_plain h Hh) as (_ & _ & _ & Hn). pose proof (fname_length h Hh) as Hl.
  assert (Hlen : (6 <= length (bytes_of (fname h ++ x)))%nat) by (rewrite bytes_of_app, length_app, Hl; case_bool_decide; lia).
  split_and!. 1-3: intros E; rewrite E in Hlen; cbn in Hlen; lia.
  unfold noslash in *. rewrite bytes_of_app, elem_of_app. by intros [?|?].
Qed.

(** A layout that puts files into directories below an absolute path. *)
Section placed.
Context (dir : list string) (dir_plain : Forall plain dir) (filename : Handle -> string) (place : Handle -> list string).
Context (place_plain : forall h, store_handle h -> Forall plain (place h)).
Context (place_filename : forall h, store_handle h -> filename h = render ((dir ++ place h) ++ [fname h])).
Context (place_type : forall h h', store_handle h -> store_handle h' -> place h = place h' -> h_Type h = h_Type h').
Context (place_same : forall h h', same_file h h' -> place h = place h').

Lemma placed_plain h : store_handle h -> Forall plain ((dir ++ place h) ++ [fname h]).
Proof using dir_plain place_plain. intros Hh. apply plain_app. split; [apply Forall_app; auto|by apply fname_plain]. Qed.
Lemma placed_inj h h' : store_handle h -> store_handle h' -> filename h = filename h' <-> same_file h h'.
Proof using All.
  intros Hh Hh'. rewrite !place_filename by done. split.
  - intros E. apply render_inj in E; [|by apply placed_plain..]. apply app_inj_tail in E as [E En].
    apply app_inv_head in E. apply place_type in E; [|done..]. split; [done|]. unfold fname in En. rewrite <- E in En.
    case_bool_decide; auto.
  - intros Hs. rewrite (place_same h h' Hs). destruct Hs as [Ht Hn]. unfold fname. rewrite <- Ht. case_bool_decide; [done|].
    by destruct Hn as [? | ->].
Qed.
Lemma placed_base h : store_handle h -> Base (filename h) = fname h.
Proof using All. intros Hh. rewrite place_filename, Base_render, last_snoc by auto using placed_plain. done. Qed.
Lemma placed_dir h : store_handle h -> Dir (filename h) = render (dir ++ place h).
Proof using All. intros Hh. rewrite place_filename, Dir_render by auto using placed_plain. done. Qed.
Lemma placed_tmp h h' x : store_handle h -> store_handle h' -> noslash x ->
  Join [Dir (filename h); (Base (filename h) ++ "-tmp-" ++ x)%string] ≠ filename h'.
Proof using All.
  intros Hh Hh' Hx. rewrite placed_base, placed_dir, (place_filename h') by done.
  pose proof (fname_plain h Hh) as (Hn1 & Hn2 & Hn3 & Hn4). pose proof (fname_length h Hh) as Hl.
  pose proof (fname_length h' Hh') as Hl'.
  assert (Hb : bytes_of (fname h ++ "-tmp-" ++ x) = bytes_of (fname h) ++ bytes_of "-tmp-" ++ bytes_of x) by by rewrite !bytes_of_app.
  assert (Hlen : (5 + length (bytes_of (fname h)) <= length (bytes_of (fname h ++ "-tmp-" ++ x)))%nat).
  { rewrite Hb, !length_app. cbn. lia. }
  assert (Hp : plain (fname h ++ "-tmp-" ++ x)%string).
  { assert (Hlong : (6 <= length (bytes_of (fname h)))%nat) by (rewrite Hl; destruct (bool_decide (h_Type h = ConfigFile)); lia).
    split_and!.
    1-3: intros E; rewrite E in Hlen; cbn in Hlen; lia.
    unfold noslash in *. rewrite Hb, !elem_of_app. intros [?|[Ht|?]]; [done| |done]. revert Ht.
    apply (bool_decide_eq_true_1 _). reflexivity. }
  rewrite Join_plain; [|apply Forall_app; auto|done]. intros E.
  apply render_inj in E; [|apply plain_app; split; [apply Forall_app; auto|done]|by apply placed_plain].
  apply app_inj_tail in E as [E En]. apply app_inv_head, place_type in E; [|done..].
  rewrite En, Hl, Hl', E in Hlen. destruct (bool_decide (h_Type h' = ConfigFile)); lia.
Qed.
Lemma placed_suffix h h' x : store_handle h -> store_handle h' -> noslash x -> x ≠ ""%string -> (filename h ++ x)%string ≠ filename h'.
Proof using All.
  intros Hh Hh' Hx Hne. rewrite !place_filename by done. unfold render. rewrite <- string_app_assoc, join_suffix. intros E.
  apply render_inj in E; [|apply plain_app; split; [apply Forall_app; auto|by apply fname_suffix_plain]|by apply placed_plain].
  apply app_inj_tail in E as [E En]. apply app_inv_head, place_type in E; [|done..]. by apply (fname_suffix h h' x).
Qed.
End placed.

Lemma type_cases h : store_handle h -> h_Type h = ConfigFile \/ named h /\ (h_Type h = PackFile \/ h_Type h = SnapshotFile
  \/ h_Type h = IndexFile \/ h_Type h = LockFile \/ h_Type h = KeyFile).
Proof. intros [?|[Ht Hn]]; [auto|right; split; [done|]]. unfold file_types in Ht.
  repeat (apply elem_of_cons in Ht as [?|Ht]; [by tauto|]). by apply not_elem_of_nil in Ht.
Qed.
Lemma short_names h : named h -> (2 <? String.length (h_Name h))%nat = true.
Proof.
  intros Hn. destruct (named_bytes h Hn) as (a & b & l & Hb & Hl & _). rewrite <- (string_of_bytes_of (h_Name h)), Hb, !string_of_cons.
  destruct l; [done|]. done.
Qed.

Section local_layouts.
Context (dir : list string) (dir_plain : Forall plain dir) (types : list string).

Definition default_place (h : Handle) : list string :=
  if bool_decide (h_Type h = ConfigFile) then []
  else if bool_decide (h_Type h = PackFile) then ["data"%string; subdir_of h] else [defaultLayoutPaths (h_Type h)].
Lemma default_plain h : store_handle h -> Forall plain (default_place h).
Proof.
  intros Hh. destruct (type_cases h Hh) as [E|[Hn [E|[E|[E|[E|E]]]]]]; unfold default_place; rewrite E;
    repeat (rewrite bool_decide_eq_false_2 by done || rewrite bool_decide_eq_true_2 by done);
    try (apply (bool_decide_eq_true_1 _); reflexivity).
  apply Forall_cons. split; [apply (bool_decide_eq_true_1 _); reflexivity|]. apply Forall_singleton. by apply named_plain.
Qed.
Lemma default_type h h' : store_handle h -> store_handle h' -> default_place h = default_place h' -> h_Type h = h_Type h'.
Proof.
  intros Hh Hh'. destruct (type_cases h Hh) as [E|[_ [E|[E|[E|[E|E]]]]]], (type_cases h' Hh') as [E'|[_ [E'|[E'|[E'|[E'|E']]]]]];
    unfold default_place; rewrite E, E'; done.
Qed.
Lemma default_same h h' : same_file h h' -> default_place h = default_place h'.
Proof.
  intros [Ht Hn]. unfold default_place, subdir_of. rewrite <- Ht. case_bool_decide; [done|]. by destruct Hn as [?| ->].
Qed.
Lemma default_filename h : store_handle h ->
  Default_Filename Join (render dir) h = render ((dir ++ default_place h) ++ [fname h]).
Proof using dir_plain.
  intros Hh. pose proof (default_plain h Hh) as Hp. pose proof (fname_plain h Hh) as Hf. unfold fname in *.
  unfold Default_Filename. case_bool_decide as Hc.
  { unfold default_place. rewrite bool_decide_eq_true_2, app_nil_r by done. by apply Join_plain. }
  destruct Hh as [?|[Ht Hn]]; [done|].
  assert (Hdir : Default_Dirname Join (render dir) h = (render (dir ++ default_place h) ++ "/")%string).
  { unfold Default_Dirname. unfold default_place in *. rewrite (bool_decide_eq_false_2 (h_Type h = ConfigFile)) in * by done.
    destruct (decide (h_Type h = PackFile)) as [E|E];
      [rewrite (bool_decide_eq_true_2 _ E) in *|rewrite (bool_decide_eq_false_2 _ E) in *]; cbn [andb].
    - rewrite short_names by done. rewrite E. change (defaultLayoutPaths PackFile) with "data"%string. fold (subdir_of h).
      rewrite (Join_rel "data" [subdir_of h]) by done.
      change (join "/" ["data"%string; subdir_of h] ++ "/")%string with (("data" ++ "/" ++ subdir_of h) ++ "/" ++ "")%string.
      rewrite Join_abs by done. rewrite !path_split_app. apply Forall_cons in Hp as [_ Hs]. pose proof (proj1 (Forall_singleton _ _) Hs) as Hs'.
      rewrite (path_split_plain (subdir_of h)) by apply Hs'. change (path_split "data") with ["data"%string].
      change (path_split "") with [""%string]. rewrite !fold_left_app. cbn [fold_left].
      change (clean_step true (reverse dir) "data") with ("data"%string :: reverse dir).
      pose proof (fold_clean_plain [subdir_of h] ("data"%string :: reverse dir) Hs) as Hfold. cbn [fold_left] in Hfold. rewrite Hfold.
      change (reverse [subdir_of h] ++ "data"%string :: reverse dir) with (subdir_of h :: "data"%string :: reverse dir).
      change (clean_step true ?l "") with l. do 2 f_equal.
      by rewrite !reverse_cons, reverse_involutive, <- app_assoc.
    - rewrite Join_plain by (done || by apply Forall_singleton). done. }
  rewrite Hdir. apply Join_slash; [by apply Forall_app|done].
Qed.

#[export] Instance default_layout_laws : LayoutLaws (DefaultLayout Join (render dir) types).
Proof using dir_plain.
  split; cbn [l_Filename l_Basedir DefaultLayout].
  - apply (placed_inj dir dir_plain _ default_place); eauto using default_plain, default_filename, default_type, default_same.
  - apply (placed_tmp dir dir_plain _ default_place); eauto using default_plain, default_filename, default_type, default_same.
  - intros h Hh Hc. rewrite (placed_base dir dir_plain _ default_place);
      eauto using default_plain, default_filename, default_type, default_same. unfold fname. by rewrite bool_decide_eq_false_2.
  - intros h Hh Hc. rewrite (placed_dir dir dir_plain _ default_place);
      eauto using default_plain, default_filename, default_type, default_same.
    pose proof (default_plain h Hh) as Hp. unfold Default_Basedir, default_place in *. cbn [fst snd].
    rewrite (bool_decide_eq_false_2 (h_Type h = ConfigFile)) in * by done. case_bool_decide as E.
    + rewrite E. apply Forall_cons in Hp as Hp'. destruct Hp' as [Hd [Hs _]%Forall_cons].
      change (defaultLayoutPaths PackFile) with "data"%string. rewrite (Join_plain dir) by done.
      rewrite Join_plain by (done || by apply plain_app). by rewrite <- app_assoc.
    + apply Forall_cons in Hp as [Hp _]. by rewrite Join_plain.
  - intros h Hh Hc. cbn [snd Default_Basedir]. intros E%bool_decide_eq_true_1. rewrite (placed_dir dir dir_plain _ default_place);
      eauto using default_plain, default_filename, default_type, default_same.
    pose proof (default_plain h Hh) as Hp. unfold default_place in *. rewrite (bool_decide_eq_false_2 (h_Type h = ConfigFile)) in * by done.
    rewrite (bool_decide_eq_true_2 _ E) in *. apply Forall_cons in Hp as [Hd [Hs _]%Forall_cons].
    assert (Hds : Forall plain ((dir ++ ["data"%string]) ++ [subdir_of h])) by (apply plain_app; split; [by apply plain_app|done]).
    change ["data"%string; subdir_of h] with (["data"%string] ++ [subdir_of h]). rewrite app_assoc, Dir_render, Base_render, last_snoc by done.
    unfold Default_Basedir. cbn [fst]. rewrite E. change (defaultLayoutPaths PackFile) with "data"%string. by rewrite (Join_plain dir).
Qed.
#[export] Instance default_suffix_laws : SuffixLaws (DefaultLayout Join (render dir) types).
Proof using dir_plain.
  split; cbn [l_Filename DefaultLayout].
  - apply (placed_inj dir dir_plain _ default_place); eauto using default_plain, default_filename, default_type, default_same.
  - apply (placed_suffix dir dir_plain _ default_place); eauto using default_plain, default_filename, default_type, default_same.
Qed.

Definition s3_place (h : Handle) : list string :=
  if bool_decide (h_Type h = ConfigFile) then [] else [s3LayoutPaths (h_Type h)].
Lemma s3_plain h : store_handle h -> Forall plain (s3_place h).
Proof.
  intros Hh. destruct (type_cases h Hh) as [E|[Hn [E|[E|[E|[E|E]]]]]]; unfold s3_place; rewrite E;
    apply (bool_decide_eq_true_1 _); reflexivity.
Qed.
Lemma s3_type h h' : store_handle h -> store_handle h' -> s3_place h = s3_place h' -> h_Type h = h_Type h'.
Proof.
  intros Hh Hh'. destruct (type_cases h Hh) as [E|[_ [E|[E|[E|[E|E]]]]]], (type_cases h' Hh') as [E'|[_ [E'|[E'|[E'|[E'|E']]]]]];
    unfold s3_place; rewrite E, E'; done.
Qed.
Lemma s3_same h h' : same_file h h' -> s3_place h = s3_place h'.
Proof. intros [Ht Hn]. unfold s3_place. by rewrite <- Ht. Qed.
Lemma s3_filename h : store_handle h ->
  S3_Filename Join (render dir) "" h = render ((dir ++ s3_place h) ++ [fname h]).
Proof using dir_plain.
  intros Hh. pose proof (s3_plain h Hh) as Hp. pose proof (fname_plain h Hh) as Hf. unfold S3_Filename. fold (fname h). cbv zeta.
  set (items := [render dir; s3LayoutPaths (h_Type h); fname h]).
  assert (E : Join items = render ((dir ++ s3_place h) ++ [fname h])).
  { unfold items, s3_place in *. case_bool_decide as Hc.
    - rewrite Hc. change (s3LayoutPaths ConfigFile) with ""%string. unfold Join at 1.
      rewrite filter_cons_True, filter_cons_False by (done || (intros E; by apply E)). rewrite app_nil_r, <- Join_plain by done. done.
    - rewrite Join_plains; [by rewrite <- app_assoc|done|]. apply Forall_cons. apply Forall_cons in Hp as [Hp _]. split; [done|]. by apply Forall_singleton. }
  unfold S3_join. change (drop_empty items) with items. rewrite E. cbn zeta.
  change (bool_decide (""%string = ""%string)) with true. cbn [negb andb]. rewrite andb_false_r. done.
Qed.
#[export] Instance s3_layout_laws : LayoutLaws (S3LegacyLayout Join (render dir) "" types).
Proof using dir_plain.
  split; cbn [l_Filename l_Basedir S3LegacyLayout].
  - apply (placed_inj dir dir_plain _ s3_place); eauto using s3_plain, s3_filename, s3_type, s3_same.
  - apply (placed_tmp dir dir_plain _ s3_place); eauto using s3_plain, s3_filename, s3_type, s3_same.
  - intros h Hh Hc. rewrite (placed_base dir dir_plain _ s3_place); eauto using s3_plain, s3_filename, s3_type, s3_same.
    unfold fname. by rewrite bool_decide_eq_false_2.
  - intros h Hh Hc. rewrite (placed_dir dir dir_plain _ s3_place); eauto using s3_plain, s3_filename, s3_type, s3_same.
    pose proof (s3_plain h Hh) as Hp. unfold S3_Basedir, s3_place in *. cbn [fst snd].
    rewrite (bool_decide_eq_false_2 (h_Type h = ConfigFile)) in * by done. apply Forall_cons in Hp as [Hp _]. by rewrite Join_plain.
  - done.
Qed.
#[export] Instance s3_suffix_laws : SuffixLaws (S3LegacyLayout Join (render dir) "" types).
Proof using dir_plain.
  split; cbn [l_Filename S3LegacyLayout].
  - apply (placed_inj dir dir_plain _ s3_place); eauto using s3_plain, s3_filename, s3_type, s3_same.
  - apply (placed_suffix dir dir_plain _ s3_place); eauto using s3_plain, s3_filename, s3_type, s3_same.
Qed.
End local_layouts.

(** ** Names of objects

    What the backends that keep objects in a service need of a layout: names
    are not files of a directory there, but prefixes can be listed. *)

(** [if !strings.HasSuffix(prefix, "/") { prefix += "/" }] *)
Definition with_slash (s : string) : string := if ends_with_slash s then s else (s ++ "/")%string.
Definition dir_prefix (l : Layout) (t : string) : string := with_slash (l_Basedir l t).1.

Class NamingLaws (l : Layout) : Prop := {
  naming_inj h h' : store_handle h -> store_handle h' -> l_Filename l h = l_Filename l h' <-> same_file h h';
  naming_under h : store_handle h -> h_Type h ≠ ConfigFile ->
    exists m, l_Filename l h = (dir_prefix l (h_Type h) ++ m)%string /\ m ≠ ""%string /\ Base m = h_Name h
      /\ ((l_Basedir l (h_Type h)).2 = false -> noslash m);
  (** the directory of a type has no slash at its end *)
  naming_dir t : t ∈ file_types -> dir_prefix l t = ((l_Basedir l t).1 ++ "/")%string;
  naming_base h : store_handle h -> h_Type h ≠ ConfigFile -> Base (l_Filename l h) = h_Name h;
  naming_type h t m : store_handle h -> t ∈ file_types -> l_Filename l h = (dir_prefix l t ++ m)%string -> h_Type h = t;
}.

Lemma string_app_inv (a b c : string) : (a ++ b)%string = (a ++ c)%string -> b = c.
Proof. induction a as [|x a IH]; [done|]. intros E. apply IH. by injection E. Qed.
Lemma ends_with_slash_app s c : c ≠ ""%string -> noslash c -> ends_with_slash (s ++ c) = false.
Proof.
  intros Hc Hn. unfold ends_with_slash. rewrite bytes_of_app, last_app. unfold noslash in Hn.
  destruct (last (bytes_of c)) as [b|] eqn:E.
  - apply bool_decide_eq_false_2. intros ->. apply Hn. by eapply last_Some_elem_of.
  - apply last_None in E. destruct Hc. by rewrite <- (string_of_bytes_of c), E.
Qed.
Lemma ends_with_slash_plain s c : plain c -> ends_with_slash (s ++ c) = false.
Proof. intros (Hc & _ & _ & Hn). by apply ends_with_slash_app. Qed.
Lemma join_app cs ds : cs ≠ [] -> ds ≠ [] -> join "/" (cs ++ ds) = (join "/" cs ++ "/" ++ join "/" ds)%string.
Proof.
  intros Hc Hd. induction cs as [|c cs IH]; [done|]. destruct cs as [|c' cs]; [by destruct ds|].
  change (join "/" ((c :: c' :: cs) ++ ds)) with (c ++ "/" ++ join "/" ((c' :: cs) ++ ds))%string. rewrite IH by done.
  change (join "/" (c :: c' :: cs)) with (c ++ "/" ++ join "/" (c' :: cs))%string. by rewrite !string_app_assoc.
Qed.
Lemma Base_join cs c : Forall plain (cs ++ [c]) -> Base (join "/" (cs ++ [c])) = c.
Proof.
  intros Hp. unfold Base. pose proof (plain_noslash _ Hp) as Hns.
  destruct (cs ++ [c]) as [|d ds] eqn:E; [by destruct cs|]. rewrite bool_decide_eq_false_2.
  - rewrite path_split_join, last_filter_nonempty by done. rewrite <- E. by rewrite last_snoc.
  - intros Ej. apply (f_equal path_split) in Ej. rewrite path_split_join in Ej by done. change (path_split "") with [""%string] in Ej.
    rewrite Ej in Hp. apply Forall_cons in Hp as [(? & _) _]. done.
Qed.
Lemma Base_snoc s c : plain c -> Base (s ++ "/" ++ c) = c.
Proof.
  intros Hc. pose proof Hc as (Hne & _ & _ & Hn). unfold Base. rewrite bool_decide_eq_false_2 by by destruct s.
  rewrite path_split_app, filter_app, (path_split_plain c) by done. rewrite filter_cons_True, filter_nil by done. by rewrite last_snoc.
Qed.
Lemma snoc_nonempty {A} (l : list A) x : l ++ [x] ≠ [].
Proof. by destruct l. Qed.
Lemma path_split_nonempty s : path_split s ≠ [].
Proof. unfold path_split. destruct (bytes_of s) as [|b l]; [done|]. cbn [split_slash]. case_bool_decide; [done|]. by destruct (split_slash l). Qed.

(** A layout that puts the files below some prefix [root], in a directory for
    each type. *)
Section below.
Context (l : Layout) (root : string) (dir : list string) (dir_plain : Forall plain dir).
Context (sub : string -> string) (extra : Handle -> list string).
Context (sub_plain : forall t, t ∈ file_types -> plain (sub t)).
Context (sub_inj : forall t t', t ∈ file_types -> t' ∈ file_types -> sub t = sub t' -> t = t').
Context (extra_plain : forall h, store_handle h -> h_Type h ≠ ConfigFile -> Forall plain (extra h)).
Context (extra_same : forall h h', same_file h h' -> extra h = extra h').
Context (below_flat : forall h, (l_Basedir l (h_Type h)).2 = false -> extra h = []).
Definition below_place (h : Handle) : list string := if bool_decide (h_Type h = ConfigFile) then [] else sub (h_Type h) :: extra h.
Context (below_filename : forall h, store_handle h -> l_Filename l h = (root ++ join "/" ((dir ++ below_place h) ++ [fname h]))%string).
Context (below_basedir : forall t, t ∈ file_types -> (l_Basedir l t).1 = (root ++ join "/" (dir ++ [sub t]))%string).

Lemma below_type h : store_handle h -> h_Type h ≠ ConfigFile -> h_Type h ∈ file_types.
Proof. by intros [?|[? _]]. Qed.
Lemma below_plain h : store_handle h -> Forall plain ((dir ++ below_place h) ++ [fname h]).
Proof using dir_plain sub_plain extra_plain.
  intros Hh. apply plain_app. split; [|by apply fname_plain]. apply Forall_app. split; [done|]. unfold below_place.
  case_bool_decide; [done|]. apply Forall_cons. split; [|by apply extra_plain]. by apply sub_plain, below_type.
Qed.
Lemma below_prefix t : t ∈ file_types -> dir_prefix l t = (root ++ join "/" (dir ++ [sub t]) ++ "/")%string.
Proof using All.
  intros Ht. unfold dir_prefix, with_slash. rewrite below_basedir by done.
  assert (E : exists s, (root ++ join "/" (dir ++ [sub t]))%string = (s ++ sub t)%string).
  { destruct dir as [|d ds]; [by exists root|]. exists (root ++ (join "/" (d :: ds) ++ "/"))%string.
    rewrite join_app by done. change (join "/" [sub t]) with (sub t). by rewrite !string_app_assoc. }
  destruct E as [s E]. rewrite E, ends_with_slash_plain by by apply sub_plain. rewrite <- E. by rewrite string_app_assoc.
Qed.
(** The components of a name. *)
Lemma below_split cs cs' c c' : Forall noslash (cs ++ [c]) -> Forall noslash (cs' ++ [c']) ->
  (root ++ join "/" (cs ++ [c]))%string = (root ++ join "/" (cs' ++ [c']))%string -> cs = cs' /\ c = c'.
Proof.
  intros H1 H2 E. apply string_app_inv, (f_equal path_split) in E.
  destruct (cs ++ [c]) as [|a x] eqn:E1; [by destruct cs|]. destruct (cs' ++ [c']) as [|b y] eqn:E2; [by destruct cs'|].
  rewrite !path_split_join in E by done. rewrite <- E1, <- E2 in E. by apply app_inj_tail in E.
Qed.
Lemma below_place_type h h' : store_handle h -> store_handle h' -> below_place h = below_place h' -> h_Type h = h_Type h'.
Proof using sub_inj.
  intros Hh Hh' E. unfold below_place in E. case_bool_decide as Hc; case_bool_decide as Hc'; [congruence|done..|].
  injection E as E _. apply sub_inj; auto using below_type.
Qed.
Lemma below_inj h h' : store_handle h -> store_handle h' -> l_Filename l h = l_Filename l h' <-> same_file h h'.
Proof using dir_plain sub_plain sub_inj extra_plain extra_same below_filename.
  intros Hh Hh'. rewrite !below_filename by done. split.
  - intros [E En]%below_split; [|by apply plain_noslash, below_plain..]. apply app_inv_head, below_place_type in E; [|done..].
    split; [done|]. unfold fname in En. rewrite <- E in En. case_bool_decide; auto.
  - intros Hs. pose proof Hs as [Ht Hn]. assert (E : below_place h = below_place h').
    { unfold below_place. by rewrite Ht, (extra_same h h'). }
    rewrite E. unfold fname. rewrite <- Ht. case_bool_decide; [done|]. by destruct Hn as [? | ->].
Qed.
Lemma below_suffix h h' x : store_handle h -> store_handle h' -> noslash x -> x ≠ ""%string -> (l_Filename l h ++ x)%string ≠ l_Filename l h'.
Proof using dir_plain sub_plain sub_inj extra_plain below_filename.
  intros Hh Hh' Hx Hne. rewrite !below_filename, <- string_app_assoc, join_suffix by done.
  intros [E En]%below_split; [| |by apply plain_noslash, below_plain].
  - apply app_inv_head, below_place_type in E; [|done..]. by apply (fname_suffix h h' x).
  - apply plain_noslash. pose proof (below_plain h Hh) as Hp. apply plain_app in Hp as [Hp _]. apply plain_app. split; [done|by apply fname_suffix_plain].
Qed.
Lemma below_laws : NamingLaws l.
Proof using All.
  split; [apply below_inj| | | |].
  - intros h Hh Hc. exists (join "/" (extra h ++ [fname h])). rewrite below_filename, below_prefix by auto using below_type.
    pose proof (below_plain h Hh) as Hp. unfold below_place in *. rewrite bool_decide_eq_false_2 in * by done.
    assert (Hp' : Forall plain (extra h ++ [fname h])).
    { rewrite <- app_assoc in Hp. apply Forall_app in Hp as [_ Hp]. by apply Forall_cons in Hp as [_ ?]. }
    assert (Hb : Base (join "/" (extra h ++ [fname h])) = h_Name h).
    { rewrite Base_join by done. unfold fname. by rewrite bool_decide_eq_false_2. }
    split_and!; [|intros E; rewrite E in Hb|done|].
    + replace ((dir ++ sub (h_Type h) :: extra h) ++ [fname h]) with ((dir ++ [sub (h_Type h)]) ++ (extra h ++ [fname h]))
        by (rewrite <- !app_assoc; done). rewrite join_app by apply snoc_nonempty. by rewrite !string_app_assoc.
    + destruct Hh as [?|[_ Hn]]; [done|]. destruct (named_plain h Hn) as [(_ & Hd & _) _]. by destruct Hd.
    + intros Hflat. rewrite below_flat by done. apply (fname_plain h Hh).
  - intros t Ht. rewrite below_prefix, below_basedir by done. by rewrite string_app_assoc.
  - intros h Hh Hc. rewrite below_filename by done. pose proof (below_plain h Hh) as Hp.
    assert (Hf : fname h = h_Name h) by (unfold fname; by rewrite bool_decide_eq_false_2).
    rewrite join_app by (unfold below_place; rewrite ?bool_decide_eq_false_2 by done; by destruct dir || done).
    rewrite string_app_assoc. apply plain_app in Hp as [_ Hp]. rewrite Hf in *. by apply Base_snoc.
  - intros h t m Hh Ht. rewrite below_filename, below_prefix by done. rewrite <- !string_app_assoc.
    intros E. apply string_app_inv, (f_equal path_split) in E.
    pose proof (plain_noslash _ (below_plain h Hh)) as H1. pose proof (sub_plain t Ht) as Hst.
    assert (H2 : Forall plain (dir ++ [sub t])) by (apply plain_app; by split).
    apply plain_noslash in H2. rewrite path_split_app in E.
    destruct ((dir ++ below_place h) ++ [fname h]) as [|a x] eqn:E1; [by destruct (dir ++ below_place h)|].
    destruct (dir ++ [sub t]) as [|b y] eqn:E2; [by destruct dir|].
    rewrite !path_split_join in E by done. rewrite <- E1, <- E2 in E. rewrite <- !app_assoc in E. apply app_inv_head in E.
    unfold below_place in E. case_bool_decide as Hc.
    + cbn [app] in E. injection E as _ E. by destruct (path_split_nonempty m).
    + cbn [app] in E. injection E as E _. apply sub_inj; auto using below_type.
Qed.
End below.

(** The layouts below a relative path (the prefix of a bucket), which may be
    empty, and the layout of the REST server below its URL. *)
Section object_layouts.
Context (dir : list string) (dir_plain : Forall plain dir) (types : list string).

Lemma sub_default_plain t : t ∈ file_types -> plain (defaultLayoutPaths t).
Proof. unfold file_types. intros Ht. repeat (apply elem_of_cons in Ht as [-> |Ht]; [apply (bool_decide_eq_true_1 _); reflexivity|]). by apply not_elem_of_nil in Ht. Qed.
Lemma sub_s3_plain t : t ∈ file_types -> plain (s3LayoutPaths t).
Proof. unfold file_types. intros Ht. repeat (apply elem_of_cons in Ht as [-> |Ht]; [apply (bool_decide_eq_true_1 _); reflexivity|]). by apply not_elem_of_nil in Ht. Qed.
Lemma sub_default_inj t t' : t ∈ file_types -> t' ∈ file_types -> defaultLayoutPaths t = defaultLayoutPaths t' -> t = t'.
Proof.
  intros Ht Ht' E. assert (H : Forall (fun t => Forall (fun t' => defaultLayoutPaths t = defaultLayoutPaths t' -> t = t') file_types) file_types).
  { repeat constructor; done. }
  rewrite Forall_forall in H. specialize (H t Ht). rewrite Forall_forall in H. by apply H.
Qed.
Lemma sub_s3_inj t t' : t ∈ file_types -> t' ∈ file_types -> s3LayoutPaths t = s3LayoutPaths t' -> t = t'.
Proof.
  intros Ht Ht' E. assert (H : Forall (fun t => Forall (fun t' => s3LayoutPaths t = s3LayoutPaths t' -> t = t') file_types) file_types).
  { repeat constructor; done. }
  rewrite Forall_forall in H. specialize (H t Ht). rewrite Forall_forall in H. by apply H.
Qed.

(** The directory for the first two digits of a pack's name. *)
Definition pack_extra (h : Handle) : list string := if bool_decide (h_Type h = PackFile) then [subdir_of h] else [].
Lemma pack_extra_plain h : store_handle h -> h_Type h ≠ ConfigFile -> Forall plain (pack_extra h).
Proof.
  unfold pack_extra. intros [?|[_ Hn]] Hc; [done|]. case_bool_decide; [|done]. apply Forall_singleton. by apply named_plain.
Qed.
Lemma pack_extra_same h h' : same_file h h' -> pack_extra h = pack_extra h'.
Proof.
  intros [Ht Hn]. unfold pack_extra, subdir_of. rewrite <- Ht. case_bool_decide as E; [|done]. destruct Hn as [Hc| ->]; [|done].
  by rewrite Hc in E.
Qed.
Lemma parts_dirs : concat (map parts [join "/" dir]) = dir.
Proof using dir_plain. cbn [map concat]. by rewrite app_nil_r, parts_join, parts_plains. Qed.
Lemma IsAbs_join cs : Forall plain cs -> IsAbs (join "/" cs) = false.
Proof.
  intros Hp. destruct cs as [|c cs]; [done|]. apply Forall_cons in Hp as [(Hc & _ & _ & Hn) _].
  destruct c as [|x c]; [done|]. assert (E : IsAbs (String x c) = false).
  { unfold IsAbs. change (bytes_of (String x c)) with (Ascii.byte_of_ascii x :: bytes_of c). apply bool_decide_eq_false_2. intros E. apply Hn.
    change (bytes_of (String x c)) with (Ascii.byte_of_ascii x :: bytes_of c). rewrite E. left. }
  by destruct cs.
Qed.
Lemma join_empty cs : Forall plain cs -> join "/" cs = ""%string -> cs = [].
Proof.
  intros Hcs Hj. destruct cs as [|c cs]; [done|]. apply (f_equal path_split) in Hj.
  rewrite path_split_join in Hj by by apply plain_noslash. change (path_split "") with [""%string] in Hj. rewrite Hj in Hcs.
  by apply Forall_cons in Hcs as [(? & _) _].
Qed.
(** Joining the prefix with more names. *)
Lemma Join_below items cs : concat (map parts items) = cs -> Forall plain cs -> cs ≠ [] ->
  IsAbs (default "" (head (filter (fun e => e ≠ ""%string) items))) = false ->
  Join (join "/" dir :: items) = join "/" (dir ++ cs).
Proof using dir_plain.
  intros Hi Hcs Hne Ha. assert (E : concat (map parts (join "/" dir :: items)) = dir ++ cs).
  { change (concat (map parts ([join "/" dir] ++ items)) = dir ++ cs). by rewrite map_app, concat_app, parts_dirs, Hi. }
  rewrite Join_parts; rewrite E; [|by apply Forall_app|by intros [_ ?]%app_eq_nil].
  assert (Hh : IsAbs (default "" (head (filter (fun e => e ≠ ""%string) (join "/" dir :: items)))) = false).
  { destruct (decide (join "/" dir = ""%string)) as [Ee|Ee].
    - rewrite filter_cons_False; [done|]. intros H. by apply H.
    - rewrite filter_cons_True by done. cbn [head]. by apply IsAbs_join. }
  by rewrite Hh.
Qed.
Lemma plain_nonabs c : plain c -> IsAbs c = false.
Proof. intros Hc. apply (IsAbs_join [c]). by apply Forall_singleton. Qed.
Lemma Join_one c : plain c -> Join [join "/" dir; c] = join "/" (dir ++ [c]).
Proof using dir_plain.
  intros Hc. pose proof Hc as (Hne & _). apply Join_below; [|by apply Forall_singleton|done|].
  - cbn. by rewrite parts_plain.
  - rewrite filter_cons_True by done. by apply plain_nonabs.
Qed.

Lemma Join_dir_file cs c : Forall plain cs -> cs ≠ [] -> plain c -> Join [(join "/" cs ++ "/")%string; c] = join "/" (cs ++ [c]).
Proof.
  intros Hcs Hne0 Hf. assert (Hne : (join "/" cs ++ "/")%string ≠ ""%string) by by destruct (join "/" cs).
  assert (E : concat (map parts [(join "/" cs ++ "/")%string; c]) = cs ++ [c]).
  { cbn [map concat]. rewrite parts_dir, parts_join, parts_plains, parts_plain by done. done. }
  rewrite Join_parts; rewrite E; [|by apply Forall_app; split; [|apply Forall_singleton]|by apply snoc_nonempty].
  rewrite filter_cons_True by done. cbn [head default]. change (default ""%string (Some ?x)) with x.
  assert (Ha : IsAbs (join "/" cs ++ "/") = false).
  { pose proof (IsAbs_join cs Hcs) as H. unfold IsAbs in *. rewrite bytes_of_app. destruct (bytes_of (join "/" cs)) eqn:Eb; [|done].
    destruct Hne0. apply join_empty; [done|]. by rewrite <- (string_of_bytes_of (join "/" cs)), Eb. }
  change (id ?x) with x. by rewrite Ha.
Qed.

#[local] Abbreviation place := (below_place defaultLayoutPaths pack_extra).
Lemma relative_filename h : store_handle h ->
  Default_Filename Join (join "/" dir) h = ("" ++ join "/" ((dir ++ place h) ++ [fname h]))%string.
Proof using dir_plain.
  intros Hh. pose proof (fname_plain h Hh) as Hf. unfold Default_Filename, below_place, fname in *. case_bool_decide as Hc.
  { rewrite app_nil_r. by apply Join_one. }
  destruct Hh as [?|[Ht Hn]]; [done|]. pose proof (sub_default_plain _ Ht) as Hs.
  pose proof (pack_extra_plain h (or_intror (conj Ht Hn)) Hc) as Hx.
  assert (Hd : Default_Dirname Join (join "/" dir) h = (join "/" (dir ++ defaultLayoutPaths (h_Type h) :: pack_extra h) ++ "/")%string).
  { unfold Default_Dirname, pack_extra in *. f_equal. case_bool_decide as E; cbn [andb]; [|by apply Join_one].
    rewrite short_names by done. rewrite E in *. fold (subdir_of h). apply Forall_singleton in Hx as Hx'.
    rewrite (Join_rel _ [subdir_of h]) by (apply Forall_cons; by split).
    apply Join_below; [|by apply Forall_cons|done|].
    - cbn [map concat]. rewrite app_nil_r, parts_dir, parts_join. by apply (parts_plains [_; _]), Forall_cons.
    - change (join "/" ["data"; subdir_of h]%string ++ "/")%string with (String "d" ("ata/" ++ subdir_of h ++ "/"))%string.
      by rewrite filter_cons_True by done. }
  rewrite Hd. apply Join_dir_file; [apply Forall_app; split; [done|by apply Forall_cons]| |done].
  intros Hj. apply (f_equal length) in Hj. rewrite length_app in Hj. cbn in Hj. lia.
Qed.
#[export] Instance relative_suffix_laws : SuffixLaws (DefaultLayout Join (join "/" dir) types).
Proof using dir_plain.
  split.
  - apply (below_inj (DefaultLayout Join (join "/" dir) types) "" dir dir_plain defaultLayoutPaths pack_extra sub_default_plain sub_default_inj pack_extra_plain pack_extra_same relative_filename).
  - apply (below_suffix (DefaultLayout Join (join "/" dir) types) "" dir dir_plain defaultLayoutPaths pack_extra sub_default_plain sub_default_inj pack_extra_plain relative_filename).
Qed.
#[export] Instance relative_layout_laws : NamingLaws (DefaultLayout Join (join "/" dir) types).
Proof using dir_plain.
  apply (below_laws _ "" dir dir_plain defaultLayoutPaths pack_extra sub_default_plain sub_default_inj pack_extra_plain pack_extra_same).
  - intros h. cbn [l_Basedir DefaultLayout Default_Basedir snd]. intros Ef%bool_decide_eq_false_1. unfold pack_extra. by rewrite bool_decide_eq_false_2.
  - apply relative_filename.
  - intros t Ht. cbn [l_Basedir DefaultLayout Default_Basedir fst]. by apply Join_one, sub_default_plain.
Qed.

Lemma drop_empty_filter l : filter (fun e => e ≠ ""%string) (drop_empty l) = filter (fun e => e ≠ ""%string) l.
Proof.
  induction l as [|a l IH]; [done|]. cbn [drop_empty]. case_bool_decide as E; [|done]. rewrite IH, E.
  by rewrite filter_cons_False by (intros H; by apply H).
Qed.
Lemma no_extra_plain h : store_handle h -> h_Type h ≠ ConfigFile -> Forall plain ((fun _ : Handle => @nil string) h).
Proof. done. Qed.
Lemma legacy_filename h : store_handle h ->
  S3_Filename Join (join "/" dir) "" h = ("" ++ join "/" ((dir ++ below_place s3LayoutPaths (fun _ => []) h) ++ [fname h]))%string.
Proof using dir_plain.
  intros Hh. pose proof (fname_plain h Hh) as Hf. unfold S3_Filename. cbv zeta. fold (fname h). unfold S3_join.
  change (bool_decide (""%string = ""%string)) with true. cbn [negb]. rewrite andb_false_r. cbn [andb]. cbv zeta.
  assert (Hj : forall l, Join (drop_empty l) = Join l) by (intros l; unfold Join; by rewrite drop_empty_filter). rewrite Hj.
  f_equal. rewrite <- app_assoc. pose proof Hf as (Hne & _). unfold below_place. case_bool_decide as Hc.
  - rewrite Hc. apply Join_below; [|by apply Forall_singleton|done|].
    + cbn [map concat]. change (parts (s3LayoutPaths ConfigFile)) with (@nil string). by rewrite parts_plain by done.
    + rewrite filter_cons_False by (intros E; by apply E). rewrite filter_cons_True by done. by apply plain_nonabs.
  - destruct Hh as [?|[Ht _]]; [done|]. pose proof (sub_s3_plain _ Ht) as Hs. pose proof Hs as (Hsne & _).
    apply Join_below; [|by repeat (apply Forall_cons; split)|done|].
    + cbn [map concat]. rewrite !parts_plain by done. by rewrite app_nil_r.
    + rewrite filter_cons_True by done. by apply plain_nonabs.
Qed.
(** The same names with a slash before them: below an absolute path. *)
#[export] Instance absolute_layout_laws : NamingLaws (DefaultLayout Join (render dir) types).
Proof using dir_plain.
  apply (below_laws _ "/" dir dir_plain defaultLayoutPaths pack_extra sub_default_plain sub_default_inj pack_extra_plain pack_extra_same).
  - intros h. cbn [l_Basedir DefaultLayout Default_Basedir snd]. unfold pack_extra. intros E. by rewrite E.
  - intros h Hh. cbn [l_Filename DefaultLayout]. rewrite (default_filename dir dir_plain h Hh). unfold render, below_place, default_place, pack_extra.
    case_bool_decide; [done|]. case_bool_decide as E; [|done]. by rewrite E.
  - intros t Ht. cbn [l_Basedir DefaultLayout Default_Basedir fst]. by apply (Join_plain dir), sub_default_plain.
Qed.
#[export] Instance legacy_layout_laws : NamingLaws (S3LegacyLayout Join (join "/" dir) "" types).
Proof using dir_plain.
  apply (below_laws _ "" dir dir_plain s3LayoutPaths (fun _ => []) sub_s3_plain sub_s3_inj no_extra_plain (fun _ _ _ => eq_refl)).
  - done.
  - apply legacy_filename.
  - intros t Ht. cbn [l_Basedir S3LegacyLayout S3_Basedir fst]. by apply Join_one, sub_s3_plain.
Qed.
End object_layouts.

Lemma Join_empty_head l : Join (""%string :: l) = Join l.
Proof. unfold Join. by rewrite filter_cons_False by (intros E; by apply E). Qed.
Lemma REST_dir URL t : t ∈ file_types -> (URL ++ Join [""; "/"; defaultLayoutPaths t] ++ "/")%string = (URL ++ "/" ++ defaultLayoutPaths t ++ "/")%string.
Proof.
  intros Ht. rewrite Join_empty_head. pose proof (Join_plains [] [defaultLayoutPaths t] ltac:(done) ltac:(apply Forall_singleton; by apply sub_default_plain)) as E.
  change (render []) with "/"%string in E. rewrite E. done.
Qed.
Lemma rest_below URL types h : store_handle h -> h_Type h ≠ ConfigFile ->
  l_Filename (RESTLayout Join "" URL types) h = (with_slash (l_Dirname (RESTLayout Join "" URL types) (mkBeHandle (h_Type h) InvalidBlob "")) ++ h_Name h)%string.
Proof.
  intros Hh Hc. destruct Hh as [?|[Ht Hn]]; [done|]. pose proof (proj1 (named_plain h Hn)) as Hp. pose proof (sub_default_plain _ Ht) as Hs.
  cbn [l_Filename l_Dirname RESTLayout]. unfold REST_Filename, REST_Dirname. cbn [h_Type].
  rewrite !(bool_decide_eq_false_2 (h_Type h = ConfigFile)) by done. cbv zeta. rewrite REST_dir by done.
  assert (Hsl : with_slash (URL ++ "/" ++ defaultLayoutPaths (h_Type h) ++ "/") = (URL ++ "/" ++ defaultLayoutPaths (h_Type h) ++ "/")%string).
  { unfold with_slash. assert (He : ends_with_slash (URL ++ "/" ++ defaultLayoutPaths (h_Type h) ++ "/") = true); [|by rewrite He].
    unfold ends_with_slash. rewrite !bytes_of_app, !app_assoc. change (bytes_of "/") with [Byte.x2f]. by rewrite last_snoc, bool_decide_eq_true_2. }
  pose proof (Join_plains [] [defaultLayoutPaths (h_Type h); h_Name h] ltac:(done) ltac:(by repeat (apply Forall_cons; split))) as E.
  change (render []) with "/"%string in E. rewrite Hsl, Join_empty_head, E. unfold render. cbn [app join]. by rewrite !string_app_assoc.
Qed.
(** The files of a REST server are below its URL. *)
Lemma rest_inj URL types h h' : store_handle h -> store_handle h' ->
  l_Filename (RESTLayout Join "" URL types) h = l_Filename (RESTLayout Join "" URL types) h' <-> same_file h h'.
Proof.
  apply (below_inj _ (URL ++ "/") [] ltac:(done) defaultLayoutPaths (fun _ => []) sub_default_plain sub_default_inj no_extra_plain (fun _ _ _ => eq_refl)).
  clear h h'. intros h Hh. cbn [l_Filename RESTLayout]. pose proof (fname_plain h Hh) as Hf. pose proof Hf as (Hne & _).
  unfold REST_Filename. cbv zeta. fold (fname h). rewrite <- string_app_assoc. f_equal.
  unfold below_place. case_bool_decide as Hc.
  - rewrite Hc, Join_empty_head. change [""; fname h]%string with ([""%string] ++ [fname h]).
    pose proof (Join_plain [] (fname h) ltac:(done) Hf) as E. unfold Join in *. cbn [app] in *.
    rewrite filter_cons_True in E by done. rewrite filter_cons_True by done. by rewrite filter_cons_False by (intros E'; by apply E').
  - destruct Hh as [?|[Ht _]]; [done|]. pose proof (sub_default_plain _ Ht) as Hs. rewrite Join_empty_head.
    exact (Join_plains [] [defaultLayoutPaths (h_Type h); fname h] ltac:(done) ltac:(by repeat (apply Forall_cons; split))).
Qed.
