(* ===== verification/Store.v ===== *)
(** * Store: what a backend promises to its clients

    The contract of [restic.Backend] (src/restic/backend.go) for backends that
    keep files: a map from files to contents ([stored]), the runs of a client
    program that it allows ([spec_run]), and the laws of the single operations
    ([Implements]) from which every backend gets that all its runs are allowed
    ([implements_run]).  The backend in a local directory and the ones that
    store objects in a remote service are instances. *)

From S2P Require Import Prelude Ids Pack Backend Disk Layouts.

(** ** A map of files *)

(** The files of a repository: one content for each file, whatever the handle
    that names it. *)
Definition stored : Type := Handle -> option (list byte).
Definition update (m : stored) (h : Handle) (v : option (list byte)) : stored :=
  fun h' => if decide (same_file h h') then v else m h'.

(** The part of a reader that is not read. *)
Definition unread (rd : RewindReader) : list byte := drop (rr_pos rd) (rr_data rd).

(** The files of type [t] that the store has. *)
Definition files_of (m : stored) (t : string) (fi : FileInfo) : Prop :=
  exists h d, store_handle h /\ h_Type h = t /\ m h = Some d /\ fi = mkFileInfo (lenZ d) (h_Name h).
(** A listing calls the callback on some files, one after the other, and ends
    at the first error.  When it returns no error, no call of the callback did
    (but for errors that are [dropped]), and the callback has got every file of
    the type, with its size and name.  It may get other files that are found
    where the files of this type are. *)
Definition listing (dropped : error -> bool) (m : stored) (t : string) {U} (fn : callback FileInfo U) (u u' : U) (err : option error) : Prop :=
  exists fis r0, call_all fn fis u = (u', r0) /\ (t ∈ file_types -> err = None ->
    match r0 with Some e => dropped e = true | None => forall fi, files_of m t fi -> fi ∈ fis end).
Definition keeps_errors (_ : error) : bool := false.
Lemma listing_stopped dropped m t U (fn : callback FileInfo U) u e : listing dropped m t fn u u (Some e).
Proof. by exists [], None. Qed.
Lemma listing_failed dropped m t U (fn : callback FileInfo U) u u' fis r0 e : call_all fn fis u = (u', r0) -> listing dropped m t fn u u' (Some e).
Proof. intros H. by exists fis, r0. Qed.

(** The reader a load passes to the callback: it yields the requested bytes;
    or, when reading the file fails or the connection to the service breaks,
    some of them and then an error, never an early end. *)
Definition serves (rd : Reader) (x : list byte) : Prop :=
  (rd_bytes rd = x /\ rd_err rd = None) \/ (rd_bytes rd `prefix_of` x /\ rd_err rd ≠ None).
(** A load of the file with content [f]; the reader of a file that is not there
    may fail only when it is read. *)
Definition loads (remote : bool) (f : option (list byte)) (length_ offset : Z) (rd : Reader) : Prop :=
  match f with
  | Some d => serves rd (file_range length_ offset d)
  | None => remote = true /\ rd_bytes rd = [] /\ rd_err rd ≠ None
  end.
Lemma limited_serves f length_ offset d : (of_data f = d /\ of_rerr f = None) \/ (of_data f `prefix_of` d /\ of_rerr f ≠ None) ->
  serves (limited f length_ offset) (file_range length_ offset d).
Proof.
  intros [[<- He]|[[x ->] He]].
  - left. rewrite limited_bytes. split; [done|]. unfold limited. destruct (_ && _); [done|exact He].
  - pose proof (limited_bytes f length_ offset) as Hb. unfold limited in *. unfold file_range in *. set (o := Z.to_nat offset) in *.
    assert (Hr : (if 0 <? offset then drop o (of_data f) else of_data f) = drop o (of_data f)).
    { destruct (Z.ltb_spec 0 offset); [done|]. unfold o. by replace (Z.to_nat offset) with 0%nat by lia. }
    rewrite Hr in *. rewrite drop_app. destruct (Z.ltb_spec 0 length_); cbn [andb] in *.
    + destruct (Z.leb_spec length_ (lenZ (drop o (of_data f)))); [left; split; [|done]|right; split; [|done]]; rewrite Hb.
      * by rewrite take_app_le by lia.
      * rewrite take_app. by apply prefix_app_r.
    + right. split; [|done]. cbn [rd_bytes]. by apply prefix_app_r.
Qed.
(** The error of the callback, or else the one of closing the reader. *)
Definition or_late (err late : option error) : option error := match err with Some e => Some e | None => late end.

(** ** The runs that are allowed *)

(** Every call may fail; a save that fails has changed nothing or has saved
    the whole file; nothing else changes anything when it fails; a load runs
    the callback once, on the requested part of the file, or not at all, and
    breaks off with an error only; a listing without an error has shown every
    file of the type ([listing]).  A [remote] store is less certain: a removal
    that fails may have removed the file (the answer of the service was lost),
    a file that is not there may be found missing when it is read only, and the
    test for a file may say that there is none, because it could not be made. *)
Inductive spec_run (remote : bool) (dropped : error -> bool) {A} : prog A -> stored -> A -> stored -> Prop :=
| sp_done a m : spec_run remote dropped (Done a) m a m
| sp_save h rd k m a m' : spec_run remote dropped (k None) (update m h (Some (unread rd))) a m' -> spec_run remote dropped (DoSave h rd k) m a m'
| sp_save_failed h rd k e m a m' : spec_run remote dropped (k (Some e)) m a m' -> spec_run remote dropped (DoSave h rd k) m a m'
| sp_save_failed_late h rd k e m a m' : spec_run remote dropped (k (Some e)) (update m h (Some (unread rd))) a m' ->
    spec_run remote dropped (DoSave h rd k) m a m'
| sp_remove h k m a m' : spec_run remote dropped (k None) (update m h None) a m' -> spec_run remote dropped (DoRemove h k) m a m'
| sp_remove_failed h k e m a m' : spec_run remote dropped (k (Some e)) m a m' -> spec_run remote dropped (DoRemove h k) m a m'
| sp_remove_failed_late h k e m a m' : remote = true -> spec_run remote dropped (k (Some e)) (update m h None) a m' ->
    spec_run remote dropped (DoRemove h k) m a m'
| sp_load U h length_ offset (fn : callback Reader U) u k rd late m a m' : 0 <= offset ->
    loads remote (m h) length_ offset rd ->
    spec_run remote dropped (k (fn rd u).1 (or_late (fn rd u).2 late)) m a m' -> spec_run remote dropped (DoLoad h length_ offset fn u k) m a m'
| sp_load_failed U h length_ offset (fn : callback Reader U) u k e m a m' :
    spec_run remote dropped (k u (Some e)) m a m' -> spec_run remote dropped (DoLoad h length_ offset fn u k) m a m'
| sp_stat h k d m a m' : m h = Some d -> spec_run remote dropped (k (mkFileInfo (lenZ d) (h_Name h), None)) m a m' ->
    spec_run remote dropped (DoStat h k) m a m'
| sp_stat_failed h k fi e m a m' : spec_run remote dropped (k (fi, Some e)) m a m' -> spec_run remote dropped (DoStat h k) m a m'
| sp_test h k m a m' : spec_run remote dropped (k (bool_decide (is_Some (m h)), None)) m a m' -> spec_run remote dropped (DoTest h k) m a m'
| sp_test_failed h k has e m a m' : spec_run remote dropped (k (has, Some e)) m a m' -> spec_run remote dropped (DoTest h k) m a m'
| sp_test_unsure h k m a m' : remote = true -> spec_run remote dropped (k (false, None)) m a m' -> spec_run remote dropped (DoTest h k) m a m'
| sp_list U t (fn : callback FileInfo U) u u' k err m a m' : listing dropped m t fn u u' err ->
    spec_run remote dropped (k u' err) m a m' -> spec_run remote dropped (DoList t fn u k) m a m'.

(** A program that uses the handles of a repository, and saves and loads of
    some kind only. *)
Fixpoint prog_ok (save_ok : RewindReader -> Prop) (load_ok : Z -> Z -> Prop) {A} (p : prog A) : Prop :=
  match p with
  | Done _ => True
  | DoSave h rd k => (store_handle h /\ save_ok rd) /\ forall r, prog_ok save_ok load_ok (k r)
  | DoRemove h k => store_handle h /\ forall r, prog_ok save_ok load_ok (k r)
  | DoLoad h length_ offset _ _ k => (store_handle h /\ load_ok length_ offset) /\ forall u r, prog_ok save_ok load_ok (k u r)
  | DoStat h k => store_handle h /\ forall r, prog_ok save_ok load_ok (k r)
  | DoTest h k => store_handle h /\ forall r, prog_ok save_ok load_ok (k r)
  | DoList _ _ _ k => forall u r, prog_ok save_ok load_ok (k u r)
  end.
Definition any_save (_ : RewindReader) : Prop := True.
Definition any_load (_ _ : Z) : Prop := True.

(** ** What the operations of a backend promise *)

Class Implements {S} (be : Backend S) (represents : S -> stored -> Prop) (remote : bool) (dropped : error -> bool)
    (save_ok : RewindReader -> Prop) (load_ok : Z -> Z -> Prop) : Prop := {
  im_save h rd s m s' rd' r : store_handle h -> save_ok rd -> represents s m -> be_Save be false h rd s = (s', rd', r) ->
    represents s' (update m h (Some (unread rd))) \/ (r ≠ None /\ represents s' m);
  im_remove h s m s' r : store_handle h -> represents s m -> be_Remove be false h s = (s', r) ->
    (represents s' (update m h None) /\ (r = None \/ remote = true)) \/ (r ≠ None /\ represents s' m);
  im_load U h length_ offset (fn : callback Reader U) u s m s' u' r : store_handle h -> load_ok length_ offset -> represents s m ->
    be_Load be false h length_ offset fn u s = (s', u', r) ->
    represents s' m /\ ((u' = u /\ r ≠ None)
      \/ exists rd late, 0 <= offset /\ loads remote (m h) length_ offset rd
          /\ u' = (fn rd u).1 /\ r = or_late (fn rd u).2 late);
  im_stat h s m s' fi r : store_handle h -> represents s m -> be_Stat be false h s = (s', (fi, r)) ->
    represents s' m /\ (r = None -> exists d, m h = Some d /\ fi = mkFileInfo (lenZ d) (h_Name h));
  im_test h s m s' has r : store_handle h -> represents s m -> be_Test be false h s = (s', (has, r)) ->
    represents s' m /\ (r = None -> has = bool_decide (is_Some (m h)) \/ (remote = true /\ has = false));
  im_list U t (fn : callback FileInfo U) u s m s' u' r : represents s m -> be_List be false t fn u s = (s', u', r) ->
    represents s' m /\ listing dropped m t fn u u' r;
}.

Section runs.
Context {S : Type} {be : Backend S} {represents : S -> stored -> Prop} {remote : bool} {dropped : error -> bool}.
Context {save_ok : RewindReader -> Prop} {load_ok : Z -> Z -> Prop} {IM : Implements be represents remote dropped save_ok load_ok}.

(** Every run of a program on the backend is a run of the store. *)
Lemma implements_run {A} (p : prog A) s m : prog_ok save_ok load_ok p -> represents s m ->
  exists m', spec_run remote dropped p m (run be p s).2 m' /\ represents (run be p s).1 m'.
Proof using IM.
  revert s m.
  induction p as [a|h rd k IH|h k IH|U h l o fn u k IH|h k IH|h k IH|U t fn u k IH]; intros s m Hp Hm; cbn [run].
  - exists m. split; [constructor|done].
  - destruct Hp as [[Hh Hs] Hk]. destruct (be_Save be false h rd s) as [[s1 rd1] r] eqn:E.
    destruct (im_save h rd s m s1 rd1 r Hh Hs Hm E) as [Hm1|[Hr Hm1]]; destruct (IH r s1 _ (Hk _) Hm1) as (m' & H1 & H2);
      exists m'; (split; [|done]).
    + destruct r as [e|]; [by eapply sp_save_failed_late|by apply sp_save].
    + destruct r as [e|]; [by eapply sp_save_failed|done].
  - destruct Hp as [Hh Hk]. destruct (be_Remove be false h s) as [s1 r] eqn:E.
    destruct (im_remove h s m s1 r Hh Hm E) as [[Hm1 Hr]|[Hr Hm1]]; destruct (IH r s1 _ (Hk _) Hm1) as (m' & H1 & H2);
      exists m'; (split; [|done]); destruct r as [e|].
    + eapply sp_remove_failed_late; [|done]. by destruct Hr.
    + by apply sp_remove.
    + by eapply sp_remove_failed.
    + done.
  - destruct Hp as [[Hh Hl] Hk]. destruct (be_Load be false h l o fn u s) as [[s1 u1] r] eqn:E.
    destruct (im_load U h l o fn u s m s1 u1 r Hh Hl Hm E) as [Hm1 HL]. destruct (IH u1 r s1 m (Hk _ _) Hm1) as (m' & H1 & H2).
    exists m'. split; [|done]. destruct HL as [[-> Hr]|(rd & late & Ho & Hs & -> & ->)].
    + destruct r as [e|]; [by eapply sp_load_failed|done].
    + by eapply sp_load.
  - destruct Hp as [Hh Hk]. destruct (be_Stat be false h s) as [s1 [fi r]] eqn:E.
    destruct (im_stat h s m s1 fi r Hh Hm E) as [Hm1 HL]. destruct (IH (fi, r) s1 m (Hk _) Hm1) as (m' & H1 & H2).
    exists m'. split; [|done]. destruct r as [e|]; [by eapply sp_stat_failed|].
    destruct (HL eq_refl) as (d & Hd & ->). by eapply sp_stat.
  - destruct Hp as [Hh Hk]. destruct (be_Test be false h s) as [s1 [has r]] eqn:E.
    destruct (im_test h s m s1 has r Hh Hm E) as [Hm1 HL]. destruct (IH (has, r) s1 m (Hk _) Hm1) as (m' & H1 & H2).
    exists m'. split; [|done]. destruct r as [e|]; [by eapply sp_test_failed|].
    destruct (HL eq_refl) as [-> |[Hr ->]]; [by apply sp_test|by apply sp_test_unsure].
  - destruct (be_List be false t fn u s) as [[s1 u1] r] eqn:E. destruct (im_list U t fn u s m s1 u1 r Hm E) as [Hm1 HL].
    destruct (IH u1 r s1 m (Hp _ _) Hm1) as (m' & H1 & H2). exists m'. split; [by eapply sp_list|done].
Qed.
End runs.
