(* ===== verification/Selfupdate.v ===== *)
(** * Selfupdate: replacing the program by a new release

    src/internal/selfupdate: the latest release is looked up, its list of
    hashes and the signature of the list are downloaded, then the archive for
    this system, which replaces the program if its hash is in the list.  The
    web, the signature check, SHA-256 and the archive formats are parameters;
    the files of the system are a [Disk].  Messages that are printed and the
    timeout of the first request are left out. *)

From Stdlib Require Import Strings.Byte.
From S2P Require Import Prelude Ids Duration Backend Trees Paths FileInfo Disk Url.
#[local] Open Scope Z_scope.
#[local] Open Scope io_scope.

(** ** Releases (src/internal/selfupdate/github.go) *)

Record Asset : Type := mkAsset { as_ID : Z; as_Name : string; as_URL : string }.
Record Release : Type := mkRelease {
  re_Name : string; re_TagName : string; re_Draft : bool; re_PreRelease : bool; re_PublishedAt : Time;
  re_Assets : list Asset; re_Version : string;
}.
Definition with_Version (r : Release) (v : string) : Release :=
  mkRelease (re_Name r) (re_TagName r) (re_Draft r) (re_PreRelease r) (re_PublishedAt r) (re_Assets r) v.

Record WebResponse : Type := mkWeb { w_StatusCode : Z; w_ContentType : string; w_Body : Reader }.

(** The web and the calls of the system that [Disk] does not have. *)
Class Update (F : Type) : Type := {
  (** a GET request with its Accept header *)
  web_Do : string -> string -> F -> F * (WebResponse + error);
  web_bad_request : string -> option error;
  (** [OpenFile] with [O_CREATE|O_EXCL|O_WRONLY] and a mode *)
  os_OpenFile : string -> Z -> F -> F * option error;
}.
Class UpdateLaws {F} `{DF : Disk F} `{UF : Update F} (files : F -> string -> option (list byte)) : Prop := {
  web_files url accept s s' r q : web_Do url accept s = (s', r) -> files s' q = files s q;
  lstat_files p s s' r q : os_Lstat p s = (s', r) -> files s' q = files s q;
  openfile_frame p q mode s s' r : os_OpenFile p mode s = (s', r) -> q ≠ p -> files s' q = files s q;
  openfile_ok p mode s s' : os_OpenFile p mode s = (s', None) -> files s' p = Some [];
}.

(** [ioutil.ReadAll] and [Close] of the body. *)
Definition read_body {F} (rd : Reader) : io F (list byte) :=
  match rd_err rd with
  | Some e => io_err e
  | None => match rd_close rd with Some e => io_err e | None => io_ret (rd_bytes rd) end
  end.

Definition StatusOK : Z := 200.
Fixpoint has_infix (sub l : list byte) : bool :=
  starts sub l || match l with [] => false | _ :: l => has_infix sub l end.
Definition HasSuffix (s suffix : string) : bool := starts (rev (bytes_of suffix)) (rev (bytes_of s)).

Section github.
Context {F : Type} `{UF : Update F}.
(** The JSON of a release and of an error message *)
Context (unmarshal : list byte -> Release + error) (error_message : Reader -> option string).

Definition GitHubLatestRelease (owner repo : string) : io F Release :=
  let url := ("https://api.github.com/repos/" ++ owner ++ "/" ++ repo ++ "/releases/latest")%string in
  match web_bad_request url with
  | Some e => io_err e
  | None =>
      res <-- try (web_Do url "application/vnd.github.v3+json");
      if bool_decide (w_StatusCode res ≠ StatusOK) then
        match (if has_infix (bytes_of "application/json") (bytes_of (w_ContentType res)) then error_message (w_Body res) else None) with
        | Some msg => io_err (EMsg ("unexpected status returned, message: " ++ msg))
        | None => io_err (EMsg "unexpected status returned")
        end
      else
        buf <-- read_body (w_Body res);
        match unmarshal buf with
        | inr e => io_err e
        | inl release =>
            if bool_decide (re_TagName release = ""%string) then io_err (EMsg "tag name for latest release is empty")
            else match bytes_of (re_TagName release) with
                 | Byte.x76 :: version => io_ret (with_Version release (string_of version))
                 | _ => io_err (EMsg "tag name is invalid, does not start with 'v'")
                 end
        end
  end.

Definition getGithubData (url : string) : io F (list byte) :=
  match web_bad_request url with
  | Some e => io_err e
  | None =>
      res <-- try (web_Do url "application/octet-stream");
      if bool_decide (w_StatusCode res ≠ StatusOK) then io_err (EMsg "unexpected status returned")
      else read_body (w_Body res)
  end.

(** The loop ends at the first asset with the suffix. *)
Fixpoint find_asset (assets : list Asset) (suffix : string) : string * string :=
  match assets with
  | [] => (""%string, ""%string)
  | a :: assets => if HasSuffix (as_Name a) suffix then (as_URL a, as_Name a) else find_asset assets suffix
  end.
Definition getGithubDataFile (assets : list Asset) (suffix : string) : io F (string * list byte) :=
  let '(url, filename) := find_asset assets suffix in
  if bool_decide (url = ""%string) then io_err (EMsg ("unable to find file with suffix " ++ suffix))
  else
    data <-- getGithubData url;
    io_ret (filename, data).
End github.

(** ** Downloading (src/internal/selfupdate/download.go, verify.go) *)

(** [bufio.Scanner] over lines: without their end ["\n"] or ["\r\n"], up to the
    first line that is too long for its buffer. *)
Definition MaxScanTokenSize : Z := 64 * 1024.
Definition dropCR (rcur : list byte) : list byte := match rcur with Byte.x0d :: rcur => rcur | _ => rcur end.
Fixpoint scan_lines (rcur l : list byte) : list (list byte) :=
  if MaxScanTokenSize <=? lenZ rcur then []
  else match l with
       | [] => if bool_decide (rcur = []) then [] else [rev (dropCR rcur)]
       | Byte.x0a :: l => rev (dropCR rcur) :: scan_lines [] l
       | c :: l => scan_lines (c :: rcur) l
       end.
(** [strings.Split] at two spaces. *)
Fixpoint split_spaces (l : list byte) : list (list byte) :=
  match l with
  | [] => [[]]
  | c :: l' =>
      let next := match split_spaces l' with w :: ws => (c :: w) :: ws | [] => [[c]] end in
      match l' with
      | c' :: l'' => if Byte.eqb c Byte.x20 && Byte.eqb c' Byte.x20 then [] :: split_spaces l'' else next
      | [] => next
      end
  end.

Fixpoint find_line (lines : list (list byte)) (filename : string) : res error (list byte) :=
  match lines with
  | [] => Err (EMsg ("hash for file " ++ filename ++ " not found"))
  | line :: lines =>
      match split_spaces line with
      | [hash; name] =>
          if bool_decide (name = bytes_of filename) then
            match Hex.Decode hash with Ok h => Ok h | Err _ => Err (EMsg "encoding/hex") | Panic msg => Panic msg end
          else find_line lines filename
      | _ => find_line lines filename
      end
  end.
Definition findHash (buf : list byte) (filename : string) : res error (list byte) := find_line (scan_lines [] buf) filename.

(** [filepath.Ext] *)
Fixpoint ext_back (r acc : list byte) : list byte :=
  match r with
  | [] => []
  | Byte.x2f :: _ => []
  | Byte.x2e :: _ => Byte.x2e :: acc
  | c :: r => ext_back r (c :: acc)
  end.
Definition Ext (path : string) : string := string_of (ext_back (rev (bytes_of path)) []).

Section download.
Context {F : Type} `{DF : Disk F} `{UF : Update F}.
Context (unmarshal : list byte -> Release + error) (error_message : Reader -> option string).
(** The key ring in the program's source, and the signature check of the
    library; SHA-256; readers of archives, a ZIP archive as its files. *)
Context {Keyring : Type} (ReadArmoredKeyRing : Keyring + error) (CheckArmoredDetachedSignature : Keyring -> list byte -> list byte -> option error).
Context (Sum256 : list byte -> list byte) (bzip2 : list byte -> Reader) (zip : list byte -> list (Reader + error) + error).
Context (GOOS GOARCH : string).

Definition GPGVerify (data sig : list byte) : bool * option error :=
  match ReadArmoredKeyRing with
  | inr e => (false, Some e)
  | inl keyring =>
      match CheckArmoredDetachedSignature keyring data sig with
      | Some e => (false, Some e)
      | None => (true, None)
      end
  end.

(** The reader of what an archive holds. *)
Definition open_archive (buf : list byte) (filename : string) : Reader + error :=
  let ext := Ext filename in
  if bool_decide (ext = ".bz2"%string) then inl (bzip2 buf)
  else if bool_decide (ext = ".zip"%string) then
    match zip buf with
    | inr e => inr e
    | inl [file] => file
    | inl _ => inr (EMsg "ZIP archive contains more than one file")
    end
  else inl (mkReader buf None None).

Definition extractToFile (buf : list byte) (filename target : string) : io F unit :=
  fi <-- sys (os_Lstat target);
  let mode := match fi with inl fi => oi_Mode fi | inr _ => 0x1ed end in
  match open_archive buf filename with
  | inr e => io_err e
  | inl rd =>
      err <-- sys (os_Remove target);
      match (match err with Some e => if is_not_exist e then None else Some e | None => None end) with
      | Some e => io_err (EWrap "unable to remove target file" e)
      | None =>
          check (os_OpenFile target mode);;
          r <-- sys (os_Copy target rd);
          match r with
          | (_, Some e) => sys (os_Close target);; sys (os_Remove target);; io_err e
          | (_, None) => check (os_Close target)
          end
      end
  end.

Definition DownloadLatestStableRelease (target currentVersion : string) : io F string :=
  rel <-- GitHubLatestRelease unmarshal error_message "restic" "restic";
  if bool_decide (re_Version rel = currentVersion) then io_ret currentVersion
  else
    sums <-- getGithubDataFile (re_Assets rel) "SHA256SUMS";
    sig <-- getGithubDataFile (re_Assets rel) "SHA256SUMS.asc";
    match GPGVerify sums.2 sig.2 with
    | (_, Some e) => io_err e
    | (false, None) => io_err (EMsg "GPG signature verification of the file SHA256SUMS failed")
    | (true, None) =>
        let ext := (if bool_decide (GOOS = "windows") then "zip" else "bz2")%string in
        let suffix := (GOOS ++ "_" ++ GOARCH ++ "." ++ ext)%string in
        file <-- getGithubDataFile (re_Assets rel) suffix;
        wantHash <-- io_res (findHash sums.2 file.1);
        if negb (bool_decide (wantHash = Sum256 file.2)) then io_err (EMsg "SHA256 hash mismatch")
        else
          extractToFile file.2 file.1 target;;
          io_ret (re_Version rel)
    end.
End download.

(** ** The lines of the list of hashes *)

Lemma split_spaces_cons c c' l : split_spaces (c :: c' :: l) =
  if Byte.eqb c Byte.x20 && Byte.eqb c' Byte.x20 then [] :: split_spaces l
  else match split_spaces (c' :: l) with w :: ws => (c :: w) :: ws | [] => [[c]] end.
Proof. done. Qed.
Lemma split_spaces_nonempty l : split_spaces l ≠ [].
Proof.
  destruct l as [|c [|c' l]]; [done|done|]. rewrite split_spaces_cons. destruct (_ && _); [done|]. by destruct (split_spaces (c' :: l)).
Qed.
Lemma split_spaces_single n : forall l a, (length l <= n)%nat -> split_spaces l = [a] -> l = a.
Proof.
  induction n as [|n IH]; intros l a Hl; [destruct l; cbn in *; [by intros [= <-]|lia]|].
  destruct l as [|c l']; [by intros [= <-]|]. cbn [length] in Hl. pose proof (split_spaces_nonempty l') as Hne.
  assert (Hnext : (match split_spaces l' with w :: ws => (c :: w) :: ws | [] => [[c]] end) = [a] -> c :: l' = a).
  { destruct (split_spaces l') as [|w [|? ?]] eqn:E; [done| |done]. intros [= <-]. f_equal. apply IH; [lia|done]. }
  destruct l' as [|c' l'']; [exact Hnext|]. rewrite split_spaces_cons. destruct (_ && _); [|exact Hnext].
  intros [= _ HE]. by destruct (split_spaces_nonempty l'').
Qed.
(** A line that splits in two is the two parts with two spaces between. *)
Lemma split_spaces_pair l : forall a b, split_spaces l = [a; b] -> l = a ++ [Byte.x20; Byte.x20] ++ b.
Proof.
  induction l as [|c l' IH]; intros a b; [done|].
  assert (Hnext : (match split_spaces l' with w :: ws => (c :: w) :: ws | [] => [[c]] end) = [a; b] -> c :: l' = a ++ [Byte.x20; Byte.x20] ++ b).
  { destruct (split_spaces l') as [|w ws] eqn:E; [done|]. intros [= <- ->]. cbn. f_equal. by apply IH. }
  destruct l' as [|c' l'']; [exact Hnext|]. rewrite split_spaces_cons. destruct (Byte.eqb c _ && _) eqn:Ec; [|exact Hnext].
  apply andb_true_iff in Ec as [->%Byte.byte_dec_bl ->%Byte.byte_dec_bl]. intros [= <- Hb]. cbn. by rewrite (split_spaces_single _ l'' b (le_n _) Hb).
Qed.

(** [hash] is listed for a file in the text of a list of hashes. *)
Definition listed (sums : list byte) (filename : string) (hash : list byte) : Prop :=
  exists hex, hex ++ [Byte.x20; Byte.x20] ++ bytes_of filename ∈ scan_lines [] sums /\ Hex.Decode hex = Ok hash.
Lemma findHash_listed buf filename h : findHash buf filename = Ok h -> listed buf filename h.
Proof.
  unfold findHash, listed. induction (scan_lines [] buf) as [|line lines IH]; [done|]. cbn [find_line].
  assert (Hnext : find_line lines filename = Ok h -> exists hex, hex ++ [Byte.x20; Byte.x20] ++ bytes_of filename ∈ line :: lines /\ Hex.Decode hex = Ok h).
  { intros (hex & H1 & H2)%IH. exists hex. split; [by apply elem_of_cons; right|done]. }
  destruct (split_spaces line) as [|hash [|name [|? ?]]] eqn:E; try exact Hnext. case_bool_decide as Hn; [|exact Hnext].
  apply split_spaces_pair in E as ->. subst name. destruct (Hex.Decode hash) as [x|e|msg] eqn:Eh; [|done|done].
  intros [= <-]. exists hash. split; [apply elem_of_cons; by left|done].
Qed.

Lemma find_asset_suffix assets suffix url name : find_asset assets suffix = (url, name) -> url ≠ ""%string -> HasSuffix name suffix = true.
Proof.
  induction assets as [|a assets IH]; cbn; [by intros [= <- <-]|]. destruct (HasSuffix (as_Name a) suffix) eqn:E; [by intros [= <- <-]|done].
Qed.

(** ** What an update changes *)

Section verified.
Context {F : Type} {DF : Disk F} {UF : Update F} (files : F -> string -> option (list byte)) {L : DiskLaws files} {LU : UpdateLaws files}.
Context (unmarshal : list byte -> Release + error) (error_message : Reader -> option string).
Context {Keyring : Type} (ReadArmoredKeyRing : Keyring + error) (CheckArmoredDetachedSignature : Keyring -> list byte -> list byte -> option error).
Context (Sum256 : list byte -> list byte) (bzip2 : list byte -> Reader) (zip : list byte -> list (Reader + error) + error).
Context (GOOS GOARCH : string).

(** Code that leaves all files as they are. *)
Definition keeps {A} (m : io F A) : Prop := forall s s' r, m s = (s', r) -> forall q, files s' q = files s q.
Lemma keeps_ret {A} (a : A) : keeps (io_ret a).
Proof. by intros s s' r [= <- _]. Qed.
Lemma keeps_err {A} e : keeps (@io_err F A e).
Proof. by intros s s' r [= <- _]. Qed.
Lemma keeps_bind {A B} (m : io F A) (f : A -> io F B) : keeps m -> (forall a, keeps (f a)) -> keeps (io_bind m f).
Proof.
  intros Hm Hf s s' r. unfold io_bind. destruct (m s) as [s1 [a|e|msg]] eqn:E; [|by intros [= <- _]; eapply Hm..].
  intros Hr q. rewrite (Hf _ _ _ _ Hr q). by eapply Hm.
Qed.
Lemma keeps_web url accept : keeps (try (web_Do url accept)).
Proof. intros s s' r. unfold try. destruct (web_Do url accept s) as [s1 [a|e]] eqn:E; intros [= <- _] q; by eapply web_files. Qed.
Lemma keeps_body rd : keeps (read_body rd).
Proof. unfold read_body. destruct (rd_err rd); [apply keeps_err|]. destruct (rd_close rd); [apply keeps_err|apply keeps_ret]. Qed.
#[local] Hint Resolve keeps_ret keeps_err keeps_web keeps_body : keeps.

Lemma keeps_release owner repo : keeps (GitHubLatestRelease unmarshal error_message owner repo).
Proof using LU.
  unfold GitHubLatestRelease. destruct (web_bad_request _); [auto with keeps|]. apply keeps_bind; [auto with keeps|]. intros res.
  case_bool_decide; [destruct (if has_infix _ _ then _ else _); auto with keeps|]. apply keeps_bind; [auto with keeps|]. intros buf.
  destruct (unmarshal buf) as [release|e]; [|auto with keeps]. case_bool_decide; [auto with keeps|].
  destruct (bytes_of (re_TagName release)) as [|c ?]; [auto with keeps|]. destruct c; auto with keeps.
Qed.
Lemma keeps_file assets suffix : keeps (getGithubDataFile assets suffix).
Proof using LU.
  unfold getGithubDataFile. destruct (find_asset assets suffix) as [url filename]. case_bool_decide; [auto with keeps|].
  apply keeps_bind; [|auto with keeps]. unfold getGithubData. destruct (web_bad_request url); [auto with keeps|].
  apply keeps_bind; [auto with keeps|]. intros res. case_bool_decide; auto with keeps.
Qed.
Lemma file_suffix assets suffix s s' x : getGithubDataFile assets suffix s = (s', Ok x) -> HasSuffix x.1 suffix = true.
Proof.
  unfold getGithubDataFile. destruct (find_asset assets suffix) as [url filename] eqn:E. case_bool_decide as Hu; [done|].
  unfold io_bind. destruct (getGithubData url s) as [s1 [d|e|msg]]; [|done..]. intros [= _ <-]. by eapply find_asset_suffix.
Qed.

(** The file with the program is the only one that changes; when nothing
    failed it is what the archive holds. *)
Lemma extractToFile_spec buf filename target s s' r : extractToFile bzip2 zip buf filename target s = (s', r) ->
  (forall q, q ≠ target -> files s' q = files s q)
  /\ (r = Ok tt -> exists rd, open_archive bzip2 zip buf filename = inl rd /\ rd_err rd = None /\ files s' target = Some (rd_bytes rd)).
Proof using L LU.
  unfold extractToFile, io_bind, sys, check. destruct (os_Lstat target s) as [s1 fi] eqn:E1. pose proof (fun q => lstat_files _ _ _ _ q E1) as F1.
  destruct (open_archive bzip2 zip buf filename) as [rd|e]; [|intros [= <- <-]; split; [auto|done]].
  destruct (os_Remove target s1) as [s2 err] eqn:E2.
  assert (F2 : forall q, q ≠ target -> files s2 q = files s q) by (intros q Hq; rewrite <- F1; by eapply remove_frame_).
  destruct (match err with Some e => if is_not_exist e then None else Some e | None => None end); [intros [= <- <-]; split; [auto|done]|].
  destruct (os_OpenFile target _ s2) as [s3 [e|]] eqn:E3;
    (assert (F3 : forall q, q ≠ target -> files s3 q = files s q) by (intros q Hq; rewrite <- F2 by done; by eapply openfile_frame));
    [intros [= <- <-]; split; [auto|done]|].
  destruct (os_Copy target rd s3) as [s4 [n [e|]]] eqn:E4;
    (assert (F4 : forall q, q ≠ target -> files s4 q = files s q) by (intros q Hq; rewrite <- F3 by done; by eapply copy_frame)).
  - destruct (os_Close target s4) as [s5 ?] eqn:E5, (os_Remove target s5) as [s6 ?] eqn:E6. intros [= <- <-]. split; [|done].
    intros q Hq. rewrite <- F4, <- (close_files _ _ _ _ q E5) by done. by eapply remove_frame_.
  - destruct (os_Close target s4) as [s5 [e|]] eqn:E5; intros [= <- <-]; (split; [intros q Hq; rewrite <- F4 by done; by eapply close_files|]); [done|].
    intros _. exists rd. destruct (copy_ok _ _ _ _ _ E4 (openfile_ok _ _ _ _ E3)) as (F5 & _ & He). split; [done|]. split; [done|].
    by rewrite (close_files _ _ _ _ target E5).
Qed.

Lemma keeps_bind_inv {A B} (m : io F A) (f : A -> io F B) s s' r : keeps m -> io_bind m f s = (s', r) ->
  (exists s1 a, m s = (s1, Ok a) /\ (forall q, files s1 q = files s q) /\ f a s1 = (s', r))
  \/ ((forall q, files s' q = files s q) /\ forall v, r ≠ Ok v).
Proof.
  intros Hm. unfold io_bind. destruct (m s) as [s1 [a|e|msg]] eqn:E; [intros Hf; left; exists s1, a; split_and!; [done| |done]; by eapply Hm|..];
    intros [= <- <-]; right; (split; [by eapply Hm|done]).
Qed.

(** C24: Updating the program changes no file but the program, and the program
    only when the signature of a list of hashes was checked with the built-in
    key and the SHA-256 hash of the downloaded archive for this system is in
    this list.  It then ends without an error only when the file of the program
    is what the archive holds; otherwise, an update without an error is one
    that had nothing to do. *)
Theorem self_update_verified target currentVersion s s' r :
  DownloadLatestStableRelease unmarshal error_message ReadArmoredKeyRing CheckArmoredDetachedSignature Sum256 bzip2 zip GOOS GOARCH
    target currentVersion s = (s', r) ->
  (forall q, q ≠ target -> files s' q = files s q)
  /\ ((files s' target = files s target /\ forall v, r = Ok v -> v = currentVersion)
      \/ exists keyring sums sig filename buf,
           ReadArmoredKeyRing = inl keyring /\ CheckArmoredDetachedSignature keyring sums sig = None
           /\ listed sums filename (Sum256 buf) /\ HasSuffix filename (GOOS ++ "_" ++ GOARCH ++ (if bool_decide (GOOS = "windows") then ".zip" else ".bz2")) = true
           /\ forall v, r = Ok v -> exists rd, open_archive bzip2 zip buf filename = inl rd /\ rd_err rd = None /\ files s' target = Some (rd_bytes rd)).
Proof using L LU.
  unfold DownloadLatestStableRelease. set (suffix := (GOOS ++ "_" ++ GOARCH ++ "." ++ _)%string).
  assert (Hsuf : suffix = (GOOS ++ "_" ++ GOARCH ++ (if bool_decide (GOOS = "windows") then ".zip" else ".bz2"))%string)
    by (unfold suffix; by case_bool_decide).
  match goal with |- _ -> ?G => assert (stop : (forall q, files s' q = files s q) -> (forall v, r = Ok v -> v = currentVersion) -> G)
    by (intros Hs Hr; split; [by intros q _|left; by split]) end.
  intros [(s1 & rel & E1 & F1 & HE)|[Hs Hr]]%keeps_bind_inv; [|by apply stop; [|intros v Hv; destruct (Hr v)]|apply keeps_release].
  case_bool_decide; [injection HE as <- <-; apply stop; [done|by intros v [= <-]]|].
  apply keeps_bind_inv in HE as [(s2 & sums & E2 & F2 & HE)|[Hs Hr]];
    [|by apply stop; [intros q; by rewrite Hs, F1|intros v Hv; destruct (Hr v)]|apply keeps_file].
  apply keeps_bind_inv in HE as [(s3 & sig & E3 & F3 & HE)|[Hs Hr]];
    [|by apply stop; [intros q; by rewrite Hs, F2, F1|intros v Hv; destruct (Hr v)]|apply keeps_file].
  assert (F4 : forall q, files s3 q = files s q) by (intros q; by rewrite F3, F2, F1).
  unfold GPGVerify in HE. destruct ReadArmoredKeyRing as [keyring|e] eqn:Ek; [|injection HE as <- <-; by apply stop].
  destruct (CheckArmoredDetachedSignature keyring sums.2 sig.2) eqn:Eg; [injection HE as <- <-; by apply stop|].
  apply keeps_bind_inv in HE as [(s4 & file & E4 & F5 & HE)|[Hs Hr]];
    [|by apply stop; [intros q; by rewrite Hs, F4|intros v Hv; destruct (Hr v)]|apply keeps_file].
  assert (F6 : forall q, files s4 q = files s q) by (intros q; by rewrite F5, F4).
  unfold io_bind at 1, io_res in HE. destruct (findHash sums.2 file.1) as [h|e|msg] eqn:Eh; [|injection HE as <- <-; by apply stop..].
  case_bool_decide as Hh; cbn [negb] in HE; [|injection HE as <- <-; by apply stop].
  unfold io_bind in HE. destruct (extractToFile _ _ _ _ _ s4) as [s5 r5] eqn:E5. apply extractToFile_spec in E5 as [F7 H7].
  assert (s' = s5 /\ forall v, r = Ok v -> r5 = Ok tt) as [-> Hr] by (destruct r5 as [[]|?|?]; injection HE as <- <-; by split).
  split; [intros q Hq; by rewrite F7, F6|]. right. exists keyring, sums.2, sig.2, file.1, file.2. split; [done|]. split; [done|].
  split; [apply findHash_listed; by rewrite Eh, Hh|]. split; [rewrite <- Hsuf; by eapply file_suffix|]. intros v Hv. apply H7. by eapply Hr.
Qed.
End verified.

(** ** A release in memory *)

Section memory.
Context (pages : list (string * list byte)).
Definition memory_Do (url : string) (s : gmap string (list byte)) : gmap string (list byte) * (WebResponse + error) :=
  (s, match list_find (fun p => p.1 = url) pages with
      | Some (_, (_, data)) => inl (mkWeb 200 "application/json" (mkReader data None None))
      | None => inl (mkWeb 404 "text/plain" (mkReader [] None None))
      end).
Definition memory_update : Update (gmap string (list byte)) := {|
  web_Do url _ s := memory_Do url s; web_bad_request _ := None; os_OpenFile p _ s := os_Create p s |}.
Lemma memory_laws : @UpdateLaws _ toy_disk memory_update toy_files.
Proof.
  split; cbn [web_Do os_OpenFile os_Lstat os_Create memory_update toy_disk]; unfold toy_files.
  - by intros url accept s s' r q [= <- _].
  - by intros p s s' r q [= <- _].
  - intros p q mode s s' r. destruct (s !! p); intros [= <- _] Hq; [done|by apply lookup_insert_ne].
  - intros p mode s s'. destruct (s !! p); [done|]. intros [= <-]. apply lookup_insert_eq.
Qed.
End memory.

Definition new_archive : list byte := [Byte.x61; Byte.x62].
Definition new_program : list byte := [Byte.x01; Byte.x02; Byte.x03].
Definition release_pages : list (string * list byte) := [
  ("https://api.github.com/repos/restic/restic/releases/latest", []);
  ("/sums", bytes_of "00  other.bz2" ++ [Byte.x0a] ++ bytes_of "6162  restic_linux_amd64.bz2" ++ [Byte.x0a]);
  ("/sig", [Byte.x07]); ("/archive", new_archive)].
Definition release_data : Release := mkRelease "restic 1" "v1" false false zeroTime
  [mkAsset 1 "SHA256SUMS" "/sums"; mkAsset 2 "SHA256SUMS.asc" "/sig"; mkAsset 3 "restic_linux_amd64.bz2" "/archive"] "".
Definition old_files : gmap string (list byte) := {[ "/bin/restic" := [Byte.x00]; "/etc/passwd" := [Byte.x09] ]}.
Definition memory_run (archive : Reader) : gmap string (list byte) * res error string :=
  @DownloadLatestStableRelease _ toy_disk (memory_update release_pages) (fun _ => inl release_data) (fun _ => None) unit (inl tt)
    (fun _ _ sig => if bool_decide (sig = [Byte.x07]) then None else Some EEOF) (fun data => data) (fun _ => archive) (fun _ => inl [])
    "linux" "amd64" "/bin/restic" "0.9" old_files.
Lemma memory_run_result : (memory_run (mkReader new_program None None)).2 = Ok "1"%string.
Proof. vm_compute. reflexivity. Qed.
Lemma linux_ext filename : HasSuffix filename "linux_amd64.bz2" = true -> Ext filename = ".bz2"%string.
Proof.
  unfold HasSuffix, starts, Ext. intros H%bool_decide_eq_true_1. rewrite <- (take_drop (length (rev (bytes_of "linux_amd64.bz2"))) (rev (bytes_of filename))).
  rewrite <- H. reflexivity.
Qed.
Lemma self_update_verified_witness : toy_files (memory_run (mkReader new_program None None)).1 "/bin/restic" = Some new_program
  /\ toy_files (memory_run (mkReader new_program None None)).1 "/etc/passwd" = Some [Byte.x09].
Proof.
  destruct (@self_update_verified _ toy_disk (memory_update release_pages) toy_files _ (memory_laws _) (fun _ => inl release_data) (fun _ => None)
    unit (inl tt) (fun _ _ sig => if bool_decide (sig = [Byte.x07]) then None else Some EEOF) (fun data => data)
    (fun _ => mkReader new_program None None) (fun _ => inl []) "linux" "amd64" "/bin/restic" "0.9" old_files _ _ (surjective_pairing _))
    as [H1 [[_ H2]|(keyring & sums & sig & filename & buf & _ & _ & _ & H3 & H4)]].
  - by specialize (H2 _ memory_run_result).
  - split; [|by apply H1]. destruct (H4 _ memory_run_result) as (rd & E & _ & Hf). etransitivity; [exact Hf|].
    unfold open_archive in E. rewrite (linux_ext _ H3) in E. by injection E as <-.
Defined.

(** The old program is removed before the archive is read: when it cannot be
    unpacked, there is no program any more. *)
Lemma broken_archive_removes : let '(s, r) := memory_run (mkReader [] (Some EUnexpectedEOF) None) in
  r = Err EUnexpectedEOF /\ toy_files s "/bin/restic" = None.
Proof. vm_compute. by split. Qed.
