(* ===== verification/Configs.v ===== *)
(** * Configs: the configurations of the backends

    The [Config] of each remote backend and the function that reads it from the
    location of a repository (src/backend/*/config.go), with a Module for each
    backend, and the splitting of command lines (src/backend/shell_split.go).
    The configuration of the local backend is in Local.v. *)

From S2P Require Import Prelude Ids Duration Backend Snapshots Trees Paths Url.
#[local] Open Scope string_scope.

(** [s[n:]] and [strings.SplitN] with a separator of one byte *)
Definition from (n : nat) (s : string) : string := String.substring n (String.length s - n) s.
Definition SplitN_ (sep : byte) (n : nat) (s : string) : list string := map string_of (SplitN sep n (bytes_of s)).
Definition colon : byte := Byte.x3a.
Definition slash : byte := Byte.x2f.
Definition TrimPrefix_slash (s : string) : string := if has_prefix "/" s then from 1 s else s.

(** [url.Parse] as the callers see it *)
Definition parse_url (s : string) : URL + error :=
  match Parse s with Some u => inl u | None => inr (EWrap "url.Parse" (EMsg "invalid URL")) end.

(** ** src/backend/s3/config.go *)
Module S3.
Record Config : Type := mkConfig {
  Endpoint : string; UseHTTP : bool; KeyID : string; Secret : string; Bucket : string; Prefix : string;
  Layout : string; StorageClass : string; Connections : Z; MaxRetries : Z; Region : string; BucketLookup : string; ListObjectsV1 : bool;
}.
Definition NewConfig : Config := mkConfig "" false "" "" "" "" "" "" 5 0 "" "" false.
Definition createConfig (endpoint : string) (p : list string) (useHTTP : bool) : Config + error :=
  match p with
  | [] => inr (EMsg "s3: invalid format, host/region or bucket name not found")
  | bucket :: rest =>
      let prefix := match rest with p1 :: _ => if bool_decide (p1 = "") then "" else Clean p1 | [] => "" end in
      inl (mkConfig endpoint useHTTP "" "" bucket prefix "" "" 5 0 "" "" false)
  end.
Definition ParseConfig (s : string) : Config + error :=
  if has_prefix "s3:http" s then
    match parse_url (from 3 s) with
    | inr e => inr e
    | inl url =>
        if bool_decide (Path url = "") then inr (EMsg "s3: bucket name not found")
        else createConfig (Host url) (SplitN_ slash 2 (from 1 (Path url))) (bool_decide (Scheme url = "http"))
    end
  else
    let create s := match SplitN_ slash 3 s with
                    | endpoint :: path => createConfig endpoint path false
                    | [] => inr (EMsg "s3: invalid format, host/region or bucket name not found")
                    end in
    if has_prefix "s3://" s then create (from 5 s)
    else if has_prefix "s3:" s then create (from 3 s)
    else inr (EMsg "s3: invalid format").
End S3.

(** ** src/backend/b2/config.go *)
Module B2.
Record Config : Type := mkConfig { AccountID : string; Key : string; Bucket : string; Prefix : string; Connections : Z }.
Definition NewConfig : Config := mkConfig "" "" "" "" 5.
(** [^[a-zA-Z0-9-]+$] *)
Definition bucketName (s : string) : bool :=
  negb (bool_decide (s = "")) && forallb (fun c => is_alpha c || is_digit c || bool_decide (c = Byte.x2d)) (bytes_of s).
Definition checkBucketName (name : string) : option error :=
  if bool_decide (name = "") then Some (EMsg "bucket name is empty")
  else if (String.length name <? 6)%nat then Some (EMsg "bucket name is too short")
  else if (50 <? String.length name)%nat then Some (EMsg "bucket name is too long")
  else if negb (bucketName name) then Some (EMsg "bucket name contains invalid characters, allowed are: a-z, 0-9, dash (-)")
  else None.
Definition ParseConfig (s : string) : Config + error :=
  if negb (has_prefix "b2:" s) then inr (EMsg "invalid format, want: b2:bucket-name[:path]")
  else
    match SplitN_ colon 2 (from 3 s) with
    | [] => inr (EMsg "bucket name not found")
    | bucket :: rest =>
        if bool_decide (bucket = "") then inr (EMsg "bucket name not found")
        else match checkBucketName bucket with
        | Some e => inr e
        | None =>
            match rest with
            | [p] =>
                let p := if bool_decide (p = "") then p else Clean p in
                let p := if negb (bool_decide (p = "")) && IsAbs p then from 1 p else p in
                inl (mkConfig "" "" bucket p 5)
            | _ => inl (mkConfig "" "" bucket "" 5)
            end
        end
    end.
End B2.

(** ** src/backend/gs/config.go *)
Module GS.
Record Config : Type := mkConfig { ProjectID : string; Bucket : string; Prefix : string; Connections : Z }.
Definition NewConfig : Config := mkConfig "" "" "" 5.
Definition ParseConfig (s : string) : Config + error :=
  if negb (has_prefix "gs:" s) then inr (EMsg "gs: invalid format")
  else match SplitN_ colon 2 (from 3 s) with
       | [bucket; p] => inl (mkConfig "" bucket (TrimPrefix_slash (Clean p)) 5)
       | _ => inr (EMsg "gs: invalid format: bucket name or path not found")
       end.
End GS.

(** ** src/backend/azure/config.go *)
Module Azure.
Record Config : Type := mkConfig { AccountName : string; AccountKey : string; Container : string; Prefix : string; Connections : Z }.
Definition NewConfig : Config := mkConfig "" "" "" "" 5.
Definition ParseConfig (s : string) : Config + error :=
  if negb (has_prefix "azure:" s) then inr (EMsg "azure: invalid format")
  else match SplitN_ colon 2 (from 6 s) with
       | [container; p] => inl (mkConfig "" "" container (TrimPrefix_slash (Clean p)) 5)
       | _ => inr (EMsg "azure: invalid format: bucket name or path not found")
       end.
End Azure.

(** ** src/backend/swift/config.go *)
Module Swift.
(** The string fields that [ApplyEnvironment] sets. *)
Inductive field : Type :=
| UserName | UserID | Domain | DomainID | APIKey | AuthURL | Region | Tenant | TenantID | TenantDomain | TenantDomainID | TrustID
| StorageURL | AuthToken | ApplicationCredentialID | ApplicationCredentialName | ApplicationCredentialSecret | DefaultContainerPolicy.
#[global] Instance field_eq_dec : EqDecision field.
Proof. solve_decision. Defined.
Record Config : Type := mkConfig { Fields : field -> string; Container : string; Prefix : string; Connections : Z }.
Definition NewConfig : Config := mkConfig (fun _ => "") "" "" 5.
Definition ParseConfig (s : string) : Config + error :=
  match SplitN_ colon 3 s with
  | [scheme; container; prefix] =>
      if negb (bool_decide (scheme = "swift")) then inr (EMsg "unexpected prefix")
      else if bool_decide (prefix = "") then inr (EMsg "prefix is empty")
      else if negb (IsAbs prefix) then inr (EMsg "prefix does not start with slash (/)")
      else inl (mkConfig (Fields NewConfig) container (from 1 prefix) (Connections NewConfig))
  | _ => inr (EMsg "invalid URL, expected: swift:container-name:/[prefix]")
  end.
(** The fields and the variables they are set from, in the order of the
    table. *)
Definition environment : list (field * string) := [
  (UserName, "OS_USERNAME"); (APIKey, "OS_PASSWORD"); (Region, "OS_REGION_NAME"); (AuthURL, "OS_AUTH_URL");
  (UserID, "OS_USER_ID"); (Domain, "OS_USER_DOMAIN_NAME"); (DomainID, "OS_USER_DOMAIN_ID"); (Tenant, "OS_PROJECT_NAME");
  (TenantDomain, "OS_PROJECT_DOMAIN_NAME"); (TenantDomainID, "OS_PROJECT_DOMAIN_ID"); (TrustID, "OS_TRUST_ID");
  (TenantID, "OS_TENANT_ID"); (Tenant, "OS_TENANT_NAME");
  (AuthURL, "ST_AUTH"); (UserName, "ST_USER"); (APIKey, "ST_KEY");
  (ApplicationCredentialID, "OS_APPLICATION_CREDENTIAL_ID"); (ApplicationCredentialName, "OS_APPLICATION_CREDENTIAL_NAME");
  (ApplicationCredentialSecret, "OS_APPLICATION_CREDENTIAL_SECRET");
  (StorageURL, "OS_STORAGE_URL"); (AuthToken, "OS_AUTH_TOKEN");
  (DefaultContainerPolicy, "SWIFT_DEFAULT_CONTAINER_POLICY")].
Definition apply_variable (getenv : string -> string) (prefix : string) (f : field -> string) (v : field * string) : field -> string :=
  if bool_decide (f v.1 = "") then fun x => if bool_decide (x = v.1) then getenv (prefix ++ v.2) else f x else f.
Definition ApplyEnvironment (getenv : string -> string) (prefix : string) (c : Config) : Config :=
  mkConfig (fold_left (apply_variable getenv prefix) environment (Fields c)) (Container c) (Prefix c) (Connections c).
End Swift.

(** ** src/backend/rest/config.go *)
Module Rest.
Record Config : Type := mkConfig { URL_ : URL; Connections : Z }.
Definition prepareURL (s : string) : string :=
  let s := from 5 s in
  if bool_decide (last (bytes_of s) = Some slash) then s else s ++ "/".
Definition ParseConfig (s : string) : Config + error :=
  if negb (has_prefix "rest:" s) then inr (EMsg "invalid REST backend specification")
  else match parse_url (prepareURL s) with
       | inr e => inr e
       | inl u => inl (mkConfig u 5)
       end.
(** [strings.Replace] of the first occurrence *)
Fixpoint replace_first (old new s : list byte) : list byte :=
  if starts old s then (new ++ drop (length old) s)%list
  else match s with [] => [] | c :: s => c :: replace_first old new s end.
(** [s[:5]] and [s[5:]] panic when [s] is shorter. *)
Definition StripPassword (s : string) : res error string :=
  if (String.length s <? 5)%nat then Panic "slice bounds out of range"
  else
    let scheme := String.substring 0 5 s in
    let s := prepareURL s in
    match Parse s with
    | None => Ok (scheme ++ s)
    | Some u =>
        match User u with
        | Some ui =>
            match password ui with
            | Some _ => Ok (scheme ++ string_of (replace_first (bytes_of (Userinfo_String ui ++ "@"))
                                                    (bytes_of (username ui ++ ":***@")) (bytes_of (URL_String u))))
            | None => Ok (scheme ++ s)
            end
        | None => Ok (scheme ++ s)
        end
    end.
End Rest.

(** ** src/backend/rclone/config.go *)
Module Rclone.
Record Config : Type := mkConfig { Program : string; Args : string; Remote : string; Connections : Z; Timeout : Z }.
(** [time.Minute] in nanoseconds *)
Definition defaultConfig : Config := mkConfig "rclone" "serve restic --stdio --b2-hard-delete" "" 5 60000000000.
Definition ParseConfig (s : string) : Config + error :=
  if negb (has_prefix "rclone:" s) then inr (EMsg "invalid rclone backend specification")
  else inl (mkConfig (Program defaultConfig) (Args defaultConfig) (from 7 s) (Connections defaultConfig) (Timeout defaultConfig)).
End Rclone.

(** ** src/backend/sftp/config.go *)
Module Sftp.
Record Config : Type := mkConfig { User : string; Host : string; Port : string; Path : string; Layout : string; Command : string }.
Definition tilde_error : error :=
  EMsg "sftp path starts with the tilde (~) character, that fails for most sftp servers. Use a relative directory, most servers interpret this as relative to the user's home directory.".
Definition finish (user host port dir : string) : Config + error :=
  let p := Clean dir in
  if has_prefix "~" p then inr tilde_error else inl (mkConfig user host port p "" "").
Definition ParseConfig (s : string) : Config + error :=
  if has_prefix "sftp://" s then
    match parse_url s with
    | inr e => inr e
    | inl url =>
        let user := match Url.User url with Some ui => username ui | None => "" end in
        if bool_decide (Url.Path url = "") then inr (EMsg "invalid backend, no directory specified")
        else finish user (Hostname url) (Url.Port url) (from 1 (Url.Path url))
    end
  else if has_prefix "sftp:" s then
    match SplitN_ colon 2 (from 5 s) with
    | [host; dir] =>
        match SplitN_ Byte.x40 3 host with
        | [u1; u2; host] => finish (u1 ++ "@" ++ u2) host "" dir
        | [user; host] => finish user host "" dir
        | _ => finish "" host "" dir
        end
    | _ => inr (EMsg "sftp: invalid format, hostname or path not found")
    end
  else inr (EMsg "invalid format, does not start with sftp:").
End Sftp.

(** ** Command lines (src/backend/shell_split.go) *)

Module Shell.
#[local] Open Scope Z_scope.
Section shell.
Context `{Unicode}.

(** [quote] is 0 outside of quotes. *)
Record shellSplitter : Type := mkSplitter { quote : Z; lastChar : Z }.
Definition backslash : Z := 92.
Definition dquote : Z := 34.
Definition squote : Z := 39.

Definition isSplitChar (s : shellSplitter) (c : Z) : shellSplitter * bool :=
  if negb (lastChar s =? backslash) && negb (quote s =? 0) && (c =? quote s) then (mkSplitter 0 (lastChar s), true)
  else if negb (lastChar s =? backslash) && (quote s =? 0) && ((c =? dquote) || (c =? squote)) then (mkSplitter c (lastChar s), true)
  else
    let s := mkSplitter (quote s) c in
    if negb (quote s =? 0) then (s, false) else (s, (c =? backslash) || IsSpace c).

(** The loop; [field] has the bytes since [fieldStart]. *)
Fixpoint split_loop (s : shellSplitter) (field : option (list byte)) (strs : list string) (data : list (Z * list byte))
  : shellSplitter * list string :=
  match data with
  | [] => (s, match field with Some f => (strs ++ [string_of f])%list | None => strs end)
  | (c, b) :: data =>
      let '(s, split) := isSplitChar s c in
      if split then split_loop s None (match field with Some f => (strs ++ [string_of f])%list | None => strs end) data
      else split_loop s (Some (default [] field ++ b)%list) strs data
  end.
Definition SplitShellStrings (data : string) : list string + error :=
  let '(s, strs) := split_loop (mkSplitter 0 0) None [] (runes (bytes_of data)) in
  if quote s =? squote then inr (EMsg "single-quoted string not terminated")
  else if quote s =? dquote then inr (EMsg "double-quoted string not terminated")
  else match strs with [] => inr (EMsg "command string is empty") | _ => inl strs end.
End shell.

(** *** What it splits *)

Section facts.
Context `{UL : UnicodeLaws}.

(** An argument that can be written between double quotes: it is not empty and
    has neither double quotes nor backslashes. *)
Definition quotable (w : string) : Prop :=
  w ≠ "" /\ Forall (fun b => is_ascii b /\ byte_Z b ≠ 34 /\ byte_Z b ≠ 92) (bytes_of w).
Definition quoted (w : string) : string := String (Ascii.ascii_of_nat 34) (w ++ String (Ascii.ascii_of_nat 34) "").
Definition command_line (ws : list string) : string := join " " (map quoted ws).

Lemma isSplitChar_quoted l c : 0 <= c -> c ≠ 34 -> l ≠ 92 -> isSplitChar (mkSplitter 34 l) c = (mkSplitter 34 c, false).
Proof.
  intros H0 Hc Hl. unfold isSplitChar. cbn [quote lastChar]. rewrite (proj2 (Z.eqb_neq c 34)) by done.
  change (34 =? 0) with false. by rewrite !andb_false_r.
Qed.
(** Inside the quotes, the field grows. *)
Lemma split_loop_inside w l f strs rest : Forall (fun b => is_ascii b /\ byte_Z b ≠ 34 /\ byte_Z b ≠ 92) w -> l ≠ 92 ->
  exists l', l' ≠ 92 /\ split_loop (mkSplitter 34 l) f strs (ascii_runes w ++ rest)
    = split_loop (mkSplitter 34 l') (if bool_decide (w = []) then f else Some (default [] f ++ w)%list) strs rest.
Proof.
  revert l f. induction w as [|b w IH]; intros l f Hw Hl; [by exists l|].
  apply Forall_cons in Hw as [(_ & H1 & H2) Hw]. pose proof (byte_Z_range b). cbn [ascii_runes map app split_loop].
  rewrite isSplitChar_quoted by (done || lia). fold (ascii_runes w).
  destruct (IH (byte_Z b) (Some (default [] f ++ [b])%list) Hw H2) as (l' & Hl' & E). exists l'. split; [done|].
  rewrite E, (bool_decide_eq_false_2 (b :: w = [])) by done. case_bool_decide as Ew; [by rewrite Ew|].
  destruct f; cbn; by rewrite <- ?app_assoc.
Qed.
Lemma split_loop_quoted w l strs rest : quotable w -> l ≠ 92 ->
  exists l', l' ≠ 92 /\ split_loop (mkSplitter 0 l) None strs (ascii_runes (bytes_of (quoted w)) ++ rest)
    = split_loop (mkSplitter 0 l') None (strs ++ [w])%list rest.
Proof.
  intros [Hne Hw] Hl. unfold quoted. change (bytes_of (String (Ascii.ascii_of_nat 34) ?x)) with (Byte.x22 :: bytes_of x).
  rewrite bytes_of_app. change (bytes_of (String (Ascii.ascii_of_nat 34) "")) with [Byte.x22].
  unfold ascii_runes. cbn [map app split_loop]. rewrite map_app. fold (ascii_runes (bytes_of w)). rewrite <- app_assoc.
  unfold isSplitChar at 1. cbn [quote lastChar]. rewrite (proj2 (Z.eqb_neq l backslash)) by done. cbn [negb andb orb Z.eqb].
  change (byte_Z Byte.x22) with 34. change (34 =? 0) with false. change (0 =? 0) with true. change (34 =? dquote) with true. cbn [negb andb orb].
  destruct (split_loop_inside (bytes_of w) l None strs (map (fun b => (byte_Z b, [b])) [Byte.x22] ++ rest) Hw Hl) as (l' & Hl' & E).
  rewrite E. exists l'. split; [done|]. rewrite bool_decide_eq_false_2.
  - cbn [map app split_loop]. unfold isSplitChar at 1. cbn [quote lastChar]. rewrite (proj2 (Z.eqb_neq l' backslash)) by done.
    change (byte_Z Byte.x22) with 34. change (34 =? 0) with false. change (34 =? 34) with true. cbn [negb andb orb].
    cbn [default app]. change (default [] (@None (list byte))) with (@nil byte). cbn [app]. by rewrite string_of_bytes_of.
  - intros E'. apply Hne. by rewrite <- (string_of_bytes_of w), E'.
Qed.

(** Splitting a command line of quoted arguments gives the arguments. *)
Lemma SplitShellStrings_quoted ws : ws ≠ [] -> Forall quotable ws -> SplitShellStrings (command_line ws) = inl ws.
Proof.
  intros Hne Hws. assert (Ha : Forall is_ascii (bytes_of (command_line ws))).
  { unfold command_line. clear Hne. assert (Hq : Forall is_ascii (bytes_of " ")) by by repeat constructor.
    assert (H1 : forall w, quotable w -> Forall is_ascii (bytes_of (quoted w))).
    { intros w [_ Hw]. unfold quoted. change (bytes_of (String (Ascii.ascii_of_nat 34) ?x)) with (Byte.x22 :: bytes_of x).
      rewrite bytes_of_app. apply Forall_cons. split; [done|]. apply Forall_app. split; [|by repeat constructor].
      eapply Forall_impl; [exact Hw|]. by intros b [? _]. }
    induction Hws as [|w ws Hw Hws IH]; [done|]. destruct ws as [|w' ws]; [by apply H1|].
    change (join " " (map quoted (w :: w' :: ws))) with (quoted w ++ " " ++ join " " (map quoted (w' :: ws))).
    rewrite !bytes_of_app. apply Forall_app. split; [by apply H1|]. by apply Forall_app. }
  unfold SplitShellStrings. rewrite runes_ascii by done. clear Ha.
  assert (HL : forall l strs, l ≠ 92 -> exists l', l' ≠ 92 /\
      split_loop (mkSplitter 0 l) None strs (ascii_runes (bytes_of (command_line ws))) = (mkSplitter 0 l', (strs ++ ws)%list)).
  { unfold command_line. clear Hne. induction Hws as [|w ws Hw Hws IH]; intros l strs Hl.
    - exists l. cbn. by rewrite app_nil_r.
    - destruct ws as [|w' ws].
      + destruct (split_loop_quoted w l strs [] Hw Hl) as (l' & Hl' & E). rewrite app_nil_r in E. exists l'. split; [done|]. exact E.
      + change (join " " (map quoted (w :: w' :: ws))) with (quoted w ++ " " ++ join " " (map quoted (w' :: ws))).
        rewrite !bytes_of_app. unfold ascii_runes. rewrite map_app. fold (ascii_runes (bytes_of (quoted w))).
        destruct (split_loop_quoted w l strs (map (fun b => (byte_Z b, [b])) (bytes_of " " ++ bytes_of (join " " (map quoted (w' :: ws))))) Hw Hl)
          as (l' & Hl' & E). rewrite E. change (bytes_of " ") with [Byte.x20]. cbn [map app split_loop].
        unfold isSplitChar at 1. cbn [quote lastChar]. rewrite (proj2 (Z.eqb_neq l' backslash)) by done.
        change (byte_Z Byte.x20) with 32. change (0 =? 0) with true. change (32 =? 0) with false. cbn [negb andb orb].
        change ((32 =? dquote) || (32 =? squote)) with false. cbn [negb andb orb]. change (32 =? backslash) with false.
        rewrite IsSpace_ascii by lia. cbn [orb].
        change (bool_decide (32 ∈ [9; 10; 11; 12; 13; 32])) with true.
        destruct (IH 32 (strs ++ [w])%list ltac:(done)) as (l'' & Hl'' & E'). exists l''. split; [done|].
        change (map (fun b => (byte_Z b, [b])) ?x) with (ascii_runes x). cbn [map] in E'. rewrite E'. by rewrite <- app_assoc. }
  destruct (HL 0 [] ltac:(done)) as (l' & _ & ->). cbn [quote app]. by destruct ws.
Qed.
(** An empty argument cannot be written. *)
Lemma SplitShellStrings_empty : SplitShellStrings (quoted "") = inr (EMsg "command string is empty").
Proof. reflexivity. Qed.
End facts.
End Shell.
