(* ===== verification/Remote.v ===== *)
(** * Remote: files that are objects of a storage service

    What the backends for storage services share: the kinds of calls of a
    service and what they do to its objects, the files of a repository as
    objects ([represents]), the loop over a listing and its completeness, and
    the semaphore that limits the number of calls at a time
    (src/backend/semaphore.go, Module [Semaphore]); it delays a call and does
    not change its result. *)

From S2P Require Import Prelude Ids Pack Duration Backend Snapshots Trees Paths FileInfo Disk Layouts Store Configs.

(** ** What the services know *)

(** What is told about an object. *)
Record Object : Type := mkObject { o_Name : string; o_Size : Z; o_LastModified : Time }.

(** [strings.TrimPrefix] *)
Definition TrimPrefix (s prefix : string) : string :=
  if has_prefix prefix s then String.substring (String.length prefix) (String.length s - String.length prefix) s else s.

Lemma substring_all s : String.substring 0 (String.length s) s = s.
Proof. induction s as [|x s IH]; [done|]. cbn [String.length String.substring]. by rewrite IH. Qed.
Lemma substring_app a b n : String.substring (String.length a) n (a ++ b) = String.substring 0 n b.
Proof. induction a as [|x a IH]; [done|]. cbn [String.length]. change (String x a ++ b)%string with (String x (a ++ b)). exact IH. Qed.
Lemma substring_prefix a b : String.substring 0 (String.length a) (a ++ b) = a.
Proof.
  induction a as [|x a IH]; [by destruct b|]. change (String x a ++ b)%string with (String x (a ++ b)).
  cbn [String.length String.substring]. by rewrite IH.
Qed.
Lemma has_prefix_app a b : has_prefix a (a ++ b) = true.
Proof.
  unfold has_prefix. rewrite substring_prefix, string_length_app. apply andb_true_intro. split; apply bool_decide_eq_true_2; [lia|done].
Qed.
Lemma TrimPrefix_app a b : TrimPrefix (a ++ b) a = b.
Proof.
  unfold TrimPrefix. rewrite has_prefix_app, substring_app, string_length_app.
  replace (String.length a + String.length b - String.length a)%nat with (String.length b) by lia. apply substring_all.
Qed.

(** The contents of the objects of a service, by name. *)
Abbreviation contents S := (S -> string -> option (list byte)).

Section laws.
Context {S : Type} (objects : contents S).
(** A call that changes no object. *)
Definition reads {A} (op : S -> S * A) : Prop := forall s s' a n, op s = (s', a) -> objects s' n = objects s n.
(** A call that stores [d] under [n]: a failed one may have done it. *)
Definition puts {A} (ok : A -> bool) (n : string) (d : list byte) (op : S -> S * A) : Prop := forall s s' a, op s = (s', a) ->
  (forall n', n' ≠ n -> objects s' n' = objects s n')
  /\ (objects s' n = Some d \/ (ok a = false /\ objects s' n = objects s n)).
Definition succeeded (r : option error) : bool := match r with None => true | Some _ => false end.
(** A call that removes [n]; [gone] are the answers that say that it is not
    there (any more). *)
Definition removes {A} (gone : A -> bool) (n : string) (op : S -> S * A) : Prop := forall s s' a, op s = (s', a) ->
  (forall n', n' ≠ n -> objects s' n' = objects s n')
  /\ (objects s' n = None \/ (gone a = false /\ objects s' n = objects s n)).
(** A call that tells the size of an object, and fails if there is none. *)
Definition tells (n : string) (op : S -> S * (Object + error)) : Prop := reads op /\ forall s s' o, op s = (s', inl o) ->
  exists d, objects s n = Some d /\ o_Size o = lenZ d.
(** A call that opens an object for reading: a part of it. *)
Definition opens (n : string) (part : list byte -> list byte) (op : S -> S * (Reader + error)) : Prop :=
  reads op /\ forall s s' rd, op s = (s', inl rd) -> exists d, objects s n = Some d /\ serves rd (part d).
End laws.
(** The part from [offset] that is [len] long; to the end for a negative
    [len]. *)
Definition from_length (offset len : Z) (d : list byte) : list byte :=
  let rest := drop (Z.to_nat offset) d in if len <? 0 then rest else take (Z.to_nat len) rest.
(** The bytes from [a] to [b], both included. *)
Definition from_to (a b : Z) (d : list byte) : list byte := take (Z.to_nat (b - a + 1)) (drop (Z.to_nat a) d).

(** ** Semaphores (src/backend/semaphore.go) *)

Module Semaphore.
(** A buffered channel: its capacity and the number of tokens in it. *)
Record Semaphore : Type := mkSemaphore { capacity : Z; tokens : Z }.
Definition NewSemaphore (n : Z) : res error Semaphore :=
  if bool_decide (n = 0) then Err (EMsg "must be a positive number") else Ok (mkSemaphore n 0).
(** [None]: the call blocks. *)
Definition GetToken (s : Semaphore) : option Semaphore :=
  if tokens s <? capacity s then Some (mkSemaphore (capacity s) (tokens s + 1)) else None.
Definition ReleaseToken (s : Semaphore) : option Semaphore :=
  if 0 <? tokens s then Some (mkSemaphore (capacity s) (tokens s - 1)) else None.

(** Goroutines that get and release tokens, in any order. *)
Inductive step : Semaphore -> Semaphore -> Prop :=
| step_get s s' : GetToken s = Some s' -> step s s'
| step_release s s' : ReleaseToken s = Some s' -> step s s'.
Lemma steps_bounded n s s' : NewSemaphore n = Ok s -> 0 <= n -> rtc step s s' -> capacity s' = n /\ 0 <= tokens s' <= n.
Proof.
  unfold NewSemaphore. case_bool_decide as Hn; [done|]. intros [= <-] H0 Hr.
  assert (Hi : forall a b, rtc step a b -> capacity a = n /\ 0 <= tokens a <= n -> capacity b = n /\ 0 <= tokens b <= n).
  { induction 1 as [a|a b c Hab _ IH]; [done|]. intros Ha. apply IH. destruct Hab as [a b E|a b E]; revert E.
    - unfold GetToken. destruct (Z.ltb_spec (tokens a) (capacity a)); intros [= <-]. cbn. lia.
    - unfold ReleaseToken. destruct (Z.ltb_spec 0 (tokens a)); intros [= <-]. cbn. lia. }
  apply (Hi _ _ Hr). cbn. lia.
Qed.
End Semaphore.

(** A part of an object that ends before 2^63. *)
Definition load_ok (length_ offset : Z) : Prop := offset + length_ < 2 ^ 63.

(** A reader of which nothing has been read: a save stores all its data. *)
Definition fresh (rd : RewindReader) : Prop := rr_pos rd = 0%nat.
Lemma fresh_unread rd : fresh rd -> unread rd = rr_data rd /\ (read_all rd).1 = rr_data rd /\ Length rd = lenZ (rr_data rd).
Proof. unfold fresh, unread, read_all. by intros ->. Qed.

(** [errors.Wrap] of an error that may be nil. *)
Definition Wrap (msg : string) (err : option error) : option error := match err with Some e => Some (EWrap msg e) | None => None end.
Lemma Wrap_None msg err : Wrap msg err = None <-> err = None.
Proof. by destruct err. Qed.

(** All types but the configuration: what [Delete] goes through. *)
Definition alltypes : list string := [PackFile; KeyFile; LockFile; SnapshotFile; IndexFile].
Definition config_handle : Handle := mkBeHandle ConfigFile InvalidBlob "".

(** ** Listing *)

(** The callback was called on some files, one after the other. *)
Definition calls {U} (fn : callback FileInfo U) (u u' : U) : Prop := exists fis, u' = (call_all fn fis u).1.
Lemma calls_none {U} (fn : callback FileInfo U) u : calls fn u u.
Proof. by exists []. Qed.

Lemma inl_inj_list {A B} (l l' : list A) : map (@inl A B) l = map inl l' -> l = l'.
Proof. revert l'. induction l as [|x l IH]; intros [|x' l']; [done|done|done|]. intros [= -> H]. by rewrite (IH _ H). Qed.

Section listing.
Context {U : Type} (ctx : bool) (prefix : string) (fn : callback FileInfo U).

Definition entry (o : Object) : FileInfo := mkFileInfo (o_Size o) (Base (TrimPrefix (o_Name o) prefix)).
(** The loop over the objects that the service lists, which ends at an error.
    [early]: the context is looked at before the callback, too. *)
Fixpoint list_loop (early : bool) (items : list (Object + error)) (u : U) : U * option error :=
  match items with
  | [] => (u, ctx_err ctx)
  | inr e :: _ => (u, Some e)
  | inl o :: items =>
      if bool_decide (TrimPrefix (o_Name o) prefix = "") then list_loop early items u
      else
        match (if early then ctx_err ctx else None) with
        | Some e => (u, Some e)
        | None =>
            let '(u, err) := fn (entry o) u in
            match err with
            | Some e => (u, Some e)
            | None => match ctx_err ctx with Some e => (u, Some e) | None => list_loop early items u end
            end
        end
  end.
End listing.

(** The files the callback is called with. *)
Definition listed (prefix : string) (objs : list Object) : list FileInfo :=
  map (entry prefix) (filter (fun o => TrimPrefix (o_Name o) prefix ≠ ""%string) objs).
Lemma object_loop_spec U prefix (fn : callback FileInfo U) early items u :
  exists objs r, call_all fn (listed prefix objs) u = ((list_loop false prefix fn early items u).1, r)
    /\ ((list_loop false prefix fn early items u).2 = None -> items = map inl objs /\ r = None).
Proof.
  revert u. induction items as [|[o|e] items IH]; intros u; cbn [list_loop ctx_err].
  - by exists [], None.
  - case_bool_decide as E.
    + destruct (IH u) as (objs & r & H1 & H2). exists (o :: objs), r. unfold listed in *.
      rewrite filter_cons_False by (intros H; by apply H). split; [done|]. intros Hn. destruct (H2 Hn) as [-> ?]. done.
    + destruct early; cbn [ctx_err]; destruct (fn (entry prefix o) u) as [u1 [e|]] eqn:Ef.
      1,3: exists [o], (Some e); unfold listed; rewrite filter_cons_True, filter_nil by done; cbn [map call_all]; by rewrite Ef.
      all: destruct (IH u1) as (objs & r & H1 & H2); exists (o :: objs), r; unfold listed in *;
        rewrite filter_cons_True by done; cbn [map call_all]; rewrite Ef; split; [done|];
        intros Hn; destruct (H2 Hn) as [-> ?]; done.
  - by exists [], None.
Qed.

(** The objects of a listing that comes in parts. *)
Definition all_listed (has : string -> option (list byte)) (prefix : string) (objs : list Object) : Prop :=
  (forall o, o ∈ objs -> exists d, has (o_Name o) = Some d /\ o_Size o = lenZ d)
  /\ forall x, is_Some (has (prefix ++ x)%string) -> (prefix ++ x)%string ∈ map o_Name objs.

Section listing_laws.
Context {S : Type} (objects : contents S).
(** A name that ends with a slash, with objects below it. *)
Definition subdirectory (s : S) (n : string) : Prop := ends_with_slash n = true /\ exists x, is_Some (objects s (n ++ x)%string).
(** A listing gives all objects with the prefix, or an error.  One that is not
    [deep] gives those without another slash, and the names of the others up
    to the next slash. *)
Definition lists (deep : bool) (prefix : string) (op : S -> S * list (Object + error)) : Prop := reads objects op
  /\ (forall s s' items o, op s = (s', items) -> inl o ∈ items -> has_prefix prefix (o_Name o) = true
       /\ ((exists d, objects s (o_Name o) = Some d /\ o_Size o = lenZ d) \/ (deep = false /\ subdirectory s (o_Name o))))
  /\ forall s s' objs x, op s = (s', map inl objs) -> is_Some (objects s (prefix ++ x)%string) -> (deep = true \/ noslash x) ->
       (prefix ++ x)%string ∈ map o_Name objs.
End listing_laws.

(** ** The files of a repository as objects *)

Section represent.
Context {S : Type} (objects : contents S) (l : Layout).
Context (inj : forall h h', store_handle h -> store_handle h' -> l_Filename l h = l_Filename l h' <-> same_file h h').
Definition represents (s : S) (m : stored) : Prop := forall h, store_handle h -> objects s (l_Filename l h) = m h.

Lemma represents_reads {A} (op : S -> S * A) s m s' a : reads objects op -> op s = (s', a) -> represents s m -> represents s' m.
Proof. intros Hr E Hm h Hh. rewrite (Hr _ _ _ _ E). by apply Hm. Qed.
(** One object gets another content, or none. *)
Lemma represents_set s m s' h v : store_handle h -> represents s m ->
  (forall n', n' ≠ l_Filename l h -> objects s' n' = objects s n') -> objects s' (l_Filename l h) = v ->
  represents s' (update m h v).
Proof using inj.
  intros Hh Hm Hf Hv h' Hh'. unfold update. case_decide as E.
  - by rewrite <- (proj2 (inj h h' Hh Hh') E).
  - rewrite Hf; [by apply Hm|]. intros E'. apply E. by apply inj.
Qed.
Lemma represents_same s m s' h : represents s m ->
  (forall n', n' ≠ l_Filename l h -> objects s' n' = objects s n') -> objects s' (l_Filename l h) = objects s (l_Filename l h) ->
  represents s' m.
Proof.
  intros Hm Hf Hs h' Hh'. rewrite <- (Hm h' Hh'). destruct (decide (l_Filename l h' = l_Filename l h)) as [->|E]; [done|by apply Hf].
Qed.
Lemma represents_puts {A} (ok : A -> bool) d (op : S -> S * A) h s m s' a : store_handle h -> represents s m ->
  puts objects ok (l_Filename l h) d op -> op s = (s', a) ->
  represents s' (update m h (Some d)) \/ (ok a = false /\ represents s' m).
Proof using inj.
  intros Hh Hm Hp E. destruct (Hp _ _ _ E) as [Hf [Hd|[Ha Hd]]]; [left; by eapply represents_set|right].
  split; [done|]. by eapply represents_same.
Qed.
Lemma represents_removes {A} (gone : A -> bool) (op : S -> S * A) h s m s' a : store_handle h -> represents s m ->
  removes objects gone (l_Filename l h) op -> op s = (s', a) ->
  represents s' (update m h None) \/ (gone a = false /\ represents s' m).
Proof using inj.
  intros Hh Hm Hp E. destruct (Hp _ _ _ E) as [Hf [Hd|[Ha Hd]]]; [left; by eapply represents_set|right].
  split; [done|]. by eapply represents_same.
Qed.

(** What the operations of the interface do, when the service has its laws. *)
Lemma tells_spec op h s m s' r : store_handle h -> represents s m -> tells objects (l_Filename l h) op -> op s = (s', r) ->
  represents s' m /\ forall o, r = inl o -> exists d, m h = Some d /\ o_Size o = lenZ d.
Proof.
  intros Hh Hm [Hr Ho] E. split; [by eapply represents_reads|]. intros o ->. destruct (Ho _ _ _ E) as (d & Hd & Hs).
  exists d. by rewrite <- (Hm h Hh).
Qed.
Lemma opens_loads (op : S -> S * (Reader + error)) n length_ offset s1 s2 r : opens objects n (file_range length_ offset) op -> op s1 = (s2, r) ->
  (forall n', objects s2 n' = objects s1 n') /\ forall rd, r = inl rd -> loads true (objects s1 n) length_ offset rd.
Proof.
  intros [H1 H2] E. split; [intros n'; by apply (H1 _ _ _ _ E)|]. intros rd ->. destruct (H2 _ _ _ E) as (d & -> & Hs). done.
Qed.
Lemma service_load_spec U (opn : bool -> Handle -> Z -> Z -> S -> S * (Reader + error)) length_ offset (fn : callback Reader U) u h s m s' u' r :
  store_handle h -> represents s m ->
  (forall s1 s2 r, opn false h length_ offset s1 = (s2, r) -> (exists e, s2 = s1 /\ r = inr e) \/
     (0 <= offset /\ (forall n', objects s2 n' = objects s1 n') /\ forall rd, r = inl rd -> loads true (objects s1 (l_Filename l h)) length_ offset rd)) ->
  DefaultLoad opn false h length_ offset fn u s = (s', u', r) ->
  represents s' m /\ ((u' = u /\ r ≠ None)
    \/ exists rd late, 0 <= offset /\ loads true (m h) length_ offset rd
          /\ u' = (fn rd u).1 /\ r = or_late (fn rd u).2 late).
Proof.
  intros Hh Hm Ho. unfold DefaultLoad. destruct (opn false h length_ offset s) as [s1 [rd|e]] eqn:E.
  - destruct (Ho _ _ _ E) as [(e & _ & ?)|(H0 & Hsame & Hd)]; [done|]. specialize (Hd rd eq_refl).
    destruct (fn rd u) as [u1 err] eqn:Ef. assert (Hm1 : represents s1 m) by (intros h' Hh'; rewrite Hsame; by apply Hm).
    intros HE. assert (s' = s1 /\ u' = u1 /\ r = or_late err (rd_close rd)) as (-> & -> & ->) by (destruct err; by injection HE as <- <- <-).
    split; [done|]. right. exists rd, (rd_close rd). rewrite <- (Hm h Hh), Ef. done.
  - intros [= <- <- <-]. split; [|by left]. destruct (Ho _ _ _ E) as [(e' & -> & _)|(_ & Hsame & _)]; [done|].
    intros h' Hh'. rewrite Hsame. by apply Hm.
Qed.
Lemma list_spec_calls U prefix early (fn : callback FileInfo U) items u : calls fn u (list_loop false prefix fn early items u).1.
Proof. destruct (object_loop_spec U prefix fn early items u) as (objs & r & H & _). exists (listed prefix objs). by rewrite H. Qed.

(** *** Listings are complete *)

Context {NL : NamingLaws l}.
(** There are no other objects below the prefix of the repository's files. *)
Definition only_ours (s : S) (t : string) : Prop := forall n, has_prefix (dir_prefix l t) n = true -> is_Some (objects s n) ->
  exists h, store_handle h /\ n = l_Filename l h.

Lemma has_prefix_split p n : has_prefix p n = true -> exists x, n = (p ++ x)%string.
Proof.
  unfold has_prefix. intros [Hl%bool_decide_eq_true_1 Hp%bool_decide_eq_true_1]%andb_true_iff.
  exists (String.substring (String.length p) (String.length n - String.length p) n). rewrite Hp at 1. clear Hp. revert p Hl.
  induction n as [|x n IH]; intros p Hl; [by destruct p|]. destruct p as [|y p]; cbn [String.length String.substring] in *.
  - change ("" ++ ?z)%string with z. f_equal. symmetry. apply substring_all.
  - change (String x ?a ++ ?b)%string with (String x (a ++ b)). f_equal. apply IH. lia.
Qed.
Lemma listed_files s m t deep objs fi : t ∈ file_types -> represents s m -> (deep = true \/ (l_Basedir l t).2 = false) ->
  (forall o, o ∈ objs -> has_prefix (dir_prefix l t) (o_Name o) = true
     /\ ((exists d, objects s (o_Name o) = Some d /\ o_Size o = lenZ d) \/ (deep = false /\ subdirectory objects s (o_Name o)))) ->
  (forall x, is_Some (objects s (dir_prefix l t ++ x)%string) -> (deep = true \/ noslash x) -> (dir_prefix l t ++ x)%string ∈ map o_Name objs) ->
  (files_of m t fi -> fi ∈ listed (dir_prefix l t) objs)
  /\ (deep = true -> only_ours s t -> fi ∈ listed (dir_prefix l t) objs -> files_of m t fi).
Proof using NL.
  intros Ht Hm Hdeep Hsound Hcomp. assert (Hc : t ≠ ConfigFile) by (intros ->; by apply (bool_decide_eq_true_2 _) in Ht). split.
  - intros (h & d & Hh & <- & Hd & ->). destruct (naming_under h Hh Hc) as (x & Hx & Hne & Hb & Hflat).
    assert (Hdx : deep = true \/ noslash x) by (destruct Hdeep as [?|Hf]; [by left|right; by apply Hflat]).
    assert (Hin : l_Filename l h ∈ map o_Name objs) by (rewrite Hx; apply Hcomp; [by rewrite <- Hx, (Hm h Hh), Hd|done]).
    apply list_elem_of_fmap in Hin as (o & Hn & Ho).
    destruct (Hsound o Ho) as (_ & [(d' & Hd' & Hs)|[Hf [Hsl _]]]).
    2:{ exfalso. rewrite <- Hn, Hx in Hsl. destruct Hdx as [?|Hns]; [congruence|]. by rewrite ends_with_slash_app in Hsl. }
    rewrite <- Hn, (Hm h Hh) in Hd'. assert (d' = d) as -> by congruence.
    apply list_elem_of_fmap. exists o. unfold entry. rewrite Hs, <- Hn, Hx, TrimPrefix_app, Hb. split; [done|].
    apply list_elem_of_filter. by rewrite <- Hn, Hx, TrimPrefix_app.
  - intros Hdt Hours (o & -> & [Hne Ho]%list_elem_of_filter)%list_elem_of_fmap.
    apply Hsound in Ho as (Hp & [(d & Hd & Hs)|[? _]]); [|congruence].
    destruct (Hours _ Hp (mk_is_Some _ _ Hd)) as (h & Hh & Hn). destruct (has_prefix_split _ _ Hp) as [x Hx].
    assert (Hty : h_Type h = t) by (apply (naming_type h t x Hh Ht); by rewrite <- Hn).
    exists h, d. split_and!; [done|done|by rewrite <- (Hm h Hh), <- Hn|]. unfold entry. rewrite Hs. f_equal.
    destruct (naming_under h Hh ltac:(by rewrite Hty)) as (y & Hy & _ & Hb & _). rewrite Hty in Hy. rewrite Hn, Hy, TrimPrefix_app. done.
Qed.
(** The file of a handle is among the objects. *)
Lemma listed_object s m p objs h d x : represents s m -> store_handle h -> l_Filename l h = (p ++ x)%string ->
  all_listed (objects s) p objs -> m h = Some d -> exists o, o ∈ objs /\ o_Name o = l_Filename l h /\ o_Size o = lenZ d.
Proof.
  intros Hm Hh Hx [Hsound Hcomp] Hd.
  assert (Hin : l_Filename l h ∈ map o_Name objs) by (rewrite Hx; apply Hcomp; by rewrite <- Hx, (Hm h Hh), Hd).
  apply list_elem_of_fmap in Hin as (o & Hn & Ho). exists o. split_and!; [done|done|].
  destruct (Hsound o Ho) as (d' & Hd' & Hs). rewrite <- Hn, (Hm h Hh) in Hd'. congruence.
Qed.
Lemma all_listed_files s m t objs fi : t ∈ file_types -> represents s m -> all_listed (objects s) (dir_prefix l t) objs ->
  files_of m t fi -> fi ∈ listed (dir_prefix l t) objs.
Proof using NL.
  intros Ht Hm Ha (h & d & Hh & <- & Hd & ->).
  assert (Hc : h_Type h ≠ ConfigFile) by (intros Hc; rewrite Hc in Ht; by apply (bool_decide_eq_true_2 _) in Ht).
  destruct (naming_under h Hh Hc) as (x & Hx & Hne & Hb & _). destruct (listed_object s m _ objs h d x Hm Hh Hx Ha Hd) as (o & Ho & Hn & Hs).
  apply list_elem_of_fmap. exists o. unfold entry. rewrite Hs, Hn, Hx, TrimPrefix_app, Hb. split; [done|].
  apply list_elem_of_filter. by rewrite Hn, Hx, TrimPrefix_app.
Qed.
(** A listing that ends without an error has shown all files of the type to
    the callback, with their sizes; and nothing else, if it is a deep one. *)
Lemma listing_complete U s m t deep early (fn : callback FileInfo U) op s' items u u' : t ∈ file_types -> represents s m ->
  (deep = true \/ (l_Basedir l t).2 = false) ->
  lists objects deep (dir_prefix l t) op -> op s = (s', items) -> list_loop false (dir_prefix l t) fn early items u = (u', None) ->
  exists fis, call_all fn fis u = (u', None) /\ (forall fi, files_of m t fi -> fi ∈ fis)
    /\ (deep = true -> only_ours s t -> forall fi, fi ∈ fis -> files_of m t fi).
Proof using NL.
  intros Ht Hm Hdeep [_ [Hsound Hcomp]] E Hu. destruct (object_loop_spec U (dir_prefix l t) fn early items u) as (objs & r & Hc & Hr).
  rewrite Hu in Hc, Hr. destruct (Hr eq_refl) as [-> ->]. 
  exists (listed (dir_prefix l t) objs). split; [done|].
  split; [|intros Hd Hours]; intros fi;
    apply (listed_files s m t deep objs fi Ht Hm Hdeep); try done; intros x; intros.
  1, 3: apply (Hsound _ _ _ _ E); by apply list_elem_of_fmap_2.
  all: by apply (Hcomp _ _ _ _ E).
Qed.
End represent.

(** Listing the files of a type without an error shows all of them to the
    callback. *)
Definition shows_all {S} (be : Backend S) (objects : contents S) (l : Layout) : Prop :=
  forall U t (fn : callback FileInfo U) u s m s' u', t ∈ file_types -> represents objects l s m ->
    be_List be false t fn u s = (s', u', None) -> exists fis, call_all fn fis u = (u', None) /\ forall fi, files_of m t fi -> fi ∈ fis.
Lemma shows_listing {S} (be : Backend S) objects l U t (fn : callback FileInfo U) u s m s' u' r : shows_all be objects l ->
  represents objects l s m -> be_List be false t fn u s = (s', u', r) -> represents objects l s' m /\ calls fn u u' ->
  represents objects l s' m /\ listing keeps_errors m t fn u u' r.
Proof.
  intros Hs Hm E [Hm' [fis ->]]. split; [done|]. destruct (call_all fn fis u) as [u1 r1] eqn:Ec. cbn [fst] in *.
  destruct r as [e|]; [by eapply listing_failed|]. destruct (decide (t ∈ file_types)) as [Ht|Ht].
  - destruct (Hs _ _ _ _ _ _ _ _ Ht Hm E) as (fis' & H1 & H2). by exists fis', None.
  - by exists fis, r1.
Qed.

Lemma from_length_range length_ offset d : 0 <= length_ ->
  from_length offset (if length_ =? 0 then -1 else length_) d = file_range length_ offset d.
Proof.
  intros Hl. unfold from_length, file_range. destruct (Z.eqb_spec length_ 0) as [->|Hn]; [done|].
  destruct (Z.ltb_spec length_ 0); [lia|]. by destruct (Z.ltb_spec 0 length_); [|lia].
Qed.

(** The value of a [Range] header: [bytes=a-] or [bytes=a-b]. *)
Inductive http_range : Type := RangeFrom (a : Z) | RangeFromTo (a b : Z).
