(* ===== verification/Services.v ===== *)
(** * Services: the backends that keep objects in a storage service

    Google Cloud Storage (src/backend/gs/gs.go), Amazon S3 (src/backend/s3/s3.go),
    Azure (src/backend/azure/azure.go), Backblaze B2 (src/backend/b2/b2.go) and
    Swift (src/backend/swift/swift.go), each in a Module of its own.  The
    library a backend calls is a class with the functions it uses; what the
    library promises about the objects of the service is a class of laws.  Any
    call may fail; a call whose answer is lost may have been carried out.

    The theorems are that each of them implements the store of Store.v, with
    the limits of a remote store, so that a program that runs on a local
    directory can do nothing unexpected when the files are in a service; and
    that a listing shows every file. *)

From S2P Require Import Prelude Ids Pack Duration Backend Snapshots Trees Paths FileInfo Disk Layouts Store Configs Remote.

(** ** Google Cloud Storage *)

Module GS.

(** The functions of [cloud.google.com/go/storage] that are used. *)
Class Client (S : Type) : Type := {
  (** [io.Copy] to the writer of an object, and its [Close] (with the MD5 hash
      that the service checks) *)
  w_Copy : string -> Reader -> S -> S * (Z * option error);
  w_Close : string -> list byte -> S -> S * option error;
  NewRangeReader : string -> Z -> Z -> S -> S * (Reader + error);
  Attrs : string -> S -> S * (Object + error);
  DeleteObject : string -> S -> S * option error;
  Objects : string -> S -> S * list (Object + error);
  bucket_Attrs : S -> S * option error;
  bucket_Create : string -> S -> S * option error;
  ErrObjectNotExist : error;
  ErrBucketNotExist : error;
  (** the code of a [googleapi.Error] *)
  googleapi_Code : error -> option Z;
  os_IsNotExist : error -> bool;
}.

Record be : Type := mkBe { projectID : string; bucketName : string; prefix : string; listMaxItems : Z; be_Layout : Layout }.

Section gs.
Context {S : Type} `{Client S} (types : list string).

Definition bucketExists (s : S) : S * (bool * option error) :=
  let '(s, err) := bucket_Attrs s in
  match err with
  | Some e => if bool_decide (e = ErrBucketNotExist) then (s, (false, None)) else (s, (false, Some e))
  | None => (s, (true, None))
  end.
(** [open]; [client] is the error of [getStorageClient]. *)
Definition open (client : option error) (cfg : Configs.GS.Config) : be + error :=
  match client with
  | Some e => inr (EWrap "getStorageClient" e)
  | None =>
      match Semaphore.NewSemaphore (Configs.GS.Connections cfg) with
      | Ok _ => inl (mkBe (Configs.GS.ProjectID cfg) (Configs.GS.Bucket cfg) (Configs.GS.Prefix cfg) 1000
                       (DefaultLayout Join (Configs.GS.Prefix cfg) types))
      | Err e => inr e
      | Panic msg => inr (EMsg msg)
      end
  end.
Definition Create (client : option error) (cfg : Configs.GS.Config) (s : S) : S * (be + error) :=
  match open client cfg with
  | inr e => (s, inr (EWrap "open" e))
  | inl be =>
      match bucketExists s with
      | (s, (exists_, Some e)) =>
          if bool_decide (googleapi_Code e = Some 403) then (s, inl be) else (s, inr (EWrap "service.Buckets.Get" e))
      | (s, (exists_, None)) =>
          if exists_ then (s, inl be)
          else match bucket_Create (projectID be) s with
               | (s, Some e) => (s, inr (EWrap "service.Buckets.Insert" e))
               | (s, None) => (s, inl be)
               end
      end
  end.

Context (b : be).
Definition Filename (h : Handle) : string := l_Filename (be_Layout b) h.
Definition Location : string := Join [bucketName b; prefix b].

(** A wrapped error is neither a [googleapi.Error] nor one of [os]. *)
Definition IsNotExist (e : error) : bool :=
  match e with
  | EWrap _ _ => false
  | _ => os_IsNotExist e || bool_decide (googleapi_Code e = Some 404)
  end.

Definition Save (ctx : bool) (h : Handle) (rd : RewindReader) (s : S) : S * RewindReader * option error :=
  match Handle_Valid h with
  | Some e => (s, rd, Some e)
  | None =>
      let objName := Filename h in
      let '(data, rd') := read_all rd in
      let '(s, (wbytes, err)) := w_Copy objName (mkReader data None None) s in
      let '(s, cerr) := w_Close objName (rr_hash rd) s in
      match (match err with None => cerr | Some e => Some e end) with
      | Some e => (s, rd', Some (EWrap "service.Objects.Insert" e))
      | None =>
          if bool_decide (wbytes ≠ Length rd) then (s, rd', Some (EMsg "wrote too few bytes")) else (s, rd', None)
      end
  end.

Definition openReader (ctx : bool) (h : Handle) (length_ offset : Z) (s : S) : S * (Reader + error) :=
  match Handle_Valid h with
  | Some e => (s, inr e)
  | None =>
      if offset <? 0 then (s, inr (EMsg "offset is negative"))
      else if length_ <? 0 then (s, inr (EMsg "invalid length"))
      else
        let length_ := if length_ =? 0 then -1 else length_ in
        NewRangeReader (Filename h) offset length_ s
  end.
Definition Load {U} (ctx : bool) (h : Handle) (length_ offset : Z) (fn : callback Reader U) (u : U) (s : S)
  : S * U * option error :=
  DefaultLoad openReader ctx h length_ offset fn u s.

Definition Stat (ctx : bool) (h : Handle) (s : S) : S * (FileInfo * option error) :=
  match Attrs (Filename h) s with
  | (s, inr e) => (s, (mkFileInfo 0 "", Some (EWrap "service.Objects.Get" e)))
  | (s, inl attr) => (s, (mkFileInfo (o_Size attr) (h_Name h), None))
  end.
Definition Test (ctx : bool) (h : Handle) (s : S) : S * (bool * option error) :=
  match Attrs (Filename h) s with
  | (s, inr _) => (s, (false, None))
  | (s, inl _) => (s, (true, None))
  end.
Definition Remove (ctx : bool) (h : Handle) (s : S) : S * option error :=
  let '(s, err) := DeleteObject (Filename h) s in
  let err := if bool_decide (err = Some ErrObjectNotExist) then None else err in
  (s, Wrap "client.RemoveObject" err).

Definition List {U} (ctx : bool) (t : string) (fn : callback FileInfo U) (u : U) (s : S) : S * U * option error :=
  let prefix := with_slash (l_Basedir (be_Layout b) t).1 in
  let '(s, items) := Objects prefix s in
  let '(u, err) := list_loop ctx prefix fn false items u in
  (s, u, err).
Definition removeKeys (ctx : bool) (t : string) (s : S) : S * option error :=
  let prefix := with_slash (l_Basedir (be_Layout b) t).1 in
  let '(s, items) := Objects prefix s in
  list_loop ctx prefix (fun fi => Remove ctx (mkBeHandle t InvalidBlob (fi_Name fi))) false items s.
Fixpoint delete_types (ctx : bool) (l : list string) (s : S) : S * option error :=
  match l with
  | [] => Remove ctx config_handle s
  | t :: l =>
      let '(s, err) := removeKeys ctx t s in
      match err with Some _ => (s, None) | None => delete_types ctx l s end
  end.
Definition Delete (ctx : bool) (s : S) : S * option error := delete_types ctx alltypes s.

Definition backend (md5 : list byte -> list byte) : Backend S := {|
  be_Test := Test; be_Remove := Remove; be_Save := Save; be_Load := @Load; be_Stat := Stat;
  be_List := @List; be_IsNotExist := IsNotExist; be_Delete := Delete; be_Hasher := Some md5 |}.
End gs.

(** What is documented about these functions; [pending] is what has been
    copied to the writer of an object that is not closed. *)
Class Laws {S} `{Client S} (objects pending : contents S) : Prop := {
  copy_reads n rd : reads objects (w_Copy n rd);
  copy_ok n rd s s' k : w_Copy n rd s = (s', (k, None)) -> pending s' n = Some (rd_bytes rd);
  copy_err n rd s s' k e : w_Copy n rd s = (s', (k, Some e)) -> pending s' n = None;
  close_puts n hash s s' r d : pending s n = Some d -> w_Close n hash s = (s', r) ->
    (forall n', n' ≠ n -> objects s' n' = objects s n')
    /\ (objects s' n = Some d \/ (succeeded r = false /\ objects s' n = objects s n));
  (** after an error, closing the writer stores nothing *)
  close_none n hash s s' r n' : pending s n = None -> w_Close n hash s = (s', r) -> objects s' n' = objects s n';
  range_opens n offset len : 0 <= offset -> opens objects n (from_length offset len) (NewRangeReader n offset len);
  attrs_tells n : tells objects n (Attrs n);
  delete_removes n : removes objects (fun r => bool_decide (r = None \/ r = Some ErrObjectNotExist)) n (DeleteObject n);
  objects_lists p : lists objects true p (Objects p);
}.

Section facts.
Context {S : Type} {CS : Client S} (objects pending : contents S) {L : Laws objects pending}.
Context (b : be) {NL : NamingLaws (be_Layout b)}.
#[local] Abbreviation represents := (represents objects (be_Layout b)).

Lemma gs_save_spec h rd s m s' rd' r : store_handle h -> represents s m -> Save b false h rd s = (s', rd', r) ->
  represents s' (update m h (Some (unread rd))) \/ (r ≠ None /\ represents s' m).
Proof using L NL.
  intros Hh Hm. unfold Save. destruct (Handle_Valid h); [intros [= <- <- <-]; by right|]. cbn [read_all].
  destruct (w_Copy _ _ s) as [s1 [k err]] eqn:E1. destruct (w_Close _ _ s1) as [s2 cerr] eqn:E2.
  assert (Hm1 : represents s1 m) by (eapply represents_reads; [apply copy_reads|done..]).
  assert (HE : forall (s' : S) (rd1 rd2 : RewindReader) (r x : option error), (s2, rd1, x) = (s', rd2, r) -> s' = s2 /\ r = x)
    by (by intros ????? [= <- _ <-]).
  destruct err as [e|].
  - intros [-> ->]%HE. right. split; [done|]. intros h' Hh'. rewrite (close_none _ _ _ _ _ _ (copy_err _ _ _ _ _ _ E1) E2). by apply Hm1.
  - destruct (close_puts _ _ _ _ _ _ (copy_ok _ _ _ _ _ E1) E2) as [Hf [Hd|[Hr Hd]]].
    + intros HEq. left. assert (s' = s2) as -> by (destruct cerr; [|destruct (bool_decide _)]; by injection HEq).
      eapply represents_set; [apply naming_inj|done..].
    + destruct cerr as [e|]; [|done]. intros [-> ->]%HE. right. split; [done|]. by eapply represents_same.
Qed.

Lemma gs_shows md5 : shows_all (backend b md5) objects (be_Layout b).
Proof using L NL.
  intros U t fn u s m s' u' Ht Hm. cbn [be_List backend]. unfold List. destruct (Objects _ s) as [s1 items] eqn:E.
  destruct (list_loop _ _ _ _ items u) as [u1 err] eqn:El. intros [= <- <- ->].
  destruct (listing_complete objects (be_Layout b) U s m t true false fn _ s1 items u u1 Ht Hm (or_introl eq_refl) (objects_lists _) E El)
    as (fis & H1 & H2 & _). by exists fis.
Qed.

#[export] Instance gs_implements md5 : Implements (backend b md5) represents true keeps_errors any_save any_load.
Proof using L NL.
  split; cbn [be_Save be_Remove be_Load be_Stat be_Test be_List backend].
  - intros h rd s m s' rd' r Hh _. by apply gs_save_spec.
  - intros h s m s' r Hh Hm. unfold Remove. destruct (DeleteObject _ s) as [s1 err] eqn:E. intros [= <- <-].
    destruct (represents_removes objects _ naming_inj _ _ _ _ _ _ _ Hh Hm (delete_removes _) E) as [?|[Hg ?]]; [left; by split; [|right]|right].
    split; [|done]. rewrite Wrap_None. apply bool_decide_eq_false_1 in Hg. rewrite bool_decide_eq_false_2; naive_solver.
  - intros U h o l fn u s m s' u' r Hh _ Hm. apply service_load_spec; [done..|]. intros s1 s2 r1. unfold openReader.
    destruct (Handle_Valid h); [intros [= <- <-]; left; by eexists|].
    destruct (Z.ltb_spec l 0); [intros [= <- <-]; left; by eexists|]. destruct (Z.ltb_spec o 0); [intros [= <- <-]; left; by eexists|].
    intros E. right. split; [done|]. eapply opens_loads, E. destruct (range_opens (Filename b h) l (if o =? 0 then -1 else o)) as [H1 H2]; [done|].
    split; [done|]. intros t t' rd Et. destruct (H2 _ _ _ Et) as (d & Hd & Hs). exists d. split; [done|]. by rewrite <- from_length_range.
  - intros h s m s' fi r Hh Hm. unfold Stat. destruct (Attrs _ s) as [s1 r1] eqn:E.
    destruct (tells_spec objects _ _ _ _ _ _ _ Hh Hm (attrs_tells _) E) as [Hm1 Ho]. destruct r1 as [o|e]; intros [= <- <- <-]; (split; [done|]); [|done].
    intros _. destruct (Ho _ eq_refl) as (d & Hd & Hs). exists d. by rewrite Hs.
  - intros h s m s' has r Hh Hm. unfold Test. destruct (Attrs _ s) as [s1 r1] eqn:E.
    destruct (tells_spec objects _ _ _ _ _ _ _ Hh Hm (attrs_tells _) E) as [Hm1 Ho]. destruct r1 as [o|e]; intros [= <- <- <-]; (split; [done|]); [|by right].
    intros _. left. destruct (Ho _ eq_refl) as (d & -> & _). symmetry. by apply bool_decide_eq_true_2.
  - intros U t fn u s m s' u' r Hm E. eapply shows_listing; [apply (gs_shows md5)|exact Hm|exact E|]. revert E. unfold List. destruct (Objects _ s) as [s1 items] eqn:E.
    pose proof (list_spec_calls U (with_slash (l_Basedir (be_Layout b) t).1) false fn items u) as Hc.
    destruct (list_loop _ _ _ _ items u) as [u1 err]. intros [= <- <- <-]. split; [|done]. pose proof (objects_lists (with_slash (l_Basedir (be_Layout b) t).1)) as [Hq _].
    by eapply represents_reads.
Qed.
End facts.
End GS.

(** ** Amazon S3 *)

Module S3.

(** The functions of [minio] that are used. *)
Class Client (S : Type) : Type := {
  (** name, data, the announced size; the size of the object and an error *)
  PutObject : string -> Reader -> Z -> S -> S * (Z * option error);
  (** [SetRange] of the options, and [Core.GetObject] with them *)
  SetRange : Z -> Z -> option error;
  Core_GetObject : string -> option (Z * Z) -> S -> S * (Reader + error);
  (** [GetObject], [Stat] and [Close] of the object it returns *)
  GetObject : string -> S -> S * option error;
  object_Stat : string -> S -> S * (Object + error);
  object_Close : string -> S -> S * option error;
  StatObject : string -> S -> S * (Object + error);
  RemoveObject : string -> S -> S * option error;
  CopyObject : string -> string -> S -> S * option error;
  (** prefix and whether subdirectories are listed *)
  ListObjects : string -> bool -> S -> S * list (Object + error);
  BucketExists : S -> S * (bool * option error);
  MakeBucket : S -> S * option error;
  (** the code of a [minio.ErrorResponse] *)
  minio_Code : error -> option string;
  os_IsNotExist : error -> bool;
}.

Record be : Type := mkBe { cfg : Configs.S3.Config; be_Layout : Layout }.
Definition defaultLayout : string := "default".

Section s3.
Context {S : Type} `{Client S} (types : list string).

Definition IsAccessDenied (e : error) : bool := bool_decide (minio_Code (Cause e) = Some "AccessDenied"%string).
Definition IsNotExist (e : error) : bool := os_IsNotExist (Cause e) || bool_decide (minio_Code (Cause e) = Some "NoSuchKey"%string).

(** [ReadDir]: an error of the listing ends it, and is not returned. *)
Definition dir_entry (dir : string) (o : Object) : list OsInfo :=
  if bool_decide (o_Name o = "") then []
  else
    let name := TrimPrefix (o_Name o) dir in
    if bool_decide (name = "") then []
    else if ends_with_slash name
         then [mkOsInfo (String.substring 0 (String.length name - 1) name) (o_Size o) (Z.lor ModeDir 0x1ed) (o_LastModified o) None]
         else [mkOsInfo name (o_Size o) 0x1a4 (o_LastModified o) None].
Fixpoint dir_loop (dir : string) (items : list (Object + error)) (l : list OsInfo) : list OsInfo :=
  match items with
  | [] => l
  | inr _ :: _ => []
  | inl o :: items => dir_loop dir items (l ++ dir_entry dir o)
  end.
Definition ReadDir (dir : string) : io S (list OsInfo) := fun s =>
  if bool_decide (dir = "") then (s, Panic "index out of range") else
  let dir := with_slash dir in
  let '(s, items) := ListObjects dir false s in (s, Ok (dir_loop dir items [])).
Definition Filesystem_ : Filesystem S := mkFilesystem Join ReadDir IsNotExist.

(** [open]; [client] is the error of the credentials or of [minio.New]. *)
Definition open (toLower : string -> string) (client : option error) (cfg : Configs.S3.Config) : io S be := fun s =>
  match client with
  | Some e => (s, Err e)
  | None =>
      if negb (bool_decide (toLower (Configs.S3.BucketLookup cfg) ∈ [""; "auto"; "dns"; "path"]%string)) then (s, Err (EMsg "bad bucket-lookup style"))
      else match Semaphore.NewSemaphore (Configs.S3.Connections cfg) with
           | Ok _ => io_bind (ParseLayout types Filesystem_ (Configs.S3.Layout cfg) defaultLayout (Configs.S3.Prefix cfg))
                       (fun l => io_ret (mkBe cfg l)) s
           | Err e => (s, Err e)
           | Panic msg => (s, Panic msg)
           end
  end.
Definition Create (toLower : string -> string) (client : option error) (cfg : Configs.S3.Config) : io S be := fun s =>
  match open toLower client cfg s with
  | (s, Err e) => (s, Err (EWrap "open" e))
  | (s, Panic msg) => (s, Panic msg)
  | (s, Ok be) =>
      let '(s, (found, err)) := BucketExists s in
      let '(found, err) := match err with
                           | Some e => if IsAccessDenied e then (true, None) else (found, err)
                           | None => (found, None)
                           end in
      match err with
      | Some e => (s, Err (EWrap "client.BucketExists" e))
      | None =>
          if found then (s, Ok be)
          else match MakeBucket s with
               | (s, Some e) => (s, Err (EWrap "client.MakeBucket" e))
               | (s, None) => (s, Ok be)
               end
      end
  end.

Context (b : be).
Definition Filename (h : Handle) : string := l_Filename (be_Layout b) h.
Definition Location : string := Join [Configs.S3.Bucket (cfg b); Configs.S3.Prefix (cfg b)].

Definition Save (ctx : bool) (h : Handle) (rd : RewindReader) (s : S) : S * RewindReader * option error :=
  match Handle_Valid h with
  | Some e => (s, rd, Some (EPermanent e))
  | None =>
      let '(data, rd') := read_all rd in
      let '(s, (size, err)) := PutObject (Filename h) (mkReader data None None) (Length rd) s in
      match err with
      | None => if bool_decide (size ≠ Length rd) then (s, rd', Some (EMsg "wrote too few bytes")) else (s, rd', None)
      | Some e => (s, rd', Some (EWrap "client.PutObject" e))
      end
  end.

Definition range_of (length_ offset : Z) : option (Z * Z) :=
  if 0 <? length_ then Some (offset, i64 (offset + length_ - 1)) else if 0 <? offset then Some (offset, 0) else None.
Definition openReader (ctx : bool) (h : Handle) (length_ offset : Z) (s : S) : S * (Reader + error) :=
  match Handle_Valid h with
  | Some e => (s, inr (EPermanent e))
  | None =>
      if offset <? 0 then (s, inr (EMsg "offset is negative"))
      else if length_ <? 0 then (s, inr (EMsg "invalid length"))
      else
        let range := range_of length_ offset in
        match (match range with Some (x, y) => SetRange x y | None => None end) with
        | Some e => (s, inr (EWrap "SetRange" e))
        | None => Core_GetObject (Filename h) range s
        end
  end.
Definition Load {U} (ctx : bool) (h : Handle) (length_ offset : Z) (fn : callback Reader U) (u : U) (s : S)
  : S * U * option error :=
  DefaultLoad openReader ctx h length_ offset fn u s.

Definition Stat (ctx : bool) (h : Handle) (s : S) : S * (FileInfo * option error) :=
  let objName := Filename h in
  match GetObject objName s with
  | (s, Some e) => (s, (mkFileInfo 0 "", Some (EWrap "client.GetObject" e)))
  | (s, None) =>
      let '(s, r) := object_Stat objName s in
      let '(s, e) := object_Close objName s in
      match r with
      | inr err => (s, (mkFileInfo 0 "", Some (EWrap "Stat" err)))
      | inl fi => (s, (mkFileInfo (o_Size fi) (h_Name h), Wrap "Close" e))
      end
  end.
Definition Test (ctx : bool) (h : Handle) (s : S) : S * (bool * option error) :=
  match StatObject (Filename h) s with
  | (s, inr _) => (s, (false, None))
  | (s, inl _) => (s, (true, None))
  end.
Definition Remove (ctx : bool) (h : Handle) (s : S) : S * option error :=
  let '(s, err) := RemoveObject (Filename h) s in
  let err := match err with Some e => if IsNotExist e then None else Some e | None => None end in
  (s, Wrap "client.RemoveObject" err).

Definition List {U} (ctx : bool) (t : string) (fn : callback FileInfo U) (u : U) (s : S) : S * U * option error :=
  let '(prefix, recursive) := l_Basedir (be_Layout b) t in
  let prefix := with_slash prefix in
  let '(s, items) := ListObjects prefix recursive s in
  let '(u, err) := list_loop ctx prefix fn true items u in
  (s, u, err).
(** [removeKeys] lists the pack files, whatever the type. *)
Definition removeKeys (ctx : bool) (t : string) (s : S) : S * option error :=
  let '(prefix, recursive) := l_Basedir (be_Layout b) PackFile in
  let prefix := with_slash prefix in
  let '(s, items) := ListObjects prefix recursive s in
  list_loop ctx prefix (fun fi => Remove ctx (mkBeHandle t InvalidBlob (fi_Name fi))) true items s.
Fixpoint delete_types (ctx : bool) (l : list string) (s : S) : S * option error :=
  match l with
  | [] => Remove ctx config_handle s
  | t :: l =>
      let '(s, err) := removeKeys ctx t s in
      match err with Some _ => (s, None) | None => delete_types ctx l s end
  end.
Definition Delete (ctx : bool) (s : S) : S * option error := delete_types ctx alltypes s.

(** [Rename]: copy and remove, unless it has been done. *)
Definition Rename (h : Handle) (l : Layout) (s : S) : S * option error :=
  let oldname := Filename h in
  let newname := l_Filename l h in
  if bool_decide (oldname = newname) then (s, None)
  else match CopyObject newname oldname s with
       | (s, Some e) => if IsNotExist e then (s, None) else (s, Some e)
       | (s, None) => RemoveObject oldname s
       end.

Definition backend : Backend S := {|
  be_Test := Test; be_Remove := Remove; be_Save := Save; be_Load := @Load; be_Stat := Stat;
  be_List := @List; be_IsNotExist := IsNotExist; be_Delete := Delete; be_Hasher := None |}.
End s3.

(** What is documented about these functions. *)
Class Laws {S} `{Client S} (objects : contents S) : Prop := {
  put_puts n rd : rd_err rd = None -> puts objects (fun r => succeeded r.2) n (rd_bytes rd) (PutObject n rd (lenZ (rd_bytes rd)));
  (** [SetRange]: from a position to another one, or with an end of 0 from a
      positive position on *)
  get_from n x : SetRange x 0 = None -> 0 < x -> opens objects n (drop (Z.to_nat x)) (Core_GetObject n (Some (x, 0)));
  get_from_to n x y : SetRange x y = None -> 0 <= x <= y -> opens objects n (from_to x y) (Core_GetObject n (Some (x, y)));
  get_all n : opens objects n (fun d => d) (Core_GetObject n None);
  getobject_reads n : reads objects (GetObject n);
  objectstat_tells n : tells objects n (object_Stat n);
  objectclose_reads n : reads objects (object_Close n);
  stat_tells n : tells objects n (StatObject n);
  (** removing an object that is not there is no error, or [NoSuchKey] *)
  remove_removes n : removes objects (fun r => match r with None => true | Some e => IsNotExist e end) n (RemoveObject n);
  list_lists p recursive : lists objects recursive p (ListObjects p recursive);
  (** a copy that fails may have been made; [NoSuchKey] says that there is
      nothing to be copied *)
  copy_frame dst src s s' r n : n ≠ dst -> CopyObject dst src s = (s', r) -> objects s' n = objects s n;
  copy_ok dst src s s' : CopyObject dst src s = (s', None) -> is_Some (objects s src) /\ objects s' dst = objects s src;
  copy_missing dst src s s' e : CopyObject dst src s = (s', Some e) -> IsNotExist e = true ->
    objects s src = None /\ objects s' dst = objects s dst;
  copy_failed dst src s s' e : CopyObject dst src s = (s', Some e) ->
    objects s' dst = objects s dst \/ (is_Some (objects s src) /\ objects s' dst = objects s src);
}.


Section facts.
Context {S : Type} {CS : Client S} (objects : contents S) {L : Laws objects}.
Context (b : be) {NL : NamingLaws (be_Layout b)}.
#[local] Abbreviation represents := (represents objects (be_Layout b)).

Lemma s3_range_opens h length_ offset : 0 <= offset -> 0 <= length_ -> load_ok length_ offset ->
  (match range_of length_ offset with Some (x, y) => SetRange x y | None => None end) = None ->
  opens objects (Filename b h) (file_range length_ offset) (Core_GetObject (Filename b h) (range_of length_ offset)).
Proof using L.
  intros Ho Hl Hok. unfold load_ok in Hok. unfold range_of, file_range. destruct (Z.ltb_spec 0 length_).
  - rewrite i64_small by lia. intros Hr.
    destruct (get_from_to (Filename b h) _ _ Hr) as [H1 H2]; [lia|]. split; [done|]. intros s s' rd E.
    destruct (H2 _ _ _ E) as (d & Hd & Hs). exists d. split; [done|]. unfold from_to in Hs.
    by replace (offset + length_ - 1 - offset + 1) with length_ in Hs by lia.
  - destruct (Z.ltb_spec 0 offset).
    + intros Hr. by apply get_from.
    + intros _. replace offset with 0 by lia. apply get_all.
Qed.

Lemma s3_shows : shows_all (backend b) objects (be_Layout b).
Proof using L NL.
  intros U t fn u s m s' u' Ht Hm. cbn [be_List backend]. unfold List. destruct (l_Basedir (be_Layout b) t) as [p rec] eqn:Eb. cbv zeta.
  destruct (ListObjects _ _ s) as [s1 items] eqn:E. destruct (list_loop _ _ _ _ items u) as [u1 err] eqn:El. intros [= <- <- ->].
  assert (Hp : with_slash p = dir_prefix (be_Layout b) t) by (unfold dir_prefix; by rewrite Eb). rewrite Hp in *.
  assert (Hrec : rec = true \/ (l_Basedir (be_Layout b) t).2 = false) by (rewrite Eb; cbn; destruct rec; auto).
  destruct (listing_complete objects (be_Layout b) U s m t rec true fn _ s1 items u u1 Ht Hm Hrec (list_lists _ _) E El) as (fis & H1 & H2 & _).
  by exists fis.
Qed.

#[export] Instance s3_implements : Implements (backend b) represents true keeps_errors fresh load_ok.
Proof using L NL.
  split; cbn [be_Save be_Remove be_Load be_Stat be_Test be_List backend].
  - intros h rd s m s' rd' r Hh Hfr Hm. unfold Save. destruct (Handle_Valid h); [intros [= <- <- <-]; by right|].
    destruct (fresh_unread rd Hfr) as (Hu & Hra & Hlen). destruct (read_all rd) as [data rd1]. cbn [fst] in Hra. subst data. rewrite Hlen, Hu.
    destruct (PutObject _ _ _ s) as [s1 [size err]] eqn:E.
    pose proof (put_puts (Filename b h) (mkReader (rr_data rd) None None) eq_refl) as Hp. cbn [rd_bytes] in Hp.
    destruct (represents_puts objects _ naming_inj _ _ _ _ _ _ _ _ Hh Hm Hp E) as [Hm1|[Hg Hm1]].
    + intros HE. left. destruct err as [e|]; [by injection HE as <- <- <-|]. destruct (bool_decide _); by injection HE as <- <- <-.
    + destruct err as [e|]; [|done]. intros [= <- <- <-]. by right.
  - intros h s m s' r Hh Hm. unfold Remove. destruct (RemoveObject _ s) as [s1 err] eqn:E. intros [= <- <-].
    destruct (represents_removes objects _ naming_inj _ _ _ _ _ _ _ Hh Hm (remove_removes _) E) as [?|[Hg ?]]; [left; by split; [|right]|right].
    split; [|done]. rewrite Wrap_None. destruct err as [e|]; [|done]. by rewrite Hg.
  - intros U h o l fn u s m s' u' r Hh Hok Hm. apply service_load_spec; [done..|]. intros s1 s2 r1. unfold openReader.
    destruct (Handle_Valid h); [intros [= <- <-]; left; by eexists|].
    destruct (Z.ltb_spec l 0); [intros [= <- <-]; left; by eexists|]. destruct (Z.ltb_spec o 0); [intros [= <- <-]; left; by eexists|].
    destruct (match range_of o l with Some _ => _ | None => _ end) eqn:Er; [intros [= <- <-]; left; by eexists|].
    intros E. right. split; [done|]. eapply opens_loads, E. by apply s3_range_opens.
  - intros h s m s' fi r Hh Hm. unfold Stat. destruct (GetObject _ s) as [s1 err] eqn:E1.
    assert (Hm1 : represents s1 m) by (eapply represents_reads; [apply getobject_reads|done..]).
    destruct err; [by intros [= <- <- <-]|]. destruct (object_Stat _ s1) as [s2 r2] eqn:E2.
    destruct (tells_spec objects _ _ _ _ _ _ _ Hh Hm1 (objectstat_tells _) E2) as [Hm2 Ho]. destruct (object_Close _ s2) as [s3 e3] eqn:E3.
    assert (Hm3 : represents s3 m) by (eapply represents_reads; [apply objectclose_reads|done..]).
    destruct r2 as [o|e]; intros [= <- <- <-]; (split; [done|]); [|done].
    intros _. destruct (Ho _ eq_refl) as (d & Hd & Hs). exists d. by rewrite Hs.
  - intros h s m s' has r Hh Hm. unfold Test. destruct (StatObject _ s) as [s1 r1] eqn:E.
    destruct (tells_spec objects _ _ _ _ _ _ _ Hh Hm (stat_tells _) E) as [Hm1 Ho]. destruct r1 as [o|e]; intros [= <- <- <-]; (split; [done|]); [|by right].
    intros _. left. destruct (Ho _ eq_refl) as (d & -> & _). symmetry. by apply bool_decide_eq_true_2.
  - intros U t fn u s m s' u' r Hm E. eapply shows_listing; [apply s3_shows|exact Hm|exact E|]. revert E. unfold List. destruct (l_Basedir (be_Layout b) t) as [p rec]. cbv zeta.
    destruct (ListObjects _ _ s) as [s1 items] eqn:E. pose proof (list_spec_calls U (with_slash p) true fn items u) as Hc.
    destruct (list_loop _ _ _ _ items u) as [u1 err]. intros [= <- <- <-]. split; [|done].
    destruct (list_lists (with_slash p) rec) as [Hq _]. by eapply represents_reads.
Qed.
End facts.
End S3.

(** ** Backblaze B2 *)

Module B2.

(** The functions of [blazer] that are used. *)
Class Client (S : Type) : Type := {
  w_Copy : string -> Reader -> S -> S * (Z * option error);
  w_Close : string -> S -> S * option error;
  (** errors show when the reader is read *)
  NewReader : string -> S -> S * Reader;
  NewRangeReader : string -> Z -> Z -> S -> S * Reader;
  (** and whether the status is [Uploaded] *)
  Attrs : string -> S -> S * ((Object * bool) + error);
  DeleteObject : string -> S -> S * option error;
  (** the objects of the iterator, with what [Attrs] says, and its [Err] *)
  ListBucket : string -> S -> S * (list (string * (Object + error)) * option error);
  NewBucket : string -> S -> S * option error;
  OpenBucket : string -> S -> S * option error;
  b2_IsNotExist : error -> bool;
}.

Record be : Type := mkBe { cfg : Configs.B2.Config; listMaxItems : Z; be_Layout : Layout }.

Section b2.
Context {S : Type} `{Client S}.

Section operations.
Context (b : be).
Definition Filename (h : Handle) : string := l_Filename (be_Layout b) h.
Definition Location : string := Configs.B2.Bucket (cfg b).
Definition IsNotExist (e : error) : bool := b2_IsNotExist (Cause e).

Definition openReader (ctx : bool) (h : Handle) (length_ offset : Z) (s : S) : S * (Reader + error) :=
  match Handle_Valid h with
  | Some e => (s, inr (EPermanent e))
  | None =>
      if offset <? 0 then (s, inr (EMsg "offset is negative"))
      else if length_ <? 0 then (s, inr (EMsg "invalid length"))
      else
        let name := Filename h in
        if (offset =? 0) && (length_ =? 0) then let '(s, rd) := NewReader name s in (s, inl rd)
        else
          let length_ := if length_ =? 0 then -1 else length_ in
          let '(s, rd) := NewRangeReader name offset length_ s in (s, inl rd)
  end.
Definition Load {U} (ctx : bool) (h : Handle) (length_ offset : Z) (fn : callback Reader U) (u : U) (s : S)
  : S * U * option error :=
  DefaultLoad openReader ctx h length_ offset fn u s.

Definition Save (ctx : bool) (h : Handle) (rd : RewindReader) (s : S) : S * RewindReader * option error :=
  match Handle_Valid h with
  | Some e => (s, rd, Some (EPermanent e))
  | None =>
      let name := Filename h in
      let '(data, rd') := read_all rd in
      let '(s, (n, err)) := w_Copy name (mkReader data None None) s in
      match err with
      | Some e => let '(s, _) := w_Close name s in (s, rd', Some (EWrap "Copy" e))
      | None =>
          if bool_decide (n ≠ Length rd) then (s, rd', Some (EMsg "wrote too few bytes"))
          else let '(s, err) := w_Close name s in (s, rd', Wrap "Close" err)
      end
  end.

Definition Stat (ctx : bool) (h : Handle) (s : S) : S * (FileInfo * option error) :=
  match Attrs (Filename h) s with
  | (s, inr e) => (s, (mkFileInfo 0 "", Some (EWrap "Stat" e)))
  | (s, inl (info, _)) => (s, (mkFileInfo (o_Size info) (h_Name h), None))
  end.
Definition Test (ctx : bool) (h : Handle) (s : S) : S * (bool * option error) :=
  match Attrs (Filename h) s with
  | (s, inl (_, uploaded)) => (s, (uploaded, None))
  | (s, inr _) => (s, (false, None))
  end.
Definition Remove (ctx : bool) (h : Handle) (s : S) : S * option error :=
  let '(s, err) := DeleteObject (Filename h) s in
  match err with
  | Some e => if b2_IsNotExist e then (s, None) else (s, Some (EWrap "Delete" e))
  | None => (s, None)
  end.

Fixpoint iterate {U} (fn : callback FileInfo U) (items : list (string * (Object + error))) (last : option error) (u : U) : U * option error :=
  match items with
  | [] => (u, last)
  | (_, inr e) :: _ => (u, Some e)
  | (name, inl attrs) :: items =>
      let '(u, err) := fn (mkFileInfo (o_Size attrs) (Base name)) u in
      match err with Some e => (u, Some e) | None => iterate fn items last u end
  end.
(** [List]: the prefix has no slash at its end. *)
Definition List {U} (ctx : bool) (t : string) (fn : callback FileInfo U) (u : U) (s : S) : S * U * option error :=
  let '(s, (items, last)) := ListBucket (l_Basedir (be_Layout b) t).1 s in
  let '(u, err) := iterate fn items last u in
  (s, u, err).
Definition removeKeys (ctx : bool) (t : string) (s : S) : S * option error :=
  let '(s, (items, last)) := ListBucket (l_Basedir (be_Layout b) t).1 s in
  iterate (fun fi => Remove ctx (mkBeHandle t InvalidBlob (fi_Name fi))) items last s.
Fixpoint delete_types (ctx : bool) (l : list string) (s : S) : S * option error :=
  match l with
  | [] =>
      let '(s, err) := Remove ctx config_handle s in
      (s, match err with Some e => if b2_IsNotExist (Cause e) then None else Some e | None => None end)
  | t :: l =>
      let '(s, err) := removeKeys ctx t s in
      match err with Some _ => (s, None) | None => delete_types ctx l s end
  end.
Definition Delete (ctx : bool) (s : S) : S * option error := delete_types ctx alltypes s.

Definition backend : Backend S := {|
  be_Test := Test; be_Remove := Remove; be_Save := Save; be_Load := @Load; be_Stat := Stat;
  be_List := @List; be_IsNotExist := IsNotExist; be_Delete := Delete; be_Hasher := None |}.
End operations.

Context (types : list string).
Definition new_be (cfg : Configs.B2.Config) : be + error :=
  match Semaphore.NewSemaphore (Configs.B2.Connections cfg) with
  | Ok _ => inl (mkBe cfg 1000 (DefaultLayout Join (Configs.B2.Prefix cfg) types))
  | Err e => inr e
  | Panic msg => inr (EMsg msg)
  end.
(** [client] is the error of [newClient]. *)
Definition Open (client : option error) (cfg : Configs.B2.Config) (s : S) : S * (be + error) :=
  match client with
  | Some e => (s, inr (EWrap "b2.NewClient" e))
  | None =>
      match OpenBucket (Configs.B2.Bucket cfg) s with
      | (s, Some e) => (s, inr (EWrap "Bucket" e))
      | (s, None) => (s, new_be cfg)
      end
  end.
Definition Create (client : option error) (cfg : Configs.B2.Config) (s : S) : S * (be + error) :=
  match client with
  | Some e => (s, inr (EWrap "b2.NewClient" e))
  | None =>
      match NewBucket (Configs.B2.Bucket cfg) s with
      | (s, Some e) => (s, inr (EWrap "NewBucket" e))
      | (s, None) =>
          match new_be cfg with
          | inr e => (s, inr e)
          | inl be =>
              match Test be false config_handle s with
              | (s, (_, Some e)) => (s, inr e)
              | (s, (true, None)) => (s, inr (EMsg "config already exists"))
              | (s, (false, None)) => (s, inl be)
              end
          end
      end
  end.
End b2.

(** What is documented about these functions. *)
Class Laws {S} `{Client S} (objects pending : contents S) : Prop := {
  copy_reads n rd : reads objects (w_Copy n rd);
  copy_ok n rd s s' k : w_Copy n rd s = (s', (k, None)) -> pending s' n = Some (rd_bytes rd);
  copy_err n rd s s' k e : w_Copy n rd s = (s', (k, Some e)) -> pending s' n = None;
  close_puts n s s' r d : pending s n = Some d -> w_Close n s = (s', r) ->
    (forall n', n' ≠ n -> objects s' n' = objects s n')
    /\ (objects s' n = Some d \/ (succeeded r = false /\ objects s' n = objects s n));
  close_none n s s' r n' : pending s n = None -> w_Close n s = (s', r) -> objects s' n' = objects s n';
  reader_reads n : reads objects (NewReader n);
  reader_loads n s s' rd : NewReader n s = (s', rd) -> loads true (objects s n) 0 0 rd;
  range_reads n offset len : reads objects (NewRangeReader n offset len);
  (** the remainder for a negative length *)
  range_rest n offset s s' rd : 0 < offset -> NewRangeReader n offset (-1) s = (s', rd) -> loads true (objects s n) 0 offset rd;
  range_loads n offset len s s' rd : 0 <= offset -> 0 < len -> NewRangeReader n offset len s = (s', rd) -> loads true (objects s n) len offset rd;
  attrs_reads n : reads objects (Attrs n);
  attrs_tells n s s' o : Attrs n s = (s', inl (o, true)) -> exists d, objects s n = Some d /\ o_Size o = lenZ d;
  (** the backend hides no files, and an unfinished one has no attributes *)
  attrs_uploaded n s s' o up : Attrs n s = (s', inl (o, up)) -> up = true;
  delete_removes n : removes objects (fun r => match r with None => true | Some e => b2_IsNotExist e end) n (DeleteObject n);
  list_reads p : reads objects (ListBucket p);
  list_all p s s' items : ListBucket p s = (s', (items, None)) ->
    all_listed (objects s) p (omap (fun i => match i.2 with inl o => Some (mkObject i.1 (o_Size o) (o_LastModified o)) | inr _ => None end) items);
}.

Section facts.
Context {S : Type} {CS : Client S} (objects pending : contents S) {L : Laws objects pending}.
Context (b : be) {NL : NamingLaws (be_Layout b)}.
#[local] Abbreviation represents := (represents objects (be_Layout b)).

Lemma b2_save_spec h rd s m s' rd' r : store_handle h -> represents s m -> Save b false h rd s = (s', rd', r) ->
  represents s' (update m h (Some (unread rd))) \/ (r ≠ None /\ represents s' m).
Proof using L NL.
  intros Hh Hm. unfold Save. destruct (Handle_Valid h); [intros [= <- <- <-]; by right|]. cbn [read_all].
  destruct (w_Copy _ _ s) as [s1 [k err]] eqn:E1. assert (Hm1 : represents s1 m) by (eapply represents_reads; [apply copy_reads|done..]).
  destruct err as [e|].
  - destruct (w_Close _ s1) as [s2 cerr] eqn:E2. intros [= <- <- <-]. right. split; [done|].
    intros h' Hh'. rewrite (close_none _ _ _ _ _ (copy_err _ _ _ _ _ _ E1) E2). by apply Hm1.
  - case_bool_decide; [intros [= <- <- <-]; by right|]. destruct (w_Close _ s1) as [s2 cerr] eqn:E2. intros [= <- <- <-].
    destruct (close_puts _ _ _ _ _ (copy_ok _ _ _ _ _ E1) E2) as [Hf [Hd|[Hr Hd]]].
    + left. eapply represents_set; [apply naming_inj|done..].
    + destruct cerr as [e|]; [|done]. right. split; [done|]. by eapply represents_same.
Qed.
Lemma iterate_calls U (fn : callback FileInfo U) items last u : calls fn u (iterate fn items last u).1.
Proof.
  revert u. induction items as [|[name [o|e]] items IH]; intros u; cbn [iterate]; [apply calls_none| |apply calls_none].
  destruct (fn _ u) as [u1 [e|]] eqn:Ef; [exists [mkFileInfo (o_Size o) (Base name)]; cbn [call_all]; by rewrite Ef|].
  destruct (IH u1) as [fis Hf]. exists (mkFileInfo (o_Size o) (Base name) :: fis). cbn [call_all]. by rewrite Ef.
Qed.

Lemma iterate_all U (fn : callback FileInfo U) items u u' : iterate fn items None u = (u', None) ->
  call_all fn (map (fun o => mkFileInfo (o_Size o) (Base (o_Name o)))
    (omap (fun i => match i.2 with inl o => Some (mkObject i.1 (o_Size o) (o_LastModified o)) | inr _ => None end) items)) u = (u', None).
Proof.
  revert u. induction items as [|[name [o|e]] items IH]; intros u; cbn [iterate]; [done| |done].
  destruct (fn _ u) as [u1 [e|]] eqn:Ef; [done|]. intros HE. cbn. rewrite Ef. by apply IH.
Qed.
Lemma b2_shows : shows_all (backend b) objects (be_Layout b).
Proof using L NL.
  intros U t fn u s m s' u' Ht Hm. cbn [be_List backend]. unfold List. destruct (ListBucket _ s) as [s1 [items last]] eqn:E.
  destruct (iterate fn items last u) as [u1 err] eqn:El. intros [= <- <- ->].
  assert (last = None) as ->.
  { revert u El. clear. induction items as [|[name [o|e]] items IH]; intros u; cbn [iterate]; [by intros [= _ ->]| |done].
    destruct (fn _ u) as [u2 [e|]]; [done|apply IH]. }
  eexists. split; [by apply iterate_all|]. intros fi (h & d & Hh & <- & Hd & ->).
  assert (Hc : h_Type h ≠ ConfigFile) by (intros Hc; rewrite Hc in Ht; by apply (bool_decide_eq_true_2 _) in Ht).
  destruct (naming_under h Hh Hc) as (x & Hx & _). unfold dir_prefix, with_slash in Hx.
  assert (Hx' : exists y, l_Filename (be_Layout b) h = ((l_Basedir (be_Layout b) (h_Type h)).1 ++ y)%string).
  { destruct (ends_with_slash _); [by exists x|]. exists ("/" ++ x)%string. by rewrite string_app_assoc. }
  destruct Hx' as [y Hy]. destruct (listed_object objects (be_Layout b) s m _ _ h d y Hm Hh Hy (list_all _ _ _ _ E) Hd) as (o & Ho & Hn & Hs).
  apply list_elem_of_fmap. exists o. split; [|done]. by rewrite Hs, Hn, naming_base.
Qed.

#[export] Instance b2_implements : Implements (backend b) represents true keeps_errors any_save any_load.
Proof using L NL.
  split; cbn [be_Save be_Remove be_Load be_Stat be_Test be_List backend].
  - intros h rd s m s' rd' r Hh _. by apply b2_save_spec.
  - intros h s m s' r Hh Hm. unfold Remove. destruct (DeleteObject _ s) as [s1 err] eqn:E. intros HE.
    assert (s' = s1 /\ (match err with None => true | Some e => b2_IsNotExist e end = false -> r ≠ None)) as [-> Hr].
    { destruct err as [e|]; [|by injection HE as <- <-]. by destruct (b2_IsNotExist e); injection HE as <- <-. }
    destruct (represents_removes objects _ naming_inj _ _ _ _ _ _ _ Hh Hm (delete_removes _) E) as [?|[Hg ?]]; [left; by split; [|right]|right].
    split; [|done]. by apply Hr.
  - intros U h o l fn u s m s' u' r Hh _ Hm. apply service_load_spec; [done..|]. intros s1 s2 r1. unfold openReader.
    destruct (Handle_Valid h); [intros [= <- <-]; left; by eexists|].
    destruct (Z.ltb_spec l 0); [intros [= <- <-]; left; by eexists|]. destruct (Z.ltb_spec o 0); [intros [= <- <-]; left; by eexists|].
    cbv zeta. destruct (Z.eqb_spec l 0) as [->|Hl], (Z.eqb_spec o 0) as [->|Ho]; cbn [andb].
    + destruct (NewReader _ s1) as [s3 rd] eqn:E. intros [= <- <-]. right. split; [done|].
      split; [intros n'; by apply (reader_reads _ _ _ _ _ E)|]. intros rd' [= <-]. by eapply reader_loads.
    + destruct (NewRangeReader _ _ _ s1) as [s3 rd] eqn:E. intros [= <- <-]. right. split; [done|].
      split; [intros n'; by apply (range_reads _ _ _ _ _ _ _ E)|]. intros rd' [= <-]. eapply range_loads, E; lia.
    + destruct (NewRangeReader _ _ _ s1) as [s3 rd] eqn:E. intros [= <- <-]. right. split; [done|].
      split; [intros n'; by apply (range_reads _ _ _ _ _ _ _ E)|]. intros rd' [= <-]. eapply range_rest, E; lia.
    + destruct (NewRangeReader _ _ _ s1) as [s3 rd] eqn:E. intros [= <- <-]. right. split; [done|].
      split; [intros n'; by apply (range_reads _ _ _ _ _ _ _ E)|]. intros rd' [= <-]. eapply range_loads, E; lia.
  - intros h s m s' fi r Hh Hm. unfold Stat. destruct (Attrs _ s) as [s1 r1] eqn:E.
    assert (Hm1 : represents s1 m) by (eapply represents_reads; [apply attrs_reads|done..]).
    destruct r1 as [[o up]|e]; intros [= <- <- <-]; (split; [done|]); [|done].
    intros _. rewrite (attrs_uploaded _ _ _ _ _ E) in E. destruct (attrs_tells _ _ _ _ E) as (d & Hd & Hs). exists d. rewrite <- (Hm h Hh), Hs. done.
  - intros h s m s' has r Hh Hm. unfold Test. destruct (Attrs _ s) as [s1 r1] eqn:E.
    assert (Hm1 : represents s1 m) by (eapply represents_reads; [apply attrs_reads|done..]).
    destruct r1 as [[o up]|e]; intros [= <- <- <-]; (split; [done|]); [|by right].
    intros _. destruct up; [|by right]. left. destruct (attrs_tells _ _ _ _ E) as (d & Hd & _). rewrite <- (Hm h Hh). symmetry. apply bool_decide_eq_true_2. by exists d.
  - intros U t fn u s m s' u' r Hm E. eapply shows_listing; [apply b2_shows|exact Hm|exact E|]. revert E. unfold List. destruct (ListBucket _ s) as [s1 [items last]] eqn:E.
    pose proof (iterate_calls U fn items last u) as Hc. destruct (iterate fn items last u) as [u1 err]. intros [= <- <- <-].
    split; [|done]. eapply represents_reads; [apply list_reads|done..].
Qed.
End facts.
End B2.

(** ** Azure *)

Module Azure.

(** The functions of [storage] that are used. *)
Class Client (S : Type) : Type := {
  (** name, data, length and MD5 hash *)
  CreateBlockBlobFromReader : string -> Reader -> Z -> list byte -> S -> S * option error;
  CreateBlockBlob : string -> S -> S * option error;
  (** name, ID of the block and data *)
  PutBlock : string -> list byte -> list byte -> S -> S * option error;
  PutBlockList : string -> list (list byte) -> S -> S * option error;
  (** name, [Start] and [End] *)
  GetRange : string -> Z -> Z -> S -> S * (Reader + error);
  GetProperties : string -> S -> S * (Object + error);
  Exists : string -> S -> S * (bool * option error);
  DeleteIfExists : string -> S -> S * option error;
  (** the pages of a listing, each with its [NextMarker] *)
  ListBlobs : string -> S -> S * list ((list Object * string) + error);
  CreateIfNotExists : S -> S * option error;
  os_IsNotExist : error -> bool;
}.

Record be : Type := mkBe { accountName : string; container : string; prefix : string; listMaxItems : Z; be_Layout : Layout }.

Section azure.
Context {S : Type} `{Client S} (types : list string).
(** [md5.Sum] and the encoding of the hash as the ID of a block *)
Context (md5 : list byte -> list byte) (encode : list byte -> list byte).

Definition open (client : option error) (cfg : Configs.Azure.Config) : be + error :=
  match client with
  | Some e => inr (EWrap "NewBasicClient" e)
  | None =>
      match Semaphore.NewSemaphore (Configs.Azure.Connections cfg) with
      | Ok _ => inl (mkBe (Configs.Azure.AccountName cfg) (Configs.Azure.Container cfg) (Configs.Azure.Prefix cfg) 5000
                       (DefaultLayout Join (Configs.Azure.Prefix cfg) types))
      | Err e => inr e
      | Panic msg => inr (EMsg msg)
      end
  end.
Definition Create (client : option error) (cfg : Configs.Azure.Config) (s : S) : S * (be + error) :=
  match open client cfg with
  | inr e => (s, inr (EWrap "open" e))
  | inl be => match CreateIfNotExists s with
              | (s, Some e) => (s, inr (EWrap "container.CreateIfNotExists" e))
              | (s, None) => (s, inl be)
              end
  end.

Context (b : be).
Definition Filename (h : Handle) : string := l_Filename (be_Layout b) h.
Definition Location : string := Join [container b; prefix b].
(** [os.IsNotExist] does not look into a wrapped error. *)
Definition IsNotExist (e : error) : bool := match e with EWrap _ _ => false | _ => os_IsNotExist e end.

(** The blocks of [saveLarge]: [size] bytes are read at a time. *)
Fixpoint chunks (fuel : nat) (size : nat) (data : list byte) : list (list byte) :=
  match fuel with
  | O => []
  | Datatypes.S fuel => match data with [] => [] | _ => take size data :: chunks fuel size (drop size data) end
  end.
Fixpoint put_blocks (name : string) (l : list (list byte)) (s : S) : S * option error :=
  match l with
  | [] => (s, None)
  | buf :: l =>
      match PutBlock name (encode (md5 buf)) buf s with
      | (s, Some e) => (s, Some (EWrap "PutBlock" e))
      | (s, None) => put_blocks name l s
      end
  end.
Definition block_size : Z := 100 * 1024 * 1024.
Definition saveLarge (objName : string) (rd : RewindReader) (s : S) : S * option error :=
  match CreateBlockBlob objName s with
  | (s, Some e) => (s, Some (EWrap "CreateBlockBlob" e))
  | (s, None) =>
      let data := (read_all rd).1 in
      let blocks := chunks (length data) (Z.to_nat block_size) data in
      match put_blocks objName blocks s with
      | (s, Some e) => (s, Some e)
      | (s, None) =>
          if bool_decide (lenZ (concat blocks) ≠ Length rd) then (s, Some (EMsg "wrote too few bytes"))
          else let '(s, err) := PutBlockList objName (map (fun buf => encode (md5 buf)) blocks) s in (s, Wrap "PutBlockList" err)
      end
  end.
Definition Save (ctx : bool) (h : Handle) (rd : RewindReader) (s : S) : S * RewindReader * option error :=
  match Handle_Valid h with
  | Some e => (s, rd, Some (EPermanent e))
  | None =>
      let objName := Filename h in
      let '(data, rd') := read_all rd in
      let '(s, err) := if Length rd <? 256 * 1024 * 1024
                       then CreateBlockBlobFromReader objName (mkReader data None None) (Length rd) (rr_hash rd) s
                       else saveLarge objName rd s in
      (s, rd', Wrap "CreateBlockBlobFromReader" err)
  end.

Definition openReader (ctx : bool) (h : Handle) (length_ offset : Z) (s : S) : S * (Reader + error) :=
  match Handle_Valid h with
  | Some e => (s, inr (EPermanent e))
  | None =>
      if offset <? 0 then (s, inr (EMsg "offset is negative"))
      else if length_ <? 0 then (s, inr (EMsg "invalid length"))
      else
        let start := u64 offset in
        let end_ := if 0 <? length_ then u64 (i64 (offset + length_ - 1)) else 0 in
        GetRange (Filename h) start end_ s
  end.
Definition Load {U} (ctx : bool) (h : Handle) (length_ offset : Z) (fn : callback Reader U) (u : U) (s : S)
  : S * U * option error :=
  DefaultLoad openReader ctx h length_ offset fn u s.

Definition Stat (ctx : bool) (h : Handle) (s : S) : S * (FileInfo * option error) :=
  match GetProperties (Filename h) s with
  | (s, inr e) => (s, (mkFileInfo 0 "", Some (EWrap "blob.GetProperties" e)))
  | (s, inl p) => (s, (mkFileInfo (o_Size p) (h_Name h), None))
  end.
Definition Test (ctx : bool) (h : Handle) (s : S) : S * (bool * option error) :=
  match Exists (Filename h) s with
  | (s, (_, Some e)) => (s, (false, Some e))
  | (s, (found, None)) => (s, (found, None))
  end.
Definition Remove (ctx : bool) (h : Handle) (s : S) : S * option error :=
  let '(s, err) := DeleteIfExists (Filename h) s in (s, Wrap "client.RemoveObject" err).

(** The objects of one page: [inr] is what [List] returns. *)
Fixpoint page_loop {U} (ctx : bool) (prefix : string) (fn : callback FileInfo U) (blobs : list Object) (u : U) : U * option error :=
  match blobs with
  | [] => (u, None)
  | item :: blobs =>
      if bool_decide (TrimPrefix (o_Name item) prefix = "") then page_loop ctx prefix fn blobs u
      else
        match ctx_err ctx with
        | Some e => (u, Some e)
        | None =>
            let '(u, err) := fn (entry prefix item) u in
            match err with
            | Some e => (u, Some e)
            | None => match ctx_err ctx with Some e => (u, Some e) | None => page_loop ctx prefix fn blobs u end
            end
        end
  end.
Fixpoint pages_loop {U} (ctx : bool) (prefix : string) (fn : callback FileInfo U) (pages : list ((list Object * string) + error)) (u : U)
  : U * option error :=
  match pages with
  | [] => (u, ctx_err ctx)
  | inr e :: _ => (u, Some e)
  | inl (blobs, marker) :: pages =>
      let '(u, err) := page_loop ctx prefix fn blobs u in
      match err with
      | Some e => (u, Some e)
      | None => if bool_decide (marker = "") then (u, ctx_err ctx) else pages_loop ctx prefix fn pages u
      end
  end.
Definition List {U} (ctx : bool) (t : string) (fn : callback FileInfo U) (u : U) (s : S) : S * U * option error :=
  let prefix := with_slash (l_Basedir (be_Layout b) t).1 in
  let '(s, pages) := ListBlobs prefix s in
  let '(u, err) := pages_loop ctx prefix fn pages u in
  (s, u, err).
Definition removeKeys (ctx : bool) (t : string) (s : S) : S * option error :=
  let prefix := with_slash (l_Basedir (be_Layout b) t).1 in
  let '(s, pages) := ListBlobs prefix s in
  pages_loop ctx prefix (fun fi => Remove ctx (mkBeHandle t InvalidBlob (fi_Name fi))) pages s.
Fixpoint delete_types (ctx : bool) (l : list string) (s : S) : S * option error :=
  match l with
  | [] => Remove ctx config_handle s
  | t :: l =>
      let '(s, err) := removeKeys ctx t s in
      match err with Some _ => (s, None) | None => delete_types ctx l s end
  end.
Definition Delete (ctx : bool) (s : S) : S * option error := delete_types ctx alltypes s.

Definition backend : Backend S := {|
  be_Test := Test; be_Remove := Remove; be_Save := Save; be_Load := @Load; be_Stat := Stat;
  be_List := @List; be_IsNotExist := IsNotExist; be_Delete := Delete; be_Hasher := Some md5 |}.
End azure.

(** The objects on the pages of a listing; [None] if there is an error. *)
Fixpoint upto (pages : list ((list Object * string) + error)) : option (list Object) :=
  match pages with
  | [] => Some []
  | inr _ :: _ => None
  | inl (blobs, marker) :: pages =>
      if bool_decide (marker = ""%string) then Some blobs
      else match upto pages with Some objs => Some (blobs ++ objs) | None => None end
  end.

(** What is documented about these functions; [blocks] are the uncommitted
    blocks of a blob. *)
Class Laws {S} `{Client S} (objects : contents S) (blocks : S -> string -> list byte -> option (list byte)) : Prop := {
  put_puts n rd hash : rd_err rd = None -> puts objects succeeded n (rd_bytes rd) (CreateBlockBlobFromReader n rd (lenZ (rd_bytes rd)) hash);
  create_puts n : puts objects succeeded n [] (CreateBlockBlob n);
  block_reads n id d : reads objects (PutBlock n id d);
  block_ok n id d s s' : PutBlock n id d s = (s', None) -> blocks s' n id = Some d /\ forall id', id' ≠ id -> blocks s' n id' = blocks s n id';
  (** the blob consists of the listed blocks *)
  commit_puts n ids l s s' r : Forall2 (fun id d => blocks s n id = Some d) ids l -> PutBlockList n ids s = (s', r) ->
    (forall n', n' ≠ n -> objects s' n' = objects s n')
    /\ (objects s' n = Some (concat l) \/ (succeeded r = false /\ objects s' n = objects s n));
  (** an [End] of 0 stands for the end of the blob *)
  range_rest n x : opens objects n (drop (Z.to_nat x)) (GetRange n x 0);
  range_from_to n x y : 0 <= x <= y -> y ≠ 0 -> opens objects n (from_to x y) (GetRange n x y);
  properties_tells n : tells objects n (GetProperties n);
  exists_reads n : reads objects (Exists n);
  exists_ok n s s' found : Exists n s = (s', (found, None)) -> found = bool_decide (is_Some (objects s n));
  delete_removes n : removes objects succeeded n (DeleteIfExists n);
  list_reads p : reads objects (ListBlobs p);
  (** the pages up to the one without a marker *)
  list_all p s s' pages objs : ListBlobs p s = (s', pages) -> upto pages = Some objs -> all_listed (objects s) p objs;
}.

(** A small file is saved in one call; the part of a file that is loaded is
    not the first byte alone. *)
Definition small (rd : RewindReader) : Prop := fresh rd /\ Length rd < 256 * 1024 * 1024.
Definition load_ok (length_ offset : Z) : Prop := offset + length_ < 2 ^ 63 /\ ~ (length_ = 1 /\ offset = 0).

Section facts.
Context {S : Type} {CS : Client S} (objects : contents S) (blocks : S -> string -> list byte -> option (list byte)) {L : Laws objects blocks}.
Context (md5 encode : list byte -> list byte) (b : be) {NL : NamingLaws (be_Layout b)}.
#[local] Abbreviation represents := (represents objects (be_Layout b)).

Lemma azure_range_opens h length_ offset : 0 <= offset -> 0 <= length_ -> load_ok length_ offset ->
  opens objects (Filename b h) (file_range length_ offset)
    (GetRange (Filename b h) (u64 offset) (if 0 <? length_ then u64 (i64 (offset + length_ - 1)) else 0)).
Proof using L.
  intros Ho Hl [Hok Hn]. unfold file_range. rewrite (u64_small offset) by lia. destruct (Z.ltb_spec 0 length_).
  - rewrite i64_small, u64_small by lia. destruct (range_from_to (Filename b h) offset (offset + length_ - 1)) as [H1 H2]; [lia|lia|].
    split; [done|]. intros s s' rd E. destruct (H2 _ _ _ E) as (d & Hd & Hs). exists d. split; [done|]. unfold from_to in Hs.
    by replace (offset + length_ - 1 - offset + 1) with length_ in Hs by lia.
  - apply range_rest.
Qed.
Lemma page_loop_calls U prefix (fn : callback FileInfo U) blobs u :
  exists fis r, call_all fn fis u = (page_loop false prefix fn blobs u) /\ r = (page_loop false prefix fn blobs u).2.
Proof.
  revert u. induction blobs as [|o blobs IH]; intros u; cbn [page_loop ctx_err]; [by exists [], None|].
  case_bool_decide; [apply IH|]. destruct (fn (entry prefix o) u) as [u1 [e|]] eqn:Ef.
  - exists [entry prefix o], (Some e). cbn [call_all]. by rewrite Ef.
  - destruct (IH u1) as (fis & r & H1 & H2). exists (entry prefix o :: fis), r. cbn [call_all]. by rewrite Ef.
Qed.
Lemma pages_loop_calls U prefix (fn : callback FileInfo U) pages u : calls fn u (pages_loop false prefix fn pages u).1.
Proof.
  revert u. induction pages as [|[[blobs marker]|e] pages IH]; intros u; cbn [pages_loop]; [apply calls_none| |apply calls_none].
  destruct (page_loop_calls U prefix fn blobs u) as (fis & _ & Hc & _). destruct (page_loop false prefix fn blobs u) as [u1 [e|]].
  - exists fis. by rewrite Hc.
  - case_bool_decide; [exists fis; by rewrite Hc|]. destruct (IH u1) as [fis' Hf]. exists (fis ++ fis').
    by rewrite call_all_app, Hc.
Qed.

Lemma page_loop_listed U prefix (fn : callback FileInfo U) blobs u : page_loop false prefix fn blobs u = call_all fn (listed prefix blobs) u.
Proof.
  revert u. unfold listed. induction blobs as [|o blobs IH]; intros u; [done|]. cbn [page_loop ctx_err]. case_bool_decide as E.
  - rewrite filter_cons_False by (intros H; by apply H). apply IH.
  - rewrite filter_cons_True by done. cbn [map call_all]. destruct (fn _ u) as [u1 [e|]]; [done|apply IH].
Qed.
Lemma pages_loop_listed U prefix (fn : callback FileInfo U) pages u u' : pages_loop false prefix fn pages u = (u', None) ->
  exists objs, upto pages = Some objs /\ call_all fn (listed prefix objs) u = (u', None).
Proof.
  revert u. induction pages as [|[[blobs marker]|e] pages IH]; intros u; cbn [pages_loop upto]; [intros [= <-]; by exists []| |done].
  rewrite page_loop_listed. destruct (call_all fn (listed prefix blobs) u) as [u1 [e|]] eqn:Ec; [done|].
  case_bool_decide; [intros [= <-]; by exists blobs|]. intros (objs & -> & Hc)%IH. exists (blobs ++ objs). split; [done|].
  unfold listed in *. by rewrite filter_app, map_app, call_all_app, Ec.
Qed.
Lemma azure_shows : shows_all (backend md5 encode b) objects (be_Layout b).
Proof using L NL.
  intros U t fn u s m s' u' Ht Hm. cbn [be_List backend]. unfold List. destruct (ListBlobs _ s) as [s1 pages] eqn:E.
  destruct (pages_loop _ _ _ pages u) as [u1 err] eqn:El. intros [= <- <- ->]. apply pages_loop_listed in El as (objs & Hu & Hc).
  eexists. split; [exact Hc|]. intros fi. eapply (all_listed_files objects (be_Layout b)); [done..|]. by eapply list_all.
Qed.

#[export] Instance azure_implements : Implements (backend md5 encode b) represents true keeps_errors small load_ok.
Proof using L NL.
  split; cbn [be_Save be_Remove be_Load be_Stat be_Test be_List backend].
  - intros h rd s m s' rd' r Hh [Hfr Hsm] Hm. unfold Save. destruct (Handle_Valid h); [intros [= <- <- <-]; by right|].
    destruct (fresh_unread rd Hfr) as (Hu & Hra & Hlen). rewrite (proj2 (Z.ltb_lt _ _) Hsm). destruct (read_all rd) as [data rd1]. cbn [fst] in Hra.
    subst data. rewrite Hlen, Hu. destruct (CreateBlockBlobFromReader _ _ _ _ s) as [s1 err] eqn:E. intros [= <- <- <-].
    pose proof (put_puts (Filename b h) (mkReader (rr_data rd) None None) (rr_hash rd) eq_refl) as Hp. cbn [rd_bytes] in Hp.
    destruct (represents_puts objects _ naming_inj _ _ _ _ _ _ _ _ Hh Hm Hp E) as [Hm1|[Hg Hm1]]; [by left|right]. split; [|done].
    rewrite Wrap_None. by destruct err.
  - intros h s m s' r Hh Hm. unfold Remove. destruct (DeleteIfExists _ s) as [s1 err] eqn:E. intros [= <- <-].
    destruct (represents_removes objects _ naming_inj _ _ _ _ _ _ _ Hh Hm (delete_removes _) E) as [?|[Hg ?]]; [left; by split; [|right]|right].
    split; [|done]. rewrite Wrap_None. by destruct err.
  - intros U h o l fn u s m s' u' r Hh Hok Hm. apply service_load_spec; [done..|]. intros s1 s2 r1. unfold openReader.
    destruct (Handle_Valid h); [intros [= <- <-]; left; by eexists|].
    destruct (Z.ltb_spec l 0); [intros [= <- <-]; left; by eexists|]. destruct (Z.ltb_spec o 0); [intros [= <- <-]; left; by eexists|].
    intros E. right. split; [done|]. eapply opens_loads, E. by apply azure_range_opens.
  - intros h s m s' fi r Hh Hm. unfold Stat. destruct (GetProperties _ s) as [s1 r1] eqn:E.
    destruct (tells_spec objects _ _ _ _ _ _ _ Hh Hm (properties_tells _) E) as [Hm1 Ho]. destruct r1 as [o|e]; intros [= <- <- <-]; (split; [done|]); [|done].
    intros _. destruct (Ho _ eq_refl) as (d & Hd & Hs). exists d. by rewrite Hs.
  - intros h s m s' has r Hh Hm. unfold Test. destruct (Exists _ s) as [s1 [found err]] eqn:E.
    assert (Hm1 : represents s1 m) by (eapply represents_reads; [apply exists_reads|done..]).
    destruct err as [e|]; intros [= <- <- <-]; (split; [done|]); [done|]. intros _. left. rewrite <- (Hm h Hh). by eapply exists_ok.
  - intros U t fn u s m s' u' r Hm E. eapply shows_listing; [apply azure_shows|exact Hm|exact E|]. revert E. unfold List. destruct (ListBlobs _ s) as [s1 pages] eqn:E.
    pose proof (pages_loop_calls U (with_slash (l_Basedir (be_Layout b) t).1) fn pages u) as Hc.
    destruct (pages_loop _ _ _ pages u) as [u1 err]. intros [= <- <- <-]. split; [|done]. eapply represents_reads; [apply list_reads|done..].
Qed.

(** *** Large files *)

Lemma concat_chunks fuel size data : (0 < size)%nat -> (length data <= fuel)%nat -> concat (chunks fuel size data) = data.
Proof.
  intros Hs. revert data. induction fuel as [|fuel IH]; intros data Hl; [by destruct data; [|cbn in Hl; lia]|].
  cbn [chunks]. destruct data as [|x data]; [done|]. cbn [concat]. rewrite IH; [apply take_drop|].
  rewrite length_drop. cbn [length] in *. lia.
Qed.
Lemma put_blocks_reads n l s s' r n' : put_blocks md5 encode n l s = (s', r) -> objects s' n' = objects s n'.
Proof using L.
  revert s. induction l as [|d l IH]; intros s; cbn [put_blocks]; [by intros [= <- _]|].
  destruct (PutBlock _ _ _ s) as [s1 [e|]] eqn:E; intros HE.
  - injection HE as <- _. by apply (block_reads _ _ _ _ _ _ _ E).
  - rewrite (IH _ HE). by apply (block_reads _ _ _ _ _ _ _ E).
Qed.
(** Blocks with the same ID have the same content. *)
Definition no_collision (l : list (list byte)) : Prop := forall x y, x ∈ l -> y ∈ l -> encode (md5 x) = encode (md5 y) -> x = y.
Lemma put_blocks_ok n all l s s' : no_collision all -> l ⊆ all -> put_blocks md5 encode n l s = (s', None) ->
  forall d, d ∈ all -> (d ∈ l \/ blocks s n (encode (md5 d)) = Some d) -> blocks s' n (encode (md5 d)) = Some d.
Proof using All.
  intros Hnc. revert s. induction l as [|x l IH]; intros s Hsub; cbn [put_blocks].
  - intros [= <-] d _ [?%not_elem_of_nil|?]; done.
  - destruct (PutBlock _ _ _ s) as [s1 [e|]] eqn:E; [done|]. intros HE d Hd Hor. destruct (block_ok _ _ _ _ _ E) as [Hx Hy].
    apply (IH s1); [set_solver|done..|]. destruct (decide (encode (md5 d) = encode (md5 x))) as [Ei|Ei].
    + right. assert (d = x) as -> by (apply Hnc; [done|set_solver|done]). done.
    + destruct Hor as [[->|?]%elem_of_cons|Hb]; [done|by left|right]. by rewrite Hy.
Qed.
(** A large file that has been saved has all its content. *)
Lemma saveLarge_spec n rd s s' r : fresh rd -> no_collision (chunks (length (rr_data rd)) (Z.to_nat block_size) (rr_data rd)) ->
  saveLarge md5 encode n rd s = (s', r) ->
  (forall n', n' ≠ n -> objects s' n' = objects s n')
  /\ (objects s' n = Some (rr_data rd) \/ (r ≠ None /\ (objects s' n = objects s n \/ objects s' n = Some []))).
Proof using All.
  intros Hfr Hnc. unfold saveLarge. destruct (fresh_unread rd Hfr) as (_ & -> & Hlen). destruct (CreateBlockBlob n s) as [s1 r1] eqn:E1.
  destruct (create_puts n _ _ _ E1) as [F1 C1].
  destruct r1 as [e|].
  { intros [= <- <-]. split; [done|]. right. split; [done|]. destruct C1 as [?|[_ ?]]; auto. }
  destruct C1 as [C1|[? _]]; [|done]. cbv zeta. assert (Hsz : (0 < Z.to_nat block_size)%nat) by (unfold block_size; lia).
  revert Hnc. generalize (Z.to_nat block_size), Hsz. clear Hsz. intros size Hsz Hnc.
  pose proof (concat_chunks (length (rr_data rd)) size (rr_data rd) Hsz ltac:(lia)) as Hcat.
  set (l := chunks _ _ _) in *. destruct (put_blocks _ _ n l s1) as [s2 r2] eqn:E2.
  assert (F2 : forall n', objects s2 n' = objects s1 n') by (intros n'; by eapply put_blocks_reads).
  destruct r2 as [e|].
  { intros [= <- <-]. split; [intros n' Hn; by rewrite F2, F1|]. right. split; [done|]. right. by rewrite F2. }
  rewrite Hcat, Hlen, bool_decide_eq_false_2 by (intros H; by apply H). destruct (PutBlockList _ _ s2) as [s3 r3] eqn:E3. intros [= <- <-].
  assert (Hall : Forall2 (fun id d => blocks s2 n id = Some d) (map (fun buf => encode (md5 buf)) l) l).
  { assert (Hb : forall d, d ∈ l -> blocks s2 n (encode (md5 d)) = Some d).
    { intros d Hd. eapply (put_blocks_ok n l l s1 s2 Hnc); [set_solver|exact E2|done|by left]. }
    clear -Hb. induction l as [|d l IH]; [constructor|]. cbn [map]. constructor; [apply Hb; left|]. apply IH. intros d' Hd'. apply Hb. by right. }
  destruct (commit_puts _ _ _ _ _ _ Hall E3) as [F3 C3]. rewrite Hcat in C3. split; [intros n' Hn; by rewrite F3, F2, F1|].
  destruct C3 as [?|[Hr C3]]; [by left|right]. split; [rewrite Wrap_None; by destruct r3|]. right. by rewrite C3, F2.
Qed.
End facts.
End Azure.

(** ** Swift *)

Module Swift.

(** The functions of [swift.Connection] that are used, for one container. *)
Class Client (S : Type) : Type := {
  (** name, data, announced length and MD5 hash *)
  ObjectPut : string -> Reader -> Z -> list byte -> S -> S * option error;
  ObjectOpen : string -> option http_range -> S -> S * (Reader + error);
  Object_ : string -> S -> S * (Object + error);
  ObjectDelete : string -> S -> S * option error;
  (** what [Objects] returns for each page of [ObjectsWalk] *)
  ObjectsWalk : string -> S -> S * list (list Object + error);
  Authenticated : bool;
  Authenticate : S -> S * option error;
  Container : S -> S * option error;
  (** with the storage policy, unless it is empty *)
  ContainerCreate : string -> S -> S * option error;
  ContainerNotFound : error;
  ObjectNotFound : error;
  (** the status code of a [swift.Error] *)
  swift_StatusCode : error -> option Z;
}.

Record be : Type := mkBe { container : string; prefix : string; be_Layout : Layout }.

Section swift.
Context {S : Type} `{Client S} (types : list string).

Definition createContainer (policy : string) : S -> S * option error := ContainerCreate policy.
Definition Open (cfg : Configs.Swift.Config) (s : S) : S * (be + error) :=
  match Semaphore.NewSemaphore (Configs.Swift.Connections cfg) with
  | Err e => (s, inr e)
  | Panic msg => (s, inr (EMsg msg))
  | Ok _ =>
      let be := mkBe (Configs.Swift.Container cfg) (Configs.Swift.Prefix cfg) (DefaultLayout Join (Configs.Swift.Prefix cfg) types) in
      match (if Authenticated then (s, None) else Authenticate s) with
      | (s, Some e) => (s, inr (EWrap "conn.Authenticate" e))
      | (s, None) =>
          match Container s with
          | (s, None) => (s, inl be)
          | (s, Some e) =>
              if bool_decide (e = ContainerNotFound) then
                match createContainer (Configs.Swift.Fields cfg Configs.Swift.DefaultContainerPolicy) s with
                | (s, Some e) => (s, inr (EWrap "beSwift.createContainer" e))
                | (s, None) => (s, inl be)
                end
              else (s, inr (EWrap "conn.Container" e))
          end
      end
  end.

Context (b : be).
Definition Filename (h : Handle) : string := l_Filename (be_Layout b) h.
Definition Location : string := container b.
Definition IsNotExist (e : error) : bool := bool_decide (swift_StatusCode (Cause e) = Some 404).

Definition range_of (length_ offset : Z) : option http_range :=
  if 0 <? length_ then Some (RangeFromTo offset (i64 (offset + length_ - 1)))
  else if 0 <? offset then Some (RangeFrom offset) else None.
Definition openReader (ctx : bool) (h : Handle) (length_ offset : Z) (s : S) : S * (Reader + error) :=
  match Handle_Valid h with
  | Some e => (s, inr (EPermanent e))
  | None =>
      if offset <? 0 then (s, inr (EMsg "offset is negative"))
      else if length_ <? 0 then (s, inr (EMsg "invalid length"))
      else match ObjectOpen (Filename h) (range_of length_ offset) s with
           | (s, inr e) => (s, inr (EWrap "conn.ObjectOpen" e))
           | r => r
           end
  end.
Definition Load {U} (ctx : bool) (h : Handle) (length_ offset : Z) (fn : callback Reader U) (u : U) (s : S)
  : S * U * option error :=
  DefaultLoad openReader ctx h length_ offset fn u s.

Definition Save (ctx : bool) (h : Handle) (rd : RewindReader) (s : S) : S * RewindReader * option error :=
  match Handle_Valid h with
  | Some e => (s, rd, Some (EPermanent e))
  | None =>
      let '(data, rd') := read_all rd in
      let '(s, err) := ObjectPut (Filename h) (mkReader data None None) (Length rd) (rr_hash rd) s in
      (s, rd', Wrap "client.PutObject" err)
  end.

Definition Stat (ctx : bool) (h : Handle) (s : S) : S * (FileInfo * option error) :=
  match Object_ (Filename h) s with
  | (s, inr e) => (s, (mkFileInfo 0 "", Some (EWrap "conn.Object" e)))
  | (s, inl obj) => (s, (mkFileInfo (o_Size obj) (h_Name h), None))
  end.
Definition Test (ctx : bool) (h : Handle) (s : S) : S * (bool * option error) :=
  match Object_ (Filename h) s with
  | (s, inl _) => (s, (true, None))
  | (s, inr e) => if bool_decide (e = ObjectNotFound) then (s, (false, None)) else (s, (false, Some (EWrap "conn.Object" e)))
  end.
Definition Remove (ctx : bool) (h : Handle) (s : S) : S * option error :=
  let '(s, err) := ObjectDelete (Filename h) s in (s, Wrap "conn.ObjectDelete" err).

Fixpoint walk_page {U} (ctx : bool) (prefix : string) (fn : callback FileInfo U) (objs : list Object) (u : U) : U * option error :=
  match objs with
  | [] => (u, None)
  | obj :: objs =>
      let m := Base (TrimPrefix (o_Name obj) prefix) in
      if bool_decide (m = "") then walk_page ctx prefix fn objs u
      else
        let '(u, err) := fn (mkFileInfo (o_Size obj) m) u in
        match err with
        | Some e => (u, Some e)
        | None => match ctx_err ctx with Some e => (u, Some e) | None => walk_page ctx prefix fn objs u end
        end
  end.
Fixpoint walk_pages {U} (ctx : bool) (prefix : string) (fn : callback FileInfo U) (pages : list (list Object + error)) (u : U) : U * option error :=
  match pages with
  | [] => (u, ctx_err ctx)
  | inr e :: _ => (u, Some (EWrap "conn.ObjectNames" e))
  | inl objs :: pages =>
      let '(u, err) := walk_page ctx prefix fn objs u in
      match err with Some e => (u, Some e) | None => walk_pages ctx prefix fn pages u end
  end.
Definition List {U} (ctx : bool) (t : string) (fn : callback FileInfo U) (u : U) (s : S) : S * U * option error :=
  let prefix := ((l_Basedir (be_Layout b) t).1 ++ "/")%string in
  let '(s, pages) := ObjectsWalk prefix s in
  let '(u, err) := walk_pages ctx prefix fn pages u in
  (s, u, err).
Definition removeKeys (ctx : bool) (t : string) (s : S) : S * option error :=
  let prefix := ((l_Basedir (be_Layout b) t).1 ++ "/")%string in
  let '(s, pages) := ObjectsWalk prefix s in
  walk_pages ctx prefix (fun fi => Remove ctx (mkBeHandle t InvalidBlob (fi_Name fi))) pages s.
Fixpoint delete_types (ctx : bool) (l : list string) (s : S) : S * option error :=
  match l with
  | [] =>
      let '(s, err) := Remove ctx config_handle s in
      (s, match err with Some e => if IsNotExist e then None else Some e | None => None end)
  | t :: l =>
      let '(s, err) := removeKeys ctx t s in
      match err with Some _ => (s, None) | None => delete_types ctx l s end
  end.
Definition Delete (ctx : bool) (s : S) : S * option error := delete_types ctx alltypes s.

Definition backend (md5 : list byte -> list byte) : Backend S := {|
  be_Test := Test; be_Remove := Remove; be_Save := Save; be_Load := @Load; be_Stat := Stat;
  be_List := @List; be_IsNotExist := IsNotExist; be_Delete := Delete; be_Hasher := Some md5 |}.
End swift.

(** What is documented about these functions. *)
Class Laws {S} `{Client S} (objects : contents S) : Prop := {
  put_puts n rd hash : rd_err rd = None -> puts objects succeeded n (rd_bytes rd) (ObjectPut n rd (lenZ (rd_bytes rd)) hash);
  open_all n : opens objects n (fun d => d) (ObjectOpen n None);
  open_from n x : 0 <= x -> opens objects n (drop (Z.to_nat x)) (ObjectOpen n (Some (RangeFrom x)));
  open_from_to n x y : 0 <= x <= y -> opens objects n (from_to x y) (ObjectOpen n (Some (RangeFromTo x y)));
  object_tells n : tells objects n (Object_ n);
  object_missing n s s' : Object_ n s = (s', inr ObjectNotFound) -> objects s n = None;
  delete_removes n : removes objects succeeded n (ObjectDelete n);
  walk_reads p : reads objects (ObjectsWalk p);
  walk_all p s s' pages : ObjectsWalk p s = (s', map inl pages) -> all_listed (objects s) p (concat pages);
}.

Section facts.
Context {S : Type} {CS : Client S} (objects : contents S) {L : Laws objects}.
Context (b : be) {NL : NamingLaws (be_Layout b)}.
#[local] Abbreviation represents := (represents objects (be_Layout b)).

Lemma swift_range_opens h length_ offset : 0 <= offset -> 0 <= length_ -> load_ok length_ offset ->
  opens objects (Filename b h) (file_range length_ offset) (ObjectOpen (Filename b h) (range_of length_ offset)).
Proof using L.
  intros Ho Hl Hok. unfold load_ok in Hok. unfold range_of, file_range. destruct (Z.ltb_spec 0 length_).
  - rewrite i64_small by lia. destruct (open_from_to (Filename b h) offset (offset + length_ - 1)) as [H1 H2]; [lia|]. split; [done|].
    intros s s' rd E. destruct (H2 _ _ _ E) as (d & Hd & Hs). exists d. split; [done|]. unfold from_to in Hs.
    by replace (offset + length_ - 1 - offset + 1) with length_ in Hs by lia.
  - destruct (Z.ltb_spec 0 offset); [by apply open_from; lia|]. replace offset with 0 by lia. apply open_all.
Qed.
Lemma walk_page_calls U prefix (fn : callback FileInfo U) objs u :
  exists fis, call_all fn fis u = walk_page false prefix fn objs u.
Proof.
  revert u. induction objs as [|o objs IH]; intros u; cbn [walk_page ctx_err]; [by exists []|]. cbv zeta.
  case_bool_decide; [apply IH|]. set (fi := mkFileInfo _ _). destruct (fn fi u) as [u1 [e|]] eqn:Ef.
  - exists [fi]. cbn [call_all]. by rewrite Ef.
  - destruct (IH u1) as (fis & H1). exists (fi :: fis). cbn [call_all]. by rewrite Ef.
Qed.
Lemma walk_pages_calls U prefix (fn : callback FileInfo U) pages u : calls fn u (walk_pages false prefix fn pages u).1.
Proof.
  revert u. induction pages as [|[objs|e] pages IH]; intros u; cbn [walk_pages]; [apply calls_none| |apply calls_none].
  destruct (walk_page_calls U prefix fn objs u) as (fis & Hc). destruct (walk_page false prefix fn objs u) as [u1 [e|]].
  - exists fis. by rewrite Hc.
  - destruct (IH u1) as [fis' Hf]. exists (fis ++ fis'). by rewrite call_all_app, Hc.
Qed.

Lemma walk_page_listed U prefix (fn : callback FileInfo U) objs u :
  walk_page false prefix fn objs u = call_all fn (map (entry prefix) (filter (fun o => Base (TrimPrefix (o_Name o) prefix) ≠ ""%string) objs)) u.
Proof.
  revert u. induction objs as [|o objs IH]; intros u; [done|]. cbn [walk_page ctx_err]. cbv zeta. case_bool_decide as E.
  - rewrite filter_cons_False by (intros H; by apply H). apply IH.
  - rewrite filter_cons_True by done. cbn [map call_all]. fold (entry prefix o). destruct (fn _ u) as [u1 [e|]]; [done|apply IH].
Qed.
Lemma walk_pages_listed U prefix (fn : callback FileInfo U) pages u u' : walk_pages false prefix fn pages u = (u', None) ->
  exists pgs, pages = map inl pgs
    /\ call_all fn (map (entry prefix) (filter (fun o => Base (TrimPrefix (o_Name o) prefix) ≠ ""%string) (concat pgs))) u = (u', None).
Proof.
  revert u. induction pages as [|[objs|e] pages IH]; intros u; cbn [walk_pages]; [intros [= <-]; by exists []| |done].
  rewrite walk_page_listed. destruct (call_all _ _ u) as [u1 [e|]] eqn:Ec; [done|]. intros (pgs & -> & Hc)%IH. exists (objs :: pgs).
  split; [done|]. cbn [concat]. by rewrite filter_app, map_app, call_all_app, Ec.
Qed.
Lemma swift_shows md5 : shows_all (backend b md5) objects (be_Layout b).
Proof using L NL.
  intros U t fn u s m s' u' Ht Hm. cbn [be_List backend]. unfold List. destruct (ObjectsWalk _ s) as [s1 pages] eqn:E.
  destruct (walk_pages _ _ _ pages u) as [u1 err] eqn:El. intros [= <- <- ->]. apply walk_pages_listed in El as (pgs & -> & Hc).
  eexists. split; [exact Hc|]. intros fi (h & d & Hh & <- & Hd & ->).
  assert (Hc' : h_Type h ≠ ConfigFile) by (intros Hc'; rewrite Hc' in Ht; by apply (bool_decide_eq_true_2 _) in Ht).
  destruct (naming_under h Hh Hc') as (x & Hx & Hne & Hb & _). rewrite naming_dir in Hx by done.
  destruct (listed_object objects (be_Layout b) s m _ _ h d x Hm Hh Hx (walk_all _ _ _ _ E) Hd) as (o & Ho & Hn & Hs).
  assert (HB : Base (TrimPrefix (o_Name o) ((l_Basedir (be_Layout b) (h_Type h)).1 ++ "/")) = h_Name h) by by rewrite Hn, Hx, TrimPrefix_app.
  apply list_elem_of_fmap. exists o. split; [unfold entry; by rewrite Hs, HB|]. apply list_elem_of_filter. split; [|done].
  rewrite HB. destruct Hh as [?|[_ Hnm]]; [done|]. by destruct (named_plain h Hnm) as [(? & _) _].
Qed.

#[export] Instance swift_implements md5 : Implements (backend b md5) represents true keeps_errors fresh load_ok.
Proof using L NL.
  split; cbn [be_Save be_Remove be_Load be_Stat be_Test be_List backend].
  - intros h rd s m s' rd' r Hh Hfr Hm. unfold Save. destruct (Handle_Valid h); [intros [= <- <- <-]; by right|].
    destruct (fresh_unread rd Hfr) as (Hu & Hra & Hlen). destruct (read_all rd) as [data rd1]. cbn [fst] in Hra.
    subst data. rewrite Hlen, Hu. destruct (ObjectPut _ _ _ _ s) as [s1 err] eqn:E. intros [= <- <- <-].
    pose proof (put_puts (Filename b h) (mkReader (rr_data rd) None None) (rr_hash rd) eq_refl) as Hp. cbn [rd_bytes] in Hp.
    destruct (represents_puts objects _ naming_inj _ _ _ _ _ _ _ _ Hh Hm Hp E) as [Hm1|[Hg Hm1]]; [by left|right]. split; [|done].
    rewrite Wrap_None. by destruct err.
  - intros h s m s' r Hh Hm. unfold Remove. destruct (ObjectDelete _ s) as [s1 err] eqn:E. intros [= <- <-].
    destruct (represents_removes objects _ naming_inj _ _ _ _ _ _ _ Hh Hm (delete_removes _) E) as [?|[Hg ?]]; [left; by split; [|right]|right].
    split; [|done]. rewrite Wrap_None. by destruct err.
  - intros U h o l fn u s m s' u' r Hh Hok Hm. apply service_load_spec; [done..|]. intros s1 s2 r1. unfold openReader.
    destruct (Handle_Valid h); [intros [= <- <-]; left; by eexists|].
    destruct (Z.ltb_spec l 0); [intros [= <- <-]; left; by eexists|]. destruct (Z.ltb_spec o 0); [intros [= <- <-]; left; by eexists|].
    destruct (ObjectOpen _ _ s1) as [s3 r3] eqn:E. intros HE. right. split; [done|].
    destruct (opens_loads objects _ _ _ _ _ _ _ (swift_range_opens h o l ltac:(done) ltac:(done) Hok) E) as [Hsame Hld].
    destruct r3 as [rd|e]; injection HE as <- <-; (split; [done|]); [done|]. by intros rd [=].
  - intros h s m s' fi r Hh Hm. unfold Stat. destruct (Object_ _ s) as [s1 r1] eqn:E.
    destruct (tells_spec objects _ _ _ _ _ _ _ Hh Hm (object_tells _) E) as [Hm1 Ho]. destruct r1 as [o|e]; intros [= <- <- <-]; (split; [done|]); [|done].
    intros _. destruct (Ho _ eq_refl) as (d & Hd & Hs). exists d. by rewrite Hs.
  - intros h s m s' has r Hh Hm. unfold Test. destruct (Object_ _ s) as [s1 r1] eqn:E.
    destruct (tells_spec objects _ _ _ _ _ _ _ Hh Hm (object_tells _) E) as [Hm1 Ho]. destruct r1 as [o|e].
    + intros [= <- <- <-]. split; [done|]. intros _. left. destruct (Ho _ eq_refl) as (d & -> & _). symmetry. by apply bool_decide_eq_true_2.
    + case_bool_decide as Ee; intros [= <- <- <-]; (split; [done|]); [|done]. intros _. left. subst e. rewrite <- (Hm h Hh).
      unfold Filename in E. rewrite (object_missing _ _ _ E). symmetry. apply bool_decide_eq_false_2. by intros [? [=]].
  - intros U t fn u s m s' u' r Hm E. eapply shows_listing; [apply (swift_shows md5)|exact Hm|exact E|]. revert E. unfold List. destruct (ObjectsWalk _ s) as [s1 pages] eqn:E.
    pose proof (walk_pages_calls U ((l_Basedir (be_Layout b) t).1 ++ "/") fn pages u) as Hc.
    destruct (walk_pages _ _ _ pages u) as [u1 err]. intros [= <- <- <-]. split; [|done]. eapply represents_reads; [apply walk_reads|done..].
Qed.
End facts.
End Swift.
