(* ===== verification/Rest.v ===== *)
(** * Rest: the backend that talks to a REST server

    src/backend/rest/rest.go over any HTTP client: the requests of each
    operation, the statuses that are errors, the workaround for empty bodies of
    HTTP/2 connections, and both versions of listings.  A server that follows
    the protocol makes it an implementation of the store of Store.v. *)

From S2P Require Import Prelude Ids Pack Duration Backend Snapshots Trees Paths FileInfo Disk Layouts Store Url Configs Remote.
#[local] Open Scope string_scope.

(** ** Requests and responses *)

Record Response : Type := mkResponse {
  StatusCode : Z;
  ContentLength : Z;
  ProtoMajor : Z;
  ProtoMinor : Z;
  (** the values of the header [Content-Length], and the first one of
      [Content-Type] *)
  h_ContentLength : list (list byte);
  h_ContentType : string;
  Body : Reader;
}.

Class HTTP (S : Type) : Type := {
  (** URL, body and its announced length *)
  do_Post : string -> Reader -> Z -> S -> S * (Response + error);
  do_Get : string -> option http_range -> S -> S * (Response + error);
  do_Head : string -> S -> S * (Response + error);
  do_Delete : string -> S -> S * (Response + error);
  (** the decoders of a JSON list of names, and of names and sizes *)
  json_names : Reader -> list string + error;
  json_items : Reader -> list (string * Z) + error;
}.

Definition ContentTypeV1 : string := "application/vnd.x.restic.rest.v1".
Definition ContentTypeV2 : string := "application/vnd.x.restic.rest.v2".

(** [http.NewRequest] fails when the URL cannot be parsed. *)
Definition bad_request (url : string) : option error :=
  match Parse url with Some _ => None | None => Some (EMsg "invalid URL") end.

Record be : Type := mkBe { url : URL; be_Layout : Layout }.

(** An error that says that the file of the handle does not exist. *)
Definition ErrIsNotExist : error := ENotFound.
Definition IsNotExist (e : error) : bool := bool_decide (Cause e = ErrIsNotExist).

#[local] Open Scope Z_scope.

(** [strconv.ParseUint] with base 10 and 63 bits *)
Definition ParseUint63 (l : list byte) : option Z :=
  if bool_decide (l = []) || negb (forallb is_digit l) then None
  else if digits_value l <? 2 ^ 63 then Some (digits_value l) else None.
Definition checkContentLength (resp : Response) : option error :=
  if negb (bool_decide (ContentLength resp = 0)) then None
  else if negb (bool_decide (ProtoMajor resp = 2)) && negb (bool_decide (ProtoMinor resp = 0)) then None
  else match h_ContentLength resp with
       | [v] =>
           match ParseUint63 v with
           | None => Some (EMsg "unable to parse Content-Length")
           | Some cl => if negb (bool_decide (cl = 0)) then Some (EMsg "unexpected EOF: got 0 bytes") else None
           end
       | _ => None
       end.

Section rest.
Context {S : Type} `{HTTP S} (types : list string).
(** The query with [create=true] added *)
Context (query_set : string -> string).
(** Has the callback read the reader to its end? *)
Context (at_end : Reader -> bool).

Definition Open (cfg : Configs.Rest.Config) : be + error :=
  match Semaphore.NewSemaphore (Configs.Rest.Connections cfg) with
  | Err e => inr e
  | Panic msg => inr (EMsg msg)
  | Ok _ =>
      let u := URL_String (Configs.Rest.URL_ cfg) in
      let u := if ends_with_slash u then String.substring 0 (String.length u - 1) u else u in
      inl (mkBe (Configs.Rest.URL_ cfg) (RESTLayout Join "" u types))
  end.

Section operations.
Context (b : be).
Definition Filename (h : Handle) : string := l_Filename (be_Layout b) h.
Definition Location : string := URL_String (url b).

Definition Save (ctx : bool) (h : Handle) (rd : RewindReader) (s : S) : S * RewindReader * option error :=
  match Handle_Valid h with
  | Some e => (s, rd, Some (EPermanent e))
  | None =>
      match bad_request (Filename h) with
      | Some e => (s, rd, Some (EWrap "NewRequest" e))
      | None =>
          let '(data, rd') := read_all rd in
          match do_Post (Filename h) (mkReader data None None) (Length rd) s with
          | (s, inr e) => (s, rd', Some (EWrap "client.Post" e))
          | (s, inl resp) =>
              if negb (bool_decide (StatusCode resp = 200)) then (s, rd', Some (EMsg "server response unexpected"))
              else (s, rd', Wrap "Close" (rd_close (Body resp)))
          end
      end
  end.

Definition openReader (ctx : bool) (h : Handle) (length_ offset : Z) (s : S) : S * (Reader + error) :=
  match Handle_Valid h with
  | Some e => (s, inr (EPermanent e))
  | None =>
      if offset <? 0 then (s, inr (EMsg "offset is negative"))
      else if length_ <? 0 then (s, inr (EMsg "invalid length"))
      else match bad_request (Filename h) with
      | Some e => (s, inr (EWrap "http.NewRequest" e))
      | None =>
          let range := if 0 <? length_ then RangeFromTo offset (i64 (offset + length_ - 1)) else RangeFrom offset in
          match do_Get (Filename h) (Some range) s with
          | (s, inr e) => (s, inr (EWrap "client.Do" e))
          | (s, inl resp) =>
              if bool_decide (StatusCode resp = 404) then (s, inr ErrIsNotExist)
              else if negb (bool_decide (StatusCode resp = 200)) && negb (bool_decide (StatusCode resp = 206))
              then (s, inr (EMsg "unexpected HTTP response"))
              else match checkContentLength resp with
                   | Some e => (s, inr e)
                   | None => (s, inl (Body resp))
                   end
          end
      end
  end.
(** [Load] waits for the end of the body before it closes it. *)
Definition Load {U} (ctx : bool) (h : Handle) (length_ offset : Z) (fn : callback Reader U) (u : U) (s : S)
  : S * U * option error :=
  match openReader ctx h length_ offset s with
  | (s, inr e) => (s, u, Some e)
  | (s, inl r) =>
      let '(u, err) := fn r u in
      match err with
      | Some e => (s, u, Some e)
      | None =>
          let err := if at_end r then rd_err r else None in
          (s, u, match err with Some e => Some e | None => rd_close r end)
      end
  end.

Definition Stat (ctx : bool) (h : Handle) (s : S) : S * (FileInfo * option error) :=
  let fail e := (mkFileInfo 0 "", Some e) in
  match Handle_Valid h with
  | Some e => (s, fail (EPermanent e))
  | None =>
      match bad_request (Filename h) with
      | Some e => (s, fail (EWrap "NewRequest" e))
      | None =>
          match do_Head (Filename h) s with
          | (s, inr e) => (s, fail (EWrap "client.Head" e))
          | (s, inl resp) =>
              match rd_close (Body resp) with
              | Some e => (s, fail (EWrap "Close" e))
              | None =>
                  if bool_decide (StatusCode resp = 404) then (s, fail ErrIsNotExist)
                  else if negb (bool_decide (StatusCode resp = 200)) then (s, fail (EMsg "unexpected HTTP response"))
                  else if ContentLength resp <? 0 then (s, fail (EMsg "negative content length"))
                  else (s, (mkFileInfo (ContentLength resp) (h_Name h), None))
              end
          end
      end
  end.
Definition Test (ctx : bool) (h : Handle) (s : S) : S * (bool * option error) :=
  match Stat ctx h s with
  | (s, (_, Some _)) => (s, (false, None))
  | (s, (_, None)) => (s, (true, None))
  end.
Definition Remove (ctx : bool) (h : Handle) (s : S) : S * option error :=
  match Handle_Valid h with
  | Some e => (s, Some (EPermanent e))
  | None =>
      match bad_request (Filename h) with
      | Some e => (s, Some (EWrap "http.NewRequest" e))
      | None =>
          match do_Delete (Filename h) s with
          | (s, inr e) => (s, Some (EWrap "client.Do" e))
          | (s, inl resp) =>
              if bool_decide (StatusCode resp = 404) then (s, Some ErrIsNotExist)
              else if negb (bool_decide (StatusCode resp = 200)) then (s, Some (EMsg "blob not removed"))
              else match rd_err (Body resp) with
                   | Some e => (s, Some (EWrap "Copy" e))
                   | None => (s, Wrap "Close" (rd_close (Body resp)))
                   end
          end
      end
  end.

(** A callback that may use the backend, too. *)
Definition scallback (U : Type) : Type := FileInfo -> U -> S -> S * U * option error.
Definition pure_callback {U} (fn : callback FileInfo U) : scallback U := fun fi u s => let '(u, err) := fn fi u in (s, u, err).

Fixpoint listv1 {U} (ctx : bool) (t : string) (names : list string) (fn : scallback U) (u : U) (s : S) : S * U * option error :=
  match names with
  | [] => (s, u, ctx_err ctx)
  | m :: names =>
      match Stat ctx (mkBeHandle t InvalidBlob m) s with
      | (s, (_, Some e)) => (s, u, Some e)
      | (s, (fi, None)) =>
          match ctx_err ctx with
          | Some e => (s, u, Some e)
          | None =>
              let '(s, u, err) := fn (mkFileInfo (fi_Size fi) m) u s in
              match err with
              | Some e => (s, u, Some e)
              | None => match ctx_err ctx with Some e => (s, u, Some e) | None => listv1 ctx t names fn u s end
              end
          end
      end
  end.
Fixpoint listv2 {U} (ctx : bool) (items : list (string * Z)) (fn : scallback U) (u : U) (s : S) : S * U * option error :=
  match items with
  | [] => (s, u, ctx_err ctx)
  | (name, size) :: items =>
      match ctx_err ctx with
      | Some e => (s, u, Some e)
      | None =>
          let '(s, u, err) := fn (mkFileInfo size name) u s in
          match err with
          | Some e => (s, u, Some e)
          | None => match ctx_err ctx with Some e => (s, u, Some e) | None => listv2 ctx items fn u s end
          end
      end
  end.
Definition list_with {U} (ctx : bool) (t : string) (fn : scallback U) (u : U) (s : S) : S * U * option error :=
  let url := with_slash (l_Dirname (be_Layout b) (mkBeHandle t InvalidBlob "")) in
  match bad_request url with
  | Some e => (s, u, Some (EWrap "NewRequest" e))
  | None =>
      match do_Get url None s with
      | (s, inr e) => (s, u, Some (EWrap "List" e))
      | (s, inl resp) =>
          if negb (bool_decide (StatusCode resp = 200)) then (s, u, Some (EMsg "List failed"))
          else if bool_decide (h_ContentType resp = ContentTypeV2) then
            match json_items (Body resp) with
            | inr e => (s, u, Some (EWrap "Decode" e))
            | inl items => listv2 ctx items fn u s
            end
          else
            match json_names (Body resp) with
            | inr e => (s, u, Some (EWrap "Decode" e))
            | inl names => listv1 ctx t names fn u s
            end
      end
  end.
Definition List {U} (ctx : bool) (t : string) (fn : callback FileInfo U) (u : U) (s : S) : S * U * option error :=
  list_with ctx t (pure_callback fn) u s.
Definition removeKeys (ctx : bool) (t : string) (s : S) : S * option error :=
  let '(s, _, err) := list_with ctx t (fun fi _ s => let '(s, err) := Remove ctx (mkBeHandle t InvalidBlob (fi_Name fi)) s in (s, tt, err)) tt s in
  (s, err).
Fixpoint delete_types (ctx : bool) (l : list string) (s : S) : S * option error :=
  match l with
  | [] =>
      let '(s, err) := Remove ctx config_handle s in
      (s, match err with Some e => if IsNotExist e then None else Some e | None => None end)
  | t :: l =>
      let '(s, err) := removeKeys ctx t s in
      match err with Some _ => (s, None) | None => delete_types ctx l s end
  end.
Definition Delete (ctx : bool) (s : S) : S * option error := delete_types ctx alltypes s.

Definition backend : Backend S := {|
  be_Test := Test; be_Remove := Remove; be_Save := Save; be_Load := @Load; be_Stat := Stat;
  be_List := @List; be_IsNotExist := IsNotExist; be_Delete := Delete; be_Hasher := None |}.
End operations.

Definition with_query (u : URL) (q : string) : URL :=
  mkURL (Scheme u) (Opaque u) (User u) (Host u) (Path u) (RawPath u) (ForceQuery u) q (Fragment u) (RawFragment u).
Definition Create (cfg : Configs.Rest.Config) (s : S) : S * (be + error) :=
  match Open cfg with
  | inr e => (s, inr e)
  | inl be =>
      match Stat be false config_handle s with
      | (s, (_, None)) => (s, inr (EMsg "config file already exists"))
      | (s, (_, Some _)) =>
          let u := URL_String (with_query (Configs.Rest.URL_ cfg) (query_set (RawQuery (Configs.Rest.URL_ cfg)))) in
          match do_Post u (mkReader [] None None) 0 s with
          | (s, inr e) => (s, inr e)
          | (s, inl resp) =>
              if negb (bool_decide (StatusCode resp = 200)) then (s, inr (EMsg "server response unexpected"))
              else match rd_err (Body resp) with
                   | Some e => (s, inr e)
                   | None => match rd_close (Body resp) with Some e => (s, inr e) | None => (s, inl be) end
                   end
          end
      end
  end.
End rest.

(** ** A server that follows the protocol *)

(** The body of a response to a request for [x]: it is served; or the
    connection (HTTP/2) was closed before any data was sent, which shows as an
    empty body, although the header announces the length of [x]. *)
Definition body_of (resp : Response) (x : list byte) : Prop :=
  serves (Body resp) x
  \/ (ContentLength resp = 0 /\ ProtoMajor resp = 2 /\ rd_bytes (Body resp) = [] /\ rd_err (Body resp) = None
      /\ exists v, h_ContentLength resp = [v] /\ ParseUint63 v = Some (lenZ x)).
Definition ranged (r : http_range) (d : list byte) : list byte :=
  match r with RangeFrom a => drop (Z.to_nat a) d | RangeFromTo a b => from_to a b d end.

Class ServerLaws {S} `{HTTP S} (objects : contents S) : Prop := {
  (** a file is stored when the status is 200, and may be when the answer is
      lost; an upload is stored as a whole *)
  post_puts u rd : rd_err rd = None ->
    puts objects (fun r => match r with inl resp => bool_decide (StatusCode resp = 200) | inr _ => false end) u (rd_bytes rd)
      (do_Post u rd (lenZ (rd_bytes rd)));
  get_reads u r : reads objects (do_Get u r);
  get_body u r s s' resp : do_Get u (Some r) s = (s', inl resp) -> StatusCode resp = 200 \/ StatusCode resp = 206 ->
    exists d, objects s u = Some d /\ body_of resp (ranged r d);
  head_reads u : reads objects (do_Head u);
  head_size u s s' resp : do_Head u s = (s', inl resp) -> StatusCode resp = 200 ->
    exists d, objects s u = Some d /\ (0 <= ContentLength resp -> ContentLength resp = lenZ d);
  (** the names of a type, or their names and sizes: all of them, when what was
      sent can be decoded *)
  list_items d s s' resp items x f : do_Get d None s = (s', inl resp) -> StatusCode resp = 200 -> h_ContentType resp = ContentTypeV2 ->
    json_items (Body resp) = inl items -> ends_with_slash d = true -> noslash x -> objects s (d ++ x) = Some f -> (x, lenZ f) ∈ items;
  list_names d s s' resp names x : do_Get d None s = (s', inl resp) -> StatusCode resp = 200 -> h_ContentType resp ≠ ContentTypeV2 ->
    json_names (Body resp) = inl names -> ends_with_slash d = true -> noslash x -> is_Some (objects s (d ++ x)) -> x ∈ names;
  delete_removes u :
    removes objects (fun r => match r with inl resp => bool_decide (StatusCode resp = 200) | inr _ => false end) u (do_Delete u);
}.

Section facts.
Context {S : Type} {CS : HTTP S} (objects : contents S) {L : ServerLaws objects}.
Context (at_end : Reader -> bool) (b : be).
Context (inj : forall h h', store_handle h -> store_handle h' -> l_Filename (be_Layout b) h = l_Filename (be_Layout b) h' <-> same_file h h').
(** The files of a type are those whose names follow its URL. *)
Context (below : forall h, store_handle h -> h_Type h ≠ ConfigFile ->
  l_Filename (be_Layout b) h = with_slash (l_Dirname (be_Layout b) (mkBeHandle (h_Type h) InvalidBlob "")) ++ h_Name h).
#[local] Abbreviation represents := (represents objects (be_Layout b)).

(** The workaround finds every body that was cut off. *)
Lemma checkContentLength_finds resp x : body_of resp x -> checkContentLength resp = None -> serves (Body resp) x.
Proof.
  intros [?|(H0 & H2 & Hb & He & v & Hv & Hp)]; [done|]. unfold checkContentLength. rewrite H0, H2, Hv, Hp.
  rewrite (bool_decide_eq_true_2 (0 = 0)), (bool_decide_eq_true_2 (2 = 2)) by done. cbn [negb andb].
  case_bool_decide as Hl; cbn [negb]; [|done]. intros _. left. split; [|done]. rewrite Hb. destruct x; [done|]. cbn in Hl. lia.
Qed.

Lemma stat_spec h s m s' fi r : store_handle h -> represents s m -> Stat b false h s = (s', (fi, r)) ->
  represents s' m /\ (r = None -> exists d, m h = Some d /\ fi = mkFileInfo (lenZ d) (h_Name h)).
Proof using L.
  intros Hh Hm. unfold Stat. destruct (Handle_Valid h); [by intros [= <- <- <-]|]. destruct (bad_request _); [by intros [= <- <- <-]|].
  destruct (do_Head _ s) as [s1 [resp|e]] eqn:E;
    (assert (Hm1 : represents s1 m) by (eapply represents_reads; [apply head_reads|done..])); [|by intros [= <- <- <-]].
  destruct (rd_close (Body resp)); [by intros [= <- <- <-]|]. case_bool_decide; [by intros [= <- <- <-]|].
  case_bool_decide as H200; cbn [negb]; [|by intros [= <- <- <-]]. destruct (Z.ltb_spec (ContentLength resp) 0); [by intros [= <- <- <-]|].
  intros [= <- <- <-]. split; [done|]. intros _. destruct (head_size _ _ _ _ E H200) as (d & Hd & Hs). exists d.
  rewrite <- (Hm h Hh), Hs by done. done.
Qed.
Lemma stat_reads h s s' x : Stat b false h s = (s', x) -> forall n, objects s' n = objects s n.
Proof using L.
  unfold Stat. destruct (Handle_Valid h); [by intros [= <- <-]|]. destruct (bad_request _); [by intros [= <- <-]|].
  destruct (do_Head _ s) as [s1 r] eqn:E. intros HE n. rewrite <- (head_reads _ _ _ _ n E).
  assert (s' = s1) as ->; [|done]. destruct r as [resp|e]; [|by injection HE as <- _].
  destruct (rd_close (Body resp)); [by injection HE as <- _|]. case_bool_decide; [by injection HE as <- _|].
  case_bool_decide; cbn [negb] in HE; [|by injection HE as <- _]. by destruct (ContentLength resp <? 0); injection HE as <- _.
Qed.

Lemma listv1_spec U t names (fn : callback FileInfo U) u s m s' u' r : represents s m ->
  listv1 b false t names (pure_callback fn) u s = (s', u', r) ->
  represents s' m /\ exists fis r0, call_all fn fis u = (u', r0) /\ (r = None -> r0 = None
    /\ forall h d, store_handle h -> h_Type h = t -> m h = Some d -> h_Name h ∈ names -> mkFileInfo (lenZ d) (h_Name h) ∈ fis).
Proof using L inj.
  revert u s. induction names as [|x names IH]; intros u s Hm; cbn [listv1 ctx_err].
  - intros [= <- <- <-]. split; [done|]. exists [], None. split; [done|]. intros _. split; [done|]. by intros h d _ _ _ ?%elem_of_nil.
  - destruct (Stat b false _ s) as [s1 [fi [e|]]] eqn:E;
      (assert (Hm1 : represents s1 m) by (intros h Hh; rewrite (stat_reads _ _ _ _ E); by apply Hm)).
    + intros [= <- <- <-]. split; [done|]. by exists [], None.
    + unfold pure_callback at 1. set (fi' := mkFileInfo _ _). destruct (fn fi' u) as [u1 [e|]] eqn:Ef.
      * intros [= <- <- <-]. split; [done|]. exists [fi'], (Some e). cbn [call_all]. by rewrite Ef.
      * intros (Hm2 & fis & r0 & Hf & Hall)%IH; [|done]. split; [done|]. exists (fi' :: fis), r0. cbn [call_all]. rewrite Ef. split; [done|].
        intros Hr. destruct (Hall Hr) as [-> Hin]. split; [done|]. intros h d Hh Ht Hd [Hx|Hx]%elem_of_cons; apply elem_of_cons; [left|right; by apply Hin].
        assert (Hs : same_file h (mkBeHandle t InvalidBlob x)) by (split; [done|by right]).
        assert (Hh' : store_handle (mkBeHandle t InvalidBlob x)).
        { destruct Hh as [Hc|[Hc Hn]]; [left; cbn; congruence|right]. cbn. rewrite <- Ht. split; [done|].
          unfold named in *. cbn. by rewrite <- Hx. }
        destruct (stat_spec _ _ _ _ _ _ Hh' Hm E) as [_ HS]. destruct (HS eq_refl) as (d' & Hd' & ->). unfold fi'. cbn [fi_Size].
        assert (m h = m (mkBeHandle t InvalidBlob x)) as Hmm.
        { rewrite <- (Hm h Hh), <- (Hm _ Hh'). by rewrite (proj2 (inj h _ Hh Hh') Hs). }
        rewrite Hd, Hd' in Hmm. injection Hmm as <-. by rewrite Hx.
Qed.
Lemma listv2_calls U items (fn : callback FileInfo U) u (s : S) s' u' r : listv2 false items (pure_callback fn) u s = (s', u', r) ->
  s' = s /\ call_all fn (map (fun i => mkFileInfo i.2 i.1) items) u = (u', r).
Proof.
  revert u. induction items as [|[name size] items IH]; intros u; cbn [listv2 ctx_err].
  - by intros [= <- <- <-].
  - unfold pure_callback at 1. cbn [map call_all fst snd]. destruct (fn _ u) as [u1 [e|]] eqn:Ef; [|apply IH].
    by intros [= <- <- <-].
Qed.
Lemma with_slash_ends x : ends_with_slash (with_slash x) = true.
Proof.
  unfold with_slash. destruct (ends_with_slash x) eqn:E; [done|]. unfold ends_with_slash. rewrite bytes_of_app.
  change (bytes_of "/") with [Byte.x2f]. by rewrite last_snoc, bool_decide_eq_true_2.
Qed.
Lemma rest_list_spec U t (fn : callback FileInfo U) u s m s' u' r : represents s m -> List b false t fn u s = (s', u', r) ->
  represents s' m /\ listing keeps_errors m t fn u u' r.
Proof using L inj below.
  intros Hm. unfold List, list_with. cbv zeta. set (dir := with_slash _).
  destruct (bad_request dir); [intros [= <- <- <-]; split; [done|apply listing_stopped]|].
  destruct (do_Get _ _ s) as [s1 [resp|e]] eqn:E;
    (assert (Hm1 : represents s1 m) by (eapply represents_reads; [apply get_reads|done..]));
    [|intros [= <- <- <-]; split; [done|apply listing_stopped]].
  case_bool_decide as H200; cbn [negb]; [|intros [= <- <- <-]; split; [done|apply listing_stopped]].
  assert (Hfile : forall h d, t ∈ file_types -> store_handle h -> h_Type h = t -> m h = Some d -> noslash (h_Name h) /\ objects s (dir ++ h_Name h) = Some d).
  { intros h d Ht Hh Hty Hd. assert (Hc : h_Type h ≠ ConfigFile) by (rewrite Hty; intros ->; by apply (bool_decide_eq_true_2 _) in Ht).
    rewrite <- Hd, <- (Hm h Hh), (below h Hh Hc), Hty. split; [|done]. destruct Hh as [?|[_ Hn]]; [done|]. by apply named_plain in Hn as [(_ & _ & _ & ?) _]. }
  case_bool_decide as HV2.
  - destruct (json_items _) as [items|e] eqn:Ej; [|intros [= <- <- <-]; split; [done|apply listing_stopped]].
    intros [-> Hc]%listv2_calls. split; [done|]. eexists _, r. split; [exact Hc|]. intros Ht ->.
    intros fi (h & d & Hh & Hty & Hd & ->). destruct (Hfile h d Ht Hh Hty Hd) as [Hns Hob]. apply list_elem_of_fmap.
    exists (h_Name h, lenZ d). split; [done|]. eapply list_items; [exact E|done|done|exact Ej|apply with_slash_ends|done|exact Hob].
  - destruct (json_names _) as [names|e] eqn:Ej; [|intros [= <- <- <-]; split; [done|apply listing_stopped]].
    intros HE. eapply listv1_spec in HE as (Hm2 & fis & r0 & Hc & Hall); [|exact Hm1]. split; [done|]. exists fis, r0. split; [done|].
    intros Ht Hr. destruct (Hall Hr) as [-> Hin]. intros fi (h & d & Hh & Hty & Hd & ->). apply Hin; [done..|].
    destruct (Hfile h d Ht Hh Hty Hd) as [Hns Hob]. eapply list_names; [exact E|done|done|exact Ej|apply with_slash_ends|done|by rewrite Hob].
Qed.

#[export] Instance rest_implements : Implements (backend at_end b) represents true keeps_errors fresh load_ok.
Proof using L inj below.
  split; cbn [be_Save be_Remove be_Load be_Stat be_Test be_List backend].
  - intros h rd s m s' rd' r Hh Hfr Hm. unfold Save. destruct (Handle_Valid h); [intros [= <- <- <-]; by right|].
    destruct (bad_request _); [intros [= <- <- <-]; by right|]. destruct (fresh_unread rd Hfr) as (Hu & Hra & Hlen).
    destruct (read_all rd) as [data rd1]. cbn [fst] in Hra. subst data. rewrite Hlen, Hu. destruct (do_Post _ _ _ s) as [s1 r1] eqn:E.
    pose proof (post_puts (Filename b h) (mkReader (rr_data rd) None None) eq_refl) as Hp. cbn [rd_bytes] in Hp.
    destruct (represents_puts objects _ inj _ _ _ _ _ _ _ _ Hh Hm Hp E) as [Hm1|[Hg Hm1]].
    + intros HE. left. assert (s' = s1) as ->; [|done]. destruct r1 as [resp|e]; [destruct (bool_decide _)|]; cbn [negb] in HE; congruence.
    + intros HE. right. destruct r1 as [resp|e]; [cbn beta in Hg; rewrite Hg in HE; cbn [negb] in HE|]; by simplify_eq.
  - intros h s m s' r Hh Hm. unfold Remove. destruct (Handle_Valid h); [intros [= <- <-]; by right|].
    destruct (bad_request _); [intros [= <- <-]; by right|]. destruct (do_Delete _ s) as [s1 r1] eqn:E. intros HE.
    assert (s' = s1) as ->.
    { destruct r1 as [resp|e]; [|congruence]. case_bool_decide; [congruence|]. case_bool_decide; cbn [negb] in HE; [|congruence].
      destruct (rd_err (Body resp)); congruence. }
    destruct (represents_removes objects _ inj _ _ _ _ _ _ _ Hh Hm (delete_removes _) E) as [?|[Hg ?]]; [left; by split; [|right]|right].
    split; [|done]. destruct r1 as [resp|e]; [|by simplify_eq]. destruct (bool_decide (StatusCode resp = 404)); [by simplify_eq|].
    cbn beta in Hg. rewrite Hg in HE. cbn [negb] in HE. by simplify_eq.
  - intros U h o l fn u s m s' u' r Hh Hok Hm. unfold Load. destruct (openReader b false h o l s) as [s1 r1] eqn:E.
    assert (HO : represents s1 m /\ forall rd, r1 = inl rd -> 0 <= l /\ loads true (m h) o l rd).
    { revert E. unfold openReader. destruct (Handle_Valid h); [by intros [= <- <-]|].
      destruct (Z.ltb_spec l 0); [by intros [= <- <-]|]. destruct (Z.ltb_spec o 0); [by intros [= <- <-]|].
      destruct (bad_request _); [by intros [= <- <-]|]. cbv zeta. set (rng := if 0 <? o then _ else _).
      destruct (do_Get _ _ s) as [s2 [resp|e]] eqn:E;
        (assert (Hm1 : represents s2 m) by (eapply represents_reads; [apply get_reads|done..])); [|by intros [= <- <-]].
      case_bool_decide as H404; [by intros [= <- <-]|]. case_bool_decide as H200; cbn [negb andb].
      2: case_bool_decide as H206; cbn [negb andb]; [|by intros [= <- <-]].
      all: destruct (checkContentLength resp) eqn:Ec; [by intros [= <- <-]|]; intros [= <- <-]; split; [done|]; intros rd [= <-]; split; [done|].
      all: destruct (get_body _ _ _ _ _ E) as (d & Hd & Hb); [by auto|]; rewrite <- (Hm h Hh); unfold Filename in Hd; rewrite Hd;
        pose proof (checkContentLength_finds _ _ Hb Ec) as Hs; unfold loads; unfold rng, ranged in Hs; unfold file_range.
      all: destruct (Z.ltb_spec 0 o); [|exact Hs]; unfold load_ok in Hok; rewrite i64_small in Hs by lia; unfold from_to in Hs;
        by replace (l + o - 1 - l + 1) with o in Hs by lia. }
    destruct HO as [Hm1 HL]. destruct r1 as [rd|e]; [|intros [= <- <- <-]; split; [done|by left]].
    destruct (HL rd eq_refl) as [H0 Hld]. destruct (fn rd u) as [u1 err] eqn:Ef. intros HE.
    assert (s' = s1 /\ u' = u1 /\ r = or_late err (match (if at_end rd then rd_err rd else None) with Some e => Some e | None => rd_close rd end))
      as (-> & -> & ->) by (destruct err; by injection HE as <- <- <-).
    split; [done|]. right. eexists rd, _. rewrite Ef. split_and!; [done|exact Hld|done|reflexivity].
  - intros h s m s' fi r Hh Hm. by apply stat_spec.
  - intros h s m s' has r Hh Hm. unfold Test. destruct (Stat b false h s) as [s1 [fi [e|]]] eqn:E;
      destruct (stat_spec _ _ _ _ _ _ Hh Hm E) as [Hm1 HS]; intros [= <- <- <-]; (split; [done|]); [by right|].
    intros _. left. destruct (HS eq_refl) as (d & -> & _). symmetry. by apply bool_decide_eq_true_2.
  - intros U t fn u s m s' u' r Hm. by apply rest_list_spec.
Qed.
End facts.
