(* ===== verification/Local.v ===== *)
(** * Local: the backend in a local directory

    The backend that stores files in a directory of the local file system
    (src/backend/local/local.go, local_unix.go, config.go), over any [Disk] and
    any [Layout].  The theorem is that it implements a map from files to
    contents in which a save is atomic: a file is there with all its content
    or not at all, whatever calls of the system fail, and also when the
    system stops in the middle; and a listing without an error has shown every
    file. *)

From S2P Require Import Prelude Ids Pack Duration Backend Snapshots Trees Paths FileInfo Disk Layouts Store.
#[local] Open Scope io_scope.

(** [Config] (src/backend/local/config.go) *)
Record Config : Type := mkConfig { cfg_Path : string; cfg_Layout : string }.
Definition ParseConfig (cfg : string) : Config + error :=
  if negb (has_prefix "local:" cfg) then inr (EMsg "invalid format, prefix not found")
  else inl (mkConfig (String.substring 6 (String.length cfg - 6) cfg) "").

Record Local : Type := mkLocal { lo_Config : Config; lo_Layout : Layout }.
Definition Location (b : Local) : string := cfg_Path (lo_Config b).

(** [Modes] (src/backend/paths.go) *)
Definition Modes_File : Z := 0x180.
Definition defaultLayout : string := "default".

Section local.
Context {F : Type} `{Disk F}.

(** [types] is the order in which the layout's map is ranged over. *)
Definition Open (types : list string) (cfg : Config) : io F Local :=
  l <-- ParseLayout types LocalFilesystem (cfg_Layout cfg) defaultLayout (cfg_Path cfg);
  io_ret (mkLocal cfg l).

Fixpoint make_dirs (dirs : list string) : io F unit :=
  match dirs with
  | [] => io_ret tt
  | d :: dirs => check (os_MkdirAll d);; make_dirs dirs
  end.
Definition Create (types : list string) (cfg : Config) : io F Local :=
  l <-- ParseLayout types LocalFilesystem (cfg_Layout cfg) defaultLayout (cfg_Path cfg);
  let be := mkLocal cfg l in
  r <-- sys (os_Lstat (l_Filename l (mkBeHandle ConfigFile InvalidBlob "")));
  match r with
  | inl _ => io_err (EMsg "config file already exists")
  | inr _ => make_dirs (l_Paths l);; io_ret be
  end.

(** ** Unix (src/backend/local/local_unix.go, src/internal/fs/file_unix.go) *)

Definition fsyncDir (dir : string) : io F unit :=
  d <-- try (os_Open dir);
  err <-- sys (os_Sync dir);
  let err := match err with Some e => if is_not_supported e then None else Some e | None => None end in
  let cerr := of_close d in
  match (match err with None => cerr | Some e => Some e end) with
  | Some e => io_err e
  | None => io_ret tt
  end.
(** [fs.Chmod] *)
Definition Chmod (name : string) (mode : Z) : io F (option error) :=
  err <-- sys (os_Chmod name mode);
  io_ret (match err with Some e => if is_not_supported e then None else Some e | None => None end).
Definition setFileReadonly (f : string) (mode : Z) : io F (option error) := Chmod f (Z.land mode (Z.lnot 0x92)).

(** ** Operations *)

Context (b : Local).
Definition Filename (h : Handle) : string := l_Filename (lo_Layout b) h.
Definition IsNotExist (e : error) : bool := is_not_exist e.

(** The first deferred function of [Save]: errors that retrying will not
    change.  It also asks [os.IsPermission], which does not look into errors
    that [errors.WithStack] has wrapped, as it has all errors there are here:
    the answer is no. *)
Definition mark_permanent (e : error) : error := if is_no_space e then EPermanent e else e.

(** The temporary file; its directory is made when it is missing. *)
Definition open_temp (dir tmpname : string) : io F string :=
  r <-- sys (os_TempFile dir tmpname);
  match r with
  | inl f => io_ret f
  | inr e =>
      if IsNotExist e then
        mkdirErr <-- sys (os_MkdirAll dir);
        match mkdirErr with
        | Some _ => io_err e
        | None => try (os_TempFile dir tmpname)
        end
      else io_err e
  end.

(** What [Save] does with the open temporary file. *)
Definition save_data (f finalname dir : string) (rd : RewindReader) : io F unit :=
  r <-- sys (os_Copy f (mkReader (read_all rd).1 None None));
  match r with
  | (_, Some e) => io_err e
  | (wbytes, None) =>
      if bool_decide (wbytes ≠ Length rd) then io_err (EMsg "wrote too few bytes")
      else
        err <-- sys (os_Sync f);
        let syncNotSup := match err with Some e => is_not_supported e | None => false end in
        match err with
        | Some e => if negb syncNotSup then io_err e else io_ret tt
        | None => io_ret tt
        end;;
        check (os_Close f);;
        check (os_Rename f finalname);;
        (if negb syncNotSup then fsyncDir dir else io_ret tt);;
        err <-- setFileReadonly finalname Modes_File;
        match err with
        | Some e => if negb (is_permission e) then io_err e else io_ret tt
        | None => io_ret tt
        end
  end.
(** The second deferred function: close and remove the temporary file on an
    error. *)
Definition cleanup (f : string) (m : io F unit) : io F unit := fun s =>
  match m s with
  | (s, Err e) =>
      let '(s, _) := os_Close f s in
      let '(s, _) := os_Remove f s in
      (s, Err e)
  | r => r
  end.
Definition Save_io (h : Handle) (rd : RewindReader) : io F unit :=
  let finalname := Filename h in
  let dir := Dir finalname in
  f <-- open_temp dir (Base finalname ++ "-tmp-");
  cleanup f (save_data f finalname dir rd).
Definition Save (ctx : bool) (h : Handle) (rd : RewindReader) (s : F) : F * RewindReader * option error :=
  match Handle_Valid h with
  | Some e => (s, rd, Some (EPermanent e))
  | None =>
      match Save_io h rd s with
      | (s, Err e) => (s, (read_all rd).2, Some (mark_permanent e))
      | (s, _) => (s, (read_all rd).2, None)
      end
  end.

Definition openReader (ctx : bool) (h : Handle) (length_ offset : Z) (s : F) : F * (Reader + error) :=
  match Handle_Valid h with
  | Some e => (s, inr (EPermanent e))
  | None =>
      if offset <? 0 then (s, inr (EMsg "offset is negative"))
      else match os_Open (Filename h) s with
      | (s, inr e) => (s, inr e)
      | (s, inl f) =>
          match (if 0 <? offset then of_seek f else None) with
          | Some e => (s, inr e)
          | None => (s, inl (limited f length_ offset))
          end
      end
  end.
Definition Load {U} (ctx : bool) (h : Handle) (length_ offset : Z) (fn : callback Reader U) (u : U) (s : F)
  : F * U * option error :=
  DefaultLoad openReader ctx h length_ offset fn u s.

Definition Stat (ctx : bool) (h : Handle) (s : F) : F * (FileInfo * option error) :=
  match Handle_Valid h with
  | Some e => (s, (mkFileInfo 0 "", Some (EPermanent e)))
  | None =>
      match os_Stat (Filename h) s with
      | (s, inr e) => (s, (mkFileInfo 0 "", Some e))
      | (s, inl fi) => (s, (mkFileInfo (oi_Size fi) (h_Name h), None))
      end
  end.

Definition Test (ctx : bool) (h : Handle) (s : F) : F * (bool * option error) :=
  match os_Stat (Filename h) s with
  | (s, inr e) => if IsNotExist e then (s, (false, None)) else (s, (false, Some e))
  | (s, inl _) => (s, (true, None))
  end.

Definition Remove (ctx : bool) (h : Handle) (s : F) : F * option error :=
  let fn := Filename h in
  match Chmod fn 0x1b6 s with
  | (s, Ok (Some e)) => if negb (is_permission e) then (s, Some e) else os_Remove fn s
  | (s, _) => os_Remove fn s
  end.

Fixpoint visit_entries {U} (ctx : bool) (fn : callback FileInfo U) (sub : list OsInfo) (u : U) : U * option error :=
  match sub with
  | [] => (u, None)
  | fi :: sub =>
      match ctx_err ctx with
      | Some e => (u, Some e)
      | None =>
          let '(u, err) := fn (mkFileInfo (oi_Size fi) (oi_Name fi)) u in
          match err with Some e => (u, Some e) | None => visit_entries ctx fn sub u end
      end
  end.
Definition visitFiles {U} (ctx : bool) (dir : string) (fn : callback FileInfo U) (ignoreNotADirectory : bool)
  (u : U) (s : F) : F * U * option error :=
  match os_Open dir s with
  | (s, inr e) => (s, u, Some e)
  | (s, inl d) =>
      let skip := match of_stat d with inr e => Some (Some e) | inl fi => if negb (IsDir fi) then Some None else None end in
      match (if ignoreNotADirectory then skip else None) with
      | Some err => (s, u, err)
      | None =>
          match os_Readdir dir s with
          | (s, inr e) => (s, u, Some e)
          | (s, inl sub) =>
              match of_close d with
              | Some e => (s, u, Some e)
              | None => let '(u, err) := visit_entries ctx fn sub u in (s, u, err)
              end
          end
      end
  end.
Fixpoint visit_subdirs {U} (ctx : bool) (dir : string) (fn : callback FileInfo U) (sub : list string) (u : U) (s : F)
  : F * U * option error :=
  match sub with
  | [] => (s, u, ctx_err ctx)
  | f :: sub =>
      let '(s, u, err) := visitFiles ctx (Join [dir; f]) fn true u s in
      match err with Some e => (s, u, Some e) | None => visit_subdirs ctx dir fn sub u s end
  end.
Definition visitDirs {U} (ctx : bool) (dir : string) (fn : callback FileInfo U) (u : U) (s : F) : F * U * option error :=
  match os_Open dir s with
  | (s, inr e) => (s, u, Some e)
  | (s, inl d) =>
      match os_Readdirnames dir s with
      | (s, inr e) => (s, u, Some e)
      | (s, inl sub) =>
          match of_close d with
          | Some e => (s, u, Some e)
          | None => visit_subdirs ctx dir fn sub u s
          end
      end
  end.
Definition List {U} (ctx : bool) (t : string) (fn : callback FileInfo U) (u : U) (s : F) : F * U * option error :=
  let '(basedir, subdirs) := l_Basedir (lo_Layout b) t in
  let '(s, u, err) := if (subdirs : bool) then visitDirs ctx basedir fn u s else visitFiles ctx basedir fn false u s in
  (s, u, match err with Some e => if IsNotExist e then None else Some e | None => None end).

Definition Delete (ctx : bool) (s : F) : F * option error := os_RemoveAll (cfg_Path (lo_Config b)) s.

Definition backend : Backend F := {|
  be_Test := Test; be_Remove := Remove; be_Save := Save; be_Load := @Load; be_Stat := Stat;
  be_List := @List; be_IsNotExist := IsNotExist; be_Delete := Delete; be_Hasher := None |}.

End local.

(** ** A save is atomic *)

Section facts.
Context {F : Type} {DF : Disk F} (files : F -> string -> option (list byte)) {CL : DiskLaws files}.
Context (b : Local) {LL : LayoutLaws (lo_Layout b)}.
#[local] Abbreviation Filename := (Filename b).

(** The paths of the repository's files. *)
Definition our_path (p : string) : Prop := exists h, store_handle h /\ p = Filename h.
Context {RG : Regular files our_path} {there : F -> string -> Prop} {LI : Listable files there our_path}.

Lemma store_valid h : store_handle h -> Handle_Valid h = None.
Proof.
  intros Hh. unfold Handle_Valid. destruct (type_cases h Hh) as [->|[Hn Ht]]; [done|].
  destruct (named_plain h Hn) as [(H1 & _) _]. rewrite (bool_decide_eq_false_2 (h_Name h = ""%string)) by done.
  by destruct Ht as [-> | [-> | [-> | [-> | ->]]]].
Qed.

(** No file of the repository changes, or only that of [h], which gets the
    content [d]. *)
Definition quiet (s s' : F) : Prop := forall h, store_handle h -> files s' (Filename h) = files s (Filename h).
Definition saves (h0 : Handle) (d : list byte) (s s' : F) : Prop := forall h, store_handle h ->
  files s' (Filename h) = files s (Filename h) \/ (same_file h0 h /\ files s' (Filename h) = Some d).

Lemma quiet_same s s' : (forall q, files s' q = files s q) -> quiet s s'.
Proof. intros E h _. apply E. Qed.
Lemma quiet_trans s1 s2 s3 : quiet s1 s2 -> quiet s2 s3 -> quiet s1 s3.
Proof. intros H1 H2 h Hh. by rewrite H2, H1. Qed.
Lemma saves_quiet h d s1 s2 s3 : saves h d s1 s2 -> quiet s2 s3 -> saves h d s1 s3.
Proof. intros H1 H2 h' Hh'. rewrite H2 by done. by apply H1. Qed.
Lemma quiet_saves h d s1 s2 s3 : quiet s1 s2 -> saves h d s2 s3 -> saves h d s1 s3.
Proof. intros H1 H2 h' Hh'. rewrite <- (H1 h') by done. by apply H2. Qed.
Lemma quiet_is_saves h d s s' : quiet s s' -> saves h d s s'.
Proof. intros Hq h' Hh'. left. by apply Hq. Qed.

(** A file that is not one of the repository. *)
Definition foreign (p : string) : Prop := forall h, store_handle h -> p ≠ Filename h.
Lemma quiet_copy p rd s s' r : foreign p -> os_Copy p rd s = (s', r) -> quiet s s'.
Proof using CL. intros Hp E h Hh. apply (copy_frame _ _ _ _ _ _ E). intros E'. by apply (Hp h Hh). Qed.
Lemma quiet_remove p s s' r : foreign p -> os_Remove p s = (s', r) -> quiet s s'.
Proof using CL. intros Hp E h Hh. apply (remove_frame_ _ _ _ _ _ E). intros E'. by apply (Hp h Hh). Qed.

Lemma tmp_foreign h x : store_handle h -> noslash x -> foreign (Join [Dir (Filename h); ((Base (Filename h) ++ "-tmp-") ++ x)%string]).
Proof using LL. intros Hh Hx h' Hh'. rewrite <- string_app_assoc. by apply filename_tmp. Qed.
Lemma quiet_temp h s s' r : store_handle h -> os_TempFile (Dir (Filename h)) (Base (Filename h) ++ "-tmp-") s = (s', r) ->
  quiet s s' /\ forall f, r = inl f -> foreign f /\ files s' f = Some [].
Proof using CL LL.
  intros Hh E. assert (Hf : forall f, r = inl f -> foreign f /\ files s' f = Some []).
  { intros f ->. destruct (temp_ok _ _ _ _ _ E) as (x & Hx & -> & Hd). split; [by apply tmp_foreign|done]. }
  split; [|done]. intros h' Hh'. apply (temp_frame _ _ _ _ _ _ E). intros Hr. destruct (Hf _ Hr) as [Hfor _]. by apply (Hfor h' Hh').
Qed.

Lemma open_temp_spec h s s' r : store_handle h ->
  open_temp (Dir (Filename h)) (Base (Filename h) ++ "-tmp-") s = (s', r) ->
  quiet s s' /\ match r with Ok f => foreign f /\ files s' f = Some [] | Err _ => True | Panic _ => False end.
Proof using CL LL.
  intros Hh. unfold open_temp, io_bind, sys. destruct (os_TempFile _ _ s) as [s1 r1] eqn:E1. apply quiet_temp in E1 as [Q1 H1]; [|done].
  destruct r1 as [f|e]; [intros [= <- <-]; split; [done|by apply H1]|].
  destruct (IsNotExist e); [|by intros [= <- <-]]. destruct (os_MkdirAll _ s1) as [s2 err2] eqn:E2.
  assert (Q2 : quiet s s2) by (eapply quiet_trans; [done|apply quiet_same; intros q; exact (mkdirall_files _ _ _ _ q E2)]).
  destruct err2; [by intros [= <- <-]|]. unfold try. destruct (os_TempFile _ _ s2) as [s3 r3] eqn:E3. apply quiet_temp in E3 as [Q3 H3]; [|done].
  destruct r3 as [f|e3]; intros [= <- <-]; (split; [by eapply quiet_trans|]); [by apply H3|done].
Qed.

(** After the rename: only calls that change no file. *)
Definition silent {A} (m : io F A) : Prop := forall s, (forall q, files (m s).1 q = files s q) /\ forall msg, (m s).2 ≠ Panic msg.
Lemma silent_ret {A} (a : A) : silent (io_ret a).
Proof. done. Qed.
Lemma silent_err {A} e : silent (@io_err F A e).
Proof. done. Qed.
Lemma silent_bind {A B} (m : io F A) (f : A -> io F B) : silent m -> (forall a, silent (f a)) -> silent (io_bind m f).
Proof.
  intros Hm Hf s. unfold io_bind. destruct (Hm s) as [H1 H2]. destruct (m s) as [s1 [a|e|msg]]; cbn [fst snd] in *; [|done|by destruct (H2 msg)].
  destruct (Hf a s1) as [H3 H4]. split; [|done]. intros q. by rewrite H3.
Qed.
Lemma silent_sys {A} (op : F -> F * A) : (forall s s' a q, op s = (s', a) -> files s' q = files s q) -> silent (sys op).
Proof. intros Hop s. unfold sys. destruct (op s) as [s1 a] eqn:E. cbn. split; [|done]. intros q. by eapply Hop. Qed.
Lemma silent_try {A} (op : F -> F * (A + error)) : (forall s s' a q, op s = (s', a) -> files s' q = files s q) -> silent (try op).
Proof. intros Hop s. unfold try. destruct (op s) as [s1 [a|e]] eqn:E; cbn; (split; [|done]); intros q; by eapply Hop. Qed.
Lemma silent_check (op : F -> F * option error) : (forall s s' a q, op s = (s', a) -> files s' q = files s q) -> silent (check op).
Proof. intros Hop s. unfold check. destruct (op s) as [s1 [e|]] eqn:E; cbn; (split; [|done]); intros q; by eapply Hop. Qed.

Lemma silent_fsyncDir dir : silent (fsyncDir dir).
Proof using CL.
  apply silent_bind; [apply silent_try; eauto using open_files|intros d]. apply silent_bind; [apply silent_sys; eauto using sync_files|].
  intros err. cbv zeta. destruct (match _ with None => _ | Some _ => _ end); [apply silent_err|apply silent_ret].
Qed.
Lemma silent_Chmod name mode : silent (Chmod name mode).
Proof using CL. apply silent_bind; [apply silent_sys; eauto using chmod_files|]. intros err. apply silent_ret. Qed.

(** Renaming the temporary file. *)
Lemma rename_saves f h d s s' r : store_handle h -> foreign f -> files s f = Some d -> os_Rename f (Filename h) s = (s', r) ->
  saves h d s s' /\ (r = None -> files s' (Filename h) = Some d).
Proof using CL LL.
  intros Hh Hf Hd E. destruct r as [e|].
  - split; [|done]. apply quiet_is_saves, quiet_same. intros q. exact (rename_err _ _ _ _ _ q E).
  - destruct (rename_ok _ _ _ _ E (Hf h Hh)) as (Hq & _ & Ho). split; [|by rewrite Hq].
    intros h' Hh'. destruct (decide (Filename h' = Filename h)) as [En|En].
    + right. split; [by apply filename_inj|]. by rewrite En, Hq.
    + left. apply Ho; [|done]. intros E'. by apply (Hf h' Hh').
Qed.

Lemma save_data_spec f h rd s s' r : store_handle h -> foreign f -> files s f = Some [] ->
  save_data f (Filename h) (Dir (Filename h)) rd s = (s', r) ->
  saves h (unread rd) s s' /\ (r = Ok tt -> files s' (Filename h) = Some (unread rd)) /\ forall msg, r ≠ Panic msg.
Proof using CL LL.
  intros Hh Hf Htmp. unfold save_data. unfold io_bind at 1, sys at 1.
  destruct (os_Copy f (mkReader (read_all rd).1 None None) s) as [s1 [n err]] eqn:E1. pose proof (quiet_copy _ _ _ _ _ Hf E1) as Q1.
  assert (H1 : forall r', (s1, r') = (s', r) -> r' ≠ Ok tt -> (forall msg, r' ≠ Panic msg) ->
      saves h (unread rd) s s' /\ (r = Ok tt -> files s' (Filename h) = Some (unread rd)) /\ forall msg, r ≠ Panic msg).
  { intros r' [= <- <-] Hr Hp. split; [by apply quiet_is_saves|done]. }
  destruct err as [e|]; [intros HE; by eapply H1|]. case_bool_decide; [intros HE; by eapply H1|]. clear H1.
  destruct (copy_ok _ _ _ _ _ E1 Htmp) as (Hd & _ & _). cbn [rd_bytes] in Hd. change (read_all rd).1 with (unread rd) in Hd.
  unfold io_bind at 1, sys at 1. destruct (os_Sync f s1) as [s2 err2] eqn:E2.
  assert (F2 : forall q, files s2 q = files s1 q) by (intros q; exact (sync_files _ _ _ _ q E2)).
  cbv zeta. set (notsup := match err2 with Some e => is_not_supported e | None => false end). unfold io_bind at 1.
  assert (Hsync : exists r2, match err2 with Some e => if negb notsup then io_err e else io_ret tt | None => io_ret tt end s2 = (s2, r2)
    /\ forall msg, r2 ≠ Panic msg).
  { destruct err2 as [e|]; [destruct (negb notsup)|]; by eexists. }
  destruct Hsync as (r2 & -> & Hr2). assert (Q2 : quiet s s2) by (eapply quiet_trans; [done|by apply quiet_same]).
  destruct r2 as [[]|e|msg]; [|intros [= <- <-]; split; [by apply quiet_is_saves|done]|by destruct (Hr2 msg)].
  unfold io_bind at 1, check at 1. destruct (os_Close f s2) as [s3 err3] eqn:E3.
  assert (F3 : forall q, files s3 q = files s2 q) by (intros q; exact (close_files _ _ _ _ q E3)).
  assert (Q3 : quiet s s3) by (eapply quiet_trans; [done|by apply quiet_same]).
  destruct err3 as [e|]; [intros [= <- <-]; split; [by apply quiet_is_saves|done]|].
  unfold io_bind at 1, check at 1. destruct (os_Rename f (Filename h) s3) as [s4 err4] eqn:E4.
  apply (rename_saves f h (unread rd)) in E4 as [S4 Hok]; [|done|done|by rewrite F3, F2].
  assert (S4' : saves h (unread rd) s s4) by by eapply quiet_saves.
  destruct err4 as [e|]; [by intros [= <- <-]|]. match goal with |- ?m s4 = _ -> _ => set (rest := m) end. intros E5.
  assert (Hrest : silent rest).
  { unfold rest. apply silent_bind; [destruct (negb notsup); [apply silent_fsyncDir|apply silent_ret]|intros _].
    apply silent_bind; [apply silent_Chmod|]. intros [e|]; [|apply silent_ret]. destruct (is_permission e); [apply silent_ret|apply silent_err]. }
  destruct (Hrest s4) as [F5 P5]. rewrite E5 in F5, P5. cbn [fst snd] in F5, P5.
  split; [eapply saves_quiet; [done|by apply quiet_same]|]. split; [|done]. intros _. rewrite F5. by apply Hok.
Qed.

Lemma local_save_spec ctx h rd s s' rd' r : store_handle h -> Save b ctx h rd s = (s', rd', r) ->
  saves h (unread rd) s s' /\ (r = None -> files s' (Filename h) = Some (unread rd)).
Proof using CL LL.
  intros Hh. unfold Save. rewrite store_valid by done. destruct (Save_io b h rd s) as [s1 r1] eqn:E.
  assert (HS : saves h (unread rd) s s1 /\ (r1 = Ok tt -> files s1 (Filename h) = Some (unread rd)) /\ forall msg, r1 ≠ Panic msg).
  { revert E. unfold Save_io, io_bind. destruct (open_temp _ _ s) as [s0 r0] eqn:E0. apply open_temp_spec in E0 as [Q0 H0]; [|done].
    destruct r0 as [f|e|msg]; [|intros [= <- <-]; split; [by apply quiet_is_saves|done]|done]. destruct H0 as [Hf Htmp].
    unfold cleanup. destruct (save_data f _ _ rd s0) as [s2 r2] eqn:E2. apply save_data_spec in E2 as (S2 & Ok2 & P2); [|done..].
    assert (S2' : saves h (unread rd) s s2) by by eapply quiet_saves.
    destruct r2 as [[]|e|msg]; [by intros [= <- <-]| |by destruct (P2 msg)].
    destruct (os_Close f s2) as [s3 err3] eqn:E3. destruct (os_Remove f s3) as [s4 err4] eqn:E4. intros [= <- <-]. split; [|done].
    eapply saves_quiet; [exact S2'|]. eapply quiet_trans; [apply quiet_same; intros q; exact (close_files _ _ _ _ q E3)|].
    by eapply quiet_remove. }
  destruct HS as (HS & Hok & Hp). destruct r1 as [[]|e|msg]; [| |by destruct (Hp msg)]; intros [= <- <- <-]; split; try done.
  intros _. by apply Hok.
Qed.

(** ** The other operations *)

Lemma Load_spec U ctx h length_ offset (fn : callback Reader U) u s s' u' r : store_handle h ->
  Load b ctx h length_ offset fn u s = (s', u', r) ->
  quiet s s' /\ ((exists e, u' = u /\ r = Some e)
    \/ (exists d rd, files s (Filename h) = Some d /\ 0 <= offset /\ serves rd (file_range length_ offset d)
        /\ u' = (fn rd u).1 /\ r = or_late (fn rd u).2 (rd_close rd))).
Proof using CL RG.
  intros Hh. unfold Load, DefaultLoad, openReader. rewrite store_valid by done.
  destruct (Z.ltb_spec offset 0); [intros [= <- <- <-]; split; [done|left; by eexists]|].
  destruct (os_Open (Filename h) s) as [s1 [f|e]] eqn:E;
    (assert (Q : quiet s s1) by (apply quiet_same; intros q; exact (open_files _ _ _ _ q E))); [|intros [= <- <- <-]; split; [done|left; by eexists]].
  destruct (if 0 <? offset then of_seek f else None); [intros [= <- <- <-]; split; [done|left; by eexists]|].
  destruct (open_regular (Filename h) _ _ _ (ex_intro _ h (conj Hh eq_refl)) E) as [d Hd].
  destruct (open_ok _ _ _ _ _ E Hd) as [Hf _]. pose proof (limited_serves f length_ offset d Hf) as Hs.
  destruct (fn (limited f length_ offset) u) as [u1 err] eqn:Ef. intros HE.
  assert (s' = s1 /\ u' = u1 /\ r = or_late err (rd_close (limited f length_ offset))) as (-> & -> & ->) by (destruct err; by injection HE as <- <- <-).
  split; [done|]. right. exists d, (limited f length_ offset). by rewrite Ef.
Qed.

Lemma Remove_spec ctx h s s' r : store_handle h -> Remove b ctx h s = (s', r) ->
  match r with
  | None => forall h', store_handle h' -> files s' (Filename h') = if decide (same_file h h') then None else files s (Filename h')
  | Some _ => quiet s s'
  end.
Proof using CL LL.
  intros Hh. unfold Remove. destruct (silent_Chmod (Filename h) 0x1b6 s) as [F1 P1]. destruct (Chmod (Filename h) 0x1b6 s) as [s1 r1].
  cbn [fst snd] in F1, P1.
  assert (HR : os_Remove (Filename h) s1 = (s', r) -> match r with
      | None => forall h', store_handle h' -> files s' (Filename h') = if decide (same_file h h') then None else files s (Filename h')
      | Some _ => quiet s s' end).
  { intros E. assert (Hother : forall h', store_handle h' -> ~ same_file h h' -> files s' (Filename h') = files s (Filename h')).
    { intros h' Hh' Hn. rewrite (remove_frame_ _ _ _ _ _ E); [by rewrite F1|]. intros Ep. apply Hn. by apply filename_inj. }
    assert (Hsame : forall h', store_handle h' -> same_file h h' -> Filename h' = Filename h).
    { intros h' Hh' Hs. symmetry. by apply filename_inj. }
    destruct r as [e|]; intros h' Hh'; destruct (decide (same_file h h')) as [Hs|Hs].
    - by rewrite (Hsame h' Hh' Hs), (remove_err _ _ _ _ E), F1.
    - by apply Hother.
    - by rewrite (Hsame h' Hh' Hs), (remove_ok _ _ _ E).
    - by apply Hother. }
  destruct r1 as [[e|]|e|msg]; [|done|done|done]. destruct (negb (is_permission e)); [|done].
  intros [= <- <-]. by apply quiet_same.
Qed.

Lemma Stat_spec ctx h s s' fi r : store_handle h -> Stat b ctx h s = (s', (fi, r)) ->
  quiet s s' /\ (r = None -> exists d, files s (Filename h) = Some d /\ fi = mkFileInfo (lenZ d) (h_Name h)).
Proof using CL RG.
  intros Hh. unfold Stat. rewrite store_valid by done. destruct (os_Stat (Filename h) s) as [s1 [i|e]] eqn:E;
    (assert (Q : quiet s s1) by (apply quiet_same; intros q; exact (stat_files _ _ _ _ q E))); intros [= <- <- <-]; (split; [done|]); [|done].
  intros _. destruct (stat_regular (Filename h) _ _ _ (ex_intro _ h (conj Hh eq_refl)) E) as [d Hd]. exists d.
  by rewrite (stat_size _ _ _ _ _ E Hd).
Qed.
Lemma Test_spec ctx h s s' has r : store_handle h -> Test b ctx h s = (s', (has, r)) ->
  quiet s s' /\ (r = None -> has = bool_decide (is_Some (files s (Filename h)))).
Proof using CL RG.
  intros Hh. unfold Test. destruct (os_Stat (Filename h) s) as [s1 [i|e]] eqn:E;
    (assert (Q : quiet s s1) by (apply quiet_same; intros q; exact (stat_files _ _ _ _ q E))).
  - intros [= <- <- <-]. split; [done|]. intros _. symmetry. apply bool_decide_eq_true_2.
    by apply (stat_regular (Filename h) _ _ _ (ex_intro _ h (conj Hh eq_refl)) E).
  - destruct (IsNotExist e) eqn:Ee; intros [= <- <- <-]; (split; [done|]); [|done]. intros _.
    rewrite (stat_missing _ _ _ _ E Ee). symmetry. apply bool_decide_eq_false_2. by intros [? [=]].
Qed.

Definition entry_info (fi : OsInfo) : FileInfo := mkFileInfo (oi_Size fi) (oi_Name fi).
Lemma visit_entries_calls U (fn : callback FileInfo U) sub u : visit_entries false fn sub u = call_all fn (map entry_info sub) u.
Proof. revert u. induction sub as [|fi sub IH]; intros u; [done|]. cbn [visit_entries map call_all ctx_err]. destruct (fn _ u) as [u1 [e|]]; [done|apply IH]. Qed.

(** What was shown, and the error of the callback, which ends it. *)
Definition shown {U} (fn : callback FileInfo U) (u u' : U) (r : option error) (fis : list FileInfo) (r0 : option error) : Prop :=
  call_all fn fis u = (u', r0) /\ forall e, r0 = Some e -> r = Some e.

(** What one directory shows: all our files that it has, when there is no
    error.  That it is not there is said of no directory that is. *)
Lemma visitFiles_spec U dir (fn : callback FileInfo U) ign u s s' u' r : visitFiles false dir fn ign u s = (s', u', r) ->
  quiet s s' /\ (forall q, there s q -> there s' q) /\ exists fis r0, shown fn u u' r fis r0
    /\ (r0 = None -> there s dir -> forall e, r = Some e -> is_not_exist e = false)
    /\ (r = None -> r0 = None /\ forall p x, our_path p -> Dir p = dir -> files s p = Some x -> mkFileInfo (lenZ x) (Base p) ∈ fis).
Proof using CL LI.
  unfold visitFiles. destruct (os_Open dir s) as [s1 [d|e]] eqn:E1;
    (assert (Q1 : forall q, files s1 q = files s q) by (intros q; exact (open_files _ _ _ _ q E1)));
    (assert (T1 : forall q, there s q -> there s1 q) by (intros q; exact (open_there _ _ _ _ q E1))).
  2:{ intros [= <- <- <-]. split; [by apply quiet_same|]. split; [done|]. exists [], None. split; [done|]. split; [|done].
      intros _ Ht e' [= <-]. by eapply open_missing. }
  cbv zeta. match goal with |- context [match ?b with Some err => _ | None => _ end] => destruct b as [err|] eqn:Eskip end.
  { intros [= <- <- <-]. split; [by apply quiet_same|]. split; [done|]. exists [], None. split; [done|]. revert Eskip.
    destruct ign; [|done]. destruct (of_stat d) as [fi|e] eqn:Est.
    - destruct (IsDir fi) eqn:Edir; cbn [negb]; [done|]. intros [= <-]. split; [done|]. intros _. split; [done|]. intros p x Hp Hd Hx.
      by rewrite (open_dir _ _ _ _ _ _ E1 Est Hp (mk_is_Some _ _ Hx) Hd) in Edir.
    - intros [= <-]. split; [|done]. intros _ _ e' [= <-]. eapply open_errors; [exact E1|by left]. }
  clear Eskip. destruct (os_Readdir dir s1) as [s2 [sub|e]] eqn:E2;
    (assert (Q2 : forall q, files s2 q = files s q) by (intros q; rewrite <- Q1; exact (readdir_files _ _ _ _ q E2)));
    (assert (T2 : forall q, there s q -> there s2 q) by (intros q ?; eapply (readdir_there _ _ _ _ q E2); auto)).
  2:{ intros [= <- <- <-]. split; [by apply quiet_same|]. split; [done|]. exists [], None. split; [done|]. split; [|done].
      intros _ Ht e' [= <-]. eapply readdir_missing; [|exact E2]. auto. }
  destruct (of_close d) as [e|] eqn:Ec.
  { intros [= <- <- <-]. split; [by apply quiet_same|]. split; [done|]. exists [], None. split; [done|]. split; [|done].
    intros _ _ e' [= <-]. eapply open_errors; [exact E1|by right]. }
  rewrite visit_entries_calls. destruct (call_all fn (map entry_info sub) u) as [u1 r1] eqn:E3. intros [= <- <- <-].
  split; [by apply quiet_same|]. split; [done|]. exists (map entry_info sub), r1. split; [done|].
  split; [by intros -> _ e|]. intros ->. split; [done|]. intros p x Hp Hd Hx. rewrite <- Q1 in Hx.
  destruct (readdir_all _ _ _ _ _ _ E2 Hp Hd Hx) as (fi & Hfi & <- & <-). apply list_elem_of_fmap. by exists fi.
Qed.
Lemma visit_subdirs_spec U dir (fn : callback FileInfo U) sub u s s' u' r : visit_subdirs false dir fn sub u s = (s', u', r) ->
  (forall x, x ∈ sub -> there s (Join [dir; x])) ->
  quiet s s' /\ exists fis r0, shown fn u u' r fis r0 /\ (r0 = None -> forall e, r = Some e -> is_not_exist e = false)
    /\ (r = None -> r0 = None /\ forall c p x, c ∈ sub -> our_path p -> Dir p = Join [dir; c] -> files s p = Some x ->
          mkFileInfo (lenZ x) (Base p) ∈ fis).
Proof using CL LI.
  revert u s. induction sub as [|f sub IH]; intros u s; cbn [visit_subdirs].
  - intros [= <- <- <-] _. split; [done|]. exists [], None. split; [done|]. split; [done|]. intros _. split; [done|].
    by intros c p x Hc%elem_of_nil.
  - destruct (visitFiles false (Join [dir; f]) fn true u s) as [[s1 u1] r1] eqn:E1.
    apply visitFiles_spec in E1 as (Q1 & T1 & fis1 & r0 & [Hc Hr0] & Hne & Hall). intros HE Ht. destruct r1 as [e|].
    + injection HE as <- <- <-. split; [done|]. exists fis1, r0. split; [done|]. split; [|done].
      intros H0. apply (Hne H0). apply Ht, elem_of_cons. by left.
    + destruct (Hall eq_refl) as [-> Hin]. apply IH in HE as (Q2 & fis2 & r2 & [Hc2 Hr2] & Hne2 & Hall2).
      2:{ intros x Hx. apply T1, Ht, elem_of_cons. by right. }
      split; [by eapply quiet_trans|]. exists (fis1 ++ fis2), r2. split; [split; [by rewrite call_all_app, Hc|done]|]. split; [done|].
      intros Hr. destruct (Hall2 Hr) as [-> Hin2]. split; [done|]. intros c p x [-> | Hcs]%elem_of_cons Hp Hd Hx; apply elem_of_app.
      * left. by apply Hin.
      * right. apply (Hin2 c); [done..|]. destruct Hp as (h & Hh & ->). by rewrite (Q1 h Hh).
Qed.
(** The files of a type are where they are looked for. *)
Lemma List_spec U t (fn : callback FileInfo U) u s s' u' r : List b false t fn u s = (s', u', r) ->
  quiet s s' /\ exists fis r0, call_all fn fis u = (u', r0) /\ (r = None -> match r0 with Some e => is_not_exist e = true
    | None => forall h x, store_handle h -> h_Type h = t -> t ≠ ConfigFile -> files s (Filename h) = Some x -> mkFileInfo (lenZ x) (h_Name h) ∈ fis end).
Proof using CL LI LL.
  unfold List. destruct (l_Basedir (lo_Layout b) t) as [basedir subdirs] eqn:Eb.
  destruct (if subdirs then visitDirs false basedir fn u s else visitFiles false basedir fn false u s) as [[s1 u1] r1] eqn:E.
  intros [= <- <- <-].
  assert (Hdirs : forall h x, store_handle h -> h_Type h = t -> t ≠ ConfigFile -> files s (Filename h) = Some x ->
    there s basedir /\ Dir (Filename h) = (if subdirs then Join [basedir; subdir_of h] else basedir) /\ Base (Filename h) = h_Name h
    /\ (subdirs = true -> Dir (Dir (Filename h)) = basedir /\ Base (Dir (Filename h)) = subdir_of h)).
  { intros h x Hh <- Hc Hx. pose proof (filename_listed h Hh Hc) as Hl. pose proof (filename_subdir h Hh Hc) as Hs.
    rewrite Eb in Hl, Hs. cbn [fst snd] in Hl, Hs.
    destruct (there_above (Filename h) s (ex_intro _ h (conj Hh eq_refl)) (mk_is_Some _ _ Hx)) as [T1 T2].
    split_and!; [|done|by apply filename_base|done]. unfold Local.Filename in *. destruct subdirs; [by rewrite <- (proj1 (Hs eq_refl))|by rewrite <- Hl]. }
  assert (HS : quiet s s1 /\ exists fis r0, shown fn u u1 r1 fis r0
    /\ (r0 = None -> there s basedir -> forall e, r1 = Some e -> is_not_exist e = false)
    /\ (r1 = None -> r0 = None /\ forall h x, store_handle h -> h_Type h = t -> t ≠ ConfigFile -> files s (Filename h) = Some x ->
          mkFileInfo (lenZ x) (h_Name h) ∈ fis)).
  { destruct subdirs.
    2:{ apply visitFiles_spec in E as (Q & _ & fis & r0 & Hsh & Hne & Hall). split; [done|]. exists fis, r0. split; [done|]. split; [done|].
        intros Hr. destruct (Hall Hr) as [-> Hin]. split; [done|]. intros h x Hh Ht Hc Hx.
        destruct (Hdirs h x Hh Ht Hc Hx) as (_ & Hd & Hb & _). rewrite <- Hb. by apply Hin; [exists h|..]. }
    revert E. unfold visitDirs. destruct (os_Open basedir s) as [s2 [d|e]] eqn:E2;
      (assert (Q2 : forall q, files s2 q = files s q) by (intros q; exact (open_files _ _ _ _ q E2)));
      (assert (T2 : forall q, there s q -> there s2 q) by (intros q; exact (open_there _ _ _ _ q E2))).
    2:{ intros [= <- <- <-]. split; [by apply quiet_same|]. exists [], None. split; [done|]. split; [|done].
        intros _ Ht e' [= <-]. by eapply open_missing. }
    destruct (os_Readdirnames basedir s2) as [s3 [sub|e]] eqn:E3;
      (assert (Q3 : forall q, files s3 q = files s q) by (intros q; rewrite <- Q2; exact (readdirnames_files _ _ _ _ q E3))).
    2:{ intros [= <- <- <-]. split; [by apply quiet_same|]. exists [], None. split; [done|]. split; [|done].
        intros _ Ht e' [= <-]. eapply readdirnames_missing; [|exact E3]. auto. }
    destruct (of_close d) as [e|] eqn:Ec.
    { intros [= <- <- <-]. split; [by apply quiet_same|]. exists [], None. split; [done|]. split; [|done].
      intros _ _ e' [= <-]. eapply open_errors; [exact E2|by right]. }
    intros HE. apply visit_subdirs_spec in HE as (Q4 & fis & r0 & Hsh & Hne & Hall);
      [|intros x Hx; exact (readdirnames_there _ _ _ _ _ E3 Hx)].
    split; [eapply quiet_trans; [by apply quiet_same|done]|]. exists fis, r0. split; [done|]. split; [by intros H0 _; apply Hne|].
    intros Hr. destruct (Hall Hr) as [-> Hin]. split; [done|]. intros h x Hh Ht Hc Hx.
    destruct (Hdirs h x Hh Ht Hc Hx) as (_ & Hd & Hb & Hsub). destruct (Hsub eq_refl) as [Hs1 Hs2]. rewrite <- Hb.
    apply (Hin (subdir_of h)); [|by exists h|done|by rewrite Q3]. rewrite <- Hs2.
    eapply readdirnames_all; [exact E3|by exists h|done|by rewrite Q2, Hx]. }
  destruct HS as (Q & fis & r0 & [Hc Hr0] & Hne & Hall). split; [done|]. exists fis, r0. split; [done|].
  intros Hr. destruct r0 as [e|].
  - rewrite (Hr0 e eq_refl) in Hr. unfold IsNotExist in Hr. by destruct (is_not_exist e).
  - destruct r1 as [e|]; [|by apply Hall]. intros h x Hh Ht Hcf Hx. destruct (Hdirs h x Hh Ht Hcf Hx) as (Hb & _).
    unfold IsNotExist in Hr. by rewrite (Hne eq_refl Hb e eq_refl) in Hr.
Qed.
End facts.

(** A crash during [Save], after any number of calls of the system: no other
    file changes, and the file is as it was or has its whole content. *)
Lemma Save_crash {F} {DF : Disk F} files {CL : DiskLaws files} (b : Local) {LL : LayoutLaws (lo_Layout b)}
    ctx h rd s n s' rd' r : is_not_exist crashed = false -> store_handle h ->
  @Save _ crashing b ctx h rd (s, n) = (s', rd', r) ->
  forall h', store_handle h' -> files s'.1 (Filename b h') = files s (Filename b h')
    \/ (same_file h h' /\ files s'.1 (Filename b h') = Some (unread rd)).
Proof.
  intros Hc Hh E h' Hh'. pose proof (crashing_laws files CL Hc) as CL'.
  destruct (local_save_spec (DF := crashing) (fun s p => files s.1 p) b ctx h rd (s, n) s' rd' r Hh E) as [HS _]. by apply HS.
Qed.

Section refinement.
Context {F : Type} {DF : Disk F} (files : F -> string -> option (list byte)) {CL : DiskLaws files}.
Context (b : Local) {LL : LayoutLaws (lo_Layout b)} {RG : Regular files (our_path b)}.
Context {there : F -> string -> Prop} {LI : Listable files there (our_path b)}.

Definition represents (s : F) (m : stored) : Prop := forall h, store_handle h -> files s (Filename b h) = m h.

Lemma represents_quiet s s' m : represents s m -> quiet files b s s' -> represents s' m.
Proof. intros H Hq h Hh. rewrite Hq by done. by apply H. Qed.
Lemma represents_saved s s' m h d : store_handle h -> represents s m -> saves files b h d s s' ->
  files s' (Filename b h) = Some d -> represents s' (update m h (Some d)).
Proof using LL.
  intros Hh H Hs Hd h' Hh'. unfold update. destruct (decide (same_file h h')) as [E|E].
  - apply (filename_inj h h' Hh Hh') in E. unfold Filename in *. by rewrite <- E.
  - destruct (Hs h' Hh') as [->|[? _]]; [by apply H|done].
Qed.
(** A save that failed. *)
Lemma represents_maybe_saved s s' m h d : store_handle h -> represents s m -> saves files b h d s s' ->
  represents s' m \/ represents s' (update m h (Some d)).
Proof using LL.
  intros Hh H Hs. destruct (decide (files s' (Filename b h) = Some d)) as [E|E].
  - right. by eapply represents_saved.
  - left. intros h' Hh'. destruct (Hs h' Hh') as [->|[Hf Hd]]; [by apply H|]. destruct E.
    apply (filename_inj h h' Hh Hh') in Hf. unfold Filename in *. by rewrite Hf.
Qed.

#[export] Instance local_implements : Implements (backend b) represents false is_not_exist any_save any_load.
Proof using All.
  split; cbn [be_Save be_Remove be_Load be_Stat be_Test be_List backend].
  - intros h rd s m s' rd' r Hh _ Hm E. apply (local_save_spec files b) in E as [HS Hok]; [|done]. destruct r as [e|].
    + destruct (represents_maybe_saved s s' m h _ Hh Hm HS); [by right|by left].
    + left. by apply (represents_saved s s' m h _ Hh Hm HS), Hok.
  - intros h s m s' r Hh Hm E. apply (Remove_spec files b) in E; [|done]. destruct r as [e|]; [right|left].
    + split; [done|]. by eapply represents_quiet.
    + split; [|by left]. intros h' Hh'. rewrite E by done. unfold update. case_decide; [done|]. by apply Hm.
  - intros U h l o fn u s m s' u' r Hh _ Hm E. apply (Load_spec files b) in E as [Q HL]; [|done]. split; [by eapply represents_quiet|].
    destruct HL as [(e & -> & ->)|(d & rd & Hd & Ho & Hs & -> & ->)]; [by left|right].
    exists rd, (rd_close rd). by rewrite <- (Hm h Hh), Hd.
  - intros h s m s' fi r Hh Hm E. apply (Stat_spec files b) in E as [Q HL]; [|done]. split; [by eapply represents_quiet|].
    intros Hr. destruct (HL Hr) as (d & Hd & ->). exists d. by rewrite <- (Hm h Hh).
  - intros h s m s' has r Hh Hm E. apply (Test_spec files b) in E as [Q HL]; [|done]. split; [by eapply represents_quiet|].
    intros Hr. left. rewrite (HL Hr). by rewrite (Hm h Hh).
  - intros U t fn u s m s' u' r Hm E. apply (List_spec files b) in E as (Q & fis & r0 & Hc & Hall). split; [by eapply represents_quiet|].
    exists fis, r0. split; [done|]. intros Ht Hr. specialize (Hall Hr). destruct r0 as [e|]; [done|].
    intros fi (h & d & Hh & Hty & Hd & ->). apply Hall; [done|done|intros ->; by apply (bool_decide_eq_true_2 _) in Ht|]. by rewrite (Hm h Hh).
Qed.

(** C20: The local backend implements a store of files with atomic saves: every
    run of a program on it is a run of the store, with the same result, from
    the files there are to the files there are then.  Any call of the system
    may fail: a save that fails has changed nothing or has saved the whole
    file, a removal that fails has changed nothing, no call changes another
    file, a load passes the requested bytes to the callback and stops short
    only with an error, and a test that answers tells whether the file is
    there.  A listing without an error has called the callback for every file
    of the type, with its size and name (other files in these directories are
    listed, too), and no call of the callback failed, but for errors that say
    that a file does not exist, which the backend takes for a missing
    directory.  It is assumed that the programs use handles of a repository
    and are not cancelled, that nothing but regular files is at the paths of
    the repository's files, that what the system reads or lists without an
    error is complete, and that it says of no directory that exists that it
    does not.  Written data is not lost later. *)
Theorem local_refines {A} (p : prog A) s m : prog_ok any_save any_load p -> represents s m ->
  exists m', spec_run false is_not_exist p m (run (backend b) p s).2 m' /\ represents (run (backend b) p s).1 m'.
Proof using All. apply implements_run. Qed.
End refinement.

(** The same on a disk that crashes. *)
Lemma crash_implements {F} {DF : Disk F} files {CL : DiskLaws files} (b : Local) {LL : LayoutLaws (lo_Layout b)}
    {RG : Regular files (our_path b)} {there} {LI : Listable files there (our_path b)} : is_not_exist crashed = false ->
  Implements (@backend _ crashing b) (@represents _ (fun s p => files s.1 p) b) false is_not_exist any_save any_load.
Proof.
  intros Hc. exact (local_implements (DF := crashing) _ (CL := crashing_laws files CL Hc) b (RG := crashing_regular files _ RG)
    (LI := crashing_listable files there _ LI Hc)).
Qed.

(** ** A concrete run *)

Definition toy_local : Local := mkLocal (mkConfig "/repo" "") (DefaultLayout Join "/repo" file_types).
Lemma toy_repo_plain : Forall plain ["repo"%string].
Proof. apply (bool_decide_eq_true_1 _). vm_compute. reflexivity. Qed.
#[local] Instance toy_local_laws : LayoutLaws (lo_Layout toy_local) := default_layout_laws ["repo"%string] toy_repo_plain file_types.

(** A disk with directories: every path whose last part is not the name of a
    file is one. *)
Definition toy_dir (p : string) : bool := bool_decide (Base p ≠ "config"%string /\ (length (bytes_of (Base p)) < 64)%nat).
Definition toy_dir_info (p : string) (size : Z) : OsInfo := mkOsInfo (Base p) size ModeDir zeroTime None.
Definition toy_dir_disk : Disk (gmap string (list byte)) := {|
  os_Mkdir := os_Mkdir; os_MkdirAll := os_MkdirAll; os_Stat := os_Stat; os_Lstat := os_Lstat;
  os_Open p s := if toy_dir p then (s, inl (mkOpenFile (default [] (s !! p)) None (inl (toy_dir_info p (lenZ (default [] (s !! p))))) None None))
                 else os_Open p s;
  os_Remove := os_Remove; os_RemoveAll := os_RemoveAll; os_Rename := os_Rename; os_Chmod := os_Chmod; os_Chtimes := os_Chtimes;
  os_Readdir := os_Readdir;
  os_Readdirnames d s := (s, match os_Readdirnames d s with
                             | (_, inl sub) => inl (filter (fun x => toy_dir (Join [d; x]) = true) sub)
                             | (_, inr e) => inr e
                             end);
  os_ReadFile := os_ReadFile; os_WriteFile := os_WriteFile; os_Create := os_Create; os_Write := os_Write; os_TempFile := os_TempFile;
  os_Copy := os_Copy; os_Sync := os_Sync; os_Close := os_Close; fp_Walk := fp_Walk; is_exist := is_exist; is_not_exist := is_not_exist;
  is_permission := is_permission; is_not_supported := is_not_supported; is_no_space := is_no_space; windows := windows |}.

Lemma toy_dir_laws : DiskLaws (H := toy_dir_disk) toy_files.
Proof.
  pose proof toy_disk_laws as [].
  split; cbn [os_Mkdir os_MkdirAll os_Stat os_Open os_Remove os_Chmod os_Readdir os_Readdirnames os_TempFile os_Copy os_Sync
    os_Close os_Rename is_not_exist toy_dir_disk]; try done; try by eauto.
  - intros p s s' r q. destruct (toy_dir p); [by intros [= <- _]|by eauto].
  - intros p s s' f d. destruct (toy_dir p); [|by eauto]. unfold toy_files. intros [= <- <-] ->. cbn. split; [by left|]. by intros fi [= <-].
  - by intros p s s' r q [= <- _].
Qed.
(** The directories of the repository, and their parents. *)
Lemma toy_dir_render cs : Forall plain cs -> (forall c, last cs = Some c -> c ≠ "config"%string /\ (length (bytes_of c) < 64)%nat) ->
  toy_dir (render cs) = true.
Proof.
  intros Hp Hc. unfold toy_dir. rewrite Base_render by done. apply bool_decide_eq_true_2. destruct (last cs) as [c|]; [by apply Hc|].
  cbn. split; [done|lia].
Qed.
Lemma toy_our_path p : our_path toy_local p -> toy_dir p = false /\ exists cs, Dir p = render cs /\ Forall plain cs /\ cs ≠ []
  /\ forall c, c ∈ cs -> c ≠ "config"%string /\ (length (bytes_of c) < 64)%nat.
Proof.
  intros (h & Hh & ->). pose proof (default_filename ["repo"%string] toy_repo_plain h Hh) as E.
  change (Filename toy_local h) with (Default_Filename Join (render ["repo"%string]) h).
  pose proof (placed_plain ["repo"%string] toy_repo_plain default_place default_plain h Hh) as Hp. split.
  - rewrite E. unfold toy_dir. rewrite Base_render, last_snoc by done. cbn [default from_option id]. apply bool_decide_eq_false_2. intros [H1 H2].
    pose proof (fname_length h Hh) as Hl. unfold fname in *. case_bool_decide; [done|]. lia.
  - exists (["repo"%string] ++ default_place h). rewrite E, Dir_render by done. split; [done|]. split; [by apply plain_app in Hp as [? _]|].
    split; [done|]. intros c [Hc%list_elem_of_singleton| Hc]%elem_of_app; [rewrite Hc; apply (bool_decide_eq_true_1 _); reflexivity|]. revert Hc. clear E Hp.
    destruct (type_cases h Hh) as [E|[Hn [E|[E|[E|[E|E]]]]]]; unfold default_place; rewrite E;
      repeat (rewrite bool_decide_eq_false_2 by done || rewrite bool_decide_eq_true_2 by done).
    1: by intros ?%elem_of_nil.
    2-5: intros Hc%list_elem_of_singleton; rewrite Hc; apply (bool_decide_eq_true_1 _); reflexivity.
    destruct (named_bytes h Hn) as (a & b & l & Hb & _). pose proof (subdir_bytes h a b l Hb) as Hs.
    intros [Hc|Hc%list_elem_of_singleton]%elem_of_cons; rewrite Hc; [apply (bool_decide_eq_true_1 _); reflexivity|]. split.
    + intros Ec. by rewrite Ec in Hs.
    + rewrite Hs. cbn. lia.
Qed.
Lemma toy_dir_regular : Regular (H := toy_dir_disk) toy_files (our_path toy_local).
Proof.
  split; cbn [os_Stat os_Open toy_dir_disk].
  - intros p s s' fi _. by apply (stat_regular (ours := fun _ => True)).
  - intros p s s' f [-> _]%toy_our_path. by apply (open_regular (ours := fun _ => True)).
Qed.
Lemma toy_dir_listable : Listable (H := toy_dir_disk) toy_files (fun _ p => toy_dir p = true) (our_path toy_local).
Proof.
  assert (Habove : forall p, our_path toy_local p -> toy_dir (Dir p) = true /\ toy_dir (Dir (Dir p)) = true
    /\ Join [Dir (Dir p); Base (Dir p)] = Dir p).
  { intros p (_ & cs & -> & Hp & Hne & Hc)%toy_our_path. destruct (exists_last Hne) as (ds & c & ->).
    assert (Hd : forall es, (forall e, e ∈ es -> e ∈ ds ++ [c]) -> Forall plain es -> toy_dir (render es) = true).
    { intros es He Hes. apply toy_dir_render; [done|]. intros e El. apply Hc, He. apply last_Some_elem_of in El. done. }
    pose proof Hp as [Hds Hcp]%plain_app. rewrite Dir_render, Base_render, last_snoc by done. split_and!.
    - by apply Hd.
    - apply Hd; [|done]. intros e He. apply elem_of_app. by left.
    - by apply Join_plain. }
  split; cbn [os_Open os_Readdir os_Readdirnames is_not_exist toy_dir_disk]; try done.
  - intros p s Hp _. by destruct (Habove p Hp) as (? & ? & _).
  - intros p s s' e Hp. by rewrite Hp.
  - intros p s s' f fi q E Hfi Hq _ <-. destruct (Habove q Hq) as (Hd & _). rewrite Hd in E. injection E as <- <-.
    cbn [of_stat] in Hfi. by injection Hfi as <-.
  - intros p s s' f e E [H1|H1]; revert E; (destruct (toy_dir p); [intros [= <- <-]; done|]); cbn [os_Open toy_disk];
      destruct (s !! p); intros [= <- <-]; done.
  - intros d s s' sub p x [= <- <-] _ Hd Hx. exists (mkOsInfo (Base p) (lenZ x) 0 zeroTime None). split; [|done].
    apply list_elem_of_fmap. exists (p, x). split; [done|]. apply list_elem_of_filter. split; [done|]. by apply elem_of_map_to_list.
  - intros d s s' sub p [= <- <-] Hp Hd [x Hx]. destruct (Habove p Hp) as (H1 & _ & HJ). rewrite Hd in HJ. apply list_elem_of_filter.
    split; [by rewrite HJ|]. apply list_elem_of_fmap. exists (p, x). split; [done|]. apply list_elem_of_filter. split; [done|]. by apply elem_of_map_to_list.
  - intros d s s' sub x [= <- <-]. by intros [? _]%list_elem_of_filter.
Qed.

Definition toy_repo_handle : Handle := mkBeHandle PackFile DataBlob (ID_String nullID).
Definition toy_pack : list byte := replicate 20 Byte.x61 ++ replicate 20 Byte.x62.
Definition toy_client : prog (list byte * list FileInfo * option error * bool) :=
  DoSave toy_repo_handle (NewByteReader None toy_pack) (fun _ =>
  DoLoad toy_repo_handle 8 16 (fun rd _ => (rd_bytes rd, rd_err rd)) [] (fun data _ =>
  DoList PackFile (fun fi l => (l ++ [fi], None)) [] (fun fis _ =>
  DoRemove toy_repo_handle (fun err =>
  DoTest toy_repo_handle (fun has => Done (data, fis, err, has.1)))))).
Lemma toy_store_handle : store_handle toy_repo_handle.
Proof. right. split; [left|]. by exists nullID. Qed.
Lemma toy_client_handles : prog_ok any_save any_load toy_client.
Proof.
  split; [by split; [apply toy_store_handle|]|]. intros _. split; [by split; [apply toy_store_handle|]|]. intros u r fis r'.
  split; [apply toy_store_handle|]. intros r''. by split; [apply toy_store_handle|].
Qed.
#[local] Abbreviation toy_backend := (@backend _ toy_dir_disk toy_local).
Lemma toy_client_result : run toy_backend toy_client ∅
  = (∅, (replicate 4 Byte.x61 ++ replicate 4 Byte.x62, [mkFileInfo 40 (ID_String nullID)], None, false)).
Proof. vm_compute. reflexivity. Qed.

Lemma local_refines_witness : exists m', spec_run false is_not_exist toy_client (fun _ => None)
  (replicate 4 Byte.x61 ++ replicate 4 Byte.x62, [mkFileInfo 40 (ID_String nullID)], None, false) m'.
Proof.
  destruct (local_refines (DF := toy_dir_disk) toy_files (CL := toy_dir_laws) toy_local (RG := toy_dir_regular) (LI := toy_dir_listable)
    toy_client ∅ (fun _ => None) toy_client_handles) as (m' & H1 & _).
  - intros h Hh. reflexivity.
  - exists m'. rewrite toy_client_result in H1. exact H1.
Defined.

(** After any number of calls, the pack is there with its content or not at
    all; it is there from the rename on. *)
Example save_crash_example :
  map (fun n => (Save (H := crashing) toy_local false toy_repo_handle (NewByteReader None toy_pack) (∅, n)).1.1.1
                  !! Filename toy_local toy_repo_handle) (seq 0 9)
  = replicate 5 None ++ replicate 4 (Some toy_pack).
Proof. vm_compute. reflexivity. Qed.

(** [List] takes every error that says that a file does not exist for a missing
    directory, also the one of the callback. *)
Lemma List_drops_callback_error {F} {DF : Disk F} (b : Local) t dir s s1 s2 d fi sub U (fn : callback FileInfo U) u u' e :
  l_Basedir (lo_Layout b) t = (dir, false) -> os_Open dir s = (s1, inl d) -> os_Readdir dir s1 = (s2, inl (fi :: sub)) ->
  of_close d = None -> fn (entry_info fi) u = (u', Some e) -> is_not_exist e = true ->
  List b false t fn u s = (s2, u', None).
Proof.
  intros Hb H1 H2 H3 Hf He. unfold List, visitFiles. rewrite Hb, H1, H2, H3. cbn [visit_entries ctx_err].
  unfold entry_info in Hf. rewrite Hf. unfold IsNotExist. by rewrite He.
Qed.
