(* ===== verification/Sftp.v ===== *)
(** * Sftp: the backend in a directory of an SFTP server

    src/backend/sftp/sftp.go over the SFTP client that it uses and the [ssh]
    process it starts.  A file is written under a temporary name with a random
    suffix and renamed; the theorem is that the backend implements the store
    of Store.v although the connection may break at any call. *)

From S2P Require Import Prelude Ids Pack Duration Backend Snapshots Trees Paths FileInfo Disk Layouts Store Configs Remote.
From S2P Require Local.
#[local] Open Scope io_scope.

(** What [Walk] visits: a path, what is known of it or an error, and what is
    visited next unless [SkipDir] is called. *)
Inductive walk : Type := Visit (path : string) (info : OsInfo + error) (sub : list walk).

(** The functions of [sftp.Client] and [sftp.File] that are used, and of the
    process that connects to the server. *)
Class Client (S : Type) : Type := {
  (** [OpenFile] with [O_CREATE|O_EXCL|O_WRONLY] *)
  c_Create : string -> S -> S * option error;
  c_MkdirAll : string -> S -> S * option error;
  c_Chmod : string -> Z -> S -> S * option error;
  c_ReadFrom : string -> Reader -> S -> S * (Z * option error);
  c_CloseFile : string -> S -> S * option error;
  c_Rename : string -> string -> S -> S * option error;
  c_Remove : string -> S -> S * option error;
  c_RemoveDirectory : string -> S -> S * option error;
  c_Lstat : string -> S -> S * (OsInfo + error);
  c_Open : string -> S -> S * (OpenFile + error);
  c_ReadDir : string -> S -> S * (list OsInfo + error);
  c_Walk : string -> S -> S * walk;
  (** the free inodes and the free space *)
  c_StatVFS : string -> S -> S * ((Z * Z) + error);
  c_HasExtension : string -> bool;
  c_Close : S -> S * option error;
  (** a [StatusError] with the code [SSH_FX_FAILURE] *)
  is_failure : error -> bool;
  (** [errors.Is(err, os.ErrNotExist)] and [os.IsNotExist] *)
  is_ErrNotExist : error -> bool;
  os_IsNotExist : error -> bool;
  (** 16 random bytes *)
  rand_Read : S -> S * list byte;
  (** the process: its pipes, its start, the session, the switch to the
      background; the error it has ended with, if it has; waiting for its end
      for a while, and killing it *)
  cmd_StderrPipe : S -> S * option error;
  cmd_StdinPipe : S -> S * option error;
  cmd_StdoutPipe : S -> S * option error;
  cmd_Start : string -> list string -> S -> S * option error;
  NewClientPipe : S -> S * option error;
  cmd_bg : S -> S * option error;
  cmd_exited : S -> S * option error;
  cmd_wait : S -> S * option (option error);
  cmd_Kill : S -> S * option error;
}.

Record SFTP : Type := mkSFTP { p : string; be_Layout : Layout; be_Config : Configs.Sftp.Config }.
Definition defaultLayout : string := "default".

Section sftp.
Context {S : Type} `{Client S} `{Unicode}.

(** A call whose error is returned with a message. *)
Definition wrapped (msg : string) (op : S -> S * option error) : io S unit := fun s =>
  match op s with (s, None) => (s, Ok tt) | (s, Some e) => (s, Err (EWrap msg e)) end.

Definition startClient (program : string) (args : list string) : io S unit :=
  wrapped "cmd.StderrPipe" cmd_StderrPipe;;
  wrapped "cmd.StdinPipe" cmd_StdinPipe;;
  wrapped "cmd.StdoutPipe" cmd_StdoutPipe;;
  wrapped "cmd.Start" (cmd_Start program args);;
  (fun s => match NewClientPipe s with
            | (s, Some _) => (s, Err (EMsg "unable to start the sftp session"))
            | (s, None) => (s, Ok tt)
            end);;
  wrapped "bg" cmd_bg.
Definition clientError (s : S) : S * option error :=
  let '(s, err) := cmd_exited s in (s, match err with Some e => Some (EPermanent e) | None => None end).

Definition IsNotExist (e : error) : bool := is_ErrNotExist (Cause e).
Definition ReadDir (dir : string) : io S (list OsInfo) := fun s =>
  match c_ReadDir dir s with
  | (s, inl l) => (s, Ok l)
  | (s, inr e) => (s, Err (EWrap ("(" ++ dir ++ ")") e))
  end.
Definition Filesystem_ : Filesystem S := mkFilesystem Join ReadDir IsNotExist.

(** An empty list of words would be a panic. *)
Definition buildSSHCommand (cfg : Configs.Sftp.Config) : res error (string * list string) :=
  if negb (bool_decide (Configs.Sftp.Command cfg = ""%string)) then
    match Shell.SplitShellStrings (Configs.Sftp.Command cfg) with
    | inr e => Err e
    | inl [] => Panic "index out of range"
    | inl (cmd :: args) => Ok (cmd, args)
    end
  else
    let args := [Configs.Sftp.Host cfg] in
    let args := if negb (bool_decide (Configs.Sftp.Port cfg = ""%string)) then args ++ ["-p"%string; Configs.Sftp.Port cfg] else args in
    let args := if negb (bool_decide (Configs.Sftp.User cfg = ""%string)) then args ++ ["-l"%string; Configs.Sftp.User cfg] else args in
    Ok ("ssh"%string, args ++ ["-s"; "sftp"]%string).

(** [types] is the order in which the layout's map is ranged over. *)
Definition Open (types : list string) (cfg : Configs.Sftp.Config) : io S SFTP :=
  x <-- io_res (buildSSHCommand cfg);
  startClient x.1 x.2;;
  l <-- ParseLayout types Filesystem_ (Configs.Sftp.Layout cfg) defaultLayout (Configs.Sftp.Path cfg);
  io_ret (mkSFTP (Configs.Sftp.Path cfg) l cfg).
Fixpoint mkdirAllDataSubdirs (paths : list string) : io S unit :=
  match paths with
  | [] => io_ret tt
  | d :: paths => check (c_MkdirAll d);; mkdirAllDataSubdirs paths
  end.
(** [Close] waits for the end of the process, and kills it after a while. *)
Definition Close (s : S) : S * option error :=
  let '(s, _) := c_Close s in
  match cmd_wait s with
  | (s, Some err) => (s, err)
  | (s, None) => cmd_Kill s
  end.
Definition Create (types : list string) (cfg : Configs.Sftp.Config) : io S SFTP :=
  x <-- io_res (buildSSHCommand cfg);
  startClient x.1 x.2;;
  l <-- ParseLayout types Filesystem_ (Configs.Sftp.Layout cfg) defaultLayout (Configs.Sftp.Path cfg);
  r <-- sys (c_Lstat (Clean (Join [Configs.Sftp.Path cfg; "config"%string])));
  match r with
  | inl _ => io_err (EMsg "config file already exists")
  | inr _ =>
      mkdirAllDataSubdirs (l_Paths l);;
      wrapped "Close" Close;;
      Open types cfg
  end.

(** ** Operations *)

Context (b : SFTP).
Definition Filename (h : Handle) : string := l_Filename (be_Layout b) h.
Definition Location : string := p b.

Definition tempSuffix (s : S) : S * string := let '(s, nonce) := rand_Read s in (s, Hex.EncodeToString nonce).

(** The temporary file; its directory is made when it is missing. *)
Definition create_temp (tmpFilename dirname : string) (s : S) : S * option error :=
  let '(s, err) := c_Create tmpFilename s in
  let '(s, err) :=
    match err with
    | Some e =>
        if IsNotExist e then
          match c_MkdirAll dirname s with
          | (s, Some _) => (s, err)
          | (s, None) => c_Create tmpFilename s
          end
        else (s, err)
    | None => (s, None)
    end in
  match err with
  | None => c_Chmod tmpFilename Local.Modes_File s
  | Some e => (s, Some e)
  end.
(** Writing it and renaming it: the value of the variable [err] at the end,
    and what is returned. *)
Definition write_temp (tmpFilename filename : string) (rd : RewindReader) (s : S) : S * (option error * option error) :=
  let '(s, (wbytes, err)) := c_ReadFrom tmpFilename (mkReader (read_all rd).1 None None) s in
  match err with
  | Some e => let '(s, _) := c_CloseFile tmpFilename s in (s, (Some e, Some (EWrap "Write" e)))
  | None =>
      if bool_decide (wbytes ≠ Length rd) then
        let '(s, _) := c_CloseFile tmpFilename s in (s, (None, Some (EMsg "wrote too few bytes")))
      else
        let '(s, err) := c_CloseFile tmpFilename s in
        match err with
        | Some e => (s, (Some e, Some (EWrap "Close" e)))
        | None => let '(s, err) := c_Rename tmpFilename filename s in (s, (err, Wrap "Rename" err))
        end
  end.
Definition no_space : error := EPermanent (EMsg "sftp: no space left on device").
Definition checkNoSpace (dir : string) (size : Z) (origErr : error) (s : S) : S * error :=
  if negb (is_failure origErr) || negb (c_HasExtension "statvfs@openssh.com") then (s, origErr)
  else match c_StatVFS dir s with
       | (s, inr _) => (s, origErr)
       | (s, inl (favail, free)) => if (favail =? 0) || (free <? size) then (s, no_space) else (s, origErr)
       end.
(** The deferred function: what it makes of the error is stored in a variable
    that is not the result. *)
Definition deferred (tmpFilename dirname : string) (rd : RewindReader) (err : option error) (s : S) : S :=
  match err with
  | None => s
  | Some e =>
      let '(s, _) := c_Remove tmpFilename s in
      let '(s, _) := checkNoSpace dirname (Length rd) e s in s
  end.
Definition Save (ctx : bool) (h : Handle) (rd : RewindReader) (s : S) : S * RewindReader * option error :=
  match clientError s with
  | (s, Some e) => (s, rd, Some e)
  | (s, None) =>
      match Handle_Valid h with
      | Some e => (s, rd, Some (EPermanent e))
      | None =>
          let filename := Filename h in
          let '(s, suffix) := tempSuffix s in
          let tmpFilename := (filename ++ "-restic-temp-" ++ suffix)%string in
          let dirname := l_Dirname (be_Layout b) h in
          let '(s, err) := create_temp tmpFilename dirname s in
          match err with
          | Some e => (s, rd, Some (EWrap "OpenFile" e))
          | None =>
              let '(s, (err, result)) := write_temp tmpFilename filename rd s in
              (deferred tmpFilename dirname rd err s, (read_all rd).2, result)
          end
      end
  end.

Definition openReader (ctx : bool) (h : Handle) (length_ offset : Z) (s : S) : S * (Reader + error) :=
  match Handle_Valid h with
  | Some e => (s, inr (EPermanent e))
  | None =>
      if offset <? 0 then (s, inr (EMsg "offset is negative"))
      else match c_Open (Filename h) s with
      | (s, inr e) => (s, inr e)
      | (s, inl f) =>
          match (if 0 <? offset then of_seek f else None) with
          | Some e => (s, inr e)
          | None => (s, inl (limited f length_ offset))
          end
      end
  end.
Definition Load {U} (ctx : bool) (h : Handle) (length_ offset : Z) (fn : callback Reader U) (u : U) (s : S)
  : S * U * option error :=
  DefaultLoad openReader ctx h length_ offset fn u s.

Definition Stat (ctx : bool) (h : Handle) (s : S) : S * (FileInfo * option error) :=
  let fail e := (mkFileInfo 0 "", Some e) in
  match clientError s with
  | (s, Some e) => (s, fail e)
  | (s, None) =>
      match Handle_Valid h with
      | Some e => (s, fail (EPermanent e))
      | None =>
          match c_Lstat (Filename h) s with
          | (s, inr e) => (s, fail (EWrap "Lstat" e))
          | (s, inl fi) => (s, (mkFileInfo (oi_Size fi) (h_Name h), None))
          end
      end
  end.
Definition Test (ctx : bool) (h : Handle) (s : S) : S * (bool * option error) :=
  match clientError s with
  | (s, Some e) => (s, (false, Some e))
  | (s, None) =>
      match c_Lstat (Filename h) s with
      | (s, inr e) => if os_IsNotExist (Cause e) then (s, (false, None)) else (s, (false, Some (EWrap "Lstat" e)))
      | (s, inl _) => (s, (true, None))
      end
  end.
Definition Remove (ctx : bool) (h : Handle) (s : S) : S * option error :=
  match clientError s with
  | (s, Some e) => (s, Some e)
  | (s, None) => c_Remove (Filename h) s
  end.

(** The loop of [List]: [Some r] when it returns [r]. *)
Fixpoint visit {U} (ctx : bool) (basedir : string) (subdirs : bool) (fn : callback FileInfo U) (w : walk) (u : U)
  : U * option (option error) :=
  match w with
  | Visit path info sub =>
      let fix visit_all (ws : list walk) (u : U) : U * option (option error) :=
        match ws with
        | [] => (u, None)
        | w :: ws =>
            match visit ctx basedir subdirs fn w u with
            | (u, Some r) => (u, Some r)
            | (u, None) => visit_all ws u
            end
        end in
      match info with
      | inr e => if IsNotExist e then (u, Some None) else (u, Some (Some e))
      | inl fi =>
          if bool_decide (path = basedir) then visit_all sub u
          else if IsDir fi && negb subdirs then (u, None)
          else if negb (IsRegularFile fi) then visit_all sub u
          else match ctx_err ctx with
               | Some e => (u, Some (Some e))
               | None =>
                   let '(u, err) := fn (mkFileInfo (oi_Size fi) (Base path)) u in
                   match err with
                   | Some e => (u, Some (Some e))
                   | None => match ctx_err ctx with Some e => (u, Some (Some e)) | None => visit_all sub u end
                   end
               end
      end
  end.
Definition List {U} (ctx : bool) (t : string) (fn : callback FileInfo U) (u : U) (s : S) : S * U * option error :=
  let '(basedir, subdirs) := l_Basedir (be_Layout b) t in
  let '(s, w) := c_Walk basedir s in
  match visit ctx basedir subdirs fn w u with
  | (u, Some r) => (s, u, r)
  | (u, None) => (s, u, ctx_err ctx)
  end.

(** [deleteRecursive], which descends [fuel] directories at most. *)
Fixpoint deleteRecursive (fuel : nat) (name : string) (s : S) : option (S * option error) :=
  match fuel with
  | O => None
  | Datatypes.S fuel =>
      match ReadDir name s with
      | (s, Ok entries) =>
          (fix delete_entries (entries : list OsInfo) (s : S) : option (S * option error) :=
             match entries with
             | [] => Some (s, None)
             | fi :: entries =>
                 let itemName := Join [name; oi_Name fi] in
                 if IsDir fi then
                   match deleteRecursive fuel itemName s with
                   | None => None
                   | Some (s, Some e) => Some (s, Some (EWrap "ReadDir" e))
                   | Some (s, None) =>
                       match c_RemoveDirectory itemName s with
                       | (s, Some e) => Some (s, Some (EWrap "RemoveDirectory" e))
                       | (s, None) => delete_entries entries s
                       end
                   end
                 else match c_Remove itemName s with
                      | (s, Some e) => Some (s, Some (EWrap "ReadDir" e))
                      | (s, None) => delete_entries entries s
                      end
             end) entries s
      | (s, Err e) => Some (s, Some (EWrap "ReadDir" e))
      | (s, Panic msg) => Some (s, Some (EMsg msg))
      end
  end.
Definition Delete (fuel : nat) (ctx : bool) (s : S) : S * option error :=
  default (s, Some (EMsg "directories are nested too deeply")) (deleteRecursive fuel (p b) s).

Definition backend (fuel : nat) : Backend S := {|
  be_Test := Test; be_Remove := Remove; be_Save := Save; be_Load := @Load; be_Stat := Stat;
  be_List := @List; be_IsNotExist := IsNotExist; be_Delete := Delete fuel; be_Hasher := None |}.
End sftp.

(** ** A server that does what it is told *)

(** What a walk visits: through directories that could be looked at. *)
Inductive in_walk (p : string) (info : OsInfo + error) : walk -> Prop :=
| walk_here sub : in_walk p info (Visit p info sub)
| walk_below q j sub w : w ∈ sub -> in_walk p info w -> in_walk p info (Visit q (inl j) sub).
(** The entry of a file. *)
Definition file_entry (i : OsInfo) (f : list byte) : Prop := IsRegularFile i = true /\ IsDir i = false /\ oi_Size i = lenZ f.

(** What is documented about these functions; [ours] are the names of the
    repository's files, which are regular ones. *)
Class Laws {S} `{Client S} (objects : contents S) (ours : string -> Prop) : Prop := {
  create_frame n n' s s' r : n' ≠ n -> c_Create n s = (s', r) -> objects s' n' = objects s n';
  create_ok n s s' : c_Create n s = (s', None) -> objects s' n = Some [];
  mkdirall_reads n : reads objects (c_MkdirAll n);
  chmod_reads n m : reads objects (c_Chmod n m);
  readfrom_frame n n' rd s s' r : n' ≠ n -> c_ReadFrom n rd s = (s', r) -> objects s' n' = objects s n';
  readfrom_ok n rd s s' k : rd_err rd = None -> objects s n = Some [] -> c_ReadFrom n rd s = (s', (k, None)) -> objects s' n = Some (rd_bytes rd);
  closefile_reads n : reads objects (c_CloseFile n);
  (** a rename that fails may have been carried out *)
  rename_frame n n' o s s' r : o ≠ n -> o ≠ n' -> c_Rename n n' s = (s', r) -> objects s' o = objects s o;
  rename_moves n n' s s' r : n ≠ n' -> c_Rename n n' s = (s', r) ->
    objects s' n' = objects s n \/ (succeeded r = false /\ objects s' n' = objects s n');
  remove_removes n : removes objects succeeded n (c_Remove n);
  lstat_reads n : reads objects (c_Lstat n);
  lstat_ok n s s' fi : ours n -> c_Lstat n s = (s', inl fi) -> exists d, objects s n = Some d /\ oi_Size fi = lenZ d;
  open_reads n : reads objects (c_Open n);
  (** an opened file yields its content, or an error after a part of it *)
  open_ok n s s' f : ours n -> c_Open n s = (s', inl f) -> exists d, objects s n = Some d
    /\ ((of_data f = d /\ of_rerr f = None) \/ (of_data f `prefix_of` d /\ of_rerr f ≠ None));
  walk_reads n : reads objects (c_Walk n);
  (** a walk visits all files, unless it visits an error *)
  walk_finds d s s' w n x f : c_Walk d s = (s', w) -> ours n -> n = (d ++ "/" ++ x)%string -> objects s n = Some f ->
    (exists e sub, w = Visit d (inr e) sub)
    \/ exists j sub, w = Visit d (inl j) sub
      /\ (noslash x -> (exists i sub', Visit n (inl i) sub' ∈ sub /\ file_entry i f) \/ exists p e sub', Visit p (inr e) sub' ∈ sub)
      /\ ((exists i, in_walk n (inl i) w /\ file_entry i f) \/ exists p e, in_walk p (inr e) w);
  (** it finds a directory missing only when there was none from the start:
      nothing is removed meanwhile *)
  walk_gone d s s' w p e n x : c_Walk d s = (s', w) -> in_walk p (inr e) w -> is_ErrNotExist (Cause e) = true ->
    ours n -> n = (d ++ "/" ++ x)%string -> objects s n = None;
  statvfs_reads n : reads objects (c_StatVFS n);
  exited_reads : reads objects cmd_exited;
  rand_reads : reads objects rand_Read;
}.

Section facts.
Context {S : Type} {CS : Client S} (objects : contents S) (b : SFTP) {SL : SuffixLaws (be_Layout b)} {NL : NamingLaws (be_Layout b)}.
Definition our_name (n : string) : Prop := exists h, store_handle h /\ n = Filename b h.
Context {L : Laws objects our_name}.
#[local] Abbreviation represents := (represents objects (be_Layout b)).

Lemma our_filename h : store_handle h -> our_name (l_Filename (be_Layout b) h).
Proof. intros Hh. by exists h. Qed.
(** Another file changed, that is not one of the repository. *)
Lemma represents_foreign s s' m n : represents s m -> (forall h, store_handle h -> l_Filename (be_Layout b) h ≠ n) ->
  (forall n', n' ≠ n -> objects s' n' = objects s n') -> represents s' m.
Proof. intros Hm Hn Hf h Hh. rewrite Hf by by apply Hn. by apply Hm. Qed.
Lemma clientError_spec s m s' r : represents s m -> clientError s = (s', r) -> represents s' m.
Proof using L.
  intros Hm. unfold clientError. destruct (cmd_exited s) as [s1 err] eqn:E. intros [= <- _].
  eapply represents_reads; [apply exited_reads|done..].
Qed.

Lemma create_temp_spec tmp dir s m s' r : represents s m -> (forall h, store_handle h -> l_Filename (be_Layout b) h ≠ tmp) ->
  create_temp tmp dir s = (s', r) -> represents s' m /\ (r = None -> objects s' tmp = Some []).
Proof using L.
  intros Hm Ht. unfold create_temp. destruct (c_Create tmp s) as [s1 err] eqn:E1.
  assert (Hm1 : represents s1 m) by (eapply represents_foreign; [done..|intros n' Hn; by eapply create_frame]).
  set (again := match err with Some e => _ | None => _ end).
  assert (HA : represents again.1 m /\ (again.2 = None -> objects again.1 tmp = Some [])).
  { unfold again. destruct err as [e|]; [|split; [done|intros _; by eapply create_ok]]. destruct (IsNotExist e); [|done].
    destruct (c_MkdirAll dir s1) as [s2 err2] eqn:E2. assert (Hm2 : represents s2 m) by (eapply represents_reads; [apply mkdirall_reads|done..]).
    destruct err2; [done|]. destruct (c_Create tmp s2) as [s3 err3] eqn:E3. cbn [fst snd].
    split; [eapply represents_foreign; [done..|intros n' Hn; by eapply create_frame]|]. intros ->. by eapply create_ok. }
  destruct again as [s2 err2]. cbn [fst snd] in HA. destruct HA as [Hm2 Ho]. destruct err2 as [e|]; [by intros [= <- <-]|]. intros E.
  split; [eapply represents_reads; [apply chmod_reads|done..]|]. intros _. rewrite (chmod_reads _ _ _ _ _ _ E). by apply Ho.
Qed.
Lemma write_temp_spec tmp h rd s m s' err r : store_handle h -> represents s m ->
  (forall h, store_handle h -> l_Filename (be_Layout b) h ≠ tmp) -> objects s tmp = Some [] ->
  write_temp tmp (l_Filename (be_Layout b) h) rd s = (s', (err, r)) ->
  represents s' (update m h (Some (unread rd))) \/ (r ≠ None /\ represents s' m).
Proof using L SL.
  intros Hh Hm Ht H0. unfold write_temp. destruct (c_ReadFrom tmp _ s) as [s1 [k err1]] eqn:E1.
  assert (Hm1 : represents s1 m) by (eapply represents_foreign; [done..|intros n' Hn; by eapply readfrom_frame]).
  destruct (c_CloseFile tmp s1) as [s2 err2] eqn:E2.
  assert (Hm2 : represents s2 m) by (eapply represents_reads; [apply closefile_reads|done..]).
  destruct err1 as [e|]; [intros [= <- _ <-]; by right|]. case_bool_decide; [intros [= <- _ <-]; by right|].
  destruct err2 as [e|]; [intros [= <- _ <-]; by right|]. destruct (c_Rename tmp _ s2) as [s3 err3] eqn:E3. intros [= <- _ <-].
  assert (Hne : tmp ≠ l_Filename (be_Layout b) h) by (intros E; by apply (Ht h Hh)).
  assert (Hd : objects s2 tmp = Some (unread rd)).
  { rewrite (closefile_reads _ _ _ _ _ E2). exact (readfrom_ok _ (mkReader (read_all rd).1 None None) _ _ _ eq_refl H0 E1). }
  assert (Hothers : forall h', store_handle h' -> l_Filename (be_Layout b) h' ≠ l_Filename (be_Layout b) h ->
    objects s3 (l_Filename (be_Layout b) h') = m h').
  { intros h' Hh' Hn. rewrite (rename_frame _ _ _ _ _ _ (Ht h' Hh') Hn E3). by apply Hm2. }
  destruct (rename_moves _ _ _ _ _ Hne E3) as [Ho|[Hr Ho]].
  - left. intros h' Hh'. unfold update. case_decide as Es.
    + apply (suffix_inj h h' Hh Hh') in Es. by rewrite <- Es, Ho.
    + apply Hothers; [done|]. intros E. apply Es. by apply suffix_inj.
  - right. split; [by destruct err3|]. intros h' Hh'. destruct (decide (l_Filename (be_Layout b) h' = l_Filename (be_Layout b) h)) as [E|E].
    + rewrite E, Ho, <- E. by apply Hm2.
    + by apply Hothers.
Qed.
Lemma deferred_spec tmp dir rd err s m : represents s m -> (forall h, store_handle h -> l_Filename (be_Layout b) h ≠ tmp) ->
  represents (deferred tmp dir rd err s) m.
Proof using L.
  intros Hm Ht. unfold deferred. destruct err as [e|]; [|done]. destruct (c_Remove tmp s) as [s1 r1] eqn:E1.
  assert (Hm1 : represents s1 m) by (eapply represents_foreign; [done..|by apply (remove_removes _ _ _ _ E1)]).
  unfold checkNoSpace. destruct (_ || _); [done|]. destruct (c_StatVFS dir s1) as [s2 r2] eqn:E2.
  assert (Hm2 : represents s2 m) by (eapply represents_reads; [apply statvfs_reads|done..]).
  destruct r2 as [[favail free]|?]; [|done]. by destruct (_ || _).
Qed.
Lemma noslash_hex l : noslash (Hex.EncodeToString l).
Proof.
  unfold noslash, Hex.EncodeToString. rewrite bytes_of_string_of. intros Hin. apply Encode_safe in Hin. apply Hin. left.
Qed.
Lemma sftp_save_spec h rd s m s' rd' r : store_handle h -> represents s m -> Save b false h rd s = (s', rd', r) ->
  represents s' (update m h (Some (unread rd))) \/ (r ≠ None /\ represents s' m).
Proof using L SL.
  intros Hh Hm. unfold Save. destruct (clientError s) as [s1 r1] eqn:E1. pose proof (clientError_spec _ _ _ _ Hm E1) as Hm1.
  destruct r1; [intros [= <- <- <-]; by right|]. destruct (Handle_Valid h); [intros [= <- <- <-]; by right|].
  unfold tempSuffix. destruct (rand_Read s1) as [s2 nonce] eqn:E2. cbv zeta. unfold Filename.
  set (tmp := (l_Filename _ h ++ _)%string).
  assert (Ht : forall h', store_handle h' -> l_Filename (be_Layout b) h' ≠ tmp).
  { intros h' Hh' E. symmetry in E. revert E. apply suffix_foreign; [done..| |done].
    unfold noslash. rewrite bytes_of_app, elem_of_app. intros [Hin|Hin]; [|by apply (noslash_hex nonce)].
    revert Hin. by apply (bool_decide_eq_true_1 _). }
  assert (Hm2 : represents s2 m) by (eapply represents_reads; [apply rand_reads|done..]).
  destruct (create_temp tmp _ s2) as [s3 err3] eqn:E3. destruct (create_temp_spec _ _ _ _ _ _ Hm2 Ht E3) as [Hm3 H0].
  destruct err3; [intros [= <- <- <-]; by right|].
  destruct (write_temp tmp _ rd s3) as [s4 [err4 r4]] eqn:E4. intros [= <- <- <-].
  destruct (write_temp_spec _ _ _ _ _ _ _ _ Hh Hm3 Ht (H0 eq_refl) E4) as [Hm4|[Hr Hm4]]; [left|right; split; [done|]]; by apply deferred_spec.
Qed.

(** What the loop comes to: it does not go into directories below the one that
    is listed unless it is to. *)
Inductive reach (basedir : string) (subdirs : bool) (p : string) (info : OsInfo + error) : walk -> Prop :=
| reach_here sub : reach basedir subdirs p info (Visit p info sub)
| reach_below q j sub w : q = basedir \/ IsDir j && negb subdirs = false -> w ∈ sub -> reach basedir subdirs p info w ->
    reach basedir subdirs p info (Visit q (inl j) sub).
Lemma in_walk_reach basedir p info w : in_walk p info w -> reach basedir true p info w.
Proof. induction 1 as [|q j sub w Hin _ IH]; [constructor|]. eapply reach_below; [|done|done]. right. by rewrite andb_false_r. Qed.

(** A part of the walk, or several: all that is there was shown, when it goes
    on; it ends without an error only at an error that says that something
    does not exist. *)
Definition visited {U} (basedir : string) (reaches : string -> OsInfo + error -> Prop) (fn : callback FileInfo U) (u u' : U)
    (r : option (option error)) : Prop :=
  exists fis r0, call_all fn fis u = (u', r0) /\ match r with
  | None => r0 = None /\ (forall p e, ~ reaches p (inr e))
      /\ forall p i, reaches p (inl i) -> p ≠ basedir -> IsRegularFile i = true -> IsDir i = false -> mkFileInfo (oi_Size i) (Base p) ∈ fis
  | Some None => r0 = None /\ exists p e, reaches p (inr e) /\ IsNotExist e = true
  | Some (Some e) => True
  end.
Lemma visited_then {U} basedir (R R1 R2 : string -> OsInfo + error -> Prop) (fn : callback FileInfo U) u u1 u2 r :
  (forall p i, R p i <-> R1 p i \/ R2 p i) -> visited basedir R1 fn u u1 None -> visited basedir R2 fn u1 u2 r -> visited basedir R fn u u2 r.
Proof.
  intros HR (fis1 & r1 & H1 & -> & He1 & Hf1) (fis2 & r2 & H2 & Hr2). exists (fis1 ++ fis2), r2. rewrite call_all_app, H1. split; [done|].
  destruct r as [[e|]|]; [done| |].
  - destruct Hr2 as (-> & p & e & Hp & He). split; [done|]. exists p, e. split; [|done]. apply HR. by right.
  - destruct Hr2 as (-> & He2 & Hf2). split; [done|]. split; [intros p e [Hp|Hp]%HR; [by eapply He1|by eapply He2]|].
    intros p i [?|?]%HR ? ? ?; apply elem_of_app; [left|right]; auto.
Qed.
Lemma visited_stop {U} basedir (R R1 : string -> OsInfo + error -> Prop) (fn : callback FileInfo U) u u' r :
  (forall p i, R1 p i -> R p i) -> visited basedir R1 fn u u' (Some r) -> visited basedir R fn u u' (Some r).
Proof.
  intros HR (fis & r0 & Hc & Hr). exists fis, r0. split; [done|]. destruct r; [done|]. destruct Hr as (-> & p & e & Hp & He). split; [done|].
  exists p, e. auto.
Qed.
Lemma visited_one {U} basedir (R : string -> OsInfo + error -> Prop) (fn : callback FileInfo U) u u' p i : fn (mkFileInfo (oi_Size i) (Base p)) u = (u', None) ->
  (forall q j, R q j <-> q = p /\ j = inl i) -> visited basedir R fn u u' None.
Proof.
  intros Hf HR. exists [mkFileInfo (oi_Size i) (Base p)], None. cbn [call_all]. rewrite Hf. split; [done|]. split; [done|].
  split; [by intros q e [_ ?]%HR|]. intros q j [-> [= ->]]%HR _ _ _. by apply list_elem_of_singleton.
Qed.
Lemma visited_none {U} basedir (R : string -> OsInfo + error -> Prop) (fn : callback FileInfo U) u :
  (forall q j, R q j -> exists i, j = inl i /\ (q = basedir \/ IsRegularFile i = false \/ IsDir i = true)) -> visited basedir R fn u u None.
Proof.
  intros HR. exists [], None. split; [done|]. split; [done|]. split; [by intros p e (i & ? & _)%HR|].
  intros p i (j & [= <-] & Hj)%HR Hp Hr Hd. rewrite Hr, Hd in Hj. by destruct Hj as [?|[?|?]].
Qed.

Lemma visit_visited U basedir subdirs (fn : callback FileInfo U) w : forall u,
  visited basedir (fun p i => reach basedir subdirs p i w) fn u (visit false basedir subdirs fn w u).1 (visit false basedir subdirs fn w u).2.
Proof.
  revert w. fix IH 1. intros [path info sub] u. cbn [visit]. set (visit_all := fix visit_all (ws : list walk) (u : U) := _).
  assert (Hall : forall u, visited basedir (fun p i => exists w, w ∈ sub /\ reach basedir subdirs p i w) fn u (visit_all sub u).1 (visit_all sub u).2).
  { induction sub as [|w ws IHws]; intros u0; [apply visited_none; by intros q j (w & ?%elem_of_nil & _)|]. cbn [visit_all]. pose proof (IH w u0) as Hw.
    destruct (visit false basedir subdirs fn w u0) as [u1 [r|]].
    - eapply visited_stop; [|exact Hw]. intros p i Hp. exists w. split; [left|done].
    - eapply visited_then; [|exact Hw|apply IHws]. intros p i. split.
      + intros (w' & [-> | Hw']%elem_of_cons & Hp); [by left|right; by exists w'].
      + intros [Hp|(w' & Hw' & Hp)]; [exists w|exists w']; (split; [|done]); [left|by right]. }
  (* the node itself, and what is below it *)
  assert (Hnode : forall fi, info = inl fi -> path = basedir \/ IsDir fi && negb subdirs = false -> forall p i, reach basedir subdirs p i (Visit path info sub)
      <-> (p = path /\ i = inl fi) \/ exists w, w ∈ sub /\ reach basedir subdirs p i w).
  { intros fi -> Hd p i. split.
    - intros Hr. inversion Hr; subst; [by left|right; eauto].
    - intros [[-> ->]|(w & Hw & Hr)]; [constructor|by eapply reach_below]. }
  destruct info as [fi|e].
  2:{ destruct (IsNotExist e) eqn:Ee; exists [], None; (split; [done|]); [|done]. split; [done|]. exists path, e. split; [constructor|done]. }
  assert (Hbelow : path = basedir \/ IsDir fi && negb subdirs = false -> path = basedir \/ IsRegularFile fi = false ->
    visited basedir (fun p i => reach basedir subdirs p i (Visit path (inl fi) sub)) fn u (visit_all sub u).1 (visit_all sub u).2).
  { intros Hd Hreg. eapply visited_then; [by apply Hnode|apply visited_none|apply Hall]. intros q j [-> ->]. exists fi. split; [done|].
    destruct Hreg; auto. }
  case_bool_decide as Hb; [by apply Hbelow; left|]. destruct (IsDir fi && negb subdirs) eqn:Hd.
  { apply visited_none. intros q j Hr. inversion Hr as [|? ? ? ? [?|?]]; subst; [|done|congruence]. exists fi. apply andb_true_iff in Hd as [-> _]. auto. }
  destruct (IsRegularFile fi) eqn:Hreg; cbn [negb]; [|apply Hbelow; by right]. cbn [ctx_err].
  destruct (fn _ u) as [u1 [e|]] eqn:Ef; [exists [mkFileInfo (oi_Size fi) (Base path)], (Some e); cbn [call_all]; by rewrite Ef|].
  eapply visited_then; [by apply (Hnode fi eq_refl); right|by eapply visited_one|apply Hall].
Qed.

Lemma sftp_list_spec U t (fn : callback FileInfo U) u s m s' u' r : represents s m -> List b false t fn u s = (s', u', r) ->
  represents s' m /\ listing keeps_errors m t fn u u' r.
Proof using L SL NL.
  intros Hm. unfold List. destruct (l_Basedir (be_Layout b) t) as [basedir subdirs] eqn:Eb. destruct (c_Walk basedir s) as [s1 w] eqn:E.
  assert (Hm1 : represents s1 m) by (eapply represents_reads; [apply walk_reads|done..]).
  assert (Hfile : forall h d, t ∈ file_types -> store_handle h -> h_Type h = t -> m h = Some d -> our_name (Filename b h)
    /\ objects s (Filename b h) = Some d /\ Base (Filename b h) = h_Name h /\ Filename b h ≠ basedir
    /\ exists x, Filename b h = (basedir ++ "/" ++ x)%string /\ (subdirs = false -> noslash x)).
  { intros h d Ht Hh Hty Hd. assert (Hc : h_Type h ≠ ConfigFile) by (rewrite Hty; intros ->; by apply (bool_decide_eq_true_2 _) in Ht).
    destruct (naming_under h Hh Hc) as (x & Hx & _ & _ & Hflat). rewrite Hty in Hx, Hflat. rewrite naming_dir, Eb, <- string_app_assoc in Hx by done.
    rewrite Eb in Hflat. cbn [fst snd] in *. split; [by apply our_filename|]. split; [by rewrite <- Hd; apply Hm|]. split; [by apply naming_base|].
    split; [|by exists x]. unfold Filename. rewrite Hx. intros El%(f_equal String.length). rewrite !string_length_app in El. cbn in El. lia. }
  pose proof (visit_visited U basedir subdirs fn w u) as (fis & r0 & Hc & Hv). destruct (visit false basedir subdirs fn w u) as [u1 [[e|]|]];
    intros [= <- <- <-]; (split; [done|]); [by eapply listing_failed| |]; exists fis, r0; (split; [done|]); intros Ht _.
  - destruct Hv as (-> & p & e & Hp & He). intros fi (h & d & Hh & Hty & Hd & ->). exfalso.
    destruct (Hfile h d Ht Hh Hty Hd) as (Ho & Hob & _ & _ & x & Hx & _).
    assert (Hw : in_walk p (inr e) w) by (clear -Hp; induction Hp; [constructor|by econstructor]).
    by rewrite (walk_gone _ _ _ _ _ _ _ _ E Hw He Ho Hx) in Hob.
  - destruct Hv as (-> & He & Hin). intros fi (h & d & Hh & Hty & Hd & ->).
    destruct (Hfile h d Ht Hh Hty Hd) as (Ho & Hob & <- & Hne & x & Hx & Hflat).
    assert (HR : exists i, reach basedir subdirs (Filename b h) (inl i) w /\ file_entry i d).
    { destruct (walk_finds _ _ _ _ _ _ _ E Ho Hx Hob) as [(e & sub & ->)|(j & sub & -> & H1 & H2)]; [by destruct (He basedir e); constructor|].
      destruct subdirs.
      - destruct H2 as [(i & Hi & Hf)|(p & e & Hp)]; [|by destruct (He p e); apply in_walk_reach]. exists i. split; [by apply in_walk_reach|done].
      - destruct (H1 (Hflat eq_refl)) as [(i & sub' & Hi & Hf)|(p & e & sub' & Hp)].
        + exists i. split; [|done]. eapply reach_below; [by left|exact Hi|constructor].
        + destruct (He p e). eapply reach_below; [by left|exact Hp|constructor]. }
    destruct HR as (i & Hi & Hreg & Hdir & <-). by apply Hin.
Qed.

#[export] Instance sftp_implements fuel : Implements (backend b fuel) represents true keeps_errors any_save any_load.
Proof using L SL NL.
  split; cbn [be_Save be_Remove be_Load be_Stat be_Test be_List backend].
  - intros h rd s m s' rd' r Hh _. by apply sftp_save_spec.
  - intros h s m s' r Hh Hm. unfold Remove. destruct (clientError s) as [s1 r1] eqn:E1. pose proof (clientError_spec _ _ _ _ Hm E1) as Hm1.
    destruct r1; [intros [= <- <-]; by right|]. intros E.
    destruct (represents_removes objects _ suffix_inj _ _ _ _ _ _ _ Hh Hm1 (remove_removes _) E) as [?|[Hg ?]]; [left; by split; [|right]|right].
    split; [|done]. by destruct r.
  - intros U h o l fn u s m s' u' r Hh _ Hm. apply service_load_spec; [done..|]. intros s1 s2 r1. unfold openReader.
    destruct (Handle_Valid h); [intros [= <- <-]; left; by eexists|].
    destruct (Z.ltb_spec l 0); [intros [= <- <-]; left; by eexists|]. destruct (c_Open _ s1) as [s3 r3] eqn:E. intros HE. right. split; [done|].
    assert (s2 = s3) as -> by (destruct r3 as [f|]; [destruct (if 0 <? l then _ else _)|]; by injection HE as <- _).
    split; [intros n'; by apply (open_reads _ _ _ _ n' E)|]. intros rd ->. destruct r3 as [f|]; [|done].
    destruct (if 0 <? l then _ else _); [done|]. injection HE as <-. destruct (open_ok _ _ _ _ (our_filename h Hh) E) as (d & Hd & Hf).
    unfold loads. unfold Filename in Hd. rewrite Hd. by apply limited_serves.
  - intros h s m s' fi r Hh Hm. unfold Stat. destruct (clientError s) as [s1 r1] eqn:E1. pose proof (clientError_spec _ _ _ _ Hm E1) as Hm1.
    destruct r1; [by intros [= <- <- <-]|]. destruct (Handle_Valid h); [by intros [= <- <- <-]|]. destruct (c_Lstat _ s1) as [s2 r2] eqn:E2.
    assert (Hm2 : represents s2 m) by (eapply represents_reads; [apply lstat_reads|done..]). destruct r2 as [i|e]; intros [= <- <- <-]; (split; [done|]); [|done].
    intros _. destruct (lstat_ok _ _ _ _ (our_filename h Hh) E2) as (d & Hd & Hs). exists d. by rewrite <- (Hm1 h Hh), Hs.
  - intros h s m s' has r Hh Hm. unfold Test. destruct (clientError s) as [s1 r1] eqn:E1. pose proof (clientError_spec _ _ _ _ Hm E1) as Hm1.
    destruct r1; [by intros [= <- <- <-]|]. destruct (c_Lstat _ s1) as [s2 r2] eqn:E2.
    assert (Hm2 : represents s2 m) by (eapply represents_reads; [apply lstat_reads|done..]). destruct r2 as [i|e].
    + intros [= <- <- <-]. split; [done|]. intros _. left. destruct (lstat_ok _ _ _ _ (our_filename h Hh) E2) as (d & Hd & Hs).
      rewrite <- (Hm1 h Hh), Hd. symmetry. by apply bool_decide_eq_true_2.
    + destruct (os_IsNotExist (Cause e)); intros [= <- <- <-]; (split; [done|]); [by right|done].
  - intros U t fn u s m s' u' r Hm. by apply sftp_list_spec.
Qed.
End facts.

(** ** Errors that are lost *)

(** That the server has no space left is found out, but not returned: [Save]
    never ends with the permanent error that says so. *)
Lemma Save_no_space_lost {S} {CS : Client S} b ctx h rd (s s1 s' : S) rd' e : clientError s = (s1, None) -> Handle_Valid h = None ->
  Save b ctx h rd s = (s', rd', Some e) -> e ≠ no_space.
Proof.
  intros Hc Hv. unfold Save. rewrite Hc, Hv. destruct (tempSuffix s1) as [s2 suffix]. cbv zeta.
  destruct (create_temp _ _ s2) as [s3 [e3|]]; [by intros [= _ _ <-]|].
  destruct (write_temp _ _ rd s3) as [s4 [err r]] eqn:E. intros [= _ _ ->]. revert E. unfold write_temp.
  destruct (c_ReadFrom _ _ s3) as [s5 [k [e5|]]]; [destruct (c_CloseFile _ s5); by intros [= _ _ <-]|].
  case_bool_decide; destruct (c_CloseFile _ s5) as [s6 [e6|]]; [by intros [= _ _ <-]..|].
  destruct (c_Rename _ _ s6) as [s7 [e7|]]; by intros [= _ _ <-].
Qed.
(** A file that was written short is left behind. *)
Lemma Save_short_left {S} {CS : Client S} tmp filename dir rd (s s1 : S) k : k ≠ Length rd ->
  c_ReadFrom tmp (mkReader (read_all rd).1 None None) s = (s1, (k, None)) ->
  let '(s2, (err, r)) := write_temp tmp filename rd s in
  s2 = (c_CloseFile tmp s1).1 /\ r ≠ None /\ deferred tmp dir rd err s2 = s2.
Proof. intros Hk E. unfold write_temp. rewrite E, bool_decide_eq_true_2 by done. by destruct (c_CloseFile tmp s1). Qed.
(** A directory that vanishes during a listing ends it without an error: what
    comes after it is not listed. *)
Lemma List_drops_rest {S} {CS : Client S} b U t (fn : callback FileInfo U) u (s s' : S) basedir subdirs fi dir e rest :
  l_Basedir (be_Layout b) t = (basedir, subdirs) -> c_Walk basedir s = (s', Visit basedir (inl fi) (Visit dir (inr e) [] :: rest)) ->
  IsNotExist e = true -> List b false t fn u s = (s', u, None).
Proof. intros Hb Hw He. unfold List. rewrite Hb, Hw. cbn [visit]. rewrite bool_decide_eq_true_2 by done. by rewrite He. Qed.

(** ** A server in memory *)

Definition no_file : error := EMsg "file does not exist".
Definition regular_info (n : string) (d : list byte) : OsInfo := mkOsInfo (Base n) (lenZ d) 0x180 zeroTime None.
Definition directory_info (n : string) : OsInfo := mkOsInfo (Base n) 0 (ModeDir + 0x1c0) zeroTime None.
(** Names that end with a slash are directories. *)
#[export] Instance toy_client : Client (gmap string (list byte)) := {|
  c_Create n s := match s !! n with Some _ => (s, Some (EMsg "file exists")) | None => (<[n := []]> s, None) end;
  c_MkdirAll _ s := (s, None);
  c_Chmod _ _ s := (s, None);
  c_ReadFrom n rd s := match rd_err rd with
                       | None => (<[n := default [] (s !! n) ++ rd_bytes rd]> s, (lenZ (rd_bytes rd), None))
                       | Some e => (s, (0, Some e))
                       end;
  c_CloseFile _ s := (s, None);
  c_Rename n n' s := match s !! n with Some d => (<[n' := d]> (delete n s), None) | None => (s, Some no_file) end;
  c_Remove n s := match s !! n with Some _ => (delete n s, None) | None => (s, Some no_file) end;
  c_RemoveDirectory _ s := (s, None);
  c_Lstat n s := (s, match s !! n with Some d => inl (regular_info n d) | None => inr no_file end);
  c_Open n s := (s, match s !! n with
                    | Some d => inl (mkOpenFile d None (inl (regular_info n d)) None None)
                    | None => inr no_file
                    end);
  c_ReadDir n s := (s, inl (map (fun x => regular_info x.1 x.2) (filter (fun x => Dir x.1 = n) (map_to_list s))));
  c_Walk n s := (s, Visit n (inl (directory_info n))
                      (map (fun x => Visit x.1 (inl (regular_info x.1 x.2)) []) (filter (fun x => has_prefix (n ++ "/") x.1 = true) (map_to_list s))));
  c_StatVFS _ s := (s, inl (1, 1));
  c_HasExtension _ := true;
  c_Close s := (s, None);
  is_failure _ := false;
  is_ErrNotExist e := bool_decide (e = no_file);
  os_IsNotExist e := bool_decide (e = no_file);
  rand_Read s := (s, replicate 16 Byte.x2a);
  cmd_StderrPipe s := (s, None); cmd_StdinPipe s := (s, None); cmd_StdoutPipe s := (s, None);
  cmd_Start _ _ s := (s, None); NewClientPipe s := (s, None); cmd_bg s := (s, None);
  cmd_exited s := (s, None); cmd_wait s := (s, Some None); cmd_Kill s := (s, None);
|}.
Definition toy_objects (s : gmap string (list byte)) (n : string) : option (list byte) := s !! n.
#[export] Instance toy_laws ours : Laws toy_objects ours.
Proof.
  split; unfold toy_objects, reads; cbn [c_Create c_MkdirAll c_Chmod c_ReadFrom c_CloseFile c_Rename c_Remove c_Lstat c_Open c_Walk
    c_StatVFS cmd_exited rand_Read is_ErrNotExist toy_client]; try by intros; simplify_eq.
  - intros n n' s s' r Hn. destruct (s !! n); intros [= <- _]; [done|]. by apply lookup_insert_ne.
  - intros n s s'. destruct (s !! n); intros [= <-]. apply lookup_insert_eq.
  - intros n n' rd s s' r Hn. destruct (rd_err rd); intros [= <- _]; [done|]. by apply lookup_insert_ne.
  - intros n rd s s' k Hr H0. rewrite Hr, H0. intros [= <- _]. apply lookup_insert_eq.
  - intros n n' o s s' r H1 H2. destruct (s !! n) as [d|]; intros [= <- _]; [|done]. by rewrite lookup_insert_ne, lookup_delete_ne.
  - intros n n' s s' r Hn. destruct (s !! n) as [d|]; intros [= <- <-]; [left; apply lookup_insert_eq|by right].
  - intros n s s' a. destruct (s !! n) as [d|] eqn:E; intros [= <- <-]; (split; [|by left; rewrite ?lookup_delete_eq]).
    + intros n' Hn. by apply lookup_delete_ne.
    + done.
  - intros n s s' fi _. destruct (s !! n) as [d|]; intros [= <- <-]. by exists d.
  - intros n s s' f _. destruct (s !! n) as [d|]; intros [= <- <-]. exists d. split; [done|]. by left.
  - intros d s s' w n x f [= <- <-] _ -> Hf. right.
    assert (Hin : Visit (d ++ "/" ++ x) (inl (regular_info (d ++ "/" ++ x) f)) []
        ∈ map (fun x => Visit x.1 (inl (regular_info x.1 x.2)) []) (filter (fun x => has_prefix (d ++ "/") x.1 = true) (map_to_list s))).
    { apply list_elem_of_fmap. exists ((d ++ "/" ++ x)%string, f). split; [done|]. apply list_elem_of_filter.
      split; [cbn [fst]; by rewrite string_app_assoc, has_prefix_app|]. by apply elem_of_map_to_list. }
    eexists _, _. split; [reflexivity|]. split; [intros _|]; left.
    + eexists _, []. by split; [exact Hin|].
    + eexists. split; [eapply walk_below; [exact Hin|constructor]|done].
  - intros d s s' w p e n x [= <- <-] Hw. exfalso. inversion Hw as [|q j sub w' Hin Hw']; subst.
    apply list_elem_of_fmap in Hin as (y & -> & _). by inversion Hw' as [|? ? ? ? Hn]; subst; apply elem_of_nil in Hn.
Qed.

(** Saving in a repository at [/srv/repo]: the file is there under its name,
    and nothing else. *)
Definition toy_sftp : SFTP := mkSFTP "/srv/repo" (DefaultLayout Join "/srv/repo" file_types) (Configs.Sftp.mkConfig "" "host" "" "/srv/repo" "" "").
Example sftp_save_example :
  let h := mkBeHandle KeyFile InvalidBlob (ID_String nullID) in
  map_to_list (Save toy_sftp false h (NewByteReader None [Byte.x61]) (∅ : gmap string (list byte))).1.1 = [(Filename toy_sftp h, [Byte.x61])].
Proof. vm_compute. reflexivity. Qed.
