(* ===== verification/Cloud.v ===== *)
(** * Cloud: every remote backend keeps the promises of a store

    The backends of Services.v and Rest.v together: what any program does on
    one of them, and what their listings show; and a service that exists, on
    which a program runs. *)

From S2P Require Import Prelude Ids Pack Duration Backend Snapshots Trees Paths Disk Layouts Store Configs Remote Services Rest.
From S2P Require Sftp.

(** ** The remote backends *)

(** The backends that list objects, with the layout of their names, and with
    the saves and loads that work. *)
Inductive service {S} (objects : contents S) : Backend S -> Layout -> (RewindReader -> Prop) -> (Z -> Z -> Prop) -> Prop :=
| service_gs (CS : GS.Client S) pending (L : GS.Laws objects pending) b (NL : NamingLaws (GS.be_Layout b)) md5 :
    service objects (GS.backend b md5) (GS.be_Layout b) any_save any_load
| service_s3 (CS : S3.Client S) (L : S3.Laws objects) b (NL : NamingLaws (S3.be_Layout b)) :
    service objects (S3.backend b) (S3.be_Layout b) fresh load_ok
| service_b2 (CS : B2.Client S) pending (L : B2.Laws objects pending) b (NL : NamingLaws (B2.be_Layout b)) :
    service objects (B2.backend b) (B2.be_Layout b) any_save any_load
| service_azure (CS : Azure.Client S) blocks (L : Azure.Laws objects blocks) b (NL : NamingLaws (Azure.be_Layout b)) md5 encode :
    service objects (Azure.backend md5 encode b) (Azure.be_Layout b) Azure.small Azure.load_ok
| service_swift (CS : Swift.Client S) (L : Swift.Laws objects) b (NL : NamingLaws (Swift.be_Layout b)) md5 :
    service objects (Swift.backend b md5) (Swift.be_Layout b) fresh load_ok.

(** The backends of REST and SFTP servers, too. *)
Inductive remote {S} (objects : contents S) : Backend S -> Layout -> (RewindReader -> Prop) -> (Z -> Z -> Prop) -> Prop :=
| remote_service be l save_ok load_ok : service objects be l save_ok load_ok -> remote objects be l save_ok load_ok
| remote_rest (CS : HTTP S) (L : ServerLaws objects) at_end url URL types :
    remote objects (Rest.backend at_end (mkBe url (RESTLayout Join "" URL types))) (RESTLayout Join "" URL types) fresh load_ok
| remote_sftp (CS : Sftp.Client S) b (SL : SuffixLaws (Sftp.be_Layout b)) (NL : NamingLaws (Sftp.be_Layout b)) (L : Sftp.Laws objects (Sftp.our_name b)) fuel :
    remote objects (Sftp.backend b fuel) (Sftp.be_Layout b) any_save any_load.

(** ** A service in memory *)

(** The objects, and what has been written and is not closed. *)
Definition bucket : Type := gmap string (list byte) * gmap string (list byte).
Definition bucket_objects (s : bucket) (n : string) : option (list byte) := s.1 !! n.
Definition bucket_pending (s : bucket) (n : string) : option (list byte) := s.2 !! n.
Definition no_object : error := EMsg "storage: object doesn't exist".
Definition bucket_info (n : string) (d : list byte) : Object := mkObject n (lenZ d) zeroTime.

#[export] Instance bucket_client : GS.Client bucket := {|
  GS.w_Copy n rd s := ((s.1, match rd_err rd with None => <[n := rd_bytes rd]> s.2 | Some _ => delete n s.2 end), (lenZ (rd_bytes rd), rd_err rd));
  GS.w_Close n _ s := match s.2 !! n with
                      | Some d => ((<[n := d]> s.1, delete n s.2), None)
                      | None => (s, Some (EMsg "nothing was written"))
                      end;
  GS.NewRangeReader n offset len s := (s, match s.1 !! n with
                                          | Some d => inl (mkReader (from_length offset len d) None None)
                                          | None => inr no_object
                                          end);
  GS.Attrs n s := (s, match s.1 !! n with Some d => inl (bucket_info n d) | None => inr no_object end);
  GS.DeleteObject n s := match s.1 !! n with Some _ => ((delete n s.1, s.2), None) | None => (s, Some no_object) end;
  GS.Objects p s := (s, map inl (filter (fun o => has_prefix p (o_Name o) = true) (map (fun x => bucket_info x.1 x.2) (map_to_list s.1))));
  GS.bucket_Attrs s := (s, None);
  GS.bucket_Create _ s := (s, None);
  GS.ErrObjectNotExist := no_object;
  GS.ErrBucketNotExist := EMsg "storage: bucket doesn't exist";
  GS.googleapi_Code _ := None;
  GS.os_IsNotExist _ := false;
|}.
#[export] Instance bucket_laws : GS.Laws bucket_objects bucket_pending.
Proof.
  split; unfold bucket_objects, bucket_pending; cbn [GS.w_Copy GS.w_Close GS.NewRangeReader GS.Attrs GS.DeleteObject GS.Objects GS.ErrObjectNotExist bucket_client].
  - intros n rd s s' a n' [= <- _]. done.
  - intros n rd s s' k [= <- _ ->]. apply lookup_insert_eq.
  - intros n rd s s' k e [= <- _ ->]. apply lookup_delete_eq.
  - intros n hash s s' r d ->. intros [= <- <-]. cbn [fst]. split; [|left; apply lookup_insert_eq].
    intros n' Hn. by apply lookup_insert_ne.
  - intros n hash s s' r n' ->. by intros [= <- _].
  - intros n offset len _. split; [by intros s s' a n' [= <- _]|]. intros s s' rd [= <- Hd]. destruct (s.1 !! n) as [d|]; [|done].
    injection Hd as <-. exists d. split; [done|]. by left.
  - intros n. split; [by intros s s' a n' [= <- _]|]. intros s s' o [= <- Hd]. destruct (s.1 !! n) as [d|]; [|done]. injection Hd as <-. by exists d.
  - intros n s s' a. destruct (s.1 !! n) as [d|] eqn:E; intros [= <- <-]; cbn [fst].
    + split; [|left; apply lookup_delete_eq]. intros n' Hn. by apply lookup_delete_ne.
    + split; [done|]. by left.
  - intros p. split; [by intros s s' a n' [= <- _]|]. split.
    + intros s s' items o [= <- <-] Ho. apply list_elem_of_fmap in Ho as (o' & [= ->] & [Hp Ho]%list_elem_of_filter). split; [done|]. left.
      apply list_elem_of_fmap in Ho as ([n d] & -> & Hn%elem_of_map_to_list). by exists d.
    + intros s s' objs x [= _ <-%inl_inj_list] [d Hd] _. apply list_elem_of_fmap. exists (bucket_info (p ++ x)%string d). split; [done|].
      apply list_elem_of_filter. split; [apply has_prefix_app|]. apply list_elem_of_fmap. exists ((p ++ x)%string, d). split; [done|].
      by apply elem_of_map_to_list.
Qed.

(** A repository in the bucket, and a client of it. *)
Definition cloud_prefix : list string := ["backups"%string; "host"%string].
Lemma cloud_prefix_plain : Forall plain cloud_prefix.
Proof. apply (bool_decide_eq_true_1 _). vm_compute. reflexivity. Qed.
Definition cloud_be : GS.be := GS.mkBe "project" "bucket" "backups/host" 1000 (DefaultLayout Join (join "/" cloud_prefix) file_types).
Definition cloud_backend : Backend bucket := GS.backend cloud_be (fun _ => []).
Definition cloud_naming : NamingLaws (GS.be_Layout cloud_be) := relative_layout_laws cloud_prefix cloud_prefix_plain file_types.
Definition cloud_handle : Handle := mkBeHandle PackFile DataBlob (ID_String nullID).
Definition cloud_pack : list byte := replicate 20 Byte.x61 ++ replicate 20 Byte.x62.
Lemma cloud_store_handle : store_handle cloud_handle.
Proof. right. split; [left|]. by exists nullID. Qed.

Definition cloud_client : prog (list byte * list FileInfo * option error * bool) :=
  DoSave cloud_handle (NewByteReader None cloud_pack) (fun _ =>
  DoLoad cloud_handle 8 16 (fun rd _ => (rd_bytes rd, rd_err rd)) [] (fun data _ =>
  DoList PackFile (fun fi u => (u ++ [fi], None)) [] (fun files _ =>
  DoRemove cloud_handle (fun err =>
  DoTest cloud_handle (fun has => Done (data, files, err, has.1)))))).
Lemma cloud_client_ok : prog_ok any_save any_load cloud_client.
Proof.
  assert (Hh := cloud_store_handle). split; [done|]. intros _. split; [done|]. intros u r. cbn [prog_ok]. intros fis r'. split; [done|].
  intros r''. by split.
Qed.
Lemma cloud_client_result : run cloud_backend cloud_client ((∅, ∅) : bucket)
  = ((∅, ∅), (replicate 4 Byte.x61 ++ replicate 4 Byte.x62, [mkFileInfo 40 (ID_String nullID)], None, false)).
Proof. vm_compute. reflexivity. Qed.

(** ** The theorems *)

(** C21: Every remote backend (Google Cloud Storage, S3, B2, Azure, Swift, a
    REST server, an SFTP server) implements the store of files: a run of a
    program on it is a run of the store, with the same result, from the files
    there are to the files there are then, although any call of the service may
    fail, also after it was carried out.  A file is there with all its content
    or not at all, and no operation changes another file; a load passes the
    requested bytes to the callback and stops short only with an error; a
    listing without an error has called the callback for every file of the
    type, with its size and name (it may show other objects there, too), and no
    call of the callback failed.  What these backends do not promise: a failed
    removal may have removed the file, and the test for a file may say that
    there is none because asking failed.  It is assumed that the services do
    what their documentation says, and that the programs use handles of a
    repository, are not cancelled, and save and load what works: for S3, Swift,
    REST and Azure, readers of which nothing was read and parts that end below
    2^63; for Azure, files below 256 MiB (larger ones are sent in blocks, and a
    failure leaves an empty file) and not the first byte alone; for SFTP,
    nothing is removed by others during a listing. *)
Theorem remote_refines {S} (objects : contents S) be l save_ok load_ok {A} (p : prog A) s m :
  remote objects be l save_ok load_ok -> prog_ok save_ok load_ok p -> represents objects l s m ->
  exists m', spec_run true keeps_errors p m (run be p s).2 m' /\ represents objects l (run be p s).1 m'.
Proof.
  intros [be' l' so lo [CS pending L b NL md5|CS L b NL|CS pending L b NL|CS blocks L b NL md5 encode|CS L b NL md5]|CS L at_end url URL types|CS b SL NL L fuel] Hp Hm.
  - by eapply (implements_run (IM := GS.gs_implements objects pending b md5)).
  - by eapply (implements_run (IM := S3.s3_implements objects b)).
  - by eapply (implements_run (IM := B2.b2_implements objects pending b)).
  - by eapply (implements_run (IM := Azure.azure_implements objects blocks md5 encode b)).
  - by eapply (implements_run (IM := Swift.swift_implements objects b md5)).
  - by eapply (implements_run (IM := rest_implements objects at_end (mkBe url (RESTLayout Join "" URL types)) (rest_inj URL types) (rest_below URL types))).
  - by eapply (implements_run (IM := Sftp.sftp_implements objects b fuel)).
Qed.

Lemma remote_refines_witness : exists m', spec_run true keeps_errors cloud_client (fun _ => None)
  (replicate 4 Byte.x61 ++ replicate 4 Byte.x62, [mkFileInfo 40 (ID_String nullID)], None, false) m'.
Proof.
  destruct (remote_refines bucket_objects cloud_backend (GS.be_Layout cloud_be) any_save any_load cloud_client (∅, ∅) (fun _ => None)) as (m' & H1 & _).
  - exact (remote_service _ _ _ _ _ (service_gs _ bucket_client bucket_pending bucket_laws cloud_be cloud_naming _)).
  - exact cloud_client_ok.
  - intros h Hh. reflexivity.
  - exists m'. rewrite cloud_client_result in H1. exact H1.
Defined.

(** A listing of a type on a storage service that ends without an error
    has called the callback for every file of the type in the store, with its
    name and size, whatever objects, pages and errors the service answered
    with. *)
Theorem remote_List_shows {S} (objects : contents S) be l save_ok load_ok :
  service objects be l save_ok load_ok -> shows_all be objects l.
Proof.
  intros [CS pending L b NL md5|CS L b NL|CS pending L b NL|CS blocks L b NL md5 encode|CS L b NL md5].
  - by eapply GS.gs_shows.
  - by eapply S3.s3_shows.
  - by eapply B2.b2_shows.
  - by eapply Azure.azure_shows.
  - by eapply Swift.swift_shows.
Qed.

Definition cloud_saved : bucket := ({[ GS.Filename cloud_be cloud_handle := cloud_pack ]}, ∅).
Lemma cloud_saved_listing : (be_List cloud_backend false PackFile (fun fi u => (u ++ [fi], None)) [] cloud_saved).1.2 = [mkFileInfo 40 (ID_String nullID)].
Proof. vm_compute. reflexivity. Qed.
Lemma remote_List_shows_witness : shows_all cloud_backend bucket_objects (GS.be_Layout cloud_be)
  /\ (be_List cloud_backend false PackFile (fun fi u => (u ++ [fi], None)) [] cloud_saved).1.2 = [mkFileInfo 40 (ID_String nullID)].
Proof.
  split; [|exact cloud_saved_listing].
  exact (remote_List_shows bucket_objects cloud_backend (GS.be_Layout cloud_be) any_save any_load
    (service_gs _ bucket_client bucket_pending bucket_laws cloud_be cloud_naming _)).
Defined.
