(* ===== verification/Migration.v ===== *)
(** * Migration: from the s3legacy to the default layout

    src/internal/migrations/s3_layout.go over the S3 backend of Services.v: the
    files are copied to their new names and removed under the old ones, while
    calls of the service may fail.  The theorem is that no file is ever lost,
    wherever the migration ends, so that it can be started again; and that
    the default layout has all files when it ends without an error. *)

From S2P Require Import Prelude Ids Pack Duration Backend Snapshots Trees Paths FileInfo Disk Layouts Store Configs Remote Services.
Import S3.

Section migration.
Context {S : Type} `{Client S} (types : list string).

Definition maxErrors : nat := 20.
(** [retry] with a function that changes the state. *)
Fixpoint retry (max : nat) (f : S -> S * option error) (err : option error) (s : S) : S * option error :=
  match max with
  | O => (s, err)
  | Datatypes.S max =>
      match f s with
      | (s, None) => (s, None)
      | (s, Some e) => retry max f (Some e) s
      end
  end.
Definition moveFiles (ctx : bool) (b : be) (l : Layout) (t : string) (s : S) : S * option error :=
  let '(prefix, recursive) := l_Basedir (be_Layout b) t in
  let prefix := with_slash prefix in
  let '(s, items) := ListObjects prefix recursive s in
  list_loop ctx prefix (fun fi => retry maxErrors (Rename b (mkBeHandle t InvalidBlob (fi_Name fi)) l) None) true items s.

Definition moved_types : list string := [SnapshotFile; PackFile; KeyFile; LockFile].
Fixpoint move_types (ctx : bool) (b : be) (l : Layout) (ts : list string) (s : S) : S * option error :=
  match ts with
  | [] => (s, None)
  | t :: ts =>
      match moveFiles ctx b l t s with
      | (s, Some e) => (s, Some e)
      | (s, None) => move_types ctx b l ts s
      end
  end.

Definition with_layout (b : be) (l : Layout) : be := mkBe (cfg b) l.
(** [Path] (src/backend/s3/s3.go) *)
Definition Path (b : be) : string := Configs.S3.Prefix (cfg b).
Definition oldLayout (b : be) : Layout := S3LegacyLayout Join (Path b) "" types.
Definition newLayout (b : be) : Layout := DefaultLayout Join (Path b) types.
(** The backend of a repository, when it is one of S3. *)
Definition Check_ (backend : option be) : bool :=
  match backend with
  | None => false
  | Some b => bool_decide (l_Name (be_Layout b) = "s3legacy"%string)
  end.
(** The backend with the layout it has then. *)
Definition Apply (ctx : bool) (backend : option be) (s : S) : S * option be * option error :=
  match backend with
  | None => (s, None, Some (EMsg "backend is not s3"))
  | Some b =>
      let b := with_layout b (oldLayout b) in
      match move_types ctx b (newLayout b) moved_types s with
      | (s, Some e) => (s, Some b, Some e)
      | (s, None) => (s, Some (with_layout b (newLayout b)), None)
      end
  end.
End migration.

(** ** Old and new names *)

Lemma ends_with_slash_split p z : z ≠ ""%string -> ends_with_slash (p ++ z) = true -> exists y, z = (y ++ "/")%string.
Proof.
  unfold ends_with_slash. rewrite bytes_of_app, last_app. intros Hz. destruct (last (bytes_of z)) as [c|] eqn:E.
  - intros ->%bool_decide_eq_true_1. apply last_Some in E as [l El]. exists (string_of l).
    rewrite <- (string_of_bytes_of z), <- (string_of_bytes_of (string_of l ++ "/")), El, bytes_of_app, bytes_of_string_of. done.
  - apply last_None in E. destruct Hz. by rewrite <- (string_of_bytes_of z), E.
Qed.
Lemma substring_length_le n s : (String.length (String.substring 0 n s) <= n)%nat.
Proof. revert n. induction s as [|c s IH]; intros [|n]; cbn; try lia. specialize (IH n). lia. Qed.

Section names.
Context (dir : list string) (dir_plain : Forall plain dir) (types : list string).
#[local] Abbreviation P := (join "/" dir).
#[local] Abbreviation old := (l_Filename (S3LegacyLayout Join P "" types)).
#[local] Abbreviation new := (l_Filename (DefaultLayout Join P types)).
#[local] Abbreviation old_place := (below_place s3LayoutPaths (fun _ => [])).
#[local] Abbreviation new_place := (below_place defaultLayoutPaths pack_extra).
#[local] Abbreviation old_prefix t := (dir_prefix (S3LegacyLayout Join P "" types) t).

Lemma old_components h : store_handle h -> old h = join "/" ((dir ++ old_place h) ++ [fname h]).
Proof using dir_plain. intros Hh. exact (legacy_filename dir dir_plain h Hh). Qed.
Lemma new_components h : store_handle h -> new h = join "/" ((dir ++ new_place h) ++ [fname h]).
Proof using dir_plain. intros Hh. exact (relative_filename dir dir_plain h Hh). Qed.
Lemma old_noslash h : store_handle h -> Forall noslash ((dir ++ old_place h) ++ [fname h]).
Proof using dir_plain. intros Hh. apply plain_noslash, below_plain; auto using sub_s3_plain. Qed.
Lemma new_noslash h : store_handle h -> Forall noslash ((dir ++ new_place h) ++ [fname h]).
Proof using dir_plain. intros Hh. apply plain_noslash, below_plain; auto using sub_default_plain, pack_extra_plain. Qed.

(** The only files whose names stay the same are the index files and the
    configuration. *)
Lemma same_directory t t' : t ∈ file_types -> t' ∈ file_types -> s3LayoutPaths t = defaultLayoutPaths t' -> t = t' /\ (t = PackFile \/ t ∉ moved_types).
Proof.
  intros Ht Ht' E.
  assert (H : Forall (fun t => Forall (fun t' => s3LayoutPaths t = defaultLayoutPaths t' -> t = t' /\ (t = PackFile \/ t ∉ moved_types)) file_types) file_types).
  { apply (bool_decide_eq_true_1 _). vm_compute. reflexivity. }
  rewrite Forall_forall in H. specialize (H t Ht). rewrite Forall_forall in H. by apply H.
Qed.
Lemma old_is_new h h' : store_handle h -> store_handle h' -> old h = new h' -> same_file h h' /\ h_Type h ∉ moved_types.
Proof using dir_plain.
  intros Hh Hh' E. rewrite old_components, new_components in E by done. apply (f_equal (fun s => ("" ++ s)%string)) in E.
  apply below_split in E as [E En]; [|by apply old_noslash|by apply new_noslash]. apply app_inv_head in E.
  unfold below_place in E. case_bool_decide as Hc; case_bool_decide as Hc'; [|done..|].
  - split; [split; [congruence|by left]|]. rewrite Hc. apply (bool_decide_eq_true_1 _). reflexivity.
  - injection E as E Ex. pose proof (below_type h Hh Hc) as Ht. pose proof (below_type h' Hh' Hc') as Ht'.
    destruct (same_directory _ _ Ht Ht' E) as [Et [Hp|Hm]].
    + unfold pack_extra in Ex. by rewrite <- Et, Hp in Ex.
    + unfold fname in En. rewrite !bool_decide_eq_false_2 in En by done. split; [|done]. split; [done|by right].
Qed.
Lemma old_new_stays h : store_handle h -> h_Type h ∉ moved_types -> old h = new h.
Proof using dir_plain.
  intros Hh Hm. rewrite old_components, new_components by done. unfold below_place. case_bool_decide as Hc; [done|].
  pose proof (below_type h Hh Hc) as Ht.
  assert (H : Forall (fun t => t ∉ moved_types -> s3LayoutPaths t = defaultLayoutPaths t /\ t ≠ PackFile) file_types).
  { apply (bool_decide_eq_true_1 _). vm_compute. reflexivity. }
  rewrite Forall_forall in H. destruct (H _ Ht Hm) as [-> Hp]. unfold pack_extra. by rewrite bool_decide_eq_false_2.
Qed.

(** What is below the directory of a type. *)
Lemma old_prefix_is t : t ∈ file_types -> old_prefix t = (join "/" (dir ++ [s3LayoutPaths t]) ++ "/")%string.
Proof using dir_plain.
  intros Ht. rewrite (naming_dir (NamingLaws := legacy_layout_laws dir dir_plain types)) by done.
  cbn [l_Basedir S3LegacyLayout S3_Basedir fst]. by rewrite (Join_one dir dir_plain) by by apply sub_s3_plain.
Qed.
Lemma below_old_prefix t z rest : t ∈ file_types -> Forall noslash (dir ++ rest) -> rest ≠ [] ->
  (old_prefix t ++ z)%string = join "/" (dir ++ rest) -> s3LayoutPaths t :: path_split z = rest.
Proof using dir_plain.
  intros Ht Hn Hne. rewrite old_prefix_is, <- string_app_assoc by done. intros E. apply (f_equal path_split) in E. rewrite path_split_app in E.
  assert (H1 : Forall noslash (dir ++ [s3LayoutPaths t])).
  { apply plain_noslash, plain_app. split; [done|by apply sub_s3_plain]. }
  destruct (dir ++ [s3LayoutPaths t]) as [|a x] eqn:E1; [by destruct dir|]. destruct (dir ++ rest) as [|c y] eqn:E2; [by destruct dir, rest|].
  rewrite !path_split_join in E by done. rewrite <- E1, <- E2, <- app_assoc in E. by apply app_inv_head in E.
Qed.
Definition last_component (l : list string) : string := default "" (last (filter (fun e => e ≠ ""%string) l)).
Lemma Base_last z : z ≠ ""%string -> filter (fun e => e ≠ ""%string) (path_split z) ≠ [] -> Base z = last_component (path_split z).
Proof.
  intros Hz Hf. unfold Base, last_component. rewrite bool_decide_eq_false_2 by done.
  destruct (last (filter _ (path_split z))) as [c|] eqn:E; [done|]. by apply last_None in E.
Qed.

(** A name of a listing: that of a file, or of a directory for packs, which
    has the same place in both layouts. *)
Definition tidy_name (t name : string) : Prop :=
  (exists id, wf_ID id /\ name = ID_String id) \/ (t = PackFile /\ plain name /\ (2 <? String.length name)%nat = false).
Lemma file_is_tidy t z h : t ∈ file_types -> store_handle h -> z ≠ ""%string ->
  (old_prefix t ++ z)%string = old h \/ (old_prefix t ++ z)%string = new h -> tidy_name t (Base z).
Proof using dir_plain.
  intros Ht Hh Hz E.
  assert (HE : exists ex, path_split z = ex ++ [fname h] /\ Forall plain ex /\ h_Type h ≠ ConfigFile).
  { destruct E as [E|E].
    - rewrite old_components, <- app_assoc in E by done. pose proof (old_noslash h Hh) as Hn. rewrite <- app_assoc in Hn.
      apply below_old_prefix in E; [|done|done|by destruct (old_place h)]. unfold below_place in E. case_bool_decide as Hc.
      + injection E as _ E. by destruct (path_split_nonempty z).
      + injection E as _ E. by exists [].
    - rewrite new_components, <- app_assoc in E by done. pose proof (new_noslash h Hh) as Hn. rewrite <- app_assoc in Hn.
      apply below_old_prefix in E; [|done|done|by destruct (new_place h)]. unfold below_place in E. case_bool_decide as Hc.
      + injection E as _ E. by destruct (path_split_nonempty z).
      + injection E as _ E. exists (pack_extra h). split; [done|]. split; [by apply pack_extra_plain|done]. }
  destruct HE as (ex & Es & Hex & Hc). left. destruct Hh as [?|[_ (id & Hid & Hname)]]; [done|]. exists id. split; [done|].
  assert (Hf : filter (fun e => e ≠ ""%string) (path_split z) = filter (fun e => e ≠ ""%string) ex ++ [fname h]).
  { rewrite Es, filter_app. f_equal. rewrite filter_cons_True, filter_nil; [done|].
    unfold fname. rewrite bool_decide_eq_false_2 by done. destruct (named_plain h (ex_intro _ id (conj Hid Hname))) as [(? & _) _]. done. }
  rewrite Base_last; [|done|rewrite Hf; apply snoc_nonempty]. unfold last_component. rewrite Hf, last_snoc. change (default "" (Some ?x)) with x.
  unfold fname. by rewrite bool_decide_eq_false_2.
Qed.
Lemma directory_is_tidy t z x h : t ∈ file_types -> store_handle h -> z ≠ ""%string -> ends_with_slash (old_prefix t ++ z) = true ->
  ((old_prefix t ++ z) ++ x)%string = old h \/ ((old_prefix t ++ z) ++ x)%string = new h -> tidy_name t (Base z).
Proof using dir_plain.
  intros Ht Hh Hz Hs E. destruct (ends_with_slash_split _ z Hz Hs) as [y ->]. rewrite <- !string_app_assoc in E.
  change ("/" ++ x)%string with ("/" ++ x)%string in E.
  assert (Hp : path_split (y ++ "/" ++ x) = path_split y ++ path_split x) by apply path_split_app.
  destruct E as [E|E].
  - rewrite old_components, <- app_assoc in E by done. pose proof (old_noslash h Hh) as Hn. rewrite <- app_assoc in Hn.
    apply below_old_prefix in E; [|done|done|by destruct (old_place h)]. rewrite Hp in E. unfold below_place in E.
    apply (f_equal length) in E. cbn [length] in E. rewrite !length_app in E. pose proof (path_split_nonempty y). pose proof (path_split_nonempty x).
    destruct (path_split y), (path_split x); [done..|]. case_bool_decide; cbn in E; lia.
  - rewrite new_components, <- app_assoc in E by done. pose proof (new_noslash h Hh) as Hn. rewrite <- app_assoc in Hn.
    apply below_old_prefix in E; [|done|done|by destruct (new_place h)]. rewrite Hp in E. unfold below_place in E.
    case_bool_decide as Hc. { injection E as _ E. by apply app_eq_nil in E as [? _]; destruct (path_split_nonempty y). }
    unfold pack_extra in E. case_bool_decide as Hk.
    2:{ exfalso. injection E as _ E. apply (f_equal length) in E. rewrite length_app in E. pose proof (path_split_nonempty y).
        pose proof (path_split_nonempty x). destruct (path_split y), (path_split x); try done. cbn in E. lia. }
    injection E as Ed E. pose proof (below_type h Hh Hc) as Ht'. destruct (same_directory _ _ Ht Ht' Ed) as [Et _].
    pose proof (path_split_nonempty y) as Hy. pose proof (path_split_nonempty x) as Hx. destruct (path_split y) as [|a [|a' ys]] eqn:Ey; [done| |].
    2:{ exfalso. apply (f_equal length) in E. rewrite length_app in E. destruct (path_split x); [done|]. cbn in E. lia. }
    injection E as Ea _. right. destruct Hh as [?|[_ Hnm]]; [done|]. destruct (named_plain h Hnm) as [_ Hsub].
    assert (Hb : Base (y ++ "/") = a).
    { assert (Hq : path_split (y ++ "/") = [a; ""%string]) by (change "/"%string with ("/" ++ "")%string; by rewrite path_split_app, Ey).
      assert (Hane : a ≠ ""%string) by (rewrite Ea; apply Hsub).
      assert (Hf : filter (fun e => e ≠ ""%string) (path_split (y ++ "/")) = [a]).
      { rewrite Hq, filter_cons_True by done. rewrite filter_cons_False by (intros H; by apply H). done. }
      rewrite Base_last; [|done|by rewrite Hf]. unfold last_component. by rewrite Hf. }
    rewrite Hb, Ea. split; [congruence|]. split; [done|]. unfold subdir_of. apply Nat.ltb_ge. apply substring_length_le.
Qed.
Lemma short_pack_same x : plain x -> (2 <? String.length x)%nat = false ->
  old (mkBeHandle PackFile InvalidBlob x) = new (mkBeHandle PackFile InvalidBlob x).
Proof using dir_plain.
  intros Hx Hl. pose proof Hx as (Hxne & _). assert (Hdata : plain "data") by (apply (bool_decide_eq_true_1 _); reflexivity).
  transitivity (join "/" (dir ++ ["data"%string; x])).
  - cbn [l_Filename S3LegacyLayout]. unfold S3_Filename. cbn [h_Type h_Name]. rewrite bool_decide_eq_false_2 by done. unfold S3_join.
    change (bool_decide (""%string = ""%string)) with true. cbn [negb]. rewrite andb_false_r. cbn [andb]. cbv zeta.
    assert (Hj : forall l, Join (drop_empty l) = Join l) by (intros l; unfold Join; by rewrite drop_empty_filter). rewrite Hj.
    change ("" ++ ?s)%string with s. apply Join_below; [done| |by repeat (apply Forall_cons; split)|done|].
    + cbn [map concat]. change (s3LayoutPaths PackFile) with "data"%string. by rewrite !parts_plain by done.
    + change (s3LayoutPaths PackFile) with "data"%string. by rewrite filter_cons_True by done.
  - cbn [l_Filename DefaultLayout]. unfold Default_Filename, Default_Dirname. cbn [h_Type h_Name]. rewrite bool_decide_eq_false_2 by done.
    rewrite Hl, andb_false_r. cbv zeta. change (defaultLayoutPaths PackFile) with "data"%string. rewrite Join_one by done. symmetry.
    rewrite Join_dir_file; [by rewrite <- app_assoc|by apply plain_app|apply snoc_nonempty|done].
Qed.
End names.

(** ** No file is lost *)

Section safe.
Context {S : Type} {CS : Client S} (objects : contents S) {L : Laws objects}.
Context (dir : list string) (dir_plain : Forall plain dir) (types : list string) (m : stored).
#[local] Abbreviation oldL := (S3LegacyLayout Join (join "/" dir) "" types).
#[local] Abbreviation newL := (DefaultLayout Join (join "/" dir) types).
#[local] Abbreviation old := (l_Filename oldL).
#[local] Abbreviation new := (l_Filename newL).

(** Every file is under its old or its new name, or under both; and there is
    nothing else. *)
Definition migrating (s : S) : Prop :=
  (forall h, store_handle h -> (objects s (old h) = None \/ objects s (old h) = m h) /\ (objects s (new h) = None \/ objects s (new h) = m h)
     /\ (objects s (old h) = m h \/ objects s (new h) = m h))
  /\ forall n, is_Some (objects s n) -> exists h, store_handle h /\ (n = old h \/ n = new h).
(** What is under a new name stays there. *)
Definition keeps (s s' : S) : Prop := forall h, store_handle h -> is_Some (objects s (new h)) -> is_Some (objects s' (new h)).
Definition safe (s s' : S) : Prop := migrating s -> migrating s' /\ keeps s s'.
Lemma safe_refl s : safe s s.
Proof. intros H. split; [done|]. by intros h. Qed.
Lemma safe_trans s1 s2 s3 : safe s1 s2 -> safe s2 s3 -> safe s1 s3.
Proof. intros H12 H23 H1. destruct (H12 H1) as [H2 K1]. destruct (H23 H2) as [H3 K2]. split; [done|]. intros h Hh Hs. by apply K2, K1. Qed.
Lemma safe_same s s' : (forall n, objects s' n = objects s n) -> safe s s'.
Proof.
  intros E [H1 H2]. split; [split|].
  - intros h Hh. rewrite !E. by apply H1.
  - intros n Hn. rewrite E in Hn. by apply H2.
  - intros h Hh. by rewrite E.
Qed.

Lemma old_inj h h' : store_handle h -> store_handle h' -> old h = old h' <-> same_file h h'.
Proof using dir_plain. apply (naming_inj (NamingLaws := legacy_layout_laws dir dir_plain types)). Qed.
Lemma new_inj h h' : store_handle h -> store_handle h' -> new h = new h' <-> same_file h h'.
Proof using dir_plain. apply (naming_inj (NamingLaws := relative_layout_laws dir dir_plain types)). Qed.
Lemma old_not_new h h' : store_handle h -> store_handle h' -> h_Type h ∈ moved_types \/ h_Type h' ∈ moved_types -> old h ≠ new h'.
Proof using dir_plain. intros Hh Hh' Hm E. destruct (old_is_new dir dir_plain types h h' Hh Hh' E) as [[Ht _] Hn]. rewrite Ht in *. tauto. Qed.

Section rename.
Context (h : Handle) (Hh : store_handle h) (Ht : h_Type h ∈ moved_types).

(** The file is copied, or not. *)
Lemma safe_copy s s' : (forall n, n ≠ new h -> objects s' n = objects s n) ->
  (objects s' (new h) = objects s (new h) \/ (is_Some (objects s (old h)) /\ objects s' (new h) = objects s (old h))) -> safe s s'.
Proof using dir_plain Hh Ht.
  intros Hf Hv [H1 H2]. split; [split|].
  - intros h' Hh'. destruct (H1 h' Hh') as (Ho & Hn & Hp). rewrite (Hf (old h')) by (apply old_not_new; tauto).
    destruct (decide (new h' = new h)) as [E|E]; [|by rewrite Hf]. rewrite E in *.
    apply new_inj, old_inj in E; [|done..]. rewrite E in *. destruct Hv as [-> | [[d Hd] ->]]; [done|]. rewrite Hd in *. naive_solver.
  - intros n Hn. destruct (decide (n = new h)) as [-> | E]; [exists h; tauto|]. rewrite Hf in Hn by done. by apply H2.
  - intros h' Hh' Hs. destruct (decide (new h' = new h)) as [E|E]; [|by rewrite Hf]. rewrite E in *. by destruct Hv as [-> | [? ->]].
Qed.
(** The old name is removed, or not. *)
Lemma safe_remove s s' : is_Some (objects s (new h)) -> (forall n, n ≠ old h -> objects s' n = objects s n) ->
  (objects s' (old h) = None \/ objects s' (old h) = objects s (old h)) -> safe s s'.
Proof using dir_plain Hh Ht.
  intros Hnew Hf Hv [H1 H2]. split; [split|].
  - intros h' Hh'. destruct (H1 h' Hh') as (Ho & Hn & Hp). rewrite (Hf (new h')) by (intros E; symmetry in E; revert E; apply old_not_new; tauto).
    destruct (decide (old h' = old h)) as [E|E]; [|by rewrite Hf]. rewrite E in *. apply old_inj, new_inj in E; [|done..]. rewrite E in *.
    assert (Hm : objects s (new h) = m h') by (destruct Hnew as [d Hd]; rewrite Hd in *; by destruct Hn).
    split_and!; [destruct Hv as [-> | ->]; [by left|done]|done|by right].
  - intros n Hn. apply H2. destruct (decide (n = old h)) as [-> | E]; [|by rewrite <- Hf]. destruct Hv as [E|<-]; [|done]. rewrite E in Hn. by destruct Hn.
  - intros h' Hh' Hs. rewrite Hf; [done|]. intros E. symmetry in E. revert E. apply old_not_new; tauto.
Qed.
Lemma Rename_spec b s s' r : be_Layout b = oldL -> Rename b h newL s = (s', r) -> safe s s'
  /\ (r = None -> migrating s -> is_Some (m h) -> is_Some (objects s' (new h))).
Proof using dir_plain Hh Ht L.
  intros Hb. unfold Rename, Filename. rewrite Hb. rewrite bool_decide_eq_false_2 by (apply old_not_new; tauto).
  destruct (CopyObject (new h) (old h) s) as [s1 [e|]] eqn:E1; pose proof (fun n Hn => copy_frame _ _ _ _ _ n Hn E1) as Hf.
  - assert (S1 : safe s s1) by (apply safe_copy; [done|by eapply copy_failed]).
    destruct (IsNotExist e) eqn:Ee; intros [= <- <-]; (split; [done|]); [|done]. intros _ [H1 _] Hm.
    destruct (copy_missing _ _ _ _ _ E1 Ee) as [Ho Hn]. rewrite Hn. destruct (H1 h Hh) as (_ & _ & [E|E]); [|by rewrite E].
    rewrite <- E, Ho in Hm. by destruct Hm.
  - destruct (copy_ok _ _ _ _ E1) as [Ho Hn]. assert (S1 : safe s s1) by (apply safe_copy; [done|by right]).
    assert (Hs1 : is_Some (objects s1 (new h))) by by rewrite Hn. intros E2. destruct (remove_removes _ _ _ _ E2) as [Hf2 Hv].
    assert (S2 : safe s1 s') by (apply safe_remove; [done..|destruct Hv as [?|[_ ?]]; [by left|by right]]).
    split; [by eapply safe_trans|]. intros _ Hm _. destruct (S1 Hm) as [Hm1 _]. destruct (S2 Hm1) as [_ K]. by apply K.
Qed.
End rename.

(** Handles of the names that are listed. *)
Lemma Rename_tidy b t x s s' r : be_Layout b = oldL -> t ∈ moved_types -> tidy_name t x ->
  Rename b (mkBeHandle t InvalidBlob x) newL s = (s', r) -> safe s s'
  /\ (r = None -> migrating s -> forall h, store_handle h -> h_Type h = t -> h_Name h = x -> is_Some (m h) -> is_Some (objects s' (new h))).
Proof using dir_plain L.
  intros Hb Ht Hx E.
  assert (Hft : t ∈ file_types).
  { assert (H : Forall (fun t => t ∈ file_types) moved_types) by (apply (bool_decide_eq_true_1 _); vm_compute; reflexivity).
    rewrite Forall_forall in H. by apply H. }
  destruct Hx as [(id & Hid & Hname)|(-> & Hp & Hl)].
  - set (h0 := mkBeHandle t InvalidBlob x) in *. assert (Hh0 : store_handle h0) by (right; split; [done|by exists id]).
    split; [by eapply (Rename_spec h0)|]. intros -> Hm h Hh Ht' Hn' Hs.
    assert (Es : new h = new h0) by (apply new_inj; [done..|]; split; [done|by right]). rewrite Es.
    destruct (Rename_spec h0 Hh0 Ht b s s' None Hb E) as [_ HR].
    assert (Hold : old h = old h0) by (apply old_inj; [done..|]; split; [done|by right]).
    apply HR; [done..|]. destruct Hm as [H1 _]. destruct (H1 h Hh) as (_ & _ & Hpl), (H1 h0 Hh0) as (Ho0 & Hn0 & _).
    rewrite Hold, Es in Hpl. destruct Hs as [d Hd], Hpl as [Ep|Ep]; rewrite Ep, Hd in *; [destruct Ho0 as [?|<-]|destruct Hn0 as [?|<-]]; done.
  - assert (E' : (s, None) = (s', r)).
    { revert E. unfold Rename, Filename. rewrite Hb. by rewrite bool_decide_eq_true_2 by by apply short_pack_same. }
    injection E' as <- <-. split; [apply safe_refl|]. intros _ _ h Hh Ht' Hn' _. destruct Hh as [Hc|[_ Hnm]]; [by rewrite Hc in Ht'|].
    exfalso. pose proof (short_names h Hnm) as Hlong. rewrite Hn' in Hlong. congruence.
Qed.
Lemma retry_spec (f : S -> S * option error) (Q : S -> Prop) : forall n err s s' r,
  (forall s s' r, f s = (s', r) -> safe s s' /\ (r = None -> migrating s -> Q s')) -> (n ≠ 0%nat \/ err ≠ None) ->
  retry n f err s = (s', r) -> safe s s' /\ (r = None -> migrating s -> Q s').
Proof.
  induction n as [|n IH]; intros err s s' r Hf Hn; cbn [retry].
  - intros [= <- <-]. split; [apply safe_refl|]. by destruct Hn.
  - destruct (f s) as [s1 [e|]] eqn:E; destruct (Hf _ _ _ E) as [S1 Q1].
    + intros HE. apply IH in HE as [S2 Q2]; [|done|by right]. split; [by eapply safe_trans|]. intros Hr Hm. by apply Q2, S1.
    + intros [= <- <-]. split; [done|]. by intros _ ?%Q1.
Qed.
Lemma moved_file_types t : t ∈ moved_types -> t ∈ file_types.
Proof.
  intros Ht. assert (H : Forall (fun t => t ∈ file_types) moved_types) by (apply (bool_decide_eq_true_1 _); vm_compute; reflexivity).
  rewrite Forall_forall in H. by apply H.
Qed.
(** The file is under its new name, if there is one. *)
Definition arrived (s : S) (h : Handle) : Prop := is_Some (m h) -> is_Some (objects s (new h)).
Lemma move_loop b t p items s s' r : be_Layout b = oldL -> t ∈ moved_types ->
  (forall o, inl o ∈ items -> TrimPrefix (o_Name o) p ≠ ""%string -> tidy_name t (Base (TrimPrefix (o_Name o) p))) ->
  list_loop false p (fun fi => retry maxErrors (Rename b (mkBeHandle t InvalidBlob (fi_Name fi)) newL) None) true items s = (s', r) ->
  safe s s' /\ (r = None -> migrating s -> forall h o, store_handle h -> h_Type h = t -> inl o ∈ items -> TrimPrefix (o_Name o) p ≠ ""%string ->
    h_Name h = Base (TrimPrefix (o_Name o) p) -> arrived s' h).
Proof using dir_plain L.
  intros Hb Ht. revert s. induction items as [|[o|e] items IH]; intros s Hx; cbn [list_loop ctx_err].
  - intros [= <- <-]. split; [apply safe_refl|]. by intros _ _ h o _ _ ?%not_elem_of_nil.
  - assert (Hx' : forall o, inl o ∈ items -> TrimPrefix (o_Name o) p ≠ ""%string -> tidy_name t (Base (TrimPrefix (o_Name o) p)))
      by (intros o' Ho'; apply Hx; by right).
    case_bool_decide as Hn.
    + intros HE. apply IH in HE as [S1 Q1]; [|done]. split; [done|]. intros Hr Hm h o' Hh Hty [[= ->]|Ho']%elem_of_cons Hne; [done|by apply Q1].
    + cbn [fi_Name entry]. set (x := Base (TrimPrefix (o_Name o) p)). destruct (retry _ _ _ s) as [s1 err1] eqn:E1.
      apply (retry_spec _ (fun s' => forall h, store_handle h -> h_Type h = t -> h_Name h = x -> arrived s' h)) in E1 as [S1 Q1]; [| |by left].
      2:{ intros s2 s3 r2 E2. apply (Rename_tidy b t x) in E2 as [S2 Q2]; [|done|done|apply Hx; [left|done]]. split; [done|].
          intros Hr Hm h Hh Hty Hname Hs. by apply Q2. }
      destruct err1 as [e|]; [by intros [= <- <-]|]. intros HE. apply IH in HE as [S2 Q2]; [|done]. split; [by eapply safe_trans|].
      intros Hr Hm h o' Hh Hty [[= ->]|Ho']%elem_of_cons Hne Hname Hs.
      * destruct (S1 Hm) as [Hm1 _]. destruct (S2 Hm1) as [_ K]. apply K; [done|]. by apply Q1.
      * destruct (S1 Hm) as [Hm1 _]. by eapply Q2.
  - intros [= <- <-]. by split; [apply safe_refl|].
Qed.

(** What is listed has tidy names, as there is nothing else. *)
Lemma listed_tidy t s s' items o : t ∈ file_types -> migrating s -> ListObjects (dir_prefix oldL t) false s = (s', items) -> inl o ∈ items ->
  TrimPrefix (o_Name o) (dir_prefix oldL t) ≠ ""%string -> tidy_name t (Base (TrimPrefix (o_Name o) (dir_prefix oldL t))).
Proof using dir_plain L.
  intros Ht [_ H2] E Ho. destruct (list_lists (dir_prefix oldL t) false) as (_ & Hs & _). destruct (Hs _ _ _ _ E Ho) as [Hp Hk].
  destruct (has_prefix_split _ _ Hp) as [z Hz]. rewrite Hz, TrimPrefix_app. intros Hne.
  destruct Hk as [(d & Hd & _)|[_ [Hsl [x Hsub]]]].
  - destruct (H2 _ (mk_is_Some _ _ Hd)) as (h & Hh & Hn). rewrite Hz in Hn. by apply (file_is_tidy dir dir_plain types t z h).
  - destruct (H2 _ Hsub) as (h & Hh & Hn). rewrite Hz in Hn, Hsl. by apply (directory_is_tidy dir dir_plain types t z x h).
Qed.
Lemma moveFiles_spec b t s s' r : be_Layout b = oldL -> t ∈ moved_types -> moveFiles false b newL t s = (s', r) ->
  safe s s' /\ (r = None -> migrating s -> forall h, store_handle h -> h_Type h = t -> arrived s' h).
Proof using dir_plain L.
  intros Hb Ht. pose proof (moved_file_types t Ht) as Hft. unfold moveFiles. rewrite Hb.
  change (l_Basedir oldL t) with ((l_Basedir oldL t).1, false). cbv beta iota zeta. change (with_slash (l_Basedir oldL t).1) with (dir_prefix oldL t).
  destruct (ListObjects (dir_prefix oldL t) false s) as [s1 items] eqn:E. destruct (list_lists (dir_prefix oldL t) false) as (Hrd & _ & Hcomp).
  assert (S1 : safe s s1) by (apply safe_same; intros n; by apply (Hrd _ _ _ _ E)). intros HE.
  assert (HL : migrating s -> safe s1 s' /\ (r = None -> migrating s1 -> forall h o, store_handle h -> h_Type h = t -> inl o ∈ items ->
      TrimPrefix (o_Name o) (dir_prefix oldL t) ≠ ""%string -> h_Name h = Base (TrimPrefix (o_Name o) (dir_prefix oldL t)) -> arrived s' h)).
  { intros Hm. eapply move_loop; [done..| |exact HE]. intros o Ho. by apply (listed_tidy t s s1 items o). }
  split; [intros Hm; exact (safe_trans _ _ _ S1 (proj1 (HL Hm)) Hm)|]. intros -> Hm h Hh Hty Hs.
  destruct (HL Hm) as [S2 Q]. destruct (S1 Hm) as [Hm1 K1]. destruct (S2 Hm1) as [_ K2]. destruct Hm as [H1 _].
  destruct (H1 h Hh) as (_ & _ & [Hp|Hp]); [|by apply K2, K1; [..|rewrite Hp]].
  destruct (object_loop_spec _ (dir_prefix oldL t) (fun fi => retry maxErrors (Rename b (mkBeHandle t InvalidBlob (fi_Name fi)) newL) None) true items s1)
    as (objs & r0 & _ & Hr0). rewrite HE in Hr0. destruct (Hr0 eq_refl) as [-> _].
  assert (Hc : h_Type h ≠ ConfigFile) by (rewrite Hty; intros ->; by apply (bool_decide_eq_true_2 _) in Hft).
  destruct (naming_under (NamingLaws := legacy_layout_laws dir dir_plain types) h Hh Hc) as (x & Hx & Hne & Hb' & Hflat). rewrite Hty in Hx.
  assert (Hin : old h ∈ map o_Name objs).
  { rewrite Hx. apply (Hcomp _ _ _ _ E); [by rewrite <- Hx, Hp|right; by apply Hflat]. }
  apply list_elem_of_fmap in Hin as (o & Hn & Ho). eapply (Q eq_refl Hm1 h o); [done..|by apply list_elem_of_fmap_2| | |done].
  - by rewrite <- Hn, Hx, TrimPrefix_app.
  - by rewrite <- Hn, Hx, TrimPrefix_app.
Qed.
Lemma move_types_spec b ts s s' r : be_Layout b = oldL -> ts ⊆ moved_types -> move_types false b newL ts s = (s', r) ->
  safe s s' /\ (r = None -> migrating s -> forall h, store_handle h -> h_Type h ∈ ts -> arrived s' h).
Proof using dir_plain L.
  intros Hb. revert s. induction ts as [|t ts IH]; intros s Hts; cbn [move_types].
  - intros [= <- <-]. split; [apply safe_refl|]. by intros _ _ h _ ?%not_elem_of_nil.
  - destruct (moveFiles false b newL t s) as [s1 r1] eqn:E1. apply moveFiles_spec in E1 as [S1 Q1]; [|done|apply Hts; left].
    destruct r1 as [e|]; [by intros [= <- <-]|]. intros HE. apply IH in HE as [S2 Q2]; [|intros t' Ht'; apply Hts; by right].
    split; [by eapply safe_trans|]. intros Hr Hm h Hh. destruct (S1 Hm) as [Hm1 _]. intros [Hty|Hty]%elem_of_cons; [|by apply Q2].
    intros Hs. destruct (S2 Hm1) as [_ K]. apply K; [done|]. by apply Q1.
Qed.
End safe.

(** ** A service in memory *)

Definition s3_info (n : string) (d : list byte) : Object := mkObject n (lenZ d) zeroTime.
Definition NoSuchKey : error := EMsg "NoSuchKey".
#[export] Instance memory_client : Client (gmap string (list byte)) := {|
  PutObject n rd _ s := match rd_err rd with None => (<[n := rd_bytes rd]> s, (lenZ (rd_bytes rd), None)) | Some e => (s, (0, Some e)) end;
  SetRange _ _ := None;
  Core_GetObject n r s := (s, match s !! n with
                              | Some d => inl (mkReader (match r with
                                                         | Some (x, y) => if (0 <? x) && (y =? 0) then drop (Z.to_nat x) d else from_to x y d
                                                         | None => d
                                                         end) None None)
                              | None => inr NoSuchKey
                              end);
  GetObject _ s := (s, None);
  object_Stat n s := (s, match s !! n with Some d => inl (s3_info n d) | None => inr NoSuchKey end);
  object_Close _ s := (s, None);
  StatObject n s := (s, match s !! n with Some d => inl (s3_info n d) | None => inr NoSuchKey end);
  RemoveObject n s := (delete n s, None);
  CopyObject dst src s := match s !! src with Some d => (<[dst := d]> s, None) | None => (s, Some NoSuchKey) end;
  ListObjects p _ s := (s, map inl (filter (fun o => has_prefix p (o_Name o) = true) (map (fun x => s3_info x.1 x.2) (map_to_list s))));
  BucketExists s := (s, (true, None));
  MakeBucket s := (s, None);
  minio_Code e := if bool_decide (e = NoSuchKey) then Some "NoSuchKey"%string else None;
  os_IsNotExist _ := false;
|}.
Definition memory_objects (s : gmap string (list byte)) (n : string) : option (list byte) := s !! n.

Definition migrated_dir : list string := ["restic"%string].
Lemma migrated_dir_plain : Forall plain migrated_dir.
Proof. apply (bool_decide_eq_true_1 _). vm_compute. reflexivity. Qed.
Definition migrated_be : be := mkBe (Configs.S3.mkConfig "" false "" "" "bucket" "restic" "" "" 5 0 "" "" false) (S3LegacyLayout Join "restic" "" file_types).
Definition migrated_pack : Handle := mkBeHandle PackFile InvalidBlob (ID_String nullID).
Definition migrated_data : list byte := [Byte.x61; Byte.x62].
Definition migrated_store : stored := update (fun _ => None) migrated_pack (Some migrated_data).
Definition legacy_bucket : gmap string (list byte) := {[ l_Filename (be_Layout migrated_be) migrated_pack := migrated_data ]}.
Lemma migrated_pack_ok : store_handle migrated_pack.
Proof. right. split; [left|]. by exists nullID. Qed.
Lemma legacy_migrating : migrating memory_objects migrated_dir file_types migrated_store legacy_bucket.
Proof.
  assert (Hp := migrated_pack_ok). unfold memory_objects, legacy_bucket. split.
  - intros h Hh. change (be_Layout migrated_be) with (S3LegacyLayout Join (join "/" migrated_dir) "" file_types).
    assert (Hnew : ({[ l_Filename (S3LegacyLayout Join (join "/" migrated_dir) "" file_types) migrated_pack := migrated_data ]}
        : gmap string (list byte)) !! l_Filename (DefaultLayout Join (join "/" migrated_dir) file_types) h = None).
    { apply lookup_singleton_ne. apply old_not_new; [apply migrated_dir_plain|done|done|]. left. right. left. }
    rewrite Hnew. unfold migrated_store, update. case_decide as E.
    + apply (old_inj migrated_dir migrated_dir_plain file_types _ _ Hp Hh) in E. rewrite <- E, lookup_singleton_eq. auto.
    + rewrite lookup_singleton_ne; [auto|]. intros E'. apply E. by apply (old_inj migrated_dir migrated_dir_plain file_types _ _ Hp Hh).
  - intros n [d [<- _]%lookup_singleton_Some]. exists migrated_pack. split; [done|]. by left.
Qed.
#[export] Instance memory_laws : Laws memory_objects.
Proof.
  split; unfold memory_objects, reads; cbn [PutObject SetRange Core_GetObject GetObject object_Stat object_Close StatObject RemoveObject CopyObject ListObjects memory_client].
  1: intros n rd Hr s s' a; rewrite Hr; intros [= <- <-]; (split; [|left; apply lookup_insert_eq]); intros n' Hn; by apply lookup_insert_ne.
  1: intros n x _ Hx. 2: intros n x y _ Hxy. 3: intros n. 5, 7: intros n.
  1-3, 5, 6: split; [by intros s s' a n' [= <- _]|]; intros s s' rd [= <- Hd]; destruct (s !! n) as [d|]; [|done]; injection Hd as <-; exists d; (split; [done|]); try done; (left; split; [|done]; cbn [rd_bytes]).
  - by destruct (Z.ltb_spec 0 x); [|lia].
  - destruct (Z.ltb_spec 0 x), (Z.eqb_spec y 0); cbn [andb]; try done; lia.
  - done.
  - by intros n s s' a n' [= <- _].
  - by intros n s s' a n' [= <- _].
  - intros n s s' a [= <- <-]. split; [intros n' Hn; by apply lookup_delete_ne|left; apply lookup_delete_eq].
  - intros p deep. split; [by intros s s' a n' [= <- _]|]. split.
    + intros s s' items o [= <- <-] Ho. apply list_elem_of_fmap in Ho as (o' & [= ->] & [Hp Ho]%list_elem_of_filter). split; [done|]. left.
      apply list_elem_of_fmap in Ho as ([n d] & -> & Hn%elem_of_map_to_list). by exists d.
    + intros s s' objs x [= _ <-%inl_inj_list] [d Hd] _. apply list_elem_of_fmap. exists (s3_info (p ++ x)%string d). split; [done|].
      apply list_elem_of_filter. split; [apply has_prefix_app|]. apply list_elem_of_fmap. exists ((p ++ x)%string, d). split; [done|].
      by apply elem_of_map_to_list.
  - intros dst src s s' r n Hn. destruct (s !! src) as [d|]; intros [= <- <-]; [|done]. by apply lookup_insert_ne.
  - intros dst src s s'. destruct (s !! src) as [d|] eqn:E; intros [= <-]. by rewrite lookup_insert_eq.
  - intros dst src s s' e. by destruct (s !! src) as [d|] eqn:E; intros [= <- <-].
  - intros dst src s s' e. destruct (s !! src) as [d|] eqn:E; intros [= <- <-]. by left.
Qed.
Lemma triple_eta {A B C} (x : A * B * C) : x = (x.1.1, x.1.2, x.2).
Proof. by destruct x as [[? ?] ?]. Qed.

(** *** The theorem *)

(** C25: The migration to the default layout loses no file: when the bucket has
    every file of the repository under its old or its new name and nothing else,
    as before the migration or after one that was interrupted, this is so
    afterwards, whatever calls of the service failed; and when it ends without an
    error, the backend has the default layout, under which all files of the
    repository are found with their contents.  So it can be run again until it
    succeeds. *)
Theorem migration_keeps_files {S} {CS : Client S} (objects : contents S) {L : Laws objects} dir (dir_plain : Forall plain dir) types b m s s' b' r :
  Path b = join "/" dir -> migrating objects dir types m s -> Apply types false (Some b) s = (s', b', r) ->
  migrating objects dir types m s' /\ (r = None -> b' = Some (with_layout b (newLayout types b)) /\ represents objects (newLayout types b) s' m).
Proof.
  intros HP Hm. unfold Apply, newLayout, oldLayout. change (Path (with_layout b ?l)) with (Path b). rewrite HP.
  destruct (move_types false _ _ _ s) as [s1 r1] eqn:E. apply (move_types_spec objects dir dir_plain types m) in E as [S1 Q1]; [|done..].
  destruct (S1 Hm) as [Hm1 _]. destruct r1 as [e|]; intros [= <- <- <-]; (split; [done|]); [done|]. intros _. split; [done|].
  intros h Hh. destruct Hm1 as [H1 _]. destruct (H1 h Hh) as (Ho & Hn & Hp). destruct (decide (h_Type h ∈ moved_types)) as [Ht|Ht].
  - destruct (m h) as [d|] eqn:Ed; [|by destruct Hn]. destruct (Q1 eq_refl Hm h Hh Ht ltac:(by rewrite Ed)) as [d' Hd'].
    rewrite Hd' in *. by destruct Hn.
  - rewrite (old_new_stays dir dir_plain types h Hh Ht) in Hp. by destruct Hp.
Qed.

Lemma migrated_without_error : (Apply file_types false (Some migrated_be) legacy_bucket).2 = None.
Proof. vm_compute. reflexivity. Qed.
Lemma migration_keeps_files_witness :
  let x := Apply file_types false (Some migrated_be) legacy_bucket in
  x.2 = None /\ represents memory_objects (newLayout file_types migrated_be) x.1.1 migrated_store.
Proof.
  split; [exact migrated_without_error|].
  exact (proj2 (proj2 (migration_keeps_files memory_objects migrated_dir migrated_dir_plain file_types migrated_be migrated_store legacy_bucket
    _ _ _ eq_refl legacy_migrating (triple_eta _)) migrated_without_error)).
Defined.
