(* ===== verification/Options.v ===== *)
(** * Options: extended options of the form [key=value]

    src/internal/options/options.go: splitting and parsing of options, those
    of a namespace, and setting the fields of a configuration whose tags name
    them.  The reflection is a list of fields with their setters; the map of
    options is ranged over in any order, and the theorem is that the order
    does not matter. *)

From S2P Require Import Prelude Ids Pack Duration Backend Snapshots Trees Paths FileInfo Disk Layouts Store Url Configs Remote.
#[local] Open Scope Z_scope.

(** [Fatal] and [Fatalf] (src/internal/errors/fatal.go): the error is wrapped,
    and [IsFatal] looks at the type of the error itself, without unwrapping. *)
Definition Fatalf (msg : string) : error := EWrap "Fatal" (EMsg msg).

(** ** Numbers and booleans ([strconv]) *)

Definition lower (b : byte) : Z := Z.lor (byte_Z b) 0x20.
Definition is_lower (b : byte) (c : Z) : bool := lower b =? c.
(** [underscoreOK]: underscores separate digits, or the prefix of the base
    from them.  The last character seen: a digit, an underscore, or another. *)
Inductive seen : Type := SBegin | SDigit | SUnderscore | SOther.
#[global] Instance seen_eq_dec : EqDecision seen.
Proof. solve_decision. Defined.
Fixpoint underscores (hex : bool) (i : seen) (s : list byte) : bool :=
  match s with
  | [] => negb (bool_decide (i = SUnderscore))
  | c :: s =>
      if is_digit c || (hex && (97 <=? lower c) && (lower c <=? 102)) then underscores hex SDigit s
      else if bool_decide (c = Byte.x5f) then if bool_decide (i = SDigit) then underscores hex SUnderscore s else false
      else if bool_decide (i = SUnderscore) then false
      else underscores hex SOther s
  end.
Definition underscoreOK (s : list byte) : bool :=
  let s := match s with c :: t => if bool_decide (c = Byte.x2d \/ c = Byte.x2b) then t else s | [] => s end in
  match s with
  | Byte.x30 :: c :: t =>
      if is_lower c 98 || is_lower c 111 || is_lower c 120 then underscores (is_lower c 120) SDigit t else underscores false SBegin s
  | _ => underscores false SBegin s
  end.
(** The loop of [ParseUint]; [base0]: the base is found in the text. *)
Fixpoint parse_digits (base max : Z) (n : Z) (under : bool) (s : list byte) : option (Z * bool) :=
  match s with
  | [] => Some (n, under)
  | c :: s =>
      if bool_decide (c = Byte.x5f) then parse_digits base max n true s
      else
        let d := if is_digit c then byte_Z c - 48
                 else if (97 <=? lower c) && (lower c <=? 122) then lower c - 97 + 10 else 99 in
        if base <=? d then None
        else if max <? n * base + d then None else parse_digits base max (n * base + d) under s
  end.
(** [ParseUint(s, 0, 32)] *)
Definition ParseUint (s : list byte) : option Z :=
  let '(base, t) :=
    match s with
    | Byte.x30 :: c :: _ :: _ =>
        let rest := drop 2 s in
        if is_lower c 98 then (2, rest) else if is_lower c 111 then (8, rest) else if is_lower c 120 then (16, rest) else (8, drop 1 s)
    | Byte.x30 :: t => (8, t)
    | _ => (10, s)
    end in
  if bool_decide (s = []) then None
  else match parse_digits base (2 ^ 32 - 1) 0 false t with
       | None => None
       | Some (n, under) => if under && negb (underscoreOK s) then None else Some n
       end.
(** [ParseInt(s, 0, 32)] *)
Definition ParseInt (s : list byte) : option Z :=
  let '(neg, t) := match s with
                   | Byte.x2b :: t => (false, t)
                   | Byte.x2d :: t => (true, t)
                   | _ => (false, s)
                   end in
  match ParseUint t with
  | None => None
  | Some n => if neg then if 2 ^ 31 <? n then None else Some (- n) else if 2 ^ 31 <=? n then None else Some n
  end.
Definition ParseBool (s : string) : option bool :=
  if bool_decide (s ∈ ["1"; "t"; "T"; "true"; "TRUE"; "True"]%string) then Some true
  else if bool_decide (s ∈ ["0"; "f"; "F"; "false"; "FALSE"; "False"]%string) then Some false
  else None.
Example ParseUint_examples : map (fun s => ParseUint (bytes_of s)) ["0"; "12"; "0x1F"; "017"; "1_000"; "1__0"; "4294967296"; "0b102"; ""]%string
  = [Some 0; Some 12; Some 31; Some 15; Some 1000; None; None; None; None].
Proof. vm_compute. reflexivity. Qed.

(** ** Options *)

Section options.
Context `{Unicode} (ToLower : string -> string) (ParseDuration : string -> option Z).

#[local] Abbreviation Options := (gmap string string).
Definition trim (s : string) : string := string_of (TrimSpace (bytes_of s)).
Definition equals : byte := Byte.x3d.
Definition splitKeyValue (s : string) : string * string :=
  match SplitN_ equals 2 s with
  | [key; value] => (ToLower (trim key), trim value)
  | key :: _ => (ToLower (trim key), ""%string)
  | [] => (ToLower (trim ""), ""%string)
  end.
Fixpoint parse_options (opts : Options) (l : list string) : Options + error :=
  match l with
  | [] => inl opts
  | opt :: l =>
      let '(key, value) := splitKeyValue opt in
      if bool_decide (key = ""%string) then inr (Fatalf "empty key is not a valid option")
      else
        match opts !! key with
        | Some v => if negb (bool_decide (v = value)) then inr (Fatalf ("key " ++ key ++ " present more than once")) else parse_options (<[key := value]> opts) l
        | None => parse_options (<[key := value]> opts) l
        end
  end.
Definition Parse (l : list string) : Options + error := parse_options ∅ l.

(** The options of a namespace; it must not be empty. *)
Definition with_dot (ns : string) : string := if bool_decide (last (bytes_of ns) = Some Byte.x2e) then ns else (ns ++ ".")%string.
Definition extract_entry (ns : string) (kv : string * string) : option (string * string) :=
  if has_prefix ns kv.1 then Some (from (String.length ns) kv.1, kv.2) else None.
Definition Extract (o : Options) (ns : string) : res error Options :=
  if bool_decide (ns = ""%string) then Panic "index out of range"
  else Ok (list_to_map (omap (extract_entry (with_dot ns)) (map_to_list o))).

(** *** Fields *)

Inductive value : Type := VString (s : string) | VInt (z : Z) | VUint (z : Z) | VBool (b : bool) | VDuration (z : Z).
Inductive kind : Type := KString | KInt | KUint | KBool | KDuration | KOther (name : string).
(** The value that a text stands for, by the type of the field. *)
Definition parse_value (k : kind) (s : string) : res error value :=
  let ok {A} (c : A -> value) (r : option A) : res error value := match r with Some a => Ok (c a) | None => Err (EMsg "invalid syntax") end in
  match k with
  | KString => Ok (VString s)
  | KInt => ok VInt (ParseInt (bytes_of s))
  | KUint => ok VUint (ParseUint (bytes_of s))
  | KBool => ok VBool (ParseBool s)
  | KDuration => ok VDuration (ParseDuration s)
  | KOther name => Panic ("type " ++ name ++ " not handled")
  end.

Section apply.
Context {C : Type}.
Record field : Type := mkField { f_tag : string; f_help : string; f_kind : kind; f_set : value -> C -> C }.

Fixpoint collect (fs : list field) (fields : gmap string field) : res error (gmap string field) :=
  match fs with
  | [] => Ok fields
  | f :: fs =>
      if bool_decide (f_tag f = ""%string) then collect fs fields
      else match fields !! f_tag f with
           | Some _ => Panic ("option tag " ++ f_tag f ++ " is not unique")
           | None => collect fs (<[f_tag f := f]> fields)
           end
  end.
Fixpoint set_all (ns : string) (fields : gmap string field) (kvs : list (string * string)) (dst : C) : res error C :=
  match kvs with
  | [] => Ok dst
  | (key, v) :: kvs =>
      match fields !! key with
      | None => Err (Fatalf ("option " ++ (if negb (bool_decide (ns = ""%string)) then ns ++ "." ++ key else key) ++ " is not known"))
      | Some f =>
          match parse_value (f_kind f) v with
          | Ok x => set_all ns fields kvs (f_set f x dst)
          | Err e => Err e
          | Panic msg => Panic msg
          end
      end
  end.
(** [Apply]; the options in the order in which the map is ranged over. *)
Definition Apply (fs : list field) (ns : string) (kvs : list (string * string)) (dst : C) : res error C :=
  match collect fs ∅ with
  | Ok fields => set_all ns fields kvs dst
  | Err e => Err e
  | Panic msg => Panic msg
  end.

(** *** Help *)

Record Help : Type := mkHelp { hp_Namespace : string; hp_Name : string; hp_Text : string }.
Definition listOptions (fs : list field) : list Help :=
  map (fun f => mkHelp "" (f_tag f) (f_help f)) (filter (fun f => f_tag f ≠ ""%string) fs).
Definition help_less (a b : Help) : bool :=
  if bool_decide (hp_Namespace a = hp_Namespace b) then String.ltb (hp_Name a) (hp_Name b) else String.ltb (hp_Namespace a) (hp_Namespace b).
(** [sort.Sort] *)
Fixpoint insert_help (h : Help) (l : list Help) : list Help :=
  match l with
  | [] => [h]
  | a :: l' => if help_less h a then h :: l else a :: insert_help h l'
  end.
Definition appendAllOptions (opts : list Help) (ns : string) (fs : list field) : list Help :=
  foldr insert_help [] (opts ++ map (fun h => mkHelp ns (hp_Name h) (hp_Text h)) (listOptions fs)).
End apply.
End options.
Arguments field : clear implicits.

(** ** What is parsed *)

Section facts.
Context `{Unicode} (ToLower : string -> string) (ParseDuration : string -> option Z).
#[local] Abbreviation splitKeyValue := (splitKeyValue ToLower).

Lemma parse_options_keeps l : forall opts, ∅ ⊆ opts ->
  match parse_options ToLower opts l with
  | inl o => (forall k v, o !! k = Some v <-> opts !! k = Some v \/ exists opt, opt ∈ l /\ splitKeyValue opt = (k, v))
      /\ forall opt, opt ∈ l -> (splitKeyValue opt).1 ≠ ""%string
  | inr _ => (exists opt, opt ∈ l /\ (splitKeyValue opt).1 = ""%string)
      \/ exists opt v, opt ∈ l /\ (splitKeyValue opt).2 ≠ v
           /\ (opts !! (splitKeyValue opt).1 = Some v \/ exists opt', opt' ∈ l /\ splitKeyValue opt' = ((splitKeyValue opt).1, v))
  end.
Proof.
  induction l as [|opt l IH]; intros opts _; cbn [parse_options].
  - split; [|by intros opt ?%not_elem_of_nil]. intros k v. split; [by left|]. intros [?|(opt & ?%not_elem_of_nil & _)]; done.
  - destruct (splitKeyValue opt) as [key value] eqn:E. case_bool_decide as Hk; [left; exists opt; rewrite E; by split; [left|]|].
    assert (HI : match parse_options ToLower (<[key:=value]> opts) l with
      | inl o => opts !! key = None \/ opts !! key = Some value ->
          (forall k v, o !! k = Some v <-> opts !! k = Some v \/ exists opt', opt' ∈ opt :: l /\ splitKeyValue opt' = (k, v))
          /\ forall opt', opt' ∈ opt :: l -> (splitKeyValue opt').1 ≠ ""%string
      | inr _ => (exists opt', opt' ∈ opt :: l /\ (splitKeyValue opt').1 = ""%string)
          \/ exists opt' v, opt' ∈ opt :: l /\ (splitKeyValue opt').2 ≠ v
             /\ (opts !! (splitKeyValue opt').1 = Some v \/ exists opt'', opt'' ∈ opt :: l /\ splitKeyValue opt'' = ((splitKeyValue opt').1, v))
      end).
    { specialize (IH (<[key := value]> opts) (map_empty_subseteq _)). destruct (parse_options ToLower (<[key:=value]> opts) l) as [o|e].
      - intros Hold. destruct IH as [H1 H2]. split.
        + intros k v. rewrite H1. destruct (decide (k = key)) as [->|Hne].
          * rewrite lookup_insert_eq. split.
            -- intros [[= <-]|(o' & Ho' & Eo')]; right; [exists opt; split; [left|done]|exists o'; split; [by right|done]].
            -- intros [Ho|(o' & [->|Ho']%elem_of_cons & Eo')].
               ++ left. destruct Hold as [Hold|Hold]; congruence.
               ++ left. congruence.
               ++ right. by exists o'.
          * rewrite lookup_insert_ne by done. split.
            -- intros [?|(o' & Ho' & Eo')]; [by left|right; exists o'; split; [by right|done]].
            -- intros [?|(o' & [->|Ho']%elem_of_cons & Eo')]; [by left|congruence|right; by exists o'].
        + intros o' [->|Ho']%elem_of_cons; [by rewrite E|by apply H2].
      - destruct IH as [(o' & Ho' & Eo')|(o' & v & Ho' & Hv & Hw)]; [left; exists o'; split; [by right|done]|right].
        exists o', v. split; [by right|]. split; [done|]. destruct Hw as [Hw|(o'' & Ho'' & Eo'')]; [|right; exists o''; split; [by right|done]].
        destruct (decide ((splitKeyValue o').1 = key)) as [Ek|Ek].
        + rewrite Ek, lookup_insert_eq in Hw. right. exists opt. split; [left|]. rewrite Ek, E. congruence.
        + rewrite lookup_insert_ne in Hw by done. by left. }
    destruct (opts !! key) as [v|] eqn:Eo.
    + case_bool_decide as Hv; cbn [negb].
      * subst v. destruct (parse_options ToLower _ l) as [o|e]; [apply HI; by right|exact HI].
      * right. exists opt, v. rewrite E. cbn [fst snd]. split; [left|]. split; [by intros ->|]. by left.
    + destruct (parse_options ToLower _ l) as [o|e]; [apply HI; by left|exact HI].
Qed.

(** Parsing options gives exactly the given keys with their values, in
    lower case and trimmed; it fails only for an empty key or for a key that is
    given twice with different values. *)
Theorem Options_Parse_spec l :
  match Parse ToLower l with
  | inl o => (forall k v, o !! k = Some v <-> exists opt, opt ∈ l /\ splitKeyValue opt = (k, v)) /\ o !! ""%string = None
  | inr _ => exists opt, opt ∈ l /\ ((splitKeyValue opt).1 = ""%string
      \/ exists opt', opt' ∈ l /\ (splitKeyValue opt').1 = (splitKeyValue opt).1 /\ (splitKeyValue opt').2 ≠ (splitKeyValue opt).2)
  end.
Proof.
  pose proof (parse_options_keeps l ∅ (map_empty_subseteq _)) as HI. unfold Parse. destruct (parse_options ToLower ∅ l) as [o|e].
  - destruct HI as [H1 H2].
    assert (H1' : forall k v, o !! k = Some v <-> exists opt, opt ∈ l /\ splitKeyValue opt = (k, v)).
    { intros k v. rewrite H1, lookup_empty. split; [by intros [?|?]|by right]. }
    split; [done|]. destruct (o !! "") as [v|] eqn:E; [|done]. apply H1' in E as (opt & Ho & Eo). destruct (H2 opt Ho). by rewrite Eo.
  - destruct HI as [(opt & Ho & Ek)|(opt & v & Ho & Hv & [Hw|(opt' & Ho' & Eo')])]; [by exists opt; auto|by rewrite lookup_empty in Hw|].
    exists opt. split; [done|]. right. exists opt'. rewrite Eo'. cbn. by split_and!.
Qed.

(** The options of a namespace, without it. *)
Lemma Extract_lookup o ns o' k : Extract o ns = Ok o' -> o' !! k = o !! (with_dot ns ++ k)%string.
Proof.
  unfold Extract. case_bool_decide; [done|]. intros [= <-]. set (p := with_dot ns).
  assert (Hin : forall k v, (k, v) ∈ omap (extract_entry p) (map_to_list o) <-> o !! (p ++ k)%string = Some v).
  { intros k' v. rewrite list_elem_of_omap. split.
    - intros ([x y] & Hx%elem_of_map_to_list & Hy). unfold extract_entry in Hy. cbn [fst snd] in Hy. destruct (has_prefix p x) eqn:Ep; [|done].
      injection Hy as Hk ->. destruct (has_prefix_split _ _ Ep) as [z Hz]. rewrite Hz in *. unfold from in Hk.
      rewrite substring_app, string_length_app in Hk.
      replace (String.length p + String.length z - String.length p)%nat with (String.length z) in Hk by lia. rewrite substring_all in Hk. by rewrite <- Hk.
    - intros Hk. exists ((p ++ k')%string, v). split; [by apply elem_of_map_to_list|]. unfold extract_entry. cbn [fst snd]. rewrite has_prefix_app.
      unfold from. rewrite substring_app, string_length_app.
      replace (String.length p + String.length k' - String.length p)%nat with (String.length k') by lia. by rewrite substring_all. }
  assert (Hnd : NoDup (omap (extract_entry p) (map_to_list o)).*1).
  { assert (Hg : forall l : list (string * string), NoDup l.*1 -> NoDup (omap (extract_entry p) l).*1).
    { induction l as [|[x v] l IH]; cbn; [constructor|]. intros [Hx Hl]%NoDup_cons. unfold extract_entry at 1. cbn [fst snd].
      destruct (has_prefix p x) eqn:Ep; [|by apply IH]. cbn. apply NoDup_cons. split; [|by apply IH].
      intros ([k' v'] & Hk' & Hin')%list_elem_of_fmap. cbn in Hk'. apply list_elem_of_omap in Hin' as ([x' y'] & Hx' & Hy').
      unfold extract_entry in Hy'. cbn [fst snd] in Hy'. destruct (has_prefix p x') eqn:Ep'; [|done]. injection Hy' as Hy' _.
      apply Hx. apply list_elem_of_fmap. exists (x', y'). split; [|done]. cbn [fst]. destruct (has_prefix_split _ _ Ep) as [z ->], (has_prefix_split _ _ Ep') as [z' ->].
      assert (Hfrom : forall z, from (String.length p) (p ++ z) = z).
      { intros w. unfold from. rewrite substring_app, string_length_app.
        replace (String.length p + String.length w - String.length p)%nat with (String.length w) by lia. apply substring_all. }
      rewrite !Hfrom in *. congruence. }
    apply Hg, NoDup_fst_map_to_list. }
  apply option_eq. intros v. rewrite <- elem_of_list_to_map by done. apply Hin.
Qed.
End facts.

(** ** Setting fields *)

(** The fields of a structure are apart from each other. *)
Definition independent {C} (fs : list (field C)) : Prop := forall f g x y c, f ∈ fs -> g ∈ fs -> f_tag f ≠ f_tag g ->
  f_set f x (f_set g y c) = f_set g y (f_set f x c).

Section apply_facts.
Context (ParseDuration : string -> option Z) {C : Type} (fs : list (field C)).
#[local] Abbreviation set_all := (set_all ParseDuration).
#[local] Abbreviation parse_value := (parse_value ParseDuration).

Lemma collect_fields (l : list (field C)) fields fields' k f : collect l fields = Ok fields' -> fields' !! k = Some f ->
  fields !! k = Some f \/ (f ∈ l /\ f_tag f = k).
Proof.
  revert fields. induction l as [|g l IH]; intros fields; cbn [collect]; [intros [= <-]; by left|].
  case_bool_decide; [intros HE Hk; destruct (IH _ HE Hk) as [?|[? ?]]; [by left|right; split; [by right|done]]|].
  destruct (fields !! f_tag g) eqn:E; [done|]. intros HE Hk. destruct (IH _ HE Hk) as [Hf|[? ?]]; [|right; split; [by right|done]].
  destruct (decide (k = f_tag g)) as [->|Hne]; [rewrite lookup_insert_eq in Hf; injection Hf as <-; right; split; [left|done]|].
  rewrite lookup_insert_ne in Hf by done. by left.
Qed.
(** Each option sets its field to its value; the others stay as they are. *)
Lemma set_all_ok ns fields kvs dst c : set_all ns fields kvs dst = Ok c ->
  exists l, Forall2 (fun kv (fx : field C * value) => fields !! kv.1 = Some fx.1 /\ parse_value (f_kind fx.1) kv.2 = Ok fx.2) kvs l
    /\ c = fold_left (fun c (fx : field C * value) => f_set fx.1 fx.2 c) l dst.
Proof.
  revert dst. induction kvs as [|[key v] kvs IH]; intros dst; cbn [Options.set_all]; [intros [= <-]; by exists []|].
  destruct (fields !! key) as [f|] eqn:Ef; [|done]. destruct (parse_value (f_kind f) v) as [x|e|msg] eqn:Ex; [|done..].
  intros (l & Hl & ->)%IH. exists ((f, x) :: l). split; [|done]. by constructor.
Qed.
Lemma set_all_swap ns fields kvs kvs' dst c : independent fs -> (forall k f, fields !! k = Some f -> f ∈ fs /\ f_tag f = k) ->
  NoDup kvs.*1 -> kvs ≡ₚ kvs' -> set_all ns fields kvs dst = Ok c -> set_all ns fields kvs' dst = Ok c.
Proof.
  intros Hi Hf Hn Hp. revert dst Hn. induction Hp as [|[k v] l l' Hp IH|[k1 v1] [k2 v2] l|l1 l2 l3 Hp1 IH1 Hp2 IH2]; intros dst Hn.
  - done.
  - cbn [Options.set_all]. destruct (fields !! k) as [f|]; [|done]. destruct (parse_value (f_kind f) v); [|done..]. apply IH. by apply NoDup_cons in Hn as [_ ?].
  - cbn [Options.set_all]. destruct (fields !! k2) as [f2|] eqn:E2; [|by destruct (fields !! k1) as [f1|]; [destruct (parse_value (f_kind f1) v1)|]].
    destruct (fields !! k1) as [f1|] eqn:E1; [|by destruct (parse_value (f_kind f2) v2)].
    destruct (parse_value (f_kind f1) v1) as [x1|e|msg], (parse_value (f_kind f2) v2) as [x2|e'|msg']; try done.
    destruct (Hf _ _ E1) as [H1 T1], (Hf _ _ E2) as [H2 T2]. rewrite (Hi f1 f2) by (try done; cbn in Hn; apply NoDup_cons in Hn as [Hn _]; intros Et; apply Hn, elem_of_cons; left; congruence).
    done.
  - intros H1. apply IH2; [by rewrite <- Hp1|]. by apply IH1.
Qed.
End apply_facts.

(** Setting the fields of a configuration does not depend on the order in
    which the map of options is ranged over: when it succeeds in one order, it
    does in every order, with the same configuration, in which each option has
    set the field with its tag to the value its text stands for, and no other
    field has changed. *)
Theorem Apply_any_order (ParseDuration : string -> option Z) {C} (fs : list (field C)) ns kvs kvs' dst c : independent fs -> NoDup kvs.*1 -> kvs ≡ₚ kvs' ->
  Apply ParseDuration fs ns kvs dst = Ok c ->
  Apply ParseDuration fs ns kvs' dst = Ok c
  /\ exists l, Forall2 (fun kv (fx : field C * value) => fx.1 ∈ fs /\ f_tag fx.1 = kv.1 /\ parse_value ParseDuration (f_kind fx.1) kv.2 = Ok fx.2) kvs l
       /\ c = fold_left (fun c (fx : field C * value) => f_set fx.1 fx.2 c) l dst.
Proof.
  intros Hi Hn Hp. unfold Apply. destruct (collect fs ∅) as [fields|e|msg] eqn:Ec; [|done..].
  assert (Hf : forall k f, fields !! k = Some f -> f ∈ fs /\ f_tag f = k).
  { intros k f Hk. destruct (collect_fields _ _ _ _ _ Ec Hk) as [Hk'|?]; [by rewrite lookup_empty in Hk'|done]. }
  intros HA. split; [by eapply set_all_swap|]. destruct (set_all_ok _ _ _ _ _ _ HA) as (l & Hl & ->). exists l. split; [|done].
  eapply Forall2_impl; [exact Hl|]. intros [k v] [f x] [Hk Hx]. cbn [fst snd] in *. destruct (Hf _ _ Hk) as [? ?]. done.
Qed.

(** A structure with two fields. *)
Definition pair_fields : list (field (string * Z)) := [
  mkField "layout" "" KString (fun v c => match v with VString s => (s, c.2) | _ => c end);
  mkField "connections" "" KUint (fun v c => match v with VUint n => (c.1, n) | _ => c end)].
Lemma pair_independent : independent pair_fields.
Proof.
  intros f g x y c Hf Hg Hne. unfold pair_fields in Hf, Hg.
  apply elem_of_cons in Hf as [-> |[-> | ?%not_elem_of_nil]%elem_of_cons]; [..|done];
    apply elem_of_cons in Hg as [-> |[-> | ?%not_elem_of_nil]%elem_of_cons]; try done; destruct x, y; done.
Qed.
Lemma Apply_any_order_witness :
  Apply (fun _ => None) pair_fields "s3" [("connections", "0x10"); ("layout", "default")]%string (""%string, 5) = Ok ("default"%string, 16).
Proof.
  apply (Apply_any_order (fun _ => None) pair_fields "s3" [("layout", "default"); ("connections", "0x10")]%string
    [("connections", "0x10"); ("layout", "default")]%string (""%string, 5) ("default"%string, 16) pair_independent).
  - apply (bool_decide_eq_true_1 _). vm_compute. reflexivity.
  - apply Permutation_swap.
  - vm_compute. reflexivity.
Defined.
