(* ===== verification/Locations.v ===== *)
(** * Locations: where a repository is, and how its backend is configured

    The location of a repository (src/backend/location/location.go), the fields
    of each backend's configuration that options set (the tags of
    src/backend/*/config.go), and [parseConfig] of src/rapi.go, which fills
    the configuration from the environment and the options. *)

From S2P Require Import Prelude Ids Pack Duration Backend Snapshots Trees Paths FileInfo Disk Layouts Store Url Configs Remote Options.
From S2P Require Local.
#[local] Open Scope string_scope.

(** ** Locations *)

Inductive config : Type :=
| CB2 (c : Configs.B2.Config) | CLocal (c : Local.Config) | CSftp (c : Configs.Sftp.Config) | CS3 (c : Configs.S3.Config)
| CGS (c : Configs.GS.Config) | CAzure (c : Configs.Azure.Config) | CSwift (c : Configs.Swift.Config)
| CRest (c : Configs.Rest.Config) | CRclone (c : Configs.Rclone.Config).
Record Location : Type := mkLocation { Scheme : string; Config : config }.

(** A result of one of the [ParseConfig]s *)
Definition as_config {C} (c : C -> config) (r : C + error) : config + error := match r with inl x => inl (c x) | inr e => inr e end.
Definition noPassword (s : string) : res error string := Ok s.
Record parser : Type := mkParser { scheme : string; parse : string -> config + error; stripPassword : string -> res error string }.
Definition parsers : list parser := [
  mkParser "b2" (fun s => as_config CB2 (Configs.B2.ParseConfig s)) noPassword;
  mkParser "local" (fun s => as_config CLocal (Local.ParseConfig s)) noPassword;
  mkParser "sftp" (fun s => as_config CSftp (Configs.Sftp.ParseConfig s)) noPassword;
  mkParser "s3" (fun s => as_config CS3 (Configs.S3.ParseConfig s)) noPassword;
  mkParser "gs" (fun s => as_config CGS (Configs.GS.ParseConfig s)) noPassword;
  mkParser "azure" (fun s => as_config CAzure (Configs.Azure.ParseConfig s)) noPassword;
  mkParser "swift" (fun s => as_config CSwift (Configs.Swift.ParseConfig s)) noPassword;
  mkParser "rest" (fun s => as_config CRest (Configs.Rest.ParseConfig s)) Configs.Rest.StripPassword;
  mkParser "rclone" (fun s => as_config CRclone (Configs.Rclone.ParseConfig s)) noPassword].
(** The loops over [parsers] end at the first one with the scheme. *)
Fixpoint find_parser (sch : string) (l : list parser) : option parser :=
  match l with
  | [] => None
  | p :: l => if negb (bool_decide (scheme p = sch)) then find_parser sch l else Some p
  end.

Definition is_letter (b : byte) : bool :=
  ((97 <=? byte_Z b)%Z && (byte_Z b <=? 122)%Z) || ((65 <=? byte_Z b)%Z && (byte_Z b <=? 90)%Z).
Definition isPath (s : string) : bool :=
  if has_prefix "../" s || has_prefix "..\" s then true
  else if has_prefix "/" s || has_prefix "\" s then true
  else match bytes_of s with
       | drive :: c :: d :: _ =>
           if negb (is_letter drive) then false
           else if negb (bool_decide (c = Byte.x3a)) then false
           else bool_decide (d = Byte.x5c) || bool_decide (d = Byte.x2f)
       | _ => false
       end.
Definition extractScheme (s : string) : string :=
  match SplitN_ colon 2 s with x :: _ => x | [] => "" end.
Definition Parse (s : string) : Location + error :=
  let sch := extractScheme s in
  match find_parser sch parsers with
  | Some p => match parse p s with inl c => inl (mkLocation sch c) | inr e => inr e end
  | None =>
      if negb (isPath s) && bool_decide (colon ∈ bytes_of s) then inr (EMsg "invalid backend")
      else match Local.ParseConfig ("local:" ++ s) with
           | inl c => inl (mkLocation "local" (CLocal c))
           | inr e => inr e
           end
  end.
Definition StripPassword (s : string) : res error string :=
  match find_parser (extractScheme s) parsers with
  | Some p => stripPassword p s
  | None => Ok s
  end.

(** ** The fields that options set *)

Definition string_field {C} (tag help : string) (set : string -> C -> C) : field C :=
  mkField tag help KString (fun v c => match v with VString s => set s c | _ => c end).
Definition uint_field {C} (tag help : string) (set : Z -> C -> C) : field C :=
  mkField tag help KUint (fun v c => match v with VUint n => set n c | _ => c end).
Definition bool_field {C} (tag help : string) (set : bool -> C -> C) : field C :=
  mkField tag help KBool (fun v c => match v with VBool b => set b c | _ => c end).
Definition duration_field {C} (tag help : string) (set : Z -> C -> C) : field C :=
  mkField tag help KDuration (fun v c => match v with VDuration n => set n c | _ => c end).
Definition connections_help : string := "set a limit for the number of concurrent connections (default: 5)".

Definition local_fields : list (field Local.Config) := [
  string_field "layout" "use this backend directory layout (default: auto-detect)" (fun v c => Local.mkConfig (Local.cfg_Path c) v)].
Module SftpFields.
Import Configs.Sftp.
Definition fields : list (field Config) := [
  string_field "layout" "use this backend directory layout (default: auto-detect)" (fun v c => mkConfig (User c) (Host c) (Port c) (Path c) v (Command c));
  string_field "command" "specify command to create sftp connection" (fun v c => mkConfig (User c) (Host c) (Port c) (Path c) (Layout c) v)].
End SftpFields.
Module S3Fields.
Import Configs.S3.
Definition with_layout v c := mkConfig (Endpoint c) (UseHTTP c) (KeyID c) (Secret c) (Bucket c) (Prefix c) v (StorageClass c)
  (Connections c) (MaxRetries c) (Region c) (BucketLookup c) (ListObjectsV1 c).
Definition with_class v c := mkConfig (Endpoint c) (UseHTTP c) (KeyID c) (Secret c) (Bucket c) (Prefix c) (Layout c) v
  (Connections c) (MaxRetries c) (Region c) (BucketLookup c) (ListObjectsV1 c).
Definition with_connections v c := mkConfig (Endpoint c) (UseHTTP c) (KeyID c) (Secret c) (Bucket c) (Prefix c) (Layout c) (StorageClass c)
  v (MaxRetries c) (Region c) (BucketLookup c) (ListObjectsV1 c).
Definition with_retries v c := mkConfig (Endpoint c) (UseHTTP c) (KeyID c) (Secret c) (Bucket c) (Prefix c) (Layout c) (StorageClass c)
  (Connections c) v (Region c) (BucketLookup c) (ListObjectsV1 c).
Definition with_region v c := mkConfig (Endpoint c) (UseHTTP c) (KeyID c) (Secret c) (Bucket c) (Prefix c) (Layout c) (StorageClass c)
  (Connections c) (MaxRetries c) v (BucketLookup c) (ListObjectsV1 c).
Definition with_lookup v c := mkConfig (Endpoint c) (UseHTTP c) (KeyID c) (Secret c) (Bucket c) (Prefix c) (Layout c) (StorageClass c)
  (Connections c) (MaxRetries c) (Region c) v (ListObjectsV1 c).
Definition with_v1 v c := mkConfig (Endpoint c) (UseHTTP c) (KeyID c) (Secret c) (Bucket c) (Prefix c) (Layout c) (StorageClass c)
  (Connections c) (MaxRetries c) (Region c) (BucketLookup c) v.
Definition with_keys id secret c := mkConfig (Endpoint c) (UseHTTP c) id secret (Bucket c) (Prefix c) (Layout c) (StorageClass c)
  (Connections c) (MaxRetries c) (Region c) (BucketLookup c) (ListObjectsV1 c).
Definition fields : list (field Config) := [
  string_field "layout" "use this backend layout (default: auto-detect)" with_layout;
  string_field "storage-class" "set S3 storage class (STANDARD, STANDARD_IA, ONEZONE_IA, INTELLIGENT_TIERING or REDUCED_REDUNDANCY)" with_class;
  uint_field "connections" connections_help with_connections;
  uint_field "retries" "set the number of retries attempted" with_retries;
  string_field "region" "set region" with_region;
  string_field "bucket-lookup" "bucket lookup style: 'auto', 'dns', or 'path'" with_lookup;
  bool_field "list-objects-v1" "use deprecated V1 api for ListObjects calls" with_v1].
End S3Fields.
Definition gs_fields : list (field Configs.GS.Config) := [
  uint_field "connections" connections_help (fun v c => Configs.GS.mkConfig (Configs.GS.ProjectID c) (Configs.GS.Bucket c) (Configs.GS.Prefix c) v)].
Definition azure_fields : list (field Configs.Azure.Config) := [
  uint_field "connections" connections_help (fun v c => Configs.Azure.mkConfig (Configs.Azure.AccountName c) (Configs.Azure.AccountKey c)
    (Configs.Azure.Container c) (Configs.Azure.Prefix c) v)].
Definition swift_fields : list (field Configs.Swift.Config) := [
  uint_field "connections" connections_help (fun v c => Configs.Swift.mkConfig (Configs.Swift.Fields c) (Configs.Swift.Container c) (Configs.Swift.Prefix c) v)].
Definition b2_fields : list (field Configs.B2.Config) := [
  uint_field "connections" connections_help (fun v c => Configs.B2.mkConfig (Configs.B2.AccountID c) (Configs.B2.Key c) (Configs.B2.Bucket c) (Configs.B2.Prefix c) v)].
Definition rest_fields : list (field Configs.Rest.Config) := [
  uint_field "connections" connections_help (fun v c => Configs.Rest.mkConfig (Configs.Rest.URL_ c) v)].
Module RcloneFields.
Import Configs.Rclone.
Definition fields : list (field Config) := [
  string_field "program" "path to rclone (default: rclone)" (fun v c => mkConfig v (Args c) (Remote c) (Connections c) (Timeout c));
  string_field "args" "arguments for running rclone (default: serve restic --stdio --b2-hard-delete)"
    (fun v c => mkConfig (Program c) v (Remote c) (Connections c) (Timeout c));
  uint_field "connections" connections_help (fun v c => mkConfig (Program c) (Args c) (Remote c) v (Timeout c));
  duration_field "timeout" "set a timeout limit to wait for rclone to establish a connection (default: 1m)"
    (fun v c => mkConfig (Program c) (Args c) (Remote c) (Connections c) v)].
End RcloneFields.

(** ** Environment and options *)

Section parse_config.
Context (getenv : string -> string) (ParseDuration : string -> option Z).
(** The order in which a map is ranged over. *)
Context (range : gmap string string -> list (string * string)).

Definition or_env (v var : string) : string := if bool_decide (v = "") then getenv var else v.
Definition apply {C} (c : C -> config) (fs : list (field C)) (ns : string) (opts : gmap string string) (cfg : C) : res error config :=
  match Apply ParseDuration fs ns (range opts) cfg with
  | Ok cfg => Ok (c cfg)
  | Err e => Err e
  | Panic msg => Panic msg
  end.
(** A configuration of another backend would be a panic. *)
Definition type_assertion : res error config := Panic "interface conversion".
Definition parseConfig (loc : Location) (opts : gmap string string) : res error config :=
  match Extract opts (Scheme loc) with
  | Err e => Err e
  | Panic msg => Panic msg
  | Ok opts =>
      let ns := Scheme loc in
      if bool_decide (ns = "local") then
        match Config loc with CLocal c => apply CLocal local_fields ns opts c | _ => type_assertion end
      else if bool_decide (ns = "sftp") then
        match Config loc with CSftp c => apply CSftp SftpFields.fields ns opts c | _ => type_assertion end
      else if bool_decide (ns = "s3") then
        match Config loc with
        | CS3 c =>
            let c := S3Fields.with_keys (or_env (Configs.S3.KeyID c) "AWS_ACCESS_KEY_ID") (or_env (Configs.S3.Secret c) "AWS_SECRET_ACCESS_KEY") c in
            let c := S3Fields.with_region (or_env (Configs.S3.Region c) "AWS_DEFAULT_REGION") c in
            apply CS3 S3Fields.fields ns opts c
        | _ => type_assertion
        end
      else if bool_decide (ns = "gs") then
        match Config loc with
        | CGS c => apply CGS gs_fields ns opts (Configs.GS.mkConfig (or_env (Configs.GS.ProjectID c) "GOOGLE_PROJECT_ID") (Configs.GS.Bucket c) (Configs.GS.Prefix c)
                     (Configs.GS.Connections c))
        | _ => type_assertion
        end
      else if bool_decide (ns = "azure") then
        match Config loc with
        | CAzure c => apply CAzure azure_fields ns opts
                        (Configs.Azure.mkConfig (or_env (Configs.Azure.AccountName c) "AZURE_ACCOUNT_NAME") (or_env (Configs.Azure.AccountKey c) "AZURE_ACCOUNT_KEY")
                           (Configs.Azure.Container c) (Configs.Azure.Prefix c) (Configs.Azure.Connections c))
        | _ => type_assertion
        end
      else if bool_decide (ns = "swift") then
        match Config loc with
        | CSwift c => apply CSwift swift_fields ns opts (Configs.Swift.ApplyEnvironment getenv "" c)
        | _ => type_assertion
        end
      else if bool_decide (ns = "b2") then
        match Config loc with
        | CB2 c =>
            let id := or_env (Configs.B2.AccountID c) "B2_ACCOUNT_ID" in
            if bool_decide (id = "") then Err (Fatalf "unable to open B2 backend: Account ID ($B2_ACCOUNT_ID) is empty")
            else
              let key := or_env (Configs.B2.Key c) "B2_ACCOUNT_KEY" in
              if bool_decide (key = "") then Err (Fatalf "unable to open B2 backend: Key ($B2_ACCOUNT_KEY) is empty")
              else apply CB2 b2_fields ns opts (Configs.B2.mkConfig id key (Configs.B2.Bucket c) (Configs.B2.Prefix c) (Configs.B2.Connections c))
        | _ => type_assertion
        end
      else if bool_decide (ns = "rest") then
        match Config loc with CRest c => apply CRest rest_fields ns opts c | _ => type_assertion end
      else if bool_decide (ns = "rclone") then
        match Config loc with CRclone c => apply CRclone RcloneFields.fields ns opts c | _ => type_assertion end
      else Err (Fatalf ("invalid backend: " ++ ns))
  end.
End parse_config.

(** ** Every scheme has its type of configuration *)

Definition typed (sch : string) (c : config) : Prop :=
  match c with
  | CB2 _ => sch = "b2" | CLocal _ => sch = "local" | CSftp _ => sch = "sftp" | CS3 _ => sch = "s3" | CGS _ => sch = "gs"
  | CAzure _ => sch = "azure" | CSwift _ => sch = "swift" | CRest _ => sch = "rest" | CRclone _ => sch = "rclone"
  end.
Lemma find_parser_spec sch l p : find_parser sch l = Some p -> p ∈ l /\ scheme p = sch.
Proof.
  induction l as [|q l IH]; cbn [find_parser]; [done|]. case_bool_decide as E; cbn [negb].
  - intros [= ->]. split; [left|done].
  - intros [? ?]%IH. split; [by right|done].
Qed.
Lemma as_config_inl {C} (c : C -> config) r x : as_config c r = inl x -> exists y, x = c y.
Proof. unfold as_config. destruct r as [y|e]; [|done]. intros [= <-]. by exists y. Qed.
Lemma parsers_typed p s c : p ∈ parsers -> parse p s = inl c -> typed (scheme p) c.
Proof.
  intros Hp. unfold parsers in Hp. repeat (apply elem_of_cons in Hp as [->|Hp]; [cbn [parse scheme]; by intros [y ->]%as_config_inl|]).
  by apply not_elem_of_nil in Hp.
Qed.
Lemma Parse_typed s loc : Parse s = inl loc -> typed (Scheme loc) (Config loc).
Proof.
  unfold Parse. destruct (find_parser (extractScheme s) parsers) as [p|] eqn:E.
  - apply find_parser_spec in E as [Hp <-]. destruct (parse p s) as [c|e] eqn:Ep; [|done]. intros [= <-]. by eapply parsers_typed.
  - destruct (_ && _); [done|]. destruct (Local.ParseConfig _) as [c|e]; [|done]. by intros [= <-].
Qed.

(** Fields with different tags, whose types are handled. *)
Definition proper {C} (fs : list (field C)) : Prop := NoDup (map f_tag fs) /\ Forall (fun f => forall name, f_kind f ≠ KOther name) fs.
Lemma collect_proper {C} (fs : list (field C)) fields : NoDup (map f_tag fs) -> (forall f, f ∈ fs -> fields !! f_tag f = None) ->
  exists fields', collect fs fields = Ok fields'.
Proof.
  revert fields. induction fs as [|f fs IH]; intros fields Hn Hf; cbn [collect]; [by eexists|]. cbn [map] in Hn. apply NoDup_cons in Hn as [Hin Hn].
  case_bool_decide; [apply IH; [done|intros g Hg; apply Hf; by right]|]. rewrite Hf by left. apply IH; [done|]. intros g Hg.
  rewrite lookup_insert_ne; [apply Hf; by right|]. intros E. apply Hin. rewrite E. by apply list_elem_of_fmap_2.
Qed.
Lemma Apply_proper {C} ParseDuration (fs : list (field C)) ns kvs dst msg : proper fs -> Apply ParseDuration fs ns kvs dst ≠ Panic msg.
Proof.
  intros [Hn Hk]. unfold Apply. destruct (collect_proper fs ∅ Hn ltac:(done)) as [fields Ec]. rewrite Ec.
  assert (Hf : forall k f, fields !! k = Some f -> f ∈ fs).
  { intros k f Hf. destruct (collect_fields _ _ _ _ _ Ec Hf) as [Hf'|[? _]]; [by rewrite lookup_empty in Hf'|done]. }
  revert dst. induction kvs as [|[k v] kvs IH]; intros dst; cbn [set_all]; [done|]. destruct (fields !! k) as [f|] eqn:E; [|done].
  destruct (parse_value ParseDuration (f_kind f) v) as [x|e|m] eqn:Ep; [apply IH|done|]. rewrite Forall_forall in Hk.
  pose proof (Hk f (Hf _ _ E)) as Hkf. unfold parse_value in Ep. destruct (f_kind f); try done; try (by destruct (ParseInt _));
    try (by destruct (ParseUint _)); try (by destruct (ParseBool _)); try (by destruct (ParseDuration _)). by destruct (Hkf name).
Qed.
Ltac solve_proper_fields := split; [apply (bool_decide_eq_true_1 _); vm_compute; reflexivity|repeat constructor; done].
Lemma fields_proper : proper local_fields /\ proper SftpFields.fields /\ proper S3Fields.fields /\ proper gs_fields /\ proper azure_fields
  /\ proper swift_fields /\ proper b2_fields /\ proper rest_fields /\ proper RcloneFields.fields.
Proof. split_and!; solve_proper_fields. Qed.
Lemma apply_typed {C} ParseDuration range (c : C -> config) fs ns opts cfg : proper fs -> (forall x, typed ns (c x)) ->
  match apply ParseDuration range c fs ns opts cfg with Ok c => typed ns c | Err _ => True | Panic _ => False end.
Proof.
  intros Hp Ht. unfold apply. destruct (Apply ParseDuration fs ns (range opts) cfg) as [x|e|msg] eqn:E; [apply Ht|done|]. by eapply Apply_proper.
Qed.

(** C27: The configuration in a parsed location has the type that belongs to its
    scheme, so that no type assertion of parseConfig fails: for all options and
    variables of the environment it ends without a panic, with a configuration
    of the same type or with an error. *)
Theorem parseConfig_typed getenv ParseDuration range s loc opts : Parse s = inl loc ->
  match parseConfig getenv ParseDuration range loc opts with
  | Ok c => typed (Scheme loc) c
  | Err _ => True
  | Panic _ => False
  end.
Proof.
  intros HP. apply Parse_typed in HP. destruct loc as [sch c]. cbn [Scheme Config] in *. unfold parseConfig. cbn [Scheme Config].
  destruct fields_proper as (H1 & H2 & H3 & H4 & H5 & H6 & H7 & H8 & H9).
  assert (Hext : exists o, Extract opts sch = Ok o).
  { unfold Extract. rewrite bool_decide_eq_false_2; [by eexists|]. destruct c; cbn [typed] in HP; by rewrite HP. }
  destruct Hext as [o ->]. cbv zeta.
  destruct c; cbn [typed] in HP; subst sch;
    repeat (rewrite bool_decide_eq_false_2 by done); rewrite bool_decide_eq_true_2 by done; try (by apply apply_typed).
  destruct (bool_decide _); [done|]. destruct (bool_decide _); [done|]. by apply apply_typed.
Qed.
Definition no_env (_ : string) : string := "".
Definition s3_location : Location :=
  mkLocation "s3" (CS3 (Configs.S3.mkConfig "s3.amazonaws.com" false "" "" "bucket" "dir" "" "" 5 0 "" "" false)).
Definition s3_options : gmap string string := {[ "s3.connections" := "0x7"; "s3.region" := "eu-west-1"; "rest.connections" := "9" ]}.
Lemma s3_location_parsed : Parse "s3:s3.amazonaws.com/bucket/dir" = inl s3_location.
Proof. vm_compute. reflexivity. Qed.
Lemma s3_configured : parseConfig no_env (fun _ => None) map_to_list s3_location s3_options
  = Ok (CS3 (Configs.S3.mkConfig "s3.amazonaws.com" false "" "" "bucket" "dir" "" "" 7 0 "eu-west-1" "" false)).
Proof. vm_compute. reflexivity. Qed.
Lemma parseConfig_typed_witness : typed "s3" (CS3 (Configs.S3.mkConfig "s3.amazonaws.com" false "" "" "bucket" "dir" "" "" 7 0 "eu-west-1" "" false)).
Proof.
  pose proof (parseConfig_typed no_env (fun _ => None) map_to_list _ _ s3_options s3_location_parsed) as HT. rewrite s3_configured in HT. exact HT.
Defined.

(** The fields are apart from each other, so that options set them in any
    order. *)
Lemma forall_pairs {A C : Type} (xs : list A) (P : A -> A -> C -> Prop) : Forall (fun x => Forall (fun y => forall c, P x y c) xs) xs ->
  forall x y c, x ∈ xs -> y ∈ xs -> P x y c.
Proof. rewrite Forall_forall. intros H x y c Hx Hy. specialize (H x Hx). rewrite Forall_forall in H. by apply H. Qed.
Lemma S3_fields_independent : independent S3Fields.fields.
Proof.
  intros f g x y c Hf Hg. revert x y. apply (forall_pairs S3Fields.fields (fun f g c => forall x y, f_tag f ≠ f_tag g ->
    f_set f x (f_set g y c) = f_set g y (f_set f x c))); [|done..].
  unfold S3Fields.fields. repeat (apply Forall_cons; split); try apply Forall_nil_2.
  all: repeat (apply Forall_cons; split); try apply Forall_nil_2; intros [] [] [] Hne; try done; by destruct Hne.
Qed.
