(* ===== verification/Rapi.v ===== *)
(** * Rapi: opening a repository

    src/rapi.go: where the repository and its password come from, opening the
    backend with its configuration, the loop over passwords, and the cache; with
    the decoding of text files (src/internal/textfile/read.go) and the
    backend whose rate is limited (src/internal/limiter).  Messages that are
    printed are left out. *)

From S2P Require Import Prelude Ids Pack Duration Backend Snapshots Trees Paths FileInfo Disk Layouts Store Url Configs Remote Options Locations.
#[local] Open Scope Z_scope.

(** ** Text files *)

Definition bomUTF8 : list byte := [Byte.xef; Byte.xbb; Byte.xbf].
Definition bomUTF16BigEndian : list byte := [Byte.xfe; Byte.xff].
Definition bomUTF16LittleEndian : list byte := [Byte.xff; Byte.xfe].
(** [utf16] is the decoder of UTF-16 with a byte order mark. *)
Definition Decode (utf16 : list byte -> list byte + error) (data : list byte) : list byte + error :=
  if starts bomUTF8 data then inl (drop 3 data)
  else if negb (starts bomUTF16BigEndian data) && negb (starts bomUTF16LittleEndian data) then inl data
  else utf16 data.

(** ** Limited rates (src/internal/limiter) *)

(** Two token buckets, or none, and their readers, which delay what they
    pass on. *)
Record staticLimiter : Type := mkLimiter { upstream : option Z; downstream : option Z }.
Definition toByteRate (val : Z) : Z := val * 1024.
Definition NewStaticLimiter (uploadKb downloadKb : Z) : staticLimiter :=
  mkLimiter (if 0 <? uploadKb then Some (toByteRate uploadKb) else None) (if 0 <? downloadKb then Some (toByteRate downloadKb) else None).
Class Ratelimit : Type := {
  rl_Reader : Z -> Reader -> Reader;
  rl_RewindReader : Z -> RewindReader -> RewindReader;
}.
Class RatelimitLaws `{Ratelimit} : Prop := {
  rl_same rate rd : rl_Reader rate rd = rd;
  rl_same_rewind rate rd : rl_RewindReader rate rd = rd;
}.
Section limiter.
Context `{Ratelimit}.
Definition limitReader (rd : Reader) (b : option Z) : Reader := match b with None => rd | Some rate => rl_Reader rate rd end.
Definition limitRewindReader (rd : RewindReader) (b : option Z) : RewindReader := match b with None => rd | Some rate => rl_RewindReader rate rd end.
Definition LimitBackend {S} (be : Backend S) (l : staticLimiter) : Backend S := {|
  be_Test := be_Test be; be_Remove := be_Remove be;
  be_Save ctx h rd s := be_Save be ctx h (limitRewindReader rd (upstream l)) s;
  be_Load U ctx h length_ offset fn u s := be_Load be ctx h length_ offset (fun rd u => fn (limitReader rd (downstream l)) u) u s;
  be_Stat := be_Stat be; be_List := @be_List _ be; be_IsNotExist := be_IsNotExist be; be_Delete := be_Delete be; be_Hasher := be_Hasher be |}.
End limiter.

(** ** Options and the system *)

(** [ResticOptions] *)
Record ResticOptions : Type := mkResticOptions {
  Repo : string; RepositoryFile : string; PasswordFile : string; PasswordCommand : string; KeyHint : string;
  NoCache : bool; CacheDir : string; CleanupCache : bool;
  LimitUploadKb : Z; LimitDownloadKb : Z; Password : string;
  extended : gmap string string;
}.

(** What the program uses of the system, and of the backends. *)
Class System (S : Type) : Type := {
  Getenv : string -> string;
  stdinIsTerminal : bool;
  (** a line of the terminal, without echo; the first line of the standard
      input, empty after an error *)
  term_ReadPassword : S -> S * (list byte + error);
  stdin_Scan : S -> S * string;
  (** the output of a command *)
  cmd_Output : string -> list string -> S -> S * (list byte + error);
  sys_ReadFile : string -> S -> S * (list byte + error);
  sys_IsNotExist : error -> bool;
  sys_RemoveAll : string -> S -> S * option error;
  (** the transport for HTTP, and the [Open] of each backend *)
  sys_Transport : S -> S * option error;
  sys_Open : config -> S -> S * (Backend S + error);
  (** [SearchKey] and the identifier of the configuration
      (src/repository) *)
  sys_SearchKey : Backend S -> string -> Z -> string -> S -> S * (string + error);
  (** [cache.New] and [cache.Old] (src/internal/cache): the directory of the
      caches, the old ones in it *)
  sys_NewCache : string -> string -> S -> S * (string + error);
  sys_OldCaches : string -> S -> S * (list string + error);
}.

Section rapi.
Context {S : Type} `{System S} `{Unicode} `{Ratelimit} `{Backoff}.
Context (utf16 : list byte -> list byte + error) (ParseDuration : string -> option Z) (range : gmap string string -> list (string * string)).

(** [textfile.Read] *)
Definition Read (filename : string) (s : S) : S * (list byte + error) :=
  match sys_ReadFile filename s with
  | (s, inr e) => (s, inr e)
  | (s, inl data) => (s, Decode utf16 data)
  end.
Definition trimmed (b : list byte) : string := string_of (TrimSpace b).

Definition resolvePassword (opts : ResticOptions) (envStr : string) (s : S) : S * res error string :=
  if negb (bool_decide (PasswordFile opts = ""%string)) && negb (bool_decide (PasswordCommand opts = ""%string))
  then (s, Err (Fatalf "Password file and command are mutually exclusive options"))
  else if negb (bool_decide (PasswordCommand opts = ""%string)) then
    match Shell.SplitShellStrings (PasswordCommand opts) with
    | inr e => (s, Err e)
    | inl [] => (s, Panic "index out of range")
    | inl (cmd :: args) =>
        match cmd_Output cmd args s with
        | (s, inr e) => (s, Err e)
        | (s, inl output) => (s, Ok (trimmed output))
        end
    end
  else if negb (bool_decide (PasswordFile opts = ""%string)) then
    match Read (PasswordFile opts) s with
    | (s, inr e) => if sys_IsNotExist (Cause e) then (s, Err (Fatalf (PasswordFile opts ++ " does not exist"))) else (s, Err (EWrap "Readfile" e))
    | (s, inl b) => (s, Ok (trimmed b))
    end
  else
    let pwd := Getenv envStr in
    if negb (bool_decide (pwd = ""%string)) then (s, Ok pwd) else (s, Ok ""%string).

(** [readPassword]: an error of the scanner is not looked at. *)
Definition readPassword (s : S) : S * (string + error) := let '(s, line) := stdin_Scan s in (s, inl line).
Definition readPasswordTerminal (s : S) : S * (string + error) :=
  match term_ReadPassword s with
  | (s, inr e) => (s, inr (EWrap "ReadPassword" e))
  | (s, inl buf) => (s, inl (string_of buf))
  end.
Definition ReadPassword (password : string) (s : S) : S * (string + error) :=
  if negb (bool_decide (password = ""%string)) then (s, inl password)
  else
    match (if stdinIsTerminal then readPasswordTerminal s else readPassword s) with
    | (s, inr e) => (s, inr (EWrap "unable to read password" e))
    | (s, inl p) => if (String.length p =? 0)%nat then (s, inr (EMsg "an empty password is not a password")) else (s, inl p)
    end.
Definition ReadPasswordTwice (password : string) (s : S) : S * (string + error) :=
  match ReadPassword password s with
  | (s, inr e) => (s, inr e)
  | (s, inl pw1) =>
      if stdinIsTerminal then
        match ReadPassword password s with
        | (s, inr e) => (s, inr e)
        | (s, inl pw2) => if negb (bool_decide (pw1 = pw2)) then (s, inr (Fatalf "passwords do not match")) else (s, inl pw1)
        end
      else (s, inl pw1)
  end.

Definition ReadRepo (opts : ResticOptions) (s : S) : S * (string + error) :=
  let envRepo := Getenv "RESTIC_REPOSITORY" in
  if bool_decide (Repo opts = ""%string) && bool_decide (RepositoryFile opts = ""%string) && bool_decide (envRepo = ""%string)
  then (s, inr (Fatalf "Please specify repository location (-r or --repository-file)"))
  else if negb (bool_decide (envRepo = ""%string)) then (s, inl envRepo)
  else
    let repo := Repo opts in
    if negb (bool_decide (RepositoryFile opts = ""%string)) then
      if negb (bool_decide (repo = ""%string)) then (s, inr (Fatalf "Options -r and --repository-file are mutually exclusive, please specify only one"))
      else match Read (RepositoryFile opts) s with
           | (s, inr e) => if sys_IsNotExist (Cause e) then (s, inr (Fatalf (RepositoryFile opts ++ " does not exist"))) else (s, inr e)
           | (s, inl b) => (s, inl (trimmed b))
           end
    else (s, inl repo).

(** ** The backend *)

(** Files that are not in a service are limited by a backend of its own. *)
Definition limited_backend (scheme : string) (l : staticLimiter) (be : Backend S) : Backend S :=
  if bool_decide (scheme = "local"%string) || bool_decide (scheme = "sftp"%string) then LimitBackend be l else be.
(** The location, its configuration, the backend and its configuration file;
    the text of the location in the debug log may be a panic. *)
Definition open (location : string) (opts : ResticOptions) (s : S) : S * res error (Backend S) :=
  match StripPassword location with
  | Panic msg => (s, Panic msg)
  | Err e => (s, Err e)
  | Ok _ =>
      match Parse location with
      | inr e => (s, Err (Fatalf "parsing repository location failed"))
      | inl loc =>
          match parseConfig Getenv ParseDuration range loc (extended opts) with
          | Panic msg => (s, Panic msg)
          | Err e => (s, Err e)
          | Ok cfg =>
              match sys_Transport s with
              | (s, Some e) => (s, Err e)
              | (s, None) =>
                  let lim := NewStaticLimiter (LimitUploadKb opts) (LimitDownloadKb opts) in
                  match sys_Open cfg s with
                  | (s, inr e) => (s, Err (Fatalf "unable to open repo"))
                  | (s, inl be) =>
                      let be := limited_backend (Scheme loc) lim be in
                      match be_Stat be false config_handle s with
                      | (s, (_, Some e)) => (s, Err (Fatalf "unable to open config file"))
                      | (s, (fi, None)) => if bool_decide (fi_Size fi = 0) then (s, Err (EMsg "config file has zero size, invalid repository?")) else (s, Ok be)
                      end
                  end
              end
          end
      end
  end.

(** ** The password *)

Definition maxKeys : Z := 20.
(** The loop of [OpenRepository] with the tries that are left: the password,
    the last identifier and the error at its end. *)
Fixpoint try_passwords (be : Backend S) (hint : string) (tries : nat) (password id : string) (err : option error) (s : S)
  : S * string * string * option error :=
  match tries with
  | O => (s, password, id, err)
  | Datatypes.S more =>
      match ReadPassword password s with
      | (s, inr e) => try_passwords be hint more "" id (Some e) s
      | (s, inl password) =>
          match sys_SearchKey be password maxKeys hint s with
          | (s, inr e) => try_passwords be hint more (if (0 <? more)%nat then "" else password) id (Some e) s
          | (s, inl id) => try_passwords be hint more password id None s
          end
      end
  end.

(** ** The cache *)

Fixpoint remove_dirs (base : string) (items : list string) (s : S) : S :=
  match items with
  | [] => s
  | item :: items => let '(s, _) := sys_RemoveAll (Join [base; item]) s in remove_dirs base items s
  end.
(** Errors of the cache are printed only; the result is the directory of the
    cache that is used. *)
Definition use_cache (opts : ResticOptions) (id : string) (s : S) : S * option string :=
  if NoCache opts then (s, None)
  else match sys_NewCache id (CacheDir opts) s with
       | (s, inr _) => (s, None)
       | (s, inl base) =>
           let '(s, old) := sys_OldCaches base s in
           let old := match old with inl l => l | inr _ => [] end in
           ((if bool_decide (old = []) then s else if CleanupCache opts then remove_dirs base old s else s), Some base)
       end.

(** A repository with the password that was found, and its cache. *)
Record Opened : Type := mkOpened { op_be : Backend S; op_password : string; op_ID : string; op_cache : option string }.
Definition OpenRepository (opts : ResticOptions) (s : S) : S * res error Opened :=
  match ReadRepo opts s with
  | (s, inr e) => (s, Err e)
  | (s, inl repo) =>
      match open repo opts s with
      | (s, Err e) => (s, Err e)
      | (s, Panic msg) => (s, Panic msg)
      | (s, Ok be) =>
          let be := Retry.backend be 10 in
          match resolvePassword opts "RESTIC_PASSWORD" s with
          | (s, Err e) => (s, Err e)
          | (s, Panic msg) => (s, Panic msg)
          | (s, Ok pwd) =>
              let password := if negb (bool_decide (pwd = ""%string)) then pwd else Password opts in
              let tries := if stdinIsTerminal && bool_decide (password = ""%string) then 3%nat else 1%nat in
              let '(s, password, id, err) := try_passwords be (KeyHint opts) tries password "" None s in
              match err with
              | Some e => (s, Err (Fatalf "unable to open the repository"))
              | None => let '(s, cache) := use_cache opts id s in (s, Ok (mkOpened be password id cache))
              end
          end
      end
  end.
End rapi.
Arguments Opened : clear implicits.

(** ** A limited backend implements the same store *)

#[export] Instance limit_implements `{RatelimitLaws} {S} (be : Backend S) l represents remote dropped save_ok load_ok :
  Implements be represents remote dropped save_ok load_ok -> Implements (LimitBackend be l) represents remote dropped save_ok load_ok.
Proof.
  intros [H1 H2 H3 H4 H5 H6]. split; cbn [be_Save be_Remove be_Load be_Stat be_Test be_List LimitBackend]; [| |..]; [|exact H2| |exact H4|exact H5|exact H6].
  - intros h rd s m s' rd' r Hh Hr Hm. assert (E : limitRewindReader rd (upstream l) = rd) by (unfold limitRewindReader; destruct (upstream l); [apply rl_same_rewind|done]).
    rewrite E. by apply H1.
  - intros U h o i fn u s m s' u' r Hh Hl Hm E. destruct (H3 _ _ _ _ _ _ _ _ _ _ _ Hh Hl Hm E) as [Hm' HL]. split; [done|].
    destruct HL as [?|(rd & late & HL)]; [by left|right]. exists rd, late.
    assert (Er : limitReader rd (downstream l) = rd) by (unfold limitReader; destruct (downstream l); [apply rl_same|done]).
    by rewrite Er in HL.
Qed.

(** ** The repository that is opened *)

Section facts.
Context {S : Type} `{System S} `{Unicode} `{Ratelimit} `{Backoff}.
Context (utf16 : list byte -> list byte + error) (ParseDuration : string -> option Z) (range : gmap string string -> list (string * string)).

Lemma ReadPassword_nonempty p s s' p' : ReadPassword p s = (s', inl p') -> p' ≠ ""%string.
Proof.
  unfold ReadPassword. case_bool_decide as E; cbn [negb]; [|by intros [= _ <-]].
  destruct (if stdinIsTerminal then _ else _) as [s1 [q|e]]; [|done]. destruct (Nat.eqb_spec (String.length q) 0); [done|].
  intros [= _ <-]. by intros ->.
Qed.
Lemma try_passwords_spec be hint n p id err s s' p' id' : n ≠ 0%nat -> try_passwords be hint n p id err s = (s', p', id', None) ->
  p' ≠ ""%string /\ exists s1 s2, sys_SearchKey be p' maxKeys hint s1 = (s2, inl id').
Proof.
  revert p id err s. induction n as [|n IH]; intros p id err s Hn; [done|]. cbn [try_passwords].
  destruct (decide (n = 0%nat)) as [->|Hn']; cbn [try_passwords].
  - destruct (ReadPassword p s) as [s1 [q|e]] eqn:E1; [|done]. destruct (sys_SearchKey be q maxKeys hint s1) as [s2 [id1|e]] eqn:E2; [|done].
    intros [= _ <- <-]. split; [by eapply ReadPassword_nonempty|]. by exists s1, s2.
  - destruct (ReadPassword p s) as [s1 [q|e]] eqn:E1; [|by apply IH]. destruct (sys_SearchKey be q maxKeys hint s1) as [s2 [id1|e]]; by apply IH.
Qed.
Lemma open_spec location opts s s' be : open ParseDuration range location opts s = (s', Ok be) ->
  exists s1 fi, be_Stat be false config_handle s1 = (s', (fi, None)) /\ fi_Size fi ≠ 0.
Proof.
  unfold open. destruct (StripPassword location) as [x|e|msg]; [|done..]. destruct (Parse location) as [loc|e]; [|done].
  destruct (parseConfig _ _ _ _ _) as [cfg|e|msg]; [|done..]. destruct (sys_Transport s) as [s1 [e|]]; [done|].
  destruct (sys_Open cfg s1) as [s2 [b|e]]; [|done]. destruct (be_Stat _ false config_handle s2) as [s3 [fi [e|]]] eqn:E; [done|].
  case_bool_decide; [done|]. intros [= <- <-]. by exists s2, fi.
Qed.

(** C26: A repository that is opened has a password that is not empty and that a
    search of its keys accepted, its configuration file was there and not
    empty, its backend retries failed calls, and it has no cache if none is
    wanted. *)
Theorem OpenRepository_checked opts s s' o : OpenRepository utf16 ParseDuration range opts s = (s', Ok o) ->
  op_password o ≠ ""%string
  /\ (exists s1 s2, sys_SearchKey (op_be o) (op_password o) maxKeys (KeyHint opts) s1 = (s2, inl (op_ID o)))
  /\ (exists be s3 s4 fi, op_be o = Retry.backend be 10 /\ be_Stat be false config_handle s3 = (s4, (fi, None)) /\ fi_Size fi ≠ 0)
  /\ (NoCache opts = true -> op_cache o = None).
Proof.
  unfold OpenRepository. destruct (ReadRepo utf16 opts s) as [s1 [repo|e]]; [|done].
  destruct (open ParseDuration range repo opts s1) as [s2 [be|e|msg]] eqn:Eo; [|done..]. apply open_spec in Eo as (s3 & fi & Hs & Hf).
  destruct (resolvePassword utf16 opts "RESTIC_PASSWORD" s2) as [s4 [pwd|e|msg]]; [|done..]. cbv zeta.
  set (tries := if _ && _ then 3%nat else 1%nat). assert (Ht : tries ≠ 0%nat) by (unfold tries; by destruct (_ && _)).
  destruct (try_passwords _ _ tries _ _ _ s4) as [[[s5 p] id] [e|]] eqn:Et; [done|]. apply try_passwords_spec in Et as [Hp HS]; [|done].
  destruct (use_cache opts id s5) as [s6 cache] eqn:Ec. intros [= _ <-]. cbn [op_password op_be op_ID op_cache]. split; [done|]. split; [done|].
  split; [by exists be, s3, s2, fi|]. intros Hn. unfold use_cache in Ec. rewrite Hn in Ec. by injection Ec as _ <-.
Qed.

(** With the right password at the terminal, the keys are searched three
    times, and a search that fails after others that succeeded is an error. *)
Lemma three_searches be hint p s s1 s2 s3 s4 id id' id'' r : ReadPassword "" s = (s1, inl p) ->
  sys_SearchKey be p maxKeys hint s1 = (s2, inl id) -> sys_SearchKey be p maxKeys hint s2 = (s3, inl id') ->
  sys_SearchKey be p maxKeys hint s3 = (s4, r) ->
  (r = inl id'' -> try_passwords be hint 3 "" "" None s = (s4, p, id'', None))
  /\ forall e, r = inr e -> try_passwords be hint 3 "" "" None s = (s4, p, id', Some e).
Proof.
  intros Hr E1 E2 E3. assert (Hp := ReadPassword_nonempty _ _ _ _ Hr).
  assert (Hagain : forall s, ReadPassword p s = (s, inl p)) by (intros t; unfold ReadPassword; by rewrite bool_decide_eq_false_2).
  cbn [try_passwords]. rewrite Hr, E1, Hagain, E2, Hagain, E3. split; [by intros ->|by intros e ->].
Qed.
(** The variable of the environment wins over the option [-r]. *)
Lemma ReadRepo_environment opts s : Getenv "RESTIC_REPOSITORY" ≠ ""%string -> ReadRepo utf16 opts s = (s, inl (Getenv "RESTIC_REPOSITORY")).
Proof. intros He. unfold ReadRepo. cbv zeta. rewrite (bool_decide_eq_false_2 (Getenv "RESTIC_REPOSITORY" = _)) by done. by rewrite andb_false_r. Qed.
End facts.
(** Showing the location in the log panics for the name of the REST backend
    alone. *)
Lemma rest_panics : StripPassword "rest" = Panic "slice bounds out of range".
Proof. vm_compute. reflexivity. Qed.

(** A system on which everything works; its state counts the searches for a
    key. *)
Definition working_backend : Backend nat := {|
  be_Test _ _ s := (s, (true, None)); be_Remove _ _ s := (s, None); be_Save _ _ rd s := (s, rd, None);
  be_Load _ _ _ _ _ _ u s := (s, u, None); be_Stat _ h s := (s, (mkFileInfo 155 (h_Name h), None));
  be_List _ _ _ _ u s := (s, u, None); be_IsNotExist _ := false; be_Delete _ s := (s, None); be_Hasher := None |}.
Definition working_system : System nat := {|
  Getenv _ := ""%string; stdinIsTerminal := true; term_ReadPassword s := (s, inl (bytes_of "secret")); stdin_Scan s := (s, ""%string);
  cmd_Output _ _ s := (s, inl []); sys_ReadFile _ s := (s, inl []); sys_IsNotExist _ := false; sys_RemoveAll _ s := (s, None);
  sys_Transport s := (s, None); sys_Open _ s := (s, inl working_backend);
  sys_SearchKey _ p _ _ s := (Datatypes.S s, if bool_decide (p = "secret"%string) then inl "id"%string else inr (EMsg "wrong password"));
  sys_NewCache _ _ s := (s, inl "/cache"%string); sys_OldCaches _ s := (s, inl []) |}.
Definition no_limit : Ratelimit := {| rl_Reader _ rd := rd; rl_RewindReader _ rd := rd |}.
Definition srv_options : ResticOptions := mkResticOptions "/srv/repo" "" "" "" "" false "" false 0 0 "" ∅.
Definition srv_open : nat * res error (Opened nat) :=
  OpenRepository (H := working_system) (H0 := toy_unicode) (H1 := no_limit) (H2 := toy_backoff) inl (fun _ => None) map_to_list srv_options 0%nat.
Definition srv_opened : Opened nat :=
  mkOpened (Retry.backend (H := toy_backoff) (limited_backend (H1 := no_limit) "local" (NewStaticLimiter 0 0) working_backend) 10) "secret" "id" (Some "/cache"%string).
Lemma srv_open_ok : srv_open = (3%nat, Ok srv_opened).
Proof. reflexivity. Qed.
Lemma OpenRepository_checked_witness : op_password srv_opened = "secret"%string
  /\ exists s1 s2, sys_SearchKey (System := working_system) (op_be srv_opened) "secret" maxKeys "" s1 = (s2, inl "id"%string).
Proof.
  split; [reflexivity|].
  exact (proj1 (proj2 (OpenRepository_checked (H := working_system) (H0 := toy_unicode) (H1 := no_limit) (H2 := toy_backoff) inl (fun _ => None) map_to_list
    srv_options 0%nat 3%nat srv_opened srv_open_ok))).
Defined.
