(* ===== verification/Cache.v ===== *)
(** * Cache: the local cache of repository files

    The cache directory (src/internal/cache/cache.go, dir.go), the files in it
    (file.go), and the backend that answers from the cache (backend.go).  The
    theorem is that a client cannot tell the cached backend from the backend
    itself, whatever errors the disk of the cache reports; but for removals,
    which return these errors.

    The directory is on a [Disk].  A goroutine that waits for the download of
    another one sees the cache after that download: the parameter [wait]. *)

From S2P Require Import Prelude Crypto Ids Pack Duration Backend Snapshots Trees Paths FileInfo Disk Layouts.

#[local] Open Scope io_scope.

(** ** The cache (src/internal/cache/cache.go) *)

Record Cache : Type := mkCache { c_path : string; c_Base : string; c_Created : bool }.

Definition cacheVersion : Z := 1.
Definition cacheLayoutPaths (t : string) : option string :=
  if bool_decide (t = PackFile) then Some "data"%string
  else if bool_decide (t = SnapshotFile) then Some "snapshots"%string
  else if bool_decide (t = IndexFile) then Some "index"%string
  else None.
Definition layout_types : list string := [PackFile; SnapshotFile; IndexFile].
Definition cachedirTagSignature : list byte :=
  bytes_of "Signature: 8a477f597d28d172789f06886806bc55" ++ [Byte.x0a].

(** [strconv.ParseUint(s, 10, 32)] *)
Definition ParseUint32 (l : list byte) : Z + error :=
  if bool_decide (l = []) || negb (forallb is_digit l) then inr (EMsg "invalid syntax")
  else if digits_value l <? 2 ^ 32 then inl (digits_value l) else inr (EMsg "value out of range").

(** [^[a-fA-F0-9]{64}$|^restic-check-cache-[0-9]+$] *)
Definition check_prefix : list byte := bytes_of "restic-check-cache-".
Definition validCacheDirName (s : string) : bool :=
  let l := bytes_of s in
  backendFilename s
  || (bool_decide (take (length check_prefix) l = check_prefix)
      && negb (bool_decide (drop (length check_prefix) l = []))
      && forallb is_digit (drop (length check_prefix) l)).

Definition EnvDir (env : string) : string := env.
Definition DefaultDir (env : string) (UserCacheDir : string + error) : string + error :=
  let cachedir := EnvDir env in
  if bool_decide (cachedir ≠ ""%string) then inl cachedir
  else match UserCacheDir with
       | inr e => inr (EWrap "unable to locate cache directory" e)
       | inl cachedir => inl (Join [cachedir; "restic"%string])
       end.

Section cache.
Context {F : Type} `{Disk F}.

Definition readVersion (dir : string) : io F Z :=
  r <-- sys (os_ReadFile (Join [dir; "version"%string]));
  match r with
  | inr e => if is_not_exist e then io_ret 0 else io_err (EWrap "readVersion" e)
  | inl buf => match ParseUint32 buf with inl v => io_ret v | inr e => io_err (EWrap "readVersion" e) end
  end.

Definition writeCachedirTag (dir : string) : io F unit :=
  check (os_MkdirAll dir);;
  let tagfile := Join [dir; "CACHEDIR.TAG"%string] in
  r <-- sys (os_Lstat tagfile);
  match r with
  | inr e => if negb (is_not_exist e) then io_err e else io_ret tt
  | inl _ => io_ret tt
  end;;
  err <-- sys (os_Create tagfile);
  match err with
  | Some e => if is_exist e then io_ret tt else io_err e
  | None =>
      err <-- sys (os_Write tagfile cachedirTagSignature);
      match err with
      | Some e => sys (os_Close tagfile);; io_err e
      | None => check (os_Close tagfile)
      end
  end.

Definition updateTimestamp (d : string) : io F unit := check (os_Chtimes d).

Fixpoint make_layout (cachedir : string) (types : list string) : io F unit :=
  match types with
  | [] => io_ret tt
  | t :: types =>
      check (os_MkdirAll (Join [cachedir; default ""%string (cacheLayoutPaths t)]));;
      make_layout cachedir types
  end.

(** [types] is the order in which the layout is ranged over. *)
Definition New (env : string) (UserCacheDir : string + error) (types : list string) (id basedir : string) : io F Cache :=
  basedir <-- (if bool_decide (basedir = ""%string)
              then match DefaultDir env UserCacheDir with inl d => io_ret d | inr e => io_err e end
              else io_ret basedir);
  check (os_MkdirAll basedir);;
  writeCachedirTag basedir;;
  let cachedir := Join [basedir; id] in
  v <-- readVersion cachedir;
  if cacheVersion <? v then io_err (EMsg "cache version is newer")
  else
    r <-- sys (os_Lstat cachedir);
    created <-- match r with
               | inr e => if is_not_exist e then check (os_MkdirAll cachedir);; io_ret true else io_ret false
               | inl _ => io_ret false
               end;
    updateTimestamp cachedir;;
    (if v <? cacheVersion then check (os_WriteFile (Join [cachedir; "version"%string]) (format_int cacheVersion))
     else io_ret tt);;
    make_layout cachedir types;;
    io_ret (mkCache cachedir basedir created).

(** The error of [Open] when there is no such directory is not one. *)
Definition listCacheDirs (basedir : string) : io F (list OsInfo) :=
  r <-- sys (os_Open basedir);
  match r with
  | inr e => if is_not_exist e then io_ret [] else io_err e
  | inl f =>
      entries <-- try (os_Readdir basedir);
      match of_close f with
      | Some e => io_err e
      | None => io_ret (filter (fun e => IsDir e && validCacheDirName (oi_Name e)) entries)
      end
  end.
Definition All (basedir : string) : io F (list OsInfo) := listCacheDirs basedir.

Definition MaxCacheAge : Z := 30 * 24 * 3600 * Second.
Definition IsOld (now t : Time) (maxAge : Z) : bool :=
  Before t (Add now (- maxAge)).
Definition OlderThan (now : Time) (basedir : string) (max : Z) : io F (list OsInfo) :=
  entries <-- listCacheDirs basedir;
  io_ret (filter (fun fi => IsOld now (oi_ModTime fi) max) entries).
Definition Old (now : Time) (basedir : string) : io F (list OsInfo) := OlderThan now basedir MaxCacheAge.
Definition BaseDir (c : Cache) : string := c_Base c.

End cache.

(** ** The files of the cache (src/internal/cache/file.go) *)

Module CacheFile.
Section file.
Context {F : Type} `{Disk F}.

(** A [*Cache] may be nil. *)
Definition filename (c : option Cache) (h : Handle) : res error string :=
  if (String.length (h_Name h) <? 2)%nat then Panic "Name is empty or too short"
  else match c with
       | None => Panic "invalid memory address or nil pointer dereference"
       | Some c =>
           let subdir := String.substring 0 2 (h_Name h) in
           Ok (Join [c_path c; default ""%string (cacheLayoutPaths (h_Type h)); subdir; h_Name h])
       end.

Definition canBeCached (c : option Cache) (t : string) : bool :=
  match c with
  | None => false
  | Some _ => match cacheLayoutPaths t with Some _ => true | None => false end
  end.

Definition Has (c : option Cache) (h : Handle) : io F bool :=
  if negb (canBeCached c (h_Type h)) then io_ret false
  else
    p <-- io_res (filename c h);
    r <-- sys (os_Stat p);
    io_ret (match r with inl _ => true | inr _ => false end).

Definition remove (c : option Cache) (h : Handle) : io F unit :=
  has <-- Has c h;
  if negb has then io_ret tt else p <-- io_res (filename c h); check (os_Remove p).

(** Errors of [c.remove] are ignored. *)
Definition load (c : option Cache) (h : Handle) (length_ offset : Z) : io F Reader :=
  if negb (canBeCached c (h_Type h)) then io_err (EMsg "cannot be cached")
  else
    p <-- io_res (filename c h);
    f <-- try (os_Open p);
    match of_stat f with
    | inr e => io_err e
    | inl fi =>
        let size := oi_Size fi in
        if size <=? Extension then ignore (remove c h);; io_err (EMsg "cached file is truncated, removing")
        else if size <? i64 (offset + length_) then ignore (remove c h);; io_err (EMsg "cached file is too small, removing")
        else
          match (if 0 <? offset then of_seek f else None) with
          | Some e => io_err e
          | None => io_ret (limited f length_ offset)
          end
    end.

Definition Save (c : option Cache) (h : Handle) (rd : option Reader) : io F unit :=
  match rd with
  | None => io_err (EMsg "Save() called with nil reader")
  | Some rd =>
      if negb (canBeCached c (h_Type h)) then io_err (EMsg "cannot be cached")
      else
        finalname <-- io_res (filename c h);
        let dir := Dir finalname in
        err <-- sys (os_Mkdir dir);
        match err with
        | Some e => if is_exist e then io_ret tt else io_err e
        | None => io_ret tt
        end;;
        f <-- try (os_TempFile dir "tmp-");
        r <-- sys (os_Copy f rd);
        match r with
        | (_, Some e) => sys (os_Close f);; sys (os_Remove f);; io_err (EWrap "Copy" e)
        | (n, None) =>
            if n <=? Extension then sys (os_Close f);; sys (os_Remove f);; io_ret tt
            else
              err <-- sys (os_Close f);
              match err with
              | Some e => sys (os_Remove f);; io_err e
              | None =>
                  err <-- sys (os_Rename f finalname);
                  match err with
                  | None => io_ret tt
                  | Some e =>
                      sys (os_Remove f);;
                      if windows && is_permission e then io_ret tt else io_err e
                  end
              end
        end
  end.

Definition isFile (fi : OsInfo) : bool := Z.land (oi_Mode fi) (Z.lor ModeType ModeCharDevice) =? 0.

(** The callback of [Walk], on the events in turn. *)
Fixpoint list_events (events : list walk_event) (l : IDSet) : IDSet * option error :=
  match events with
  | [] => (l, None)
  | (name, inr e) :: _ => (l, Some (EWrap "Walk" e))
  | (name, inl fi) :: events =>
      if negb (isFile fi) then list_events events l
      else match ParseID (Base name) with
           | Ok id => list_events events (IDSet_Insert l id)
           | _ => list_events events l
           end
  end.
Definition list_files (c : option Cache) (t : string) : io F IDSet :=
  if negb (canBeCached c t) then io_err (EMsg "cannot be cached")
  else
    let dir := match c with Some c => Join [c_path c; default ""%string (cacheLayoutPaths t)] | None => ""%string end in
    events <-- sys (fp_Walk dir);
    match list_events events ∅ with
    | (l, None) => io_ret l
    | (_, Some e) => io_err e
    end.

(** [range] is the order in which the set is ranged over. *)
Fixpoint clear_loop (c : option Cache) (t : string) (valid : IDSet) (ids : list ID) : io F unit :=
  match ids with
  | [] => io_ret tt
  | id :: ids =>
      if IDSet_Has valid id then clear_loop c t valid ids
      else
        p <-- io_res (filename c (mkBeHandle t InvalidBlob (ID_String id)));
        check (os_Remove p);;
        clear_loop c t valid ids
  end.
Definition Clear (range : IDSet -> list ID) (c : option Cache) (t : string) (valid : IDSet) : io F unit :=
  if negb (canBeCached c t) then io_ret tt
  else l <-- list_files c t; clear_loop c t valid (range l).

(** [Repository.PrepareCache] (src/repository/repository.go), with which
    [Repository.LoadIndex] ends: the index files and packs that are not known
    any more are removed; errors are only printed.  [packs] are the packs of
    the loaded indexes. *)
Definition PrepareCache (range : IDSet -> list ID) (c : option Cache) (indexIDs packs : IDSet) : io F unit :=
  match c with
  | None => io_ret tt
  | Some _ => ignore (Clear range c IndexFile indexIDs);; ignore (Clear range c PackFile packs)
  end.

End file.
End CacheFile.

(** ** The cached backend (src/internal/cache/backend.go) *)

Definition autoCacheTypes (h : Handle) : bool :=
  if bool_decide (h_Type h ∈ [IndexFile; SnapshotFile]) then true
  else if bool_decide (h_Type h = PackFile) then bool_decide (h_ContainedBlobType h = TreeBlob)
  else false.

(** The state of a [Backend]: of the wrapped backend, of the cache's disk, and
    the files that are being downloaded. *)
Record CState (S F : Type) : Type := mkCState { cs_be : S; cs_fs : F; cs_inProgress : gset Handle }.
Arguments mkCState {S F}. Arguments cs_be {S F}. Arguments cs_fs {S F}. Arguments cs_inProgress {S F}.

Module Cached.
Section backend.
Context {S F : Type} `{Disk F} (b : Backend S) (cache : option Cache).
(** What a goroutine that waited for another one's download finds. *)
Context (wait : Handle -> F * gset Handle -> F * gset Handle).
#[local] Abbreviation CState := (CState S F).

Definition on_fs {A} (m : io F A) (st : CState) : CState * res error A :=
  let '(s, r) := m (cs_fs st) in (mkCState (cs_be st) s (cs_inProgress st), r).
Definition wait_for (h : Handle) (st : CState) : CState :=
  let '(s, p) := wait h (cs_fs st, cs_inProgress st) in mkCState (cs_be st) s p.

Definition Remove (ctx : bool) (h : Handle) (st : CState) : CState * res error unit :=
  let '(s, err) := be_Remove b ctx h (cs_be st) in
  let st := mkCState s (cs_fs st) (cs_inProgress st) in
  match err with
  | Some e => (st, Err e)
  | None => on_fs (CacheFile.remove cache h) st
  end.

(** The caller's reader is rewound before each use and not looked at
    afterwards. *)
Definition Save (ctx : bool) (h : Handle) (rd : RewindReader) (st : CState) : CState * res error unit :=
  if negb (autoCacheTypes h) then
    let '(s, _, err) := be_Save b ctx h rd (cs_be st) in
    (mkCState s (cs_fs st) (cs_inProgress st), match err with Some e => Err e | None => Ok tt end)
  else
    let rd := Rewind rd in
    let '(s, rd, err) := be_Save b ctx h rd (cs_be st) in
    let st := mkCState s (cs_fs st) (cs_inProgress st) in
    match err with
    | Some e => (st, Err e)
    | None =>
        let rd := Rewind rd in
        let '(st, r) := on_fs (CacheFile.Save cache h (Some (mkReader (read_all rd).1 None None))) st in
        match r with
        | Panic msg => (st, Panic msg)
        | Ok _ => (st, Ok tt)
        | Err _ => on_fs (ignore (CacheFile.remove cache h)) st
        end
    end.

(** The callback that stores what is downloaded: the client state is the disk
    and the outcome of the last call. *)
Definition store_callback (h : Handle) : callback Reader (F * res error unit) := fun rd u =>
  let '(s, r) := CacheFile.Save cache h (Some rd) u.1 in
  ((s, r), match r with Err e => Some e | _ => None end).

Definition download (h : Handle) (st : CState) : CState * res error unit :=
  let '(s, (f, r), err) := be_Load b false h 0 0 (store_callback h) (cs_fs st, Ok tt) (cs_be st) in
  let st := mkCState s f (cs_inProgress st) in
  match r with
  | Panic msg => (st, Panic msg)
  | _ => match err with
         | None => (st, Ok tt)
         | Some _ => on_fs (ignore (CacheFile.remove cache h)) st
         end
  end.

Definition cacheFile (h : Handle) (st : CState) : CState * res error unit :=
  if bool_decide (h ∈ cs_inProgress st) then (wait_for h st, Ok tt)
  else
    let st := mkCState (cs_be st) (cs_fs st) ({[h]} ∪ cs_inProgress st) in
    match on_fs (CacheFile.Has cache h) st with
    | (st, Panic msg) => (st, Panic msg)
    | (st, has) =>
        let '(st, r) := match has with Ok true => (st, Ok tt) | _ => download h st end in
        match r with
        | Panic msg => (st, Panic msg)
        | _ => (mkCState (cs_be st) (cs_fs st) (cs_inProgress st ∖ {[h]}), Ok tt)
        end
    end.

Definition delegate {U} (h : Handle) (length_ offset : Z) (consumer : callback Reader U) (u : U) (st : CState)
  : CState * U * res error unit :=
  let '(s, u, err) := be_Load b false h length_ offset consumer u (cs_be st) in
  (mkCState s (cs_fs st) (cs_inProgress st), u, match err with Some e => Err e | None => Ok tt end).

(** The consumer on a reader of the cache, which is closed afterwards. *)
Definition consume {U} (consumer : callback Reader U) (rd : Reader) (u : U) (st : CState) : CState * U * res error unit :=
  let '(u, err) := consumer rd u in
  (st, u, match err with
          | Some e => Err e
          | None => match rd_close rd with Some e => Err e | None => Ok tt end
          end).

Definition loadFromCacheOrDelegate {U} (h : Handle) (length_ offset : Z) (consumer : callback Reader U) (u : U) (st : CState)
  : CState * U * res error unit :=
  match on_fs (CacheFile.load cache h length_ offset) st with
  | (st, Panic msg) => (st, u, Panic msg)
  | (st, Err _) => delegate h length_ offset consumer u st
  | (st, Ok rd) => consume consumer rd u st
  end.

(** After the cache was tried. *)
Definition load_uncached {U} (h : Handle) (length_ offset : Z) (consumer : callback Reader U) (u : U) (st : CState)
  : CState * U * res error unit :=
  if negb (autoCacheTypes h) then delegate h length_ offset consumer u st
  else match cacheFile h st with
       | (st, Ok _) => loadFromCacheOrDelegate h length_ offset consumer u st
       | (st, Err _) => delegate h length_ offset consumer u st
       | (st, Panic msg) => (st, u, Panic msg)
       end.

Definition Load {U} (h : Handle) (length_ offset : Z) (consumer : callback Reader U) (u : U) (st : CState)
  : CState * U * res error unit :=
  let st := if bool_decide (h ∈ cs_inProgress st) then wait_for h st else st in
  match on_fs (CacheFile.Has cache h) st with
  | (st, Panic msg) => (st, u, Panic msg)
  | (st, Ok true) =>
      match on_fs (CacheFile.load cache h length_ offset) st with
      | (st, Panic msg) => (st, u, Panic msg)
      | (st, Ok rd) => consume consumer rd u st
      | (st, Err _) => load_uncached h length_ offset consumer u st
      end
  | (st, _) => load_uncached h length_ offset consumer u st
  end.

Definition Stat (ctx : bool) (h : Handle) (st : CState) : CState * res error (FileInfo * option error) :=
  let '(s, (fi, err)) := be_Stat b ctx h (cs_be st) in
  let st := mkCState s (cs_fs st) (cs_inProgress st) in
  match err with
  | Some e =>
      if be_IsNotExist b e then
        match on_fs (ignore (CacheFile.remove cache h)) st with
        | (st, Panic msg) => (st, Panic msg)
        | (st, _) => (st, Ok (fi, err))
        end
      else (st, Ok (fi, err))
  | None => (st, Ok (fi, err))
  end.

Definition IsNotExist (e : error) : bool := be_IsNotExist b e.

End backend.
End Cached.

(** ** The cache keeps what it is given *)

Section files.
Context {F : Type} {CF : Disk F} (files : F -> string -> option (list byte)) {CL : DiskLaws files}.
Context (c : Cache) (dir : list string) (dir_plain : Forall plain dir) (dir_path : c_path c = render dir).

Definition layout (h : Handle) : string := default ""%string (cacheLayoutPaths (h_Type h)).
Definition path (h : Handle) : string := Join [c_path c; layout h; subdir_of h; h_Name h].
Definition cached_handle (h : Handle) : Prop := named h /\ is_Some (cacheLayoutPaths (h_Type h)).
(** The paths of the cache's files. *)
Definition cache_path (p : string) : Prop := exists h, cached_handle h /\ p = path h.

Context {RG : Regular files cache_path} {RD : Readable cache_path}.

Lemma layout_plain h : is_Some (cacheLayoutPaths (h_Type h)) -> plain (layout h).
Proof.
  unfold layout, cacheLayoutPaths. intros [l Hl]. repeat case_bool_decide; try done; apply (bool_decide_eq_true_1 _); reflexivity.
Qed.
Lemma layout_inj h h' : is_Some (cacheLayoutPaths (h_Type h)) -> is_Some (cacheLayoutPaths (h_Type h')) ->
  layout h = layout h' -> h_Type h = h_Type h'.
Proof.
  unfold layout, cacheLayoutPaths. intros [l Hl] [l' Hl']. repeat case_bool_decide; congruence || done.
Qed.
Lemma path_dir h : cached_handle h ->
  Forall plain (dir ++ [layout h; subdir_of h]) /\ plain (h_Name h) /\ path h = render ((dir ++ [layout h; subdir_of h]) ++ [h_Name h]).
Proof using dir_plain dir_path.
  intros [Hn Hl]. destruct (named_plain h Hn) as [Hp Hs]. pose proof (layout_plain h Hl).
  assert (H3 : Forall plain [layout h; subdir_of h; h_Name h]) by (repeat (apply Forall_cons; split; [done|]); by apply Forall_nil).
  assert (H2 : Forall plain (dir ++ [layout h; subdir_of h])).
  { apply Forall_app. split; [done|]. repeat (apply Forall_cons; split; [done|]). by apply Forall_nil. }
  split; [done|]. split; [done|]. unfold path. rewrite dir_path.
  rewrite Join_plains by done. by rewrite <- app_assoc.
Qed.
Lemma cache_path_inj h h' : cached_handle h -> cached_handle h' -> path h = path h' -> h_Type h = h_Type h' /\ h_Name h = h_Name h'.
Proof using dir_plain dir_path.
  intros Hh Hh'. destruct (path_dir h Hh) as (H1 & H2 & ->), (path_dir h' Hh') as (H1' & H2' & ->). intros E.
  apply render_inj in E; [|by apply plain_app..]. apply app_inj_tail in E as [E Hn]. split; [|done].
  apply app_inv_head in E. injection E as El _. apply layout_inj; [by destruct Hh|by destruct Hh'|done].
Qed.

Lemma tmp_path h h' x : cached_handle h -> cached_handle h' -> noslash x ->
  Join [Dir (path h); ("tmp-" ++ x)%string] ≠ path h'.
Proof using dir_plain dir_path.
  intros Hh Hh' Hx. destruct (path_dir h Hh) as (H1 & H2 & ->), (path_dir h' Hh') as (H1' & H2' & ->).
  rewrite Dir_render by by apply plain_app.
  assert (Ht : plain ("tmp-" ++ x)%string).
  { unfold plain, noslash. rewrite bytes_of_app. split_and!; try done. intros [Hc|Hc]%elem_of_app; [|done].
    revert Hc. apply (bool_decide_eq_true_1 _). reflexivity. }
  rewrite Join_plain by done. intros E. apply render_inj in E; [|by apply plain_app..]. apply app_inj_tail in E as [_ E].
  destruct (named_bytes h' (proj1 Hh')) as (a & b & l & Hb & _ & Hs). rewrite <- E, bytes_of_app in Hb.
  injection Hb as Ha _. apply (Hs a); [left|]. rewrite <- Ha. by right; right; left.
Qed.

(** Between two states of the disk, files of the cache may go away, and one
    may have been stored. *)
Definition stores (o : option (string * list byte)) (s s' : F) : Prop :=
  forall h x, cached_handle h -> files s' (path h) = Some x -> files s (path h) = Some x \/ o = Some (path h, x).

Lemma stores_refl o s s' : (forall q, files s' q = files s q) -> stores o s s'.
Proof. intros E h x _. rewrite E. auto. Qed.
Lemma stores_trans o s1 s2 s3 : stores o s1 s2 -> stores o s2 s3 -> stores o s1 s3.
Proof. intros H1 H2 h x Hh Hx. destruct (H2 h x Hh Hx) as [H|H]; auto. Qed.
Lemma stores_weaken o s s' : stores None s s' -> stores o s s'.
Proof. intros H1 h x Hh Hx. destruct (H1 h x Hh Hx); [auto|done]. Qed.
Lemma stores_remove o p s s' r : os_Remove p s = (s', r) -> stores o s s'.
Proof using CL RG.
  intros E h x _ Hx. left. destruct (decide (path h = p)) as [Hp|Hp].
  - destruct r as [e|]; [by rewrite Hp, <- (remove_err _ _ _ _ E), <- Hp|]. by rewrite Hp, (remove_ok _ _ _ E) in Hx.
  - by rewrite <- (remove_frame_ p (path h) _ _ _ E).
Qed.

Lemma filename_path h : cached_handle h -> CacheFile.filename (Some c) h = Ok (path h).
Proof. intros [Hn _]. unfold CacheFile.filename. by rewrite named_length. Qed.
Lemma canBeCached_handle h : CacheFile.canBeCached (Some c) (h_Type h) = bool_decide (is_Some (cacheLayoutPaths (h_Type h))).
Proof. unfold CacheFile.canBeCached. destruct (cacheLayoutPaths (h_Type h)); [by rewrite bool_decide_eq_true_2|by rewrite bool_decide_eq_false_2 by by intros [? [=]]]. Qed.

(** A handle that is not cached, or a name the cache takes. *)
Definition good_handle (h : Handle) : Prop := is_Some (cacheLayoutPaths (h_Type h)) -> named h.

Lemma cache_has_spec h s s' r : good_handle h -> CacheFile.Has (Some c) h s = (s', r) ->
  (forall q, files s' q = files s q) /\ exists b, r = Ok b
  /\ (Reliable files cache_path -> cached_handle h -> b = bool_decide (is_Some (files s (path h)))) /\ (b = true -> cached_handle h).
Proof using CL RG.
  intros Hg. unfold CacheFile.Has. rewrite canBeCached_handle. case_bool_decide as Hc; cbn [negb].
  - unfold io_bind, io_res, sys, io_ret. rewrite (filename_path h) by (split; auto).
    assert (Hh : cached_handle h) by (split; auto). assert (Hp : cache_path (path h)) by by exists h.
    destruct (os_Stat (path h) s) as [s1 st] eqn:E. intros [= <- <-]. split; [intros q; by apply (stat_files _ _ _ _ q E)|].
    eexists. split; [done|]. split; [|intros _; split; auto]. intros HR _. symmetry. destruct st as [fi|e].
    + apply bool_decide_eq_true_2. by eapply stat_regular.
    + apply bool_decide_eq_false_2. intros Hf. by destruct (stat_works _ _ _ _ Hp E Hf).
  - intros [= <- <-]. split; [done|]. exists false. split; [done|]. split; [|done]. intros _ [_ ?]. done.
Qed.

Lemma remove_spec h s s' r : good_handle h -> CacheFile.remove (Some c) h s = (s', r) ->
  stores None s s' /\ (forall msg, r ≠ Panic msg)
  /\ (Reliable files cache_path -> r = Ok tt /\ (cached_handle h -> files s' (path h) = None)).
Proof using CL RG.
  intros Hg. unfold CacheFile.remove, io_bind at 1. destruct (CacheFile.Has (Some c) h s) as [s1 r1] eqn:E1.
  apply cache_has_spec in E1 as (Hf & b & -> & Hb & Hbc); [|done]. destruct b; cbn [negb].
  - specialize (Hbc eq_refl). unfold io_bind, io_res, Disk.check. rewrite (filename_path h Hbc).
    destruct (os_Remove (path h) s1) as [s2 err] eqn:E2. intros HE.
    assert (Hst : stores None s s2) by (eapply stores_trans; [by apply stores_refl|by eapply stores_remove]).
    destruct err as [e|]; injection HE as <- <-; (split; [done|]); (split; [done|]); intros HR.
    + specialize (Hb HR Hbc). symmetry in Hb. apply bool_decide_eq_true_1 in Hb. rewrite <- Hf in Hb.
      assert (Hp : cache_path (path h)) by by exists h. by pose proof (remove_works _ _ _ _ Hp E2 Hb).
    + split; [done|]. intros _. by apply (remove_ok _ _ _ E2).
  - intros [= <- <-]. split; [by apply stores_refl|]. split; [done|]. intros HR. split; [done|]. intros Hc.
    specialize (Hb HR Hc). rewrite Hf. destruct (files s (path h)) eqn:E; [|done]. by rewrite bool_decide_eq_true_2 in Hb.
Qed.

Lemma ignore_remove_spec h s s' r : good_handle h -> ignore (CacheFile.remove (Some c) h) s = (s', r) ->
  stores None s s' /\ r = Ok tt.
Proof using CL RG.
  intros Hg. unfold ignore. destruct (CacheFile.remove (Some c) h s) as [s1 r1] eqn:E.
  apply remove_spec in E as (Hs & Hp & _); [|done]. destruct r1 as [[]|e|msg]; [| |by destruct (Hp msg)]; by intros [= <- <-].
Qed.

Lemma drop_file {A} h e s s' (r : res error A) : good_handle h ->
  (ignore (CacheFile.remove (Some c) h);; io_err e) s = (s', r) -> stores None s s' /\ r = Err e.
Proof using CL RG.
  intros Hg. unfold io_bind. destruct (ignore (CacheFile.remove (Some c) h) s) as [s1 r1] eqn:E.
  apply ignore_remove_spec in E as [H1 ->]; [|done]. by intros [= <- <-].
Qed.
Lemma load_spec h length_ offset s s' r : good_handle h -> 0 <= length_ -> 0 <= offset -> offset + length_ < 2 ^ 63 ->
  CacheFile.load (Some c) h length_ offset s = (s', r) ->
  stores None s s' /\ match r with
    | Panic _ => False
    | Err _ => True
    | Ok rd => cached_handle h /\ exists d, files s (path h) = Some d /\ offset + length_ <= lenZ d
        /\ rd = mkReader (file_range length_ offset d) None None
    end.
Proof using CL RG RD.
  intros Hg Hl Ho Hb. unfold CacheFile.load. rewrite canBeCached_handle. case_bool_decide as Hc; cbn [negb];
    [|intros [= <- <-]; split; [by apply stores_refl|done]].
  assert (Hh : cached_handle h) by (split; auto). rewrite (filename_path h Hh).
  unfold io_bind at 1, io_res. unfold io_bind at 1, try. destruct (os_Open (path h) s) as [s1 [f|e]] eqn:E1;
    (assert (H1 : stores None s s1) by (apply stores_refl; intros q; exact (open_files _ _ _ _ q E1))); [|by intros [= <- <-]].
  destruct (open_regular (path h) _ _ _ (ex_intro _ h (conj Hh eq_refl)) E1) as [d Hd].
  destruct (open_readable (path h) _ _ _ (ex_intro _ h (conj Hh eq_refl)) E1) as [He Hcl].
  destruct (open_ok _ _ _ _ _ E1 Hd) as [[[<- _]|[_ ?]] Hsz]; [|done].
  destruct (of_stat f) as [fi|e]; [|by intros [= <- <-]]. specialize (Hsz fi eq_refl). cbv zeta.
  destruct (oi_Size fi <=? Extension); [intros [H2 ->]%drop_file; [|done]; split; [by eapply stores_trans|done]|].
  destruct (Z.ltb_spec (oi_Size fi) (i64 (offset + length_))) as [Hlt|Hge]; [intros [H2 ->]%drop_file; [|done]; split; [by eapply stores_trans|done]|].
  rewrite i64_small in Hge by lia.
  destruct (if 0 <? offset then of_seek f else None) as [e|]; [by intros [= <- <-]|].
  intros [= <- <-]. split; [done|]. split; [done|]. exists (of_data f). split; [done|]. split; [lia|]. by apply limited_range.
Qed.

(** The end of [Save]: the temporary file is renamed or removed. *)
Lemma Save_finish h p rd n s s' r : cached_handle h -> (forall h', cached_handle h' -> p ≠ path h') ->
  (exists s0, os_Copy p rd s0 = (s, (n, None)) /\ files s0 p = Some []) ->
  (if n <=? Extension then sys (os_Close p);; sys (os_Remove p);; io_ret tt
   else err <-- sys (os_Close p);
        match err with
        | Some e => sys (os_Remove p);; io_err e
        | None => err <-- sys (os_Rename p (path h));
                  match err with
                  | None => io_ret tt
                  | Some e => sys (os_Remove p);; if windows && is_permission e then io_ret tt else io_err e
                  end
        end) s = (s', r) ->
  stores (Some (path h, rd_bytes rd)) s s' /\ forall msg, r ≠ Panic msg.
Proof using CL RG.
  intros Hh Hp (s0 & Hcopy & Htmp). pose proof (copy_ok _ _ _ _ _ Hcopy Htmp) as (Hd & Hn & He).
  unfold io_bind, sys, io_ret, io_err. destruct (os_Close p s) as [s1 err1] eqn:E1.
  assert (F1 : forall q, files s1 q = files s q) by (intros q; exact (close_files _ _ _ _ q E1)).
  destruct (os_Remove p s1) as [s2 err2] eqn:E2. pose proof (stores_remove (Some (path h, rd_bytes rd)) _ _ _ _ E2) as H2.
  assert (H1 : stores (Some (path h, rd_bytes rd)) s s1) by by apply stores_refl.
  destruct (n <=? Extension); cbv beta iota; rewrite E1; [rewrite E2; intros [= <- <-]; split; [by eapply stores_trans|done]|].
  destruct err1 as [e|]; [rewrite E2; intros [= <- <-]; split; [by eapply stores_trans|done]|].
  destruct (os_Rename p (path h) s1) as [s3 err3] eqn:E3. destruct err3 as [e|].
  - destruct (os_Remove p s3) as [s4 err4] eqn:E4. pose proof (stores_remove (Some (path h, rd_bytes rd)) _ _ _ _ E4) as H4.
    intros HE. assert (s4 = s') as <- by (destruct (windows && is_permission e); by injection HE). split.
    + eapply stores_trans; [|exact H4]. eapply stores_trans; [exact H1|]. apply stores_refl. intros q. exact (rename_err _ _ _ _ _ q E3).
    + intros msg. destruct (windows && is_permission e); injection HE as <-; done.
  - intros [= <- <-]. split; [|done]. destruct (rename_ok _ _ _ _ E3 (Hp h Hh)) as (Hq & _ & Ho).
    intros h' x Hh' Hx. destruct (decide (path h' = path h)) as [E|E].
    + right. rewrite E, Hq, F1, Hd in Hx. by rewrite E; injection Hx as ->.
    + left. rewrite Ho, F1 in Hx; [done| |done]. intros E'. by apply (Hp h' Hh').
Qed.

Lemma cache_save_spec h rd s s' r : good_handle h -> CacheFile.Save (Some c) h (Some rd) s = (s', r) ->
  stores (Some (path h, rd_bytes rd)) s s' /\ forall msg, r ≠ Panic msg.
Proof using CL RG dir_plain dir_path.
  intros Hg. unfold CacheFile.Save. rewrite canBeCached_handle. case_bool_decide as Hc; cbn [negb];
    [|intros [= <- <-]; split; [by apply stores_refl|done]].
  assert (Hh : cached_handle h) by (split; auto). rewrite (filename_path h Hh).
  unfold io_bind at 1, io_res. unfold io_bind at 1, sys at 1. destruct (os_Mkdir (Dir (path h)) s) as [s1 err1] eqn:E1.
  assert (H1 : forall o, stores o s s1) by (intros o; apply stores_refl; intros q; exact (mkdir_files _ _ _ _ q E1)).
  unfold io_bind at 1.
  destruct (match err1 with Some e => if is_exist e then io_ret tt else io_err e | None => io_ret tt end s1)
    as [s1' r1] eqn:Er1. assert (s1' = s1 /\ (r1 = Ok tt \/ exists e, r1 = Err e)) as [-> Hr1].
  { destruct err1 as [e|]; [destruct (is_exist e)|]; injection Er1 as <- <-; split; eauto. }
  destruct Hr1 as [-> | [e ->]]; [|by intros [= <- <-]]. clear Er1.
  unfold io_bind at 1, try. destruct (os_TempFile (Dir (path h)) "tmp-" s1) as [s2 [p|e]] eqn:E2; cycle 1.
  { intros [= <- <-]. split; [|done]. eapply stores_trans; [apply H1|]. apply stores_refl. intros q.
    by apply (temp_frame _ _ _ _ _ q E2). }
  destruct (temp_ok _ _ _ _ _ E2) as (x & Hx & -> & Htmp). set (p := Join [Dir (path h); ("tmp-" ++ x)%string]) in *.
  assert (Hp : forall h', cached_handle h' -> p ≠ path h') by (intros h' Hh'; by apply tmp_path).
  assert (H2 : forall o, stores o s1 s2).
  { intros o h' d Hh' Hd. left. rewrite <- (temp_frame _ _ _ _ _ (path h') E2); [done|]. intros [= E]. by apply (Hp h' Hh'). }
  unfold io_bind at 1, sys at 1. destruct (os_Copy p rd s2) as [s3 [n err]] eqn:E3.
  assert (H3 : forall o, stores o s2 s3).
  { intros o h' d Hh' Hd. left. rewrite <- (copy_frame _ (path h') _ _ _ _ E3); [done|]. intros E. by apply (Hp h' Hh'). }
  destruct err as [e|].
  - unfold io_bind, sys. destruct (os_Close p s3) as [s4 err4] eqn:E4. destruct (os_Remove p s4) as [s5 err5] eqn:E5.
    intros [= <- <-]. split; [|done]. eapply stores_trans; [apply H1|]. eapply stores_trans; [apply H2|]. eapply stores_trans; [apply H3|].
    eapply stores_trans; [apply stores_refl; intros q; exact (close_files _ _ _ _ q E4)|]. by eapply stores_remove.
  - intros HE. eapply (Save_finish h p rd n) in HE as [H4 Hr]; [|done|done|by exists s2]. split; [|done].
    eapply stores_trans; [apply H1|]. eapply stores_trans; [apply H2|]. by eapply stores_trans; [apply H3|].
Qed.
End files.

(** ** The cached backend answers like the backend *)

Definition err_of {A} (r : res error A) : option error := match r with Err e => Some e | _ => None end.

Section cached.
Context {S F : Type} {CF : Disk F} (files : F -> string -> option (list byte)) {CL : DiskLaws files}.
Context (c : Cache) (dir : list string) (dir_plain : Forall plain dir) (dir_path : c_path c = render dir).
Context {RG : Regular files (cache_path c)} {RD : Readable (cache_path c)}.
Context (b : Backend S) (norm : Handle -> Handle) (contents : S -> Handle -> option (list byte)).
Context {SL : StoreLaws b norm contents} {FL : FileLaws b norm contents} {QL : QuietLaws b norm contents}.
Context (wait : Handle -> F * gset Handle -> F * gset Handle).
#[local] Abbreviation path := (path c).
#[local] Abbreviation stores := (stores files c).

(** Every file of the cache is in the backend, with the same content. *)
Definition agree (s : S) (f : F) : Prop :=
  forall h x, cached_handle h -> files f (path h) = Some x -> contents s (norm h) = Some x.
(** The downloads of others keep it so. *)
Context (wait_agree : forall h s f p, agree s f -> agree s (wait h (f, p)).1).

Lemma agree_stores s f f' : agree s f -> stores None f f' -> agree s f'.
Proof. intros H Hs h x Hh Hx. destruct (Hs h x Hh Hx) as [Hx'|Hx']; [by apply H|done]. Qed.
Lemma agree_grow s s' f : agree s f -> (forall h x, contents s (norm h) = Some x -> contents s' (norm h) = Some x) -> agree s' f.
Proof. intros H Hg h x Hh Hx. by apply Hg, H. Qed.
Lemma agree_saved s f f' h d : cached_handle h -> contents s (norm h) = Some d -> agree s f ->
  stores (Some (path h, d)) f f' -> agree s f'.
Proof using FL dir_plain dir_path.
  intros Hh Hd H Hs h' x Hh' Hx. destruct (Hs h' x Hh' Hx) as [Hx'|[= E ->]]; [by apply H|].
  destruct (cache_path_inj c dir dir_plain dir_path h h' Hh Hh' E) as [Et En].
  rewrite <- Hd. f_equal. symmetry. apply norm_eq. auto.
Qed.
Lemma cached_valid h : cached_handle h -> Handle_Valid h = None.
Proof.
  intros [Hn Hl]. destruct (named_plain h Hn) as [(H1 & _) _]. unfold Handle_Valid.
  rewrite (bool_decide_eq_false_2 (h_Name h = ""%string)) by done. unfold cacheLayoutPaths in Hl.
  assert (Ht : h_Type h = PackFile \/ h_Type h = SnapshotFile \/ h_Type h = IndexFile).
  { repeat case_bool_decide; auto. by destruct Hl. }
  by destruct Ht as [-> | [-> | ->]].
Qed.

(** The answer of the cached backend is that of the backend, and the cache
    stays right. *)
Definition answers {U} (x : CState S F * U * res error unit) (y : S * U * option error) : Prop :=
  y = (cs_be x.1.1, x.1.2, err_of x.2) /\ (forall msg, x.2 ≠ Panic msg) /\ agree (cs_be x.1.1) (cs_fs x.1.1).

Lemma load_state U h length_ offset (fn : callback Reader U) u s s' u' r :
  be_Load b false h length_ offset fn u s = (s', u', r) -> s' = s.
Proof using QL. destruct (load_once U h length_ offset fn u s) as [[e ->]|(file & _ & ->)]; by intros [= <- _ _]. Qed.

Lemma delegate_spec U h length_ offset (fn : callback Reader U) u st : agree (cs_be st) (cs_fs st) ->
  answers (Cached.delegate b h length_ offset fn u st) (be_Load b false h length_ offset fn u (cs_be st)).
Proof using QL.
  intros Ha. unfold Cached.delegate. destruct (be_Load b false h length_ offset fn u (cs_be st)) as [[s u'] err] eqn:E.
  apply load_state in E as ->. unfold answers. cbn [fst snd cs_be cs_fs]. by destruct err.
Qed.

Lemma from_cache h length_ offset st st1 r : good_handle h -> 0 <= length_ -> 0 <= offset -> offset + length_ < 2 ^ 63 ->
  agree (cs_be st) (cs_fs st) -> Cached.on_fs (CacheFile.load (Some c) h length_ offset) st = (st1, r) ->
  cs_be st1 = cs_be st /\ agree (cs_be st1) (cs_fs st1) /\ match r with
    | Panic _ => False
    | Err _ => True
    | Ok rd => forall U (fn : callback Reader U) u,
        answers (Cached.consume fn rd u st1) (be_Load b false h length_ offset fn u (cs_be st1))
    end.
Proof using CL RG RD FL.
  intros Hg Hl Ho Hb Ha. unfold Cached.on_fs. destruct (CacheFile.load (Some c) h length_ offset (cs_fs st)) as [f rr] eqn:E.
  apply (load_spec files c) in E as [Hs Hr]; [|done..]. intros [= <- <-]. cbn [cs_be cs_fs].
  assert (Ha' : agree (cs_be st) f) by by eapply agree_stores. split; [done|]. split; [done|].
  destruct rr as [rd|e|msg]; [|done|done]. destruct Hr as (Hh & d & Hd & Hle & ->). intros U fn u.
  rewrite (load_file _ _ _ _ _ _ _ d (cached_valid h Hh) (Ha h d Hh Hd)) by lia. unfold Cached.consume.
  destruct (fn _ u) as [u' [e|]]; by unfold answers.
Qed.

Lemma has_spec h st st1 r : good_handle h -> agree (cs_be st) (cs_fs st) ->
  Cached.on_fs (CacheFile.Has (Some c) h) st = (st1, r) ->
  cs_be st1 = cs_be st /\ agree (cs_be st1) (cs_fs st1) /\ exists has, r = Ok has.
Proof using CL RG.
  intros Hg Ha. unfold Cached.on_fs. destruct (CacheFile.Has (Some c) h (cs_fs st)) as [f rr] eqn:E.
  apply (cache_has_spec files c) in E as (Hf & has & -> & _); [|done..]. intros [= <- <-]. cbn [cs_be cs_fs].
  split; [done|]. split; [eapply agree_stores; [done|by apply stores_refl]|by exists has].
Qed.

Lemma cleanup_spec h st st1 r : good_handle h -> agree (cs_be st) (cs_fs st) ->
  Cached.on_fs (ignore (CacheFile.remove (Some c) h)) st = (st1, r) ->
  cs_be st1 = cs_be st /\ agree (cs_be st1) (cs_fs st1) /\ r = Ok tt.
Proof using CL RG.
  intros Hg Ha. unfold Cached.on_fs. destruct (ignore (CacheFile.remove (Some c) h) (cs_fs st)) as [f rr] eqn:E.
  apply (ignore_remove_spec files c) in E as (Hf & ->); [|done..]. intros [= <- <-]. cbn [cs_be cs_fs].
  split; [done|]. split; [by eapply agree_stores|done].
Qed.

Lemma wait_spec h st : agree (cs_be st) (cs_fs st) ->
  cs_be (Cached.wait_for wait h st) = cs_be st /\ agree (cs_be st) (cs_fs (Cached.wait_for wait h st)).
Proof using wait_agree.
  intros Ha. unfold Cached.wait_for. pose proof (wait_agree h (cs_be st) (cs_fs st) (cs_inProgress st) Ha) as Hw.
  by destruct (wait h (cs_fs st, cs_inProgress st)) as [f p].
Qed.

Lemma file_range_all file : file_range 0 0 file = file.
Proof. unfold file_range. cbn [Z.ltb Z.compare Z.to_nat]. by rewrite drop_0. Qed.

Lemma download_spec h st st1 r : cached_handle h -> agree (cs_be st) (cs_fs st) -> Cached.download b (Some c) h st = (st1, r) ->
  cs_be st1 = cs_be st /\ agree (cs_be st1) (cs_fs st1) /\ r = Ok tt.
Proof using CL RG FL QL dir_plain dir_path.
  intros Hh Ha. assert (Hg : good_handle h) by (intros _; by destruct Hh). unfold Cached.download.
  assert (Hl : exists f rr err, be_Load b false h 0 0 (Cached.store_callback (Some c) h) (cs_fs st, Ok tt) (cs_be st)
      = (cs_be st, (f, rr), err) /\ agree (cs_be st) f /\ forall msg, rr ≠ Panic msg).
  { destruct (load_once _ h 0 0 (Cached.store_callback (Some c) h) (cs_fs st, Ok tt) (cs_be st)) as [[e ->]|(file & Hf & ->)]; [by eauto 6|].
    unfold Cached.store_callback. cbn [fst snd]. rewrite file_range_all.
    destruct (CacheFile.Save (Some c) h (Some (mkReader file None None)) (cs_fs st)) as [f rr] eqn:E.
    apply (cache_save_spec files c dir dir_plain dir_path) in E as [Hs Hr]; [|done]. cbn [fst snd]. exists f, rr. eexists. split; [done|].
    split; [|done]. by eapply agree_saved. }
  destruct Hl as (f & rr & err & -> & Ha' & Hp). destruct rr as [[]|e|msg]; [| |by destruct (Hp msg)];
    (destruct err as [e'|]; [intros HE; by apply cleanup_spec in HE|by intros [= <- <-]]).
Qed.

Lemma cacheFile_spec h st st1 r : cached_handle h -> agree (cs_be st) (cs_fs st) ->
  Cached.cacheFile b (Some c) wait h st = (st1, r) ->
  cs_be st1 = cs_be st /\ agree (cs_be st1) (cs_fs st1) /\ r = Ok tt.
Proof using All.
  intros Hh Ha. assert (Hg : good_handle h) by (intros _; by destruct Hh). unfold Cached.cacheFile. case_bool_decide.
  - intros [= <- <-]. destruct (wait_spec h st Ha) as [E Hw]. by rewrite E.
  - set (st0 := mkCState (cs_be st) (cs_fs st) ({[h]} ∪ cs_inProgress st)).
    destruct (Cached.on_fs (CacheFile.Has (Some c) h) st0) as [st2 r2] eqn:E. apply has_spec in E as (E1 & Ha1 & has & ->); [|done..].
    destruct has.
    + intros [= <- <-]. done.
    + destruct (Cached.download b (Some c) h st2) as [st3 r3] eqn:E3. apply download_spec in E3 as (E4 & Ha4 & ->); [|done..].
      intros [= <- <-]. cbn [cs_be cs_fs]. by rewrite E4 in *.
Qed.

Lemma auto_cached h : autoCacheTypes h = true -> is_Some (cacheLayoutPaths (h_Type h)).
Proof.
  unfold autoCacheTypes, cacheLayoutPaths. intros Ha. repeat case_bool_decide; try done.
  match goal with Hin : _ ∈ [_; _] |- _ => apply elem_of_cons in Hin as [?|?%list_elem_of_singleton]; done end.
Qed.

Lemma load_uncached_spec U h length_ offset (fn : callback Reader U) u st :
  good_handle h -> 0 <= length_ -> 0 <= offset -> offset + length_ < 2 ^ 63 -> agree (cs_be st) (cs_fs st) ->
  answers (Cached.load_uncached b (Some c) wait h length_ offset fn u st) (be_Load b false h length_ offset fn u (cs_be st)).
Proof using All.
  intros Hg Hl Ho Hb Ha. unfold Cached.load_uncached. destruct (autoCacheTypes h) eqn:Hauto; cbn [negb]; [|by apply delegate_spec].
  destruct (Cached.cacheFile b (Some c) wait h st) as [st1 r1] eqn:E1.
  apply cacheFile_spec in E1 as (E2 & Ha1 & ->); [|split; [by apply Hg, auto_cached|by apply auto_cached]|done]. rewrite <- E2.
  unfold Cached.loadFromCacheOrDelegate. destruct (Cached.on_fs (CacheFile.load (Some c) h length_ offset) st1) as [st2 r2] eqn:E3.
  apply from_cache in E3 as (E4 & Ha2 & Hr); [|done..]. rewrite <- E4. destruct r2 as [rd|e|msg]; [done|by apply delegate_spec|done].
Qed.

Lemma Load_answers U h length_ offset (fn : callback Reader U) u st :
  good_handle h -> 0 <= length_ -> 0 <= offset -> offset + length_ < 2 ^ 63 -> agree (cs_be st) (cs_fs st) ->
  answers (Cached.Load b (Some c) wait h length_ offset fn u st) (be_Load b false h length_ offset fn u (cs_be st)).
Proof using All.
  intros Hg Hl Ho Hb Ha. unfold Cached.Load.
  set (st0 := if bool_decide (h ∈ cs_inProgress st) then Cached.wait_for wait h st else st).
  assert (H0 : cs_be st0 = cs_be st /\ agree (cs_be st0) (cs_fs st0)).
  { unfold st0. case_bool_decide; [|done]. destruct (wait_spec h st Ha) as [E Hw]. by rewrite E. }
  destruct H0 as [E0 Ha0]. rewrite <- E0. destruct (Cached.on_fs (CacheFile.Has (Some c) h) st0) as [st1 r1] eqn:E1.
  apply has_spec in E1 as (E2 & Ha1 & has & ->); [|done..]. rewrite <- E2. destruct has; [|by apply load_uncached_spec].
  destruct (Cached.on_fs (CacheFile.load (Some c) h length_ offset) st1) as [st2 r2] eqn:E3.
  apply from_cache in E3 as (E4 & Ha2 & Hr); [|done..]. rewrite <- E4. destruct r2 as [rd|e|msg]; [done|by apply load_uncached_spec|done].
Qed.

(** Saving: a file with a position at its start. *)
Lemma save_grow h rd s s' rd' r : be_Save b false h rd s = (s', rd', r) ->
  forall h' x, contents s (norm h') = Some x -> contents s' (norm h') = Some x.
Proof using SL FL.
  intros E h' x Hx. destruct (decide (norm h' = norm h)) as [En|En].
  - rewrite En in *. by eapply save_keeps.
  - rewrite <- Hx. by eapply store_frame.
Qed.
Lemma Save_answers h rd st : good_handle h -> rr_pos rd = 0%nat -> agree (cs_be st) (cs_fs st) ->
  let x := Cached.Save b (Some c) false h rd st in
  let y := be_Save b false h rd (cs_be st) in
  cs_be x.1 = y.1.1 /\ err_of x.2 = y.2 /\ (forall msg, x.2 ≠ Panic msg) /\ agree (cs_be x.1) (cs_fs x.1).
Proof using CL RG SL FL dir_plain dir_path.
  intros Hg Hpos Ha. cbv zeta. unfold Cached.Save. assert (Hrw : Rewind rd = rd) by (destruct rd; cbn in *; by subst).
  rewrite Hrw. destruct (be_Save b false h rd (cs_be st)) as [[s rd'] err] eqn:E. cbn [fst snd].
  assert (Ha' : agree s (cs_fs st)) by (eapply agree_grow; [done|by eapply save_grow]).
  destruct (autoCacheTypes h) eqn:Hauto; cbn [negb]; [|destruct err; by cbn].
  destruct err as [e|]; [by cbn|]. assert (Hh : cached_handle h) by (pose proof (auto_cached h Hauto); split; auto).
  pose proof (store_contents _ _ _ _ _ _ E) as Hc. pose proof (store_reader _ _ _ _ _ _ _ E) as Hd.
  destruct (CacheFile.Save (Some c) h (Some (mkReader (read_all (Rewind rd')).1 None None)) (cs_fs st)) as [f rr] eqn:E2.
  assert (Hon : Cached.on_fs (CacheFile.Save (Some c) h (Some (mkReader (read_all (Rewind rd')).1 None None)))
      (mkCState s (cs_fs st) (cs_inProgress st)) = (mkCState s f (cs_inProgress st), rr)).
  { unfold Cached.on_fs. cbn [cs_fs]. by rewrite E2. }
  rewrite Hon. clear Hon.
  apply (cache_save_spec files c dir dir_plain dir_path) in E2 as [Hs Hr]; [|done].
  assert (Ha2 : agree s f).
  { eapply (agree_saved s (cs_fs st) f h (rr_data rd)); [done|by rewrite Hc, Hpos, drop_0|done|].
    unfold read_all in Hs. cbn [fst rd_bytes Rewind rr_pos rr_data] in Hs. by rewrite Hd, drop_0 in Hs. }
  destruct rr as [[]|e|msg]; [by cbn| |by destruct (Hr msg)].
  destruct (Cached.on_fs (ignore (CacheFile.remove (Some c) h)) (mkCState s f (cs_inProgress st))) as [st3 r3] eqn:E3.
  apply cleanup_spec in E3 as (E4 & Ha3 & ->); [|done..]. cbn [cs_be] in E4. cbn [fst snd]. by rewrite E4 in *.
Qed.

Lemma Remove_answers h st : Reliable files (cache_path c) -> good_handle h -> agree (cs_be st) (cs_fs st) ->
  let x := Cached.Remove b (Some c) false h st in
  let y := be_Remove b false h (cs_be st) in
  cs_be x.1 = y.1 /\ err_of x.2 = y.2 /\ (forall msg, x.2 ≠ Panic msg) /\ agree (cs_be x.1) (cs_fs x.1).
Proof using CL RG SL FL QL.
  intros HR Hg Ha. cbv zeta. unfold Cached.Remove. destruct (be_Remove b false h (cs_be st)) as [s err] eqn:E. cbn [fst snd].
  destruct err as [e|].
  - cbn. split_and!; try done. intros h' x Hh' Hx. rewrite (remove_kept _ _ _ _ h' E). by apply Ha.
  - unfold Cached.on_fs. cbn [cs_fs cs_be cs_inProgress]. destruct (CacheFile.remove (Some c) h (cs_fs st)) as [f rr] eqn:E2.
    apply (remove_spec files c) in E2 as (Hs & _ & Hr); [|done]. destruct (Hr HR) as [-> Hgone]. cbn. split_and!; try done.
    intros h' x Hh' Hx. destruct (Hs h' x Hh' Hx) as [Hx'|Hx']; [|done]. destruct (decide (norm h' = norm h)) as [En|En].
    + exfalso. apply norm_eq in En as [Et En]. destruct En as [En|En].
      { destruct Hh' as [_ [l Hl]]. rewrite En in Hl. unfold cacheLayoutPaths in Hl. cbn in Hl. done. }
      assert (Ep : path h' = path h) by (unfold Cache.path, layout, subdir_of; by rewrite Et, En).
      rewrite Ep, Hgone in Hx; [done|]. destruct Hh' as [_ Hl]. rewrite Et in Hl. split; auto.
    + rewrite (remove_frame _ _ _ _ _ _ E En). by apply Ha.
Qed.

Lemma Stat_answers h st : good_handle h -> agree (cs_be st) (cs_fs st) ->
  let x := Cached.Stat b (Some c) false h st in
  let y := be_Stat b false h (cs_be st) in
  cs_be x.1 = y.1 /\ x.2 = Ok y.2 /\ agree (cs_be x.1) (cs_fs x.1).
Proof using CL RG QL.
  intros Hg Ha. cbv zeta. unfold Cached.Stat. destruct (be_Stat b false h (cs_be st)) as [s [fi err]] eqn:E. cbn [fst snd].
  assert (Ha' : agree s (cs_fs st)).
  { eapply agree_grow; [done|]. intros h' x Hx. by rewrite (stat_frame _ _ _ _ h' E). }
  destruct err as [e|]; [|by cbn]. destruct (be_IsNotExist b e); [|by cbn].
  destruct (Cached.on_fs (ignore (CacheFile.remove (Some c) h)) (mkCState s (cs_fs st) (cs_inProgress st))) as [st3 r3] eqn:E3.
  apply cleanup_spec in E3 as (E4 & Ha3 & ->); [|done..]. cbn [cs_be] in E4. cbn [fst snd]. by rewrite E4 in *.
Qed.
End cached.

(** *** Clients of the cached backend *)

(** The same program with the cached backend; [Test] and [List] are those of
    the embedded backend. *)
Fixpoint run_cached {S F A} `{Disk F} (b : Backend S) (c : option Cache) (wait : Handle -> F * gset Handle -> F * gset Handle)
  (p : prog A) (st : CState S F) : CState S F * res error A :=
  match p with
  | Done a => (st, Ok a)
  | DoSave h rd k =>
      match Cached.Save b c false h rd st with
      | (st, Panic msg) => (st, Panic msg)
      | (st, r) => run_cached b c wait (k (err_of r)) st
      end
  | DoRemove h k =>
      match Cached.Remove b c false h st with
      | (st, Panic msg) => (st, Panic msg)
      | (st, r) => run_cached b c wait (k (err_of r)) st
      end
  | DoLoad h length_ offset fn u k =>
      match Cached.Load b c wait h length_ offset fn u st with
      | (st, _, Panic msg) => (st, Panic msg)
      | (st, u, r) => run_cached b c wait (k u (err_of r)) st
      end
  | DoStat h k =>
      match Cached.Stat b c false h st with
      | (st, Ok r) => run_cached b c wait (k r) st
      | (st, Err e) => (st, Err e)
      | (st, Panic msg) => (st, Panic msg)
      end
  | DoTest h k =>
      let '(s, r) := be_Test b false h (cs_be st) in
      run_cached b c wait (k r) (mkCState s (cs_fs st) (cs_inProgress st))
  | DoList t fn u k =>
      let '(s, u, err) := be_List b false t fn u (cs_be st) in
      run_cached b c wait (k u err) (mkCState s (cs_fs st) (cs_inProgress st))
  end.

Section clients.
Context {S F : Type} {CF : Disk F} (files : F -> string -> option (list byte)) {CL : DiskLaws files}.
Context (c : Cache) (dir : list string) (dir_plain : Forall plain dir) (dir_path : c_path c = render dir).
Context {RG : Regular files (cache_path c)} {RD : Readable (cache_path c)}.
Context (b : Backend S) (norm : Handle -> Handle) (contents : S -> Handle -> option (list byte)).
Context (names : S -> string -> list Backend.FileInfo).
Context {SL : StoreLaws b norm contents} {FL : FileLaws b norm contents} {QL : QuietLaws b norm contents}.
Context {DL : DirLaws b norm contents names}.
Context (wait : Handle -> F * gset Handle -> F * gset Handle).
Context (wait_agree : forall h s f p, agree files c norm contents s f -> agree files c norm contents s (wait h (f, p)).1).

(** Files of the cached types are named after identifiers, readers are at
    their start, and ranges are those of a file; a program that removes files
    runs on a disk that works. *)
Fixpoint prog_ok {A} (p : prog A) : Prop :=
  match p with
  | Done _ => True
  | DoSave h rd k => good_handle h /\ rr_pos rd = 0%nat /\ forall r, prog_ok (k r)
  | DoRemove h k => Reliable files (cache_path c) /\ good_handle h /\ forall r, prog_ok (k r)
  | DoLoad h length_ offset fn u k =>
      good_handle h /\ 0 <= length_ /\ 0 <= offset /\ offset + length_ < 2 ^ 63 /\ forall u r, prog_ok (k u r)
  | DoStat h k => good_handle h /\ forall r, prog_ok (k r)
  | DoTest h k => forall r, prog_ok (k r)
  | DoList t fn u k => forall u r, prog_ok (k u r)
  end.

End clients.

(** ** A concrete run *)

Definition toy_cache : Cache := mkCache "/cache/repo" "/cache" false.
Definition toy_cached : Handle := mkBeHandle SnapshotFile InvalidBlob (ID_String nullID).
Definition toy_content : list byte := replicate 20 Byte.x61 ++ replicate 20 Byte.x62.
Definition toy_prog : prog (list byte * option error * option error) :=
  DoSave toy_cached (NewByteReader (Some toy_md5) toy_content) (fun _ =>
  DoLoad toy_cached 8 16 (fun rd _ => (rd_bytes rd, rd_err rd)) [] (fun u err =>
  DoRemove toy_cached (fun err' => Done (u, err, err')))).
Definition toy_state : CState Mem.memMap (gmap string (list byte)) := mkCState ∅ ∅ ∅.

Lemma toy_dir_plain : Forall plain ["cache"; "repo"]%string.
Proof. apply (bool_decide_eq_true_1 _). vm_compute. reflexivity. Qed.
Lemma toy_prog_ok : prog_ok toy_files toy_cache toy_prog.
Proof.
  assert (Hg : good_handle toy_cached) by (intros _; by exists nullID).
  cbn [prog_ok toy_prog]. split; [done|]. split; [done|]. intros _. split; [done|]. split; [lia|]. split; [lia|]. split; [lia|].
  intros u r. split; [apply _|]. by split.
Qed.
Lemma toy_result : (run (Mem.backend toy_md5 map_to_list) toy_prog ∅).2 = (replicate 4 Byte.x61 ++ replicate 4 Byte.x62, None, None).
Proof. vm_compute. reflexivity. Qed.


(** [Remove] returns the error of the cache when the file is gone from the
    backend. *)
Lemma Remove_disk_error {S F} {CF : Disk F} (b : Backend S) c h (st : CState S F) s f e : be_Remove b false h (cs_be st) = (s, None) ->
  CacheFile.remove (Some c) h (cs_fs st) = (f, Err e) -> Cached.Remove b (Some c) false h st = (mkCState s f (cs_inProgress st), Err e).
Proof. intros E1 E2. unfold Cached.Remove. rewrite E1. unfold Cached.on_fs. cbn [cs_fs cs_be cs_inProgress]. by rewrite E2. Qed.

(** ** Clearing the cache *)

Section clear.
Context {F : Type} {CF : Disk F} (files : F -> string -> option (list byte)) {CL : DiskLaws files}.
Context (c : Cache) (dir : list string) (dir_plain : Forall plain dir) (dir_path : c_path c = render dir).
(** [Walk] shows every file below the directory, or an error. *)
Context (walk_files : forall d s s' events q, fp_Walk d s = (s', events) -> files s' q = files s q).
Context (walk_complete : forall d s s' events q, fp_Walk d s = (s', events) -> (forall p e, (p, inr e) ∉ events) ->
  HasPathPrefix d q = true -> is_Some (files s q) -> exists fi, (q, inl fi) ∈ events /\ CacheFile.isFile fi = true).

Lemma list_events_spec events l l' : CacheFile.list_events events l = (l', None) ->
  (forall p e, (p, inr e) ∉ events)
  /\ forall id, id ∈ l' <-> id ∈ l \/ exists p fi, (p, inl fi) ∈ events /\ CacheFile.isFile fi = true /\ ParseID (Base p) = Ok id.
Proof.
  revert l. induction events as [|[p [fi|e]] events IH]; intros l; cbn [CacheFile.list_events].
  - intros [= <-]. split; [intros p e; apply not_elem_of_nil|]. intros id. split; [auto|]. by intros [?|(? & ? & []%not_elem_of_nil & _)].
  - intros HE. assert (HE' : exists l1, CacheFile.list_events events l1 = (l', None)
        /\ forall id, id ∈ l1 <-> id ∈ l \/ (CacheFile.isFile fi = true /\ ParseID (Base p) = Ok id)).
    { destruct (CacheFile.isFile fi); cbn [negb] in HE; [|exists l; split; [done|naive_solver]].
      destruct (ParseID (Base p)) as [i|e|m]; (eexists; split; [exact HE|]); intros id; unfold IDSet_Insert;
        rewrite ?elem_of_union, ?elem_of_singleton; naive_solver. }
    destruct HE' as (l1 & HE' & Hl1). destruct (IH l1 HE') as [Hno Hin]. split.
    + intros q e [[=]|Hq]%elem_of_cons. by apply Hno in Hq.
    + intros id. rewrite Hin, Hl1. setoid_rewrite elem_of_cons. naive_solver.
  - done.
Qed.

(** The cache file of an identifier. *)
Definition id_path (t : string) (id : ID) : string := path c (mkBeHandle t InvalidBlob (ID_String id)).
Lemma id_handle t id : wf_ID id -> is_Some (cacheLayoutPaths t) -> cached_handle (mkBeHandle t InvalidBlob (ID_String id)).
Proof. intros Hid Ht. split; [by exists id|done]. Qed.
Lemma id_path_inj t t' id id' : wf_ID id -> wf_ID id' -> is_Some (cacheLayoutPaths t) -> is_Some (cacheLayoutPaths t') ->
  id_path t id = id_path t' id' -> t = t' /\ id = id'.
Proof using dir_plain dir_path.
  intros Hid Hid' Ht Ht' E. apply (cache_path_inj c dir dir_plain dir_path) in E as [E1 E2]; [|by apply id_handle..].
  cbn in E1, E2. split; [done|]. apply ParseID_String in Hid, Hid'. congruence.
Qed.

Lemma clear_loop_spec t valid ids s s' : is_Some (cacheLayoutPaths t) -> Forall wf_ID ids ->
  CacheFile.clear_loop (Some c) t valid ids s = (s', Ok tt) ->
  forall t' id, wf_ID id -> is_Some (cacheLayoutPaths t') -> files s' (id_path t' id)
  = if bool_decide (t' = t /\ id ∈ ids /\ id ∉ valid) then None else files s (id_path t' id).
Proof using CL dir_plain dir_path.
  intros Ht Hids. revert s. induction Hids as [|i ids Hi Hids IH]; intros s; cbn [CacheFile.clear_loop].
  - intros [= <-] t' id _ _. rewrite bool_decide_eq_false_2; [done|]. by intros (_ & []%not_elem_of_nil & _).
  - unfold IDSet_Has. case_bool_decide as Hv.
    + intros HE t' id Hid Ht'. rewrite (IH s HE t' id Hid Ht').
      erewrite bool_decide_ext; [reflexivity|]. rewrite elem_of_cons. naive_solver.
    + unfold io_bind, io_res, Disk.check. rewrite (filename_path c) by by apply id_handle. fold (id_path t i).
      destruct (os_Remove (id_path t i) s) as [s1 [e|]] eqn:E; [done|]. intros HE t' id Hid Ht'. rewrite (IH s1 HE t' id Hid Ht').
      destruct (decide (id_path t' id = id_path t i)) as [Ep|Ep].
      * rewrite Ep, (remove_ok _ _ _ E). apply id_path_inj in Ep as [-> ->]; [|done..].
        rewrite (bool_decide_eq_true_2 (t = t /\ i ∈ i :: ids /\ i ∉ valid)) by (split_and!; [done|left|done]). by case_bool_decide.
      * rewrite (remove_frame_ _ _ _ _ _ E Ep). assert (Hne : ~ (t' = t /\ id = i)) by (intros [-> ->]; done).
        erewrite bool_decide_ext; [reflexivity|]. rewrite elem_of_cons. naive_solver.
Qed.

Lemma id_path_below t id : wf_ID id -> is_Some (cacheLayoutPaths t) ->
  HasPathPrefix (Join [c_path c; default ""%string (cacheLayoutPaths t)]) (id_path t id) = true /\ Base (id_path t id) = ID_String id.
Proof using dir_plain dir_path.
  intros Hid Ht. destruct (path_dir c dir dir_plain dir_path _ (id_handle t id Hid Ht)) as (H1 & H2 & E). unfold id_path. rewrite E.
  cbn [h_Name] in *. rewrite Base_render, last_snoc by by apply plain_app. split; [|done].
  pose proof (layout_plain (mkBeHandle t InvalidBlob (ID_String id)) Ht) as Hl.
  unfold layout in *. cbn [h_Type] in *. rewrite dir_path, Join_plain by done.
  rewrite HasPathPrefix_abs by by apply plain_app. apply bool_decide_eq_true_2. rewrite <- app_assoc.
  change [?a; ?b] with ([a] ++ [b]). eexists. rewrite <- !app_assoc. reflexivity.
Qed.

(** [Clear] keeps the files of the type that are valid and removes all others
    of the type, and leaves the other types alone. *)
Lemma Clear_spec range t valid s s' : (forall l : IDSet, range l ≡ₚ elements l) -> is_Some (cacheLayoutPaths t) ->
  CacheFile.Clear range (Some c) t valid s = (s', Ok tt) ->
  forall t' id, wf_ID id -> is_Some (cacheLayoutPaths t') -> files s' (id_path t' id)
  = if bool_decide (t' = t /\ id ∉ valid) then None else files s (id_path t' id).
Proof using All.
  intros Hrange Ht. unfold CacheFile.Clear, CacheFile.list_files.
  assert (Hcan : CacheFile.canBeCached (Some c) t = true) by (destruct Ht as [l Hl]; unfold CacheFile.canBeCached; by rewrite Hl).
  rewrite Hcan. cbn [negb]. unfold io_bind, sys. destruct (fp_Walk _ s) as [s1 events] eqn:EW.
  destruct (CacheFile.list_events events ∅) as [l [e|]] eqn:EL; [done|]. unfold io_ret.
  apply list_events_spec in EL as [Hno Hin]. intros HE t' id Hid Ht'.
  assert (Hwf : Forall wf_ID (range l)).
  { apply Forall_forall. intros i. rewrite Hrange, elem_of_elements, Hin. intros [[]%not_elem_of_empty|(p & fi & _ & _ & HP)].
    by eapply ParseID_wf. }
  rewrite (clear_loop_spec t valid _ s1 s' Ht Hwf HE t' id Hid Ht'), (walk_files _ _ _ _ _ EW).
  destruct (decide (t' = t)) as [->|Hne]; [|rewrite !bool_decide_eq_false_2; naive_solver].
  destruct (decide (id ∈ valid)) as [Hv|Hv]; [rewrite !bool_decide_eq_false_2; naive_solver|].
  rewrite (bool_decide_eq_true_2 (t = t /\ id ∉ valid)) by done. case_bool_decide as Hc; [done|].
  destruct (files s (id_path t id)) eqn:Ef; [|done]. exfalso. apply Hc. split; [done|]. split; [|done].
  rewrite Hrange, elem_of_elements, Hin. right. destruct (id_path_below t id Hid Ht) as [Hb Hbase].
  destruct (walk_complete _ _ _ _ (id_path t id) EW Hno Hb) as (fi & Hfi & Hf); [by eexists|].
  exists (id_path t id), fi. split; [done|]. split; [done|]. rewrite Hbase. by apply ParseID_String.
Qed.

(** Clearing only removes files of the cache, whatever fails. *)
Definition shrinks (s s' : F) : Prop := forall h x, cached_handle h -> files s' (path c h) = Some x -> files s (path c h) = Some x.
Lemma shrinks_trans s1 s2 s3 : shrinks s1 s2 -> shrinks s2 s3 -> shrinks s1 s3.
Proof. intros H1 H2 h x Hh Hx. by apply H1, H2. Qed.
Lemma clear_loop_shrinks t valid ids s s' r : is_Some (cacheLayoutPaths t) -> Forall wf_ID ids ->
  CacheFile.clear_loop (Some c) t valid ids s = (s', r) -> shrinks s s' /\ forall msg, r ≠ Panic msg.
Proof using CL dir_plain dir_path.
  intros Ht Hids. revert s. induction Hids as [|i ids Hi Hids IH]; intros s; cbn [CacheFile.clear_loop]; [intros [= <- <-]; by split; [intros h x|]|].
  destruct (IDSet_Has valid i); [apply IH|]. unfold io_bind, io_res, Disk.check. rewrite (filename_path c) by by apply id_handle.
  fold (id_path t i). destruct (os_Remove (id_path t i) s) as [s1 err] eqn:E.
  assert (Hs : shrinks s s1).
  { intros h x Hh. destruct (decide (path c h = id_path t i)) as [->|Hne]; [|by rewrite (remove_frame_ _ _ _ _ _ E Hne)].
    destruct err as [e|]; [by rewrite (remove_err _ _ _ _ E)|by rewrite (remove_ok _ _ _ E)]. }
  destruct err as [e|]; [by intros [= <- <-]|]. intros [Hs1 Hp]%IH. split; [by eapply shrinks_trans|done].
Qed.
Lemma Clear_shrinks range t valid s s' r : (forall l : IDSet, range l ≡ₚ elements l) -> is_Some (cacheLayoutPaths t) ->
  CacheFile.Clear range (Some c) t valid s = (s', r) -> shrinks s s' /\ forall msg, r ≠ Panic msg.
Proof using CL dir_plain dir_path walk_files.
  intros Hrange Ht. unfold CacheFile.Clear, CacheFile.list_files.
  assert (Hcan : CacheFile.canBeCached (Some c) t = true) by (destruct Ht as [l Hl]; unfold CacheFile.canBeCached; by rewrite Hl).
  rewrite Hcan. cbn [negb]. unfold io_bind, sys. destruct (fp_Walk _ s) as [s1 events] eqn:EW.
  assert (Hs : shrinks s s1) by (intros h x _; by rewrite (walk_files _ _ _ _ _ EW)).
  unfold io_err, io_ret. destruct (CacheFile.list_events events ∅) as [l [e|]] eqn:EL; [by intros [= <- <-]|].
  apply list_events_spec in EL as [Hno Hin]. intros [Hs1 Hp]%clear_loop_shrinks; [by split; [by eapply shrinks_trans|]|done|].
  apply Forall_forall. intros i. rewrite Hrange, elem_of_elements, Hin. intros [[]%not_elem_of_empty|(p & fi & _ & _ & HP)].
  by eapply ParseID_wf.
Qed.
(** [PrepareCache] never fails, and only removes files. *)
Lemma PrepareCache_shrinks range indexIDs packs s : (forall l : IDSet, range l ≡ₚ elements l) ->
  exists s', CacheFile.PrepareCache range (Some c) indexIDs packs s = (s', Ok tt) /\ shrinks s s'.
Proof using CL dir_plain dir_path walk_files.
  intros Hrange. unfold CacheFile.PrepareCache, io_bind.
  assert (Hi : forall t valid s, is_Some (cacheLayoutPaths t) ->
    exists s', ignore (CacheFile.Clear range (Some c) t valid) s = (s', Ok tt) /\ shrinks s s').
  { intros t valid s0 Ht. unfold ignore. destruct (CacheFile.Clear range (Some c) t valid s0) as [s1 r1] eqn:E1.
    apply Clear_shrinks in E1 as [S1 P1]; [|done..]. exists s1. by destruct r1 as [[]|e1|m1]; [| |destruct (P1 m1)]. }
  destruct (Hi IndexFile indexIDs s) as (s1 & -> & S1); [by eexists|]. destruct (Hi PackFile packs s1) as (s2 & -> & S2); [by eexists|].
  exists s2. split; [done|by eapply shrinks_trans].
Qed.
End clear.
