(* ===== verification/ArchTree.v ===== *)
(** * ArchTree: what a snapshot will look like

    src/internal/archiver/tree.go: the targets of a backup are put into a tree
    of directories, whose leaves are saved with everything below them.  The
    map of the nodes of a tree is a list with unique names; the order in
    which the code ranges over it only matters for which error is found
    first. *)

From S2P Require Import Prelude Ids Duration Snapshots Backend Trees Paths FileInfo.

(** ** The tree *)

Inductive ATree : Type := mkATree (nodes : list (string * ATree)) (path fileInfoPath root : string).
Definition at_Nodes (t : ATree) : list (string * ATree) := let 'mkATree n _ _ _ := t in n.
Definition at_Path (t : ATree) : string := let 'mkATree _ p _ _ := t in p.
Definition at_FileInfoPath (t : ATree) : string := let 'mkATree _ _ i _ := t in i.
Definition at_Root (t : ATree) : string := let 'mkATree _ _ _ r := t in r.
Definition set_Nodes (t : ATree) (n : list (string * ATree)) : ATree := mkATree n (at_Path t) (at_FileInfoPath t) (at_Root t).
Definition set_Path (t : ATree) (p : string) : ATree := mkATree (at_Nodes t) p (at_FileInfoPath t) (at_Root t).
Definition set_FileInfoPath (t : ATree) (i : string) : ATree := mkATree (at_Nodes t) (at_Path t) i (at_Root t).
Definition empty_tree (root : string) : ATree := mkATree [] "" "" root.

(** The map of the nodes. *)
Fixpoint map_get {A} (name : string) (l : list (string * A)) : option A :=
  match l with
  | [] => None
  | (n, x) :: l => if bool_decide (n = name) then Some x else map_get name l
  end.
Fixpoint map_set {A} (name : string) (x : A) (l : list (string * A)) : list (string * A) :=
  match l with
  | [] => [(name, x)]
  | (n, y) :: l => if bool_decide (n = name) then (name, x) :: l else (n, y) :: map_set name x l
  end.

Definition Leaf (t : ATree) : bool := bool_decide (at_Path t ≠ ""%string).
Definition sort_names (l : list string) : list string := merge_sort String.le l.
Definition NodeNames (t : ATree) : list string := sort_names (map fst (at_Nodes t)).

Inductive atree_error : Type :=
| NoComponents                     (** invalid path (no path components) *)
| InvalidPath (target : string)
| PathAlreadySet (target : string)
| Collision (path : string)
| AtSys (e : error).

(** ** Paths and their components *)

Section tree.
Context {F : Type} `{FS F}.

(** The components of [p] from the last on: every step shortens the path. *)
Fixpoint components_loop (fuel : nat) (p : string) : list string :=
  match fuel with
  | O => []
  | S fuel =>
      let dir := fs_Dir p in
      let file := fs_Base p in
      if bool_decide (p = dir) then [] else file :: components_loop fuel dir
  end.
Definition strip_colon (volume : string) : string :=
  match bytes_of volume with
  | [c; Byte.x3a] => string_of [c]
  | _ => volume
  end.
Definition pathComponents (p : string) (includeRelative : bool) : list string * bool :=
  let volume := fs_VolumeName p in
  let p := if negb (fs_IsAbs p) && negb includeRelative then fs_Join [fs_Separator; p] else p in
  let p := fs_Clean p in
  let components := reverse (components_loop (String.length p + 1) p) in
  if bool_decide (volume ≠ ""%string) then (strip_colon volume :: components, true) else (components, false).

Definition rootDirectory (target : string) : string :=
  if bool_decide (target = ""%string) then ""%string
  else if fs_IsAbs target then fs_Join [fs_VolumeName target; fs_Separator]
  else
    let target := fs_Clean target in
    let '(pc, _) := pathComponents target true in
    fold_left (fun rel c => if bool_decide (c = ".."%string) then fs_Join [rel; c] else rel) pc "."%string.

(** ** Adding a target *)

(** [add] below the first component. *)
Fixpoint add (t : ATree) (target root : string) (pc : list string) : res atree_error ATree :=
  match pc with
  | [] => Err (InvalidPath target)
  | [name] =>
      match map_get name (at_Nodes t) with
      | None => Ok (set_Nodes t (map_set name (mkATree [] target "" "") (at_Nodes t)))
      | Some tree =>
          if bool_decide (at_Path tree ≠ ""%string) then Err (PathAlreadySet target)
          else Ok (set_Nodes t (map_set name (set_Path tree target) (at_Nodes t)))
      end
  | name :: pc =>
      let tree := default (empty_tree "") (map_get name (at_Nodes t)) in
      let subroot := fs_Join [root; name] in
      tree ← add (set_FileInfoPath tree subroot) target subroot pc;
      Ok (set_Nodes t (map_set name tree (at_Nodes t)))
  end.

(** The first of [name], [name-1], [name-2], ... that is free or has the same
    root; the names are distinct, so one more than there are nodes is enough. *)
Definition numbered (origName : string) (i : nat) : string :=
  match i with O => origName | _ => (origName ++ "-" ++ string_of (format_int (Z.of_nat i)))%string end.
Fixpoint find_name (fuel i : nat) (nodes : list (string * ATree)) (origName root : string) : res atree_error (string * ATree) :=
  match fuel with
  | O => Panic "out of fuel"
  | S fuel =>
      let name := numbered origName i in
      match map_get name nodes with
      | None => Ok (name, empty_tree root)
      | Some other => if bool_decide (at_Root other = root) then Ok (name, other) else find_name fuel (S i) nodes origName root
      end
  end.

Definition Add (t : ATree) (path : string) : res atree_error ATree :=
  if bool_decide (path = ""%string) then Panic "invalid path (empty string)"
  else
    let '(pc, virtualPrefix) := pathComponents path false in
    match pc with
    | [] => Err NoComponents
    | origName :: rest =>
        let root := rootDirectory path in
        '(name, tree) ← find_name (length (at_Nodes t) + 1) 0 (at_Nodes t) origName root;
        tree ← match rest with
               | _ :: _ =>
                   let subroot := if virtualPrefix then root else fs_Join [root; origName] in
                   tree ← add tree path subroot rest; Ok (set_FileInfoPath tree subroot)
               | [] => Ok (set_Path tree path)
               end;
        Ok (set_Nodes t (map_set name tree (at_Nodes t)))
    end.

(** ** Unrolling *)

(** [readdirnames] (archiver.go). *)
Definition readdirnames (dir : string) (flags : Z) (f : F) : F * (list string + error) :=
  match fs_OpenFile dir (Z.lor O_RDONLY flags) f with
  | (f, inr e) => (f, inr (EWrap "Open" e))
  | (f, inl file) =>
      match file_Readdirnames file f with
      | (f, inr e) => let '(f, _) := file_Close file f in (f, inr (EWrap "Readdirnames failed" e))
      | (f, inl entries) =>
          match file_Close file f with
          | (f, Some e) => (f, inr e)
          | (f, None) => (f, inl entries)
          end
      end
  end.

(** The entries of a directory become nodes. *)
Fixpoint add_entries (dir : string) (entries : list string) (nodes : list (string * ATree)) : res atree_error (list (string * ATree)) :=
  match entries with
  | [] => Ok nodes
  | entry :: entries =>
      let p := fs_Join [dir; entry] in
      match map_get entry nodes with
      | Some node =>
          if bool_decide (at_Path node = ""%string) then add_entries dir entries (map_set entry (set_Path node p) nodes)
          else if bool_decide (at_Path node = p) then add_entries dir entries nodes
          else Err (Collision p)
      | None => add_entries dir entries (map_set entry (mkATree [] p "" "") nodes)
      end
  end.

Fixpoint unroll_nodes (unroll : ATree -> F -> F * res atree_error ATree) (nodes : list (string * ATree)) (f : F)
  : F * res atree_error (list (string * ATree)) :=
  match nodes with
  | [] => (f, Ok [])
  | (name, t) :: nodes =>
      match unroll t f with
      | (f, Ok t) =>
          match unroll_nodes unroll nodes f with
          | (f, Ok nodes) => (f, Ok ((name, t) :: nodes))
          | (f, r) => (f, r)
          end
      | (f, Err e) => (f, Err e)
      | (f, Panic m) => (f, Panic m)
      end
  end.
(** The fuel is the depth of the tree: entries that are added have no nodes. *)
Fixpoint unrollTree (fuel : nat) (t : ATree) (f : F) : F * res atree_error ATree :=
  match fuel with
  | O => (f, Panic "out of fuel")
  | S fuel =>
      let '(f, r) :=
        if Leaf t && bool_decide (at_Nodes t ≠ []) then
          match readdirnames (at_Path t) 0 f with
          | (f, inr e) => (f, Err (AtSys e))
          | (f, inl entries) =>
              (f, nodes ← add_entries (at_Path t) entries (at_Nodes t); Ok (set_Path (set_Nodes t nodes) ""))
          end
        else (f, Ok t) in
      match r with
      | Ok t =>
          match unroll_nodes (unrollTree fuel) (at_Nodes t) f with
          | (f, Ok nodes) => (f, Ok (set_Nodes t nodes))
          | (f, Err e) => (f, Err e)
          | (f, Panic m) => (f, Panic m)
          end
      | _ => (f, r)
      end
  end.

Fixpoint depth (t : ATree) : nat :=
  let 'mkATree nodes _ _ _ := t in
  S ((fix go (l : list (string * ATree)) : nat := match l with [] => O | (_, t) :: l => Nat.max (depth t) (go l) end) nodes).

Fixpoint add_targets (targets : list string) (seen : gset string) (tree : ATree) : res atree_error ATree :=
  match targets with
  | [] => Ok tree
  | target :: targets =>
      let target := fs_Clean target in
      if bool_decide (target ∈ seen) then add_targets targets seen tree
      else tree ← Add tree target; add_targets targets ({[target]} ∪ seen) tree
  end.
Definition NewTree (targets : list string) (f : F) : F * res atree_error ATree :=
  match add_targets targets ∅ (empty_tree "") with
  | Ok tree => unrollTree (depth tree + 1) tree f
  | r => (f, r)
  end.
End tree.

(** ** Facts *)

Section map_facts.
Context {A : Type}.
Implicit Types l : list (string * A).

Lemma map_get_set n m (x : A) l : map_get n (map_set m x l) = if bool_decide (m = n) then Some x else map_get n l.
Proof.
  induction l as [|[k y] l IH]; cbn [map_set map_get]; [done|]. destruct (decide (k = m)) as [->|Hk].
  - rewrite (bool_decide_eq_true_2 (m = m)) by done. cbn [map_get]. by case_bool_decide.
  - rewrite (bool_decide_eq_false_2 (k = m)) by done. cbn [map_get]. rewrite IH. repeat case_bool_decide; congruence.
Qed.
Lemma map_set_names m (x : A) l n : n ∈ (map_set m x l).*1 <-> n = m \/ n ∈ l.*1.
Proof.
  induction l as [|[k y] l IH]; cbn [map_set fmap list_fmap fst]; [set_solver|].
  case_bool_decide; cbn [fmap list_fmap fst]; [subst; set_solver|]. rewrite !elem_of_cons, IH. set_solver.
Qed.
Lemma map_set_NoDup m (x : A) l : NoDup l.*1 -> NoDup (map_set m x l).*1.
Proof.
  induction l as [|[k y] l IH]; cbn [map_set fmap list_fmap fst]; intros Hn; [apply NoDup_singleton|].
  apply NoDup_cons in Hn as [Hk Hn]. case_bool_decide as Hm; cbn [fmap list_fmap fst]; [subst; by apply NoDup_cons|].
  apply NoDup_cons. split; [|auto]. rewrite map_set_names. intros [->|?]; done.
Qed.
Lemma map_get_elem n l : (exists x, map_get n l = Some x) <-> n ∈ l.*1.
Proof.
  induction l as [|[k y] l IH]; cbn [map_get fmap list_fmap fst]; [set_solver|]. rewrite elem_of_cons, <- IH.
  case_bool_decide as Hk; [naive_solver|]. split; [by right|]. intros [->|]; done.
Qed.
Lemma map_get_in n (x : A) l : map_get n l = Some x -> (n, x) ∈ l.
Proof. induction l as [|[k y] l IH]; cbn [map_get]; [done|]. rewrite elem_of_cons. case_bool_decide; [intros [= <-]; subst; by left|auto]. Qed.
Lemma map_get_NoDup n (x : A) l : NoDup l.*1 -> (n, x) ∈ l -> map_get n l = Some x.
Proof.
  induction l as [|[k y] l IH]; cbn [map_get fmap list_fmap fst]; intros Hn; [set_solver|].
  apply NoDup_cons in Hn as [Hk Hn]. rewrite elem_of_cons. intros [[= -> ->]|Hin]; [by rewrite bool_decide_eq_true_2|].
  rewrite bool_decide_eq_false_2; [auto|]. intros ->. destruct Hk. by apply (list_elem_of_fmap_2 fst) in Hin.
Qed.
Lemma map_set_nonempty m (x : A) l : map_set m x l ≠ [].
Proof. destruct l as [|[k y] l]; cbn [map_set]; [done|]. by case_bool_decide. Qed.
End map_facts.

(** The node at a path. *)
Fixpoint at_lookup (t : ATree) (cs : list string) : option ATree :=
  match cs with
  | [] => Some t
  | c :: cs => match map_get c (at_Nodes t) with Some t => at_lookup t cs | None => None end
  end.

(** A tree at an absolute path: a node that is to be saved is saved from its
    own place, and directories know where their metadata is. *)
Inductive at_ok : list string -> ATree -> Prop :=
| at_ok_intro cs t : (at_Path t = ""%string \/ at_Path t = render cs) ->
    (at_Nodes t ≠ [] -> cs ≠ [] -> at_FileInfoPath t = render cs) ->
    NoDup (at_Nodes t).*1 ->
    (forall n sub, map_get n (at_Nodes t) = Some sub -> plain n /\ at_ok (cs ++ [n]) sub) ->
    at_ok cs t.

Lemma at_ok_empty cs root : at_ok cs (empty_tree root).
Proof. split; [by left|done|apply NoDup_nil_2|done]. Qed.
Lemma at_ok_leaf cs info root : at_ok cs (mkATree [] (render cs) info root).
Proof. split; [by right|done|apply NoDup_nil_2|done]. Qed.
Lemma at_ok_set_Path cs t : at_ok cs t -> at_ok cs (set_Path t (render cs)).
Proof. intros [cs' t' Hp Hi Hn Hs]. split; [by right|done|done|done]. Qed.

(** Setting a node whose own invariant holds. *)
Lemma at_ok_set cs t n sub info : at_ok cs t -> plain n -> at_ok (cs ++ [n]) sub -> (cs ≠ [] -> info = render cs) ->
  at_ok cs (mkATree (map_set n sub (at_Nodes t)) (at_Path t) info (at_Root t)).
Proof.
  intros Hok Hn Hsub Hinfo. destruct Hok as [cs' t' Hp Hi Hnd Hs]. split; cbn [at_Nodes at_Path at_FileInfoPath]; [done|auto|by apply map_set_NoDup|].
  intros m s. rewrite map_get_set. case_bool_decide as Hm; [intros [= <-]; by subst|apply Hs].
Qed.

(** No node is both saved and a directory. *)
Inductive unrolled : ATree -> Prop :=
| unrolled_intro t : (Leaf t = true -> at_Nodes t = []) -> (forall n sub, map_get n (at_Nodes t) = Some sub -> unrolled sub) -> unrolled t.

(** *** Adding *)

Section adding.
Context {F : Type} `{HF : FS F} `{!UnixPaths F}.

(** Nodes that are to be saved stay, and only [pc] becomes one. *)
Definition extends (t t' : ATree) (pc : list string) : Prop :=
  (forall ds n, at_lookup t ds = Some n -> exists n', at_lookup t' ds = Some n' /\ (Leaf n = true -> at_Path n' = at_Path n))
  /\ (forall ds n', at_lookup t' ds = Some n' -> Leaf n' = true -> ds = pc \/ exists n, at_lookup t ds = Some n /\ Leaf n = true).

(** Replacing one node by an extension of it. *)
Lemma extends_set t c sub sub' pc info :
  (map_get c (at_Nodes t) = Some sub \/ map_get c (at_Nodes t) = None /\ at_Nodes sub = [] /\ Leaf sub = false) ->
  extends sub sub' pc -> extends t (mkATree (map_set c sub' (at_Nodes t)) (at_Path t) info (at_Root t)) (c :: pc).
Proof.
  intros Hsub [H1 H2]. split.
  - intros [|d ds] n; cbn [at_lookup at_Nodes]; [intros [= <-]; by eexists|]. rewrite map_get_set. case_bool_decide as Hd.
    + subst d. destruct Hsub as [->|[-> _]]; [apply H1|done].
    + intros ->. by eexists.
  - intros [|d ds] n; cbn [at_lookup at_Nodes]; [intros [= <-] Hl; right; by exists t|]. rewrite map_get_set. case_bool_decide as Hd.
    + subst d. intros Hn Hl. destruct (H2 ds n Hn Hl) as [->|(m & Hm & Hml)]; [by left|]. right. exists m.
      destruct Hsub as [->|(_ & Hno & Hnl)]; [done|]. destruct ds as [|d ds]; cbn [at_lookup] in Hm; [|by rewrite Hno in Hm].
      injection Hm as <-. congruence.
    + intros Hm Hl. right. by exists n.
Qed.

Lemma extends_leaf sub target : target ≠ ""%string -> Leaf sub = false -> extends sub (set_Path sub target) [].
Proof.
  intros Ht Hsub. split.
  - intros [|d ds] n; cbn [at_lookup at_Nodes set_Path]; [intros [= <-]; eexists; by rewrite Hsub|]. destruct (map_get d _); [by eexists|done].
  - intros [|d ds] n; cbn [at_lookup at_Nodes set_Path]; [by left|]. intros Hn Hl. right. by exists n.
Qed.

Lemma render_nonempty cs : render cs ≠ ""%string.
Proof. done. Qed.

Lemma add_cons t target root c d pc : add t target root (c :: d :: pc)
  = (tree ← add (set_FileInfoPath (default (empty_tree "") (map_get c (at_Nodes t))) (fs_Join [root; c])) target (fs_Join [root; c]) (d :: pc);
     Ok (set_Nodes t (map_set c tree (at_Nodes t)))).
Proof. done. Qed.
Lemma add_ok pc : forall t base t', Forall plain base -> Forall plain pc -> at_ok base t ->
  (base ≠ [] -> at_FileInfoPath t = render base) ->
  add t (render (base ++ pc)) (render base) pc = Ok t' ->
  at_ok base t' /\ at_FileInfoPath t' = at_FileInfoPath t /\ at_Path t' = at_Path t /\ extends t t' pc
  /\ exists n, at_lookup t' pc = Some n /\ at_Path n = render (base ++ pc).
Proof using UnixPaths0.
  induction pc as [|c pc IH]; intros t base t' Hbase Hpc Hok Hinfo; [done|]. apply Forall_cons in Hpc as [Hc Hpc].
  assert (Hsubs : forall sub, map_get c (at_Nodes t) = Some sub -> at_ok (base ++ [c]) sub)
    by (intros sub Hsub; destruct Hok as [cs' t0 _ _ _ Hs]; by apply (Hs c sub)).
  destruct pc as [|d pc].
  - cbn [add]. destruct (map_get c (at_Nodes t)) as [sub|] eqn:Eg.
    + case_bool_decide as Hp; [done|]. intros [= <-]. unfold set_Nodes. split.
      { apply at_ok_set; auto. apply at_ok_set_Path. auto. }
      split; [done|]. split; [done|]. split.
      { apply (extends_set t c sub); [by left|]. apply extends_leaf; [apply render_nonempty|]. unfold Leaf. rewrite Hp. done. }
      cbn [at_lookup at_Nodes]. rewrite map_get_set, bool_decide_eq_true_2 by done. by eexists.
    + intros [= <-]. unfold set_Nodes. split.
      { apply at_ok_set; auto. apply at_ok_leaf. }
      split; [done|]. split; [done|]. split.
      { apply (extends_set t c (empty_tree "")); [by right|]. by apply (extends_leaf (empty_tree "")). }
      cbn [at_lookup at_Nodes]. rewrite map_get_set, bool_decide_eq_true_2 by done. by eexists.
  - rewrite add_cons. set (sub := default (empty_tree "") (map_get c (at_Nodes t))).
    assert (Hsub : at_ok (base ++ [c]) sub).
    { unfold sub. destruct (map_get c (at_Nodes t)) as [s|]; [by apply Hsubs|apply at_ok_empty]. }
    rewrite unix_Join, (Join_plain base c) by done. cbn [mbind res_bind].
    match goal with |- context [add ?a ?b ?c0 ?d0] => destruct (add a b c0 d0) as [sub'|e|m] eqn:EA end; [|done..]. intros [= <-].
    replace (render (base ++ c :: d :: pc)) with (render ((base ++ [c]) ++ d :: pc)) in EA |- * by by rewrite <- app_assoc.
    apply (IH (set_FileInfoPath sub (render (base ++ [c]))) (base ++ [c])) in EA; [|by apply plain_app|done| |done].
    2: { destruct Hsub as [cs' t0 Hp Hi Hn Hs]. split; done. }
    destruct EA as (Hok' & Hi' & Hp' & Hext & Hn). cbn [set_FileInfoPath at_FileInfoPath] in Hi', Hp'.
    unfold set_Nodes. split; [apply at_ok_set; auto|]. split; [done|]. split; [done|]. split.
    + apply (extends_set t c sub).
      { unfold sub. destruct (map_get c (at_Nodes t)); [by left|by right]. }
      destruct Hext as [E1 E2]. split.
      * intros [|x ds] n Hn'; [|exact (E1 (x :: ds) n Hn')]. injection Hn' as <-. exists sub'. split; [done|]. intros _. exact Hp'.
      * intros [|x ds] n Hn' Hl; [|exact (E2 (x :: ds) n Hn' Hl)]. injection Hn' as <-. right. exists sub. split; [done|].
        unfold Leaf in *. cbn [set_FileInfoPath at_Path] in Hp'. by rewrite <- Hp'.
    + cbn [at_lookup at_Nodes]. by rewrite map_get_set, bool_decide_eq_true_2.
Qed.

Lemma at_ok_sub cs t n sub : at_ok cs t -> map_get n (at_Nodes t) = Some sub -> plain n /\ at_ok (cs ++ [n]) sub.
Proof. intros [cs' t0 _ _ _ Hs]. apply Hs. Qed.
Lemma at_ok_path cs t : at_ok cs t -> at_Path t = ""%string \/ at_Path t = render cs.
Proof. by intros []. Qed.

Lemma components_loop_render cs : forall fuel, Forall plain cs -> (length cs < fuel)%nat ->
  components_loop fuel (render cs) = reverse cs.
Proof using UnixPaths0.
  induction cs as [|c cs IH] using rev_ind; intros [|fuel] Hcs Hf; try (cbn in Hf; lia).
  - cbn [components_loop]. by rewrite unix_Dir, bool_decide_eq_true_2.
  - rewrite length_app in Hf. cbn [length] in Hf. cbn [components_loop]. rewrite unix_Dir, unix_Base, Dir_render, Base_render by done.
    rewrite last_snoc, reverse_snoc. apply plain_app in Hcs as [Hcs Hc]. rewrite bool_decide_eq_false_2.
    + cbn [default]. unfold id. f_equal. apply IH; [done|lia].
    + intros Heq. apply render_inj in Heq; [|by apply plain_app|done].
      apply (f_equal length) in Heq. rewrite length_app in Heq. cbn in Heq. lia.
Qed.

Lemma pathComponents_render cs rel : Forall plain cs -> pathComponents (render cs) rel = (cs, false).
Proof using UnixPaths0.
  intros Hcs. unfold pathComponents. rewrite unix_VolumeName, unix_IsAbs, IsAbs_render, unix_Clean. cbn [negb andb].
  rewrite Clean_render, components_loop_render, reverse_involutive by (done || (pose proof (render_length cs); lia)). done.
Qed.

Lemma rootDirectory_render cs : rootDirectory (render cs) = "/"%string.
Proof using UnixPaths0.
  unfold rootDirectory. rewrite bool_decide_eq_false_2 by apply render_nonempty.
  by rewrite unix_IsAbs, IsAbs_render, unix_VolumeName, unix_Separator, unix_Join.
Qed.

(** The trees at the first level have the root directory as their root. *)
Definition rooted (t : ATree) : Prop := forall n sub, map_get n (at_Nodes t) = Some sub -> at_Root sub = "/"%string.

Lemma add_root pc : forall t target root t', add t target root pc = Ok t' -> at_Root t' = at_Root t.
Proof.
  destruct pc as [|c [|d pc]]; intros t target root t'; [done| |].
  - cbn [add]. destruct (map_get c (at_Nodes t)) as [sub|]; [case_bool_decide; [done|]|]; by intros [= <-].
  - rewrite add_cons. by intros (sub & _ & [= <-])%bind_ok.
Qed.
Lemma add_info pc t target root i : add (set_FileInfoPath t i) target root pc = (t' ← add t target root pc; Ok (set_FileInfoPath t' i)).
Proof.
  destruct pc as [|c [|d pc]]; [done| |].
  - cbn [add]. cbn [set_FileInfoPath at_Nodes]. destruct (map_get c (at_Nodes t)) as [sub|]; [by case_bool_decide|done].
  - rewrite !add_cons. cbn [set_FileInfoPath at_Nodes]. set (m := add _ _ _ (d :: pc)). by destruct m.
Qed.

Lemma Add_ok t cs t' : Forall plain cs -> cs ≠ [] -> at_ok [] t -> rooted t -> at_Path t = ""%string -> Add t (render cs) = Ok t' ->
  at_ok [] t' /\ rooted t' /\ at_Path t' = ""%string /\ extends t t' cs /\ exists n, at_lookup t' cs = Some n /\ at_Path n = render cs.
Proof using UnixPaths0.
  intros Hcs Hne Hok Hroot Hpath. unfold Add. rewrite bool_decide_eq_false_2 by apply render_nonempty.
  rewrite pathComponents_render by done. destruct cs as [|c rest]; [done|]. apply Forall_cons in Hcs as [Hc Hrest].
  rewrite rootDirectory_render.
  assert (Hsub : exists sub, find_name (length (at_Nodes t) + 1) 0 (at_Nodes t) c "/" = Ok (c, sub)
    /\ (map_get c (at_Nodes t) = Some sub \/ map_get c (at_Nodes t) = None /\ sub = empty_tree "/")).
  { rewrite Nat.add_1_r. cbn [find_name numbered]. destruct (map_get c (at_Nodes t)) as [sub|] eqn:Eg; [|eexists; eauto].
    rewrite bool_decide_eq_true_2 by by apply (Hroot c). eexists; eauto. }
  destruct Hsub as (sub & -> & Hsub). cbn [mbind res_bind].
  assert (Hsok : at_ok [c] sub /\ at_Root sub = "/"%string).
  { destruct Hsub as [Hg|[_ ->]]; [|split; [apply at_ok_empty|done]]. split; [|by apply (Hroot c)].
    by apply (at_ok_sub [] t c sub Hok). }
  destruct Hsok as [Hsok Hsr].
  assert (Hsub2 : map_get c (at_Nodes t) = Some sub \/ map_get c (at_Nodes t) = None /\ at_Nodes sub = [] /\ Leaf sub = false).
  { destruct Hsub as [?|[? ->]]; [by left|by right]. }
  assert (Hset : forall sub', at_ok [c] sub' -> at_Root sub' = "/"%string -> let t' := set_Nodes t (map_set c sub' (at_Nodes t)) in
    at_ok [] t' /\ rooted t' /\ at_Path t' = ""%string).
  { intros sub' Hs' Hr'. split; [by apply (at_ok_set [] t c sub')|]. split; [|done]. intros n s. cbn [set_Nodes at_Nodes].
    rewrite map_get_set. case_bool_decide; [by intros [= <-]|]. apply Hroot. }
  destruct rest as [|d rest].
  - cbn [mbind res_bind]. intros [= <-]. destruct (Hset (set_Path sub (render [c]))) as (H1 & H2 & H3); [by apply at_ok_set_Path|done|].
    split; [done|]. split; [done|]. split; [done|]. split.
    + apply (extends_set t c sub (set_Path sub (render [c])) []); [done|]. destruct (Leaf sub) eqn:El; [|by apply extends_leaf; [apply render_nonempty|]].
      assert (Hp : at_Path sub = render [c]) by (destruct (at_ok_path _ _ Hsok) as [Hp|Hp]; [by unfold Leaf in El; rewrite Hp in El|done]).
      rewrite <- Hp. destruct sub as [nodes p i r]. unfold set_Path. cbn [at_Nodes at_Path at_FileInfoPath at_Root] in *.
      split; [by eexists|]. intros ds n Hn Hl. right. by exists n.
    + cbn [at_lookup set_Nodes at_Nodes]. rewrite map_get_set, bool_decide_eq_true_2 by done. by eexists.
  - rewrite unix_Join. change ["/"%string; c] with [render []; c]. rewrite (Join_plain [] c) by done. cbn [mbind res_bind app].
    intros (sub'' & (sub0 & EA & [= <-])%bind_ok & [= <-])%bind_ok.
    assert (EA' : add (set_FileInfoPath sub (render [c])) (render ([c] ++ d :: rest)) (render [c]) (d :: rest) = Ok (set_FileInfoPath sub0 (render [c])))
      by (rewrite add_info; cbn [app] in *; by rewrite EA).
    pose proof (add_root _ _ _ _ _ EA) as Hr0.
    apply (add_ok (d :: rest) (set_FileInfoPath sub (render [c])) [c]) in EA' as (Hok' & _ & Hp' & [E1 E2] & Hn); [|by apply Forall_singleton|done| |done].
    2: { destruct Hsok as [cs' t0 Hp Hi Hn Hs]. by split. }
    destruct (Hset (set_FileInfoPath sub0 (render [c]))) as (H1 & H2 & H3); [done|by rewrite <- Hsr, <- Hr0|].
    split; [done|]. split; [done|]. split; [done|]. split.
    + apply (extends_set t c sub); [done|]. split.
      * intros [|x ds] n Hn'; [|exact (E1 (x :: ds) n Hn')]. injection Hn' as <-. eexists. split; [done|]. intros _. exact Hp'.
      * intros [|x ds] n Hn' Hl; [|exact (E2 (x :: ds) n Hn' Hl)]. injection Hn' as <-. right. exists sub. split; [done|].
        unfold Leaf in *. cbn [set_FileInfoPath at_Path] in *. by rewrite <- Hp'.
    + cbn [at_lookup set_Nodes at_Nodes]. by rewrite map_get_set, bool_decide_eq_true_2.
Qed.

(** What is known of the tree when the targets in [seen] have been added. *)
Definition targets_inv (t : ATree) (seen : gset string) : Prop :=
  at_ok [] t /\ rooted t /\ at_Path t = ""%string
  /\ (forall cs, Forall plain cs -> render cs ∈ seen -> exists n, at_lookup t cs = Some n /\ at_Path n = render cs)
  /\ (forall ds n, at_lookup t ds = Some n -> Leaf n = true -> Forall plain ds /\ render ds ∈ seen).

Lemma Leaf_render n cs : at_Path n = render cs -> Leaf n = true.
Proof. intros Hp. unfold Leaf. by rewrite bool_decide_eq_true_2; rewrite ?Hp. Qed.

Lemma add_targets_inv css : forall seen t t', Forall (fun cs => Forall plain cs /\ cs ≠ []) css -> targets_inv t seen ->
  add_targets (map render css) seen t = Ok t' -> exists seen', targets_inv t' seen' /\ forall p, p ∈ seen' <-> p ∈ seen \/ p ∈ map render css.
Proof using UnixPaths0.
  induction css as [|cs css IH]; intros seen t t' Hcss Hinv; cbn [map add_targets].
  { intros [= <-]. exists seen. split; [done|]. set_solver. }
  apply Forall_cons in Hcss as [[Hcs Hne] Hcss]. rewrite unix_Clean, Clean_render by done. case_bool_decide as Hseen.
  { intros HA. destruct (IH seen t t' Hcss Hinv HA) as (seen' & Hinv' & Hs). exists seen'. split; [done|]. set_solver. }
  intros (t1 & HA & HT)%bind_ok. destruct Hinv as (Hok & Hr & Hp & Hcov & Honly).
  destruct (Add_ok t cs t1 Hcs Hne Hok Hr Hp HA) as (Hok1 & Hr1 & Hp1 & [E1 E2] & nd & Hnd & Hndp).
  destruct (IH ({[render cs]} ∪ seen) t1 t' Hcss) as (seen' & Hinv' & Hs); [|done|].
  2: { exists seen'. split; [done|]. intros p. rewrite Hs, elem_of_union, elem_of_singleton, elem_of_cons. tauto. }
  split; [done|]. split; [done|]. split; [done|]. split.
  - intros ds Hds [Heq|Hin]%elem_of_union.
    + apply elem_of_singleton in Heq. apply render_inj in Heq as ->; [by exists nd|done|done].
    + destruct (Hcov ds Hds Hin) as (n & Hn & Hnp). destruct (E1 ds n Hn) as (n' & Hn' & Hl). exists n'. split; [done|].
      rewrite Hl; [done|]. by apply (Leaf_render n ds).
  - intros ds n Hn Hl. destruct (E2 ds n Hn Hl) as [->|(n0 & Hn0 & Hl0)]; [split; [done|set_solver]|].
    destruct (Honly ds n0 Hn0 Hl0). split; [done|set_solver].
Qed.

(** *** Unrolling *)

(** The entries of directories are names. *)
Definition plain_entries : Prop := forall dir flags f f' names, readdirnames dir flags f = (f', inl names) -> Forall plain names.

Lemma add_entries_ok cs entries : forall nodes nodes', Forall plain cs -> Forall plain entries -> NoDup nodes.*1 ->
  add_entries (render cs) entries nodes = Ok nodes' ->
  NoDup nodes'.*1
  /\ (forall n s', map_get n nodes' = Some s' ->
       (exists s, map_get n nodes = Some s /\ (s' = s \/ plain n /\ at_Path s = ""%string /\ s' = set_Path s (render (cs ++ [n]))))
       \/ plain n /\ s' = mkATree [] (render (cs ++ [n])) "" "")
  /\ (forall n s, map_get n nodes = Some s -> exists s', map_get n nodes' = Some s' /\ at_Nodes s' = at_Nodes s /\ (Leaf s = true -> s' = s))
  /\ (forall n, n ∈ entries -> exists s', map_get n nodes' = Some s' /\ Leaf s' = true).
Proof using UnixPaths0.
  induction entries as [|e entries IH]; intros nodes nodes' Hcs He Hnd; cbn [add_entries].
  { intros [= <-]. split; [done|]. split; [by left; eauto|]. split; [by eauto|]. by intros n Hn%elem_of_nil. }
  apply Forall_cons in He as [He Hes]. rewrite unix_Join, Join_plain by done.
  assert (Hstep : forall s1, (forall s, map_get e nodes = Some s -> at_Nodes s1 = at_Nodes s /\ (Leaf s = true -> s1 = s)) ->
    ((exists s, map_get e nodes = Some s /\ (s1 = s \/ plain e /\ at_Path s = ""%string /\ s1 = set_Path s (render (cs ++ [e]))))
       \/ plain e /\ s1 = mkATree [] (render (cs ++ [e])) "" "") -> Leaf s1 = true ->
    forall nodes1, (forall n, map_get n nodes1 = if bool_decide (e = n) then Some s1 else map_get n nodes) -> NoDup nodes1.*1 ->
    add_entries (render cs) entries nodes1 = Ok nodes' ->
    NoDup nodes'.*1
    /\ (forall n s', map_get n nodes' = Some s' ->
         (exists s, map_get n nodes = Some s /\ (s' = s \/ plain n /\ at_Path s = ""%string /\ s' = set_Path s (render (cs ++ [n]))))
         \/ plain n /\ s' = mkATree [] (render (cs ++ [n])) "" "")
    /\ (forall n s, map_get n nodes = Some s -> exists s', map_get n nodes' = Some s' /\ at_Nodes s' = at_Nodes s /\ (Leaf s = true -> s' = s))
    /\ (forall n, n ∈ e :: entries -> exists s', map_get n nodes' = Some s' /\ Leaf s' = true)).
  { intros s1 Hs1 Hfrom Hl1 nodes1 Hget Hnd1 HA. destruct (IH nodes1 nodes' Hcs Hes Hnd1 HA) as (I1 & I2 & I3 & I4).
    split; [done|]. split; [|split].
    - intros n s' Hn. destruct (I2 n s' Hn) as [(s & Hg & Hs)|]; [|by right]. rewrite Hget in Hg. case_bool_decide as Hen; [|left; by exists s].
      injection Hg as <-. subst n. destruct Hs as [->|(_ & Hp & _)]; [done|]. unfold Leaf in Hl1. by rewrite Hp in Hl1.
    - intros n s Hn. specialize (I3 n). rewrite Hget in I3. case_bool_decide as Hen; [|by apply I3]. subst n.
      destruct (I3 s1 eq_refl) as (s' & Hs' & Hns & Hsl). exists s'. rewrite (Hsl Hl1) in *. destruct (Hs1 s Hn) as [Ha Hb]. eauto.
    - intros n [->|Hn]%elem_of_cons; [|by apply I4]. specialize (I3 e). rewrite Hget, bool_decide_eq_true_2 in I3 by done.
      destruct (I3 s1 eq_refl) as (s' & Hs' & _ & Hsl). exists s'. split; [done|]. by rewrite (Hsl Hl1). }
  destruct (map_get e nodes) as [s|] eqn:Eg.
  - case_bool_decide as Hp.
    + apply (Hstep (set_Path s (render (cs ++ [e])))); [|left; eauto 6|by eapply Leaf_render|by intros n; apply map_get_set|by apply map_set_NoDup].
      intros s0 [= <-]. split; [done|]. unfold Leaf. by rewrite Hp.
    + case_bool_decide as Hp2; [|done]. apply (Hstep s); [by intros s0 [= <-]|left; eauto|by eapply Leaf_render| |done].
      intros n. case_bool_decide; [by subst|done].
  - apply (Hstep (mkATree [] (render (cs ++ [e])) "" "")); [done|by right|done|by intros n; apply map_get_set|by apply map_set_NoDup].
Qed.

(** The states that reading directories leads to. *)
Definition reads_to (f f' : F) : Prop := rtc (fun a b => exists dir, (readdirnames dir 0 a).1 = b) f f'.
Lemma reads_to_read f f' dir : reads_to f f' -> reads_to f (readdirnames dir 0 f').1.
Proof. intros Hf. eapply rtc_r; [exact Hf|]. by exists dir. Qed.

(** The node at [cs] saves what is there as a whole: it is saved from there,
    or it is a directory whose entries, as they were read in the run, are all
    nodes that save theirs as a whole. *)
Inductive whole (f0 : F) : list string -> ATree -> Prop :=
| whole_leaf cs n : at_Path n = render cs -> whole f0 cs n
| whole_dir cs n f1 f2 names : reads_to f0 f1 -> readdirnames (render cs) 0 f1 = (f2, inl names) ->
    (forall e, e ∈ names -> exists sub, map_get e (at_Nodes n) = Some sub /\ whole f0 (cs ++ [e]) sub) ->
    whole f0 cs n.

(** What unrolling does to a tree at [cs]: what leaves save is saved as a
    whole, and leaves are at or below leaves. *)
Definition unrolls (f0 : F) (cs : list string) (t t' : ATree) : Prop :=
  (forall ds n, at_lookup t ds = Some n -> Leaf n = true -> exists n', at_lookup t' ds = Some n' /\ whole f0 (cs ++ ds) n')
  /\ (forall ds n', at_lookup t' ds = Some n' -> Leaf n' = true ->
     exists es n, es `prefix_of` ds /\ at_lookup t es = Some n /\ Leaf n = true).

Lemma unroll_nodes_ok (unroll : ATree -> F -> F * res atree_error ATree) (P : string -> ATree -> ATree -> Prop) (R : F -> Prop) nodes : forall f f' nodes',
  (forall n t g g' t', (n, t) ∈ nodes -> R g -> unroll t g = (g', Ok t') -> R g' /\ P n t t') -> R f ->
  unroll_nodes unroll nodes f = (f', Ok nodes') ->
  R f' /\ nodes'.*1 = nodes.*1
  /\ (forall n t, map_get n nodes = Some t -> exists t', map_get n nodes' = Some t' /\ P n t t')
  /\ (forall n t', map_get n nodes' = Some t' -> exists t, map_get n nodes = Some t /\ P n t t').
Proof.
  induction nodes as [|[m t] nodes IH]; intros f f' nodes' HP HR; cbn [unroll_nodes]; [by intros [= <- <-]|].
  destruct (unroll t f) as [f1 [t1|e|msg]] eqn:ET; [|done..].
  destruct (unroll_nodes unroll nodes f1) as [f2 [nodes1|e|msg]] eqn:EN; [|done..]. intros [= <- <-].
  destruct (HP m t f f1 t1 ltac:(by left) HR ET) as [HR1 HP1].
  destruct (IH f1 f2 nodes1) as (IR & I1 & I2 & I3); [intros n t0 g g' t0' Hin; apply HP; by right|done|done|].
  split; [done|]. split; [by cbn; rewrite I1|]. split; intros n t0; cbn [map_get]; (case_bool_decide as Hm; [intros [= <-]; subst; by eexists|]); [apply I2|apply I3].
Qed.

(** The first step: the entries of a directory that is a target. *)
Definition unroll_step (t : ATree) (f : F) : F * res atree_error ATree :=
  if Leaf t && bool_decide (at_Nodes t ≠ []) then
    match readdirnames (at_Path t) 0 f with
    | (f, inr e) => (f, Err (AtSys e))
    | (f, inl entries) => (f, nodes ← add_entries (at_Path t) entries (at_Nodes t); Ok (set_Path (set_Nodes t nodes) ""))
    end
  else (f, Ok t).

Lemma at_ok_inv cs t : at_ok cs t -> (at_Path t = ""%string \/ at_Path t = render cs)
  /\ (at_Nodes t ≠ [] -> cs ≠ [] -> at_FileInfoPath t = render cs) /\ NoDup (at_Nodes t).*1
  /\ (forall n sub, map_get n (at_Nodes t) = Some sub -> plain n /\ at_ok (cs ++ [n]) sub).
Proof. by intros []. Qed.
Lemma unroll_step_ok cs t f f' t1 : plain_entries -> Forall plain cs -> at_ok cs t -> unroll_step t f = (f', Ok t1) ->
  at_ok cs t1 /\ (Leaf t1 = true -> at_Nodes t1 = [])
  /\ (Leaf t = true -> at_Path t1 = render cs
      \/ exists names, readdirnames (render cs) 0 f = (f', inl names)
         /\ forall e, e ∈ names -> exists s', map_get e (at_Nodes t1) = Some s' /\ Leaf s' = true)
  /\ (f' = f \/ exists dir, f' = (readdirnames dir 0 f).1)
  /\ (Leaf t1 = true -> Leaf t = true)
  /\ (forall x s, map_get x (at_Nodes t) = Some s -> exists s1, map_get x (at_Nodes t1) = Some s1 /\ at_Nodes s1 = at_Nodes s /\ (Leaf s = true -> s1 = s))
  /\ (forall x s1, map_get x (at_Nodes t1) = Some s1 -> Leaf t = true \/ map_get x (at_Nodes t) = Some s1).
Proof using UnixPaths0.
  intros Hplain Hcs Hok. unfold unroll_step. destruct (Leaf t) eqn:El; cbn [andb].
  2: { intros [= <- <-]. split; [done|]. split; [by rewrite El|]. split; [done|]. split; [by left|]. split; [by rewrite El|]. split; [by eauto|by right]. }
  assert (Hp : at_Path t = render cs) by (destruct (at_ok_path _ _ Hok) as [Hp|Hp]; [by unfold Leaf in El; rewrite Hp in El|done]).
  case_bool_decide as Hn.
  2: { intros [= <- <-]. split; [done|]. split; [done|]. split; [by left|]. split; [by left|]. split; [done|]. split; [by eauto|by left]. }
  destruct (readdirnames (at_Path t) 0 f) as [f1 [entries|e]] eqn:ER; [|done]. intros [= <- (nodes & HA & [= <-])%bind_ok].
  apply at_ok_inv in Hok as (_ & Hinfo & Hnd & Hsub). rewrite Hp in HA.
  destruct (add_entries_ok cs entries (at_Nodes t) nodes Hcs (Hplain _ _ _ _ _ ER) Hnd HA) as (I1 & I2 & I3 & I4).
  split; [|split; [done|split; [|split; [|split; [done|split; [exact I3|by left]]]]]].
  - split; cbn [set_Path set_Nodes at_Path at_Nodes at_FileInfoPath]; [by left|auto|done|].
    intros n s' Hs'. destruct (I2 n s' Hs') as [(s & Hg & Hs)|[Hpn ->]]; [|split; [done|apply at_ok_leaf]].
    destruct (Hsub n s Hg) as [Hpn Hsok]. destruct Hs as [->|(_ & _ & ->)]; [done|]. split; [done|]. by apply at_ok_set_Path.
  - intros _. right. exists entries. rewrite <- Hp. split; [done|]. exact I4.
  - right. exists (at_Path t). by rewrite ER.
Qed.

Lemma unrollTree_ok f0 fuel : forall cs t f f' t', plain_entries -> Forall plain cs -> at_ok cs t -> reads_to f0 f ->
  unrollTree fuel t f = (f', Ok t') -> reads_to f0 f' /\ at_ok cs t' /\ unrolled t' /\ unrolls f0 cs t t'.
Proof using UnixPaths0.
  induction fuel as [|fuel IH]; intros cs t f f' t' Hplain Hcs Hok Hrd; [done|].
  change (unrollTree (S fuel) t f) with (let '(f, r) := unroll_step t f in
    match r with
    | Ok t => match unroll_nodes (unrollTree fuel) (at_Nodes t) f with
              | (f, Ok nodes) => (f, Ok (set_Nodes t nodes)) | (f, Err e) => (f, Err e) | (f, Panic m) => (f, Panic m) end
    | _ => (f, r)
    end).
  destruct (unroll_step t f) as [f1 [t1|e|m]] eqn:ES; [|done..].
  destruct (unroll_step_ok cs t f f1 t1 Hplain Hcs Hok ES) as (Hok1 & Hu1 & Hleaf & Hf1 & Hleaf1 & Hkeep & Hback).
  assert (Hrd1 : reads_to f0 f1) by (destruct Hf1 as [->|[dir ->]]; [done|by apply reads_to_read]).
  destruct (unroll_nodes (unrollTree fuel) (at_Nodes t1) f1) as [f2 [nodes|e|m]] eqn:EN; [|done..]. intros [= <- <-].
  apply at_ok_inv in Hok1 as (Hp1 & Hi1 & Hnd1 & Hsub1).
  apply (unroll_nodes_ok _ (fun n s s' => plain n /\ at_ok (cs ++ [n]) s' /\ unrolled s' /\ unrolls f0 (cs ++ [n]) s s') (reads_to f0)) in EN
    as (Hrd2 & E1 & E2 & E3); [|..|exact Hrd1].
  2: { intros n s g g' s' Hin Hg Hs. apply map_get_NoDup in Hin; [|done]. destruct (Hsub1 n s Hin) as [Hn Hsok].
       destruct (IH (cs ++ [n]) s g g' s' Hplain) as (H1 & H2); [by apply plain_app|done|done|done|]. by split. }
  split; [exact Hrd2|].
  assert (Hnil : at_Nodes t1 = [] -> nodes = []) by (intros Hn; rewrite Hn in E1; by destruct nodes).
  split; [|split; [|split]].
  - split; cbn [set_Nodes at_Path at_Nodes at_FileInfoPath]; [done|intros Hn; apply Hi1; intros Hn1; by apply Hn, Hnil|by rewrite E1|].
    intros n s' Hs'. destruct (E3 n s' Hs') as (s & _ & H1 & H2 & _). done.
  - split; [intros Hl; by apply Hnil, Hu1|]. intros n s' Hs'. by destruct (E3 n s' Hs') as (s & _ & _ & _ & H3 & _).
  - intros [|x ds] n; cbn [at_lookup].
    + intros [= <-] Hl. eexists. split; [done|]. rewrite app_nil_r. destruct (Hleaf Hl) as [Hsame|(names & HR & Hall)]; [by apply whole_leaf|].
      apply (whole_dir f0 cs _ f f1 names Hrd HR). intros e He. destruct (Hall e He) as (s & Hs & Hsl).
      destruct (E2 e s Hs) as (s' & Hs' & _ & _ & _ & [U1 _]). exists s'. split; [done|].
      destruct (U1 [] s eq_refl Hsl) as (n' & [= <-] & Hw). by rewrite app_nil_r in Hw.
    + destruct (map_get x (at_Nodes t)) as [s|] eqn:Es; [|done]. intros Hn Hl. destruct (Hkeep x s Es) as (s1 & Hs1 & Hnodes & Hsl).
      destruct (E2 x s1 Hs1) as (s' & Hs' & _ & _ & _ & [U1 _]). cbn [set_Nodes at_Nodes]. rewrite Hs'.
      rewrite (app_assoc cs [x] ds : cs ++ x :: ds = _). apply (U1 ds n); [|done].
      destruct ds as [|y ds]; cbn [at_lookup] in *; [injection Hn as <-; by rewrite Hsl|by rewrite Hnodes].
  - intros [|x ds] n'; cbn [at_lookup set_Nodes at_Nodes].
    + intros [= <-] Hl. exists [], t. split; [done|]. split; [done|by apply Hleaf1].
    + destruct (map_get x nodes) as [s'|] eqn:Es; [|done]. intros Hn Hl. destruct (E3 x s' Es) as (s1 & Hs1 & _ & _ & _ & [_ U2]).
      destruct (U2 ds n' Hn Hl) as (es & n & Hpre & Hes & Hnl). destruct (Hback x s1 Hs1) as [Ht|Hg].
      * exists [], t. split; [apply prefix_nil|done].
      * exists (x :: es), n. split; [by apply prefix_cons|]. cbn [at_lookup]. by rewrite Hg.
Qed.

(** The fuel is enough. *)
Lemma depth_sub t n sub : map_get n (at_Nodes t) = Some sub -> (depth sub < depth t)%nat.
Proof.
  destruct t as [nodes p i r]. cbn [at_Nodes depth].
  induction nodes as [|[m s] nodes IHn]; cbn [map_get]; [done|]. case_bool_decide; [intros [= <-]; lia|]. intros Hg. specialize (IHn Hg). lia.
Qed.
Lemma depth_nodes nodes k p i r : (forall n sub, (n, sub) ∈ nodes -> (depth sub <= k)%nat) -> (depth (mkATree nodes p i r) <= S k)%nat.
Proof.
  intros Hall. cbn [depth]. apply le_n_S. induction nodes as [|[m s] nodes IHn]; [lia|].
  pose proof (Hall m s ltac:(by left)). specialize (IHn (fun n sub Hin => Hall n sub ltac:(by right))). lia.
Qed.

Lemma depth_Nodes s s' : at_Nodes s' = at_Nodes s -> depth s' = depth s.
Proof. destruct s, s'. cbn [at_Nodes depth]. by intros ->. Qed.
Lemma map_set_in {A} n m (x y : A) l : (n, y) ∈ map_set m x l -> (n, y) = (m, x) \/ (n, y) ∈ l.
Proof.
  induction l as [|[k z] l IHl]; cbn [map_set]; [set_solver|]. case_bool_decide; rewrite !elem_of_cons; [set_solver|]. intros [->|Hin]; [auto|].
  destruct (IHl Hin); auto.
Qed.

Lemma add_entries_depth dir entries : forall nodes nodes' k, (1 <= k)%nat -> (forall n s, (n, s) ∈ nodes -> (depth s <= k)%nat) ->
  add_entries dir entries nodes = Ok nodes' -> forall n s, (n, s) ∈ nodes' -> (depth s <= k)%nat.
Proof.
  induction entries as [|e entries IH]; intros nodes nodes' k Hk Hall; cbn [add_entries]; [by intros [= <-]|].
  destruct (map_get e nodes) as [s0|] eqn:Eg.
  - case_bool_decide.
    + apply IH; [done|]. intros n s [[= -> ->]|Hin]%map_set_in; [|by apply (Hall n)].
      rewrite (depth_Nodes s0) by done. apply (Hall e). by apply map_get_in.
    + case_bool_decide; [|done]. by apply IH.
  - apply IH; [done|]. intros n s [[= -> ->]|Hin]%map_set_in; [|by apply (Hall n)]. cbn [depth]. lia.
Qed.

Lemma add_entries_no_panic dir entries : forall nodes m, add_entries dir entries nodes ≠ Panic m.
Proof.
  induction entries as [|e entries IH]; intros nodes m; cbn [add_entries]; [done|].
  destruct (map_get e nodes); repeat case_bool_decide; by try apply IH.
Qed.

Lemma unroll_nodes_no_panic (unroll : ATree -> F -> F * res atree_error ATree) nodes : forall f m,
  (forall n t g m, (n, t) ∈ nodes -> (unroll t g).2 ≠ Panic m) -> (unroll_nodes unroll nodes f).2 ≠ Panic m.
Proof.
  induction nodes as [|[n t] nodes IH]; intros f m HP; cbn [unroll_nodes]; [done|].
  pose proof (HP n t f) as HPt. destruct (unroll t f) as [f1 [t1|e|msg]]; [|done|by destruct (HPt msg ltac:(by left))].
  specialize (IH f1 m (fun n t g m Hin => HP n t g m ltac:(by right))). by destruct (unroll_nodes unroll nodes f1) as [f2 [l|e|msg]].
Qed.

Lemma unrollTree_no_panic fuel : forall t f m, (depth t <= fuel)%nat -> (unrollTree fuel t f).2 ≠ Panic m.
Proof.
  induction fuel as [|fuel IH]; intros t f m Hd; [destruct t; cbn [depth] in Hd; lia|].
  change (unrollTree (S fuel) t f) with (let '(f, r) := unroll_step t f in
    match r with
    | Ok t => match unroll_nodes (unrollTree fuel) (at_Nodes t) f with
              | (f, Ok nodes) => (f, Ok (set_Nodes t nodes)) | (f, Err e) => (f, Err e) | (f, Panic m) => (f, Panic m) end
    | _ => (f, r)
    end).
  assert (Hstep : match unroll_step t f with
    | (_, Ok t1) => forall n s, (n, s) ∈ at_Nodes t1 -> (depth s <= fuel)%nat | (_, Err _) => True | (_, Panic _) => False end).
  { assert (Hsub : forall n s, (n, s) ∈ at_Nodes t -> (depth s <= fuel)%nat).
    { intros n s Hin. destruct t as [nodes p i r]. cbn [depth at_Nodes] in *. revert Hd Hin. clear. intros Hd Hin.
      induction nodes as [|[m t] nodes IHn]; [by apply elem_of_nil in Hin|].
      apply elem_of_cons in Hin as [[= -> ->]|Hin]; [lia|apply IHn; [lia|done]]. }
    unfold unroll_step. destruct (Leaf t && bool_decide (at_Nodes t ≠ [])) eqn:EL; [|done].
    destruct (readdirnames (at_Path t) 0 f) as [f1 [entries|e]]; [|done].
    destruct (add_entries _ _ _) as [nodes|e|msg] eqn:EA; cbn [mbind res_bind]; [|done|by eapply add_entries_no_panic].
    cbn [set_Path set_Nodes at_Nodes]. eapply add_entries_depth; [|exact Hsub|exact EA].
    apply andb_prop in EL as [_ Hne%bool_decide_eq_true_1]. destruct (at_Nodes t) as [|[n0 s0] l] eqn:En; [done|].
    pose proof (Hsub n0 s0 ltac:(by left)). destruct s0. cbn [depth] in *. lia. }
  destruct (unroll_step t f) as [f1 [t1|e|msg]]; [|done|done].
  pose proof (unroll_nodes_no_panic (unrollTree fuel) (at_Nodes t1) f1 m (fun n s g m Hin => IH s g m (Hstep n s Hin))) as HU.
  destruct (unroll_nodes (unrollTree fuel) (at_Nodes t1) f1) as [f2 [nodes|e|msg]]; [done..|]. cbn. intros [= ->]. by destruct HU.
Qed.

Lemma add_no_panic pc : forall t target root m, add t target root pc ≠ Panic m.
Proof.
  induction pc as [|c [|d pc] IH]; intros t target root m; [done| |].
  - cbn [add]. destruct (map_get c (at_Nodes t)); by try case_bool_decide.
  - rewrite add_cons. match goal with |- context [mbind _ ?a] => destruct a eqn:EA end; cbn [mbind res_bind]; [done|done|].
    by destruct (IH _ _ _ _ EA).
Qed.

Lemma add_targets_no_panic css : forall seen t m, Forall (fun cs => Forall plain cs /\ cs ≠ []) css -> targets_inv t seen ->
  add_targets (map render css) seen t ≠ Panic m.
Proof using UnixPaths0.
  induction css as [|cs css IH]; intros seen t m Hcss Hinv; cbn [map add_targets]; [done|].
  pose proof Hcss as [[Hcs Hne] Hcss']%Forall_cons. rewrite unix_Clean, Clean_render by done. case_bool_decide; [by apply IH|].
  destruct (Add t (render cs)) as [t1|e|msg] eqn:EA; cbn [mbind res_bind].
  - destruct (add_targets_inv [cs] seen t t1) as (seen' & Hinv' & Hs); [by apply Forall_singleton|done| |].
    { cbn [map add_targets]. rewrite unix_Clean, Clean_render by done. rewrite bool_decide_eq_false_2 by done. by rewrite EA. }
    assert (seen' = {[render cs]} ∪ seen) as -> by (apply set_eq; intros p; rewrite Hs; set_solver). by apply IH.
  - done.
  - exfalso. revert EA. unfold Add. rewrite bool_decide_eq_false_2 by apply render_nonempty.
    rewrite pathComponents_render by done. destruct cs as [|c rest]; [done|]. rewrite rootDirectory_render.
    rewrite Nat.add_1_r. cbn [find_name numbered]. destruct Hinv as (_ & Hr & _).
    assert (Hgoal : forall sub, (tree ← match rest with
       | _ :: _ => tree ← add sub (render (c :: rest)) (fs_Join ["/"%string; c]) rest; Ok (set_FileInfoPath tree (fs_Join ["/"%string; c]))
       | [] => Ok (set_Path sub (render (c :: rest))) end;
       Ok (set_Nodes t (map_set c tree (at_Nodes t)))) ≠ Panic msg (E := atree_error)).
    { intros sub. destruct rest as [|d rest]; [done|]. pose proof (add_no_panic (d :: rest) sub (render (c :: d :: rest)) (fs_Join ["/"%string; c])) as HP.
      destruct (add _ _ _ (d :: rest)) as [t2|e|m2]; cbn [mbind res_bind]; [done|done|]. intros [= ->]. by destruct (HP msg). }
    destruct (map_get c (at_Nodes t)) as [sub|] eqn:Eg; [rewrite bool_decide_eq_true_2 by by apply (Hr c)|]; cbn [mbind res_bind]; apply Hgoal.
Qed.

(** C13: the tree of a backup.  For targets that are absolute paths (below the
    root directory, in any order, one inside the other or repeated), and a
    file system that lists plain names, [NewTree] never panics, and when it
    returns a tree: a node that is to be saved is saved from its own place,
    every directory above has its own path for its metadata, names are
    distinct; no node is both saved and a directory; every target is saved as
    a whole, which means that its node is saved, or is a directory with all
    the entries that were read from it in the run, and each of them is saved
    as a whole in turn (so also what a nested target lies in); and nothing is
    saved that is not at or below a target. *)
Theorem NewTree_spec (css : list (list string)) (f f' : F) (r : res atree_error ATree) :
  plain_entries -> Forall (fun cs => Forall plain cs /\ cs ≠ []) css ->
  NewTree (map render css) f = (f', r) ->
  match r with
  | Panic _ => False
  | Err _ => True
  | Ok t =>
      at_ok [] t /\ unrolled t
      /\ (forall cs, cs ∈ css -> exists n, at_lookup t cs = Some n /\ whole f cs n)
      /\ (forall ds n, at_lookup t ds = Some n -> Leaf n = true -> exists cs, cs ∈ css /\ cs `prefix_of` ds)
  end.
Proof using UnixPaths0.
  intros Hplain Hcss. unfold NewTree.
  assert (Hinv0 : targets_inv (empty_tree "") ∅).
  { split; [apply at_ok_empty|]. split; [done|]. split; [done|]. split; [set_solver|].
    intros [|d ds] n; cbn [at_lookup empty_tree at_Nodes map_get]; [by intros [= <-]|done]. }
  destruct (add_targets (map render css) ∅ (empty_tree "")) as [t|e|m] eqn:EA; [|by intros [= _ <-]|by destruct (add_targets_no_panic css ∅ (empty_tree "") m Hcss Hinv0)].
  destruct (add_targets_inv css ∅ (empty_tree "") t Hcss Hinv0 EA) as (seen & (Hok & _ & _ & Hcov & Honly) & Hseen).
  intros HU. pose proof (unrollTree_no_panic (depth t + 1) t f) as HP. rewrite HU in HP.
  destruct r as [t'|e|m]; [|done|by destruct (HP m ltac:(lia))].
  destruct (unrollTree_ok f _ [] t f f' t' Hplain ltac:(done) Hok ltac:(constructor) HU) as (_ & Hok' & Hu & [U1 U2]).
  rewrite Forall_forall in Hcss. split; [done|]. split; [done|]. split.
  - intros cs Hcs. destruct (Hcov cs (proj1 (Hcss cs Hcs))) as (n & Hn & Hp); [apply Hseen; right; by apply list_elem_of_fmap_2|].
    destruct (U1 cs n Hn (Leaf_render n cs Hp)) as (n' & Hn' & Hc). by exists n'.
  - intros ds n' Hn' Hl. destruct (U2 ds n' Hn' Hl) as (es & n & Hpre & Hn & Hnl).
    destruct (Honly es n Hn Hnl) as [Hpl Hin]. apply Hseen in Hin as [Hin|(cs & Heq & Hcs)%list_elem_of_fmap]; [by apply not_elem_of_empty in Hin|].
    exists cs. split; [done|]. by apply render_inj in Heq as ->; [|done|apply Hcss].
Qed.
End adding.

(** ** A concrete tree *)

Lemma map_plain_entries : plain_entries (F := map_fs).
Proof.
  intros dir flags f f' names. unfold readdirnames. cbn [fs_OpenFile map_FS]. destruct (f !! dir) as [[i [data|l]]|]; cbn; [done| |done].
  intros [= _ <-]. apply Forall_forall. by intros n [Hn _]%list_elem_of_filter.
Qed.

Definition toy_targets : list (list string) := [["a"; "x"; "z"]; ["a"]; ["a"; "x"]]%string.
Definition toy_atree : ATree := match (NewTree (map render toy_targets) toy_dirs).2 with Ok t => t | _ => empty_tree "" end.
Lemma NewTree_spec_witness :
  map fst (at_Nodes toy_atree) = ["a"%string] /\ at_ok [] toy_atree /\ unrolled toy_atree
  /\ exists n, at_lookup toy_atree ["a"; "x"]%string = Some n /\ whole toy_dirs ["a"; "x"]%string n.
Proof.
  assert (HE : NewTree (map render toy_targets) toy_dirs = (toy_dirs, Ok toy_atree)) by (vm_compute; reflexivity).
  assert (Hpl : Forall (fun cs => Forall plain cs /\ cs ≠ []) toy_targets) by (apply (bool_decide_eq_true_1 _); vm_compute; reflexivity).
  destruct (NewTree_spec toy_targets toy_dirs toy_dirs (Ok toy_atree) map_plain_entries Hpl HE) as (H1 & H2 & H3 & _).
  assert (Hin : ["a"; "x"]%string ∈ toy_targets) by (apply (bool_decide_eq_true_1 _); vm_compute; reflexivity).
  assert (Hn : map fst (at_Nodes toy_atree) = ["a"%string]) by (vm_compute; reflexivity).
  exact (conj Hn (conj H1 (conj H2 (H3 ["a"; "x"]%string Hin)))).
Defined.
