(* ===== verification/Archiver.v ===== *)
(** * Archiver: saving files and directories to a repository

    src/internal/archiver: archiver.go, file_saver.go, blob_saver.go and
    tree_saver.go, with NewSnapshot of src/restic/snapshot.go and LoadTree and
    SaveTree of src/repository/repository.go.

    The savers are pools of workers; here a worker runs a job as soon as it is
    handed over, so a future holds its result from the start.  When a worker
    fails, the context of all is cancelled and the failure is what the whole
    run reports: this is the error [ACanceled e], which no error callback
    gets to see.  The state has the repository, the file system and a log of
    what was handed to the savers of blobs and reported to the callbacks.
    JSON, the chunker, the current user and the order of Go's maps are
    parameters.  Recursion into directories has fuel. *)

From S2P Require Import Prelude Crypto Ids Pack IndexMap Index MasterIndex Backend Repository Duration Snapshots Trees Paths FileInfo ArchTree.

(** ** Parameters *)

(** JSON of trees; names are quoted, times that JSON cannot express are
    clamped and strings that are not UTF-8 change, but names, types, contents
    and subtrees are kept. *)
Class TreeCodec : Type := { tree_encode : Tree -> list byte; tree_decode : list byte -> option Tree }.
Definition same_refs (n n' : Node) : Prop :=
  n_Name n' = n_Name n /\ n_Type n' = n_Type n /\ n_Content n' = n_Content n /\ n_Subtree n' = n_Subtree n.
Class TreeCodecLaws `{TreeCodec} : Prop := {
  tree_roundtrip t : exists t', tree_decode (tree_encode t ++ [Byte.x0a]) = Some t' /\ Forall2 same_refs (t_Nodes t) (t_Nodes t');
}.
Class SnapshotEncoder : Type := { snap_encode : Snapshot -> list byte }.

(** The chunker: cuts what a reader yields, up to its error; chunks have at
    most [MaxSize] bytes. *)
Definition MaxSize : Z := 8 * 1024 * 1024.
Class Chunker : Type := { split : Z -> list byte -> option error -> list (list byte) * option error }.
Class ChunkerLaws `{Chunker} : Prop := {
  split_sound pol data err cs err' : split pol data err = (cs, err') ->
    Forall (fun c => c ≠ [] /\ lenZ c <= MaxSize) cs /\ (err' = None -> err = None /\ concat cs = data);
}.

(** ** Errors, statistics and events *)

Inductive aerr : Type :=
| ASys (e : error)
| ARepo (e : repo_error)
| ATreeErr (e : tree_error)
| AAt (e : atree_error)
| AMsg (msg : string)
| AWrap (msg : string) (e : aerr)
| ACanceled (e : aerr).

Record ItemStats : Type := mkStats { DataBlobs : Z; DataSize : Z; TreeBlobs : Z; TreeSize : Z }.
Definition no_stats : ItemStats := mkStats 0 0 0 0.
Definition ItemStats_Add (s other : ItemStats) : ItemStats :=
  mkStats (DataBlobs s + DataBlobs other) (u64 (DataSize s + DataSize other)) (TreeBlobs s + TreeBlobs other) (u64 (TreeSize s + TreeSize other)).

Inductive event : Type :=
| EvBlob (t : BlobType) (buf : list byte)              (** a job of the blob saver *)
| EvStartFile (snPath : string)
| EvCompleteBlob (filename : string) (bytes : Z)
| EvCompleteItem (item : string) (previous current : option Node) (s : ItemStats).

Record ast (S F : Type) : Type := mkAst { a_repo : Repo S; a_env : Env F; a_log : list event }.
Arguments mkAst {S F}. Arguments a_repo {S F}. Arguments a_env {S F}. Arguments a_log {S F}.

(** ** The monad *)

Definition AM (S F A : Type) : Type := ast S F -> ast S F * res aerr A.

Section amonad.
Context {S F : Type}.
Definition aret {A} (a : A) : AM S F A := fun st => (st, Ok a).
Definition abind {A B} (m : AM S F A) (f : A -> AM S F B) : AM S F B := fun st =>
  match m st with
  | (st, Ok a) => f a st
  | (st, Err e) => (st, Err e)
  | (st, Panic msg) => (st, Panic msg)
  end.
Definition athrow {A} (e : aerr) : AM S F A := fun st => (st, Err e).
Definition apanic {A} (msg : string) : AM S F A := fun st => (st, Panic msg).
Definition alift {A} (x : res aerr A) : AM S F A := fun st => (st, x).
(** The error of a call, which is looked at. *)
Definition acatch {A} (m : AM S F A) : AM S F (A + aerr) := fun st =>
  match m st with
  | (st, Ok a) => (st, Ok (inl a))
  | (st, Err e) => (st, Ok (inr e))
  | (st, Panic msg) => (st, Panic msg)
  end.
Definition on_repo {A} (m : M S A) : AM S F (A + repo_error) := fun st =>
  match m (a_repo st) with
  | (r, Ok a) => (mkAst r (a_env st) (a_log st), Ok (inl a))
  | (r, Err e) => (mkAst r (a_env st) (a_log st), Ok (inr e))
  | (r, Panic msg) => (mkAst r (a_env st) (a_log st), Panic msg)
  end.
Definition on_env {A} (f : Env F -> Env F * A) : AM S F A := fun st =>
  let '(env, a) := f (a_env st) in (mkAst (a_repo st) env (a_log st), Ok a).
Definition alog (e : event) : AM S F unit := fun st => (mkAst (a_repo st) (a_env st) (a_log st ++ [e]), Ok tt).
End amonad.

Declare Scope arch_scope.
Delimit Scope arch_scope with arch.
Notation "x <- m ;; k" := (abind m (fun x => k)) : arch_scope.
Notation "' x <- m ;; k" := (abind m (fun x => k)) (only parsing) : arch_scope.
Notation "m ;;; k" := (abind m (fun _ => k)) : arch_scope.
#[local] Open Scope arch_scope.

(** ** Futures *)

Record FutureBlob : Type := mkFutureBlob { fb_length : Z; fb_id : ID; fb_known : bool }.
Record saveFileResponse : Type := mkFileResponse { sf_node : option Node; sf_stats : ItemStats; sf_err : option aerr }.
Record saveTreeResponse : Type := mkTreeResponse { st_node : option Node; st_stats : ItemStats }.

Record FutureNode : Type := mkFuture {
  fn_snPath : string;
  fn_target : string;
  fn_absTarget : string;
  fn_fi : option OsInfo;          (** never set *)
  fn_node : option Node;
  fn_stats : ItemStats;
  fn_err : option aerr;
  fn_file : option saveFileResponse;
  fn_tree : option saveTreeResponse;
}.
Definition FutureNode_wait (fn : FutureNode) : FutureNode :=
  match fn_file fn with
  | Some res => mkFuture (fn_snPath fn) (fn_target fn) (fn_absTarget fn) (fn_fi fn) (sf_node res) (sf_stats res) (sf_err res) None (fn_tree fn)
  | None =>
      match fn_tree fn with
      | Some res => mkFuture (fn_snPath fn) (fn_target fn) (fn_absTarget fn) (fn_fi fn) (st_node res) (st_stats res) (fn_err fn) None None
      | None => fn
      end
  end.

Definition set_AccessTime (n : Node) (t : Time) : Node :=
  mkNode (n_Name n) (n_Type n) (n_Mode n) (n_ModTime n) t (n_ChangeTime n) (n_UID n) (n_GID n) (n_User n) (n_Group n) (n_Inode n)
    (n_DeviceID n) (n_Size n) (n_Links n) (n_LinkTarget n) (n_ExtendedAttributes n) (n_Device n) (n_Content n) (n_Subtree n) (n_Error n) (n_Path n).
Definition set_contents (n : Node) (name : string) (size : Z) (content : option (list ID)) (subtree : option ID) : Node :=
  mkNode name (n_Type n) (n_Mode n) (n_ModTime n) (n_AccessTime n) (n_ChangeTime n) (n_UID n) (n_GID n) (n_User n) (n_Group n) (n_Inode n)
    (n_DeviceID n) size (n_Links n) (n_LinkTarget n) (n_ExtendedAttributes n) (n_Device n) content subtree (n_Error n) (n_Path n).

Definition ChangeIgnoreCtime : Z := 1.
Definition ChangeIgnoreInode : Z := 2.

(** The fields of an [Archiver] that are set by its user. *)
Record Archiver : Type := mkArchiver {
  SelectByName : string -> bool;
  Select : string -> OsInfo -> bool;
  Error : option (string -> option OsInfo -> aerr -> option aerr);
  WithAtime : bool;
  ChangeIgnoreFlags : Z;
  ChunkerPolynomial : Z;
}.

Section archiver.
Context {S : Type} (be : Backend S) `{CP : CryptoPrims} `{IC : IndexCodec} `{SC : SnapshotCodec} `{SE : SnapshotEncoder} `{TC : TreeCodec}.
Context (mh : ID -> Z) (Hash : list byte -> ID) (nonce : nat -> list byte) (clock : nat -> Z) (key : Key) (cache : option (Handle -> bool)).
Context {F : Type} `{FSI : FS F} `{SI : SysInfo F} `{CH : Chunker} (zone : Z -> Z) (xattr_unsupported : error -> bool).
Context (arch : Archiver) (range_futures : list (string * FutureNode) -> list (string * FutureNode)).
#[local] Abbreviation AM := (AM S F).

(** *** Errors *)

Definition error_ (item : string) (fi : option OsInfo) (err : aerr) : option aerr :=
  match Error arch with
  | None => Some err
  | Some f => match err with ACanceled _ => Some err | _ => f item fi err end
  end.
(** [err = arch.error(...)], and the error is returned if it is still there. *)
Definition filtered {A} (item : string) (fi : option OsInfo) (err : aerr) (wrap : aerr -> aerr) (ignored : A) : AM A :=
  match error_ item fi err with Some e => athrow (wrap e) | None => aret ignored end.

(** *** Blobs and trees *)

(** [BlobSaver.Save] and its worker. *)
Definition BlobSaver_Save (t : BlobType) (buf : list byte) : AM FutureBlob :=
  alog (EvBlob t buf);;;
  r <- on_repo (SaveBlob be mh Hash nonce clock key t buf nullID false);;
  match r with
  | inl (id, known) => aret (mkFutureBlob (lenZ buf) id known)
  | inr e => athrow (ACanceled (ARepo e))
  end.

(** [Repository.LoadTree] and [Repository.SaveTree]. *)
Definition LoadTree (id : ID) : M S Tree :=
  Repository.bind (LoadBlob be mh Hash key cache TreeBlob id) (fun buf =>
  match tree_decode buf with Some t => ret t | None => throw (RMsg "json.Unmarshal") end).
Definition Repository_SaveTree (t : Tree) : M S ID :=
  Repository.bind (SaveBlob be mh Hash nonce clock key TreeBlob (tree_encode t ++ [Byte.x0a]) nullID false) (fun x => ret x.1).

Definition saveTree (t : Tree) : AM (ID * ItemStats) :=
  let buf := tree_encode t ++ [Byte.x0a] in
  res <- BlobSaver_Save TreeBlob buf;;
  aret (fb_id res, if fb_known res then no_stats else mkStats 0 0 1 (u64 (lenZ buf))).

Definition nodeFromFileInfo (filename : string) (fi : OsInfo) : AM (Node * option aerr) :=
  '(node, err) <- on_env (NodeFromFileInfo zone xattr_unsupported filename fi);;
  let node := if WithAtime arch then node else set_AccessTime node (n_ModTime node) in
  aret (node, (fun e => AWrap "NodeFromFileInfo" (ASys e)) <$> err).

Definition wrapLoadTreeError (id : ID) : AM aerr := fun st =>
  (st, Ok (if MasterIndex_Has mh (r_idx (a_repo st)) (mkHandle id TreeBlob)
           then AMsg "tree could not be loaded; the repository could be damaged"
           else AMsg "tree is not known; the repository could be damaged")).

Definition loadSubtree (node : option Node) : AM (option Tree * option aerr) :=
  match node with
  | None => aret (None, None)
  | Some node =>
      match n_Subtree node with
      | None => aret (None, None)
      | Some id =>
          if negb (bool_decide (n_Type node = "dir"%string)) then aret (None, None)
          else
            r <- on_repo (LoadTree id);;
            match r with
            | inl tree => aret (Some tree, None)
            | inr _ => err <- wrapLoadTreeError id;; aret (None, Some err)
            end
      end
  end.

(** *** Files (file_saver.go) *)

Definition file_failed (e : aerr) : saveFileResponse := mkFileResponse None no_stats (Some e).

Fixpoint save_chunks (filename : string) (chunks : list (list byte)) : AM (list FutureBlob) :=
  match chunks with
  | [] => aret []
  | c :: chunks =>
      res <- BlobSaver_Save DataBlob c;;
      alog (EvCompleteBlob filename (lenZ c));;;
      results <- save_chunks filename chunks;;
      aret (res :: results)
  end.
Definition add_blob (stats : ItemStats) (res : FutureBlob) : ItemStats :=
  if fb_known res then stats
  else mkStats (DataBlobs stats + 1) (u64 (DataSize stats + u64 (fb_length res))) (TreeBlobs stats) (TreeSize stats).

Definition saveFile (snPath : string) (f : fs_File F) (fi : OsInfo) : AM saveFileResponse :=
  alog (EvStartFile snPath);;;
  '(node, err) <- nodeFromFileInfo (file_Name f) fi;;
  match err with
  | Some e => on_env (on_fs (file_Close f));;; aret (file_failed e)
  | None =>
      if negb (bool_decide (n_Type node = "file"%string)) then
        on_env (on_fs (file_Close f));;; aret (file_failed (AMsg "node type is wrong"))
      else
        '(data, rerr) <- on_env (on_fs (file_ReadAll f));;
        let '(chunks, err) := split (ChunkerPolynomial arch) data rerr in
        results <- save_chunks (file_Name f) chunks;;
        cerr <- on_env (on_fs (file_Close f));;
        match err, cerr with
        | Some e, _ | None, Some e => aret (file_failed (ASys e))
        | None, None =>
            let size := fold_left (fun size c => u64 (size + lenZ c)) chunks 0 in
            let node := set_contents node (n_Name node) size (Some (map fb_id results)) (n_Subtree node) in
            aret (mkFileResponse (Some node) (fold_left add_blob results no_stats) None)
        end
  end.

(** [FileSaver.Save] and its worker. *)
Definition FileSaver_Save (snPath : string) (f : fs_File F) (fi : OsInfo) (complete : option Node -> ItemStats -> AM unit) : AM saveFileResponse :=
  res <- saveFile snPath f fi;;
  complete (sf_node res) (sf_stats res);;;
  aret res.

(** *** Directories (tree_saver.go) *)

Fixpoint insert_nodes (nodes : list FutureNode) (tree : Tree) : AM Tree :=
  match nodes with
  | [] => aret tree
  | fn :: nodes =>
      let fn := FutureNode_wait fn in
      match fn_err fn with
      | Some e =>
          match Error arch with
          | None => apanic "invalid memory address or nil pointer dereference"
          | Some errFn => match errFn (fn_target fn) (fn_fi fn) e with None => insert_nodes nodes tree | Some e => athrow e end
          end
      | None =>
          match fn_node fn with
          | None => insert_nodes nodes tree
          | Some node =>
              match Trees.Insert tree node with
              | Ok tree => insert_nodes nodes tree
              | Err e => athrow (ATreeErr e)
              | Panic m => apanic m
              end
          end
      end
  end.
Definition TreeSaver_save (node : Node) (nodes : list FutureNode) : AM (Node * ItemStats) :=
  tree <- insert_nodes nodes Trees.NewTree;;
  '(id, treeStats) <- saveTree tree;;
  aret (set_contents node (n_Name node) (n_Size node) (n_Content node) (Some id), ItemStats_Add no_stats treeStats).

(** [TreeSaver.Save] and its worker, which cancels everything when it fails. *)
Definition canceled (e : aerr) : aerr := match e with ACanceled _ => e | _ => ACanceled e end.
Definition TreeSaver_Save (node : Node) (nodes : list FutureNode) (complete : option Node -> ItemStats -> AM unit) : AM saveTreeResponse :=
  r <- acatch (TreeSaver_save node nodes);;
  match r with
  | inr e => athrow (canceled e)
  | inl (node, stats) => complete (Some node) stats;;; aret (mkTreeResponse (Some node) stats)
  end.

(** *** Saving a target *)

Definition allBlobsPresent (previous : Node) : AM bool := fun st =>
  (st, Ok (forallb (fun id => MasterIndex_Has mh (r_idx (a_repo st)) (mkHandle id DataBlob)) (default [] (n_Content previous)))).

Definition fileChanged (fi : OsInfo) (node : option Node) (ignoreFlags : Z) : res aerr bool :=
  match node with
  | None => Ok true
  | Some node =>
      if bool_decide (n_Type node ≠ "file"%string) then Ok true
      else if negb (u64 (oi_Size fi) =? n_Size node) then Ok true
      else if negb (Time_Equal (oi_ModTime fi) (n_ModTime node)) then Ok true
      else
        let checkCtime := Z.land ignoreFlags ChangeIgnoreCtime =? 0 in
        let checkInode := Z.land ignoreFlags ChangeIgnoreInode =? 0 in
        extFI ← ExtendedStat zone (Some fi);
        if checkCtime && negb (Time_Equal (x_ChangeTime extFI) (n_ChangeTime node)) then Ok true
        else if checkInode && negb (n_Inode node =? x_Inode extFI) then Ok true
        else Ok false
  end.

(** [save_names] is the loop of [SaveDir] over [save], the method [Save]. *)
Section with_save.
Context (save : string -> string -> option Node -> AM (FutureNode * bool)).

Fixpoint save_names (snPath dir : string) (fi : OsInfo) (previous : option Tree) (names : list string) : AM (list FutureNode) :=
  match names with
  | [] => aret []
  | name :: names =>
      let pathname := fs_Join [dir; name] in
      r <- acatch (save (Join [snPath; name]) pathname (Trees.Find previous name));;
      match r with
      | inr err => filtered pathname (Some fi) err (fun e => e) tt;;; save_names snPath dir fi previous names
      | inl (fn, excluded) =>
          nodes <- save_names snPath dir fi previous names;;
          aret (if excluded : bool then nodes else fn :: nodes)
      end
  end.

Definition SaveDir (snPath : string) (fi : OsInfo) (dir : string) (previous : option Tree) (complete : option Node -> ItemStats -> AM unit)
  : AM saveTreeResponse :=
  '(treeNode, err) <- nodeFromFileInfo dir fi;;
  match err with
  | Some e => athrow e
  | None =>
      entries <- on_env (on_fs (readdirnames dir O_NOFOLLOW));;
      match entries with
      | inr e => athrow (ASys e)
      | inl names =>
          nodes <- save_names snPath dir fi previous (sort_names names);;
          TreeSaver_Save treeNode nodes complete
      end
  end.

Definition excluded_result : FutureNode * bool := (mkFuture "" "" "" None None no_stats None None None, true).

(** The case of a regular file, after the test for an unchanged one. *)
Definition save_regular (snPath target abstarget : string) (fn : FutureNode) (fi : OsInfo) (previous : option Node) : AM (FutureNode * bool) :=
  r <- on_env (on_fs (fs_OpenFile target (Z.lor O_RDONLY O_NOFOLLOW)));;
  match r with
  | inr e => filtered abstarget (Some fi) (ASys e) (AWrap "Lstat") excluded_result
  | inl file =>
      r <- on_env (on_fs (file_Stat file));;
      match r with
      | inr e => on_env (on_fs (file_Close file));;; filtered abstarget None (ASys e) (AWrap "Lstat") excluded_result
      | inl fi =>
          let changed_type := on_env (on_fs (file_Close file));;;
            filtered abstarget fi (AMsg "file changed type, refusing to archive") (fun e => e) excluded_result in
          match fi with
          | None => changed_type
          | Some info =>
              if negb (IsRegularFile info) then changed_type
              else
                res <- FileSaver_Save snPath file info (fun node stats => alog (EvCompleteItem snPath previous node stats));;
                aret (mkFuture (fn_snPath fn) (fn_target fn) (fn_absTarget fn) None None no_stats None (Some res) None, false)
          end
      end
  end.

Definition save_target (snPath target : string) (previous : option Node) : AM (FutureNode * bool) :=
  r <- on_env (on_fs (fs_Abs target));;
  match r with
  | inr e => athrow (ASys e)
  | inl abstarget =>
      let fn := mkFuture snPath target abstarget None None no_stats None None None in
      let with_node node := mkFuture snPath target abstarget None (Some node) no_stats None None None in
      if negb (SelectByName arch abstarget) then aret excluded_result
      else
        r <- on_env (on_fs (fs_Lstat target));;
        match r with
        | inr e => filtered abstarget None (ASys e) (AWrap "Lstat") excluded_result
        | inl fi =>
            if negb (Select arch abstarget fi) then aret excluded_result
            else if IsRegularFile fi then
              changed <- alift (fileChanged fi previous (ChangeIgnoreFlags arch));;
              match previous, changed with
              | Some prev, false =>
                  present <- allBlobsPresent prev;;
                  if present : bool then
                    alog (EvCompleteItem snPath previous previous no_stats);;;
                    alog (EvCompleteBlob snPath (n_Size prev));;;
                    '(node, err) <- nodeFromFileInfo target fi;;
                    match err with
                    | Some e => athrow e
                    | None => aret (with_node (set_contents node (n_Name node) (n_Size node) (n_Content prev) (n_Subtree node)), false)
                    end
                  else
                    filtered abstarget (Some fi) (AMsg "parts not found in the repository index; storing the file again") (fun e => e) tt;;;
                    save_regular snPath target abstarget fn fi previous
              | _, _ => save_regular snPath target abstarget fn fi previous
              end
            else if IsDir fi then
              '(oldSubtree, err) <- loadSubtree previous;;
              match err with
              | Some e => filtered abstarget (Some fi) e (fun e => e) tt
              | None => aret tt
              end;;;
              res <- SaveDir snPath fi target oldSubtree (fun node stats => alog (EvCompleteItem (snPath ++ "/") previous node stats));;
              aret (mkFuture snPath target abstarget None None no_stats None None (Some res), false)
            else if negb (Z.land (oi_Mode fi) ModeSocket =? 0) then aret excluded_result
            else
              '(node, err) <- nodeFromFileInfo target fi;;
              match err with
              | Some e => athrow e
              | None => aret (with_node node, false)
              end
        end
  end.
End with_save.

(** [Save]; the fuel bounds the depth of directories. *)
Fixpoint Save (fuel : nat) (snPath target : string) (previous : option Node) : AM (FutureNode * bool) :=
  match fuel with
  | O => apanic "out of fuel"
  | Datatypes.S fuel => save_target (Save fuel) snPath target previous
  end.

(** *** Saving the tree of the targets *)

Definition statDir (dir : string) : AM (OsInfo + aerr) :=
  r <- on_env (on_fs (fs_Stat dir));;
  aret (match r with
        | inr e => inr (AWrap "Lstat" (ASys e))
        | inl fi =>
            if bool_decide (Z.land (oi_Mode fi) (Z.lor ModeType ModeCharDevice) ≠ ModeDir) then inr (AMsg "path is not a directory")
            else inl fi
        end).

(** The leaves that are not done yet are waited for at the end. *)
Fixpoint insert_futures (futures : list (string * FutureNode)) (tree : Tree) : AM Tree :=
  match futures with
  | [] => aret tree
  | (name, fn) :: futures =>
      let fn := FutureNode_wait fn in
      match fn_err fn with
      | Some e => filtered (fn_target fn) (fn_fi fn) e (fun e => e) tt;;; insert_futures futures tree
      | None =>
          match fn_node fn with
          | None => insert_futures futures tree
          | Some node =>
              match Trees.Insert tree (set_contents node name (n_Size node) (n_Content node) (n_Subtree node)) with
              | Ok tree => insert_futures futures tree
              | Err e => athrow (ATreeErr e)
              | Panic m => apanic m
              end
          end
      end
  end.

Section with_tree.
Context (fuel : nat) (save_tree : string -> ATree -> option Tree -> AM Tree).

Fixpoint tree_names (snPath : string) (atree : ATree) (previous : option Tree) (names : list string)
  (tree : Tree) (futures : list (string * FutureNode)) : AM (Tree * list (string * FutureNode)) :=
  match names with
  | [] => aret (tree, futures)
  | name :: names =>
      let subatree := default (empty_tree "") (map_get name (at_Nodes atree)) in
      if Leaf subatree then
        r <- acatch (Save fuel (Join [snPath; name]) (at_Path subatree) (Trees.Find previous name));;
        match r with
        | inr err => filtered (at_Path subatree) None err (fun e => e) tt;;; tree_names snPath atree previous names tree futures
        | inl (fn, excluded) =>
            tree_names snPath atree previous names tree (if excluded : bool then futures else map_set name fn futures)
        end
      else
        let snItem := (Join [snPath; name] ++ "/")%string in
        let oldNode := Trees.Find previous name in
        '(oldSubtree, err) <- loadSubtree oldNode;;
        match err with
        | Some e => filtered (Join [snPath; name]) None e (fun e => e) tt
        | None => aret tt
        end;;;
        subtree <- save_tree (Join [snPath; name]) subatree oldSubtree;;
        '(id, nodeStats) <- saveTree subtree;;
        if bool_decide (at_FileInfoPath subatree = ""%string) then athrow (AMsg "FileInfoPath is empty")
        else
          fi <- statDir (at_FileInfoPath subatree);;
          match fi with
          | inr e => athrow e
          | inl fi =>
              '(node, err) <- nodeFromFileInfo (at_FileInfoPath subatree) fi;;
              match err with
              | Some e => athrow e
              | None =>
                  let node := set_contents node name (n_Size node) (n_Content node) (Some id) in
                  match Trees.Insert tree node with
                  | Ok tree =>
                      alog (EvCompleteItem snItem oldNode (Some node) nodeStats);;;
                      tree_names snPath atree previous names tree futures
                  | Err e => athrow (ATreeErr e)
                  | Panic m => apanic m
                  end
              end
          end
  end.
End with_tree.

(** [SaveTree]; the fuel is more than the depth of [atree], and for [Save]. *)
Fixpoint SaveTree (depth fuel : nat) (snPath : string) (atree : ATree) (previous : option Tree) : AM Tree :=
  match depth with
  | O => apanic "out of fuel"
  | Datatypes.S depth =>
      '(tree, futures) <- tree_names fuel (SaveTree depth fuel) snPath atree previous (NodeNames atree) Trees.NewTree [];;
      insert_futures (range_futures futures) tree
  end.

(** *** Snapshots *)

(** [resolveRelativeTargets]. *)
Fixpoint resolve_targets (targets : list string) : AM (list string) :=
  match targets with
  | [] => aret []
  | target :: targets =>
      let target := fs_Clean target in
      let '(pc, _) := pathComponents (F := F) target false in
      found <- (if bool_decide (pc ≠ []) then aret [target]
                else
                  entries <- on_env (on_fs (readdirnames target O_NOFOLLOW));;
                  match entries with
                  | inr e => athrow (ASys e)
                  | inl entries => aret (map (fun name => fs_Join [target; name]) (sort_names entries))
                  end);;
      result <- resolve_targets targets;;
      aret (found ++ result)
  end.

Record SnapshotOptions : Type := mkOptions { so_Tags : strings; so_Hostname : string; so_Excludes : strings; so_Time : Time; so_ParentSnapshot : ID }.

(** The system's absolute path of a path, and the current user with the
    numeric IDs or the error of parsing them. *)
Context (abs : string -> option string) (CurrentUser : option (string * (Z * Z + error))).

Definition fillUserInfo (sn : Snapshot) : res aerr Snapshot :=
  match CurrentUser with
  | None => Ok sn
  | Some (username, ids) =>
      let with_user uid gid := mkSnapshot (s_Time sn) (s_Parent sn) (s_Tree sn) (s_Paths sn) (s_Hostname sn) username uid gid
        (s_Excludes sn) (s_Tags sn) (s_Original sn) (s_id sn) in
      match ids with inl (uid, gid) => Ok (with_user uid gid) | inr e => Err (ASys e) end
  end.
Definition NewSnapshot (paths : list string) (tags : strings) (hostname : string) (time : Time) : res aerr Snapshot :=
  let absPaths := map (fun path => default path (abs path)) paths in
  fillUserInfo (mkSnapshot time None None (Some absPaths) hostname "" 0 0 None tags None None).

Definition loadParentTree (snapshotID : ID) : AM (option Tree) :=
  if IsNull snapshotID then aret None
  else
    sn <- on_repo (LoadSnapshot be Hash key snapshotID);;
    match sn with
    | inr _ => aret None
    | inl sn =>
        match s_Tree sn with
        | None => aret None
        | Some id =>
            tree <- on_repo (LoadTree id);;
            match tree with
            | inl tree => aret (Some tree)
            | inr _ => wrapLoadTreeError id;;; aret None
            end
        end
    end.

(** What the tomb reports when the run fails. *)
Definition tomb_error (e : aerr) : aerr := match e with ACanceled e => e | _ => e end.
Definition throw_repo {A} (r : A + repo_error) : AM A := match r with inl a => aret a | inr e => athrow (ARepo e) end.

Definition save_root (depth fuel : nat) (atree : ATree) (parent : ID) : AM (ID * ItemStats) :=
  previous <- loadParentTree parent;;
  tree <- SaveTree depth fuel "/" atree previous;;
  if bool_decide (t_Nodes tree = []) then athrow (AMsg "snapshot is empty") else saveTree tree.

Definition Snapshot_ (fuel : nat) (targets : list string) (opts : SnapshotOptions) : AM (Snapshot * ID) :=
  cleanTargets <- resolve_targets targets;;
  r <- on_env (on_fs (NewTree (F := F) cleanTargets));;
  atree <- alift (match r with Ok t => Ok t | Err e => Err (AAt e) | Panic m => Panic m end);;
  root <- acatch (save_root (depth atree + 1) fuel atree (so_ParentSnapshot opts));;
  match root with
  | inr e => athrow (tomb_error e)
  | inl (rootTreeID, stats) =>
      alog (EvCompleteItem "/" None None stats);;;
      r <- on_repo (Flush be mh Hash nonce clock key);;
      throw_repo r;;;
      sn <- alift (NewSnapshot targets (so_Tags opts) (so_Hostname opts) (so_Time opts));;
      let sn := mkSnapshot (s_Time sn) (if IsNull (so_ParentSnapshot opts) then s_Parent sn else Some (so_ParentSnapshot opts)) (Some rootTreeID)
        (s_Paths sn) (s_Hostname sn) (s_Username sn) (s_UID sn) (s_GID sn) (so_Excludes opts) (s_Tags sn) (s_Original sn) (s_id sn) in
      r <- on_repo (SaveUnpacked be Hash nonce key SnapshotFile (snap_encode sn));;
      id <- throw_repo r;;
      aret (sn, id)
  end.
End archiver.

(** ** Facts *)

Section facts.
Context {S : Type} (be : Backend S) (norm : Handle -> Handle) (contents : S -> Handle -> option (list byte)).
Context {SL : StoreLaws be norm contents} {FL : FileLaws be norm contents}.
Context {CP : CryptoPrims} {CL : CryptoLaws} {IC : IndexCodec} {SC : SnapshotCodec} {SE : SnapshotEncoder} {TC : TreeCodec} {TL : TreeCodecLaws}.
Context (mh : ID -> Z) (Hash : list byte -> ID) (nonce : nat -> list byte) (clock : nat -> Z) (key : Key) (cache : option (Handle -> bool)).
Context (key_ok : Key_Valid key = true) (hash_wf : forall l, wf_ID (Hash l)).
Context (nonce_ok : forall k, lenZ (nonce k) = 16 /\ validNonce (nonce k) = true).
Context {F : Type} {FSI : FS F} {SI : SysInfo F} {CH : Chunker} (zone : Z -> Z) (xattr_unsupported : error -> bool).
Context (arch : Archiver) (range_futures : list (string * FutureNode) -> list (string * FutureNode)).
Context (range_perm : forall l, range_futures l ≡ₚ l) (N0 : Z).
#[local] Abbreviation AM := (AM S F).
#[local] Abbreviation ast := (ast S F).
#[local] Abbreviation Ready := (Ready norm contents mh Hash key any_pack).

(** *** Reading leaves the repository as it is *)

Definition same_repo (r r' : Repo S) : Prop :=
  r_idx r' = r_idx r /\ r_dataPM r' = r_dataPM r /\ r_treePM r' = r_treePM r
  /\ forall h, contents (r_be r') (norm h) = contents (r_be r) (norm h).
Definition reads {A} (m : M S A) : Prop := forall r, same_repo r (m r).1.

Lemma same_repo_refl r : same_repo r r.
Proof. done. Qed.
Lemma same_repo_trans r1 r2 r3 : same_repo r1 r2 -> same_repo r2 r3 -> same_repo r1 r3.
Proof.
  intros (A1 & A2 & A3 & A4) (B1 & B2 & B3 & B4). split; [congruence|]. split; [congruence|]. split; [congruence|].
  intros h. by rewrite B4, A4.
Qed.

Lemma Ready_same N C r r' : same_repo r r' -> Ready N C r -> Ready N C r'.
Proof.
  intros (HI & HD & HT & HC) [(_ & _ & [A B D E G O] & Hcov) Hs]. unfold Repository.Ready, St. rewrite HD, HT, HI. split; [|done]. split; [done|]. split; [done|]. split; [|done]. split; try done.
  intros pb Hpb. destruct (B pb Hpb) as (file & Hf & Hrest). exists file. by rewrite HC.
Qed.

Lemma reads_bind {A B} (m : M S A) (f : A -> M S B) : reads m -> (forall a, reads (f a)) -> reads (Repository.bind m f).
Proof.
  intros Hm Hf r. unfold Repository.bind. specialize (Hm r). destruct (m r) as [r1 [a|e|msg]]; [|done..].
  eapply same_repo_trans; [exact Hm|apply Hf].
Qed.
Lemma reads_load {A} (f : S -> S * (A + error)) :
  (forall s h, contents (f s).1 (norm h) = contents s (norm h)) -> reads (be_read f).
Proof. intros Hf r. unfold be_read. specialize (Hf (r_be r)). by destruct (f (r_be r)) as [s x]. Qed.
Lemma LoadAll_frame b buf h s h' : contents (LoadAll be b buf h s).1 (norm h') = contents s (norm h').
Proof.
  unfold LoadAll. match goal with |- context [be_Load be ?a ?b ?c ?d ?f ?u s] => destruct (be_Load be a b c d f u s) as [[s1 x] err] eqn:EL end.
  exact (load_frame _ _ _ _ _ _ _ _ _ _ _ h' EL).
Qed.
Lemma ReadAt_frame b h o n s h' : contents (ReadAt be b h o n s).1 (norm h') = contents s (norm h').
Proof.
  unfold ReadAt. match goal with |- context [be_Load be ?a ?b ?c ?d ?f ?u s] => destruct (be_Load be a b c d f u s) as [[s1 x] err] eqn:EL end.
  apply (load_frame _ _ _ _ _ _ _ _ _ _ _ h') in EL. by repeat case_match; simplify_eq/=.
Qed.

Lemma load_packs_reads t id blobs last : reads (load_packs be Hash key t id blobs last).
Proof.
  revert last. induction blobs as [|blob blobs IH]; intros last r; cbn [load_packs]; [done|].
  match goal with |- context [be_read ?f r] => pose proof (reads_load f (fun s h => ReadAt_frame _ _ _ _ s h) r) as HR; destruct (be_read f r) as [r1 [buf|e|m]] end;
    cbn [fst] in HR; [|by eapply same_repo_trans; [exact HR|apply IH]|done].
  case_bool_decide; [by eapply same_repo_trans; [exact HR|apply IH]|].
  destruct (decrypt key buf) as [p|e|m]; [|by eapply same_repo_trans; [exact HR|apply IH]|done].
  destruct (negb _); [by eapply same_repo_trans; [exact HR|apply IH]|done].
Qed.
Lemma LoadBlob_reads t id : reads (LoadBlob be mh Hash key cache t id).
Proof.
  apply reads_bind; [done|]. intros r0. apply reads_bind; [done|]. intros blobs.
  case_bool_decide; [done|]. apply load_packs_reads.
Qed.
Lemma LoadTree_reads id : reads (LoadTree be mh Hash key cache id).
Proof. apply reads_bind; [apply LoadBlob_reads|]. intros buf. by destruct (tree_decode buf). Qed.
Lemma LoadAndDecrypt_reads t id : reads (LoadAndDecrypt be Hash key t id).
Proof. apply reads_bind; [apply reads_load; intros s h; apply LoadAll_frame|]. intros buf. by destruct (_ && _). Qed.
Lemma LoadSnapshot_reads id : reads (LoadSnapshot be Hash key id).
Proof. apply reads_bind; [apply LoadAndDecrypt_reads|]. intros buf. by destruct (snap_decode buf). Qed.

(** *** What is known during a run *)

Definition blob_jobs (L : list event) : list (BlobType * list byte) :=
  omap (fun e => match e with EvBlob t buf => Some (t, buf) | _ => None end) L.
(** The jobs fit into one session, and each blob into a pack. *)
Definition Small (L : list event) : Prop :=
  N0 + lenZ (blob_jobs L) <= 2 ^ 60 /\ forall t buf, EvBlob t buf ∈ L -> lenZ buf + 32 <= maxuint32.

(** The blob is in the index or waits in an open packer. *)
Definition holds (st : ast) (h : BlobHandle) : Prop :=
  covered any_pack (r_idx (a_repo st)) (r_dataPM (a_repo st) ++ r_treePM (a_repo st)) h.
Definition good (st : ast) : Prop :=
  Small (a_log st) -> Ready (N0 + lenZ (blob_jobs (a_log st))) (fun _ => False) (a_repo st).
Definition mono (st st' : ast) : Prop :=
  (exists ext, a_log st' = a_log st ++ ext) /\ (Small (a_log st') -> forall h, holds st h -> holds st' h).

Lemma Small_app L ext : Small (L ++ ext) -> Small L.
Proof.
  intros [H1 H2]. split; [|intros t buf Hin; apply (H2 t); set_solver].
  unfold blob_jobs in *. rewrite omap_app, length_app in H1. lia.
Qed.
Lemma mono_small st st' : mono st st' -> Small (a_log st') -> Small (a_log st).
Proof. intros [[ext ->] _]. apply Small_app. Qed.
Lemma mono_refl st : mono st st.
Proof. split; [exists []; by rewrite app_nil_r|done]. Qed.
Lemma mono_trans st1 st2 st3 : mono st1 st2 -> mono st2 st3 -> mono st1 st3.
Proof.
  intros M1 M2. pose proof (mono_small _ _ M2) as HS. destruct M1 as [[e1 E1] H1], M2 as [[e2 E2] H2].
  split; [exists (e1 ++ e2); by rewrite E2, E1, app_assoc|]. intros Hs h Hh. apply H2; [done|]. apply H1; [by apply HS|done].
Qed.

(** [spec P m Q]: [m] keeps [good] and only adds to the log and to what is
    held, unless everything is cancelled; if [P] held and the whole is small,
    [Q] holds at the end. *)
Definition spec {A} (P : ast -> Prop) (m : AM A) (Q : A -> ast -> Prop) : Prop := forall st, good st ->
  match m st with
  | (st', Ok a) => good st' /\ mono st st' /\ (Small (a_log st') -> P st -> Q a st')
  | (_, Err (ACanceled _)) => True
  | (st', Err _) => good st' /\ mono st st'
  | (_, Panic _) => True
  end.
(** What stays true. *)
Definition stable (P : ast -> Prop) : Prop := forall st st', mono st st' -> Small (a_log st') -> P st -> P st'.

Lemma spec_ret {A} (P : ast -> Prop) (a : A) (Q : A -> ast -> Prop) : (forall st, P st -> Q a st) -> spec P (aret a) Q.
Proof. intros HQ st Hg. split; [done|]. split; [apply mono_refl|]. intros _. apply HQ. Qed.
Lemma spec_throw {A} (P : ast -> Prop) e (Q : A -> ast -> Prop) : spec P (athrow e) Q.
Proof. intros st Hg. unfold athrow. destruct e; (done || (split; [done|apply mono_refl])). Qed.
Lemma spec_panic {A} (P : ast -> Prop) m (Q : A -> ast -> Prop) : spec P (apanic m) Q.
Proof. done. Qed.
Lemma spec_lift {A} (P : ast -> Prop) (x : res aerr A) : spec P (alift x) (fun _ => P).
Proof.
  destruct x as [a|e|m]; [by apply spec_ret|exact (spec_throw P e (fun _ => P))|exact (spec_panic P m (fun _ => P))].
Qed.
Lemma spec_bind {A B} (P : ast -> Prop) (m : AM A) (f : A -> AM B) Q R :
  spec P m Q -> (forall a, spec (Q a) (f a) R) -> spec P (abind m f) R.
Proof.
  intros Hm Hf st Hg. unfold abind. specialize (Hm st Hg). destruct (m st) as [st1 [a|e|msg]]; [|done|done].
  destruct Hm as (Hg1 & M1 & HQ). specialize (Hf a st1 Hg1). destruct (f a st1) as [st2 [b|e|msg]]; [| |done].
  - destruct Hf as (Hg2 & M2 & HR). split; [done|]. split; [by eapply mono_trans|]. intros Hs Hp. apply HR; [done|].
    apply HQ; [by eapply mono_small|done].
  - destruct e; try done; destruct Hf as [Hg2 M2]; (split; [done|by eapply mono_trans]).
Qed.
Lemma spec_weaken {A} (P P' : ast -> Prop) (m : AM A) (Q Q' : A -> ast -> Prop) :
  spec P m Q -> (forall st, P' st -> P st) -> (forall a st, Q a st -> Q' a st) -> spec P' m Q'.
Proof.
  intros Hm HP HQ st Hg. specialize (Hm st Hg). destruct (m st) as [st' [a|e|msg]]; [|done|done].
  destruct Hm as (H1 & H2 & H3). split; [done|]. split; [done|]. auto.
Qed.
Lemma spec_keep {A} (P R : ast -> Prop) (m : AM A) Q : stable R -> spec P m Q -> spec (fun st => P st /\ R st) m (fun a st => Q a st /\ R st).
Proof.
  intros HR Hm st Hg. specialize (Hm st Hg). destruct (m st) as [st' [a|e|msg]]; [|done|done].
  destruct Hm as (H1 & H2 & H3). split; [done|]. split; [done|]. intros Hs [Hp Hr]. split; [auto|by eapply HR].
Qed.

(** A call whose error is looked at; what cancels is passed on. *)
Lemma spec_try {A B} (P : ast -> Prop) (m : AM A) (k : A + aerr -> AM B) Q R : stable P ->
  spec P m Q -> (forall a, spec (Q a) (k (inl a)) R) -> (forall e, spec P (k (inr e)) R) ->
  (forall e st, exists st', k (inr (ACanceled e)) st = (st', Err (ACanceled e))) ->
  spec P (abind (acatch m) k) R.
Proof.
  intros HP Hm Hk He Hc st Hg. unfold abind, acatch. specialize (Hm st Hg). destruct (m st) as [st1 [a|e|msg]]; [| |done].
  - destruct Hm as (Hg1 & M1 & HQ). specialize (Hk a st1 Hg1). destruct (k (inl a) st1) as [st2 [b|e|msg]]; [| |done].
    + destruct Hk as (Hg2 & M2 & HR). split; [done|]. split; [by eapply mono_trans|]. intros Hs Hp. apply HR; [done|].
      apply HQ; [by eapply mono_small|done].
    + destruct e; try done; destruct Hk as [Hg2 M2]; (split; [done|by eapply mono_trans]).
  - assert (HD : (exists e', e = ACanceled e') \/ ¬ exists e', e = ACanceled e') by (destruct e; (by left; eexists) || (right; by intros [e' He'])).
    destruct HD as [[e' ->]|Hne]; [destruct (Hc e' st1) as [st2 ->]; done|].
    assert (Hm' : good st1 /\ mono st st1) by (destruct e; (exact Hm || (exfalso; apply Hne; by eexists))).
    destruct Hm' as [Hg1 M1]. specialize (He e st1 Hg1). destruct (k (inr e) st1) as [st2 [b|e2|msg]]; [| |done].
    + destruct He as (Hg2 & M2 & HR). split; [done|]. split; [by eapply mono_trans|]. intros Hs Hp. apply HR; [done|].
      by eapply HP; [exact M1|by eapply mono_small|].
    + destruct e2; try done; destruct He as [Hg2 M2]; (split; [done|by eapply mono_trans]).
Qed.
Lemma filtered_canceled {A} item fi e (ignored : A) st :
  filtered (S := S) (F := F) arch item fi (ACanceled e) (fun e => e) ignored st = (st, Err (ACanceled e)).
Proof. unfold filtered, error_. by destruct (Error arch). Qed.
Lemma spec_filtered {A} (P : ast -> Prop) item fi e wrap (ignored : A) : spec P (filtered arch item fi e wrap ignored) (fun a st => P st /\ a = ignored).
Proof. unfold filtered. destruct (error_ arch item fi e); [apply spec_throw|by apply spec_ret]. Qed.

(** *** The steps *)

Lemma same_holds st st' : same_repo (a_repo st) (a_repo st') -> forall h, holds st h -> holds st' h.
Proof. intros (HI & HD & HT & _) h. unfold holds. by rewrite HI, HD, HT. Qed.
(** A step that adds no job and leaves the repository as it is. *)
Lemma step_same st st' ext : a_log st' = a_log st ++ ext -> blob_jobs ext = [] -> (forall t buf, EvBlob t buf ∉ ext) ->
  same_repo (a_repo st) (a_repo st') -> good st -> good st' /\ mono st st'.
Proof.
  intros HL Hj _ Hsame Hg. assert (HJ : blob_jobs (a_log st') = blob_jobs (a_log st)).
  { rewrite HL. unfold blob_jobs in *. by rewrite omap_app, Hj, app_nil_r. }
  split.
  - unfold good. rewrite HJ. intros Hs. eapply Ready_same; [exact Hsame|]. apply Hg. rewrite HL in Hs. by eapply Small_app.
  - split; [by exists ext|]. intros _. by apply same_holds.
Qed.
Lemma step_quiet st st' : a_log st' = a_log st -> same_repo (a_repo st) (a_repo st') -> good st -> good st' /\ mono st st'.
Proof. intros HL. apply (step_same st st' []); [by rewrite app_nil_r|done|]. by intros t buf Hin%elem_of_nil. Qed.

Lemma spec_repo {A} (P : ast -> Prop) (m : M S A) : stable P -> reads m -> spec P (on_repo m) (fun _ => P).
Proof.
  intros HP Hm st Hg. unfold on_repo. specialize (Hm (a_repo st)). destruct (m (a_repo st)) as [r x]. cbn [fst] in Hm.
  destruct (step_quiet st (mkAst r (a_env st) (a_log st)) eq_refl Hm Hg) as [Hg' M'].
  destruct x as [a|e|msg]; [|..|done]; (split; [done|]; split; [done|]); intros Hs; by apply HP.
Qed.
Lemma spec_env {A} (P : ast -> Prop) (f : Env F -> Env F * A) : stable P -> spec P (on_env f) (fun _ => P).
Proof.
  intros HP st Hg. unfold on_env. destruct (f (a_env st)) as [env a].
  destruct (step_quiet st (mkAst (a_repo st) env (a_log st)) eq_refl (same_repo_refl _) Hg) as [Hg' M'].
  split; [done|]. split; [done|]. intros Hs. by apply HP.
Qed.
Lemma spec_log (P : ast -> Prop) e : stable P -> (forall t buf, e ≠ EvBlob t buf) -> spec P (alog e) (fun _ => P).
Proof.
  intros HP Hne st Hg. unfold alog.
  destruct (step_same st (mkAst (a_repo st) (a_env st) (a_log st ++ [e])) [e] eq_refl) as [Hg' M']; try done.
  - destruct e; try done. by destruct (Hne t buf).
  - intros t buf Hin%list_elem_of_singleton. by apply (Hne t buf).
  - split; [done|]. split; [done|]. intros Hs. by apply HP.
Qed.

(** A blob that is saved is held. *)
Lemma spec_blob (P : ast -> Prop) t buf : stable P -> spec P (BlobSaver_Save be mh Hash nonce clock key t buf)
  (fun res st => P st /\ fb_id res = Hash buf /\ EvBlob t buf ∈ a_log st /\ holds st (mkHandle (Hash buf) t)).
Proof using All.
  intros HP st Hg. unfold BlobSaver_Save, abind, alog, on_repo. cbn [a_repo a_env a_log].
  destruct (SaveBlob be mh Hash nonce clock key t buf nullID false (a_repo st)) as [r [[id known]|e|m]] eqn:ES; [|done|done].
  set (st' := mkAst r (a_env st) (a_log st ++ [EvBlob t buf])).
  assert (HN : lenZ (blob_jobs (a_log st')) = lenZ (blob_jobs (a_log st)) + 1).
  { cbn [st' a_log]. unfold blob_jobs. rewrite omap_app, length_app. cbn [omap list_omap length]. lia. }
  assert (HR : Small (a_log st') -> Ready (N0 + lenZ (blob_jobs (a_log st')))
      (fun h => holds st h \/ h = mkHandle (Hash buf) t) r /\ id = Hash buf).
  { intros Hs. pose proof (Small_app _ _ Hs) as Hs0. destruct (Hg Hs0) as [(R1 & R2 & R3 & _) R4]. destruct Hs as [Hs1 Hs2].
    rewrite HN in Hs1 |- *. rewrite Z.add_assoc.
    pose proof (SaveBlob_Ready be norm contents mh Hash nonce clock key key_ok hash_wf nonce_ok any_pack (any_pack_refuses be norm contents) (N0 + lenZ (blob_jobs (a_log st)))
      (holds st) t buf nullID false ltac:(lia) (Hs2 t buf ltac:(cbn [st' a_log]; set_solver)) ltac:(left; by apply bool_decide_eq_true_2) (or_intror (fun _ => I)) (a_repo st)) as HT.
    rewrite ES in HT. apply HT. split; [|done]. split; [done|]. split; [done|]. split; [done|]. done. }
  assert (Hmono : mono st st').
  { split; [by exists [EvBlob t buf]|]. intros Hs h Hh. destruct (HR Hs) as [[(_ & _ & _ & Hc) _] _]. apply Hc. by left. }
  cbn [aret]. split; [|split; [exact Hmono|]].
  - intros Hs. destruct (HR Hs) as [[(R1 & R2 & R3 & _) R4] _]. split; [|done]. split; [done|]. split; [done|]. by split.
  - intros Hs Hp. destruct (HR Hs) as [[(_ & _ & _ & Hc) _] ->]. split; [by eapply HP|]. split; [done|].
    split; [cbn [st' a_log]; set_solver|]. apply Hc. by right.
Qed.

(** *** Complete trees *)

(** The tree was saved, with all that its nodes refer to. *)
Inductive complete (st : ast) : ID -> Prop :=
| complete_intro t : EvBlob TreeBlob (tree_encode t ++ [Byte.x0a]) ∈ a_log st ->
    holds st (mkHandle (Hash (tree_encode t ++ [Byte.x0a])) TreeBlob) ->
    (forall n c, n ∈ t_Nodes t -> c ∈ default [] (n_Content n) -> holds st (mkHandle c DataBlob)) ->
    (forall n sub, n ∈ t_Nodes t -> n_Subtree n = Some sub -> complete st sub) ->
    complete st (Hash (tree_encode t ++ [Byte.x0a])).
Definition node_ok (st : ast) (n : Node) : Prop :=
  (forall c, c ∈ default [] (n_Content n) -> holds st (mkHandle c DataBlob)) /\ (forall sub, n_Subtree n = Some sub -> complete st sub).
Definition tree_ok (t : Tree) (st : ast) : Prop := forall n, n ∈ t_Nodes t -> node_ok st n.
Definition fut_ok (fn : FutureNode) (st : ast) : Prop := forall n, fn_node (FutureNode_wait fn) = Some n -> node_ok st n.
Definition futs_ok (l : list FutureNode) (st : ast) : Prop := forall fn, fn ∈ l -> fut_ok fn st.

Lemma complete_mono st st' id : mono st st' -> Small (a_log st') -> complete st id -> complete st' id.
Proof.
  intros HM Hs Hc. induction Hc as [t Hin Hh Hc _ IH]. destruct HM as [[ext HL] HH]. constructor; auto.
  - rewrite HL. apply elem_of_app. by left.
  - intros n c Hn Hcc. apply HH; [done|]. by apply (Hc n).
Qed.
Lemma node_ok_stable n : stable (fun st => node_ok st n).
Proof. intros st st' HM Hs [H1 H2]. split; [intros c Hc; apply HM; auto|intros sub Hsub; eapply complete_mono; eauto]. Qed.
Lemma tree_ok_stable t : stable (tree_ok t).
Proof. intros st st' HM Hs Ht n Hn. eapply node_ok_stable; eauto. Qed.
Lemma fut_ok_stable fn : stable (fut_ok fn).
Proof. intros st st' HM Hs Ht n Hn. eapply node_ok_stable; eauto. Qed.
Lemma futs_ok_stable l : stable (futs_ok l).
Proof. intros st st' HM Hs Ht n Hn. eapply fut_ok_stable; eauto. Qed.
Lemma complete_stable id : stable (fun st => complete st id).
Proof. intros st st' HM Hs. by apply complete_mono. Qed.
Lemma holds_stable h : stable (fun st => holds st h).
Proof. intros st st' HM Hs. by apply HM. Qed.
Lemma and_stable (P Q : ast -> Prop) : stable P -> stable Q -> stable (fun st => P st /\ Q st).
Proof. intros HP HQ st st' HM Hs [? ?]. split; eauto. Qed.
Lemma pure_stable (X : Prop) : stable (fun _ => X).
Proof. by intros st st' _ _. Qed.
Lemma impl_stable (X : Prop) (P : ast -> Prop) : stable P -> stable (fun st => X -> P st).
Proof. intros HP st st' HM Hs HX Hx. eauto. Qed.
Lemma all_stable {A} (P : A -> ast -> Prop) : (forall a, stable (P a)) -> stable (fun st => forall a, P a st).
Proof. intros HP st st' HM Hs Ha a. eapply HP; eauto. Qed.
#[local] Hint Resolve node_ok_stable tree_ok_stable fut_ok_stable futs_ok_stable complete_stable holds_stable and_stable pure_stable
  impl_stable all_stable : stab.

Lemma spec_env_pure {A} (P : ast -> Prop) (f : Env F -> Env F * A) (R : A -> Prop) : stable P -> (forall env, R (f env).2) ->
  spec P (on_env f) (fun a st => P st /\ R a).
Proof.
  intros HP HR st Hg. pose proof (spec_env P f HP st Hg) as HS. unfold on_env in *. specialize (HR (a_env st)).
  destruct (f (a_env st)) as [env a]. destruct HS as (H1 & H2 & H3). split; [done|]. split; [done|]. auto.
Qed.

(** A node made from a file refers to nothing yet. *)
Definition fresh (n : Node) : Prop := n_Content n = None /\ n_Subtree n = None.
Lemma fillExtendedAttributes_fresh node path env : fresh node -> fresh (fillExtendedAttributes xattr_unsupported node path env).2.1.
Proof.
  intros Hf. unfold fillExtendedAttributes. case_bool_decide; [done|]. destruct (Listxattr _ _ _) as [env' [l|e]]; [|done].
  by destruct (get_attributes _ _ _ _).
Qed.
Lemma NodeFromFileInfo_fresh path fi env : fresh (NodeFromFileInfo zone xattr_unsupported path fi env).2.1.
Proof.
  unfold NodeFromFileInfo, fillExtra. destruct (oi_Sys fi) as [stat|]; [|done].
  destruct (lookupUsername _ env) as [e1 u], (lookupGroup _ e1) as [e2 g].
  cbn [n_Type]. set (t := nodeTypeFromFileInfo (oi_Mode fi)).
  repeat match goal with |- context [bool_decide (t = ?x)] => destruct (bool_decide (t = x)) eqn:? end; cbn [orb];
    try (by apply fillExtendedAttributes_fresh); try done;
    (destruct (on_fs _ e2) as [e3 [target|e]]; [by apply fillExtendedAttributes_fresh|done]).
Qed.

#[local] Abbreviation BlobSaver_Save_ := (BlobSaver_Save be mh Hash nonce clock key (F := F)).
#[local] Abbreviation saveTree_ := (saveTree be mh Hash nonce clock key (F := F)).
#[local] Abbreviation nodeFromFileInfo_ := (nodeFromFileInfo (S := S) zone xattr_unsupported arch).
#[local] Abbreviation saveFile_ := (saveFile be mh Hash nonce clock key zone xattr_unsupported arch).
#[local] Abbreviation FileSaver_Save_ := (FileSaver_Save be mh Hash nonce clock key zone xattr_unsupported arch).
#[local] Abbreviation TreeSaver_Save_ := (TreeSaver_Save be mh Hash nonce clock key arch (F := F)).

Lemma spec_nodeFromFileInfo (P : ast -> Prop) filename fi : stable P ->
  spec P (nodeFromFileInfo_ filename fi) (fun x st => P st /\ fresh x.1).
Proof.
  intros HP. eapply spec_bind; [apply (spec_env_pure P _ (fun x => fresh x.1) HP); intros env; apply NodeFromFileInfo_fresh|].
  intros [node err]. cbn [fst]. apply spec_ret. intros st [Hp Hf]. split; [done|]. by destruct (WithAtime arch).
Qed.

Lemma spec_saveTree (P : ast -> Prop) t : stable P -> (forall st, P st -> tree_ok t st) ->
  spec P (saveTree_ t) (fun x st => P st /\ complete st x.1).
Proof using All.
  intros HP Ht. eapply spec_bind; [by apply spec_blob|]. intros res. apply spec_ret. intros st (Hp & Hid & Hin & Hh). split; [done|].
  cbn [fst]. rewrite Hid. constructor; [done|done|intros n c Hn; by apply (Ht st Hp n Hn)|intros n sub Hn; by apply (Ht st Hp n Hn)].
Qed.

Definition blobs_held (l : list FutureBlob) (st : ast) : Prop := forall res, res ∈ l -> holds st (mkHandle (fb_id res) DataBlob).
Lemma blobs_held_stable l : stable (blobs_held l).
Proof. intros st st' HM Hs Hb res Hres. apply HM; auto. Qed.
#[local] Hint Resolve blobs_held_stable : stab.

Lemma spec_save_chunks filename chunks : forall (P : ast -> Prop), stable P ->
  spec P (save_chunks be mh Hash nonce clock key filename chunks)
    (fun results st => (P st /\ map fb_id results = map Hash chunks) /\ blobs_held results st).
Proof using All.
  induction chunks as [|c chunks IH]; intros P HP; cbn [save_chunks].
  { apply spec_ret. intros st Hp. split; [done|]. by intros res Hres%elem_of_nil. }
  eapply spec_bind; [by apply spec_blob|]. intros res.
  set (P1 := fun st => P st /\ fb_id res = Hash c /\ holds st (mkHandle (Hash c) DataBlob)).
  assert (HP1 : stable P1) by (unfold P1; auto with stab).
  eapply spec_bind; [apply (spec_weaken P1 _ _ (fun _ => P1) (fun _ => P1)); [by apply spec_log|unfold P1; tauto|done]|]. intros ?.
  eapply spec_bind; [apply (IH P1 HP1)|]. intros results. apply spec_ret.
  intros st [[(Hp & Hid & Hh) Hm] Hb]. split; [split; [done|cbn [map]; congruence]|].
  intros r [->|Hr]%elem_of_cons; [by rewrite Hid|by apply Hb].
Qed.

Lemma spec_close (P : ast -> Prop) (f : fs_File F) : stable P -> spec P (on_env (S := S) (on_fs (file_Close f))) (fun _ => P).
Proof. apply spec_env. Qed.

Lemma spec_saveFile (P : ast -> Prop) snPath f fi : stable P ->
  spec P (saveFile_ snPath f fi) (fun res st => P st /\ forall n, sf_node res = Some n -> node_ok st n).
Proof using All.
  intros HP. assert (Hfail : forall e st, P st -> P st /\ forall n, sf_node (file_failed e) = Some n -> node_ok st n) by done.
  unfold saveFile. eapply spec_bind; [by apply spec_log|]. intros ?.
  eapply spec_bind; [by apply spec_nodeFromFileInfo|]. intros [node [e|]]; cbn [fst].
  { eapply spec_bind; [apply spec_close; auto with stab|]. intros ?. apply spec_ret. intros st [Hp _]. by apply Hfail. }
  destruct (negb _).
  { eapply spec_bind; [apply spec_close; auto with stab|]. intros ?. apply spec_ret. intros st [Hp _]. by apply Hfail. }
  eapply spec_bind; [apply spec_env; auto with stab|]. intros [data rerr]. destruct (split _ data rerr) as [chunks err].
  eapply spec_bind; [apply spec_save_chunks; auto with stab|]. intros results.
  eapply spec_bind; [apply spec_close; auto with stab|]. intros cerr.
  destruct err as [e|]; [|destruct cerr as [e|]]; apply spec_ret; intros st [[[Hp [Hf1 Hf2]] Hm] Hb]; [by apply Hfail..|].
  split; [done|]. cbn [sf_node]. intros n [= <-]. split; cbn [set_contents n_Content n_Subtree default].
  - intros c (res & -> & Hres)%list_elem_of_fmap. by apply Hb.
  - unfold fresh in *. congruence.
Qed.

Definition quiet (complete : option Node -> ItemStats -> AM unit) : Prop :=
  forall n s (P : ast -> Prop), stable P -> spec P (complete n s) (fun _ => P).

Lemma spec_FileSaver (P : ast -> Prop) snPath f fi complete : stable P -> quiet complete ->
  spec P (FileSaver_Save_ snPath f fi complete) (fun res st => P st /\ forall n, sf_node res = Some n -> node_ok st n).
Proof using All.
  intros HP Hq. eapply spec_bind; [by apply spec_saveFile|]. intros res.
  eapply spec_bind; [apply Hq; auto with stab|]. intros ?. by apply spec_ret.
Qed.

Lemma Insert_nodes t n t' : Trees.Insert t n = Ok t' -> forall x, x ∈ t_Nodes t' -> x = n \/ x ∈ t_Nodes t.
Proof.
  unfold Trees.Insert. destruct (find t (n_Name n)) as [pos [?|]]; [done|]. intros [= <-] x. cbn [t_Nodes].
  rewrite elem_of_app, elem_of_cons. intros [Hx|[->|Hx]]; [right|by left|right]; [by eapply elem_of_take in Hx as (? & ? & _); eapply list_elem_of_lookup_2|].
  by eapply (sublist_subseteq _ _ (sublist_drop _ pos)) in Hx.
Qed.

Lemma spec_insert_nodes (P : ast -> Prop) nodes : stable P -> forall tree,
  spec (fun st => (P st /\ futs_ok nodes st) /\ tree_ok tree st) (insert_nodes arch nodes tree) (fun t st => P st /\ tree_ok t st).
Proof.
  intros HP. induction nodes as [|fn nodes IH]; intros tree; cbn [insert_nodes].
  { apply spec_ret. by intros st [[Hp _] Ht]. }
  assert (Hskip : forall st, (P st /\ futs_ok (fn :: nodes) st) /\ tree_ok tree st -> (P st /\ futs_ok nodes st) /\ tree_ok tree st).
  { intros st [[Hp Hf] Ht]. split; [split; [done|]|done]. intros x Hx. apply Hf. by right. }
  destruct (fn_err (FutureNode_wait fn)) as [e|].
  - destruct (Error arch) as [errFn|]; [|apply spec_panic]. destruct (errFn _ _ e); [apply spec_throw|].
    eapply spec_weaken; [apply IH|exact Hskip|done].
  - destruct (fn_node (FutureNode_wait fn)) as [node|] eqn:En; [|by eapply spec_weaken; [apply IH|exact Hskip|]].
    destruct (Trees.Insert tree node) as [tree'|e|m] eqn:EI; [|apply spec_throw|apply spec_panic].
    eapply spec_weaken; [apply IH| |done]. intros st Hst. pose proof (Hskip st Hst) as [Hp Ht]. split; [done|].
    intros x [->|Hx]%(Insert_nodes _ _ _ EI); [|by apply Ht]. destruct Hst as [[_ Hf] _]. apply (Hf fn); [by left|done].
Qed.

Lemma spec_TreeSaver_save (P : ast -> Prop) node nodes : stable P -> n_Content node = None -> (forall st, P st -> futs_ok nodes st) ->
  spec P (TreeSaver_save be mh Hash nonce clock key arch node nodes) (fun x st => P st /\ node_ok st x.1).
Proof using All.
  intros HP Hc Hf. eapply spec_bind.
  { eapply spec_weaken; [apply (spec_insert_nodes P nodes HP Trees.NewTree)| |intros t st Hx; exact Hx].
    intros st Hp. split; [split; [done|by apply Hf]|]. by intros n Hn%elem_of_nil. }
  intros tree. eapply spec_bind; [apply spec_saveTree; [auto with stab|by intros st [_ Ht]]|]. intros [id treeStats]. cbn [fst].
  apply spec_ret. intros st [[Hp _] Hid]. split; [done|]. split; cbn [set_contents n_Content n_Subtree fst]; [rewrite Hc; by intros c Hcc%elem_of_nil|by intros sub [= <-]].
Qed.

Lemma spec_TreeSaver (P : ast -> Prop) node nodes complete : stable P -> quiet complete -> n_Content node = None ->
  (forall st, P st -> futs_ok nodes st) ->
  spec P (TreeSaver_Save_ node nodes complete) (fun res st => P st /\ forall n, st_node res = Some n -> node_ok st n).
Proof using All.
  intros HP Hq Hc Hf. eapply spec_try; [done|by apply spec_TreeSaver_save| | |].
  - intros [n stats]. cbn [fst]. eapply spec_bind; [apply Hq; auto with stab|]. intros ?. apply spec_ret.
    intros st [Hp Hn]. split; [done|]. cbn [st_node]. by intros n' [= <-].
  - intros e. apply spec_throw.
  - intros e st. by eexists.
Qed.

Lemma spec_allBlobsPresent (P : ast -> Prop) prev : stable P ->
  spec P (allBlobsPresent (S := S) (F := F) mh prev) (fun b st => P st /\ (b = true -> forall c, c ∈ default [] (n_Content prev) -> holds st (mkHandle c DataBlob))).
Proof.
  intros HP st Hg. unfold allBlobsPresent. split; [done|]. split; [apply mono_refl|]. intros Hs Hp. split; [done|].
  intros Hall c Hc. rewrite forallb_forall in Hall. specialize (Hall c ltac:(by apply list_elem_of_In)).
  destruct (Hg Hs) as [(_ & _ & [A _ _ D _ _] & _) _]. apply MasterIndex_Has_spec in Hall as [Hpend|(pb & Hpb & Hh)]; [by apply D|left; by exists pb|done].
Qed.

Lemma spec_loadSubtree (P : ast -> Prop) node : stable P ->
  spec P (loadSubtree be mh Hash key cache node) (fun _ => P).
Proof.
  intros HP. unfold loadSubtree. destruct node as [node|]; [|by apply spec_ret]. destruct (n_Subtree node) as [id|]; [|by apply spec_ret].
  destruct (negb _); [by apply spec_ret|]. eapply spec_bind; [apply spec_repo; [done|apply LoadTree_reads]|]. intros [tree|e]; [by apply spec_ret|].
  eapply spec_bind; [|intros err; apply spec_ret; intros st Hp; exact Hp]. intros st Hg. split; [done|]. split; [apply mono_refl|done].
Qed.

Lemma spec_bind_pure {A B} (P : ast -> Prop) (m : AM A) (f : A -> AM B) (X : A -> Prop) Q R :
  (forall st, match m st with (_, Ok a) => X a | _ => True end) -> spec P m Q -> (forall a, X a -> spec (Q a) (f a) R) -> spec P (abind m f) R.
Proof.
  intros HX Hm Hf st Hg. unfold abind. specialize (Hm st Hg). specialize (HX st).
  destruct (m st) as [st1 [a|e|msg]]; [|done|done].
  destruct Hm as (Hg1 & M1 & HQ). specialize (Hf a HX st1 Hg1). destruct (f a st1) as [st2 [b|e|msg]]; [| |done].
  - destruct Hf as (Hg2 & M2 & HR). split; [done|]. split; [by eapply mono_trans|]. intros Hs Hp. apply HR; [done|].
    apply HQ; [by eapply mono_small|done].
  - destruct e; try done; destruct Hf as [Hg2 M2]; (split; [done|by eapply mono_trans]).
Qed.
Lemma nodeFromFileInfo_fresh filename fi st : match nodeFromFileInfo_ filename fi st with (_, Ok x) => fresh x.1 | _ => True end.
Proof.
  unfold nodeFromFileInfo, abind, on_env. pose proof (NodeFromFileInfo_fresh filename fi (a_env st)) as Hf.
  destruct (NodeFromFileInfo zone xattr_unsupported filename fi (a_env st)) as [env [node err]]. cbn [fst snd aret] in *. by destruct (WithAtime arch).
Qed.

Section with_save_facts.
Context (save : string -> string -> option Node -> AM (FutureNode * bool)).
Definition save_spec : Prop := forall snPath target previous (P : ast -> Prop), stable P ->
  spec P (save snPath target previous) (fun x st => P st /\ fut_ok x.1 st).
Context (Hsave : save_spec).

Lemma spec_save_names snPath dir fi previous names : forall (P : ast -> Prop), stable P ->
  spec P (save_names arch save snPath dir fi previous names) (fun l st => P st /\ futs_ok l st).
Proof using All.
  induction names as [|name names IH]; intros P HP; cbn [save_names].
  { apply spec_ret. intros st Hp. split; [done|]. by intros fn Hfn%elem_of_nil. }
  eapply spec_try; [done|by apply Hsave| | |].
  - intros [fn ex]. cbn [fst]. eapply spec_bind; [apply IH; auto with stab|]. intros l. apply spec_ret.
    intros st [[Hp Hfn] Hl]. split; [done|]. destruct ex; [done|]. intros x [->|Hx]%elem_of_cons; [done|by apply Hl].
  - intros e. eapply spec_bind; [apply spec_filtered|]. intros u. eapply spec_weaken; [apply (IH P HP)|by intros st [Hp _]|done].
  - intros e st. exists st. cbv beta iota. unfold abind. by rewrite filtered_canceled.
Qed.

Lemma spec_SaveDir (P : ast -> Prop) snPath fi dir previous complete : stable P -> quiet complete ->
  spec P (SaveDir be mh Hash nonce clock key zone xattr_unsupported arch save snPath fi dir previous complete)
    (fun res st => P st /\ forall n, st_node res = Some n -> node_ok st n).
Proof using All.
  intros HP Hq. unfold SaveDir. eapply (spec_bind_pure _ _ _ (fun x => fresh x.1)); [apply nodeFromFileInfo_fresh|by apply spec_nodeFromFileInfo|].
  intros [node [e|]] [Hfc _]; [apply spec_throw|]. cbn [fst] in *.
  eapply spec_bind; [apply spec_env; auto with stab|]. intros [names|e]; [|apply spec_throw].
  eapply spec_bind; [apply spec_save_names; auto with stab|]. intros nodes.
  eapply spec_weaken; [apply (spec_TreeSaver (fun st => P st /\ futs_ok nodes st)); [auto with stab|done|done|by intros st [_ ?]]| |].
  - by intros st [[Hp _] Hf].
  - by intros res st [[Hp _] Hn].
Qed.

Lemma quiet_log (f : option Node -> ItemStats -> event) : (forall n s t buf, f n s ≠ EvBlob t buf) -> quiet (fun n s => alog (f n s)).
Proof. intros Hf n s P HP. apply spec_log; [done|]. apply Hf. Qed.

Lemma fut_ok_excluded st : fut_ok excluded_result.1 st.
Proof. by intros n. Qed.
Lemma spec_ignored (P : ast -> Prop) item fi e wrap : spec P (filtered arch item fi e wrap excluded_result) (fun x st => P st /\ fut_ok x.1 st).
Proof. eapply spec_weaken; [apply spec_filtered|done|]. intros x st [Hp ->]. split; [done|apply fut_ok_excluded]. Qed.

Lemma spec_save_regular (P : ast -> Prop) snPath target abstarget fn fi previous : stable P ->
  fn_node fn = None -> fn_tree fn = None ->
  spec P (save_regular be mh Hash nonce clock key zone xattr_unsupported arch snPath target abstarget fn fi previous)
    (fun x st => P st /\ fut_ok x.1 st).
Proof using All.
  intros HP Hfn Hft. unfold save_regular. eapply spec_bind; [apply spec_env; auto with stab|]. intros [file|e]; [|apply spec_ignored].
  eapply spec_bind; [apply spec_env; auto with stab|].
  assert (Hclose : forall fi, spec P (on_env (on_fs (file_Close file));;; filtered arch abstarget fi (AMsg "file changed type, refusing to archive") (fun e => e) excluded_result)
    (fun x st => P st /\ fut_ok x.1 st)).
  { intros fi'. eapply spec_bind; [apply spec_close; auto with stab|]. intros ?. apply spec_ignored. }
  intros [[info|]|e]; [|apply Hclose|eapply spec_bind; [apply spec_close; auto with stab|]; intros ?; apply spec_ignored].
  destruct (negb (IsRegularFile info)); [apply Hclose|].
  eapply spec_bind; [apply spec_FileSaver; [done|by apply quiet_log]|]. intros res. apply spec_ret.
  intros st [Hp Hn]. split; [done|]. intros n. exact (Hn n).
Qed.

Lemma fut_ok_node st snPath target abst node : node_ok st node -> fut_ok (mkFuture snPath target abst None (Some node) no_stats None None None) st.
Proof. intros Hn n. cbn. by intros [= <-]. Qed.

Lemma spec_save_target snPath target previous (P : ast -> Prop) : stable P ->
  spec P (save_target be mh Hash nonce clock key cache zone xattr_unsupported arch save snPath target previous) (fun x st => P st /\ fut_ok x.1 st).
Proof using All.
  intros HP. unfold save_target. eapply spec_bind; [apply spec_env; auto with stab|]. intros [abst|e]; [|apply spec_throw].
  destruct (negb _); [apply spec_ret; intros st Hp; split; [done|apply fut_ok_excluded]|].
  eapply spec_bind; [apply spec_env; auto with stab|]. intros [fi|e]; [|apply spec_ignored].
  destruct (negb _); [apply spec_ret; intros st Hp; split; [done|apply fut_ok_excluded]|].
  destruct (IsRegularFile fi); [|destruct (IsDir fi); [|destruct (negb _)]].
  - eapply spec_bind; [by apply spec_lift|]. intros changed.
    destruct previous as [prev|]; [destruct changed|]; [by apply spec_save_regular| |by apply spec_save_regular].
    eapply spec_bind; [by apply spec_allBlobsPresent|]. intros [|].
    + eapply spec_bind; [apply spec_log; auto 10 with stab|]. intros ?. eapply spec_bind; [apply spec_log; auto 10 with stab|]. intros ?.
      eapply (spec_bind_pure _ _ _ (fun x => fresh x.1)); [apply nodeFromFileInfo_fresh|apply spec_nodeFromFileInfo; auto 10 with stab|].
      intros [node [e|]] [_ Hfs]; [apply spec_throw|]. cbn [fst] in *. apply spec_ret. intros st [[Hp Hc] _]. split; [done|].
      apply fut_ok_node. split; cbn [set_contents n_Content n_Subtree]; [auto|by rewrite Hfs].
    + eapply spec_bind; [apply spec_filtered|]. intros u. eapply spec_weaken; [by apply (spec_save_regular P)|by intros st [[Hp _] _]|done].
  - eapply spec_bind; [by apply spec_loadSubtree|]. intros [old err].
    eapply spec_bind; [|intros u; eapply spec_bind; [apply (spec_SaveDir P); [done|by apply quiet_log]|]].
    + destruct err as [e|]; [eapply spec_weaken; [apply (spec_filtered P)|done|by intros ? ? [? _]]|by apply spec_ret].
    + intros res. apply spec_ret. intros st [Hp Hn]. split; [done|]. intros n. exact (Hn n).
  - apply spec_ret. intros st Hp. split; [done|apply fut_ok_excluded].
  - eapply (spec_bind_pure _ _ _ (fun x => fresh x.1)); [apply nodeFromFileInfo_fresh|by apply spec_nodeFromFileInfo|].
    intros [node [e|]] [Hfc Hfs]; [apply spec_throw|]. cbn [fst] in *. apply spec_ret. intros st [Hp _]. split; [done|].
    apply fut_ok_node. split; [rewrite Hfc; by intros c Hc%elem_of_nil|by rewrite Hfs].
Qed.
End with_save_facts.

Lemma spec_Save fuel : save_spec (Save be mh Hash nonce clock key cache zone xattr_unsupported arch fuel).
Proof using All.
  induction fuel as [|fuel IH]; intros snPath target previous P HP; cbn [Save]; [apply spec_panic|]. by apply spec_save_target.
Qed.

(** *** The tree of the targets *)

Definition leaves_ok (l : list (string * FutureNode)) (st : ast) : Prop := forall p, p ∈ l -> fut_ok p.2 st.
Lemma leaves_ok_stable l : stable (leaves_ok l).
Proof. intros st st' HM Hs Hl p Hp. eapply fut_ok_stable; eauto. Qed.
Lemma leaves_ok_set name fn l st : fut_ok fn st -> leaves_ok l st -> leaves_ok (map_set name fn l) st.
Proof. intros Hfn Hl [n x] Hin. apply map_set_in in Hin as [[= -> ->]|Hin]; [done|by apply Hl]. Qed.
#[local] Hint Resolve leaves_ok_stable : stab.

Lemma node_ok_rename st n name size : node_ok st n -> node_ok st (set_contents n name size (n_Content n) (n_Subtree n)).
Proof. done. Qed.
Lemma tree_ok_Insert t n t' st : Trees.Insert t n = Ok t' -> node_ok st n -> tree_ok t st -> tree_ok t' st.
Proof. intros HI Hn Ht x [->|Hx]%(Insert_nodes _ _ _ HI); [done|by apply Ht]. Qed.

Lemma spec_insert_futures (P : ast -> Prop) futures : stable P -> forall tree,
  spec (fun st => P st /\ leaves_ok futures st /\ tree_ok tree st) (insert_futures arch futures tree) (fun t st => P st /\ tree_ok t st).
Proof using All.
  intros HP. induction futures as [|[name fn] futures IH]; intros tree; cbn [insert_futures].
  { apply spec_ret. by intros st (Hp & _ & Ht). }
  assert (Hskip : forall st, P st /\ leaves_ok ((name, fn) :: futures) st /\ tree_ok tree st -> P st /\ leaves_ok futures st /\ tree_ok tree st).
  { intros st (Hp & Hf & Ht). split; [done|]. split; [|done]. intros x Hx. apply Hf. by right. }
  destruct (fn_err (FutureNode_wait fn)) as [e|].
  - eapply spec_bind; [apply spec_filtered|]. intros u. eapply spec_weaken; [apply IH|intros st [Hst _]; by apply Hskip|done].
  - destruct (fn_node (FutureNode_wait fn)) as [node|] eqn:En; [|by eapply spec_weaken; [apply IH|exact Hskip|]].
    destruct (Trees.Insert tree _) as [tree'|e|m] eqn:EI; [|apply spec_throw|apply spec_panic].
    eapply spec_weaken; [apply IH| |done]. intros st Hst. pose proof (Hskip st Hst) as (Hp & Hl & Ht). split; [done|]. split; [done|].
    eapply tree_ok_Insert; [exact EI| |done]. apply node_ok_rename. destruct Hst as (_ & Hf & _).
    by apply (Hf (name, fn)); [left|].
Qed.

#[local] Abbreviation Save_ := (Save be mh Hash nonce clock key cache zone xattr_unsupported arch).
#[local] Abbreviation SaveTree_ := (SaveTree be mh Hash nonce clock key cache zone xattr_unsupported arch range_futures).

Lemma spec_statDir (P : ast -> Prop) dir : stable P -> spec P (statDir (S := S) (F := F) dir) (fun _ => P).
Proof. intros HP. eapply spec_bind; [by apply spec_env|]. intros x. by apply spec_ret. Qed.

Definition save_tree_spec (save_tree : string -> ATree -> option Tree -> AM Tree) : Prop :=
  forall snPath atree previous (P : ast -> Prop), stable P -> spec P (save_tree snPath atree previous) (fun t st => P st /\ tree_ok t st).

Lemma spec_tree_names fuel save_tree (Hsave : save_tree_spec save_tree) snPath atree previous names (P : ast -> Prop) : stable P ->
  forall tree futures, spec (fun st => P st /\ leaves_ok futures st /\ tree_ok tree st)
    (tree_names be mh Hash nonce clock key cache zone xattr_unsupported arch fuel save_tree snPath atree previous names tree futures)
    (fun x st => P st /\ leaves_ok x.2 st /\ tree_ok x.1 st).
Proof using All.
  intros HP. induction names as [|name names IH]; intros tree futures; cbn [tree_names]; [by apply spec_ret|].
  assert (HI : stable (fun st => P st /\ leaves_ok futures st /\ tree_ok tree st)) by auto with stab.
  set (sub := default (empty_tree "") (map_get name (at_Nodes atree))). destruct (Leaf sub).
  - eapply spec_try; [exact HI|by apply spec_Save| | |].
    + intros [fn ex]. cbn [fst]. eapply spec_weaken; [apply IH| |done]. intros st [(Hp & Hl & Ht) Hfn].
      split; [done|]. split; [|done]. destruct ex; [done|by apply leaves_ok_set].
    + intros e. eapply spec_bind; [apply spec_filtered|]. intros u. eapply spec_weaken; [apply IH|by intros st [Hst _]|done].
    + intros e st. exists st. cbv beta iota. unfold abind. by rewrite filtered_canceled.
  - eapply spec_bind; [by apply spec_loadSubtree|]. intros [old err].
    eapply (spec_bind _ _ _ (fun _ st => P st /\ leaves_ok futures st /\ tree_ok tree st)).
    { destruct err as [e|]; [|by apply spec_ret]. eapply spec_weaken; [apply spec_filtered|intros st Hst; exact Hst|by intros u st [Hst _]]. }
    intros u. eapply spec_bind; [by apply Hsave|]. intros subtree.
    eapply spec_bind; [apply spec_saveTree; [auto with stab|by intros st [_ Ht]]|]. intros [id stats]. cbn [fst].
    case_bool_decide; [apply spec_throw|].
    assert (HJ : stable (fun st => ((P st /\ leaves_ok futures st /\ tree_ok tree st) /\ tree_ok subtree st) /\ complete st id)) by auto with stab.
    eapply spec_bind; [by apply spec_statDir|].
    intros [fi|e]; [|apply spec_throw].
    eapply (spec_bind_pure _ _ _ (fun x => fresh x.1)); [apply nodeFromFileInfo_fresh|by apply spec_nodeFromFileInfo|].
    intros [node [e|]] [Hfc _]; [apply spec_throw|]. cbn [fst] in *.
    destruct (Trees.Insert tree _) as [tree'|e|m] eqn:EI; [|apply spec_throw|apply spec_panic].
    eapply spec_bind; [apply spec_log; [auto 10 with stab|done]|]. intros ?.
    eapply spec_weaken; [apply IH| |done]. intros st [[[(Hp & Hl & Ht) _] Hid] _]. split; [done|]. split; [done|].
    eapply tree_ok_Insert; [exact EI| |done]. split; cbn [set_contents n_Content n_Subtree]; [rewrite Hfc; by intros c Hc%elem_of_nil|by intros s [= <-]].
Qed.

Lemma spec_SaveTree depth fuel : save_tree_spec (SaveTree_ depth fuel).
Proof using All.
  induction depth as [|depth IH]; intros snPath atree previous P HP; cbn [SaveTree]; [apply spec_panic|].
  eapply spec_bind.
  { eapply spec_weaken; [apply (spec_tree_names fuel _ IH _ _ _ _ P HP Trees.NewTree [])| |intros x st Hx; exact Hx].
    intros st Hp. split; [done|]. split; [by intros p Hin%elem_of_nil|by intros n Hn%elem_of_nil]. }
  intros [tree futures]. cbn [fst snd]. eapply spec_weaken; [apply (spec_insert_futures P); done| |done].
  intros st (Hp & Hl & Ht). split; [done|]. split; [|done]. intros p Hin. apply Hl. by rewrite <- range_perm.
Qed.

Lemma spec_loadParentTree (P : ast -> Prop) id : stable P ->
  spec P (loadParentTree be mh Hash key cache id (F := F)) (fun _ => P).
Proof using All.
  intros HP. unfold loadParentTree. destruct (IsNull id); [by apply spec_ret|].
  eapply spec_bind; [apply spec_repo; [done|apply LoadSnapshot_reads]|]. intros [sn|e]; [|by apply spec_ret].
  destruct (s_Tree sn) as [t|]; [|by apply spec_ret].
  eapply spec_bind; [apply spec_repo; [done|apply LoadTree_reads]|]. intros [tree|e]; [by apply spec_ret|].
  eapply (spec_bind _ _ _ (fun _ => P)); [|intros err; by apply spec_ret]. intros st Hg. split; [done|]. split; [apply mono_refl|done].
Qed.

Lemma spec_save_root depth fuel atree parent :
  spec (fun _ => True) (save_root be mh Hash nonce clock key cache zone xattr_unsupported arch range_futures depth fuel atree parent)
    (fun x st => complete st x.1).
Proof using All.
  eapply spec_bind; [apply spec_loadParentTree; auto with stab|]. intros previous.
  eapply spec_bind; [apply spec_SaveTree; auto with stab|]. intros tree. case_bool_decide; [apply spec_throw|].
  eapply spec_weaken; [apply (spec_saveTree (fun st => True /\ tree_ok tree st)); [auto with stab|by intros st [_ ?]]|done|by intros x st [_ ?]].
Qed.

Lemma spec_resolve_targets targets : spec (fun _ => True) (resolve_targets (S := S) (F := F) targets) (fun _ _ => True).
Proof using All.
  induction targets as [|t targets IH]; cbn [resolve_targets]; [by apply spec_ret|].
  destruct (pathComponents _ _) as [pc ?]. eapply (spec_bind _ _ _ (fun _ _ => True)).
  - case_bool_decide; [by apply spec_ret|]. eapply spec_bind; [apply spec_env; auto with stab|].
    intros [names|e]; [by apply spec_ret|apply spec_throw].
  - intros found. eapply spec_bind; [apply IH|]. intros l. by apply spec_ret.
Qed.

(** *** Snapshots can be loaded *)

(** The tree with an ID, the contents of its files and all trees below it can
    be loaded, and loading changes nothing. *)
Inductive loadable (r : Repo S) : ID -> Prop :=
| loadable_intro id t : LoadTree be mh Hash key cache id r = (r, Ok t) ->
    (forall n c, n ∈ t_Nodes t -> c ∈ default [] (n_Content n) ->
       exists data, LoadBlob be mh Hash key cache DataBlob c r = (r, Ok data) /\ Hash data = c) ->
    (forall n sub, n ∈ t_Nodes t -> n_Subtree n = Some sub -> loadable r sub) ->
    loadable r id.

Lemma complete_loadable st r N C id :
  St norm contents mh Hash key any_pack N [] [] [] C r -> (forall h, holds st h -> C h) ->
  (forall t buf x, EvBlob t buf ∈ a_log st -> Hash x = Hash buf -> x = buf) ->
  complete st id -> loadable r id.
Proof using All.
  intros HSt HC Hcol Hc. induction Hc as [t Hin Hh Hcont _ IH].
  destruct (LoadBlob_covered be norm contents mh Hash key key_ok any_pack cache _ _ _ _ TreeBlob _ r HSt (HC _ Hh)) as (data & HL & Hd).
  apply (Hcol _ _ _ Hin) in Hd as ->. destruct (tree_roundtrip t) as (t' & Hdec & Hsame).
  assert (Hfrom : forall n', n' ∈ t_Nodes t' -> exists n, n ∈ t_Nodes t /\ same_refs n n').
  { intros n' [i Hi]%list_elem_of_lookup. destruct (Forall2_lookup_r _ _ _ _ _ Hsame Hi) as (n & Hn & Hnn). exists n.
    split; [by eapply list_elem_of_lookup_2|done]. }
  econstructor.
  - unfold LoadTree, Repository.bind. rewrite HL, Hdec. done.
  - intros n' c Hn' Hcc. destruct (Hfrom n' Hn') as (n & Hn & (_ & _ & Hcn & _)). rewrite Hcn in Hcc.
    apply (LoadBlob_covered be norm contents mh Hash key key_ok any_pack cache _ _ _ _ DataBlob c r HSt). apply HC. by eapply Hcont.
  - intros n' sub Hn' Hs. destruct (Hfrom n' Hn') as (n & Hn & (_ & _ & _ & Hsub)). eapply IH; [exact Hn|congruence].
Qed.

(** A file that was saved can be loaded. *)
Lemma SaveUnpacked_loads N d t opens C ty p : ty ≠ ConfigFile -> (forall id, wf_ID id -> Handle_Valid (mkBeHandle ty InvalidBlob (ID_String id)) = None) ->
  triple (St norm contents mh Hash key any_pack N d t opens C) (SaveUnpacked be Hash nonce key ty p)
    (fun id r => St norm contents mh Hash key any_pack N d t opens C r /\ LoadAndDecrypt be Hash key ty id r = (r, Ok p)).
Proof using All.
  intros Hty Hvalid. unfold SaveUnpacked. eapply triple_bind; [by apply St_nonce|]. intros n. apply triple_pure. intros [Hn Hv].
  rewrite encrypt_value by done. eapply triple_bind; [apply triple_lift|]. intros c. apply triple_pure. intros [= <-].
  rewrite (bool_decide_eq_false_2 (ty = ConfigFile)) by done.
  eapply triple_bind; [by apply (St_save be norm contents mh Hash key any_pack)|]. intros u. apply triple_ret. intros r [Hr Hc]. split; [done|].
  unfold LoadAndDecrypt, Repository.bind, be_read, LoadAll. rewrite (bool_decide_eq_false_2 (ty = ConfigFile)) by done. cbn [negb andb].
  erewrite load_file; [|by apply Hvalid|exact Hc|cbn; lia].
  cbn [fst snd rd_err rd_bytes rr_pos rr_data NewByteReader]. unfold file_range. cbn [Z.ltb Z.compare Z.to_nat]. rewrite !drop_0, repo_eta.
  unfold Equal. rewrite bool_decide_eq_true_2 by done. cbn [negb]. unfold lift. by rewrite decrypt_sealed.
Qed.

Lemma abind_ok {A B} (m : AM A) (f : A -> AM B) st st' b : abind m f st = (st', Ok b) -> exists st1 a, m st = (st1, Ok a) /\ f a st1 = (st', Ok b).
Proof. unfold abind. destruct (m st) as [st1 [a|e|msg]]; [|done|done]. by exists st1, a. Qed.
Lemma spec_ok {A} (P : ast -> Prop) (m : AM A) Q st st' a : spec P m Q -> good st -> P st -> m st = (st', Ok a) ->
  good st' /\ mono st st' /\ (Small (a_log st') -> Q a st').
Proof. intros Hm Hg Hp E. specialize (Hm st Hg). rewrite E in Hm. destruct Hm as (H1 & H2 & H3). auto. Qed.
Lemma Snapshot_valid id : wf_ID id -> Handle_Valid (mkBeHandle SnapshotFile InvalidBlob (ID_String id)) = None.
Proof.
  intros Hid. unfold Handle_Valid. cbn [h_Type h_Name]. rewrite (bool_decide_eq_false_2 (SnapshotFile = ""%string)) by done.
  rewrite (bool_decide_eq_true_2 (SnapshotFile ∈ _)) by (apply (bool_decide_eq_true_1 _); vm_compute; reflexivity).
  rewrite (bool_decide_eq_false_2 (SnapshotFile = ConfigFile)) by done. cbn [negb].
  rewrite bool_decide_eq_false_2; [done|]. intros Hn. apply (f_equal String.length) in Hn. by rewrite ID_String_length in Hn.
Qed.

(** The run up to the flush. *)
Lemma save_root_ok depth fuel atree parent st st' id stats : good st ->
  save_root be mh Hash nonce clock key cache zone xattr_unsupported arch range_futures depth fuel atree parent st = (st', Ok (id, stats)) ->
  good st' /\ (Small (a_log st') -> complete st' id).
Proof using All.
  intros Hg E. destruct (spec_ok _ _ _ _ _ _ (spec_save_root depth fuel atree parent) Hg I E) as (Hg' & _ & HQ). by split.
Qed.
Context (abs : string -> option string) (CurrentUser : option (string * (Z * Z + error))).
Lemma Snapshot_run fuel targets opts st0 st' sn id : good st0 -> a_log st0 = [] ->
  Snapshot_ be mh Hash nonce clock key cache zone xattr_unsupported arch range_futures abs CurrentUser fuel targets opts st0 = (st', Ok (sn, id)) ->
  exists st root r, good st /\ s_Tree sn = Some root /\ a_log st' = a_log st /\ (Small (a_log st) -> complete st root)
    /\ Flush be mh Hash nonce clock key (a_repo st) = (r, Ok tt)
    /\ SaveUnpacked be Hash nonce key SnapshotFile (snap_encode sn) r = (a_repo st', Ok id).
Proof using All.
  intros Hg HL. unfold Snapshot_. intros (st1 & ts & E1 & (st2 & r1 & E2 & (st3 & atree & E3 & (st4 & root & E4 & E5)%abind_ok)%abind_ok)%abind_ok)%abind_ok.
  destruct (spec_ok _ _ _ _ _ _ (spec_resolve_targets targets) Hg I E1) as (Hg1 & _ & _).
  destruct (spec_ok _ _ _ _ _ _ (spec_env (fun _ => True) _ (pure_stable True)) Hg1 I E2) as (Hg2 & _ & _).
  destruct (spec_ok _ _ _ _ _ _ (spec_lift (fun _ => True) _) Hg2 I E3) as (Hg3 & _ & _).
  unfold acatch in E4. destruct (save_root _ _ _ _ _ _ _ _ _ _ _ _ _ _ _ st3) as [st4' [[rootID stats]|e|m]] eqn:ER; [|by simplify_eq..].
  injection E4 as <- <-. destruct (save_root_ok _ _ _ _ _ _ _ _ Hg3 ER) as [Hg4 Hc4].
  apply abind_ok in E5 as (st5 & u & E5 & (st6 & fr & E6 & (st7 & u' & E7 & (st8 & sn0 & E8 & (st9 & sr & E9 & (st10 & sid & E10 & E11)%abind_ok)%abind_ok)%abind_ok)%abind_ok)%abind_ok).
  unfold alog in E5. injection E5 as <- _.
  set (st := mkAst (a_repo st4') (a_env st4') (a_log st4' ++ [EvCompleteItem "/" None None stats])) in *.
  destruct (step_same st4' st [EvCompleteItem "/" None None stats]) as [Hg5 M5]; try done; [by intros t buf Hin%list_elem_of_singleton|].
  unfold on_repo in E6. destruct (Flush be mh Hash nonce clock key (a_repo st)) as [r [[]|e|m]] eqn:EF; [|by simplify_eq/=..].
  injection E6 as <- <-. cbn [throw_repo aret] in E7. injection E7 as <- _.
  unfold alift in E8. injection E8 as <- _. cbn zeta in E9.
  unfold on_repo in E9. cbn [a_repo] in E9.
  match type of E9 with context [SaveUnpacked _ _ _ _ _ ?p r] => destruct (SaveUnpacked be Hash nonce key SnapshotFile p r) as [r' [x|e|m]] eqn:ES end;
    [|by simplify_eq/=..].
  injection E9 as <- <-. unfold throw_repo, aret in E10. injection E10 as <- <-. unfold aret in E11. injection E11 as <- <- <-.
  exists st, rootID, r. split; [done|]. split; [done|]. split; [done|]. split; [|by split].
  intros Hs. eapply complete_mono; [exact M5|done|]. apply Hc4. exact (Small_app _ _ Hs).
Qed.

(** C2: snapshots are complete.  If [Snapshot], run on a repository between
    operations (a new one, say) with any targets, parent snapshot, file
    system and callbacks, reports success, then, unless SHA-256 collides on
    what was saved, the snapshot file can be read back and is the snapshot;
    its tree, all trees below, and the blobs of the contents of all their
    files can be loaded.  This covers files taken over from the parent
    snapshot, files and directories that failed and were skipped, and trees
    that were already in the repository.  The run has at most 2^60 jobs, and
    each blob fits into a pack. *)
Theorem Snapshot_complete (fuel : nat) (targets : list string) (opts : SnapshotOptions) (r0 : Repo S) (env : Env F)
    (st' : ast) (sn : Snapshot) (id : ID) :
  Ready N0 (fun _ => False) r0 ->
  Snapshot_ be mh Hash nonce clock key cache zone xattr_unsupported arch range_futures abs CurrentUser fuel targets opts (mkAst r0 env [])
  = (st', Ok (sn, id)) ->
  Small (a_log st') ->
  (forall t buf x, EvBlob t buf ∈ a_log st' -> Hash x = Hash buf -> x = buf) ->
  (exists root, s_Tree sn = Some root /\ loadable (a_repo st') root)
  /\ LoadAndDecrypt be Hash key SnapshotFile id (a_repo st') = (a_repo st', Ok (snap_encode sn)).
Proof using All.
  intros HR E Hs Hcol. apply Snapshot_run in E as (st & root & r & Hg & Ht & HL & Hc & EF & ES); [| |done].
  2:{ intros _. cbn [a_log blob_jobs omap list_omap length]. by rewrite Z.add_0_r. }
  rewrite HL in Hs, Hcol. destruct (Hg Hs) as [(R1 & R2 & R3 & _) R4].
  assert (HR' : Ready (N0 + lenZ (blob_jobs (a_log st))) (holds st) (a_repo st)) by (split; [|done]; split; [done|]; split; [done|]; by split).
  pose proof (Flush_done be norm contents mh Hash nonce clock key key_ok hash_wf nonce_ok any_pack (any_pack_refuses be norm contents) _ (holds st) (proj1 Hs) _ HR') as HF.
  rewrite EF in HF.
  pose proof (SaveUnpacked_loads _ _ _ _ _ SnapshotFile (snap_encode sn) ltac:(done) Snapshot_valid r HF) as HU. rewrite ES in HU.
  destruct HU as [HSt HLd]. split; [|done]. exists root. split; [done|]. by eapply complete_loadable; [exact HSt|done|done|apply Hc].
Qed.
End facts.

(** ** A run in memory *)

(** A hash that is given for some data, and no other data has it. *)
Fixpoint table_hash (tbl : list (list byte * ID)) (l : list byte) : ID :=
  match tbl with
  | [] => Byte.xff :: take 31 (l ++ replicate 32 Byte.x00)
  | (data, id) :: tbl => if bool_decide (l = data) then id else table_hash tbl l
  end.
Definition table_ok (tbl : list (list byte * ID)) : bool :=
  bool_decide (NoDup (map snd tbl)) && forallb (fun p => bool_decide (length p.2 = 32%nat /\ p.2 !! 0%nat ≠ Some Byte.xff)) tbl.
Lemma table_hash_wf tbl l : table_ok tbl = true -> wf_ID (table_hash tbl l).
Proof.
  unfold table_ok. rewrite andb_true_iff. intros [_ Hall]. induction tbl as [|[data id] tbl IH]; cbn [table_hash].
  - unfold wf_ID. cbn [length]. rewrite length_take, length_app, length_replicate. lia.
  - cbn [forallb] in Hall. apply andb_true_iff in Hall as [[Hl _]%bool_decide_eq_true_1 Hall]. case_bool_decide; [done|by apply IH].
Qed.
Lemma table_hash_in tbl l : table_hash tbl l ∈ map snd tbl \/ table_hash tbl l !! 0%nat = Some Byte.xff.
Proof.
  induction tbl as [|[data id] tbl IH]; cbn [table_hash map]; [by right|]. case_bool_decide; [by left; left|].
  destruct IH as [IH|IH]; [by left; right|by right].
Qed.
Lemma table_hash_inj tbl data x : table_ok tbl = true -> data ∈ map fst tbl -> table_hash tbl x = table_hash tbl data -> x = data.
Proof.
  unfold table_ok. rewrite andb_true_iff. intros [Hnd%bool_decide_eq_true_1 Hall]. revert Hnd Hall.
  induction tbl as [|[d id] tbl IH]; cbn [map table_hash fst snd forallb]; [by intros _ _ Hin%elem_of_nil|].
  intros [Hid Hnd]%NoDup_cons [[Hl Hf]%bool_decide_eq_true_1 Hall]%andb_true_iff. cbn [snd] in *.
  assert (Hno : forall y, table_hash tbl y ≠ id).
  { intros y Hy. destruct (table_hash_in tbl y) as [Hin|Hff]; rewrite Hy in *; done. }
  intros Hin. case_bool_decide as H1; case_bool_decide as H2; intros Heq; [congruence| |by destruct (Hno x)|].
  - by destruct (Hno data).
  - apply elem_of_cons in Hin as [->|Hin]; [done|]. by apply IH.
Qed.

Definition node_refs (n : Node) : string * string * option (list ID) * option ID := (n_Name n, n_Type n, n_Content n, n_Subtree n).
Definition refs_node (x : string * string * option (list ID) * option ID) : Node :=
  let '(name, type, content, subtree) := x in
  mkNode name type 0 zeroTime zeroTime zeroTime 0 0 "" "" 0 0 0 0 "" [] 0 content subtree "" "".
Definition toy_trees : TreeCodec := {|
  tree_encode t := count_encode (map node_refs (t_Nodes t));
  tree_decode buf := (fun l => mkTree (map refs_node l)) <$> count_decode (take (length buf - 1) buf);
|}.
Lemma toy_trees_laws : @TreeCodecLaws toy_trees.
Proof.
  split. intros t. cbn [tree_decode tree_encode toy_trees]. rewrite length_app. cbn [length]. rewrite Nat.add_sub, take_app_length, count_decode_encode.
  eexists. split; [done|]. cbn [t_Nodes]. rewrite map_map. induction (t_Nodes t) as [|n l IH]; constructor; [by split|done].
Qed.

Definition toy_system : SysInfo map_fs := {|
  si_Readlink _ f := (f, inr ENotFound); si_xattr_List _ f := (f, inl []); si_xattr_Get _ _ f := (f, inr ENotFound);
  si_LookupId _ f := (f, None); si_LookupGroupId _ f := (f, None); si_Getuid := 0; si_Getgid := 0 |}.
Definition toy_chunker : Chunker := {| split _ data err := match err, data with Some e, _ => ([], Some e) | None, [] => ([], None) | None, _ => ([data], None) end |}.
Definition toy_snap_encoder : SnapshotEncoder := {| snap_encode sn := default [] (s_Tree sn) |}.
Definition toy_archiver : Archiver := mkArchiver (fun _ => true) (fun _ _ => true) (Some (fun _ _ _ => None)) false 0 0x3DA3358B4DC173.
Definition toy_options : SnapshotOptions := mkOptions None "host" None zeroTime nullID.

(** The trees of /a and /a/x, with their IDs and the contents of the files. *)
Definition toy_id (b : byte) : ID := replicate 32 b.
Definition toy_tree (l : list (string * string * option (list ID) * option ID)) : list byte := count_encode l ++ [Byte.x0a].
Definition toy_table : list (list byte * ID) := [
  ([Byte.x01; Byte.x02; Byte.x03], toy_id Byte.x01);
  (toy_tree [("z", "file", Some [toy_id Byte.x01], None)]%string, toy_id Byte.x03);
  ([Byte.x04; Byte.x05], toy_id Byte.x02);
  (toy_tree [("x", "dir", None, Some (toy_id Byte.x03)); ("y", "file", Some [toy_id Byte.x02], None)]%string, toy_id Byte.x04);
  (toy_tree [("a", "dir", None, Some (toy_id Byte.x04))]%string, toy_id Byte.x05)].
Definition toy_snapshot_run : ast Mem.memMap map_fs * res aerr (Snapshot * ID) :=
  Snapshot_ (CP := plain_prims) (IC := toy_codec) (SC := toy_snap_codec) (SE := toy_snap_encoder) (TC := toy_trees) (SI := toy_system) (CH := toy_chunker)
    toy_mem toy_mh (table_hash toy_table) toy_nonces toy_clock toy_key None (fun _ => 0) (fun _ => false)
    toy_archiver (fun l => l) (fun p => Some p) None 4 ["/a"%string] toy_options (mkAst toy_repo (mkEnv toy_dirs ∅ ∅) []).
Definition toy_snapshot : Snapshot :=
  mkSnapshot zeroTime None (Some (toy_id Byte.x05)) (Some ["/a"%string]) "host" "" 0 0 None None None None.
Definition toy_snapshot_id : ID := match toy_snapshot_run.2 with Ok (_, id) => id | _ => nullID end.

Lemma toy_run_ok : toy_snapshot_run.2 = Ok (toy_snapshot, toy_snapshot_id).
Proof. vm_compute. reflexivity. Qed.
Lemma toy_run_jobs : map snd (blob_jobs (a_log toy_snapshot_run.1)) = map fst toy_table.
Proof. vm_compute. reflexivity. Qed.
Lemma toy_run_job t buf : EvBlob t buf ∈ a_log toy_snapshot_run.1 -> buf ∈ map fst toy_table.
Proof.
  intros Hin. rewrite <- toy_run_jobs. apply (list_elem_of_fmap_2 snd _ (t, buf)). apply list_elem_of_omap. by exists (EvBlob t buf).
Qed.
Lemma toy_table_ok : table_ok toy_table = true.
Proof. vm_compute. reflexivity. Qed.
Lemma toy_run_small : Small 0 (a_log toy_snapshot_run.1).
Proof.
  split; [vm_compute; discriminate|]. intros t buf Hin%toy_run_job.
  assert (HF : Forall (fun b : list byte => lenZ b + 32 <= maxuint32) (map fst toy_table)) by (apply (bool_decide_eq_true_1 _); vm_compute; reflexivity).
  rewrite Forall_forall in HF. by apply HF.
Qed.

Lemma Snapshot_complete_witness :
  (exists root, s_Tree toy_snapshot = Some root
     /\ loadable toy_mem (CP := plain_prims) (TC := toy_trees) toy_mh (table_hash toy_table) toy_key None (a_repo toy_snapshot_run.1) root)
  /\ LoadAndDecrypt toy_mem (CP := plain_prims) (table_hash toy_table) toy_key SnapshotFile toy_snapshot_id (a_repo toy_snapshot_run.1)
     = (a_repo toy_snapshot_run.1, Ok (toy_id Byte.x05)).
Proof.
  assert (HR : toy_snapshot_run = (toy_snapshot_run.1, Ok (toy_snapshot, toy_snapshot_id))) by (rewrite <- toy_run_ok; by destruct toy_snapshot_run).
  unfold toy_snapshot_run at 1 in HR.
  exact (Snapshot_complete toy_mem Mem.normalize mem_contents (SL := mem_store_laws toy_md5 map_to_list)
    (FL := mem_file_laws toy_md5 map_to_list) (CL := plain_laws) (IC := toy_codec) (SC := toy_snap_codec) (SE := toy_snap_encoder) (TL := toy_trees_laws)
    toy_mh (table_hash toy_table) toy_nonces toy_clock toy_key None toy_key_ok (fun l => table_hash_wf _ l toy_table_ok) toy_nonces_ok
    (SI := toy_system) (CH := toy_chunker) (fun _ => 0) (fun _ => false) toy_archiver (fun l => l) (fun l => Permutation_refl l) 0
    (fun p => Some p) None 4 ["/a"%string] toy_options toy_repo (mkEnv toy_dirs ∅ ∅) toy_snapshot_run.1 toy_snapshot toy_snapshot_id
    (Ready_new Mem.normalize mem_contents toy_mh (table_hash toy_table) toy_key any_pack ∅ 0 false (any_pack_old _)) HR toy_run_small
    (fun t buf x Hin => table_hash_inj _ _ _ toy_table_ok (toy_run_job t buf Hin))).
Defined.

(** ** What is saved of a file *)

Section files.
Context {S : Type} (be : Backend S) {CP : CryptoPrims} {IC : IndexCodec} (mh : ID -> Z) (Hash : list byte -> ID) (nonce : nat -> list byte) (clock : nat -> Z) (key : Key).
Context {F : Type} {FSI : FS F} {SI : SysInfo F} {CH : Chunker} {CHL : ChunkerLaws} (zone : Z -> Z) (xattr_unsupported : error -> bool) (arch : Archiver).
#[local] Abbreviation saveFile_ := (saveFile be mh Hash nonce clock key zone xattr_unsupported arch (F := F)).

Lemma SaveBlob_id t buf (r r' : Repo S) id known : SaveBlob be mh Hash nonce clock key t buf nullID false r = (r', Ok (id, known)) -> id = Hash buf.
Proof.
  unfold SaveBlob. replace (IsNull nullID) with true by done. unfold Repository.bind, get_repo.
  destruct (addPending mh _ _) as [mi added]. unfold set_idx. destruct (negb (negb added) || false).
  - destruct (SaveAndEncrypt _ _ _ _ _ _ _ _ _ _) as [r1 [[]|e|m]]; [|done|done]. by intros [= _ <- _].
  - by intros [= _ <- _].
Qed.

(** What the events of a file are. *)
Definition file_events (filename : string) (chunks : list (list byte)) : list event :=
  concat (map (fun c => [EvBlob DataBlob c; EvCompleteBlob filename (lenZ c)]) chunks).
Lemma save_chunks_ok filename chunks : forall (st st' : ast S F) results,
  save_chunks be mh Hash nonce clock key filename chunks st = (st', Ok results) ->
  map fb_id results = map Hash chunks /\ a_log st' = a_log st ++ file_events filename chunks /\ a_env st' = a_env st.
Proof.
  induction chunks as [|c chunks IH]; intros st st' results; cbn [save_chunks].
  { unfold aret. intros [= <- <-]. by rewrite app_nil_r. }
  intros (st1 & res & E1 & (st2 & u0 & E2 & (st3 & rs & E3 & E4)%abind_ok)%abind_ok)%abind_ok.
  apply IH in E3 as (Hm & HL & HE). unfold aret in E4. injection E4 as <- <-. unfold alog in E2. injection E2 as <- _. cbn [a_log a_env] in *.
  apply abind_ok in E1 as (st4 & u & E1 & (st5 & r & E5 & E6)%abind_ok). unfold alog in E1. injection E1 as <- _.
  unfold on_repo in E5. cbn [a_repo a_env a_log] in E5.
  destruct (SaveBlob _ _ _ _ _ _ _ _ _ _ _) as [r' [[id known]|e|m]] eqn:ES;
    [|by simplify_eq/=..]. injection E5 as <- <-. unfold aret in E6. injection E6 as <- <-. apply SaveBlob_id in ES as ->. cbn [a_repo a_env a_log] in *.
  split; [cbn [map fb_id]; by rewrite Hm|]. split; [|done]. rewrite HL. unfold file_events. cbn [map concat]. by rewrite <- !app_assoc.
Qed.

Lemma u64_sum (chunks : list (list byte)) : forall size, fold_left (fun size c => u64 (size + lenZ c)) chunks (u64 size) = u64 (size + lenZ (concat chunks)).
Proof.
  induction chunks as [|c chunks IH]; intros size; cbn [fold_left concat]; [f_equal; cbn; lia|].
  replace (u64 (u64 size + lenZ c)) with (u64 (size + lenZ c)); [|unfold u64; by rewrite Zplus_mod_idemp_l].
  rewrite IH, length_app. f_equal. lia.
Qed.

(** C12: the saved file is the file that was read.  If [saveFile] reports a
    node, the node is a regular file; reading the file ended without an
    error, and closing it succeeded; the blobs that were saved for it, in
    the order of its contents, are pieces of at most 8 MiB which together
    are the data that was read, neither more nor less; their hashes are the
    contents of the node, and the number of bytes its size.  Otherwise the
    response is an error and has no node. *)
Theorem saveFile_exact (snPath : string) (f : fs_File F) (fi : OsInfo) (st st' : ast S F) (res : saveFileResponse) :
  saveFile_ snPath f fi st = (st', Ok res) ->
  match sf_node res with
  | None => sf_err res ≠ None
  | Some n => sf_err res = None /\ n_Type n = "file"%string
      /\ exists env data chunks, (on_fs (file_ReadAll f) env).2 = (data, None) /\ (on_fs (file_Close f) (on_fs (file_ReadAll f) env).1).2 = None
        /\ concat chunks = data /\ Forall (fun c => c ≠ [] /\ lenZ c <= MaxSize) chunks
        /\ n_Content n = Some (map Hash chunks) /\ n_Size n = u64 (lenZ data)
        /\ a_log st' = a_log st ++ EvStartFile snPath :: file_events (file_Name f) chunks
  end.
Proof using CHL.
  unfold saveFile. intros (st1 & u & E1 & (st2 & [node err] & E2 & E3)%abind_ok)%abind_ok. unfold alog in E1. injection E1 as <- _.
  assert (HL2 : a_log st2 = a_log st ++ [EvStartFile snPath]).
  { unfold nodeFromFileInfo, abind, on_env in E2. destruct (NodeFromFileInfo _ _ _ _ _) as [env' [n' err']]. unfold aret in E2. by injection E2 as <- _ _. }
  assert (Hfail : forall e s, (on_env (on_fs (file_Close f));;; aret (file_failed e)) s = (st', Ok res) -> res = file_failed e).
  { intros e s (s1 & ? & _ & Er)%abind_ok. unfold aret in Er. by injection Er as _ <-. }
  destruct err as [e|]; [by apply Hfail in E3 as ->|]. destruct (negb (bool_decide (n_Type node = "file"%string))) eqn:Et; [by apply Hfail in E3 as ->|].
  apply negb_false_iff, bool_decide_eq_true_1 in Et.
  apply abind_ok in E3 as (st3 & [data rerr] & E3 & E4). destruct (split _ data rerr) as [chunks err] eqn:Esp.
  apply abind_ok in E4 as (st4 & results & E4 & (st5 & cerr & E5 & E6)%abind_ok). apply save_chunks_ok in E4 as (Hm & HL4 & HE4).
  destruct (split_sound _ _ _ _ _ Esp) as [Hsize Hall]. unfold on_env in E3, E5.
  destruct (on_fs (file_ReadAll f) (a_env st2)) as [env3 x] eqn:ER. injection E3 as <- ->. cbn [a_env a_log] in HE4, HL4. rewrite HE4 in E5.
  destruct (on_fs (file_Close f) env3) as [env5 x] eqn:EC. injection E5 as <- ->.
  destruct err as [e|]; [unfold aret in E6; by injection E6 as <- <-|]. destruct cerr as [e|]; unfold aret in E6; injection E6 as <- <-; [done|].
  destruct (Hall eq_refl) as [-> <-]. cbn [file_failed sf_node sf_err set_contents n_Type n_Content n_Size a_log]. split; [done|]. split; [done|].
  exists (a_env st2), (concat chunks), chunks. rewrite ER. cbn [fst snd]. rewrite EC. split; [done|]. split; [done|]. split; [done|]. split; [done|].
  split; [by rewrite Hm|]. split; [exact (u64_sum chunks 0)|]. rewrite HL4, HL2, <- app_assoc. done.
Qed.
End files.

Definition byte_chunker : Chunker := {| split _ data err := (map (fun b => [b]) data, err) |}.
Lemma byte_chunker_laws : @ChunkerLaws byte_chunker.
Proof.
  split. cbn. intros _ data err cs err' [= <- <-]. split.
  - apply Forall_forall. intros c (b & -> & _)%list_elem_of_fmap. by split.
  - intros ->. split; [done|]. induction data as [|b data IH]; [done|]. cbn [map concat app]. by rewrite IH.
Qed.
Definition toy_open : string * (OsInfo * (list byte + list string)) := ("/a/y"%string, (toy_info "y" 0 2, inl [Byte.x04; Byte.x05])).
Definition toy_file_run : ast Mem.memMap map_fs * res aerr saveFileResponse :=
  saveFile (CP := plain_prims) (IC := toy_codec) (SI := toy_system) (CH := byte_chunker) toy_mem toy_mh toy_hash toy_nonces toy_clock toy_key
    (fun _ => 0) (fun _ => false) toy_archiver "/a/y" (toy_open : fs_File map_fs) (toy_info "y" 0 2) (mkAst toy_repo (mkEnv toy_dirs ∅ ∅) []).
Definition toy_file_result : saveFileResponse := match toy_file_run.2 with Ok x => x | _ => file_failed (AMsg "") end.
Lemma saveFile_exact_witness :
  (n_Content <$> sf_node toy_file_result) = Some (Some [toy_hash [Byte.x04]; toy_hash [Byte.x05]])
  /\ match sf_node toy_file_result with None => sf_err toy_file_result ≠ None | Some n => sf_err toy_file_result = None end.
Proof.
  assert (HR : toy_file_run = (toy_file_run.1, Ok toy_file_result)) by (vm_compute; reflexivity).
  unfold toy_file_run at 1 in HR.
  pose proof (saveFile_exact toy_mem (CP := plain_prims) (IC := toy_codec) (SI := toy_system) (CHL := byte_chunker_laws) toy_mh toy_hash toy_nonces toy_clock toy_key
    (fun _ => 0) (fun _ => false) toy_archiver "/a/y" toy_open _ _ _ _ HR) as HS.
  split; [vm_compute; reflexivity|]. destruct (sf_node toy_file_result); [exact (proj1 HS)|exact HS].
Defined.
