(* ===== verification/Scanner.v ===== *)
(** * Scanner: what a backup will save, counted in advance

    src/internal/archiver/scanner.go: the targets are put into the same tree as
    by the archiver (ArchTree), and everything below its leaves is counted.
    The callback [Result] is a log of its calls; [cancelled] says for every
    state of the file system whether the context has been cancelled by then. *)

From S2P Require Import Prelude Ids Duration Snapshots Backend Trees Paths FileInfo Repository ArchTree Archiver.
#[local] Open Scope Z_scope.

Record ScanStats : Type := mkScan { ss_Files : Z; ss_Dirs : Z; ss_Others : Z; ss_Bytes : Z }.
Definition no_scan : ScanStats := mkScan 0 0 0 0.
(** The switch over the mode of a file; directories after their entries. *)
Definition count_item (stats : ScanStats) (fi : OsInfo) : ScanStats :=
  if IsRegularFile fi then mkScan (u64 (ss_Files stats + 1)) (ss_Dirs stats) (ss_Others stats) (u64 (ss_Bytes stats + u64 (oi_Size fi)))
  else if IsDir fi then mkScan (ss_Files stats) (u64 (ss_Dirs stats + 1)) (ss_Others stats) (ss_Bytes stats)
  else mkScan (ss_Files stats) (ss_Dirs stats) (u64 (ss_Others stats + 1)) (ss_Bytes stats).

Record Scanner : Type := mkScanner {
  SelectByName : string -> bool;
  Select : string -> OsInfo -> bool;
  Error : string -> option OsInfo -> error -> option error;
}.
Definition NewScanner : Scanner := mkScanner (fun _ => true) (fun _ _ => true) (fun _ _ e => Some e).

Section scanner.
Context {F : Type} `{FSI : FS F} (cancelled : F -> bool) (s : Scanner).
(** The file system and the calls of [Result]. *)
#[local] Abbreviation St := (F * list (string * ScanStats))%type.

Definition report (item : string) (stats : ScanStats) (st : St) : St * res error ScanStats := ((st.1, st.2 ++ [(item, stats)]), Ok stats).
Definition handled (stats : ScanStats) (err : option error) : res error ScanStats := match err with Some e => Err e | None => Ok stats end.

Fixpoint scan_names (scan : ScanStats -> string -> St -> St * res error ScanStats) (dir : string) (names : list string) (stats : ScanStats) (st : St)
  : St * res error ScanStats :=
  match names with
  | [] => (st, Ok stats)
  | name :: names =>
      match scan stats (Join [dir; name]) st with
      | (st, Ok stats) => scan_names scan dir names stats st
      | r => r
      end
  end.
Fixpoint scan (fuel : nat) (stats : ScanStats) (target : string) (st : St) : St * res error ScanStats :=
  match fuel with
  | O => (st, Panic "out of fuel")
  | S fuel =>
      let '(f, log) := st in
      if cancelled f then (st, Ok stats)
      else if negb (SelectByName s target) then (st, Ok stats)
      else match fs_Lstat target f with
           | (f, inr e) => ((f, log), handled stats (Error s target None e))
           | (f, inl fi) =>
               if negb (Select s target fi) then ((f, log), Ok stats)
               else if IsRegularFile fi then report target (count_item stats fi) (f, log)
               else if IsDir fi then
                 match readdirnames target O_NOFOLLOW f with
                 | (f, inr e) => ((f, log), handled stats (Error s target (Some fi) e))
                 | (f, inl names) =>
                     match scan_names (scan fuel) target (sort_names names) stats (f, log) with
                     | (st, Ok stats) => report target (count_item stats fi) st
                     | r => r
                     end
                 end
               else report target (count_item stats fi) (f, log)
           end
  end.

Fixpoint tree_names (scanTree : ScanStats -> ATree -> St -> St * res error ScanStats) (tree : ATree) (names : list string) (stats : ScanStats) (st : St)
  : St * res error ScanStats :=
  match names with
  | [] => (st, Ok stats)
  | name :: names =>
      match scanTree stats (default (empty_tree "") (map_get name (at_Nodes tree))) st with
      | (st, Ok stats) => if cancelled st.1 then (st, Ok stats) else tree_names scanTree tree names stats st
      | r => r
      end
  end.
(** [depth] is the depth of the tree. *)
Fixpoint scanTree (fuel depth : nat) (stats : ScanStats) (tree : ATree) (st : St) : St * res error ScanStats :=
  match depth with
  | O => (st, Panic "out of fuel")
  | S depth =>
      if Leaf tree then
        match fs_Abs (at_Path tree) st.1 with
        | (f, inr e) => ((f, st.2), Err e)
        | (f, inl abstarget) => scan fuel stats abstarget (f, st.2)
        end
      else tree_names (scanTree fuel depth) tree (NodeNames tree) stats st
  end.

(** [resolveRelativeTargets] (src/internal/archiver/archiver.go) *)
Fixpoint resolveRelativeTargets (targets : list string) (f : F) : F * (list string + error) :=
  match targets with
  | [] => (f, inl [])
  | target :: targets =>
      let target := fs_Clean target in
      let '(pc, _) := pathComponents (F := F) target false in
      let '(f, found) :=
        if bool_decide (pc ≠ []) then (f, inl [target])
        else match readdirnames target O_NOFOLLOW f with
             | (f, inr e) => (f, inr e)
             | (f, inl entries) => (f, inl (map (fun name => fs_Join [target; name]) (sort_names entries)))
             end in
      match found with
      | inr e => (f, inr e)
      | inl found =>
          match resolveRelativeTargets targets f with
          | (f, inl result) => (f, inl (found ++ result))
          | (f, inr e) => (f, inr e)
          end
      end
  end.

Inductive scan_error : Type := ScanSys (e : error) | ScanTree (e : atree_error) | ScanPanic (msg : string).
Definition Scan (fuel : nat) (targets : list string) (st : St) : St * option scan_error :=
  match resolveRelativeTargets targets st.1 with
  | (f, inr e) => ((f, st.2), Some (ScanSys e))
  | (f, inl cleanTargets) =>
      match NewTree cleanTargets f with
      | (f, Err e) => ((f, st.2), Some (ScanTree e))
      | (f, Panic msg) => ((f, st.2), Some (ScanPanic msg))
      | (f, Ok tree) =>
          match scanTree fuel (depth tree) no_scan tree (f, st.2) with
          | (st, Ok stats) => ((report "" stats st).1, None)
          | (st, Err e) => (st, Some (ScanSys e))
          | (st, Panic msg) => (st, Some (ScanPanic msg))
          end
      end
  end.
End scanner.

(** ** The files of a file system that does not change *)

(** Sums of the sizes and numbers of files. *)
Fixpoint total (stats : ScanStats) (l : list (string * OsInfo)) : ScanStats :=
  match l with [] => stats | (_, fi) :: l => total (count_item stats fi) l end.
(** The calls of [Result] for files, in this order. *)
Fixpoint running (stats : ScanStats) (l : list (string * OsInfo)) : list (string * ScanStats) :=
  match l with [] => [] | (p, fi) :: l => (p, count_item stats fi) :: running (count_item stats fi) l end.
Lemma total_app stats l l' : total stats (l ++ l') = total (total stats l) l'.
Proof. revert stats. induction l as [|[p fi] l IH]; intros stats; [done|apply IH]. Qed.
Lemma running_app stats l l' : running stats (l ++ l') = running stats l ++ running (total stats l) l'.
Proof. revert stats. induction l as [|[p fi] l IH]; intros stats; [done|]. cbn. f_equal. apply IH. Qed.

Definition regular (x : string * OsInfo) : Prop := IsRegularFile x.2 = true.
Definition directory (x : string * OsInfo) : Prop := IsRegularFile x.2 = false /\ IsDir x.2 = true.
Definition sizes (l : list (string * OsInfo)) : Z := foldr (fun x n => oi_Size x.2 + n) 0 l.

(** The totals are the numbers of regular files, directories and others, and
    the sum of the sizes of the regular files, up to the width of the counters. *)
Lemma total_counts l : forall stats,
  u64 (ss_Files (total stats l)) = u64 (ss_Files stats + lenZ (filter regular l))
  /\ u64 (ss_Dirs (total stats l)) = u64 (ss_Dirs stats + lenZ (filter directory l))
  /\ u64 (ss_Others (total stats l)) = u64 (ss_Others stats + lenZ (filter (fun x => ¬ regular x /\ ¬ directory x) l))
  /\ u64 (ss_Bytes (total stats l)) = u64 (ss_Bytes stats + sizes (filter regular l)).
Proof.
  induction l as [|[p fi] l IH]; intros stats; [cbn; by rewrite !Z.add_0_r|].
  destruct (IH (count_item stats fi)) as (H1 & H2 & H3 & H4). cbn [total]. rewrite H1, H2, H3, H4. rewrite !filter_cons. unfold count_item, regular, directory.
  cbn [snd]. destruct (IsRegularFile fi) eqn:Er; [|destruct (IsDir fi) eqn:Ed].
  - rewrite decide_True by done. rewrite (decide_False (P := _ = false /\ _)) by naive_solver. rewrite (decide_False (P := ¬ _ /\ _)) by naive_solver.
    cbn [ss_Files ss_Dirs ss_Others ss_Bytes length sizes foldr snd]. rewrite !u64_add. split_and!; try done; [f_equal; lia|].
    fold (sizes (filter (fun x : string * OsInfo => IsRegularFile x.2 = true) l)). set (r := sizes _).
    replace (ss_Bytes stats + u64 (oi_Size fi) + r) with (ss_Bytes stats + r + u64 (oi_Size fi)) by lia. rewrite u64_add_r. f_equal; lia.
  - rewrite decide_False by done. rewrite (decide_True (P := _ = false /\ _)) by done. rewrite (decide_False (P := ¬ _ /\ _)) by naive_solver.
    cbn [ss_Files ss_Dirs ss_Others ss_Bytes length]. rewrite !u64_add. split_and!; try done. f_equal; lia.
  - rewrite decide_False by done. rewrite (decide_False (P := _ = false /\ _)) by naive_solver. rewrite (decide_True (P := ¬ _ /\ _)) by naive_solver.
    cbn [ss_Files ss_Dirs ss_Others ss_Bytes length]. rewrite !u64_add. split_and!; try done. f_equal; lia.
Qed.

Section visits.
Context {F : Type} `{FSI : FS F} (cancelled : F -> bool) (s : Scanner).
(** In a [stable] state the calls have fixed answers, and it stays so. *)
Context (stable : F -> Prop) (lstat : string -> OsInfo + error) (entries : string -> list string + error) (abs : string -> string + error).
Context (Hctx : forall f, stable f -> cancelled f = false).
Context (Hlstat : forall p f, stable f -> exists f', fs_Lstat p f = (f', lstat p) /\ stable f').
Context (Hentries : forall p f, stable f -> exists f', readdirnames p O_NOFOLLOW f = (f', entries p) /\ stable f').
Context (Habs : forall p f, stable f -> exists f', fs_Abs p f = (f', abs p) /\ stable f').

(** [visits p l r]: the files at and below [p] that are counted, in this
    order, up to the error that the callback [Error] returned, if any. *)
Inductive visits : string -> list (string * OsInfo) -> option error -> Prop :=
| visits_name p : SelectByName s p = false -> visits p [] None
| visits_missing p e : SelectByName s p = true -> lstat p = inr e -> visits p [] (Error s p None e)
| visits_excluded p fi : SelectByName s p = true -> lstat p = inl fi -> Select s p fi = false -> visits p [] None
| visits_file p fi : SelectByName s p = true -> lstat p = inl fi -> Select s p fi = true -> ¬ directory (p, fi) -> visits p [(p, fi)] None
| visits_unreadable p fi e : SelectByName s p = true -> lstat p = inl fi -> Select s p fi = true -> directory (p, fi) ->
    entries p = inr e -> visits p [] (Error s p (Some fi) e)
| visits_dir p fi names l r : SelectByName s p = true -> lstat p = inl fi -> Select s p fi = true -> directory (p, fi) ->
    entries p = inl names -> visits_all (map (fun name => Join [p; name]) (sort_names names)) l r ->
    visits p (l ++ if r then [] else [(p, fi)]) r
with visits_all : list string -> list (string * OsInfo) -> option error -> Prop :=
| visits_nil : visits_all [] [] None
| visits_stop p ps l e : visits p l (Some e) -> visits_all (p :: ps) l (Some e)
| visits_next p ps l l' r : visits p l None -> visits_all ps l' r -> visits_all (p :: ps) (l ++ l') r.
Scheme visits_ind' := Induction for visits Sort Prop with visits_all_ind' := Induction for visits_all Sort Prop.
Combined Scheme visits_mutind from visits_ind', visits_all_ind'.

(** What a scan of these files has done. *)
Definition scanned (stats : ScanStats) (log : list (string * ScanStats)) (l : list (string * OsInfo)) (r : option error)
    (x : (F * list (string * ScanStats)) * res error ScanStats) : Prop :=
  stable x.1.1 /\ x.1.2 = log ++ running stats l /\ x.2 = match r with None => Ok (total stats l) | Some e => Err e end.

Lemma scan_visits :
  (forall p l r, visits p l r -> exists k, forall fuel stats f log, (k <= fuel)%nat -> stable f ->
     scanned stats log l r (scan cancelled s fuel stats p (f, log)))
  /\ (forall ps l r, visits_all ps l r -> forall dir names, ps = map (fun name => Join [dir; name]) names ->
     exists k, forall fuel stats f log, (k <= fuel)%nat -> stable f ->
       scanned stats log l r (scan_names (scan cancelled s fuel) dir names stats (f, log))).
Proof using Hctx Hlstat Hentries.
  apply visits_mutind.
  - intros p Hn. exists 1%nat. intros [|fuel] stats f log Hk Hf; [lia|]. cbn [scan]. rewrite (Hctx f Hf), Hn. cbn [negb].
    split; [done|]. split; [by rewrite app_nil_r|done].
  - intros p e Hn Hl. exists 1%nat. intros [|fuel] stats f log Hk Hf; [lia|]. cbn [scan]. rewrite (Hctx f Hf), Hn. cbn [negb].
    destruct (Hlstat p f Hf) as (f' & -> & Hf'). rewrite Hl. split; [done|]. split; [by rewrite app_nil_r|]. by destruct (Error s p None e).
  - intros p fi Hn Hl Hs. exists 1%nat. intros [|fuel] stats f log Hk Hf; [lia|]. cbn [scan]. rewrite (Hctx f Hf), Hn. cbn [negb].
    destruct (Hlstat p f Hf) as (f' & -> & Hf'). rewrite Hl, Hs. split; [done|]. split; [by rewrite app_nil_r|done].
  - intros p fi Hn Hl Hs Hd. exists 1%nat. intros [|fuel] stats f log Hk Hf; [lia|]. cbn [scan]. rewrite (Hctx f Hf), Hn. cbn [negb].
    destruct (Hlstat p f Hf) as (f' & -> & Hf'). rewrite Hl, Hs. cbn [negb]. unfold directory in Hd. cbn [snd] in Hd.
    destruct (IsRegularFile fi) eqn:Er; [by split_and!|]. destruct (IsDir fi) eqn:Ed; [by destruct Hd|by split_and!].
  - intros p fi e Hn Hl Hs [Hr Hd] He. cbn [snd] in Hr, Hd. exists 1%nat. intros [|fuel] stats f log Hk Hf; [lia|]. cbn [scan].
    rewrite (Hctx f Hf), Hn. cbn [negb]. destruct (Hlstat p f Hf) as (f1 & -> & Hf1). rewrite Hl, Hs, Hr, Hd. cbn [negb].
    destruct (Hentries p f1 Hf1) as (f2 & -> & Hf2). rewrite He. split; [done|]. split; [by rewrite app_nil_r|]. by destruct (Error s p (Some fi) e).
  - intros p fi names l r Hn Hl Hs [Hr Hd] He _ IH. cbn [snd] in Hr, Hd. destruct (IH p _ eq_refl) as [k IH']. exists (S k).
    intros [|fuel] stats f log Hk Hf; [lia|]. cbn [scan].
    rewrite (Hctx f Hf), Hn. cbn [negb]. destruct (Hlstat p f Hf) as (f1 & -> & Hf1). rewrite Hl, Hs, Hr, Hd. cbn [negb].
    destruct (Hentries p f1 Hf1) as (f2 & -> & Hf2). rewrite He. specialize (IH' fuel stats f2 log ltac:(lia) Hf2).
    destruct (scan_names _ p _ stats (f2, log)) as [[f3 log3] r3]. destruct IH' as (H1 & H2 & H3). cbn [fst snd] in *. subst log3 r3.
    destruct r as [e|]; [split; [done|]; by rewrite app_nil_r|]. split; [done|]. rewrite running_app, total_app, app_assoc. done.
  - intros dir names Hp. destruct names; [|done]. exists 0%nat. intros fuel stats f log _ Hf. split; [done|]. split; [by rewrite app_nil_r|done].
  - intros p ps l e _ [k IH] dir names Hp. destruct names as [|name names]; [done|]. injection Hp as -> ->. exists k. intros fuel stats f log Hk Hf.
    cbn [scan_names]. specialize (IH fuel stats f log Hk Hf). destruct (scan _ _ _ stats _ (f, log)) as [st r]. destruct IH as (H1 & H2 & H3).
    cbn [fst snd] in *. subst r. by split_and!.
  - intros p ps l l' r _ [k IH] _ IHs dir names Hp. destruct names as [|name names]; [done|]. injection Hp as -> ->.
    destruct (IHs dir names eq_refl) as [k' IH']. exists (Nat.max k k'). intros fuel stats f log Hk Hf. cbn [scan_names].
    specialize (IH fuel stats f log ltac:(lia) Hf). destruct (scan _ _ _ stats _ (f, log)) as [[f1 log1] r1]. destruct IH as (H1 & H2 & H3).
    cbn [fst snd] in *. subst log1 r1. specialize (IH' fuel (total stats l) f1 (log ++ running stats l) ltac:(lia) H1).
    destruct (scan_names _ dir names _ _) as [st r1]. destruct IH' as (H4 & H5 & H6). split; [done|]. split; [by rewrite H5, <- app_assoc, running_app|].
    rewrite H6. by rewrite total_app.
Qed.

(** The paths of the leaves of a tree, in the order of their names. *)
Fixpoint leaf_paths (depth : nat) (t : ATree) : list string :=
  match depth with
  | O => []
  | S depth =>
      if Leaf t then [at_Path t]
      else concat (map (fun name => leaf_paths depth (default (empty_tree "") (map_get name (at_Nodes t)))) (NodeNames t))
  end.
(** The files at and below some paths, up to an error. *)
Inductive visits_paths : list string -> list (string * OsInfo) -> option error -> Prop :=
| paths_nil : visits_paths [] [] None
| paths_abs p ps e : abs p = inr e -> visits_paths (p :: ps) [] (Some e)
| paths_stop p ps a l e : abs p = inl a -> visits a l (Some e) -> visits_paths (p :: ps) l (Some e)
| paths_next p ps a l l' r : abs p = inl a -> visits a l None -> visits_paths ps l' r -> visits_paths (p :: ps) (l ++ l') r.

Lemma visits_paths_split ps ps' : forall l r, visits_paths (ps ++ ps') l r ->
  (exists e, r = Some e /\ visits_paths ps l (Some e))
  \/ exists l1 l2, l = l1 ++ l2 /\ visits_paths ps l1 None /\ visits_paths ps' l2 r.
Proof.
  induction ps as [|p ps IH]; intros l r Hv; [right; exists [], l; split_and!; [done|constructor|done]|].
  change ((p :: ps) ++ ps') with (p :: (ps ++ ps')) in Hv. inversion Hv as [|? ? e Ha|? ? a ? e Ha Hp|? ? a l1 l2 ? Ha Hp Hps]; subst.
  - left. exists e. split; [done|]. by constructor.
  - left. exists e. split; [done|]. by econstructor.
  - destruct (IH _ _ Hps) as [(e & -> & H1)|(l3 & l4 & -> & H1 & H2)].
    + left. exists e. split; [done|]. by econstructor.
    + right. exists (l1 ++ l3), l4. rewrite app_assoc. split; [done|]. split; [by econstructor|done].
Qed.

Lemma NodeNames_get t name : name ∈ NodeNames t -> exists sub, map_get name (at_Nodes t) = Some sub.
Proof.
  unfold NodeNames, sort_names. rewrite (merge_sort_Permutation String.le). induction (at_Nodes t) as [|[n sub] l IH]; [by intros ?%elem_of_nil|].
  cbn [map fst map_get]. case_bool_decide as Hn; [by eexists|]. intros [->|Hin]%elem_of_cons; [done|by apply IH].
Qed.

(** Scans are run one after the other: what was scanned first, then the rest. *)
Lemma scanned_app stats log l l' r f1 log1 r1 x :
  scanned stats log l None ((f1, log1), r1) -> scanned (total stats l) log1 l' r x -> scanned stats log (l ++ l') r x.
Proof.
  intros (_ & H2 & _) (H4 & H5 & H6). cbn [fst snd] in *. subst log1. split; [done|]. split; [by rewrite H5, <- app_assoc, running_app|].
  rewrite H6. by rewrite total_app.
Qed.

Lemma scanTree_visits d : forall t l r, (depth t <= d)%nat -> visits_paths (leaf_paths d t) l r ->
  exists k, forall fuel stats f log, (k <= fuel)%nat -> stable f -> scanned stats log l r (scanTree cancelled s fuel d stats t (f, log)).
Proof using Hctx Hlstat Hentries Habs.
  induction d as [|d IHd]; intros t l r Hd Hv; [destruct t; cbn in Hd; lia|]. cbn [leaf_paths] in Hv. cbn [scanTree]. destruct (Leaf t) eqn:El.
  - cbn [fst snd]. inversion Hv as [|? ? e Ha|? ? a ? e Ha Hp|? ? a l1 l2 ? Ha Hp Hps]; subst.
    + exists 0%nat. intros fuel stats f log _ Hf. destruct (Habs (at_Path t) f Hf) as (f1 & -> & Hf1). rewrite Ha. split; [done|].
      split; [by rewrite app_nil_r|done].
    + destruct (proj1 scan_visits _ _ _ Hp) as [k Hk]. exists k. intros fuel stats f log Hfu Hf. destruct (Habs (at_Path t) f Hf) as (f1 & -> & Hf1).
      rewrite Ha. by apply Hk.
    + inversion Hps; subst. rewrite app_nil_r. destruct (proj1 scan_visits _ _ _ Hp) as [k Hk]. exists k. intros fuel stats f log Hfu Hf.
      destruct (Habs (at_Path t) f Hf) as (f1 & -> & Hf1). rewrite Ha. by apply Hk.
  - assert (Hin : forall name, name ∈ NodeNames t -> exists sub, map_get name (at_Nodes t) = Some sub) by apply NodeNames_get.
    revert l r Hv Hin. induction (NodeNames t) as [|name names IHn]; intros l r Hv Hin.
    + inversion Hv; subst. exists 0%nat. intros fuel stats f log _ Hf. split; [done|]. split; [by rewrite app_nil_r|done].
    + cbn [map concat] in Hv. cbn [tree_names]. destruct (Hin name ltac:(left)) as [sub Es]. rewrite Es in *. cbn [default] in *. change (id sub) with sub in *.
      apply depth_sub in Es. apply visits_paths_split in Hv as [(e & -> & H1)|(l1 & l2 & -> & H1 & H2)];
        (destruct (IHd sub _ _ ltac:(lia) H1) as [k Hk]).
      * exists k. intros fuel stats f log Hfu Hf. specialize (Hk fuel stats f log Hfu Hf). destruct (scanTree _ _ _ _ stats sub _) as [st r1].
        destruct Hk as (H3 & H4 & H5). cbn [fst snd] in *. subst r1. by split_and!.
      * destruct (IHn _ _ H2) as [k' Hk']; [intros n Hn; apply Hin; by right|]. exists (Nat.max k k'). intros fuel stats f log Hfu Hf.
        specialize (Hk fuel stats f log ltac:(lia) Hf). destruct (scanTree _ _ _ _ stats sub _) as [[f1 log1] r1]. pose proof Hk as (H3 & _ & H5).
        cbn [fst snd] in *. subst r1. rewrite (Hctx f1 H3). eapply scanned_app; [exact Hk|]. apply Hk'; [lia|done].
Qed.

(** A scan counts what a backup of the same targets would save: for a file
    system that does not change meanwhile, it ends, and calls [Result] with the
    running totals for every selected file below the leaves of the targets'
    tree, in their order, directories after what is in them, and then with the
    totals; an error that the callback does not ignore stops it there, without
    totals. *)
Theorem Scan_total targets f log f1 clean f2 t l r :
  resolveRelativeTargets targets f = (f1, inl clean) -> NewTree clean f1 = (f2, Ok t) -> stable f2 -> visits_paths (leaf_paths (depth t) t) l r ->
  exists k, forall fuel, (k <= fuel)%nat -> exists f',
    Scan cancelled s fuel targets (f, log)
    = ((f', log ++ running no_scan l ++ if r then [] else [(""%string, total no_scan l)]), ScanSys <$> r).
Proof using Hctx Hlstat Hentries Habs.
  intros E1 E2 Hf Hv. destruct (scanTree_visits (depth t) t l r (le_n _) Hv) as [k Hk]. exists k. intros fuel Hfu. unfold Scan. cbn [fst snd].
  rewrite E1, E2. specialize (Hk fuel no_scan f2 log Hfu Hf). destruct (scanTree _ _ _ _ _ t _) as [[f3 log3] r3]. destruct Hk as (_ & H2 & H3).
  cbn [fst snd] in *. subst log3 r3. exists f3. destruct r as [e|]; [by rewrite app_nil_r|]. unfold report. cbn [fst snd]. by rewrite <- app_assoc.
Qed.
End visits.

(** The archiver's targets are the same. *)
Lemma resolve_targets_same {S F} `{FSI : FS F} targets : forall st : ast S F,
  resolve_targets targets st
  = let '(f, r) := resolveRelativeTargets targets (e_fs (a_env st)) in
    (mkAst (a_repo st) (mkEnv f (uidLookupCache (a_env st)) (gidLookupCache (a_env st))) (a_log st),
     match r with inl l => Ok l | inr e => Err (ASys e) end).
Proof.
  induction targets as [|target targets IH]; intros [repo [f u g] log]; [done|]. cbn [resolve_targets resolveRelativeTargets].
  destruct (pathComponents (fs_Clean target) false) as [pc vp]. case_bool_decide as Hpc.
  - unfold abind at 1, aret at 1. unfold abind. rewrite IH. cbn [e_fs a_env a_repo a_log uidLookupCache gidLookupCache].
    destruct (resolveRelativeTargets targets f) as [f' [x|e]]; done.
  - unfold abind at 1. unfold abind at 1. unfold on_env, on_fs. cbn [e_fs a_env a_repo a_log uidLookupCache gidLookupCache].
    destruct (readdirnames (fs_Clean target) O_NOFOLLOW f) as [f1 [names|e]]; [|done]. unfold aret at 1, abind. rewrite IH.
    cbn [e_fs a_env a_repo a_log uidLookupCache gidLookupCache]. destruct (resolveRelativeTargets targets f1) as [f' [x|e]]; done.
Qed.

(** ** A scan of a small file system *)

Definition toy_lstat (p : string) : OsInfo + error := (fs_Lstat p toy_dirs).2.
Definition toy_entries (p : string) : list string + error := (readdirnames p O_NOFOLLOW toy_dirs).2.
Definition toy_abs (p : string) : string + error := (fs_Abs p toy_dirs).2.
Definition toy_found : list (string * OsInfo) := [
  ("/a/x/z"%string, toy_info "z" 0 3); ("/a/x"%string, toy_info "x" ModeDir 0); ("/a/y"%string, toy_info "y" 0 2); ("/a"%string, toy_info "a" ModeDir 0)].
Definition toy_scan_tree : ATree := match (NewTree ["/a"%string] toy_dirs).2 with Ok t => t | _ => empty_tree "" end.
Lemma toy_readdir p : exists f', readdirnames p O_NOFOLLOW toy_dirs = (f', toy_entries p) /\ f' = toy_dirs.
Proof. unfold toy_entries, readdirnames. cbn [fs_OpenFile map_FS]. destruct (toy_dirs !! p) as [[i [d|l]]|]; by eexists. Qed.
Lemma toy_visits : visits NewScanner toy_lstat toy_entries "/a" toy_found None.
Proof.
  assert (Hdir : forall n, directory (n, toy_info "a" ModeDir 0)) by by split.
  change toy_found with ([("/a/x/z"%string, toy_info "z" 0 3); ("/a/x"%string, toy_info "x" ModeDir 0); ("/a/y"%string, toy_info "y" 0 2)]
    ++ (if None : option error then [] else [("/a"%string, toy_info "a" ModeDir 0)])).
  eapply (visits_dir _ _ _ "/a" _ ["x"; "y"]%string); try (vm_compute; reflexivity); [by split|].
  change (map _ _) with ["/a/x"; "/a/y"]%string.
  change [("/a/x/z"%string, toy_info "z" 0 3); ("/a/x"%string, toy_info "x" ModeDir 0); ("/a/y"%string, toy_info "y" 0 2)]
    with (([("/a/x/z"%string, toy_info "z" 0 3)] ++ (if None : option error then [] else [("/a/x"%string, toy_info "x" ModeDir 0)]))
      ++ ([("/a/y"%string, toy_info "y" 0 2)] ++ [])).
  apply visits_next; [|apply visits_next; [|apply visits_nil]].
  - apply (visits_dir NewScanner toy_lstat toy_entries "/a/x" (toy_info "x" ModeDir 0) ["z"]%string [("/a/x/z"%string, toy_info "z" 0 3)] None);
      try (vm_compute; reflexivity); [by split|]. change (map _ _) with ["/a/x/z"]%string.
    change [("/a/x/z"%string, toy_info "z" 0 3)] with ([("/a/x/z"%string, toy_info "z" 0 3)] ++ []). apply visits_next; [|apply visits_nil].
    apply visits_file; try (vm_compute; reflexivity). by intros [? _].
  - apply visits_file; try (vm_compute; reflexivity). by intros [? _].
Qed.
Lemma Scan_total_witness : exists k, forall fuel, (k <= fuel)%nat -> exists f', Scan (fun _ => false) NewScanner fuel ["/a"%string] (toy_dirs, [])
  = ((f', running no_scan toy_found ++ [(""%string, mkScan 2 2 0 5)]), None).
Proof.
  refine (Scan_total (fun _ => false) NewScanner (fun f => f = toy_dirs) toy_lstat toy_entries toy_abs _ _ _ _ ["/a"%string] toy_dirs [] toy_dirs
    ["/a"%string] toy_dirs toy_scan_tree toy_found None _ _ eq_refl _).
  - done.
  - intros p f ->. by eexists.
  - intros p f ->. apply toy_readdir.
  - intros p f ->. by eexists.
  - vm_compute. reflexivity.
  - vm_compute. reflexivity.
  - change (leaf_paths _ _) with ["/a"%string]. change toy_found with (toy_found ++ []).
    eapply paths_next; [|exact toy_visits|apply paths_nil]. vm_compute. reflexivity.
Defined.
