(* ===== verification/Vss.v ===== *)
(** * Vss: files read from shadow copies of volumes

    src/internal/fs/fs_local_vss.go, with fixpath of file_windows.go: the first
    file of a volume makes a shadow copy of it, from which the volume's files
    are then read.  Making and deleting shadow copies (COM interfaces of
    Windows) and the path functions of Windows are parameters.  Several
    goroutines read files at the same time; the test for a shadow copy is made
    with a read lock and again with the write lock ([vstep]). *)

From S2P Require Import Prelude Ids Backend.
From stdpp Require Import relations.
#[local] Open Scope string_scope.
#[local] Open Scope list_scope.

(** ** Paths on Windows *)

Class WinPath : Type := {
  fp_Abs : string -> option string;
  fp_VolumeName : string -> string;
  fp_IsAbs : string -> bool;
  fp_Clean : string -> string;
  fp_Dir : string -> string;
  fp_Join : list string -> string;
  fp_Rel : string -> string -> option string;
  to_lower : string -> string;
}.

Section paths.
Context `{WP : WinPath}.
Definition trim_prefix (prefix s : string) : string :=
  if String.prefix prefix s then String.substring (String.length prefix) (String.length s - String.length prefix) s else s.
Definition fixpath (name : string) : string :=
  match fp_Abs name with
  | None => name
  | Some abspath =>
      if String.prefix "\\?\UNC\" abspath then abspath
      else if String.prefix "\\?\" abspath then abspath
      else if String.prefix "\\" abspath then ("\\?\UNC\" ++ trim_prefix "\\" abspath)%string
      else ("\\?\" ++ abspath)%string
  end.

(** [HasPathPrefix] with these paths; each round has a shorter path, or is the
    last. *)
Fixpoint prefix_rounds (fuel : nat) (base p : string) : bool :=
  match fuel with
  | O => false
  | S fuel =>
      let dir := fp_Dir p in
      if bool_decide (base = dir) then true
      else if bool_decide (p = dir) then false
      else prefix_rounds fuel base dir
  end.
Definition has_path_prefix (base p : string) : bool :=
  if negb (bool_decide (fp_VolumeName base = fp_VolumeName p)) then false
  else if negb (eqb (fp_IsAbs base) (fp_IsAbs p)) then false
  else
    let base := fp_Clean base in
    let p := fp_Clean p in
    if bool_decide (base = p) then true else prefix_rounds (S (String.length p)) base p.

(** ** Shadow copies *)

Record MountPoint : Type := mkMount { isSnapshotted : bool; mount_device : string }.
(** The mount points in the order in which the map is ranged over. *)
Record VssSnapshot : Type := mkVss { snap_device : string; mountPointInfo : list (string * MountPoint) }.
(** Making and deleting a shadow copy, in a state of the system. *)
Class Shadow (W : Type) : Type := {
  NewVssSnapshot : string -> W -> W * (VssSnapshot + error);
  vss_Delete : VssSnapshot -> W -> W * option error;
}.

(** [attempts] has the volumes for which a shadow copy was asked for; [messages]
    what was reported. *)
Record LocalVss : Type := mkLocalVss {
  snapshots : gmap string VssSnapshot; failedSnapshots : gset string; attempts : list string; messages : list (string * option error);
}.
Definition NewLocalVss : LocalVss := mkLocalVss ∅ ∅ [] [].
Definition known (st : LocalVss) (volume : string) : bool := bool_decide (is_Some (snapshots st !! volume)) || bool_decide (volume ∈ failedSnapshots st).

Section shadow.
Context {W : Type} `{SW : Shadow W}.

(** The part with the write lock. *)
Definition create_snapshot (volume : string) (st : LocalVss) (w : W) : LocalVss * W :=
  if known st volume then (st, w)
  else
    let vssVolume := (volume ++ "\")%string in
    let msgs := messages st ++ [(("creating VSS snapshot for " ++ vssVolume)%string, None)] in
    match NewVssSnapshot vssVolume w with
    | (w, inr e) => (mkLocalVss (snapshots st) ({[volume]} ∪ failedSnapshots st) (attempts st ++ [volume]) (msgs ++ [(vssVolume, Some e)]), w)
    | (w, inl snap) =>
        (mkLocalVss (<[volume := snap]> (snapshots st)) (failedSnapshots st) (attempts st ++ [volume])
           (msgs ++ [(("successfully created snapshot for " ++ vssVolume)%string, None)]
            ++ map (fun mp => ((mp.1 ++ (if isSnapshotted mp.2 then "" else " (not snapshotted)"))%string, None)) (mountPointInfo snap)), w)
    end.

(** A path in a shadow copy: on a volume, or below a mount point in it. *)
Definition in_device (device rest : string) : string :=
  let p := fp_Join [device; rest] in if bool_decide (p = device) then (p ++ "\")%string else p.
Fixpoint mount_path (path fixPath : string) (mounts : list (string * MountPoint)) : option (res error string) :=
  match mounts with
  | [] => None
  | (mountPoint, info) :: mounts =>
      if has_path_prefix mountPoint (to_lower fixPath) then
        Some (if negb (isSnapshotted info) then Ok path
              else match fp_Rel mountPoint fixPath with
                   | None => Panic "Rel"
                   | Some rel => Ok (in_device (mount_device info) rel)
                   end)
      else mount_path path fixPath mounts
  end.
Definition path_in (path fixPath volumeName : string) (st : LocalVss) : res error string :=
  match snapshots st !! to_lower volumeName with
  | None => Ok path
  | Some snap =>
      match mount_path path fixPath (mountPointInfo snap) with
      | Some r => r
      | None => Ok (in_device (snap_device snap) (trim_prefix volumeName fixPath))
      end
  end.
Definition snapshotPath (path : string) (st : LocalVss) (w : W) : LocalVss * W * res error string :=
  if String.prefix "\\?\UNC\" (fixpath path) then (st, w, Ok path)
  else
    let fixPath := trim_prefix "\\?\" (fixpath path) in
    let volumeName := fp_VolumeName fixPath in
    let '(st, w) := if known st (to_lower volumeName) then (st, w) else create_snapshot (to_lower volumeName) st w in
    (st, w, path_in path fixPath volumeName st).

(** [DeleteSnapshots]: those that could not be deleted stay. *)
Fixpoint delete_snapshots (l : list (string * VssSnapshot)) (active : gmap string VssSnapshot) (msgs : list (string * option error)) (w : W)
  : gmap string VssSnapshot * list (string * option error) * W :=
  match l with
  | [] => (active, msgs, w)
  | (volume, snap) :: l =>
      match vss_Delete snap w with
      | (w, Some e) => delete_snapshots l (<[volume := snap]> active) (msgs ++ [(volume, Some e)]) w
      | (w, None) => delete_snapshots l active msgs w
      end
  end.
Definition DeleteSnapshots (st : LocalVss) (w : W) : LocalVss * W :=
  let '(active, msgs, w) := delete_snapshots (map_to_list (snapshots st)) ∅ (messages st) w in
  (mkLocalVss active (failedSnapshots st) (attempts st) msgs, w).

(** ** Goroutines *)

(** A goroutine reads a file of a volume: it tests for a shadow copy, waits for
    the write lock when there is none, and is done. *)
Inductive vpc : Type := VTest | VWait | VDone.
Definition vstate : Type := LocalVss * W * list (string * vpc).
Inductive vstep : vstate -> vstate -> Prop :=
| vs_known st w ps i v : ps !! i = Some (v, VTest) -> known st v = true -> vstep (st, w, ps) (st, w, <[i := (v, VDone)]> ps)
| vs_unknown st w ps i v : ps !! i = Some (v, VTest) -> known st v = false -> vstep (st, w, ps) (st, w, <[i := (v, VWait)]> ps)
| vs_locked st w ps i v st' w' : ps !! i = Some (v, VWait) -> create_snapshot v st w = (st', w') -> vstep (st, w, ps) (st', w', <[i := (v, VDone)]> ps).

Definition vinv (s : vstate) : Prop :=
  NoDup (attempts s.1.1) /\ (forall v, v ∈ attempts s.1.1 <-> known s.1.1 v = true) /\ (forall i v, s.2 !! i = Some (v, VDone) -> known s.1.1 v = true).

Lemma known_iff st v : known st v = true <-> is_Some (snapshots st !! v) \/ v ∈ failedSnapshots st.
Proof. unfold known. by rewrite orb_true_iff, !bool_decide_eq_true. Qed.
Lemma create_known v st w st' w' : create_snapshot v st w = (st', w') ->
  (known st v = true /\ st' = st) \/ (known st v = false /\ attempts st' = attempts st ++ [v] /\ forall u, known st' u = true <-> u = v \/ known st u = true).
Proof.
  unfold create_snapshot. destruct (known st v) eqn:Ek; [intros [= <- <-]; by left|]. intros E. right. split; [done|].
  destruct (NewVssSnapshot _ w) as [w1 [snap|e]]; injection E as <- <-; (split; [done|]); intros u; rewrite !known_iff; cbn [snapshots failedSnapshots].
  - destruct (decide (u = v)) as [->|Hne]; [rewrite lookup_insert_eq; naive_solver|]. rewrite lookup_insert_ne by done. naive_solver.
  - rewrite elem_of_union, elem_of_singleton. naive_solver.
Qed.
Lemma vinv_step s s' : vinv s -> vstep s s' -> vinv s'.
Proof.
  intros (H1 & H2 & H3) Hs. destruct Hs as [st w ps i v Hp Hk|st w ps i v Hp Hk|st w ps i v st' w' Hp E]; cbn [fst snd] in *; unfold vinv; cbn [fst snd].
  - split; [done|]. split; [done|]. intros j u [(-> & [= <-] & _)|[_ Hj]]%list_lookup_insert_Some; [done|by eapply H3].
  - split; [done|]. split; [done|]. intros j u [(_ & [=] & _)|[_ Hj]]%list_lookup_insert_Some. by eapply H3.
  - apply create_known in E as [[Hk ->]|(Hk & Ha & Hn)].
    + split; [done|]. split; [done|]. intros j u [(-> & [= <-] & _)|[_ Hj]]%list_lookup_insert_Some; [done|by eapply H3].
    + rewrite Ha. split; [|split].
      * apply NoDup_app. split; [done|]. split; [|apply NoDup_singleton]. intros x Hx ->%list_elem_of_singleton. apply H2 in Hx. congruence.
      * intros u. rewrite elem_of_app, list_elem_of_singleton, Hn, H2. naive_solver.
      * intros j u [(-> & [= <-] & _)|[_ Hj]]%list_lookup_insert_Some; apply Hn; [by left|right; by eapply H3].
Qed.
(** However the goroutines interleave, a shadow copy of a volume is asked for at
    most once, and one that is done with the test finds the result. *)
Lemma one_attempt volumes w s : rtc vstep (NewLocalVss, w, map (fun v => (v, VTest)) volumes) s -> vinv s.
Proof.
  intros Hr. remember (NewLocalVss, w, map (fun v => (v, VTest)) volumes) as s0 eqn:E0. assert (H0 : vinv s0).
  { subst s0. split; [apply NoDup_nil_2|]. split.
    - intros v. cbn [fst snd attempts NewLocalVss]. rewrite known_iff. cbn [snapshots failedSnapshots NewLocalVss]. rewrite lookup_empty.
      split; [by intros ?%elem_of_nil|]. intros [[? [=]]|Hf]; set_solver.
    - cbn [fst snd]. intros i v. rewrite list_lookup_fmap. by destruct (volumes !! i). }
  clear E0. induction Hr as [|s1 s2 s3 Hs _ IH]; [done|]. apply IH. by eapply vinv_step.
Qed.
(** One goroutine alone: [snapshotPath] is both steps. *)
Lemma snapshotPath_keeps path st w : let '(st', w', _) := snapshotPath path st w in
  (st' = st /\ w' = w) \/ exists v, known st v = false /\ create_snapshot v st w = (st', w').
Proof.
  unfold snapshotPath. destruct (String.prefix _ _); [by left|]. cbn zeta. destruct (known st _) eqn:Ek; [by left|].
  destruct (create_snapshot _ st w) as [st' w'] eqn:Ec. right. by eexists.
Qed.
(** A path is read where it is when no shadow copy could be made. *)
Lemma snapshotPath_failed path st w v : v = to_lower (fp_VolumeName (trim_prefix "\\?\" (fixpath path))) -> v ∈ failedSnapshots st -> snapshots st !! v = None ->
  snapshotPath path st w = (st, w, Ok path).
Proof.
  intros -> Hf Hn. unfold snapshotPath. destruct (String.prefix _ _); [done|]. cbn zeta.
  rewrite (proj2 (known_iff _ _)) by by right. unfold path_in. by rewrite Hn.
Qed.
(** The deleted shadow copies are forgotten, the others stay. *)
Lemma delete_snapshots_spec l : forall active msgs w active' msgs' w', delete_snapshots l active msgs w = (active', msgs', w') ->
  forall v snap, active' !! v = Some snap -> active !! v = Some snap \/ (v, snap) ∈ l.
Proof.
  induction l as [|[u sn] l IH]; intros active msgs w active' msgs' w'; cbn [delete_snapshots]; [intros [= <- _ _]; by left|].
  destruct (vss_Delete sn w) as [w1 [e|]]; intros E v snap Hv; destruct (IH _ _ _ _ _ _ E v snap Hv) as [Ha|Hin]; try (right; by right); try by left.
  destruct (decide (u = v)) as [->|Hne]; [rewrite lookup_insert_eq in Ha; injection Ha as <-; right; left|rewrite lookup_insert_ne in Ha by done; by left].
Qed.
End shadow.
End paths.
