(* ===== verification/Progress.v ===== *)
(** * Progress: what is reported while a backup runs

    src/internal/ui/backup: callbacks of the archiver and the scanner send
    messages to a loop ([Run]) that keeps the counters of the status display,
    and count what was saved in a summary; src/internal/ui/backup.go and
    src/internal/ui/json/backup.go are older copies with their printers built
    in.  The messages of all goroutines arrive in any order, with ticks of a
    timer and signals between them.  Floating point numbers are an interface.
    Also the counters of src/internal/ui/progress and src/restic/progress.go. *)

From S2P Require Import Prelude Ids Duration Snapshots Backend Trees Paths FileInfo Repository ArchTree Archiver Scanner.
#[local] Open Scope Z_scope.

(** float64 and its formatting with a number of decimals. *)
Class Float64 : Type := {
  f64 : Type;
  f_of : Z -> f64;
  f_mul : f64 -> f64 -> f64;
  f_div : f64 -> f64 -> f64;
  f_gt : f64 -> f64 -> bool;
  f_to_u64 : f64 -> Z;
  f_fixed : nat -> f64 -> string;
}.

(** ** Messages *)

Record Counter : Type := mkCounter { c_Files : Z; c_Dirs : Z; c_Bytes : Z }.
Definition no_counter : Counter := mkCounter 0 0 0.
Record fileWorkerMessage : Type := mkWorker { fw_filename : string; fw_done : bool }.
Inductive message : Type :=
| MTotal (c : Counter)        (** on [totalCh] *)
| MTotalClosed                (** [totalCh] is closed *)
| MProcessed (c : Counter)    (** on [processedCh] *)
| MError                      (** on [errCh] *)
| MWorker (m : fileWorkerMessage)   (** on [workerCh] *)
| MFinished.                  (** on [finished], of the JSON reporter only *)

(** ** The loop *)

Record run_state : Type := mkRun {
  lastUpdate : option Z;      (** [None] is the zero time *)
  total : Counter; processed : Counter; errors : Z; started : bool;
  currentFiles : gset string; secondsRemaining : Z;
  scan_done : bool;           (** [totalCh] is nil *)
  totalBytes : Z;
}.
Definition run_init : run_state := mkRun None no_counter no_counter 0 false ∅ 0 false 0.
(** What the printer is given to show. *)
Record update : Type := mkUpdate { u_total : Counter; u_processed : Counter; u_errors : Z; u_files : gset string; u_secs : Z }.
Definition update_of (st : run_state) : update := mkUpdate (total st) (processed st) (errors st) (currentFiles st) (secondsRemaining st).

Definition add_counter (p s : Counter) : Counter :=
  mkCounter (u64 (c_Files p + c_Files s)) (u64 (c_Dirs p + c_Dirs s)) (u64 (c_Bytes p + c_Bytes s)).
(** The cases of the loop that receive a message. *)
Definition receive (m : message) (st : run_state) : run_state :=
  let 'mkRun l t p e s f r d b := st in
  match m with
  | MTotal t => mkRun l t p e true f r d b
  | MTotalClosed => mkRun l t p e s f r true (c_Bytes t)
  | MProcessed c => mkRun l t (add_counter p c) e true f r d b
  | MError => mkRun l t p (u64 (e + 1)) true f r d b
  | MWorker m => mkRun l t p e s (if fw_done m then f ∖ {[fw_filename m]} else f ∪ {[fw_filename m]}) r d b
  | MFinished => mkRun l t p e false f r d b
  end.

Inductive run_event : Type := Receive (m : message) | Tick | Signal.
Definition second : Z := 10 ^ 9.
(** [time.Since], at most the longest duration. *)
Definition since (now : Z) (t : option Z) : Z := match t with None => 2 ^ 63 - 1 | Some t => now - t end.

Section run.
Context `{Float64} (start : Z).
Definition set_remaining (st : run_state) (r : Z) : run_state :=
  mkRun (lastUpdate st) (total st) (processed st) (errors st) (started st) (currentFiles st) r (scan_done st) (totalBytes st).
Definition set_lastUpdate (st : run_state) (now : Z) : run_state :=
  mkRun (Some now) (total st) (processed st) (errors st) (started st) (currentFiles st) (secondsRemaining st) (scan_done st) (totalBytes st).
(** The case of the timer; [None] is [continue]. *)
Definition tick (now : Z) (st : run_state) : option run_state :=
  if negb (started st) then None
  else if scan_done st then
    let secs := f_of (Z.quot (now - start) second) in
    let todo := f_of (u64 (c_Bytes (total st) - c_Bytes (processed st))) in
    Some (set_remaining st (f_to_u64 (f_mul (f_div secs (f_of (c_Bytes (processed st)))) todo)))
  else Some st.

(** One round of the loop of [Run] (src/internal/ui/backup/progress.go). *)
Definition run_step (MinUpdatePause now : Z) (ev : run_event) (st : run_state) : run_state * option update :=
  let next := match ev with
              | Receive m => Some (receive m st, false)
              | Tick => match tick now st with Some st => Some (st, false) | None => None end
              | Signal => Some (st, true)
              end in
  match next with
  | None => (st, None)
  | Some (st, forceUpdate) =>
      if negb forceUpdate && ((since now (lastUpdate st) <? MinUpdatePause) || bool_decide (MinUpdatePause = 0)) then (st, None)
      else (set_lastUpdate st now, Some (update_of st))
  end.
(** The events with their times, until the context is cancelled. *)
Fixpoint Run (MinUpdatePause : Z) (evs : list (Z * run_event)) (st : run_state) : run_state * list update :=
  match evs with
  | [] => (st, [])
  | (now, ev) :: evs =>
      let '(st, u) := run_step MinUpdatePause now ev st in
      let '(st, us) := Run MinUpdatePause evs st in
      (st, option_list u ++ us)
  end.

(** [Run] of src/internal/ui/json/backup.go: no signals, and no test for a pause
    of zero. *)
Definition JSON_run_step (MinUpdatePause now : Z) (ev : run_event) (st : run_state) : run_state * option update :=
  let next := match ev with
              | Receive m => Some (receive m st)
              | Tick => tick now st
              | Signal => None
              end in
  match next with
  | None => (st, None)
  | Some st =>
      if since now (lastUpdate st) <? MinUpdatePause then (st, None)
      else (set_lastUpdate st now, Some (update_of st))
  end.
Fixpoint JSON_Run (MinUpdatePause : Z) (evs : list (Z * run_event)) (st : run_state) : run_state * list update :=
  match evs with
  | [] => (st, [])
  | (now, ev) :: evs =>
      let '(st, u) := JSON_run_step MinUpdatePause now ev st in
      let '(st, us) := JSON_Run MinUpdatePause evs st in
      (st, option_list u ++ us)
  end.
(** [Run] of src/internal/ui/backup.go *)
Definition Plain_Run : Z -> list (Z * run_event) -> run_state -> run_state * list update := Run.
End run.

(** ** The callbacks *)

Record Summary : Type := mkSummary {
  s_FilesNew : Z; s_FilesChanged : Z; s_FilesUnchanged : Z; s_DirsNew : Z; s_DirsChanged : Z; s_DirsUnchanged : Z;
  s_ProcessedBytes : Z; s_ItemStats : ItemStats;
}.
Definition no_summary : Summary := mkSummary 0 0 0 0 0 0 0 no_stats.
(** A callback sends messages and calls the printer. *)
Inductive action : Type :=
| Send (m : message)
| PrintItem (messageType item : string)
| PrintTotal (s : ScanStats)
| PrintError (item : string).

Definition add_item (s : ItemStats) (current : option Node) (sm : Summary) : Summary :=
  mkSummary (s_FilesNew sm) (s_FilesChanged sm) (s_FilesUnchanged sm) (s_DirsNew sm) (s_DirsChanged sm) (s_DirsUnchanged sm)
    (match current with Some c => u64 (s_ProcessedBytes sm + n_Size c) | None => s_ProcessedBytes sm end) (ItemStats_Add (s_ItemStats sm) s).
Definition count_file (new changed unchanged : Z) (sm : Summary) : Summary :=
  mkSummary (u64 (s_FilesNew sm + new)) (u64 (s_FilesChanged sm + changed)) (u64 (s_FilesUnchanged sm + unchanged))
    (s_DirsNew sm) (s_DirsChanged sm) (s_DirsUnchanged sm) (s_ProcessedBytes sm) (s_ItemStats sm).
Definition count_dir (new changed unchanged : Z) (sm : Summary) : Summary :=
  mkSummary (s_FilesNew sm) (s_FilesChanged sm) (s_FilesUnchanged sm)
    (u64 (s_DirsNew sm + new)) (u64 (s_DirsChanged sm + changed)) (u64 (s_DirsUnchanged sm + unchanged)) (s_ProcessedBytes sm) (s_ItemStats sm).

Definition file_done (item : string) : message := MWorker (mkWorker item true).
Definition StartFile (filename : string) : list action := [Send (MWorker (mkWorker filename false))].
Definition CompleteBlob (filename : string) (bytes : Z) : list action := [Send (MProcessed (mkCounter 0 0 bytes))].
Definition Error (item : string) : list action := [PrintError item; Send MError].
Definition CompleteItem (item : string) (previous current : option Node) (s : ItemStats) (sm : Summary) : Summary * list action :=
  let sm := add_item s current sm in
  match current with
  | None => (sm, [Send (file_done item)])
  | Some c =>
      let sent := if bool_decide (n_Type c = "file"%string) then [Send (MProcessed (mkCounter 1 0 0)); Send (file_done item)]
                  else if bool_decide (n_Type c = "dir"%string) then [Send (MProcessed (mkCounter 0 1 0))]
                  else [] in
      if bool_decide (n_Type c = "dir"%string) then
        match previous with
        | None => (count_dir 1 0 0 sm, sent ++ [PrintItem "dir new" item])
        | Some p =>
            if Node_Equals p c then (count_dir 0 0 1 sm, sent ++ [PrintItem "dir unchanged" item])
            else (count_dir 0 1 0 sm, sent ++ [PrintItem "dir modified" item])
        end
      else if bool_decide (n_Type c = "file"%string) then
        let sent := sent ++ [Send (file_done item)] in
        match previous with
        | None => (count_file 1 0 0 sm, sent ++ [PrintItem "file new" item])
        | Some p =>
            if Node_Equals p c then (count_file 0 0 1 sm, sent ++ [PrintItem "file unchanged" item])
            else (count_file 0 1 0 sm, sent ++ [PrintItem "file modified" item])
        end
      else (sm, sent)
  end.
Definition ReportTotal (item : string) (s : ScanStats) : list action :=
  Send (MTotal (mkCounter (ss_Files s) (ss_Dirs s) (ss_Bytes s)))
  :: if bool_decide (item = ""%string) then [PrintTotal s; Send MTotalClosed] else [].

(** The calls of a backup. *)
Inductive call : Type :=
| CStartFile (filename : string)
| CCompleteBlob (filename : string) (bytes : Z)
| CCompleteItem (item : string) (previous current : option Node) (s : ItemStats)
| CError (item : string)
| CReportTotal (item : string) (s : ScanStats).
Definition perform (c : call) (sm : Summary) : Summary * list action :=
  match c with
  | CStartFile f => (sm, StartFile f)
  | CCompleteBlob f n => (sm, CompleteBlob f n)
  | CCompleteItem item p c s => CompleteItem item p c s sm
  | CError item => (sm, Error item)
  | CReportTotal item s => (sm, ReportTotal item s)
  end.
Fixpoint performs (cs : list call) (sm : Summary) : Summary * list action :=
  match cs with
  | [] => (sm, [])
  | c :: cs =>
      let '(sm, l) := perform c sm in
      let '(sm, l') := performs cs sm in
      (sm, l ++ l')
  end.

(** ** Counting *)

Definition sums {A} (f : A -> Z) (l : list A) : Z := foldr (fun x n => f x + n) 0 l.
Lemma sums_app {A} (f : A -> Z) l l' : sums f (l ++ l') = sums f l + sums f l'.
Proof. unfold sums. induction l as [|x l IH]; cbn [app foldr]; [done|]. rewrite IH. lia. Qed.
#[export] Instance sums_perm {A} (f : A -> Z) : Proper (Permutation ==> eq) (sums f).
Proof. unfold sums. induction 1; cbn [foldr]; lia. Qed.

Definition received (evs : list (Z * run_event)) : list message := omap (fun ev => match ev.2 with Receive m => Some m | _ => None end) evs.
Definition messages (l : list action) : list message := omap (fun a => match a with Send m => Some m | _ => None end) l.
Definition m_files (m : message) : Z := match m with MProcessed c => c_Files c | _ => 0 end.
Definition m_dirs (m : message) : Z := match m with MProcessed c => c_Dirs c | _ => 0 end.
Definition m_bytes (m : message) : Z := match m with MProcessed c => c_Bytes c | _ => 0 end.
Definition m_errors (m : message) : Z := match m with MError => 1 | _ => 0 end.

Lemma messages_app l l' : messages (l ++ l') = messages l ++ messages l'.
Proof. apply omap_app. Qed.

(** The total of the scanner, as last received. *)
Definition m_total (m : message) : option Counter := match m with MTotal c => Some c | _ => None end.
Definition last_total (ms : list message) : Counter := default no_counter (last (omap m_total ms)).
(** A file is being worked on: it was started and is not done since. *)
Definition working (ms : list message) (f : string) : Prop := exists l1 l2, ms = l1 ++ MWorker (mkWorker f false) :: l2 /\ file_done f ∉ l2.
(** What an update shows: the counts of the messages received. *)
Definition displays (u : update) (ms : list message) : Prop :=
  c_Files (u_processed u) = u64 (sums m_files ms) /\ c_Dirs (u_processed u) = u64 (sums m_dirs ms)
  /\ c_Bytes (u_processed u) = u64 (sums m_bytes ms) /\ u_errors u = u64 (sums m_errors ms)
  /\ u_total u = last_total ms /\ forall f, f ∈ u_files u <-> working ms f.
(** What the loop has counted. *)
Definition counted (ms : list message) (st : run_state) : Prop :=
  c_Files (processed st) = u64 (sums m_files ms) /\ c_Dirs (processed st) = u64 (sums m_dirs ms)
  /\ c_Bytes (processed st) = u64 (sums m_bytes ms) /\ errors st = u64 (sums m_errors ms)
  /\ total st = last_total ms /\ forall f, f ∈ currentFiles st <-> working ms f.
Lemma counted_displays ms st : counted ms st -> displays (update_of st) ms.
Proof. done. Qed.

Lemma working_snoc ms m f : working (ms ++ [m]) f <-> m = MWorker (mkWorker f false) \/ (working ms f /\ m ≠ file_done f).
Proof.
  split.
  - intros (l1 & l2 & E & Hn). destruct l2 as [|x l3 _] using rev_ind.
    + apply app_inj_tail in E as [_ ->]. by left.
    + rewrite app_comm_cons, app_assoc in E. apply app_inj_tail in E as [-> ->]. right. rewrite elem_of_app, list_elem_of_singleton in Hn.
      split; [exists l1, l3; split; [done|tauto]|]. intros ->. tauto.
  - intros [->|[(l1 & l2 & -> & Hn) Hm]].
    + exists ms, []. split; [done|apply not_elem_of_nil].
    + exists l1, (l2 ++ [m]). rewrite <- app_assoc. split; [done|]. rewrite elem_of_app, list_elem_of_singleton. by intros [?| <-].
Qed.
Lemma last_total_snoc ms m : last_total (ms ++ [m]) = default (last_total ms) (m_total m).
Proof.
  unfold last_total. rewrite omap_app. destruct m; cbn [omap list_omap m_total]; rewrite ?app_nil_r; try done. by rewrite last_snoc.
Qed.
Lemma u64_snoc x y : u64 (u64 x + y) = u64 (x + (y + 0)).
Proof. rewrite u64_add. f_equal. lia. Qed.
Lemma counted_receive ms m st : counted ms st -> counted (ms ++ [m]) (receive m st).
Proof.
  intros (H1 & H2 & H3 & H4 & H5 & H6). unfold counted. rewrite !sums_app, last_total_snoc. cbn [sums foldr].
  assert (Hcur : forall f, (forall g b, m ≠ MWorker (mkWorker g b)) -> f ∈ currentFiles st <-> working (ms ++ [m]) f).
  { intros f Hm. rewrite working_snoc, H6. unfold file_done. split; [intros Hw; right; by split|]. intros [->|[? _]]; [by destruct (Hm f false)|done]. }
  assert (Hz : forall x n, x = u64 n -> x = u64 (n + (0 + 0))) by (intros x n ->; f_equal; lia).
  destruct st as [l t p e s cur r d b]. destruct m as [t'| |c| |w|]; cbn [receive processed errors currentFiles total add_counter c_Files c_Dirs c_Bytes
    m_files m_dirs m_bytes m_errors m_total default] in *; split_and!; auto.
  - by rewrite H1, u64_snoc.
  - by rewrite H2, u64_snoc.
  - by rewrite H3, u64_snoc.
  - by rewrite H4, u64_snoc.
  - intros f. rewrite working_snoc, <- H6. destruct w as [g [|]]; cbn [fw_done fw_filename].
    + unfold file_done. rewrite elem_of_difference, elem_of_singleton. split; [intros [? ?]; right; split; congruence|]. intros [?|[? Hne]]; [done|].
      split; [done|]. by intros ->.
    + unfold file_done. rewrite elem_of_union, elem_of_singleton. split; [intros [?| ->]; [by right|by left]|]. intros [[= ->]|[? _]]; auto.
Qed.

(** Changes of the other fields do not count. *)
Definition same_counts (st st' : run_state) : Prop :=
  processed st' = processed st /\ errors st' = errors st /\ currentFiles st' = currentFiles st /\ total st' = total st.
Lemma counted_same ms st st' : same_counts st st' -> counted ms st -> counted ms st'.
Proof. intros (H1 & H2 & H3 & H4). unfold counted. by rewrite H1, H2, H3, H4. Qed.

Section counting.
Context `{Float64} (start : Z).
Lemma tick_same now st st' : tick start now st = Some st' -> same_counts st st'.
Proof. unfold tick. destruct (negb (started st)); [done|]. by destruct (scan_done st); intros [= <-]. Qed.
Lemma received_app evs evs' : received (evs ++ evs') = received evs ++ received evs'.
Proof. apply omap_app. Qed.
Lemma counted_step pause now ev ms st : counted ms st -> let x := run_step start pause now ev st in
  counted (ms ++ received [(now, ev)]) x.1 /\ forall u, x.2 = Some u -> displays u (ms ++ received [(now, ev)]).
Proof.
  intros Hc. cbv zeta. unfold run_step. destruct ev as [m| |]; cbn [received omap list_omap snd].
  - apply (counted_receive _ m) in Hc. destruct (negb false && _); (split; [done|]); [done|]. by intros u [= <-].
  - rewrite app_nil_r. destruct (tick start now st) as [st'|] eqn:E; [|by split]. apply tick_same, (counted_same ms) in E; [|done].
    destruct (negb false && _); (split; [done|]); [done|]. by intros u [= <-].
  - rewrite app_nil_r. cbn [negb andb]. split; [done|]. by intros u [= <-].
Qed.
Lemma Run_snoc pause evs now ev : forall st, Run start pause (evs ++ [(now, ev)]) st
  = let x := Run start pause evs st in let y := run_step start pause now ev x.1 in (y.1, x.2 ++ option_list y.2).
Proof.
  induction evs as [|[now' ev'] evs IH]; intros st; cbn [app Run].
  - cbv zeta. cbn [fst snd app]. destruct (run_step start pause now ev st) as [st1 u1]. by rewrite app_nil_r.
  - destruct (run_step start pause now' ev' st) as [st1 u1]. rewrite IH. cbv zeta. destruct (Run start pause evs st1) as [st2 us]. cbn [fst snd].
    by rewrite app_assoc.
Qed.
Lemma counted_Run pause evs ms st : counted ms st -> counted (ms ++ received evs) (Run start pause evs st).1.
Proof.
  intros Hc. induction evs as [|[now ev] evs IH] using rev_ind; [by rewrite app_nil_r|]. rewrite Run_snoc, received_app, app_assoc. cbv zeta. cbn [fst].
  by apply counted_step.
Qed.
Lemma counted_init : counted [] run_init.
Proof. split_and!; try done. intros f. split; [intros ?%elem_of_empty; done|]. by intros (l1 & l2 & E & _); destruct l1. Qed.

(** The updates of a run: each follows some event, and shows what was received
    until then. *)
Lemma Run_displays pause evs us1 u us2 : (Run start pause evs run_init).2 = us1 ++ u :: us2 ->
  exists evs1 evs2, evs = evs1 ++ evs2 /\ (Run start pause evs1 run_init).2 = us1 ++ [u] /\ displays u (received evs1).
Proof.
  revert us2. induction evs as [|[now ev] evs IH] using rev_ind; intros us2; [by destruct us1|]. rewrite Run_snoc. cbv zeta. cbn [snd].
  pose proof (counted_Run pause evs [] run_init counted_init) as Hc. destruct (run_step start pause now ev (Run start pause evs run_init).1) as [st1 u1] eqn:ES.
  cbn [snd]. destruct u1 as [u1|]; cbn [option_list].
  - destruct us2 as [|x us3 _] using rev_ind.
    + intros [E ->]%app_inj_tail. exists (evs ++ [(now, ev)]), []. rewrite app_nil_r. split; [done|]. rewrite Run_snoc. cbv zeta. rewrite ES, E.
      split; [done|]. rewrite received_app. pose proof (counted_step pause now ev _ _ Hc) as [_ Hu]. apply Hu. by rewrite ES.
    + rewrite app_comm_cons, app_assoc. intros [E _]%app_inj_tail. destruct (IH _ E) as (evs1 & evs2 & -> & H1 & H2).
      exists evs1, (evs2 ++ [(now, ev)]). by rewrite app_assoc.
  - rewrite app_nil_r. intros E. destruct (IH _ E) as (evs1 & evs2 & -> & H1 & H2). exists evs1, (evs2 ++ [(now, ev)]). by rewrite app_assoc.
Qed.
(** The loop updates the display at a signal, and at a message when the last
    update is long enough ago. *)
Definition due (pause now : Z) (ev : run_event) (st : run_state) : Prop :=
  match ev with
  | Signal => True
  | Receive m => pause ≠ 0 /\ pause <= since now (lastUpdate st)
  | Tick => False
  end.
Lemma due_shown pause now ev st : due pause now ev st -> exists u, (run_step start pause now ev st).2 = Some u.
Proof.
  unfold run_step. destruct ev as [m| |]; cbn [due negb andb]; [|done|by eexists]. intros [H1 H2].
  assert (E : lastUpdate (receive m st) = lastUpdate st) by by destruct st, m. rewrite E, bool_decide_eq_false_2 by done.
  rewrite (proj2 (Z.ltb_ge _ _)) by done. by eexists.
Qed.
(** Without a pause between updates, nothing is shown but at signals. *)
Lemma no_pause_no_updates evs st : (forall now, (now, Signal) ∉ evs) -> (Run start 0 evs st).2 = [].
Proof.
  intros Hs. induction evs as [|[now ev] evs IH] using rev_ind; [done|]. rewrite Run_snoc. cbv zeta. cbn [snd].
  rewrite IH by (intros n Hn; by apply (Hs n), elem_of_app; left). unfold run_step. destruct ev as [m| |].
  - by rewrite orb_true_r.
  - destruct (tick _ _ _); [by rewrite orb_true_r|done].
  - destruct (Hs now). apply elem_of_app. right. by apply list_elem_of_singleton.
Qed.

Definition completes (type : string) (c : call) : Prop := match c with CCompleteItem _ _ (Some n) _ => n_Type n = type | _ => False end.
#[local] Instance completes_dec type c : Decision (completes type c).
Proof. destruct c as [| |? ? [n|] ?| |]; unfold completes; apply _. Defined.
Definition blob_bytes (c : call) : Z := match c with CCompleteBlob _ n => n | _ => 0 end.
Definition is_error (c : call) : Z := match c with CError _ => 1 | _ => 0 end.
Definition completed (type : string) (c : call) : Z := if decide (completes type c) then 1 else 0.

(** What was counted in the summary, and the messages that were sent for it. *)
Definition sm_files (sm : Summary) : Z := s_FilesNew sm + s_FilesChanged sm + s_FilesUnchanged sm.
Definition sm_dirs (sm : Summary) : Z := s_DirsNew sm + s_DirsChanged sm + s_DirsUnchanged sm.
Lemma u64_three a b c x y z : u64 (u64 (a + x) + u64 (b + y) + u64 (c + z)) = u64 (a + b + c + (x + y + z)).
Proof. rewrite u64_add_r, (Z.add_comm (u64 (a + x))), <- Z.add_assoc, u64_add. rewrite (Z.add_comm (b + y)), <- Z.add_assoc, u64_add. f_equal. lia. Qed.
Lemma perform_counts c sm : let '(sm', l) := perform c sm in
  sums m_files (messages l) = completed "file" c /\ sums m_dirs (messages l) = completed "dir" c
  /\ sums m_bytes (messages l) = blob_bytes c /\ sums m_errors (messages l) = is_error c
  /\ u64 (sm_files sm') = u64 (sm_files sm + completed "file" c) /\ u64 (sm_dirs sm') = u64 (sm_dirs sm + completed "dir" c).
Proof.
  assert (Hz : forall x, u64 (x + 0) = u64 x) by (intros x; by rewrite Z.add_0_r).
  destruct c as [f|f n|item p [c|] s|item|item s]; unfold perform, completed; cbn [completes blob_bytes is_error].
  - split_and!; try reflexivity; exact (eq_sym (Hz _)).
  - split_and!; try reflexivity; [exact (Z.add_0_r n)|exact (eq_sym (Hz _))..].
  - unfold CompleteItem. set (sm1 := add_item s (Some c) sm). assert (Hf : sm_files sm1 = sm_files sm /\ sm_dirs sm1 = sm_dirs sm) by done.
    destruct Hf as [<- <-]. clearbody sm1.
    assert (HF : forall x y z, u64 (sm_files (count_file x y z sm1)) = u64 (sm_files sm1 + (x + y + z))) by (intros; apply u64_three).
    assert (HD : forall x y z, u64 (sm_dirs (count_dir x y z sm1)) = u64 (sm_dirs sm1 + (x + y + z))) by (intros; apply u64_three).
    assert (HF' : forall x y z, sm_dirs (count_file x y z sm1) = sm_dirs sm1) by done.
    assert (HD' : forall x y z, sm_files (count_dir x y z sm1) = sm_files sm1) by done.
    destruct (decide (n_Type c = "dir"%string)) as [Ed|Ed].
    + rewrite (bool_decide_eq_false_2 (n_Type c = "file"%string)) by congruence. rewrite !bool_decide_eq_true_2 by done.
      rewrite (decide_False (P := n_Type c = "file"%string)) by congruence.
      destruct p as [p|]; [destruct (Node_Equals p c)|]; cbn [messages omap list_omap app]; rewrite HD, ?HD', ?Hz; done.
    + rewrite (bool_decide_eq_false_2 (n_Type c = "dir"%string)) by done.
      destruct (decide (n_Type c = "file"%string)) as [Ef|Ef].
      * rewrite bool_decide_eq_true_2 by done. destruct p as [p|]; [destruct (Node_Equals p c)|]; cbn [messages omap list_omap app]; rewrite HF, ?HF', ?Hz; done.
      * rewrite bool_decide_eq_false_2 by done. cbn. by rewrite !Hz.
  - split_and!; try reflexivity; exact (eq_sym (Hz _)).
  - split_and!; try reflexivity; exact (eq_sym (Hz _)).
  - unfold ReportTotal. destruct (bool_decide (item = ""%string)); split_and!; try reflexivity; exact (eq_sym (Hz _)).
Qed.
Lemma performs_counts cs : forall sm, let '(sm', l) := performs cs sm in
  sums m_files (messages l) = sums (completed "file") cs /\ sums m_dirs (messages l) = sums (completed "dir") cs
  /\ sums m_bytes (messages l) = sums blob_bytes cs /\ sums m_errors (messages l) = sums is_error cs
  /\ u64 (sm_files sm') = u64 (sm_files sm + sums (completed "file") cs) /\ u64 (sm_dirs sm') = u64 (sm_dirs sm + sums (completed "dir") cs).
Proof.
  induction cs as [|c cs IH]; intros sm; cbn [performs]; [cbn; by rewrite !Z.add_0_r|].
  pose proof (perform_counts c sm) as H1. destruct (perform c sm) as [sm1 l1]. specialize (IH sm1). destruct (performs cs sm1) as [sm2 l2].
  destruct H1 as (A1 & A2 & A3 & A4 & A5 & A6), IH as (B1 & B2 & B3 & B4 & B5 & B6). rewrite messages_app, !sums_app, A1, A2, A3, A4, B1, B2, B3, B4, B5, B6.
  split_and!; try done.
  - rewrite <- u64_add, A5, u64_add. f_equal. unfold sums. cbn [foldr]. lia.
  - rewrite <- u64_add, A6, u64_add. f_equal. unfold sums. cbn [foldr]. lia.
Qed.

(** What an update shows at the end of a backup. *)
Definition final (u : update) (cs : list call) : Prop :=
  let sm := (performs cs no_summary).1 in
  (c_Files (u_processed u) = u64 (sums (completed "file") cs) /\ c_Files (u_processed u) = u64 (sm_files sm))
  /\ (c_Dirs (u_processed u) = u64 (sums (completed "dir") cs) /\ c_Dirs (u_processed u) = u64 (sm_dirs sm))
  /\ c_Bytes (u_processed u) = u64 (sums blob_bytes cs)
  /\ u_errors u = u64 (sums is_error cs).
Lemma displays_final u ms cs : displays u ms -> ms ≡ₚ messages (performs cs no_summary).2 -> final u cs.
Proof.
  intros (H1 & H2 & H3 & H4 & _) HP. rewrite HP in H1, H2, H3, H4. pose proof (performs_counts cs no_summary) as HC. unfold final.
  destruct (performs cs no_summary) as [sm l]. cbn [fst snd] in *. destruct HC as (C1 & C2 & C3 & C4 & C5 & C6).
  rewrite H1, H2, H3, H4, C1, C2, C3, C4, C5, C6. by split_and!.
Qed.

(** C35: The status display is right whatever the interleaving.  Messages of a
    backup's goroutines, ticks and signals reach the loop in any order; every
    update that it gives to the printer shows what it has received until then:
    the files and directories completed, the bytes saved, the errors, the last
    total of the scanner, and exactly the files that were started and are not
    done since.  When all messages of the calls of a backup have arrived, in
    any order, the update shows the number of files and directories that were
    completed, which is also what the summary says, and the numbers of bytes
    and errors of these calls.  The printer gets an update at every signal,
    and at a message when the pause between updates has passed; other messages
    are shown by a later update only, and if there is none (or the pause is 0,
    [no_pause_no_updates]) the last counts are never shown. *)
Theorem progress_counts pause evs :
  (forall us1 u us2, (Run start pause evs run_init).2 = us1 ++ u :: us2 ->
    exists evs1 evs2, evs = evs1 ++ evs2 /\ (Run start pause evs1 run_init).2 = us1 ++ [u] /\ displays u (received evs1)
      /\ forall cs, received evs1 ≡ₚ messages (performs cs no_summary).2 -> final u cs)
  /\ forall evs1 now ev evs2, evs = evs1 ++ (now, ev) :: evs2 -> due pause now ev (Run start pause evs1 run_init).1 ->
    exists u us2, (Run start pause evs run_init).2 = (Run start pause evs1 run_init).2 ++ u :: us2
      /\ displays u (received (evs1 ++ [(now, ev)])).
Proof.
  split.
  - intros us1 u us2 E. destruct (Run_displays pause evs us1 u us2 E) as (evs1 & evs2 & E1 & E2 & Hd). exists evs1, evs2. split_and!; [done..|].
    intros cs HP. by eapply displays_final.
  - intros evs1 now ev evs2 -> Hdue. destruct (due_shown _ _ _ _ Hdue) as [u Hu]. exists u. change ((now, ev) :: evs2) with ([(now, ev)] ++ evs2).
    rewrite app_assoc. pose proof (counted_Run pause evs1 [] run_init counted_init) as Hc. pose proof (counted_step pause now ev _ _ Hc) as [_ Hs].
    rewrite received_app. assert (Hd := Hs u Hu). cbn [app] in Hd. clear Hs.
    enough (exists us2, (Run start pause ((evs1 ++ [(now, ev)]) ++ evs2) run_init).2 = (Run start pause evs1 run_init).2 ++ u :: us2) as [us2 Hus] by by exists us2.
    clear Hd. induction evs2 as [|[now' ev'] evs2 [us2 IH]] using rev_ind.
    + exists []. rewrite app_nil_r, Run_snoc. cbv zeta. cbn [snd]. by rewrite Hu.
    + rewrite app_assoc, Run_snoc. cbv zeta. cbn [snd]. rewrite IH, <- app_assoc. by eexists.
Qed.
End counting.

#[local] Instance toy_float : Float64 := {| f64 := Z; f_of := id; f_mul := Z.mul; f_div := Z.div; f_gt := Z.gtb; f_to_u64 := u64; f_fixed _ _ := "0" |}.
Definition toy_calls : list call := [
  CStartFile "/a"; CCompleteBlob "/a" 3; CStartFile "/b"; CCompleteItem "/a" None (Some (toy_node "a" "file" [] None)) no_stats;
  CError "/b"; CCompleteItem "/b" None None no_stats; CCompleteItem "/" None (Some (toy_node "d" "dir" [] None)) no_stats].
Definition toy_events : list (Z * run_event) := map (fun m => (5, Receive m)) (messages (performs toy_calls no_summary).2) ++ [(6, Tick); (7, Signal)].
Lemma progress_counts_witness : exists u us, (Run 0 1 toy_events run_init).2 = us ++ [u]
  /\ c_Files (u_processed u) = 1 /\ c_Dirs (u_processed u) = 1 /\ c_Bytes (u_processed u) = 3 /\ u_errors u = 1.
Proof.
  destruct (progress_counts 0 1 toy_events) as [_ H]. destruct (H (take 10 toy_events) 7 Signal [] ltac:(vm_compute; reflexivity) I) as (u & us2 & E & Hd).
  destruct (displays_final u _ toy_calls Hd ltac:(vm_compute; reflexivity)) as ((H1 & _) & (H2 & _) & H3 & H4).
  assert (us2 = []) as -> by (revert E; vm_compute; congruence). exists u, (Run 0 1 (take 10 toy_events) run_init).2.
  split; [exact E|]. split; [exact H1|]. split; [exact H2|]. split; [exact H3|exact H4].
Defined.

(** ** Text (src/internal/ui/backup/text.go, src/internal/ui/backup.go, src/internal/ui/message.go) *)

#[local] Open Scope string_scope.
Definition number (n : Z) : string := string_of (format_int n).
Definition two_digits (n : Z) : string := if (n <? 10)%Z then "0" ++ number n else number n.
Fixpoint spaces (n : nat) : string := match n with O => "" | S n => " " ++ spaces n end.
(** [%5d] and [%-5s] *)
Definition pad_left (width : nat) (s : string) : string := spaces (width - String.length s) ++ s.
Definition pad_right (width : nat) (s : string) : string := s ++ spaces (width - String.length s).

Definition formatSeconds (sec : Z) : string :=
  let hours := sec / 3600 in
  let sec := sec - hours * 3600 in
  let min := sec / 60 in
  let sec := sec - min * 60 in
  if (0 <? hours)%Z then number hours ++ ":" ++ two_digits min ++ ":" ++ two_digits sec
  else number min ++ ":" ++ two_digits sec.
Definition formatDuration (d : Z) : string := formatSeconds (u64 (Z.quot d second)).

(** What a printer does: a message with the verbosity it needs, an error, or
    the lines of the status. *)
Inductive output : Type := OutP (level : Z) (text : string) | OutE (text : string) | OutStatus (lines : list string).
Definition E_ (text : string) : list output := [OutE text].
Definition P_ (v : Z) (text : string) : list output := if (1 <=? v)%Z then [OutP 1 text] else [].
Definition V_ (v : Z) (text : string) : list output := if (2 <=? v)%Z then [OutP 2 text] else [].
Definition VV_ (v : Z) (text : string) : list output := if (3 <=? v)%Z then [OutP 3 text] else [].

Section text.
Context `{Float64} (v : Z).
Definition formatPercent (numerator denominator : Z) : string :=
  if bool_decide (denominator = 0) then ""
  else
    let percent := f_div (f_mul (f_of 100) (f_of numerator)) (f_of denominator) in
    let percent := if f_gt percent (f_of 100) then f_of 100 else percent in
    f_fixed 2 percent ++ "%".
Definition formatBytes (c : Z) : string :=
  let b := f_of c in
  if (2 ^ 40 <? c)%Z then f_fixed 3 (f_div b (f_of (2 ^ 40))) ++ " TiB"
  else if (2 ^ 30 <? c)%Z then f_fixed 3 (f_div b (f_of (2 ^ 30))) ++ " GiB"
  else if (2 ^ 20 <? c)%Z then f_fixed 3 (f_div b (f_of (2 ^ 20))) ++ " MiB"
  else if (2 ^ 10 <? c)%Z then f_fixed 3 (f_div b (f_of (2 ^ 10))) ++ " KiB"
  else number c ++ " B".
(** [%.3f] of the seconds of a duration. *)
Definition fixed_seconds (d : Z) : string := f_fixed 3 (f_div (f_of d) (f_of second)).

Definition TextProgress_Update (start now : Z) (u : update) : list output :=
  let '(t, p, secs) := (u_total u, u_processed u, u_secs u) in
  let status :=
    if bool_decide (c_Files t = 0) && bool_decide (c_Dirs t = 0) then
      "[" ++ formatDuration (now - start) ++ "] " ++ number (c_Files p) ++ " files, " ++ formatBytes (c_Bytes p) ++ ", " ++ number (u_errors u) ++ " errors"
    else
      let '(eta, percent) :=
        if (0 <? secs)%Z && (c_Bytes p <? c_Bytes t)%Z then (" ETA " ++ formatSeconds secs, formatPercent (c_Bytes p) (c_Bytes t) ++ "  ") else ("", "") in
      "[" ++ formatDuration (now - start) ++ "] " ++ percent ++ number (c_Files p) ++ " files " ++ formatBytes (c_Bytes p) ++ ", total "
        ++ number (c_Files t) ++ " files " ++ formatBytes (c_Bytes t) ++ ", " ++ number (u_errors u) ++ " errors" ++ eta in
  [OutStatus (status :: sort_names (elements (u_files u)))].
Definition TextProgress_ScannerError (err : string) : list output := V_ v ("scan: " ++ err ++ string_of [Byte.x0a]).
Definition TextProgress_Error (err : string) : list output := E_ ("error: " ++ err ++ string_of [Byte.x0a]).
Definition TextProgress_CompleteItem (messageType item : string) (s : ItemStats) (d : Z) : list output :=
  let saved := ", saved in " ++ fixed_seconds d ++ "s (" ++ formatBytes (DataSize s) ++ " added" in
  let metadata := ", " ++ formatBytes (TreeSize s) ++ " metadata)" in
  if bool_decide (messageType = "dir new") then VV_ v ("new       " ++ item ++ saved ++ metadata)
  else if bool_decide (messageType = "dir unchanged") then VV_ v ("unchanged " ++ item)
  else if bool_decide (messageType = "dir modified") then VV_ v ("modified  " ++ item ++ saved ++ metadata)
  else if bool_decide (messageType = "file new") then VV_ v ("new       " ++ item ++ saved ++ ")")
  else if bool_decide (messageType = "file unchanged") then VV_ v ("unchanged " ++ item)
  else if bool_decide (messageType = "file modified") then VV_ v ("modified  " ++ item ++ saved ++ ")")
  else [].
Definition TextProgress_ReportTotal (start now : Z) (s : ScanStats) : list output :=
  V_ v ("scan finished in " ++ fixed_seconds (now - start) ++ "s: " ++ number (ss_Files s) ++ " files, " ++ formatBytes (ss_Bytes s)).
Definition TextProgress_Reset (CanUpdateStatus : bool) : list output := if CanUpdateStatus then [OutStatus [""]] else [].

Definition three (label : string) (new changed unmodified : Z) : string :=
  label ++ pad_left 5 (number new) ++ " new, " ++ pad_left 5 (number changed) ++ " changed, " ++ pad_left 5 (number unmodified) ++ " unmodified" ++ string_of [Byte.x0a].
Definition TextProgress_Finish (start now : Z) (sm : Summary) (dryRun : bool) : list output :=
  (P_ v (string_of [Byte.x0a])
  ++ P_ v (three "Files:       " (s_FilesNew sm) (s_FilesChanged sm) (s_FilesUnchanged sm))
  ++ P_ v (three "Dirs:        " (s_DirsNew sm) (s_DirsChanged sm) (s_DirsUnchanged sm))
  ++ V_ v ("Data Blobs:  " ++ pad_left 5 (number (DataBlobs (s_ItemStats sm))) ++ " new" ++ string_of [Byte.x0a])
  ++ V_ v ("Tree Blobs:  " ++ pad_left 5 (number (TreeBlobs (s_ItemStats sm))) ++ " new" ++ string_of [Byte.x0a])
  ++ P_ v ((if dryRun then "Would add" else "Added") ++ " to the repo: "
           ++ pad_right 5 (formatBytes (u64 (DataSize (s_ItemStats sm) + TreeSize (s_ItemStats sm)))) ++ string_of [Byte.x0a])
  ++ P_ v (string_of [Byte.x0a])
  ++ P_ v ("processed " ++ number (u64 (s_FilesNew sm + s_FilesChanged sm + s_FilesUnchanged sm)) ++ " files, " ++ formatBytes (s_ProcessedBytes sm)
           ++ " in " ++ formatDuration (now - start)))%list.

(** *** src/internal/ui/backup.go: the same callbacks, with this printer built in *)
Definition Plain_print (s : ItemStats) (d start now : Z) (a : action) : list output :=
  match a with
  | Send _ => []
  | PrintItem messageType item => TextProgress_CompleteItem messageType item s d
  | PrintTotal st => TextProgress_ReportTotal start now st
  | PrintError item => []
  end.
Definition Plain_CompleteItem (item : string) (previous current : option Node) (s : ItemStats) (d : Z) (sm : Summary)
  : Summary * list message * list output :=
  let '(sm, l) := CompleteItem item previous current s sm in (sm, messages l, flat_map (Plain_print s d 0 0) l).
Definition Plain_ReportTotal (item : string) (start now : Z) (s : ScanStats) : list message * list output :=
  let l := ReportTotal item s in (messages l, flat_map (Plain_print no_stats 0 start now) l).
Definition Plain_Error (err : string) : list message * list output := ([MError], TextProgress_Error err).
Definition Plain_ScannerError (err : string) : list output := TextProgress_ScannerError err.
Definition Plain_update (start now : Z) (u : update) : list output := TextProgress_Update start now u.
Definition Plain_Finish (start now : Z) (sm : Summary) : list output := TextProgress_Finish start now sm false.
End text.
#[local] Close Scope string_scope.

(** ** JSON (src/internal/ui/backup/json.go, src/internal/ui/json/backup.go)

    The records are what the encoder is given; durations are nanoseconds, and
    seconds where the code divides them as floating point numbers. *)

Section json.
Context `{Float64}.
Record statusUpdate : Type := mkStatus {
  su_SecondsElapsed : Z; su_SecondsRemaining : Z; su_PercentDone : f64; su_TotalFiles : Z; su_FilesDone : Z; su_TotalBytes : Z; su_BytesDone : Z;
  su_ErrorCount : Z; su_CurrentFiles : list string;
}.
Record errorUpdate : Type := mkErrorUpdate { eu_Error : string; eu_During : string; eu_Item : string }.
Record verboseUpdate : Type := mkVerbose {
  vu_MessageType : string; vu_Action : string; vu_Item : string; vu_Duration : f64; vu_DataSize : Z; vu_MetadataSize : Z; vu_TotalFiles : Z;
}.
Record summaryOutput : Type := mkSummaryOutput {
  so_FilesNew : Z; so_FilesChanged : Z; so_FilesUnmodified : Z; so_DirsNew : Z; so_DirsChanged : Z; so_DirsUnmodified : Z;
  so_DataBlobs : Z; so_TreeBlobs : Z; so_DataAdded : Z; so_TotalFilesProcessed : Z; so_TotalBytesProcessed : Z; so_TotalDuration : f64;
  so_SnapshotID : string; so_DryRun : bool;
}.
Inductive json_output : Type :=
| JStatus (u : statusUpdate) | JError (u : errorUpdate) | JVerbose (u : verboseUpdate) | JSummary (u : summaryOutput).

Context (v : Z).
Definition Seconds (d : Z) : f64 := f_div (f_of d) (f_of second).

Definition JSONProgress_Update (start now : Z) (u : update) : list json_output :=
  let '(t, p) := (u_total u, u_processed u) in
  [JStatus (mkStatus (u64 (Z.quot (now - start) second)) (u_secs u)
     (if (0 <? c_Bytes t)%Z then f_div (f_of (c_Bytes p)) (f_of (c_Bytes t)) else f_of 0)
     (c_Files t) (c_Files p) (c_Bytes t) (c_Bytes p) (u_errors u) (sort_names (elements (u_files u))))].
Definition JSONProgress_ScannerError (item err : string) : list json_output := [JError (mkErrorUpdate err "scan" item)].
Definition JSONProgress_Error (item err : string) : list json_output := [JError (mkErrorUpdate err "archival" item)].
(** The message for a completed item; [metadata] for directories only. *)
Definition verbose_item (action item : string) (duration : f64) (data metadata : Z) : list json_output :=
  [JVerbose (mkVerbose "verbose_status" action item duration data metadata 0)].
Definition complete_item (messageType item : string) (s : ItemStats) (d : Z) : list json_output :=
  if bool_decide (messageType = "dir new"%string) then verbose_item "new" item (Seconds d) (DataSize s) (TreeSize s)
  else if bool_decide (messageType = "dir unchanged"%string) then verbose_item "unchanged" item (f_of 0) 0 0
  else if bool_decide (messageType = "dir modified"%string) then verbose_item "modified" item (Seconds d) (DataSize s) (TreeSize s)
  else if bool_decide (messageType = "file new"%string) then verbose_item "new" item (Seconds d) (DataSize s) 0
  else if bool_decide (messageType = "file unchanged"%string) then verbose_item "unchanged" item (f_of 0) 0 0
  else if bool_decide (messageType = "file modified"%string) then verbose_item "modified" item (Seconds d) (DataSize s) 0
  else [].
Definition JSONProgress_CompleteItem (messageType item : string) (s : ItemStats) (d : Z) : list json_output :=
  if v <? 2 then [] else complete_item messageType item s d.
Definition JSONProgress_ReportTotal (start now : Z) (s : ScanStats) : list json_output :=
  if 2 <=? v then [JVerbose (mkVerbose "status" "scan_finished" "" (Seconds (now - start)) (ss_Bytes s) 0 (ss_Files s))] else [].
Definition JSONProgress_Finish (snapshotID : ID) (start now : Z) (sm : Summary) (dryRun : bool) : list json_output :=
  [JSummary (mkSummaryOutput (s_FilesNew sm) (s_FilesChanged sm) (s_FilesUnchanged sm) (s_DirsNew sm) (s_DirsChanged sm) (s_DirsUnchanged sm)
     (DataBlobs (s_ItemStats sm)) (TreeBlobs (s_ItemStats sm)) (u64 (DataSize (s_ItemStats sm) + TreeSize (s_ItemStats sm)))
     (u64 (s_FilesNew sm + s_FilesChanged sm + s_FilesUnchanged sm)) (s_ProcessedBytes sm) (Seconds (now - start)) (ID_Str (Some snapshotID)) dryRun)].

(** *** src/internal/ui/json/backup.go: items are printed from verbosity 3 on *)
Definition JSON_print (s : ItemStats) (d start now : Z) (a : action) : list json_output :=
  match a with
  | Send _ | PrintError _ => []
  | PrintItem messageType item => if 3 <=? v then complete_item messageType item s d else []
  | PrintTotal st => JSONProgress_ReportTotal start now st
  end.
Definition JSON_CompleteItem (item : string) (previous current : option Node) (s : ItemStats) (d : Z) (sm : Summary)
  : Summary * list message * list json_output :=
  let '(sm, l) := CompleteItem item previous current s sm in (sm, messages l, flat_map (JSON_print s d 0 0) l).
Definition JSON_ReportTotal (item : string) (start now : Z) (s : ScanStats) : list message * list json_output :=
  let l := ReportTotal item s in (messages l, flat_map (JSON_print no_stats 0 start now) l).
Definition JSON_Error (item err : string) : list message * list json_output := ([MError], JSONProgress_Error item err).
Definition JSON_ScannerError (item err : string) : list json_output := JSONProgress_ScannerError item err.
Definition JSON_update (start now : Z) (u : update) : list json_output := JSONProgress_Update start now u.
Definition JSON_Finish (snapshotID : ID) (start now : Z) (sm : Summary) : list message * list json_output :=
  ([MFinished], JSONProgress_Finish snapshotID start now sm false).
End json.

(** *** What the printers show *)

(** Hours, minutes and seconds make up the number of seconds. *)
Lemma formatSeconds_parts sec : 0 <= sec -> exists h m s, 0 <= h /\ 0 <= m < 60 /\ 0 <= s < 60 /\ sec = h * 3600 + m * 60 + s
  /\ formatSeconds sec = (if (0 <? h)%Z then number h ++ ":" ++ two_digits m ++ ":" ++ two_digits s else number m ++ ":" ++ two_digits s)%string.
Proof.
  intros Hs. pose proof (Z.div_mod sec 3600 ltac:(done)) as E1. pose proof (Z.mod_pos_bound sec 3600 ltac:(done)) as B1.
  set (r := sec - sec / 3600 * 3600). assert (Hr : r = sec mod 3600) by lia.
  pose proof (Z.div_mod r 60 ltac:(done)) as E2. pose proof (Z.mod_pos_bound r 60 ltac:(done)) as B2.
  exists (sec / 3600), (r / 60), (r - r / 60 * 60). pose proof (Z.div_pos sec 3600 Hs ltac:(done)). pose proof (Z.div_pos r 60 ltac:(lia) ltac:(done)).
  split_and!; try lia. done.
Qed.

(** Nothing is printed for a message below its verbosity, and the status that
    is shown lists the files in order. *)
Lemma Update_lines `{Float64} start now u : exists status, TextProgress_Update start now u = [OutStatus (status :: sort_names (elements (u_files u)))]
  /\ sort_names (elements (u_files u)) ≡ₚ elements (u_files u).
Proof.
  unfold TextProgress_Update. cbv zeta. destruct (bool_decide _ && _); [|destruct (if (0 <? u_secs u) && _ then _ else _)];
    eexists; (split; [reflexivity|apply merge_sort_Permutation]).
Qed.
(** Both summaries report the same numbers. *)
Lemma Finish_agrees `{Float64} id start now sm dry : exists o, JSONProgress_Finish id start now sm dry = [JSummary o]
  /\ u64 (so_FilesNew o + so_FilesChanged o + so_FilesUnmodified o) = so_TotalFilesProcessed o /\ so_DryRun o = dry.
Proof. by eexists. Qed.

(** When more has been processed than was scanned, the remaining time is that
    of a difference that has wrapped around. *)
Lemma remaining_wraps `{Float64} start now st : started st = true -> scan_done st = true ->
  0 <= c_Bytes (total st) < c_Bytes (processed st) -> c_Bytes (processed st) < 2 ^ 64 ->
  exists st', tick start now st = Some st' /\ secondsRemaining st' =
    f_to_u64 (f_mul (f_div (f_of (Z.quot (now - start) second)) (f_of (c_Bytes (processed st))))
      (f_of (2 ^ 64 - (c_Bytes (processed st) - c_Bytes (total st))))).
Proof.
  intros Hs Hd Ht Hp. unfold tick. rewrite Hs, Hd. cbn [negb]. eexists. split; [done|]. cbn. do 3 f_equal. unfold u64.
  rewrite <- (Z_mod_plus_full _ 1). rewrite Z.mod_small; lia.
Qed.

(** ** Counters (src/internal/ui/progress/counter.go) *)

Module Ui.
(** A counter that runs; [Done] leaves the zero value, [None]. *)
Record Counter : Type := mkC { value : Z; max : Z; c_start : Z }.
Inductive op : Type := Add (v : Z) | SetMax (m : Z) | Report (now : Z).   (** a tick or a signal *)
(** The arguments of the callback: value, maximum, run time and whether it is
    the last call. *)
Abbreviation report := (Z * Z * Z * bool)%type.
Definition New (now total : Z) : Counter := mkC 0 total now.
Definition step (o : op) (c : Counter) : Counter * list report :=
  match o with
  | Add v => (mkC (u64 (value c + v)) (max c) (c_start c), [])
  | SetMax m => (mkC (value c) m (c_start c), [])
  | Report now => (c, [(value c, max c, now - c_start c, false)])
  end.
Fixpoint run (ops : list op) (c : Counter) : Counter * list report :=
  match ops with
  | [] => (c, [])
  | o :: ops =>
      let '(c, l) := step o c in
      let '(c, l') := run ops c in
      (c, l ++ l')
  end.
(** [Done] waits for the last report; the channel of the zero value is nil. *)
Definition Done (now : Z) (c : option Counter) : res Empty_set (option Counter * list report) :=
  match c with
  | Some c => Ok (None, [(value c, max c, now - c_start c, true)])
  | None => Panic "close of nil channel"
  end.

Definition added (o : op) : Z := match o with Add v => v | _ => 0 end.
Lemma run_value ops : forall c, u64 (value (run ops c).1) = u64 (value c + sums added ops).
Proof.
  unfold sums. induction ops as [|o ops IH]; intros c; cbn [foldr run]; [cbn; by rewrite Z.add_0_r|]. specialize (IH (step o c).1).
  assert (Hs : u64 (value (step o c).1) = u64 (value c + added o)) by (destruct o; cbn [step fst value added]; [unfold u64; by rewrite Zmod_mod|by rewrite Z.add_0_r..]).
  destruct (step o c) as [c1 l]. cbn [fst] in *. destruct (run ops c1) as [c2 l']. cbn [fst] in *. rewrite IH, <- (u64_add (value c1)), Hs, u64_add. f_equal. lia.
Qed.
Lemma run_reports ops : forall c, Forall (fun r : report => r.2 = false) (run ops c).2.
Proof.
  induction ops as [|o ops IH]; intros c; cbn [run]; [constructor|]. specialize (IH (step o c).1). assert (Forall (fun r : report => r.2 = false) (step o c).2)
    by (destruct o; repeat constructor). destruct (step o c) as [c1 l]. cbn [fst snd] in *. destruct (run ops c1) as [c2 l']. by apply Forall_app_2.
Qed.
(** The last report, and only this one, is final; it has all that was added. *)
Lemma Done_final ops now now' total : exists c l m t, run ops (New now total) = (c, l) /\ Done now' (Some c) = Ok (None, [(value c, m, t, true)])
  /\ u64 (value c) = u64 (sums added ops) /\ Forall (fun r : report => r.2 = false) l.
Proof.
  pose proof (run_value ops (New now total)) as H1. pose proof (run_reports ops (New now total)) as H2. destruct (run ops (New now total)) as [c l].
  exists c, l, (max c), (now' - c_start c). by split_and!.
Qed.
End Ui.

(** ** src/restic/progress.go *)

Module Restic.
Record Stat : Type := mkStat { st_Files : Z; st_Dirs : Z; st_Bytes : Z; st_Trees : Z; st_Blobs : Z; st_Errors : Z }.
Definition no_stat : Stat := mkStat 0 0 0 0 0 0.
Definition Stat_Add (s other : Stat) : Stat :=
  mkStat (u64 (st_Files s + st_Files other)) (u64 (st_Dirs s + st_Dirs other)) (u64 (st_Bytes s + st_Bytes other))
    (u64 (st_Trees s + st_Trees other)) (u64 (st_Blobs s + st_Blobs other)) (u64 (st_Errors s + st_Errors other)).

(** The shortest time between updates; [fps] is RESTIC_PROGRESS_FPS as a
    number. *)
Definition minTickerTime (fps : option Z) : Z :=
  match fps with
  | Some fps => if 1 <=? fps then Z.quot second (if 60 <? fps then 60 else fps) else Z.quot second 60
  | None => Z.quot second 60
  end.

(** The fields that are functions are set or nil. *)
Record Progress : Type := mkProgress {
  OnStart : bool; OnUpdate : bool; OnDone : bool;
  cur : Stat; p_start : Z; once : bool; p_lastUpdate : option Z; running : bool;
  reporters : nat;             (** reporting goroutines that have not ended *)
}.
Inductive called : Type := CalledStart | CalledUpdate (s : Stat) (runtime : Z) (ticker : bool) | CalledDone (s : Stat) (runtime : Z).
Abbreviation result := (res Empty_set (Progress * list called)).

Definition with_cur (p : Progress) (c : Stat) (u : option Z) : Progress :=
  mkProgress (OnStart p) (OnUpdate p) (OnDone p) c (p_start p) (once p) u (running p) (reporters p).
Definition Reset (p : option Progress) : res Empty_set (option Progress) :=
  match p with
  | None => Ok None
  | Some p => if negb (running p) then Panic "resetting a non-running Progress" else Ok (Some (with_cur p no_stat (p_lastUpdate p)))
  end.
Definition Start (now : Z) (p : Progress) : result :=
  if running p then Ok (p, [])
  else
    let p := mkProgress (OnStart p) (OnUpdate p) (OnDone p) (cur p) (p_start p) (once p) (p_lastUpdate p) true (reporters p) in
    match Reset (Some p) with
    | Ok (Some p) =>
        Ok (mkProgress (OnStart p) (OnUpdate p) (OnDone p) (cur p) now (once p) (p_lastUpdate p) true (S (reporters p)),
            if OnStart p then [CalledStart] else [])
    | Ok None => Ok (p, [])
    | Err e => Err e
    | Panic msg => Panic msg
    end.
Definition updateProgress (now : Z) (p : Progress) (s : Stat) (ticker : bool) : list called :=
  if OnUpdate p then [CalledUpdate s (now - p_start p) ticker] else [].
Definition Report (isTerminal : bool) (minTicker now : Z) (s : Stat) (p : Progress) : result :=
  if negb (running p) then Panic "reporting in a non-running Progress"
  else
    let c := Stat_Add (cur p) s in
    if isTerminal && (minTicker <? since now (p_lastUpdate p)) then
      let p := with_cur p c (Some now) in Ok (p, updateProgress now p c false)
    else Ok (with_cur p c (p_lastUpdate p), []).
(** A tick or a forced update, in the reporting goroutine. *)
Definition reporter (now : Z) (p : Progress) : list called := updateProgress now p (cur p) true.
(** The channel is closed by the first call only, although [Start] makes a new
    one. *)
Definition Done (now : Z) (p : Progress) : result :=
  if negb (running p) then Ok (p, [])
  else
    let p := mkProgress (OnStart p) (OnUpdate p) (OnDone p) (cur p) (p_start p) true (p_lastUpdate p) false (if once p then reporters p else O) in
    if OnDone p then
      if OnUpdate p then Ok (p, [CalledUpdate (cur p) (now - p_start p) false; CalledDone (cur p) (now - p_start p)])
      else Panic "nil pointer dereference"
    else Ok (p, []).

Fixpoint reports (isTerminal : bool) (minTicker : Z) (l : list (Z * Stat)) (p : Progress) : result :=
  match l with
  | [] => Ok (p, [])
  | (now, s) :: l =>
      '(p, c) ← Report isTerminal minTicker now s p;
      '(p, c') ← reports isTerminal minTicker l p;
      Ok (p, c ++ c')
  end.

(** What was reported between [Start] and [Done] is added up. *)
Definition totals (s : Stat) (l : list (Z * Stat)) : Stat := fold_left (fun s x => Stat_Add s x.2) l s.
Lemma reports_total t m l : forall p, running p = true -> exists p' c, reports t m l p = Ok (p', c)
  /\ cur p' = totals (cur p) l /\ running p' = true /\ (OnUpdate p', OnDone p', once p', reporters p', p_start p') = (OnUpdate p, OnDone p, once p, reporters p, p_start p).
Proof.
  induction l as [|[now s] l IH]; intros p Hr; [by exists p, []|]. cbn [reports]. unfold Report. rewrite Hr. cbn [negb].
  destruct (t && _); cbn [mbind res_bind];
    match goal with |- context [reports t m l ?q] => destruct (IH q Hr) as (p' & c & E & H1 & H2 & H3) end; rewrite E; cbn [mbind res_bind];
    exists p'; eexists; (split; [done|]); by rewrite H1.
Qed.
Lemma Done_total t m l now now' p : running p = false -> OnUpdate p = true -> OnDone p = true -> exists p1 c1 p2 c2 p3,
  Start now p = Ok (p1, c1) /\ reports t m l p1 = Ok (p2, c2)
  /\ Done now' p2 = Ok (p3, [CalledUpdate (totals no_stat l) (now' - now) false; CalledDone (totals no_stat l) (now' - now)]) /\ running p3 = false.
Proof.
  intros Hr Hu Hd. unfold Start. rewrite Hr. cbn [Reset running negb]. eexists _, _. 
  match goal with |- context [Ok (?p1, _) = Ok _] => destruct (reports_total t m l p1 eq_refl) as (p2 & c2 & E & H1 & H2 & H3) end.
  injection H3 as U1 U2 U3 U4 U5. exists p2, c2. eexists. split; [done|]. split; [exact E|]. unfold Done. rewrite H2. cbn [negb OnDone OnUpdate cur p_start].
  cbn [OnDone OnUpdate with_cur p_start cur] in *. rewrite U2, Hd, U1, Hu, H1, U5. by split.
Qed.
(** A reporter without [OnUpdate] panics when it is done. *)
Lemma Done_panics now p : running p = true -> OnDone p = true -> OnUpdate p = false -> Done now p = Panic "nil pointer dereference".
Proof. intros Hr Hd Hu. unfold Done. rewrite Hr. cbn. by rewrite Hd, Hu. Qed.
(** When it is used a second time, its goroutine never ends. *)
Lemma second_run_leaks now1 now2 now3 now4 :
  ('(p, _) ← Start now1 (mkProgress false true true no_stat 0 false None false 0);
   '(p, _) ← Done now2 p;
   let ended := reporters p in
   '(p, _) ← Start now3 p;
   '(p, _) ← Done now4 p;
   Ok (ended, reporters p)) = (Ok (0%nat, 1%nat) : res Empty_set (nat * nat)).
Proof. reflexivity. Qed.
End Restic.
