(* ===== verification/Checker.v ===== *)
(** * Checker: finding damage in a repository

    src/internal/checker/checker.go, with ForAllIndexes of
    src/repository/index_parallel.go.  What is sent to an error channel is
    returned as a list; a closed channel is the end of the list, and
    cancellation is left out.  The workers of [ReadPacks] and of
    [ForAllIndexes] run one after the other; the stream of trees of
    [Structure] is the step relation of UsedBlobs.v, with every interleaving
    of loaders and workers. *)

From S2P Require Import Prelude Crypto Ids Pack IndexMap Index MasterIndex Backend Repository Duration Snapshots Trees UsedBlobs Paths FileInfo ArchTree Archiver.
#[local] Open Scope repo_scope.

(** ** Errors *)

Inductive tree_problem : Type :=
| NilBlobList (name : string)
| NullBlob (name : string) (b : nat)
| BlobNotFound (name : string) (blobID : ID)
| NoSubtree (name : string)
| NullSubtree (name : string)
| InvalidType (name type_ : string)
| EmptyName.
Inductive pack_problem : Type :=
| ReadBlob (i : nat)
| DecryptBlob (i : nat) (e : repo_error)
| BlobHash (want got : ID)
| BlobNotInIndex (id : ID)
| SizeFromBlobs (want got : Z).
Inductive check_error : Type :=
| ErrOldIndexFormat (id : ID)
| ErrDuplicatePacks (packID : ID) (indexes : IDSet)
| IndexError (id : ID) (e : repo_error)
| ListError (e : repo_error)
| MergeError (e : index_error)
| PackError (id : ID) (orphaned : bool) (msg : string)
| SnapshotError (e : repo_error)
| TreeLoadError (id : ID) (e : stream_error (E := repo_error))
| TreeError (id : ID) (errors : list tree_problem)
| CheckPackError (e : repo_error)
| PackIDMismatch (want got : ID)
| PackSizeMismatch (want got : Z)
| PackListError (e : Pack.pack_error read_error)
| PackSeekError (offset : Z)
| PackContains (id : ID) (errs : list pack_problem).

Definition IsOrphanedPack (err : check_error) : bool := match err with PackError _ orphaned _ => orphaned | _ => false end.

Record Checker : Type := mkChecker {
  c_packs : gmap ID Z;
  c_blobRefs : BlobSet;
  c_trackUnused : bool;
  c_masterIndex : MasterIndex;
}.
Definition New (now : Z) (trackUnused : bool) : Checker := mkChecker ∅ ∅ trackUnused (NewMasterIndex now).
Definition CountPacks (c : Checker) : Z := Z.of_nat (size (c_packs c)).
Definition GetPacks (c : Checker) : gmap ID Z := c_packs c.

Section checker.
Context {S : Type} (be : Backend S) `{CP : CryptoPrims} `{IC : IndexCodec} `{SC : SnapshotCodec} `{TC : TreeCodec} `{MO : MapOrder}.
Context (mh : ID -> Z) (Hash : list byte -> ID) (clock : nat -> Z) (key : Key) (cache : option (Handle -> bool)).

(** ** Indexes *)

(** The names that are IDs, up to the error of the listing. *)
Definition list_ids (t : string) : M S (list (ID * Z) * option repo_error) := fun r =>
  let '(s, ids, err) := be_List be false t (fun fi l =>
      (match ParseID (fi_Name fi) with Ok id => l ++ [(id, fi_Size fi)] | _ => l end, None)) [] (r_be r) in
  (mkRepo s (r_idx r) (r_treePM r) (r_dataPM r) (r_noAutoIndexUpdate r) (r_tick r) (r_rnd r), Ok (ids, RBackend <$> err)).

(** The callback gets an index and whether it has the old format, or an
    error. *)
Definition index_callback (U : Type) : Type := ID -> res repo_error (Index * bool) -> U -> res repo_error U.
Definition load_one (id : ID) : M S (Index * bool) :=
  buf <- LoadAndDecrypt be Hash key IndexFile id;;
  tm <- now clock;;
  lift (lift_err RIndex (DecodeIndex mh tm buf id)).
Fixpoint for_all_indexes {U : Type} (ids : list (ID * Z)) (fn : index_callback U) (u : U) : M S U :=
  match ids with
  | [] => ret u
  | (id, _) :: ids => fun r =>
      match load_one id r with
      | (r, Panic m) => (r, Panic m)
      | (r, x) => (u <- lift (fn id x u);; for_all_indexes ids fn u) r
      end
  end.
(** The result of the callbacks, and the error of the listing. *)
Definition ForAllIndexes {U : Type} (fn : index_callback U) (u : U) : M S (U * option repo_error) :=
  '(ids, err) <- list_ids IndexFile;;
  u <- for_all_indexes ids fn u;;
  ret (u, err).

Record load_state : Type := mkLoad { ls_hints : list check_error; ls_errs : list check_error; ls_index : MasterIndex; ls_packToIndex : gmap ID IDSet }.

Definition add_pack (id : ID) (m : gmap ID IDSet) (blob : PackedBlob) : gmap ID IDSet :=
  <[pb_PackID blob := IDSet_Insert (default (NewIDSet []) (m !! pb_PackID blob)) id]> m.
Definition load_callback : index_callback load_state := fun id x st =>
  let hints := match x with Ok (_, true) => ls_hints st ++ [ErrOldIndexFormat id] | _ => ls_hints st end in
  match x with
  | Ok (index, _) =>
      blobs ← lift_err RIndex (Each index);
      Ok (mkLoad hints (ls_errs st) (MasterIndex.Insert (ls_index st) index) (fold_left (add_pack id) blobs (ls_packToIndex st)))
  | Err e => Ok (mkLoad hints (ls_errs st ++ [IndexError id e]) (ls_index st) (ls_packToIndex st))
  | Panic m => Panic m
  end.

Definition LoadIndex (c : Checker) : M S (Checker * list check_error * list check_error) :=
  '(st, err) <- ForAllIndexes load_callback (mkLoad [] [] (c_masterIndex c) ∅);;
  let errs := ls_errs st ++ match err with Some e => [ListError e] | None => [] end in
  match MergeFinalIndexes mh (ls_index st) with
  | Err e => ret (mkChecker (c_packs c) (c_blobRefs c) (c_trackUnused c) (ls_index st), ls_hints st, errs ++ [MergeError e])
  | Panic m => lift (Panic m)
  | Ok mi =>
      packs <- lift (lift_err RIndex (PackSize mi false));;
      let duplicates := omap (fun p : ID * Z =>
        let indexes := default (NewIDSet []) (ls_packToIndex st !! p.1) in
        if bool_decide (1 < size indexes)%nat then Some (ErrDuplicatePacks p.1 indexes) else None) (range_order _ packs) in
      set_idx mi;;;
      ret (mkChecker packs (c_blobRefs c) (c_trackUnused c) mi, ls_hints st ++ duplicates, errs)
  end.

(** ** Pack files *)

Fixpoint packs_loop (packs : list (ID * Z)) (repoPacks : gmap ID Z) : list check_error * gmap ID Z :=
  match packs with
  | [] => ([], repoPacks)
  | (id, size) :: packs =>
      let '(errs, rest) := packs_loop packs (delete id repoPacks) in
      (match repoPacks !! id with
       | None => PackError id false "does not exist" :: errs
       | Some reposize => if negb (size =? reposize) then PackError id false "unexpected file size" :: errs else errs
       end, rest)
  end.
Definition Packs (c : Checker) : M S (list check_error) :=
  '(files, err) <- list_ids PackFile;;
  let repoPacks := fold_left (fun m (p : ID * Z) => <[p.1 := p.2]> m) files ∅ in
  let '(errs, orphans) := packs_loop (range_order _ (c_packs c)) repoPacks in
  ret (match err with Some e => [ListError e] | None => [] end ++ errs
       ++ map (fun p : ID * Z => PackError p.1 true "not referenced in any index") (range_order _ orphans)).

(** ** Trees *)

Definition node_problems (lookup : ID -> bool) (node : Node) : list tree_problem :=
  let unnamed := if bool_decide (n_Name node = ""%string) then [EmptyName] else [] in
  if bool_decide (n_Type node = "file"%string) then
    match n_Content node with None => [NilBlobList (n_Name node)] | Some _ => [] end
    ++ concat (imap (fun b blobID =>
         if IsNull blobID then [NullBlob (n_Name node) b]
         else if lookup blobID then [] else [BlobNotFound (n_Name node) blobID]) (default [] (n_Content node)))
    ++ unnamed
  else if bool_decide (n_Type node = "dir"%string) then
    match n_Subtree node with
    | None => [NoSubtree (n_Name node)]
    | Some id => if IsNull id then [NullSubtree (n_Name node)] else unnamed
    end
  else if bool_decide (n_Type node ∈ ["symlink"; "socket"; "chardev"; "dev"; "fifo"]%string) then unnamed
  else InvalidType (n_Name node) (n_Type node) :: unnamed.
Definition checkTree (lookup : ID -> bool) (tree : Tree) : list tree_problem := concat (map (node_problems lookup) (t_Nodes tree)).

(** The blobs of files that [checkTree] notes as referenced. *)
Definition referenced (tree : Tree) : list BlobHandle :=
  concat (map (fun node => if bool_decide (n_Type node = "file"%string)
    then map (fun id => mkHandle id DataBlob) (filter (fun id => IsNull id = false) (default [] (n_Content node))) else []) (t_Nodes tree)).
(** A worker notes the blobs; it never fails. *)
Definition check_consume (trackUnused : bool) (id : ID) (item : stream_error (E := repo_error) + Tree) : stream_error (E := repo_error) + list BlobHandle :=
  inr (match item with inr tree => if trackUnused then referenced tree else [] | inl _ => [] end).
(** What a worker sends for an item. *)
Definition checkTreeWorker (lookup : ID -> bool) (job : ID * (stream_error (E := repo_error) + Tree)) : option check_error :=
  match job.2 with
  | inl e => Some (TreeLoadError job.1 e)
  | inr tree => match checkTree lookup tree with [] => None | errs => Some (TreeError job.1 errs) end
  end.

(** [*sn.Tree] panics for a snapshot without a tree. *)
Definition tree_callback : snap_callback (res repo_error (list ID * list check_error)) := fun _ sn u =>
  (match u with
   | Ok (ids, errs) =>
       match sn with
       | Err e => Ok (ids, errs ++ [SnapshotError e])
       | Ok sn => match s_Tree sn with Some treeID => Ok (ids ++ [treeID], errs) | None => Panic "invalid memory address or nil pointer dereference" end
       | Panic m => Panic m
       end
   | _ => u
   end, None).
Definition loadSnapshotTreeIDs : M S (list ID * list check_error) := fun r =>
  match ForAllSnapshots be Hash key ∅ tree_callback (Ok ([], [])) r with
  | (r, Ok u) => (r, u)
  | (r, Err e) => (r, Ok ([], [SnapshotError e]))
  | (r, Panic m) => (r, Panic m)
  end.

(** What loading a tree gives; loading leaves the repository as it is. *)
Definition repo_tree (r : Repo S) (id : ID) : res repo_error (option Tree) :=
  match (LoadTree be mh Hash key cache id r).2 with Ok t => Ok (Some t) | Err e => Err e | Panic m => Panic m end.
Definition lookup_data (r : Repo S) (id : ID) : bool := (MasterIndex_LookupSize mh (r_idx r) (mkHandle id DataBlob)).2.

(** The errors and the checker once a stream has ended. *)
Definition stream_errors (r : Repo S) (s : fstate (E := repo_error)) : list check_error := omap (checkTreeWorker (lookup_data r)) (f_delivered s).
Definition with_refs (c : Checker) (blobs : BlobSet) : Checker := mkChecker (c_packs c) blobs (c_trackUnused c) (c_masterIndex c).
(** One schedule of the stream; a worker that panics ends the program. *)
Definition Structure (fuel : nat) (can_send : list ID -> ID -> bool) (c : Checker) : M S (Checker * list check_error) :=
  '(trees, errs) <- loadSnapshotTreeIDs;;
  r <- get_repo;;
  let s := frun (repo_tree r) can_send (check_consume (c_trackUnused c)) fuel (finit trees (c_blobRefs c)) in
  match f_failed s with
  | Some (LoadPanic msg) => lift (Panic msg)
  | _ => if finished s then ret (with_refs c (f_blobs s), errs ++ stream_errors r s) else lift (Panic "out of fuel")
  end.

Definition UnusedBlobs (c : Checker) : M S (list BlobHandle) :=
  if negb (c_trackUnused c) then lift (Panic "only works when tracking blob references")
  else
    r <- get_repo;;
    blobs <- lift (lift_err RIndex (MasterIndex_Each (r_idx r)));;
    ret (filter (fun h => h ∉ c_blobRefs c) (map (fun pb => b_handle (pb_Blob pb)) blobs)).

(** ** Reading the data *)

Definition same_place (id : ID) (blob : Blob) (pb : PackedBlob) : bool :=
  bool_decide (pb_PackID pb = id) && (b_Offset (pb_Blob pb) =? b_Offset blob) && (b_Length (pb_Blob pb) =? b_Length blob).

(** [Seek] and [io.ReadFull]. *)
Definition read_at (file : list byte) (offset length_ : Z) : option (list byte) :=
  if 0 <? length_ then
    if offset + length_ <=? lenZ file then Some (take (Z.to_nat length_) (drop (Z.to_nat offset) file)) else None
  else Some [].

Fixpoint check_blobs (file : list byte) (mi : MasterIndex) (id : ID) (i : nat) (blobs : list Blob) (sizeFromBlobs : Z) (errs : list pack_problem)
  : res check_error (Z * list pack_problem) :=
  match blobs with
  | [] => Ok (sizeFromBlobs, errs)
  | blob :: blobs =>
      let sizeFromBlobs := u64 (sizeFromBlobs + b_Length blob) in
      let next errs := check_blobs file mi id (Datatypes.S i) blobs sizeFromBlobs errs in
      if i64 (b_Offset blob) <? 0 then Err (PackSeekError (b_Offset blob))
      else
        match read_at file (b_Offset blob) (b_Length blob) with
        | None => next (errs ++ [ReadBlob i])
        | Some buf =>
            match decrypt key buf with
            | Panic m => Panic m
            | Err e => next (errs ++ [DecryptBlob i e])
            | Ok plaintext =>
                let hash := Hash plaintext in
                if negb (Equal hash (b_ID blob)) then next (errs ++ [BlobHash (b_ID blob) hash])
                else
                  match MasterIndex_Lookup mh mi (b_handle blob) with
                  | Panic m => Panic m
                  | Err e => Err (CheckPackError (RIndex e))
                  | Ok pbs => next (if existsb (same_place id blob) pbs then errs else errs ++ [BlobNotInIndex (b_ID blob)])
                  end
            end
        end
  end.

Definition checkPack (id : ID) (size : Z) : M S (option check_error) := fun r =>
  match DownloadAndHash be Hash (mkBeHandle PackFile InvalidBlob (ID_String id)) r with
  | (r, Panic m) => (r, Panic m)
  | (r, Err e) => (r, Ok (Some (CheckPackError e)))
  | (r, Ok (packfile, hash)) =>
      (r, if negb (Equal hash id) then Ok (Some (PackIDMismatch id hash))
          else if negb (lenZ packfile =? size) then Ok (Some (PackSizeMismatch size (lenZ packfile)))
          else
            match Pack.List key (bytesReaderAt packfile) size with
            | Panic m => Panic m
            | Err e => Ok (Some (PackListError e))
            | Ok (blobs, hdrSize) =>
                match check_blobs packfile (r_idx r) id 0 blobs (u64 hdrSize) [] with
                | Panic m => Panic m
                | Err e => Ok (Some e)
                | Ok (sizeFromBlobs, errs) =>
                    let errs := if negb (i64 sizeFromBlobs =? size) then errs ++ [SizeFromBlobs size sizeFromBlobs] else errs in
                    Ok (match errs with [] => None | _ => Some (PackContains id errs) end)
                end
            end)
  end.

Fixpoint check_packs (packs : list (ID * Z)) : M S (list check_error) :=
  match packs with
  | [] => ret []
  | (id, size) :: packs =>
      err <- checkPack id size;;
      errs <- check_packs packs;;
      ret (match err with Some e => e :: errs | None => errs end)
  end.
Definition ReadPacks (packs : gmap ID Z) : M S (list check_error) := check_packs (range_order _ packs).
Definition ReadData (c : Checker) : M S (list check_error) := ReadPacks (c_packs c).
End checker.

(** ** Facts *)

Section facts.
Context {S : Type} (be : Backend S) (norm : Handle -> Handle) (contents : S -> Handle -> option (list byte)).
Context {SL : StoreLaws be norm contents} {FL : FileLaws be norm contents} {ML : MissingLaws be norm contents}.
Context {CP : CryptoPrims} {CL : CryptoLaws} {IC : IndexCodec} {SC : SnapshotCodec} {TC : TreeCodec} {MO : MapOrder} {MOL : MapOrderLaws}.
Context (mh : ID -> Z) (Hash : list byte -> ID) (clock : nat -> Z) (key : Key) (cache : option (Handle -> bool)).
Context (key_ok : Key_Valid key = true) (hash_wf : forall l, wf_ID (Hash l)).
#[local] Abbreviation reads := (reads norm contents).
#[local] Abbreviation same_repo := (same_repo norm contents).
#[local] Abbreviation pb_readable := (pb_readable norm contents Hash key).
#[local] Abbreviation checkPack_ := (checkPack be mh Hash key).

Lemma LoadAll_ok h s s' file : LoadAll be false [] h s = (s', inl file) ->
  Handle_Valid h = None /\ contents s (norm h) = Some file /\ s' = s.
Proof.
  unfold LoadAll. match goal with |- context [be_Load be ?a ?b ?c ?d ?f ?u s] => destruct (be_Load be a b c d f u s) as [[s1 x] err] eqn:EL end.
  destruct err as [e|]; [done|]. intros [= <- <-]. pose proof (load_missing _ _ _ _ _ _ _ _ _ EL) as [HV [file' Hf]].
  rewrite (load_file _ _ _ _ _ _ _ file' HV Hf) in EL by lia. unfold file_range in EL. cbn [Z.ltb Z.compare Z.to_nat rd_err rd_bytes fst snd] in EL.
  rewrite drop_0 in EL. by injection EL as <- <-.
Qed.

Lemma DownloadAndHash_ok h r r' file hash : DownloadAndHash be Hash h r = (r', Ok (file, hash)) ->
  contents (r_be r) (norm h) = Some file /\ hash = Hash file.
Proof.
  unfold DownloadAndHash, Repository.bind, be_read. destruct (LoadAll be false [] h (r_be r)) as [s [f|e]] eqn:EL; [|done].
  intros [= _ <- <-]. apply LoadAll_ok in EL as (_ & Hc & _). by split.
Qed.
Lemma checkPack_reads id size : reads (checkPack_ id size).
Proof.
  intros r. unfold checkPack.
  assert (HD : Archiver.same_repo norm contents r (DownloadAndHash be Hash (mkBeHandle PackFile InvalidBlob (ID_String id)) r).1).
  { apply (reads_bind norm contents); [apply reads_load; intros s h; by eapply LoadAll_frame|done]. }
  destruct (DownloadAndHash be Hash _ r) as [r1 [[file hash]|e|m]]; exact HD.
Qed.

(** *** A pack without problems *)

(** What is known of a blob that was checked. *)
Definition blob_clean (file : list byte) (mi : MasterIndex) (id : ID) (b : Blob) : Prop :=
  exists buf pt pbs, read_at file (b_Offset b) (b_Length b) = Some buf /\ decrypt key buf = Ok pt /\ Hash pt = b_ID b
    /\ MasterIndex_Lookup mh mi (b_handle b) = Ok pbs /\ existsb (same_place id b) pbs = true.

Lemma app_nil_l_inv {A} (l1 l2 : list A) : l1 ++ l2 = [] -> l1 = [] /\ l2 = [].
Proof. destruct l1; [done|discriminate]. Qed.
Lemma check_blobs_clean file mi id blobs : forall i sz errs sz',
  check_blobs mh Hash key file mi id i blobs sz errs = Ok (sz', []) ->
  errs = [] /\ sz' = fold_left (fun a b => u64 (a + b_Length b)) blobs sz /\ Forall (blob_clean file mi id) blobs.
Proof.
  induction blobs as [|b blobs IH]; intros i sz errs sz'; cbn [check_blobs fold_left]; [by intros [= -> ->]|].
  destruct (i64 (b_Offset b) <? 0); [done|].
  assert (Hbad : forall p, check_blobs mh Hash key file mi id (Datatypes.S i) blobs (u64 (sz + b_Length b)) (errs ++ [p]) = Ok (sz', []) -> False).
  { intros p (Hnil & _)%IH. by apply app_nil_l_inv in Hnil as [_ ?]. }
  destruct (read_at file (b_Offset b) (b_Length b)) as [buf|] eqn:ER; [|by intros ?%Hbad].
  destruct (decrypt key buf) as [pt|e|m] eqn:ED; [|by intros ?%Hbad|done].
  unfold Equal. case_bool_decide as Hh; cbn [negb]; [|by intros ?%Hbad].
  destruct (MasterIndex_Lookup mh mi (b_handle b)) as [pbs|e|m] eqn:EM; [|done..].
  destruct (existsb (same_place id b) pbs) eqn:EP; [|by intros ?%Hbad].
  intros (-> & -> & Hall)%IH. split; [done|]. split; [done|]. constructor; [|done]. by exists buf, pt, pbs.
Qed.

Lemma checkPack_clean id size r r' : checkPack_ id size r = (r', Ok None) ->
  exists file blobs hdr, contents (r_be r) (norm (pack_handle InvalidBlob id)) = Some file /\ Hash file = id /\ lenZ file = size
    /\ Pack.List key (bytesReaderAt file) (lenZ file) = Ok (blobs, hdr) /\ Forall (blob_clean file (r_idx r) id) blobs
    /\ i64 (fold_left (fun a b => u64 (a + b_Length b)) blobs (u64 hdr)) = size.
Proof.
  unfold checkPack. pose proof (reads_bind norm contents (be_read (LoadAll be false [] (mkBeHandle PackFile InvalidBlob (ID_String id))))
    (fun file => Repository.ret (file, Hash file)) (reads_load norm contents _ (fun s h => LoadAll_frame be norm contents _ _ _ s h)) ltac:(done) r) as HR.
  fold (DownloadAndHash be Hash (mkBeHandle PackFile InvalidBlob (ID_String id))) in HR.
  destruct (DownloadAndHash be Hash _ r) as [r1 [[file hash]|e|m]] eqn:ED; [|by intros [=]..].
  destruct HR as (HI & _). cbn [fst] in HI. apply DownloadAndHash_ok in ED as [Hc ->].
  unfold Equal. case_bool_decide as Hh; cbn [negb]; [|done]. destruct (Z.eqb_spec (lenZ file) size) as [Hs|]; cbn [negb]; [|done].
  rewrite <- Hs. destruct (Pack.List key (bytesReaderAt file) (lenZ file)) as [[blobs hdr]|e|m] eqn:EL; [|done..].
  rewrite HI. destruct (check_blobs _ _ _ _ _ _ _ _ _ _) as [[sz errs]|e|m] eqn:EC; [|done..].
  destruct (i64 sz =? lenZ file) eqn:Esz; cbn [negb]; [|by destruct errs].
  destruct errs as [|p errs]; [|done]. intros _. apply check_blobs_clean in EC as (_ & -> & Hall).
  exists file, blobs, hdr. apply Z.eqb_eq in Esz. done.
Qed.

(** *** The index of a pack without problems is exact *)

Definition weight (l : list PackedBlob) : Z := foldr (fun pb n => b_Length (pb_Blob pb) + EntrySize + n) 0 l.
Lemma weight_app l1 l2 : weight (l1 ++ l2) = weight l1 + weight l2.
Proof. induction l1 as [|pb l1 IH]; cbn [weight foldr app]; [done|]. fold (weight (l1 ++ l2)) (weight l1). rewrite IH. lia. Qed.
Lemma weight_perm l1 l2 : l1 ≡ₚ l2 -> weight l1 = weight l2.
Proof. unfold weight. induction 1; cbn [foldr]; lia. Qed.
Lemma weight_pos l : (forall pb, pb ∈ l -> 0 <= b_Length (pb_Blob pb)) -> 0 <= weight l /\ (weight l = 0 -> l = []).
Proof.
  induction l as [|pb l IH]; intros Hl; [done|]. cbn [weight foldr]. fold (weight l).
  assert (0 <= b_Length (pb_Blob pb)) by (apply Hl; by left).
  destruct (IH ltac:(intros x Hx; apply Hl; by right)) as [H1 _]. change EntrySize with 37. split; [lia|]. intros. lia.
Qed.
Lemma size_of_weight id l : size_of false id l = weight (filter (fun pb => pb_PackID pb = id) l).
Proof.
  induction l as [|pb l IH]; [done|]. rewrite filter_cons. cbn [size_of foldr]. fold (size_of false id l). rewrite IH.
  case_bool_decide as Hp; [rewrite decide_True by done|rewrite decide_False by done; done].
  cbn [weight foldr]. fold (weight (filter (fun pb => pb_PackID pb = id) l)). lia.
Qed.
Lemma weight_map id blobs : weight (map (fun b => mkPacked b id) blobs) = foldr Z.add 0 (map b_Length blobs) + EntrySize * lenZ blobs.
Proof.
  induction blobs as [|b blobs IH]; [done|]. cbn [map weight foldr pb_Blob length]. fold (weight (map (fun b => mkPacked b id) blobs)).
  rewrite IH. lia.
Qed.
Lemma fold_u64 (blobs : list Blob) : forall h, fold_left (fun a b => u64 (a + b_Length b)) blobs (u64 h) = u64 (h + foldr Z.add 0 (map b_Length blobs)).
Proof.
  induction blobs as [|b blobs IH]; intros h; cbn [fold_left map foldr]; [f_equal; lia|].
  replace (u64 (u64 h + b_Length b)) with (u64 (h + b_Length b)) by (unfold u64; by rewrite Zplus_mod_idemp_l).
  rewrite IH. f_equal. lia.
Qed.

(** Together with the sizes, finding each blob of the pack in the index means
    that the index lists nothing else for the pack. *)
Lemma index_exact (l : list PackedBlob) id blobs : (forall pb, pb ∈ l -> 0 <= b_Length (pb_Blob pb)) ->
  NoDup blobs -> (forall b, b ∈ blobs -> mkPacked b id ∈ l) ->
  size_of false id l = foldr Z.add 0 (map b_Length blobs) + EntrySize * lenZ blobs ->
  forall pb, pb ∈ l -> pb_PackID pb = id -> pb_Blob pb ∈ blobs.
Proof.
  intros Hlen HN Hin Hsize pb Hpb Hid. set (E := filter (fun pb => pb_PackID pb = id) l). set (L := map (fun b => mkPacked b id) blobs).
  assert (HL : L ⊆+ E).
  { apply NoDup_submseteq; [apply NoDup_fmap_2; [by intros b1 b2 [= ->]|done]|].
    intros x (b & -> & Hb)%list_elem_of_fmap. apply list_elem_of_filter. split; [done|by apply Hin]. }
  apply submseteq_Permutation in HL as [k Hk].
  rewrite size_of_weight in Hsize. fold E in Hsize. rewrite (weight_perm _ _ Hk), weight_app in Hsize. unfold L in Hsize. rewrite weight_map in Hsize.
  assert (HkE : forall x, x ∈ k -> x ∈ l) by (intros x Hx; assert (x ∈ E) as [_ ?]%list_elem_of_filter by (rewrite Hk; apply elem_of_app; by right); done).
  destruct (weight_pos k) as [_ Hnil]; [intros x Hx; by apply Hlen, HkE|]. rewrite (Hnil ltac:(lia)), app_nil_r in Hk.
  assert (HE : pb ∈ E) by (by apply list_elem_of_filter). rewrite Hk in HE. by apply list_elem_of_fmap in HE as (b & -> & Hb).
Qed.

(** The blobs of a pack are distinct when none is empty. *)
Lemma laid_out_NoDup blobs fin : Forall (fun b => 0 < b_Length b) blobs -> foldr Z.add 0 (map b_Length blobs) < 2 ^ 64 -> laid_out 0 blobs fin -> NoDup blobs.
Proof.
  intros Hpos Hsum Hlay. assert (Hnn : Forall (fun b => 0 <= b_Length b) blobs) by (eapply Forall_impl; [exact Hpos|]; cbv beta; intros b; lia).
  assert (Hlt : forall i j b, (i < j)%nat -> blobs !! i = Some b -> blobs !! j = Some b -> False).
  { intros i j b Hij Hi Hj. pose proof (laid_out_disjoint 0 blobs fin i j b b ltac:(done) Hnn Hsum Hlay Hi Hj Hij).
    rewrite Forall_lookup in Hpos. pose proof (Hpos i b Hi). lia. }
  apply NoDup_alt. intros i j b Hi Hj. destruct (Nat.lt_trichotomy i j) as [?|[?|?]]; [|done|]; exfalso; eauto.
Qed.

Lemma lengths_bound blobs : Forall blob_ok blobs -> 0 <= foldr Z.add 0 (map b_Length blobs) <= 2 ^ 32 * lenZ blobs.
Proof. induction 1 as [|b l (_ & _ & Hb) _ IH]; cbn [map foldr length]; lia. Qed.
Lemma size_of_bound id l : (forall pb, pb ∈ l -> 0 <= b_Length (pb_Blob pb) <= maxuint32) -> 0 <= size_of false id l <= (2 ^ 32 + 37) * lenZ l.
Proof.
  induction l as [|pb l IH]; intros Hl; [done|]. cbn [size_of foldr length]. fold (size_of false id l).
  pose proof (Hl pb ltac:(by left)) as Hp. specialize (IH ltac:(intros x Hx; apply Hl; by right)).
  unfold maxuint32 in *. change EntrySize with 37. case_bool_decide; lia.
Qed.
Lemma known_fits mi pb : master_wf mh mi -> pb ∈ known (mi_idx mi) -> fits32 (pb_Blob pb).
Proof.
  intros [_ Hwf] Hin. unfold known in Hin. apply elem_of_concat in Hin as (l & Hl & Hpb). apply list_elem_of_fmap in Hl as (i & -> & Hi).
  rewrite Forall_forall in Hwf. by apply (all_pbs_fits mh i pb (Hwf i Hi)).
Qed.
Lemma blob_clean_known file mi id b : master_wf mh mi -> blob_clean file mi id b ->
  mkPacked b id ∈ known (mi_idx mi) /\ 32 <= b_Length b /\ b_Offset b + b_Length b <= lenZ file
  /\ exists pt, decrypt key (take (Z.to_nat (b_Length b)) (drop (Z.to_nat (b_Offset b)) file)) = Ok pt /\ Hash pt = b_ID b.
Proof using All.
  intros Hwf (buf & pt & pbs & HR & HD & Hh & HM & HP).
  destruct (MasterIndex_Lookup_spec mh mi (b_handle b) Hwf) as (l & Hl & Hperm). rewrite HM in Hl. injection Hl as ->.
  apply existsb_exists in HP as (pb & Hin & Hsame). apply list_elem_of_In in Hin. rewrite Hperm in Hin. apply list_elem_of_filter in Hin as [Hhd Hin].
  unfold same_place in Hsame. rewrite !andb_true_iff, bool_decide_eq_true, !Z.eqb_eq in Hsame. destruct Hsame as [[Hp Ho] Hlen].
  assert (pb = mkPacked b id) as ->. { destruct pb as [[h len off] p], b as [h' len' off']. cbn in *. congruence. }
  pose proof (decrypt_length key key_ok buf pt HD) as HL. unfold read_at in HR. destruct (Z.ltb_spec 0 (b_Length b)); [|injection HR as <-; cbn in HL; lia].
  destruct (Z.leb_spec (b_Offset b + b_Length b) (lenZ file)); [|done]. injection HR as <-.
  rewrite length_take, length_drop in HL. split; [done|]. split; [lia|]. split; [done|]. by exists pt.
Qed.

Lemma checkPack_readable id size r r' : checkPack_ id size r = (r', Ok None) -> master_wf mh (r_idx r) -> lenZ (known (mi_idx (r_idx r))) <= 2 ^ 30 ->
  size = HeaderSize + size_of false id (known (mi_idx (r_idx r))) ->
  forall pb, pb ∈ known (mi_idx (r_idx r)) -> pb_PackID pb = id -> pb_readable (r_be r) pb.
Proof using All.
  intros HC Hwf Hn Hsize pb Hpb Hid. apply checkPack_clean in HC as (file & blobs & hdr & Hf & Hh & Hlen & HL & Hall & Hsum).
  pose proof (List_sound key file) as HS. rewrite HL in HS. destruct HS as (Hhdr & Hmax & [fin Hlay] & Hok).
  change HeaderSize with 36 in *. change EntrySize with 37 in *. change maxHeaderSize with (2 ^ 24) in Hmax.
  pose proof (lengths_bound blobs Hok) as Hlb. rewrite fold_u64, (u64_small (hdr + _)), i64_small in Hsum by lia.
  assert (Hfit : forall x, x ∈ known (mi_idx (r_idx r)) -> 0 <= b_Length (pb_Blob x) <= maxuint32) by (intros x Hx; by apply (known_fits _ _ Hwf)).
  rewrite Forall_forall in Hall. assert (Hin : pb_Blob pb ∈ blobs).
  { apply (index_exact (known (mi_idx (r_idx r))) id blobs); [intros x Hx; by apply Hfit| |intros b Hb; by apply (blob_clean_known _ _ _ _ Hwf (Hall b Hb))| |done|done].
    - eapply laid_out_NoDup; [|lia|exact Hlay]. apply Forall_forall. intros b Hb. destruct (blob_clean_known _ _ _ _ Hwf (Hall b Hb)) as (_ & ? & _). lia.
    - change EntrySize with 37. lia. }
  destruct (blob_clean_known _ _ _ _ Hwf (Hall _ Hin)) as (_ & Hl & Hb & pt & HD & Hpt). exists file, pt. rewrite Hid. split; [done|].
  destruct (known_fits _ _ Hwf Hpb) as [[Ho _] _]. split; [rewrite <- Hh; apply hash_wf|]. repeat (split; [done || lia|]). done.
Qed.

(** *** All packs *)

Lemma reads_run {A} (m : M S A) r r' x : reads m -> m r = (r', x) -> same_repo r r'.
Proof. intros Hm E. specialize (Hm r). by rewrite E in Hm. Qed.
Lemma check_packs_clean l : forall r r', check_packs be mh Hash key l r = (r', Ok []) ->
  same_repo r r' /\ forall id size, (id, size) ∈ l -> exists r1 r2, same_repo r r1 /\ checkPack_ id size r1 = (r2, Ok None).
Proof using All.
  induction l as [|[id size] l IH]; intros r r'; cbn [check_packs].
  { intros [= <-]. split; [done|]. by intros id size Hin%elem_of_nil. }
  unfold Repository.bind at 1. destruct (checkPack_ id size r) as [r1 [err|e|m]] eqn:EC; [|done..].
  pose proof (reads_run _ _ _ _ (checkPack_reads id size) EC) as H1.
  unfold Repository.bind. destruct (check_packs be mh Hash key l r1) as [r2 [errs|e|m]] eqn:EL; [|done..].
  destruct err as [e|]; [done|]. intros [= <- ->]. apply IH in EL as [H2 Hall]. split; [by eapply same_repo_trans|].
  intros id' size' [[= -> ->]|Hin]%elem_of_cons; [by exists r, r1|].
  destruct (Hall id' size' Hin) as (r3 & r4 & H3 & HC). exists r3, r4. split; [by eapply same_repo_trans|done].
Qed.

Lemma readable_same s s' pb : (forall h, contents s' (norm h) = contents s (norm h)) -> pb_readable s' pb -> pb_readable s pb.
Proof. intros HC (file & pt & Hf & Hrest). exists file, pt. by rewrite <- HC. Qed.

Lemma ReadData_readable c r r' : master_wf mh (r_idx r) -> lenZ (known (mi_idx (r_idx r))) <= 2 ^ 30 -> PackSize (r_idx r) false = Ok (c_packs c) ->
  ReadData be mh Hash key c r = (r', Ok []) ->
  same_repo r r' /\ forall pb, pb ∈ known (mi_idx (r_idx r)) -> pb_readable (r_be r) pb.
Proof using All.
  intros Hwf Hn HP HR. unfold ReadData, ReadPacks in HR. apply check_packs_clean in HR as [Hsame Hall]. split; [done|]. intros pb Hpb.
  assert (Hb : forall x, HeaderSize + size_of false x (known (mi_idx (r_idx r))) < 2 ^ 63).
  { intros x. destruct (size_of_bound x (known (mi_idx (r_idx r)))) as [_ H]; [intros y Hy; by apply (known_fits _ _ Hwf)|]. change HeaderSize with 36. lia. }
  destruct (PackSize_lookup mh (r_idx r) false (pb_PackID pb) Hwf (Hb _)) as (m & Hm & Hx). rewrite HP in Hm. injection Hm as <-.
  rewrite bool_decide_eq_true_2 in Hx by (by apply list_elem_of_fmap_2).
  destruct (Hall (pb_PackID pb) (HeaderSize + size_of false (pb_PackID pb) (known (mi_idx (r_idx r))))) as (r1 & r2 & H1 & HC).
  { rewrite range_order_perm. by apply elem_of_map_to_list. }
  destruct H1 as (HI & _ & _ & Hcont). eapply readable_same; [exact Hcont|]. rewrite <- HI in Hwf, Hn, Hpb. eapply checkPack_readable; [exact HC|done|done| |done|done]. by rewrite HI.
Qed.

(** *** The structure *)

Lemma check_consume_data track id item hs h : check_consume track id item = inr hs -> h ∈ hs -> bh_Type h = DataBlob.
Proof.
  unfold check_consume. destruct item as [e|tree]; [by intros [= <-] ?%elem_of_nil|]. destruct track; [|by intros [= <-] ?%elem_of_nil].
  intros [= <-]. unfold referenced. intros (l & Hl & Hh)%elem_of_concat. apply list_elem_of_fmap in Hl as (n & -> & _).
  case_bool_decide; [|by apply elem_of_nil in Hh]. by apply list_elem_of_fmap in Hh as (b & -> & _).
Qed.

#[local] Abbreviation repo_tree_ := (repo_tree be mh Hash key cache).
#[local] Abbreviation lookup_data_ := (lookup_data (S := S) mh).
#[local] Abbreviation stream r can_send track := (fstep (repo_tree_ r) can_send (check_consume track)).

Lemma stream_ended r can_send track roots b0 s : rtc (stream r can_send track) (finit roots b0) s -> finished s = true ->
  (f_failed s = None /\ forall id, visited (repo_tree_ r) roots b0 id -> load_panics (repo_tree_ r) id = None)
  /\ (forall h, h ∈ f_blobs s <-> used (repo_tree_ r) (check_consume track) roots b0 h)
  /\ NoDup (map fst (f_delivered s)) /\ (forall id item, (id, item) ∈ f_delivered s <-> visited (repo_tree_ r) roots b0 id /\ item = tree_item (repo_tree_ r) id).
Proof.
  intros Hr Hfin. pose proof (finv_reachable _ can_send (check_consume track) (check_consume_data track) roots b0 s Hr) as HI.
  assert (Hf : f_failed s = None) by (revert Hfin; unfold finished; by destruct (f_backlog s), (f_loadCh s), (f_job s), (f_failed s)).
  destruct (finished_exact _ (check_consume track) roots b0 s HI Hf Hfin) as (Hb & Hnd & Hv & Hi). split.
  { split; [done|]. intros id Hid%Hv. apply list_elem_of_fmap in Hid as ([id' item] & -> & Hin). by apply (Hi _ _ Hin). }
  split; [done|]. split; [done|].
  intros id item. split.
  - intros Hin. split; [|by apply Hi]. apply Hv. by apply (list_elem_of_fmap_2 fst _ (id, item)).
  - intros [Hvis ->]. apply Hv in Hvis. apply list_elem_of_fmap in Hvis as ([id' item] & -> & Hin). by rewrite (proj1 (Hi _ _ Hin)) in Hin.
Qed.

Lemma stream_errors_in r s err : err ∈ stream_errors mh r s <-> exists id item, (id, item) ∈ f_delivered s /\ checkTreeWorker (lookup_data_ r) (id, item) = Some err.
Proof.
  unfold stream_errors. rewrite list_elem_of_omap. split; [intros ([id item] & Hin & He); by exists id, item|intros (id & item & Hin & He); by exists (id, item)].
Qed.

(** A tree without problems. *)
Lemma imap_concat_nil {A B} (f : nat -> A -> list B) l i x : concat (imap f l) = [] -> l !! i = Some x -> f i x = [].
Proof.
  revert f i. induction l as [|y l IH]; intros f i; [done|]. cbn [imap concat]. intros [Hy Hl]%app_nil_l_inv. destruct i as [|i]; cbn.
  - by intros [= <-].
  - apply (IH (f ∘ Datatypes.S) i Hl).
Qed.
Lemma checkTree_clean lookup tree n : checkTree lookup tree = [] -> n ∈ t_Nodes tree ->
  (n_Type n = "file"%string -> n_Content n ≠ None /\ forall c, c ∈ default [] (n_Content n) -> IsNull c = false /\ lookup c = true)
  /\ (n_Type n = "dir"%string -> exists sub, n_Subtree n = Some sub /\ IsNull sub = false).
Proof.
  intros HC Hn. assert (HP : node_problems lookup n = []).
  { unfold checkTree in HC. revert HC Hn. induction (t_Nodes tree) as [|m l IH]; cbn [map concat]; [by intros _ ?%elem_of_nil|].
    intros [Hm Hl]%app_nil_l_inv [->|Hin]%elem_of_cons; auto. }
  unfold node_problems in HP. split; intros Ht.
  - rewrite (bool_decide_eq_true_2 (n_Type n = "file"%string)) in HP by done. apply app_nil_l_inv in HP as [Hc [Hb _]%app_nil_l_inv].
    split; [by destruct (n_Content n)|]. intros c [i Hi]%list_elem_of_lookup. pose proof (imap_concat_nil _ _ _ _ Hb Hi) as Hx. cbv beta in Hx.
    destruct (IsNull c); [done|]. by destruct (lookup c).
  - rewrite (bool_decide_eq_false_2 (n_Type n = "file"%string)) in HP by (by rewrite Ht). rewrite (bool_decide_eq_true_2 (n_Type n = "dir"%string)) in HP by done.
    destruct (n_Subtree n) as [sub|]; [|done]. exists sub. split; [done|]. by destruct (IsNull sub).
Qed.

Lemma stream_clean r can_send track roots b0 s id : rtc (stream r can_send track) (finit roots b0) s -> finished s = true -> stream_errors mh r s = [] ->
  visited (repo_tree_ r) roots b0 id -> exists tree, repo_tree_ r id = Ok (Some tree) /\ checkTree (lookup_data_ r) tree = [].
Proof.
  intros Hr Hfin He Hv. destruct (stream_ended _ _ _ _ _ _ Hr Hfin) as (_ & _ & _ & Hd).
  assert (HW : checkTreeWorker (lookup_data_ r) (id, tree_item (repo_tree_ r) id) = None).
  { destruct (checkTreeWorker _ _) as [err|] eqn:EW; [|done]. assert (Hin : err ∈ stream_errors mh r s); [|rewrite He in Hin; by apply elem_of_nil in Hin].
    apply stream_errors_in. exists id, (tree_item (repo_tree_ r) id). split; [by apply Hd|done]. }
  unfold checkTreeWorker, tree_item in HW. cbn [fst snd] in HW. destruct (repo_tree_ r id) as [[tree|]|e|m] eqn:ET; try done.
  exists tree. split; [done|]. by destruct (checkTree (lookup_data_ r) tree).
Qed.

Lemma first_size_Has l bh : (first_size mh l bh).2 = existsb (fun idx => Has mh idx bh) l.
Proof. induction l as [|i l IH]; [done|]. cbn [first_size existsb]. unfold LookupSize, Has in *. by destruct (get mh _ _). Qed.
Lemma lookup_data_known r id : master_wf mh (r_idx r) -> lookup_data_ r id = true ->
  exists pb, pb ∈ known (mi_idx (r_idx r)) /\ b_handle (pb_Blob pb) = mkHandle id DataBlob.
Proof.
  intros [_ Hwf]. unfold lookup_data, MasterIndex_LookupSize. rewrite first_size_Has. by apply existsb_Has.
Qed.

(** *** Snapshots *)

Lemma LoadAndDecrypt_same ty id r r1 r2 buf : same_repo r r1 -> LoadAndDecrypt be Hash key ty id r1 = (r2, Ok buf) ->
  LoadAndDecrypt be Hash key ty id r = (r, Ok buf).
Proof using All.
  intros (_ & _ & _ & HC). unfold LoadAndDecrypt, Repository.bind, be_read. set (h := mkBeHandle ty InvalidBlob _).
  destruct (LoadAll be false [] h (r_be r1)) as [s1 [file|e]] eqn:EL; [|done]. apply LoadAll_ok in EL as (HV & Hf & _). rewrite HC in Hf.
  assert (HL : LoadAll be false [] h (r_be r) = (r_be r, inl file)).
  { unfold LoadAll. rewrite (load_file _ _ _ _ _ _ _ file HV Hf) by lia. unfold file_range. cbn [Z.ltb Z.compare Z.to_nat rd_err rd_bytes fst snd]. by rewrite drop_0. }
  rewrite HL, repo_eta. destruct (_ && _); [done|]. unfold lift. by intros [= _ ->].
Qed.
Lemma LoadSnapshot_same id r r1 r2 sn : same_repo r r1 -> LoadSnapshot be Hash key id r1 = (r2, Ok sn) -> LoadSnapshot be Hash key id r = (r, Ok sn).
Proof using All.
  intros Hs. unfold LoadSnapshot, Repository.bind. destruct (LoadAndDecrypt be Hash key SnapshotFile id r1) as [r3 [buf|e|m]] eqn:EL; [|done..].
  rewrite (LoadAndDecrypt_same _ _ _ _ _ _ Hs EL). destruct (snap_decode buf); [|done]. by intros [= _ ->].
Qed.
Lemma LoadBlob_known t id r r' pt : master_wf mh (r_idx r) -> LoadBlob be mh Hash key cache t id r = (r', Ok pt) ->
  exists pb, pb ∈ known (mi_idx (r_idx r)) /\ b_handle (pb_Blob pb) = mkHandle id t.
Proof.
  intros Hwf. unfold LoadBlob, Repository.bind, get_repo, lift. destruct (MasterIndex_Lookup_spec mh (r_idx r) (mkHandle id t) Hwf) as (l & -> & Hl).
  cbn [lift_err]. case_bool_decide as Hnil; [done|]. intros _. destruct l as [|pb l]; [done|]. exists pb.
  assert (Hin : pb ∈ filter (fun pb => b_handle (pb_Blob pb) = mkHandle id t) (known (mi_idx (r_idx r)))) by (rewrite <- Hl; by left).
  by apply list_elem_of_filter in Hin as [? ?].
Qed.
Lemma same_repo_sym r r' : same_repo r r' -> same_repo r' r.
Proof. intros (H1 & H2 & H3 & H4). by split_and!. Qed.

Lemma tree_callback_panic ids u r r' x : for_all_ids be Hash key ids ∅ tree_callback u r = (r', Ok x) -> (forall v, u ≠ Ok v) -> forall v, x ≠ Ok v.
Proof.
  revert u r. induction ids as [|[id size] ids IH]; intros u r; cbn [for_all_ids]; [by intros [= _ <-]|].
  unfold IDSet_Has. rewrite bool_decide_eq_false_2 by set_solver. destruct (LoadSnapshot be Hash key id r) as [r1 [sn|e|m]]; [| |done].
  all: unfold tree_callback at 1; intros HF Hu; apply (IH _ _ HF); destruct u; [by edestruct Hu|done..].
Qed.
Lemma all_trees ids : forall r r' us trees, for_all_ids be Hash key ids ∅ tree_callback (Ok us) r = (r', Ok (Ok (trees, []))) ->
  same_repo r r' /\ us.2 = [] /\ (forall t, t ∈ us.1 -> t ∈ trees)
  /\ forall id size, (id, size) ∈ ids -> exists r1 r2 sn root, same_repo r r1 /\ LoadSnapshot be Hash key id r1 = (r2, Ok sn) /\ s_Tree sn = Some root /\ root ∈ trees.
Proof using All.
  induction ids as [|[id size] ids IH]; intros r r' [ts errs] trees; cbn [for_all_ids].
  { intros [= <- -> ->]. split; [done|]. split; [done|]. split; [done|]. by intros id size ?%elem_of_nil. }
  unfold IDSet_Has. rewrite bool_decide_eq_false_2 by set_solver.
  pose proof (LoadSnapshot_reads be norm contents Hash key id r) as HR.
  destruct (LoadSnapshot be Hash key id r) as [r1 [sn|e|m]] eqn:EL; [| |done]; unfold tree_callback at 1; cbn [fst] in HR.
  - destruct (s_Tree sn) as [root|] eqn:Et.
    + intros (H1 & H2 & H3 & H4)%IH. cbn [fst snd] in *. split; [by eapply same_repo_trans|]. split; [done|].
      split; [intros t Ht; apply H3, elem_of_app; by left|]. intros id' size' [[= -> ->]|Hin]%elem_of_cons.
      * exists r, r1, sn, root. split; [done|]. split; [done|]. split; [done|]. apply H3, elem_of_app. right. by left.
      * destruct (H4 id' size' Hin) as (r2 & r3 & sn' & root' & Hs & Hrest). exists r2, r3, sn', root'. split; [by eapply same_repo_trans|done].
    + intros HF. eapply tree_callback_panic in HF; [by destruct HF|done].
  - intros (H1 & H2 & _)%IH. cbn [snd] in H2. by apply app_nil_l_inv in H2 as [_ ?].
Qed.

Context (files : S -> string -> list FileInfo) {DL : DirLaws be norm contents files}.
Lemma ListIDs_reads t : reads (ListIDs be t).
Proof.
  intros r. unfold ListIDs. match goal with |- context [be_List be ?a ?b ?f ?u ?s] => destruct (be_List be a b f u s) as [[s' ids] err] eqn:EL end.
  split; [done|]. split; [done|]. split; [done|]. intros h. cbn. by eapply list_frame.
Qed.

Lemma snapshots_loaded r r' trees : loadSnapshotTreeIDs be Hash key r = (r', Ok (trees, [])) ->
  same_repo r r' /\ forall ids r0 id size, ListIDs be SnapshotFile r = (r0, Ok ids) -> (id, size) ∈ ids ->
    exists sn root, LoadSnapshot be Hash key id r' = (r', Ok sn) /\ s_Tree sn = Some root /\ root ∈ trees.
Proof using All.
  unfold loadSnapshotTreeIDs, ForAllSnapshots, Repository.bind. pose proof (ListIDs_reads SnapshotFile r) as H0.
  destruct (ListIDs be SnapshotFile r) as [r0 [ids|e|m]]; [|done..]. cbn [fst] in H0.
  destruct (for_all_ids be Hash key ids ∅ tree_callback (Ok ([], [])) r0) as [r1 [u|e|m]] eqn:EF; [|done..].
  intros [= <- ->]. apply all_trees in EF as (H1 & _ & _ & H2). split; [by eapply same_repo_trans|].
  intros ids' r0' id size [= <- <-] Hin. destruct (H2 id size Hin) as (r2 & r3 & sn & root & Hs & HL & Ht & Hroot). exists sn, root.
  split; [|done]. eapply LoadSnapshot_same; [|exact HL]. by eapply same_repo_trans; [apply same_repo_sym|].
Qed.

Lemma LoadIndex_packs c0 r0 r c hints errs : LoadIndex be mh Hash clock key c0 r0 = (r, Ok (c, hints, errs)) -> (forall e, MergeError e ∉ errs) ->
  r_idx r = c_masterIndex c /\ PackSize (r_idx r) false = Ok (c_packs c) /\ c_blobRefs c = c_blobRefs c0 /\ c_trackUnused c = c_trackUnused c0.
Proof.
  unfold LoadIndex. unfold Repository.bind at 1. destruct (ForAllIndexes _ _ _ _ _ _ _ r0) as [r1 [[st err]|e|m]]; [|done..].
  destruct (MergeFinalIndexes mh (ls_index st)) as [mi|e|m] eqn:EM; [|intros [= _ _ _ <-] Hno; exfalso; by apply (Hno e), elem_of_app; right; left|done].
  unfold Repository.bind, lift. destruct (PackSize mi false) as [packs|e|m] eqn:EP; cbn [lift_err]; [|done..].
  unfold set_idx, Repository.ret. intros [= <- <- _ _] _. cbn [r_idx c_masterIndex c_packs c_blobRefs c_trackUnused]. done.
Qed.

(** C3: a check that finds nothing can be relied on.  If
    [LoadIndex] of a new checker, loading the snapshots, [Structure] (with
    any interleaving of its workers) and [ReadData] report no error, and the
    tables of the index that was loaded are well formed, then every snapshot can be loaded, every tree reached from one
    can be loaded, its directories have subtrees that are reached, and each
    blob of its files can be loaded and has its ID as hash: all snapshots
    can be restored.  No collision-freeness of SHA-256 is needed: a pack is
    accepted only if the index lists all its blobs where they are and,
    because of the sizes, lists nothing else for it. *)
Theorem check_sound (tm : Z) (track : bool) (c : Checker) (hints : list check_error) (r0 r r1 r2 : Repo S) (trees : list ID) (can_send : list ID -> ID -> bool) (s : fstate (E := repo_error)) :
  LoadIndex be mh Hash clock key (New tm track) r0 = (r, Ok (c, hints, [])) ->
  master_wf mh (r_idx r) -> lenZ (known (mi_idx (r_idx r))) <= 2 ^ 30 ->
  loadSnapshotTreeIDs be Hash key r = (r1, Ok (trees, [])) ->
  rtc (stream r1 can_send (c_trackUnused c)) (finit trees (c_blobRefs c)) s -> finished s = true -> stream_errors mh r1 s = [] ->
  ReadData be mh Hash key c r1 = (r2, Ok []) ->
  (forall ids r3 id size, ListIDs be SnapshotFile r = (r3, Ok ids) -> (id, size) ∈ ids ->
     exists sn root, LoadSnapshot be Hash key id r1 = (r1, Ok sn) /\ s_Tree sn = Some root /\ visited (repo_tree_ r1) trees ∅ root)
  /\ forall t, visited (repo_tree_ r1) trees ∅ t -> exists tree, LoadTree be mh Hash key cache t r1 = (r1, Ok tree)
     /\ forall n, n ∈ t_Nodes tree ->
        (n_Type n = "file"%string -> n_Content n ≠ None /\ forall b, b ∈ default [] (n_Content n) ->
           exists data, LoadBlob be mh Hash key cache DataBlob b r1 = (r1, Ok data) /\ Hash data = b)
        /\ (n_Type n = "dir"%string -> exists sub, n_Subtree n = Some sub /\ visited (repo_tree_ r1) trees ∅ sub).
Proof using All.
  intros HI Hwf Hn HL Hr Hfin He HR. destruct (snapshots_loaded _ _ _ HL) as [Hsame Hsn].
  destruct (LoadIndex_packs _ _ _ _ _ _ HI) as (_ & HP & Href & _); [by intros e Hin%elem_of_nil|].
  cbn [New c_blobRefs] in Href. rewrite Href in Hr. destruct Hsame as (Hidx & _). rewrite <- Hidx in Hwf, Hn, HP.
  destruct (ReadData_readable c r1 r2 Hwf Hn HP HR) as [_ Hread].
  assert (Hload : forall id t, (exists pb, pb ∈ known (mi_idx (r_idx r1)) /\ b_handle (pb_Blob pb) = mkHandle id t) ->
    exists pt, LoadBlob be mh Hash key cache t id r1 = (r1, Ok pt) /\ Hash pt = id).
  { intros id t Hex. apply (LoadBlob_readable be norm contents mh Hash key); [done|intros pb Hpb _; by apply Hread|done]. }
  split.
  - intros ids r3 id size Hids Hin. destruct (Hsn ids r3 id size Hids Hin) as (sn & root & H1 & H2 & H3). exists sn, root.
    split; [done|]. split; [done|]. by apply v_root; [|apply not_elem_of_empty].
  - intros t Hv. destruct (stream_clean _ _ _ _ _ _ _ Hr Hfin He Hv) as (tree & Ht & HC). exists tree. split.
    + revert Ht. unfold repo_tree, LoadTree, Repository.bind. destruct (LoadBlob be mh Hash key cache TreeBlob t r1) as [r3 [pt|e|m]] eqn:EB; [|done..].
      destruct (Hload t TreeBlob (LoadBlob_known _ _ _ _ _ Hwf EB)) as (pt' & HB & _). rewrite EB in HB. injection HB as -> ->.
      destruct (tree_decode pt'); [|done]. by intros [= ->].
    + intros n Hnode. destruct (checkTree_clean _ _ _ HC Hnode) as [Hf Hd]. split.
      * intros Hty. destruct (Hf Hty) as [Hc Hb]. split; [done|]. intros b Hbin. destruct (Hb b Hbin) as [_ Hlk].
        apply Hload. by apply lookup_data_known.
      * intros Hty. destruct (Hd Hty) as (sub & Hsub & Hnull). exists sub. split; [done|].
        eapply v_sub; [exact Hv|exact Ht| |done|apply not_elem_of_empty]. unfold Subtrees. apply list_elem_of_omap. exists n. split; [done|].
        by rewrite bool_decide_eq_true_2.
Qed.

(** C16: [Structure] checks every tree exactly once.  Given that finitely
    many trees can be reached, and whatever the schedule of loaders and
    workers: the stream ends after a bounded number of steps.  Either loading a
    tree that is reached has panicked, which ends the program (a blob that is
    indexed as shorter than a nonce does this), or: no tree that is reached
    panics when it is loaded, each tree reached from the snapshots (without
    passing through one that was referenced before) is checked exactly once,
    and the errors reported are those of these trees.  If references are
    tracked from the start, [UnusedBlobs] then returns exactly the blobs of the
    index that no reached tree is or refers to. *)
Theorem Structure_exact (c : Checker) (r : Repo S) (trees U : list ID) (can_send : list ID -> ID -> bool) :
  (forall id, can_send [] id = true) -> NoDup U -> (forall id, visited (repo_tree_ r) trees (c_blobRefs c) id -> id ∈ U) ->
  (exists bound, forall n s, nsteps (stream r can_send (c_trackUnused c)) n (finit trees (c_blobRefs c)) s -> (n <= bound)%nat)
  /\ forall s, rtc (stream r can_send (c_trackUnused c)) (finit trees (c_blobRefs c)) s -> (forall s', ¬ stream r can_send (c_trackUnused c) s s') ->
     (exists id msg, visited (repo_tree_ r) trees (c_blobRefs c) id /\ repo_tree_ r id = Panic msg /\ f_failed s = Some (LoadPanic msg))
     \/ f_failed s = None /\ (forall id msg, visited (repo_tree_ r) trees (c_blobRefs c) id -> repo_tree_ r id ≠ Panic msg)
     /\ finished s = true /\ NoDup (map fst (f_delivered s))
     /\ (forall id, id ∈ map fst (f_delivered s) <-> visited (repo_tree_ r) trees (c_blobRefs c) id)
     /\ (forall err, err ∈ stream_errors mh r s <-> exists id, visited (repo_tree_ r) trees (c_blobRefs c) id
           /\ checkTreeWorker (lookup_data_ r) (id, tree_item (repo_tree_ r) id) = Some err)
     /\ (c_trackUnused c = true -> c_blobRefs c = ∅ -> master_wf mh (r_idx r) ->
         exists l, UnusedBlobs (with_refs c (f_blobs s)) r = (r, Ok l) /\ forall h, h ∈ l <->
           (exists pb, pb ∈ known (mi_idx (r_idx r)) /\ b_handle (pb_Blob pb) = h)
           /\ ¬ (exists id, visited (repo_tree_ r) trees ∅ id /\ (h = tree_handle id
                  \/ exists tree, repo_tree_ r id = Ok (Some tree) /\ h ∈ referenced tree))).
Proof using CL.
  intros Hsend HN HU.
  destruct (stream_total (repo_tree_ r) can_send (check_consume (c_trackUnused c)) (check_consume_data (c_trackUnused c)) trees (c_blobRefs c) U Hsend HN HU) as [Hb Hend].
  split; [eexists; exact Hb|]. intros s Hr Hstuck. specialize (Hend s Hr Hstuck).
  destruct (f_failed s) as [e|] eqn:EF.
  { left. destruct Hend as (id & Hv & [?|(msg & Hp & ->)]); [done|]. exists id, msg. split; [done|]. split; [|done].
    unfold load_panics in Hp. destruct (repo_tree_ r id); by simplify_eq. }
  destruct Hend as (Hfin & _). right. split; [done|].
  destruct (stream_ended _ _ _ _ _ _ Hr Hfin) as ([_ Hnp] & Hblobs & Hnd & Hd). split.
  { intros id msg Hv%Hnp Hp. unfold load_panics in Hv. by rewrite Hp in Hv. }
  split; [done|]. split; [done|]. split; [|split].
  - intros id. rewrite list_elem_of_fmap. split; [intros ([id' item] & -> & [Hv _]%Hd); done|].
    intros Hv. exists (id, tree_item (repo_tree_ r) id). split; [done|by apply Hd].
  - intros err. rewrite stream_errors_in. split; [intros (id & item & [Hv ->]%Hd & He); by exists id|].
    intros (id & Hv & He). exists id, (tree_item (repo_tree_ r) id). split; [by apply Hd|done].
  - intros Htr Hempty Hwf. unfold UnusedBlobs, with_refs. cbn [c_trackUnused c_blobRefs]. rewrite Htr. cbn [negb]. unfold Repository.bind, get_repo, lift.
    rewrite (MasterIndex_Each_spec mh) by done. cbn [lift_err]. eexists. split; [done|]. intros h.
    assert (Hused : h ∈ f_blobs s <-> exists id, visited (repo_tree_ r) trees ∅ id /\ (h = tree_handle id
        \/ exists tree, repo_tree_ r id = Ok (Some tree) /\ h ∈ referenced tree)).
    { rewrite Hblobs. unfold used. rewrite Hempty, Htr. split.
      * intros [He|[(id & Hv & ->)|(id & hs & Hv & Hc & Hin)]]; [by apply elem_of_empty in He|exists id; by auto|].
        exists id. split; [done|]. right. unfold check_consume, tree_item in Hc. destruct (repo_tree_ r id) as [[tree|]|e|m]; injection Hc as <-;
          [by exists tree|by apply elem_of_nil in Hin..].
      * intros (id & Hv & [->|(tree & Ht & Hin)]); [right; left; by exists id|right; right]. exists id, (referenced tree).
        split; [done|]. split; [|done]. unfold check_consume, tree_item. by rewrite Ht. }
    rewrite list_elem_of_filter, list_elem_of_fmap, Hused. split.
    + intros [Hn (pb & -> & Hin)]. split; [by exists pb|done].
    + intros [(pb & Hin & <-) Hn]. split; [done|by exists pb].
Qed.
End facts.

(** *** Two panics *)

(** A pack header that lists a blob shorter than a nonce makes [checkPack]
    panic: the buffer is sliced before its length is tested. *)
Lemma check_blobs_short_panics {CP : CryptoPrims} mh Hash key file mi id i b blobs sz errs : 0 <= b_Offset b < 2 ^ 63 -> 0 <= b_Length b < 16 ->
  b_Offset b + b_Length b <= lenZ file ->
  exists m, check_blobs mh Hash key file mi id i (b :: blobs) sz errs = Panic m.
Proof.
  intros Ho Hl Hf. cbn [check_blobs]. rewrite i64_small by lia. destruct (Z.ltb_spec (b_Offset b) 0); [lia|].
  assert (HR : exists buf, read_at file (b_Offset b) (b_Length b) = Some buf /\ lenZ buf < 16).
  { unfold read_at. destruct (0 <? b_Length b); [|by exists []]. destruct (Z.leb_spec (b_Offset b + b_Length b) (lenZ file)); [|lia].
    eexists. split; [done|]. rewrite length_take. lia. }
  destruct HR as (buf & -> & Hb). unfold decrypt, gslice. rewrite bool_decide_eq_false_2 by (unfold NonceSize, ivSize; lia). by eexists.
Qed.
(** So does a snapshot without a tree. *)
Lemma tree_callback_nil id sn ids errs : s_Tree sn = None -> exists m, (tree_callback id (Ok sn) (Ok (ids, errs))).1 = Panic m.
Proof. intros Ht. unfold tree_callback. rewrite Ht. by eexists. Qed.

(** ** A check in memory *)

(** A table that has not grown yet, by computation. *)
Definition small_table (mh : ID -> Z) (m : indexMap) : bool :=
  (numentries m =? lenZ (entries m))
  && (bool_decide (buckets m = []) || (bool_decide (length (buckets m) = 64%nat) && (numentries m <=? 256)
      && forallb (fun p : nat * list indexEntry => forallb (fun e => bool_decide (hash mh 64 (e_id e) = p.1)) p.2) (imap pair (buckets m)))).
Definition small_index (mh : ID -> Z) (i : Index) : bool :=
  forallb (fun t => small_table mh (bt_get (byType i) t)
    && forallb (fun e => (0 <=? e_packIndex e) && (e_packIndex e <? lenZ (packs i)) && (0 <=? e_offset e) && (e_offset e <=? maxuint32)
                         && (0 <=? e_length e) && (e_length e <=? maxuint32)) (entries (bt_get (byType i) t))) [InvalidBlob; DataBlob; TreeBlob].
Lemma small_table_wf mh m : small_table mh m = true -> map_wf mh m.
Proof.
  unfold small_table. rewrite andb_true_iff, Z.eqb_eq, orb_true_iff, bool_decide_eq_true, !andb_true_iff, bool_decide_eq_true, Z.leb_le.
  intros [Hn Hb]. split; [done|]. destruct Hb as [?|[[Hl Hle] Hall]]; [by left|right]. split; [exists 6; by rewrite Hl|].
  rewrite Hl. split; [|by unfold maxLoad; lia]. rewrite forallb_forall in Hall. intros i chain e Hi He.
  specialize (Hall (i, chain)). cbn [fst snd] in Hall. rewrite forallb_forall in Hall.
  apply (bool_decide_eq_true_1 (hash mh 64 (e_id e) = i)). apply Hall; [|by apply list_elem_of_In]. apply list_elem_of_In, list_elem_of_lookup.
  exists i. rewrite list_lookup_imap, Hi. done.
Qed.
Lemma small_index_wf mh i : small_index mh i = true -> idx_wf mh i.
Proof.
  unfold small_index. rewrite forallb_forall. intros Hall t. specialize (Hall t ltac:(destruct t; cbn; tauto)).
  apply andb_true_iff in Hall as [Ht He]. split; [by apply small_table_wf|]. rewrite forallb_forall in He. intros e Hin%list_elem_of_In%He.
  rewrite !andb_true_iff, !Z.leb_le, Z.ltb_lt in Hin. unfold entry_ok. lia.
Qed.

Definition tree_snap_codec : SnapshotCodec := {| snap_decode buf := Some (mkSnapshot zeroTime None (Some buf) (Some ["/a"%string]) "host" "" 0 0 None None None None) |}.
Definition check_repo0 : Repo Mem.memMap := mkRepo (r_be (a_repo toy_snapshot_run.1)) (NewMasterIndex 0) [] [] false 1 0.
Definition check_index : Repo Mem.memMap * res repo_error (Checker * list check_error * list check_error) :=
  LoadIndex toy_mem (CP := plain_prims) (IC := toy_codec) (MO := toy_order) toy_mh (table_hash toy_table) toy_clock toy_key (New 0 true) check_repo0.
Definition checker1 : Checker := match check_index.2 with Ok (c, _, _) => c | _ => New 0 true end.
Definition check_roots : Repo Mem.memMap * res repo_error (list ID * list check_error) :=
  loadSnapshotTreeIDs toy_mem (CP := plain_prims) (SC := tree_snap_codec) (table_hash toy_table) toy_key check_index.1.
Definition check_stream : fstate (E := repo_error) :=
  frun (repo_tree toy_mem (CP := plain_prims) (TC := toy_trees) toy_mh (table_hash toy_table) toy_key None check_roots.1) (fun _ _ => true)
    (check_consume (c_trackUnused checker1)) 40 (finit [Archiver.toy_id Byte.x05] (c_blobRefs checker1)).
Definition check_data : Repo Mem.memMap * res repo_error (list check_error) :=
  ReadData toy_mem (CP := plain_prims) (MO := toy_order) toy_mh (table_hash toy_table) toy_key checker1 check_roots.1.

#[local] Abbreviation checked_tree := (repo_tree toy_mem (CP := plain_prims) (TC := toy_trees) toy_mh (table_hash toy_table) toy_key None check_roots.1).
#[local] Abbreviation checked_stream := (fstep checked_tree (fun _ _ => true) (check_consume (c_trackUnused checker1))).

Lemma check_index_run : check_index = (check_index.1, Ok (checker1, [], [])).
Proof. assert (HE : check_index.2 = Ok (checker1, [], [])) by (vm_compute; reflexivity). rewrite <- HE. by destruct check_index. Qed.
Lemma check_roots_run : check_roots = (check_roots.1, Ok ([Archiver.toy_id Byte.x05], [])).
Proof. assert (HE : check_roots.2 = Ok ([Archiver.toy_id Byte.x05], [])) by (vm_compute; reflexivity). rewrite <- HE. by destruct check_roots. Qed.
Lemma check_data_run : check_data = (check_data.1, Ok []).
Proof. assert (HE : check_data.2 = Ok []) by (vm_compute; reflexivity). rewrite <- HE. by destruct check_data. Qed.
Lemma check_stream_run : rtc checked_stream (finit [Archiver.toy_id Byte.x05] (c_blobRefs checker1)) check_stream.
Proof. apply frun_reachable. Qed.
Lemma check_stream_finished : finished check_stream = true.
Proof. vm_compute. reflexivity. Qed.
Lemma check_stream_clean : stream_errors toy_mh check_roots.1 check_stream = [].
Proof. vm_compute. reflexivity. Qed.
Lemma check_master_wf (r : Repo Mem.memMap) : forallb (small_index toy_mh) (mi_idx (r_idx r)) = true ->
  match mi_idx (r_idx r) with i :: _ => final i | [] => false end = true -> master_wf toy_mh (r_idx r).
Proof.
  rewrite forallb_forall. intros Hall Hf. split.
  - destruct (mi_idx (r_idx r)) as [|i l]; [done|]. by exists i, l.
  - apply Forall_forall. intros i Hi%list_elem_of_In. by apply small_index_wf, Hall.
Qed.
Lemma check_index_wf : master_wf toy_mh (r_idx check_index.1).
Proof. apply check_master_wf; vm_compute; reflexivity. Qed.

Lemma check_sound_witness :
  exists tree, LoadTree toy_mem (CP := plain_prims) (TC := toy_trees) toy_mh (table_hash toy_table) toy_key None (Archiver.toy_id Byte.x05) check_roots.1
    = (check_roots.1, Ok tree).
Proof.
  pose proof check_index_run as HI. unfold check_index at 1 in HI. pose proof check_roots_run as HL. unfold check_roots at 1 in HL.
  pose proof check_data_run as HD. unfold check_data at 1 in HD.
  destruct (check_sound toy_mem Mem.normalize mem_contents (SL := mem_store_laws toy_md5 map_to_list) (FL := mem_file_laws toy_md5 map_to_list)
    (ML := mem_missing_laws toy_md5 map_to_list) (CL := plain_laws) (IC := toy_codec) (SC := tree_snap_codec) (TC := toy_trees) (MOL := toy_order_laws)
    toy_mh (table_hash toy_table) toy_clock toy_key None toy_key_ok (fun l => table_hash_wf _ l toy_table_ok) mem_files
    (DL := mem_dir_laws toy_md5 map_to_list) 0 true checker1 [] check_repo0 check_index.1 check_roots.1 check_data.1
    [Archiver.toy_id Byte.x05] (fun _ _ => true) check_stream HI check_index_wf ltac:(vm_compute; discriminate) HL check_stream_run check_stream_finished
    check_stream_clean HD) as [_ HT].
  destruct (HT (Archiver.toy_id Byte.x05)) as (tree & Ht & _); [|exact (ex_intro _ tree Ht)].
  apply v_root; [by left|apply not_elem_of_empty].
Defined.

Lemma stream_ended_ids {S} (be : Backend S) {CP : CryptoPrims} {IC : IndexCodec} {TC : TreeCodec} mh Hash key cache (r : Repo S) can_send track roots b0 s :
  rtc (fstep (repo_tree be mh Hash key cache r) can_send (check_consume track)) (finit roots b0) s -> finished s = true ->
  NoDup (map fst (f_delivered s)) /\ forall id, visited (repo_tree be mh Hash key cache r) roots b0 id -> id ∈ map fst (f_delivered s).
Proof.
  intros Hr Hf. destruct (stream_ended be mh Hash key cache r can_send track roots b0 s Hr Hf) as (_ & _ & Hnd & Hd). split; [done|].
  intros id Hv. apply (list_elem_of_fmap_2 fst _ (id, tree_item (repo_tree be mh Hash key cache r) id)). by apply Hd.
Qed.
Lemma check_stream_ids : NoDup (map fst (f_delivered check_stream))
  /\ forall id, visited checked_tree [Archiver.toy_id Byte.x05] (c_blobRefs checker1) id -> id ∈ map fst (f_delivered check_stream).
Proof. exact (stream_ended_ids toy_mem (CP := plain_prims) (IC := toy_codec) (TC := toy_trees) _ _ _ _ _ _ _ _ _ _ check_stream_run check_stream_finished). Qed.
Lemma check_stream_stuck s' : ¬ checked_stream check_stream s'.
Proof. eapply finished_stuck; [by apply (finv_reachable _ _ _ (check_consume_data _) _ _ _ check_stream_run)|exact check_stream_finished]. Qed.

Lemma checker1_refs : c_trackUnused checker1 = true /\ c_blobRefs checker1 = ∅.
Proof. split; vm_compute; reflexivity. Qed.
Lemma check_roots_wf : master_wf toy_mh (r_idx check_roots.1).
Proof. apply check_master_wf; vm_compute; reflexivity. Qed.
Lemma check_stream_tree : Archiver.toy_id Byte.x03 ∈ map fst (f_delivered check_stream).
Proof. apply (bool_decide_eq_true_1 _). vm_compute. reflexivity. Qed.
Definition toy_file_tree : Tree := mkTree [refs_node ("z", "file", Some [Archiver.toy_id Byte.x01], None)]%string.
Lemma check_tree_3 : checked_tree (Archiver.toy_id Byte.x03) = Ok (Some toy_file_tree).
Proof. vm_compute. reflexivity. Qed.
Lemma toy_file_referenced : mkHandle (Archiver.toy_id Byte.x01) DataBlob ∈ referenced toy_file_tree.
Proof. apply (bool_decide_eq_true_1 _). vm_compute. reflexivity. Qed.

Lemma check_stream_works : f_failed check_stream = None.
Proof. vm_compute. reflexivity. Qed.
Lemma Structure_exact_witness :
  exists l, UnusedBlobs (with_refs checker1 (f_blobs check_stream)) check_roots.1 = (check_roots.1, Ok l)
     /\ mkHandle (Archiver.toy_id Byte.x01) DataBlob ∉ l.
Proof.
  destruct (Structure_exact toy_mem (CL := plain_laws) (TC := toy_trees) toy_mh (table_hash toy_table) toy_key None checker1 check_roots.1
    [Archiver.toy_id Byte.x05] (map fst (f_delivered check_stream)) (fun _ _ => true) (fun _ => eq_refl) (proj1 check_stream_ids) (proj2 check_stream_ids)) as [_ HE].
  destruct (HE check_stream check_stream_run check_stream_stuck) as [(id & msg & _ & _ & Hf)|(_ & _ & _ & _ & Hv & _ & HU)];
    [rewrite check_stream_works in Hf; discriminate Hf|].
  destruct (HU (proj1 checker1_refs) (proj2 checker1_refs) check_roots_wf) as (l & Hl & Hin). exists l. split; [exact Hl|].
  intros Hm. destruct (proj1 (Hin _) Hm) as [_ Hn]. apply Hn. exists (Archiver.toy_id Byte.x03).
  pose proof (proj1 (Hv _) check_stream_tree) as HV. rewrite (proj2 checker1_refs) in HV. split; [exact HV|]. right.
  exists toy_file_tree. exact (conj check_tree_3 toy_file_referenced).
Defined.
