(* ===== verification/Contents.v ===== *)
(** * Contents: reading the contents of files

    The cache of blobs (src/internal/bloblru/cache.go and its copy
    src/internal/fuse/blobcache.go) and reading from a file that is mounted
    (src/internal/fuse/file.go).  The LRU list of the cache is hashicorp's
    simplelru, an interface with laws. *)

From S2P Require Import Prelude Crypto Ids Duration Snapshots Trees.

(** ** simplelru

    [lru_items] are the entries, oldest first; [lru_RemoveOldest] and
    [lru_Add] return the entry that was evicted, on which the callback is
    called. *)
Class LRU (K V L : Type) : Type := {
  lru_NewLRU : Z -> option L;
  lru_Contains : L -> K -> bool;
  lru_Get : L -> K -> L * option V;
  lru_RemoveOldest : L -> L * option (K * V);
  lru_Add : L -> K -> V -> L * option (K * V);
}.

Class LRULaws (K V L : Type) `{LRU K V L} : Type := {
  lru_items : L -> list (K * V);
  lru_cap : L -> Z;
  lru_new_ok n : 0 < n -> exists l, lru_NewLRU n = Some l /\ lru_items l = [] /\ lru_cap l = n;
  lru_contains_ok l k : lru_Contains l k = true <-> k ∈ (lru_items l).*1;
  lru_get_items l k : lru_items (lru_Get l k).1 ≡ₚ lru_items l;
  lru_get_cap l k : lru_cap (lru_Get l k).1 = lru_cap l;
  lru_get_some l k v : NoDup (lru_items l).*1 -> ((lru_Get l k).2 = Some v <-> (k, v) ∈ lru_items l);
  lru_remove_some l : lru_items l ≠ [] ->
    exists l' x, lru_RemoveOldest l = (l', Some x) /\ lru_items l = x :: lru_items l' /\ lru_cap l' = lru_cap l;
  lru_add_ok l k v : k ∉ (lru_items l).*1 -> lenZ (lru_items l) < lru_cap l ->
    exists l', lru_Add l k v = (l', None) /\ lru_items l' ≡ₚ (k, v) :: lru_items l /\ lru_cap l' = lru_cap l;
}.

Section cache.
(** [Cache] and [blobCache] differ in the cost of a value: the capacity of the
    slice, or its length. *)
Context {V L : Type} `{LRU ID V L} (cost : V -> Z).

Definition overhead : Z := 32 + 64.

Record Cache : Type := mkCache { c_c : L; c_free : Z; c_size : Z }.

Definition New {E} (size : Z) : res E Cache :=
  match lru_NewLRU (size / overhead) with
  | None => Panic "Must provide a positive size"
  | Some l => Ok (mkCache l size size)
  end.

(** [evict], the callback. *)
Definition evict (e : option (ID * V)) (free : Z) : Z :=
  match e with Some (_, v) => free + (cost v + overhead) | None => free end.

(** The loop of [Add]; [old] is the largest evicted value.  Each iteration
    removes an entry, and there are at most [maxEntries]; removing from an empty list makes the conversion of [val] panic. *)
Fixpoint make_room {E} (fuel : nat) (size : Z) (c : Cache) (old : option V) : res E (Cache * option V) :=
  if size <=? c_free c then Ok (c, old)
  else match fuel with
  | O => Panic "out of fuel"
  | S fuel =>
      match lru_RemoveOldest (c_c c) with
      | (_, None) => Panic "interface conversion: interface is nil"
      | (l, Some (k, b)) =>
          let old := match old with
            | None => if 0 <? cost b then Some b else None
            | Some o => if cost o <? cost b then Some b else Some o end in
          make_room fuel size (mkCache l (evict (Some (k, b)) (c_free c)) (c_size c)) old
      end
  end.

Definition Add {E} (c : Cache) (id : ID) (blob : V) : res E (Cache * option V) :=
  let size := cost blob + overhead in
  if c_size c <? size then Ok (c, None)
  else if lru_Contains (c_c c) id then Ok (c, None)
  else
    '(c, old) ← make_room (Z.to_nat (c_size c / overhead)) size c None;
    let '(l, evicted) := lru_Add (c_c c) id blob in
    Ok (mkCache l (evict evicted (c_free c) - size) (c_size c), old).

Definition Get (c : Cache) (id : ID) : Cache * option V :=
  let '(l, v) := lru_Get (c_c c) id in (mkCache l (c_free c) (c_size c), v).
End cache.
Arguments Cache L : clear implicits.

(** [blobCache] of the mounted file system. *)
Section blobcache.
Context {L : Type} `{LRU ID (list byte) L}.
Definition blob_len (b : list byte) : Z := lenZ b.
Definition blobCache_add {E} (c : Cache L) (id : ID) (blob : list byte) : res E (Cache L) :=
  '(c, _) ← Add blob_len c id blob; Ok c.
Definition blobCache_get (c : Cache L) (id : ID) : Cache L * option (list byte) := Get c id.
End blobcache.

(** ** Reading a mounted file (src/internal/fuse/file.go) *)

(** A copy of a node with another size. *)
Definition with_Size (n : Node) (size : Z) : Node :=
  mkNode (n_Name n) (n_Type n) (n_Mode n) (n_ModTime n) (n_AccessTime n) (n_ChangeTime n) (n_UID n) (n_GID n)
    (n_User n) (n_Group n) (n_Inode n) (n_DeviceID n) size (n_Links n) (n_LinkTarget n) (n_ExtendedAttributes n)
    (n_Device n) (n_Content n) (n_Subtree n) (n_Error n) (n_Path n).

(** A blob is a slice: its bytes and its spare capacity. *)
Definition blob_cap (b : slice) : Z := lenZ (sl_data b ++ sl_spare b).

Section files.
Context {E R L : Type} `{LRU ID slice L} (LookupBlobSize : ID -> option Z) (LoadBlob : ID -> R -> R * res E slice).

Inductive file_error : Type := IdNotFound (id : ID) | FileErr (e : E).

(** [cumsize], from entry [i] on: [bytes] is the size so far. *)
Fixpoint cumsizes (content : list ID) (bytes : Z) : res file_error (list Z) :=
  match content with
  | [] => Ok [bytes]
  | id :: content =>
      match LookupBlobSize id with
      | None => Err (IdNotFound id)
      | Some size => rest ← cumsizes content (u64 (bytes + size)); Ok (bytes :: rest)
      end
  end.

Record openFile : Type := mkOpen { of_node : Node; of_cumsize : list Z }.

Definition node_content (n : Node) : list ID := default [] (n_Content n).

Definition Open (node : Node) : res file_error openFile :=
  cumsize ← cumsizes (node_content node) 0;
  let bytes := default 0 (last cumsize) in
  if bool_decide (bytes ≠ n_Size node) then Ok (mkOpen (with_Size node bytes) cumsize)
  else Ok (mkOpen node cumsize).

(** The cache and the repository are the state of reads. *)
Definition rstate : Type := Cache L * R.

Definition get_blob (id : ID) (s : rstate) : rstate * res E slice :=
  let '(c, r) := s in
  let '(c, v) := Get c id in
  match v with
  | Some blob => ((c, r), Ok blob)
  | None =>
      match LoadBlob id r with
      | (r, Err e) => ((c, r), Err e)
      | (r, Panic m) => ((c, r), Panic m)
      | (r, Ok blob) =>
          match Add blob_cap c id blob with
          | Ok (c, _) => ((c, r), Ok blob)
          | Err e => ((c, r), Err e)
          | Panic m => ((c, r), Panic m)
          end
      end
  end.

Definition getBlobAt (f : openFile) (i : nat) (s : rstate) : rstate * res E slice :=
  match node_content (of_node f) !! i with
  | None => (s, Panic "index out of range")
  | Some id => get_blob id s
  end.

(** The loop of [Read]: [n] blobs are left, [remaining] is the length of
    [dst], [data] the bytes copied. *)
Fixpoint read_loop (f : openFile) (n i : nat) (offset : Z) (remaining : nat) (data : list byte) (s : rstate)
  : rstate * res E (list byte) :=
  match n, remaining with
  | O, _ | _, O => (s, Ok data)
  | S n, _ =>
      match getBlobAt f i s with
      | (s, Err e) => (s, Err e)
      | (s, Panic m) => (s, Panic m)
      | (s, Ok blob) =>
          match (if 0 <? offset then gslice (E := E) (sl_data blob) offset (lenZ (sl_data blob)) else Ok (sl_data blob)) with
          | Err e => (s, Err e)
          | Panic m => (s, Panic m)
          | Ok blob =>
              let copied := take remaining blob in
              read_loop f n (S i) 0 (remaining - length copied) (data ++ copied) s
          end
      end
  end.

(** [cap] is the capacity of [resp.Data]. *)
Definition Read (f : openFile) (size offset cap : Z) (s : rstate) : rstate * res E (list byte) :=
  if bool_decide (n_Size (of_node f) = 0) then (s, Ok [])
  else
    let offset := u64 offset in
    let startContent := -1 + Z.of_nat (Search (length (of_cumsize f)) (fun i => offset <? default 0 (of_cumsize f !! i))) in
    match gindex (E := E) (of_cumsize f) startContent with
    | Err e => (s, Err e)
    | Panic m => (s, Panic m)
    | Ok skipped =>
        let offset := u64 (offset - skipped) in
        if bool_decide (0 <= size <= cap) then
          read_loop f (length (of_cumsize f) - 1 - Z.to_nat startContent) (Z.to_nat startContent) offset (Z.to_nat size) [] s
        else (s, Panic "slice bounds out of range")
    end.

End files.

(** ** The invariant of the cache *)

Section cache_spec.
Context {V L : Type} `{LRULaws ID V L} (cost : V -> Z) (cost_nonneg : ∀ v, 0 <= cost v).

Definition weight (l : list (ID * V)) : Z := foldr (fun x acc => cost x.2 + overhead + acc) 0 l.

Record cache_wf (c : Cache L) : Prop := {
  cw_nodup : NoDup (lru_items (c_c c)).*1;
  cw_free : c_free c = c_size c - weight (lru_items (c_c c));
  cw_bound : weight (lru_items (c_c c)) <= c_size c;
  cw_cap : lru_cap (c_c c) = c_size c / overhead;
  cw_size : overhead <= c_size c;
}.

#[local] Instance weight_proper : Proper ((≡ₚ) ==> eq) weight.
Proof. intros l l' Hp. unfold weight. induction Hp; cbn [foldr]; lia. Qed.

Lemma weight_count l : overhead * lenZ l <= weight l.
Proof using cost_nonneg.
  induction l as [|[k v] l IH]; cbn [weight foldr length] in *; [done|].
  unfold weight in IH. pose proof (cost_nonneg v). cbn [snd]. unfold overhead in *. lia.
Qed.

Lemma cache_wf_new {Er} size : overhead <= size -> exists c, New (E := Er) size = Ok c /\ cache_wf c /\ lru_items (c_c c) = [] /\ c_size c = size.
Proof.
  intros Hs. destruct (lru_new_ok (K := ID) (V := V) (L := L) (size / overhead)) as (l & Hl & Hi & Hc).
  { apply Z.div_str_pos. by split. }
  exists (mkCache l size size). unfold New. rewrite Hl. split; [done|]. split; [|done].
  split; cbn; rewrite ?Hi; cbn; [constructor|lia|unfold overhead in *; lia|done|done].
Qed.

Lemma make_room_spec {Er} size : forall fuel c old, cache_wf c -> size <= c_size c ->
  lenZ (lru_items (c_c c)) <= Z.of_nat fuel ->
  exists c' old', make_room (E := Er) cost fuel size c old = Ok (c', old') /\ cache_wf c' /\ size <= c_free c'
    /\ c_size c' = c_size c /\ (lru_items (c_c c')) `suffix_of` (lru_items (c_c c)).
Proof using cost_nonneg.
  induction fuel as [|fuel IH]; intros c old Hc Hs Hf; cbn [make_room].
  - assert (lru_items (c_c c) = []) as Hn by (destruct (lru_items (c_c c)); [done|cbn in Hf; lia]).
    pose proof (cw_free _ Hc) as Hfree. rewrite Hn in Hfree. cbn in Hfree.
    destruct (Z.leb_spec size (c_free c)); [|lia]. by exists c, old.
  - destruct (Z.leb_spec size (c_free c)) as [Hle|Hgt]; [by exists c, old|].
    destruct (lru_remove_some (c_c c)) as (l' & [k v] & -> & Hi & Hcap).
    { intros Hn. pose proof (cw_free _ Hc) as Hfree. rewrite Hn in Hfree. cbn in Hfree. lia. }
    assert (Hw : weight (lru_items (c_c c)) = cost v + overhead + weight (lru_items l')) by (by rewrite Hi).
    pose proof (cost_nonneg v). destruct Hc as [W1 W2 W3 W4 W5].
    edestruct (IH (mkCache l' (evict cost (Some (k, v)) (c_free c)) (c_size c))) as (c' & old' & E & Hwf & Hfr & Hsz & Hsuf).
    + split; cbn [c_c c_free c_size evict]; [|lia|unfold overhead in *; lia|congruence|done].
      rewrite Hi in W1. cbn in W1. by apply NoDup_cons in W1 as [_ W1].
    + done.
    + cbn [c_c]. rewrite Hi in Hf. cbn [length] in Hf. lia.
    + exists c', old'. split; [exact E|]. split; [done|]. split; [done|]. split; [done|].
      cbn [c_c] in Hsuf. rewrite Hi. by apply suffix_cons_r.
Qed.

Lemma cache_wf_entries c : cache_wf c -> lenZ (lru_items (c_c c)) <= c_size c / overhead.
Proof using cost_nonneg.
  intros Hc. apply Z.div_le_lower_bound; [done|].
  pose proof (weight_count (lru_items (c_c c))). pose proof (cw_bound _ Hc). lia.
Qed.

Lemma Add_spec {Er} c id v : cache_wf c ->
  exists c' old, Add (E := Er) cost c id v = Ok (c', old) /\ cache_wf c' /\ c_size c' = c_size c
    /\ (forall x, x ∈ lru_items (c_c c') -> x = (id, v) \/ x ∈ lru_items (c_c c))
    /\ (cost v + overhead <= c_size c -> id ∈ (lru_items (c_c c')).*1).
Proof using cost_nonneg.
  intros Hc. unfold Add.
  destruct (Z.ltb_spec (c_size c) (cost v + overhead)) as [Hb|Hb].
  { exists c, None. split; [done|]. split; [done|]. split; [done|]. split; [auto|lia]. }
  destruct (lru_Contains (c_c c) id) eqn:Ec.
  { exists c, None. split; [done|]. split; [done|]. split; [done|]. split; [auto|]. by intros _; apply lru_contains_ok. }
  pose proof (cache_wf_entries c Hc) as Hn.
  destruct (make_room_spec (Er := Er) (cost v + overhead) (Z.to_nat (c_size c / overhead)) c None Hc Hb ltac:(lia))
    as (c1 & old & -> & Hc1 & Hfree & Hsz & [pre Hsuf]).
  cbn [mbind res_bind].
  assert (Hni : id ∉ (lru_items (c_c c1)).*1).
  { intros Hi. assert (lru_Contains (c_c c) id = true); [|congruence]. apply lru_contains_ok.
    rewrite Hsuf, fmap_app. set_solver. }
  destruct (lru_add_ok (c_c c1) id v Hni) as (l & -> & Hp & Hcap).
  { rewrite (cw_cap _ Hc1). apply Z.lt_le_trans with (lenZ (lru_items (c_c c1)) + 1); [lia|].
    apply Z.div_le_lower_bound; [done|]. pose proof (weight_count (lru_items (c_c c1))).
    pose proof (cw_free _ Hc1). pose proof (cost_nonneg v). lia. }
  eexists _, _. split; [reflexivity|]. cbn [evict c_c c_size].
  pose proof (cost_nonneg v). destruct Hc1 as [W1 W2 W3 W4 W5].
  assert (Hw : weight (lru_items l) = cost v + overhead + weight (lru_items (c_c c1))) by (by rewrite Hp).
  split.
  { split; cbn [c_c c_free c_size]; [|lia|lia|congruence|done]. rewrite Hp. cbn. by constructor. }
  split; [done|]. split.
  - intros x. rewrite Hp, Hsuf. set_solver.
  - intros _. rewrite Hp. set_solver.
Qed.

Lemma Get_wf c id : cache_wf c -> cache_wf (Get c id).1 /\ c_size (Get c id).1 = c_size c
  /\ lru_items (c_c (Get c id).1) ≡ₚ lru_items (c_c c).
Proof.
  intros [W1 W2 W3 W4 W5]. unfold Get. pose proof (lru_get_items (c_c c) id) as Hp. pose proof (lru_get_cap (c_c c) id) as Hcap.
  destruct (lru_Get (c_c c) id) as [l v]. cbn in *. split; [|done].
  split; cbn; rewrite ?Hp, ?Hcap; done.
Qed.
End cache_spec.

(** ** Reads return the contents *)

(** [blob id] is the data of a blob. *)
Definition contents (blob : ID -> list byte) (ids : list ID) : list byte := concat (map blob ids).

Section sizes.
Context {E : Type} (LookupBlobSize : ID -> option Z) (blob : ID -> list byte) (content : list ID).
Context (sizes_ok : ∀ id, id ∈ content -> LookupBlobSize id = Some (lenZ (blob id))).
#[local] Abbreviation contents := (contents blob).

(** [cumsizes] are the sizes of the prefixes. *)
Lemma cumsizes_spec ids n : (forall id, id ∈ ids -> id ∈ content) -> n + lenZ (contents ids) < 2 ^ 64 -> 0 <= n ->
  exists l, cumsizes (E := E) LookupBlobSize ids n = Ok l /\ length l = S (length ids)
    /\ forall i, (i <= length ids)%nat -> l !! i = Some (n + lenZ (contents (take i ids))).
Proof using sizes_ok.
  revert n. induction ids as [|id ids IH]; intros n Hin Hn H0n; cbn [cumsizes].
  { exists [n]. split; [done|]. split; [done|]. intros [|i] Hi; cbn in *; [f_equal; lia|lia]. }
  rewrite sizes_ok by (apply Hin; set_solver). unfold contents in *. cbn [map concat] in Hn. rewrite length_app in Hn.
  rewrite u64_small by lia.
  destruct (IH (n + lenZ (blob id))) as (l & -> & Hl & Hi); [set_solver|lia|lia|].
  exists (n :: l). split; [done|]. split; [cbn; lia|].
  intros [|i] Hle; cbn in *; [f_equal; lia|]. rewrite Hi by lia. rewrite length_app. f_equal. lia.
Qed.

Lemma contents_app l1 l2 : contents (l1 ++ l2) = contents l1 ++ contents l2.
Proof. unfold contents. by rewrite map_app, concat_app. Qed.
Lemma contents_take_le ids i j : (i <= j)%nat -> lenZ (contents (take i ids)) <= lenZ (contents (take j ids)).
Proof.
  intros Hij. replace (take j ids) with (take i ids ++ take (j - i) (drop i ids)).
  - rewrite contents_app, length_app. lia.
  - rewrite take_drop_commute. replace (i + (j - i))%nat with j by lia.
    rewrite <- (take_drop i (take j ids)) at 2. f_equal. rewrite take_take. f_equal. lia.
Qed.

End sizes.

Section read_spec.
Context {E R L : Type} `{LRULaws ID slice L} (LoadBlob : ID -> R -> R * res E slice).
(** [I] holds of the repository's state. *)
Context (blob : ID -> list byte) (I : R -> Prop) (content : list ID).
Context (loads_ok : ∀ id r, id ∈ content -> I r -> exists r' b, LoadBlob id r = (r', Ok b) /\ I r' /\ sl_data b = blob id).

#[local] Abbreviation contents := (contents blob).

Definition state_ok (s : rstate (R := R) (L := L)) : Prop :=
  cache_wf blob_cap s.1 /\ (forall id b, (id, b) ∈ lru_items (c_c s.1) -> sl_data b = blob id) /\ I s.2.

Lemma blob_cap_nonneg b : 0 <= blob_cap b.
Proof. unfold blob_cap. lia. Qed.

Lemma get_blob_spec id s : id ∈ content -> state_ok s ->
  exists s' b, get_blob LoadBlob id s = (s', Ok b) /\ state_ok s' /\ sl_data b = blob id.
Proof using loads_ok.
  intros Hid (Hc & Hb & HI). destruct s as [c r]. cbn [fst snd] in *.
  destruct (Get_wf blob_cap c id Hc) as (Hw & _ & Hp).
  pose proof (lru_get_some (c_c c) id) as Hg. unfold get_blob. unfold Get in *.
  destruct (lru_Get (c_c c) id) as [l [b|]]; cbn [fst snd c_c] in *.
  - exists (mkCache l (c_free c) (c_size c), r), b. split; [done|].
    specialize (Hg b (cw_nodup _ _ Hc)). split; [|by apply Hb, Hg].
    split; [done|]. split; [|done]. intros id' b'. cbn. rewrite Hp. apply Hb.
  - destruct (loads_ok id r Hid HI) as (r' & b & -> & HI' & Hd).
    destruct (Add_spec (Er := E) blob_cap blob_cap_nonneg _ id b Hw) as (c' & old & -> & Hw' & _ & Hi & _).
    exists (c', r'), b. split; [done|]. split; [|done]. split; [done|]. split; [|done].
    intros id' b' Hin. cbn in Hin. destruct (Hi _ Hin) as [[= -> ->]|Hin']; [done|].
    cbn in Hin'. rewrite Hp in Hin'. by apply Hb.
Qed.

Lemma read_loop_spec f : node_content (of_node f) = content -> forall n i offset remaining data s,
  (i + n = length content)%nat -> state_ok s -> 0 <= offset ->
  (forall id, (0 < n)%nat -> content !! i = Some id -> offset <= lenZ (blob id)) ->
  exists s', read_loop LoadBlob f n i offset remaining data s =
      (s', Ok (data ++ take remaining (drop (Z.to_nat offset) (contents (drop i content))))) /\ state_ok s'.
Proof using loads_ok.
  intros Hf. induction n as [|n IH]; intros i offset rem data s Hi Hs Hpos Hoff; cbn [read_loop].
  { exists s. split; [|done]. rewrite (drop_ge content) by lia. cbn. by rewrite drop_nil, take_nil, app_nil_r. }
  destruct rem as [|rem]; [exists s; by rewrite app_nil_r|].
  destruct (lookup_lt_is_Some_2 content i ltac:(lia)) as [id Hid].
  unfold getBlobAt. rewrite Hf, Hid.
  destruct (get_blob_spec id s (list_elem_of_lookup_2 _ _ _ Hid) Hs) as (s1 & b & -> & Hs1 & Hb).
  specialize (Hoff id ltac:(lia) Hid).
  assert ((if 0 <? offset then gslice (E := E) (sl_data b) offset (lenZ (sl_data b)) else Ok (sl_data b))
    = Ok (drop (Z.to_nat offset) (blob id))) as ->.
  { destruct (Z.ltb_spec 0 offset).
    - rewrite Hb, gslice_ok by lia. f_equal. apply take_ge. rewrite length_drop. lia.
    - replace offset with 0 by lia. by rewrite Hb, drop_0. }
  set (x := drop (Z.to_nat offset) (blob id)).
  destruct (IH (S i) 0 (S rem - length (take (S rem) x))%nat (data ++ take (S rem) x) s1) as (s' & -> & Hs');
    [lia|done|lia|intros; lia|].
  exists s'. split; [|done]. f_equal. f_equal. rewrite <- app_assoc. f_equal.
  rewrite (drop_S content id i Hid). unfold contents at 2. cbn [map concat]. fold (contents (drop (S i) content)).
  rewrite drop_app_le by lia. fold x. rewrite take_app. f_equal. cbn [Z.to_nat]. rewrite drop_0. f_equal.
  rewrite length_take. lia.
Qed.
End read_spec.

(** C38: A mounted file reads like its contents.  Let the blobs of a file be
    known with their sizes, let their sizes fit in 64 bits together, and let
    the repository load them.  Then opening the file succeeds, whatever size
    its node records, with the real size; and each read of [size] bytes at
    [offset] returns exactly these bytes of the concatenation of the blobs
    (fewer at its end, none beyond it), whatever the cache holds, and leaves
    a cache that is consistent and within its bound. *)
Theorem fuse_read_exact {E R L : Type} `{LRULaws ID slice L} (LookupBlobSize : ID -> option Z)
    (LoadBlob : ID -> R -> R * res E slice) (blob : ID -> list byte) (I : R -> Prop) (node : Node)
    (Hsizes : ∀ id, id ∈ node_content node -> LookupBlobSize id = Some (lenZ (blob id)))
    (Hloads : ∀ id r, id ∈ node_content node -> I r ->
       exists r' b, LoadBlob id r = (r', Ok b) /\ I r' /\ sl_data b = blob id)
    (Htotal : lenZ (contents blob (node_content node)) < 2 ^ 64) :
  exists f, Open (E := E) LookupBlobSize node = Ok f
    /\ n_Size (of_node f) = lenZ (contents blob (node_content node))
    /\ forall size offset cap s, 0 <= offset < 2 ^ 63 -> 0 <= size <= cap -> state_ok blob I s ->
       exists s', Read LoadBlob f size offset cap s =
           (s', Ok (take (Z.to_nat size) (drop (Z.to_nat offset) (contents blob (node_content node))))) /\ state_ok blob I s'.
Proof.
  destruct (cumsizes_spec (E := E) LookupBlobSize blob _ Hsizes (node_content node) 0 ltac:(done) ltac:(lia) ltac:(lia)) as (l & Hl & Hlen & Hi).
  set (cs := contents blob (node_content node)) in *.
  assert (Hlast : last l = Some (lenZ cs)).
  { rewrite last_lookup, Hlen. cbn [Nat.pred]. rewrite Hi by lia. by rewrite take_ge by lia. }
  assert (Hf : exists f, Open (E := E) LookupBlobSize node = Ok f /\ n_Size (of_node f) = lenZ cs
    /\ node_content (of_node f) = node_content node /\ of_cumsize f = l).
  { unfold Open. rewrite Hl. cbn [mbind res_bind]. rewrite Hlast. cbn.
    case_bool_decide as Hb; eexists; (split; [reflexivity|done]). }
  destruct Hf as (f & Hf & Hsz & Hcontent & Hcum). exists f. split; [done|]. split; [done|].
  intros size offset cap s Hoff Hsize Hs. unfold Read. rewrite Hsz.
  case_bool_decide as Hz.
  { exists s. split; [|done]. rewrite (nil_length_inv cs) by lia. by rewrite drop_nil, take_nil. }
  rewrite Hcum, Hlen, u64_small by lia.
  set (g := fun i => offset <? default 0 (l !! i)).
  destruct (Search_spec g (S (length (node_content node)))) as (Hs1 & Hs2 & Hs3).
  { intros i j Hij. unfold g. rewrite !Hi by lia. cbn. rewrite !Z.ltb_lt.
    pose proof (contents_take_le blob (node_content node) i j ltac:(lia)). intros Hlt. lia. }
  remember (Search (S (length (node_content node))) g) as p eqn:Hpeq. clear Hpeq.
  assert (Hp : (0 < p)%nat).
  { destruct p as [|p']; [|lia]. specialize (Hs3 0%nat ltac:(lia)). unfold g in Hs3. rewrite Hi in Hs3 by lia.
    apply Z.ltb_lt in Hs3. change (offset < 0) in Hs3. lia. }
  set (start := (p - 1)%nat). replace (-1 + Z.of_nat p) with (Z.of_nat start) by lia.
  pose proof (Hs2 start ltac:(lia)) as Hle. unfold g in Hle. rewrite Hi in Hle by lia.
  apply Z.ltb_ge in Hle. unfold default, Datatypes.id in Hle. unfold gindex. rewrite bool_decide_eq_true_2, Nat2Z.id, Hi by lia.
  rewrite bool_decide_eq_true_2 by done. rewrite u64_small by lia.
  destruct (read_loop_spec LoadBlob blob I (node_content node) Hloads f Hcontent
    (S (length (node_content node)) - 1 - start) start (offset - (0 + lenZ (contents blob (take start (node_content node)))))
    (Z.to_nat size) [] s) as (s' & -> & Hs'); [lia|done|lia| |].
  - intros id Hn Hid. specialize (Hs3 p ltac:(lia)). unfold g in Hs3. rewrite Hi in Hs3 by lia.
    apply Z.ltb_lt in Hs3. unfold default, Datatypes.id in Hs3. replace p with (S start) in Hs3 by lia. rewrite (take_S_r _ _ _ Hid), contents_app, length_app in Hs3.
    unfold contents at 2 in Hs3. cbn [map concat] in Hs3. rewrite app_nil_r in Hs3. lia.
  - exists s'. split; [|done]. f_equal. f_equal. cbn [app]. f_equal. unfold cs.
    rewrite <- (take_drop start (node_content node)) at 3. rewrite contents_app, drop_app_ge by lia. f_equal. lia.
Qed.

(** ** A list with the laws of simplelru *)

Record lru_list : Type := mkLru { ll_items : list (ID * slice); ll_cap : Z }.

Definition ll_add (l : lru_list) (k : ID) (v : slice) : lru_list * option (ID * slice) :=
  let items := filter (fun x => x.1 ≠ k) (ll_items l) ++ [(k, v)] in
  if lenZ items <=? ll_cap l then (mkLru items (ll_cap l), None)
  else (mkLru (tail items) (ll_cap l), head items).

#[export] Instance lru_list_lru : LRU ID slice lru_list := {
  lru_NewLRU n := if 0 <? n then Some (mkLru [] n) else None;
  lru_Contains l k := bool_decide (k ∈ (ll_items l).*1);
  lru_Get l k := (mkLru (filter (fun x => x.1 = k) (ll_items l) ++ filter (fun x => ¬ x.1 = k) (ll_items l)) (ll_cap l),
    head (filter (fun x => x.1 = k) (ll_items l)).*2);
  lru_RemoveOldest l := match ll_items l with [] => (l, None) | x :: items => (mkLru items (ll_cap l), Some x) end;
  lru_Add := ll_add;
}.

Lemma filter_key (l : list (ID * slice)) k v : NoDup l.*1 -> (k, v) ∈ l -> filter (fun x => x.1 = k) l = [(k, v)].
Proof.
  induction l as [|[k' v'] l IH]; intros Hnd Hin; [by apply elem_of_nil in Hin|].
  cbn in Hnd. apply NoDup_cons in Hnd as [Hn Hnd]. rewrite filter_cons. cbn [fst].
  apply elem_of_cons in Hin as [[= <- <-]|Hin].
  - rewrite decide_True by done. f_equal. apply filter_none. intros [k2 v2] Hx [= ->].
    apply Hn. change k with ((k, v2).1). by apply list_elem_of_fmap_2.
  - rewrite decide_False; [by apply IH|]. intros ->. apply Hn. change k with ((k, v).1). by apply list_elem_of_fmap_2.
Qed.

#[export] Instance lru_list_laws : LRULaws ID slice lru_list.
Proof.
  refine {| lru_items := ll_items; lru_cap := ll_cap |}.
  - intros n Hn. cbn. destruct (Z.ltb_spec 0 n); [by eexists|lia].
  - intros l k. cbn. apply bool_decide_eq_true.
  - intros l k. cbn. symmetry. apply Permutation_filter_split.
  - done.
  - intros l k v Hnd. cbn. split.
    + intros Hh. destruct (filter _ _) as [|[k' v'] f] eqn:Ef; [done|]. cbn in Hh. injection Hh as ->.
      assert ((k', v) ∈ filter (fun x => x.1 = k) (ll_items l)) as [Hk Hin]%list_elem_of_filter by (rewrite Ef; set_solver).
      cbn in Hk. by subst.
    + intros Hin. by rewrite (filter_key _ _ _ Hnd Hin).
  - intros l Hne. cbn. destruct (ll_items l) as [|x items] eqn:El; [done|]. by exists (mkLru items (ll_cap l)), x.
  - intros l k v Hni Hlt. cbn. unfold ll_add.
    assert (filter (fun x => x.1 ≠ k) (ll_items l) = ll_items l) as ->.
    { apply filter_all. intros [k' v'] Hin [= ->]. apply Hni. change k with ((k, v').1). by apply list_elem_of_fmap_2. }
    rewrite length_app. cbn [length]. destruct (Z.leb_spec (Z.of_nat (length (ll_items l) + 1)) (ll_cap l)); [|lia].
    eexists. split; [reflexivity|]. cbn. split; [by rewrite (Permutation_app_comm _ [_])|done].
Defined.

Definition toy_blob (id : ID) : list byte :=
  match id with [Byte.x0a] => [Byte.x01; Byte.x02; Byte.x03] | _ => [Byte.x04; Byte.x05] end.
Definition toy_file : Node := toy_node "f" "file" [[Byte.x0a]; [Byte.x0b]] None.
Definition toy_sizes (id : ID) : option Z := Some (lenZ (toy_blob id)).
Definition toy_loads (id : ID) (r : nat) : nat * res unit slice := (S r, Ok (mkSlice (toy_blob id) [])).

Lemma fuse_read_exact_witness :
  exists f s s', Open (E := unit) toy_sizes toy_file = Ok f
    /\ Read (L := lru_list) toy_loads f 2 2 4 s = (s', Ok [Byte.x03; Byte.x04]) /\ state_ok toy_blob (fun _ => True) s'.
Proof.
  destruct (fuse_read_exact (E := unit) (L := lru_list) toy_sizes toy_loads toy_blob (fun _ => True) toy_file) as (f & Hf & _ & HR).
  - intros id _. reflexivity.
  - intros id r _ _. by eexists _, _.
  - reflexivity.
  - destruct (cache_wf_new (V := slice) (L := lru_list) (Er := unit) blob_cap 1000) as (c & _ & Hc & Hi & _); [discriminate|].
    destruct (HR 2 2 4 (c, 0%nat)) as (s' & Hr & Hs').
    + split; [discriminate|reflexivity].
    + split; discriminate.
    + split; [exact Hc|]. split; [|exact I]. cbn [fst]. rewrite Hi. intros id b Hin. by apply elem_of_nil in Hin.
    + exists f, (c, 0%nat), s'. split; [exact Hf|]. split; [exact Hr|exact Hs'].
Defined.
