(* ===== verification/Mount.v ===== *)
(** * Mount: the directories of a mounted repository

    The nodes of the FUSE file system (src/internal/fuse): the virtual
    directories of snapshots (snapshots_dir.go, meta_dir.go, root.go) and the
    directories, links and other nodes of a snapshot (dir.go, link.go,
    other.go, and the attributes of files in file.go; their contents are in
    Contents).

    The directories share one [Root], whose state is passed along.  The clock,
    the format of times, the inode numbers the FUSE library makes up, and the
    order of Go's maps are parameters. *)

From S2P Require Import Prelude Ids Duration Snapshots Trees Paths.

(** ** The FUSE library *)

Inductive DirentType : Type := DT_Unknown | DT_Dir | DT_File | DT_Link.
Record Dirent : Type := mkDirent { de_Inode : Z; de_Name : string; de_Type : DirentType }.
Record Attr : Type := mkAttr {
  at_Inode : Z; at_Mode : Z; at_Size : Z; at_Blocks : Z; at_BlockSize : Z; at_Uid : Z; at_Gid : Z;
  at_Atime : Time; at_Ctime : Time; at_Mtime : Time; at_Nlink : Z;
}.
Definition noAttr : Attr := mkAttr 0 0 0 0 0 0 0 zeroTime zeroTime zeroTime 0.

(** What a mount uses of a repository: finding snapshots, loading the index,
    loading a tree. *)
Class MountRepo (R E : Type) : Type := {
  mr_FindFilteredSnapshots : list string -> list TagList -> list string -> R -> R * res E (list Snapshot);
  mr_LoadIndex : R -> R * option E;
  mr_LoadTree : ID -> R -> R * res E Tree;
}.

Inductive mount_error (E : Type) : Type := ENOENT | ErrNoXattr | MountErr (e : E).
Arguments ENOENT {E}. Arguments ErrNoXattr {E}. Arguments MountErr {E} e.

(** ** Root and virtual directories (root.go, snapshots_dir.go, meta_dir.go) *)

Record Config : Type := mkConfig {
  cfg_OwnerIsRoot : bool; cfg_Hosts : list string; cfg_Tags : list TagList; cfg_Paths : list string;
  cfg_SnapshotTemplate : string;
}.
Record Root (R : Type) : Type := mkRoot {
  ro_repo : R; ro_cfg : Config; ro_inode : Z; ro_snapshots : list Snapshot; ro_snCount : Z; ro_lastCheck : Time;
  ro_uid : Z; ro_gid : Z;
}.
Arguments mkRoot {R}. Arguments ro_repo {R}. Arguments ro_cfg {R}. Arguments ro_inode {R}. Arguments ro_snapshots {R}.
Arguments ro_snCount {R}. Arguments ro_lastCheck {R}. Arguments ro_uid {R}. Arguments ro_gid {R}.

Record SnapshotsDir : Type := mkSnapshotsDir {
  sd_inode : Z; sd_names : gmap string Snapshot; sd_latest : string; sd_tag : string; sd_host : string; sd_snCount : Z;
  sd_template : string;
}.
Record SnapshotsIDSDir : Type := mkIDSDir { id_inode : Z; id_names : gmap string Snapshot; id_snCount : Z }.
Record HostsDir : Type := mkHostsDir { hd_inode : Z; hd_hosts : gset string; hd_snCount : Z }.
Record TagsDir : Type := mkTagsDir { td_inode : Z; td_tags : gset string; td_snCount : Z }.
Record snapshotLink : Type := mkSnapshotLink { sl_inode : Z; sl_target : string; sl_snapshot : Snapshot }.
(** A directory of a snapshot; [d_items] is nil before it is opened. *)
Record dir : Type := mkDir {
  d_items : option (gmap string Node); d_inode : Z; d_parentInode : Z; d_node : Node;
}.
Inductive FNode : Type :=
| FSnapshotsDir (d : SnapshotsDir) | FDir (d : dir) | FSnapshotLink (l : snapshotLink)
| FFile (inode : Z) (node : Node) | FLink (inode : Z) (node : Node) | FOther (inode : Z) (node : Node)
| FIDs (d : SnapshotsIDSDir) | FHosts (d : HostsDir) | FTags (d : TagsDir).

Definition rootInode : Z := 1.
Definition blockSize : Z := 512.
Definition minSnapshotsReloadTime : Z := 60 * Second.

Section mount.
Context {R E : Type} `{MR : MountRepo R E}.
(** [time.Time.Format], [fs.GenerateDynamicInode], [time.Now] in a call. *)
Context (Format : Time -> string -> string) (GenerateDynamicInode : Z -> string -> Z).
(** The order of [range] over a map or set of names. *)
Context (range : forall A, gmap string A -> list (string * A)) (range_set : gset string -> list string).
#[local] Abbreviation Root := (Root R).
#[local] Abbreviation mount_error := (mount_error E).

Definition NewSnapshotsDir (root : Root) (inode : Z) (tag host : string) : SnapshotsDir :=
  mkSnapshotsDir inode ∅ "" tag host 0 (cfg_SnapshotTemplate (ro_cfg root)).
Definition NewSnapshotsIDSDir (inode : Z) : SnapshotsIDSDir := mkIDSDir inode ∅ 0.
Definition NewHostsDir (inode : Z) : HostsDir := mkHostsDir inode ∅ 0.
Definition NewTagsDir (inode : Z) : TagsDir := mkTagsDir inode ∅ 0.

(** [NewRoot] with the entries of its [MetaDir]; [getuid] and [getgid] are the
    process's. *)
Definition NewRoot (repo : R) (cfg : Config) (getuid getgid : Z) : Root * gmap string FNode :=
  let '(uid, gid) := if negb (cfg_OwnerIsRoot cfg) then (u32 getuid, u32 getgid) else (0, 0) in
  let root := mkRoot repo cfg rootInode [] 0 zeroTime uid gid in
  let inode := GenerateDynamicInode rootInode in
  (root, list_to_map [
    ("snapshots", FSnapshotsDir (NewSnapshotsDir root (inode "snapshots") "" ""));
    ("tags", FTags (NewTagsDir (inode "tags")));
    ("hosts", FHosts (NewHostsDir (inode "hosts")));
    ("ids", FIDs (NewSnapshotsIDSDir (inode "ids")))]%string).

(** The entries [.] and [..] and one directory for each name. *)
Definition dir_entries (inode parent : Z) (names : list string) : list Dirent :=
  [mkDirent inode "." DT_Dir; mkDirent parent ".." DT_Dir]
  ++ map (fun name => mkDirent (GenerateDynamicInode inode name) name DT_Dir) names.
Definition MetaDir_ReadDirAll (inode : Z) (root : Root) (entries : gmap string FNode) : list Dirent :=
  dir_entries inode (ro_inode root) (map fst (range _ entries)).
Definition MetaDir_Lookup (entries : gmap string FNode) (name : string) : res mount_error FNode :=
  match entries !! name with Some n => Ok n | None => Err ENOENT end.
(** The attributes of all virtual directories. *)
Definition virtual_Attr (root : Root) (inode : Z) : Attr :=
  mkAttr inode (Z.lor ModeDir 0x16d) 0 0 0 (ro_uid root) (ro_gid root) zeroTime zeroTime zeroTime 0.

(** [updateSnapshots] looks for new snapshots at most once a minute. *)
Definition updateSnapshots (now : Time) (root : Root) : Root * res mount_error unit :=
  if t_ns now - t_ns (ro_lastCheck root) <? minSnapshotsReloadTime then (root, Ok tt)
  else
    let cfg := ro_cfg root in
    let set r sns n last := mkRoot r cfg (ro_inode root) sns n last (ro_uid root) (ro_gid root) in
    match mr_FindFilteredSnapshots (cfg_Hosts cfg) (cfg_Tags cfg) (cfg_Paths cfg) (ro_repo root) with
    | (r, Err e) => (set r (ro_snapshots root) (ro_snCount root) (ro_lastCheck root), Err (MountErr e))
    | (r, Panic msg) => (set r (ro_snapshots root) (ro_snCount root) (ro_lastCheck root), Panic msg)
    | (r, Ok snapshots) =>
        if negb (ro_snCount root =? lenZ snapshots) then
          match mr_LoadIndex r with
          | (r, Some e) => (set r (ro_snapshots root) (lenZ snapshots) (ro_lastCheck root), Err (MountErr e))
          | (r, None) => (set r snapshots (lenZ snapshots) now, Ok tt)
          end
        else (set r (ro_snapshots root) (ro_snCount root) now, Ok tt)
    end.

Definition isElem (e : string) (l : list string) : bool := existsb (fun x => bool_decide (e = x)) l.

Definition updateTagNames (root : Root) (d : TagsDir) : TagsDir :=
  if negb (td_snCount d =? ro_snCount root) then
    mkTagsDir (td_inode d)
      (fold_left (fun tags sn => fold_left (fun tags tag => if bool_decide (tag ≠ ""%string) then {[tag]} ∪ tags else tags)
                                           (default [] (s_Tags sn)) tags) (ro_snapshots root) ∅)
      (ro_snCount root)
  else d.
Definition updateHostsNames (root : Root) (d : HostsDir) : HostsDir :=
  if negb (hd_snCount d =? ro_snCount root) then
    mkHostsDir (hd_inode d) (fold_left (fun hosts sn => {[s_Hostname sn]} ∪ hosts) (ro_snapshots root) ∅) (ro_snCount root)
  else d.
(** The names are added to those that are there. *)
Definition updateSnapshotIDSNames (root : Root) (d : SnapshotsIDSDir) : SnapshotsIDSDir :=
  if negb (id_snCount d =? ro_snCount root) then
    mkIDSDir (id_inode d) (fold_left (fun names sn => <[ID_Str (s_id sn) := sn]> names) (ro_snapshots root) (id_names d)) (ro_snCount root)
  else d.

(** The loop that looks for a name that is not taken: the candidates are the
    formatted time, and it with [-1], [-2], ... *)
Definition candidate (base : string) (i : Z) : string := (base ++ "-" ++ string_of (format_int i))%string.
Fixpoint free_name (fuel : nat) (names : gmap string Snapshot) (base : string) (i : Z) (name : string) : option string :=
  match names !! name with
  | None => Some name
  | Some _ => match fuel with O => None | S fuel => free_name fuel names base (i + 1) (candidate base i) end
  end.
(** The variables of [updateSnapshotNames]. *)
Record name_state : Type := mkNames { ns_latest : string; ns_latestTime : Time; ns_names : gmap string Snapshot }.
Definition wanted (d : SnapshotsDir) (sn : Snapshot) : bool :=
  (bool_decide (sd_tag d = ""%string) || isElem (sd_tag d) (default [] (s_Tags sn)))
  && (bool_decide (sd_host d = ""%string) || bool_decide (sd_host d = s_Hostname sn)).
Definition add_name (template : string) (st : name_state) (sn : Snapshot) : option name_state :=
  let base := Format (s_Time sn) template in
  let '(latest, latestTime) :=
    if bool_decide (ns_latest st = ""%string) || negb (Before (s_Time sn) (ns_latestTime st))
    then (base, s_Time sn) else (ns_latest st, ns_latestTime st) in
  match free_name (size (ns_names st)) (ns_names st) base 1 base with
  | Some name => Some (mkNames latest latestTime (<[name := sn]> (ns_names st)))
  | None => None
  end.
Fixpoint add_names (d : SnapshotsDir) (template : string) (sns : list Snapshot) (st : name_state) : option name_state :=
  match sns with
  | [] => Some st
  | sn :: sns =>
      if wanted d sn
      then match add_name template st sn with Some st => add_names d template sns st | None => None end
      else add_names d template sns st
  end.
Definition updateSnapshotNames (root : Root) (d : SnapshotsDir) (template : string) : option SnapshotsDir :=
  if negb (sd_snCount d =? ro_snCount root) then
    match add_names d template (ro_snapshots root) (mkNames "" zeroTime ∅) with
    | Some st => Some (mkSnapshotsDir (sd_inode d) (ns_names st) (ns_latest st) (sd_tag d) (sd_host d) (ro_snCount root) (sd_template d))
    | None => None
    end
  else Some d.

(** The result [None] is a run out of fuel. *)
Definition SnapshotsDir_ReadDirAll (now : Time) (root : Root) (d : SnapshotsDir)
  : option (Root * SnapshotsDir * res mount_error (list Dirent)) :=
  match updateSnapshots now root with
  | (root, Err e) => Some (root, d, Err e)
  | (root, Panic msg) => Some (root, d, Panic msg)
  | (root, Ok _) =>
      match updateSnapshotNames root d (cfg_SnapshotTemplate (ro_cfg root)) with
      | None => None
      | Some d => Some (root, d, Ok (dir_entries (sd_inode d) (ro_inode root) (map fst (range _ (sd_names d)))
          ++ (if bool_decide (sd_latest d ≠ ""%string)
              then [mkDirent (GenerateDynamicInode (sd_inode d) "latest") "latest" DT_Link] else [])))
      end
  end.
Definition SnapshotsIDSDir_ReadDirAll (now : Time) (root : Root) (d : SnapshotsIDSDir)
  : Root * SnapshotsIDSDir * res mount_error (list Dirent) :=
  match updateSnapshots now root with
  | (root, Err e) => (root, d, Err e)
  | (root, Panic msg) => (root, d, Panic msg)
  | (root, Ok _) =>
      let d := updateSnapshotIDSNames root d in
      (root, d, Ok (dir_entries (id_inode d) (ro_inode root) (map fst (range _ (id_names d)))))
  end.
Definition HostsDir_ReadDirAll (now : Time) (root : Root) (d : HostsDir) : Root * HostsDir * res mount_error (list Dirent) :=
  match updateSnapshots now root with
  | (root, Err e) => (root, d, Err e)
  | (root, Panic msg) => (root, d, Panic msg)
  | (root, Ok _) =>
      let d := updateHostsNames root d in
      (root, d, Ok (dir_entries (hd_inode d) (ro_inode root) (range_set (hd_hosts d))))
  end.
Definition TagsDir_ReadDirAll (now : Time) (root : Root) (d : TagsDir) : Root * TagsDir * res mount_error (list Dirent) :=
  match updateSnapshots now root with
  | (root, Err e) => (root, d, Err e)
  | (root, Panic msg) => (root, d, Panic msg)
  | (root, Ok _) =>
      let d := updateTagNames root d in
      (root, d, Ok (dir_entries (td_inode d) (ro_inode root) (range_set (td_tags d))))
  end.

(** [newDirFromSnapshot] *)
Definition snapshot_node (sn : Snapshot) : Node :=
  mkNode "" "" (Z.lor ModeDir 0x16d) (s_Time sn) (s_Time sn) (s_Time sn) 0 0 "" "" 0 0 0 0 "" [] 0 None (s_Tree sn) "" "".
Definition newDirFromSnapshot (inode : Z) (sn : Snapshot) : dir := mkDir None inode 0 (snapshot_node sn).
Definition newSnapshotLink (inode : Z) (target : string) (sn : Snapshot) : snapshotLink := mkSnapshotLink inode target sn.
Definition snapshotLink_Readlink (l : snapshotLink) : string := sl_target l.
Definition snapshotLink_Attr (root : Root) (l : snapshotLink) : Attr :=
  let size := Z.of_nat (String.length (sl_target l)) in
  let t := s_Time (sl_snapshot l) in
  mkAttr (sl_inode l) (Z.lor ModeSymlink 0x1ff) size (1 + size / blockSize) 0 (ro_uid root) (ro_gid root) t t t 1.

Definition SnapshotsDir_Lookup (now : Time) (root : Root) (d : SnapshotsDir) (name : string)
  : option (Root * SnapshotsDir * res mount_error FNode) :=
  let found sn := FDir (newDirFromSnapshot (GenerateDynamicInode (sd_inode d) name) sn) in
  match sd_names d !! name with
  | Some sn => Some (root, d, Ok (found sn))
  | None =>
      match updateSnapshots now root with
      | (root, Err e) => Some (root, d, Err e)
      | (root, Panic msg) => Some (root, d, Panic msg)
      | (root, Ok _) =>
          match updateSnapshotNames root d (cfg_SnapshotTemplate (ro_cfg root)) with
          | None => None
          | Some d => Some (root, d,
              match sd_names d !! name with
              | Some sn => Ok (found sn)
              | None =>
                  if bool_decide (name = "latest"%string) && negb (bool_decide (sd_latest d = ""%string)) then
                    match sd_names d !! sd_latest d with
                    | None => Err ENOENT
                    | Some sn => Ok (FSnapshotLink (newSnapshotLink (GenerateDynamicInode (sd_inode d) name) (sd_latest d) sn))
                    end
                  else Err ENOENT
              end)
          end
      end
  end.
Definition SnapshotsIDSDir_Lookup (now : Time) (root : Root) (d : SnapshotsIDSDir) (name : string)
  : Root * SnapshotsIDSDir * res mount_error FNode :=
  let found sn := FDir (newDirFromSnapshot (GenerateDynamicInode (id_inode d) name) sn) in
  match id_names d !! name with
  | Some sn => (root, d, Ok (found sn))
  | None =>
      match updateSnapshots now root with
      | (root, Err e) => (root, d, Err e)
      | (root, Panic msg) => (root, d, Panic msg)
      | (root, Ok _) =>
          let d := updateSnapshotIDSNames root d in
          (root, d, match id_names d !! name with Some sn => Ok (found sn) | None => Err ENOENT end)
      end
  end.
Definition HostsDir_Lookup (now : Time) (root : Root) (d : HostsDir) (name : string) : Root * HostsDir * res mount_error FNode :=
  let found root := FSnapshotsDir (NewSnapshotsDir root (GenerateDynamicInode (ro_inode root) name) "" name) in
  if bool_decide (name ∈ hd_hosts d) then (root, d, Ok (found root))
  else
    match updateSnapshots now root with
    | (root, Err e) => (root, d, Err e)
    | (root, Panic msg) => (root, d, Panic msg)
    | (root, Ok _) =>
        let d := updateHostsNames root d in
        (root, d, if bool_decide (name ∈ hd_hosts d) then Ok (found root) else Err ENOENT)
    end.
Definition TagsDir_Lookup (now : Time) (root : Root) (d : TagsDir) (name : string) : Root * TagsDir * res mount_error FNode :=
  let found root := FSnapshotsDir (NewSnapshotsDir root (GenerateDynamicInode (ro_inode root) name) name "") in
  if bool_decide (name ∈ td_tags d) then (root, d, Ok (found root))
  else
    match updateSnapshots now root with
    | (root, Err e) => (root, d, Err e)
    | (root, Panic msg) => (root, d, Panic msg)
    | (root, Ok _) =>
        let d := updateTagNames root d in
        (root, d, if bool_decide (name ∈ td_tags d) then Ok (found root) else Err ENOENT)
    end.

(** ** Directories of a snapshot (dir.go) *)

Definition cleanupNodeName (name : string) : string := Base name.
Definition newDir (inode parentInode : Z) (node : Node) : dir := mkDir None inode parentInode node.

Definition load_tree (id : ID) (root : Root) : Root * res mount_error Tree :=
  match mr_LoadTree id (ro_repo root) with
  | (r, t) =>
      (mkRoot r (ro_cfg root) (ro_inode root) (ro_snapshots root) (ro_snCount root) (ro_lastCheck root) (ro_uid root) (ro_gid root),
       match t with Ok t => Ok t | Err e => Err (MountErr e) | Panic msg => Panic msg end)
  end.
Definition replaceSpecialNodes (node : Node) (root : Root) : Root * res mount_error (list Node) :=
  match n_Subtree node with
  | None => (root, Ok [node])
  | Some id =>
      if bool_decide (n_Type node ≠ "dir"%string) then (root, Ok [node])
      else if bool_decide (n_Name node ≠ "."%string) && bool_decide (n_Name node ≠ "/"%string) then (root, Ok [node])
      else match load_tree id root with
           | (root, Ok t) => (root, Ok (t_Nodes t))
           | (root, Err e) => (root, Err e)
           | (root, Panic msg) => (root, Panic msg)
           end
  end.
Definition add_items (items : gmap string Node) (nodes : list Node) : gmap string Node :=
  fold_left (fun items node => <[cleanupNodeName (n_Name node) := node]> items) nodes items.
Fixpoint open_nodes (nodes : list Node) (items : gmap string Node) (root : Root) : Root * res mount_error (gmap string Node) :=
  match nodes with
  | [] => (root, Ok items)
  | n :: nodes =>
      match replaceSpecialNodes n root with
      | (root, Ok l) => open_nodes nodes (add_items items l) root
      | (root, Err e) => (root, Err e)
      | (root, Panic msg) => (root, Panic msg)
      end
  end.
Definition dir_open (d : dir) (root : Root) : Root * res mount_error dir :=
  match d_items d with
  | Some _ => (root, Ok d)
  | None =>
      match n_Subtree (d_node d) with
      | None => (root, Panic "invalid memory address or nil pointer dereference")
      | Some id =>
          match load_tree id root with
          | (root, Err e) => (root, Err e)
          | (root, Panic msg) => (root, Panic msg)
          | (root, Ok tree) =>
              match open_nodes (t_Nodes tree) ∅ root with
              | (root, Ok items) => (root, Ok (mkDir (Some items) (d_inode d) (d_parentInode d) (d_node d)))
              | (root, Err e) => (root, Err e)
              | (root, Panic msg) => (root, Panic msg)
              end
          end
      end
  end.

(** Owner and times of a node. *)
Definition node_Attr (root : Root) (inode mode size blocks blockSize nlink : Z) (node : Node) : Attr :=
  let '(uid, gid) := if negb (cfg_OwnerIsRoot (ro_cfg root)) then (n_UID node, n_GID node) else (0, 0) in
  mkAttr inode mode size blocks blockSize uid gid (n_AccessTime node) (n_ChangeTime node) (n_ModTime node) nlink.

(** Two links and one for each directory among the items. *)
Definition calcNumberOfLinks (d : dir) : Z :=
  2 + Z.of_nat (length (filter (fun '(_, node) => n_Type node = "dir"%string) (map_to_list (default ∅ (d_items d))))).
Definition dir_Attr (root : Root) (d : dir) : Attr :=
  node_Attr root (d_inode d) (Z.lor ModeDir (n_Mode (d_node d))) 0 0 0 (u32 (calcNumberOfLinks d)) (d_node d).

Definition node_dirent (inode : Z) (node : Node) : Dirent :=
  let name := cleanupNodeName (n_Name node) in
  let typ := if bool_decide (n_Type node = "dir"%string) then DT_Dir
             else if bool_decide (n_Type node = "file"%string) then DT_File
             else if bool_decide (n_Type node = "symlink"%string) then DT_Link else DT_Unknown in
  mkDirent (GenerateDynamicInode inode name) name typ.
Definition dir_ReadDirAll (d : dir) (root : Root) : Root * res mount_error (dir * list Dirent) :=
  match dir_open d root with
  | (root, Ok d) =>
      (root, Ok (d, [mkDirent (d_inode d) "." DT_Dir; mkDirent (d_parentInode d) ".." DT_Dir]
                    ++ map (fun '(_, node) => node_dirent (d_inode d) node) (range _ (default ∅ (d_items d)))))
  | (root, Err e) => (root, Err e)
  | (root, Panic msg) => (root, Panic msg)
  end.
Definition other_types : list string := ["dev"; "chardev"; "fifo"; "socket"]%string.
Definition dir_Lookup (d : dir) (name : string) (root : Root) : Root * res mount_error (dir * FNode) :=
  match dir_open d root with
  | (root, Ok d) =>
      (root,
       match default ∅ (d_items d) !! name with
       | None => Err ENOENT
       | Some node =>
           let inode := GenerateDynamicInode (d_inode d) name in
           if bool_decide (n_Type node = "dir"%string) then Ok (d, FDir (newDir inode (d_inode d) node))
           else if bool_decide (n_Type node = "file"%string) then Ok (d, FFile inode node)
           else if bool_decide (n_Type node = "symlink"%string) then Ok (d, FLink inode node)
           else if bool_decide (n_Type node ∈ other_types) then Ok (d, FOther inode node)
           else Err ENOENT
       end)
  | (root, Err e) => (root, Err e)
  | (root, Panic msg) => (root, Panic msg)
  end.
Definition dir_Listxattr (d : dir) : list string := map x_Name (n_ExtendedAttributes (d_node d)).
Definition node_Getxattr (node : Node) (name : string) : res mount_error (list byte) :=
  match GetExtendedAttribute node name with Some v => Ok v | None => Err ErrNoXattr end.

(** ** Attributes of files, links and others (file.go, link.go, other.go) *)

Definition file_Attr (root : Root) (inode : Z) (node : Node) : Attr :=
  node_Attr root inode (n_Mode node) (n_Size node) (u64 (n_Size node / blockSize + 1)) blockSize (u32 (n_Links node)) node.
Definition link_Attr (root : Root) (inode : Z) (node : Node) : Attr :=
  let size := Z.of_nat (String.length (n_LinkTarget node)) in
  node_Attr root inode (n_Mode node) size (1 + size / blockSize) 0 (u32 (n_Links node)) node.
Definition other_Attr (root : Root) (inode : Z) (node : Node) : Attr :=
  node_Attr root inode (n_Mode node) 0 0 0 (u32 (n_Links node)) node.
Definition Readlink (node : Node) : string := n_LinkTarget node.
End mount.

(** ** Names are found *)

Definition cand (base : string) (k : Z) : string := if k =? 0 then base else candidate base k.
Lemma candidate_bytes base k : 0 <= k -> bytes_of (candidate base k) = bytes_of base ++ [Byte.x2d] ++ dec 20 k [].
Proof.
  intros Hk. unfold candidate, format_int. rewrite (proj2 (Z.ltb_ge k 0)) by lia. by rewrite !bytes_of_app, bytes_of_string_of.
Qed.
Lemma cand_inj base k k' : 0 <= k < 2 ^ 63 -> 0 <= k' < 2 ^ 63 -> cand base k = cand base k' -> k = k'.
Proof.
  assert (Hne : forall n, 0 <= n -> base ≠ candidate base n).
  { intros n Hn E. apply (f_equal bytes_of), (f_equal length) in E. rewrite candidate_bytes, !length_app in E by done. cbn in E. lia. }
  intros Hk Hk'. unfold cand. destruct (Z.eqb_spec k 0), (Z.eqb_spec k' 0); subst; try done.
  - intros E. exfalso. apply (Hne k'); [lia|done].
  - intros E. exfalso. apply (Hne k); [lia|done].
  - intros E. apply (f_equal bytes_of) in E. rewrite !candidate_bytes in E by lia. apply app_inv_head, app_inv_head in E.
    pose proof (dec_20 k Hk) as (_ & _ & H1). pose proof (dec_20 k' Hk') as (_ & _ & H2). congruence.
Qed.

Lemma free_name_taken fuel names base k : 0 <= k -> free_name fuel names base (k + 1) (cand base k) = None ->
  forall j, k <= j <= k + Z.of_nat fuel -> is_Some (names !! cand base j).
Proof.
  revert k. induction fuel as [|fuel IH]; intros k Hk; cbn [free_name]; destruct (names !! cand base k) as [sn|] eqn:E; try done.
  - intros _ j Hj. assert (j = k) as -> by lia. by eexists.
  - intros Hf j Hj. destruct (decide (j = k)) as [->|Hne]; [by eexists|].
    assert (Hc : candidate base (k + 1) = cand base (k + 1)) by (unfold cand; by destruct (Z.eqb_spec (k + 1) 0); [lia|]).
    rewrite Hc in Hf. apply (IH (k + 1)); [lia|done|lia].
Qed.
Lemma free_name_free fuel names base k name : free_name fuel names base (k + 1) (cand base k) = Some name -> 0 <= k ->
  names !! name = None /\ exists j, 0 <= j /\ name = cand base j.
Proof.
  revert k. induction fuel as [|fuel IH]; intros k; cbn [free_name]; destruct (names !! cand base k) as [sn|] eqn:E; try done.
  1, 3: intros [= <-] Hk; split; [done|by exists k].
  intros Hf Hk. assert (Hc : candidate base (k + 1) = cand base (k + 1)) by (unfold cand; by destruct (Z.eqb_spec (k + 1) 0); [lia|]).
  rewrite Hc in Hf. apply (IH (k + 1)); [done|lia].
Qed.

(** Among as many candidates as there are names, and one more, one is free. *)
Lemma free_name_spec names base : Z.of_nat (size names) < 2 ^ 62 ->
  exists name, free_name (size names) names base 1 base = Some name /\ names !! name = None /\ exists j, 0 <= j /\ name = cand base j.
Proof.
  intros Hs. destruct (free_name (size names) names base 1 base) as [name|] eqn:E.
  - exists name. split; [done|]. by apply (free_name_free (size names) names base 0 name).
  - exfalso. pose proof (free_name_taken (size names) names base 0 ltac:(lia) E) as Ht.
    set (l := map (fun k => cand base (Z.of_nat k)) (seq 0 (S (size names)))).
    assert (Hnd : NoDup l).
    { unfold l. apply NoDup_fmap_2_strong; [|apply NoDup_seq]. intros x y Hx Hy Exy. rewrite !elem_of_seq in *.
      apply cand_inj in Exy; lia. }
    assert (Hsub : list_to_set l ⊆ (dom names : gset string)).
    { intros x. rewrite elem_of_list_to_set. unfold l. intros (k & -> & Hk)%list_elem_of_fmap. rewrite elem_of_seq in Hk.
      apply elem_of_dom, Ht. lia. }
    apply subseteq_size in Hsub. rewrite size_list_to_set, size_dom in Hsub by done. unfold l in Hsub.
    rewrite length_map, length_seq in Hsub. lia.
Qed.

(** ** Every snapshot has a name *)

Section names.
Context (Format : Time -> string -> string) (template : string) (Format_nonempty : forall t, Format t template ≠ ""%string).

(** The names given to the snapshots [l], in this order. *)
Record named_all (st : name_state) (l : list Snapshot) : Prop := {
  na_values : (map_to_list (ns_names st)).*2 ≡ₚ l;
  na_keys name sn : ns_names st !! name = Some sn -> exists j, 0 <= j /\ name = cand (Format (s_Time sn) template) j;
  na_empty : l = [] -> ns_latest st = ""%string;
  na_latest : l ≠ [] -> exists sn, sn ∈ l /\ ns_latest st = Format (s_Time sn) template /\ ns_latestTime st = s_Time sn
    /\ (forall sn', sn' ∈ l -> t_ns (s_Time sn') <= t_ns (s_Time sn)) /\ is_Some (ns_names st !! ns_latest st);
}.

Lemma named_size st l : named_all st l -> size (ns_names st) = length l.
Proof. intros [Hv _ _ _]. apply Permutation_length in Hv. by rewrite length_fmap, length_map_to_list in Hv. Qed.

Lemma add_name_spec st l sn : named_all st l -> lenZ l < 2 ^ 62 ->
  exists st', add_name Format template st sn = Some st' /\ named_all st' (l ++ [sn]).
Proof using Format_nonempty.
  intros Hst Hl. pose proof (named_size st l Hst) as Hsz. destruct Hst as [Hv Hk He HL]. unfold add_name.
  set (base := Format (s_Time sn) template). set (test := bool_decide (ns_latest st = ""%string) || negb (Before (s_Time sn) (ns_latestTime st))).
  destruct (free_name_spec (ns_names st) base) as (name & Ename & Hfree & j & Hj & Hname); [by rewrite Hsz|]. rewrite Ename.
  set (names' := <[name := sn]> (ns_names st)).
  assert (Hkeep : forall k, is_Some (ns_names st !! k) -> is_Some (names' !! k)).
  { intros k Hsome. unfold names'. destruct (decide (name = k)) as [->|Hne]; [rewrite lookup_insert_eq; by eexists|by rewrite lookup_insert_ne]. }
  assert (Hbase : is_Some (names' !! base)).
  { destruct (ns_names st !! base) as [sn0|] eqn:Eb; [apply Hkeep; by eexists|].
    assert (name = base) as ->; [|unfold names'; rewrite lookup_insert_eq; by eexists].
    destruct (size (ns_names st)); cbn [free_name] in Ename; rewrite Eb in Ename; congruence. }
  assert (Hres : (let '(latest, latestTime) := if test then (base, s_Time sn) else (ns_latest st, ns_latestTime st) in
      Some (mkNames latest latestTime names'))
      = Some (mkNames (if test then base else ns_latest st) (if test then s_Time sn else ns_latestTime st) names')) by by destruct test.
  assert (Hlatest_le : test = true -> forall sn', sn' ∈ l -> t_ns (s_Time sn') <= t_ns (s_Time sn)).
  { intros Et sn' Hin. assert (Hl0 : l ≠ []) by (intros ->; by apply not_elem_of_nil in Hin).
    destruct (HL Hl0) as (sn0 & _ & E1 & E2 & Hle & _). etrans; [by apply Hle|]. unfold test in Et.
    rewrite E1, bool_decide_eq_false_2 in Et by apply Format_nonempty. cbn [orb] in Et. apply negb_true_iff in Et.
    unfold Before in Et. apply Z.ltb_ge in Et. by rewrite E2 in Et. }
  eexists. split; [exact Hres|]. split; cbn [ns_names ns_latest ns_latestTime].
  - unfold names'. rewrite map_to_list_insert by done. cbn [fmap list_fmap]. rewrite Hv. apply Permutation_cons_append.
  - intros k sn'. unfold names'. destruct (decide (name = k)) as [->|Hne].
    + rewrite lookup_insert_eq. intros [= <-]. by exists j.
    + rewrite lookup_insert_ne by done. apply Hk.
  - intros E. by destruct l.
  - intros _. destruct test eqn:Et.
    + exists sn. split; [apply elem_of_app; right; left|]. split; [done|]. split; [done|]. split; [|done].
      intros sn' [Hin|Hin]%elem_of_app; [by apply Hlatest_le|]. apply list_elem_of_singleton in Hin as ->. lia.
    + unfold test in Et. apply orb_false_iff in Et as [Et1 Et2]. apply bool_decide_eq_false_1 in Et1.
      assert (Hl0 : l ≠ []) by (intros E; by apply Et1, He).
      destruct (HL Hl0) as (sn0 & Hin & E1 & E2 & Hle & Hsome). exists sn0. split; [apply elem_of_app; auto|].
      split; [done|]. split; [done|]. split; [|by apply Hkeep].
      intros sn' [Hin'|Hin']%elem_of_app; [by apply Hle|]. apply list_elem_of_singleton in Hin' as ->.
      apply negb_false_iff in Et2. unfold Before in Et2. apply Z.ltb_lt in Et2. rewrite E2 in Et2. lia.
Qed.

Lemma add_names_spec d sns st l : named_all st l -> lenZ l + lenZ sns < 2 ^ 62 ->
  exists st', add_names Format d template sns st = Some st' /\ named_all st' (l ++ filter (fun sn => wanted d sn) sns).
Proof using Format_nonempty.
  revert st l. induction sns as [|sn sns IH]; intros st l Hst Hl; cbn [add_names].
  - exists st. by rewrite filter_nil, app_nil_r.
  - cbn [length] in Hl. destruct (wanted d sn) eqn:Ew.
    + destruct (add_name_spec st l sn Hst) as (st1 & -> & H1); [lia|].
      destruct (IH st1 (l ++ [sn]) H1) as (st' & E & H'); [rewrite length_app; cbn [length]; lia|]. exists st'. split; [done|].
      rewrite filter_cons_True by by rewrite Ew. by rewrite <- app_assoc in H'.
    + destruct (IH st l Hst) as (st' & E & H'); [lia|]. exists st'. split; [done|]. by rewrite filter_cons_False by (rewrite Ew; by intros []).
Qed.
Lemma named_none : named_all (mkNames "" zeroTime ∅) [].
Proof. split; cbn [ns_names ns_latest]; [by rewrite map_to_list_empty|by intros name sn; rewrite lookup_empty|done|done]. Qed.
End names.

Section snapshots.
Context {R E : Type} `{MR : MountRepo R E}.
Context (Format : Time -> string -> string) (GenerateDynamicInode : Z -> string -> Z).
Context (range : forall A, gmap string A -> list (string * A)) (range_perm : forall A m, range A m ≡ₚ map_to_list m).
Context (few : forall hosts tags paths r r' l, mr_FindFilteredSnapshots hosts tags paths r = (r', Ok l) -> lenZ l < 2 ^ 62).
#[local] Abbreviation Root := (Root R).

Definition root_template (root : Root) : string := cfg_SnapshotTemplate (ro_cfg root).
Context (cfg0 : Config) (Format_nonempty : forall t, Format t (cfg_SnapshotTemplate cfg0) ≠ ""%string).

Definition root_ok (root : Root) : Prop := ro_cfg root = cfg0 /\ lenZ (ro_snapshots root) < 2 ^ 62.
(** The names of a directory are those of the snapshots [sns] that have its tag
    and host; a new directory shows none. *)
Definition shows (d : SnapshotsDir) (sns : list Snapshot) : Prop :=
  exists t, named_all Format (cfg_SnapshotTemplate cfg0) (mkNames (sd_latest d) t (sd_names d)) (filter (fun sn => wanted d sn) sns).
Lemma shows_new inode tag host template : shows (mkSnapshotsDir inode ∅ "" tag host 0 template) [].
Proof. exists zeroTime. apply named_none. Qed.
(** What the root loads: nothing, or a list of another length than the last
    one. *)
Definition reloaded (root root' : Root) : Prop :=
  (ro_snapshots root' = ro_snapshots root /\ ro_snCount root' = ro_snCount root)
  \/ (exists r, mr_FindFilteredSnapshots (cfg_Hosts cfg0) (cfg_Tags cfg0) (cfg_Paths cfg0) (ro_repo root) = (r, Ok (ro_snapshots root')))
     /\ ro_snCount root' = lenZ (ro_snapshots root') /\ ro_snCount root' ≠ ro_snCount root.
(** What a directory shows when it is read: it compares numbers only. *)
Definition refreshed (root : Root) (d : SnapshotsDir) (sns : list Snapshot) : list Snapshot :=
  if sd_snCount d =? ro_snCount root then sns else ro_snapshots root.

Lemma updateSnapshots_spec now root root' : root_ok root -> updateSnapshots now root = (root', Ok tt) -> root_ok root' /\ reloaded root root'.
Proof using few.
  intros Hok. pose proof Hok as (Hc & Hs). unfold updateSnapshots, reloaded. destruct (_ <? _); [intros [= <-]; split; [done|by left]|].
  rewrite Hc. destruct (mr_FindFilteredSnapshots _ _ _ _) as [r [l|e|msg]] eqn:EF; [|done|done]. pose proof (few _ _ _ _ _ _ EF) as Hl.
  destruct (Z.eqb_spec (ro_snCount root) (lenZ l)); cbn [negb].
  - intros [= <-]. split; [done|by left].
  - destruct (mr_LoadIndex r) as [r1 [e|]]; [done|]. intros [= <-]. split; [done|]. right. cbn [ro_snCount ro_snapshots]. split; [by eexists|]. lia.
Qed.

Lemma updateSnapshotNames_spec root d sns : root_ok root -> shows d sns ->
  exists d', updateSnapshotNames Format root d (cfg_SnapshotTemplate cfg0) = Some d' /\ sd_snCount d' = ro_snCount root
    /\ shows d' (refreshed root d sns) /\ sd_tag d' = sd_tag d /\ sd_host d' = sd_host d /\ sd_inode d' = sd_inode d.
Proof using Format_nonempty.
  intros (Hc & Hs) Hin. unfold updateSnapshotNames, refreshed. destruct (Z.eqb_spec (sd_snCount d) (ro_snCount root)) as [E1|E1]; cbn [negb].
  - by exists d.
  - destruct (add_names_spec Format (cfg_SnapshotTemplate cfg0) Format_nonempty d (ro_snapshots root) _ [] (named_none _ _)) as (st & -> & Hst);
      [cbn [length]; lia|].
    eexists. split; [done|]. split; [done|]. split; [|done]. exists (ns_latestTime st). cbn [sd_latest sd_names].
    by destruct st.
Qed.

End snapshots.

(** ** A directory shows its tree *)

Lemma Base_plain name : plain name -> Base name = name.
Proof.
  intros (H1 & _ & _ & H4). unfold Base. rewrite bool_decide_eq_false_2, path_split_plain by done.
  by rewrite filter_cons_True, filter_nil.
Qed.
Lemma add_items_lookup nodes : forall items, Forall (fun n => plain (n_Name n)) nodes -> NoDup (map n_Name nodes) ->
  (forall n, n ∈ nodes -> add_items items nodes !! n_Name n = Some n)
  /\ (forall k, k ∉ map n_Name nodes -> add_items items nodes !! k = items !! k).
Proof.
  induction nodes as [|n nodes IH]; intros items Hp Hnd; [split; [by intros n ?%not_elem_of_nil|done]|].
  apply Forall_cons in Hp as [Hn Hp]. apply NoDup_cons in Hnd as [Hni Hnd]. unfold add_items in *. cbn [fold_left map].
  unfold cleanupNodeName at 2 4. rewrite Base_plain by done. destruct (IH (<[n_Name n := n]> items) Hp Hnd) as [H1 H2]. split.
  - intros n' [->|Hin]%elem_of_cons; [|by apply H1]. rewrite H2 by done. apply lookup_insert_eq.
  - intros k Hk. rewrite not_elem_of_cons in Hk. destruct Hk as [Hk1 Hk2]. rewrite H2 by done. by apply lookup_insert_ne.
Qed.

Section dirs.
Context {R E : Type} `{MR : MountRepo R E}.
Context (GenerateDynamicInode : Z -> string -> Z).
Context (range : forall A, gmap string A -> list (string * A)) (range_perm : forall A m, range A m ≡ₚ map_to_list m).

Lemma open_nodes_plain nodes : forall items (root : Root R), Forall (fun n => plain (n_Name n)) nodes ->
  open_nodes nodes items root = (root, Ok (add_items items nodes)).
Proof.
  induction nodes as [|n nodes IH]; intros items root Hp; [done|]. apply Forall_cons in Hp as [(Hn1 & Hn2 & Hn3 & Hn4) Hp].
  cbn [open_nodes]. assert (Hs : replaceSpecialNodes n root = (root, Ok [n])).
  { unfold replaceSpecialNodes. destruct (n_Subtree n); [|done]. case_bool_decide; [done|].
    assert (n_Name n ≠ "/"%string) by (intros E0; apply Hn4; rewrite E0; left).
    by rewrite !bool_decide_eq_true_2. }
  rewrite Hs, IH by done. done.
Qed.

(** Reading a directory of a snapshot gives the names of its tree's nodes,
    and each name leads to its node. *)
Lemma dir_complete d id (root : Root R) r tree : d_items d = None -> n_Subtree (d_node d) = Some id ->
  mr_LoadTree id (ro_repo root) = (r, Ok tree) ->
  Forall (fun n => plain (n_Name n)) (t_Nodes tree) -> NoDup (map n_Name (t_Nodes tree)) ->
  exists root' d' items, dir_ReadDirAll GenerateDynamicInode range d root = (root', Ok (d', items))
    /\ map de_Name items ≡ₚ "."%string :: ".."%string :: map n_Name (t_Nodes tree)
    /\ forall n, n ∈ t_Nodes tree ->
      dir_Lookup GenerateDynamicInode d' (n_Name n) root'
      = (root', let inode := GenerateDynamicInode (d_inode d) (n_Name n) in
                if bool_decide (n_Type n = "dir"%string) then Ok (d', FDir (newDir inode (d_inode d) n))
                else if bool_decide (n_Type n = "file"%string) then Ok (d', FFile inode n)
                else if bool_decide (n_Type n = "symlink"%string) then Ok (d', FLink inode n)
                else if bool_decide (n_Type n ∈ other_types) then Ok (d', FOther inode n)
                else Err ENOENT).
Proof using range_perm.
  intros Hitems Hsub HL Hp Hnd. unfold dir_ReadDirAll, dir_open, load_tree. rewrite Hitems, Hsub, HL.
  rewrite open_nodes_plain by done. eexists _, _, _. split; [reflexivity|]. destruct (add_items_lookup (t_Nodes tree) ∅ Hp Hnd) as [H1 H2].
  set (items := add_items ∅ (t_Nodes tree)) in *. cbn [d_items d_inode d_parentInode default]. split.
  - rewrite map_app, map_map. cbn [map de_Name app]. do 2 apply perm_skip.
    assert (Hnodes : map snd (map_to_list items) ≡ₚ t_Nodes tree).
    { assert (Hkv : map_to_list items ≡ₚ map (fun n => (n_Name n, n)) (t_Nodes tree)).
      { apply NoDup_Permutation; [apply NoDup_map_to_list|by apply (NoDup_fmap_1 fst); rewrite <- list_fmap_compose|].
        intros [k n]. rewrite elem_of_map_to_list, list_elem_of_fmap. split.
        - intros Hk. destruct (decide (k ∈ map n_Name (t_Nodes tree))) as [Hin|Hin].
          + apply list_elem_of_fmap in Hin as (n' & -> & Hn'). exists n'. rewrite (H1 n' Hn') in Hk. by injection Hk as ->.
          + by rewrite H2, lookup_empty in Hk.
        - intros (n' & [= -> ->] & Hn'). by apply H1. }
      rewrite Hkv, map_map. cbn [snd]. by rewrite map_id. }
    transitivity (map (fun n => n_Name n) (map snd (map_to_list items))); [|by rewrite Hnodes].
    rewrite map_map, range_perm. apply Permutation_refl'. apply map_ext_in. intros [k n] Hin%list_elem_of_In%elem_of_map_to_list.
    cbn [snd]. unfold node_dirent. cbn [de_Name]. unfold cleanupNodeName. apply Base_plain.
    destruct (decide (k ∈ map n_Name (t_Nodes tree))) as [Hk|Hk]; [|by rewrite H2, lookup_empty in Hin].
    apply list_elem_of_fmap in Hk as (n' & -> & Hn'). rewrite (H1 n' Hn') in Hin. injection Hin as ->.
    exact (proj1 (Forall_forall _ _) Hp n Hn').
  - intros n Hn. unfold dir_Lookup, dir_open. cbn [d_items d_inode]. change (default ∅ (Some items)) with items. by rewrite (H1 n Hn).
Qed.
End dirs.

(** ** Cases in which the directories are wrong *)

Section findings.
Context {R E : Type} `{MR : MountRepo R E}.

(** Snapshots that were replaced by as many others are not noticed. *)
Lemma updateSnapshots_same_count now (root : Root R) r l :
  mr_FindFilteredSnapshots (cfg_Hosts (ro_cfg root)) (cfg_Tags (ro_cfg root)) (cfg_Paths (ro_cfg root)) (ro_repo root) = (r, Ok l) ->
  ro_snCount root = lenZ l -> ro_snapshots (updateSnapshots now root).1 = ro_snapshots root /\ (updateSnapshots now root).2 = Ok tt.
Proof. intros HF Hn. unfold updateSnapshots. destruct (_ <? _); [done|]. rewrite HF, Hn, Z.eqb_refl. done. Qed.

(** When the index cannot be loaded, the new number of snapshots is kept, and
    the next call, with an index that can be loaded, does not load them. *)
Lemma updateSnapshots_failed_reload now now' (root : Root R) r r1 e r2 l :
  let find r := mr_FindFilteredSnapshots (cfg_Hosts (ro_cfg root)) (cfg_Tags (ro_cfg root)) (cfg_Paths (ro_cfg root)) r in
  minSnapshotsReloadTime <= t_ns now - t_ns (ro_lastCheck root) -> minSnapshotsReloadTime <= t_ns now' - t_ns (ro_lastCheck root) ->
  find (ro_repo root) = (r, Ok l) -> ro_snCount root ≠ lenZ l -> mr_LoadIndex r = (r1, Some e) -> find r1 = (r2, Ok l) ->
  let root1 := (updateSnapshots now root).1 in
  (updateSnapshots now root).2 = Err (MountErr e)
  /\ (updateSnapshots now' root1).2 = Ok tt /\ ro_snapshots (updateSnapshots now' root1).1 = ro_snapshots root.
Proof.
  cbv zeta. intros H1 H2 HF Hn HL HF'.
  assert (E1 : updateSnapshots now root = (mkRoot r1 (ro_cfg root) (ro_inode root) (ro_snapshots root) (lenZ l) (ro_lastCheck root)
      (ro_uid root) (ro_gid root), Err (MountErr e))).
  { unfold updateSnapshots. rewrite (proj2 (Z.ltb_ge _ _)) by done. rewrite HF, (proj2 (Z.eqb_neq _ _)) by done. cbn [negb]. by rewrite HL. }
  rewrite E1. split; [done|]. unfold updateSnapshots. cbn [fst ro_lastCheck ro_cfg ro_repo ro_snCount].
  rewrite (proj2 (Z.ltb_ge _ _)) by done. rewrite HF', Z.eqb_refl. done.
Qed.
End findings.

(** ** A concrete mount *)

#[export] Instance toy_mount : MountRepo (list Snapshot) unit := {|
  mr_FindFilteredSnapshots _ _ _ r := (r, if bool_decide (length r <= 9)%nat then Ok r else Err tt);
  mr_LoadIndex r := (r, None);
  mr_LoadTree _ r := (r, Err tt) |}.
Definition toy_cfg : Config := mkConfig true [] [] [] "2006".
Definition toy_snapshot (t : Z) : Snapshot :=
  mkSnapshot (mkTime t 0) None (Some nullID) None "host" "" 0 0 None None None (Some nullID).
(** All times look the same. *)
Definition toy_format (t : Time) (template : string) : string := template.
Definition toy_inode (i : Z) (name : string) : Z := i + Z.of_nat (String.length name).
Definition toy_root : Root (list Snapshot) := (NewRoot toy_inode [toy_snapshot 5; toy_snapshot 7] toy_cfg 0 0).1.
Definition toy_dir : SnapshotsDir := NewSnapshotsDir toy_root 9 "" "".
Definition toy_now : Time := mkTime (100 * Second) 0.
Definition toy_read := SnapshotsDir_ReadDirAll toy_format toy_inode (fun _ => map_to_list) toy_now toy_root toy_dir.

Lemma toy_read_ok : match toy_read with
  | Some (root, d, Ok items) => map de_Name items = ["."; ".."; "2006-1"; "2006"; "latest"]%string
    /\ ro_snapshots root = [toy_snapshot 5; toy_snapshot 7] /\ ro_snCount root = 2
    /\ sd_names d !! "2006"%string = Some (toy_snapshot 5) /\ sd_names d !! "2006-1"%string = Some (toy_snapshot 7)
    /\ sd_latest d = "2006"%string
  | _ => False end.
Proof. vm_compute. split_and!; reflexivity. Qed.
Lemma toy_few hosts tags paths r r' l : mr_FindFilteredSnapshots hosts tags paths r = (r', Ok l) -> lenZ l < 2 ^ 62.
Proof. cbn [mr_FindFilteredSnapshots toy_mount]. case_bool_decide; [|done]. intros [= <- <-]. lia. Qed.


(** [latest] is the name of the first snapshot whose time looks like the one of
    the newest. *)
Lemma latest_not_newest : match toy_read with
  | Some (_, d, Ok _) => sd_names d !! sd_latest d = Some (toy_snapshot 5) /\ sd_names d !! "2006-1"%string = Some (toy_snapshot 7)
  | _ => False end.
Proof. vm_compute. split; reflexivity. Qed.

(** A directory that has seen one snapshot, while another one made the root load
    a second one and then the second one only: it goes on showing the first. *)
Definition with_repo (root : Root (list Snapshot)) (l : list Snapshot) : Root (list Snapshot) :=
  mkRoot l (ro_cfg root) (ro_inode root) (ro_snapshots root) (ro_snCount root) (ro_lastCheck root) (ro_uid root) (ro_gid root).
Definition toy_read_at (minutes : Z) (root : Root (list Snapshot)) (d : SnapshotsDir) : Root (list Snapshot) * SnapshotsDir :=
  match SnapshotsDir_ReadDirAll toy_format toy_inode (fun _ => map_to_list) (mkTime (minutes * 60 * Second) 0) root d with
  | Some (root, d, _) => (root, d)
  | None => (root, d)
  end.
Lemma stale_directory :
  let other := toy_dir in
  let '(root1, d1) := toy_read_at 2 (with_repo toy_root [toy_snapshot 5]) toy_dir in
  let '(root2, other) := toy_read_at 4 (with_repo root1 [toy_snapshot 5; toy_snapshot 7]) other in
  let '(root3, other) := toy_read_at 6 (with_repo root2 [toy_snapshot 7]) other in
  let '(root4, d4) := toy_read_at 8 root3 d1 in
  ro_snapshots root4 = [toy_snapshot 7] /\ map_to_list (sd_names d4) = [("2006"%string, toy_snapshot 5)].
Proof. vm_compute. split; reflexivity. Qed.
