(* ===== verification/Dump.v ===== *)
(** * Dump: archives of trees

    src/internal/dump: the nodes that are sent to the archive
    (common.go), the headers of a tar archive (tar.go) and the access
    control lists (acl.go).  The writers of archive/tar and archive/zip are
    parameters. *)

From S2P Require Import Prelude Crypto Ids Duration Snapshots Trees Paths Walker Contents.

(** ** Access control lists (src/internal/dump/acl.go) *)

Module Acl.
Definition aclUserOwner : Z := 1.
Definition aclUser : Z := 2.
Definition aclGroupOwner : Z := 4.
Definition aclGroup : Z := 8.
Definition aclMask : Z := 16.
Definition aclOthers : Z := 32.

(** [aclSID] is a uint64: the tag and the ID. *)
Record aclElement : Type := mkElement { ae_aclSID : Z; ae_Perm : Z }.
Record acl : Type := mkAcl { acl_Version : Z; acl_List : list aclElement }.

Definition getType (a : Z) : Z := i64 (Z.shiftr a 32).
Definition getID (a : Z) : Z := u32 (Z.land a 0xffffffff).

Definition decimal (n : Z) : string := string_of (format_int n).

Definition aclSID_String (a : Z) : string :=
  let t := Z.shiftr a 32 in
  (if (t =? aclUserOwner)%Z then "user::"
   else if (t =? aclUser)%Z then "user:" ++ decimal (getID a) ++ ":"
   else if (t =? aclGroupOwner)%Z then "group::"
   else if (t =? aclGroup)%Z then "group:" ++ decimal (getID a) ++ ":"
   else if (t =? aclMask)%Z then "mask::"
   else if (t =? aclOthers)%Z then "other::"
   else "?:")%string.

Definition aclElement_String (a : aclElement) : string :=
  let perm bit yes := if negb (Z.land (ae_Perm a) bit =? 0) then yes else "-"%string in
  let str := (perm 4 "r" ++ perm 2 "w" ++ perm 1 "x")%string in
  (aclSID_String (ae_aclSID a) ++ str)%string.

Definition newline : string := String (Ascii.ascii_of_nat 10) EmptyString.
Definition acl_String (a : acl) : string :=
  fold_left (fun s e => (s ++ aclElement_String e ++ newline)%string) (acl_List a) ""%string.

(** [binary.Read] of an [aclElem]: 8 bytes, or an error. *)
Fixpoint decode_elems (fuel : nat) (b : list byte) : list aclElement :=
  match fuel with
  | O => []
  | S fuel =>
      if (length b <? 8)%nat then []
      else
        let tag := le_get (take 2 b) in
        let perm := le_get (take 2 (drop 2 b)) in
        let id := le_get (take 4 (drop 4 b)) in
        mkElement (Z.lor (u64 (Z.shiftl tag 32)) id) perm :: decode_elems fuel (drop 8 b)
  end.

(** On a list with the contents [a]; each element takes 8 bytes. *)
Definition decode_acl (a : acl) (xattr : list byte) : acl :=
  if (length xattr <? 4)%nat then mkAcl 0 (acl_List a)
  else mkAcl (le_get (take 4 xattr)) (decode_elems (length xattr) (drop 4 xattr)).

Definition encode_elem (e : aclElement) : list byte :=
  le_put 2 (getType (ae_aclSID e) mod 2 ^ 16) ++ le_put 2 (ae_Perm e) ++ le_put 4 (getID (ae_aclSID e)).
Definition encode_acl (a : acl) : list byte :=
  le_put 4 (acl_Version a) ++ concat (map encode_elem (acl_List a)).
End Acl.

Definition IsDir (node : Node) : bool := bool_decide (n_Type node = "dir"%string).
Definition IsLink (node : Node) : bool := bool_decide (n_Type node = "symlink"%string).
Definition IsFile (node : Node) : bool := bool_decide (n_Type node = "file"%string).

(** ** Headers of a tar archive (src/internal/dump/tar.go) *)

Definition ModeSetuid : Z := 2 ^ 23.
Definition ModeSetgid : Z := 2 ^ 22.
Definition ModeSticky : Z := 2 ^ 20.
Definition cISUID : Z := 0x800.
Definition cISGID : Z := 0x400.
Definition cISVTX : Z := 0x200.

Record Header : Type := mkHeader {
  hd_Typeflag : byte;
  hd_Name : string;
  hd_Linkname : string;
  hd_Size : Z;
  hd_Mode : Z;
  hd_Uid : Z;
  hd_Gid : Z;
  hd_Uname : string;
  hd_Gname : string;
  hd_ModTime : Time;
  hd_AccessTime : Time;
  hd_ChangeTime : Time;
  hd_PAXRecords : gmap string string;
}.

Definition HasPrefix (prefix s : string) : bool := bool_decide (prefix = String.substring 0 (String.length prefix) s).
Definition Contains (s sub : string) : bool :=
  match String.index 0 sub s with Some _ => true | None => false end.

Definition parse_xattr (tmpMap : gmap string string) (attr : ExtendedAttribute) : gmap string string :=
  let attrString := string_of (x_Value attr) in
  if HasPrefix "system.posix_acl_" (x_Name attr) then
    let na := Acl.decode_acl (Acl.mkAcl 0 []) (x_Value attr) in
    if negb (bool_decide (Acl.acl_String na = ""%string)) then
      if Contains (x_Name attr) "system.posix_acl_access" then <["SCHILY.acl.access"%string := Acl.acl_String na]> tmpMap
      else if Contains (x_Name attr) "system.posix_acl_default" then <["SCHILY.acl.default"%string := Acl.acl_String na]> tmpMap
      else tmpMap
    else tmpMap
  else <[("SCHILY.xattr." ++ x_Name attr)%string := attrString]> tmpMap.
Definition parseXattrs (xattrs : list ExtendedAttribute) : gmap string string := fold_left parse_xattr xattrs ∅.

(** [filepath.Rel] from the root. *)
Definition slash : Ascii.ascii := Ascii.ascii_of_nat 47.
Definition Rel_root (path : string) : option string :=
  let targ := Clean path in
  if bool_decide (targ = "/"%string) then Some "."%string
  else match targ with
       | String c s => if Ascii.eqb c slash then Some s else None
       | EmptyString => None
       end.

Definition flag_if (c : bool) (mode flag : Z) : Z := if c then Z.lor mode flag else mode.
Definition tar_header (node : Node) (relPath : string) : Header :=
  let has m := negb (Z.land (n_Mode node) m =? 0) in
  let mode := Z.land (n_Mode node) 0x1ff in
  let mode := flag_if (has ModeSetuid) mode cISUID in
  let mode := flag_if (has ModeSetgid) mode cISGID in
  let mode := flag_if (has ModeSticky) mode cISVTX in
  mkHeader
    (if IsDir node then Byte.x35 else if IsLink node then Byte.x32 else if IsFile node then Byte.x30 else Byte.x00)
    (if IsDir node then relPath ++ "/" else relPath)%string
    (if IsLink node then n_LinkTarget node else "")
    (i64 (n_Size node)) mode (n_UID node) (n_GID node) (n_User node) (n_Group node)
    (n_ModTime node) (n_AccessTime node) (n_ChangeTime node) (parseXattrs (n_ExtendedAttributes node)).

(** ** Writing the archive *)

Section dump.
Context {E R L W : Type} `{LRU ID slice L} (LoadBlob : ID -> R -> R * res E slice).
Context (Write : list byte -> W -> W * option E).

Inductive dump_error : Type := RelError (path : string) | DumpErr (e : E).

Definition dstate : Type := rstate (R := R) (L := L) * W.

(** The evicted buffer is only reused as memory for the next blob. *)
Fixpoint write_blobs (content : list ID) (st : dstate) : dstate * res E unit :=
  match content with
  | [] => (st, Ok tt)
  | id :: content =>
      let '(s, w) := st in
      match get_blob LoadBlob id s with
      | (s, Err e) => ((s, w), Err e)
      | (s, Panic m) => ((s, w), Panic m)
      | (s, Ok blob) =>
          match Write (sl_data blob) w with
          | (w, Some e) => ((s, w), Err e)
          | (w, None) => write_blobs content (s, w)
          end
      end
  end.
Definition writeNode (node : Node) (st : dstate) : dstate * res E unit := write_blobs (node_content node) st.

Definition dump_err {A} (x : dstate * res E A) : dstate * res dump_error A :=
  (x.1, match x.2 with Ok a => Ok a | Err e => Err (DumpErr e) | Panic m => Panic m end).

Definition dumpNodeTar (WriteHeader : Header -> W -> W * option E) (node : Node) (st : dstate) : dstate * res dump_error unit :=
  match Rel_root (n_Path node) with
  | None => (st, Err (RelError (n_Path node)))
  | Some relPath =>
      let '(s, w) := st in
      match WriteHeader (tar_header node relPath) w with
      | (w, Some e) => ((s, w), Err (DumpErr e))
      | (w, None) => dump_err (writeNode node (s, w))
      end
  end.

Record FileHeader : Type := mkFileHeader { fh_Name : string; fh_UncompressedSize64 : Z; fh_Modified : Time; fh_Mode : Z }.

Definition dumpNodeZip (CreateHeader : FileHeader -> W -> W * option E) (node : Node) (st : dstate) : dstate * res dump_error unit :=
  match Rel_root (n_Path node) with
  | None => (st, Err (RelError (n_Path node)))
  | Some relPath =>
      let '(s, w) := st in
      let name := (if IsDir node then relPath ++ "/" else relPath)%string in
      match CreateHeader (mkFileHeader name (n_Size node) (n_ModTime node) (n_Mode node)) w with
      | (w, Some e) => ((s, w), Err (DumpErr e))
      | (w, None) =>
          if IsLink node then
            match Write (bytes_of (n_LinkTarget node)) w with
            | (w, Some e) => ((s, w), Err (DumpErr e))
            | (w, None) => ((s, w), Ok tt)
            end
          else dump_err (writeNode node (s, w))
      end
  end.

(** The loop of [dumpTar] and of [dumpZip] over the nodes received; the writer
    is closed when there was no error. *)
Fixpoint dump_nodes (dumpNode : Node -> dstate -> dstate * res dump_error unit) (Close : W -> W * option E)
  (nodes : list Node) (st : dstate) : dstate * res dump_error unit :=
  match nodes with
  | [] => let '(s, w) := st in
          match Close w with (w, Some e) => ((s, w), Err (DumpErr e)) | (w, None) => ((s, w), Ok tt) end
  | node :: nodes =>
      match dumpNode node st with
      | (st, Ok _) => dump_nodes dumpNode Close nodes st
      | (st, Err e) => (st, Err e)
      | (st, Panic m) => (st, Panic m)
      end
  end.

(** [sendNodes] and [sendTrees]: the nodes sent; an error of [sendNodes] ends
    the loop and is dropped. *)
Section send.
Context (LoadTree : ID -> res E Tree) (sort : list Node -> list Node).

Definition with_Path (n : Node) (path : string) : Node :=
  mkNode (n_Name n) (n_Type n) (n_Mode n) (n_ModTime n) (n_AccessTime n) (n_ChangeTime n) (n_UID n) (n_GID n)
    (n_User n) (n_Group n) (n_Inode n) (n_DeviceID n) (n_Size n) (n_Links n) (n_LinkTarget n) (n_ExtendedAttributes n)
    (n_Device n) (n_Content n) (n_Subtree n) (n_Error n) path.

Definition dumped (node : Node) : bool := IsFile node || IsDir node || IsLink node.

Definition send_callback (root : Node) : @WalkFunc E (list Node) :=
  fun _ nodepath node err sent =>
    match err, node with
    | Some e, _ => (sent, (false, Some (WalkErr e)))
    | None, None => (sent, (false, None))
    | None, Some node =>
        let node := with_Path node (Join [n_Path root; nodepath]) in
        if negb (dumped node) then (sent, (false, None)) else (sent ++ [node], (false, None))
    end.

Definition sendNodes (fuel : nat) (root : Node) (sent : list Node) : res fuel_error (list Node * bool) :=
  let sent := sent ++ [root] in
  if negb (IsDir root) then Ok (sent, true)
  else match n_Subtree root with
  | None => Panic "invalid memory address or nil pointer dereference"
  | Some id =>
      '(sent, _, err) ← Walk LoadTree sort (send_callback root) fuel id ∅ sent;
      Ok (sent, match err with None => true | Some _ => false end)
  end.

Fixpoint send_trees (fuel : nat) (roots : list Node) (rootPath : string) (sent : list Node) : res fuel_error (list Node) :=
  match roots with
  | [] => Ok sent
  | root :: roots =>
      '(sent, ok) ← sendNodes fuel (with_Path root (Join [rootPath; n_Name root])) sent;
      if (ok : bool) then send_trees fuel roots rootPath sent else Ok sent
  end.
Definition sendTrees (fuel : nat) (tree : Tree) (rootPath : string) : res fuel_error (list Node) :=
  send_trees fuel (t_Nodes tree) rootPath [].

(** [DumpTree]: the archive's writer is a parameter of its format. *)
Definition DumpTree (fuel : nat) (format : string) (WriteHeader : Header -> W -> W * option E)
  (CreateHeader : FileHeader -> W -> W * option E) (Close : W -> W * option E) (tree : Tree) (rootPath : string)
  (st : dstate) : res fuel_error (dstate * res dump_error unit) :=
  if bool_decide (format = "tar"%string) then
    sent ← sendTrees fuel tree rootPath; Ok (dump_nodes (dumpNodeTar WriteHeader) Close sent st)
  else if bool_decide (format = "zip"%string) then
    sent ← sendTrees fuel tree rootPath; Ok (dump_nodes (dumpNodeZip CreateHeader) Close sent st)
  else Panic "unknown dump format".
End send.
End dump.

(** ** The nodes sent *)

Section sent.
Context {E : Type} (LoadTree : ID -> res E Tree) (sort : list Node -> list Node).
Context (sort_perm : ∀ l, sort l ≡ₚ l).

(** What is sent for the calls of the walk below a directory. *)
Definition sent_visit (root : Node) (v : visit) : option Node :=
  node ← v.2; let node := with_Path node (Join [n_Path root; v.1.2]) in if dumped node then Some node else None.
Definition sent_root (below : Node -> list visit) (root : Node) : list Node :=
  root :: if IsDir root then omap (sent_visit root) (below root) else [].

(** The walk below [root] gives the calls [l]. *)
Definition walks (root : Node) (l : list visit) : Prop :=
  exists id tree l', n_Subtree root = Some id /\ LoadTree id = Ok tree /\ visits LoadTree sort id "/" (sort (t_Nodes tree)) l'
    /\ l = (id, "/"%string, None) :: l'.

Lemma fold_sent root l sent :
  fold_left (fun u v => match sent_visit root v with Some n => u ++ [n] | None => u end) l sent
  = sent ++ omap (sent_visit root) l.
Proof.
  revert sent. induction l as [|v l IH]; intros sent; cbn; [by rewrite app_nil_r|].
  destruct (sent_visit root v); rewrite IH; [by rewrite <- app_assoc|done].
Qed.

Lemma sendNodes_spec root l sent : (IsDir root = true -> walks root l) ->
  exists k, forall fuel, (k <= fuel)%nat ->
    sendNodes LoadTree sort fuel root sent = Ok (sent ++ root :: (if IsDir root then omap (sent_visit root) l else []), true).
Proof using sort_perm.
  intros Hw. unfold sendNodes. destruct (IsDir root); cbn [negb]; [|by exists 0%nat].
  destruct (Hw eq_refl) as (id & tree & l' & -> & Hl & Hv & ->).
  destruct (Walk_visits LoadTree sort (fun u v => match sent_visit root v with Some n => u ++ [n] | None => u end)
    (send_callback root)) with (root := id) (tree := tree) (l := l') (u := sent ++ [root]) as [k Hk]; [|done..|].
  { intros id' p [n|] u; [|done]. cbn. unfold sent_visit. cbn. by destruct (dumped _). }
  exists k. intros fuel Hf. rewrite Hk by done. cbn [mbind res_bind]. by rewrite fold_sent, <- app_assoc.
Qed.

Definition placed (rootPath : string) (root : Node) : Node := with_Path root (Join [rootPath; n_Name root]).

Lemma send_trees_spec (below : Node -> list visit) rootPath roots :
  (forall root, root ∈ roots -> IsDir root = true -> walks root (below (placed rootPath root))) -> forall sent,
  exists k, forall fuel, (k <= fuel)%nat ->
    send_trees LoadTree sort fuel roots rootPath sent
    = Ok (sent ++ concat (map (fun root => sent_root below (placed rootPath root)) roots)).
Proof using sort_perm.
  intros Hw. induction roots as [|root roots IH]; intros sent; [by exists 0%nat; intros; cbn; rewrite app_nil_r|].
  destruct (sendNodes_spec (placed rootPath root) (below (placed rootPath root)) sent) as [k1 Hk1].
  { intros Hd. by apply (Hw root); [left|]. }
  destruct (IH ltac:(intros; apply Hw; [by right|done])
    (sent ++ sent_root below (placed rootPath root))) as [k2 Hk2].
  exists (k1 `max` k2)%nat. intros fuel Hf. cbn [send_trees]. fold (placed rootPath root).
  rewrite Hk1 by lia. cbn [mbind res_bind]. fold (sent_root below (placed rootPath root)).
  rewrite Hk2 by lia. by rewrite <- app_assoc.
Qed.
End sent.

(** ** The entries of the archive

    The documented behaviour of [tar.Writer]: the entries written, the last
    one of which may be incomplete; a header is accepted when the last entry
    is complete, data when the entry has room for it. *)

Definition header_size (h : Header) : Z :=
  if bool_decide (hd_Typeflag h = Byte.x30 \/ hd_Typeflag h = Byte.x00) then hd_Size h else 0.

Class TarWriter (W E : Type) : Type := {
  tw_WriteHeader : Header -> W -> W * option E;
  tw_Write : list byte -> W -> W * option E;
  tw_Close : W -> W * option E;
}.
Definition complete (l : list (Header * list byte)) : Prop :=
  match last l with None => True | Some (h, d) => lenZ d = header_size h end.
Class TarWriterLaws (W E : Type) `{TarWriter W E} : Type := {
  tw_valid : Header -> Prop;
  tw_entries : W -> list (Header * list byte);
  tw_header_ok w h : complete (tw_entries w) -> tw_valid h ->
    exists w', tw_WriteHeader h w = (w', None) /\ tw_entries w' = tw_entries w ++ [(h, [])];
  tw_write_ok w b l h d : tw_entries w = l ++ [(h, d)] -> lenZ (d ++ b) <= header_size h ->
    exists w', tw_Write b w = (w', None) /\ tw_entries w' = l ++ [(h, d ++ b)];
  tw_close_ok w : complete (tw_entries w) -> exists w', tw_Close w = (w', None) /\ tw_entries w' = tw_entries w;
}.

Section tar_spec.
Context {E R L W : Type} `{LRULaws ID slice L} `{TarWriterLaws W E} (LoadBlob : ID -> R -> R * res E slice).
Context (blob : ID -> list byte) (I : R -> Prop) (needed : ID -> Prop).
Context (loads_ok : ∀ id r, needed id -> I r -> exists r' b, LoadBlob id r = (r', Ok b) /\ I r' /\ sl_data b = blob id).

Lemma complete_snoc l h d : complete (l ++ [(h, d)]) <-> lenZ d = header_size h.
Proof. unfold complete. by rewrite last_snoc. Qed.

Lemma write_blobs_spec ids : Forall needed ids -> forall s w l h d, state_ok blob I s -> tw_entries w = l ++ [(h, d)] ->
  lenZ (d ++ contents blob ids) <= header_size h ->
  exists s' w', write_blobs LoadBlob tw_Write ids (s, w) = ((s', w'), Ok tt) /\ state_ok blob I s'
    /\ tw_entries w' = l ++ [(h, d ++ contents blob ids)].
Proof using loads_ok.
  induction 1 as [|id ids Hid _ IH]; intros s w l h d Hs Hw Hl; cbn [write_blobs].
  { exists s, w. split; [done|]. split; [done|]. unfold contents. cbn. by rewrite app_nil_r. }
  change (contents blob (id :: ids)) with (blob id ++ contents blob ids) in *.
  destruct (get_blob_spec LoadBlob blob I [id] (fun i r Hi => loads_ok i r (eq_ind_r needed Hid (proj1 (list_elem_of_singleton i id) Hi))) id s) as (s1 & b & -> & Hs1 & Hb); [by left|done|].
  rewrite Hb, app_assoc in *. destruct (tw_write_ok w (blob id) l h d Hw) as (w1 & -> & Hw1).
  { rewrite length_app in Hl. lia. }
  by apply IH.
Qed.

(** A node that fits the archive. *)
Definition tar_node (node : Node) (relPath : string) : Prop :=
  Rel_root (n_Path node) = Some relPath /\ tw_valid (tar_header node relPath)
  /\ lenZ (contents blob (node_content node)) = header_size (tar_header node relPath).

Definition tar_entry (node : Node) (relPath : string) : Header * list byte :=
  (tar_header node relPath, contents blob (node_content node)).

Lemma dump_nodes_spec nodes paths : Forall2 tar_node nodes paths -> (forall node id, node ∈ nodes -> id ∈ node_content node -> needed id) ->
  forall s w, state_ok blob I s -> complete (tw_entries w) ->
  exists s' w', dump_nodes (dumpNodeTar LoadBlob tw_Write tw_WriteHeader) tw_Close nodes (s, w) = ((s', w'), Ok tt)
    /\ state_ok blob I s' /\ tw_entries w' = tw_entries w ++ zip_with tar_entry nodes paths.
Proof using loads_ok.
  induction 1 as [|node path nodes paths (Hr & Hv & Hlen) _ IH]; intros Hneed s w Hs Hc; cbn [dump_nodes].
  - destruct (tw_close_ok w Hc) as (w' & -> & Hw'). exists s, w'. rewrite app_nil_r. done.
  - unfold dumpNodeTar at 1. rewrite Hr. destruct (tw_header_ok w (tar_header node path) Hc Hv) as (w1 & -> & Hw1).
    assert (Hn : Forall needed (node_content node)) by (apply Forall_forall; intros id Hid; apply (Hneed node id); [left|done]).
    destruct (write_blobs_spec (node_content node) Hn s w1 (tw_entries w) (tar_header node path) [] Hs Hw1) as (s2 & w2 & E2 & Hs2 & Hw2).
    { cbn. lia. }
    unfold writeNode. rewrite E2. unfold dump_err. cbn [fst snd]. cbn [app] in Hw2.
    destruct (IH ltac:(intros n id Hin; apply (Hneed n id); by right) s2 w2 Hs2) as (s3 & w3 & -> & Hs3 & Hw3); [rewrite Hw2; by apply complete_snoc|].
    exists s3, w3. split; [done|]. split; [done|]. rewrite Hw3, Hw2, <- app_assoc. done.
Qed.
End tar_spec.

(** C39: A tar archive has all nodes of a tree, each with its contents.  Let
    the trees below the nodes of a tree be loadable, with [below] the calls
    of the walk below each directory; let the repository load the blobs of the
    nodes that are sent, and let each node that is sent fit the archive (its header is valid and its
    blobs have the size its header says).  Then [DumpTree] succeeds and
    appends to the archive, in preorder, exactly one entry per node of the
    tree itself and per file, directory and symbolic link below, with the
    header for the node's path and the bytes of its blobs. *)
Theorem DumpTree_tar_exact {E R L W : Type} `{LRULaws ID slice L} `{TarWriterLaws W E}
    (LoadBlob : ID -> R -> R * res E slice) (LoadTree : ID -> res E Tree) (sort : list Node -> list Node)
    (blob : ID -> list byte) (I : R -> Prop) (CreateHeader : FileHeader -> W -> W * option E)
    (tree : Tree) (rootPath : string) (below : Node -> list visit) (paths : list string) s w
    (Hloads : ∀ node id r, node ∈ concat (map (fun root => sent_root below (placed rootPath root)) (t_Nodes tree)) ->
      id ∈ node_content node -> I r -> exists r' b, LoadBlob id r = (r', Ok b) /\ I r' /\ sl_data b = blob id)
    (Hsort : ∀ l, sort l ≡ₚ l)
    (Hbelow : ∀ root, root ∈ t_Nodes tree -> IsDir root = true -> walks LoadTree sort root (below (placed rootPath root)))
    (Hnodes : Forall2 (tar_node blob) (concat (map (fun root => sent_root below (placed rootPath root)) (t_Nodes tree))) paths)
    (Hs : state_ok blob I s) (Hw : complete (tw_entries w)) :
  exists k s' w', tw_entries w' = tw_entries w
      ++ zip_with (tar_entry blob) (concat (map (fun root => sent_root below (placed rootPath root)) (t_Nodes tree))) paths
    /\ forall fuel, (k <= fuel)%nat ->
       DumpTree LoadBlob tw_Write LoadTree sort fuel "tar" tw_WriteHeader CreateHeader tw_Close tree rootPath (s, w)
       = Ok ((s', w'), Ok tt).
Proof.
  destruct (send_trees_spec LoadTree sort Hsort below rootPath (t_Nodes tree) Hbelow []) as [k Hk].
  set (nodes := concat _) in *.
  destruct (dump_nodes_spec LoadBlob blob I (fun id => exists node, node ∈ nodes /\ id ∈ node_content node)
    (fun id r '(ex_intro _ node (conj Hn Hid)) => Hloads node id r Hn Hid) _ _ Hnodes (fun node id Hn Hid => ex_intro _ node (conj Hn Hid)) s w Hs Hw) as (s' & w' & Hd & _ & Hw').
  exists k, s', w'. split; [done|]. intros fuel Hf. unfold DumpTree, sendTrees.
  rewrite bool_decide_eq_true_2, Hk by done. cbn [mbind res_bind app]. by rewrite Hd.
Qed.

(** A writer with these laws: the entries, last one first. *)
Definition toy_tar : Type := list (Header * list byte).
Definition toy_complete (w : toy_tar) : bool :=
  match w with [] => true | (h, d) :: _ => bool_decide (lenZ d = header_size h) end.
#[local] Instance toy_tar_writer : TarWriter toy_tar unit := {
  tw_WriteHeader h w := if toy_complete w then ((h, []) :: w, None) else (w, Some tt);
  tw_Write b w :=
    match w with
    | (h, d) :: w' => if bool_decide (lenZ (d ++ b) <= header_size h) then ((h, d ++ b) :: w', None) else (w, Some tt)
    | [] => (w, Some tt)
    end;
  tw_Close w := (w, if toy_complete w then None else Some tt);
}.
Lemma toy_complete_spec (w : toy_tar) : complete (reverse w) -> toy_complete w = true.
Proof. destruct w as [|[h d] w]; [done|]. rewrite reverse_cons, complete_snoc. intros Hd. by apply bool_decide_eq_true. Qed.
#[local] Instance toy_tar_laws : TarWriterLaws toy_tar unit.
Proof.
  refine {| tw_valid := fun _ => True; tw_entries := reverse |}.
  - intros w h Hc _. cbn. rewrite toy_complete_spec by done. eexists. split; [done|]. by rewrite reverse_cons.
  - intros w b l h d Hw Hl. assert (w = (h, d) :: reverse l) as -> by (rewrite <- (reverse_involutive w), Hw, reverse_snoc; done).
    cbn. rewrite bool_decide_eq_true_2 by done. eexists. split; [done|]. by rewrite reverse_cons, reverse_involutive.
  - intros w Hc. cbn. rewrite toy_complete_spec by done. by exists w.
Defined.

Definition toy_leaf : Node := with_Size (toy_node "f" "file" [[Byte.x0a]; [Byte.x0b]] None) 5.
Definition toy_dump_tree : Tree := mkTree [toy_node "d" "dir" [] (Some [Byte.x02])].
Definition toy_dump_load (ok : bool) (id : ID) : res unit Tree := if ok then Ok (mkTree [toy_leaf]) else Err tt.
Definition toy_below (_ : Node) : list visit :=
  [([Byte.x02], "/"%string, None); ([Byte.x02], "/f"%string, Some toy_leaf)].
Definition toy_placed : Node := placed "/" (toy_node "d" "dir" [] (Some [Byte.x02])).
Definition toy_cache : Cache lru_list := mkCache (mkLru [] 10) 1000 1000.

Lemma toy_state_ok : state_ok toy_blob (fun _ => True) (toy_cache, 0%nat).
Proof.
  split; [|split; [|exact I]].
  - split; cbn; [constructor|reflexivity|discriminate|reflexivity|discriminate].
  - intros id b Hin. by apply elem_of_nil in Hin.
Qed.

Lemma DumpTree_tar_exact_witness :
  exists k s' w', tw_entries (W := toy_tar) w' =
      [(tar_header toy_placed "d", []);
       (tar_header (with_Path toy_leaf "/d/f") "d/f", [Byte.x01; Byte.x02; Byte.x03; Byte.x04; Byte.x05])]
    /\ forall fuel, (k <= fuel)%nat ->
       DumpTree (E := unit) toy_loads tw_Write (toy_dump_load true) id fuel "tar" tw_WriteHeader (fun _ (w : toy_tar) => (w, None)) tw_Close
         toy_dump_tree "/" ((toy_cache, 0%nat), [])
       = Ok ((s', w'), Ok tt).
Proof.
  destruct (DumpTree_tar_exact (W := toy_tar) toy_loads (toy_dump_load true) id toy_blob (fun _ => True) (fun _ (w : toy_tar) => (w, None))
    toy_dump_tree "/" toy_below ["d"; "d/f"]%string (toy_cache, 0%nat) []) as (k & s' & w' & He & Hk).
  - intros node id r _ _ _. by eexists _, _.
  - reflexivity.
  - intros root Hr _. apply list_elem_of_singleton in Hr as ->.
    exists [Byte.x02], (mkTree [toy_leaf]), [([Byte.x02], "/f"%string, Some toy_leaf)].
    split; [reflexivity|]. split; [reflexivity|]. split; [|reflexivity].
    apply (vs_leaf (toy_dump_load true) id [Byte.x02] "/"); [discriminate|discriminate|constructor].
  - apply Forall2_cons. split; [split; [reflexivity|split; [exact I|reflexivity]]|].
    apply Forall2_cons. split; [split; [reflexivity|split; [exact I|reflexivity]]|]. constructor.
  - exact toy_state_ok.
  - exact I.
  - exists k, s', w'. split; [|exact Hk]. rewrite He. vm_compute. reflexivity.
Defined.

(** A directory that cannot be loaded ends the archive early: [DumpTree] reports
    success. *)
Lemma DumpTree_drops_errors : exists s' w',
  DumpTree (E := unit) toy_loads tw_Write (toy_dump_load false) id 5 "tar" tw_WriteHeader (fun _ (w : toy_tar) => (w, None)) tw_Close
    (mkTree [toy_node "d" "dir" [] (Some [Byte.x02]); toy_node "e" "file" [] None]) "/" ((toy_cache, 0%nat), [])
  = Ok ((s', w'), Ok tt) /\ tw_entries (W := toy_tar) w' = [(tar_header toy_placed "d", [])].
Proof. eexists _, _. split; vm_compute; reflexivity. Qed.

(** ** Access control lists *)

Lemma lor_shiftl_add a b k : 0 <= k -> 0 <= b < 2 ^ k -> Z.lor (Z.shiftl a k) b = a * 2 ^ k + b.
Proof.
  intros Hk Hb. assert (Hl : Z.land (Z.shiftl a k) b = 0).
  { apply Z.bits_inj'. intros n Hn. rewrite Z.land_spec, Z.bits_0, Z.shiftl_spec by done.
    destruct (Z.lt_ge_cases n k); [by rewrite Z.testbit_neg_r by lia|].
    rewrite <- (Z.mod_small b (2 ^ k)), Z.mod_pow2_bits_high by lia. apply andb_false_r. }
  rewrite <- Z.lxor_lor, <- Z.add_nocarry_lxor, Z.shiftl_mul_pow2 by done. done.
Qed.

Lemma getType_small sid : 0 <= sid < 2 ^ 64 -> Acl.getType sid = sid / 2 ^ 32.
Proof.
  intros Hs. unfold Acl.getType. rewrite Z.shiftr_div_pow2 by lia. apply i64_small.
  split; [pose proof (Z.div_pos sid (2 ^ 32)); lia|]. apply Z.div_lt_upper_bound; lia.
Qed.
Lemma getID_mod sid : Acl.getID sid = sid mod 2 ^ 32.
Proof.
  unfold Acl.getID, u32. change 0xffffffff with (Z.ones 32). rewrite Z.land_ones by lia. by rewrite Z.mod_mod.
Qed.

Definition acl_elem_ok (e : Acl.aclElement) : Prop := 0 <= Acl.ae_aclSID e < 2 ^ 48 /\ 0 <= Acl.ae_Perm e < 2 ^ 16.

Lemma decode_encode_elem e rest fuel : acl_elem_ok e ->
  Acl.decode_elems (S fuel) (Acl.encode_elem e ++ rest) = e :: Acl.decode_elems fuel rest.
Proof.
  destruct e as [sid perm]. intros [Hs Hp]. cbn [Acl.ae_aclSID Acl.ae_Perm] in *.
  unfold Acl.encode_elem. cbn [Acl.ae_aclSID Acl.ae_Perm].
  assert (Hd : 0 <= sid / 2 ^ 32 < 2 ^ 16) by (split; [apply Z.div_pos; lia|apply Z.div_lt_upper_bound; lia]).
  rewrite getType_small, getID_mod by lia. rewrite (Z.mod_small (sid / 2 ^ 32)) by lia.
  set (t := le_put 2 (sid / 2 ^ 32)). set (p := le_put 2 perm). set (i := le_put 4 (sid mod 2 ^ 32)).
  assert (Ht : length t = 2%nat) by apply le_put_length. assert (Hpl : length p = 2%nat) by apply le_put_length.
  assert (Hil : length i = 4%nat) by apply le_put_length.
  cbn [Acl.decode_elems]. rewrite <- !app_assoc.
  destruct (Nat.ltb_spec (length (t ++ p ++ i ++ rest)) 8) as [Hlt|_]; [rewrite !length_app in Hlt; lia|].
  rewrite take_app_length' by done. rewrite (drop_app_length' t _ 2) by done. rewrite take_app_length' by done.
  rewrite (drop_app_ge t) by lia. replace (4 - length t)%nat with 2%nat by lia. rewrite (drop_app_length' p _ 2) by done.
  rewrite (take_app_length' i) by done. rewrite (drop_app_ge t), (drop_app_ge p), (drop_app_ge i) by lia.
  replace (8 - length t - length p - length i)%nat with 0%nat by lia. rewrite drop_0.
  subst t p i. rewrite !le_get_put. change (256 ^ Z.of_nat 2) with (2 ^ 16). change (256 ^ Z.of_nat 4) with (2 ^ 32).
  rewrite (Z.mod_small (sid / 2 ^ 32)), (Z.mod_small perm), Z.mod_mod by lia.
  rewrite u64_small by (rewrite Z.shiftl_mul_pow2 by lia; lia).
  rewrite lor_shiftl_add by (try lia; apply Z.mod_pos_bound; lia).
  f_equal. f_equal. pose proof (Z.div_mod sid (2 ^ 32)). lia.
Qed.

Lemma acl_decode_encode a0 a : 0 <= Acl.acl_Version a < 2 ^ 32 -> Forall acl_elem_ok (Acl.acl_List a) ->
  Acl.decode_acl a0 (Acl.encode_acl a) = a.
Proof.
  destruct a as [v l]. cbn [Acl.acl_Version Acl.acl_List]. intros Hv Hl. unfold Acl.decode_acl, Acl.encode_acl.
  cbn [Acl.acl_Version Acl.acl_List]. pose proof (le_put_length 4 v) as H4.
  destruct (Nat.ltb_spec (length (le_put 4 v ++ concat (map Acl.encode_elem l))) 4) as [Hlt|_]; [rewrite length_app in Hlt; lia|].
  rewrite take_app_length', drop_app_length' by done. rewrite le_get_put. change (256 ^ Z.of_nat 4) with (2 ^ 32).
  rewrite Z.mod_small by done. f_equal.
  assert (Hf : (length l <= length (le_put 4 v ++ concat (map Acl.encode_elem l)))%nat).
  { rewrite length_app, H4. clear. induction l as [|e l IH]; [cbn; lia|]. cbn [map concat length]. rewrite length_app.
    unfold Acl.encode_elem at 1. rewrite !length_app, !le_put_length. lia. }
  revert Hf. generalize (length (le_put 4 v ++ concat (map Acl.encode_elem l))) as fuel.
  induction Hl as [|e l He _ IH]; intros [|fuel] Hf; cbn [length] in Hf; [done|done|lia|].
  cbn [map concat]. rewrite decode_encode_elem by done. f_equal. apply IH. lia.
Qed.
