(* ===== verification/FileRestorer.v ===== *)
(** * FileRestorer: writing the contents of restored files

    src/internal/restorer/fileswriter.go and filerestorer.go.  The files to
    restore are grouped by the packs that hold their blobs; each pack is
    downloaded once, and its blobs are written to all the files that use them.
    The packs are processed one after the other, the maps ranged over in an
    order that is a parameter.  A panic of the decryption, of a blob that the
    index records shorter than a nonce, ends the restoration as a [Panic]. *)

From S2P Require Import Prelude Crypto Ids Pack IndexMap Index MasterIndex Backend Repository Contents.

(** ** The operating system's files

    [os_WriteAt] writes to an open file; [os_Preallocate] reports no error
    since the code only logs it. *)
Class OS (F : Type) : Type := {
  os_OpenFile : string -> bool -> F -> F * option error;   (** [O_WRONLY], and [O_CREATE|O_TRUNC] if set *)
  os_Preallocate : string -> Z -> F -> F;
  os_WriteAt : string -> list byte -> Z -> F -> F * option error;
  os_Close : string -> F -> F * option error;
}.

(** ** filesWriter *)

Record filesWriterBucket : Type := mkBucket { wb_files : gset string; wb_users : gmap string nat }.
Abbreviation filesWriter := (list filesWriterBucket).

Definition newFilesWriter (count : nat) : filesWriter := replicate count (mkBucket ∅ ∅).

Section files_writer.
Context {F : Type} `{OS F} (xxhash : string -> nat).

Definition wstate : Type := filesWriter * F.

Definition bucket_of (w : filesWriter) (path : string) : nat := (xxhash path mod length w)%nat.

Definition acquireWriter (path : string) (createSize : Z) (st : wstate) : wstate * option error :=
  let '(w, f) := st in
  let b := bucket_of w path in
  match w !! b with
  | None => (st, Some (EMsg "index out of range"))
  | Some bucket =>
      if bool_decide (path ∈ wb_files bucket) then
        ((<[b := mkBucket (wb_files bucket) (<[path := S (default 0%nat (wb_users bucket !! path))]> (wb_users bucket))]> w, f), None)
      else
        match os_OpenFile path (0 <=? createSize) f with
        | (f, Some e) => ((w, f), Some e)
        | (f, None) =>
            let w := <[b := mkBucket (wb_files bucket ∪ {[path]}) (<[path := 1%nat]> (wb_users bucket))]> w in
            ((w, if 0 <=? createSize then os_Preallocate path createSize f else f), None)
        end
  end.

Definition releaseWriter (path : string) (st : wstate) : wstate * option error :=
  let '(w, f) := st in
  let b := bucket_of w path in
  match w !! b with
  | None => (st, Some (EMsg "index out of range"))
  | Some bucket =>
      if bool_decide (default 0%nat (wb_users bucket !! path) = 1%nat) then
        let '(f, err) := os_Close path f in
        ((<[b := mkBucket (wb_files bucket ∖ {[path]}) (delete path (wb_users bucket))]> w, f), err)
      else
        ((<[b := mkBucket (wb_files bucket) (<[path := pred (default 0%nat (wb_users bucket !! path))]> (wb_users bucket))]> w, f), None)
  end.

Definition writeToFile (path : string) (blob : list byte) (offset createSize : Z) (st : wstate) : wstate * option error :=
  match acquireWriter path createSize st with
  | (st, Some e) => (st, Some e)
  | ((w, f), None) =>
      match os_WriteAt path blob offset f with
      | (f, Some e) => ((releaseWriter path (w, f)).1, Some e)
      | (f, None) => releaseWriter path (w, f)
      end
  end.
End files_writer.

(** ** fileRestorer *)

Definition workerCount : nat := 8.
Definition largeFileBlobCount : nat := 25.

Record fileBlobInfo : Type := mkFileBlob { fb_id : ID; fb_offset : Z }.

(** [blobs] is the list of blobs, or for a large file the blobs by pack. *)
Record fileInfo : Type := mkRFile {
  rf_inProgress : bool;
  rf_size : Z;
  rf_location : string;
  rf_blobs : list ID + gmap ID (list fileBlobInfo);
}.

(** A pack's files, by their position in the restorer's list. *)
Record packInfo : Type := mkPackInfo { pi_id : ID; pi_files : gset nat }.

Record blobInfo : Type := mkBlobInfo { bi_offset : Z; bi_length : Z; bi_files : gmap nat (list Z) }.

Section file_restorer.
Context {S F : Type} (be : Backend S) `{OS F} `{CryptoPrims} (Hash : list byte -> ID) (key : Key) (xxhash : string -> nat).
Context (idx : BlobHandle -> list PackedBlob) (dst : string) (Join : string -> string -> string).
Context (ErrorFn : string -> error -> option error).
(** Orders of maps, and [sort.Slice] by the offset. *)
Context (files_order : gset nat -> list nat) (targets_order : gmap nat (list Z) -> list (nat * list Z)).
Context (sort_blobs : gmap ID blobInfo -> list (ID * blobInfo)).

Definition extension : Z := 32.

(** [addFile] and [targetPath]. *)
Definition addFile (files : list fileInfo) (location : string) (content : list ID) (size : Z) : list fileInfo :=
  files ++ [mkRFile false size location (inl content)].
Definition targetPath (location : string) : string := Join dst location.

Fixpoint forEachBlob {A} (blobIDs : list ID) (fn : ID -> Blob -> A -> A) (a : A) : res error A :=
  match blobIDs with
  | [] => Ok a
  | blobID :: blobIDs =>
      match idx (mkHandle blobID DataBlob) with
      | [] => Err (EMsg "Unknown blob")
      | p :: _ => forEachBlob blobIDs fn (fn (pb_PackID p) (pb_Blob p) a)
      end
  end.

(** The first loop of [restoreFiles]: the packs and their order of first
    use. *)
Definition packs_state : Type := gmap ID packInfo * list ID.
Definition add_pack (file : nat) (packID : ID) (st : packs_state) : packs_state :=
  let '(packs, packOrder) := st in
  let '(pack, packOrder) := match packs !! packID with
    | Some pack => (pack, packOrder)
    | None => (mkPackInfo packID ∅, packOrder ++ [packID]) end in
  (<[packID := mkPackInfo (pi_id pack) (pi_files pack ∪ {[file]})]> packs, packOrder).

Definition scan_blob (large : bool) (i : nat) (packID : ID) (blob : Blob)
  (a : gmap ID (list fileBlobInfo) * Z * packs_state) : gmap ID (list fileBlobInfo) * Z * packs_state :=
  let '(packsMap, fileOffset, st) := a in
  let '(packsMap, fileOffset) :=
    if large then (<[packID := default [] (packsMap !! packID) ++ [mkFileBlob (b_ID blob) fileOffset]]> packsMap,
                   fileOffset + (b_Length blob - extension))
    else (packsMap, fileOffset) in
  (packsMap, fileOffset, add_pack i packID st).

Definition scan_file (i : nat) (file : fileInfo) (st : packs_state) : res error (fileInfo * packs_state) :=
  match rf_blobs file with
  | inr _ => Panic "interface conversion"
  | inl fileBlobs =>
      let large := (largeFileBlobCount <? length fileBlobs)%nat in
      '(packsMap, _, st) ← forEachBlob fileBlobs (scan_blob large i) (∅, 0, st);
      Ok (if large then mkRFile (rf_inProgress file) (rf_size file) (rf_location file) (inr packsMap) else file, st)
  end.

Fixpoint scan_files (i : nat) (files : list fileInfo) (st : packs_state) : res error (list fileInfo * packs_state) :=
  match files with
  | [] => Ok ([], st)
  | file :: files =>
      '(file, st) ← scan_file i file st;
      '(files, st) ← scan_files (Datatypes.S i) files st;
      Ok (file :: files, st)
  end.

(** The byte range of a pack and its blobs. *)
Record range_state : Type := mkRange { rs_start : Z; rs_end : Z; rs_blobs : gmap ID blobInfo }.
Definition maxInt64 : Z := 2 ^ 63 - 1.

Definition addBlob (file : nat) (blob : Blob) (fileOffset : Z) (st : range_state) : range_state :=
  let start := if b_Offset blob <? rs_start st then b_Offset blob else rs_start st in
  let end_ := if rs_end st <? b_Offset blob + b_Length blob then b_Offset blob + b_Length blob else rs_end st in
  let info := default (mkBlobInfo (b_Offset blob) (b_Length blob) ∅) (rs_blobs st !! b_ID blob) in
  let offsets := default [] (bi_files info !! file) ++ [fileOffset] in
  mkRange start end_ (<[b_ID blob := mkBlobInfo (bi_offset info) (bi_length info) (<[file := offsets]> (bi_files info))]> (rs_blobs st)).

Definition collect_small (pack : ID) (i : nat) (packID : ID) (blob : Blob) (a : range_state * Z) : range_state * Z :=
  let '(st, fileOffset) := a in
  (if Equal packID pack then addBlob i blob fileOffset st else st, fileOffset + (b_Length blob - extension)).
Definition collect_large (pack : ID) (i : nat) (st : range_state) (blob : fileBlobInfo) : range_state :=
  match list_find (fun p => Equal (pb_PackID p) pack = true) (idx (mkHandle (fb_id blob) DataBlob)) with
  | Some (_, p) => addBlob i (pb_Blob p) (fb_offset blob) st
  | None => st
  end.
Definition collect_file (pack : ID) (i : nat) (file : fileInfo) (st : range_state) : res error range_state :=
  match rf_blobs file with
  | inl fileBlobs =>
      match forEachBlob fileBlobs (collect_small pack i) (st, 0) with
      | Ok (st, _) => Ok st
      | Err _ => Panic "Unknown blob"
      | Panic m => Panic m
      end
  | inr packsMap => Ok (fold_left (collect_large pack i) (default [] (packsMap !! pack)) st)
  end.
Fixpoint collect_files (pack : ID) (files : list fileInfo) (l : list nat) (st : range_state) : res error range_state :=
  match l with
  | [] => Ok st
  | i :: l =>
      match files !! i with
      | None => Panic "invalid memory address or nil pointer dereference"
      | Some file => st ← collect_file pack i file st; collect_files pack files l st
      end
  end.

(** The client state of the download: the files and the operating system's. *)
Definition dlstate : Type := list fileInfo * wstate (F := F).

Definition sanitizeError (file : fileInfo) (err : option error) : option error :=
  match err with None => None | Some e => ErrorFn (rf_location file) e end.

(** The rest of the reader, buffered. *)
Definition Discard (n : Z) (rd : Reader) : Reader * option error :=
  if n <? 0 then (rd, Some (EMsg "bufio: negative count"))
  else if lenZ (rd_bytes rd) <? n then (mkReader [] (rd_err rd) (rd_close rd), Some (default EEOF (rd_err rd)))
  else (mkReader (drop (Z.to_nat n) (rd_bytes rd)) (rd_err rd) (rd_close rd), None).

Definition downloadBlob (rd : Reader) (length_ : Z) : Reader * (list byte + error) :=
  let '(buf, err) := ReadFull rd (Z.to_nat length_) in
  let rd := mkReader (drop (Z.to_nat length_) (rd_bytes rd)) (rd_err rd) (rd_close rd) in
  match err with
  | Some e => (rd, inr e)
  | None => if bool_decide (lenZ buf ≠ length_) then (rd, inr (EMsg "wrong length returned")) else (rd, inl buf)
  end.

Definition decryptBlob (blobID : ID) (buf : list byte) : res error (list byte) :=
  match decrypt key buf with
  | Panic m => Panic m
  | Err _ => Err (EMsg "decrypting blob failed")
  | Ok plaintext => if negb (Equal (Hash plaintext) blobID) then Err (EMsg "returned invalid hash") else Ok plaintext
  end.

Definition set_inProgress (file : fileInfo) : fileInfo := mkRFile true (rf_size file) (rf_location file) (rf_blobs file).

(** [writeToFile] of a blob; the first write creates the file. *)
Definition write_blob (i : nat) (blobData : list byte) (offset : Z) (st : dlstate) : dlstate * option error :=
  let '(files, w) := st in
  match files !! i with
  | None => (st, Some (EMsg "nil pointer dereference"))
  | Some file =>
      let createSize := if rf_inProgress file then -1 else rf_size file in
      let '(w, err) := writeToFile xxhash (targetPath (rf_location file)) blobData offset createSize w in
      ((<[i := set_inProgress file]> files, w), sanitizeError file err)
  end.
Fixpoint write_offsets (i : nat) (blobData : list byte) (offsets : list Z) (st : dlstate) : dlstate * option error :=
  match offsets with
  | [] => (st, None)
  | offset :: offsets =>
      match write_blob i blobData offset st with
      | (st, Some e) => (st, Some e)
      | (st, None) => write_offsets i blobData offsets st
      end
  end.
Fixpoint write_targets (blobData : list byte) (targets : list (nat * list Z)) (st : dlstate) : dlstate * option error :=
  match targets with
  | [] => (st, None)
  | (i, offsets) :: targets =>
      match write_offsets i blobData offsets st with
      | (st, Some e) => (st, Some e)
      | (st, None) => write_targets blobData targets st
      end
  end.
(** The error is reported for each file; [None] if it was ignored for all. *)
Fixpoint report_files (files : list fileInfo) (l : list nat) (err : error) : option error :=
  match l with
  | [] => None
  | i :: l =>
      match files !! i with
      | None => report_files files l err
      | Some file => match sanitizeError file (Some err) with Some e => Some e | None => report_files files l err end
      end
  end.

(** The loop over the blobs of a pack, in the order of their offsets.  A blob
    shorter than a nonce makes the decryption panic. *)
Fixpoint download_blobs (blobs : list (ID * blobInfo)) (currentBlobEnd : Z) (rd : Reader) (st : dlstate) : dlstate * res error unit :=
  match blobs with
  | [] => (st, Ok tt)
  | (blobID, blob) :: blobs =>
      match Discard (bi_offset blob - currentBlobEnd) rd with
      | (_, Some e) => (st, Err e)
      | (rd, None) =>
          match downloadBlob rd (bi_length blob) with
          | (_, inr e) => (st, Err e)
          | (rd, inl buf) =>
              match decryptBlob blobID buf with
              | Panic m => (st, Panic m)
              | Err e =>
                  match report_files st.1 (map fst (targets_order (bi_files blob))) e with
                  | Some e => (st, Err e)
                  | None => download_blobs blobs currentBlobEnd rd st
                  end
              | Ok blobData =>
                  match write_targets blobData (targets_order (bi_files blob)) st with
                  | (st, Some e) => (st, Err e)
                  | (st, None) => download_blobs blobs (bi_offset blob + bi_length blob) rd st
                  end
              end
          end
      end
  end.

(** The callback of a download.  The second part of its state is the panic
    in flight; nothing runs after it. *)
Definition pack_callback (blobs : list (ID * blobInfo)) (start : Z) : callback Reader (dlstate * option string) := fun rd '(st, panicked) =>
  match panicked with
  | Some m => ((st, Some m), Some (EMsg m))
  | None =>
      match download_blobs blobs start rd st with
      | (st, Ok _) => ((st, None), None)
      | (st, Err e) => ((st, None), Some e)
      | (st, Panic m) => ((st, Some m), Some (EMsg m))
      end
  end.

Definition downloadPack (pack : packInfo) (st : dlstate) (s : S) : S * dlstate * res error unit :=
  match collect_files (pi_id pack) st.1 (files_order (pi_files pack)) (mkRange maxInt64 0 ∅) with
  | Err e => (s, st, Err e)
  | Panic m => (s, st, Panic m)
  | Ok (mkRange start end_ blobs) =>
      let h := mkBeHandle PackFile DataBlob (ID_String (pi_id pack)) in
      let '(s, (st, panicked), err) := be_Load be false h (end_ - start) start (pack_callback (sort_blobs blobs) start) (st, None) s in
      match panicked, err with
      | Some m, _ => (s, st, Panic m)
      | None, None => (s, st, Ok tt)
      | None, Some e =>
          match report_files st.1 (files_order (pi_files pack)) e with
          | Some e => (s, st, Err e)
          | None => (s, st, Ok tt)
          end
      end
  end.

Fixpoint download_packs (packs : gmap ID packInfo) (packOrder : list ID) (st : dlstate) (s : S) : S * dlstate * res error unit :=
  match packOrder with
  | [] => (s, st, Ok tt)
  | id :: packOrder =>
      match packs !! id with
      | None => (s, st, Panic "invalid memory address or nil pointer dereference")
      | Some pack =>
          match downloadPack pack st s with
          | (s, st, Ok _) => download_packs packs packOrder st s
          | (s, st, Err e) => (s, st, Err e)
          | (s, st, Panic m) => (s, st, Panic m)
          end
      end
  end.

Definition restoreFiles (files : list fileInfo) (f : F) (s : S) : S * dlstate * res error unit :=
  let w := (newFilesWriter workerCount, f) in
  match scan_files 0 files (∅, []) with
  | Err e => (s, (files, w), Err e)
  | Panic m => (s, (files, w), Panic m)
  | Ok (files, (packs, packOrder)) => download_packs packs packOrder (files, w) s
  end.
End file_restorer.

(** ** Ranges of a file *)

Definition zeros (n : nat) : list byte := replicate n Byte.x00.
(** The contents after a write at [off]. *)
Definition write_range (d : list byte) (off : nat) (b : list byte) : list byte :=
  take off (d ++ zeros (off - length d)) ++ b ++ drop (off + length b) d.
(** [b] is what [d] has at [off]. *)
Definition range_is (d : list byte) (off : nat) (b : list byte) : Prop :=
  forall j, (j < length b)%nat -> d !! (off + j)%nat = b !! j.

Lemma write_range_length d off b : length (write_range d off b) = (length d `max` (off + length b))%nat.
Proof. unfold write_range, zeros. rewrite !length_app, length_take, length_app, length_replicate, length_drop. lia. Qed.

Lemma write_range_at d off b : range_is (write_range d off b) off b.
Proof.
  intros j Hj. unfold write_range, zeros.
  assert (length (take off (d ++ replicate (off - length d) Byte.x00)) = off) as Hl
    by (rewrite length_take, length_app, length_replicate; lia).
  rewrite lookup_app_r, Hl by lia. rewrite lookup_app_l by lia. f_equal. lia.
Qed.

Lemma write_range_other d off b off' b' : range_is d off' b' -> (off' + length b' <= length d)%nat ->
  (off' + length b' <= off \/ off + length b <= off')%nat -> range_is (write_range d off b) off' b'.
Proof.
  intros Hr Hd Ho j Hj. rewrite <- (Hr j Hj). unfold write_range, zeros.
  assert (length (take off (d ++ replicate (off - length d) Byte.x00)) = off) as Hl
    by (rewrite length_take, length_app, length_replicate; lia).
  destruct Ho.
  - rewrite lookup_app_l by lia. rewrite lookup_take_lt by lia. by rewrite lookup_app_l by lia.
  - rewrite lookup_app_r, Hl by lia. rewrite lookup_app_r by lia. rewrite lookup_drop. f_equal. lia.
Qed.

Section pieces.
Context (blob : ID -> list byte).

(** The blobs of a file with their offsets. *)
Fixpoint pieces (ids : list ID) (off : nat) : list (ID * nat) :=
  match ids with [] => [] | id :: ids => (id, off) :: pieces ids (off + length (blob id)) end.

Lemma pieces_bounds ids off id o : (id, o) ∈ pieces ids off ->
  (off <= o /\ o + length (blob id) <= off + length (contents blob ids))%nat /\ id ∈ ids.
Proof.
  revert off. induction ids as [|id' ids IH]; intros off; cbn [pieces]; [by intros ?%elem_of_nil|].
  unfold contents. cbn [map concat]. rewrite length_app. fold (contents blob ids).
  intros [[= -> ->]|Hin]%elem_of_cons; [split; [lia|by left]|].
  destruct (IH _ Hin) as [Hb Hi]. split; [lia|by right].
Qed.

Lemma pieces_elem ids off id : id ∈ ids -> exists o, (id, o) ∈ pieces ids off.
Proof.
  revert off. induction ids as [|id' ids IH]; intros off; [by intros ?%elem_of_nil|].
  intros [->|Hin]%elem_of_cons; [exists off; by left|]. destruct (IH (off + length (blob id'))%nat Hin) as [o Ho].
  exists o. by right.
Qed.

Lemma pieces_disjoint ids off id1 o1 id2 o2 : (id1, o1) ∈ pieces ids off -> (id2, o2) ∈ pieces ids off ->
  (id1 = id2 /\ o1 = o2) \/ (o1 + length (blob id1) <= o2 \/ o2 + length (blob id2) <= o1)%nat.
Proof.
  revert off. induction ids as [|id ids IH]; intros off; cbn [pieces]; [by intros ?%elem_of_nil|].
  intros [[= -> ->]|H1]%elem_of_cons [[= -> ->]|H2]%elem_of_cons; [auto| | |by eapply IH].
  - destruct (pieces_bounds _ _ _ _ H2) as [? _]. lia.
  - destruct (pieces_bounds _ _ _ _ H1) as [? _]. lia.
Qed.

Lemma pieces_cover ids off d : (forall id o, (id, o) ∈ pieces ids off -> range_is d o (blob id)) ->
  range_is d off (contents blob ids).
Proof.
  revert off. induction ids as [|id ids IH]; intros off Hp; [intros j Hj; cbn in Hj; lia|].
  assert (H1 : range_is d off (blob id)) by (apply Hp; by left).
  assert (H2 : range_is d (off + length (blob id)) (contents blob ids)).
  { apply IH. intros id' o Hin. apply Hp. by right. }
  intros j. change (contents blob (id :: ids)) with (blob id ++ contents blob ids). rewrite length_app. intros Hj.
  destruct (decide (j < length (blob id))%nat).
  - rewrite lookup_app_l by done. by apply H1.
  - rewrite lookup_app_r by lia. rewrite <- H2 by lia. f_equal. lia.
Qed.

Lemma pieces_exact ids d : (forall id o, (id, o) ∈ pieces ids 0 -> range_is d o (blob id)) ->
  (length d <= length (contents blob ids))%nat -> d = contents blob ids.
Proof.
  intros Hp Hl. pose proof (pieces_cover ids 0 d Hp) as Hr. apply list_eq. intros j.
  destruct (decide (j < length (contents blob ids))%nat) as [Hj|Hj]; [by apply Hr|].
  rewrite !lookup_ge_None_2 by lia. done.
Qed.
End pieces.

(** ** The promises of the operating system

    [os_writable] are the paths that can be created and written; an operation
    touches no other file. *)
Class OSLaws (F : Type) `{OS F} : Type := {
  os_file : F -> string -> option (list byte);
  os_writable : string -> Prop;
  os_create p f : os_writable p -> exists f', os_OpenFile p true f = (f', None) /\ os_file f' p = Some []
    /\ forall q, q ≠ p -> os_file f' q = os_file f q;
  os_open p f d : os_writable p -> os_file f p = Some d -> exists f', os_OpenFile p false f = (f', None)
    /\ forall q, os_file f' q = os_file f q;
  os_preallocate p size f d : os_file f p = Some d -> exists n, os_file (os_Preallocate p size f) p = Some (d ++ zeros n)
    /\ (Z.of_nat (length d + n) <= Z.max (lenZ d) size)
    /\ forall q, q ≠ p -> os_file (os_Preallocate p size f) q = os_file f q;
  os_write p f d off b : os_writable p -> os_file f p = Some d -> 0 <= off ->
    exists f', os_WriteAt p b off f = (f', None) /\ os_file f' p = Some (write_range d (Z.to_nat off) b)
    /\ forall q, q ≠ p -> os_file f' q = os_file f q;
  os_close p f : exists f', os_Close p f = (f', None) /\ forall q, os_file f' q = os_file f q;
}.

Section write_spec.
Context {F : Type} `{OSLaws F} (xxhash : string -> nat).

(** No file is open. *)
Definition idle (w : filesWriter) : Prop := w ≠ [] /\ forall b, b ∈ w -> b = mkBucket ∅ ∅.

Lemma idle_bucket w path : idle w -> w !! bucket_of xxhash w path = Some (mkBucket ∅ ∅).
Proof.
  intros [Hne Hall]. unfold bucket_of. destruct (lookup_lt_is_Some_2 w (xxhash path mod length w)) as [b Hb].
  { apply Nat.mod_upper_bound. by destruct w. }
  etrans; [exact Hb|]. f_equal. apply Hall. by eapply list_elem_of_lookup_2.
Qed.
Lemma bucket_of_insert w path i b : bucket_of xxhash (<[i := b]> w) path = bucket_of xxhash w path.
Proof. unfold bucket_of. by rewrite length_insert. Qed.

Lemma idle_new n : (0 < n)%nat -> idle (newFilesWriter n).
Proof. intros Hn. split; [by destruct n; [lia|]|]. intros b Hb. unfold newFilesWriter in Hb. by apply elem_of_replicate in Hb as [-> _]. Qed.

(** A write: the file is created first if [create] is set, else it exists;
    afterwards no file is open. *)
Lemma writeToFile_spec w f path b off createSize d : idle w -> os_writable path -> 0 <= off ->
  (if 0 <=? createSize then d = [] else os_file f path = Some d) ->
  exists f' n, writeToFile xxhash path b off createSize (w, f) = ((w, f'), None)
    /\ os_file f' path = Some (write_range (d ++ zeros n) (Z.to_nat off) b)
    /\ (Z.of_nat (length d + n) <= Z.max (lenZ d) createSize)
    /\ forall q, q ≠ path -> os_file f' q = os_file f q.
Proof.
  intros Hw Hp Hoff Hd. pose proof (idle_bucket w path Hw) as Hb.
  assert (Hacq : exists f1 n, acquireWriter xxhash path createSize (w, f)
      = ((<[bucket_of xxhash w path := mkBucket {[path]} {[path := 1%nat]}]> w, f1), None)
    /\ os_file f1 path = Some (d ++ zeros n) /\ (Z.of_nat (length d + n) <= Z.max (lenZ d) createSize)
    /\ forall q, q ≠ path -> os_file f1 q = os_file f q).
  { unfold acquireWriter. rewrite Hb. cbn [wb_files wb_users]. rewrite bool_decide_eq_false_2 by set_solver.
    rewrite (union_empty_l_L {[path]}), insert_empty. destruct (Z.leb_spec 0 createSize) as [Hc|Hc].
    - destruct (os_create path f Hp) as (f1 & -> & H1 & Ho).
      destruct (os_preallocate path createSize f1 [] H1) as (n & H2 & Hn & Ho2). subst d.
      eexists _, n. split; [reflexivity|]. split; [done|]. split; [done|]. intros q Hq. by rewrite Ho2, Ho.
    - destruct (os_open path f d Hp Hd) as (f1 & -> & Ho).
      exists f1, 0%nat. split; [reflexivity|]. rewrite Ho. cbn [zeros replicate]. rewrite app_nil_r.
      split; [done|]. split; [lia|]. intros q _. apply Ho. }
  destruct Hacq as (f1 & n & Ea & H1 & Hn & Ho1). unfold writeToFile. rewrite Ea.
  destruct (os_write path f1 _ off b Hp H1 Hoff) as (f2 & -> & H2 & Ho2).
  unfold releaseWriter. rewrite bucket_of_insert, list_lookup_insert_eq by (eapply lookup_lt_Some; exact Hb).
  cbn [wb_users wb_files]. rewrite lookup_singleton_eq. cbn [default].
  rewrite bool_decide_eq_true_2 by done. destruct (os_close path f2) as (f3 & -> & Ho3).
  rewrite list_insert_insert_eq, difference_diag_L, delete_singleton_eq, list_insert_id by done.
  exists f3, n. split; [done|]. rewrite Ho3. split; [done|]. split; [done|]. intros q Hq. by rewrite Ho3, Ho2, Ho1.
Qed.
End write_spec.

(** ** What the restorer relies on *)

Section collect_spec.
Context {S : Type} {CP : CryptoPrims} (Hash : list byte -> ID) (key : Key) (idx : BlobHandle -> list PackedBlob).
Context (norm : Handle -> Handle) (stored : S -> Handle -> option (list byte)).

(** The data of the blobs, and the state of the backend. *)
Context (blob : ID -> list byte) (s0 : S).

Definition pack_handle (k : ID) : Handle := mkBeHandle PackFile DataBlob (ID_String k).

(** An entry of the index for [id]: its pack is stored, and has the sealed
    blob where the entry says. *)
Definition entry_ok (id : ID) (p : PackedBlob) : Prop :=
  b_ID (pb_Blob p) = id /\ b_Length (pb_Blob p) = lenZ (blob id) + 32 /\ 0 <= b_Offset (pb_Blob p)
  /\ Handle_Valid (pack_handle (pb_PackID p)) = None
  /\ exists file, stored s0 (norm (pack_handle (pb_PackID p))) = Some file
     /\ (b_Offset (pb_Blob p) + b_Length (pb_Blob p) <= lenZ file /\ b_Offset (pb_Blob p) + b_Length (pb_Blob p) < maxInt64)
     /\ decrypt key (take (Z.to_nat (b_Length (pb_Blob p))) (drop (Z.to_nat (b_Offset (pb_Blob p))) file)) = Ok (blob id)
     /\ Hash (blob id) = id.
Definition known (id : ID) : Prop :=
  idx (mkHandle id DataBlob) ≠ [] /\ forall p, p ∈ idx (mkHandle id DataBlob) -> entry_ok id p.

Definition ids_of (f : fileInfo) : list ID := match rf_blobs f with inl ids => ids | inr _ => [] end.

(** The files to restore. *)
Context (input : list fileInfo).
Context (input_known : forall i f id, input !! i = Some f -> id ∈ ids_of f -> known id).

Definition first (id : ID) : PackedBlob :=
  default (mkPacked (mkBlob (mkHandle id DataBlob) 0 0) nullID) (head (idx (mkHandle id DataBlob))).
Definition pack_of (id : ID) : ID := pb_PackID (first id).

Lemma first_elem id : known id -> first id ∈ idx (mkHandle id DataBlob).
Proof. intros [Hne _]. unfold first. destruct (idx _); [done|by left]. Qed.
Lemma known_first id : known id -> entry_ok id (first id).
Proof. intros Hk. by apply Hk, first_elem. Qed.

Lemma forEachBlob_fold {A} (fn : ID -> Blob -> A -> A) ids a : (forall id, id ∈ ids -> known id) ->
  forEachBlob idx ids fn a = Ok (fold_left (fun a id => fn (pack_of id) (pb_Blob (first id)) a) ids a).
Proof.
  revert a. induction ids as [|id ids IH]; intros a Hk; [done|]. cbn [forEachBlob fold_left].
  assert (Hi : known id) by (apply Hk; by left). unfold pack_of at 2, first at 2 3.
  destruct Hi as [Hne _]. destruct (idx (mkHandle id DataBlob)) as [|p l]; [done|]. cbn [head default].
  apply IH. intros id' Hid. apply Hk. by right.
Qed.

(** *** The first loop *)

Record packs_ok (D : nat -> ID -> Prop) (st : packs_state) : Prop := {
  po_order k : k ∈ st.2 <-> is_Some (st.1 !! k);
  po_id k pack : st.1 !! k = Some pack -> pi_id pack = k;
  po_files i k : D i k <-> exists pack, st.1 !! k = Some pack /\ i ∈ pi_files pack;
  po_used k pack : st.1 !! k = Some pack -> exists i, i ∈ pi_files pack;
}.

Lemma packs_ok_ext (D D' : nat -> ID -> Prop) st : (forall i k, D i k <-> D' i k) -> packs_ok D st -> packs_ok D' st.
Proof. intros HD [H1 H2 H3 H4]. split; [done|done| |done]. intros i k. by rewrite <- HD, H3. Qed.

Lemma add_pack_ok D i id st : packs_ok D st ->
  packs_ok (fun j k => D j k \/ (j = i /\ k = id)) (add_pack i id st).
Proof.
  destruct st as [packs order]. intros [H1 H2 H3 H4]. cbn [fst snd] in *. unfold add_pack.
  destruct (packs !! id) as [pack|] eqn:E.
  - pose proof (H2 _ _ E) as Hpid. split; cbn [fst snd].
    + intros k. rewrite H1. destruct (decide (k = id)) as [->|Hne]; [rewrite lookup_insert_eq, E; naive_solver|by rewrite lookup_insert_ne].
    + intros k p. destruct (decide (k = id)) as [->|Hne]; [|rewrite lookup_insert_ne by done; apply H2].
      rewrite lookup_insert_eq. intros [= <-]. done.
    + intros j k. rewrite H3. destruct (decide (k = id)) as [->|Hne].
      * rewrite lookup_insert_eq. split.
        -- intros [(p & Hp & Hj)|[-> _]]; [rewrite E in Hp; injection Hp as <-|]; eexists; (split; [reflexivity|set_solver]).
        -- intros (p & [= <-] & Hj). cbn in Hj. apply elem_of_union in Hj as [Hj|Hj%elem_of_singleton]; [left; by exists pack|auto].
      * rewrite lookup_insert_ne by done. naive_solver.
    + intros k p. destruct (decide (k = id)) as [->|Hne]; [|rewrite lookup_insert_ne by done; apply H4].
      rewrite lookup_insert_eq. intros [= <-]. exists i. cbn. set_solver.
  - split; cbn [fst snd].
    + intros k. rewrite elem_of_app, list_elem_of_singleton, H1.
      destruct (decide (k = id)) as [->|Hne]; [rewrite lookup_insert_eq; naive_solver|rewrite lookup_insert_ne by done; naive_solver].
    + intros k p. destruct (decide (k = id)) as [->|Hne]; [|rewrite lookup_insert_ne by done; apply H2].
      rewrite lookup_insert_eq. by intros [= <-].
    + intros j k. rewrite H3. destruct (decide (k = id)) as [->|Hne].
      * rewrite lookup_insert_eq. split.
        -- intros [(p & Hp & Hj)|[-> _]]; [congruence|]. eexists; (split; [reflexivity|set_solver]).
        -- intros (p & [= <-] & Hj). cbn in Hj. set_solver.
      * rewrite lookup_insert_ne by done. naive_solver.
    + intros k p. destruct (decide (k = id)) as [->|Hne]; [|rewrite lookup_insert_ne by done; apply H4].
      rewrite lookup_insert_eq. intros [= <-]. exists i. cbn. set_solver.
Qed.

(** The blobs of a large file that are in pack [k]. *)
Definition in_pack (k : ID) (ps : list (ID * nat)) : list fileBlobInfo :=
  map (fun x => mkFileBlob x.1 (Z.of_nat x.2)) (filter (fun x => pack_of x.1 = k) ps).

Lemma scan_blobs_spec large i ids : (forall id, id ∈ ids -> known id) -> forall pm off D st, packs_ok D st ->
  exists pm' off' st', fold_left (fun a id => scan_blob large i (pack_of id) (pb_Blob (first id)) a) ids (pm, Z.of_nat off, st) = (pm', off', st')
    /\ packs_ok (fun j k => D j k \/ (j = i /\ exists id, id ∈ ids /\ pack_of id = k)) st'
    /\ (large = true -> forall k, default [] (pm' !! k) = default [] (pm !! k) ++ in_pack k (pieces blob ids off)).
Proof.
  induction ids as [|id ids IH]; intros Hk pm off D st Hst; cbn [fold_left].
  { eexists _, _, _. split; [reflexivity|]. split.
    - eapply packs_ok_ext; [|exact Hst]. intros j k. split; [auto|]. intros [?|(_ & x & Hx & _)]; [done|by apply elem_of_nil in Hx].
    - intros _ k. cbn. by rewrite app_nil_r. }
  destruct (known_first id (Hk id ltac:(by left))) as (Hid & Hlen & _).
  assert (Hk' : forall id, id ∈ ids -> known id) by (intros; apply Hk; by right).
  unfold scan_blob at 2. rewrite Hid, Hlen. change extension with 32.
  pose proof (add_pack_ok D i (pack_of id) st Hst) as Hst1.
  assert (HD : forall j k, ((D j k \/ (j = i /\ k = pack_of id)) \/ (j = i /\ exists id', id' ∈ ids /\ pack_of id' = k))
    <-> (D j k \/ (j = i /\ exists id', id' ∈ id :: ids /\ pack_of id' = k))).
  { intros j k. setoid_rewrite elem_of_cons. naive_solver. }
  destruct large.
  - replace (Z.of_nat off + (lenZ (blob id) + 32 - 32)) with (Z.of_nat (off + length (blob id))%nat) by lia.
    destruct (IH Hk' (<[pack_of id := default [] (pm !! pack_of id) ++ [mkFileBlob id (Z.of_nat off)]]> pm)
      (off + length (blob id))%nat _ _ Hst1) as (pm' & off' & st' & -> & Hp & Hm).
    eexists _, _, _. split; [reflexivity|]. split; [exact (packs_ok_ext _ _ _ HD Hp)|].
    intros _ k. rewrite Hm by done. cbn [pieces]. unfold in_pack at 2. rewrite filter_cons. cbn [fst].
    destruct (decide (pack_of id = k)) as [->|Hne].
    + rewrite lookup_insert_eq. cbn [from_option map fst snd]. unfold Datatypes.id. by rewrite <- app_assoc.
    + by rewrite lookup_insert_ne.
  - destruct (IH Hk' pm off _ _ Hst1) as (pm' & off' & st' & -> & Hp & _).
    eexists _, _, _. split; [reflexivity|]. split; [exact (packs_ok_ext _ _ _ HD Hp)|done].
Qed.

(** A file after the first loop. *)
Definition scanned (f f' : fileInfo) : Prop :=
  rf_size f' = rf_size f /\ rf_location f' = rf_location f
  /\ match rf_blobs f' with
     | inl ids => ids = ids_of f
     | inr m => forall k, default [] (m !! k) = in_pack k (pieces blob (ids_of f) 0)
     end.

Lemma scan_file_spec i f D st : (exists ids, rf_blobs f = inl ids) -> (forall id, id ∈ ids_of f -> known id) -> packs_ok D st ->
  exists f' st', scan_file idx i f st = Ok (f', st') /\ (scanned f f' /\ rf_inProgress f' = rf_inProgress f)
    /\ packs_ok (fun j k => D j k \/ (j = i /\ exists id, id ∈ ids_of f /\ pack_of id = k)) st'.
Proof.
  intros [ids Hb] Hk Hst. unfold scan_file, ids_of in *. rewrite Hb in *.
  rewrite forEachBlob_fold by done. cbn [mbind res_bind].
  destruct (scan_blobs_spec (largeFileBlobCount <? length ids)%nat i ids Hk ∅ 0%nat D st Hst) as (pm & off & st' & E & Hp & Hm).
  change (Z.of_nat 0) with 0 in E. rewrite E. eexists _, _. split; [reflexivity|]. split; [|done].
  destruct (largeFileBlobCount <? length ids)%nat eqn:El; unfold scanned; cbn; rewrite ?Hb; [|by unfold ids_of; rewrite Hb]. split; [|done]. split; [done|]. split; [done|].
  intros k. rewrite Hm by done. unfold ids_of. by rewrite Hb, lookup_empty.
Qed.

Lemma scan_files_spec files : forall i D st,
  (forall m f, files !! m = Some f -> (exists ids, rf_blobs f = inl ids) /\ forall id, id ∈ ids_of f -> known id) -> packs_ok D st ->
  exists files' st', scan_files idx i files st = Ok (files', st') /\ Forall2 (fun f f' => scanned f f' /\ rf_inProgress f' = rf_inProgress f) files files'
    /\ packs_ok (fun j k => D j k \/ exists m f, files !! m = Some f /\ j = (i + m)%nat /\ exists id, id ∈ ids_of f /\ pack_of id = k) st'.
Proof.
  induction files as [|f files IH]; intros i D st Hf Hst; cbn [scan_files].
  { eexists _, _. split; [reflexivity|]. split; [constructor|]. eapply packs_ok_ext; [|exact Hst]. intros j k. naive_solver. }
  destruct (Hf 0%nat f eq_refl) as [Hb Hk]. destruct (scan_file_spec i f D st Hb Hk Hst) as (f' & st1 & -> & Hs & Hst1).
  cbn [mbind res_bind]. destruct (IH (Datatypes.S i) _ st1 (fun m g Hm => Hf (Datatypes.S m) g Hm) Hst1) as (fs' & st' & -> & HF & Hst').
  eexists _, _. cbn [mbind res_bind]. split; [reflexivity|]. split; [by constructor|].
  eapply packs_ok_ext; [|exact Hst']. intros j k. split.
  - intros [[HD|(-> & Hid)]|(m & g & Hm & -> & Hid)]; [auto| |].
    + right. exists 0%nat, f. split; [done|]. split; [lia|done].
    + right. exists (Datatypes.S m), g. split; [done|]. split; [lia|done].
  - intros [HD|([|m] & g & Hm & -> & Hid)]; [auto| |].
    + injection Hm as <-. left. right. split; [lia|done].
    + right. exists m, g. split; [done|]. split; [lia|done].
Qed.

(** *** The blobs to download from a pack *)

(** [W i id o]: the blob [id] is to be written to file [i] at [o]. *)
Record range_ok (k : ID) (W : nat -> ID -> nat -> Prop) (st : range_state) : Prop := {
  ro_pieces i id o : W i id o <-> exists info, rs_blobs st !! id = Some info /\ Z.of_nat o ∈ default [] (bi_files info !! i);
  ro_nonneg i id info z : rs_blobs st !! id = Some info -> z ∈ default [] (bi_files info !! i) -> 0 <= z;
  ro_entry id info : rs_blobs st !! id = Some info -> exists p, p ∈ idx (mkHandle id DataBlob) /\ known id /\ pb_PackID p = k
    /\ bi_offset info = b_Offset (pb_Blob p) /\ bi_length info = b_Length (pb_Blob p)
    /\ rs_start st <= bi_offset info /\ bi_offset info + bi_length info <= rs_end st;
  ro_start : 0 <= rs_start st;
  ro_end file : stored s0 (norm (pack_handle k)) = Some file -> rs_end st <= lenZ file;
}.

Lemma range_ok_ext k (W W' : nat -> ID -> nat -> Prop) st : (forall i id o, W i id o <-> W' i id o) -> range_ok k W st -> range_ok k W' st.
Proof. intros HW [R1 R2 R3 R4 R5]. split; [|done..]. intros i id o. by rewrite <- HW, R1. Qed.

Lemma range_ok_empty k : range_ok k (fun _ _ _ => False) (mkRange maxInt64 0 ∅).
Proof.
  split; cbn.
  - intros i id o. rewrite lookup_empty. naive_solver.
  - intros i id info z. by rewrite lookup_empty.
  - intros id info. by rewrite lookup_empty.
  - done.
  - lia.
Qed.

Lemma addBlob_ok k W st i id p o : range_ok k W st -> known id -> p ∈ idx (mkHandle id DataBlob) -> pb_PackID p = k ->
  range_ok k (fun j id' o' => W j id' o' \/ (j = i /\ id' = id /\ o' = o)) (addBlob i (pb_Blob p) (Z.of_nat o) st).
Proof.
  intros [R1 R2 R3 R4 R5] Hk Hp Hpk. pose proof (proj2 Hk p Hp) as (Hid & Hlen & Hoff & _ & file & Hfile & Hend & _).
  unfold addBlob. rewrite Hid. set (info := default _ _).
  assert (Hinfo : exists p', p' ∈ idx (mkHandle id DataBlob) /\ pb_PackID p' = k
    /\ bi_offset info = b_Offset (pb_Blob p') /\ bi_length info = b_Length (pb_Blob p')
    /\ (rs_blobs st !! id = Some info -> rs_start st <= bi_offset info /\ bi_offset info + bi_length info <= rs_end st)
    /\ (rs_blobs st !! id = None -> p' = p)).
  { destruct (rs_blobs st !! id) as [info'|] eqn:E; subst info; cbn.
    - destruct (R3 _ _ E) as (p' & ? & _ & ? & ? & ? & ?). exists p'. done.
    - by exists p. }
  destruct Hinfo as (p' & Hp' & Hpk' & Hio & Hil & Hb & Hn).
  assert (Hfiles : forall j, default [] (bi_files info !! j) = default [] (rs_blobs st !! id ≫= fun info => bi_files info !! j)).
  { intros j. subst info. by destruct (rs_blobs st !! id). }
  split; cbn [rs_start rs_end rs_blobs].
  - intros j id' o'. destruct (decide (id' = id)) as [->|Hne]; [|rewrite lookup_insert_ne, R1 by done; naive_solver].
    rewrite lookup_insert_eq, R1. split.
    + intros [(info' & E & Hz)|(-> & _ & ->)]; eexists; (split; [reflexivity|]); cbn [bi_files].
      * destruct (decide (j = i)) as [->|Hj]; [rewrite lookup_insert_eq; cbn; rewrite elem_of_app, Hfiles, E; by left|].
        rewrite lookup_insert_ne, Hfiles, E by done. done.
      * rewrite lookup_insert_eq. cbn. rewrite elem_of_app. right. by left.
    + intros (info' & [= <-] & Hz). cbn [bi_files] in Hz. destruct (decide (j = i)) as [->|Hj].
      * rewrite lookup_insert_eq in Hz. cbn in Hz. apply elem_of_app in Hz as [Hz|Hz%list_elem_of_singleton]; [|right; split; [done|split; [done|lia]]].
        left. rewrite Hfiles in Hz. destruct (rs_blobs st !! id) as [info'|]; [by exists info'|by apply elem_of_nil in Hz].
      * rewrite lookup_insert_ne, Hfiles in Hz by done. left.
        destruct (rs_blobs st !! id) as [info'|]; [by exists info'|by apply elem_of_nil in Hz].
  - intros j id' info' z. destruct (decide (id' = id)) as [->|Hne]; [|rewrite lookup_insert_ne by done; by apply R2].
    rewrite lookup_insert_eq. intros [= <-]. cbn [bi_files].
    assert (Hz : z ∈ default [] (bi_files info !! j) -> 0 <= z).
    { rewrite Hfiles. destruct (rs_blobs st !! id) as [info'|] eqn:E; [by apply (R2 j id)|by intros ?%elem_of_nil]. }
    destruct (decide (j = i)) as [->|Hj]; [|by rewrite lookup_insert_ne].
    rewrite lookup_insert_eq. cbn. intros [?|Hz'%list_elem_of_singleton]%elem_of_app; [by apply Hz|subst z; lia].
  - intros id' info'. destruct (decide (id' = id)) as [->|Hne].
    + rewrite lookup_insert_eq. intros [= <-]. cbn [bi_offset bi_length]. exists p'.
      split; [done|]. split; [done|]. split; [done|]. split; [done|]. split; [done|].
      destruct (rs_blobs st !! id) as [info'|] eqn:E.
      * destruct Hb as [Hb1 Hb2]; [by subst info|]. destruct (Z.ltb_spec (b_Offset (pb_Blob p)) (rs_start st)), (Z.ltb_spec (rs_end st) (b_Offset (pb_Blob p) + b_Length (pb_Blob p))); lia.
      * rewrite Hn in * by done. destruct (Z.ltb_spec (b_Offset (pb_Blob p)) (rs_start st)), (Z.ltb_spec (rs_end st) (b_Offset (pb_Blob p) + b_Length (pb_Blob p))); lia.
    + rewrite lookup_insert_ne by done. intros E. destruct (R3 _ _ E) as (p2 & ? & ? & ? & ? & ? & ? & ?). exists p2.
      split; [done|]. split; [done|]. split; [done|]. split; [done|]. split; [done|].
      destruct (Z.ltb_spec (b_Offset (pb_Blob p)) (rs_start st)), (Z.ltb_spec (rs_end st) (b_Offset (pb_Blob p) + b_Length (pb_Blob p))); lia.
  - destruct (Z.ltb_spec (b_Offset (pb_Blob p)) (rs_start st)); lia.
  - intros file' Hf'. specialize (R5 _ Hf'). rewrite Hpk in Hfile. rewrite Hf' in Hfile. injection Hfile as ->.
    destruct (Z.ltb_spec (rs_end st) (b_Offset (pb_Blob p) + b_Length (pb_Blob p))); lia.
Qed.

Definition wanted (k : ID) (i : nat) (f : fileInfo) (j : nat) (id : ID) (o : nat) : Prop :=
  j = i /\ (id, o) ∈ pieces blob (ids_of f) 0 /\ pack_of id = k.

Lemma collect_small_spec k i ids : (forall id, id ∈ ids -> known id) -> forall W st off, range_ok k W st ->
  exists st' off', fold_left (fun a id => collect_small k i (pack_of id) (pb_Blob (first id)) a) ids (st, Z.of_nat off) = (st', off')
    /\ range_ok k (fun j id o => W j id o \/ (j = i /\ (id, o) ∈ pieces blob ids off /\ pack_of id = k)) st'.
Proof.
  induction ids as [|id ids IH]; intros Hk W st off Hst; cbn [fold_left pieces].
  { eexists _, _. split; [reflexivity|]. eapply range_ok_ext; [|exact Hst]. intros j id o. setoid_rewrite elem_of_nil. naive_solver. }
  assert (Hi : known id) by (apply Hk; by left). destruct (known_first id Hi) as (Hid & Hlen & _).
  assert (Hk' : forall id, id ∈ ids -> known id) by (intros; apply Hk; by right).
  unfold collect_small at 2. rewrite Hlen. change extension with 32.
  replace (Z.of_nat off + (lenZ (blob id) + 32 - 32)) with (Z.of_nat (off + length (blob id))%nat) by lia.
  unfold Equal. case_bool_decide as Hpk.
  - pose proof (addBlob_ok k W st i id (first id) off Hst Hi (first_elem id Hi) Hpk) as Hst1.
    destruct (IH Hk' _ _ (off + length (blob id))%nat Hst1) as (st' & off' & -> & Hst'). eexists _, _. split; [reflexivity|].
    eapply range_ok_ext; [|exact Hst']. intros j id' o'. cbn beta. rewrite elem_of_cons. naive_solver.
  - destruct (IH Hk' _ _ (off + length (blob id))%nat Hst) as (st' & off' & -> & Hst'). eexists _, _. split; [reflexivity|].
    eapply range_ok_ext; [|exact Hst']. intros j id' o'. cbn beta. rewrite elem_of_cons. naive_solver.
Qed.

Lemma collect_large_spec k i ps : (forall x, x ∈ ps -> known x.1) -> forall W st, range_ok k W st ->
  range_ok k (fun j id o => W j id o \/ (j = i /\ (id, o) ∈ ps /\ pack_of id = k))
    (fold_left (collect_large idx k i) (in_pack k ps) st).
Proof.
  induction ps as [|[id o] ps IH]; intros Hk W st Hst.
  { eapply range_ok_ext; [|exact Hst]. intros j id o. setoid_rewrite elem_of_nil. naive_solver. }
  assert (Hi : known id) by apply (Hk (id, o) ltac:(by left)).
  assert (Hk' : forall x, x ∈ ps -> known x.1) by (intros; apply Hk; by right).
  unfold in_pack. rewrite filter_cons. cbn [fst]. destruct (decide (pack_of id = k)) as [Hpk|Hpk].
  - cbn [map fold_left fst snd]. fold (in_pack k ps). unfold collect_large at 2. cbn [fb_id fb_offset].
    destruct (list_find _ _) as [[n p]|] eqn:Ef.
    + apply list_find_Some in Ef as (Hp & Heq & _). apply bool_decide_eq_true_1 in Heq.
      pose proof (addBlob_ok k W st i id p o Hst Hi (list_elem_of_lookup_2 _ _ _ Hp) Heq) as Hst1.
      eapply range_ok_ext; [|exact (IH Hk' _ _ Hst1)]. intros j id' o'. cbn beta. rewrite elem_of_cons. naive_solver.
    + exfalso. pose proof (proj1 (list_find_None _ _) Ef) as Hf. rewrite Forall_forall in Hf.
      apply (Hf (first id)); [by apply first_elem|by apply bool_decide_eq_true].
  - fold (in_pack k ps). eapply range_ok_ext; [|exact (IH Hk' _ _ Hst)]. intros j id' o'. cbn beta. rewrite elem_of_cons. naive_solver.
Qed.

Lemma collect_file_spec k i f f' W st : scanned f f' -> (forall id, id ∈ ids_of f -> known id) -> range_ok k W st ->
  exists st', collect_file idx k i f' st = Ok st' /\ range_ok k (fun j id o => W j id o \/ wanted k i f j id o) st'.
Proof.
  intros (_ & _ & Hb) Hk Hst. unfold collect_file. destruct (rf_blobs f') as [ids|m].
  - subst ids. rewrite forEachBlob_fold by done.
    destruct (collect_small_spec k i (ids_of f) Hk W st 0%nat Hst) as (st' & off & E & Hst').
    change (Z.of_nat 0) with 0 in E. rewrite E. by exists st'.
  - rewrite Hb. eexists. split; [reflexivity|]. apply collect_large_spec; [|done].
    intros [id o] Hx. apply pieces_bounds in Hx as [_ Hx]. by apply Hk.
Qed.

Lemma collect_files_spec k files l : Forall2 scanned input files -> (forall i, i ∈ l -> (i < length input)%nat) -> forall W st, range_ok k W st ->
  exists st', collect_files idx k files l st = Ok st'
    /\ range_ok k (fun j id o => W j id o \/ (j ∈ l /\ exists f, input !! j = Some f /\ wanted k j f j id o)) st'.
Proof using input_known.
  intros Hsc. induction l as [|i l IH]; intros Hl W st Hst; cbn [collect_files].
  { eexists. split; [reflexivity|]. eapply range_ok_ext; [|exact Hst]. intros j id o. setoid_rewrite elem_of_nil. naive_solver. }
  destruct (lookup_lt_is_Some_2 input i ltac:(apply Hl; by left)) as [f Hf].
  destruct (Forall2_lookup_l _ _ _ _ _ Hsc Hf) as (f' & Hf' & Hs). rewrite Hf'.
  destruct (collect_file_spec k i f f' W st Hs (fun id => input_known i f id Hf) Hst) as (st1 & -> & Hst1).
  cbn [mbind res_bind]. destruct (IH ltac:(intros; apply Hl; by right) _ _ Hst1) as (st' & -> & Hst').
  eexists. split; [reflexivity|]. eapply range_ok_ext; [|exact Hst']. intros j id o. cbn beta. rewrite elem_of_cons. split.
  - intros [[?|Hw]|(Hj & Hx)]; [auto| |auto]. right. pose proof Hw as (-> & _). split; [auto|]. by exists f.
  - intros [?|([->|Hj] & g & Hg & Hw)]; [auto| |right; eauto]. rewrite Hf in Hg. injection Hg as <-. auto.
Qed.
End collect_spec.

(** ** Downloads write the wanted blobs, and nothing else *)

Section restore_spec.
Context {S F : Type} (be : Backend S) {OSF : OS F} {OSL : OSLaws F} {CP : CryptoPrims}.
Context (Hash : list byte -> ID) (key : Key) (xxhash : string -> nat).
Context (idx : BlobHandle -> list PackedBlob) (dst : string) (Join : string -> string -> string).
Context (ErrorFn : string -> error -> option error).
Context (files_order : gset nat -> list nat) (targets_order : gmap nat (list Z) -> list (nat * list Z)).
Context (sort_blobs : gmap ID blobInfo -> list (ID * blobInfo)).
Context (norm : Handle -> Handle) (stored : S -> Handle -> option (list byte)) {BL : FileLaws be norm stored}.
Context (files_perm : forall s, files_order s ≡ₚ elements s) (targets_perm : forall m, targets_order m ≡ₚ map_to_list m).
Context (sort_perm : forall m, sort_blobs m ≡ₚ map_to_list m)
  (sort_sorted : forall m, StronglySorted (fun x y => bi_offset x.2 <= bi_offset y.2) (sort_blobs m)).
Context (blob : ID -> list byte) (s0 : S) (f0 : F) (input : list fileInfo).
#[local] Abbreviation known := (known Hash key idx norm stored blob s0).
#[local] Abbreviation range_ok := (range_ok Hash key idx norm stored blob s0).
#[local] Abbreviation pieces_of f := (pieces blob (ids_of f) 0).

Definition target (f : fileInfo) : string := targetPath dst Join (rf_location f).

Context (input_known : forall i f id, input !! i = Some f -> id ∈ ids_of f -> known id).
Context (input_ok : forall i f, input !! i = Some f -> rf_inProgress f = false /\ (exists ids, rf_blobs f = inl ids)
  /\ ids_of f ≠ [] /\ rf_size f = lenZ (contents blob (ids_of f)) /\ os_writable (target f)).
Context (targets_inj : forall i j f g, input !! i = Some f -> input !! j = Some g -> target f = target g -> i = j).
(** The blobs of a pack do not overlap. *)
Context (disjoint : forall id1 id2 p1 p2, id1 ≠ id2 -> p1 ∈ idx (mkHandle id1 DataBlob) -> p2 ∈ idx (mkHandle id2 DataBlob) ->
  pb_PackID p1 = pb_PackID p2 -> b_Offset (pb_Blob p1) + b_Length (pb_Blob p1) <= b_Offset (pb_Blob p2)
    \/ b_Offset (pb_Blob p2) + b_Length (pb_Blob p2) <= b_Offset (pb_Blob p1)).

(** [W i id o]: the blob [id] has been written to file [i] at [o]. *)
Definition file_ok (W : ID -> nat -> Prop) (f f' : fileInfo) (d : option (list byte)) : Prop :=
  if rf_inProgress f' then exists d', d = Some d' /\ (length d' <= length (contents blob (ids_of f)))%nat
    /\ forall id o, W id o -> (o + length (blob id) <= length d')%nat /\ range_is d' o (blob id)
  else forall id o, ¬ W id o.
Record fstate (W : nat -> ID -> nat -> Prop) (st : dlstate (F := F)) : Prop := {
  fs_scanned : Forall2 (scanned idx blob) input st.1;
  fs_ok i f f' : input !! i = Some f -> st.1 !! i = Some f' -> file_ok (W i) f f' (os_file st.2.2 (target f));
  fs_idle : idle st.2.1;
  fs_other q : (forall i f, input !! i = Some f -> q ≠ target f) -> os_file st.2.2 q = os_file f0 q;
  fs_pieces i id o : W i id o -> exists f, input !! i = Some f /\ (id, o) ∈ pieces_of f;
}.

Lemma file_ok_ext (W W' : ID -> nat -> Prop) f f' d : (forall id o, W id o <-> W' id o) -> file_ok W f f' d -> file_ok W' f f' d.
Proof.
  intros HW. unfold file_ok. destruct (rf_inProgress f').
  - intros (d' & -> & Hl & Hd). exists d'. split; [done|]. split; [done|]. intros id o Hw. by apply Hd, HW.
  - intros Hn id o Hw. by apply (Hn id o), HW.
Qed.
Lemma fstate_ext (W W' : nat -> ID -> nat -> Prop) st : (forall i id o, W i id o <-> W' i id o) -> fstate W st -> fstate W' st.
Proof.
  intros HW [F1 F2 F3 F4 F5]. split; [done| |done|done|].
  - intros i f f' Hf Hf'. eapply file_ok_ext; [apply HW|by apply F2].
  - intros i id o Hw. by apply F5, HW.
Qed.

Lemma write_blob_spec W st i f id o : fstate W st -> input !! i = Some f -> (id, o) ∈ pieces_of f ->
  exists st', write_blob xxhash dst Join ErrorFn i (blob id) (Z.of_nat o) st = (st', None)
    /\ fstate (fun j id' o' => W j id' o' \/ (j = i /\ id' = id /\ o' = o)) st'.
Proof using input_ok targets_inj.
  intros [F1 F2 F3 F4 F5] Hf Hp. destruct st as [files [w os]]. cbn [fst snd] in *.
  destruct (Forall2_lookup_l _ _ _ _ _ F1 Hf) as (f' & Hf' & Hsc). pose proof Hsc as (Hsz & Hloc & _).
  destruct (input_ok i f Hf) as (_ & _ & _ & Hsize & Hwr). pose proof (F2 i f f' Hf Hf') as Hok.
  destruct (pieces_bounds _ _ _ _ _ Hp) as [[_ Hpe] _]. cbn in Hpe.
  unfold write_blob. rewrite Hf'. change (targetPath dst Join (rf_location f')) with (target f').
  assert (target f' = target f) as -> by (unfold target; by rewrite Hloc).
  set (d := if rf_inProgress f' then default [] (os_file os (target f)) else []).
  assert (Hd : if 0 <=? (if rf_inProgress f' then -1 else rf_size f') then d = [] else os_file os (target f) = Some d).
  { unfold file_ok in Hok. subst d. destruct (rf_inProgress f'); [|destruct (Z.leb_spec 0 (rf_size f')); [done|lia]].
    destruct Hok as (d' & -> & _). done. }
  destruct (writeToFile_spec xxhash w os (target f) (blob id) (Z.of_nat o) _ d F3 Hwr ltac:(lia) Hd) as (os' & n & -> & Hos & Hn & Hother).
  rewrite Nat2Z.id in Hos. eexists. split; [reflexivity|].
  assert (Hlen : (length (d ++ zeros n) <= length (contents blob (ids_of f)))%nat).
  { unfold file_ok in Hok. unfold zeros. rewrite length_app, length_replicate. subst d.
    destruct (rf_inProgress f'); [destruct Hok as (d' & E & ? & _); rewrite E in *; cbn in *; lia|cbn in *; lia]. }
  assert (Hold : forall id' o', W i id' o' -> (o' + length (blob id') <= length (d ++ zeros n))%nat /\ range_is (d ++ zeros n) o' (blob id')).
  { intros id' o' Hw. unfold file_ok in Hok. subst d. destruct (rf_inProgress f'); [|by apply Hok in Hw].
    destruct Hok as (d' & E & _ & Hr). rewrite E. change (default [] (Some d')) with d'. destruct (Hr _ _ Hw) as [Hb Hr']. rewrite length_app.
    split; [lia|]. intros j Hj. rewrite lookup_app_l by lia. by apply Hr'. }
  split; cbn [fst snd].
  - rewrite <- (list_insert_id input i f) by done. apply Forall2_insert; [done|]. destruct Hsc as (? & ? & ?). done.
  - intros j g g' Hg Hg'. destruct (decide (j = i)) as [->|Hne].
    + rewrite Hf in Hg. injection Hg as <-. rewrite list_lookup_insert_eq in Hg' by (by eapply lookup_lt_Some).
      injection Hg' as <-. unfold file_ok. cbn [set_inProgress rf_inProgress]. eexists. split; [exact Hos|].
      rewrite write_range_length. split; [lia|]. intros id' o' [Hw|(_ & -> & ->)]; [|split; [lia|apply write_range_at]].
      destruct (Hold _ _ Hw) as [Hb Hr]. split; [lia|].
      destruct (F5 _ _ _ Hw) as (f2 & Hf2 & Hp2). rewrite Hf in Hf2. injection Hf2 as <-.
      destruct (pieces_disjoint _ _ _ _ _ _ _ Hp2 Hp) as [[-> ->]|Hdis]; [apply write_range_at|].
      by apply write_range_other.
    + rewrite list_lookup_insert_ne in Hg' by done. eapply file_ok_ext; [|rewrite Hother; [by apply F2|]].
      * intros id' o'. naive_solver.
      * intros E. by apply Hne, (targets_inj j i g f).
  - done.
  - intros q Hq. rewrite Hother; [by apply F4|]. by apply (Hq i).
  - intros j id' o' [Hw|(-> & -> & ->)]; [by apply F5|by exists f].
Qed.

Lemma write_offsets_spec i f id zs : input !! i = Some f ->
  (forall z, z ∈ zs -> 0 <= z /\ (id, Z.to_nat z) ∈ pieces_of f) -> forall W st, fstate W st ->
  exists st', write_offsets xxhash dst Join ErrorFn i (blob id) zs st = (st', None)
    /\ fstate (fun j id' o' => W j id' o' \/ (j = i /\ id' = id /\ Z.of_nat o' ∈ zs)) st'.
Proof using input_ok targets_inj.
  intros Hf. induction zs as [|z zs IH]; intros Hz W st Hst; cbn [write_offsets].
  { exists st. split; [done|]. eapply fstate_ext; [|exact Hst]. intros j id' o'. setoid_rewrite elem_of_nil. naive_solver. }
  destruct (Hz z ltac:(by left)) as [H0 Hp].
  destruct (write_blob_spec W st i f id (Z.to_nat z) Hst Hf Hp) as (st1 & E & Hst1). rewrite Z2Nat.id in E by done. rewrite E.
  destruct (IH ltac:(intros; apply Hz; by right) _ _ Hst1) as (st' & -> & Hst'). exists st'. split; [done|].
  eapply fstate_ext; [|exact Hst']. intros j id' o'. cbn beta. rewrite elem_of_cons. split.
  - intros [[?|(-> & -> & ->)]|(-> & -> & ?)]; [auto| |auto]. right. split; [done|]. split; [done|]. left. lia.
  - intros [?|(-> & -> & [Ho|?])]; [auto| |auto]. left. right. split; [done|]. split; [done|]. lia.
Qed.

Definition targets_ok (id : ID) (targets : list (nat * list Z)) : Prop :=
  forall i zs z, (i, zs) ∈ targets -> z ∈ zs -> 0 <= z /\ exists f, input !! i = Some f /\ (id, Z.to_nat z) ∈ pieces_of f.

Lemma write_targets_spec id targets : targets_ok id targets -> forall W st, fstate W st ->
  exists st', write_targets xxhash dst Join ErrorFn (blob id) targets st = (st', None)
    /\ fstate (fun j id' o' => W j id' o' \/ (id' = id /\ exists zs, (j, zs) ∈ targets /\ Z.of_nat o' ∈ zs)) st'.
Proof using input_ok targets_inj.
  induction targets as [|[i zs] targets IH]; intros Ht W st Hst; cbn [write_targets].
  { exists st. split; [done|]. eapply fstate_ext; [|exact Hst]. intros j id' o'. setoid_rewrite elem_of_nil. naive_solver. }
  assert (Hw : exists st1, write_offsets xxhash dst Join ErrorFn i (blob id) zs st = (st1, None)
    /\ fstate (fun j id' o' => W j id' o' \/ (j = i /\ id' = id /\ Z.of_nat o' ∈ zs)) st1).
  { destruct zs as [|z zs'].
    - exists st. split; [done|]. eapply fstate_ext; [|exact Hst]. intros j id' o'. setoid_rewrite elem_of_nil. naive_solver.
    - destruct (Ht i (z :: zs') z ltac:(by left) ltac:(by left)) as (_ & f & Hf & _).
      apply (write_offsets_spec i f); [done| |done]. intros z' Hz'.
      destruct (Ht i (z :: zs') z' ltac:(by left) Hz') as (Hpos & g & Hg & Hp). rewrite Hf in Hg. by injection Hg as <-. }
  destruct Hw as (st1 & -> & Hst1).
  destruct (IH ltac:(intros j zs' z Hin; apply Ht; by right) _ _ Hst1) as (st' & -> & Hst'). exists st'. split; [done|].
  eapply fstate_ext; [|exact Hst']. intros j id' o'. cbn beta. setoid_rewrite elem_of_cons. split.
  - intros [[?|(-> & -> & ?)]|(-> & zs' & ? & ?)]; [auto| |]; right; eauto.
  - intros [?|(-> & zs' & [[= -> ->]|?] & ?)]; [auto|auto|]. right. eauto.
Qed.

(** What is left of a range of a pack's file. *)
Definition reader_at (file : list byte) (e cur : Z) : Reader :=
  mkReader (take (Z.to_nat (e - cur)) (drop (Z.to_nat cur) file)) None None.

Lemma Discard_reader file e cur n : 0 <= cur -> 0 <= n -> cur + n <= e <= lenZ file ->
  Discard n (reader_at file e cur) = (reader_at file e (cur + n), None).
Proof.
  intros Hc Hn He. unfold Discard, reader_at. cbn [rd_bytes rd_err rd_close].
  destruct (Z.ltb_spec n 0); [lia|]. rewrite length_take, length_drop.
  destruct (Z.ltb_spec (Z.of_nat (Z.to_nat (e - cur) `min` (length file - Z.to_nat cur))) n); [lia|].
  f_equal. f_equal. rewrite skipn_firstn_comm, drop_drop. f_equal; [lia|f_equal; lia].
Qed.

Lemma downloadBlob_reader file e cur n : 0 <= cur -> 0 <= n -> cur + n <= e <= lenZ file ->
  downloadBlob (reader_at file e cur) n = (reader_at file e (cur + n), inl (take (Z.to_nat n) (drop (Z.to_nat cur) file))).
Proof.
  intros Hc Hn He. unfold downloadBlob, reader_at, ReadFull. cbn [rd_bytes rd_err rd_close].
  rewrite take_take, Nat.min_l by lia.
  assert (Hl : length (take (Z.to_nat n) (drop (Z.to_nat cur) file)) = Z.to_nat n) by (rewrite length_take, length_drop; lia).
  rewrite bool_decide_eq_true_2 by done. rewrite bool_decide_eq_false_2 by lia.
  f_equal. f_equal. rewrite skipn_firstn_comm, drop_drop. f_equal; [lia|f_equal; lia].
Qed.

(** The blobs of a pack that are still to be downloaded. *)
Definition blob_ok (k : ID) (e : Z) (x : ID * blobInfo) : Prop :=
  (exists p, p ∈ idx (mkHandle x.1 DataBlob) /\ known x.1 /\ pb_PackID p = k
    /\ bi_offset x.2 = b_Offset (pb_Blob p) /\ bi_length x.2 = b_Length (pb_Blob p) /\ bi_offset x.2 + bi_length x.2 <= e)
  /\ targets_ok x.1 (map_to_list (bi_files x.2)).

Lemma targets_order_elem m i zs : (i, zs) ∈ targets_order m <-> m !! i = Some zs.
Proof using targets_perm. by rewrite targets_perm, elem_of_map_to_list. Qed.

Lemma blob_ok_disjoint k e x y : blob_ok k e x -> blob_ok k e y -> x.1 ≠ y.1 -> bi_offset x.2 <= bi_offset y.2 ->
  bi_offset x.2 + bi_length x.2 <= bi_offset y.2.
Proof using disjoint.
  intros [(p & Hp & Hk & Hpk & Ho & Hl & _) _] [(q & Hq & Hk2 & Hqk & Ho2 & Hl2 & _) _] Hne Hle.
  destruct (proj2 Hk2 q Hq) as (_ & Hlen & _). pose proof (disjoint _ _ p q Hne Hp Hq). rewrite Hpk, Hqk in *. specialize (H eq_refl). lia.
Qed.

Lemma download_blobs_spec k file e bl : stored s0 (norm (pack_handle k)) = Some file -> e <= lenZ file ->
  Forall (blob_ok k e) bl -> NoDup bl.*1 -> StronglySorted (fun x y => bi_offset x.2 <= bi_offset y.2) bl ->
  forall cur W st, 0 <= cur -> (forall x, x ∈ bl -> cur <= bi_offset x.2) -> fstate W st ->
  exists st', download_blobs Hash key xxhash dst Join ErrorFn targets_order bl cur (reader_at file e cur) st = (st', Ok tt)
    /\ fstate (fun j id o => W j id o \/ exists info zs, (id, info) ∈ bl /\ bi_files info !! j = Some zs /\ Z.of_nat o ∈ zs) st'.
Proof using targets_perm input_ok targets_inj disjoint.
  intros Hfile He. induction bl as [|[id info] bl IH]; intros Hok Hnd Hsort cur W st Hc Hcur Hst; cbn [download_blobs].
  { exists st. split; [done|]. eapply fstate_ext; [|exact Hst]. intros j id o. setoid_rewrite elem_of_nil. naive_solver. }
  apply Forall_cons in Hok as [Hx Hok]. cbn in Hnd. apply NoDup_cons in Hnd as [Hnin Hnd].
  apply StronglySorted_inv in Hsort as [Hsort Hall].
  pose proof Hx as [(p & Hp & Hk & Hpk & Ho & Hl & Hend) Ht]. cbn [fst snd] in *.
  destruct (proj2 Hk p Hp) as (Hid & Hlen & Hoff & _ & file' & Hfile' & Hfe & Hdec & Hhash).
  rewrite Hpk, Hfile in Hfile'. injection Hfile' as <-. specialize (Hcur (id, info) ltac:(by left)) as Hcx. cbn in Hcx.
  rewrite Discard_reader by lia. replace (cur + (bi_offset info - cur)) with (bi_offset info) by lia.
  rewrite downloadBlob_reader by lia. unfold decryptBlob. rewrite Ho, Hl, Hdec. unfold Equal. rewrite bool_decide_eq_true_2 by done.
  cbn [negb]. rewrite <- Ho, <- Hl.
  destruct (write_targets_spec id (targets_order (bi_files info))) with (W := W) (st := st) as (st1 & -> & Hst1); [|done|].
  { intros i zs z Hin. apply Ht. by apply elem_of_map_to_list, targets_order_elem. }
  assert (Hcur' : forall y, y ∈ bl -> bi_offset info + bi_length info <= bi_offset y.2).
  { intros y Hy. rewrite Forall_forall in Hall, Hok. apply (blob_ok_disjoint k e (id, info) y Hx (Hok _ Hy)).
    - intros E. cbn in E. apply Hnin. rewrite E. by apply list_elem_of_fmap_2.
    - by apply Hall. }
  destruct (IH Hok Hnd Hsort (bi_offset info + bi_length info) _ st1 ltac:(lia) Hcur' Hst1) as (st' & -> & Hst').
  exists st'. split; [done|]. eapply fstate_ext; [|exact Hst']. intros j id' o. cbn beta. setoid_rewrite elem_of_cons. split.
  - intros [[?|(-> & zs & Hzs & ?)]|(info' & zs & ? & ?)]; [auto| |]; right.
    + exists info, zs. split; [auto|]. split; [by apply targets_order_elem|done].
    + exists info', zs. auto.
  - intros [?|(info' & zs & [[= -> ->]|?] & Hzs & ?)]; [auto| |].
    + left. right. split; [done|]. exists zs. by rewrite targets_order_elem.
    + right. eauto.
Qed.

(** The blobs of pack [k] that file [j] uses. *)
Definition of_pack (k : ID) (j : nat) (id : ID) (o : nat) : Prop :=
  exists f, input !! j = Some f /\ (id, o) ∈ pieces_of f /\ pack_of idx id = k.

Lemma downloadPack_spec pack W st : fstate W st ->
  (forall i, i ∈ pi_files pack <-> exists id o, of_pack (pi_id pack) i id o) -> (exists i, i ∈ pi_files pack) ->
  exists st', downloadPack be Hash key xxhash idx dst Join ErrorFn files_order targets_order sort_blobs pack st s0 = (s0, st', Ok tt)
    /\ fstate (fun j id o => W j id o \/ of_pack (pi_id pack) j id o) st'.
Proof using BL files_perm targets_perm sort_perm sort_sorted input_known input_ok targets_inj disjoint.
  intros Hst Hfiles [i0 Hi0]. set (k := pi_id pack) in *. unfold downloadPack. fold k.
  destruct (collect_files_spec Hash key idx norm stored blob s0 input input_known k st.1 (files_order (pi_files pack)) (fs_scanned _ _ Hst))
    with (W := fun (_ : nat) (_ : ID) (_ : nat) => False) (st := mkRange maxInt64 0 ∅) as (rs & -> & HR).
  { intros i Hi. rewrite files_perm, elem_of_elements in Hi. apply Hfiles in Hi as (id & o & f & Hf & _). by eapply lookup_lt_Some. }
  { apply range_ok_empty. }
  assert (HR' : range_ok k (of_pack k) rs).
  { eapply range_ok_ext; [|exact HR]. intros j id o. cbn beta. rewrite files_perm, elem_of_elements. unfold wanted, of_pack. split.
    - intros [[]|(_ & f & Hf & _ & ? & ?)]. by exists f.
    - intros (f & Hf & Hp & Hpk). right. split; [|by exists f]. apply Hfiles. exists id, o, f. done. }
  clear HR. destruct rs as [start e B]. pose proof HR' as [R1 R2 R3 R4 R5]. cbn [rs_start rs_end rs_blobs] in *.
  destruct (proj1 (Hfiles i0) Hi0) as (id1 & o1 & Hw1). apply R1 in Hw1 as (info1 & HB1 & _).
  destruct (R3 _ _ HB1) as (p1 & Hp1 & Hk1 & Hpk1 & Ho1 & Hl1 & Hs1 & He1).
  destruct (proj2 Hk1 p1 Hp1) as (_ & Hlen1 & _ & Hvalid & file & Hfile & _). rewrite Hpk1 in Hvalid, Hfile.
  pose proof (R5 file Hfile) as Hend. unfold pack_handle in Hvalid, Hfile.
  rewrite (load_file (dlstate * option string) _ _ _ _ _ _ file Hvalid Hfile) by lia.
  assert (file_range (e - start) start file = rd_bytes (reader_at file e start)) as Hrd.
  { unfold file_range, reader_at. cbn. destruct (Z.ltb_spec 0 (e - start)); [done|lia]. }
  rewrite Hrd. change (mkReader (rd_bytes (reader_at file e start)) None None) with (reader_at file e start).
  destruct (download_blobs_spec k file e (sort_blobs B) Hfile Hend) with (cur := start) (W := W) (st := st) as (st' & E & Hst'); [..|done|].
  { rewrite Forall_forall. intros [id info] Hin. rewrite sort_perm, elem_of_map_to_list in Hin.
    destruct (R3 _ _ Hin) as (p & ? & ? & ? & ? & ? & ? & ?). split; [by exists p|]. cbn [fst snd].
    intros i zs z Hzs Hz. apply elem_of_map_to_list in Hzs. assert (Hz' : z ∈ default [] (bi_files info !! i)) by (by rewrite Hzs).
    pose proof (R2 i id info z Hin Hz') as Hpos. split; [done|].
    destruct (proj2 (R1 i id (Z.to_nat z))) as (f & Hf & Hp & _); [|by exists f]. exists info. split; [done|]. by rewrite Z2Nat.id. }
  { rewrite sort_perm. apply NoDup_fst_map_to_list. }
  { apply sort_sorted. }
  { done. }
  { intros [id info] Hin. rewrite sort_perm, elem_of_map_to_list in Hin. destruct (R3 _ _ Hin) as (p & _ & _ & _ & _ & _ & ? & _). done. }
  unfold pack_callback. rewrite E. cbn [fst snd]. exists st'. split; [done|]. eapply fstate_ext; [|exact Hst']. intros j id o. cbn beta. rewrite R1. split.
  - intros [?|(info & zs & Hin & Hzs & ?)]; [auto|]. right. rewrite sort_perm, elem_of_map_to_list in Hin. exists info. by rewrite Hzs.
  - intros [?|(info & Hin & Hz)]; [auto|]. right. destruct (bi_files info !! j) as [zs|] eqn:Ez; [|by apply elem_of_nil in Hz].
    exists info, zs. split; [|done]. by rewrite sort_perm, elem_of_map_to_list.
Qed.

Lemma download_packs_spec packs order : (forall k, k ∈ order -> is_Some (packs !! k)) ->
  (forall k pack, packs !! k = Some pack -> pi_id pack = k /\ (exists i, i ∈ pi_files pack)
    /\ forall i, i ∈ pi_files pack <-> exists id o, of_pack k i id o) ->
  forall W st, fstate W st ->
  exists st', download_packs be Hash key xxhash idx dst Join ErrorFn files_order targets_order sort_blobs packs order st s0 = (s0, st', Ok tt)
    /\ fstate (fun j id o => W j id o \/ exists k, k ∈ order /\ of_pack k j id o) st'.
Proof using BL files_perm targets_perm sort_perm sort_sorted input_known input_ok targets_inj disjoint.
  intros Hk Hp. induction order as [|k order IH]; intros W st Hst; cbn [download_packs].
  { exists st. split; [done|]. eapply fstate_ext; [|exact Hst]. intros j id o. setoid_rewrite elem_of_nil. naive_solver. }
  destruct (Hk k ltac:(by left)) as [pack Hpack]. rewrite Hpack. destruct (Hp k pack Hpack) as (Hid & Hne & Hfiles).
  rewrite <- Hid in Hfiles. destruct (downloadPack_spec pack W st Hst Hfiles Hne) as (st1 & -> & Hst1).
  destruct (IH ltac:(intros; apply Hk; by right) _ _ Hst1) as (st' & -> & Hst'). exists st'. split; [done|].
  eapply fstate_ext; [|exact Hst']. intros j id o. cbn beta. rewrite Hid. setoid_rewrite elem_of_cons. naive_solver.
Qed.

Lemma fstate_init files : Forall2 (fun f f' => scanned idx blob f f' /\ rf_inProgress f' = rf_inProgress f) input files ->
  fstate (fun _ _ _ => False) (files, (newFilesWriter workerCount, f0)).
Proof using input_ok.
  intros Hsc. split; cbn [fst snd].
  - eapply Forall2_impl; [exact Hsc|]. by intros f f' [? _].
  - intros i f f' Hf Hf'. destruct (Forall2_lookup_lr _ _ _ _ _ _ Hsc Hf Hf') as [_ Hpr].
    unfold file_ok. rewrite Hpr, (proj1 (input_ok i f Hf)). auto.
  - apply idle_new. unfold workerCount. lia.
  - done.
  - done.
Qed.

Lemma restoreFiles_spec : exists st',
  restoreFiles be Hash key xxhash idx dst Join ErrorFn files_order targets_order sort_blobs input f0 s0 = (s0, st', Ok tt)
  /\ (forall i f, input !! i = Some f -> os_file st'.2.2 (target f) = Some (contents blob (ids_of f)))
  /\ (forall q, (forall i f, input !! i = Some f -> q ≠ target f) -> os_file st'.2.2 q = os_file f0 q)
  /\ idle st'.2.1.
Proof using BL files_perm targets_perm sort_perm sort_sorted input_known input_ok targets_inj disjoint.
  unfold restoreFiles.
  destruct (scan_files_spec Hash key idx norm stored blob s0 input input_known input 0 (fun _ _ => False) (∅, []))
    as (files & [packs order] & -> & Hsc & Hpk).
  { intros m f Hf. split; [by apply (input_ok m f)|]. intros id. by apply input_known with m. }
  { split; cbn; intros; rewrite ?lookup_empty in *; [split; [by intros ?%elem_of_nil|by intros []]|done| |done].
    split; [done|]. by intros (? & ? & _). }
  destruct Hpk as [P1 P2 P3 P4]. cbn [fst snd] in *.
  destruct (download_packs_spec packs order) with (W := fun (_ : nat) (_ : ID) (_ : nat) => False)
    (st := (files, (newFilesWriter workerCount, f0))) as (st' & -> & Hst').
  { intros k. apply P1. }
  { intros k pack Hpack. split; [by apply P2|]. split; [by eapply P4|]. intros i. split.
    - intros Hi. destruct (proj2 (P3 i k)) as [[]|(m & f & Hf & -> & id & Hid & Hik)]; [by exists pack|].
      destruct (pieces_elem blob (ids_of f) 0 id Hid) as [o Ho]. exists id, o, f. done.
    - intros (id & o & f & Hf & Ho & Hik). apply pieces_bounds in Ho as [_ Ho].
      destruct (proj1 (P3 i k)) as (pack' & E & Hi); [right; exists i, f; eauto|]. rewrite Hpack in E. by injection E as <-. }
  { by apply fstate_init. }
  exists st'. split; [done|]. destruct Hst' as [F1 F2 F3 F4 F5]. split; [|done].
  intros i f Hf. destruct (Forall2_lookup_l _ _ _ _ _ F1 Hf) as (f' & Hf' & _). specialize (F2 i f f' Hf Hf').
  assert (Hall : forall id o, (id, o) ∈ pieces_of f -> exists k, k ∈ order /\ of_pack k i id o).
  { intros id o Ho. exists (pack_of idx id). split; [|by exists f]. apply P1.
    destruct (proj1 (P3 i (pack_of idx id))) as (pack & E & _); [|by exists pack].
    right. exists i, f. split; [done|]. split; [done|]. exists id. by apply pieces_bounds in Ho as [_ Ho]. }
  unfold file_ok in F2. destruct (rf_inProgress f').
  - destruct F2 as (d & E & Hl & Hr). rewrite E. f_equal. apply (pieces_exact blob); [|done].
    intros id o Ho. apply Hr. right. by apply Hall.
  - exfalso. destruct (input_ok i f Hf) as (_ & _ & Hne & _). destruct (ids_of f) as [|id ids] eqn:Ei; [done|].
    apply (F2 id 0%nat). right. apply Hall. by left.
Qed.

(** C8: Files are restored exactly.  Let the blobs of the files be known to
    the index: each entry's pack is stored and has there the sealed blob,
    which decrypts to data with the right hash; the blobs of a pack do not
    overlap.  Let each file have blobs, record their total size, and have a
    writable target of its own.  Then [restoreFiles] succeeds, whatever the
    orders of the maps; the targets then contain exactly the data of their
    blobs, one after the other, whatever they contained before and whether
    or not space could be preallocated; no other file has changed, and no
    file is left open. *)
Theorem restoreFiles_exact : exists st',
  restoreFiles be Hash key xxhash idx dst Join ErrorFn files_order targets_order sort_blobs input f0 s0 = (s0, st', Ok tt)
  /\ (forall i f, input !! i = Some f -> os_file st'.2.2 (target f) = Some (contents blob (ids_of f)))
  /\ (forall q, (forall i f, input !! i = Some f -> q ≠ target f) -> os_file st'.2.2 q = os_file f0 q)
  /\ (forall b, b ∈ st'.2.1 -> wb_files b = ∅).
Proof using BL files_perm targets_perm sort_perm sort_sorted input_known input_ok targets_inj disjoint.
  destruct restoreFiles_spec as (st' & H1 & H2 & H3 & _ & Hidle). exists st'.
  split; [done|]. split; [done|]. split; [done|]. by intros b ->%Hidle.
Qed.
End restore_spec.

(** ** A file system, and a pack with two blobs *)

Definition toy_fs : Type := gmap string (list byte).
#[export] Instance toy_os : OS toy_fs := {
  os_OpenFile p create f :=
    if (create : bool) then (<[p := []]> f, None)
    else match f !! p with Some _ => (f, None) | None => (f, Some ENotFound) end;
  os_Preallocate p size f :=
    match f !! p with Some d => <[p := d ++ zeros (Z.to_nat size - length d)]> f | None => f end;
  os_WriteAt p b off f :=
    match f !! p with Some d => (<[p := write_range d (Z.to_nat off) b]> f, None) | None => (f, Some ENotFound) end;
  os_Close p f := (f, None);
}.
#[export] Instance toy_os_laws : OSLaws toy_fs.
Proof.
  refine {| os_file := fun (f : toy_fs) p => f !! p; os_writable := fun _ => True |}; cbn; unfold toy_fs.
  - intros p f _. eexists. split; [done|]. split; [by rewrite lookup_insert_eq|]. intros q Hq. by rewrite lookup_insert_ne.
  - intros p f d _ ->. by exists f.
  - intros p size f d ->. eexists. split; [by rewrite lookup_insert_eq|]. split; [lia|]. intros q Hq. by rewrite lookup_insert_ne.
  - intros p f d off b _ -> _. eexists. split; [done|]. split; [by rewrite lookup_insert_eq|]. intros q Hq. by rewrite lookup_insert_ne.
  - intros p f. by exists f.
Defined.

Definition offset_le (x y : ID * blobInfo) : Prop := bi_offset x.2 <= bi_offset y.2.
#[local] Instance offset_le_dec : RelDecision offset_le := fun x y => Z_le_dec (bi_offset x.2) (bi_offset y.2).
#[local] Instance offset_le_trans : Transitive offset_le.
Proof. intros x y z. unfold offset_le. lia. Qed.
#[local] Instance offset_le_total : Total offset_le.
Proof. intros x y. unfold offset_le. lia. Qed.
Definition toy_sort_blobs (m : gmap ID blobInfo) : list (ID * blobInfo) := merge_sort offset_le (map_to_list m).
Lemma toy_sort_perm m : toy_sort_blobs m ≡ₚ map_to_list m.
Proof. apply merge_sort_Permutation. Qed.
Lemma toy_sort_sorted m : StronglySorted (fun x y => bi_offset x.2 <= bi_offset y.2) (toy_sort_blobs m).
Proof. apply (StronglySorted_merge_sort offset_le). Qed.

(** The sealed form of data without encryption; the blobs are named by their
    first byte. *)
Definition toy_seal (l : list byte) : list byte := replicate 16 Byte.x01 ++ l ++ replicate 16 Byte.x00.
Definition head_hash (l : list byte) : ID := take 1 l.
Definition blob_A : list byte := [Byte.x0a; Byte.x02; Byte.x03].
Definition blob_B : list byte := [Byte.x0b].
Definition toy_data (id : ID) : list byte := match id with [Byte.x0a] => blob_A | _ => blob_B end.
Definition toy_pack_id : ID := [Byte.x11].
Definition toy_pack_handle : Handle := mkBeHandle PackFile DataBlob (ID_String toy_pack_id).
Definition toy_store (a : list byte) : Mem.memMap := {[Mem.normalize toy_pack_handle := toy_seal a ++ toy_seal blob_B]}.
Definition toy_idx (h : BlobHandle) : list PackedBlob :=
  match bh_ID h with
  | [Byte.x0a] => [mkPacked (mkBlob (mkHandle [Byte.x0a] DataBlob) 35 0) toy_pack_id]
  | [Byte.x0b] => [mkPacked (mkBlob (mkHandle [Byte.x0b] DataBlob) 33 35) toy_pack_id]
  | _ => []
  end.
Definition toy_input : list fileInfo :=
  [mkRFile false 7 "/a" (inl [[Byte.x0a]; [Byte.x0b]; [Byte.x0a]]); mkRFile false 1 "/b" (inl [[Byte.x0b]])].
Definition toy_restore (a : list byte) : Mem.memMap * dlstate * res error unit :=
  restoreFiles toy_mem (H0 := plain_prims) head_hash toy_key (fun _ => 0%nat) toy_idx "/dst" String.append
    (fun _ _ => None) elements map_to_list toy_sort_blobs toy_input ∅ (toy_store a).

Example toy_restore_runs : (toy_restore blob_A).2 = Ok tt
  /\ os_file (toy_restore blob_A).1.2.2.2 "/dst/a" = Some (blob_A ++ blob_B ++ blob_A).
Proof. vm_compute. done. Qed.

(** When a blob is corrupt and its error is ignored, the position in the pack
    is not advanced past it: the blobs after it are not found, although they
    are intact. *)
Lemma corrupt_blob_skips_rest :
  (toy_restore [Byte.x0c; Byte.x02; Byte.x03]).2 = Ok tt
  /\ os_file (toy_restore [Byte.x0c; Byte.x02; Byte.x03]).1.2.2.2 "/dst/b" = None.
Proof. vm_compute. done. Qed.

Lemma toy_entry id p : id = [Byte.x0a] \/ id = [Byte.x0b] -> p ∈ toy_idx (mkHandle id DataBlob) ->
  entry_ok head_hash toy_key (CP := plain_prims) Mem.normalize mem_contents toy_data (toy_store blob_A) id p.
Proof.
  intros [->| ->] Hp; apply list_elem_of_singleton in Hp as ->; (split; [reflexivity|]); (split; [reflexivity|]);
    (split; [cbn; lia|]); (split; [vm_compute; reflexivity|]);
    exists (toy_seal blob_A ++ toy_seal blob_B); (split; [apply lookup_singleton_eq|]);
    (split; [vm_compute; by split|]); (split; [vm_compute; reflexivity|reflexivity]).
Qed.
Lemma toy_known id : id = [Byte.x0a] \/ id = [Byte.x0b] ->
  known head_hash toy_key (CP := plain_prims) toy_idx Mem.normalize mem_contents toy_data (toy_store blob_A) id.
Proof. intros Hid. split; [by destruct Hid; subst|]. intros p Hp. by apply toy_entry. Qed.

Lemma toy_input_cases i f : toy_input !! i = Some f ->
  (i = 0%nat /\ f = mkRFile false 7 "/a" (inl [[Byte.x0a]; [Byte.x0b]; [Byte.x0a]]))
  \/ (i = 1%nat /\ f = mkRFile false 1 "/b" (inl [[Byte.x0b]])).
Proof. destruct i as [|[|i]]; intros Hi; [injection Hi as <-; auto|injection Hi as <-; auto|done]. Qed.

Lemma toy_disjoint id1 id2 p1 p2 : id1 ≠ id2 -> p1 ∈ toy_idx (mkHandle id1 DataBlob) -> p2 ∈ toy_idx (mkHandle id2 DataBlob) ->
  pb_PackID p1 = pb_PackID p2 -> b_Offset (pb_Blob p1) + b_Length (pb_Blob p1) <= b_Offset (pb_Blob p2)
    \/ b_Offset (pb_Blob p2) + b_Length (pb_Blob p2) <= b_Offset (pb_Blob p1).
Proof.
  intros Hne Hp1 Hp2 _.
  assert (Hcases : forall id p, p ∈ toy_idx (mkHandle id DataBlob) ->
    (id = [Byte.x0a] /\ b_Offset (pb_Blob p) = 0 /\ b_Length (pb_Blob p) = 35) \/ (id = [Byte.x0b] /\ b_Offset (pb_Blob p) = 35 /\ b_Length (pb_Blob p) = 33)).
  { intros id p Hp. unfold toy_idx in Hp. cbn [bh_ID] in Hp.
    destruct id as [|b [|? ?]]; [by apply elem_of_nil in Hp| |by destruct b; apply elem_of_nil in Hp].
    destruct b; try (by apply elem_of_nil in Hp); apply list_elem_of_singleton in Hp as ->; [left|right]; done. }
  destruct (Hcases _ _ Hp1) as [(-> & Ho1 & Hl1)|(-> & Ho1 & Hl1)], (Hcases _ _ Hp2) as [(-> & Ho2 & Hl2)|(-> & Ho2 & Hl2)];
    [done|left; lia|right; lia|done].
Qed.

Lemma restoreFiles_exact_witness : exists st',
  toy_restore blob_A = (toy_store blob_A, st', Ok tt)
  /\ os_file st'.2.2 "/dst/a" = Some (blob_A ++ blob_B ++ blob_A) /\ os_file st'.2.2 "/dst/b" = Some blob_B.
Proof.
  destruct (restoreFiles_exact toy_mem (CP := plain_prims) head_hash toy_key (fun _ => 0%nat) toy_idx "/dst" String.append (fun _ _ => None)
    elements map_to_list toy_sort_blobs Mem.normalize mem_contents (BL := mem_file_laws toy_md5 map_to_list)
    (fun _ => Permutation_refl _) (fun _ => Permutation_refl _) toy_sort_perm toy_sort_sorted toy_data (toy_store blob_A) ∅ toy_input)
    as (st' & H1 & H2 & _).
  - intros i f id Hi Hid. apply toy_known. destruct (toy_input_cases i f Hi) as [[_ ->]|[_ ->]]; cbn in Hid; set_solver.
  - intros i f Hi. destruct (toy_input_cases i f Hi) as [[_ ->]|[_ ->]];
      (split; [done|split; [by eexists|split; [done|split; [reflexivity|exact I]]]]).
  - intros i j f g Hi Hj. destruct (toy_input_cases i f Hi) as [[-> ->]|[-> ->]], (toy_input_cases j g Hj) as [[-> ->]|[-> ->]]; done.
  - exact toy_disjoint.
  - exists st'. split; [exact H1|]. split; [apply (H2 0%nat _ eq_refl)|apply (H2 1%nat _ eq_refl)].
Defined.
