(* ===== verification/Nodes.v ===== *)
(** * Nodes and the file system

    The part of src/restic/node.go (with node_unix.go, node_linux.go,
    node_xattr.go and mknod_unix.go) that creates the nodes of a snapshot from
    files, and restores files and their metadata from nodes.  System calls
    are values of a type; a file system is a state that answers them. *)

From S2P Require Import Prelude Ids Duration Snapshots Backend Trees Paths FileRestorer.

(** ** System calls *)

Inductive syscall : Type :=
| Mkdir (path : string) (mode : Z)
| MkdirAll (path : string) (mode : Z)
| Symlink (oldname newname : string)
| Mknod (path : string) (mode dev : Z)
| Lchown (path : string) (uid gid : Z)
| Chmod (path : string) (mode : Z)
| UtimesNano (path : string) (atime mtime : Z)
| OpenDir (path : string)                                    (** [fs.Open] of a directory *)
| UtimesNanoAt (dir base : string) (atime mtime : Z)         (** of a link itself, in an open directory *)
| CloseDir (path : string)
| XattrSet (path name : string) (value : list byte)
| Remove (path : string)
| Link (oldname newname : string).

Class Sys (F : Type) : Type := { sys_call : syscall -> F -> F * option error }.

Definition Wrap (err : option error) (msg : string) : option error := EWrap msg <$> err.
Definition IsNotExist (err : option error) : bool := bool_decide (err = Some ENotFound).

Definition S_IFIFO : Z := 0x1000.
Definition S_IFCHR : Z := 0x2000.
Definition S_IFBLK : Z := 0x6000.

(** [UnixNano] wraps around outside the years 1678 to 2262. *)
Definition UnixNano (t : Time) : Z := i64 (t_ns t - days_of_civil 1970 1 1 * 86400 * Second).

(** ** Creating files from nodes *)

Section create.
Context {F : Type} `{OS F} `{Sys F} (LoadBlob : ID -> list byte + error).
Context (IsExist IsPermission xattr_unsupported : error -> bool) (Geteuid : Z).

Definition fs_state (A : Type) : Type := F -> F * A.

Definition createDirAt (node : Node) (path : string) (f : F) : F * option error :=
  match sys_call (Mkdir path (n_Mode node)) f with
  | (f, Some e) => (f, if IsExist e then None else Wrap (Some e) "Mkdir")
  | (f, None) => (f, None)
  end.

(** The file is written at the end of what has been written. *)
Fixpoint writeNodeContent (path : string) (content : list ID) (offset : Z) (f : F) : F * option error :=
  match content with
  | [] => (f, None)
  | id :: content =>
      match LoadBlob id with
      | inr e => (f, Some e)
      | inl buf =>
          match os_WriteAt path buf offset f with
          | (f, Some e) => (f, Wrap (Some e) "Write")
          | (f, None) => writeNodeContent path content (offset + lenZ buf) f
          end
      end
  end.
Definition createFileAt (node : Node) (path : string) (f : F) : F * option error :=
  match os_OpenFile path true f with
  | (f, Some e) => (f, Wrap (Some e) "OpenFile")
  | (f, None) =>
      let '(f, err) := writeNodeContent path (default [] (n_Content node)) 0 f in
      let '(f, closeErr) := os_Close path f in
      match err, closeErr with
      | Some e, _ => (f, Some e)
      | None, Some e => (f, Wrap (Some e) "Close")
      | None, None => (f, None)
      end
  end.

Definition createSymlinkAt (node : Node) (path : string) (f : F) : F * option error :=
  let '(f, err) := sys_call (Symlink (n_LinkTarget node) path) f in (f, Wrap err "Symlink").

Definition mknod (path : string) (mode dev : Z) : fs_state (option error) := sys_call (Mknod path mode (i64 dev)).
Definition createDevAt (node : Node) (path : string) : fs_state (option error) :=
  mknod path (Z.lor S_IFBLK 384) (n_Device node).
Definition createCharDevAt (node : Node) (path : string) : fs_state (option error) :=
  mknod path (Z.lor S_IFCHR 384) (n_Device node).
Definition mkfifo (path : string) (mode : Z) : fs_state (option error) := mknod path (Z.lor mode S_IFIFO) 0.
Definition createFifoAt (node : Node) (path : string) : fs_state (option error) := mkfifo path 384.

Definition CreateAt (node : Node) (path : string) (f : F) : F * option error :=
  if bool_decide (n_Type node = "dir"%string) then createDirAt node path f
  else if bool_decide (n_Type node = "file"%string) then createFileAt node path f
  else if bool_decide (n_Type node = "symlink"%string) then createSymlinkAt node path f
  else if bool_decide (n_Type node = "dev"%string) then createDevAt node path f
  else if bool_decide (n_Type node = "chardev"%string) then createCharDevAt node path f
  else if bool_decide (n_Type node = "fifo"%string) then createFifoAt node path f
  else if bool_decide (n_Type node = "socket"%string) then (f, None)
  else (f, Some (EMsg "filetype not implemented!")).

(** ** Restoring metadata *)

Definition Setxattr (path name : string) (data : list byte) (f : F) : F * option error :=
  match sys_call (XattrSet path name data) f with
  | (f, Some e) => (f, if xattr_unsupported e then None else Wrap (Some e) "Setxattr")
  | (f, None) => (f, None)
  end.
Fixpoint restoreExtendedAttributes (attrs : list ExtendedAttribute) (path : string) (f : F) : F * option error :=
  match attrs with
  | [] => (f, None)
  | attr :: attrs =>
      match Setxattr path (x_Name attr) (x_Value attr) f with
      | (f, Some e) => (f, Some e)
      | (f, None) => restoreExtendedAttributes attrs path f
      end
  end.

Definition restoreSymlinkTimestamps (path : string) (atime mtime : Z) (f : F) : F * option error :=
  match sys_call (OpenDir (Dir path)) f with
  | (f, Some e) => (f, Wrap (Some e) "Open")
  | (f, None) =>
      match sys_call (UtimesNanoAt (Dir path) (Base path) atime mtime) f with
      | (f, Some e) => ((sys_call (CloseDir (Dir path)) f).1, Wrap (Some e) "UtimesNanoAt")
      | (f, None) => sys_call (CloseDir (Dir path)) f
      end
  end.
Definition RestoreTimestamps (node : Node) (path : string) (f : F) : F * option error :=
  let atime := UnixNano (n_AccessTime node) in
  let mtime := UnixNano (n_ModTime node) in
  if bool_decide (n_Type node = "symlink"%string) then restoreSymlinkTimestamps path atime mtime f
  else let '(f, err) := sys_call (UtimesNano path atime mtime) f in (f, Wrap err "UtimesNano").

(** [replace err firsterr]: the code replaces [firsterr] only when there is
    one already. *)
Definition replace (err firsterr : option error) : option error :=
  match err, firsterr with Some e, Some _ => Some e | _, _ => firsterr end.

Definition restoreMetadata (node : Node) (path : string) (f : F) : F * option error :=
  let '(f, err) := sys_call (Lchown path (n_UID node) (n_GID node)) f in
  let firsterr := match err with
    | Some e => if (0 <? Geteuid) && IsPermission e then None else Wrap (Some e) "Lchown"
    | None => None end in
  let '(f, firsterr) :=
    if negb (bool_decide (n_Type node = "symlink"%string)) then
      let '(f, err) := sys_call (Chmod path (n_Mode node)) f in (f, replace (Wrap err "Chmod") firsterr)
    else (f, firsterr) in
  let '(f, err) := RestoreTimestamps node path f in
  let firsterr := replace err firsterr in
  let '(f, err) := restoreExtendedAttributes (n_ExtendedAttributes node) path f in
  (f, replace err firsterr).
Definition RestoreMetadata : Node -> string -> F -> F * option error := restoreMetadata.
End create.

(** Only an error of [Lchown] is ever reported: the first error is replaced by
    a later one, but a later error alone is lost. *)
Lemma restoreMetadata_drops_errors {F : Type} `{Sys F} IsPermission unsup Geteuid node path f :
  (forall f', (sys_call (Lchown path (n_UID node) (n_GID node)) f').2 = None) ->
  (restoreMetadata IsPermission unsup Geteuid node path f).2 = None.
Proof.
  intros Hl. unfold restoreMetadata. specialize (Hl f). destruct (sys_call (Lchown _ _ _) f) as [f1 e1]. cbn in Hl. subst e1.
  assert (Hr : forall e, replace e None = None) by (by intros [?|]).
  destruct (bool_decide _); cbn [negb].
  - destruct (RestoreTimestamps node path f1) as [f2 e2], (restoreExtendedAttributes _ _ _ f2) as [f3 e3]. cbn. by rewrite !Hr.
  - destruct (sys_call (Chmod _ _) f1) as [f2 e2], (RestoreTimestamps node path f2) as [f3 e3],
      (restoreExtendedAttributes _ _ _ f3) as [f4 e4]. cbn. by rewrite !Hr.
Qed.
