(* ===== verification/Restorer.v ===== *)
(** * Restorer: restoring a snapshot to a directory

    src/internal/restorer/restorer.go.  The traversal of the snapshot's tree
    with its tests of names and targets, the two passes of [RestoreTo] around
    the restoring of file contents (FileRestorer.v), and the verification of
    restored files.  Trees are read through a function; recursion has fuel,
    and the depth of a tree is enough. *)

From S2P Require Import Prelude Crypto Ids Duration Snapshots Backend Repository Trees Paths Contents FileRestorer Nodes.

(** Running out of fuel, which is not an error of the program. *)
Inductive fuel_error : Type := OutOfFuel.

(** ** The traversal *)

Section traverse.
Context {W : Type} (LoadTree : ID -> Tree + error) (ErrorFn : string -> error -> option error).
Context (SelectFilter : string -> string -> Node -> bool * bool).

Definition visit_fn : Type := Node -> string -> string -> W -> W * option error.
Record treeVisitor : Type := mkVisitor {
  tv_enterDir : option visit_fn;
  tv_visitNode : visit_fn;
  tv_leaveDir : option visit_fn;
}.
Definition tresult : Type := res fuel_error (W * (bool * option error)).
Context (visitor : treeVisitor).

(** Context errors are permanent. *)
Definition sanitize (location : string) (err : option error) : option error :=
  match err with None => None | Some ECanceled => Some ECanceled | Some e => ErrorFn location e end.
(** An optional visit, if the condition holds. *)
Definition visit_if (cond : bool) (fn : option visit_fn) (node : Node) (target location : string) (w : W) : W * option error :=
  match fn with
  | Some fn => if cond then let '(w, err) := fn node target location w in (w, sanitize location err) else (w, None)
  | None => (w, None)
  end.

Section loop.
Context (traverse_rec : string -> string -> ID -> W -> tresult).

Fixpoint traverse_nodes (target location : string) (nodes : list Node) (hasRestored : bool) (w : W) : tresult :=
  match nodes with
  | [] => Ok (w, (hasRestored, None))
  | node :: nodes =>
      let nodeName := Base (Join ["/"%string; n_Name node]) in
      if negb (bool_decide (nodeName = n_Name node)) then
        match ErrorFn location (EMsg "invalid child node name") with
        | Some e => Ok (w, (hasRestored, Some e))
        | None => traverse_nodes target location nodes hasRestored w
        end
      else
        let nodeTarget := Join [target; nodeName] in
        let nodeLocation := Join [location; nodeName] in
        if bool_decide (target = nodeTarget) || negb (HasPathPrefix target nodeTarget) then
          match ErrorFn nodeLocation (EMsg "node has invalid path") with
          | Some e => Ok (w, (hasRestored, Some e))
          | None => traverse_nodes target location nodes hasRestored w
          end
        else if bool_decide (n_Type node = "socket"%string) then traverse_nodes target location nodes hasRestored w
        else
          let '(selectedForRestore, childMayBeSelected) := SelectFilter nodeLocation nodeTarget node in
          let hasRestored := hasRestored || selectedForRestore in
          if bool_decide (n_Type node = "dir"%string) then
            match n_Subtree node with
            | None => Ok (w, (hasRestored, Some (EMsg "Dir without subtree in tree")))
            | Some subtree =>
                match visit_if selectedForRestore (tv_enterDir visitor) node nodeTarget nodeLocation w with
                | (w, Some e) => Ok (w, (hasRestored, Some e))
                | (w, None) =>
                    '(w, (childHasRestored, err)) ←
                      (if childMayBeSelected then
                         '(w, (childHasRestored, err)) ← traverse_rec nodeTarget nodeLocation subtree w;
                         Ok (w, (childHasRestored, sanitize nodeLocation err))
                       else Ok (w, (false, None)));
                    match err with
                    | Some e => Ok (w, (hasRestored, Some e))
                    | None =>
                        let hasRestored := hasRestored || childHasRestored in
                        match visit_if (selectedForRestore || childHasRestored) (tv_leaveDir visitor) node nodeTarget nodeLocation w with
                        | (w, Some e) => Ok (w, (hasRestored, Some e))
                        | (w, None) => traverse_nodes target location nodes hasRestored w
                        end
                    end
                end
            end
          else
            match visit_if selectedForRestore (Some (tv_visitNode visitor)) node nodeTarget nodeLocation w with
            | (w, Some e) => Ok (w, (hasRestored, Some e))
            | (w, None) => traverse_nodes target location nodes hasRestored w
            end
  end.
End loop.

Fixpoint traverseTree (fuel : nat) (target location : string) (treeID : ID) (w : W) : tresult :=
  match fuel with
  | O => Err OutOfFuel
  | S fuel =>
      match LoadTree treeID with
      | inr err => Ok (w, (false, ErrorFn location err))
      | inl tree => traverse_nodes (traverseTree fuel) target location (t_Nodes tree) false w
      end
  end.
End traverse.
Arguments treeVisitor W : clear implicits.
Arguments visit_fn W : clear implicits.

(** ** RestoreTo *)

Section restorer.
Context {S F : Type} (be : Backend S) `{OS F} `{Sys F} `{CryptoPrims}.
Context (LoadTree : ID -> Tree + error) (LoadBlob : ID -> list byte + error) (LookupBlobSize : ID -> option Z).
Context (IsExist IsPermission xattr_unsupported : error -> bool) (Geteuid : Z).
Context (ErrorFn : string -> error -> option error) (SelectFilter : string -> string -> Node -> bool * bool).
(** What the restoring of file contents needs (FileRestorer.v). *)
Context (Hash : list byte -> ID) (key : Key) (xxhash : string -> nat) (idx : BlobHandle -> list PackedBlob).
Context (files_order : gset nat -> list nat) (targets_order : gmap nat (list Z) -> list (nat * list Z)).
Context (sort_blobs : gmap ID blobInfo -> list (ID * blobInfo)).

#[local] Abbreviation RestoreMetadata := (RestoreMetadata IsPermission xattr_unsupported Geteuid).
#[local] Abbreviation CreateAt := (CreateAt LoadBlob IsExist).

Definition restoreNodeMetadataTo (node : Node) (target location : string) (f : F) : F * option error :=
  RestoreMetadata node target f.

Definition restoreNodeTo (node : Node) (target location : string) (f : F) : F * option error :=
  match CreateAt node target f with
  | (f, Some e) => (f, Some e)
  | (f, None) => restoreNodeMetadataTo node target location f
  end.

(** [errors.Wrap] of no error is no error. *)
Definition restoreHardlinkAt (node : Node) (target path location : string) (f : F) : F * option error :=
  let '(f, err) := sys_call (Remove path) f in
  if negb (IsNotExist err) then (f, Wrap err "RemoveCreateHardlink")
  else
    match sys_call (Link target path) f with
    | (f, Some e) => (f, Wrap (Some e) "CreateHardlink")
    | (f, None) => restoreNodeMetadataTo node path location f
    end.

Definition restoreEmptyFileAt (node : Node) (target location : string) (f : F) : F * option error :=
  match os_OpenFile target true f with
  | (f, Some e) => (f, Some e)
  | (f, None) =>
      match os_Close target f with
      | (f, Some e) => (f, Some e)
      | (f, None) => restoreNodeMetadataTo node target location f
      end
  end.

(** The state of the first pass: the file system, the hard links, and the
    files to restore. *)
Definition pass1 : Type := F * HardlinkIndex.index * list fileInfo.

Definition join2 (a b : string) : string := Join [a; b].
Definition node_ids (node : Node) : list ID := default [] (n_Content node).

Definition first_enterDir : visit_fn pass1 := fun node target location '(f, idx, files) =>
  let '(f, err) := sys_call (MkdirAll target 448) f in ((f, idx, files), err).
Definition first_visitNode : visit_fn pass1 := fun node target location '(f, idx, files) =>
  match sys_call (MkdirAll (Dir target) 448) f with
  | (f, Some e) => ((f, idx, files), Some e)
  | (f, None) =>
      if negb (bool_decide (n_Type node = "file"%string)) then ((f, idx, files), None)
      else if n_Size node =? 0 then ((f, idx, files), None)
      else if (1 <? n_Links node) && HardlinkIndex.Has idx (n_Inode node) (n_DeviceID node) then ((f, idx, files), None)
      else
        let idx := if 1 <? n_Links node then HardlinkIndex.Add idx (n_Inode node) (n_DeviceID node) location else idx in
        ((f, idx, addFile files location (node_ids node) (i64 (n_Size node))), None)
  end.
Definition first_pass : treeVisitor pass1 := mkVisitor (Some first_enterDir) first_visitNode None.

Definition pass2 : Type := F * HardlinkIndex.index.
Definition second_visitNode (dst : string) : visit_fn pass2 := fun node target location '(f, idx) =>
  let lift '(f, err) := ((f, idx), err) in
  let Has := HardlinkIndex.Has idx (n_Inode node) (n_DeviceID node) in
  let filename := HardlinkIndex.GetFilename idx (n_Inode node) (n_DeviceID node) in
  if negb (bool_decide (n_Type node = "file"%string)) then lift (restoreNodeTo node target location f)
  else if (n_Size node =? 0) && ((n_Links node <? 2) || negb Has) then
    let idx := if 1 <? n_Links node then HardlinkIndex.Add idx (n_Inode node) (n_DeviceID node) location else idx in
    let '(f, err) := restoreEmptyFileAt node target location f in ((f, idx), err)
  else if Has && negb (bool_decide (filename = location)) then
    lift (restoreHardlinkAt node (targetPath dst join2 filename) target location f)
  else lift (restoreNodeMetadataTo node target location f).
Definition second_leaveDir : visit_fn pass2 := fun node target location '(f, idx) =>
  let '(f, err) := restoreNodeMetadataTo node target location f in ((f, idx), err).
Definition second_pass (dst : string) : treeVisitor pass2 := mkVisitor None (second_visitNode dst) (Some second_leaveDir).

(** [Abs] is [filepath.Abs], which needs the working directory. *)
Definition RestoreTo (Abs : string -> string + error) (fuel : nat) (tree : ID) (dst : string) (f : F) (s : S)
  : res fuel_error (S * F * option error) :=
  match (if IsAbs dst then inl dst else Abs dst) with
  | inr e => Ok (s, f, Some (EWrap "Abs" e))
  | inl dst =>
      '((f, index, files), (_, err)) ← traverseTree LoadTree ErrorFn SelectFilter first_pass fuel dst "/" tree (f, HardlinkIndex.NewHardlinkIndex, []);
      match err with
      | Some e => Ok (s, f, Some e)
      | None =>
          let '(s, (_, (_, f)), r) := restoreFiles be Hash key xxhash idx dst join2 ErrorFn files_order targets_order sort_blobs files f s in
          match r with
          | Err e => Ok (s, f, Some e)
          | Panic m => Panic m
          | Ok _ =>
              '((f, _), (_, err)) ← traverseTree LoadTree ErrorFn SelectFilter (second_pass dst) fuel dst "/" tree (f, index);
              Ok (s, f, err)
          end
      end
  end.
End restorer.

(** ** Confinement: what a snapshot can make the restorer do *)

Section frame.
Context {S F : Type} (be : Backend S) `{OS F} {CP : CryptoPrims}.
Context (T : string -> Prop) (P : F -> Prop).

(** [P] is kept by file operations on the paths of [T]. *)
Record files_keep : Prop := {
  keep_open p create f : T p -> P f -> P (os_OpenFile p create f).1;
  keep_preallocate p size f : T p -> P f -> P (os_Preallocate p size f);
  keep_write p b off f : T p -> P f -> P (os_WriteAt p b off f).1;
  keep_close p f : T p -> P f -> P (os_Close p f).1;
}.
(** [Load] uses the state of its callback only through the callback. *)
Definition load_calls : Prop := forall U ctx h len off (fn : callback Reader U) u s (I : U -> Prop),
  (forall rd u, I u -> I (fn rd u).1) -> I u -> I (be_Load be ctx h len off fn u s).1.2.

Context (HP : files_keep).
Context (Hash : list byte -> ID) (key : Key) (xxhash : string -> nat) (idx : BlobHandle -> list PackedBlob).
Context (dst : string) (Join : string -> string -> string) (ErrorFn : string -> error -> option error).
Context (files_order : gset nat -> list nat) (targets_order : gmap nat (list Z) -> list (nat * list Z)).
Context (sort_blobs : gmap ID blobInfo -> list (ID * blobInfo)).

Lemma writeToFile_keeps path b off size w : T path -> P w.2 -> P (writeToFile xxhash path b off size w).1.2.
Proof using HP.
  destruct HP as [K1 K2 K3 K4]. intros Hp Hw. destruct w as [w f]. cbn in Hw.
  assert (Hr : forall w f, P f -> P (releaseWriter xxhash path (w, f)).1.2).
  { intros w' f' Hf. unfold releaseWriter. destruct (w' !! _); [|done]. case_bool_decide; [|done].
    specialize (K4 path f' Hp Hf). by destruct (os_Close path f'). }
  assert (Ha : P (acquireWriter xxhash path size (w, f)).1.2).
  { unfold acquireWriter. destruct (w !! _); [|done]. case_bool_decide; [done|].
    specialize (K1 path (0 <=? size) f Hp Hw). destruct (os_OpenFile path _ f) as [f1 [e|]]; [done|]. cbn in *.
    destruct (0 <=? size); [by apply K2|done]. }
  unfold writeToFile. destruct (acquireWriter _ _ _ _) as [[w1 f1] [e|]]; [done|]. cbn in Ha.
  specialize (K3 path b off f1 Hp Ha). destruct (os_WriteAt path b off f1) as [f2 [e|]]; by apply Hr.
Qed.

Definition kept (st : dlstate (F := F)) : Prop :=
  (forall i file, st.1 !! i = Some file -> T (Join dst (rf_location file))) /\ P st.2.2.

Lemma write_blob_keeps i b off st : kept st -> kept (write_blob xxhash dst Join ErrorFn i b off st).1.
Proof using HP.
  destruct st as [files w]. intros [Hf Hw]. unfold write_blob. destruct (files !! i) as [file|] eqn:E; [|done].
  pose proof (writeToFile_keeps (Join dst (rf_location file)) b off (if rf_inProgress file then -1 else rf_size file) w (Hf i file E) Hw) as Hk.
  unfold targetPath. destruct (writeToFile _ _ _ _ _ _) as [w' err]. split; [|done]. cbn [fst] in *.
  intros j g. destruct (decide (j = i)) as [->|Hne]; [|rewrite list_lookup_insert_ne by done; apply Hf].
  rewrite list_lookup_insert_eq by (by eapply lookup_lt_Some). intros [= <-]. by apply (Hf i file).
Qed.
Lemma write_offsets_keeps i b offs st : kept st -> kept (write_offsets xxhash dst Join ErrorFn i b offs st).1.
Proof using HP.
  revert st. induction offs as [|o offs IH]; intros st Hst; [done|]. cbn [write_offsets].
  pose proof (write_blob_keeps i b o st Hst). destruct (write_blob _ _ _ _ _ _ _ st) as [st1 [e|]]; [done|]. by apply IH.
Qed.
Lemma write_targets_keeps b targets st : kept st -> kept (write_targets xxhash dst Join ErrorFn b targets st).1.
Proof using HP.
  revert st. induction targets as [|[i offs] targets IH]; intros st Hst; [done|]. cbn [write_targets].
  pose proof (write_offsets_keeps i b offs st Hst). destruct (write_offsets _ _ _ _ _ _ _ st) as [st1 [e|]]; [done|]. by apply IH.
Qed.
Lemma download_blobs_keeps bl cur rd st : kept st -> kept (download_blobs Hash key xxhash dst Join ErrorFn targets_order bl cur rd st).1.
Proof using HP.
  revert cur rd st. induction bl as [|[id blob] bl IH]; intros cur rd st Hst; [done|]. cbn [download_blobs].
  destruct (Discard _ rd) as [rd1 [e|]]; [done|]. destruct (downloadBlob rd1 _) as [rd2 [buf|e]]; [|done].
  destruct (decryptBlob _ _ _ _) as [data|e|m]; [|destruct (report_files _ _ _ _); [done|by apply IH]|done].
  pose proof (write_targets_keeps data (targets_order (bi_files blob)) st Hst).
  destruct (write_targets _ _ _ _ _ _ st) as [st1 [e|]]; [done|]. by apply IH.
Qed.
Lemma pack_callback_keeps bl start rd u : kept u.1 -> kept (pack_callback Hash key xxhash dst Join ErrorFn targets_order bl start rd u).1.1.
Proof using HP.
  destruct u as [st [m|]]; [done|]. intros Hst. pose proof (download_blobs_keeps bl start rd st Hst) as Hk.
  cbn [pack_callback]. by destruct (download_blobs _ _ _ _ _ _ _ bl start rd st) as [st1 [x|e|m]].
Qed.
Lemma downloadPack_keeps pack st s : load_calls -> kept st ->
  kept (downloadPack be Hash key xxhash idx dst Join ErrorFn files_order targets_order sort_blobs pack st s).1.2.
Proof using HP.
  intros HL Hst. unfold downloadPack. destruct (collect_files _ _ _ _ _) as [[start end_ blobs]|e|m]; [|done..].
  pose proof (HL _ false (mkBeHandle PackFile DataBlob (ID_String (pi_id pack))) (end_ - start) start
    (pack_callback Hash key xxhash dst Join ErrorFn targets_order (sort_blobs blobs) start) (st, None) s (fun u => kept u.1)
    (pack_callback_keeps _ _) Hst) as Hk.
  destruct (be_Load _ _ _ _ _ _ _ _) as [[s1 [st1 [m|]]] [e|]]; [done..| |done]. by destruct (report_files _ _ _ _).
Qed.
Lemma download_packs_keeps packs order st s : load_calls -> kept st ->
  kept (download_packs be Hash key xxhash idx dst Join ErrorFn files_order targets_order sort_blobs packs order st s).1.2.
Proof using HP.
  intros HL. revert st s. induction order as [|id order IH]; intros st s Hst; [done|]. cbn [download_packs].
  destruct (packs !! id) as [pack|]; [|done]. pose proof (downloadPack_keeps pack st s HL Hst) as Hk.
  destruct (downloadPack _ _ _ _ _ _ _ _ _ _ _ _ _ _) as [[s1 st1] [x|e|m]]; [by apply IH|done|done].
Qed.

Lemma scan_file_location i file st file' st' : scan_file idx i file st = Ok (file', st') -> rf_location file' = rf_location file.
Proof.
  unfold scan_file. destruct (rf_blobs file); [|done]. destruct (forEachBlob _ _ _ _) as [[[m o] st1]|e|m]; [|done..].
  intros [= <- _]. by destruct (_ <? _)%nat.
Qed.
Lemma scan_files_locations i files st files' st' : scan_files idx i files st = Ok (files', st') ->
  map rf_location files' = map rf_location files.
Proof.
  revert i st files'. induction files as [|file files IH]; intros i st files'; cbn [scan_files]; [by intros [= <- _]|].
  destruct (scan_file idx i file st) as [[file1 st1]|e|m] eqn:E1; cbn [mbind res_bind]; [|done..].
  destruct (scan_files idx (Datatypes.S i) files st1) as [[files1 st2]|e|m] eqn:E2; cbn [mbind res_bind]; [|done..].
  intros [= <- <-]. cbn [map]. by rewrite (IH _ _ _ E2), (scan_file_location _ _ _ _ _ E1).
Qed.

Lemma restoreFiles_keeps files f s : load_calls -> (forall file, file ∈ files -> T (Join dst (rf_location file))) -> P f ->
  P (restoreFiles be Hash key xxhash idx dst Join ErrorFn files_order targets_order sort_blobs files f s).1.2.2.2.
Proof using HP.
  intros HL Hf HPf. unfold restoreFiles. destruct (scan_files idx 0 files (∅, [])) as [[files' [packs order]]|e|m] eqn:E; [|done..].
  apply (download_packs_keeps packs order (files', (newFilesWriter workerCount, f)) s HL). split; [|done]. cbn [fst].
  intros i file Hi. apply scan_files_locations in E.
  assert (Hl : map rf_location files' !! i = Some (rf_location file)) by (by rewrite list_lookup_fmap, Hi).
  rewrite E in Hl. apply list_lookup_fmap_Some in Hl as (g & -> & Hg). apply Hf. by eapply list_elem_of_lookup_2.
Qed.
End frame.

Section confined.
Context (cs : list string) (cs_plain : Forall plain cs).

(** A path below the target directory: the directory itself, or strictly
    below it. *)
Definition inside (p : string) : Prop := exists names, Forall plain names /\ p = render (cs ++ names).
Definition below (p : string) : Prop := exists names, names ≠ [] /\ Forall plain names /\ p = render (cs ++ names).
Definition location_ok (l : string) : Prop := exists names, names ≠ [] /\ Forall plain names /\ l = render names.
(** A system call that stays inside. *)
Definition confined (c : syscall) : Prop :=
  match c with
  | MkdirAll p _ | OpenDir p | CloseDir p => inside p
  | Mkdir p _ | Symlink _ p | Mknod p _ _ | Lchown p _ _ | Chmod p _ | UtimesNano p _ _ | XattrSet p _ _ | Remove p => below p
  | UtimesNanoAt dir base _ _ => inside dir /\ plain base
  | Link old new => below old /\ below new
  end.

Section traversal.
Context {W : Type} (LoadTree : ID -> Tree + error) (ErrorFn : string -> error -> option error).
Context (SelectFilter : string -> string -> Node -> bool * bool) (visitor : treeVisitor W) (P : W -> Prop).

(** A visit of a node with its own name, below the target directory. *)
Definition fn_keeps (fn : visit_fn W) : Prop := forall node names w, Forall plain (names ++ [n_Name node]) -> P w ->
  P (fn node (render (cs ++ names ++ [n_Name node])) (render (names ++ [n_Name node])) w).1.
Context (keeps_enter : forall fn, tv_enterDir visitor = Some fn -> fn_keeps fn).
Context (keeps_visit : fn_keeps (tv_visitNode visitor)).
Context (keeps_leave : forall fn, tv_leaveDir visitor = Some fn -> fn_keeps fn).

Lemma visit_if_keeps cond fn node names w : (forall f, fn = Some f -> fn_keeps f) -> Forall plain (names ++ [n_Name node]) -> P w ->
  P (visit_if ErrorFn cond fn node (render (cs ++ names ++ [n_Name node])) (render (names ++ [n_Name node])) w).1.
Proof using Type.
  intros Hf Hn Hw. unfold visit_if. destruct fn as [fn|]; [|done]. destruct cond; [|done].
  specialize (Hf fn eq_refl node names w Hn Hw). by destruct (fn node _ _ w).
Qed.

Definition rec_keeps (rec : string -> string -> ID -> W -> tresult (W := W)) : Prop := forall names id w w' r, Forall plain names -> P w ->
  rec (render (cs ++ names)) (render names) id w = Ok (w', r) -> P w'.

Lemma traverse_nodes_keeps rec nodes : rec_keeps rec -> forall names has w w' r, Forall plain names -> P w ->
  traverse_nodes ErrorFn SelectFilter visitor rec (render (cs ++ names)) (render names) nodes has w = Ok (w', r) -> P w'.
Proof using cs_plain keeps_enter keeps_visit keeps_leave.
  intros Hrec names. induction nodes as [|node nodes IH]; intros has w w' r Hn Hw; [by intros [= <- _]|].
  cbn [traverse_nodes]. assert (Hcn : Forall plain (cs ++ names)) by by apply Forall_app.
  destruct (bool_decide_reflect (Base (Join ["/"%string; n_Name node]) = n_Name node)) as [Eb|Eb]; cbn [negb].
  2: { destruct (ErrorFn _ _); [by intros [= <- _]|by apply IH]. }
  rewrite Eb. destruct (base_check _ Eb) as [Hp|Hroot].
  2: { rewrite Hroot, Join_root by done. rewrite (bool_decide_eq_true_2 (render (cs ++ names) = _)) by done. cbn [orb].
       destruct (ErrorFn _ _); [by intros [= <- _]|by apply IH]. }
  destruct (below_check (cs ++ names) (n_Name node) Hcn Hp) as [Hne Hpre].
  rewrite (bool_decide_eq_false_2 _ Hne), Hpre. cbn [orb negb].
  destruct (bool_decide _); [by apply IH|]. rewrite !Join_plain, <- app_assoc by done.
  assert (Hall : Forall plain (names ++ [n_Name node])) by by apply plain_app.
  destruct (SelectFilter _ _ node) as [sel child]. destruct (bool_decide (n_Type node = "dir"%string)).
  - destruct (n_Subtree node) as [sub|]; [|by intros [= <- _]].
    pose proof (visit_if_keeps sel _ node names w keeps_enter Hall Hw) as H1.
    destruct (visit_if _ sel _ node _ _ w) as [w1 [e|]]; [by intros [= <- _]|]. cbn [fst] in H1.
    assert (H2 : forall w2 q, (if child then '(w, (c, err)) ← rec (render (cs ++ names ++ [n_Name node])) (render (names ++ [n_Name node])) sub w1;
        Ok (w, (c, sanitize ErrorFn (render (names ++ [n_Name node])) err)) else Ok (w1, (false, None))) = Ok (w2, q) -> P w2).
    { intros w2 q. destruct child; [|by intros [= <- _]].
      destruct (rec _ _ sub w1) as [[w3 [c err]]|e|m] eqn:E; cbn [mbind res_bind]; [|done..]. intros [= <- _]. by eapply Hrec. }
    destruct (if child then _ else _) as [[w2 [c err]]|e|m] eqn:E; cbn [mbind res_bind]; [|done..]. specialize (H2 _ _ eq_refl).
    destruct err as [e|]; [by intros [= <- _]|].
    pose proof (visit_if_keeps (sel || c) _ node names w2 keeps_leave Hall H2) as H3.
    destruct (visit_if _ _ _ node _ _ w2) as [w3 [e|]]; [by intros [= <- _]|]. by apply IH.
  - pose proof (visit_if_keeps sel (Some (tv_visitNode visitor)) node names w ltac:(by intros f [= <-]) Hall Hw) as H1.
    destruct (visit_if _ sel _ node _ _ w) as [w1 [e|]]; [by intros [= <- _]|]. by apply IH.
Qed.

Lemma traverseTree_keeps fuel : rec_keeps (traverseTree LoadTree ErrorFn SelectFilter visitor fuel).
Proof using cs_plain keeps_enter keeps_visit keeps_leave.
  induction fuel as [|fuel IH]; intros names id w w' r Hn Hw; [done|]. cbn [traverseTree].
  destruct (LoadTree id) as [tree|err]; [|by intros [= <- _]]. by apply traverse_nodes_keeps.
Qed.
End traversal.

Section calls.
Context {F : Type} `{OSF : OS F} `{SF : Sys F} (P : F -> Prop).
(** [P] is kept by every call that stays inside. *)
Record calls_keep : Prop := {
  ck_files : files_keep below P;
  ck_call c f : confined c -> P f -> P (sys_call c f).1;
}.
Context (K : calls_keep) (LoadBlob : ID -> list byte + error) (IsExist IsPermission unsup : error -> bool) (Geteuid : Z).
#[local] Abbreviation keeps m := (forall f, P f -> P (m f).1).

Lemma call_keeps c : confined c -> keeps (sys_call c).
Proof using K. intros Hc f. by apply (ck_call K). Qed.
Lemma Setxattr_keeps p name v : below p -> keeps (Setxattr unsup p name v).
Proof using K.
  intros Hp f Hf. unfold Setxattr. pose proof (call_keeps (XattrSet p name v) Hp f Hf). by destruct (sys_call _ f) as [f1 [e|]].
Qed.
Lemma restoreExtendedAttributes_keeps attrs p : below p -> keeps (restoreExtendedAttributes unsup attrs p).
Proof using K.
  intros Hp. induction attrs as [|a attrs IH]; intros f Hf; [done|]. cbn [restoreExtendedAttributes].
  pose proof (Setxattr_keeps p (x_Name a) (x_Value a) Hp f Hf). destruct (Setxattr _ _ _ _ f) as [f1 [e|]]; [done|]. by apply IH.
Qed.
Lemma below_snoc names name : Forall plain (names ++ [name]) -> below (render (cs ++ names ++ [name])).
Proof using Type. intros Hn. exists (names ++ [name]). split; [by destruct names|done]. Qed.
Lemma Dir_below names name : Forall plain (names ++ [name]) -> Dir (render (cs ++ names ++ [name])) = render (cs ++ names)
  /\ Base (render (cs ++ names ++ [name])) = name.
Proof using cs_plain.
  intros Hn. rewrite app_assoc. assert (Hall : Forall plain ((cs ++ names) ++ [name])) by (rewrite <- app_assoc; by apply Forall_app).
  rewrite Dir_render, Base_render, last_snoc by done. done.
Qed.

Lemma RestoreTimestamps_keeps node names name : Forall plain (names ++ [name]) ->
  keeps (RestoreTimestamps node (render (cs ++ names ++ [name]))).
Proof using K cs_plain.
  intros Hn f Hf. pose proof (proj1 (plain_app _ _) Hn) as [Hns Hname]. destruct (Dir_below names name Hn) as [Hd Hb].
  assert (Hi : inside (render (cs ++ names))) by by exists names.
  unfold RestoreTimestamps, restoreSymlinkTimestamps. rewrite Hd, Hb. destruct (bool_decide _).
  - pose proof (call_keeps (OpenDir (render (cs ++ names))) Hi f Hf) as H1.
    destruct (sys_call (OpenDir _) f) as [f1 [e|]]; [done|]. cbn [fst] in H1.
    pose proof (call_keeps (UtimesNanoAt (render (cs ++ names)) name (UnixNano (n_AccessTime node)) (UnixNano (n_ModTime node)))
      (conj Hi Hname) f1 H1) as H2.
    destruct (sys_call (UtimesNanoAt _ _ _ _) f1) as [f2 [e|]]; by apply call_keeps.
  - pose proof (call_keeps (UtimesNano (render (cs ++ names ++ [name])) (UnixNano (n_AccessTime node)) (UnixNano (n_ModTime node)))
      (below_snoc _ _ Hn) f Hf) as H1. by destruct (sys_call _ f).
Qed.

Lemma RestoreMetadata_keeps node names name : Forall plain (names ++ [name]) ->
  keeps (RestoreMetadata IsPermission unsup Geteuid node (render (cs ++ names ++ [name]))).
Proof using K cs_plain.
  intros Hn f Hf. pose proof (below_snoc _ _ Hn) as Hp. set (p := render (cs ++ names ++ [name])) in *.
  unfold RestoreMetadata, restoreMetadata.
  pose proof (call_keeps (Lchown p (n_UID node) (n_GID node)) Hp f Hf) as H1. destruct (sys_call _ f) as [f1 e1]. cbn [fst] in H1.
  set (x := match e1 with Some _ => _ | None => _ end). clearbody x.
  assert (H2 : P (if negb (bool_decide (n_Type node = "symlink"%string)) then
      let '(f, err) := sys_call (Chmod p (n_Mode node)) f1 in (f, replace (Wrap err "Chmod") x) else (f1, x)).1).
  { destruct (negb _); [|done]. pose proof (call_keeps (Chmod p (n_Mode node)) Hp f1 H1). by destruct (sys_call _ f1). }
  destruct (if negb _ then _ else _) as [f2 e2]. cbn [fst] in H2.
  pose proof (RestoreTimestamps_keeps node names name Hn f2 H2) as H3. change (render _) with p in H3.
  destruct (RestoreTimestamps node p f2) as [f3 e3]. cbn [fst] in H3.
  pose proof (restoreExtendedAttributes_keeps (n_ExtendedAttributes node) p Hp f3 H3) as H4.
  by destruct (restoreExtendedAttributes _ _ p f3).
Qed.

Lemma writeNodeContent_keeps p content : below p -> forall off, keeps (writeNodeContent LoadBlob p content off).
Proof using K.
  intros Hp. induction content as [|id content IH]; intros off f Hf; [done|]. cbn [writeNodeContent].
  destruct (LoadBlob id) as [buf|e]; [|done]. pose proof (keep_write _ _ (ck_files K) p buf off f Hp Hf).
  destruct (os_WriteAt p buf off f) as [f1 [e|]]; [done|]. by apply IH.
Qed.
Lemma CreateAt_keeps node p : below p -> keeps (CreateAt LoadBlob IsExist node p).
Proof using K.
  intros Hp f Hf. unfold CreateAt.
  repeat case_bool_decide; try done; try (by apply call_keeps).
  - unfold createDirAt. pose proof (call_keeps (Mkdir p (n_Mode node)) Hp f Hf). by destruct (sys_call _ f) as [f1 [e|]].
  - unfold createFileAt. pose proof (keep_open _ _ (ck_files K) p true f Hp Hf) as H1.
    destruct (os_OpenFile p true f) as [f1 [e|]]; [done|]. cbn [fst] in H1.
    pose proof (writeNodeContent_keeps p (default [] (n_Content node)) Hp 0 f1 H1) as H2.
    destruct (writeNodeContent _ _ _ _ f1) as [f2 e2]. cbn [fst] in H2.
    pose proof (keep_close _ _ (ck_files K) p f2 Hp H2) as H3. destruct (os_Close p f2) as [f3 e3]. by destruct e2, e3.
  - unfold createSymlinkAt. pose proof (call_keeps (Symlink (n_LinkTarget node) p) Hp f Hf). by destruct (sys_call _ f).
Qed.

Lemma restoreNodeTo_keeps node names name loc : Forall plain (names ++ [name]) ->
  keeps (restoreNodeTo LoadBlob IsExist IsPermission unsup Geteuid node (render (cs ++ names ++ [name])) loc).
Proof using K cs_plain.
  intros Hn f Hf. unfold restoreNodeTo. pose proof (CreateAt_keeps node _ (below_snoc _ _ Hn) f Hf).
  destruct (CreateAt _ _ _ _ f) as [f1 [e|]]; [done|]. by apply RestoreMetadata_keeps.
Qed.
Lemma restoreHardlinkAt_keeps node old names name loc : below old -> Forall plain (names ++ [name]) ->
  keeps (restoreHardlinkAt IsPermission unsup Geteuid node old (render (cs ++ names ++ [name])) loc).
Proof using K cs_plain.
  intros Ho Hn f Hf. unfold restoreHardlinkAt. pose proof (below_snoc _ _ Hn) as Hp.
  pose proof (call_keeps (Remove _) Hp f Hf) as H1. destruct (sys_call (Remove _) f) as [f1 e1]. cbn [fst] in H1.
  destruct (negb _); [done|]. pose proof (call_keeps (Link old _) (conj Ho Hp) f1 H1) as H2.
  destruct (sys_call (Link _ _) f1) as [f2 [e|]]; [done|]. by apply RestoreMetadata_keeps.
Qed.
Lemma restoreEmptyFileAt_keeps node names name loc : Forall plain (names ++ [name]) ->
  keeps (restoreEmptyFileAt IsPermission unsup Geteuid node (render (cs ++ names ++ [name])) loc).
Proof using K cs_plain.
  intros Hn f Hf. unfold restoreEmptyFileAt. pose proof (below_snoc _ _ Hn) as Hp.
  pose proof (keep_open _ _ (ck_files K) _ true f Hp Hf) as H1. destruct (os_OpenFile _ true f) as [f1 [e|]]; [done|]. cbn [fst] in H1.
  pose proof (keep_close _ _ (ck_files K) _ f1 Hp H1) as H2. destruct (os_Close _ f1) as [f2 [e|]]; [done|]. by apply RestoreMetadata_keeps.
Qed.

Lemma location_target l : location_ok l -> below (Join [render cs; l]).
Proof using cs_plain. intros (names & Hne & Hn & ->). exists names. by rewrite Join_render. Qed.

(** The invariants of the passes. *)
Definition index_ok (idx : HardlinkIndex.index) : Prop := forall k l, idx !! k = Some l -> location_ok l.
Definition pass1_ok (w : pass1 (F := F)) : Prop :=
  P w.1.1 /\ index_ok w.1.2 /\ forall file, file ∈ w.2 -> location_ok (rf_location file).
Definition pass2_ok (w : pass2 (F := F)) : Prop := P w.1 /\ index_ok w.2.

Lemma index_ok_add idx i d l : index_ok idx -> location_ok l -> index_ok (HardlinkIndex.Add idx i d l).
Proof using Type.
  intros Hi Hl k l'. rewrite HardlinkIndex.lookup_Add. case_decide; [|apply Hi]. subst k.
  destruct (idx !! (i, d)) as [l0|] eqn:E; cbn [default]; intros [= <-]; [by eapply Hi|done].
Qed.

Lemma first_visitNode_keeps : fn_keeps pass1_ok first_visitNode.
Proof using K cs_plain.
  intros node names [[f idx] files] Hn (Hf & Hi & Hl). unfold first_visitNode. destruct (Dir_below _ _ Hn) as [-> _].
  pose proof (proj1 (plain_app _ _) Hn) as [Hns _].
  pose proof (call_keeps (MkdirAll (render (cs ++ names)) 448) (ex_intro _ names (conj Hns eq_refl)) f Hf) as H1.
  destruct (sys_call _ f) as [f1 [e|]]; [done|]. cbn [fst] in H1.
  assert (Hok : pass1_ok (f1, idx, files)) by (split; [done|by split]).
  destruct (negb _); [done|]. destruct (n_Size node =? 0); [done|]. destruct (_ && _); [done|].
  assert (Hloc : location_ok (render (names ++ [n_Name node]))) by (exists (names ++ [n_Name node]); split; [by destruct names|done]).
  split; [done|]. split; [destruct (1 <? _); [by apply index_ok_add|done]|].
  intros file [Hin| ->%list_elem_of_singleton]%elem_of_app; [by apply Hl|done].
Qed.
Lemma first_enterDir_keeps : fn_keeps pass1_ok first_enterDir.
Proof using K.
  intros node names [[f idx] files] Hn (Hf & Hi & Hl). unfold first_enterDir.
  assert (inside (render (cs ++ names ++ [n_Name node]))) by by eexists.
  pose proof (call_keeps (MkdirAll (render (cs ++ names ++ [n_Name node])) 448) ltac:(done) f Hf). by destruct (sys_call _ f).
Qed.
Lemma second_leaveDir_keeps : fn_keeps pass2_ok (second_leaveDir IsPermission unsup Geteuid).
Proof using K cs_plain.
  intros node names [f idx] Hn (Hf & Hi). unfold second_leaveDir, restoreNodeMetadataTo.
  pose proof (RestoreMetadata_keeps node names _ Hn f Hf). by destruct (RestoreMetadata _ _ _ _ _ f).
Qed.
Lemma second_visitNode_keeps : fn_keeps pass2_ok (second_visitNode LoadBlob IsExist IsPermission unsup Geteuid (render cs)).
Proof using K cs_plain.
  intros node names [f idx] Hn (Hf & Hi). unfold second_visitNode.
  set (p := render (cs ++ _)). set (l := render (names ++ _)).
  assert (Hloc : location_ok l) by (exists (names ++ [n_Name node]); split; [by destruct names|done]).
  destruct (negb (bool_decide (n_Type node = _))).
  { pose proof (restoreNodeTo_keeps node names _ l Hn f Hf) as H1. change (render _) with p in H1. by destruct (restoreNodeTo _ _ _ _ _ _ _ _ f). }
  destruct ((n_Size node =? 0) && _).
  { pose proof (restoreEmptyFileAt_keeps node names _ l Hn f Hf) as H1. change (render _) with p in H1.
    destruct (restoreEmptyFileAt _ _ _ _ _ _ f). split; [done|]. destruct (1 <? _); [by apply index_ok_add|done]. }
  destruct (HardlinkIndex.Has idx _ _) eqn:EH; cbn [andb].
  - destruct (negb _).
    + assert (Hold : below (targetPath (render cs) join2 (HardlinkIndex.GetFilename idx (n_Inode node) (n_DeviceID node)))).
      { apply bool_decide_eq_true in EH as [l' El]. unfold HardlinkIndex.GetFilename. rewrite El. apply location_target. by eapply Hi. }
      pose proof (restoreHardlinkAt_keeps node _ names _ l Hold Hn f Hf) as H1. change (render (cs ++ _)) with p in H1.
      by destruct (restoreHardlinkAt _ _ _ _ _ _ _ f).
    + pose proof (RestoreMetadata_keeps node names _ Hn f Hf) as H1. change (render _) with p in H1.
      unfold restoreNodeMetadataTo. by destruct (RestoreMetadata _ _ _ _ _ f).
  - pose proof (RestoreMetadata_keeps node names _ Hn f Hf) as H1. change (render _) with p in H1.
    unfold restoreNodeMetadataTo. by destruct (RestoreMetadata _ _ _ _ _ f).
Qed.
End calls.
Section restore_confined.
Context {S F : Type} (be : Backend S) {OSF : OS F} {SF : Sys F} {CP : CryptoPrims} (P : F -> Prop).
Context (LoadTree : ID -> Tree + error) (LoadBlob : ID -> list byte + error).
Context (IsExist IsPermission xattr_unsupported : error -> bool) (Geteuid : Z).
Context (ErrorFn : string -> error -> option error) (SelectFilter : string -> string -> Node -> bool * bool).
Context (Hash : list byte -> ID) (key : Key) (xxhash : string -> nat) (idx : BlobHandle -> list PackedBlob).
Context (files_order : gset nat -> list nat) (targets_order : gmap nat (list Z) -> list (nat * list Z)).
Context (sort_blobs : gmap ID blobInfo -> list (ID * blobInfo)).

(** C6: The paths of a restore stay below the target directory.  The target is
    absolute and clean ([render cs] for plain components [cs]; [filepath.Abs]
    cleans a relative one, an absolute one is taken as it is given).  Whatever
    the trees of a snapshot contain (names with slashes, dots, names of the
    root, links between directories), whatever the index and the packs hold,
    the filter selects and the error callback tolerates: [RestoreTo] makes only
    calls whose paths are the components of the target directory followed by
    plain names, so every property of the file system that such calls keep
    holds afterwards.  Directories are created at or below the target;
    everything else is created, linked, changed or removed strictly below.
    This is about the paths that are passed to the system; it does not say
    where the system goes when a component of such a path is a symbolic link. *)
Theorem RestoreTo_confined (Abs : string -> string + error) (fuel : nat) (tree : ID) (dst : string) (f f' : F) (s s' : S) (e : option error)
    (Hdst : (if IsAbs dst then inl dst else Abs dst) = inl (render cs)) (HL : load_calls be) (K : calls_keep P)
    (Hrun : RestoreTo be LoadTree LoadBlob IsExist IsPermission xattr_unsupported Geteuid ErrorFn SelectFilter Hash key xxhash idx
      files_order targets_order sort_blobs Abs fuel tree dst f s = Ok (s', f', e)) :
  P f -> P f'.
Proof using cs_plain.
  intros Hf. revert Hrun. unfold RestoreTo. rewrite Hdst.
  assert (H0 : pass1_ok P (f, HardlinkIndex.NewHardlinkIndex, [])).
  { split; [exact Hf|]. split; [intros k l Hk; by rewrite HardlinkIndex.lookup_new in Hk|by intros file Hin%elem_of_nil]. }
  destruct (traverseTree _ _ _ first_pass fuel (render cs) "/" tree _) as [[[[f1 index] files] [has err]]|x|m] eqn:E1; cbn [mbind res_bind]; [|done..].
  pose proof (traverseTree_keeps LoadTree ErrorFn SelectFilter first_pass (pass1_ok P)
    ltac:(intros fn [= <-]; by apply first_enterDir_keeps) ltac:(by apply first_visitNode_keeps) ltac:(done) fuel [] tree) as T1.
  rewrite app_nil_r in T1. change (render []) with "/"%string in T1.
  destruct (T1 _ _ _ ltac:(done) H0 E1) as (Hf1 & Hi & Hl). clear T1.
  cbn [fst snd] in *. destruct err as [err|]; [by intros [= <- <- <-]|].
  pose proof (restoreFiles_keeps be below P (ck_files _ K) Hash key xxhash idx (render cs) join2 ErrorFn files_order targets_order sort_blobs
    files f1 s HL ltac:(intros file Hin; by apply location_target, Hl) Hf1) as Hf2.
  destruct (restoreFiles _ _ _ _ _ _ _ _ _ _ _ _ _ _) as [[s2 [fs [w f2]]] [u|e2|m]]; [|by intros [= <- <- <-]|done].
  cbn [fst snd] in Hf2.
  destruct (traverseTree _ _ _ (second_pass _ _ _ _ _ _) fuel (render cs) "/" tree _) as [[[f3 index3] [has3 err3]]|x|m] eqn:E2;
    cbn [mbind res_bind]; [|done..].
  pose proof (traverseTree_keeps LoadTree ErrorFn SelectFilter
    (second_pass LoadBlob IsExist IsPermission xattr_unsupported Geteuid (render cs)) (pass2_ok P)
    ltac:(done) ltac:(by apply second_visitNode_keeps) ltac:(intros fn [= <-]; by apply second_leaveDir_keeps) fuel [] tree) as T2.
  rewrite app_nil_r in T2. change (render []) with "/"%string in T2.
  destruct (T2 (f2, index) _ _ ltac:(done) ltac:(split; [exact Hf2|exact Hi]) E2) as (Hf3 & _). by intros [= <- <- <-].
Qed.
End restore_confined.
End confined.

(** ** What a restored snapshot contains *)

(** The visits of a traversal that selects everything: the node and its path
    from the root. *)
Inductive event : Type := Enter (node : Node) (names : list string) | Visit (node : Node) (names : list string) | Leave (node : Node) (names : list string).

Section events.
Context (LoadTree : ID -> Tree + error).

(** The visits of well-formed nodes below the directory [names]: plain names,
    and subtrees that can be loaded. *)
Inductive tree_events : list string -> list Node -> list event -> Prop :=
| te_nil names : tree_events names [] []
| te_dir names node nodes sub tree inner rest : plain (n_Name node) -> n_Type node = "dir"%string ->
    n_Subtree node = Some sub -> LoadTree sub = inl tree ->
    tree_events (names ++ [n_Name node]) (t_Nodes tree) inner -> tree_events names nodes rest ->
    tree_events names (node :: nodes) (Enter node (names ++ [n_Name node]) :: inner ++ Leave node (names ++ [n_Name node]) :: rest)
| te_socket names node nodes rest : plain (n_Name node) -> n_Type node = "socket"%string ->
    tree_events names nodes rest -> tree_events names (node :: nodes) rest
| te_other names node nodes rest : plain (n_Name node) -> n_Type node ≠ "dir"%string -> n_Type node ≠ "socket"%string ->
    tree_events names nodes rest -> tree_events names (node :: nodes) (Visit node (names ++ [n_Name node]) :: rest).

Context {W : Type} (ErrorFn : string -> error -> option error) (visitor : treeVisitor W).
Context (SelectFilter : string -> string -> Node -> bool * bool).
Context (strict : forall l e, ErrorFn l e ≠ None) (select_all : forall l t n, SelectFilter l t n = (true, true)).
Context (cs : list string) (cs_plain : Forall plain cs).

Definition run_fn (fn : option (visit_fn W)) (node : Node) (names : list string) (w : W) : W * option error :=
  match fn with Some fn => fn node (render (cs ++ names)) (render names) w | None => (w, None) end.
Definition run_event (ev : event) : W -> W * option error :=
  match ev with
  | Enter node names => run_fn (tv_enterDir visitor) node names
  | Visit node names => run_fn (Some (tv_visitNode visitor)) node names
  | Leave node names => run_fn (tv_leaveDir visitor) node names
  end.
Fixpoint run_events (evs : list event) (w : W) : W * option error :=
  match evs with
  | [] => (w, None)
  | ev :: evs => match run_event ev w with (w, Some e) => (w, Some e) | (w, None) => run_events evs w end
  end.

Lemma run_events_app a b w : run_events (a ++ b) w = match run_events a w with (w, Some e) => (w, Some e) | (w, None) => run_events b w end.
Proof using Type. revert w. induction a as [|x a IH]; intros w; [done|]. cbn. destruct (run_event x w) as [w1 [e|]]; [done|]. apply IH. Qed.

Lemma sanitize_none l err : sanitize ErrorFn l err = None <-> err = None.
Proof using strict.
  destruct err as [e|]; [|done]. cbn. split; [|done]. destruct e; intros E; try done; by apply strict in E.
Qed.

(** The traversal runs the visits in order, up to the first error. *)
Definition runs (res : tresult (W := W)) (evs : list event) (w : W) : Prop := exists b err,
  res = Ok ((run_events evs w).1, (b, err)) /\ (err = None <-> (run_events evs w).2 = None).

Lemma visit_runs cond fn node names w : cond = true ->
  visit_if ErrorFn cond fn node (render (cs ++ names)) (render names) w
  = let '(w, err) := run_fn fn node names w in (w, sanitize ErrorFn (render names) err).
Proof using Type. intros ->. unfold visit_if. by destruct fn. Qed.

Lemma traverse_runs names nodes evs : Forall plain names -> tree_events names nodes evs -> exists k, forall fuel, (k <= fuel)%nat ->
  forall has w, runs (traverse_nodes ErrorFn SelectFilter visitor (traverseTree LoadTree ErrorFn SelectFilter visitor fuel)
    (render (cs ++ names)) (render names) nodes has w) evs w.
Proof using strict select_all cs_plain.
  intros Hn Hev. induction Hev as [names|names node nodes sub tree inner rest Hp Ht Hs Hl Hev1 IH1 Hev2 IH2
    |names node nodes rest Hp Ht Hev IH|names node nodes rest Hp Ht Ht' Hev IH].
  { exists 0%nat. intros fuel _ has w. by exists has, None. }
  all: assert (Hall : Forall plain (names ++ [n_Name node])) by by apply plain_app.
  all: assert (Hcn : Forall plain (cs ++ names)) by by apply Forall_app.
  all: destruct (below_check (cs ++ names) (n_Name node) Hcn Hp) as [Hne Hpre].
  - destruct (IH1 Hall) as [k1 H1], (IH2 Hn) as [k2 H2]. exists (S (k1 + k2)). intros fuel Hf has w.
    destruct fuel as [|fuel]; [lia|]. cbn [traverse_nodes].
    rewrite base_check_plain, (bool_decide_eq_true_2 (n_Name node = _)), (bool_decide_eq_false_2 _ Hne), Hpre by done. cbn [orb negb].
    rewrite (bool_decide_eq_false_2 (n_Type node = "socket"%string)) by (by rewrite Ht).
    rewrite (bool_decide_eq_true_2 (n_Type node = "dir"%string)) by done.
    rewrite !Join_plain, <- app_assoc, select_all, Hs, visit_runs, orb_true_r by done.
    unfold runs. cbn [run_events run_event].
    destruct (run_fn (tv_enterDir visitor) _ _ _) as [w1 e1].
    destruct (sanitize ErrorFn _ e1) as [e|] eqn:Es.
    { exists true, (Some e). destruct e1; [|done]. done. }
    apply sanitize_none in Es as ->. rewrite run_events_app. cbn [traverseTree]. rewrite Hl.
    destruct (H1 fuel ltac:(lia) false w1) as (b & err & E & Herr). rewrite E. cbn [mbind res_bind].
    destruct (run_events inner w1) as [w2 e2]. cbn [fst snd] in *.
    destruct (sanitize ErrorFn _ err) as [e|] eqn:Es.
    { exists true, (Some e). destruct e2; [done|]. destruct Herr as [_ Herr]. rewrite Herr in Es by done. done. }
    apply sanitize_none in Es. apply Herr in Es as ->. cbn [orb run_events run_event]. rewrite visit_runs by done.
    destruct (run_fn (tv_leaveDir visitor) _ _ _) as [w3 e3].
    destruct (sanitize ErrorFn _ e3) as [e|] eqn:Es.
    { exists true, (Some e). destruct e3; [|done]. done. }
    apply sanitize_none in Es as ->. apply (H2 (S fuel) ltac:(lia)).
  - destruct (IH Hn) as [k H1]. exists k. intros fuel Hf has w. cbn [traverse_nodes].
    rewrite base_check_plain, (bool_decide_eq_true_2 (n_Name node = _)), (bool_decide_eq_false_2 _ Hne), Hpre by done. cbn [orb negb].
    rewrite (bool_decide_eq_true_2 (n_Type node = _)) by done. by apply H1.
  - destruct (IH Hn) as [k H1]. exists k. intros fuel Hf has w. cbn [traverse_nodes].
    rewrite base_check_plain, bool_decide_eq_true_2, (bool_decide_eq_false_2 _ Hne), Hpre by done. cbn [orb negb].
    rewrite !(bool_decide_eq_false_2 (n_Type node = _)) by done.
    rewrite !Join_plain, <- app_assoc, select_all, visit_runs, orb_true_r by done.
    unfold runs. cbn [run_events run_event]. destruct (run_fn (Some (tv_visitNode visitor)) _ _ _) as [w1 e1].
    destruct (sanitize ErrorFn _ e1) as [e|] eqn:Es.
    { exists true, (Some e). destruct e1; [|done]. done. }
    apply sanitize_none in Es as ->. by apply H1.
Qed.

Lemma traverseTree_runs id tree evs : LoadTree id = inl tree -> tree_events [] (t_Nodes tree) evs -> exists k, forall fuel, (k <= fuel)%nat ->
  forall w, runs (traverseTree LoadTree ErrorFn SelectFilter visitor fuel (render cs) "/" id w) evs w.
Proof using strict select_all cs_plain.
  intros Hl Hev. destruct (traverse_runs [] (t_Nodes tree) evs ltac:(done) Hev) as [k Hk]. exists (S k). intros [|fuel] Hf w; [lia|].
  cbn [traverseTree]. rewrite Hl. specialize (Hk fuel ltac:(lia) false w). by rewrite app_nil_r in Hk.
Qed.
End events.

(** System calls touch the contents of no other regular file; removing a file
    that does not exist reports that; a link has the contents of the old
    name. *)
Definition touches (c : syscall) (q : string) : Prop :=
  match c with Remove p => q = p | Link _ p => q = p | _ => False end.
Class SysLaws (F : Type) `{OSL : OSLaws F} `{SF : Sys F} : Prop := {
  sys_frame c f q : ¬ touches c q -> os_file (sys_call c f).1 q = os_file f q;
  sys_remove_absent p f : os_writable p -> os_file f p = None ->
    (sys_call (Remove p) f).2 = Some ENotFound /\ os_file (sys_call (Remove p) f).1 p = None;
  sys_link old new f f' d : os_file f old = Some d -> sys_call (Link old new) f = (f', None) -> os_file f' new = Some d;
}.

Section calls_frame.
Context {F : Type} `{SL : SysLaws F} (LoadBlob : ID -> list byte + error) (IsExist IsPermission unsup : error -> bool) (Geteuid : Z).
#[local] Abbreviation same f f' := (forall q, os_file f' q = os_file f q).

Lemma call_same c f : (forall q, ¬ touches c q) -> same f (sys_call c f).1.
Proof using SL. intros Hc q. by apply sys_frame. Qed.
Lemma restoreExtendedAttributes_same attrs p f : same f (restoreExtendedAttributes unsup attrs p f).1.
Proof using SL.
  revert f. induction attrs as [|a attrs IH]; intros f q; [done|]. cbn [restoreExtendedAttributes]. unfold Setxattr.
  pose proof (call_same (XattrSet p (x_Name a) (x_Value a)) f ltac:(by intros ? []) q) as H1.
  destruct (sys_call _ f) as [f1 [e|]]; [destruct (unsup e); [by rewrite IH|done]|by rewrite IH].
Qed.
Lemma RestoreTimestamps_same node p f : same f (RestoreTimestamps node p f).1.
Proof using SL.
  intros q. unfold RestoreTimestamps, restoreSymlinkTimestamps. destruct (bool_decide _).
  - pose proof (call_same (OpenDir (Dir p)) f ltac:(by intros ? []) q) as H1. destruct (sys_call (OpenDir _) f) as [f1 [e|]]; [done|].
    pose proof (call_same (UtimesNanoAt (Dir p) (Base p) (UnixNano (n_AccessTime node)) (UnixNano (n_ModTime node))) f1 ltac:(by intros ? []) q) as H2.
    destruct (sys_call (UtimesNanoAt _ _ _ _) f1) as [f2 [e|]]; cbn [fst] in *; rewrite call_same by (by intros ? []); congruence.
  - pose proof (call_same (UtimesNano p (UnixNano (n_AccessTime node)) (UnixNano (n_ModTime node))) f ltac:(by intros ? []) q) as H1.
    by destruct (sys_call _ f).
Qed.
Lemma RestoreMetadata_same node p f : same f (RestoreMetadata IsPermission unsup Geteuid node p f).1.
Proof using SL.
  intros q. unfold RestoreMetadata, restoreMetadata.
  pose proof (call_same (Lchown p (n_UID node) (n_GID node)) f ltac:(by intros ? []) q) as H1. destruct (sys_call _ f) as [f1 e1].
  set (x := match e1 with Some _ => _ | None => _ end). clearbody x.
  assert (H2 : os_file (if negb (bool_decide (n_Type node = "symlink"%string)) then
      let '(f, err) := sys_call (Chmod p (n_Mode node)) f1 in (f, replace (Wrap err "Chmod") x) else (f1, x)).1 q = os_file f q).
  { destruct (negb _); [|done]. pose proof (call_same (Chmod p (n_Mode node)) f1 ltac:(by intros ? []) q) as H2.
    destruct (sys_call _ f1). cbn [fst] in *. congruence. }
  destruct (if negb _ then _ else _) as [f2 e2].
  pose proof (RestoreTimestamps_same node p f2 q) as H3. destruct (RestoreTimestamps node p f2) as [f3 e3].
  pose proof (restoreExtendedAttributes_same (n_ExtendedAttributes node) p f3 q) as H4. destruct (restoreExtendedAttributes _ _ p f3).
  cbn [fst] in *. congruence.
Qed.
Lemma restoreNodeTo_same node p loc f : n_Type node ≠ "file"%string ->
  same f (restoreNodeTo LoadBlob IsExist IsPermission unsup Geteuid node p loc f).1.
Proof using SL.
  intros Ht q. unfold restoreNodeTo.
  assert (H1 : os_file (CreateAt LoadBlob IsExist node p f).1 q = os_file f q).
  { unfold CreateAt. rewrite (bool_decide_eq_false_2 (n_Type node = "file"%string)) by done.
    repeat case_bool_decide; try done; try (apply call_same; by intros ? []).
    - unfold createDirAt. pose proof (call_same (Mkdir p (n_Mode node)) f ltac:(by intros ? []) q). by destruct (sys_call _ f) as [f1 [e|]].
    - unfold createSymlinkAt. pose proof (call_same (Symlink (n_LinkTarget node) p) f ltac:(by intros ? []) q). by destruct (sys_call _ f). }
  destruct (CreateAt _ _ node p f) as [f1 [e|]]; [done|]. unfold restoreNodeMetadataTo. rewrite RestoreMetadata_same. done.
Qed.
Lemma restoreEmptyFileAt_same node p loc f : os_writable p ->
  let f' := (restoreEmptyFileAt IsPermission unsup Geteuid node p loc f).1 in
  os_file f' p = Some [] /\ forall q, q ≠ p -> os_file f' q = os_file f q.
Proof using SL.
  intros Hp. unfold restoreEmptyFileAt. destruct (os_create p f Hp) as (f1 & -> & H1 & Ho).
  destruct (os_close p f1) as (f2 & -> & Ho2). cbn zeta. unfold restoreNodeMetadataTo.
  split; [by rewrite RestoreMetadata_same, Ho2|]. intros q Hq. by rewrite RestoreMetadata_same, Ho2, Ho.
Qed.
Lemma restoreHardlinkAt_same node old p loc f f' d : os_writable p -> os_file f p = None -> os_file f old = Some d ->
  restoreHardlinkAt IsPermission unsup Geteuid node old p loc f = (f', None) ->
  os_file f' p = Some d /\ forall q, q ≠ p -> os_file f' q = os_file f q.
Proof using SL.
  intros Hp Hn Ho. unfold restoreHardlinkAt. destruct (sys_remove_absent p f Hp Hn) as [Hr1 Hr2].
  assert (Hfr : forall q, q ≠ p -> os_file (sys_call (Remove p) f).1 q = os_file f q) by (intros q Hq; by apply sys_frame).
  destruct (sys_call (Remove p) f) as [f1 e1]. cbn [fst snd] in *. subst e1. unfold IsNotExist.
  rewrite bool_decide_eq_true_2 by done. cbn [negb].
  assert (Hop : old ≠ p) by congruence. rewrite <- Hfr in Ho by done.
  pose proof (sys_link old p f1) as Hlink. pose proof (fun q => sys_frame (Link old p) f1 q) as Hfr2.
  destruct (sys_call (Link old p) f1) as [f2 [e|]]; [done|]. intros E. cbn [fst] in Hfr2.
  pose proof (RestoreMetadata_same node p f2) as Hm. unfold restoreNodeMetadataTo in E. rewrite E in Hm. cbn [fst] in Hm.
  split; [rewrite Hm; by apply (Hlink f2 d)|]. intros q Hq. rewrite Hm, Hfr2, Hfr by done. done.
Qed.
End calls_frame.

(** *** The first pass *)

(** A file visited: its node and its path; and what it will be. *)
Abbreviation fvisit := (Node * list string)%type.
Definition file_visits (evs : list event) : list fvisit :=
  omap (fun ev => match ev with Visit n ns => if bool_decide (n_Type n = "file"%string) then Some (n, ns) else None | _ => None end) evs.
Definition link_key (v : fvisit) : Z * Z := (n_Inode v.1, n_DeviceID v.1).
Definition linked (v : fvisit) : bool := 1 <? n_Links v.1.
Definition loc (v : fvisit) : string := render v.2.
Definition file_of (v : fvisit) : fileInfo := mkRFile false (i64 (n_Size v.1)) (loc v) (inl (node_ids v.1)).

(** What the first pass does with a file. *)
Definition first_step (st : HardlinkIndex.index * list fileInfo) (v : fvisit) : HardlinkIndex.index * list fileInfo :=
  let '(idx, files) := st in
  if n_Size v.1 =? 0 then st
  else if linked v && HardlinkIndex.Has idx (n_Inode v.1) (n_DeviceID v.1) then st
  else (if linked v then HardlinkIndex.Add idx (n_Inode v.1) (n_DeviceID v.1) (loc v) else idx, files ++ [file_of v]).

(** A file whose contents the first pass restores: not empty, and the first
    of its hard links. *)
Definition primary (idx : HardlinkIndex.index) (v : fvisit) : Prop :=
  n_Size v.1 ≠ 0 /\ (linked v = true -> idx !! link_key v = Some (loc v)).

Lemma Has_lookup idx (v : fvisit) : HardlinkIndex.Has idx (n_Inode v.1) (n_DeviceID v.1) = true <-> is_Some (idx !! link_key v).
Proof. unfold HardlinkIndex.Has. apply bool_decide_eq_true. Qed.

Record first_ok (pre : list fvisit) (st : HardlinkIndex.index * list fileInfo) : Prop := {
  fo_sub : exists sub, sub `sublist_of` pre /\ st.2 = map file_of sub /\ (forall v, v ∈ sub <-> v ∈ pre /\ primary st.1 v);
  fo_idx k l : st.1 !! k = Some l -> exists v, v ∈ pre /\ link_key v = k /\ linked v = true /\ n_Size v.1 ≠ 0 /\ l = loc v;
  fo_linked v : v ∈ pre -> linked v = true -> n_Size v.1 ≠ 0 -> is_Some (st.1 !! link_key v);
}.

Lemma first_step_ok pre v st : (forall v', v' ∈ pre -> loc v' ≠ loc v) -> first_ok pre st -> first_ok (pre ++ [v]) (first_step st v).
Proof.
  destruct st as [idx files]. intros Hloc [(sub & Hsub & Hfiles & Hmem) Hi Hl]. cbn [fst snd] in *. unfold first_step.
  assert (Hin : forall w, w ∈ pre ++ [v] <-> w ∈ pre \/ w = v) by (intros w; by rewrite elem_of_app, list_elem_of_singleton).
  assert (Hskip : ¬ primary idx v -> (linked v = true -> n_Size v.1 ≠ 0 -> is_Some (idx !! link_key v)) -> first_ok (pre ++ [v]) (idx, files)).
  { intros Hnp Hk. split; cbn [fst snd].
    - exists sub. split; [by apply sublist_inserts_r|]. split; [done|]. intros w. rewrite Hin, Hmem. naive_solver.
    - intros k l Hkl. destruct (Hi k l Hkl) as (w & Hw & ?). exists w. rewrite Hin. auto.
    - intros w. rewrite Hin. intros [Hw| ->]; [by apply Hl|done]. }
  destruct (Z.eqb_spec (n_Size v.1) 0) as [H0|H0]; [apply Hskip; [by intros [? _]|done]|].
  destruct (linked v) eqn:El; cbn [andb].
  - destruct (HardlinkIndex.Has idx _ _) eqn:EH.
    + apply Has_lookup in EH as [l El']. apply Hskip; [|by rewrite El'].
      intros [_ Hp]. rewrite Hp in El' by done. injection El' as <-.
      destruct (Hi _ _ (Hp El)) as (w & Hw & _ & _ & _ & E). by apply (Hloc w Hw).
    + assert (Hnone : idx !! link_key v = None).
      { destruct (idx !! link_key v) eqn:E; [|done]. assert (HardlinkIndex.Has idx (n_Inode v.1) (n_DeviceID v.1) = true) by (apply Has_lookup; by rewrite E). congruence. }
      set (idx' := HardlinkIndex.Add idx _ _ _).
      assert (Hadd : forall k, idx' !! k = if decide (k = link_key v) then Some (loc v) else idx !! k).
      { intros k. unfold idx'. rewrite HardlinkIndex.lookup_Add. change (n_Inode v.1, n_DeviceID v.1) with (link_key v).
        case_decide; [subst; by rewrite Hnone|done]. }
      assert (Hprim : forall w, w ∈ pre -> primary idx' w <-> primary idx w).
      { intros w Hw. unfold primary. rewrite Hadd. case_decide as Ek; [|done]. split; intros [? Hp]; (split; [done|]); intros Elw.
        - exfalso. apply (Hloc w Hw). specialize (Hp Elw). congruence.
        - specialize (Hp Elw). rewrite Ek in Hp. congruence. }
      split; cbn [fst snd].
      * exists (sub ++ [v]). split; [by apply sublist_app|]. split; [by rewrite Hfiles, map_app|].
        intros w. rewrite elem_of_app, list_elem_of_singleton, Hmem, Hin. split.
        -- intros [[Hw Hp]| ->]; [split; [by left|by apply Hprim]|]. split; [by right|]. split; [done|]. intros _. rewrite Hadd. by rewrite decide_True.
        -- intros [[Hw| ->] Hp]; [left; split; [done|by apply Hprim]|by right].
      * intros k l. rewrite Hadd. case_decide as Ek.
        -- intros [= <-]. exists v. rewrite Hin. auto.
        -- intros Hkl. destruct (Hi k l Hkl) as (w & Hw & ?). exists w. rewrite Hin. auto.
      * intros w. rewrite Hin, Hadd. intros Hw Hlw Hsw. case_decide; [done|]. destruct Hw as [Hw| ->]; [by apply Hl|done].
  - split; cbn [fst snd].
    + exists (sub ++ [v]). split; [by apply sublist_app|]. split; [by rewrite Hfiles, map_app|].
      intros w. rewrite elem_of_app, list_elem_of_singleton, Hmem, Hin. split; [|naive_solver].
      intros [[Hw Hp]| ->]; [auto|]. split; [by right|]. split; [done|]. by rewrite El.
    + intros k l Hkl. destruct (Hi k l Hkl) as (w & Hw & ?). exists w. rewrite Hin. auto.
    + intros w. rewrite Hin. intros [Hw| ->]; [by apply Hl|congruence].
Qed.

Lemma first_steps_ok l : forall pre st, NoDup (map loc (pre ++ l)) -> first_ok pre st -> first_ok (pre ++ l) (fold_left first_step l st).
Proof.
  induction l as [|v l IH]; intros pre st Hnd Hok; [by rewrite app_nil_r|]. cbn [fold_left].
  rewrite cons_middle, app_assoc in *. apply IH; [done|]. apply first_step_ok; [|done].
  intros v' Hv' E. rewrite !map_app in Hnd. apply NoDup_app in Hnd as (Hnd & _ & _). apply NoDup_app in Hnd as (_ & Hnd & _).
  apply (Hnd (loc v')); [by apply list_elem_of_fmap_2|rewrite E; by left].
Qed.
Lemma first_init : first_ok [] (HardlinkIndex.NewHardlinkIndex, []).
Proof.
  split; cbn.
  - exists []. split; [done|]. split; [done|]. intros v. split; [by intros ?%elem_of_nil|]. by intros [?%elem_of_nil _].
  - intros k l Hk. by rewrite HardlinkIndex.lookup_new in Hk.
  - by intros v ?%elem_of_nil.
Qed.

Section passes.
Context {F : Type} `{SL : SysLaws F} (cs : list string).

Lemma first_pass_run evs : forall f idx files w, run_events first_pass cs evs (f, idx, files) = (w, None) ->
  exists f', w = (f', (fold_left first_step (file_visits evs) (idx, files)).1, (fold_left first_step (file_visits evs) (idx, files)).2)
    /\ forall q, os_file f' q = os_file f q.
Proof using SL.
  induction evs as [|ev evs IH]; intros f idx files w; [intros [= <-]; by exists f|]. cbn [run_events].
  destruct ev as [n ns|n ns|n ns]; cbn [run_event run_fn first_pass tv_enterDir tv_visitNode tv_leaveDir].
  - unfold first_enterDir. pose proof (call_same (MkdirAll (render (cs ++ ns)) 448) f ltac:(by intros ? [])) as H1.
    destruct (sys_call _ f) as [f1 [e|]]; [done|]. cbn [fst] in H1. intros E. destruct (IH _ _ _ _ E) as (f' & -> & H2).
    exists f'. split; [done|]. intros q. by rewrite H2, H1.
  - unfold first_visitNode. pose proof (call_same (MkdirAll (Dir (render (cs ++ ns))) 448) f ltac:(by intros ? [])) as H1.
    destruct (sys_call _ f) as [f1 [e|]]; [done|]. cbn [fst] in H1.
    unfold file_visits. cbn [omap list_omap]. destruct (bool_decide (n_Type n = "file"%string)); cbn [negb fold_left].
    + unfold first_step at 2 4. cbn [fst snd]. change (linked (n, ns)) with (1 <? n_Links n).
      destruct (n_Size n =? 0); [|destruct ((1 <? n_Links n) && _)];
        intros E; destruct (IH _ _ _ _ E) as (f' & -> & H2); (exists f'; split; [done|]; intros q; by rewrite H2, H1).
    + intros E. destruct (IH _ _ _ _ E) as (f' & -> & H2). exists f'. split; [done|]. intros q. by rewrite H2, H1.
  - apply IH.
Qed.
End passes.

(** *** The second pass *)

Section second.
Context {F : Type} `{SL : SysLaws F} (cs : list string) (cs_plain : Forall plain cs) (blob : ID -> list byte).
Context (LoadBlob : ID -> list byte + error) (IsExist IsPermission unsup : error -> bool) (Geteuid : Z).
Definition tgt (v : fvisit) : string := render (cs ++ v.2).
Definition cont (v : fvisit) : list byte := contents blob (node_ids v.1).

(** What is asked of the files of a snapshot: plain and distinct paths,
    targets that can be written, sizes of their contents; hard links have
    equal contents, and the targets of all but their first name do not exist
    yet. *)
Record files_ok (fv : list fvisit) (f0 : F) : Prop := {
  fk_plain v : v ∈ fv -> Forall plain v.2;
  fk_distinct : NoDup (map snd fv);
  fk_writable v : v ∈ fv -> os_writable (tgt v);
  fk_size v : v ∈ fv -> n_Size v.1 = lenZ (cont v) /\ n_Size v.1 < 2 ^ 63;
  fk_links v w : v ∈ fv -> w ∈ fv -> link_key v = link_key w -> linked v = true -> linked w = true /\ cont v = cont w;
  fk_fresh v : v ∈ fv -> linked v = true -> os_file f0 (tgt v) = None;
}.
Context (fv : list fvisit) (f0 : F) (Hok : files_ok fv f0).

Lemma tgt_inj v w : v ∈ fv -> w ∈ fv -> tgt v = tgt w -> v.2 = w.2.
Proof using Hok cs_plain.
  intros Hv Hw E. pose proof (fk_plain _ _ Hok v Hv). pose proof (fk_plain _ _ Hok w Hw).
  apply render_inj in E; [|by apply Forall_app..]. by apply app_inv_head in E.
Qed.
Lemma loc_inj v w : v ∈ fv -> w ∈ fv -> loc v = loc w -> v.2 = w.2.
Proof using Hok. intros Hv Hw. apply render_inj; by eapply fk_plain. Qed.
Lemma path_inj v w : v ∈ fv -> w ∈ fv -> v.2 = w.2 -> v = w.
Proof using Hok.
  intros [i Hi]%list_elem_of_lookup [j Hj]%list_elem_of_lookup E.
  assert (i = j) as ->; [|congruence]. apply (proj1 (NoDup_alt _) (fk_distinct _ _ Hok) i j v.2).
  - apply list_lookup_fmap_Some. by exists v.
  - rewrite E. apply list_lookup_fmap_Some. by exists w.
Qed.
Lemma locs_distinct : NoDup (map loc fv).
Proof using Hok.
  apply NoDup_alt. intros i j l (v & -> & Hi)%list_lookup_fmap_Some (w & E & Hj)%list_lookup_fmap_Some.
  apply (proj1 (NoDup_alt _) (fk_distinct _ _ Hok) i j v.2); apply list_lookup_fmap_Some; [by exists v|].
  exists w. split; [|done]. apply loc_inj; [by eapply list_elem_of_lookup_2..|done].
Qed.
Lemma target_loc v : v ∈ fv -> targetPath (render cs) join2 (loc v) = tgt v.
Proof using Hok cs_plain. intros Hv. unfold targetPath, join2, loc. apply Join_render; [done|by eapply fk_plain]. Qed.

Context (idx1 : HardlinkIndex.index) (files : list fileInfo) (H1 : first_ok fv (idx1, files)).

(** The state after some of the files. *)
Record second_ok (pre : list fvisit) (w : pass2 (F := F)) : Prop := {
  so_done v : v ∈ fv -> v ∈ pre -> os_file w.1 (tgt v) = Some (cont v);
  so_primary v : v ∈ fv -> primary idx1 v -> os_file w.1 (tgt v) = Some (cont v);
  so_fresh v : v ∈ fv -> v ∉ pre -> ¬ primary idx1 v -> linked v = true -> os_file w.1 (tgt v) = None;
  so_idx k l : w.2 !! k = Some l -> exists v, v ∈ fv /\ link_key v = k /\ linked v = true /\ l = loc v /\ (v ∈ pre \/ primary idx1 v);
  so_mono k l : idx1 !! k = Some l -> w.2 !! k = Some l;
  so_other q : (forall v, v ∈ fv -> q ≠ tgt v) -> os_file w.1 q = os_file f0 q;
}.

Lemma second_same pre f f' idx : (forall q, os_file f' q = os_file f q) -> second_ok pre (f, idx) -> second_ok pre (f', idx).
Proof using Type. intros Hs [A B C D E G]. split; cbn [fst snd] in *; intros; rewrite ?Hs; eauto. Qed.

(** One more file with its contents, and nothing else changed. *)
Lemma second_more pre v f f' idx idx' : v ∈ fv -> v ∉ pre -> second_ok pre (f, idx) ->
  os_file f' (tgt v) = Some (cont v) -> (forall q, q ≠ tgt v -> os_file f' q = os_file f q) ->
  (forall k l, idx' !! k = Some l -> idx !! k = Some l \/ k = link_key v /\ l = loc v /\ linked v = true) ->
  (forall k l, idx !! k = Some l -> idx' !! k = Some l) -> second_ok (pre ++ [v]) (f', idx').
Proof using Hok cs_plain.
  intros Hv Hnp [A B C D E G] Hf Ho Hi Hm. cbn [fst snd] in *.
  assert (Hin : forall w, w ∈ pre ++ [v] <-> w ∈ pre \/ w = v) by (intros w; by rewrite elem_of_app, list_elem_of_singleton).
  assert (Hoth : forall w, w ∈ fv -> w ≠ v -> os_file f' (tgt w) = os_file f (tgt w)).
  { intros w Hw Hne. apply Ho. intros Et. by apply Hne, path_inj, tgt_inj. }
  assert (Hcase : forall w, w ∈ fv -> os_file f (tgt w) = Some (cont w) -> os_file f' (tgt w) = Some (cont w)).
  { intros w Hw Hw'. destruct (decide (w.2 = v.2)) as [E2|E2]; [apply path_inj in E2 as ->; done|]. rewrite Hoth by naive_solver. done. }
  split; cbn [fst snd].
  - intros w Hw. rewrite Hin. intros [Hp| ->]; [by apply Hcase, A|done].
  - intros w Hw Hp. by apply Hcase, B.
  - intros w Hw. rewrite Hin. intros Hn Hp Hl. rewrite Hoth by naive_solver. apply C; naive_solver.
  - intros k l Hk. destruct (Hi k l Hk) as [Hk'|(-> & -> & Hl)].
    + destruct (D k l Hk') as (w & ? & ? & ? & ? & Hor). exists w. rewrite Hin. naive_solver.
    + exists v. rewrite Hin. naive_solver.
  - intros k l Hk. by apply Hm, E.
  - intros q Hq. rewrite Ho by (by apply Hq). by apply G.
Qed.

Lemma linked_lt v : (n_Links v.1 <? 2) = negb (linked v).
Proof using Type. unfold linked. destruct (Z.ltb_spec (n_Links v.1) 2), (Z.ltb_spec 1 (n_Links v.1)); done || lia. Qed.

#[local] Abbreviation visit2 := (second_visitNode LoadBlob IsExist IsPermission unsup Geteuid (render cs)).
Lemma second_visit_file pre v f idx w : v ∈ fv -> v ∉ pre -> n_Type v.1 = "file"%string -> second_ok pre (f, idx) ->
  visit2 v.1 (tgt v) (loc v) (f, idx) = (w, None) -> second_ok (pre ++ [v]) w.
Proof using Hok H1 cs_plain SL.
  intros Hv Hnp Ht Hst. pose proof Hst as [A B C D E G]. cbn [fst snd] in *. unfold second_visitNode.
  rewrite bool_decide_eq_true_2 by done. cbn [negb]. rewrite linked_lt. change (1 <? n_Links v.1) with (linked v).
  change (HardlinkIndex.GetFilename idx (n_Inode v.1) (n_DeviceID v.1)) with (default ""%string (idx !! link_key v)).
  pose proof (fk_writable _ _ Hok v Hv) as Hw. pose proof (fk_size _ _ Hok v Hv) as [Hs _].
  assert (HHas : HardlinkIndex.Has idx (n_Inode v.1) (n_DeviceID v.1) = bool_decide (is_Some (idx !! link_key v))) by done.
  rewrite HHas. clear HHas.
  destruct ((n_Size v.1 =? 0) && (negb (linked v) || negb (bool_decide (is_Some (idx !! link_key v))))) eqn:Ea.
  { apply andb_true_iff in Ea as [Ez%Z.eqb_eq Ea].
    assert (Hc : cont v = []) by (destruct (cont v); [done|]; cbn [length] in Hs; lia).
    pose proof (restoreEmptyFileAt_same IsPermission unsup Geteuid v.1 (tgt v) (loc v) f Hw) as [R1 R2].
    destruct (restoreEmptyFileAt _ _ _ _ _ _ f) as [f' e]. intros [= <- _]. cbn [fst] in *.
    apply (second_more pre v f f' idx); try done; [by rewrite R1, Hc| |].
    - intros k l. destruct (linked v); [|by left]. rewrite HardlinkIndex.lookup_Add. change (n_Inode v.1, n_DeviceID v.1) with (link_key v).
      case_decide as Ek; [|by left]. apply orb_true_iff in Ea as [?|Ea]; [done|]. apply negb_true_iff, bool_decide_eq_false, eq_None_not_Some in Ea.
      subst k. rewrite Ea. intros [= <-]. by right.
    - intros k l Hk. destruct (linked v); [|done]. rewrite HardlinkIndex.lookup_Add. case_decide as Ek; [|done]. by rewrite Hk. }
  destruct (idx !! link_key v) as [l0|] eqn:El.
  - rewrite bool_decide_eq_true_2 in * by done. cbn [andb negb orb] in *. change (default ""%string (Some l0)) with l0.
    destruct (D _ _ El) as (x & Hx & Hk & Hlx & -> & Hor). destruct (bool_decide_reflect (loc x = loc v)) as [Eloc|Eloc]; cbn [negb].
    + assert (x = v) as -> by (apply path_inj; [done..|by apply loc_inj]). destruct Hor as [?|Hprim]; [done|].
      pose proof (RestoreMetadata_same IsPermission unsup Geteuid v.1 (tgt v) f) as Hm. unfold restoreNodeMetadataTo.
      destruct (RestoreMetadata _ _ _ _ _ f) as [f' e]. intros [= <- _]. cbn [fst] in Hm.
      apply (second_more pre v f f' idx idx); try done; [by rewrite Hm; apply B|by intros; left].
    + destruct (fk_links _ _ Hok x v Hx Hv Hk Hlx) as [Hlv Hcont].
      assert (Hnprim : ¬ primary idx1 v).
      { intros [_ Hp]. specialize (E _ _ (Hp Hlv)). apply Eloc. congruence. }
      rewrite target_loc by done. intros Hrun. assert (Hfx : os_file f (tgt x) = Some (cont x)) by (destruct Hor; [by apply A|by apply B]).
      destruct (restoreHardlinkAt _ _ _ _ _ _ _ f) as [f' e] eqn:Er. injection Hrun as <- ->.
      destruct (restoreHardlinkAt_same IsPermission unsup Geteuid v.1 (tgt x) (tgt v) (loc v) f f' (cont x) Hw (C v Hv Hnp Hnprim Hlv) Hfx Er) as [R1 R2].
      apply (second_more pre v f f' idx idx); try done; [by rewrite R1, Hcont|by intros; left].
  - rewrite bool_decide_eq_false_2 in * by (by intros [? ?]). cbn [andb negb] in *. rewrite orb_true_r, andb_true_r in Ea.
    apply Z.eqb_neq in Ea. assert (Hprim : primary idx1 v).
    { split; [done|]. intros Hlv. destruct (fo_linked _ _ H1 v Hv Hlv Ea) as [l Hl]. cbn in Hl. apply E in Hl. congruence. }
    pose proof (RestoreMetadata_same IsPermission unsup Geteuid v.1 (tgt v) f) as Hm. unfold restoreNodeMetadataTo.
    destruct (RestoreMetadata _ _ _ _ _ f) as [f' e]. intros [= <- _]. cbn [fst] in Hm.
    apply (second_more pre v f f' idx idx); try done; [by rewrite Hm; apply B|by intros; left].
Qed.

Lemma second_pass_run evs : forall pre w w', fv = pre ++ file_visits evs -> second_ok pre w ->
  run_events (second_pass LoadBlob IsExist IsPermission unsup Geteuid (render cs)) cs evs w = (w', None) -> second_ok fv w'.
Proof using Hok H1 cs_plain SL.
  induction evs as [|ev evs IH]; intros pre [f idx] w' Hfv Hst; [intros [= <-]; rewrite Hfv; by rewrite app_nil_r|]. cbn [run_events].
  destruct ev as [n ns|n ns|n ns]; cbn [run_event run_fn second_pass tv_enterDir tv_visitNode tv_leaveDir].
  - by apply (IH pre).
  - change (render (cs ++ ns)) with (tgt (n, ns)). change (render ns) with (loc (n, ns)).
    unfold file_visits in Hfv. cbn [omap list_omap] in Hfv. destruct (bool_decide_reflect (n_Type n = "file"%string)) as [Ht|Ht].
    + destruct (visit2 n _ _ _) as [w1 [e|]] eqn:Ev; [done|]. rewrite cons_middle, app_assoc in Hfv. apply (IH (pre ++ [(n, ns)]) w1 w' Hfv).
      assert (Hv : (n, ns) ∈ fv) by (rewrite Hfv; set_solver).
      apply (second_visit_file pre (n, ns) f idx w1); try done. intros Hin.
      pose proof (fk_distinct _ _ Hok) as Hnd. rewrite Hfv, !map_app in Hnd. apply NoDup_app in Hnd as (Hnd & _). apply NoDup_app in Hnd as (_ & Hnd & _).
      apply (Hnd ns); [|by left]. apply (list_elem_of_fmap_2 snd) in Hin. done.
    + unfold second_visitNode at 1. rewrite bool_decide_eq_false_2 by done. cbn [negb].
      pose proof (restoreNodeTo_same LoadBlob IsExist IsPermission unsup Geteuid n (tgt (n, ns)) (loc (n, ns)) f Ht) as Hs.
      destruct (restoreNodeTo _ _ _ _ _ _ _ _ f) as [f1 [e|]]; [done|]. cbn [fst] in Hs. apply (IH pre); [done|]. by apply (second_same pre f).
  - unfold second_leaveDir at 1, restoreNodeMetadataTo. pose proof (RestoreMetadata_same IsPermission unsup Geteuid n (render (cs ++ ns)) f) as Hs.
    destruct (RestoreMetadata _ _ _ _ _ f) as [f1 [e|]]; [done|]. cbn [fst] in Hs. apply (IH pre); [done|]. by apply (second_same pre f).
Qed.
End second.

(** *** All of it *)

Section restore_exact.
Context {S F : Type} (be : Backend S) `{SL : SysLaws F} {CP : CryptoPrims}.
Context (LoadTree : ID -> Tree + error) (LoadBlob : ID -> list byte + error).
Context (IsExist IsPermission xattr_unsupported : error -> bool) (Geteuid : Z).
Context (ErrorFn : string -> error -> option error) (SelectFilter : string -> string -> Node -> bool * bool).
Context (strict : forall l e, ErrorFn l e ≠ None) (select_all : forall l t n, SelectFilter l t n = (true, true)).
Context (Hash : list byte -> ID) (key : Key) (xxhash : string -> nat) (idx : BlobHandle -> list PackedBlob).
Context (files_order : gset nat -> list nat) (targets_order : gmap nat (list Z) -> list (nat * list Z)).
Context (sort_blobs : gmap ID blobInfo -> list (ID * blobInfo)).
Context (norm : Handle -> Handle) (stored : S -> Handle -> option (list byte)) {BL : FileLaws be norm stored}.
Context (files_perm : forall s, files_order s ≡ₚ elements s) (targets_perm : forall m, targets_order m ≡ₚ map_to_list m).
Context (sort_perm : forall m, sort_blobs m ≡ₚ map_to_list m)
  (sort_sorted : forall m, StronglySorted (fun x y => bi_offset x.2 <= bi_offset y.2) (sort_blobs m)).
Context (cs : list string) (cs_plain : Forall plain cs) (blob : ID -> list byte) (s0 : S) (f0 : F).
(** The blobs of a pack do not overlap. *)
Context (disjoint : forall id1 id2 p1 p2, id1 ≠ id2 -> p1 ∈ idx (mkHandle id1 DataBlob) -> p2 ∈ idx (mkHandle id2 DataBlob) ->
  pb_PackID p1 = pb_PackID p2 -> b_Offset (pb_Blob p1) + b_Length (pb_Blob p1) <= b_Offset (pb_Blob p2)
    \/ b_Offset (pb_Blob p2) + b_Length (pb_Blob p2) <= b_Offset (pb_Blob p1)).
#[local] Abbreviation RestoreTo_ := (RestoreTo be LoadTree LoadBlob IsExist IsPermission xattr_unsupported Geteuid ErrorFn SelectFilter
  Hash key xxhash idx files_order targets_order sort_blobs).

(** The middle: the contents of the primary files. *)
Lemma restore_primaries fv f1 idx1 files : files_ok cs blob fv f0 -> first_ok fv (idx1, files) -> (forall q, os_file f1 q = os_file f0 q) ->
  (forall v id, v ∈ fv -> id ∈ node_ids v.1 -> known Hash key idx norm stored blob s0 id) ->
  exists st', restoreFiles be Hash key xxhash idx (render cs) join2 ErrorFn files_order targets_order sort_blobs files f1 s0 = (s0, st', Ok tt)
    /\ second_ok cs blob fv f0 idx1 [] (st'.2.2, idx1).
Proof using BL files_perm targets_perm sort_perm sort_sorted disjoint cs_plain.
  intros Hok H1 Hf1 Hknown. destruct (fo_sub _ _ H1) as (sub & Hsub & Hfiles & Hmem). cbn [fst snd] in *.
  assert (Hin : forall i file, files !! i = Some file -> exists v, sub !! i = Some v /\ file = file_of v /\ v ∈ fv /\ primary idx1 v).
  { intros i file Hi. rewrite Hfiles in Hi. apply list_lookup_fmap_Some in Hi as (v & -> & Hv). exists v. split; [done|]. split; [done|].
    apply Hmem. by eapply list_elem_of_lookup_2. }
  assert (Hsize : forall v, v ∈ fv -> i64 (n_Size v.1) = lenZ (cont blob v)).
  { intros v Hv. destruct (fk_size _ _ _ _ Hok v Hv) as [Es Hlt]. rewrite Es in *. unfold i64. rewrite Z.mod_small; lia. }
  destruct (restoreFiles_spec be Hash key xxhash idx (render cs) join2 ErrorFn files_order targets_order sort_blobs
    norm stored files_perm targets_perm sort_perm sort_sorted blob s0 f1 files) as (st' & Hr & Hfiles2 & Hother & _).
  - intros i file id Hi Hid. destruct (Hin i file Hi) as (v & _ & -> & Hv & _). by apply (Hknown v).
  - intros i file Hi. destruct (Hin i file Hi) as (v & _ & -> & Hv & Hp & _). cbn [file_of rf_inProgress rf_blobs rf_size ids_of].
    split; [done|]. split; [by eexists|]. split.
    + intros E. apply Hp. destruct (fk_size _ _ _ _ Hok v Hv) as [-> _]. unfold cont. by rewrite E.
    + split; [by apply Hsize|]. change (os_writable (targetPath (render cs) join2 (loc v))).
      rewrite (target_loc cs cs_plain blob fv f0 Hok v Hv). by apply (fk_writable _ _ _ _ Hok).
  - intros i j file g Hi Hj. destruct (Hin i file Hi) as (v & Hvi & -> & Hv & _), (Hin j g Hj) as (w & Hwj & -> & Hw & _).
    unfold target, file_of; cbn [rf_location]. rewrite !(target_loc cs cs_plain blob fv f0 Hok) by done.
    intros E. apply (tgt_inj cs cs_plain blob fv f0 Hok) in E; [|done..]. apply (path_inj cs blob fv f0 Hok) in E as ->; [|done..].
    assert (Hnd : NoDup (map snd sub)) by (eapply sublist_NoDup; [apply (fk_distinct _ _ _ _ Hok)|by apply fmap_sublist]).
    apply (proj1 (NoDup_alt _) Hnd i j w.2); apply list_lookup_fmap_Some; by exists w.
  - exact disjoint.
  - exists st'. split; [exact Hr|].
    assert (Hprim : forall v, v ∈ fv -> primary idx1 v -> os_file st'.2.2 (tgt cs v) = Some (cont blob v)).
    { intros v Hv Hp. pose proof (proj2 (Hmem v) (conj Hv Hp)) as Hs. apply list_elem_of_lookup in Hs as [i Hi].
      rewrite <- (target_loc cs cs_plain blob fv f0 Hok v Hv). apply (Hfiles2 i (file_of v)). rewrite Hfiles.
      apply list_lookup_fmap_Some. by exists v. }
    assert (Hrest : forall q, (forall v, v ∈ fv -> primary idx1 v -> q ≠ tgt cs v) -> os_file st'.2.2 q = os_file f0 q).
    { intros q Hq. rewrite Hother, Hf1; [done|]. intros i file Hi. destruct (Hin i file Hi) as (v & _ & -> & Hv & Hp).
      unfold target, file_of; cbn [rf_location]. rewrite (target_loc cs cs_plain blob fv f0 Hok) by done. by apply Hq. }
    split; cbn [fst snd].
    + by intros v _ ?%elem_of_nil.
    + exact Hprim.
    + intros v Hv _ Hp Hl. rewrite Hrest by (intros w Hw Hpw E; apply Hp;
        by rewrite (path_inj cs blob fv f0 Hok v w Hv Hw (tgt_inj cs cs_plain blob fv f0 Hok v w Hv Hw E))).
      by apply (fk_fresh _ _ _ _ Hok).
    + intros k l Hk. destruct (fo_idx _ _ H1 k l Hk) as (v & Hv & <- & Hl & Hs & ->). exists v. split; [done|].
      split; [done|]. split; [done|]. split; [done|]. by right.
    + done.
    + intros q Hq. apply Hrest. auto.
Qed.

End restore_exact.

(** ** VerifyFiles *)

(** Reading files: whether [Open] fails, the size [Stat] gives, [ReadAt] of a
    number of bytes. *)
Class OSRead (F : Type) : Type := {
  os_Open : string -> F -> option error;
  os_Size : string -> F -> Z + error;
  os_ReadAt : string -> Z -> Z -> F -> list byte * option error;
}.

Section verify.
Context {F : Type} `{OSRead F} (Hash : list byte -> ID) (LookupBlobSize : ID -> option Z).
Context (LoadTree : ID -> Tree + error) (ErrorFn : string -> error -> option error).
Context (SelectFilter : string -> string -> Node -> bool * bool).

Definition nVerifyWorkers : nat := 8.

(** The loop over the blobs; the scratch space is its capacity. *)
Fixpoint verify_blobs (target : string) (content : list ID) (offset buf : Z) (f : F) : res fuel_error (Z * option error) :=
  match content with
  | [] => Ok (buf, None)
  | blobID :: content =>
      match LookupBlobSize blobID with
      | None => Ok (buf, Some (EMsg "Unable to fetch blob"))
      | Some length =>
          let buf := if buf <? length then u64 (2 * length) else buf in
          if buf <? length then Panic "slice bounds out of range"
          else match os_ReadAt target length offset f with
          | (_, Some err) => Ok (buf, Some err)
          | (data, None) =>
              if negb (Equal blobID (Hash data)) then Ok (buf, Some (EMsg "Unexpected content"))
              else verify_blobs target content (offset + length) buf f
          end
      end
  end.
Definition verifyFile (target : string) (node : Node) (buf : Z) (f : F) : res fuel_error (Z * option error) :=
  match os_Open target f with
  | Some err => Ok (buf, Some err)
  | None =>
      match os_Size target f with
      | inr err => Ok (buf, Some err)
      | inl size =>
          if bool_decide (i64 (n_Size node) ≠ size) then Ok (buf, Some (EMsg "Invalid file size"))
          else verify_blobs target (node_ids node) 0 buf f
      end
  end.

(** The jobs: the node and the path of each file. *)
Definition verify_visitor : treeVisitor (list (Node * string)) :=
  mkVisitor None (fun node target location work =>
    (if negb (bool_decide (n_Type node = "file"%string)) then work else work ++ [(node, target)], None)) None.
Fixpoint verify_jobs (work : list (Node * string)) (buf : Z) (nchecked : nat) (f : F) : res fuel_error (nat * option error) :=
  match work with
  | [] => Ok (nchecked, None)
  | (node, path) :: work =>
      '(buf, err) ← verifyFile path node buf f;
      match match err with Some e => ErrorFn path e | None => None end with
      | Some e => Ok (nchecked, Some e)
      | None => verify_jobs work buf (S nchecked) f
      end
  end.
(** The files found by the traversal are verified by one worker. *)
Definition VerifyFiles (fuel : nat) (tree : ID) (dst : string) (f : F) : res fuel_error (nat * option error) :=
  '(work, (_, err)) ← traverseTree LoadTree ErrorFn SelectFilter verify_visitor fuel dst "/" tree [];
  '(nchecked, verr) ← verify_jobs work 0 0 f;
  Ok (nchecked, match verr with Some e => Some e | None => err end).
End verify.

Class ReadLaws (F : Type) `{OSL : OSLaws F} `{RF : OSRead F} : Prop := {
  read_open p f : os_Open p f = None <-> is_Some (os_file f p);
  read_size p f d : os_file f p = Some d -> os_Size p f = inl (lenZ d);
  read_at p f d n off : os_file f p = Some d -> 0 <= n -> 0 <= off ->
    if off + n <=? lenZ d then os_ReadAt p n off f = (take (Z.to_nat n) (drop (Z.to_nat off) d), None)
    else (os_ReadAt p n off f).2 ≠ None;
}.

Section verify_spec.
Context {F : Type} `{RL : ReadLaws F} (Hash : list byte -> ID) (LookupBlobSize : ID -> option Z).
Context (sizes : forall id n, LookupBlobSize id = Some n -> 0 <= n < 2 ^ 62).

(** The data of the blobs: it has their hashes and sizes. *)
Definition parts_ok (content : list ID) (parts : list (list byte)) : Prop :=
  Forall2 (fun id part => Hash part = id /\ LookupBlobSize id = Some (lenZ part)) content parts.
(** The sizes of some blobs together. *)
Definition total_size (content : list ID) : Z := foldr Z.add 0 (map (fun id => default 0 (LookupBlobSize id)) content).
(** The file is there with its recorded size, and starts with the data of its
    blobs. *)
Definition verified (f : F) (target : string) (node : Node) : Prop := exists d parts,
  os_file f target = Some d /\ i64 (n_Size node) = lenZ d /\ parts_ok (node_ids node) parts /\ concat parts `prefix_of` d.

Lemma parts_size content parts : parts_ok content parts -> lenZ (concat parts) = total_size content.
Proof using Type.
  induction 1 as [|id part content parts [_ Hl] _ IH]; [done|]. unfold total_size in *. cbn [map foldr concat].
  rewrite Hl, length_app. change (default 0 (Some (lenZ part))) with (lenZ part). rewrite <- IH. lia.
Qed.
Lemma verified_whole f target node : verified f target node -> i64 (n_Size node) = total_size (node_ids node) ->
  exists parts, parts_ok (node_ids node) parts /\ os_file f target = Some (concat parts).
Proof using Type.
  intros (d & parts & Hd & Hs & Hp & rest & ->) Ht. exists parts. split; [done|]. pose proof (parts_size _ _ Hp) as Hl.
  rewrite length_app in Hs. assert (rest = []) as -> by (apply length_zero_iff_nil; lia). by rewrite app_nil_r in Hd.
Qed.

Lemma verify_blobs_spec target d f content : os_file f target = Some d -> forall pre suf buf, d = pre ++ suf -> 0 <= buf ->
  exists buf' err, verify_blobs Hash LookupBlobSize target content (lenZ pre) buf f = Ok (buf', err) /\ 0 <= buf'
    /\ (err = None <-> exists parts, parts_ok content parts /\ concat parts `prefix_of` suf).
Proof using RL sizes.
  intros Hd. induction content as [|id content IH]; intros pre suf buf Hs Hb; cbn [verify_blobs].
  { exists buf, None. split; [done|]. split; [done|]. split; [|done]. intros _. exists []. split; [constructor|]. apply prefix_nil. }
  destruct (LookupBlobSize id) as [n|] eqn:El.
  2: { exists buf, (Some (EMsg "Unable to fetch blob")). split; [done|]. split; [done|]. split; [done|].
       intros (parts & Hp & _). destruct (Forall2_cons_inv_l _ _ _ _ Hp) as (? & ? & [_ E] & _). congruence. }
  pose proof (sizes _ _ El) as Hn. set (buf' := if buf <? n then u64 (2 * n) else buf).
  assert (Hbuf : n <= buf').
  { subst buf'. destruct (Z.ltb_spec buf n); [|lia]. unfold u64. rewrite Z.mod_small; lia. }
  destruct (Z.ltb_spec buf' n); [lia|]. pose proof (read_at target f d n (lenZ pre) Hd ltac:(lia) ltac:(lia)) as Hr.
  assert (Hlen : length d = (length pre + length suf)%nat) by (rewrite Hs; apply length_app).
  destruct (Z.leb_spec (lenZ pre + n) (lenZ d)) as [Hle|Hgt].
  - rewrite Hr. remember (take _ _) as data eqn:Hdata. rewrite Nat2Z.id, Hs, drop_app_length in Hdata.
    assert (Hdl : lenZ data = n) by (rewrite Hdata, length_take; lia).
    destruct (Equal id (Hash data)) eqn:Eq; cbn [negb].
    + apply bool_decide_eq_true in Eq. replace (lenZ pre + n) with (lenZ (pre ++ data)) by (rewrite length_app; lia).
      destruct (IH (pre ++ data) (drop (Z.to_nat n) suf) buf') as (b2 & err & -> & Hb2 & Herr); [|lia|].
      { rewrite Hs, Hdata, <- app_assoc, take_drop. done. }
      exists b2, err. split; [done|]. split; [done|]. rewrite Herr. split.
      * intros (parts & Hp & Hpre). exists (data :: parts). split; [constructor; [split; [done|by rewrite Hdl]|done]|].
        cbn [concat]. rewrite Hdata. rewrite <- (take_drop (Z.to_nat n) suf) at 2. by apply prefix_app.
      * intros (parts & Hp & Hpre). destruct (Forall2_cons_inv_l _ _ _ _ Hp) as (part & parts' & [Hh Hl] & Hp' & ->). exists parts'. split; [done|].
        assert (Epart : part = take (Z.to_nat n) suf).
        { destruct Hpre as [k ->]. cbn [concat]. assert (n = lenZ part) as -> by congruence. by rewrite Nat2Z.id, <- app_assoc, take_app_length. }
        cbn [concat] in Hpre. rewrite Epart in Hpre. rewrite <- (take_drop (Z.to_nat n) suf) in Hpre at 2. by apply prefix_app_inv in Hpre.
    + exists buf', (Some (EMsg "Unexpected content")). split; [done|]. split; [lia|]. split; [done|].
      intros (parts & Hp & Hpre). destruct (Forall2_cons_inv_l _ _ _ _ Hp) as (part & parts' & [Hh Hl] & Hp' & ->). apply bool_decide_eq_false in Eq. exfalso. apply Eq.
      rewrite <- Hh. f_equal. rewrite Hdata. destruct Hpre as [k ->]. cbn [concat]. assert (n = lenZ part) as -> by congruence. by rewrite Nat2Z.id, <- app_assoc, take_app_length.
  - destruct (os_ReadAt target n (lenZ pre) f) as [data [err|]] eqn:Er; cbn [snd] in Hr; [|done].
    exists buf', (Some err). split; [done|]. split; [lia|]. split; [done|].
    intros (parts & Hp & Hpre). destruct (Forall2_cons_inv_l _ _ _ _ Hp) as (part & parts' & [Hh Hl] & Hp' & ->). assert (n = lenZ part) as -> by congruence.
    destruct Hpre as [k ->]. cbn [concat] in Hlen. rewrite !length_app in Hlen. lia.
Qed.

Lemma verifyFile_spec target node f buf : 0 <= buf -> exists buf' err,
  verifyFile Hash LookupBlobSize target node buf f = Ok (buf', err) /\ 0 <= buf' /\ (err = None <-> verified f target node).
Proof using RL sizes.
  intros Hb. unfold verifyFile. destruct (os_Open target f) as [e|] eqn:Eo.
  { exists buf, (Some e). split; [done|]. split; [done|]. split; [done|]. intros (d & _ & Hd & _).
    assert (os_Open target f = None) by (apply read_open; by rewrite Hd). congruence. }
  destruct (proj1 (read_open target f) Eo) as [d Hd]. rewrite (read_size target f d Hd). case_bool_decide as Es.
  - exists buf, (Some (EMsg "Invalid file size")). split; [done|]. split; [done|]. split; [done|].
    intros (d' & _ & Hd' & Es' & _). rewrite Hd in Hd'. injection Hd' as <-. done.
  - destruct (verify_blobs_spec target d f (node_ids node) Hd [] d buf eq_refl Hb) as (buf' & err & E & Hb' & Herr).
    exists buf', err. split; [exact E|]. split; [done|]. rewrite Herr. unfold verified. split.
    + intros (parts & Hp & Hpre). exists d, parts. split; [done|]. split; [done|]. done.
    + intros (d' & parts & Hd' & _ & Hp & Hpre). rewrite Hd in Hd'. injection Hd' as <-. by exists parts.
Qed.

Context (ErrorFn : string -> error -> option error) (strict : forall l e, ErrorFn l e ≠ None).
Lemma verify_jobs_spec work : forall buf n f, 0 <= buf -> exists n' err,
  verify_jobs Hash LookupBlobSize ErrorFn work buf n f = Ok (n', err)
  /\ (err = None <-> forall x, x ∈ work -> verified f x.2 x.1) /\ (err = None -> n' = (n + length work)%nat).
Proof using RL sizes strict.
  induction work as [|[node path] work IH]; intros buf n f Hb; cbn [verify_jobs].
  { exists n, None. split; [done|]. split; [|cbn; intros; lia]. split; [by intros _ x ?%elem_of_nil|done]. }
  destruct (verifyFile_spec path node f buf Hb) as (buf' & err & -> & Hb' & Herr). cbn [mbind res_bind].
  destruct err as [e|].
  - destruct (ErrorFn path e) as [e'|] eqn:E; [|by apply strict in E]. exists n, (Some e'). split; [done|]. split; [|done].
    split; [done|]. intros Hall. specialize (Hall (node, path) ltac:(by left)). apply Herr in Hall. done.
  - destruct (IH buf' (Datatypes.S n) f Hb') as (n' & err & -> & He & Hn). exists n', err. split; [done|]. split.
    + rewrite He. split; [|intros Hall x Hx; apply Hall; by right].
      intros Hall x [->|Hx]%elem_of_cons; [by apply Herr|by apply Hall].
    + intros E. rewrite (Hn E). cbn [length]. lia.
Qed.

Context (LoadTree : ID -> Tree + error) (SelectFilter : string -> string -> Node -> bool * bool).
Context (select_all : forall l t n, SelectFilter l t n = (true, true)) (cs : list string) (cs_plain : Forall plain cs).

Lemma verify_events evs : forall work, run_events verify_visitor cs evs work
  = (work ++ map (fun v => (v.1, tgt cs v)) (file_visits evs), None).
Proof using Type.
  induction evs as [|ev evs IH]; intros work; [cbn; by rewrite app_nil_r|]. cbn [run_events].
  destruct ev as [n ns|n ns|n ns]; cbn [run_event run_fn verify_visitor tv_enterDir tv_visitNode tv_leaveDir]; [apply IH| |apply IH].
  rewrite IH. unfold file_visits. cbn [omap list_omap]. destruct (bool_decide _); cbn [negb map]; [|done]. by rewrite <- app_assoc.
Qed.

(** C9: What verification finds.  The filter selects everything, the error
    callback passes every error on, the target is absolute and clean, the
    sizes of blobs are below 2^62, and files that are there can be read.  For
    well-formed trees, [VerifyFiles] returns without an error if and only if
    every regular file of the snapshot is there with its recorded size and
    starts with data that has the hashes and the sizes of its blobs (the bytes
    after the last blob are not compared); and then it reports the number of
    the files, and every file whose recorded size is that of its blobs together
    consists of exactly such data. *)
Theorem VerifyFiles_spec (f : F) (tree : ID) (root : Tree) (evs : list event)
    (Hroot : LoadTree tree = inl root) (Hevs : tree_events LoadTree [] (t_Nodes root) evs) :
  exists k, forall fuel, (k <= fuel)%nat -> exists n err,
    VerifyFiles Hash LookupBlobSize LoadTree ErrorFn SelectFilter fuel tree (render cs) f = Ok (n, err)
    /\ (err = None <-> forall v, v ∈ file_visits evs -> verified f (tgt cs v) v.1)
    /\ (err = None -> n = length (file_visits evs)
        /\ forall v, v ∈ file_visits evs -> i64 (n_Size v.1) = total_size (node_ids v.1) ->
           exists parts, parts_ok (node_ids v.1) parts /\ os_file f (tgt cs v) = Some (concat parts)).
Proof using RL sizes strict select_all cs_plain.
  destruct (traverseTree_runs LoadTree ErrorFn verify_visitor SelectFilter strict select_all cs cs_plain tree root evs Hroot Hevs) as [k T].
  exists k. intros fuel Hfuel. unfold VerifyFiles. destruct (T fuel Hfuel []) as (b & err & -> & He). rewrite verify_events in *.
  cbn [fst snd mbind res_bind app] in *. rewrite (proj2 He eq_refl).
  destruct (verify_jobs_spec (map (fun v => (v.1, tgt cs v)) (file_visits evs)) 0 0 f ltac:(done)) as (n & err' & -> & Hv & Hn).
  cbn [mbind res_bind]. exists n, (match err' with Some e => Some e | None => None end).
  assert (match err' with Some e => Some e | None => None end = err') as -> by by destruct err'.
  assert (Hiff : err' = None <-> forall v, v ∈ file_visits evs -> verified f (tgt cs v) v.1).
  2: { split; [done|]. split; [exact Hiff|]. intros E. split; [rewrite (Hn E), length_map; lia|].
       intros v Hin. by apply verified_whole, Hiff. }
  rewrite Hv. split.
  - intros Hall v Hv'. apply (Hall (v.1, tgt cs v)). by apply (list_elem_of_fmap_2 (fun v : fvisit => (v.1, tgt cs v))).
  - intros Hall x (v & -> & Hx)%list_elem_of_fmap. by apply Hall.
Qed.
End verify_spec.

(** ** Concrete restores *)

#[export] Instance toy_sys : Sys toy_fs := {
  sys_call c f :=
    match c with
    | Remove p => match f !! p with Some _ => (delete p f, None) | None => (f, Some ENotFound) end
    | Link old new =>
        match f !! old, f !! new with
        | Some d, None => (<[new := d]> f, None)
        | Some _, Some _ => (f, Some (EMsg "file exists"))
        | None, _ => (f, Some ENotFound)
        end
    | _ => (f, None)
    end
}.
#[export] Instance toy_sys_laws : SysLaws toy_fs.
Proof.
  split; cbn; unfold toy_fs.
  - intros c f q Hc. destruct c; try done; cbn in Hc.
    + destruct (f !! path); [|done]. cbn. by rewrite lookup_delete_ne by congruence.
    + destruct (f !! oldname), (f !! newname); try done. cbn. by rewrite lookup_insert_ne by congruence.
  - intros p f _ Hp. by rewrite Hp.
  - intros old new f f' d Hd. rewrite Hd. destruct (f !! new); [done|]. intros [= <-]. by rewrite lookup_insert_eq.
Qed.
#[export] Instance toy_read : OSRead toy_fs := {
  os_Open p f := match f !! p with Some _ => None | None => Some ENotFound end;
  os_Size p f := match f !! p with Some d => inl (lenZ d) | None => inr ENotFound end;
  os_ReadAt p n off f :=
    match f !! p with
    | Some d => if off + n <=? lenZ d then (take (Z.to_nat n) (drop (Z.to_nat off) d), None) else ([], Some EEOF)
    | None => ([], Some ENotFound)
    end
}.
#[export] Instance toy_read_laws : ReadLaws toy_fs.
Proof.
  split; cbn; unfold toy_fs.
  - intros p f. destruct (f !! p); split; (done || by intros [? ?]).
  - by intros p f d ->.
  - intros p f d n off -> _ _. by destruct (_ <=? _).
Qed.

Lemma mem_load_calls : load_calls toy_mem.
Proof.
  intros U ctx h len off fn u s I Hfn Hu. cbn. unfold Mem.Load, DefaultLoad.
  destruct (Mem.openReader ctx h len off s) as [s1 [rd|e]]; [|done].
  specialize (Hfn rd u Hu). destruct (fn rd u) as [u1 [e|]]; done.
Qed.

(** A file that exists is removed before a hard link to it is restored, and
    then the link is not created. *)
Lemma restoreHardlinkAt_loses (node : Node) :
  restoreHardlinkAt (fun _ => false) (fun _ => false) 0 node "/dst/a" "/dst/b" "/b"
    (<["/dst/a" := blob_A]> (<["/dst/b" := blob_A]> ∅) : toy_fs)%string = (<["/dst/a" := blob_A]> ∅, None)%string.
Proof. vm_compute. reflexivity. Qed.

(** *** A hostile snapshot *)

Definition evil_nodes : list Node :=
  [toy_node "../etc/passwd" "file" [[Byte.x0a]] None; toy_node "/" "dir" [] (Some [Byte.x02]); toy_node ".." "dir" [] (Some [Byte.x02]);
   toy_node "x/y" "file" [[Byte.x0a]] None; with_Size (toy_node "ok" "file" [[Byte.x0b]] None) 1]%string.
Definition evil_load (id : ID) : Tree + error := match id with [Byte.x01] => inl (mkTree evil_nodes) | _ => inr ENotFound end.
Definition evil_fs : toy_fs := {["/etc/passwd"%string := blob_A]}.
Definition no_load (_ : ID) : list byte + error := inr ENotFound.
Abbreviation toy_restore_to load err := (RestoreTo toy_mem (H1 := plain_prims) load no_load (fun _ => false) (fun _ => false) (fun _ => false) 0 err
  (fun _ _ _ => (true, true)) head_hash toy_key (fun _ => 0%nat) toy_idx elements map_to_list toy_sort_blobs (fun _ => inr ENotFound)).
Definition evil_run : res fuel_error (Mem.memMap * toy_fs * option error) :=
  toy_restore_to evil_load (fun _ _ => None) 5%nat [Byte.x01] "/dst"%string evil_fs (toy_store blob_A).

Lemma dst_plain : Forall plain ["dst"%string].
Proof. apply Forall_singleton. apply (bool_decide_eq_true (plain "dst"%string)). vm_compute. reflexivity. Qed.
Lemma below_dst p : below ["dst"%string] p -> p ≠ "/etc/passwd"%string.
Proof. intros (names & _ & _ & ->). destruct names; discriminate. Qed.
Lemma passwd_kept : calls_keep ["dst"%string] (fun f : toy_fs => f !! "/etc/passwd"%string = Some blob_A).
Proof.
  split; [split; cbn; unfold toy_fs|].
  - intros p create f Hp%below_dst Hf. destruct create; [cbn; by rewrite lookup_insert_ne|]. by destruct (f !! p).
  - intros p size f Hp%below_dst Hf. destruct (f !! p); [cbn; by rewrite lookup_insert_ne|done].
  - intros p b off f Hp%below_dst Hf. destruct (f !! p); [cbn; by rewrite lookup_insert_ne|done].
  - by intros p f _ Hf.
  - cbn. unfold toy_fs. intros c f Hc Hf. destruct c; try done; cbn in Hc.
    + apply below_dst in Hc. destruct (f !! path); [|done]. cbn. by rewrite lookup_delete_ne.
    + destruct Hc as [_ Hc%below_dst]. destruct (f !! oldname), (f !! newname); try done. cbn. by rewrite lookup_insert_ne.
Qed.

Definition evil_ok : bool :=
  match evil_run with Ok (s, f, e) => bool_decide (f !! "/dst/ok"%string = Some blob_B) | _ => false end.

Lemma RestoreTo_confined_witness : exists s' f' e, evil_run = Ok (s', f', e)
  /\ f' !! "/dst/ok"%string = Some blob_B /\ f' !! "/etc/passwd"%string = Some blob_A.
Proof.
  assert (Hok : evil_ok = true) by (vm_compute; reflexivity). unfold evil_ok in Hok.
  destruct evil_run as [[[s' f'] e]|x|m] eqn:E; [|discriminate Hok..]. apply bool_decide_eq_true in Hok.
  exists s', f', e. split; [done|]. split; [exact Hok|].
  exact (RestoreTo_confined ["dst"%string] dst_plain toy_mem (CP := plain_prims) (fun f : toy_fs => f !! "/etc/passwd"%string = Some blob_A)
    evil_load no_load (fun _ => false) (fun _ => false) (fun _ => false) 0 (fun _ _ => None) (fun _ _ _ => (true, true)) head_hash toy_key
    (fun _ => 0%nat) toy_idx elements map_to_list toy_sort_blobs (fun _ => inr ENotFound) 5 [Byte.x01] "/dst" evil_fs f' (toy_store blob_A)
    s' e eq_refl mem_load_calls passwd_kept E (lookup_singleton_eq _ _)).
Defined.

(** A target directory that is absolute but not clean: a directory named as
    the root passes the tests, and is the target itself. *)
Definition enter_log : treeVisitor (list string) :=
  mkVisitor (Some (fun _ target _ log => (log ++ [target], None))) (fun _ target _ log => (log, None)) None.
Definition root_load (id : ID) : Tree + error :=
  match id with [Byte.x01] => inl (mkTree [toy_node "/" "dir" [] (Some [Byte.x02])]) | _ => inl (mkTree []) end.
Lemma unclean_target_root_name :
  traverseTree root_load (fun _ e => Some e) (fun _ _ _ => (true, true)) enter_log 5 "/tmp//x" "/" [Byte.x01] []
  = Ok (["/tmp/x"%string], (true, None)).
Proof. vm_compute. reflexivity. Qed.

(** Confined paths do not confine the system: a tree with a symbolic link and
    an empty file of the same name makes the link, and then opens its path with
    truncation, which follows the link. *)
Inductive logged : Type := LOpen (p : string) (create : bool) | LCall (c : syscall).
Definition log_os : OS (list logged) := {|
  os_OpenFile p create f := (f ++ [LOpen p create], None);
  os_Preallocate _ _ f := f;
  os_WriteAt _ _ _ f := (f, None);
  os_Close _ f := (f, None) |}.
Definition log_sys : Sys (list logged) := {| sys_call c f := (f ++ [LCall c], None) |}.
Definition link_nodes : list Node :=
  [mkNode "x" "symlink" 0 zeroTime zeroTime zeroTime 0 0 "" "" 0 0 0 0 "/etc/passwd" [] 0 None None "" "";
   with_Size (toy_node "x" "file" [] None) 0]%string.
Definition is_data (l : logged) : bool := match l with LOpen _ _ | LCall (Symlink _ _) => true | _ => false end.
Definition log_of (x : res fuel_error (Mem.memMap * list logged * option error)) : list logged :=
  match x with Ok (_, f, _) => f | _ => [] end.
Lemma symlink_is_followed :
  filter is_data (log_of (RestoreTo (H := log_os) (H0 := log_sys) toy_mem (H1 := plain_prims) (fun _ => inl (mkTree link_nodes)) no_load
    (fun _ => false) (fun _ => false) (fun _ => false) 0 (fun _ e => Some e) (fun _ _ _ => (true, true)) head_hash toy_key (fun _ => 0%nat)
    toy_idx elements map_to_list toy_sort_blobs (fun _ => inr ENotFound) 5 [Byte.x01] "/dst"%string [] (toy_store blob_A)))
  = [LCall (Symlink "/etc/passwd" "/dst/x"); LOpen "/dst/x" true]%string.
Proof. vm_compute. reflexivity. Qed.

(** *** A snapshot with hard links, an empty file and a symbolic link *)

Definition toy_inode (name : string) (content : list ID) (size links inode : Z) : Node :=
  mkNode name "file" 0 zeroTime zeroTime zeroTime 0 0 "" "" inode 0 size links "" [] 0 (Some content) None "" "".
Definition node_b : Node := toy_inode "b" [[Byte.x0b]] 1 1 5.
Definition node_d : Node := toy_node "d" "dir" [] (Some [Byte.x02]).
Definition node_e : Node := toy_inode "e" [] 0 1 6.
Definition node_s : Node := toy_node "s" "symlink" [] None.
Definition node_a : Node := toy_inode "a" [[Byte.x0a]; [Byte.x0b]; [Byte.x0a]] 7 2 7.
Definition node_l : Node := toy_inode "l" [[Byte.x0a]; [Byte.x0b]; [Byte.x0a]] 7 2 7.
Definition snap_root : Tree := mkTree [node_b; node_d; node_e; node_s].
Definition snap_load (id : ID) : Tree + error :=
  match id with [Byte.x01] => inl snap_root | [Byte.x02] => inl (mkTree [node_a; node_l]) | _ => inr ENotFound end.
Definition snap_events : list event :=
  [Visit node_b ["b"]; Enter node_d ["d"]; Visit node_a ["d"; "a"]; Visit node_l ["d"; "l"]; Leave node_d ["d"]; Visit node_e ["e"]; Visit node_s ["s"]]%string.
Definition snap_files : list fvisit := [(node_b, ["b"]); (node_a, ["d"; "a"]); (node_l, ["d"; "l"]); (node_e, ["e"])]%string.

Ltac plain_tac := apply (bool_decide_eq_true (plain _)); vm_compute; reflexivity.
Lemma snap_tree_events : tree_events snap_load [] (t_Nodes snap_root) snap_events.
Proof.
  apply (te_other _ [] node_b); [plain_tac|done..|].
  apply (te_dir _ [] node_d _ [Byte.x02] (mkTree [node_a; node_l]) [Visit node_a ["d"; "a"]; Visit node_l ["d"; "l"]]%string); [plain_tac|done..| |].
  - apply (te_other _ ["d"%string] node_a); [plain_tac|done..|]. apply (te_other _ ["d"%string] node_l); [plain_tac|done..|]. constructor.
  - apply (te_other _ [] node_e); [plain_tac|done..|]. apply (te_other _ [] node_s); [plain_tac|done..|]. constructor.
Qed.
Lemma snap_cases v : v ∈ file_visits snap_events ->
  v = (node_b, ["b"])%string \/ v = (node_a, ["d"; "a"])%string \/ v = (node_l, ["d"; "l"])%string \/ v = (node_e, ["e"])%string.
Proof. change (file_visits snap_events) with snap_files. unfold snap_files. set_solver. Qed.
Lemma snap_files_ok : files_ok ["dst"%string] toy_data (file_visits snap_events) (∅ : toy_fs).
Proof.
  split.
  - intros v Hv. destruct (snap_cases v Hv) as [->|[->|[->| ->]]]; cbn [snd]; repeat (apply Forall_cons; split; [plain_tac|]); done.
  - change (map snd (file_visits snap_events)) with (map snd snap_files). apply (bool_decide_eq_true (NoDup _)). vm_compute. reflexivity.
  - done.
  - intros v Hv. destruct (snap_cases v Hv) as [->|[->|[->| ->]]]; done.
  - intros v w Hv Hw. destruct (snap_cases v Hv) as [->|[->|[->| ->]]], (snap_cases w Hw) as [->|[->|[->| ->]]]; done.
  - done.
Qed.
Lemma snap_known v id : v ∈ file_visits snap_events -> id ∈ node_ids v.1 ->
  known head_hash toy_key (CP := plain_prims) toy_idx Mem.normalize mem_contents toy_data (toy_store blob_A) id.
Proof. intros Hv Hid. apply toy_known. destruct (snap_cases v Hv) as [->|[->|[->| ->]]]; cbn in Hid; set_solver. Qed.

Definition snap_run (fuel : nat) : res fuel_error (Mem.memMap * toy_fs * option error) :=
  toy_restore_to snap_load (fun _ e => Some e) fuel [Byte.x01] "/dst"%string ∅ (toy_store blob_A).
Definition snap_result : option (option error) := match snap_run 9 with Ok (_, _, e) => Some e | _ => None end.


Definition snap_restored : toy_fs := match snap_run 9 with Ok (_, f, _) => f | _ => ∅ end.
Definition head_sizes (id : ID) : option Z := match id with [Byte.x0a] => Some 3 | [Byte.x0b] => Some 1 | _ => None end.
Lemma head_sizes_small id n : head_sizes id = Some n -> 0 <= n < 2 ^ 62.
Proof. unfold head_sizes. destruct id as [|[] [|]]; try done; intros [= <-]; lia. Qed.
Lemma VerifyFiles_spec_witness : exists k, forall fuel, (k <= fuel)%nat -> exists n err,
  VerifyFiles head_hash head_sizes snap_load (fun _ e => Some e) (fun _ _ _ => (true, true)) fuel [Byte.x01] "/dst" snap_restored = Ok (n, err)
  /\ (err = None -> n = 4%nat).
Proof.
  destruct (VerifyFiles_spec (RL := toy_read_laws) head_hash head_sizes head_sizes_small (fun _ e => Some e) ltac:(discriminate)
    snap_load (fun _ _ _ => (true, true)) ltac:(reflexivity) ["dst"%string] dst_plain snap_restored [Byte.x01] snap_root snap_events
    eq_refl snap_tree_events) as [k Hk].
  exists k. intros fuel Hf. destruct (Hk fuel Hf) as (n & err & Hr & _ & Hn). exists n, err. split; [exact Hr|]. intros E. exact (proj1 (Hn E)).
Defined.
Example snap_verifies : VerifyFiles head_hash head_sizes snap_load (fun _ e => Some e) (fun _ _ _ => (true, true)) 9 [Byte.x01] "/dst" snap_restored = Ok (4%nat, None).
Proof. vm_compute. reflexivity. Qed.
