(* ===== verification/Backup.v ===== *)
(** * Backup: what is saved can be restored

    The repository (Repository.v) and the restorer of files
    (FileRestorer.v) put together: the index and the packs that saving
    leaves behind keep the promises the restorer relies on. *)

From S2P Require Import Prelude Crypto Ids Pack IndexMap Index MasterIndex Backend Repository Contents FileRestorer.
#[local] Open Scope repo_scope.

Section backup.
Context {S : Type} (be : Backend S) (norm : Handle -> Handle) (stored : S -> Handle -> option (list byte)).
Context {SL : StoreLaws be norm stored} {FL : FileLaws be norm stored}.
Context {CP : CryptoPrims} {CL : CryptoLaws} {IC : IndexCodec}.
Context (mh : ID -> Z) (Hash : list byte -> ID) (nonce : nat -> list byte) (clock : nat -> Z) (key : Key).
Context (key_ok : Key_Valid key = true) (hash_wf : forall l, wf_ID (Hash l)).
Context (nonce_ok : forall k, lenZ (nonce k) = 16 /\ validNonce (nonce k) = true).

(** The index as the restorer sees it: [Index().Lookup]. *)
Definition index_lookup (mi : MasterIndex) (bh : BlobHandle) : list PackedBlob :=
  match MasterIndex_Lookup mh mi bh with Ok l => l | _ => [] end.

Lemma index_lookup_spec mi bh : master_wf mh mi ->
  index_lookup mi bh ≡ₚ filter (fun pb => b_handle (pb_Blob pb) = bh) (MasterIndex.known (mi_idx mi)).
Proof. intros Hwf. unfold index_lookup. by destruct (MasterIndex_Lookup_spec mh mi bh Hwf) as (l & -> & Hl). Qed.

(** Two entries of a pack for different blobs do not overlap. *)
Lemma pb_sound_disjoint s p1 p2 : pb_sound norm stored Hash key s p1 -> pb_sound norm stored Hash key s p2 ->
  pb_PackID p1 = pb_PackID p2 -> b_handle (pb_Blob p1) ≠ b_handle (pb_Blob p2) ->
  b_Offset (pb_Blob p1) + b_Length (pb_Blob p1) <= b_Offset (pb_Blob p2)
  \/ b_Offset (pb_Blob p2) + b_Length (pb_Blob p2) <= b_Offset (pb_Blob p1).
Proof.
  intros (f1 & Hf1 & _ & _ & _ & _ & _ & l1 & ((h1 & HL1) & (fin & Hlay) & Hnn & Hsum) & [i Hi]%list_elem_of_lookup)
    (f2 & Hf2 & _ & _ & _ & _ & _ & l2 & ((h2 & HL2) & _) & [j Hj]%list_elem_of_lookup) Hp Hne.
  rewrite Hp, Hf2 in Hf1. injection Hf1 as ->. rewrite HL1 in HL2. injection HL2 as -> _.
  assert (0 + foldr Z.add 0 (map b_Length l2) < 2 ^ 64) by lia.
  destruct (Nat.lt_trichotomy i j) as [Hij|[->|Hij]].
  - left. by apply (laid_out_disjoint 0 l2 fin i j).
  - rewrite Hi in Hj. injection Hj as E. by rewrite E in Hne.
  - right. by apply (laid_out_disjoint 0 l2 fin j i).
Qed.

(** *** The data of the blobs *)

Definition blob_of (cs : list (list byte)) (id : ID) : list byte :=
  match list_find (fun c => Hash c = id) cs with Some (_, c) => c | None => [] end.

(** No other data has the hash of a chunk. *)
Definition no_collision (cs : list (list byte)) : Prop := forall c x, c ∈ cs -> Hash x = Hash c -> x = c.

Lemma blob_of_chunk cs c : no_collision cs -> c ∈ cs -> blob_of cs (Hash c) = c.
Proof.
  intros Hinj Hc. unfold blob_of. destruct (list_find _ cs) as [[i c']|] eqn:E.
  - apply list_find_Some in E as (_ & Hh & _). by apply Hinj.
  - apply list_find_None in E. rewrite Forall_forall in E. by destruct (E c Hc).
Qed.

Lemma contents_chunks cs l : no_collision cs -> (forall c, c ∈ l -> c ∈ cs) ->
  contents (blob_of cs) (map Hash l) = concat l.
Proof.
  intros Hinj. induction l as [|c l IH]; intros Hl; [done|]. unfold contents in *. cbn [map concat].
  rewrite blob_of_chunk by (done || apply Hl; by left). f_equal. apply IH. intros c' Hc'. apply Hl. by right.
Qed.

(** *** What saving leaves behind *)

Section saved.
Context (N : Z) (C : BlobHandle -> Prop) (r : Repo S) (cs : list (list byte)).
Context (Hst : St norm stored mh Hash key any_pack N [] [] [] C r) (Hcol : no_collision cs).
Context (Hcov : forall c, c ∈ cs -> C (mkHandle (Hash c) DataBlob)).
#[local] Abbreviation idx := (index_lookup (r_idx r)).

Lemma saved_sound bh p : p ∈ idx bh -> pb_sound norm stored Hash key (r_be r) p /\ b_handle (pb_Blob p) = bh.
Proof using Hst.
  destruct Hst as (_ & _ & [A B _ _ _ _] & _). rewrite index_lookup_spec by done.
  intros [Hh Hp]%list_elem_of_filter. split; [by apply B|done].
Qed.

Lemma saved_known c : c ∈ cs -> FileRestorer.known Hash key idx norm stored (blob_of cs) (r_be r) (Hash c).
Proof using FL CL Hst Hcol Hcov key_ok.
  intros Hc. split.
  - pose proof Hst as (_ & _ & [A _ _ _ _ _] & HC). destruct (HC _ (Hcov c Hc)) as [(pb & Hpb & _ & Hh)|(q & b & Hq & _)]; [|by apply elem_of_nil in Hq].
    intros Hnil. pose proof (index_lookup_spec (r_idx r) (mkHandle (Hash c) DataBlob) A) as Hl. rewrite Hnil in Hl.
    assert (Hin : pb ∈ filter (fun pb => b_handle (pb_Blob pb) = mkHandle (Hash c) DataBlob) (MasterIndex.known (mi_idx (r_idx r))))
      by by apply list_elem_of_filter.
    rewrite <- Hl in Hin. by apply elem_of_nil in Hin.
  - intros p Hp. destruct (saved_sound _ p Hp) as [(file & Hf & Hid & Ho & Hl & Hle & (n & pt & Hs & Hn & Hv & Hh) & bs & (_ & (fin & Hlay) & Hnn & Hsum) & Hin) Hhd].
    pose proof (laid_out_bound 0 bs fin _ ltac:(done) Hnn ltac:(lia) Hlay Hin) as Hb.
    assert (Hbid : b_ID (pb_Blob p) = Hash c) by (unfold b_ID; by rewrite Hhd). rewrite Hbid in Hh.
    assert (pt = c) as -> by by apply Hcol.
    assert (Hlen : b_Length (pb_Blob p) = lenZ c + 32).
    { rewrite <- (sealed_length key n c Hn), <- Hs, length_take, length_drop. lia. }
    split; [done|]. rewrite blob_of_chunk by done. split; [done|]. split; [done|].
    split; [by apply (pack_handle_valid DataBlob)|]. exists file. split.
    { unfold FileRestorer.pack_handle. by rewrite (norm_pack be norm stored InvalidBlob DataBlob) in Hf. }
    split; [unfold maxInt64; lia|]. rewrite Hs. split; [by apply decrypt_sealed|done].
Qed.

Lemma saved_disjoint id1 id2 p1 p2 : id1 ≠ id2 -> p1 ∈ idx (mkHandle id1 DataBlob) -> p2 ∈ idx (mkHandle id2 DataBlob) ->
  pb_PackID p1 = pb_PackID p2 -> b_Offset (pb_Blob p1) + b_Length (pb_Blob p1) <= b_Offset (pb_Blob p2)
    \/ b_Offset (pb_Blob p2) + b_Length (pb_Blob p2) <= b_Offset (pb_Blob p1).
Proof using Hst.
  intros Hne Hp1 Hp2 Hpk. destruct (saved_sound _ _ Hp1) as [Hs1 Hh1], (saved_sound _ _ Hp2) as [Hs2 Hh2].
  apply (pb_sound_disjoint (r_be r)); [done|done|done|]. rewrite Hh1, Hh2. by intros [= ?].
Qed.
End saved.

(** ** Saving the chunks of files, then restoring the files *)

(** A file: its location, and its contents cut into chunks. *)
Abbreviation chunked := (string * list (list byte))%type.
Definition all_chunks (files : list chunked) : list (list byte) := concat (map snd files).
Definition save_ops (files : list chunked) : list (BlobType * list byte * bool) :=
  map (fun c => (DataBlob, c, false)) (all_chunks files).
Definition to_restore (f : chunked) : fileInfo := mkRFile false (lenZ (concat f.2)) f.1 (inl (map Hash f.2)).

Lemma all_chunks_elem files f c : f ∈ files -> c ∈ f.2 -> c ∈ all_chunks files.
Proof. intros Hf Hc. apply elem_of_concat. exists f.2. split; [by apply list_elem_of_fmap_2|done]. Qed.

Section restore.
Context {F : Type} {OSF : OS F} {OSL : OSLaws F} (xxhash : string -> nat) (dst : string) (Join : string -> string -> string).
Context (ErrorFn : string -> error -> option error).
Context (files_order : gset nat -> list nat) (targets_order : gmap nat (list Z) -> list (nat * list Z)).
Context (sort_blobs : gmap ID blobInfo -> list (ID * blobInfo)).
Context (files_perm : forall s, files_order s ≡ₚ elements s) (targets_perm : forall m, targets_order m ≡ₚ map_to_list m).
Context (sort_perm : forall m, sort_blobs m ≡ₚ map_to_list m)
  (sort_sorted : forall m, StronglySorted (fun x y => bi_offset x.2 <= bi_offset y.2) (sort_blobs m)).

(** C4: Backup and restore.  From a new repository on a backend that keeps
    its promises, with a valid key and a cipher that opens what it has sealed,
    save the chunks of some files and flush.  Every file has one or more chunks
    (empty files have no blobs and are not given to the restorer of files),
    there are at most 2^60 chunks in all, and each sealed chunk fits into 32
    bits.  If no call reported an error, and SHA-256 does not collide on the
    chunks, then restoring the files from the index and the packs that are left
    behind succeeds, and every target (one per file, writable: the system
    refuses no call on it) has exactly the contents of its file; no other file
    changes.  This holds however the chunks are spread over packs, and for
    chunks shared by files or repeated in one. *)
Theorem backup_restore (s : S) (noAuto : bool) (files : list chunked) (r : Repo S) (f0 : F)
    (Hcount : lenZ (all_chunks files) <= 2 ^ 60)
    (Hsize : forall c, c ∈ all_chunks files -> lenZ c + 32 <= maxuint32)
    (Hcol : no_collision (all_chunks files))
    (Hne : forall f, f ∈ files -> f.2 ≠ [])
    (Hwr : forall f, f ∈ files -> os_writable (Join dst f.1))
    (Hinj : forall i j f g, files !! i = Some f -> files !! j = Some g -> Join dst f.1 = Join dst g.1 -> i = j)
    (Hrun : (save_blobs be mh Hash nonce clock key (save_ops files);;; Flush be mh Hash nonce clock key)
      (mkRepo s (NewMasterIndex (clock 0%nat)) [] [] noAuto 1 0) = (r, Ok tt)) :
  exists st', restoreFiles be Hash key xxhash (index_lookup (r_idx r)) dst Join ErrorFn files_order targets_order sort_blobs
      (map to_restore files) f0 (r_be r) = (r_be r, st', Ok tt)
    /\ (forall f, f ∈ files -> os_file st'.2.2 (Join dst f.1) = Some (concat f.2))
    /\ (forall q, (forall f, f ∈ files -> q ≠ Join dst f.1) -> os_file st'.2.2 q = os_file f0 q).
Proof using SL FL CL key_ok hash_wf nonce_ok files_perm targets_perm sort_perm sort_sorted.
  set (cs := all_chunks files) in *.
  assert (Hlen : lenZ (save_ops files) = lenZ cs) by (unfold save_ops; by rewrite length_map).
  pose proof (triple_bind _ _ _ _ _ (save_blobs_Ready be norm stored mh Hash nonce clock key key_ok hash_wf nonce_ok
      (save_ops files) 0 (fun _ => False) ltac:(lia) ltac:(apply Forall_forall; intros o (c & -> & Hc)%list_elem_of_fmap; by apply Hsize))
    (fun _ => Flush_done be norm stored mh Hash nonce clock key key_ok hash_wf nonce_ok any_pack (any_pack_refuses be norm stored) (0 + lenZ (save_ops files)) _ ltac:(lia))) as HT.
  specialize (HT _ (Ready_new norm stored mh Hash key any_pack s (clock 0%nat) noAuto (any_pack_old _))). rewrite Hrun in HT.
  set (C := fun h => False \/ exists o, o ∈ save_ops files /\ h = mkHandle (Hash o.1.2) o.1.1) in *.
  assert (Hcov : forall c, c ∈ cs -> C (mkHandle (Hash c) DataBlob)).
  { intros c Hc. right. exists (DataBlob, c, false). split; [exact (list_elem_of_fmap_2 (fun c => (DataBlob, c, false)) _ c Hc)|done]. }
  assert (Hin : forall i f, map to_restore files !! i = Some f -> exists g, files !! i = Some g /\ f = to_restore g /\ g ∈ files).
  { intros i f Hi. apply list_lookup_fmap_Some in Hi as (g & -> & Hg). exists g. split; [done|]. split; [done|]. by eapply list_elem_of_lookup_2. }
  assert (Hcont : forall g, g ∈ files -> contents (blob_of cs) (map Hash g.2) = concat g.2).
  { intros g Hg. apply contents_chunks; [done|]. intros c Hc. by apply (all_chunks_elem files g). }
  destruct (restoreFiles_spec be Hash key xxhash (index_lookup (r_idx r)) dst Join ErrorFn files_order targets_order sort_blobs
    norm stored files_perm targets_perm sort_perm sort_sorted (blob_of cs) (r_be r) f0 (map to_restore files))
    as (st' & Hr & Hfiles & Hother & _).
  - intros i f id Hi Hid. destruct (Hin i f Hi) as (g & _ & -> & Hg). cbn in Hid.
    apply list_elem_of_fmap in Hid as (c & -> & Hc). eapply saved_known; [exact HT|done|exact Hcov|by apply (all_chunks_elem files g)].
  - intros i f Hi. destruct (Hin i f Hi) as (g & _ & -> & Hg). cbn [to_restore rf_inProgress rf_blobs rf_size ids_of].
    split; [done|]. split; [by eexists|]. split; [specialize (Hne g Hg); by destruct g.2|].
    split; [by rewrite Hcont|by apply Hwr].
  - intros i j f g Hi Hj. destruct (Hin i f Hi) as (f' & Hf & -> & _), (Hin j g Hj) as (g' & Hg & -> & _).
    apply (Hinj i j f' g' Hf Hg).
  - intros id1 id2 p1 p2. eapply saved_disjoint. exact HT.
  - exists st'. split; [exact Hr|]. split.
    + intros g Hg. apply list_elem_of_lookup in Hg as [i Hg]. rewrite <- Hcont by (by eapply list_elem_of_lookup_2).
      apply (Hfiles i (to_restore g)). by apply list_lookup_fmap_Some; exists g.
    + intros q Hq. apply Hother. intros i f Hi. destruct (Hin i f Hi) as (g & _ & -> & Hg). by apply Hq.
Qed.
End restore.
End backup.

(** ** Two files with a shared chunk, in memory *)

Definition pick_hash (l : list byte) : ID :=
  if bool_decide (l = blob_A) then replicate 32 Byte.x0a else if bool_decide (l = blob_B) then replicate 32 Byte.x0b
  else replicate 32 Byte.xff.
Lemma pick_hash_wf l : wf_ID (pick_hash l).
Proof. unfold pick_hash. by repeat case_bool_decide. Qed.
Definition toy_files : list (string * list (list byte)) := [("/a", [blob_A; blob_B; blob_A]); ("/b", [blob_B])]%string.
Lemma toy_files_chunks : no_collision pick_hash (all_chunks toy_files).
Proof.
  intros c x Hc. assert (c = blob_A \/ c = blob_B) as [->| ->] by (revert Hc; cbn; set_solver);
    unfold pick_hash; repeat case_bool_decide; intros Hx; (congruence || (vm_compute in Hx; discriminate) || discriminate).
Qed.
Lemma toy_files_small c : c ∈ all_chunks toy_files -> lenZ c + 32 <= maxuint32.
Proof. intros Hc. assert (c = blob_A \/ c = blob_B) as [->| ->] by (revert Hc; cbn; set_solver); vm_compute; discriminate. Qed.
Lemma toy_files_inj i j f g : toy_files !! i = Some f -> toy_files !! j = Some g -> ("/dst" +:+ f.1 = "/dst" +:+ g.1)%string -> i = j.
Proof. intros Hi Hj. destruct i as [|[|i]], j as [|[|j]]; cbn in Hi, Hj; simplify_eq; done. Qed.
Lemma toy_files_nonempty f : f ∈ toy_files -> f.2 ≠ [].
Proof. unfold toy_files. set_solver. Qed.

Definition toy_saved : Repo Mem.memMap * res repo_error unit :=
  (save_blobs toy_mem (H := plain_prims) (IC := toy_codec) toy_mh pick_hash toy_nonces toy_clock toy_key (save_ops toy_files);;;
   Flush toy_mem (CP := plain_prims) (IC := toy_codec) toy_mh pick_hash toy_nonces toy_clock toy_key) toy_repo.

Lemma backup_restore_witness : toy_saved.2 = Ok tt
  /\ exists st' : dlstate, restoreFiles toy_mem (H0 := plain_prims) pick_hash toy_key (fun _ => 0%nat)
       (index_lookup toy_mh (r_idx toy_saved.1)) "/dst" String.append (fun _ _ => None) elements map_to_list toy_sort_blobs
       (map (to_restore pick_hash) toy_files) (∅ : toy_fs) (r_be toy_saved.1) = (r_be toy_saved.1, st', Ok tt)
     /\ os_file st'.2.2 "/dst/a"%string = Some (blob_A ++ blob_B ++ blob_A).
Proof.
  assert (HE : toy_saved.2 = Ok tt) by (vm_compute; reflexivity).
  assert (HR : toy_saved = (toy_saved.1, Ok tt)) by (rewrite <- HE; by destruct toy_saved).
  unfold toy_saved at 1 in HR.
  destruct (backup_restore toy_mem Mem.normalize mem_contents (SL := mem_store_laws toy_md5 map_to_list)
    (FL := mem_file_laws toy_md5 map_to_list) (CL := plain_laws) (IC := toy_codec) toy_mh pick_hash
    toy_nonces toy_clock toy_key toy_key_ok pick_hash_wf toy_nonces_ok
    (fun _ => 0%nat) "/dst" String.append (fun _ _ => None) elements map_to_list toy_sort_blobs
    (fun _ => Permutation_refl _) (fun _ => Permutation_refl _) toy_sort_perm toy_sort_sorted
    ∅ false toy_files toy_saved.1 ∅ ltac:(vm_compute; discriminate) toy_files_small toy_files_chunks
    toy_files_nonempty (fun _ _ => I) toy_files_inj HR) as (st' & H1 & H2 & _).
  refine (conj HE (ex_intro _ st' (conj H1 _))). apply (H2 ("/a"%string, [blob_A; blob_B; blob_A])). by left.
Defined.
