(* ===== verification/Commands.v ===== *)
(** * Commands: the program rapi

    src/cmd/rapi: the commands of the program over an opened repository.
    [rescue restore-all-versions] writes every version of the files whose name
    matches a pattern to a directory, [snapshot info] computes statistics of
    the latest snapshot, [cat] prints objects of the repository.  What is
    printed is a result; colours, spinners and the parsing of flags are left
    out.  Trees and blobs are read in the state in which the index has been
    loaded, since reading changes nothing. *)

From S2P Require Import Prelude Crypto Ids Pack IndexMap Index MasterIndex Backend Repository Duration Keys Snapshots Locks Trees UsedBlobs Paths Glob Walker.
From S2P Require Import ArchTree Archiver Checker.
#[local] Open Scope Z_scope.
#[local] Open Scope repo_scope.

(** ** Files that are written *)

Class OutFiles (F : Type) : Type := {
  out_Stat : string -> F -> F * option error;
  (** [os.Create]: an existing file is truncated *)
  out_Create : string -> F -> F * option error;
  out_Write : string -> list byte -> F -> F * option error;
  out_Close : string -> F -> F * option error;
}.
(** [files f p] is what the file [p] holds.  The laws say what a call that
    succeeds has done; any call may fail. *)
Class OutLaws {F} `{OutFiles F} (files : F -> string -> option (list byte)) : Prop := {
  out_stat_files p f f' r q : out_Stat p f = (f', r) -> files f' q = files f q;
  out_create_files p f f' : out_Create p f = (f', None) -> files f' p = Some [] /\ forall q, q ≠ p -> files f' q = files f q;
  out_write_files p data f f' old : files f p = Some old -> out_Write p data f = (f', None) ->
    files f' p = Some (old ++ data) /\ forall q, q ≠ p -> files f' q = files f q;
  out_close_files p f f' r q : out_Close p f = (f', r) -> files f' q = files f q;
}.
(** The files at the paths [ours] can be created, and no write to them fails. *)
Definition writable {F} `{OutFiles F} (ours : string -> Prop) : Prop :=
  (forall p f, ours p -> (out_Create p f).2 = None) /\ (forall p data f, ours p -> (out_Write p data f).2 = None).

(** [makeFileIDByContents] (src/cmd/rapi/util.go) *)
Definition makeFileIDByContents (Hash : list byte -> ID) (node : Node) : ID := Hash (concat (default [] (n_Content node))).

(** ** rescue restore-all-versions *)

Module Rescue.

Definition file_name (fid : ID) (name : string) : string :=
  let hash := ID_String fid in
  let fname := (String.substring 0 8 hash ++ "_" ++ name)%string in
  let len := String.length fname in
  if (254 <=? len)%nat then ("+" ++ String.substring (len - 254) 254 fname)%string else fname.
Definition dest (targetDir : string) (fid : ID) (name : string) : string := Join [targetDir; file_name fid name].

(** The files that were found, the files of the system, the text of the
    spinner; a panic of the callback ends the walk. *)
Record state (F : Type) : Type := mkState { filesFound : gset ID; out : F; suffix : string; panicked : option string }.
#[global] Arguments mkState {F} _ _ _ _.
#[global] Arguments filesFound {F} _.
#[global] Arguments out {F} _.
#[global] Arguments suffix {F} _.
#[global] Arguments panicked {F} _.

Section restore.
Context {F : Type} `{OF : OutFiles F} (LoadTree : ID -> res repo_error Tree) (LoadBlob : ID -> res repo_error (list byte)).
Context (Hash : list byte -> ID) (sort : list Node -> list Node).

(** The loop over the blobs; errors of [Write] are ignored. *)
Fixpoint write_blobs (path : string) (blobIDs : list ID) (f : F) : F * res repo_error unit :=
  match blobIDs with
  | [] => (f, Ok tt)
  | rid :: blobIDs =>
      match LoadBlob rid with
      | Ok buf => let '(f, _) := out_Write path buf f in write_blobs path blobIDs f
      | Err e => (f, Err e)
      | Panic msg => (f, Panic msg)
      end
  end.
Definition restoreFile (fid : ID) (name : string) (blobIDs : list ID) (targetDir : string) (f : F) : F * res repo_error unit :=
  let path := dest targetDir fid name in
  match out_Create path f with
  | (f, Some _) => (f, Panic "create")
  | (f, None) =>
      let '(f, r) := write_blobs path blobIDs f in
      let '(f, _) := out_Close path f in
      (f, r)
  end.

Definition rescueWalkTree (pattern targetDir : string) : @WalkFunc repo_error (state F) := fun parentTreeID npath node nodeErr st =>
  match nodeErr with
  | Some e => (st, (true, Some (WalkErr e)))
  | None =>
      match node with
      | None => (st, (true, None))
      | Some node =>
          if negb (bool_decide (n_Type node = "file"%string)) then (st, (true, None))
          else
            let fid := makeFileIDByContents Hash node in
            if bool_decide (fid ∈ filesFound st) then (st, (true, None))
            else if bool_decide (FilepathMatch pattern (n_Name node) = Some true) then
              let found := {[fid]} ∪ filesFound st in
              match restoreFile fid (n_Name node) (default [] (n_Content node)) targetDir (out st) with
              | (f, Ok _) => (mkState found f (" restored " ++ n_Name node) (panicked st), (true, None))
              | (f, Err _) => (mkState found f (" error " ++ n_Name node) (panicked st), (true, None))
              | (f, Panic msg) => (mkState found f (suffix st) (Some msg), (false, Some (WalkErr (RMsg msg))))
              end
            else (st, (true, None))
      end
  end.

(** The callback for a snapshot.  When [Walk] itself panics (a tree that makes
    [LoadTree] panic), the files that it wrote are not in the result. *)
Definition rescue_snapshot (fuel : nat) (pattern targetDir : string) : snap_callback (state F) := fun id sn st =>
  match sn with
  | Err e => (st, Some e)
  | Panic msg => (st, Some (RMsg msg))
  | Ok sn =>
      match s_Tree sn with
      | None => (st, Some (RMsg "snapshot has nil tree"))
      | Some tree =>
          match Walk LoadTree sort (rescueWalkTree pattern targetDir) fuel tree ∅ st with
          | Ok (st, _, None) => (st, None)
          | Ok (st, _, Some (WalkErr e)) => (st, Some e)
          | Ok (st, _, Some _) => (st, Some (RMsg "walk"))
          | Err OutOfFuel => (mkState (filesFound st) (out st) (suffix st) (Some "out of fuel"%string), Some (RMsg "out of fuel"))
          | Panic msg => (mkState (filesFound st) (out st) (suffix st) (Some msg), Some (RMsg msg))
          end
      end
  end.
End restore.

Section command.
Context {S : Type} (be : Backend S) `{CP : CryptoPrims} `{IC : IndexCodec} `{SC : SnapshotCodec} `{TC : TreeCodec}.
Context (mh : ID -> Z) (Hash : list byte -> ID) (clock : nat -> Z) (key : Key) (cache : option (Handle -> bool)) (sort : list Node -> list Node).
Context {F : Type} `{OF : OutFiles F}.

(** [ForAllSnapshots] for a callback whose state stays when it ends with an
    error. *)
Fixpoint each_snapshot {U : Type} (ids : list (ID * Z)) (fn : snap_callback U) (u : U) (r : Repo S) : Repo S * (U * res repo_error unit) :=
  match ids with
  | [] => (r, (u, Ok tt))
  | (id, _) :: ids =>
      match LoadSnapshot be Hash key id r with
      | (r, Panic msg) => (r, (u, Panic msg))
      | (r, sn) =>
          match fn id sn u with
          | (u, Some e) => (r, (u, Err e))
          | (u, None) => each_snapshot ids fn u r
          end
      end
  end.
Definition tree_at (r : Repo S) (id : ID) : res repo_error Tree := (LoadTree be mh Hash key cache id r).2.
Definition blob_at (r : Repo S) (id : ID) : res repo_error (list byte) := (LoadBlob be mh Hash key cache DataBlob id r).2.

(** The result is the number of files that is printed. *)
Definition restoreAllVersions (fuel : nat) (pattern targetDir : string) (f : F) : Repo S -> Repo S * (F * res repo_error Z) := fun r =>
  match out_Stat targetDir f with
  | (f, Some e) => (r, (f, Err (RBackend e)))
  | (f, None) =>
      if bool_decide (pattern = ""%string) then (r, (f, Err (RMsg "missing pattern argument")))
      else
        match Repository.LoadIndex be mh Hash clock key r with
        | (r, Err e) => (r, (f, Err e))
        | (r, Panic msg) => (r, (f, Panic msg))
        | (r, Ok _) =>
            (* the error of ForAllSnapshots is ignored *)
            let '(r', (st, x)) :=
              match ListIDs be SnapshotFile r with
              | (r1, Ok ids) => each_snapshot ids (rescue_snapshot (tree_at r) (blob_at r) Hash sort fuel pattern targetDir) (mkState ∅ f "" None) r1
              | (r1, Err e) => (r1, (mkState ∅ f "" None, Err e))
              | (r1, Panic msg) => (r1, (mkState ∅ f "" None, Panic msg))
              end in
            (r', (out st, match panicked st, x with
                          | Some msg, _ | _, Panic msg => Panic msg
                          | None, _ => Ok (Z.of_nat (size (filesFound st)))
                          end))
        end
  end.
End command.

(** *** Every version is restored *)

Section spec.
Context {F : Type} {OF : OutFiles F} (files : F -> string -> option (list byte)).
Context (LoadTree : ID -> res repo_error Tree) (LoadBlob : ID -> res repo_error (list byte)) (Hash : list byte -> ID) (sort : list Node -> list Node).
Context (sort_perm : forall l, sort l ≡ₚ l) (pattern targetDir : string) (roots : list ID) (depth : nat) (blob : ID -> list byte).

Definition content (n : Node) : list ID := default [] (n_Content n).
Definition data (n : Node) : list byte := concat (map blob (content n)).
Definition path (n : Node) : string := dest targetDir (makeFileIDByContents Hash n) (n_Name n).
Definition matching (n : Node) : Prop := n_Type n = "file"%string /\ FilepathMatch pattern (n_Name n) = Some true.
Definition in_roots (n : Node) : Prop := exists t, t ∈ roots /\ below LoadTree t n.
(** A file of the trees whose name matches, and the path it is restored to. *)
Definition found (n : Node) : Prop := in_roots n /\ matching n.
Definition restored_path (p : string) : Prop := exists n, found n /\ p = path n.

Context {OL : OutLaws files} (disk_ok : writable restored_path).
Context (blobs_load : forall n id, found n -> id ∈ content n -> LoadBlob id = Ok (blob id)).
Context (distinct : forall n n', found n -> found n' ->
  makeFileIDByContents Hash n = makeFileIDByContents Hash n' \/ path n = path n' -> content n = content n').
Context (roots_walkable : forall t, t ∈ roots -> walkable LoadTree depth t).
#[local] Abbreviation fid := (makeFileIDByContents Hash).

Lemma write_blobs_ok p ids : restored_path p -> (forall id, id ∈ ids -> LoadBlob id = Ok (blob id)) -> forall f old, files f p = Some old ->
  exists f', write_blobs LoadBlob p ids f = (f', Ok tt) /\ files f' p = Some (old ++ concat (map blob ids)) /\ forall q, q ≠ p -> files f' q = files f q.
Proof using OL disk_ok.
  intros Hp. induction ids as [|id ids IH]; intros Hl f old Ho; cbn [write_blobs map concat]; [exists f; by rewrite app_nil_r|].
  rewrite (Hl id) by left. pose proof (proj2 disk_ok p (blob id) f Hp) as Hw. destruct (out_Write p (blob id) f) as [f1 e] eqn:EW. cbn [snd] in Hw. subst e.
  destruct (out_write_files p (blob id) f f1 old Ho EW) as [H1 H2].
  destruct (IH (fun i Hi => Hl i ltac:(by right)) f1 _ H1) as (f2 & -> & H3 & H4). exists f2. rewrite app_assoc. split; [done|]. split; [done|].
  intros q Hq. by rewrite H4, H2.
Qed.
Lemma restoreFile_ok n f : found n -> exists f', restoreFile LoadBlob (fid n) (n_Name n) (content n) targetDir f = (f', Ok tt)
  /\ files f' (path n) = Some (data n) /\ forall q, q ≠ path n -> files f' q = files f q.
Proof using OL disk_ok blobs_load.
  intros Hn. assert (Hp : restored_path (path n)) by (by exists n). unfold restoreFile. fold (path n).
  pose proof (proj1 disk_ok (path n) f Hp) as Hc. destruct (out_Create (path n) f) as [f1 e1] eqn:EC. cbn [snd] in Hc. subst e1.
  destruct (out_create_files (path n) f f1 EC) as [H1 H2].
  destruct (write_blobs_ok (path n) (content n) Hp (fun id Hi => blobs_load n id Hn Hi) f1 [] H1) as (f2 & -> & H3 & H4).
  destruct (out_Close (path n) f2) as [f3 e] eqn:Ec. pose proof (out_close_files _ _ _ _ (path n) Ec) as H5. exists f3. split; [done|]. split; [by rewrite H5|].
  intros q Hq. by rewrite (out_close_files _ _ _ _ q Ec), H4, H2.
Qed.

(** What holds between two calls of the callback. *)
Record rescued (f0 : F) (st : state F) : Prop := {
  rs_panicked : panicked st = None;
  rs_files id : id ∈ filesFound st -> exists n, found n /\ fid n = id /\ files (out st) (path n) = Some (data n);
  rs_frame q : (forall n, found n -> q ≠ path n) -> files (out st) q = files f0 q;
}.
#[local] Abbreviation fn := (rescueWalkTree LoadBlob Hash pattern targetDir).
Definition step (st : state F) (v : visit) : state F := (fn v.1.1 v.1.2 v.2 None st).1.

Lemma rescue_step f0 id p n st : rescued f0 st -> in_roots n ->
  fn id p (Some n) None st = (step st (id, p, Some n), (true, None)) /\ rescued f0 (step st (id, p, Some n)).
Proof using OL disk_ok blobs_load distinct.
  intros Hst Hn. unfold step. cbn [fst snd]. unfold rescueWalkTree. case_bool_decide as Ht; cbn [negb]; [|by split].
  case_bool_decide as Hf; [by split|]. case_bool_decide as Hm; [|by split]. assert (Hfound : found n) by (by split).
  destruct (restoreFile_ok n (out st) Hfound) as (f' & E & H1 & H2). unfold content in E. rewrite E. split; [done|]. cbn [fst].
  destruct Hst as [A1 A2 A3]. split; cbn [panicked filesFound out]; [done| |].
  - intros i [->%elem_of_singleton|Hi]%elem_of_union; [by exists n|]. destruct (A2 i Hi) as (n' & Hn' & Hi' & Hd). exists n'. split; [done|]. split; [done|].
    destruct (decide (path n' = path n)) as [Ep|Ep]; [|by rewrite H2]. rewrite Ep, H1. unfold data. by rewrite (distinct n n' Hfound Hn' (or_intror (eq_sym Ep))).
  - intros q Hq. rewrite H2 by by apply Hq. by apply A3.
Qed.
Lemma step_keeps st v : filesFound st ⊆ filesFound (step st v).
Proof.
  unfold step, rescueWalkTree. destruct (v.2) as [n|]; [|done]. case_bool_decide; cbn [negb]; [|done]. case_bool_decide; [done|]. case_bool_decide; [|done].
  destruct (restoreFile _ _ _ _ _ _) as [f' [|e|msg]]; cbn [fst filesFound]; set_solver.
Qed.
Lemma step_finds st id p n : matching n -> fid n ∈ filesFound (step st (id, p, Some n)).
Proof.
  intros [Ht Hm]. unfold step, rescueWalkTree. cbn [fst snd]. rewrite (bool_decide_eq_true_2 (n_Type n = _)) by done. cbn [negb].
  case_bool_decide; [done|]. rewrite (bool_decide_eq_true_2 (FilepathMatch _ _ = _)) by done. destruct (restoreFile _ _ _ _ _ _) as [f' [|e|msg]]; cbn [fst filesFound]; set_solver.
Qed.
Lemma steps_keep l : forall st, filesFound st ⊆ filesFound (fold_left step l st).
Proof. induction l as [|v l IH]; intros st; [done|]. cbn [fold_left]. etransitivity; [apply step_keeps|apply IH]. Qed.
Lemma steps_find l n : matching n -> called l n -> forall st, fid n ∈ filesFound (fold_left step l st).
Proof.
  intros Hm (id & p & Hin). induction l as [|v l IH]; [by apply elem_of_nil in Hin|]. intros st. cbn [fold_left].
  apply elem_of_cons in Hin as [<-|Hin]; [apply steps_keep, step_finds, Hm|by apply IH].
Qed.

Lemma rescue_snapshot_ok f0 fuel id sn t st : (depth <= fuel)%nat -> s_Tree sn = Some t -> t ∈ roots -> rescued f0 st ->
  exists st', rescue_snapshot LoadTree LoadBlob Hash sort fuel pattern targetDir id (Ok sn) st = (st', None) /\ rescued f0 st'
    /\ filesFound st ⊆ filesFound st' /\ forall n, below LoadTree t n -> matching n -> fid n ∈ filesFound st'.
Proof using OL disk_ok blobs_load distinct roots_walkable sort_perm.
  intros Hfu Hs Ht Hst. unfold rescue_snapshot. rewrite Hs.
  destruct (Walk_ignoring LoadTree sort step fn (rescued f0) in_roots) with (d := depth) (root := t) (u := st) (fuel := fuel)
    as (l & I & -> & Hinv & _ & Hall); try done.
  - intros i q n u Hu Hn. by apply rescue_step.
  - by apply roots_walkable.
  - intros n Hn. by exists t.
  - cbn [fst rescueWalkTree] in *. eexists. split; [reflexivity|]. split; [exact Hinv|]. split; [apply steps_keep|].
    intros n Hn Hm. apply steps_find; [done|]. apply Hall; [done|]. destruct Hm as [Hty _]. unfold is_file. by rewrite Hty.
Qed.
End spec.

Section restored.
Context {S : Type} (be : Backend S) {CP : CryptoPrims} {IC : IndexCodec} {SC : SnapshotCodec} {TC : TreeCodec}.
Context (mh : ID -> Z) (Hash : list byte -> ID) (clock : nat -> Z) (key : Key) (cache : option (Handle -> bool)) (sort : list Node -> list Node).

(** All listed snapshots can be loaded. *)
Fixpoint load_all (ids : list (ID * Z)) (r : Repo S) : Repo S * res repo_error (list Snapshot) :=
  match ids with
  | [] => (r, Ok [])
  | (id, _) :: ids =>
      match LoadSnapshot be Hash key id r with
      | (r, Ok sn) => match load_all ids r with (r, Ok l) => (r, Ok (sn :: l)) | x => x end
      | (r, Err e) => (r, Err e)
      | (r, Panic msg) => (r, Panic msg)
      end
  end.
(** A callback that ends every snapshot without an error, with an invariant and
    a set of results that grows. *)
Lemma each_snapshot_ok {U : Type} (fn : snap_callback U) (Inv : U -> Prop) (fids : U -> gset ID) (done_ : Snapshot -> U -> Prop) (scope : Snapshot -> Prop) :
  (forall sn u u', done_ sn u -> fids u ⊆ fids u' -> done_ sn u') ->
  (forall id sn u, scope sn -> Inv u -> exists u', fn id (Ok sn) u = (u', None) /\ Inv u' /\ fids u ⊆ fids u' /\ done_ sn u') ->
  forall ids r r' sns u, load_all ids r = (r', Ok sns) -> (forall sn, sn ∈ sns -> scope sn) -> Inv u ->
  exists u', each_snapshot be Hash key ids fn u r = (r', (u', Ok tt)) /\ Inv u' /\ fids u ⊆ fids u' /\ forall sn, sn ∈ sns -> done_ sn u'.
Proof.
  intros Hmono Hfn. induction ids as [|[id z] ids IH]; intros r r' sns u; cbn [load_all each_snapshot].
  - intros [= <- <-] _ Hu. exists u. split_and!; [done..|]. by intros sn ?%elem_of_nil.
  - destruct (LoadSnapshot be Hash key id r) as [r1 [sn|e|msg]]; [|done..]. destruct (load_all ids r1) as [r2 [l|e|msg]] eqn:El; [|done..].
    intros [= <- <-] Hs Hu. destruct (Hfn id sn u (Hs sn ltac:(left)) Hu) as (u1 & -> & Hu1 & Hsub & Hd).
    destruct (IH r1 r2 l u1 El (fun s H => Hs s ltac:(by right)) Hu1) as (u2 & -> & Hu2 & Hsub2 & Hd2). exists u2. split; [done|]. split; [done|].
    split; [by etransitivity|]. intros s [->|Hin]%elem_of_cons; [by eapply Hmono|by apply Hd2].
Qed.
(** [each_snapshot] is [ForAllSnapshots] whose state is kept. *)
Lemma each_snapshot_same {U : Type} (fn : snap_callback U) ids : forall (u : U) r,
  for_all_ids be Hash key ids ∅ fn u r
  = match each_snapshot be Hash key ids fn u r with
    | (r, (u, Ok _)) => (r, Ok u) | (r, (_, Err e)) => (r, Err e) | (r, (_, Panic msg)) => (r, Panic msg) end.
Proof.
  induction ids as [|[id z] ids IH]; intros u r; cbn [for_all_ids each_snapshot]; [done|].
  unfold IDSet_Has. rewrite bool_decide_eq_false_2 by apply not_elem_of_empty.
  destruct (LoadSnapshot be Hash key id r) as [r1 [sn|e|msg]]; [| |done].
  - destruct (fn id (Ok sn) u) as [u1 [e|]]; [done|apply IH].
  - destruct (fn id (Err e) u) as [u1 [e'|]]; [done|apply IH].
Qed.

Context {F : Type} {OF : OutFiles F} (files : F -> string -> option (list byte)) (sort_perm : forall l, sort l ≡ₚ l).
Context (pattern targetDir : string) (blob : ID -> list byte) (depth : nat).

(** C5: The command restores every version of every file that matches.  When
    the snapshots, the trees below them and the blobs of these files can be
    read, no two different contents get the same path, and no creation of or
    write to a file at one of these paths fails (an error of [Write] is ignored
    by the command), then for every file of every snapshot whose name matches
    the pattern there is afterwards a file with exactly its content, although
    trees that were seen before are skipped: at the path joined from the target
    directory, the first digits of the hash of the content and the name of a
    matching file with this content (in the directory itself when that name
    has no slashes).  No other path has changed, and the number that is printed
    is that of the distinct contents. *)
Theorem rescue_restores_all r r1 r2 r3 ids sns f0 f1 :
  let LoadTree := tree_at be mh Hash key cache r1 in
  let found := found LoadTree pattern (omap s_Tree sns) in
  let path := path Hash targetDir in
  OutLaws files -> writable (restored_path LoadTree Hash pattern targetDir (omap s_Tree sns)) ->
  pattern ≠ ""%string -> out_Stat targetDir f0 = (f1, None) ->
  Repository.LoadIndex be mh Hash clock key r = (r1, Ok tt) -> ListIDs be SnapshotFile r1 = (r2, Ok ids) -> load_all ids r2 = (r3, Ok sns) ->
  (forall sn, sn ∈ sns -> exists t, s_Tree sn = Some t /\ walkable LoadTree depth t) ->
  (forall n id, found n -> id ∈ content n -> blob_at be mh Hash key cache r1 id = Ok (blob id)) ->
  (forall n n', found n -> found n' -> makeFileIDByContents Hash n = makeFileIDByContents Hash n' \/ path n = path n' -> content n = content n') ->
  forall fuel, (depth <= fuel)%nat -> exists f' (X : gset ID),
    restoreAllVersions be mh Hash clock key cache sort fuel pattern targetDir f0 r = (r3, (f', Ok (Z.of_nat (size X))))
    /\ (forall n, found n -> exists n', found n' /\ content n' = content n /\ files f' (path n') = Some (data blob n))
    /\ (forall q, (forall n, found n -> q ≠ path n) -> files f' q = files f0 q)
    /\ (forall id, id ∈ X <-> exists n, found n /\ makeFileIDByContents Hash n = id).
Proof using sort_perm.
  intros LT fnd pth OL Hdisk Hp Hst EI EL EA Hw Hb Hd fuel Hfu. unfold restoreAllVersions. rewrite Hst, (bool_decide_eq_false_2 _ Hp), EI, EL. fold LT.
  assert (Hroots : forall t, t ∈ omap s_Tree sns -> walkable LT depth t).
  { intros t (sn & Hin & Ht)%list_elem_of_omap. destruct (Hw sn Hin) as (t' & Ht' & Hwt). rewrite Ht in Ht'. by injection Ht' as <-. }
  pose proof (rescue_snapshot_ok files LT (blob_at be mh Hash key cache r1) Hash sort sort_perm pattern targetDir (omap s_Tree sns) depth blob Hdisk Hb Hd Hroots
    f1 fuel) as Hsnap.
  destruct (each_snapshot_ok (rescue_snapshot LT (blob_at be mh Hash key cache r1) Hash sort fuel pattern targetDir)
    (rescued files LT Hash pattern targetDir (omap s_Tree sns) blob f1) filesFound
    (fun sn u => forall t n, s_Tree sn = Some t -> below LT t n -> matching pattern n -> makeFileIDByContents Hash n ∈ filesFound u)
    (fun sn => sn ∈ sns)) with (ids := ids) (r := r2) (r' := r3) (sns := sns) (u := mkState (∅ : gset ID) f1 ""%string None)
    as (u' & -> & [A1 A2 A3] & _ & Hall); [| |done|done|split; [done|set_solver|done]|].
  { intros sn u u' H1 H2 t n Ht Hn Hm. by apply H2, (H1 t). }
  { intros id sn u Hin Hu. destruct (Hw sn Hin) as (t & Ht & _).
    destruct (Hsnap id sn t u Hfu Ht) as (u' & H1 & H2 & H3 & H4); [|done|].
    - apply list_elem_of_omap. by exists sn.
    - exists u'. split_and!; [done..|]. intros t' n Ht'. rewrite Ht in Ht'. injection Ht' as <-. apply H4. }
  assert (Hfound : forall n, fnd n -> makeFileIDByContents Hash n ∈ filesFound u').
  { intros n [(t & (sn & Hin & Ht)%list_elem_of_omap & Hn) Hm]. by apply (Hall sn Hin t n). }
  rewrite A1. exists (out u'), (filesFound u'). split; [done|]. split; [|split].
  - intros n Hn. destruct (A2 _ (Hfound n Hn)) as (n' & Hn' & Hid & Hf). exists n'. split; [done|].
    assert (Hc : content n' = content n) by (apply (Hd n' n Hn' Hn); by left). split; [done|]. fold (pth n') in Hf. rewrite Hf. unfold data. by rewrite Hc.
  - intros q Hq. rewrite A3 by done. by eapply out_stat_files.
  - intros id. split; [intros (n & Hn & Hid & _)%A2; by exists n|]. intros (n & Hn & <-). by apply Hfound.
Qed.
End restored.


(** *** A rescue in memory *)

Definition map_out : OutFiles (gmap string (list byte)) := {|
  out_Stat p f := (f, None);
  out_Create p f := (<[p := []]> f, None);
  out_Write p data f := (match f !! p with Some old => <[p := old ++ data]> f | None => f end, None);
  out_Close p f := (f, None) |}.
Lemma map_out_laws : @OutLaws _ map_out (fun f p => f !! p).
Proof.
  split; cbn [out_Stat out_Create out_Write out_Close map_out].
  - by intros p f f' r q [= <- _].
  - intros p f f' [= <-]. rewrite lookup_insert_eq. split; [done|]. intros q Hq. by rewrite lookup_insert_ne.
  - intros p data f f' old Hp. rewrite Hp. intros [= <-]. rewrite lookup_insert_eq. split; [done|]. intros q Hq. by rewrite lookup_insert_ne.
  - by intros p f f' r q [= <- _].
Qed.
Lemma map_out_writable ours : @writable _ map_out ours.
Proof. done. Qed.

Definition ok_list {A} (x : res repo_error (list A)) : list A := match x with Ok l => l | _ => [] end.
Definition is_ok {A} (x : res repo_error A) : bool := match x with Ok _ => true | _ => false end.
Lemma ok_list_run {A} (x : Repo Mem.memMap * res repo_error (list A)) : is_ok x.2 = true -> x = (x.1, Ok (ok_list x.2)).
Proof. by destruct x as [r [l|e|m]]. Qed.
#[local] Abbreviation rhash := (table_hash toy_table).
Definition rescue_index : Repo Mem.memMap * res repo_error unit :=
  Repository.LoadIndex toy_mem (CP := plain_prims) (IC := toy_codec) toy_mh rhash toy_clock toy_key check_repo0.
Definition rescue_ids : Repo Mem.memMap * res repo_error (list (ID * Z)) := ListIDs toy_mem SnapshotFile rescue_index.1.
Definition rescue_snapshots : Repo Mem.memMap * res repo_error (list Snapshot) :=
  load_all toy_mem (CP := plain_prims) (SC := tree_snap_codec) rhash toy_key (ok_list rescue_ids.2) rescue_ids.1.
#[local] Abbreviation rtree := (tree_at toy_mem (CP := plain_prims) (TC := toy_trees) toy_mh rhash toy_key None rescue_index.1).
Definition rescue_blob (id : ID) : list byte :=
  ok_list (blob_at toy_mem (CP := plain_prims) toy_mh rhash toy_key None rescue_index.1 id).
Definition rescue_nodes : list Node := nodes_below rtree 4 (Archiver.toy_id Byte.x05).
Definition rescue_run : Repo Mem.memMap * (gmap string (list byte) * res repo_error Z) :=
  restoreAllVersions (OF := map_out) toy_mem (CP := plain_prims) (IC := toy_codec) (SC := tree_snap_codec) (TC := toy_trees) toy_mh rhash toy_clock toy_key None
    (fun l => l) 4 "*" "/t" ∅ check_repo0.
(** The files y and z of the snapshot are restored. *)
Lemma rescue_run_files : map_to_list rescue_run.2.1 = [("/t/ff010101_z", [Byte.x01; Byte.x02; Byte.x03]); ("/t/ff020202_y", [Byte.x04; Byte.x05])]%string.
Proof. vm_compute. reflexivity. Qed.

Definition rescue_root : ID := Archiver.toy_id Byte.x05.
Lemma rescue_walkable : walkable rtree 4 rescue_root.
Proof. apply can_walk_walkable. vm_compute. reflexivity. Qed.
Lemma rescue_index_run : rescue_index = (rescue_index.1, Ok tt).
Proof. assert (HE : rescue_index.2 = Ok tt) by (vm_compute; reflexivity). rewrite <- HE. by destruct rescue_index. Qed.
Definition rescue_list : list (ID * Z) := ok_list rescue_ids.2.
Lemma rescue_ids_run : rescue_ids = (rescue_ids.1, Ok rescue_list).
Proof. assert (HE : is_ok rescue_ids.2 = true) by (vm_compute; reflexivity). exact (ok_list_run rescue_ids HE). Qed.
Definition rescue_sns : list Snapshot := ok_list rescue_snapshots.2.
Lemma rescue_snapshots_run : rescue_snapshots = (rescue_snapshots.1, Ok rescue_sns).
Proof. assert (HE : is_ok rescue_snapshots.2 = true) by (vm_compute; reflexivity). exact (ok_list_run rescue_snapshots HE). Qed.
Lemma rescue_trees : map s_Tree rescue_sns = [Some rescue_root].
Proof. vm_compute. reflexivity. Qed.
Lemma rescue_roots : omap s_Tree rescue_sns = [rescue_root].
Proof. vm_compute. reflexivity. Qed.
Lemma rescue_found n : found rtree "*" (omap s_Tree rescue_sns) n -> n ∈ rescue_nodes /\ n_Type n = "file"%string.
Proof.
  rewrite rescue_roots. intros [(t & ->%list_elem_of_singleton & Hn) [Ht _]]. split; [|exact Ht]. exact (nodes_below_all rtree 4 rescue_root n rescue_walkable Hn).
Qed.
Lemma forallb_filter {A} (P : A -> bool) (Q : A -> Prop) `{forall x, Decision (Q x)} (l : list A) x : forallb P (filter Q l) = true -> x ∈ l -> Q x -> P x = true.
Proof. rewrite forallb_forall. intros Hall Hx HQ. apply Hall, list_elem_of_In, list_elem_of_filter. by split. Qed.
Lemma rescue_all (P : Node -> bool) n : forallb P (filter (fun n => n_Type n = "file"%string) rescue_nodes) = true ->
  found rtree "*" (omap s_Tree rescue_sns) n -> P n = true.
Proof.
  intros Hall Hn. destruct (rescue_found n Hn) as [Hin Ht]. exact (forallb_filter P (fun n => n_Type n = "file"%string) rescue_nodes n Hall Hin Ht).
Qed.
Definition blob_loads (id : ID) : bool :=
  is_ok (blob_at toy_mem (CP := plain_prims) toy_mh rhash toy_key None rescue_index.1 id).
Lemma blob_loads_ok id : blob_loads id = true ->
  blob_at toy_mem (CP := plain_prims) toy_mh rhash toy_key None rescue_index.1 id = Ok (rescue_blob id).
Proof. unfold blob_loads, rescue_blob. destruct (blob_at _ _ _ _ _ _ _) as [b|e|m]; [reflexivity|discriminate..]. Qed.
Definition same_place (n n' : Node) : bool :=
  bool_decide (makeFileIDByContents rhash n = makeFileIDByContents rhash n') || bool_decide (path rhash "/t" n = path rhash "/t" n').

Lemma rescue_restores_all_witness : exists f' (X : gset ID),
  restoreAllVersions (OF := map_out) toy_mem (CP := plain_prims) (IC := toy_codec) (SC := tree_snap_codec) (TC := toy_trees) toy_mh rhash toy_clock toy_key None
    (fun l => l) 4 "*" "/t" ∅ check_repo0 = (rescue_snapshots.1, (f', Ok (Z.of_nat (size X)))).
Proof.
  destruct (rescue_restores_all (OF := map_out) toy_mem (CP := plain_prims) (IC := toy_codec) (SC := tree_snap_codec) (TC := toy_trees) toy_mh rhash toy_clock
    toy_key None (fun l => l) (fun f p => f !! p) (fun l => Permutation_refl l) "*" "/t" rescue_blob 4 check_repo0 rescue_index.1 rescue_ids.1
    rescue_snapshots.1 rescue_list rescue_sns ∅ ∅) with (fuel := 4%nat) as (f' & X & H & _).
  - exact map_out_laws.
  - exact (map_out_writable _).
  - discriminate.
  - reflexivity.
  - exact rescue_index_run.
  - exact rescue_ids_run.
  - exact rescue_snapshots_run.
  - intros sn Hin. exists rescue_root. split; [|exact rescue_walkable]. apply (list_elem_of_fmap_2 s_Tree) in Hin.
    change (s_Tree <$> rescue_sns) with (map s_Tree rescue_sns) in Hin. rewrite rescue_trees in Hin. apply list_elem_of_singleton in Hin. exact Hin.
  - intros n id Hn Hid. apply (rescue_all (fun n => forallb blob_loads (content n))) in Hn; [|vm_compute; reflexivity]. rewrite forallb_forall in Hn.
    specialize (Hn id (proj1 (list_elem_of_In _ _) Hid)). exact (blob_loads_ok id Hn).
  - intros n n' Hn Hn' Hs. apply (rescue_all (fun n => forallb (fun n' => negb (same_place n n') || bool_decide (content n = content n'))
      (filter (fun n => n_Type n = "file"%string) rescue_nodes))) in Hn; [|vm_compute; reflexivity]. apply rescue_found in Hn' as [Hin' Ht'].
    apply (fun H => forallb_filter _ (fun n => n_Type n = "file"%string) rescue_nodes n' H Hin' Ht') in Hn.
    apply orb_true_iff in Hn as [Hn|Hn]; [|apply bool_decide_eq_true in Hn; exact Hn]. exfalso. apply negb_true_iff in Hn. unfold same_place in Hn.
    apply orb_false_iff in Hn as [H1%bool_decide_eq_false H2%bool_decide_eq_false]. destruct Hs as [Hs|Hs]; [exact (H1 Hs)|exact (H2 Hs)].
  - lia.
  - exists f', X. exact H.
Defined.

(** *** What is lost *)

(** On a full disk every write fails; the file that is left is empty and yet
    restored without an error. *)
Definition full_disk : OutFiles (gmap string (list byte)) := {|
  out_Stat p f := (f, None);
  out_Create p f := (<[p := []]> f, None);
  out_Write p data f := (f, Some (EMsg "no space left on device"));
  out_Close p f := (f, None) |}.
Lemma write_errors_ignored : (restoreFile (OF := full_disk) (fun _ => Ok [Byte.x01]) nullID "x" [nullID] "/t" ∅).2 = Ok tt
  /\ (restoreFile (OF := full_disk) (fun _ => Ok [Byte.x01]) nullID "x" [nullID] "/t" ∅).1 !! dest "/t" nullID "x" = Some [].
Proof. vm_compute. done. Qed.

(** For a long name the hash is cut off: all versions of the file are written to
    the same path. *)
Lemma substring_after a : forall b n m, String.substring (String.length a + n) m (a ++ b) = String.substring n m b.
Proof. induction a as [|c a IH]; intros b n m; [done|]. cbn. apply IH. Qed.
Lemma substring_length m : forall s, (m <= String.length s)%nat -> String.length (String.substring 0 m s) = m.
Proof. induction m as [|m IH]; intros [|c s] Hl; cbn in *; try done; [lia|]. f_equal. apply IH. lia. Qed.
Lemma file_name_long fid name : (8 <= String.length (ID_String fid))%nat -> (254 <= String.length name)%nat ->
  file_name fid name = ("+" ++ String.substring (String.length name - 254) 254 name)%string.
Proof.
  intros Hf Hn. unfold file_name. pose proof (substring_length 8 (ID_String fid) Hf) as Hl. set (h := String.substring 0 8 (ID_String fid)) in *. clearbody h.
  assert (Hlen : String.length (h ++ "_" ++ name) = (String.length (h ++ "_") + String.length name)%nat /\ String.length (h ++ "_") = 9%nat).
  { rewrite !string_length_app, Hl. cbn. lia. }
  destruct Hlen as [-> H9]. destruct (Nat.leb_spec 254 (String.length (h ++ "_") + String.length name)); [|lia].
  replace (String.length (h ++ "_") + String.length name - 254)%nat with (String.length (h ++ "_") + (String.length name - 254))%nat by lia.
  replace (h ++ "_" ++ name)%string with ((h ++ "_") ++ name)%string by (clear; induction h as [|c h IH]; [done|exact (f_equal (String.String c) IH)]).
  by rewrite substring_after.
Qed.
(** So are contents whose hashes start with the same four bytes, and a name with
    slashes leads out of the directory. *)
Lemma file_name_prefix fid fid' name : String.substring 0 8 (ID_String fid) = String.substring 0 8 (ID_String fid') -> file_name fid name = file_name fid' name.
Proof. unfold file_name. by intros ->. Qed.
Lemma dest_escapes : FilepathMatch "[^y]*/*/x" "a/../../x" = Some false /\ FilepathMatch "*/../../x" "a/../../x" = Some true
  /\ dest "/t" nullID "a/../../x" = "/x"%string.
Proof. vm_compute. done. Qed.
End Rescue.

(** ** snapshot info *)

Module Info.

Record statsContainer : Type := mkStats {
  TotalSize : Z; RestoreSize : Z; TotalFileCount : Z; UniqueFileCount : Z; TotalBlobCount : Z; TotalBlobSize : Z;
  uniqueFiles : gset ID; uniqueInodes : gset Z; blobs : BlobSet;
}.
Definition no_stats : statsContainer := mkStats 0 0 0 0 0 0 ∅ ∅ ∅.

(** The three steps of the callback for a node. *)
Definition count_content (Hash : list byte -> ID) (node : Node) (s : statsContainer) : statsContainer :=
  let fid := makeFileIDByContents Hash node in
  if bool_decide (fid ∈ uniqueFiles s) then s
  else mkStats (u64 (TotalSize s + n_Size node)) (RestoreSize s) (TotalFileCount s) (u64 (UniqueFileCount s + 1)) (TotalBlobCount s) (TotalBlobSize s)
         ({[fid]} ∪ uniqueFiles s) (uniqueInodes s) (blobs s).
Definition count_type (node : Node) (s : statsContainer) : statsContainer :=
  if bool_decide (n_Type node = "file"%string)
  then mkStats (TotalSize s) (RestoreSize s) (u64 (TotalFileCount s + 1)) (UniqueFileCount s) (TotalBlobCount s) (TotalBlobSize s)
         (uniqueFiles s) (uniqueInodes s) (blobs s)
  else s.
Definition count_inode (node : Node) (s : statsContainer) : statsContainer :=
  if bool_decide (n_Inode node ∉ uniqueInodes s) || bool_decide (n_Inode node = 0)
  then mkStats (TotalSize s) (u64 (RestoreSize s + n_Size node)) (TotalFileCount s) (UniqueFileCount s) (TotalBlobCount s) (TotalBlobSize s)
         (uniqueFiles s) ({[n_Inode node]} ∪ uniqueInodes s) (blobs s)
  else s.
Definition statsWalkTree (Hash : list byte -> ID) : @WalkFunc repo_error statsContainer := fun parentTreeID npath node nodeErr s =>
  match nodeErr with
  | Some e => (s, (true, Some (WalkErr e)))
  | None =>
      match node with
      | None => (s, (true, None))
      | Some node => (count_inode node (count_type node (count_content Hash node s)), (true, None))
      end
  end.
Definition with_blobs (s : statsContainer) (b : BlobSet) : statsContainer :=
  mkStats (TotalSize s) (RestoreSize s) (TotalFileCount s) (UniqueFileCount s) (TotalBlobCount s) (TotalBlobSize s) (uniqueFiles s) (uniqueInodes s) b.

(** [statsWalkSnapshot], with one schedule of [FindUsedBlobs], whose error is
    ignored: the blobs are those that it had found. *)
Definition statsWalkSnapshot (LoadTree : ID -> res repo_error Tree) (Hash : list byte -> ID) (sort : list Node -> list Node) (fuel : nat) (sn : Snapshot)
    (s : statsContainer) : res repo_error statsContainer :=
  match s_Tree sn with
  | None => Err (RMsg "snapshot has nil tree")
  | Some tree =>
      let load id := match LoadTree id with Ok t => Ok (Some t) | Err e => Err e | Panic msg => Panic msg end in
      let found := frun load (fun _ _ => true) find_consume fuel (finit [tree] (blobs s)) in
      match f_failed found with
      | Some (LoadPanic msg) => Panic msg
      | _ =>
          match Walk LoadTree sort (statsWalkTree Hash) fuel tree ∅ (with_blobs s (f_blobs found)) with
          | Ok (s, _, None) => Ok s
          | Ok (_, _, Some _) => Err (RMsg "walking tree")
          | Err OutOfFuel => Panic "out of fuel"
          | Panic msg => Panic msg
          end
      end
  end.

(** The loop over the blobs, in the order of the map. *)
Fixpoint count_blobs (lookup : BlobHandle -> Z * bool) (handles : list BlobHandle) (s : statsContainer) : res repo_error statsContainer :=
  match handles with
  | [] => Ok s
  | h :: handles =>
      let '(blobSize, found) := lookup h in
      if negb found then Err (RMsg "blob not found")
      else count_blobs lookup handles
        (mkStats (TotalSize s) (RestoreSize s) (TotalFileCount s) (UniqueFileCount s) (u64 (TotalBlobCount s + 1)) (u64 (TotalBlobSize s + u64 blobSize))
           (uniqueFiles s) (uniqueInodes s) (blobs s))
  end.
Definition dedupedSize (s : statsContainer) : Z :=
  if RestoreSize s <? TotalBlobSize s then 0 else u64 (RestoreSize s - TotalBlobSize s).

Section command.
Context {S : Type} (be : Backend S) `{CP : CryptoPrims} `{IC : IndexCodec} `{SC : SnapshotCodec} `{TC : TreeCodec}.
Context (mh : ID -> Z) (Hash : list byte -> ID) (clock : nat -> Z) (key : Key) (cache : option (Handle -> bool)) (sort : list Node -> list Node).

(** The statistics that are printed, with the size saved by deduplication. *)
Definition printSnapshotInfo (fuel : nat) : M S (statsContainer * Z) :=
  Repository.LoadIndex be mh Hash clock key;;;
  sid <- FindLatestSnapshot be Hash key (fun _ => true) Some (fun p => p) [] [] [] None;;
  sn <- LoadSnapshot be Hash key sid;;
  r <- get_repo;;
  stats <- lift (statsWalkSnapshot (Rescue.tree_at be mh Hash key cache r) Hash sort fuel sn no_stats);;
  stats <- lift (count_blobs (fun h => MasterIndex_LookupSize mh (r_idx r) h) (elements (blobs stats)) stats);;
  ret (stats, dedupedSize stats).
End command.

(** *** What is counted *)

Lemma count_blobs_spec lookup handles : forall s s', count_blobs lookup handles s = Ok s' ->
  Forall (fun h => (lookup h).2 = true) handles
  /\ u64 (TotalBlobCount s') = u64 (TotalBlobCount s + lenZ handles)
  /\ u64 (TotalBlobSize s') = u64 (TotalBlobSize s + foldr (fun h n => (lookup h).1 + n) 0 handles)
  /\ RestoreSize s' = RestoreSize s /\ blobs s' = blobs s.
Proof.
  induction handles as [|h handles IH]; intros s s'; cbn [count_blobs foldr]; [intros [= ->]; rewrite !Z.add_0_r; done|].
  destruct (lookup h) as [n [|]] eqn:El; cbn [negb fst]; [|done]. intros (H1 & H2 & H3 & H4 & H5)%IH. cbn [TotalBlobCount TotalBlobSize RestoreSize blobs] in *.
  split; [constructor; [by rewrite El|done]|]. split; [|split; [|done]].
  - rewrite H2, u64_add. f_equal. cbn [length]. lia.
  - rewrite H3, u64_add, <- Z.add_assoc, (Z.add_comm (u64 n)), Z.add_assoc, u64_add_r. f_equal. lia.
Qed.
(** The size that was saved is never negative, and is exact when it is not
    zero. *)
Lemma dedupedSize_spec s : 0 <= RestoreSize s < 2 ^ 64 -> 0 <= TotalBlobSize s ->
  dedupedSize s = Z.max 0 (RestoreSize s - TotalBlobSize s).
Proof. intros Hr Ht. unfold dedupedSize. destruct (Z.ltb_spec (RestoreSize s) (TotalBlobSize s)); [lia|]. rewrite u64_small; lia. Qed.

(** The files of two directories with the same tree are counted once, but are
    restored twice; and a directory counts as a file with no content. *)
Definition twin_nodes (id : ID) : list Node :=
  match id with
  | [Byte.x01] => [toy_node "a" "dir" [] (Some [Byte.x02]); toy_node "b" "dir" [] (Some [Byte.x02])]
  | _ => [toy_node "f" "file" [[Byte.x07]] None]
  end.
Definition twin_stats : res repo_error statsContainer :=
  statsWalkSnapshot (fun id => Ok (mkTree (twin_nodes id))) (fun l => l) (fun l => l) 30
    (mkSnapshot zeroTime None (Some [Byte.x01]) None "host" "" 0 0 None None None None) no_stats.
Lemma twin_directories : match twin_stats with Ok s => (TotalFileCount s, UniqueFileCount s) | _ => (0, 0) end = (1, 2).
Proof. vm_compute. reflexivity. Qed.
End Info.

(** ** cat *)

Module Cat.

(** What is printed: a value as indented JSON, or bytes. *)
Inductive output : Type :=
| OConfig (c : Config) | OSnapshot (sn : Snapshot) | OKey (k : KeyFileData) | OMasterKey (k : jsonKey) | OLock (l : Lock)
| OLine (buf : list byte)
| ORaw (warning : bool) (buf : list byte).

Section command.
Context {S : Type} (be : Backend S) `{CP : CryptoPrims} `{IC : IndexCodec} `{SC : SnapshotCodec} `{KC : KeyCodec} `{LC : LockCodec}.
Context (mh : ID -> Z) (Hash : list byte -> ID) (clock : nat -> Z) (key : Key) (cache : option (Handle -> bool)) (cfg : Config).

Definition cat_id (tpe arg0 : string) : M S ID :=
  if bool_decide (tpe = "masterkey"%string) || bool_decide (tpe = "config"%string) then ret nullID
  else
    match ParseID arg0 with
    | Ok id => ret id
    | _ =>
        if negb (bool_decide (tpe = "snapshot"%string)) then throw (RMsg "unable to parse ID")
        else fun r => match FindSnapshot be arg0 r with
                      | (r, Err _) => (r, Err (RMsg "could not find snapshot"))
                      | x => x
                      end
    end.
Fixpoint cat_blob (types : list BlobType) (id : ID) : M S output :=
  match types with
  | [] => throw (RMsg "blob not found")
  | t :: types =>
      r <- get_repo;;
      if negb (MasterIndex_Has mh (r_idx r) (mkHandle id t)) then cat_blob types id
      else
        buf <- LoadBlob be mh Hash key cache t id;;
        ret (ORaw false buf)
  end.
Definition key_file (id : ID) : M S output :=
  buf <- be_read (LoadAll be false [] (mkBeHandle KeyFile InvalidBlob (ID_String id)));;
  match file_decode buf with Some k => ret (OKey k) | None => throw (RMsg "json.Unmarshal") end.
Definition runCatFor (tpe arg0 : string) : M S output :=
  id <- cat_id tpe arg0;;
  if bool_decide (tpe = "config"%string) then ret (OConfig cfg)
  else if bool_decide (tpe = "index"%string) then buf <- LoadAndDecrypt be Hash key IndexFile id;; ret (OLine buf)
  else if bool_decide (tpe = "snapshot"%string) then sn <- LoadSnapshot be Hash key id;; ret (OSnapshot sn)
  else if bool_decide (tpe = "key"%string) then key_file id
  else if bool_decide (tpe = "masterkey"%string) then ret (OMasterKey (Key_MarshalJSON key))
  else if bool_decide (tpe = "lock"%string) then lock <- LoadLock be Hash key id;; ret (OLock lock)
  else
    Repository.LoadIndex be mh Hash clock key;;;
    if bool_decide (tpe = "pack"%string) then
      buf <- be_read (LoadAll be false [] (mkBeHandle PackFile InvalidBlob (ID_String id)));;
      ret (ORaw (negb (Equal (Hash buf) id)) buf)
    else if bool_decide (tpe = "blob"%string) then cat_blob [DataBlob; TreeBlob] id
    else throw (RMsg "invalid type").

(** The commands; an object other than the configuration and the master key
    needs an ID. *)
Definition with_arg (tpe arg0 : string) : M S output :=
  if bool_decide (arg0 = ""%string) then throw (RMsg "ID not specified") else runCatFor tpe arg0.
Definition runCatBlob : string -> M S output := with_arg "blob".
Definition runCatIndex : string -> M S output := with_arg "index".
Definition runCatSnapshot : string -> M S output := with_arg "snapshot".
Definition runCatKey : string -> M S output := with_arg "key".
Definition runCatMasterKey (arg0 : string) : M S output := runCatFor "masterkey" arg0.
Definition runCatConfig (arg0 : string) : M S output := runCatFor "config" arg0.

(** What is printed of a blob has the hash that was asked for. *)
Lemma cat_blob_hash types id : forall r r' o, cat_blob types id r = (r', Ok o) -> exists buf, o = ORaw false buf /\ Hash buf = id.
Proof.
  induction types as [|t types IH]; intros r r' o; cbn [cat_blob]; [done|]. unfold bind at 1, get_repo at 1.
  destruct (MasterIndex_Has mh (r_idx r) (mkHandle id t)); cbn [negb]; [|by apply IH]. unfold bind.
  destruct (LoadBlob be mh Hash key cache t id r) as [r1 [buf|e|msg]] eqn:El; [|done..]. intros [= _ <-]. exists buf. split; [done|].
  revert El. unfold LoadBlob, bind, get_repo, lift. destruct (lift_err _ _) as [l|e|m]; [|done..]. case_bool_decide; [done|]. apply load_packs_hash.
Qed.
Lemma runCatBlob_hash arg0 r r' o : runCatBlob arg0 r = (r', Ok o) -> exists id buf, ParseID arg0 = Ok id /\ o = ORaw false buf /\ Hash buf = id.
Proof.
  unfold runCatBlob, with_arg. case_bool_decide; [done|]. unfold runCatFor, bind at 1, cat_id. rewrite !bool_decide_eq_false_2 by discriminate. cbn [orb negb].
  destruct (ParseID arg0) as [id|e|msg]; [|done..]. cbn [ret]. rewrite bool_decide_eq_true_2 by done. unfold bind.
  destruct (Repository.LoadIndex be mh Hash clock key r) as [r1 [[]|e|msg]]; [|done..]. intros (buf & -> & Hb)%cat_blob_hash. by exists id, buf.
Qed.
End command.
End Cat.
