(* ===== verification/Api.v ===== *)
(** * Api: encryption and blobs for clients of the library

    What the fork adds to restic for programs that read repositories:
    src/crypto/rapi.go (sealing and opening of whole buffers) and
    src/restic/rapi.go (decrypting a blob of an opened pack file). *)

From S2P Require Import Prelude Crypto Ids Pack Backend Repository.
#[local] Open Scope Z_scope.

Section api.
Context {CP : CryptoPrims} (key : Key) (Hash : list byte -> ID).

Definition ciphertextLength (plaintextSize : Z) : Z := plaintextSize + Extension.
(** [nonce] is drawn at random. *)
Definition Encrypt (nonce data : list byte) : res repo_error (list byte) := encrypt key (ciphertextLength (lenZ data)) nonce data.
Definition Decrypt (reader : Reader) : res repo_error (list byte) :=
  match rd_err reader with
  | Some e => Err (RBackend e)
  | None => decrypt key (rd_bytes reader)
  end.

Definition DirectoryPrefix (id : ID) : string := String.substring 0 2 (ID_String id).

(** A reader is given the length of the buffer and the offset. *)
Definition DecryptAndCheck (blob : Blob) (reader : Z -> Z -> res Backend.error (list byte)) (check : bool) : res repo_error (list byte) :=
  buf ← lift_err RBackend (reader (b_Length blob) (i64 (b_Offset blob)));
  if negb (lenZ buf =? b_Length blob) then Err (RMsg "error loading blob: wrong length returned")
  else
    plaintext ← decrypt key buf;
    if check && negb (Equal (Hash plaintext) (b_ID blob)) then Err (RMsg "blob returned invalid hash") else Ok plaintext.
Definition Blob_Decrypt (blob : Blob) (reader : Z -> Z -> res Backend.error (list byte)) : res repo_error (list byte) := DecryptAndCheck blob reader false.
(** [os.Open] gives a reader or an error. *)
Definition DecryptFromPack (blob : Blob) (pack : (Z -> Z -> res Backend.error (list byte)) + Backend.error) : res repo_error (list byte) :=
  match pack with inr e => Err (RBackend e) | inl pack => DecryptAndCheck blob pack false end.

(** Reading from the bytes of a file: [io.EOF] when they end early. *)
Definition file_at (file : list byte) (length_ offset : Z) : res Backend.error (list byte) :=
  let buf := take (Z.to_nat length_) (drop (Z.to_nat offset) file) in
  if lenZ buf =? length_ then Ok buf else Err EEOF.

(** What was encrypted is decrypted. *)
Lemma Encrypt_Decrypt {CL : CryptoLaws} nonce data : Key_Valid key = true -> lenZ nonce = 16 -> validNonce nonce = true ->
  exists c, Encrypt nonce data = Ok c /\ lenZ c = ciphertextLength (lenZ data) /\ Decrypt (mkReader c None None) = Ok data.
Proof.
  intros Hk Hn Hv. exists (sealed key nonce data). unfold Encrypt, Decrypt. rewrite encrypt_value by done. split; [done|].
  split; [by apply sealed_length|]. by apply decrypt_sealed.
Qed.
(** A blob that was sealed at its place in a pack is read, with or without the
    check of its hash. *)
Lemma DecryptAndCheck_sealed {CL : CryptoLaws} blob pre nonce data post check : Key_Valid key = true -> lenZ nonce = 16 -> validNonce nonce = true ->
  b_Offset blob = lenZ pre -> lenZ pre < 2 ^ 63 -> b_Length blob = lenZ data + 32 -> (check = true -> Hash data = b_ID blob) ->
  DecryptAndCheck blob (file_at (pre ++ sealed key nonce data ++ post)) check = Ok data.
Proof.
  intros Hk Hn Hv Ho Hpre Hl Hh. unfold DecryptAndCheck, file_at. rewrite Ho, i64_small, Nat2Z.id, drop_app_length by lia.
  pose proof (sealed_length key nonce data Hn) as Hs. rewrite take_app_length' by lia. rewrite Hl, <- Hs, Z.eqb_refl. cbn [lift_err mbind res_bind negb].
  rewrite Z.eqb_refl. cbn [negb]. rewrite decrypt_sealed by done. cbn [mbind res_bind]. destruct check; [|done]. rewrite Hh by done.
  unfold Equal. by rewrite bool_decide_eq_true_2.
Qed.
(** With the check, only data with the hash of the blob is returned. *)
Lemma DecryptAndCheck_hash blob reader data : DecryptAndCheck blob reader true = Ok data -> Hash data = b_ID blob.
Proof.
  unfold DecryptAndCheck. destruct (reader _ _) as [buf|e|m]; cbn [lift_err mbind res_bind]; [|done..]. destruct (negb _); [done|].
  destruct (decrypt key buf) as [p|e|m]; cbn [mbind res_bind]; [|done..]. unfold Equal. case_bool_decide as He; cbn; [|done]. by intros [= <-].
Qed.
(** A blob shorter than a nonce makes it panic. *)
Lemma DecryptAndCheck_short blob file check : 0 <= b_Length blob < 16 -> 0 <= b_Offset blob -> b_Offset blob + b_Length blob <= lenZ file -> b_Offset blob < 2 ^ 63 ->
  exists m, DecryptAndCheck blob (file_at file) check = Panic m.
Proof.
  intros Hl Ho Hf Hi. unfold DecryptAndCheck, file_at. rewrite i64_small by lia. set (buf := take _ _).
  assert (Hb : lenZ buf = b_Length blob) by (unfold buf; rewrite length_take, length_drop; lia). rewrite Hb, Z.eqb_refl. cbn [lift_err mbind res_bind].
  rewrite Hb, Z.eqb_refl. cbn [negb]. unfold decrypt, gslice. rewrite bool_decide_eq_false_2 by (unfold NonceSize, ivSize; lia). by eexists.
Qed.
End api.
